(* ===== verification/_CoqProject ===== *)
-Q . S2P
Prelude.v
Chars.v
Like.v
Float64.v
Numerals.v
Json.v
Errors.v
ElValues.v
ElCompiler.v
ElCompilerProof.v
ElParser.v
ElParserProof.v
ElExpression.v
ElFastPath.v
ElTypes.v
BpmnModel.v
FlowElements.v
Execution.v
Store.v
JobTypes.v
EventDispatcher.v
Context.v
Samples.v
Variables.v
FlowSelection.v
Listeners.v
ExecutionGraph.v
Compensation.v
ParallelGateway.v
InclusiveGateway.v
TakeOutgoing.v
FeelLexer.v
FeelParser.v
FeelGrammar.v
FeelEvaluator.v
DmnTypes.v
DmnTemporal.v
DmnValues.v
DmnTable.v
DmnHitPolicy.v
DmnHitPolicyProof.v
DmnRepository.v
DmnRuntime.v
DmnFeel.v
DmnFeelProof.v
JobLocks.v
JobLocksProof.v
JobReset.v
JobStore.v
Leases.v
Chrono.v
Cron.v
TimerCycle.v
JobExecution.v
TimerSchedule.v
TimerSamples.v
JobSamples.v
EngineSafety.v
WaitStates.v
ContinueProcess.v
MultiInstance.v
ExecutionTrees.v
CommandExecutor.v
CommandSamples.v
MultiInstanceProof.v
MultiInstanceTasks.v
MultiInstanceSamples.v
CmmnTokens.v
CmmnParser.v
CmmnCondition.v
CmmnParserProof.v
CmmnConditionProof.v
CmmnSentry.v
CmmnTables.v
CmmnSatisfaction.v
CmmnCompletion.v
CmmnTermination.v
CmmnCompletionProof.v
CmmnStageCompletion.v
CmmnSamples.v
