(* ===== verification/Prelude.v ===== *)
(** * A verification of the Flowable-Rust process engine

    Flowable-Rust (under [src/modules/]) is a workflow platform: BPMN models
    are deployed, process instances run as trees of executions (tokens) kept
    in a database, and a command runs a queue of operations, the agenda, that
    move the tokens.  Decision tables (DMN) are deployed beside them and executed
    by key.  This development models the core of the BPMN engine's token flow
    with the store below it, the expression language its models are written
    in, the DMN engine (the FEEL interpreter, decision tables with their
    hit policies, required decisions and decision services), the job
    executor's store (which worker owns a job, a lock or a lease, and when), the
    schedules of timers, and of case management (CMMN) the conditions, the
    sentries and the completion of stages and cases.

    ** The parts and how they interact

    A command owns a [CommandContext]: the database session, the agenda, the
    event buffer, the history manager and the id generator.  An operation
    taken from the agenda either runs the behaviour of the activity a token
    stands on (a gateway parks, joins or forks tokens) or leaves the activity:
    it completes it, selects outgoing sequence flows from the values of
    expressions over the variable scopes, and moves, splits or ends the token.
    Every write of a token goes through the entity manager to the runtime
    store, which writes the execution row, its projected variables and the
    normalized [ACT_RU_EXECUTION] row.  At the end of a command the parked
    inclusive joins are re-examined with a reachability search on the model
    and the transient variables are stripped from the rows.

    A multi-instance activity replaces the token that enters it by a root
    execution with counters and runs the activity once per element below it,
    all at once or one after the other; each instance that ends is counted, and
    the last one, or one after which a condition holds, deletes the tree of the
    root and leaves with one new token.

    An expression [${..}] is parsed to a tree, compiled to instructions and
    run on a small stack machine, unless a fast path recognises it; results
    are cached by text.  A decision is looked up by key, tenant and parent
    deployment, the decisions it requires are executed first, each table
    matches its rules against the coerced inputs, evaluates the outputs of the
    matching rules, combines them by its hit policy, audits every rule and
    writes one history record.  Expressions inside a table are evaluated by the
    FEEL interpreter, or by a compatibility evaluator when it fails.

    Timers and asynchronous work are jobs: rows with a JSON document and typed
    columns the queries read.  Several nodes share the table.  A node acquires
    due jobs by conditional updates, or in bulk under a global lock kept in the
    property table, offers them to its executor, which checks before it runs a
    job that the node still holds it, and releases those the executor turns
    away.  Locks expire; a reset cycle clears the expired ones.  A job that
    fails is written back with one retry less, or moved to the dead letters.
    When a timer is created, and when one that repeats has fired, a business
    calendar turns its description, an instant, a duration, a cycle or a cron
    expression, into the next due instant.

    A case is a tree of stages with plan items; its rows are tasks, stages,
    child cases and processes, timers and listeners, and a mirror row per plan
    item.  Events satisfy sentries, whose conditions are evaluated on the case's
    variables.  When an item ends, its stage is completed if nothing in it blocks,
    then the stage's parent, then the case, which ends what is still open.

    ** Files

    Foundations:
    - [Prelude]: results, the state-and-error monad, its invariants
      ([preserves]), tactics and hints, list and option lemmas.
    - [Chars], [Numerals], [Float64], [Json]: Rust's strings and characters,
      reading and printing of numbers, binary64 on the Standard Library's
      [SpecFloat], [serde_json::Value], and the sort the queries use.
    - [Like]: [flowable-engine-common/src/like.rs].
    - [Errors]: [flowable-engine-common/src/lib.rs].

    The model and the store:
    - [BpmnModel]: the data types of [flowable-bpmn-model/src/model.rs].
    - [FlowElements]: the per-variant tables of the engine's source files and
      the element map of [flowable-bpmn-converter/src/lib.rs]; [converted] is
      what the converter establishes of a process.
    - [Execution]: [flowable-engine/src/runtime/execution.rs].
    - [Store]: [flowable-engine/src/persistence/db_session.rs],
      [runtime_store.rs] and [flowable-persistence/src/entity/execution.rs];
      tables are finite maps, [store_wf] is the invariant between them.
    - [Samples]: concrete processes and contexts on which the theorems are
      applied.

    The token flow ([flowable-engine/src/]):
    - [EventDispatcher]: [engine/event_dispatcher.rs].  What a listener answers
      may depend on everything listeners were told before.
    - [Context]: [interceptor/command_context.rs], [agenda/agenda.rs],
      [persistence/execution_entity_manager.rs].  The classes [Env] and
      [UuidLaws] are the environment and what is relied on of it.
    - [Variables]: [engine/variable_service.rs], [runtime/compensation.rs].
    - [FlowSelection]: [bpmn/skip_expression.rs],
      [el/uel_expression_condition.rs] and the selection functions of
      [agenda/take_outgoing_sequence_flows_operation.rs].
    - [Listeners]: [bpmn/listener/execution_listener_util.rs].
    - [ExecutionGraph]: [bpmn/execution_graph_util.rs].
    - [Compensation]: the compensation and cancel-boundary lookups.
    - [ParallelGateway], [InclusiveGateway]: the two gateway behaviours under
      [bpmn/behavior/].
    - [TakeOutgoing]: the take-outgoing-sequence-flows operation.  The class
      [AdhocCompletion] is what it asks of the ad-hoc sub-process.
    - [EngineSafety]: a program logic for these handlers ([keeps]) and the proof
      that each of them leaves a well-formed context, on failure too.
    - [ContinueProcess]: [agenda/continue_process_operation.rs], the behaviour
      factory and [bpmn/job_category.rs].  [CommandState] joins the context of
      the token flow and the job tables of the same session; the class
      [Activities] is what it asks of the other behaviours and of history.
    - [WaitStates]: the tables of what an execution waits for (tasks, event wait
      states and subscriptions, boundary events, event sub-processes) and the
      operations of [runtime_store.rs] by execution, host and scope.
    - [MultiInstance]: [bpmn/behavior/multi_instance_support.rs], around any
      behaviour; [with_multi_instance] turns an instance of [Activities] into one
      whose multi-instance behaviours are this code, and [multi_instance_laws]
      discharges what the continue-process operation asks of them.
    - [ExecutionTrees]: the executions below one, and the deletion of such a tree
      with everything it waits for; [MultiInstanceProof]: how instances are
      created and how the activity is left.
    - [MultiInstanceTasks]: the end of [complete_task_internal] of
      [engine/task_service.rs], with the aggregation of instance variables;
      [MultiInstanceSamples]: concrete processes, and where the code falls short.
    - [CommandExecutor]: [interceptor/command_executor.rs] and
      [command_interceptor.rs]: the agenda loop, commit and rollback;
      [CommandSamples]: concrete runs.

    The expression language ([flowable-engine-common/src/el/]):
    - [ElValues]: values, operators, the method registry and
      [variable_container.rs].
    - [ElCompiler]: the tree, its strict and lenient evaluation, the compiler
      and the two machines; [ElCompilerProof]: the machines compute what the
      tree denotes.
    - [ElParser]: the parser, with its positions in bytes; [ElParserProof]: its
      measure and what it leaves well formed.
    - [ElExpression]: [SimpleExpression], composite texts and the cache;
      [ElFastPath]: the variable fast path agrees with the general one;
      [ElTypes]: results are well-formed JSON.

    FEEL ([flowable-dmn-engine/src/feel/]):
    - [FeelLexer]: [token.rs], [ast.rs], [error.rs], and [lexer.rs] with the lexical
      grammar it implements.
    - [FeelParser]: [parser.rs]; [FeelGrammar]: the expression grammar as a
      relation and the proof that the parser decides it.
    - [FeelEvaluator]: [evaluator.rs] and the pipeline of [mod.rs].

    Decision tables ([flowable-dmn-engine/src/], [models.rs], [runtime.rs] and
    [repository.rs]):
    - [DmnTypes]: the data types, and the interfaces to the libraries ([Chrono],
      [Regex], [JsonReader]) and to the expression engine ([Evaluation]).
    - [DmnTemporal]: type references and durations; [DmnValues]: temporal and
      numeric values, comparison and coercion.
    - [DmnTable]: unary tests, rule matching, output entries.
    - [DmnHitPolicy]: hit policies and audit; [DmnHitPolicyProof]: what each
      returns, for any instance of [Evaluation].
    - [DmnRepository]: the lookups.  [DmnRuntime]: execution of definitions,
      required decisions and services over a [Run] (clock, ids, history, the
      three collections of the recursion) and its theorems.
    - [DmnFeel]: [FeelExpressionEngine]; [DmnFeelProof]: it is total and is an
      instance of [Evaluation].

    Jobs and locks ([flowable-engine/src/]):
    - [JobTypes]: the job, lease and lock records of
      [persistence/runtime_store.rs] and the session operations on them
      ([persistence/db_session.rs]): conditional update, exclusive insert, bulk
      update, filtered select.  A row is its document and its columns.  The
      class [SqlOrder] is what a database leaves open, the order of equal keys.
    - [JobLocks]: acquisition, reset, release and unlocking; [JobLocksProof].
    - [JobReset]: the cycle of [engine/reset_expired_jobs.rs].
    - [JobStore]: insertion with its derived columns, the external workers'
      fetch and the guarded replacement.
    - [Leases]: the property lock, [LockManager], the coordinator lease with its
      fencing tokens, the lock of a process instance, and the interleaved
      protocols.
    - [JobExecution]: retry cycles, the record of a failure, the guard of an
      execution, the offer to the executor and the wait policy.
    - [JobSamples]: concrete sessions, and where the code falls short.

    Timers ([flowable-engine/src/], [engine/time_source.rs],
    [engine/business_calendar.rs], [bpmn/timer_util.rs]):
    - [Chrono]: instants and durations.  The [chrono] package is the class
      [Chrono], what is relied on of it the class [ChronoLaws].
    - [Cron]: the fields of a cron expression and the search for its next match.
    - [TimerCycle]: cycle expressions, their next fire and their count.
    - [TimerSchedule]: calendars, their registry, the schedule of a new timer and
      of a fired one, the due date of a user task.
    - [TimerSamples]: the Gregorian calendar as an instance of the laws, concrete
      schedules, and where the code falls short.

    Case management ([flowable-cmmn-model/src/lib.rs] and
    [flowable-cmmn-engine/src/], [models.rs] and [runtime.rs]):
    - [CmmnTokens]: the tree of a sentry's condition, variable paths and the
      tokenizer.
    - [CmmnParser]: [IfPartParser] and the printer of operands;
      [CmmnParserProof]: tokenizer and parser are total, and the three readings
      of a path in the source agree.
    - [CmmnCondition]: the engine's tree, paths and the run-time evaluators;
      [CmmnConditionProof]: they compute the meaning of the tree.
    - [CmmnSentry]: sentries and their evaluation for one event, and where the
      two evaluators agree.
    - [CmmnTables]: the rows of a case, the session they are in and the case
      model; [lifecycle_listener.rs] and the places that call it.
    - [CmmnSatisfaction]: the log of standard events, persisted markers, the
      sweep and the selection of sentries; available conditions, task attributes
      and candidates.
    - [CmmnCompletion]: whether a stage or a case may complete: rules, required
      items, what blocks; [CmmnCompletionProof]: the decision as a statement about
      the rows.
    - [CmmnTermination]: ending, repeating and terminating instances, and the two
      functions that complete a stage with its parents and a case;
      [CmmnStageCompletion]: what they do.
    - [CmmnSamples]: concrete cases, and where the code
      falls short.

    ** Conventions

    A function that returns a Rust [Result] and mutates a context is a
    computation in the state-and-error monad, which keeps the state on the
    error path.  An index out of bounds or an [unwrap] on nothing is a value of
    its own ([None], [PPanicked]).  A message of [format!] is the list of its
    fragments.  A [HashMap] is a [gmap]; where the source iterates over one,
    the model iterates over [map_to_list], and the theorems do not depend on
    the order.  Integers are [Z] or [nat]; widths are written out where they
    matter (the order column, number literals, numeric values).  Theorems that
    are claims carry an identifier [C<n>] and the ones with hypotheses are
    applied to a concrete case in a lemma that ends in [_witness].

    ** What the theorems show

    - Store: writing, deleting and stripping executions keep the three tables
      consistent; compensation subscriptions are strictly ordered.
    - Variables: a name resolves to the nearest scope that defines it.
    - Selection: the exclusive gateway takes the first accepting flow, other
      nodes all accepting ones, the default only when none accepts.
    - Graph: the container search is exact with respect to a declarative
      relation ([inside]); the reachability search answers whether a token can
      [moves] to the target, on processes without the two elements its table of
      outgoing flows lacks.
    - Gateways: a join waits until it may fire, then consumes exactly the
      waiting tokens (the parallel one keeps the scope execution of the process
      instance when that arrives last) and creates one token per flow (parallel)
      or exactly one merged token (inclusive); the end-of-command scan leaves no
      firable join behind.
    - Take-outgoing: the effect on tokens, agenda and events of leaving a node
      through no, one or several flows, and that a failed selection moves
      nothing.
    - Multi-instance: a parallel activity over a collection creates one waiting
      instance per element with its own index and element, under one root; its
      instances may leave in any order, and with the last one, and not before,
      the tree of the root is deleted and one token leaves; the task of an
      instance does the same; deleting a tree removes exactly the executions
      below its root and everything they wait for.
    - Commands: a command that does not reach its commit changes nothing and
      fails; one that does stores its session and its outcome is that of the
      work after the commit; one that succeeds was a run of turns of its agenda
      to a well-formed state at rest, with no join that could go on; an
      asynchronous activity becomes a job that acquisition finds; interceptors
      run a command at most once and cannot change its result.
    - FEEL: the lexer and the parser are exactly their grammars, printing is
      inverted by parsing, evaluation is total on every source text, fails in
      three ways only, and its comprehensions compute what they denote.
    - Expressions: compiling and running computes the value of the tree, with
      the same errors; parsing and evaluation are total; a composite text is
      the concatenation of its pieces; the variable fast path is an
      optimisation; the value of an expression is well-formed JSON.
    - Decision tables: each hit policy returns exactly the rows it is specified
      to, violations included; outputs have the declared type; integers are
      compared exactly; the audit has one entry per rule, marked valid exactly
      when it matches; durations survive printing; the lookup finds the latest
      version; one history record per execution, on failure too; required
      decisions are executed once, after their own requirements, and cycles are
      detected; the expression engine is total.
    - Jobs: an acquisition locks exactly the due, free jobs it selects and
      leaves every other row alone, and it finds the free ones; columns and
      documents agree after every run of the complete store operations; a guarded
      replacement writes exactly when the lock is still the caller's; a reset cycle terminates and
      leaves no expired lock; failures use the retries up and end in the dead
      letters; a job is executed only by the worker that holds it; an acquired
      job is offered or released.
    - Locks between nodes: in every interleaving of reads and conditional
      writes at most one owner has a granted, unexpired global lock; over any
      run of the coordinators' commands, no token of the coordinator lease is
      granted to two nodes.
    - Case management: a condition is always parsed or rejected; one whose
      operands are paths evaluates to the meaning of its tree up to the depth
      limit, and on present variables of the right kind that is the truth of the
      condition; an event selects exactly the satisfied sentries; the sweep leaves
      exactly the markers of the conditions that hold, and a marked condition
      stays satisfied whatever the variables become.
    - Completion of cases: the decision to complete a stage or a case is a
      statement about its rows, that nothing in it blocks and its required
      items are done; completion goes on to the parents, ends, and leaves
      completed stages completed; an active case completes exactly when the
      decision says so, and then has no open instances.
    - Timers: the next match of a cron expression is the first instant its
      fields allow, and a field allows the values its parts name; durations are
      added by the calendar; a cycle is due on the grid of its periods, and a
      timer of n repetitions fires n times; a boundary timer is stored again with
      that schedule, unlocked and otherwise unchanged.
    - Where the code does not do what it means to, a theorem states what it
      does: [split_orphans_children], [inclusive_join_drops_scope],
      [parallel_join_drops_scope],
      [activity_default_also_taken], [fallback_inverts_precedence],
      [revision_never_advances], [numeric_name_rewritten],
      [send_task_not_waited], [spaced_builtins_unreachable],
      [range_membership_false], [quotient_never_equals_integer],
      [for_variable_leaks]; for the expression language
      [fast_path_swallows_operators], [fast_path_reads_keyword],
      [non_ascii_panics], [remainder_overflow_panics], [trailing_text_ignored],
      [lenient_comparison_ignores_root_objects], [large_literal_loses_precision];
      for decision tables [day_fraction_lost], [duplicate_rule_ids_share_outputs],
      [audit_evaluates_skipped_entries], [untenanted_lookup_crosses_tenants],
      [resolved_output_dropped], [clock_change_internal_error], [engine_panics],
      [operator_in_literal_splits], [negated_call_is_float]; for jobs and locks
      the theorems of [JobSamples]; for commands
      [async_leave_strands_siblings], [history_failure_skips_rollback_listeners],
      [interceptor_error_dropped]; for multi-instance activities
      [manual_task_left_per_instance], [nested_instance_leaves_alone],
      [transient_aggregate_lost], [boundary_state_taken_over]; for cases the theorems of [CmmnSamples];
      for timers the theorems of [TimerSamples].

    ** Fuel

    - Parent-link walks ([Variables], [ParallelGateway]) have one unit per row
      of the executions table and one more: enough when the links are not
      circular, the hypothesis [chain] or [scopes] of the theorems; with
      circular links the source does not terminate, and neither result is
      claimed.  The deletion of an execution tree has one unit per execution
      and one more, enough under the same hypothesis: [execution_tree_deleted].
    - Container walks and the reachability search ([ExecutionGraph]) have fuel
      from the number of elements; [is_reachable_sound] proves it sufficient
      for every converted process.
    - The lexer has one unit per character, the parser as many levels and turns
      as there are tokens; [feel_evaluate_total] proves both sufficient.
    - The expression parser has fuel from the length of the text and the stack
      machine one unit per instruction, since jumps go forward:
      [get_value_total].  Required decisions have one unit per stored
      definition: [dependencies_terminate].  The compatibility evaluator has
      one unit per byte of its text: [engine_total].  The reset cycle has
      one unit per lease and one more: [reset_cycle_recovers].  The agenda
      loop has fuel and no bound: a process may loop for ever; its theorems are
      about the runs that end, and [CommandSamples] has some.  The
      condition parser has one unit per token and one more for each loop and
      one per nesting level up to its limit: [if_part_parse_total].  The
      condition evaluator parses operands again, so its fuel is an argument;
      [condition_meaning] gives the height of the tree and one more as enough
      for operands that are paths.  The completion of a stage and its parents
      has one turn per active stage and one more:
      [stage_completion_terminates].  The loops of timers have the source's own
      bounds, kept in binary ([at_most]).  Rust's call stack is not
      modelled, so a nesting that overflows it is outside.

    ** Not modelled

    The behaviours of tasks that do work, events and sub-processes (an interface
    of the continue-process operation and of multi-instance activities), the
    checks, listeners and history around the completion of a task, futures, the handlers that run a job,
    process-start and event timers, history projections, deployment and
    validation of decisions, the activation of CMMN plan items, the exit criteria
    that end single items, the case file, what a completed case starts in its
    caller, the XML converters and the REST services.  In the token flow an
    expression is evaluated by a parameter, [get_value_strict], because an
    evaluation there can also reach registered beans; so it is for the fields
    of timers.  Outside for good: SQL text and drivers, serialization, images and
    other pure input and output. *)
From stdpp Require Export base tactics option list gmap strings fin_maps.
From Stdlib Require Export ZArith Lia.

(** ** Results and the state-and-error monad of the engine

    Rust's [Result<A, E>].  The engine's handlers take [&mut CommandContext]
    and return a [Result]: the context is mutated whether the handler
    succeeds or fails, so the monad keeps the state on the error path. *)
Inductive result (E A : Type) : Type :=
| Ok (a : A)
| Err (e : E).
Arguments Ok {E A} _.
Arguments Err {E A} _.

#[export] Instance result_ret E : MRet (result E) := fun A a => Ok a.
#[export] Instance result_bind E : MBind (result E) :=
  fun A B f m => match m with Ok a => f a | Err e => Err e end.
#[export] Instance result_fmap E : FMap (result E) :=
  fun A B f m => match m with Ok a => Ok (f a) | Err e => Err e end.

Definition is_ok {E A} (r : result E A) : bool :=
  match r with Ok _ => true | Err _ => false end.

Definition ok_or {E A} (e : E) (o : option A) : result E A :=
  match o with Some a => Ok a | None => Err e end.

Definition map_err {E E' A} (f : E -> E') (r : result E A) : result E' A :=
  match r with Ok a => Ok a | Err e => Err (f e) end.

Definition stM (S E A : Type) : Type := S -> result E A * S.

#[export] Instance stM_ret S E : MRet (stM S E) := fun A a s => (Ok a, s).
#[export] Instance stM_bind S E : MBind (stM S E) :=
  fun A B f m s => match m s with
                   | (Ok a, s') => f a s'
                   | (Err e, s') => (Err e, s')
                   end.

Section StateMonad.
Context {S E : Type}.

Definition get : stM S E S := fun s => (Ok s, s).
Definition modify (f : S -> S) : stM S E unit := fun s => (Ok tt, f s).
Definition throw {A} (e : E) : stM S E A := fun s => (Err e, s).
Definition lift {A} (r : result E A) : stM S E A := fun s => (r, s).

(** A [for] loop whose body may fail. *)
Fixpoint for_each {A} (l : list A) (body : A -> stM S E unit) : stM S E unit :=
  match l with
  | [] => mret tt
  | a :: l => body a ;; for_each l body
  end.

Lemma bind_ok {A B} (m : stM S E A) (f : A -> stM S E B) s a s' :
  m s = (Ok a, s') -> (m ≫= f) s = f a s'.
Proof. intros H. unfold mbind, stM_bind. by rewrite H. Qed.

Lemma bind_err {A B} (m : stM S E A) (f : A -> stM S E B) s e s' :
  m s = (Err e, s') -> (m ≫= f) s = (Err e, s').
Proof. intros H. unfold mbind, stM_bind. by rewrite H. Qed.

(** [m] succeeds from [s], with a result and a state that satisfy [Q]. *)
Definition yields {A} (m : stM S E A) (s : S) (Q : A -> S -> Prop) : Prop :=
  match m s with (Ok a, s') => Q a s' | (Err _, _) => False end.

Lemma yields_bind {A B} (m : stM S E A) (f : A -> stM S E B) s (R : A -> S -> Prop) Q :
  yields m s R -> (forall a s', R a s' -> yields (f a) s' Q) -> yields (m ≫= f) s Q.
Proof.
  unfold yields, mbind, stM_bind. destruct (m s) as [[a|e] s1]; [|done]. intros HR Hf. by apply Hf.
Qed.

Lemma yields_assoc {A B C} (m : stM S E A) (f : A -> stM S E B) (g : B -> stM S E C) s Q :
  yields ((m ≫= f) ≫= g) s Q -> yields (m ≫= fun a => f a ≫= g) s Q.
Proof. unfold yields, mbind, stM_bind. by destruct (m s) as [[a|e] s1]. Qed.

Lemma yields_weaken {A} (m : stM S E A) s (R Q : A -> S -> Prop) :
  yields m s R -> (forall a s', R a s' -> Q a s') -> yields m s Q.
Proof. unfold yields. destruct (m s) as [[a|e] s1]; [|done]. auto. Qed.

Lemma yields_eq {A} (m : stM S E A) s a s' (Q : A -> S -> Prop) : m s = (Ok a, s') -> Q a s' -> yields m s Q.
Proof. unfold yields. by intros ->. Qed.

Lemma yields_run {A} (m : stM S E A) s (Q : A -> S -> Prop) :
  yields m s Q -> exists a s', m s = (Ok a, s') /\ Q a s'.
Proof. unfold yields. destruct (m s) as [[a|e] s1]; [eauto|done]. Qed.

Lemma bind_inv_ok {A B} (m : stM S E A) (f : A -> stM S E B) s b s' :
  (m ≫= f) s = (Ok b, s') ->
  exists a s1, m s = (Ok a, s1) /\ f a s1 = (Ok b, s').
Proof.
  unfold mbind, stM_bind. destruct (m s) as [[a|e] s1]; intros H; [eauto|].
  discriminate H.
Qed.

(** A predicate on states that every step of a computation preserves,
    successful or not. *)
Definition preserves (P : S -> Prop) {A} (m : stM S E A) : Prop :=
  forall s, P s -> P (m s).2.

Lemma preserves_ret P {A} (a : A) : preserves P (mret a).
Proof. by intros s. Qed.
Lemma preserves_bind P {A B} (m : stM S E A) (f : A -> stM S E B) :
  preserves P m -> (forall a, preserves P (f a)) -> preserves P (m ≫= f).
Proof.
  intros Hm Hf s Hs. unfold mbind, stM_bind.
  specialize (Hm s Hs). destruct (m s) as [[a|e] s1]; simpl in *; [|done].
  by apply Hf.
Qed.
Lemma preserves_lift P {A} (r : result E A) : preserves P (lift r).
Proof. by intros s. Qed.
Lemma preserves_throw P {A} (e : E) : preserves P (throw (A:=A) e).
Proof. by intros s. Qed.
Lemma preserves_get P : preserves P get.
Proof. by intros s. Qed.
Lemma preserves_modify P f : (forall s, P s -> P (f s)) -> preserves P (modify f).
Proof. intros H s. apply H. Qed.
Lemma preserves_for_each P {A} (l : list A) body :
  (forall a, preserves P (body a)) -> preserves P (for_each l body).
Proof.
  intros H. induction l as [|a l IH]; simpl; [apply preserves_ret|].
  apply preserves_bind; auto.
Qed.
End StateMonad.

(** ** Hint databases and tactics *)
Create HintDb flow discriminated.
#[export] Hint Resolve preserves_ret preserves_bind preserves_lift preserves_throw
  preserves_get preserves_for_each : flow.

(** Split the [match]es and [if]s of a hypothesis, keeping the equations. *)
Ltac break_match_hyp H :=
  repeat match type of H with
  | context [match ?x with _ => _ end] => destruct x eqn:?; try discriminate H
  end.
Ltac break_match :=
  repeat match goal with
  | |- context [match ?x with _ => _ end] => destruct x eqn:?
  end.

(** ** Options and lists *)

(** Rust's [a.or_else(|| b)] on options. *)
Definition or_else {A} (a b : option A) : option A :=
  match a with Some x => Some x | None => b end.

Definition unwrap_or {A} (d : A) (o : option A) : A :=
  match o with Some x => x | None => d end.

(** Rust's [o.as_deref() == Some(s)]. *)
Definition is_some_eq (o : option string) (s : string) : bool :=
  match o with Some x => bool_decide (x = s) | None => false end.

Lemma is_some_eq_spec o s : is_some_eq o s = true <-> o = Some s.
Proof.
  destruct o as [x|]; simpl; [rewrite bool_decide_eq_true; naive_solver|naive_solver].
Qed.

Definition opt_str_eqb (a b : option string) : bool := bool_decide (a = b).

Lemma filter_filter {A} (p q : A -> bool) l :
  List.filter p (List.filter q l) = List.filter (fun a => q a && p a) l.
Proof. induction l as [|a l IH]; simpl; [done|]. destruct (q a); simpl; [destruct (p a)|]; congruence. Qed.

(** First element satisfying a predicate: Rust's [iter().find(p)]. *)
Fixpoint find_first {A} (p : A -> bool) (l : list A) : option A :=
  match l with
  | [] => None
  | a :: l => if p a then Some a else find_first p l
  end.

Lemma find_first_Some {A} (p : A -> bool) l a :
  find_first p l = Some a -> p a = true /\ a ∈ l.
Proof.
  induction l as [|x l IH]; simpl; [done|]. destruct (p x) eqn:E.
  - intros [= ->]. split; [done|]. left.
  - intros H. destruct (IH H). split; [done|]. by right.
Qed.

Lemma find_first_None {A} (p : A -> bool) l :
  find_first p l = None <-> forall a, a ∈ l -> p a = false.
Proof.
  induction l as [|x l IH]; simpl.
  - split; [|done]. intros _ a Ha. by apply not_elem_of_nil in Ha.
  - destruct (p x) eqn:E; split.
    + done.
    + intros H. rewrite (H x) in E; [done|left].
    + intros H a Ha. apply elem_of_cons in Ha as [->|Ha]; [done|]. by apply IH.
    + intros H. apply IH. intros a Ha. apply H. by right.
Qed.

(** First [Some] of a partial map: Rust's [iter().find_map(f)]. *)
Fixpoint find_map {A B} (f : A -> option B) (l : list A) : option B :=
  match l with
  | [] => None
  | a :: l => match f a with Some b => Some b | None => find_map f l end
  end.

Lemma find_map_Some {A B} (f : A -> option B) l b :
  find_map f l = Some b -> exists a, a ∈ l /\ f a = Some b.
Proof.
  induction l as [|x l IH]; simpl; [done|]. destruct (f x) eqn:E.
  - intros [= ->]. exists x. split; [left|done].
  - intros H. destruct (IH H) as (a & Ha & ?). exists a. split; [by right|done].
Qed.

Lemma find_map_None {A B} (f : A -> option B) l :
  find_map f l = None -> forall a, a ∈ l -> f a = None.
Proof.
  induction l as [|x l IH]; simpl.
  - intros _ a Ha. by apply not_elem_of_nil in Ha.
  - destruct (f x) eqn:E; [done|]. intros H a Ha.
    apply elem_of_cons in Ha as [->|Ha]; [done|]. by apply IH.
Qed.

Lemma find_map_unique {A B} (f : A -> option B) l y b :
  y ∈ l -> f y = Some b -> (forall z b', z ∈ l -> f z = Some b' -> b' = b) ->
  find_map f l = Some b.
Proof.
  induction l as [|x l IH]; intros Hy Hf Hu; simpl; [by apply not_elem_of_nil in Hy|].
  destruct (f x) as [b'|] eqn:E.
  - f_equal. eapply Hu; [left|done].
  - apply elem_of_cons in Hy as [->|Hy]; [congruence|]. apply IH; try done.
    intros z b' Hz. apply Hu. by right.
Qed.

(** Rust's [let Some(x) = o else { return Ok(()) }]. *)
Notation "'let_some' x ':=' o 'in' k" :=
  (match o with Some x => k | None => mret tt end)
  (at level 200, x pattern, o at level 100, k at level 200).
