(* ===== verification/Chars.v ===== *)
(** * Rust strings and characters

    A [&str] is a byte [string] that holds UTF-8; a [char] is a Unicode
    scalar value, a [Z].  [chars] is [str::chars], [of_chars] its inverse,
    and the rest are the [str] methods the engine uses. *)
From Stdlib Require Import Ascii.
From S2P Require Import Prelude.

Definition byte_of (a : ascii) : Z := Z.of_N (N_of_ascii a).
Definition ascii_of (b : Z) : ascii := ascii_of_N (Z.to_N b).

(** ** UTF-8 *)
Definition char_bytes (c : Z) : list Z :=
  if (c <? 128)%Z then [c]
  else if (c <? 2048)%Z then [192 + c / 64; 128 + c mod 64]%Z
  else if (c <? 65536)%Z then [224 + c / 4096; 128 + (c / 64) mod 64; 128 + c mod 64]%Z
  else [240 + c / 262144; 128 + (c / 4096) mod 64; 128 + (c / 64) mod 64; 128 + c mod 64]%Z.

(** [char::len_utf8]. *)
Definition len_utf8 (c : Z) : nat := length (char_bytes c).

Fixpoint of_bytes (l : list Z) (rest : string) : string :=
  match l with [] => rest | b :: l => String (ascii_of b) (of_bytes l rest) end.

Fixpoint of_chars (cs : list Z) : string :=
  match cs with [] => EmptyString | c :: cs => of_bytes (char_bytes c) (of_chars cs) end.

(** Valid UTF-8 is decoded; a malformed tail, which a [&str] never has, is
    dropped. *)
Fixpoint chars (s : string) : list Z :=
  match s with
  | EmptyString => []
  | String a s1 =>
      let b := byte_of a in
      if (b <? 128)%Z then b :: chars s1
      else if (b <? 224)%Z then
        match s1 with
        | String a1 s2 => ((b - 192) * 64 + (byte_of a1 - 128))%Z :: chars s2
        | _ => []
        end
      else if (b <? 240)%Z then
        match s1 with
        | String a1 (String a2 s3) =>
            ((b - 224) * 4096 + (byte_of a1 - 128) * 64 + (byte_of a2 - 128))%Z :: chars s3
        | _ => []
        end
      else
        match s1 with
        | String a1 (String a2 (String a3 s4)) =>
            ((b - 240) * 262144 + (byte_of a1 - 128) * 4096 + (byte_of a2 - 128) * 64
             + (byte_of a3 - 128))%Z :: chars s4
        | _ => []
        end
  end.

Definition scalar (c : Z) : Prop := (0 <= c < 1114112)%Z.

Lemma byte_of_ascii_of b : (0 <= b < 256)%Z -> byte_of (ascii_of b) = b.
Proof. intros H. unfold byte_of, ascii_of. rewrite N_ascii_embedding by lia. lia. Qed.

(** Decoding is the inverse of encoding. *)
Lemma chars_of_chars cs : Forall scalar cs -> chars (of_chars cs) = cs.
Proof.
  induction 1 as [|c cs Hc _ IH]; [done|]. unfold scalar in Hc.
  unfold of_chars. fold of_chars. unfold char_bytes.
  destruct (Z.ltb_spec c 128); [|destruct (Z.ltb_spec c 2048); [|destruct (Z.ltb_spec c 65536)]].
  all: simpl; rewrite !byte_of_ascii_of by (Z.to_euclidean_division_equations; lia).
  all: repeat match goal with
       | |- context [(?x <? ?y)%Z] =>
           destruct (Z.ltb_spec x y); [|try (exfalso; Z.to_euclidean_division_equations; lia)];
           try (exfalso; Z.to_euclidean_division_equations; lia)
       end.
  all: rewrite IH; f_equal; Z.to_euclidean_division_equations; lia.
Qed.

(** ** Character classes *)

(** [char::is_whitespace]: the Unicode [White_Space] property. *)
Definition is_whitespace (c : Z) : bool :=
  ((9 <=? c) && (c <=? 13) || (c =? 32) || (c =? 133) || (c =? 160) || (c =? 5760)
   || ((8192 <=? c) && (c <=? 8202)) || (c =? 8232) || (c =? 8233) || (c =? 8239)
   || (c =? 8287) || (c =? 12288))%Z.

Definition is_ascii_digit (c : Z) : bool := ((48 <=? c) && (c <=? 57))%Z.
Definition is_ascii_upper (c : Z) : bool := ((65 <=? c) && (c <=? 90))%Z.
Definition is_ascii_lower (c : Z) : bool := ((97 <=? c) && (c <=? 122))%Z.
Definition is_ascii_alphabetic (c : Z) : bool := is_ascii_upper c || is_ascii_lower c.

(** ** [str] methods *)
Fixpoint drop_while {A} (p : A -> bool) (l : list A) : list A :=
  match l with
  | [] => []
  | a :: l' => if p a then drop_while p l' else l
  end.

Definition trim (s : string) : string :=
  of_chars (rev (drop_while is_whitespace (rev (drop_while is_whitespace (chars s))))).

Definition to_ascii_lowercase_byte (a : ascii) : ascii :=
  let b := byte_of a in if is_ascii_upper b then ascii_of (b + 32) else a.

Fixpoint to_ascii_lowercase (s : string) : string :=
  match s with
  | EmptyString => EmptyString
  | String a s => String (to_ascii_lowercase_byte a) (to_ascii_lowercase s)
  end.

Definition eq_ignore_ascii_case (s t : string) : bool :=
  bool_decide (to_ascii_lowercase s = to_ascii_lowercase t).

Fixpoint starts_with (prefix s : string) : bool :=
  match prefix, s with
  | EmptyString, _ => true
  | String a p, String b t => Ascii.eqb a b && starts_with p t
  | _, _ => false
  end.

Fixpoint str_contains (s needle : string) : bool :=
  starts_with needle s || match s with EmptyString => false | String _ t => str_contains t needle end.

Definition ends_with_char (s : string) (a : ascii) : bool :=
  match String.get (String.length s - 1) s with Some b => Ascii.eqb a b | None => false end.

(** [s.map(str::trim).filter(|v| !v.is_empty())]. *)
Definition trimmed (o : option string) : option string :=
  match o with
  | Some s => let t := trim s in if bool_decide (t = EmptyString) then None else Some t
  | None => None
  end.

(** ** Unicode beyond ASCII

    Rust's tables for the other characters are a parameter; on ASCII the
    conversions are computed. *)
Class Unicode := {
  unicode_alphabetic : Z -> bool;
  unicode_numeric : Z -> bool;
  unicode_uppercase : string -> string;
  unicode_lowercase : string -> string
}.

Definition is_ascii (s : string) : bool := forallb (fun c => (c <? 128)%Z) (chars s).

Fixpoint to_ascii_uppercase (s : string) : string :=
  match s with
  | EmptyString => EmptyString
  | String a s =>
      String (let b := byte_of a in if is_ascii_lower b then ascii_of (b - 32) else a)
        (to_ascii_uppercase s)
  end.

Definition to_uppercase `{Unicode} (s : string) : string :=
  if is_ascii s then to_ascii_uppercase s else unicode_uppercase s.
Definition to_lowercase `{Unicode} (s : string) : string :=
  if is_ascii s then to_ascii_lowercase s else unicode_lowercase s.

(** An instance with nothing beyond ASCII, for evaluation on examples. *)
Definition ascii_only : Unicode :=
  {| unicode_alphabetic _ := false; unicode_numeric _ := false;
     unicode_uppercase s := s; unicode_lowercase s := s |}.

(** ** Text of ASCII bytes *)
Notation text l := (String.string_of_list_ascii l).

Lemma chars_ascii l :
  Forall (fun a => (byte_of a < 128)%Z) l -> chars (text l) = byte_of <$> l.
Proof.
  induction 1 as [|a l Ha _ IH]; [done|]. simpl. rewrite (proj2 (Z.ltb_lt _ _) Ha).
  by rewrite IH.
Qed.

Lemma byte_of_nonneg a : (0 <= byte_of a)%Z.
Proof. unfold byte_of. lia. Qed.

Lemma of_chars_ascii l :
  Forall (fun a => (byte_of a < 128)%Z) l -> of_chars (byte_of <$> l) = text l.
Proof.
  induction 1 as [|a l Ha _ IH]; [done|]. cbn [fmap list_fmap of_chars].
  unfold char_bytes. rewrite (proj2 (Z.ltb_lt _ _) Ha). simpl. rewrite IH. f_equal.
  unfold ascii_of, byte_of. rewrite N2Z.id. apply ascii_N_embedding.
Qed.

Lemma drop_while_none {A} (p : A -> bool) l : Forall (fun a => p a = false) l -> drop_while p l = l.
Proof. destruct 1 as [|a l Ha]; simpl; [done|]. by rewrite Ha. Qed.

(** Text of ASCII characters other than white space is not trimmed. *)
Definition visible (a : ascii) : Prop := (byte_of a < 128)%Z /\ is_whitespace (byte_of a) = false.

Lemma trim_visible l : Forall visible l -> trim (text l) = text l.
Proof.
  intros Hl. assert (Ha : Forall (fun a => (byte_of a < 128)%Z) l).
  { eapply Forall_impl; [done|]. by intros a [? _]. }
  assert (Hw : Forall (fun c => is_whitespace c = false) (byte_of <$> l)).
  { apply Forall_fmap. eapply Forall_impl; [exact Hl|]. by intros a [_ ?]. }
  unfold trim. rewrite chars_ascii, (drop_while_none _ _ Hw) by done.
  rewrite drop_while_none by (by apply Forall_rev). rewrite rev_involutive. by apply of_chars_ascii.
Qed.

Lemma append_assoc (s t u : string) : (s +:+ t) +:+ u = s +:+ t +:+ u.
Proof. induction s as [|a s IH]; [done|]. exact (f_equal (String a) IH). Qed.
