(* ===== verification/Like.v ===== *)
(** * SQL [LIKE]

    Models [flowable-engine-common/src/like.rs]: the rolling-row dynamic
    programme shared by every query filter.  Vectors are indexed with bounds
    checks: an index out of range is a panic, [None]. *)
From S2P Require Import Prelude Chars.

Definition MAX_SQL_LIKE_LEN : nat := 512.

Definition percent : Z := 37.
Definition underscore : Z := 95.

(** ** Vectors *)
Definition vec_get {A} (l : list A) (j : nat) : option A := l !! j.
Definition vec_set {A} (l : list A) (j : nat) (x : A) : option (list A) :=
  if decide (j < length l) then Some (<[j := x]> l) else None.

(** ** The matcher *)

(** [for j in js { curr[j] = cell(curr, j) }]. *)
Fixpoint fill_row (cell : list bool -> nat -> option bool) (js : list nat) (curr : list bool)
    : option (list bool) :=
  match js with
  | [] => Some curr
  | j :: js => b ← cell curr j; curr ← vec_set curr j b; fill_row cell js curr
  end.

(** The value written to [curr[j]] for the pattern character [p]. *)
Definition cell (p : Z) (value : list Z) (prev curr : list bool) (j : nat) : option bool :=
  if bool_decide (p = percent) then
    a ← vec_get prev j;
    if (a : bool) then Some true else vec_get curr (j - 1)
  else if bool_decide (p = underscore) then vec_get prev (j - 1)
  else
    a ← vec_get prev (j - 1);
    if (a : bool) then c ← vec_get value (j - 1); Some (bool_decide (c = p)) else Some false.

Fixpoint like_loop (value pattern : list Z) (prev curr : list bool)
    : option (list bool) :=
  match pattern with
  | [] => Some prev
  | p :: pattern =>
      first ← (if bool_decide (p = percent) then vec_get prev 0 else Some false);
      curr ← vec_set curr 0 first;
      curr ← fill_row (cell p value prev) (seq 1 (length value)) curr;
      like_loop value pattern curr prev
  end.

Definition sql_like_matches (pattern value : string) : option bool :=
  let value := chars value in
  let pattern := chars pattern in
  if Nat.ltb MAX_SQL_LIKE_LEN (length value) || Nat.ltb MAX_SQL_LIKE_LEN (length pattern)
  then Some false
  else
    let m := length value in
    prev ← vec_set (replicate (m + 1) false) 0 true;
    row ← like_loop value pattern prev (replicate (m + 1) false);
    vec_get row m.

(** ** Specification: what [LIKE] means *)
Inductive like : list Z -> list Z -> Prop :=
| like_nil : like [] []
| like_percent p w1 w2 : like p w2 -> like (percent :: p) (w1 ++ w2)
| like_any p c w : like p w -> like (underscore :: p) (c :: w)
| like_literal p c w : c <> percent -> c <> underscore -> like p w -> like (c :: p) (c :: w).

Lemma like_percent_inv p w :
  like (percent :: p) w -> exists w1 w2, w = w1 ++ w2 /\ like p w2.
Proof. inversion 1; subst; [eauto|done]. Qed.

Lemma like_app ps qs w :
  like (ps ++ qs) w <-> exists w1 w2, w = w1 ++ w2 /\ like ps w1 /\ like qs w2.
Proof.
  split.
  - revert w. induction ps as [|p ps IH]; simpl; intros w Hl.
    + exists [], w. split_and!; [done|constructor|done].
    + inversion Hl as [|p' w1 w2 H1 E|p' c w' H1 E|p' c w' Hp Hu H1 E]; subst.
      * destruct (IH _ H1) as (a & b & -> & Ha & Hb). exists (w1 ++ a), b.
        split_and!; [by rewrite app_assoc|by constructor|done].
      * destruct (IH _ H1) as (a & b & -> & Ha & Hb). exists (c :: a), b.
        split_and!; [done|by constructor|done].
      * destruct (IH _ H1) as (a & b & -> & Ha & Hb). exists (p :: a), b.
        split_and!; [done|by constructor|done].
  - intros (w1 & w2 & -> & H1 & H2). induction H1; simpl; [done| |by constructor|by constructor].
    rewrite <- app_assoc. by constructor.
Qed.

Lemma like_single p w :
  like [p] w <-> if bool_decide (p = percent) then True
                 else if bool_decide (p = underscore) then length w = 1 else w = [p].
Proof.
  case_bool_decide as Hp; [|case_bool_decide as Hu]; subst.
  - split; [done|]. intros _. rewrite <- (app_nil_r w). repeat constructor.
  - split.
    + inversion 1 as [| |p' c w' H1|]; subst; [by inversion H1|done].
    + destruct w as [|c [|]]; try done. intros _. repeat constructor.
  - split.
    + inversion 1 as [| | |p' c w' ? ? H1]; subst; try done. by inversion H1.
    + intros ->. by repeat constructor.
Qed.

(** ** Correctness of the rows *)
Section Rows.
Context (value : list Z).
Let m := length value.

(** Entry [j] of a row says whether the pattern read so far matches the
    first [j] characters. *)
Definition entry_ok (ps : list Z) (r : list bool) (j : nat) : Prop :=
  exists b, r !! j = Some b /\ (b = true <-> like ps (take j value)).

Definition row_ok (ps : list Z) (r : list bool) : Prop :=
  length r = S m /\ forall j, j <= m -> entry_ok ps r j.

Lemma like_snoc_0 ps p :
  like (ps ++ [p]) [] <-> p = percent /\ like ps [].
Proof.
  rewrite like_app. split.
  - intros (w1 & w2 & Hw & H1 & H2). symmetry in Hw. apply app_nil in Hw as [-> ->].
    apply like_single in H2. repeat case_bool_decide; done.
  - intros [-> H]. exists [], []. split_and!; [done|done|]. by apply like_single.
Qed.

Lemma like_snoc_percent ps w c :
  like (ps ++ [percent]) (w ++ [c]) <-> like ps (w ++ [c]) \/ like (ps ++ [percent]) w.
Proof.
  rewrite !like_app. split.
  - intros (w1 & w2 & Hw & H1 & _). destruct w2 as [|x w2 _] using rev_ind.
    + left. rewrite app_nil_r in Hw. by subst.
    + right. rewrite app_assoc in Hw. apply app_inj_tail in Hw as [-> _].
      exists w1, w2. split_and!; [done|done|]. by apply like_single.
  - intros [H|(w1 & w2 & -> & H1 & _)].
    + exists (w ++ [c]), []. split_and!; [by rewrite app_nil_r|done|]. by apply like_single.
    + exists w1, (w2 ++ [c]). split_and!; [by rewrite app_assoc|done|]. by apply like_single.
Qed.

Lemma like_snoc_one ps p w c :
  p <> percent ->
  like (ps ++ [p]) (w ++ [c]) <-> like ps w /\ (p = underscore \/ c = p).
Proof.
  intros Hp. rewrite like_app. split.
  - intros (w1 & w2 & Hw & H1 & H2). apply like_single in H2.
    rewrite bool_decide_false in H2 by done. case_bool_decide as Hu.
    + destruct w2 as [|x [|]]; try done. apply app_inj_tail in Hw as [-> ->]. by split; [|left].
    + subst w2. apply app_inj_tail in Hw as [-> ->]. by split; [|right].
  - intros [H Hc]. exists w, [c]. split_and!; [done|done|]. apply like_single.
    rewrite bool_decide_false by done. case_bool_decide; [done|]. by destruct Hc as [?| ->].
Qed.

Lemma take_snoc j : 1 <= j <= m -> exists w c, value !! (j - 1) = Some c
  /\ take j value = w ++ [c] /\ take (j - 1) value = w.
Proof.
  intros Hj. destruct (lookup_lt_is_Some_2 value (j - 1)) as [c Hc]; [fold m; lia|].
  exists (take (j - 1) value), c. split_and!; [done| |done].
  replace j with (S (j - 1)) at 1 by lia. by apply take_S_r.
Qed.

Lemma cell_ok ps p prev curr j :
  row_ok ps prev -> 1 <= j <= m -> entry_ok (ps ++ [p]) curr (j - 1) ->
  exists b, cell p value prev curr j = Some b /\ (b = true <-> like (ps ++ [p]) (take j value)).
Proof.
  intros [_ Hprev] Hj (bc & Hbc & Hlc).
  destruct (Hprev j) as (bj & Hbj & Hlj); [lia|].
  destruct (Hprev (j - 1)) as (b1 & Hb1 & Hl1); [lia|].
  destruct (take_snoc j Hj) as (w & c & Hc & Hw & Hw1). rewrite Hw in Hlj |- *.
  rewrite Hw1 in Hl1, Hlc.
  unfold cell, vec_get. case_bool_decide as Hp; [|case_bool_decide as Hu].
  - subst p. rewrite Hbj. simpl. setoid_rewrite like_snoc_percent. destruct bj.
    + exists true. split; [done|]. tauto.
    + exists bc. split; [done|]. rewrite Hlc. split; [tauto|]. intros [H|H]; [|done].
      by apply Hlj in H.
  - subst p. exists b1. split; [done|]. rewrite like_snoc_one by done. rewrite Hl1. tauto.
  - rewrite Hb1. simpl. setoid_rewrite like_snoc_one; [|done]. destruct b1.
    + rewrite Hc. simpl. eexists. split; [reflexivity|]. rewrite bool_decide_eq_true.
      split; [intros; split; tauto|]. intros [_ [?|?]]; done.
    + exists false. split; [done|]. split; [done|]. intros [H _]. by apply Hl1 in H.
Qed.

Lemma fill_row_ok ps p prev k j curr :
  row_ok ps prev -> length curr = S m -> 1 <= j -> j + k = S m ->
  (forall i, i < j -> entry_ok (ps ++ [p]) curr i) ->
  exists r, fill_row (cell p value prev) (seq j k) curr = Some r /\ row_ok (ps ++ [p]) r.
Proof.
  intros Hprev. revert j curr. induction k as [|k IH]; intros j curr Hlen Hj Hjk Hdone; simpl.
  - exists curr. split; [done|]. split; [done|]. intros i Hi. apply Hdone. lia.
  - destruct (cell_ok ps p prev curr j Hprev) as (b & Hb & Hl); [lia|apply Hdone; lia|].
    rewrite Hb. simpl. unfold vec_set. rewrite decide_True by lia. simpl.
    apply IH; [by rewrite length_insert|lia|lia|].
    intros i Hi. destruct (decide (i = j)) as [->|Hne].
    + exists b. split; [apply list_lookup_insert_eq; lia|done].
    + destruct (Hdone i) as (b' & Hb' & Hl'); [lia|]. exists b'.
      split; [by rewrite list_lookup_insert_ne by done|done].
Qed.

Lemma like_loop_ok qs ps prev curr :
  row_ok ps prev -> length curr = S m ->
  exists r, like_loop value qs prev curr = Some r /\ row_ok (ps ++ qs) r.
Proof.
  revert ps prev curr. induction qs as [|p qs IH]; intros ps prev curr Hprev Hlen; simpl.
  - exists prev. by rewrite app_nil_r.
  - destruct (proj2 Hprev 0) as (b0 & Hb0 & Hl0); [lia|].
    set (b := if bool_decide (p = percent) then b0 else false).
    assert (Hfirst : (if bool_decide (p = percent) then vec_get prev 0 else Some false) = Some b).
    { unfold b. case_bool_decide; [by unfold vec_get|done]. }
    rewrite Hfirst. simpl. unfold vec_set. rewrite decide_True by lia. simpl. fold m.
    destruct (fill_row_ok ps p prev m 1 (<[0 := b]> curr) Hprev) as (r & Hr & Hrow);
      [by rewrite length_insert|lia|lia| |].
    + intros i Hi. assert (i = 0) as -> by lia. exists b.
      split; [apply list_lookup_insert_eq; lia|].
      rewrite take_0, like_snoc_0. rewrite take_0 in Hl0. unfold b.
      case_bool_decide; [rewrite Hl0; tauto|]. split; [done|]. by intros [? _].
    + rewrite Hr. simpl. destruct (IH (ps ++ [p]) r prev Hrow) as (r' & Hr' & Hrow').
      { apply Hprev. }
      exists r'. split; [done|]. by rewrite <- app_assoc in Hrow'.
Qed.
End Rows.

(** [sql_like_matches] never indexes out of bounds and decides the [LIKE]
    relation on the decoded characters, except that a pattern or a value of
    more than 512 characters never matches. *)
Theorem sql_like_matches_correct pattern value :
  exists b, sql_like_matches pattern value = Some b
    /\ (b = true <-> length (chars pattern) <= MAX_SQL_LIKE_LEN
                     /\ length (chars value) <= MAX_SQL_LIKE_LEN
                     /\ like (chars pattern) (chars value)).
Proof.
  unfold sql_like_matches.
  destruct (Nat.ltb_spec MAX_SQL_LIKE_LEN (length (chars value))) as [Hv|Hv]; simpl.
  { exists false. split; [done|]. split; [done|]. intros (_ & ? & _). lia. }
  destruct (Nat.ltb_spec MAX_SQL_LIKE_LEN (length (chars pattern))) as [Hp|Hp]; simpl.
  { exists false. split; [done|]. split; [done|]. intros (? & _). lia. }
  set (w := chars value) in *. unfold vec_set. rewrite length_replicate, decide_True by lia. simpl.
  destruct (like_loop_ok w (chars pattern) [] (<[0 := true]> (replicate (length w + 1) false))
              (replicate (length w + 1) false)) as (r & Hr & Hlen & Hrow).
  - split; [rewrite length_insert, length_replicate; lia|]. intros j Hj.
    destruct (decide (j = 0)) as [->|Hne].
    + exists true. split; [apply list_lookup_insert_eq; rewrite length_replicate; lia|].
      split; [constructor|done].
    + exists false. rewrite list_lookup_insert_ne by done. split.
      * apply lookup_replicate. split; [done|lia].
      * split; [done|]. intros Hl. inversion Hl as [E| | |].
        destruct w; [simpl in Hj; lia|]. by destruct j.
  - rewrite length_replicate. lia.
  - rewrite Hr. simpl. destruct (Hrow (length w)) as (b & Hb & Hl); [lia|].
    exists b. split; [exact Hb|]. rewrite Hl, firstn_all. tauto.
Qed.
