(* ===== verification/Float64.v ===== *)
(** * Rust's [f64] on the executable binary64 specification of the Standard Library

    Rust's [f64] is IEEE 754 binary64.  [SpecFloat] gives its operations as
    executable functions on [spec_float]; this file fixes the precision (53)
    and the exponent bound (1024) and adds the conversions the engine uses:
    [as i64] (truncating and saturating, NaN to 0), [i64 as f64], [trunc],
    [floor], [ceil], [abs], [fract] and the correctly rounded reading of a
    decimal literal ([str::parse::<f64>]). *)
From Stdlib Require Export SpecFloat.
From S2P Require Import Prelude.

Open Scope Z_scope.

Definition f64 : Type := spec_float.
Definition prec : Z := 53.
Definition emax : Z := 1024.

Definition i64_min : Z := - 2 ^ 63.
Definition i64_max : Z := 2 ^ 63 - 1.
Definition u64_max : Z := 2 ^ 64 - 1.

Definition f64_zero : f64 := S754_zero false.
Definition f64_add : f64 -> f64 -> f64 := SFadd prec emax.
Definition f64_sub : f64 -> f64 -> f64 := SFsub prec emax.
Definition f64_mul : f64 -> f64 -> f64 := SFmul prec emax.
Definition f64_div : f64 -> f64 -> f64 := SFdiv prec emax.
Definition f64_neg : f64 -> f64 := SFopp.
Definition f64_abs : f64 -> f64 := SFabs.
Definition f64_eqb : f64 -> f64 -> bool := SFeqb.
Definition f64_ltb : f64 -> f64 -> bool := SFltb.
Definition f64_leb : f64 -> f64 -> bool := SFleb.

Definition f64_is_finite (x : f64) : bool :=
  match x with S754_zero _ | S754_finite _ _ _ => true | _ => false end.

(** [n as f64] for an integer: round to nearest, ties to even. *)
Definition f64_of_Z (n : Z) : f64 := binary_normalize prec emax n 0 false.

(** The integer part of a finite float, towards zero. *)
Definition f64_int_part (s : bool) (m : positive) (e : Z) : Z :=
  let q := if Z.leb 0 e then Z.pos m * 2 ^ e else Z.pos m / 2 ^ (- e) in
  if s then - q else q.

Definition f64_trunc (x : f64) : f64 :=
  match x with
  | S754_finite s m e => binary_normalize prec emax (f64_int_part s m e) 0 s
  | _ => x
  end.

Definition f64_fract (x : f64) : f64 := f64_sub x (f64_trunc x).

Definition f64_floor (x : f64) : f64 :=
  match x with
  | S754_finite s m e =>
      let n := if s then - Z.pos m else Z.pos m in
      if Z.leb 0 e then x
      else binary_normalize prec emax (n / 2 ^ (- e)) 0 s
  | _ => x
  end.

Definition f64_ceil (x : f64) : f64 := f64_neg (f64_floor (f64_neg x)).

(** [x as i64]: saturating, NaN gives 0. *)
Definition i64_of_f64 (x : f64) : Z :=
  match x with
  | S754_zero _ | S754_nan => 0
  | S754_infinity s => if s then i64_min else i64_max
  | S754_finite s m e => Z.max i64_min (Z.min i64_max (f64_int_part s m e))
  end.

(** The value of the decimal [m * 10 ^ e], rounded once. *)
Definition f64_of_decimal (m : Z) (e : Z) : f64 :=
  match m with
  | Z0 => f64_zero
  | Zneg _ => S754_nan
  | Zpos p =>
      if Z.leb 0 e then binary_normalize prec emax (m * 10 ^ e) 0 false
      else match 10 ^ (- e) with
           | Zpos d =>
               let '(q, e', l) := SFdiv_core_binary prec emax m 0 (Zpos d) 0 in
               binary_round_aux prec emax false q e' l
           | _ => S754_nan
           end
  end.

Example f64_of_decimal_tenth :
  f64_of_decimal 1 (-1) = S754_finite false 7205759403792794 (-56).
Proof. reflexivity. Qed.

Example f64_floor_neg : f64_floor (f64_of_decimal 15 (-1)) = f64_of_Z 1
  /\ f64_floor (f64_neg (f64_of_decimal 15 (-1))) = f64_of_Z (-2).
Proof. split; reflexivity. Qed.

(** [f64::powf], which Rust leaves to the platform's mathematics library. *)
Class Libm := { f64_powf : f64 -> f64 -> f64 }.

(** [f64::EPSILON]. *)
Definition f64_epsilon : f64 := binary_normalize prec emax 1 (-52) false.

(** [f64::round]: to the nearest integer, halves away from zero. *)
Definition f64_round (x : f64) : f64 :=
  match x with
  | S754_finite s m e =>
      if Z.leb 0 e then x
      else let q := (2 * Z.pos m + 2 ^ (- e)) / 2 ^ (1 - e) in
           binary_normalize prec emax (if s then - q else q) 0 s
  | _ => x
  end.

(** [x % y]: the exact remainder of the truncated quotient, with the sign of
    the dividend. *)
Definition f64_rem (x y : f64) : f64 :=
  match x, y with
  | S754_nan, _ | _, S754_nan | S754_infinity _, _ | _, S754_zero _ => S754_nan
  | S754_zero _, _ | _, S754_infinity _ => x
  | S754_finite s m e, S754_finite _ m' e' =>
      let low := Z.min e e' in
      let r := (Z.pos m * 2 ^ (e - low)) mod (Z.pos m' * 2 ^ (e' - low)) in
      binary_normalize prec emax (if s then - r else r) low s
  end.

(** [f64::sqrt]. *)
Definition f64_sqrt : f64 -> f64 := SFsqrt prec emax.

Example f64_rem_signs :
  f64_rem (f64_of_Z (-7)) (f64_of_Z 3) = f64_of_Z (-1)
  /\ f64_rem (f64_of_decimal 75 (-1)) (f64_of_Z (-2)) = f64_of_decimal 15 (-1).
Proof. split; reflexivity. Qed.

Example f64_round_halves :
  f64_round (f64_of_decimal 25 (-1)) = f64_of_Z 3
  /\ f64_round (f64_neg (f64_of_decimal 25 (-1))) = f64_of_Z (-3)
  /\ f64_round (f64_of_decimal 24 (-1)) = f64_of_Z 2.
Proof. repeat split; reflexivity. Qed.

Close Scope Z_scope.
