(* ===== verification/Numerals.v ===== *)
(** * Reading numbers: Rust's [str::parse] for [i64], [u64] and [f64]

    The grammars of the Standard Library of Rust: an integer is an optional
    sign and digits within the type's range ([u64] has no minus sign); a float
    is an optional sign and [inf], [infinity], [nan] in any case, or decimal
    digits with an optional point and exponent, at least one digit before or
    after the point.  Nothing is trimmed. *)
From Stdlib Require Import Ascii.
From stdpp Require Import pretty.
From S2P Require Import Prelude Chars Float64.

Definition digit_value (a : Ascii.ascii) : option Z :=
  let n := Z.of_nat (Ascii.nat_of_ascii a) in
  if (48 <=? n)%Z && (n <=? 57)%Z then Some (n - 48)%Z else None.

Fixpoint digits_value (acc : Z) (s : string) : option Z :=
  match s with
  | EmptyString => Some acc
  | String a s => match digit_value a with
                  | Some d => digits_value (10 * acc + d)%Z s
                  | None => None
                  end
  end.

(** [str::parse::<i64>]. *)
Definition parse_i64 (s : string) : option Z :=
  let unsigned s := match s with EmptyString => None | _ => digits_value 0 s end in
  let value := match s with
               | String a rest =>
                   if Ascii.eqb a "+"%char then unsigned rest
                   else if Ascii.eqb a "-"%char then Z.opp <$> unsigned rest
                   else unsigned s
               | EmptyString => None
               end in
  match value with
  | Some n => if (- 2 ^ 63 <=? n)%Z && (n <? 2 ^ 63)%Z then Some n else None
  | None => None
  end.

(** [str::parse::<i32>]. *)
Definition i32_min : Z := (- 2 ^ 31)%Z.
Definition i32_max : Z := (2 ^ 31 - 1)%Z.

Definition parse_i32 (s : string) : option Z :=
  n ← parse_i64 s; if (i32_min <=? n)%Z && (n <=? i32_max)%Z then Some n else None.

(** [str::parse::<u64>]. *)
Definition parse_u64 (s : string) : option Z :=
  let digits := match s with
                | String a rest => if Ascii.eqb a "+"%char then rest else s
                | EmptyString => s
                end in
  match digits with
  | EmptyString => None
  | _ => match digits_value 0 digits with
         | Some n => if (n <? 2 ^ 64)%Z then Some n else None
         | None => None
         end
  end.

(** The longest prefix of digits, and what follows it. *)
Fixpoint span_digits (s : string) : list Z * string :=
  match s with
  | String a t =>
      match digit_value a with
      | Some d => let '(ds, r) := span_digits t in (d :: ds, r)
      | None => ([], s)
      end
  | EmptyString => ([], EmptyString)
  end.

Definition decimal_value (ds : list Z) : Z := fold_left (fun n d => 10 * n + d)%Z ds 0%Z.

(** The optional sign of a number and what follows it. *)
Definition take_sign (s : string) : bool * string :=
  match s with
  | String a t =>
      if Ascii.eqb a "-"%char then (true, t)
      else if Ascii.eqb a "+"%char then (false, t) else (false, s)
  | EmptyString => (false, s)
  end.

(** [e] or [E], an optional sign and digits, up to the end. *)
Definition exponent_value (s : string) : option Z :=
  match s with
  | EmptyString => Some 0%Z
  | String a t =>
      if Ascii.eqb a "e"%char || Ascii.eqb a "E"%char then
        let '(negative, t) := take_sign t in
        match span_digits t with
        | ((_ :: _) as ds, EmptyString) =>
            Some (if negative then - decimal_value ds else decimal_value ds)%Z
        | _ => None
        end
      else None
  end.

Definition unsigned_f64 (s : string) : option f64 :=
  let '(whole, r) := span_digits s in
  let '(fraction, r) := match r with
                        | String a t => if Ascii.eqb a "."%char then span_digits t else ([], r)
                        | EmptyString => ([], r)
                        end in
  match whole ++ fraction with
  | [] => None
  | ds => match exponent_value r with
          | Some e => Some (f64_of_decimal (decimal_value ds) (e - Z.of_nat (length fraction)))
          | None => None
          end
  end.

(** [str::parse::<f64>]. *)
Definition f64_from_str (s : string) : option f64 :=
  let '(negative, t) := take_sign s in
  let magnitude :=
    if eq_ignore_ascii_case t "inf" || eq_ignore_ascii_case t "infinity"
    then Some (S754_infinity false)
    else if eq_ignore_ascii_case t "nan" then Some S754_nan
    else unsigned_f64 t in
  (fun x => if negative then f64_neg x else x) <$> magnitude.

Example f64_from_str_examples :
  f64_from_str "2.50" = Some (f64_of_decimal 25 (-1))
  /\ f64_from_str "-1e3" = Some (f64_of_Z (-1000))
  /\ f64_from_str ".5" = f64_from_str "5E-1" /\ f64_from_str "5." = Some (f64_of_Z 5)
  /\ f64_from_str "-Infinity" = Some (S754_infinity true)
  /\ f64_from_str "" = None /\ f64_from_str "." = None /\ f64_from_str " 1" = None
  /\ f64_from_str "1e" = None.
Proof. vm_compute. repeat split; reflexivity. Qed.

Example integer_examples :
  parse_i64 "-9223372036854775808" = Some i64_min /\ parse_i64 "9223372036854775808" = None
  /\ parse_u64 "9223372036854775808" = Some (i64_max + 1)%Z /\ parse_u64 "-1" = None.
Proof. vm_compute. repeat split; reflexivity. Qed.

(** ** Printing non-negative integers ([Display] of the integer types) *)
Open Scope Z_scope.

Definition digit_char (d : Z) : ascii := ascii_of (48 + d).

Fixpoint decimal_loop (fuel : nat) (n : Z) : list ascii :=
  match fuel with
  | O => []
  | S fuel => if n <? 10 then [digit_char n]
              else decimal_loop fuel (n / 10) ++ [digit_char (n mod 10)]
  end.

Definition decimal_digits (n : Z) : list ascii := decimal_loop (S (Z.to_nat (Z.log2 n))) n.

Definition decimal (n : Z) : string :=
  if n <? 0 then String "-" (text (decimal_digits (- n))) else text (decimal_digits n).

Definition is_digit (a : ascii) : bool := is_ascii_digit (byte_of a).

Lemma digit_value_char d : 0 <= d < 10 -> digit_value (digit_char d) = Some d.
Proof.
  intros H. assert (d ∈ [0;1;2;3;4;5;6;7;8;9]) as Hd by (set_unfold; lia).
  repeat (apply elem_of_cons in Hd as [->|Hd]; [reflexivity|]). by apply not_elem_of_nil in Hd.
Qed.

Lemma is_digit_char d : 0 <= d < 10 -> is_digit (digit_char d) = true.
Proof.
  intros H. assert (d ∈ [0;1;2;3;4;5;6;7;8;9]) as Hd by (set_unfold; lia).
  repeat (apply elem_of_cons in Hd as [->|Hd]; [reflexivity|]). by apply not_elem_of_nil in Hd.
Qed.

Lemma digits_value_app acc l l' :
  digits_value acc (text (l ++ l')) =
    match digits_value acc (text l) with
    | Some n => digits_value n (text l')
    | None => None
    end.
Proof.
  revert acc. induction l as [|a l IH]; intros acc; simpl; [done|].
  destruct (digit_value a); [apply IH|done].
Qed.

Lemma div10_log2 n fuel :
  10 <= n -> (Z.to_nat (Z.log2 n) <= fuel)%nat -> (Z.to_nat (Z.log2 (n / 10)) <= Nat.pred fuel)%nat.
Proof.
  intros Hn Hf. assert (Z.log2 (n / 10) < Z.log2 n).
  { apply Z.log2_lt_pow2; [apply Z.div_str_pos; lia|].
    assert (n < 2 * 2 ^ Z.log2 n).
    { pose proof (Z.log2_spec n ltac:(lia)) as [_ H]. by rewrite Z.pow_succ_r in H by apply Z.log2_nonneg. }
    apply Z.div_lt_upper_bound; lia. }
  pose proof (Z.log2_nonneg (n / 10)). lia.
Qed.

Lemma decimal_loop_spec fuel n :
  0 <= n -> (Z.to_nat (Z.log2 n) < fuel)%nat ->
  digits_value 0 (text (decimal_loop fuel n)) = Some n
  /\ Forall (fun a => is_digit a = true) (decimal_loop fuel n) /\ decimal_loop fuel n <> [].
Proof.
  revert n. induction fuel as [|fuel IH]; intros n Hn Hf; [lia|]. cbn [decimal_loop].
  destruct (Z.ltb_spec n 10).
  - simpl. rewrite digit_value_char by lia. repeat constructor; [|done]. by apply is_digit_char.
  - pose proof (Z.mod_pos_bound n 10 ltac:(lia)).
    destruct (IH (n / 10)) as (IH1 & IH2 & _).
    { apply Z.div_pos; lia. }
    { pose proof (div10_log2 n fuel ltac:(lia) ltac:(lia)).
      assert (2 <= Z.log2 n) by (apply Z.log2_le_pow2; lia). lia. }
    rewrite digits_value_app, IH1. cbn [text digits_value String.string_of_list_ascii].
    rewrite digit_value_char by lia. repeat split.
    + f_equal. rewrite (Z.div_mod n 10) at 3; lia.
    + apply Forall_app. split; [done|]. repeat constructor. by apply is_digit_char.
    + by destruct (decimal_loop fuel (n / 10)).
Qed.

(** Printing and reading back. *)
Lemma decimal_digits_spec n :
  0 <= n -> digits_value 0 (text (decimal_digits n)) = Some n
            /\ Forall (fun a => is_digit a = true) (decimal_digits n) /\ decimal_digits n <> [].
Proof. intros Hn. apply decimal_loop_spec; lia. Qed.

Lemma is_digit_visible a : is_digit a = true -> visible a.
Proof.
  unfold is_digit, is_ascii_digit, visible, is_whitespace. rewrite andb_true_iff, !Z.leb_le.
  intros. split; [lia|]. rewrite !orb_false_iff, !andb_false_iff, !Z.eqb_neq, !Z.leb_gt. lia.
Qed.

(** ** Printing an [i64] and reading it back *)
Lemma digit_value_pretty x : (x < 10)%N -> digit_value (pretty_N_char x) = Some (Z.of_N x).
Proof.
  intros H.
  assert (x = 0 \/ x = 1 \/ x = 2 \/ x = 3 \/ x = 4 \/ x = 5 \/ x = 6 \/ x = 7 \/ x = 8 \/ x = 9)%N
    as Hx by lia.
  by repeat (destruct Hx as [->|Hx]); subst.
Qed.

Lemma digits_value_pretty_go x s :
  digits_value 0 (pretty_N_go x s) = digits_value (Z.of_N x) s.
Proof.
  revert s. induction (N.lt_wf_0 x) as [x _ IH]. intros s.
  destruct (decide (x = 0)%N) as [->|Hx]; [by rewrite pretty_N_go_0|].
  rewrite pretty_N_go_step by lia. rewrite IH by (apply N.div_lt; lia). simpl.
  rewrite digit_value_pretty by (apply N.mod_lt; lia).
  f_equal. rewrite N2Z.inj_div, N2Z.inj_mod. pose proof (Z.div_mod (Z.of_N x) 10). lia.
Qed.

(** The text of a positive number is a digit and then digits. *)
Lemma pretty_positive p :
  exists a s, pretty (N.pos p) = String a s /\ digits_value 0 (String a s) = Some (Z.pos p)
              /\ is_Some (digit_value a).
Proof.
  unfold pretty, pretty_N. rewrite decide_False by lia.
  pose proof (digits_value_pretty_go (N.pos p) EmptyString) as Hd.
  destruct (pretty_N_go (N.pos p) EmptyString) as [|a s]; [done|].
  exists a, s. split_and!; [done|done|]. simpl in Hd. destruct (digit_value a); [by eexists|done].
Qed.

Lemma parse_i64_pretty n : i64_min <= n <= i64_max -> parse_i64 (pretty n) = Some n.
Proof.
  unfold i64_min, i64_max. intros Hn. destruct n as [|p|p]; [done| |].
  - change (pretty (Z.pos p)) with (pretty (N.pos p)).
    destruct (pretty_positive p) as (a & s & -> & Hd & Ha). unfold parse_i64.
    destruct (Ascii.eqb a "+"%char) eqn:E1; [apply Ascii.eqb_eq in E1; subst; by destruct Ha|].
    destruct (Ascii.eqb a "-"%char) eqn:E2; [apply Ascii.eqb_eq in E2; subst; by destruct Ha|].
    rewrite Hd, (proj2 (Z.leb_le (- 2 ^ 63) (Z.pos p))) by lia.
    by rewrite (proj2 (Z.ltb_lt (Z.pos p) (2 ^ 63))) by lia.
  - change (pretty (Z.neg p)) with (String "-"%char (pretty (N.pos p))).
    destruct (pretty_positive p) as (a & s & -> & Hd & _). unfold parse_i64.
    change (Ascii.eqb "-" "+") with false. change (Ascii.eqb "-" "-") with true. cbv iota.
    rewrite Hd. change (Z.opp <$> Some (Z.pos p)) with (Some (Z.neg p)). cbv iota.
    rewrite (proj2 (Z.leb_le (- 2 ^ 63) (Z.neg p))) by lia.
    by rewrite (proj2 (Z.ltb_lt (Z.neg p) (2 ^ 63))) by lia.
Qed.

Close Scope Z_scope.
