(* ===== verification/Json.v ===== *)
(** * [serde_json::Value]

    The JSON values the engine stores in process variables and the FEEL
    interpreter computes with.  [serde_json] is used without its
    [preserve_order] and [arbitrary_precision] features, so a number is a
    [u64], a negative [i64] or a finite [f64], and an object is a [BTreeMap]:
    an association list sorted by key. *)
From Stdlib Require Import Sorting.Sorted OrderedTypeEx.
From S2P Require Import Prelude Float64.

Open Scope Z_scope.

Inductive Number : Type :=
| PosInt (n : Z)
| NegInt (n : Z)
| Float (f : f64).

Inductive Value : Type :=
| VNull
| VBool (b : bool)
| VNumber (n : Number)
| VString (s : string)
| VArray (l : list Value)
| VObject (m : list (string * Value)).

(** [Value::from(i64)] and [json!(f64)]. *)
Definition value_of_i64 (n : Z) : Value :=
  VNumber (if Z.ltb n 0 then NegInt n else PosInt n).

Definition value_of_f64 (f : f64) : Value :=
  if f64_is_finite f then VNumber (Float f) else VNull.

Definition number_as_f64 (n : Number) : f64 :=
  match n with PosInt z | NegInt z => f64_of_Z z | Float f => f end.

Definition as_f64 (v : Value) : option f64 :=
  match v with VNumber n => Some (number_as_f64 n) | _ => None end.

Definition as_i64 (v : Value) : option Z :=
  match v with
  | VNumber (PosInt z) => if Z.leb z i64_max then Some z else None
  | VNumber (NegInt z) => Some z
  | _ => None
  end.

Definition as_bool (v : Value) : option bool :=
  match v with VBool b => Some b | _ => None end.
Definition as_str (v : Value) : option string :=
  match v with VString s => Some s | _ => None end.
Definition as_array (v : Value) : option (list Value) :=
  match v with VArray l => Some l | _ => None end.

(** ** Objects as sorted association lists ([BTreeMap<String, Value>]) *)
Fixpoint map_get {A} (k : string) (m : list (string * A)) : option A :=
  match m with
  | [] => None
  | (k', v) :: m => if bool_decide (k = k') then Some v else map_get k m
  end.

Fixpoint map_insert {A} (k : string) (v : A) (m : list (string * A)) : list (string * A) :=
  match m with
  | [] => [(k, v)]
  | (k', v') :: m' =>
      if bool_decide (k = k') then (k, v) :: m'
      else if String.ltb k k' then (k, v) :: m
      else (k', v') :: map_insert k v m'
  end.

(** [Value::get(key)]: only objects have string keys. *)
Definition value_get (k : string) (v : Value) : option Value :=
  match v with VObject m => map_get k m | _ => None end.

(** ** Equality: [serde_json]'s derived [PartialEq]

    Numbers of different representation are different ([1] and [1.0]);
    floats compare with IEEE equality. *)
Definition number_eqb (a b : Number) : bool :=
  match a, b with
  | PosInt x, PosInt y | NegInt x, NegInt y => Z.eqb x y
  | Float f, Float g => f64_eqb f g
  | _, _ => false
  end.

Fixpoint value_eqb (a b : Value) {struct a} : bool :=
  match a, b with
  | VNull, VNull => true
  | VBool x, VBool y => Bool.eqb x y
  | VNumber x, VNumber y => number_eqb x y
  | VString x, VString y => bool_decide (x = y)
  | VArray l, VArray l' =>
      (fix go (l l' : list Value) : bool :=
         match l, l' with
         | [], [] => true
         | x :: l, y :: l' => value_eqb x y && go l l'
         | _, _ => false
         end) l l'
  | VObject m, VObject m' =>
      (fix go (m m' : list (string * Value)) : bool :=
         match m, m' with
         | [], [] => true
         | (k, x) :: m, (k', y) :: m' =>
             bool_decide (k = k') && value_eqb x y && go m m'
         | _, _ => false
         end) m m'
  | _, _ => false
  end.

Definition value_contains (l : list Value) (v : Value) : bool :=
  existsb (fun x => value_eqb x v) l.

Lemma map_get_insert_eq {A} k (v : A) m : map_get k (map_insert k v m) = Some v.
Proof.
  induction m as [|[k' v'] m IH]; simpl.
  - by rewrite bool_decide_true.
  - case_bool_decide as E; simpl; [by rewrite bool_decide_true|].
    destruct (String.ltb k k'); simpl; [by rewrite bool_decide_true|].
    by rewrite bool_decide_false.
Qed.

Lemma map_get_insert_ne {A} k k' (v : A) m :
  k ≠ k' -> map_get k' (map_insert k v m) = map_get k' m.
Proof.
  intros Hne. induction m as [|[k1 v1] m IH]; simpl.
  - by rewrite bool_decide_false.
  - case_bool_decide as E; simpl.
    + subst k1. by rewrite bool_decide_false.
    + destruct (String.ltb k k1); simpl.
      * by rewrite bool_decide_false.
      * by rewrite IH.
Qed.

(** *** The order of the keys is kept *)
Definition keys_sorted {A} (m : list (string * A)) : Prop :=
  StronglySorted String_as_OT.lt (map fst m).

Lemma string_ltb_lt k k' : String.ltb k k' = true <-> String_as_OT.lt k k'.
Proof.
  unfold String.ltb. rewrite <- String_as_OT.cmp_lt. unfold String_as_OT.cmp.
  by destruct (String.compare k k').
Qed.

Lemma string_total k k' : k ≠ k' -> String.ltb k k' = false -> String_as_OT.lt k' k.
Proof.
  intros Hne. rewrite <- string_ltb_lt. unfold String.ltb. rewrite (String.compare_antisym k' k).
  destruct (String.compare k k') eqn:E; try done.
  by apply String.compare_eq_iff in E.
Qed.

Lemma map_insert_keys {A} k (v : A) m x : x ∈ map fst (map_insert k v m) -> x = k \/ x ∈ map fst m.
Proof.
  induction m as [|[k1 v1] m IH]; simpl; [set_solver|].
  case_bool_decide; simpl; [set_solver|]. destruct (String.ltb k k1); simpl; set_solver.
Qed.

Lemma map_insert_sorted {A} k (v : A) m : keys_sorted m -> keys_sorted (map_insert k v m).
Proof.
  unfold keys_sorted. induction m as [|[k1 v1] m IH]; intros Hs; simpl; [repeat constructor|].
  inversion Hs as [|? ? Hm Hk]; subst. case_bool_decide as E; simpl; [by subst|].
  destruct (String.ltb k k1) eqn:El; simpl.
  - apply string_ltb_lt in El. constructor; [done|]. constructor; [done|].
    eapply List.Forall_impl; [|exact Hk]. intros x Hx. by eapply String_as_OT.lt_trans.
  - apply string_total in El; [|done]. constructor; [by apply IH|].
    apply Forall_forall. intros x [->|Hx]%map_insert_keys; [done|].
    by eapply Forall_forall in Hk; [|exact Hx].
Qed.

Lemma keys_sorted_NoDup {A} (m : list (string * A)) : keys_sorted m -> NoDup (map fst m).
Proof.
  unfold keys_sorted. induction 1 as [|x l Hl IH Hx]; constructor; [|done].
  intros Hin. eapply Forall_forall in Hx; [|exact Hin]. by eapply String_as_OT.lt_not_eq.
Qed.

Close Scope Z_scope.

(** ** Sorting

    A sort by a boolean comparison, [ORDER BY] of the queries and [sort_by] of
    Rust: a permutation, in order when the comparison is total and transitive. *)

(** [ORDER BY]: a sort by a total comparison. *)
Section OrderBy.
Context {A : Type} (leb : A -> A -> bool).

Fixpoint insert_row (a : A) (l : list A) : list A :=
  match l with
  | [] => [a]
  | b :: l' => if leb a b then a :: l else b :: insert_row a l'
  end.

Definition order_by (l : list A) : list A := foldr insert_row [] l.

Lemma insert_row_permutation a l : Permutation (a :: l) (insert_row a l).
Proof.
  induction l as [|b l IH]; simpl; [done|]. destruct (leb a b); [done|].
  rewrite Permutation_swap. by constructor.
Qed.

Lemma order_by_permutation l : Permutation l (order_by l).
Proof. induction l as [|a l IH]; [done|]. simpl. rewrite <- insert_row_permutation. by constructor. Qed.

(** When the comparison is total and transitive the rows are in order. *)
Context (total : forall a b, leb a b = true \/ leb b a = true)
  (trans : forall a b c, leb a b = true -> leb b c = true -> leb a c = true).

Definition in_order : list A -> Prop := StronglySorted (fun a b => leb a b = true).

Lemma insert_row_in_order a l : in_order l -> in_order (insert_row a l).
Proof.
  induction 1 as [|b l Hl IH Hb]; simpl; [repeat constructor|].
  destruct (leb a b) eqn:E; constructor; [by constructor| |done|].
  - constructor; [done|]. eapply List.Forall_impl; [|exact Hb]. intros c. by apply trans.
  - apply Forall_forall. intros c Hc. rewrite <- insert_row_permutation in Hc.
    apply elem_of_cons in Hc as [->|Hc]; [destruct (total a b); congruence|].
    by eapply Forall_forall in Hb.
Qed.

Lemma order_by_in_order l : in_order (order_by l).
Proof. induction l as [|a l IH]; simpl; [constructor|by apply insert_row_in_order]. Qed.

Lemma in_order_filter p l : in_order l -> in_order (List.filter p l).
Proof.
  induction 1 as [|a l Hl IH Ha]; simpl; [constructor|]. destruct (p a); [|done].
  constructor; [done|]. apply Forall_forall. intros b Hb%list_elem_of_In.
  apply filter_In in Hb as [Hb _]. eapply Forall_forall in Ha; [done|by apply list_elem_of_In].
Qed.
End OrderBy.

(** ** The order of strings *)
Definition string_leb (a b : string) : bool := negb (String.ltb b a).

Lemma string_leb_total a b : string_leb a b = true \/ string_leb b a = true.
Proof.
  unfold string_leb, String.ltb. rewrite (String.compare_antisym b a).
  destruct (String.compare a b); auto.
Qed.

Lemma string_leb_trans a b c : string_leb a b = true -> string_leb b c = true -> string_leb a c = true.
Proof.
  assert (iff_ : forall x y, string_leb x y = true <-> x = y \/ String_as_OT.lt x y).
  { intros x y. unfold string_leb. rewrite negb_true_iff. split.
    - intros E. destruct (decide (x = y)); [by left|]. right. apply string_total; [by intros ->|done].
    - intros [->|Hlt]; apply not_true_iff_false; rewrite string_ltb_lt; intros Hl.
      + by eapply String_as_OT.lt_not_eq.
      + eapply String_as_OT.lt_not_eq; [|reflexivity].
        by eapply String_as_OT.lt_trans. }
  rewrite !iff_. intros [->|H1] [->|H2]; auto. right. by eapply String_as_OT.lt_trans.
Qed.

Lemma string_ltb_leb a b : String.ltb a b = negb (string_leb b a).
Proof. unfold string_leb. by rewrite negb_involutive. Qed.

Lemma ltb_irrefl a : String.ltb a a = false.
Proof.
  apply not_true_iff_false. rewrite string_ltb_lt. intros Hl.
  by eapply String_as_OT.lt_not_eq.
Qed.

Lemma ltb_trans a b c : String.ltb a b = true -> String.ltb b c = true -> String.ltb a c = true.
Proof. rewrite !string_ltb_lt. apply String_as_OT.lt_trans. Qed.
