(* ===== verification/Errors.v ===== *)
(** * [FlowableError] and message formatting

    Models [flowable-engine-common/src/lib.rs].  A message built by
    [format!] is kept as the list of its pieces: literal text, and the
    values interpolated into it with the formatter that renders them
    ([{}] of a string, of an integer or of a JSON value, [{:?}] of an
    [Option<&str>]).  The rendering itself is Rust's standard library and
    no decision of the engine depends on it. *)
From S2P Require Import Prelude Json.

Inductive Fragment : Type :=
| Lit (s : string)
| ShowInt (n : Z)
| ShowJson (v : Value)
| DebugOptStr (o : option string).

Definition Message : Type := list Fragment.

(** ** The error type *)
Inductive FlowableError : Type :=
| InvalidBpmnXml (position : Z) (message : Message)
| UnsupportedElement (element_type activity_id : string)
| DeploymentValidationError (m : Message)
| BadRequest (m : Message)
| Forbidden (m : Message)
| Conflict (m : Message)
| ExecutionError (m : Message)
| UnrecoverableJobError (m : Message)
| NotFound (m : Message)
| Internal (m : Message)
| Generic (m : Message)
| Caused (outer cause : FlowableError).

Definition caused_by (self cause : FlowableError) : FlowableError := Caused self cause.

Fixpoint primary_error (e : FlowableError) : FlowableError :=
  match e with
  | Caused outer _ => primary_error outer
  | _ => e
  end.

(** [Display]. *)
Fixpoint display (e : FlowableError) : Message :=
  match e with
  | InvalidBpmnXml position message =>
      [Lit "Invalid BPMN XML at byte position "; ShowInt position; Lit ": "] ++ message
  | UnsupportedElement element_type activity_id =>
      [Lit "unsupported activity behavior: "; Lit element_type;
       Lit " (activity id: "; Lit activity_id; Lit ")"]
  | DeploymentValidationError m => Lit "Deployment validation error: " :: m
  | BadRequest m | Forbidden m | ExecutionError m => Lit "Execution error: " :: m
  | UnrecoverableJobError m => Lit "Unrecoverable job error: " :: m
  | Conflict m => Lit "Conflict: " :: m
  | NotFound m => Lit "Not found: " :: m
  | Internal m => Lit "Internal error: " :: m
  | Generic m => Lit "Generic error: " :: m
  | Caused outer _ => display outer
  end.

(** [raw_primary_message]; [None] is the [unreachable!] arm, a panic. *)
Definition raw_primary_message (e : FlowableError) : option Message :=
  match primary_error e with
  | InvalidBpmnXml _ m | DeploymentValidationError m | BadRequest m | Forbidden m
  | Conflict m | ExecutionError m | UnrecoverableJobError m | NotFound m
  | Internal m | Generic m => Some m
  | UnsupportedElement t a => Some (display (UnsupportedElement t a))
  | Caused _ _ => None
  end.

Fixpoint is_unrecoverable_job_failure (e : FlowableError) : bool :=
  match e with
  | UnrecoverableJobError _ => true
  | Caused outer cause =>
      is_unrecoverable_job_failure outer || is_unrecoverable_job_failure cause
  | _ => false
  end.

(** [std::error::Error::source]. *)
Definition source (e : FlowableError) : option FlowableError :=
  match e with Caused _ cause => Some cause | _ => None end.

(** ** Properties *)

(** The errors of a cause chain: the leaves of the [Caused] tree. *)
Inductive occurs (x : FlowableError) : FlowableError -> Prop :=
| occurs_here : occurs x x
| occurs_outer o c : occurs x o -> occurs x (Caused o c)
| occurs_cause o c : occurs x c -> occurs x (Caused o c).

Lemma primary_error_not_caused e o c : primary_error e ≠ Caused o c.
Proof. induction e; simpl; try discriminate. done. Qed.

Lemma primary_error_occurs e : occurs (primary_error e) e.
Proof. induction e; simpl; try constructor; auto. Qed.

Lemma display_primary e : display e = display (primary_error e).
Proof. induction e; simpl; auto. Qed.

Lemma unrecoverable_spec e :
  is_unrecoverable_job_failure e = true <-> exists m, occurs (UnrecoverableJobError m) e.
Proof.
  split.
  - induction e; simpl; try discriminate.
    + intros _. exists m. constructor.
    + intros H. apply orb_prop in H as [H|H].
      * destruct (IHe1 H) as [m Hm]. exists m. by apply occurs_outer.
      * destruct (IHe2 H) as [m Hm]. exists m. by apply occurs_cause.
  - intros [m Hm]. induction Hm; simpl; [done| |]; rewrite IHHm; [done|].
    apply orb_true_r.
Qed.
