(* ===== verification/ElValues.v ===== *)
(** * The expression language: values, arithmetic and methods

    Models [flowable-engine-common/src/el/]: [variable_container.rs],
    [method_registry.rs] and the helpers of [expression.rs] that compute on
    values ([SimpleExpression::to_f64] to [invoke_builtin_method]).

    A method of the registry is a pure function of its arguments.  What a
    message interpolates is kept as fragments.  [None] of [arithmetic_op] is a
    panic: [i64::MIN % -1] overflows.  Parameters: the texts Rust and
    [serde_json] print for a value or a float, and Rust's Unicode tables. *)
From Stdlib Require Import Ascii.
From S2P Require Import Prelude Chars Float64 Numerals Json Errors.

Open Scope Z_scope.

(** [Value::to_string] and [f64::to_string]. *)
Class Display := {
  value_to_string : Value -> string;
  f64_to_string : f64 -> string
}.

(** ** Numbers of [serde_json] *)
Definition number_as_i64 (n : Number) : option Z := as_i64 (VNumber n).

Definition number_as_u64 (n : Number) : option Z :=
  match n with PosInt z => Some z | _ => None end.

Definition number_from_i64 (n : Z) : Number := if Z.ltb n 0 then NegInt n else PosInt n.
Definition number_from_f64 (f : f64) : option Number :=
  if f64_is_finite f then Some (Float f) else None.

(** [i64::wrapping_*] and [u64::wrapping_*]. *)
Definition wrap_i64 (n : Z) : Z := (n + 2 ^ 63) mod 2 ^ 64 - 2 ^ 63.
Definition wrap_u64 (n : Z) : Z := n mod 2 ^ 64.

(** ** The method registry *)
Definition ExpressionMethod : Type := list Value -> result Message Value.

Record ExpressionMethodRegistry := mkRegistry {
  bean_methods : gmap string (gmap string ExpressionMethod);
  static_methods : gmap string (gmap string ExpressionMethod)
}.

Definition STATIC_TYPE_MARKER : string := "__flowable_expression_static_type".
Definition BEAN_MARKER : string := "__flowable_expression_bean".

Definition registry_new : ExpressionMethodRegistry := mkRegistry ∅ ∅.

(** [entry(receiver).or_default().insert(method, function)]. *)
Definition register (methods : gmap string (gmap string ExpressionMethod))
  (receiver method : string) (function : ExpressionMethod)
  : gmap string (gmap string ExpressionMethod) :=
  <[receiver := <[method := function]> (default ∅ (methods !! receiver))]> methods.

Definition register_bean_method (bean method : string) (f : ExpressionMethod)
  (r : ExpressionMethodRegistry) : ExpressionMethodRegistry :=
  mkRegistry (register (bean_methods r) bean method f) (static_methods r).

Definition register_static_method (type_name method : string) (f : ExpressionMethod)
  (r : ExpressionMethodRegistry) : ExpressionMethodRegistry :=
  mkRegistry (bean_methods r) (register (static_methods r) type_name method f).

Definition contains_bean (r : ExpressionMethodRegistry) (bean : string) : bool :=
  bool_decide (is_Some (bean_methods r !! bean)).

Definition invoke (methods : gmap string (gmap string ExpressionMethod))
  (receiver method : string) (arguments : list Value) : option (result Message Value) :=
  match methods !! receiver ≫= (fun ms => ms !! method) with
  | Some function => Some (function arguments)
  | None => None
  end.

Definition invoke_bean (r : ExpressionMethodRegistry) := invoke (bean_methods r).
Definition invoke_static (r : ExpressionMethodRegistry) := invoke (static_methods r).

(** *** [java.lang.Math] *)
Definition numeric_value (v : Value) : result Message f64 :=
  match v with
  | VNumber n => Ok (number_as_f64 n)
  | VString text =>
      match f64_from_str text with
      | Some x => Ok x
      | None => Err [Lit "'"; Lit text; Lit "' is not numeric"]
      end
  | _ => Err [Lit "'"; ShowJson v; Lit "' is not numeric"]
  end.

Definition number_value (x : f64) : result Message Value :=
  match number_from_f64 x with
  | Some n => Ok (VNumber n)
  | None => Err [Lit "numeric method returned a non-finite value"]
  end.

Definition numeric_extreme (arguments : list Value) (maximum : bool) : result Message Value :=
  match arguments with
  | [a; b] =>
      left_ ← numeric_value a;
      right_ ← numeric_value b;
      if (maximum && f64_leb right_ left_) || (negb maximum && f64_leb left_ right_)
      then Ok a else Ok b
  | _ => Err [Lit "Math min/max expects two numeric arguments"]
  end.

Definition one_numeric_argument (arguments : list Value) (method : string)
  : result Message f64 :=
  match arguments with
  | [a] => numeric_value a
  | _ => Err [Lit "Math."; Lit method; Lit " expects one numeric argument"]
  end.

Definition math_pow `{Libm} (arguments : list Value) : result Message Value :=
  match arguments with
  | [a; b] =>
      left_ ← numeric_value a; right_ ← numeric_value b; number_value (f64_powf left_ right_)
  | _ => Err [Lit "Math.pow expects two numeric arguments"]
  end.

Definition register_math `{Libm} (type_name : string) (r : ExpressionMethodRegistry)
  : ExpressionMethodRegistry :=
  let r := register_static_method type_name "max" (fun a => numeric_extreme a true) r in
  let r := register_static_method type_name "min" (fun a => numeric_extreme a false) r in
  let r := register_static_method type_name "abs"
             (fun a => x ← one_numeric_argument a "abs"; number_value (f64_abs x)) r in
  let r := register_static_method type_name "sqrt"
             (fun a => x ← one_numeric_argument a "sqrt"; number_value (f64_sqrt x)) r in
  register_static_method type_name "pow" math_pow r.

Definition register_java_math_methods `{Libm} (r : ExpressionMethodRegistry)
  : ExpressionMethodRegistry :=
  fold_left (fun r type_name => register_math type_name r) ["java.lang.Math"; "Math"]%string r.

Definition default_expression_method_registry `{Libm} : ExpressionMethodRegistry :=
  register_java_math_methods registry_new.

(** *** The active registry of the thread: the innermost one of the stack
    [with_expression_method_registry] maintains *)
Definition current_expression_method_registry `{Libm}
  (active : list ExpressionMethodRegistry) : ExpressionMethodRegistry :=
  match last active with Some r => r | None => default_expression_method_registry end.

Definition with_expression_method_registry {A} (registry : ExpressionMethodRegistry)
  (operation : list ExpressionMethodRegistry -> A) (active : list ExpressionMethodRegistry) : A :=
  operation (active ++ [registry]).

(** *** Markers: how a bean or a type is a value *)
Definition static_type_marker (type_name : string) : Value :=
  VObject (map_insert STATIC_TYPE_MARKER (VString type_name) []).
Definition bean_marker (bean : string) : Value :=
  VObject (map_insert BEAN_MARKER (VString bean) []).

Definition as_object (v : Value) : option (list (string * Value)) :=
  match v with VObject m => Some m | _ => None end.

(** The name and whether it is a static type. *)
Definition marker_receiver (receiver : Value) : option (string * bool) :=
  object ← as_object receiver;
  match map_get STATIC_TYPE_MARKER object ≫= as_str with
  | Some type_name => Some (type_name, true)
  | None => (fun bean => (bean, false)) <$> (map_get BEAN_MARKER object ≫= as_str)
  end.

Fixpoint strip_prefix (prefix s : string) : option string :=
  match prefix, s with
  | EmptyString, _ => Some s
  | String a p, String b t => if Ascii.eqb a b then strip_prefix p t else None
  | String _ _, EmptyString => None
  end.

Fixpoint strip_last (a : ascii) (s : string) : option string :=
  match s with
  | EmptyString => None
  | String b EmptyString => if Ascii.eqb a b then Some EmptyString else None
  | String b t => String b <$> strip_last a t
  end.

Definition parse_static_type_reference (name : string) : option string :=
  trimmed (strip_prefix "T(" (trim name) ≫= strip_last ")").

(** ** Scopes: the trait [VariableContainer] *)
Record VariableContainer := mkScope {
  get_variable : string -> option Value;
  current_tenant_id : option string;
  root_object_json : option Value
}.

Definition map_container (variables : gmap string Value) : VariableContainer :=
  mkScope (fun name => variables !! name) None None.

Definition resolve_variable (registry : ExpressionMethodRegistry) (scope : VariableContainer)
  (name : string) : option Value :=
  match parse_static_type_reference name with
  | Some type_name => Some (static_type_marker type_name)
  | None =>
      if contains_bean registry name then Some (bean_marker name)
      else if bool_decide (name = "execution"%string) then root_object_json scope
      else if bool_decide (name = "task"%string) then None
      else if bool_decide (name = "currentTenantId"%string) then VString <$> current_tenant_id scope
      else get_variable scope name
  end.

(** ** Comparison and truth *)
Definition to_f64 (v : Value) : option f64 :=
  match v with
  | VNumber n => Some (number_as_f64 n)
  | VString s => f64_from_str s
  | _ => None
  end.

Definition number_less (l r : Number) : bool :=
  match number_as_i64 l, number_as_i64 r with
  | Some a, Some b => a <? b
  | _, _ =>
  match number_as_u64 l, number_as_u64 r with
  | Some a, Some b => a <? b
  | _, _ =>
  match number_as_i64 l, number_as_u64 r with
  | Some a, Some _ => a <? 0
  | _, _ =>
  match number_as_u64 l, number_as_i64 r with
  | Some _, Some b => negb (b <? 0)
  | _, _ => f64_ltb (number_as_f64 l) (number_as_f64 r)
  end end end end.

(** [(l - r).abs() < f64::EPSILON]. *)
Definition f64_close (l r : f64) : bool := f64_ltb (f64_abs (f64_sub l r)) f64_epsilon.

Definition number_equal (l r : Number) : bool :=
  match number_as_i64 l, number_as_i64 r with
  | Some a, Some b => a =? b
  | _, _ =>
  match number_as_u64 l, number_as_u64 r with
  | Some a, Some b => a =? b
  | _, _ =>
  match number_as_i64 l, number_as_u64 r with
  | Some a, Some b => (0 <=? a) && (a =? b)
  | _, _ =>
  match number_as_u64 l, number_as_i64 r with
  | Some a, Some b => (0 <=? b) && (a =? b)
  | _, _ => f64_close (number_as_f64 l) (number_as_f64 r)
  end end end end.

Definition values_equal (l r : Value) : bool :=
  match l, r with
  | VNull, VNull => true
  | VNull, _ | _, VNull => false
  | VBool a, VBool b => Bool.eqb a b
  | VString a, VString b => bool_decide (a = b)
  | VNumber a, VNumber b => number_equal a b
  | VNumber _, VString _ | VString _, VNumber _ =>
      match to_f64 l, to_f64 r with
      | Some a, Some b => f64_close a b
      | _, _ => false
      end
  | _, _ => value_eqb l r
  end.

Definition values_less (l r : Value) : bool :=
  match l, r with
  | VNumber a, VNumber b => number_less a b
  | _, _ =>
      match to_f64 l, to_f64 r with
      | Some a, Some b => f64_ltb a b
      | None, None =>
          match l, r with
          | VString a, VString b => String.ltb a b
          | VBool a, VBool b => negb a && b
          | _, _ => false
          end
      | _, _ => false
      end
  end.

Definition values_greater (l r : Value) : bool := values_less r l.

Definition is_truthy (v : Value) : bool :=
  match v with
  | VBool b => b
  | VNull => false
  | VString s => negb (bool_decide (s = EmptyString))
  | VNumber n => negb (f64_eqb (number_as_f64 n) f64_zero)
  | VArray a => negb (bool_decide (length a = 0%nat))
  | VObject _ => true
  end.

Definition is_empty (v : Value) : bool :=
  match v with
  | VNull => true
  | VString s => bool_decide (s = EmptyString)
  | VArray a => bool_decide (length a = 0%nat)
  | VObject m => bool_decide (length m = 0%nat)
  | _ => false
  end.

(** ** Bracket access *)
Definition coerce_index (property : Value) : option Z :=
  match property with
  | VNumber n => or_else (number_as_i64 n) (Some (i64_of_f64 (number_as_f64 n)))
  | VString s => parse_i64 s
  | VBool true => Some 1
  | VBool false => Some 0
  | _ => None
  end.

Definition index_value (base property : Value) : Value :=
  match base with
  | VArray arr =>
      match coerce_index property with
      | Some idx =>
          if (0 <=? idx) && (idx <? Z.of_nat (length arr))
          then unwrap_or VNull (arr !! Z.to_nat idx) else VNull
      | None => VNull
      end
  | VObject map =>
      match property with
      | VString key => unwrap_or VNull (map_get key map)
      | _ => VNull
      end
  | _ => VNull
  end.

Definition is_operator_keyword (s : string) : bool :=
  bool_decide (s ∈ ["and"; "or"; "eq"; "ne"; "lt"; "le"; "ge"; "gt"; "div"; "mod"; "not";
                    "empty"]%string).

(** ** Arithmetic *)
Section Arithmetic.
Context `{Display}.

Definition nonfinite_sentinel (x : f64) : Value :=
  match x with
  | S754_nan => VString "NaN"
  | S754_infinity false => VString "Infinity"
  | S754_infinity true => VString "-Infinity"
  | _ =>
      if f64_eqb (f64_fract x) f64_zero && f64_leb (f64_of_Z i64_min) x
         && f64_leb x (f64_of_Z i64_max)
      then VNumber (number_from_i64 (i64_of_f64 x))
      else match number_from_f64 x with
           | Some n => VNumber n
           | None => VString (f64_to_string x)
           end
  end.

Definition as_big_decimal (v : Value) : option f64 :=
  match v with
  | VObject m => (map_get "__flowable_bd" m ≫= as_str) ≫= f64_from_str
  | _ => None
  end.

Definition has_char (a : ascii) (s : string) : bool := str_contains s (String a EmptyString).

Definition is_float_or_double_like (v : Value) : bool :=
  match v with
  | VNumber n =>
      negb (f64_eqb (f64_fract (number_as_f64 n)) f64_zero)
      || (bool_decide (number_as_i64 n = None) && bool_decide (number_as_u64 n = None))
  | VString s =>
      let t := trim s in has_char "." t || has_char "e" t || has_char "E" t
  | _ => false
  end.

Definition by_zero : Message := [Lit "ELException: / by zero"].

(** The [i64] and [u64] branches for [+ - * %]; [None]: not taken. *)
Definition integer_op (op : ascii) (l r : Value) : option (option (result Message Value)) :=
  match l, r with
  | VNumber a, VNumber b =>
      let signed :=
        match number_as_i64 a, number_as_i64 b with
        | Some x, Some y =>
            let ok n := Some (Some (Ok (VNumber (number_from_i64 n)))) in
            if Ascii.eqb op "+" then ok (wrap_i64 (x + y))
            else if Ascii.eqb op "-" then ok (wrap_i64 (x - y))
            else if Ascii.eqb op "*" then ok (wrap_i64 (x * y))
            else if Ascii.eqb op "%" then
              if y =? 0 then Some (Some (Err by_zero))
              else if (x =? i64_min) && (y =? -1) then Some None
              else ok (Z.rem x y)
            else None
        | _, _ => None
        end in
      or_else signed
        match number_as_u64 a, number_as_u64 b with
        | Some x, Some y =>
            let ok n := Some (Some (Ok (VNumber (PosInt n)))) in
            if Ascii.eqb op "+" then ok (wrap_u64 (x + y))
            else if Ascii.eqb op "*" then ok (wrap_u64 (x * y))
            else if Ascii.eqb op "%" then
              if y =? 0 then Some (Some (Err by_zero)) else ok (Z.rem x y)
            else None
        | _, _ => None
        end
  | _, _ => None
  end.

Definition cannot_coerce (side : string) (op : ascii) : Message :=
  [Lit "ELException: cannot coerce "; Lit side; Lit " operand to number for '";
   Lit (String op EmptyString); Lit "'"].

(** The [f64] branch. *)
Definition float_op (op : ascii) (left_ right_ : Value) (either_bd : bool) (l r : f64)
  : result Message Value :=
  if Ascii.eqb op "/" then
    if either_bd && f64_eqb r f64_zero
    then Err [Lit "ELException: BigDecimal divide by zero"]
    else Ok (nonfinite_sentinel (f64_div l r))
  else if Ascii.eqb op "%" then
    if either_bd || is_float_or_double_like left_ || is_float_or_double_like right_
    then Ok (nonfinite_sentinel (f64_rem l r))
    else if f64_eqb r f64_zero then Err by_zero
    else Ok (nonfinite_sentinel (f64_rem l r))
  else if Ascii.eqb op "+" then Ok (nonfinite_sentinel (f64_add l r))
  else if Ascii.eqb op "-" then Ok (nonfinite_sentinel (f64_sub l r))
  else if Ascii.eqb op "*" then Ok (nonfinite_sentinel (f64_mul l r))
  else Err [Lit "ELException: unknown arithmetic operator '"; Lit (String op EmptyString); Lit "'"].

Definition arithmetic_op (left_ right_ : Value) (op : ascii) : option (result Message Value) :=
  let left_bd := as_big_decimal left_ in
  let right_bd := as_big_decimal right_ in
  let either_bd := bool_decide (is_Some left_bd) || bool_decide (is_Some right_bd) in
  match integer_op op left_ right_ with
  | Some outcome => outcome
  | None =>
      Some (l ← ok_or (cannot_coerce "left" op) (or_else left_bd (to_f64 left_));
            r ← ok_or (cannot_coerce "right" op) (or_else right_bd (to_f64 right_));
            float_op op left_ right_ either_bd l r)
  end.
End Arithmetic.

(** ** Methods *)

(** [str::replace]: every occurrence, left to right, without overlap; [skip]
    counts the bytes of an occurrence still to pass over. *)
Fixpoint replace_from (skip : nat) (s from to : string) : string :=
  match s with
  | EmptyString => EmptyString
  | String a t =>
      match skip with
      | S skip => replace_from skip t from to
      | O => if starts_with from s
             then String.append to (replace_from (String.length from - 1) t from to)
             else String a (replace_from 0 t from to)
      end
  end.

(** An empty pattern matches before every character and at the end. *)
Definition str_replace (s from to : string) : string :=
  if bool_decide (from = EmptyString) then
    String.append to
      (foldr (fun c acc => of_bytes (char_bytes c) (String.append to acc)) EmptyString (chars s))
  else replace_from 0 s from to.

Definition str_ends_with (s suffix : string) : bool :=
  let n := (String.length s - String.length suffix)%nat in
  (String.length suffix <=? String.length s)%nat
  && bool_decide (String.substring n (String.length suffix) s = suffix).

Section Methods.
Context `{Display} `{Unicode}.

(** The text of an argument: itself, or the JSON text of another value. *)
Definition text_of (v : Value) : string :=
  match v with VString s => s | _ => value_to_string v end.

Definition substring_method (s : string) (args : list Value) : Value :=
  let cs := chars s in
  let len := Z.of_nat (length cs) in
  match args with
  | [] => VNull
  | a :: rest =>
      match to_f64 a with
      | None => VNull
      | Some v =>
          let start := i64_of_f64 v in
          let end_ := match rest with
                      | [] => Some len
                      | b :: _ => i64_of_f64 <$> to_f64 b
                      end in
          match end_ with
          | None => VNull
          | Some end_ =>
              let start := Z.to_nat (Z.min (Z.max start 0) len) in
              let end_ := Z.to_nat (Z.min (Z.max end_ 0) len) in
              if (end_ <? start)%nat then VString EmptyString
              else VString (of_chars (take (end_ - start) (drop start cs)))
          end
      end
  end.

Definition string_method (s method : string) (args : list Value) : option Value :=
  let named m := bool_decide (method = m) in
  match args with
  | [] =>
      if named "toUpperCase"%string then Some (VString (to_uppercase s))
      else if named "toLowerCase"%string then Some (VString (to_lowercase s))
      else if named "length"%string then
        Some (VNumber (number_from_i64 (wrap_i64 (Z.of_nat (length (chars s))))))
      else if named "trim"%string then Some (VString (trim s))
      else None
  | [a] =>
      if named "contains"%string then Some (VBool (str_contains s (text_of a)))
      else if named "startsWith"%string then Some (VBool (starts_with (text_of a) s))
      else if named "endsWith"%string then Some (VBool (str_ends_with s (text_of a)))
      else if named "substring"%string then Some (substring_method s args)
      else None
  | [a; b] =>
      if named "replace"%string then Some (VString (str_replace s (text_of a) (text_of b)))
      else if named "substring"%string then Some (substring_method s args)
      else None
  | _ => None
  end.

Definition number_method (n : Number) (method : string) (args : list Value) : option Value :=
  let named m := bool_decide (method = m) in
  let v := number_as_f64 n in
  let rounded f := Some (VNumber (number_from_i64 (i64_of_f64 f))) in
  match args with
  | [] =>
      if named "abs"%string then VNumber <$> number_from_f64 (f64_abs v)
      else if named "floor"%string then rounded (f64_floor v)
      else if named "ceil"%string then rounded (f64_ceil v)
      else if named "round"%string then rounded (f64_round v)
      else None
  | _ => None
  end.

Definition array_method (arr : list Value) (method : string) (args : list Value) : option Value :=
  let named m := bool_decide (method = m) in
  match args with
  | [] =>
      if named "size"%string || named "length"%string
      then Some (VNumber (number_from_i64 (wrap_i64 (Z.of_nat (length arr)))))
      else if named "isEmpty"%string then Some (VBool (bool_decide (length arr = 0%nat)))
      else None
  | _ => None
  end.

Definition invoke_builtin_method (receiver : Value) (method : string) (args : list Value)
  : option Value :=
  match receiver with
  | VString s => string_method s method args
  | VNumber n => number_method n method args
  | VArray arr => array_method arr method args
  | VBool _ | VNull | VObject _ => None
  end.

Definition type_label (v : Value) : string :=
  match v with
  | VNull => "null"
  | VBool _ => "Boolean"
  | VNumber _ => "Number"
  | VString _ => "String"
  | VArray _ => "List"
  | VObject _ => "Map"
  end.

(** *** Errors of strict evaluation *)
Inductive ExpressionEvalError : Type :=
| CompileFailed (cause : Message)
| UnknownProperty (name : Message)
| UnknownMethod (name : Message)
| EvalFailed (cause : Message).

Definition to_java_message (e : ExpressionEvalError) (expression_text : string) : Message :=
  match e with
  | CompileFailed cause | EvalFailed cause =>
      [Lit "Error while evaluating expression: "; Lit expression_text; Lit ": "] ++ cause
  | UnknownProperty name =>
      [Lit "Unknown property used in expression: "; Lit expression_text; Lit " ("] ++ name
      ++ [Lit ")"]
  | UnknownMethod name =>
      [Lit "Unknown method used in expression: "; Lit expression_text; Lit " ("] ++ name
      ++ [Lit ")"]
  end.

Definition is_compile_failure (e : ExpressionEvalError) : bool :=
  match e with CompileFailed _ => true | _ => false end.

(** [Display for ExpressionEvalError]. *)
Definition eval_error_display (e : ExpressionEvalError) : Message :=
  match e with
  | CompileFailed cause | EvalFailed cause => Lit "Error while evaluating expression: " :: cause
  | UnknownProperty name => Lit "Unknown property used in expression: " :: name
  | UnknownMethod name => Lit "Unknown method used in expression: " :: name
  end.

(** *** Dispatch *)
Definition registry_call (registry : ExpressionMethodRegistry) (receiver_name : string)
  (is_static_type : bool) (method : string) (args : list Value) : option (result Message Value) :=
  if is_static_type then invoke_static registry receiver_name method args
  else invoke_bean registry receiver_name method args.

Definition invoke_method (registry : ExpressionMethodRegistry) (receiver : Value)
  (method : string) (args : list Value) : option Value :=
  match marker_receiver receiver with
  | Some (receiver_name, is_static_type) =>
      match registry_call registry receiver_name is_static_type method args with
      | Some (Ok v) => Some v
      | _ => None
      end
  | None => or_else (invoke_builtin_method receiver method args) (Some VNull)
  end.

Definition invoke_method_strict (registry : ExpressionMethodRegistry) (receiver : Value)
  (method : string) (args : list Value) : result ExpressionEvalError (option Value) :=
  match receiver with
  | VNull => Ok (Some VNull)
  | _ =>
      match marker_receiver receiver with
      | Some (receiver_name, is_static_type) =>
          match registry_call registry receiver_name is_static_type method args with
          | None => Err (UnknownMethod [Lit receiver_name; Lit "."; Lit method])
          | Some (Ok v) => Ok (Some v)
          | Some (Err message) =>
              Err (EvalFailed ([Lit "error evaluating '"; Lit receiver_name; Lit "."; Lit method;
                                Lit "(...)': "] ++ message))
          end
      | None =>
          match invoke_builtin_method receiver method args with
          | Some v => Ok (Some v)
          | None => Err (UnknownMethod [Lit (type_label receiver); Lit "."; Lit method])
          end
      end
  end.

Definition property_strict (base : Value) (name : string) : result ExpressionEvalError Value :=
  match base with
  | VNull => Ok VNull
  | VObject m => Ok (unwrap_or VNull (map_get name m))
  | VArray _ => Err (UnknownProperty [Lit name; Lit " on List"])
  | other => Err (UnknownProperty [Lit name; Lit " on "; Lit (type_label other)])
  end.

Definition index_strict (base property : Value) : result ExpressionEvalError Value :=
  match base with
  | VNull => Ok VNull
  | VArray _ | VObject _ => Ok (index_value base property)
  | other =>
      Err (UnknownProperty [Lit "["; ShowJson property; Lit "] on "; Lit (type_label other)])
  end.
End Methods.
Close Scope Z_scope.
