(* ===== verification/ElCompiler.v ===== *)
(** * The expression language: syntax trees, bytecode and the compiler

    Models the middle of [flowable-engine-common/src/el/expression.rs]: the
    tree [ExpressionAst] with its two evaluators, the instructions and the two
    interpreters of [CompiledExpression], and the [Compiler].

    An interpreter is a step function ([step], [step_strict]) under the loop
    [run], one unit of fuel per turn.  A slice or an index out of range and
    the overflowing remainder are [Panicked]. *)
From Stdlib Require Import Ascii.
From S2P Require Import Prelude Chars Float64 Numerals Json Errors ElValues.

(** ** Syntax trees *)
Inductive ExpressionAst : Type :=
| ALiteral (v : Value)
| AVariable (name : string)
| AConditional (condition when_true when_false : ExpressionAst)
| AOr (l r : ExpressionAst)
| AAnd (l r : ExpressionAst)
| AEqual (l r : ExpressionAst)
| ANotEqual (l r : ExpressionAst)
| ALessEq (l r : ExpressionAst)
| AGreaterEq (l r : ExpressionAst)
| ALess (l r : ExpressionAst)
| AGreater (l r : ExpressionAst)
| AAdd (l r : ExpressionAst)
| ASub (l r : ExpressionAst)
| AMul (l r : ExpressionAst)
| ADiv (l r : ExpressionAst)
| AMod (l r : ExpressionAst)
| ANot (operand : ExpressionAst)
| ANeg (operand : ExpressionAst)
| AEmpty (operand : ExpressionAst)
| AIndex (base property : ExpressionAst)
| AProperty (base : ExpressionAst) (name : string)
| AMethodCall (base : ExpressionAst) (method : string) (args : list ExpressionAst).

(** ** Outcomes *)
Inductive Panic : Type := Panicked.

(** What ends a strict evaluation early. *)
Inductive Stop : Type :=
| Aborted (p : Panic)
| Failed (e : ExpressionEvalError).

(** [require!(m)], and [m?] of the lenient evaluator: no value ends the node
    with no value. *)
Definition require {E} (m : result E (option Value)) (k : Value -> result E (option Value))
  : result E (option Value) :=
  match m with
  | Ok (Some v) => k v
  | Ok None => Ok None
  | Err e => Err e
  end.

(** The arguments of a call, in order, up to the first without a value. *)
Fixpoint require_all {E} (ms : list (result E (option Value)))
  (k : list Value -> result E (option Value)) : result E (option Value) :=
  match ms with
  | [] => k []
  | m :: ms => require m (fun v => require_all ms (fun vs => k (v :: vs)))
  end.

Section Evaluators.
Context `{Display} `{Unicode} (registry : ExpressionMethodRegistry) (scope : VariableContainer).

(** ** The lenient evaluator *)
Definition arithmetic (op : ascii) (l r : Value) : result Panic (option Value) :=
  match arithmetic_op l r op with
  | None => Err Panicked
  | Some (Ok v) => Ok (Some v)
  | Some (Err _) => Ok None
  end.

Definition property_value (base : Value) (name : string) : Value :=
  match base with
  | VObject m => unwrap_or VNull (map_get name m)
  | _ => VNull
  end.

Fixpoint evaluate (ast : ExpressionAst) : result Panic (option Value) :=
  let binary l r k := require (evaluate l) (fun lv => require (evaluate r) (fun rv => k lv rv)) in
  let relation l r p := binary l r (fun lv rv => Ok (Some (VBool (p lv rv)))) in
  match ast with
  | ALiteral v => Ok (Some v)
  | AVariable name => Ok (resolve_variable registry scope name)
  | AConditional condition when_true when_false =>
      require (evaluate condition) (fun c =>
        if is_truthy c then evaluate when_true else evaluate when_false)
  | AOr l r => require (evaluate l) (fun lv => if is_truthy lv then Ok (Some lv) else evaluate r)
  | AAnd l r =>
      require (evaluate l) (fun lv =>
        if is_truthy lv then evaluate r else Ok (Some (VBool false)))
  | AEqual l r => relation l r values_equal
  | ANotEqual l r => relation l r (fun a b => negb (values_equal a b))
  | ALessEq l r => relation l r (fun a b => values_less a b || values_equal a b)
  | AGreaterEq l r => relation l r (fun a b => values_greater a b || values_equal a b)
  | ALess l r => relation l r values_less
  | AGreater l r => relation l r values_greater
  | AAdd l r => binary l r (arithmetic "+")
  | ASub l r => binary l r (arithmetic "-")
  | AMul l r => binary l r (arithmetic "*")
  | ADiv l r => binary l r (arithmetic "/")
  | AMod l r => binary l r (arithmetic "%")
  | ANot x => require (evaluate x) (fun v => Ok (Some (VBool (negb (is_truthy v)))))
  | ANeg x =>
      require (evaluate x) (fun v => Ok ((fun n => nonfinite_sentinel (f64_neg n)) <$> to_f64 v))
  | AEmpty x => require (evaluate x) (fun v => Ok (Some (VBool (is_empty v))))
  | AIndex base property => binary base property (fun b p => Ok (Some (index_value b p)))
  | AProperty base name => require (evaluate base) (fun v => Ok (Some (property_value v name)))
  | AMethodCall base method args =>
      require (evaluate base) (fun receiver =>
        require_all (List.map evaluate args) (fun vs =>
          Ok (invoke_method registry receiver method vs)))
  end.

(** ** The strict evaluator *)
Definition strictly {A} (r : result ExpressionEvalError A) : result Stop A := map_err Failed r.

Definition arithmetic_strict (op : ascii) (l r : Value) : result Stop (option Value) :=
  match arithmetic_op l r op with
  | None => Err (Aborted Panicked)
  | Some (Ok v) => Ok (Some v)
  | Some (Err cause) => Err (Failed (EvalFailed cause))
  end.

Definition load_strict (name : string) : result Stop (option Value) :=
  match resolve_variable registry scope name with
  | Some v => Ok (Some v)
  | None => Err (Failed (UnknownProperty [Lit name]))
  end.

Definition negate_strict (v : Value) : result Stop (option Value) :=
  match to_f64 v with
  | Some n => Ok (Some (nonfinite_sentinel (f64_neg n)))
  | None => Err (Failed (EvalFailed [Lit "ELException: cannot coerce operand to number for unary minus"]))
  end.

Fixpoint evaluate_strict (ast : ExpressionAst) : result Stop (option Value) :=
  let binary l r k :=
    require (evaluate_strict l) (fun lv => require (evaluate_strict r) (fun rv => k lv rv)) in
  let relation l r p := binary l r (fun lv rv => Ok (Some (VBool (p lv rv)))) in
  match ast with
  | ALiteral v => Ok (Some v)
  | AVariable name => load_strict name
  | AConditional condition when_true when_false =>
      require (evaluate_strict condition) (fun c =>
        if is_truthy c then evaluate_strict when_true else evaluate_strict when_false)
  | AOr l r =>
      require (evaluate_strict l) (fun lv =>
        if is_truthy lv then Ok (Some lv) else evaluate_strict r)
  | AAnd l r =>
      require (evaluate_strict l) (fun lv =>
        if negb (is_truthy lv) then Ok (Some (VBool false)) else evaluate_strict r)
  | AEqual l r => relation l r values_equal
  | ANotEqual l r => relation l r (fun a b => negb (values_equal a b))
  | ALessEq l r => relation l r (fun a b => values_less a b || values_equal a b)
  | AGreaterEq l r => relation l r (fun a b => values_greater a b || values_equal a b)
  | ALess l r => relation l r values_less
  | AGreater l r => relation l r values_greater
  | AAdd l r => binary l r (arithmetic_strict "+")
  | ASub l r => binary l r (arithmetic_strict "-")
  | AMul l r => binary l r (arithmetic_strict "*")
  | ADiv l r => binary l r (arithmetic_strict "/")
  | AMod l r => binary l r (arithmetic_strict "%")
  | ANot x => require (evaluate_strict x) (fun v => Ok (Some (VBool (negb (is_truthy v)))))
  | ANeg x => require (evaluate_strict x) negate_strict
  | AEmpty x => require (evaluate_strict x) (fun v => Ok (Some (VBool (is_empty v))))
  | AIndex base property => binary base property (fun b p => Some <$> strictly (index_strict b p))
  | AProperty base name =>
      require (evaluate_strict base) (fun v => Some <$> strictly (property_strict v name))
  | AMethodCall base method args =>
      require (evaluate_strict base) (fun receiver =>
        require_all (List.map evaluate_strict args) (fun vs =>
          strictly (invoke_method_strict registry receiver method vs)))
  end.
End Evaluators.

(** ** Bytecode *)
Inductive Instruction : Type :=
| IPushNull
| IPushBool (b : bool)
| IPushInt (n : Z)
| IPushFloat (f : f64)
| IPushStr (idx : nat)
| ILoadVar (idx : nat)
| IPop
| IEq | INeq | ILt | IGt | ILtEq | IGtEq
| IAdd | ISub | IMul | IDiv | IMod
| INot | INeg | IEmpty | IIndex
| IJumpIfTrue (target : nat)
| IJumpIfFalse (target : nat)
| IJump (target : nat)
| IProperty (idx : nat)
| IMethodCall (idx arg_count : nat).

Record CompiledExpression := mkCompiled {
  instructions : list Instruction;
  string_pool : list string
}.

(** What one turn of the interpreter loop does. *)
Inductive Turn (E : Type) : Type :=
| Continue (stack : list Value)
| JumpTo (target : nat) (stack : list Value)
| Return (r : result E (option Value)).
Arguments Continue {E} _.
Arguments JumpTo {E} _ _.
Arguments Return {E} _.

Section Loop.
Context {E : Type} (turn : list string -> Instruction -> list Value -> Turn E).

Fixpoint run (fuel : nat) (c : CompiledExpression) (pc : nat) (stack : list Value)
  : option (result E (option Value)) :=
  match fuel with
  | O => None
  | S fuel =>
      match instructions c !! pc with
      | None => Some (Ok (head stack))
      | Some i =>
          match turn (string_pool c) i stack with
          | Continue stack => run fuel c (S pc) stack
          | JumpTo target stack => run fuel c target stack
          | Return r => Some r
          end
      end
  end.
End Loop.

(** [stack.pop()?] *)
Definition pop_required {E} (stack : list Value) (k : Value -> list Value -> Turn E) : Turn E :=
  match stack with
  | v :: stack => k v stack
  | [] => Return (Ok None)
  end.

Fixpoint pop_args {E} (n : nat) (args : list Value) (stack : list Value)
  (k : list Value -> list Value -> Turn E) : Turn E :=
  match n with
  | O => k args stack
  | S n => pop_required stack (fun v stack => pop_args n (args ++ [v]) stack k)
  end.

(** [self.string_pool[idx]]. *)
Definition pooled {E} (panic : E) (pool : list string) (idx : nat) (k : string -> Turn E) : Turn E :=
  match pool !! idx with
  | Some s => k s
  | None => Return (Err panic)
  end.

(** The instructions on which the two interpreters agree; the others go to
    [other]. *)
Definition turn_common {E} (panic : E) (pool : list string) (i : Instruction)
  (stack : list Value) (other : Turn E) : Turn E :=
  let relation p :=
    pop_required stack (fun r stack => pop_required stack (fun l stack =>
      Continue (VBool (p l r) :: stack))) in
  let unary f := pop_required stack (fun v stack => Continue (f v :: stack)) in
  match i with
  | IPushNull => Continue (VNull :: stack)
  | IPushBool b => Continue (VBool b :: stack)
  | IPushInt n => Continue (VNumber (number_from_i64 n) :: stack)
  | IPushFloat f =>
      Continue (unwrap_or VNull (VNumber <$> number_from_f64 f) :: stack)
  | IPushStr idx => pooled panic pool idx (fun s => Continue (VString s :: stack))
  | IPop => Continue (tail stack)
  | IEq => relation values_equal
  | INeq => relation (fun l r => negb (values_equal l r))
  | ILt => relation values_less
  | IGt => relation values_greater
  | ILtEq => relation (fun l r => values_less l r || values_equal l r)
  | IGtEq => relation (fun l r => values_greater l r || values_equal l r)
  | INot => unary (fun v => VBool (negb (is_truthy v)))
  | IEmpty => unary (fun v => VBool (is_empty v))
  | IJumpIfTrue target =>
      match stack with
      | top :: _ => if is_truthy top then JumpTo target stack else Continue stack
      | [] => Continue stack
      end
  | IJumpIfFalse target =>
      match stack with
      | top :: _ => if negb (is_truthy top) then JumpTo target stack else Continue stack
      | [] => Continue stack
      end
  | IJump target => JumpTo target stack
  | _ => other
  end.

Section Interpreters.
Context `{Display} `{Unicode} (registry : ExpressionMethodRegistry) (scope : VariableContainer).

(** A computed value is pushed; no value or an error ends the loop. *)
Definition push_or_return {E} (r : result E (option Value)) (stack : list Value) : Turn E :=
  match r with
  | Ok (Some v) => Continue (v :: stack)
  | r => Return r
  end.

(** The body of the loop of [execute]. *)
Definition turn (pool : list string) (i : Instruction) (stack : list Value) : Turn Panic :=
  let binary f :=
    pop_required stack (fun r stack => pop_required stack (fun l stack =>
      push_or_return (f l r) stack)) in
  turn_common Panicked pool i stack
    match i with
    | ILoadVar idx =>
        pooled Panicked pool idx (fun name =>
          push_or_return (Ok (resolve_variable registry scope name)) stack)
    | IAdd => binary (arithmetic "+")
    | ISub => binary (arithmetic "-")
    | IMul => binary (arithmetic "*")
    | IDiv => binary (arithmetic "/")
    | IMod => binary (arithmetic "%")
    | INeg =>
        pop_required stack (fun v stack =>
          push_or_return (Ok ((fun n => nonfinite_sentinel (f64_neg n)) <$> to_f64 v)) stack)
    | IIndex =>
        pop_required stack (fun property stack => pop_required stack (fun base stack =>
          Continue (index_value base property :: stack)))
    | IProperty idx =>
        pooled Panicked pool idx (fun name =>
          pop_required stack (fun v stack => Continue (property_value v name :: stack)))
    | IMethodCall idx arg_count =>
        pooled Panicked pool idx (fun method =>
          pop_args arg_count [] stack (fun args stack =>
            pop_required stack (fun receiver stack =>
              Continue (unwrap_or VNull (invoke_method registry receiver method (rev args))
                        :: stack))))
    | _ => Continue stack
    end.

(** The body of the loop of [execute_strict]. *)
Definition turn_strict (pool : list string) (i : Instruction) (stack : list Value) : Turn Stop :=
  let panic := Aborted Panicked in
  let binary f :=
    pop_required stack (fun r stack => pop_required stack (fun l stack =>
      push_or_return (f l r) stack)) in
  turn_common panic pool i stack
    match i with
    | ILoadVar idx =>
        pooled panic pool idx (fun name => push_or_return (load_strict registry scope name) stack)
    | IAdd => binary (arithmetic_strict "+")
    | ISub => binary (arithmetic_strict "-")
    | IMul => binary (arithmetic_strict "*")
    | IDiv => binary (arithmetic_strict "/")
    | IMod => binary (arithmetic_strict "%")
    | INeg => pop_required stack (fun v stack => push_or_return (negate_strict v) stack)
    | IIndex =>
        pop_required stack (fun property stack => pop_required stack (fun base stack =>
          push_or_return (Some <$> strictly (index_strict base property)) stack))
    | IProperty idx =>
        pooled panic pool idx (fun name =>
          pop_required stack (fun v stack =>
            push_or_return (Some <$> strictly (property_strict v name)) stack))
    | IMethodCall idx arg_count =>
        pooled panic pool idx (fun method =>
          pop_args arg_count [] stack (fun args stack =>
            pop_required stack (fun receiver stack =>
              match strictly (invoke_method_strict registry receiver method (rev args)) with
              | Ok (Some v) => Continue (v :: stack)
              | Ok None => Continue (VNull :: stack)
              | Err e => Return (Err e)
              end)))
    | _ => Continue stack
    end.

(** Fuel: one turn per instruction and one to leave the loop, enough as jumps
    of compiled code go forward ([compile_correct]). *)
Definition execute (c : CompiledExpression) : option (result Panic (option Value)) :=
  run turn (S (length (instructions c))) c 0 [].

Definition execute_strict (c : CompiledExpression) : option (result Stop (option Value)) :=
  run turn_strict (S (length (instructions c))) c 0 [].
End Interpreters.

(** ** The compiler: its state is the expression compiled so far *)
Definition compiler_new : CompiledExpression := mkCompiled [] [].

Fixpoint position (s : string) (l : list string) : option nat :=
  match l with
  | [] => None
  | x :: l => if bool_decide (x = s) then Some 0 else S <$> position s l
  end.

Definition intern_string (s : string) (c : CompiledExpression) : nat * CompiledExpression :=
  match position s (string_pool c) with
  | Some idx => (idx, c)
  | None => (length (string_pool c), mkCompiled (instructions c) (string_pool c ++ [s]))
  end.

Definition emit (i : Instruction) (c : CompiledExpression) : CompiledExpression :=
  mkCompiled (instructions c ++ [i]) (string_pool c).

(** The index [emit] returns. *)
Definition here (c : CompiledExpression) : nat := length (instructions c).

(** [self.instructions[idx] = i], at an index [emit] returned. *)
Definition patch (idx : nat) (i : Instruction) (c : CompiledExpression) : CompiledExpression :=
  mkCompiled (<[idx := i]> (instructions c)) (string_pool c).

Definition emit_with (s : string) (i : nat -> Instruction) (c : CompiledExpression)
  : CompiledExpression :=
  let '(idx, c) := intern_string s c in emit (i idx) c.

Section Compiler.
Context `{Display}.

Definition emit_literal (v : Value) (c : CompiledExpression) : CompiledExpression :=
  match v with
  | VNull => emit IPushNull c
  | VBool b => emit (IPushBool b) c
  | VNumber n =>
      match number_as_i64 n with
      | Some i => emit (IPushInt i) c
      | None => emit (IPushFloat (number_as_f64 n)) c
      end
  | VString s => emit_with s IPushStr c
  | VArray _ | VObject _ => emit_with (value_to_string v) IPushStr c
  end.

Fixpoint emit_ast (ast : ExpressionAst) (c : CompiledExpression) : CompiledExpression :=
  let binary l r i := emit i (emit_ast r (emit_ast l c)) in
  match ast with
  | ALiteral v => emit_literal v c
  | AVariable name => emit_with name ILoadVar c
  | AConditional condition when_true when_false =>
      let c := emit_ast condition c in
      let jump_false := here c in
      let c := emit_ast when_true (emit IPop (emit (IJumpIfFalse 0) c)) in
      let jump_end := here c in
      let c := emit (IJump 0) c in
      let false_target := here c in
      let c := emit_ast when_false (emit IPop c) in
      let end_target := here c in
      patch jump_end (IJump end_target) (patch jump_false (IJumpIfFalse false_target) c)
  | AOr l r =>
      let c := emit_ast l c in
      let jump_true := here c in
      let c := emit_ast r (emit IPop (emit (IJumpIfTrue 0) c)) in
      let target := here c in
      patch jump_true (IJumpIfTrue target) c
  | AAnd l r =>
      let c := emit_ast l c in
      let jump_false := here c in
      let c := emit_ast r (emit IPop (emit (IJumpIfFalse 0) c)) in
      let jump_end := here c in
      let c := emit (IJump 0) c in
      let l_false := here c in
      let c := emit (IPushBool false) (emit IPop c) in
      let l_end := here c in
      patch jump_end (IJump l_end) (patch jump_false (IJumpIfFalse l_false) c)
  | AEqual l r => binary l r IEq
  | ANotEqual l r => binary l r INeq
  | ALessEq l r => binary l r ILtEq
  | AGreaterEq l r => binary l r IGtEq
  | ALess l r => binary l r ILt
  | AGreater l r => binary l r IGt
  | AAdd l r => binary l r IAdd
  | ASub l r => binary l r ISub
  | AMul l r => binary l r IMul
  | ADiv l r => binary l r IDiv
  | AMod l r => binary l r IMod
  | ANot x => emit INot (emit_ast x c)
  | ANeg x => emit INeg (emit_ast x c)
  | AEmpty x => emit IEmpty (emit_ast x c)
  | AIndex base property => binary base property IIndex
  | AProperty base name => emit_with name IProperty (emit_ast base c)
  | AMethodCall base method args =>
      let c := fold_left (fun c arg => emit_ast arg c) args (emit_ast base c) in
      emit_with method (fun idx => IMethodCall idx (length args)) c
  end.

Definition compile (ast : ExpressionAst) : CompiledExpression := emit_ast ast compiler_new.
End Compiler.
