(* ===== verification/ElCompilerProof.v ===== *)
(** * The expression language: the compiler is correct

    [compiles] relates a tree to the code [emit_ast] appends: wherever that
    code is placed, running it from its first instruction leaves the value of
    the tree on the stack, behind its last instruction.  The argument is done
    once, for every pair of an evaluator ([Semantics]) and an interpreter loop
    that [Implements] it, and used for the strict and the lenient pair. *)
From Stdlib Require Import Ascii.
From S2P Require Import Prelude Chars Float64 Numerals Json Errors ElValues ElCompiler.

(** ** The trees a compiler can be given

    A literal the parser produces is a scalar; what [emit_literal] keeps
    exactly are the scalars within [i64] or already floats. *)
Definition exact_literal (v : Value) : bool :=
  match v with
  | VNull | VBool _ | VString _ => true
  | VNumber (PosInt n) => (0 <=? n)%Z && (n <=? i64_max)%Z
  | VNumber (NegInt n) => (n <? 0)%Z
  | VNumber (Float f) => f64_is_finite f
  | VArray _ | VObject _ => false
  end.

Fixpoint exact_literals (ast : ExpressionAst) : bool :=
  match ast with
  | ALiteral v => exact_literal v
  | AVariable _ => true
  | AConditional a b c => exact_literals a && exact_literals b && exact_literals c
  | AOr l r | AAnd l r | AEqual l r | ANotEqual l r | ALessEq l r | AGreaterEq l r
  | ALess l r | AGreater l r | AAdd l r | ASub l r | AMul l r | ADiv l r | AMod l r
  | AIndex l r => exact_literals l && exact_literals r
  | ANot x | ANeg x | AEmpty x | AProperty x _ => exact_literals x
  | AMethodCall b _ args => exact_literals b && forallb exact_literals args
  end.

Section NestedInduction.
Context (P : ExpressionAst -> Prop).
Context (Hlit : forall v, P (ALiteral v)) (Hvar : forall n, P (AVariable n))
  (Hcond : forall a b c, P a -> P b -> P c -> P (AConditional a b c))
  (Hor : forall l r, P l -> P r -> P (AOr l r)) (Hand : forall l r, P l -> P r -> P (AAnd l r))
  (Heq : forall l r, P l -> P r -> P (AEqual l r)) (Hne : forall l r, P l -> P r -> P (ANotEqual l r))
  (Hle : forall l r, P l -> P r -> P (ALessEq l r)) (Hge : forall l r, P l -> P r -> P (AGreaterEq l r))
  (Hlt : forall l r, P l -> P r -> P (ALess l r)) (Hgt : forall l r, P l -> P r -> P (AGreater l r))
  (Hadd : forall l r, P l -> P r -> P (AAdd l r)) (Hsub : forall l r, P l -> P r -> P (ASub l r))
  (Hmul : forall l r, P l -> P r -> P (AMul l r)) (Hdiv : forall l r, P l -> P r -> P (ADiv l r))
  (Hmod : forall l r, P l -> P r -> P (AMod l r))
  (Hnot : forall x, P x -> P (ANot x)) (Hneg : forall x, P x -> P (ANeg x))
  (Hempty : forall x, P x -> P (AEmpty x))
  (Hindex : forall l r, P l -> P r -> P (AIndex l r))
  (Hprop : forall x n, P x -> P (AProperty x n))
  (Hcall : forall b m args, P b -> Forall P args -> P (AMethodCall b m args)).

Fixpoint Ast_nested_ind (e : ExpressionAst) : P e :=
  match e with
  | ALiteral v => Hlit v
  | AVariable n => Hvar n
  | AConditional a b c => Hcond _ _ _ (Ast_nested_ind a) (Ast_nested_ind b) (Ast_nested_ind c)
  | AOr l r => Hor _ _ (Ast_nested_ind l) (Ast_nested_ind r)
  | AAnd l r => Hand _ _ (Ast_nested_ind l) (Ast_nested_ind r)
  | AEqual l r => Heq _ _ (Ast_nested_ind l) (Ast_nested_ind r)
  | ANotEqual l r => Hne _ _ (Ast_nested_ind l) (Ast_nested_ind r)
  | ALessEq l r => Hle _ _ (Ast_nested_ind l) (Ast_nested_ind r)
  | AGreaterEq l r => Hge _ _ (Ast_nested_ind l) (Ast_nested_ind r)
  | ALess l r => Hlt _ _ (Ast_nested_ind l) (Ast_nested_ind r)
  | AGreater l r => Hgt _ _ (Ast_nested_ind l) (Ast_nested_ind r)
  | AAdd l r => Hadd _ _ (Ast_nested_ind l) (Ast_nested_ind r)
  | ASub l r => Hsub _ _ (Ast_nested_ind l) (Ast_nested_ind r)
  | AMul l r => Hmul _ _ (Ast_nested_ind l) (Ast_nested_ind r)
  | ADiv l r => Hdiv _ _ (Ast_nested_ind l) (Ast_nested_ind r)
  | AMod l r => Hmod _ _ (Ast_nested_ind l) (Ast_nested_ind r)
  | ANot x => Hnot _ (Ast_nested_ind x)
  | ANeg x => Hneg _ (Ast_nested_ind x)
  | AEmpty x => Hempty _ (Ast_nested_ind x)
  | AIndex l r => Hindex _ _ (Ast_nested_ind l) (Ast_nested_ind r)
  | AProperty x n => Hprop _ _ (Ast_nested_ind x)
  | AMethodCall b m args =>
      Hcall _ _ _ (Ast_nested_ind b)
        ((fix go l : Forall P l :=
            match l with
            | [] => List.Forall_nil P
            | a :: l => List.Forall_cons _ _ _ (Ast_nested_ind a) (go l)
            end) args)
  end.
End NestedInduction.

(** ** Code placed in a program *)
Definition code_at (program : list Instruction) (pc : nat) (code : list Instruction) : Prop :=
  exists before after, program = before ++ code ++ after /\ pc = length before.

Lemma code_at_head program pc i code : code_at program pc (i :: code) -> program !! pc = Some i.
Proof. intros (b & a & -> & ->). simpl. by apply list_lookup_middle. Qed.

Lemma code_at_app_l program pc c1 c2 : code_at program pc (c1 ++ c2) -> code_at program pc c1.
Proof. intros (b & a & -> & ->). exists b, (c2 ++ a). by rewrite <- app_assoc. Qed.

Lemma code_at_app_r program pc c1 c2 :
  code_at program pc (c1 ++ c2) -> code_at program (pc + length c1) c2.
Proof.
  intros (b & a & -> & ->). exists (b ++ c1), a. by rewrite <- !app_assoc, length_app.
Qed.

Lemma code_at_whole c : code_at c 0 c.
Proof. exists [], []. by rewrite app_nil_r. Qed.

#[export] Hint Resolve code_at_head code_at_app_l code_at_app_r code_at_whole : flow.

Lemma insert_middle {A} (l r : list A) x y : <[length l := y]> (l ++ x :: r) = l ++ y :: r.
Proof. by rewrite insert_app_r_alt, Nat.sub_diag by lia. Qed.

(** ** The interpreter loop *)
Section Runs.
Context {E : Type} (turn : list string -> Instruction -> list Value -> Turn E).

Lemma run_more fuel fuel' c pc st r :
  run turn fuel c pc st = Some r -> fuel <= fuel' -> run turn fuel' c pc st = Some r.
Proof.
  revert fuel' pc st. induction fuel as [|fuel IH]; intros [|fuel'] pc st; simpl; try done; [lia|].
  intros Hr Hle. destruct (instructions c !! pc) as [i|]; [|done].
  destruct (turn _ _ _); auto with lia.
Qed.

(** From [(pc, st)] the loop gets to [(pc', st')], forward. *)
Definition reaches (c : CompiledExpression) (pc : nat) (st : list Value) (pc' : nat)
  (st' : list Value) : Prop :=
  pc <= pc' /\
  forall n r, run turn n c pc' st' = Some r -> run turn (n + (pc' - pc)) c pc st = Some r.

(** From [(pc, st)] the loop returns [r] before it gets to [pc']. *)
Definition returns (c : CompiledExpression) (pc : nat) (st : list Value) (pc' : nat)
  (r : result E (option Value)) : Prop :=
  pc <= pc' /\ run turn (pc' - pc) c pc st = Some r.

Lemma reaches_trans c pc st pc1 st1 pc2 st2 :
  reaches c pc st pc1 st1 -> reaches c pc1 st1 pc2 st2 -> reaches c pc st pc2 st2.
Proof.
  intros [L1 H1] [L2 H2]. split; [lia|]. intros n r Hr.
  replace (n + (pc2 - pc)) with (n + (pc2 - pc1) + (pc1 - pc)) by lia. auto.
Qed.

Lemma reaches_returns c pc st pc1 st1 pc2 r :
  reaches c pc st pc1 st1 -> returns c pc1 st1 pc2 r -> returns c pc st pc2 r.
Proof.
  intros [L1 H1] [L2 H2]. split; [lia|].
  replace (pc2 - pc) with (pc2 - pc1 + (pc1 - pc)) by lia. auto.
Qed.

Lemma returns_later c pc st pc1 pc2 r : returns c pc st pc1 r -> pc1 <= pc2 -> returns c pc st pc2 r.
Proof. intros [L H] ?. split; [lia|]. eapply run_more; [done|lia]. Qed.

Lemma reaches_next c pc st i st' :
  instructions c !! pc = Some i -> turn (string_pool c) i st = Continue st' ->
  reaches c pc st (S pc) st'.
Proof.
  intros Hi Ht. split; [lia|]. intros n r Hr.
  replace (n + (S pc - pc)) with (S n) by lia. simpl. by rewrite Hi, Ht.
Qed.

Lemma reaches_jump c pc st i t st' :
  instructions c !! pc = Some i -> turn (string_pool c) i st = JumpTo t st' -> pc < t ->
  reaches c pc st t st'.
Proof.
  intros Hi Ht Hlt. split; [lia|]. intros n r Hr.
  replace (n + (t - pc)) with (S (n + (t - S pc))) by lia. simpl. rewrite Hi, Ht.
  eapply run_more; [done|lia].
Qed.

Lemma returns_here c pc st i r :
  instructions c !! pc = Some i -> turn (string_pool c) i st = Return r ->
  returns c pc st (S pc) r.
Proof.
  intros Hi Ht. split; [lia|]. replace (S pc - pc) with 1 by lia. simpl. by rewrite Hi, Ht.
Qed.

(** [m] is what the code between [pc] and [pc'] computes on the stack [pre ++
    st]: its value replaces [pre]; an error, or no value, is returned. *)
Definition computes (c : CompiledExpression) (pc pc' : nat) (pre st : list Value)
  (m : result E (option Value)) : Prop :=
  match m with
  | Ok (Some v) => reaches c pc (pre ++ st) pc' (v :: st)
  | other => returns c pc (pre ++ st) pc' other
  end.

(** What a turn does with the outcome of an operation. *)
Definition delivers (t : Turn E) (st : list Value) (m : result E (option Value)) : Prop :=
  match m with
  | Ok (Some v) => t = Continue (v :: st)
  | other => t = Return other
  end.

Lemma delivers_push m st : delivers (push_or_return m st) st m.
Proof. destruct m as [[v|]|e]; done. Qed.

(** ** Fragments: what [emit_ast] appends *)
Definition extends (c c' : CompiledExpression) (code : list Instruction) : Prop :=
  instructions c' = instructions c ++ code /\ string_pool c `prefix_of` string_pool c'.

Definition placed (p c c' : CompiledExpression) (code : list Instruction) : Prop :=
  code_at (instructions p) (here c) code /\ string_pool c' `prefix_of` string_pool p.

(** The same code for a family of stacks and outcomes. *)
Definition fragment {I} (c c' : CompiledExpression) (pre : I -> list Value)
  (m : I -> result E (option Value)) : Prop :=
  exists code, extends c c' code /\
    forall i p st, placed p c c' code -> computes p (here c) (here c') (pre i) st (m i).

Lemma extends_here c c' code : extends c c' code -> here c' = here c + length code.
Proof. intros [H _]. unfold here. by rewrite H, length_app. Qed.

Lemma extends_trans c c1 c2 k1 k2 :
  extends c c1 k1 -> extends c1 c2 k2 -> extends c c2 (k1 ++ k2).
Proof.
  intros [H1 P1] [H2 P2]. split; [by rewrite H2, H1, <- app_assoc|]. by etrans.
Qed.

Lemma placed_split p c c1 c2 k1 k2 :
  extends c c1 k1 -> extends c1 c2 k2 -> placed p c c2 (k1 ++ k2) ->
  placed p c c1 k1 /\ placed p c1 c2 k2.
Proof.
  intros H1 H2 [Hc Hp]. split; split; [by eapply code_at_app_l| |..].
  - destruct H2 as [_ H2]. by etrans.
  - rewrite (extends_here _ _ _ H1). by apply code_at_app_r.
  - done.
Qed.

Lemma extends_emit c i : extends c (emit i c) [i].
Proof. by split. Qed.
Lemma here_emit c i : here (emit i c) = S (here c).
Proof. unfold here, emit. simpl. rewrite length_app. simpl. lia. Qed.

Lemma fragment_reindex {I J} (f : J -> I) c c' pre m :
  fragment c c' pre m -> fragment c c' (fun j => pre (f j)) (fun j => m (f j)).
Proof. intros (k & X & H). exists k. split; [done|]. intros j. apply H. Qed.

(** The value of [m1] is consumed by what follows. *)
Lemma fragment_seq {I} c c1 c2 (pre pre2 : I -> list Value) m1 m2 :
  fragment c c1 pre m1 ->
  fragment c1 c2 (fun iv : I * Value => iv.2 :: pre2 iv.1) (fun iv => m2 iv.1 iv.2) ->
  fragment c c2 (fun i => pre i ++ pre2 i) (fun i => require (m1 i) (m2 i)).
Proof.
  intros (k1 & X1 & H1) (k2 & X2 & H2). exists (k1 ++ k2). split; [by eapply extends_trans|].
  intros i p st Hp. destruct (placed_split _ _ _ _ _ _ X1 X2 Hp) as [P1 P2].
  specialize (H1 i p (pre2 i ++ st) P1). unfold computes in *. rewrite app_assoc in H1.
  destruct (m1 i) as [[v|]|e]; simpl in *.
  - specialize (H2 (i, v) p st P2). simpl in H2. destruct (m2 i v) as [[w|]|e]; simpl in *.
    + by eapply reaches_trans.
    + by eapply reaches_returns.
    + by eapply reaches_returns.
  - eapply returns_later; [done|]. rewrite (extends_here _ _ _ X2). lia.
  - eapply returns_later; [done|]. rewrite (extends_here _ _ _ X2). lia.
Qed.

Lemma computes_turn p pc i pre st m :
  instructions p !! pc = Some i -> delivers (turn (string_pool p) i (pre ++ st)) st m ->
  computes p pc (S pc) pre st m.
Proof.
  intros Hi Hd. destruct m as [[v|]|e]; simpl in *.
  - by eapply reaches_next.
  - by eapply returns_here.
  - by eapply returns_here.
Qed.

Lemma fragment_emit {I} c ins (pre : I -> list Value) m :
  (forall i pool st, delivers (turn pool ins (pre i ++ st)) st (m i)) ->
  fragment c (emit ins c) pre m.
Proof.
  intros H. exists [ins]. split; [apply extends_emit|]. intros i p st [Hc _]. rewrite here_emit.
  eapply computes_turn; [by eapply code_at_head|done].
Qed.

Lemma position_lookup s l idx : position s l = Some idx -> l !! idx = Some s.
Proof.
  revert idx. induction l as [|x l IH]; intros idx; simpl; [done|].
  case_bool_decide; [by intros [= <-]; subst|].
  destruct (position s l); simpl; [|done]. intros [= <-]. simpl. auto.
Qed.

Lemma intern_string_spec s c :
  exists idx c', intern_string s c = (idx, c') /\ extends c c' [] /\ string_pool c' !! idx = Some s.
Proof.
  unfold intern_string. destruct (position s (string_pool c)) as [idx|] eqn:Hp.
  - exists idx, c. split; [done|]. split; [split; [by rewrite app_nil_r|done]|by apply position_lookup].
  - eexists _, _. split; [done|]. simpl. split; [split; simpl; [by rewrite app_nil_r|by apply prefix_app_r]|].
    by rewrite lookup_app_r, Nat.sub_diag by lia.
Qed.

Lemma fragment_emit_with {I} c s ins (pre : I -> list Value) m :
  (forall i pool idx st, pool !! idx = Some s -> delivers (turn pool (ins idx) (pre i ++ st)) st (m i)) ->
  fragment c (emit_with s ins c) pre m.
Proof.
  intros H. destruct (intern_string_spec s c) as (idx & c1 & E1 & X1 & L).
  unfold emit_with. rewrite E1. exists [ins idx].
  split; [apply (extends_trans _ _ _ _ _ X1), extends_emit|]. intros i p st [Hc Hp].
  rewrite here_emit, (extends_here _ _ _ X1). simpl. rewrite Nat.add_0_r.
  eapply computes_turn; [by eapply code_at_head|]. apply H. by eapply prefix_lookup_Some.
Qed.
End Runs.

(** ** An evaluator and an interpreter that fit together *)
Record Semantics (E : Type) := mkSemantics {
  sem_load : string -> result E (option Value);
  sem_arith : ascii -> Value -> Value -> result E (option Value);
  sem_negate : Value -> result E (option Value);
  sem_index : Value -> Value -> result E (option Value);
  sem_property : Value -> string -> result E (option Value);
  sem_call : Value -> string -> list Value -> result E (option Value)
}.
Arguments sem_load {E} _ _.
Arguments sem_arith {E} _ _ _ _.
Arguments sem_negate {E} _ _.
Arguments sem_index {E} _ _ _.
Arguments sem_property {E} _ _ _.
Arguments sem_call {E} _ _ _ _.

Section Denotation.
Context `{Display} {E : Type} (sem : Semantics E).

(** What the code of a literal pushes. *)
Definition stored_literal (v : Value) : Value :=
  match v with
  | VNull | VBool _ | VString _ => v
  | VNumber n =>
      match number_as_i64 n with
      | Some i => VNumber (number_from_i64 i)
      | None => unwrap_or VNull (VNumber <$> number_from_f64 (number_as_f64 n))
      end
  | VArray _ | VObject _ => VString (value_to_string v)
  end.

Fixpoint denote (ast : ExpressionAst) : result E (option Value) :=
  let binary l r k := require (denote l) (fun lv => require (denote r) (fun rv => k lv rv)) in
  let relation l r p := binary l r (fun lv rv => Ok (Some (VBool (p lv rv)))) in
  match ast with
  | ALiteral v => Ok (Some (stored_literal v))
  | AVariable name => sem_load sem name
  | AConditional c t f => require (denote c) (fun v => if is_truthy v then denote t else denote f)
  | AOr l r => require (denote l) (fun v => if is_truthy v then Ok (Some v) else denote r)
  | AAnd l r => require (denote l) (fun v => if is_truthy v then denote r else Ok (Some (VBool false)))
  | AEqual l r => relation l r values_equal
  | ANotEqual l r => relation l r (fun a b => negb (values_equal a b))
  | ALessEq l r => relation l r (fun a b => values_less a b || values_equal a b)
  | AGreaterEq l r => relation l r (fun a b => values_greater a b || values_equal a b)
  | ALess l r => relation l r values_less
  | AGreater l r => relation l r values_greater
  | AAdd l r => binary l r (sem_arith sem "+")
  | ASub l r => binary l r (sem_arith sem "-")
  | AMul l r => binary l r (sem_arith sem "*")
  | ADiv l r => binary l r (sem_arith sem "/")
  | AMod l r => binary l r (sem_arith sem "%")
  | ANot x => require (denote x) (fun v => Ok (Some (VBool (negb (is_truthy v)))))
  | ANeg x => require (denote x) (sem_negate sem)
  | AEmpty x => require (denote x) (fun v => Ok (Some (VBool (is_empty v))))
  | AIndex b p => binary b p (sem_index sem)
  | AProperty b name => require (denote b) (fun v => sem_property sem v name)
  | AMethodCall b method args =>
      require (denote b) (fun receiver =>
        require_all (List.map denote args) (sem_call sem receiver method))
  end.
End Denotation.

Definition is_common (i : Instruction) : bool :=
  match i with
  | ILoadVar _ | IAdd | ISub | IMul | IDiv | IMod | INeg | IIndex | IProperty _
  | IMethodCall _ _ => false
  | _ => true
  end.

Definition arith_instruction (op : ascii) : option Instruction :=
  if Ascii.eqb op "+" then Some IAdd else if Ascii.eqb op "-" then Some ISub
  else if Ascii.eqb op "*" then Some IMul else if Ascii.eqb op "/" then Some IDiv
  else if Ascii.eqb op "%" then Some IMod else None.

Class Implements {E} (sem : Semantics E)
  (turn : list string -> Instruction -> list Value -> Turn E) : Prop := {
  law_common : exists panic, forall pool i st,
    is_common i = true -> turn pool i st = turn_common panic pool i st (Continue st);
  law_load pool idx name st :
    pool !! idx = Some name -> delivers (turn pool (ILoadVar idx) st) st (sem_load sem name);
  law_arith op i pool l r st :
    arith_instruction op = Some i -> delivers (turn pool i (r :: l :: st)) st (sem_arith sem op l r);
  law_negate pool v st : delivers (turn pool INeg (v :: st)) st (sem_negate sem v);
  law_index pool b p st : delivers (turn pool IIndex (p :: b :: st)) st (sem_index sem b p);
  law_property pool idx name v st :
    pool !! idx = Some name ->
    delivers (turn pool (IProperty idx) (v :: st)) st (sem_property sem v name);
  law_call pool idx method receiver args st :
    pool !! idx = Some method ->
    delivers (turn pool (IMethodCall idx (length args)) (rev args ++ receiver :: st)) st
      (sem_call sem receiver method args)
}.

Section Correctness.
Context {E : Type} (sem : Semantics E) (turn : list string -> Instruction -> list Value -> Turn E).
Context `{Implements E sem turn} `{Display}.

Notation compiled a := (forall c, fragment (I := unit) turn c (emit_ast a c) (fun _ => []) (fun _ => denote sem a)).

Lemma turn_relation pool i b st st' :
  is_common i = true ->
  (forall panic, turn_common panic pool i st (Continue (E:=E) st) = Continue (VBool b :: st')) ->
  delivers (turn pool i st) st' (Ok (Some (VBool b))).
Proof. intros Hi Ht. destruct law_common as [panic L]. simpl. by rewrite L, Ht. Qed.

Lemma compiled_binary l r i op c :
  compiled l -> compiled r ->
  (forall pool lv rv st, delivers (turn pool i (rv :: lv :: st)) st (op lv rv)) ->
  fragment (I := unit) turn c (emit i (emit_ast r (emit_ast l c))) (fun _ => [])
    (fun _ => require (denote sem l) (fun lv => require (denote sem r) (fun rv => op lv rv))).
Proof.
  intros Hl Hr Hi.
  eapply (fragment_seq turn c (emit_ast l c) _ (fun _ => []) (fun _ => []) _
           (fun _ lv => require (denote sem r) (op lv)) (Hl c)).
  eapply (fragment_seq turn (emit_ast l c) (emit_ast r (emit_ast l c)) _ (fun _ => [])
           (fun iv : unit * Value => [iv.2]) (fun _ => denote sem r) (fun iv => op iv.2)).
  - apply (fragment_reindex turn (fun _ => ()) _ _ _ _ (Hr _)).
  - apply fragment_emit. intros [[u lv] rv] pool st. apply Hi.
Qed.

Lemma compiled_unary x c c' op :
  compiled x ->
  fragment (I := Value) turn (emit_ast x c) c' (fun v => [v]) op ->
  fragment (I := unit) turn c c' (fun _ => []) (fun _ => require (denote sem x) op).
Proof.
  intros Hx Hop.
  eapply (fragment_seq turn c (emit_ast x c) _ (fun _ => []) (fun _ => []) _ (fun _ => op) (Hx c)).
  apply (fragment_reindex turn (fun iv : unit * Value => iv.2) _ _ _ _ Hop).
Qed.

(** The arguments of a call, evaluated on top of [pre]. *)
Lemma compiled_args args c' :
  Forall (fun a => compiled a) args ->
  forall I c (pre : I -> list Value) k,
  fragment (I := I * {vs : list Value | length vs = length args}) turn
    (fold_left (fun c a => emit_ast a c) args c) c'
    (fun ivs => rev (`ivs.2) ++ pre ivs.1) (fun ivs => k ivs.1 (`ivs.2)) ->
  fragment turn c c' pre (fun i => require_all (List.map (denote sem) args) (k i)).
Proof.
  induction 1 as [|a args Ha _ IH]; intros I c pre k Hk; simpl in *.
  - apply (fragment_reindex turn (fun i => (i, [] ↾ eq_refl)) _ _ _ _ Hk).
  - eapply (fragment_seq turn c (emit_ast a c) c' (fun _ => []) pre (fun _ => denote sem a)
             (fun i v => require_all (List.map (denote sem) args) (fun vs => k i (v :: vs)))).
    + apply (fragment_reindex turn (fun _ => ()) _ _ _ _ (Ha _)).
    + apply (IH (I * Value)%type _ (fun iv => iv.2 :: pre iv.1)
               (fun iv vs => k iv.1 (iv.2 :: vs))).
      destruct Hk as (code & X & Hk). exists code. split; [done|].
      intros [[i v] [vs Hvs]] p st Hp. simpl.
      specialize (Hk (i, (v :: vs) ↾ f_equal S Hvs) p st Hp). simpl in Hk.
      by rewrite <- app_assoc in Hk.
Qed.

(** *** Jumps *)
Lemma turn_pop pool v st : turn pool IPop (v :: st) = Continue st.
Proof. destruct law_common as [panic L]. by rewrite L. Qed.
Lemma turn_push_bool pool b st : turn pool (IPushBool b) st = Continue (VBool b :: st).
Proof. destruct law_common as [panic L]. by rewrite L. Qed.
Lemma turn_jump pool t st : turn pool (IJump t) st = JumpTo t st.
Proof. destruct law_common as [panic L]. by rewrite L. Qed.
Lemma turn_jump_if_true pool t v st :
  turn pool (IJumpIfTrue t) (v :: st) =
  if is_truthy v then JumpTo t (v :: st) else Continue (v :: st).
Proof. destruct law_common as [panic L]. by rewrite L. Qed.
Lemma turn_jump_if_false pool t v st :
  turn pool (IJumpIfFalse t) (v :: st) =
  if is_truthy v then Continue (v :: st) else JumpTo t (v :: st).
Proof. destruct law_common as [panic L]. rewrite L by done. simpl. by destruct (is_truthy v). Qed.

Lemma reaches_pop p pc v st :
  instructions p !! pc = Some IPop -> reaches turn p pc (v :: st) (S pc) st.
Proof. intros Hi. eapply reaches_next; [done|apply turn_pop]. Qed.

Lemma computes_behind p pc pc1 pc2 pre v st m :
  reaches turn p pc (v :: st) pc1 (pre ++ st) -> computes turn p pc1 pc2 pre st m ->
  computes turn p pc pc2 [v] st m.
Proof.
  intros H1 H2. destruct m as [[w|]|e]; simpl in *.
  - by eapply reaches_trans.
  - by eapply reaches_returns.
  - by eapply reaches_returns.
Qed.

(** The code that follows the two instructions emitted at [c]. *)
Lemma extends_two c c' i j k : extends (emit j (emit i c)) c' k -> extends c c' (i :: j :: k).
Proof.
  intros X. apply (extends_trans c (emit j (emit i c)) c' [i; j] k); [|done].
  apply (extends_trans c (emit i c) _ [i] [j]); apply extends_emit.
Qed.

Lemma extends_patch c c' i j k :
  extends c c' (i :: k) -> extends c (patch (here c) j c') (j :: k).
Proof.
  intros [X P]. split; [|done]. simpl. rewrite X. unfold here. apply insert_middle.
Qed.

Lemma extends_patch_later c c' k1 i j k2 :
  extends c c' (k1 ++ i :: k2) -> extends c (patch (here c + length k1) j c') (k1 ++ j :: k2).
Proof.
  intros [X P]. split; [|done]. simpl. rewrite X. unfold here.
  rewrite <- length_app, !app_assoc. apply insert_middle.
Qed.

Lemma here_patch idx i c : here (patch idx i c) = here c.
Proof. unfold here, patch. simpl. apply length_insert. Qed.

Lemma code_at_cons program pc i code :
  code_at program pc (i :: code) -> program !! pc = Some i /\ code_at program (S pc) code.
Proof.
  intros Hc. split; [by eapply code_at_head|]. replace (S pc) with (pc + length [i]) by (simpl; lia).
  by apply (code_at_app_r _ _ [i]).
Qed.

Lemma compiled_or l r c :
  compiled l -> compiled r ->
  fragment (I := unit) turn c (emit_ast (AOr l r) c) (fun _ => []) (fun _ => denote sem (AOr l r)).
Proof.
  intros Hl Hr. simpl. apply compiled_unary; [done|].
  set (c1 := emit_ast l c). destruct (Hr (emit IPop (emit (IJumpIfTrue 0) c1))) as (k & X & Hk).
  set (c2 := emit_ast r _) in *. pose proof (extends_two _ _ _ _ _ X) as X2.
  pose proof (extends_patch _ _ _ (IJumpIfTrue (here c2)) _ X2) as X3.
  eexists. split; [exact X3|]. intros v p st [Hc Hp]. rewrite here_patch.
  apply code_at_cons in Hc as [I1 Hc]. apply code_at_cons in Hc as [I2 Hc].
  pose proof (extends_here _ _ _ X2) as Hh. simpl in Hh.
  destruct (is_truthy v) eqn:Hv; simpl.
  - eapply reaches_jump; [done| |lia]. by rewrite turn_jump_if_true, Hv.
  - eapply (computes_behind _ _ (S (S (here c1))) _ []).
    + eapply reaches_trans; [|by apply reaches_pop].
      eapply reaches_next; [done|]. by rewrite turn_jump_if_true, Hv.
    + specialize (Hk () p st). rewrite !here_emit in Hk. apply Hk. by split; rewrite ?here_emit.
Qed.

(** The code of a conditional behind its condition: [when_true], a jump, and
    the code of the other branch. *)
Lemma compiled_branch t mf c1 c4 c5 c7 :
  c4 = emit_ast t (emit IPop (emit (IJumpIfFalse 0) c1)) -> c5 = emit (IJump 0) c4 ->
  compiled t ->
  fragment (I := unit) turn (emit IPop c5) c7 (fun _ => []) (fun _ => mf) ->
  fragment (I := Value) turn c1
    (patch (here c4) (IJump (here c7)) (patch (here c1) (IJumpIfFalse (here c5)) c7))
    (fun v => [v]) (fun v => if is_truthy v then denote sem t else mf).
Proof.
  intros E4 E5 Ht (kf & Xf & Hf). destruct (Ht (emit IPop (emit (IJumpIfFalse 0) c1))) as (kt & Xt & Hkt).
  rewrite <- E4 in *. pose proof (extends_two _ _ _ _ _ Xt) as X4.
  assert (X5 : extends c4 c7 (IJump 0 :: IPop :: kf)) by (apply extends_two; by rewrite <- E5).
  pose proof (extends_trans _ _ _ _ _ X4 X5) as X7. simpl in X7.
  pose proof (extends_here _ _ _ X4) as H4. pose proof (extends_here _ _ _ X5) as H7.
  pose proof (extends_patch _ _ _ (IJumpIfFalse (here c5)) _ X7) as X8.
  pose proof (extends_patch_later _ _ (IJumpIfFalse (here c5) :: IPop :: kt) _ (IJump (here c7)) _ X8) as X9.
  simpl in *. rewrite <- H4 in X9. assert (H5 : here c5 = S (here c4)) by (by rewrite E5, here_emit).
  eexists. split; [exact X9|]. intros v p st [Hc Hp]. rewrite !here_patch.
  apply code_at_cons in Hc as [I1 Hc]. apply code_at_cons in Hc as [I2 Hc].
  pose proof (code_at_app_r _ _ _ _ Hc) as Hr. replace (S (S (here c1)) + length kt) with (here c4) in Hr by lia.
  apply code_at_cons in Hr as [I3 Hr]. apply code_at_cons in Hr as [I4 Hr].
  destruct (is_truthy v) eqn:Hv.
  - assert (Hm : computes turn p (here c1) (here c4) [v] st (denote sem t)).
    { eapply (computes_behind _ _ (S (S (here c1))) _ []).
      - eapply reaches_trans; [|by apply reaches_pop].
        eapply reaches_next; [done|]. by rewrite turn_jump_if_false, Hv.
      - specialize (Hkt () p st). rewrite !here_emit in Hkt. apply Hkt.
        split; rewrite ?here_emit; [by eapply code_at_app_l|].
        etrans; [|exact Hp]. by destruct X5. }
    destruct (denote sem t) as [[w|]|e]; simpl in *; [|eapply returns_later; [done|lia]..].
    eapply reaches_trans; [done|]. eapply reaches_jump; [done|apply turn_jump|lia].
  - eapply (computes_behind _ _ (S (S (here c4))) _ []).
    + eapply reaches_trans; [|by apply reaches_pop].
      eapply reaches_jump; [done|by rewrite turn_jump_if_false, Hv, H5|lia].
    + specialize (Hf () p st). rewrite here_emit, H5 in Hf. apply Hf.
      split; [by rewrite here_emit, H5|done].
Qed.

Lemma compiled_literal v c :
  fragment (I := unit) turn c (emit_literal v c) (fun _ => [])
    (fun _ => Ok (Some (stored_literal v))).
Proof.
  destruct law_common as [panic L].
  assert (Htext : forall s, fragment (I := unit) turn c (emit_with s IPushStr c) (fun _ => [])
                              (fun _ => Ok (Some (VString s)))).
  { intros s. apply fragment_emit_with. intros _ pool idx st Hidx. rewrite L by done. simpl.
    unfold pooled. by rewrite Hidx. }
  destruct v as [|b|n|s| |]; simpl; try apply Htext; try destruct (number_as_i64 n);
    apply fragment_emit; intros _ pool st; by rewrite L.
Qed.

Lemma emit_ast_compiled ast : compiled ast.
Proof.
  induction ast using Ast_nested_ind; simpl; intros c;
    try (apply compiled_binary; [auto..|]; intros pool lv rv st;
         first [by apply law_arith|apply law_index|by apply turn_relation]).
  - apply compiled_literal.
  - apply fragment_emit_with. intros _ pool idx st Hidx. by apply law_load.
  - apply compiled_unary; [auto|]. eapply compiled_branch; auto.
  - apply compiled_or; auto.
  - apply compiled_unary; [auto|]. eapply compiled_branch; auto.
    apply fragment_emit. intros _ pool st. apply turn_push_bool.
  - apply compiled_unary; [auto|]. apply fragment_emit. intros v pool st.
    destruct law_common as [panic L]. simpl. by rewrite L.
  - apply compiled_unary; [auto|]. apply fragment_emit. intros v pool st. apply law_negate.
  - apply compiled_unary; [auto|]. apply fragment_emit. intros v pool st.
    destruct law_common as [panic L]. simpl. by rewrite L.
  - apply compiled_unary; [auto|]. apply fragment_emit_with. intros v pool idx st Hidx.
    by apply law_property.
  - apply compiled_unary; [auto|]. apply compiled_args.
    + done.
    + apply fragment_emit_with. intros [v [vs Hvs]] pool idx st Hidx. simpl.
      rewrite <- app_assoc. simpl. rewrite <- Hvs. by apply law_call.
Qed.

(** Running the compiled code from the start gives what the tree denotes. *)
Lemma compile_correct ast :
  run turn (S (length (instructions (compile ast)))) (compile ast) 0 [] = Some (denote sem ast).
Proof.
  destruct (emit_ast_compiled ast compiler_new) as (code & X & Hc).
  unfold compile. set (c := emit_ast ast compiler_new) in *.
  assert (Hp : placed c compiler_new c code).
  { split; [|done]. destruct X as [-> _]. apply code_at_whole. }
  specialize (Hc () c [] Hp). destruct (denote sem ast) as [[v|]|e]; simpl in Hc.
  - destruct Hc as [_ Hc]. eapply (run_more _ (1 + (here c - here compiler_new)));
      [|unfold here; simpl; lia]. apply Hc. simpl. unfold here. by rewrite lookup_ge_None_2 by lia.
  - destruct Hc as [_ Hc]. eapply run_more; [done|]. unfold here. simpl. lia.
  - destruct Hc as [_ Hc]. eapply run_more; [done|]. unfold here. simpl. lia.
Qed.
End Correctness.

(** ** The two pairs of the source *)
Section Pairs.
Context `{Display} `{Unicode} (registry : ExpressionMethodRegistry) (scope : VariableContainer).

Definition strict_semantics : Semantics Stop :=
  mkSemantics _ (load_strict registry scope) arithmetic_strict negate_strict
    (fun b p => Some <$> strictly (index_strict b p))
    (fun v name => Some <$> strictly (property_strict v name))
    (fun receiver method args => strictly (invoke_method_strict registry receiver method args)).

Definition lenient_semantics : Semantics Panic :=
  mkSemantics _ (fun name => Ok (resolve_variable registry scope name)) arithmetic
    (fun v => Ok ((fun n => nonfinite_sentinel (f64_neg n)) <$> to_f64 v))
    (fun b p => Ok (Some (index_value b p)))
    (fun v name => Ok (Some (property_value v name)))
    (fun receiver method args =>
       Ok (Some (unwrap_or VNull (invoke_method registry receiver method args)))).

Lemma exact_literal_stored v : exact_literal v = true -> stored_literal v = v.
Proof.
  destruct v as [|b|[n|n|f]|s| |]; simpl; try done; unfold number_as_i64, number_from_i64; simpl.
  - intros [H1 H2]%andb_prop. rewrite H2. destruct (Z.ltb_spec n 0); [lia|done].
  - by intros ->.
  - unfold number_from_f64. by intros ->.
Qed.

Lemma forallb_map_ext {A B} (p : A -> bool) (f g : A -> B) l :
  Forall (fun a => p a = true -> f a = g a) l -> forallb p l = true -> List.map f l = List.map g l.
Proof.
  induction 1 as [|a l Ha _ IH]; simpl; [done|]. intros [H1 H2]%andb_prop. f_equal; auto.
Qed.

#[local] Ltac denote_ind :=
  match goal with ast : ExpressionAst |- _ => induction ast using Ast_nested_ind end;
  simpl; intros Hx; rewrite ?andb_true_iff in Hx; destruct_and?;
  repeat match goal with IH : exact_literals ?a = true -> _ |- _ => rewrite IH by done; clear IH end;
  try done.

Lemma denote_strict ast :
  exact_literals ast = true -> denote strict_semantics ast = evaluate_strict registry scope ast.
Proof.
  denote_ind.
  - by rewrite exact_literal_stored.
  - destruct (evaluate_strict _ _ ast1) as [[v|]|e]; simpl; [|done|done]. by destruct (is_truthy v).
  - by erewrite forallb_map_ext.
Qed.

(** A computation with an outcome other than "no value". *)
Lemma require_agree {E} (m m' : result E (option Value)) k k' :
  (m ≠ Ok None -> m' = m) -> (forall v, k v ≠ Ok None -> k' v = k v) ->
  require m k ≠ Ok None -> require m' k' = require m k.
Proof.
  intros Hm Hk Hr. destruct m as [[v|]|e]; simpl in *.
  - rewrite Hm by done. simpl. by apply Hk.
  - done.
  - by rewrite Hm by done.
Qed.

Lemma require_all_agree {E} (ms ms' : list (result E (option Value))) k k' :
  Forall2 (fun m m' => m ≠ Ok None -> m' = m) ms ms' ->
  (forall vs, k vs ≠ Ok None -> k' vs = k vs) ->
  require_all ms k ≠ Ok None -> require_all ms' k' = require_all ms k.
Proof.
  intros H2. revert k k'. induction H2 as [|m m' ms ms' Hm _ IH]; intros k k' Hk; simpl; [apply Hk|].
  apply require_agree; [done|]. intros v. apply IH. auto.
Qed.

(** The bytecode replaces the missing value of a call by null, and differs from
    the tree in nothing else. *)
Lemma denote_lenient ast :
  exact_literals ast = true -> evaluate registry scope ast ≠ Ok None ->
  denote lenient_semantics ast = evaluate registry scope ast.
Proof.
  induction ast using Ast_nested_ind; simpl; intros Hx;
    rewrite ?andb_true_iff in Hx; destruct_and?; try done;
    try (apply require_agree; [auto|]; intros v); try done;
    try (apply require_agree; [auto|]; intros v'); try done.
  - by rewrite exact_literal_stored.
  - destruct (is_truthy v); auto.
  - destruct (is_truthy v); auto.
  - destruct (is_truthy v); auto.
  - apply require_all_agree.
    + apply Forall2_fmap_2, Forall_Forall2_diag. rewrite Forall_forall in *. intros a Ha.
      rewrite forallb_forall in *. apply list_elem_of_In in Ha as Ha'. auto.
    + intros vs. by destruct (invoke_method _ _ _ _).
Qed.

Lemma pop_args_spec {E} vs args st (k : list Value -> list Value -> Turn E) :
  pop_args (length vs) args (vs ++ st) k = k (args ++ vs) st.
Proof.
  revert args. induction vs as [|v vs IH]; intros args; simpl; [by rewrite app_nil_r|].
  by rewrite IH, <- app_assoc.
Qed.

Lemma pop_call_args {E} args receiver st (k : list Value -> list Value -> Turn E) :
  pop_args (length args) [] (rev args ++ receiver :: st) k = k (rev args) (receiver :: st).
Proof. rewrite <- (length_rev args). by rewrite pop_args_spec. Qed.

#[local] Ltac deliver :=
  intros; unfold turn, turn_strict, turn_common, pooled; simpl;
  repeat match goal with H : _ !! _ = Some _ |- _ => rewrite H; clear H end;
  rewrite ?pop_call_args; simpl; rewrite ?rev_involutive.

#[local] Ltac arith_cases :=
  let Hop := fresh in
  intros op i pool l r st Hop; unfold arith_instruction in Hop;
  repeat match type of Hop with
  | (if Ascii.eqb op ?a then _ else _) = _ =>
      let E := fresh in
      destruct (Ascii.eqb op a) eqn:E;
      [apply Ascii.eqb_eq in E; subst op; injection Hop as <-; apply delivers_push|]
  end; discriminate.

Lemma invoke_method_strict_some receiver method args :
  invoke_method_strict registry receiver method args ≠ Ok None.
Proof. unfold invoke_method_strict. by break_match. Qed.

#[export] Instance strict_implements : Implements strict_semantics (turn_strict registry scope).
Proof.
  split; try arith_cases; try (deliver; apply delivers_push).
  - exists (Aborted Panicked). intros pool i st Hi. destruct i; done.
  - deliver. pose proof (invoke_method_strict_some receiver method args).
    by destruct (invoke_method_strict _ _ _ _) as [[v|]|e].
Qed.

#[export] Instance lenient_implements : Implements lenient_semantics (turn registry scope).
Proof.
  split; try arith_cases; try (deliver; apply delivers_push); try (deliver; done).
  - exists Panicked. intros pool i st Hi. destruct i; done.
  - deliver. by destruct (resolve_variable _ _ _).
  - deliver. by destruct (to_f64 _).
Qed.

(** Strict execution of compiled code needs no more than its fuel. *)
Lemma execute_strict_total ast :
  execute_strict registry scope (compile ast) = Some (denote strict_semantics ast).
Proof. apply compile_correct, _. Qed.

Lemma execute_total ast :
  execute registry scope (compile ast) = Some (denote lenient_semantics ast).
Proof. apply compile_correct, _. Qed.

(** C3: the compiler is correct for strict evaluation.  For a tree whose
    literals the bytecode can hold, running the compiled instructions
    terminates within the fuel and gives exactly the outcome of evaluating the
    tree: the same value, the same error, or the same panic. *)
Theorem compiled_strict_correct ast :
  exact_literals ast = true ->
  execute_strict registry scope (compile ast) = Some (evaluate_strict registry scope ast).
Proof.
  intros Hx. rewrite <- denote_strict by done. apply execute_strict_total.
Qed.

(** The compiler is correct for lenient evaluation as well, wherever the
    tree has a value (or panics): the bytecode then gives that value. *)
Theorem compiled_lenient_correct ast :
  exact_literals ast = true -> evaluate registry scope ast ≠ Ok None ->
  execute registry scope (compile ast) = Some (evaluate registry scope ast).
Proof.
  intros Hx Hn. rewrite <- denote_lenient by done. apply execute_total.
Qed.
End Pairs.

(** ** Examples *)
Definition plain_display : Display :=
  {| value_to_string _ := EmptyString; f64_to_string _ := EmptyString |}.
#[local] Existing Instance plain_display.
#[local] Existing Instance ascii_only.

Definition int_literal (n : Z) : ExpressionAst := ALiteral (VNumber (PosInt n)).

(** [age >= 18 ? name.substring(0, 2) : 'minor'] *)
Definition sample_ast : ExpressionAst :=
  AConditional (AGreaterEq (AVariable "age") (int_literal 18))
    (AMethodCall (AVariable "name") "substring" [int_literal 0; int_literal 2])
    (ALiteral (VString "minor")).

Definition sample_scope : VariableContainer :=
  map_container (<["age" := VNumber (PosInt 30)]> {["name" := VString "Ada"]}).

Lemma compiled_strict_correct_witness :
  exact_literals sample_ast = true
  /\ execute_strict registry_new sample_scope (compile sample_ast) = Some (Ok (Some (VString "Ad"))).
Proof.
  split; [reflexivity|].
  rewrite (compiled_strict_correct registry_new sample_scope sample_ast) by reflexivity.
  vm_compute. reflexivity.
Defined.

Lemma compiled_lenient_correct_witness :
  exact_literals sample_ast = true
  /\ execute registry_new (map_container {["age" := VNull]}) (compile sample_ast)
     = Some (Ok (Some (VString "minor"))).
Proof.
  split; [reflexivity|].
  rewrite (compiled_lenient_correct registry_new (map_container {["age" := VNull]}) sample_ast).
  - vm_compute. reflexivity.
  - reflexivity.
  - vm_compute. discriminate.
Defined.

(** A literal above [i64::MAX] is not exact: the compiler stores it as a float,
    so a number compares equal to a literal that differs from it in the last
    digit, while the tree keeps them apart. *)
Definition near_u64_max : ExpressionAst := AEqual (AVariable "n") (int_literal u64_max).

Theorem large_literal_loses_precision :
  let scope := map_container {["n" := VNumber (PosInt (u64_max - 1))]} in
  evaluate_strict registry_new scope near_u64_max = Ok (Some (VBool false))
  /\ execute_strict registry_new scope (compile near_u64_max) = Some (Ok (Some (VBool true))).
Proof. vm_compute. split; reflexivity. Qed.
