(* ===== verification/ElParser.v ===== *)
(** * The expression language: the parser

    Models [ExpressionParser] of [flowable-engine-common/src/el/expression.rs].
    The source indexes the bytes of a [&str] and slices it; a slice whose end
    is inside a character, which Rust answers with a panic, is [PPanicked].
    The result [None] of the source is [PNone].  Loops and the nesting have
    fuel ([PExhausted]): one turn per byte, one level more than
    [MAX_EXPRESSION_NESTING_DEPTH]; [el_parse_total] proves it sufficient. *)
From Stdlib Require Import Ascii.
From S2P Require Import Prelude Chars Float64 Numerals Json Errors ElValues ElCompiler.

Inductive ParseFailure : Type :=
| PNone
| PPanicked
| PExhausted.

Record ExpressionParser := mkParser {
  pos : nat;
  depth : nat
}.

Definition MAX_EXPRESSION_NESTING_DEPTH : nat := 64.

Definition P (A : Type) : Type := stM ExpressionParser ParseFailure A.

Definition set_pos (n : nat) : P unit := modify (fun s => mkParser n (depth s)).

(** ** Bytes *)
Definition is_ascii_whitespace (a : ascii) : bool :=
  bool_decide (byte_of a ∈ [32; 9; 10; 12; 13]%Z).
Definition is_identifier_start (a : ascii) : bool :=
  is_ascii_alphabetic (byte_of a) || Ascii.eqb a "_".
Definition is_identifier_byte (a : ascii) : bool :=
  is_ascii_alphabetic (byte_of a) || is_ascii_digit (byte_of a) || Ascii.eqb a "_".

Fixpoint prefix_length (p : ascii -> bool) (l : list ascii) : nat :=
  match l with
  | [] => 0
  | a :: l => if p a then S (prefix_length p l) else 0
  end.

(** A byte that continues a character. *)
Definition is_continuation (a : ascii) : bool := (128 <=? byte_of a)%Z && (byte_of a <? 192)%Z.

Section Parser.
Context (input : list ascii).

(** [str::is_char_boundary]. *)
Definition is_char_boundary (i : nat) : bool :=
  if (i =? 0) || (i =? length input) then true
  else match input !! i with Some a => negb (is_continuation a) | None => false end.

(** [&self.input[a..b]]. *)
Definition slice (a b : nat) : P string :=
  if (a <=? b) && (b <=? length input) && is_char_boundary a && is_char_boundary b
  then mret (String.string_of_list_ascii (take (b - a) (drop a input)))
  else throw PPanicked.

Definition skip_whitespace : P unit :=
  s ← get; set_pos (pos s + prefix_length is_ascii_whitespace (drop (pos s) input)).

Definition peek : P (option Z) :=
  s ← get;
  rest ← slice (pos s) (length input);
  mret (head (chars rest)).

Definition advance : P unit :=
  c ← peek;
  match c with
  | Some c => s ← get; set_pos (pos s + len_utf8 c)
  | None => mret tt
  end.

Definition is_char (a : ascii) (c : option Z) : bool :=
  match c with Some c => (byte_of a =? c)%Z | None => false end.

(** [if self.peek() == Some(a) { self.advance(); true } else { false }]. *)
Definition take_char (a : ascii) : P bool :=
  c ← peek;
  if is_char a c then advance ;; mret true else mret false.

Definition consume (expected : ascii) : P bool := skip_whitespace ;; take_char expected.

(** [pos + 1 < len && input[pos..pos + 2] == text] for each candidate. *)
Definition two_char (candidates : list string) : P (option string) :=
  s ← get;
  if (pos s + 1 <? length input) then
    op ← slice (pos s) (pos s + 2);
    mret (if bool_decide (op ∈ candidates) then Some op else None)
  else mret None.

Definition match_keyword (keyword : string) : P bool :=
  s ← get;
  let start := pos s in
  match input !! start with
  | None => mret false
  | Some first =>
      if negb (is_identifier_start first) then mret false
      else if match start with
              | S before => match input !! before with
                            | Some prev => is_identifier_byte prev
                            | None => false
                            end
              | O => false
              end then mret false
      else
        let end_ := start + String.length keyword in
        if (length input <? end_) then mret false
        else
          text ← slice start end_;
          if negb (bool_decide (text = keyword)) then mret false
          else match input !! end_ with
               | Some next => mret (negb (is_identifier_byte next))
               | None => mret true
               end
  end.

Definition skip_bytes (n : nat) : P unit := s ← get; set_pos (pos s + n).

(** The first keyword that matches is passed over. *)
Fixpoint take_keyword {A} (keywords : list (string * A)) : P (option A) :=
  match keywords with
  | [] => mret None
  | (k, a) :: keywords =>
      b ← match_keyword k;
      if b : bool then skip_bytes (String.length k) ;; mret (Some a) else take_keyword keywords
  end.

(** ** The operators of each level; [None]: the loop of the level ends *)
Definition Binary : Type := ExpressionAst -> ExpressionAst -> ExpressionAst.

Definition take_two_char (table : list (string * Binary)) : P (option Binary) :=
  o ← two_char (table.*1);
  match o with
  | Some op => skip_bytes 2 ;; mret (map_get op table)
  | None => mret None
  end.

Definition or_operator : P (option Binary) :=
  o ← take_two_char [("||"%string, AOr)];
  match o with Some f => mret (Some f) | None => take_keyword [("or"%string, AOr)] end.

Definition and_operator : P (option Binary) :=
  o ← take_two_char [("&&"%string, AAnd)];
  match o with Some f => mret (Some f) | None => take_keyword [("and"%string, AAnd)] end.

Definition equality_operator : P (option Binary) :=
  o ← take_two_char [("=="%string, AEqual); ("!="%string, ANotEqual)];
  match o with
  | Some f => mret (Some f)
  | None => take_keyword [("eq"%string, AEqual); ("ne"%string, ANotEqual)]
  end.

Definition comparison_operator : P (option Binary) :=
  o ← take_two_char [("<="%string, ALessEq); (">="%string, AGreaterEq)];
  match o with
  | Some f => mret (Some f)
  | None =>
      s ← get;
      let keywords := take_keyword [("lt"%string, ALess); ("le"%string, ALessEq);
                                    ("ge"%string, AGreaterEq); ("gt"%string, AGreater)] in
      match input !! pos s with
      | Some ch =>
          if Ascii.eqb ch "<" then skip_bytes 1 ;; mret (Some ALess)
          else if Ascii.eqb ch ">" then skip_bytes 1 ;; mret (Some AGreater)
          else keywords
      | None => keywords
      end
  end.

Definition addition_operator : P (option Binary) :=
  c ← peek;
  if is_char "+" c then advance ;; mret (Some AAdd)
  else if is_char "-" c then advance ;; mret (Some ASub)
  else mret None.

Definition multiplication_operator : P (option Binary) :=
  c ← peek;
  if is_char "*" c then advance ;; mret (Some AMul)
  else if is_char "/" c then advance ;; mret (Some ADiv)
  else if is_char "%" c then advance ;; mret (Some AMod)
  else take_keyword [("div"%string, ADiv); ("mod"%string, AMod)].

(** The left-associative loop all six levels have. *)
Fixpoint binary_loop (operator : P (option Binary)) (operand : P ExpressionAst) (n : nat)
  (left_ : ExpressionAst) : P ExpressionAst :=
  match n with
  | O => throw PExhausted
  | S n =>
      skip_whitespace ;;
      o ← operator;
      match o with
      | Some f => right_ ← operand; binary_loop operator operand n (f left_ right_)
      | None => mret left_
      end
  end.

Definition turns : nat := S (length input).

Definition binary_level (operator : P (option Binary)) (operand : P ExpressionAst)
  : P ExpressionAst :=
  left_ ← operand; binary_loop operator operand turns left_.
End Parser.

(** ** Tokens *)
Definition is_delimiter (ch : ascii) : bool :=
  bool_decide (ch ∈ [","; "+"; "-"; "*"; "/"; "%"; "<"; ">"; "="; "!"; "&"; "|"; "?"; ":"; "["; "]"]%char)
  || is_ascii_whitespace ch.

Definition next_is_digit (l : list ascii) : bool :=
  match l with b :: _ => is_ascii_digit (byte_of b) | [] => false end.

(** The number of bytes of the operand token; [open] counts parentheses. *)
Fixpoint scan_token (open : nat) (l : list ascii) : nat :=
  match l with
  | [] => 0
  | ch :: l =>
      if Ascii.eqb ch "(" then S (scan_token (S open) l)
      else if Ascii.eqb ch ")" then
        match open with O => 0 | S open => S (scan_token open l) end
      else if (open =? 0) && is_delimiter ch then 0
      else if (open =? 0) && Ascii.eqb ch "." then
        if next_is_digit l then S (scan_token open l) else 0
      else S (scan_token open l)
  end.

(** [s.strip_prefix(q).and_then(|v| v.strip_suffix(q))]. *)
Definition unquote (q : ascii) (s : string) : option string :=
  strip_prefix (String q EmptyString) s ≫= strip_last q.

Definition double_quote : ascii := ascii_of 34.
Definition single_quote : ascii := ascii_of 39.

(** The literals a token can be; [Some None] when the text is a float that
    JSON cannot hold. *)
Definition literal_of_token (t : string) : option (option Value) :=
  if eq_ignore_ascii_case t "true" then Some (Some (VBool true))
  else if eq_ignore_ascii_case t "false" then Some (Some (VBool false))
  else if eq_ignore_ascii_case t "null" then Some (Some VNull)
  else if is_operator_keyword t then Some None
  else match unquote double_quote t with
  | Some s => Some (Some (VString s))
  | None =>
  match unquote single_quote t with
  | Some s => Some (Some (VString s))
  | None =>
  match parse_i64 t with
  | Some n => Some (Some (VNumber (number_from_i64 n)))
  | None =>
  match parse_u64 t with
  | Some n => Some (Some (VNumber (PosInt n)))
  | None =>
  match f64_from_str t with
  | Some x => Some (VNumber <$> number_from_f64 x)
  | None => None
  end end end end end.

Definition parse_token (token : string) : option ExpressionAst :=
  let trimmed := trim token in
  match literal_of_token trimmed with
  | Some v => ALiteral <$> v
  | None => Some (AVariable trimmed)
  end.

(** ** The productions, over the recursive call [expression] *)
Section Productions.
Context (input : list ascii) (expression : P ExpressionAst).

Definition or_none {A} (o : option A) : P A :=
  match o with Some a => mret a | None => throw PNone end.

(** [loop { args.push(parse_expression()?); skip; if ',' {..} else break }]. *)
Fixpoint args_loop (n : nat) (args : list ExpressionAst) : P (list ExpressionAst) :=
  match n with
  | O => throw PExhausted
  | S n =>
      arg ← expression;
      skip_whitespace input ;;
      comma ← take_char input ",";
      if comma : bool then skip_whitespace input ;; args_loop n (args ++ [arg])
      else mret (args ++ [arg])
  end.

Definition parse_method_args : P (list ExpressionAst) :=
  consume input "(" ;;
  skip_whitespace input ;;
  c ← peek input;
  args ← (if is_char ")" c then mret [] else args_loop (turns input) []);
  skip_whitespace input ;;
  consume input ")" ;;
  mret args.

Fixpoint parse_suffix_chain (n : nat) (value : ExpressionAst) : P ExpressionAst :=
  match n with
  | O => throw PExhausted
  | S n =>
      skip_whitespace input ;;
      c ← peek input;
      if is_char "." c then
        advance input ;;
        s ← get;
        let member_start := pos s in
        set_pos (member_start + prefix_length is_identifier_byte (drop member_start input)) ;;
        s ← get;
        member ← slice input member_start (pos s);
        if bool_decide (member = EmptyString) then mret value
        else
          skip_whitespace input ;;
          c ← peek input;
          if is_char "(" c then
            args ← parse_method_args;
            parse_suffix_chain n (AMethodCall value member args)
          else parse_suffix_chain n (AProperty value member)
      else if is_char "[" c then
        advance input ;;
        property ← expression;
        skip_whitespace input ;;
        closed ← take_char input "]";
        if closed : bool then parse_suffix_chain n (AIndex value property) else throw PNone
      else mret value
  end.

Definition parse_quoted (quote : ascii) : P ExpressionAst :=
  advance input ;;
  s ← get;
  let start := pos s in
  let content := prefix_length (fun b => negb (Ascii.eqb b quote)) (drop start input) in
  if (start + content <? length input) then
    set_pos (start + content) ;;
    text ← slice input start (start + content);
    advance input ;;
    parse_suffix_chain (turns input) (ALiteral (VString text))
  else throw PNone.

Definition parse_primary : P ExpressionAst :=
  skip_whitespace input ;;
  c ← peek input;
  if is_char "(" c then
    advance input ;;
    inner ← expression;
    skip_whitespace input ;;
    take_char input ")" ;;
    parse_suffix_chain (turns input) inner
  else if is_char single_quote c then parse_quoted single_quote
  else if is_char double_quote c then parse_quoted double_quote
  else
    s ← get;
    let start := pos s in
    set_pos (start + scan_token 0 (drop start input)) ;;
    s ← get;
    text ← slice input start (pos s);
    let token := trim text in
    if bool_decide (token = EmptyString) then throw PNone
    else
      base ← or_none (parse_token token);
      parse_suffix_chain (turns input) base.

Fixpoint parse_unary (n : nat) : P ExpressionAst :=
  match n with
  | O => throw PExhausted
  | S n =>
      skip_whitespace input ;;
      b ← take_char input "!";
      if b : bool then operand ← parse_unary n; mret (ANot operand)
      else
        b ← take_char input "-";
        if b : bool then operand ← parse_unary n; mret (ANeg operand)
        else
          k ← take_keyword input [("not"%string, ANot); ("empty"%string, AEmpty)];
          match k with
          | Some f => operand ← parse_unary n; mret (f operand)
          | None => parse_primary
          end
  end.

Definition parse_multiplication : P ExpressionAst :=
  binary_level input (multiplication_operator input) (parse_unary (turns input)).
Definition parse_addition : P ExpressionAst :=
  binary_level input (addition_operator input) parse_multiplication.
Definition parse_comparison : P ExpressionAst :=
  binary_level input (comparison_operator input) parse_addition.
Definition parse_equality : P ExpressionAst :=
  binary_level input (equality_operator input) parse_comparison.
Definition parse_and : P ExpressionAst :=
  binary_level input (and_operator input) parse_equality.
Definition parse_or : P ExpressionAst :=
  binary_level input (or_operator input) parse_and.

Definition parse_conditional : P ExpressionAst :=
  condition ← parse_or;
  skip_whitespace input ;;
  question ← consume input "?";
  if question : bool then
    when_true ← expression;
    colon ← consume input ":";
    if colon : bool then
      when_false ← expression;
      mret (AConditional condition when_true when_false)
    else throw PNone
  else mret condition.
End Productions.

Fixpoint parse_expression (input : list ascii) (levels : nat) : P ExpressionAst :=
  match levels with
  | O => throw PExhausted
  | S levels =>
      s ← get;
      if (MAX_EXPRESSION_NESTING_DEPTH <=? depth s) then throw PNone
      else
        modify (fun s => mkParser (pos s) (S (depth s))) ;;
        ast ← parse_conditional input (parse_expression input levels);
        modify (fun s => mkParser (pos s) (pred (depth s))) ;;
        mret ast
  end.

(** [ExpressionParser::new(inner).parse_expression()]. *)
Definition el_parse (inner : string) : result ParseFailure ExpressionAst :=
  (parse_expression (String.list_ascii_of_string inner) (S MAX_EXPRESSION_NESTING_DEPTH)
     (mkParser 0 0)).1.
