(* ===== verification/ElParserProof.v ===== *)
(** * The expression language: the parser terminates

    [el_parse_total]: the fuel is enough for every input, what is parsed has
    scalar literals only, and a panic needs a byte beyond ASCII.  A weakest
    precondition ([wp]) carries the three at once. *)
From Stdlib Require Import Ascii.
From S2P Require Import Prelude Chars Float64 Numerals Json Errors ElValues ElCompiler ElCompilerProof ElParser.

(** ** Literals *)
Definition scalar_literal (v : Value) : bool :=
  match v with
  | VNull | VBool _ | VString _ => true
  | VNumber (PosInt n) => (0 <=? n)%Z && (n <=? u64_max)%Z
  | VNumber (NegInt n) => (i64_min <=? n)%Z && (n <? 0)%Z
  | VNumber (Float f) => f64_is_finite f
  | VArray _ | VObject _ => false
  end.

Fixpoint scalar_literals (ast : ExpressionAst) : bool :=
  match ast with
  | ALiteral v => scalar_literal v
  | AVariable _ => true
  | AConditional a b c => scalar_literals a && scalar_literals b && scalar_literals c
  | AOr l r | AAnd l r | AEqual l r | ANotEqual l r | ALessEq l r | AGreaterEq l r
  | ALess l r | AGreater l r | AAdd l r | ASub l r | AMul l r | ADiv l r | AMod l r
  | AIndex l r => scalar_literals l && scalar_literals r
  | ANot x | ANeg x | AEmpty x | AProperty x _ => scalar_literals x
  | AMethodCall b _ args => scalar_literals b && forallb scalar_literals args
  end.

Lemma digits_value_nonneg s n m : (0 <= n)%Z -> digits_value n s = Some m -> (0 <= m)%Z.
Proof.
  revert n. induction s as [|a s IH]; intros n Hn; simpl; [by intros [= <-]|].
  unfold digit_value. destruct (_ && _) eqn:E; [|done]. apply IH.
  apply andb_prop in E as [E1 E2]. lia.
Qed.

Lemma parse_i64_range s n : parse_i64 s = Some n -> (i64_min <= n <= i64_max)%Z.
Proof.
  unfold parse_i64, i64_min, i64_max. destruct (match s with EmptyString => _ | _ => _ end); [|done].
  destruct (_ && _) eqn:E; [|done]. intros [= <-]. apply andb_prop in E as [E1 E2]. lia.
Qed.

Lemma parse_u64_range s n : parse_u64 s = Some n -> (0 <= n <= u64_max)%Z.
Proof.
  unfold parse_u64, u64_max. destruct (match s with EmptyString => _ | _ => _ end) as [|a t]; [done|].
  destruct (digits_value 0 (String a t)) as [m|] eqn:E; [|done].
  apply digits_value_nonneg in E; [|lia]. destruct (Z.ltb_spec m (2 ^ 64)); [|done].
  intros [= <-]. lia.
Qed.

Lemma parse_token_scalar t ast : parse_token t = Some ast -> scalar_literals ast = true.
Proof.
  unfold parse_token. destruct (literal_of_token (trim t)) as [o|] eqn:E; [|by intros [= <-]].
  unfold literal_of_token in E. destruct o as [v|]; [|done]. intros [= <-]. simpl.
  destruct (eq_ignore_ascii_case _ "true"); [by simplify_eq|].
  destruct (eq_ignore_ascii_case _ "false"); [by simplify_eq|].
  destruct (eq_ignore_ascii_case _ "null"); [by simplify_eq|].
  destruct (is_operator_keyword _); [done|].
  destruct (unquote double_quote _); [by simplify_eq|].
  destruct (unquote single_quote _); [by simplify_eq|].
  destruct (parse_i64 _) as [n|] eqn:Ei.
  { simplify_eq. apply parse_i64_range in Ei. unfold number_from_i64, i64_max, u64_max in *.
    destruct (Z.ltb_spec n 0); simpl; unfold u64_max; lia. }
  destruct (parse_u64 _) as [n|] eqn:Eu.
  { simplify_eq. apply parse_u64_range in Eu. simpl. lia. }
  destruct (f64_from_str _) as [x|]; [|done]. unfold number_from_f64 in E.
  destruct (f64_is_finite x) eqn:Ex; [|done]. injection E as <-. exact Ex.
Qed.

(** ** Weakest preconditions *)
Section Total.
Context (input : list ascii).

Definition ascii_input : Prop := Forall (fun a => (byte_of a < 128)%Z) input.

Definition wp {A} (p : P A) (s : ExpressionParser) (Φ : A -> ExpressionParser -> Prop) : Prop :=
  match p s with
  | (Ok a, s') => Φ a s'
  | (Err PNone, _) => True
  | (Err PPanicked, _) => ~ ascii_input
  | (Err PExhausted, _) => False
  end.

Lemma el_wp_bind {A B} (p : P A) (f : A -> P B) s Φ :
  wp p s (fun a s' => wp (f a) s' Φ) -> wp (p ≫= f) s Φ.
Proof. unfold wp, mbind, stM_bind. destruct (p s) as [[a|[]] s']; done. Qed.

Lemma el_wp_ret {A} (a : A) s (Φ : A -> ExpressionParser -> Prop) : Φ a s -> wp (mret a) s Φ.
Proof. done. Qed.

Lemma el_wp_mono {A} (p : P A) s (Φ Ψ : A -> ExpressionParser -> Prop) :
  wp p s Φ -> (forall a s', Φ a s' -> Ψ a s') -> wp p s Ψ.
Proof. unfold wp. destruct (p s) as [[a|[]] s']; auto. Qed.

Lemma wp_get s (Φ : ExpressionParser -> ExpressionParser -> Prop) : Φ s s -> wp get s Φ.
Proof. done. Qed.

(** [s'] is at or behind [s], within the input, at the same depth. *)
Definition moved (s s' : ExpressionParser) : Prop :=
  pos s <= pos s' <= length input /\ depth s' = depth s.

Definition at_pos (n : nat) (s : ExpressionParser) : ExpressionParser := mkParser n (depth s).

Lemma moved_refl s : pos s <= length input -> moved s s.
Proof. by repeat split. Qed.
Lemma moved_trans s1 s2 s3 : moved s1 s2 -> moved s2 s3 -> moved s1 s3.
Proof. unfold moved. intuition (lia || congruence). Qed.
Lemma moved_at n s : pos s <= n <= length input -> moved s (at_pos n s).
Proof. by split. Qed.

Lemma boundary_ascii i : ascii_input -> i <= length input -> is_char_boundary input i = true.
Proof.
  intros Ha Hi. unfold is_char_boundary. destruct (_ || _) eqn:E; [done|].
  apply orb_false_iff in E as [_ E%Nat.eqb_neq].
  destruct (lookup_lt_is_Some_2 input i) as [a La]; [lia|]. rewrite La.
  unfold ascii_input in Ha. rewrite Forall_lookup in Ha. specialize (Ha _ _ La). simpl in Ha.
  unfold is_continuation. destruct (Z.leb_spec 128 (byte_of a)); [lia|done].
Qed.

Lemma wp_slice a b s (Φ : string -> ExpressionParser -> Prop) :
  a <= b <= length input ->
  Φ (String.string_of_list_ascii (take (b - a) (drop a input))) s -> wp (slice input a b) s Φ.
Proof.
  intros [H1 H2] HΦ. unfold slice. rewrite (proj2 (Nat.leb_le _ _) H1), (proj2 (Nat.leb_le _ _) H2).
  simpl. destruct (_ && _) eqn:E; [done|]. intros Ha. simpl.
  by rewrite !boundary_ascii in E by (done || lia).
Qed.

Lemma prefix_length_le p l : prefix_length p l <= length l.
Proof. induction l as [|a l IH]; simpl; [lia|]. destruct (p a); lia. Qed.
Lemma scan_token_le k l : scan_token k l <= length l.
Proof.
  revert k. induction l as [|a l IH]; intros k; simpl; [lia|].
  repeat case_match; try lia; apply le_n_S, IH.
Qed.

(** Passing over bytes counted in the rest of the input. *)
Lemma wp_skip_counted count s (Φ : unit -> ExpressionParser -> Prop) :
  pos s <= length input -> count <= length (drop (pos s) input) ->
  (forall s', moved s s' -> pos s' = pos s + count -> Φ tt s') ->
  wp (set_pos (pos s + count)) s Φ.
Proof.
  intros Hs Hc HΦ. rewrite length_drop in Hc. apply HΦ; [split; simpl; [lia|done]|done].
Qed.

Lemma wp_skip_whitespace s (Φ : unit -> ExpressionParser -> Prop) :
  pos s <= length input -> (forall s', moved s s' -> Φ tt s') -> wp (skip_whitespace input) s Φ.
Proof.
  intros Hs HΦ. apply el_wp_bind, wp_get, wp_skip_counted; [done|apply prefix_length_le|auto].
Qed.

(** [c] is the character at [s]. *)
Definition peeked (s : ExpressionParser) (c : option Z) : Prop :=
  c = head (chars (String.string_of_list_ascii (drop (pos s) input))).

Lemma wp_peek s (Φ : option Z -> ExpressionParser -> Prop) :
  pos s <= length input -> (forall c, peeked s c -> Φ c s) -> wp (peek input) s Φ.
Proof.
  intros Hs HΦ. apply el_wp_bind, wp_get, el_wp_bind, wp_slice; [lia|]. apply el_wp_ret, HΦ.
  unfold peeked. by rewrite take_ge by (rewrite length_drop; lia).
Qed.

Lemma peeked_inside s c : peeked s (Some c) -> pos s < length input.
Proof.
  unfold peeked. intros H. destruct (decide (pos s < length input)) as [|Hn]; [done|].
  by rewrite drop_ge in H by lia.
Qed.

Lemma wp_advance s c (Φ : unit -> ExpressionParser -> Prop) :
  peeked s (Some c) -> (c < 128)%Z ->
  (forall s', moved s s' -> pos s < pos s' -> Φ tt s') -> wp (advance input) s Φ.
Proof.
  intros Hc Hlt HΦ. pose proof (peeked_inside _ _ Hc).
  apply el_wp_bind, wp_peek; [lia|]. intros c' Hc'. unfold peeked in *. rewrite <- Hc in Hc'. subst c'.
  apply el_wp_bind, wp_get. assert (len_utf8 c = 1) as ->.
  { unfold len_utf8, char_bytes. by rewrite (proj2 (Z.ltb_lt _ _) Hlt). }
  apply HΦ; simpl; [|lia]. split; simpl; [lia|done].
Qed.

Lemma is_char_inv a c : is_char a c = true -> c = Some (byte_of a).
Proof. destruct c; simpl; [|done]. intros ->%Z.eqb_eq. done. Qed.

Lemma wp_advance_char a s c (Φ : unit -> ExpressionParser -> Prop) :
  peeked s c -> is_char a c = true -> (byte_of a < 128)%Z ->
  (forall s', moved s s' -> pos s < pos s' -> Φ tt s') -> wp (advance input) s Φ.
Proof. intros Hc ->%is_char_inv Ha HΦ. by eapply wp_advance. Qed.

Lemma wp_take_char a s (Φ : bool -> ExpressionParser -> Prop) :
  pos s <= length input -> (byte_of a < 128)%Z ->
  Φ false s -> (forall s', moved s s' -> pos s < pos s' -> Φ true s') -> wp (take_char input a) s Φ.
Proof.
  intros Hs Ha Hf Ht. apply el_wp_bind, wp_peek; [done|]. intros c Hc.
  destruct (is_char a c) eqn:E; [|done]. apply el_wp_bind.
  eapply wp_advance_char; [done..|]. intros s' M L. apply el_wp_ret. auto.
Qed.

Lemma wp_consume a s (Φ : bool -> ExpressionParser -> Prop) :
  pos s <= length input -> (byte_of a < 128)%Z ->
  (forall b s', moved s s' -> (b = true -> pos s < pos s') -> Φ b s') -> wp (consume input a) s Φ.
Proof.
  intros Hs Ha HΦ. apply el_wp_bind, wp_skip_whitespace; [done|]. intros s1 M1.
  apply wp_take_char; [apply M1|done| |].
  - by apply HΦ.
  - intros s2 M2 L2. apply HΦ; [by eapply moved_trans|]. intros _. destruct M1. lia.
Qed.

(** ** Operators: recognised only by passing over at least one byte *)
Definition found {A} (Q : A -> Prop) (s : ExpressionParser) (o : option A) (s' : ExpressionParser)
  : Prop :=
  moved s s' /\ forall f, o = Some f -> pos s < pos s' /\ Q f.

Definition recognises {A} (Q : A -> Prop) (p : P (option A)) : Prop :=
  forall s, pos s <= length input -> wp p s (found Q s).

Lemma found_none {A} (Q : A -> Prop) s : pos s <= length input -> found Q s None s.
Proof. intros Hs. split; [by apply moved_refl|done]. Qed.

Lemma found_bytes {A} (Q : A -> Prop) s f n :
  0 < n -> pos s + n <= length input -> (forall g, f = Some g -> Q g) ->
  found Q s f (mkParser (pos s + n) (depth s)).
Proof. intros Hn Hs Hf. split; [split; simpl; [lia|done]|]. intros g Hg. split; simpl; [lia|auto]. Qed.

Lemma wp_match_keyword k s (Φ : bool -> ExpressionParser -> Prop) :
  pos s <= length input -> Φ false s ->
  (pos s + String.length k <= length input -> Φ true s) -> wp (match_keyword input k) s Φ.
Proof.
  intros Hs Hf Ht. apply el_wp_bind, wp_get. cbv zeta.
  destruct (input !! pos s) as [a|] eqn:E; [|done].
  destruct (negb _); [done|]. destruct (match pos s with O => _ | _ => _ end); [done|].
  destruct (Nat.ltb_spec (length input) (pos s + String.length k)); [done|].
  apply el_wp_bind, wp_slice; [lia|]. destruct (negb _); [done|].
  destruct (input !! (pos s + String.length k)) as [b|]; [|by apply el_wp_ret, Ht].
  apply el_wp_ret. destruct (is_identifier_byte b); simpl; auto.
Qed.

Lemma recognises_keyword {A} (Q : A -> Prop) (ks : list (string * A)) :
  Forall (fun k => k.1 ≠ EmptyString /\ Q k.2) ks -> recognises Q (take_keyword input ks).
Proof.
  induction 1 as [|[k a] ks [Hk Ha] _ IH]; intros s Hs; [by apply el_wp_ret, found_none|]. simpl in *.
  apply el_wp_bind, wp_match_keyword; [done|by apply IH|]. intros Hb.
  apply el_wp_bind, el_wp_bind, wp_get, el_wp_ret. apply found_bytes; [destruct k; simpl; [done|lia]|done|].
  by intros g [= <-].
Qed.

Lemma map_get_in {A} (Q : A -> Prop) k (table : list (string * A)) f :
  Forall (fun kf => Q kf.2) table -> map_get k table = Some f -> Q f.
Proof.
  induction 1 as [|[k' g] table Hg _ IH]; simpl; [done|].
  case_bool_decide; [by intros [= <-]|done].
Qed.

Lemma recognises_two_char (Q : Binary -> Prop) table :
  Forall (fun kf => Q kf.2) table -> recognises Q (take_two_char input table).
Proof.
  intros HQ s Hs. apply el_wp_bind, el_wp_bind, wp_get.
  destruct (Nat.ltb_spec (pos s + 1) (length input)).
  - apply el_wp_bind, wp_slice; [lia|]. apply el_wp_ret. case_bool_decide; [|by apply el_wp_ret, found_none].
    apply el_wp_bind, el_wp_bind, wp_get, el_wp_ret. apply found_bytes; [lia|lia|]. intros g Hg. by eapply map_get_in.
  - apply el_wp_ret. by apply el_wp_ret, found_none.
Qed.

Lemma recognises_or_else {A} (Q : A -> Prop) (p q : P (option A)) :
  recognises Q p -> recognises Q q ->
  recognises Q (o ← p; match o with Some f => mret (Some f) | None => q end).
Proof.
  intros Hp Hq s Hs. apply el_wp_bind. eapply el_wp_mono; [by apply Hp|]. intros [f|] s1 [M1 L1].
  - apply el_wp_ret. by split.
  - eapply el_wp_mono; [apply Hq, M1|]. intros o s2 [M2 L2]. split; [by eapply moved_trans|].
    intros f Hf. destruct (L2 f Hf). split; [|done]. destruct M1. lia.
Qed.

Lemma wp_peeked_operator {A} (Q : A -> Prop) a (x : A) s c (rest : P (option A)) :
  peeked s c -> (byte_of a < 128)%Z -> Q x -> wp rest s (found Q s) ->
  wp (if is_char a c then advance input ;; mret (Some x) else rest) s (found Q s).
Proof.
  intros Hc Ha HQ Hr. destruct (is_char a c) eqn:E; [|done].
  apply el_wp_bind. eapply wp_advance_char; [done..|]. intros s' M L. apply el_wp_ret.
  split; [done|]. by intros f [= <-].
Qed.

(** ** The six levels *)
Definition keeps_scalars (f : Binary) : Prop :=
  forall l r, scalar_literals l = true -> scalar_literals r = true -> scalar_literals (f l r) = true.

#[local] Hint Extern 1 (keeps_scalars _) => intros l r Hl Hr; simpl; rewrite Hl, Hr; reflexivity : core.
#[local] Hint Extern 1 (Forall _ _) => repeat constructor; simpl; try discriminate : core.

Lemma recognises_or : recognises keeps_scalars (or_operator input).
Proof. apply recognises_or_else; [apply recognises_two_char|apply recognises_keyword]; auto. Qed.
Lemma recognises_and : recognises keeps_scalars (and_operator input).
Proof. apply recognises_or_else; [apply recognises_two_char|apply recognises_keyword]; auto. Qed.
Lemma recognises_equality : recognises keeps_scalars (equality_operator input).
Proof. apply recognises_or_else; [apply recognises_two_char|apply recognises_keyword]; auto. Qed.

Lemma recognises_comparison : recognises keeps_scalars (comparison_operator input).
Proof.
  apply recognises_or_else; [apply recognises_two_char; auto|]. intros s Hs.
  apply el_wp_bind, wp_get. cbv zeta. destruct (input !! pos s) as [ch|] eqn:E.
  - assert (pos s < length input) by (by eapply lookup_lt_Some).
    destruct (Ascii.eqb ch "<"); [|destruct (Ascii.eqb ch ">")].
    1-2: apply el_wp_bind, el_wp_bind, wp_get, el_wp_ret, found_bytes; [lia|lia|by intros g [= <-]; auto].
    by apply recognises_keyword; auto.
  - by apply recognises_keyword; auto.
Qed.

Lemma recognises_addition : recognises keeps_scalars (addition_operator input).
Proof.
  intros s Hs. apply el_wp_bind, wp_peek; [done|]. intros c Hc.
  repeat (apply wp_peeked_operator; [done|done|auto|]). by apply el_wp_ret, found_none.
Qed.

Lemma recognises_multiplication : recognises keeps_scalars (multiplication_operator input).
Proof.
  intros s Hs. apply el_wp_bind, wp_peek; [done|]. intros c Hc.
  repeat (apply wp_peeked_operator; [done|done|auto|]). by apply recognises_keyword; auto.
Qed.

(** A production at depth [d]: it returns, further on, a tree with scalar
    literals. *)
Definition read (s : ExpressionParser) (a : ExpressionAst) (s' : ExpressionParser) : Prop :=
  scalar_literals a = true /\ moved s s'.

Definition parses_at (d : nat) (p : P ExpressionAst) : Prop :=
  forall s, pos s <= length input -> depth s = d -> wp p s (read s).

Lemma read_moved s s1 a s2 : moved s s1 -> read s1 a s2 -> read s a s2.
Proof. intros M1 [Ha M2]. split; [done|]. by eapply moved_trans. Qed.

Lemma moved_inside s s' : moved s s' -> pos s' <= length input.
Proof. intros [? _]. lia. Qed.
Lemma moved_depth s s' d : moved s s' -> depth s = d -> depth s' = d.
Proof. intros [_ ->]. done. Qed.
#[local] Hint Resolve moved_inside moved_depth moved_trans moved_refl read_moved : core.

Lemma parses_binary_loop d operator operand :
  recognises keeps_scalars operator -> parses_at d operand ->
  forall n l s, scalar_literals l = true -> pos s <= length input -> depth s = d ->
    length input - pos s < n -> wp (binary_loop input operator operand n l) s (read s).
Proof.
  intros Hop Hpar n. induction n as [|n IH]; intros l s Hl Hs Hd Hn; [lia|]. simpl.
  apply el_wp_bind, wp_skip_whitespace; [done|]. intros s1 M1.
  apply el_wp_bind. eapply el_wp_mono; [apply Hop; eauto|]. intros [f|] s2 [M2 L2].
  - destruct (L2 f eq_refl) as [L Hf]. apply el_wp_bind. eapply el_wp_mono; [apply Hpar; eauto|].
    intros r s3 [Hr M3]. eapply el_wp_mono; [apply IH; eauto|eauto].
    destruct M1, M2, M3. lia.
  - apply el_wp_ret. split; eauto.
Qed.

Lemma parses_binary_level d operator operand :
  recognises keeps_scalars operator -> parses_at d operand ->
  parses_at d (binary_level input operator operand).
Proof.
  intros Hop Hpar s Hs Hd. apply el_wp_bind. eapply el_wp_mono; [by apply Hpar|]. intros l s1 [Hl M1].
  eapply el_wp_mono; [apply (parses_binary_loop d); eauto; unfold turns; lia|eauto].
Qed.

(** ** Productions, over [expression] *)
Section Productions.
Context (d : nat) (expression : P ExpressionAst) (Hexpr : parses_at d expression).

Definition all_scalars (l : list ExpressionAst) : Prop := forallb scalar_literals l = true.

Lemma all_scalars_snoc l a : all_scalars l -> scalar_literals a = true -> all_scalars (l ++ [a]).
Proof. unfold all_scalars. intros Hl Ha. rewrite forallb_app. simpl. by rewrite Hl, Ha. Qed.

Lemma parses_args_loop n args s :
  all_scalars args -> pos s <= length input -> depth s = d -> length input - pos s < n ->
  wp (args_loop input expression n args) s (fun l s' => all_scalars l /\ moved s s').
Proof.
  revert args s. induction n as [|n IH]; intros args s Ha Hs Hd Hn; [lia|]. simpl.
  apply el_wp_bind. eapply el_wp_mono; [by apply Hexpr|]. intros a s1 [Ha1 M1].
  apply el_wp_bind, wp_skip_whitespace; [eauto|]. intros s2 M2.
  apply el_wp_bind, wp_take_char; [eauto|done| |].
  - apply el_wp_ret. split; [by apply all_scalars_snoc|eauto].
  - intros s3 M3 L3. apply el_wp_bind, wp_skip_whitespace; [eauto|]. intros s4 M4.
    eapply el_wp_mono; [apply IH; eauto using all_scalars_snoc|].
    + destruct M1, M2, M3, M4. lia.
    + intros l s5 [Hl M5]. split; [done|]. eauto 8.
Qed.

Lemma parses_method_args s :
  pos s <= length input -> depth s = d ->
  wp (parse_method_args input expression) s (fun l s' => all_scalars l /\ moved s s').
Proof.
  intros Hs Hd. apply el_wp_bind, wp_consume; [done|done|]. intros b s1 M1 _.
  apply el_wp_bind, wp_skip_whitespace; [eauto|]. intros s2 M2.
  apply el_wp_bind, wp_peek; [eauto|]. intros c Hc. apply el_wp_bind.
  eapply (el_wp_mono _ _ (fun l s' => all_scalars l /\ moved s2 s')).
  { destruct (is_char ")" c); [apply el_wp_ret; split; eauto; done|].
    apply parses_args_loop; eauto; [done|unfold turns; lia]. }
  intros l s3 [Hl M3]. apply el_wp_bind, wp_skip_whitespace; [eauto|]. intros s4 M4.
  apply el_wp_bind, wp_consume; [eauto|done|]. intros b' s5 M5 _. apply el_wp_ret. split; [done|]. eauto 8.
Qed.

Lemma parses_suffix_chain n value s :
  scalar_literals value = true -> pos s <= length input -> depth s = d -> length input - pos s < n ->
  wp (parse_suffix_chain input expression n value) s (read s).
Proof.
  revert value s. induction n as [|n IH]; intros value s Hv Hs Hd Hn; [lia|]. simpl.
  apply el_wp_bind, wp_skip_whitespace; [done|]. intros s1 M1.
  apply el_wp_bind, wp_peek; [eauto|]. intros c Hc.
  assert (L0 : length input - pos s1 < S n) by (destruct M1; lia).
  destruct (is_char "." c) eqn:Edot; [|destruct (is_char "[" c) eqn:Ebr].
  - apply el_wp_bind. eapply wp_advance_char; [done|done|done|]. intros s2 M2 L2.
    apply el_wp_bind, wp_get, el_wp_bind, wp_skip_counted; [eauto|apply prefix_length_le|].
    intros s3 M3 E3. apply el_wp_bind, wp_get, el_wp_bind, wp_slice; [destruct M3; lia|].
    case_bool_decide; [apply el_wp_ret; split; eauto|].
    apply el_wp_bind, wp_skip_whitespace; [eauto|]. intros s4 M4.
    apply el_wp_bind, wp_peek; [eauto|]. intros c' Hc'.
    assert (M : moved s s4) by eauto 8.
    assert (L4 : pos s < pos s4) by (destruct M1, M3, M4; lia).
    destruct (is_char "(" c').
    + apply el_wp_bind. eapply el_wp_mono; [apply parses_method_args; eauto|]. intros args s5 [Ha M5].
      eapply el_wp_mono; [apply IH; [simpl; by rewrite Hv, Ha|eauto..|destruct M5; lia]|eauto].
    + eapply el_wp_mono; [apply IH; [done|eauto..|destruct M; lia]|eauto].
  - apply el_wp_bind. eapply wp_advance_char; [done|done|done|]. intros s2 M2 L2.
    apply el_wp_bind. eapply el_wp_mono; [apply Hexpr; eauto|]. intros p s3 [Hp M3].
    apply el_wp_bind, wp_skip_whitespace; [eauto|]. intros s4 M4.
    apply el_wp_bind, wp_take_char; [eauto|done|done|]. intros s5 M5 L5.
    eapply el_wp_mono; [apply IH; [simpl; by rewrite Hv, Hp|eauto 8..|destruct M1, M3, M4; lia]|eauto 10].
  - apply el_wp_ret. split; eauto.
Qed.

Lemma parses_suffix_full value s s0 :
  scalar_literals value = true -> moved s0 s -> depth s0 = d ->
  wp (parse_suffix_chain input expression (turns input) value) s (read s0).
Proof.
  intros Hv M Hd. eapply el_wp_mono; [apply parses_suffix_chain; eauto; unfold turns; lia|eauto].
Qed.

Lemma prefix_length_stop p l :
  prefix_length p l < length l -> exists b, l !! prefix_length p l = Some b /\ p b = false.
Proof.
  induction l as [|a l IH]; simpl; [lia|]. destruct (p a) eqn:E; [|eauto].
  intros H. destruct IH as (b & Hb & ?); [lia|]. by exists b.
Qed.

Lemma peeked_byte s a : input !! pos s = Some a -> (byte_of a < 128)%Z -> peeked s (Some (byte_of a)).
Proof.
  intros Ha Hlt. unfold peeked. rewrite (drop_S _ _ _ Ha). simpl.
  by rewrite (proj2 (Z.ltb_lt _ _) Hlt).
Qed.

Lemma parses_quoted q s c :
  depth s = d -> peeked s c -> is_char q c = true -> (byte_of q < 128)%Z ->
  wp (parse_quoted input expression q) s (read s).
Proof.
  intros Hd Hc Hq Hlt. apply el_wp_bind. eapply wp_advance_char; [done..|]. intros s1 M1 L1.
  apply el_wp_bind, wp_get. cbv zeta. set (n := prefix_length _ _).
  destruct (Nat.ltb_spec (pos s1 + n) (length input)) as [Hn|]; [|done].
  destruct (prefix_length_stop (fun b => negb (Ascii.eqb b q)) (drop (pos s1) input)) as (b & Hb & Eb).
  { rewrite length_drop. fold n. lia. }
  rewrite lookup_drop in Hb. fold n in Hb. apply negb_false_iff, Ascii.eqb_eq in Eb as ->.
  apply el_wp_bind, wp_skip_counted; [eauto|rewrite length_drop; lia|]. intros s2 M2 E2.
  apply el_wp_bind, wp_slice; [lia|]. apply el_wp_bind.
  eapply wp_advance; [apply peeked_byte; [by rewrite E2|done]|done|]. intros s3 M3 L3.
  apply parses_suffix_full; eauto.
Qed.

Lemma parses_primary : parses_at d (parse_primary input expression).
Proof.
  intros s Hs Hd. apply el_wp_bind, wp_skip_whitespace; [done|]. intros s1 M1.
  apply el_wp_bind, wp_peek; [eauto|]. intros c Hc.
  destruct (is_char "(" c) eqn:Eo;
    [|destruct (is_char single_quote c) eqn:E1; [|destruct (is_char double_quote c) eqn:E2]].
  - apply el_wp_bind. eapply wp_advance_char; [done..|]. intros s2 M2 L2.
    apply el_wp_bind. eapply el_wp_mono; [apply Hexpr; eauto|]. intros a s3 [Ha M3].
    apply el_wp_bind, wp_skip_whitespace; [eauto|]. intros s4 M4. apply el_wp_bind.
    apply wp_take_char; [eauto|done| |intros s5 M5 _]; apply parses_suffix_full; eauto 8.
  - eapply el_wp_mono; [eapply parses_quoted; eauto; done|eauto].
  - eapply el_wp_mono; [eapply parses_quoted; eauto; done|eauto].
  - apply el_wp_bind, wp_get, el_wp_bind, wp_skip_counted; [eauto|apply scan_token_le|].
    intros s2 M2 E3. apply el_wp_bind, wp_get, el_wp_bind, wp_slice; [destruct M2; lia|].
    cbv zeta. case_bool_decide; [done|]. apply el_wp_bind.
    destruct (parse_token _) as [base|] eqn:Et; [|done]. apply el_wp_ret.
    apply parses_suffix_full; eauto using parse_token_scalar.
Qed.

Lemma el_parses_unary n s :
  pos s <= length input -> depth s = d -> length input - pos s < n ->
  wp (parse_unary input expression n) s (read s).
Proof.
  revert s. induction n as [|n IH]; intros s Hs Hd Hn; [lia|]. cbn [parse_unary].
  apply el_wp_bind, wp_skip_whitespace; [done|]. intros s1 M1.
  assert (Hnext : forall f s2, (forall a, scalar_literals (f a) = scalar_literals a) ->
    moved s1 s2 -> pos s1 < pos s2 ->
    wp (operand ← parse_unary input expression n; mret (f operand)) s2 (read s)).
  { intros f s2 Hf M2 L2. apply el_wp_bind.
    eapply el_wp_mono; [apply IH; eauto; destruct M1, M2; lia|]. intros a s3 [Ha M3].
    apply el_wp_ret. split; [by rewrite Hf|eauto]. }
  apply el_wp_bind, wp_take_char; [eauto|done| |by intros s2 M2 L2; apply (Hnext ANot)].
  apply el_wp_bind, wp_take_char; [eauto|done| |by intros s2 M2 L2; apply (Hnext ANeg)].
  apply el_wp_bind. eapply el_wp_mono.
  { apply (recognises_keyword (fun f => forall a, scalar_literals (f a) = scalar_literals a));
      [repeat constructor; done|eauto]. }
  intros [f|] s2 [M2 L2].
  - destruct (L2 f eq_refl) as [L Hf]. by apply Hnext.
  - eapply el_wp_mono; [apply parses_primary; eauto|]. intros a s3. eauto.
Qed.

Lemma parses_or : parses_at d (parse_or input expression).
Proof.
  apply parses_binary_level; [apply recognises_or|].
  apply parses_binary_level; [apply recognises_and|].
  apply parses_binary_level; [apply recognises_equality|].
  apply parses_binary_level; [apply recognises_comparison|].
  apply parses_binary_level; [apply recognises_addition|].
  apply parses_binary_level; [apply recognises_multiplication|].
  intros s Hs Hd. apply el_parses_unary; [done..|unfold turns; lia].
Qed.

Lemma parses_conditional : parses_at d (parse_conditional input expression).
Proof.
  intros s Hs Hd. apply el_wp_bind. eapply el_wp_mono; [by apply parses_or|]. intros a s1 [Ha M1].
  apply el_wp_bind, wp_skip_whitespace; [eauto|]. intros s2 M2.
  apply el_wp_bind, wp_consume; [eauto|done|]. intros [] s3 M3 _; [|apply el_wp_ret; split; eauto].
  apply el_wp_bind. eapply el_wp_mono; [apply Hexpr; eauto|]. intros b s4 [Hb M4].
  apply el_wp_bind, wp_consume; [eauto|done|]. intros [] s5 M5 _; [|done].
  apply el_wp_bind. eapply el_wp_mono; [apply Hexpr; eauto 8|]. intros c s6 [Hc M6].
  apply el_wp_ret. split; [simpl; by rewrite Ha, Hb, Hc|]. eauto 10.
Qed.
End Productions.

Lemma parses_expression levels d :
  MAX_EXPRESSION_NESTING_DEPTH - d < levels -> parses_at d (parse_expression input levels).
Proof.
  revert d. induction levels as [|levels IH]; intros d Hl s Hs Hd; [lia|]. cbn [parse_expression].
  apply el_wp_bind, wp_get.
  destruct (Nat.leb_spec MAX_EXPRESSION_NESTING_DEPTH (depth s)) as [|Hlt]; [done|].
  apply el_wp_bind. unfold modify. change (wp (mret tt) (mkParser (pos s) (S (depth s)))
    (fun _ s' => wp (ast ← parse_conditional input (parse_expression input levels);
       modify (fun s0 => mkParser (pos s0) (pred (depth s0))) ;; mret ast) s' (read s))).
  apply el_wp_ret, el_wp_bind.
  eapply el_wp_mono; [apply (parses_conditional (S d)); [apply IH; lia|exact Hs|simpl; congruence]|].
  intros a s1 [Ha [M1 D1]]. simpl in *. split; [done|]. split; simpl; [done|]. rewrite D1. done.
Qed.
End Total.

Lemma el_parse_wp inner :
  match el_parse inner with
  | Ok ast => scalar_literals ast = true
  | Err PNone => True
  | Err PPanicked => ~ ascii_input (String.list_ascii_of_string inner)
  | Err PExhausted => False
  end.
Proof.
  set (l := String.list_ascii_of_string inner).
  pose proof (parses_expression l (S MAX_EXPRESSION_NESTING_DEPTH) 0
                ltac:(unfold MAX_EXPRESSION_NESTING_DEPTH; lia) (mkParser 0 0)
                ltac:(simpl; lia) eq_refl) as W.
  unfold wp in W. unfold el_parse. fold l.
  destruct (parse_expression l _ _) as [[ast|[]] s]; simpl; try done. apply W.
Qed.
