(* ===== verification/ElExpression.v ===== *)
(** * The expression language: [SimpleExpression] and composite texts

    Models the rest of [flowable-engine-common/src/el/expression.rs]: the fast
    paths, the two caches (per expression and global), the strict and lenient
    entry points and [evaluate_composite_expression].  [None] of an entry
    point would be an interpreter without fuel; [get_value_total] shows
    that it does not happen. *)
From Stdlib Require Import Ascii.
From S2P Require Import Prelude Chars Float64 Numerals Json Errors ElValues ElCompiler ElCompilerProof ElParser ElParserProof.

(** ** Compilation and the global cache *)
Definition GLOBAL_EXPRESSION_CACHE_MAX : nat := 1024.

Notation ExpressionCache := (gmap string CompiledExpression).

(** [&text[2..text.len() - 1]] of a text between [${] and a closing brace. *)
Definition expression_body (text : string) : option string :=
  strip_prefix "${" text ≫= strip_last "}".

Section Entry.
Context `{Display} `{Unicode}.

(** The part of [compile_global] that does not touch the cache. *)
Definition compile_text (text : string) : result ParseFailure CompiledExpression :=
  match expression_body text with
  | None => Err PNone
  | Some inner => compile <$> el_parse inner
  end.

Definition compile_global (text : string) (cache : ExpressionCache)
  : result ParseFailure CompiledExpression * ExpressionCache :=
  match compile_text text with
  | Ok compiled =>
      let cache := if (GLOBAL_EXPRESSION_CACHE_MAX <=? size cache) then ∅ else cache in
      (Ok compiled, <[text := compiled]> cache)
  | Err e => (Err e, cache)
  end.

(** ** Fast paths *)
Inductive FastPath : Type :=
| FastVariable (name : string)
| FastComparison (var : string) (literal : Value) (negate : bool).

Definition is_valid_identifier (s : string) : bool :=
  match String.list_ascii_of_string s with
  | [] => false
  | first :: rest => is_identifier_start first && forallb is_identifier_byte rest
  end.

Definition is_keyword (s : string) : bool :=
  eq_ignore_ascii_case s "true" || eq_ignore_ascii_case s "false" || eq_ignore_ascii_case s "null"
  || is_operator_keyword s.

Definition parse_literal_value (s : string) : option Value :=
  let s := trim s in
  if eq_ignore_ascii_case s "true" then Some (VBool true)
  else if eq_ignore_ascii_case s "false" then Some (VBool false)
  else if eq_ignore_ascii_case s "null" then Some VNull
  else match unquote double_quote s with
  | Some t => Some (VString t)
  | None =>
  match unquote single_quote s with
  | Some t => Some (VString t)
  | None =>
  match parse_i64 s with
  | Some n => Some (VNumber (number_from_i64 n))
  | None =>
  match parse_u64 s with
  | Some n => Some (VNumber (PosInt n))
  | None => x ← f64_from_str s; VNumber <$> number_from_f64 x
  end end end end.

(** The first [==] or [!=] outside brackets: the text before it, whether it
    negates, the text behind it. *)
Fixpoint find_comparison (depth : Z) (l : list ascii) : option (list ascii * bool * list ascii) :=
  match l with
  | [] => None
  | b :: l' =>
      let equals := match l' with c :: _ => Ascii.eqb c "=" | [] => false end in
      let next depth := '(before, negate, after) ← find_comparison depth l';
                        Some (b :: before, negate, after) in
      if Ascii.eqb b "(" || Ascii.eqb b "[" then next (depth + 1)%Z
      else if Ascii.eqb b ")" || Ascii.eqb b "]" then next (depth - 1)%Z
      else if Ascii.eqb b "=" && (depth =? 0)%Z && equals then Some ([], false, tail l')
      else if Ascii.eqb b "!" && (depth =? 0)%Z && equals then Some ([], true, tail l')
      else next depth
  end.

Definition detect_comparison (inner : string) : option FastPath :=
  '(before, negate, after) ← find_comparison 0 (String.list_ascii_of_string inner);
  let left_ := trim (String.string_of_list_ascii before) in
  let right_ := trim (String.string_of_list_ascii after) in
  '(var, literal_str) ← (if is_valid_identifier left_ then Some (left_, right_)
                         else if is_valid_identifier right_ then Some (right_, left_)
                         else None);
  literal ← parse_literal_value literal_str;
  Some (FastComparison var literal negate).

Definition detect_fast_path (text : string) : option FastPath :=
  inner ← expression_body (trim text);
  if is_valid_identifier inner && negb (is_keyword inner) then Some (FastVariable inner)
  else detect_comparison inner.

Section Evaluation.
Context (registry : ExpressionMethodRegistry) (scope : VariableContainer).

Definition eval_fast_path_strict (fp : FastPath) : result Stop (option Value) :=
  match fp with
  | FastVariable name => load_strict registry scope name
  | FastComparison var literal negate =>
      match resolve_variable registry scope var with
      | Some v => let eq := values_equal v literal in
                  Ok (Some (VBool (if negate then negb eq else eq)))
      | None => Err (Failed (UnknownProperty [Lit var]))
      end
  end.

Definition eval_fast_path (fp : FastPath) : option Value :=
  match fp with
  | FastVariable name => resolve_variable registry scope name
  | FastComparison var literal negate =>
      let eq := match get_variable scope var with
                | Some v => Some (values_equal v literal)
                | None => match literal with VNull => Some true | _ => None end
                end in
      (fun eq : bool => VBool (if negate then negb eq else eq)) <$> eq
  end.
End Evaluation.

(** ** [SimpleExpression] *)
Record SimpleExpression := mkExpression {
  expression_text : string;
  cached_compiled : option (option CompiledExpression);
  cached_fast_path : option (option FastPath)
}.

Definition simple_expression_new (text : string) : SimpleExpression := mkExpression text None None.

(** The state of an evaluation: the expression's own cells and the global
    cache.  A panic or exhausted fuel in the parser is kept as such. *)
Definition CacheM (A : Type) : Type := stM (SimpleExpression * ExpressionCache) ParseFailure A.

(** [OnceLock::get_or_init]. *)
Definition fast_path : CacheM (option FastPath) :=
  fun '(x, cache) =>
    match cached_fast_path x with
    | Some fp => (Ok fp, (x, cache))
    | None =>
        let fp := detect_fast_path (expression_text x) in
        (Ok fp, (mkExpression (expression_text x) (cached_compiled x) (Some fp), cache))
    end.

Definition compiled : CacheM (option CompiledExpression) :=
  fun '(x, cache) =>
    match cached_compiled x with
    | Some c => (Ok c, (x, cache))
    | None =>
        let text := trim (expression_text x) in
        let store o cache :=
          (Ok o, (mkExpression (expression_text x) (Some o) (cached_fast_path x), cache)) in
        match cache !! text with
        | Some c => store (Some c) cache
        | None =>
            match compile_global text cache with
            | (Ok c, cache) => store (Some c) cache
            | (Err PNone, cache) => store None cache
            | (Err e, cache) => (Err e, (x, cache))
            end
        end
    end.

Definition compile_failed (text : string) : result Stop (option Value) :=
  Err (Failed (CompileFailed [Lit "could not parse or compile '"; Lit text; Lit "'"])).

Section Values.
Context (registry : ExpressionMethodRegistry) (scope : VariableContainer).

(** The outcome of an entry point; [None]: out of fuel. *)
Definition get_value_strict_cached (st : SimpleExpression * ExpressionCache)
  : option (result Stop (option Value)) * (SimpleExpression * ExpressionCache) :=
  match fast_path st with
  | (Ok (Some fp), st) => (Some (eval_fast_path_strict registry scope fp), st)
  | (_, st) =>
      match compiled st with
      | (Ok (Some c), st) => (execute_strict registry scope c, st)
      | (Ok None, st) => (Some (compile_failed (expression_text st.1)), st)
      | (Err PPanicked, st) => (Some (Err (Aborted Panicked)), st)
      | (Err _, st) => (None, st)
      end
  end.

Definition get_value_cached (st : SimpleExpression * ExpressionCache)
  : option (result Panic (option Value)) * (SimpleExpression * ExpressionCache) :=
  match fast_path st with
  | (Ok (Some fp), st) => (Some (Ok (eval_fast_path registry scope fp)), st)
  | (_, st) =>
      match compiled st with
      | (Ok (Some c), st) => (execute registry scope c, st)
      | (Ok None, st) => (Some (Ok None), st)
      | (Err PPanicked, st) => (Some (Err Panicked), st)
      | (Err _, st) => (None, st)
      end
  end.

(** ** What the entry points compute, without the caches *)
Definition get_value_strict (text : string) : option (result Stop (option Value)) :=
  match detect_fast_path text with
  | Some fp => Some (eval_fast_path_strict registry scope fp)
  | None =>
      match compile_text (trim text) with
      | Ok c => execute_strict registry scope c
      | Err PNone => Some (compile_failed text)
      | Err PPanicked => Some (Err (Aborted Panicked))
      | Err PExhausted => None
      end
  end.

Definition get_value (text : string) : option (result Panic (option Value)) :=
  match detect_fast_path text with
  | Some fp => Some (Ok (eval_fast_path registry scope fp))
  | None =>
      match compile_text (trim text) with
      | Ok c => execute registry scope c
      | Err PNone => Some (Ok None)
      | Err PPanicked => Some (Err Panicked)
      | Err PExhausted => None
      end
  end.

(** ** Composite texts, on characters: every byte the source looks for is ASCII *)
Definition value_to_composite_string (v : Value) : string :=
  match v with
  | VString s => s
  | VNull => EmptyString
  | VBool b => if b then "true" else "false"
  | other => value_to_string other
  end.

(** The body of a segment and what follows its closing brace. *)
Fixpoint segment_end (depth : nat) (cs : list Z) : option (list Z * list Z) :=
  match cs with
  | [] => None
  | c :: cs =>
      let next depth := '(inner, rest) ← segment_end depth cs; Some (c :: inner, rest) in
      if (c =? byte_of "{")%Z then next (S depth)
      else if (c =? byte_of "}")%Z then
        match depth with
        | 0 | 1 => Some ([], cs)
        | S depth => next depth
        end
      else next depth
  end.

Definition dollar : Z := byte_of "$".
Definition brace : Z := byte_of "{".
Definition backslash : Z := 92%Z.

Definition segment_text (inner : list Z) : string :=
  of_chars (dollar :: brace :: inner ++ [byte_of "}"]).

(** What a segment contributes. *)
Definition segment_value (inner : list Z) : option (result Stop (list Z)) :=
  match get_value_strict (segment_text inner) with
  | Some (Ok (Some v)) => Some (Ok (chars (value_to_composite_string v)))
  | Some (Ok None) => Some (Ok [])
  | Some (Err e) => Some (Err e)
  | None => None
  end.

Definition escapes (cs : list Z) : bool :=
  match cs with
  | a :: b :: c :: _ => (a =? backslash)%Z && (b =? dollar)%Z && (c =? brace)%Z
  | _ => false
  end.

Definition opens (cs : list Z) : bool :=
  match cs with
  | a :: b :: _ => (a =? dollar)%Z && (b =? brace)%Z
  | _ => false
  end.

Definition unclosed (text : string) : Message :=
  [Lit "unclosed '${' in composite expression: "; Lit text].

Fixpoint composite_loop (fuel : nat) (text : string) (cs out : list Z)
  : option (result Stop (list Z)) :=
  match fuel with
  | O => None
  | S fuel =>
      match cs with
      | [] => Some (Ok out)
      | ch :: cs1 =>
          if escapes cs then composite_loop fuel text (drop 3 cs) (out ++ [dollar; brace])
          else if opens cs then
            match segment_end 1 (drop 2 cs) with
            | None => Some (Err (Failed (CompileFailed (unclosed text))))
            | Some (inner, rest) =>
                match segment_value inner with
                | Some (Ok v) => composite_loop fuel text rest (out ++ v)
                | other => other
                end
            end
          else composite_loop fuel text cs1 (out ++ [ch])
      end
  end.

Definition evaluate_composite_expression (text : string) : option (result Stop string) :=
  match composite_loop (S (length (chars text))) text (chars text) [] with
  | Some r => Some (of_chars <$> r)
  | None => None
  end.
End Values.
End Entry.

(** ** Totality *)
Section Totality.
Context `{Display} `{Unicode}.

(** A literal of the tree that the bytecode cannot hold is an integer above
    [i64::MAX]; the parser produces no other. *)
Fixpoint within_i64 (ast : ExpressionAst) : bool :=
  match ast with
  | ALiteral (VNumber (PosInt n)) => (n <=? i64_max)%Z
  | ALiteral _ | AVariable _ => true
  | AConditional a b c => within_i64 a && within_i64 b && within_i64 c
  | AOr l r | AAnd l r | AEqual l r | ANotEqual l r | ALessEq l r | AGreaterEq l r
  | ALess l r | AGreater l r | AAdd l r | ASub l r | AMul l r | ADiv l r | AMod l r
  | AIndex l r => within_i64 l && within_i64 r
  | ANot x | ANeg x | AEmpty x | AProperty x _ => within_i64 x
  | AMethodCall b _ args => within_i64 b && forallb within_i64 args
  end.

Lemma scalar_exact ast :
  scalar_literals ast = true -> within_i64 ast = true -> exact_literals ast = true.
Proof.
  induction ast using Ast_nested_ind; simpl; rewrite ?andb_true_iff; try tauto.
  - destruct v as [|b|[n|n|f]|s| |]; simpl; try done; intros; lia.
  - intros [Hb Ha] [Wb Wa]. split; [auto|]. rewrite forallb_forall in *. intros x Hx.
    rewrite Forall_forall in *. apply list_elem_of_In in Hx as Hx'. auto.
Qed.

(** The parser is total.  On every text the fuel suffices; a panic needs
    a byte beyond ASCII; and the literals of a parsed tree are scalars that
    JSON can hold. *)
Theorem el_parse_total inner :
  el_parse inner ≠ Err PExhausted
  /\ (Forall (fun a => (byte_of a < 128)%Z) (String.list_ascii_of_string inner) ->
      el_parse inner ≠ Err PPanicked)
  /\ forall ast, el_parse inner = Ok ast -> scalar_literals ast = true.
Proof.
  pose proof (el_parse_wp inner) as W. destruct (el_parse inner) as [ast|[]]; [..|done].
  - split; [done|]. split; [done|]. by intros a [= <-].
  - split; [done|]. split; done.
  - split; [done|]. split; [|done]. intros Ha. by destruct W.
Qed.

(** C31: strict evaluation of a compiled text is evaluation of its tree: for
    every text that parses, with integer literals within [i64], and every
    scope, running the bytecode gives what the tree denotes. *)
Theorem compile_text_correct registry scope text inner ast :
  expression_body text = Some inner -> el_parse inner = Ok ast -> within_i64 ast = true ->
  exists c, compile_text text = Ok c
    /\ execute_strict registry scope c = Some (evaluate_strict registry scope ast).
Proof.
  intros Hb Hp Hw. exists (compile ast). split; [unfold compile_text; by rewrite Hb, Hp|].
  pose proof (el_parse_wp inner) as W. rewrite Hp in W.
  rewrite <- denote_strict by (by apply scalar_exact). apply execute_strict_total.
Qed.
End Totality.

(** ** The caches are transparent *)
Section Caches.
Context `{Display} `{Unicode} (registry : ExpressionMethodRegistry) (scope : VariableContainer).

(** Every entry of the global cache is what compiling its key gives, and the
    cache is bounded. *)
Definition cache_ok (cache : ExpressionCache) : Prop :=
  map_Forall (fun text c => compile_text text = Ok c) cache
  /\ size cache <= GLOBAL_EXPRESSION_CACHE_MAX.

(** The cells of an expression hold what they would be initialised with. *)
Definition cells_ok (x : SimpleExpression) : Prop :=
  (forall fp, cached_fast_path x = Some fp -> fp = detect_fast_path (expression_text x))
  /\ (forall o, cached_compiled x = Some o ->
       compile_text (trim (expression_text x)) = match o with Some c => Ok c | None => Err PNone end).

Lemma cells_ok_new text : cells_ok (simple_expression_new text).
Proof. by split. Qed.
Lemma cache_ok_empty : cache_ok ∅.
Proof. split; [apply map_Forall_empty|]. rewrite map_size_empty. unfold GLOBAL_EXPRESSION_CACHE_MAX. lia. Qed.

Lemma compile_global_ok text cache :
  cache_ok cache -> cache_ok (compile_global text cache).2 /\ (compile_global text cache).1 = compile_text text.
Proof.
  intros [Hc Hs]. unfold compile_global. destruct (compile_text text) as [c|e] eqn:E; [|by split].
  cbn [fst snd]. split; [|done]. destruct (Nat.leb_spec GLOBAL_EXPRESSION_CACHE_MAX (size cache)); split.
  - apply map_Forall_insert_2; [done|apply map_Forall_empty].
  - rewrite insert_empty, map_size_singleton. unfold GLOBAL_EXPRESSION_CACHE_MAX. lia.
  - by apply map_Forall_insert_2.
  - rewrite map_size_insert. destruct (cache !! text); [done|lia].
Qed.

Lemma fast_path_ok x cache :
  cells_ok x ->
  exists x', fast_path (x, cache) = (Ok (detect_fast_path (expression_text x)), (x', cache))
    /\ cells_ok x' /\ expression_text x' = expression_text x.
Proof.
  intros Hx. unfold fast_path. destruct (cached_fast_path x) as [fp|] eqn:E.
  - exists x. destruct Hx as [Hf Hx]. by rewrite (Hf _ E).
  - eexists. split; [done|]. split; [|done]. destruct Hx as [_ Hx]. split; simpl; [by intros fp [= <-]|done].
Qed.

Lemma compiled_ok x cache :
  cells_ok x -> cache_ok cache ->
  exists r x' cache', compiled (x, cache) = (r, (x', cache'))
    /\ cells_ok x' /\ cache_ok cache' /\ expression_text x' = expression_text x
    /\ compile_text (trim (expression_text x)) =
       match r with Ok (Some c) => Ok c | Ok None => Err PNone | Err e => Err e end
    /\ r ≠ Err PNone.
Proof.
  intros Hx Hc. unfold compiled. destruct (cached_compiled x) as [o|] eqn:E.
  { eexists _, _, _. split_and!; [done..| |done]. rewrite (proj2 Hx _ E). by destruct o. }
  assert (Hcell : forall o, compile_text (trim (expression_text x)) =
                    match o with Some c => Ok c | None => Err PNone end ->
                  cells_ok (mkExpression (expression_text x) (Some o) (cached_fast_path x))).
  { intros o Ho. split; simpl; [apply Hx|by intros o' [= <-]]. }
  destruct (cache !! trim (expression_text x)) as [c|] eqn:Ec.
  { apply Hc in Ec as Ec'. simpl in Ec'. eexists _, _, _. split_and!; [done|by apply Hcell|done..]. }
  destruct (compile_global_ok (trim (expression_text x)) cache Hc) as [Hc' Hr].
  destruct (compile_global _ cache) as [[c|[]] cache']; simpl in *;
    (eexists _, _, _; split_and!; [done|first [by apply Hcell|done]|done..]).
Qed.

(** The caches do not change a result.  From any state the caches can be
    in, strict evaluation gives what compiling the text afresh gives, and
    leaves the caches in such a state; the global cache stays within its
    bound. *)
Theorem get_value_strict_cached_correct x cache :
  cells_ok x -> cache_ok cache ->
  exists x' cache',
    get_value_strict_cached registry scope (x, cache)
    = (get_value_strict registry scope (expression_text x), (x', cache'))
    /\ cells_ok x' /\ cache_ok cache' /\ expression_text x' = expression_text x.
Proof.
  intros Hx Hc. unfold get_value_strict_cached, get_value_strict.
  destruct (fast_path_ok x cache Hx) as (x1 & -> & Hx1 & T1).
  destruct (detect_fast_path (expression_text x)) as [fp|]; [by exists x1, cache|].
  destruct (compiled_ok x1 cache Hx1 Hc) as (r & x2 & cache2 & -> & Hx2 & Hc2 & T2 & Er & Hr).
  rewrite T1 in Er. rewrite Er, <- T1, <- T2. exists x2, cache2.
  by destruct r as [[c|]|[]].
Qed.

Lemma compile_text_inv text c : compile_text text = Ok c -> exists ast, c = compile ast.
Proof.
  unfold compile_text. destruct (expression_body text) as [inner|]; [|done].
  destruct (el_parse inner) as [ast|e]; simpl; [|done]. intros [= <-]. eauto.
Qed.

Lemma compile_text_exhausted text : compile_text text ≠ Err PExhausted.
Proof.
  unfold compile_text. destruct (expression_body text) as [inner|]; [|done].
  pose proof (el_parse_wp inner) as W. destruct (el_parse inner) as [ast|[]]; simpl; done.
Qed.

Lemma strict_returns text : get_value_strict registry scope text ≠ None.
Proof.
  unfold get_value_strict. destruct (detect_fast_path text); [done|].
  pose proof (compile_text_exhausted (trim text)) as Hx.
  destruct (compile_text (trim text)) as [c|[]] eqn:E; try done.
  destruct (compile_text_inv _ _ E) as [ast ->]. by rewrite execute_strict_total.
Qed.

(** Evaluation is total.  For every text and scope the strict and the
    lenient entry point return: neither the parser nor the interpreter runs
    for ever. *)
Theorem get_value_total text :
  get_value_strict registry scope text ≠ None /\ get_value registry scope text ≠ None.
Proof.
  split; [apply strict_returns|]. unfold get_value. destruct (detect_fast_path text); [done|].
  pose proof (compile_text_exhausted (trim text)) as Hx.
  destruct (compile_text (trim text)) as [c|[]] eqn:E; try done.
  destruct (compile_text_inv _ _ E) as [ast ->]. by rewrite execute_total.
Qed.
End Caches.

(** ** Composite texts *)
Section Composite.
Context `{Display} `{Unicode} (registry : ExpressionMethodRegistry) (scope : VariableContainer).

(** The pieces of a composite text, and the text each stands for. *)
Inductive piece : Type :=
| Plain (c : Z)
| Escaped
| Segment (inner : list Z).

Inductive pieces : list Z -> list piece -> Prop :=
| pieces_nil : pieces [] []
| pieces_plain c cs ps :
    escapes (c :: cs) = false -> opens (c :: cs) = false -> pieces cs ps ->
    pieces (c :: cs) (Plain c :: ps)
| pieces_escaped cs ps :
    pieces cs ps -> pieces (backslash :: dollar :: brace :: cs) (Escaped :: ps)
| pieces_segment cs inner rest ps :
    segment_end 1 cs = Some (inner, rest) -> pieces rest ps ->
    pieces (dollar :: brace :: cs) (Segment inner :: ps).

Definition piece_value (p : piece) : option (result Stop (list Z)) :=
  match p with
  | Plain c => Some (Ok [c])
  | Escaped => Some (Ok [dollar; brace])
  | Segment inner => segment_value registry scope inner
  end.

(** The values in order, up to the first that fails. *)
Fixpoint pieces_value (ps : list piece) : option (result Stop (list Z)) :=
  match ps with
  | [] => Some (Ok [])
  | p :: ps =>
      match piece_value p with
      | Some (Ok v) => match pieces_value ps with
                       | Some (Ok vs) => Some (Ok (v ++ vs))
                       | other => other
                       end
      | other => other
      end
  end.

Lemma segment_end_length d cs inner rest :
  segment_end d cs = Some (inner, rest) -> length rest < length cs.
Proof.
  revert d inner. induction cs as [|c cs IH]; intros d inner; simpl; [done|].
  assert (Hnext : forall d, ('(i, r) ← segment_end d cs; Some (c :: i, r)) = Some (inner, rest) ->
                            length rest < S (length cs)).
  { intros d'. destruct (segment_end d' cs) as [[i r]|] eqn:E; simpl; [|done].
    intros [= <- <-]. apply IH in E. lia. }
  destruct (c =? byte_of "{")%Z; [apply Hnext|]. destruct (c =? byte_of "}")%Z; [|apply Hnext].
  destruct d as [|[|d]]; [| |apply Hnext]; intros [= <- <-]; lia.
Qed.

Lemma composite_loop_pieces text cs ps :
  pieces cs ps -> forall fuel out, length cs < fuel ->
  composite_loop registry scope fuel text cs out
  = match pieces_value ps with Some (Ok v) => Some (Ok (out ++ v)) | other => other end.
Proof.
  induction 1 as [|c cs ps He Ho _ IH|cs ps _ IH|cs inner rest ps Hs _ IH];
    intros [|fuel] out Hf; simpl in Hf; try lia; cbn [composite_loop].
  - simpl. by rewrite app_nil_r.
  - rewrite He, Ho, IH by lia. simpl. destruct (pieces_value ps) as [[vs|e]|]; [|done..].
    by rewrite <- app_assoc.
  - simpl. rewrite IH by lia. destruct (pieces_value ps) as [[vs|e]|]; [|done..].
    by rewrite <- app_assoc.
  - assert (escapes (dollar :: brace :: cs) = false) as -> by (by destruct cs).
    change (opens (dollar :: brace :: cs)) with true. cbv iota. change (drop 2 (dollar :: brace :: cs)) with cs.
    rewrite Hs. simpl. destruct (segment_value registry scope inner) as [[v|e]|]; [|done..].
    apply segment_end_length in Hs. rewrite IH by lia.
    destruct (pieces_value ps) as [[vs|e]|]; [|done..]. by rewrite <- app_assoc.
Qed.

(** A composite text is its pieces: plain characters are copied, an
    escaped opening brace yields its two characters, a segment yields the text
    of its strict value, and the first segment that fails is the result. *)
Theorem composite_correct text ps :
  pieces (chars text) ps ->
  evaluate_composite_expression registry scope text
  = match pieces_value ps with
    | Some (Ok cs) => Some (Ok (of_chars cs))
    | Some (Err e) => Some (Err e)
    | None => None
    end.
Proof.
  intros Hp. unfold evaluate_composite_expression.
  rewrite (composite_loop_pieces _ _ _ Hp) by lia. by destruct (pieces_value ps) as [[cs|e]|].
Qed.
End Composite.

(** ** Examples and boundary behaviour *)
#[local] Existing Instance plain_display.
#[local] Existing Instance ascii_only.

Definition person : VariableContainer :=
  map_container (<["x" := VString "z"]> {["y" := VString "b"]}).

Lemma compile_text_correct_witness :
  exists c, compile_text "${x == 'z' && y.length() < 2}" = Ok c
    /\ execute_strict registry_new person c = Some (Ok (Some (VBool true))).
Proof.
  destruct (compile_text_correct registry_new person "${x == 'z' && y.length() < 2}"
              "x == 'z' && y.length() < 2"
              (AAnd (AEqual (AVariable "x") (ALiteral (VString "z")))
                    (ALess (AMethodCall (AVariable "y") "length" []) (int_literal 2))))
    as (c & Hc & Hr); [vm_compute; reflexivity..|].
  exists c. split; [done|]. rewrite Hr. vm_compute. reflexivity.
Defined.

Lemma get_value_strict_cached_correct_witness :
  exists x' cache',
    get_value_strict_cached registry_new person (simple_expression_new "${x + y}", ∅)
    = (Some (Err (Failed (EvalFailed (cannot_coerce "left" "+")))), (x', cache'))
    /\ size cache' <= 1024.
Proof.
  destruct (get_value_strict_cached_correct registry_new person (simple_expression_new "${x + y}") ∅
              (cells_ok_new _) cache_ok_empty) as (x' & cache' & E & _ & Hc & _).
  exists x', cache'. rewrite E. split; [vm_compute; reflexivity|apply Hc].
Defined.

Lemma composite_correct_witness :
  evaluate_composite_expression registry_new person "\${${y}"
  = Some (Ok "${b"%string).
Proof.
  rewrite (composite_correct registry_new person "\${${y}" [Escaped; Segment [121%Z]]).
  - vm_compute. reflexivity.
  - vm_compute. apply pieces_escaped. eapply pieces_segment; [vm_compute; reflexivity|constructor].
Defined.

(** The comparison fast path splits the text at the first [==] and accepts as
    a string literal whatever lies between a first and a last quote, so an
    alternative of two comparisons is taken for one: the code answers false
    where the expression is true. *)
Theorem fast_path_swallows_operators :
  exists ast, el_parse "x == 'a' || y == 'b'" = Ok ast
    /\ evaluate_strict registry_new person ast = Ok (Some (VBool true))
    /\ get_value_strict registry_new person "${x == 'a' || y == 'b'}"
       = Some (Ok (Some (VBool false))).
Proof. eexists. split; [vm_compute; reflexivity|]. vm_compute. split; reflexivity. Qed.

(** A literal keyword on the left of a comparison is looked up as a variable. *)
Theorem fast_path_reads_keyword :
  evaluate_strict registry_new person (AEqual (ALiteral (VBool true)) (ALiteral (VBool true)))
  = Ok (Some (VBool true))
  /\ get_value_strict registry_new person "${true == true}"
     = Some (Err (Failed (UnknownProperty [Lit "true"]))).
Proof. vm_compute. split; reflexivity. Qed.

(** Slices of two and three bytes are taken without regard to character
    boundaries: an identifier of one ASCII letter followed by a character of
    three bytes, or a two-byte operator position before one, panics. *)
Theorem non_ascii_panics :
  get_value_strict registry_new person "${n通 > 1}" = Some (Err (Aborted Panicked))
  /\ get_value_strict registry_new person "${x?通:y}" = Some (Err (Aborted Panicked)).
Proof. vm_compute. split; reflexivity. Qed.

(** The remainder of the least [i64] by [-1] overflows, which Rust answers
    with a panic. *)
Theorem remainder_overflow_panics :
  get_value_strict registry_new person "${-9223372036854775808 % -1}" = Some (Err (Aborted Panicked)).
Proof. vm_compute. reflexivity. Qed.

(** What follows a complete expression is ignored. *)
Theorem trailing_text_ignored :
  el_parse "x y" = el_parse "x" /\ el_parse "(x" = el_parse "(x)".
Proof. vm_compute. split; reflexivity. Qed.

(** The lenient comparison reads the variable without the root objects, the
    strict one with them. *)
Theorem lenient_comparison_ignores_root_objects :
  let scope := mkScope (fun _ => None) (Some "acme"%string) None in
  get_value registry_new scope "${currentTenantId == 'acme'}" = Some (Ok None)
  /\ get_value_strict registry_new scope "${currentTenantId == 'acme'}"
     = Some (Ok (Some (VBool true))).
Proof. vm_compute. split; reflexivity. Qed.
