(* ===== verification/ElFastPath.v ===== *)
(** * The expression language: the variable fast path

    [${name}] skips the parser.  [variable_fast_path_correct]: for a plain
    identifier the two agree, because the parser reads an identifier as the
    variable of that name ([el_parse_identifier]). *)
From Stdlib Require Import Ascii.
From S2P Require Import Prelude Chars Float64 Numerals Json Errors ElValues ElCompiler ElCompilerProof ElParser ElParserProof ElExpression.

(** ** At the end of the input every loop stops *)
Section AtEnd.
Context (input : list ascii) (d : nat).

Notation final := (mkParser (length input) d).

Lemma skip_whitespace_end : skip_whitespace input final = (Ok tt, final).
Proof.
  unfold skip_whitespace, mbind, stM_bind, get, set_pos, modify. simpl.
  rewrite drop_ge by lia. simpl. by rewrite Nat.add_0_r.
Qed.

Lemma slice_end : slice input (length input) (length input) final = (Ok EmptyString, final).
Proof.
  unfold slice. rewrite !Nat.leb_refl. unfold is_char_boundary.
  rewrite Nat.eqb_refl, orb_true_r. simpl. rewrite drop_ge, take_nil by lia. done.
Qed.

Lemma peek_end : peek input final = (Ok None, final).
Proof. unfold peek, mbind, stM_bind, get. simpl. by rewrite slice_end. Qed.

Lemma take_char_end a : take_char input a final = (Ok false, final).
Proof. unfold take_char, mbind, stM_bind. by rewrite peek_end. Qed.

Lemma consume_end a : consume input a final = (Ok false, final).
Proof. unfold consume, mbind, stM_bind. by rewrite skip_whitespace_end, take_char_end. Qed.

Lemma match_keyword_end k : match_keyword input k final = (Ok false, final).
Proof.
  unfold match_keyword, mbind, stM_bind, get. simpl. by rewrite lookup_ge_None_2 by lia.
Qed.

Lemma take_keyword_end {A} (ks : list (string * A)) : take_keyword input ks final = (Ok None, final).
Proof.
  induction ks as [|[k a] ks IH]; [done|]. simpl. unfold mbind, stM_bind.
  by rewrite match_keyword_end.
Qed.

Lemma take_two_char_end table : take_two_char input table final = (Ok None, final).
Proof.
  unfold take_two_char, two_char, mbind, stM_bind, get. simpl.
  destruct (Nat.ltb_spec (length input + 1) (length input)); [lia|done].
Qed.

Ltac operator_end :=
  unfold or_operator, and_operator, equality_operator, comparison_operator, addition_operator,
    multiplication_operator, mbind, stM_bind, get;
  rewrite ?take_two_char_end, ?peek_end; cbn [is_char pos]; rewrite ?lookup_ge_None_2 by lia;
  first [apply take_keyword_end | reflexivity].

Lemma or_operator_end : or_operator input final = (Ok None, final).
Proof. operator_end. Qed.
Lemma and_operator_end : and_operator input final = (Ok None, final).
Proof. operator_end. Qed.
Lemma equality_operator_end : equality_operator input final = (Ok None, final).
Proof. operator_end. Qed.
Lemma comparison_operator_end : comparison_operator input final = (Ok None, final).
Proof. operator_end. Qed.
Lemma addition_operator_end : addition_operator input final = (Ok None, final).
Proof. operator_end. Qed.
Lemma multiplication_operator_end : multiplication_operator input final = (Ok None, final).
Proof. operator_end. Qed.

Lemma binary_level_end operator operand s a :
  operator final = (Ok None, final) -> operand s = (Ok a, final) ->
  binary_level input operator operand s = (Ok a, final).
Proof.
  intros Hop Ha. unfold binary_level, turns. cbn [binary_loop]. unfold mbind, stM_bind.
  by rewrite Ha, skip_whitespace_end, Hop.
Qed.

Lemma suffix_chain_end expression n a :
  parse_suffix_chain input expression (S n) a final = (Ok a, final).
Proof. cbn [parse_suffix_chain]. unfold mbind, stM_bind. by rewrite skip_whitespace_end, peek_end. Qed.

(** A unary operand that ends the input is the whole expression. *)
Lemma conditional_end expression s a :
  parse_unary input expression (turns input) s = (Ok a, final) ->
  parse_conditional input expression s = (Ok a, final).
Proof.
  intros Ha. unfold parse_conditional, mbind, stM_bind.
  assert (parse_or input expression s = (Ok a, final)) as ->.
  { apply binary_level_end; [apply or_operator_end|].
    apply binary_level_end; [apply and_operator_end|].
    apply binary_level_end; [apply equality_operator_end|].
    apply binary_level_end; [apply comparison_operator_end|].
    apply binary_level_end; [apply addition_operator_end|].
    by apply binary_level_end; [apply multiplication_operator_end|]. }
  by rewrite skip_whitespace_end, consume_end.
Qed.
End AtEnd.

Lemma parse_expression_enter input levels s ast s' :
  depth s < MAX_EXPRESSION_NESTING_DEPTH ->
  parse_conditional input (parse_expression input levels) (mkParser (pos s) (S (depth s))) = (Ok ast, s') ->
  parse_expression input (S levels) s = (Ok ast, mkParser (pos s') (pred (depth s'))).
Proof.
  intros Hd Hc. cbn [parse_expression]. unfold mbind, stM_bind, get, modify.
  rewrite (proj2 (Nat.leb_gt _ _) Hd). by rewrite Hc.
Qed.

(** ** Identifiers *)
Definition identifier (l : list ascii) : Prop :=
  match l with
  | [] => False
  | a :: rest => is_identifier_start a = true /\ Forall (fun b => is_identifier_byte b = true) rest
  end.

Lemma is_valid_identifier_spec s :
  is_valid_identifier s = true <-> identifier (String.list_ascii_of_string s).
Proof.
  unfold is_valid_identifier, identifier. destruct (String.list_ascii_of_string s) as [|a l]; [done|].
  rewrite andb_true_iff, forallb_forall, Forall_forall. setoid_rewrite list_elem_of_In. done.
Qed.

(** Every byte of an identifier is one of 63; a fact about all of them is
    checked by enumeration. *)
Lemma identifier_byte_cases (p : ascii -> bool) :
  forallb (fun n => implb (is_identifier_byte (ascii_of_nat n)) (p (ascii_of_nat n))) (seq 0 256) = true ->
  forall a, is_identifier_byte a = true -> p a = true.
Proof.
  intros H a Ha. rewrite forallb_forall in H.
  specialize (H (nat_of_ascii a)). rewrite ascii_nat_embedding, Ha in H. cbn [implb] in H. apply H.
  apply in_seq. pose proof (nat_ascii_bounded a). lia.
Qed.

Lemma identifier_start_byte a : is_identifier_start a = true -> is_identifier_byte a = true.
Proof. unfold is_identifier_start, is_identifier_byte. rewrite !orb_true_iff. tauto. Qed.

Lemma identifier_bytes l : identifier l -> Forall (fun b => is_identifier_byte b = true) l.
Proof. destruct l as [|a l]; simpl; [done|]. intros [Ha Hl]. constructor; [by apply identifier_start_byte|done]. Qed.

Lemma identifier_byte_ascii a : is_identifier_byte a = true -> (byte_of a < 128)%Z.
Proof.
  intros Ha. apply Z.ltb_lt. revert a Ha. apply identifier_byte_cases. vm_compute. reflexivity.
Qed.
Lemma identifier_byte_plain a :
  is_identifier_byte a = true ->
  is_ascii_whitespace a = false /\ is_delimiter a = false /\ is_whitespace (byte_of a) = false
  /\ Ascii.eqb a "(" = false /\ Ascii.eqb a ")" = false /\ Ascii.eqb a "." = false
  /\ Ascii.eqb a "!" = false /\ Ascii.eqb a "-" = false
  /\ Ascii.eqb a single_quote = false /\ Ascii.eqb a double_quote = false.
Proof.
  intros Ha. pose proof (identifier_byte_cases (fun a =>
    negb (is_ascii_whitespace a || is_delimiter a || is_whitespace (byte_of a)
          || Ascii.eqb a "(" || Ascii.eqb a ")" || Ascii.eqb a "." || Ascii.eqb a "!"
          || Ascii.eqb a "-" || Ascii.eqb a single_quote || Ascii.eqb a double_quote))
    ltac:(vm_compute; reflexivity) a Ha) as H.
  rewrite negb_true_iff, !orb_false_iff in H. tauto.
Qed.

Lemma trim_plain l :
  Forall (fun a => is_identifier_byte a = true) l -> trim (text l) = text l.
Proof.
  intros Hl. apply trim_visible. eapply Forall_impl; [exact Hl|].
  intros a H. split; [by apply identifier_byte_ascii|by apply identifier_byte_plain].
Qed.

(** ** The parser on an identifier *)
Section Identifier.
Context (l : list ascii) (Hid : identifier l).

Lemma id_bytes : Forall (fun b => is_identifier_byte b = true) l.
Proof. by apply identifier_bytes. Qed.
Lemma id_ascii : ascii_input l.
Proof. eapply Forall_impl; [apply id_bytes|]. apply identifier_byte_ascii. Qed.

Lemma id_first : exists a rest, l = a :: rest /\ is_identifier_start a = true.
Proof. destruct l as [|a rest]; [done|]. destruct Hid. eauto. Qed.

Lemma slice_ok a b s : a <= b <= length l -> slice l a b s = (Ok (text (take (b - a) (drop a l))), s).
Proof.
  intros [H1 H2]. unfold slice. rewrite (proj2 (Nat.leb_le _ _) H1), (proj2 (Nat.leb_le _ _) H2).
  by rewrite !boundary_ascii by (apply id_ascii || lia).
Qed.

Lemma skip_whitespace_start d : skip_whitespace l (mkParser 0 d) = (Ok tt, mkParser 0 d).
Proof.
  destruct id_first as (a & rest & E & Ha). unfold skip_whitespace, mbind, stM_bind, get, set_pos, modify.
  simpl. rewrite drop_0, E. simpl. apply identifier_start_byte, identifier_byte_plain in Ha as [-> _]. done.
Qed.

Lemma peek_start d :
  exists a rest, l = a :: rest /\ is_identifier_byte a = true
    /\ peek l (mkParser 0 d) = (Ok (Some (byte_of a)), mkParser 0 d).
Proof.
  destruct id_first as (a & rest & E & Ha). exists a, rest.
  split_and!; [done|by apply identifier_start_byte|].
  unfold peek, mbind, stM_bind, get. cbn [pos]. rewrite slice_ok by lia.
  rewrite drop_0, Nat.sub_0_r, take_ge by lia. rewrite chars_ascii by apply id_ascii. by rewrite E.
Qed.

Lemma is_char_other a c : Ascii.eqb a c = false -> is_char c (Some (byte_of a)) = false.
Proof.
  intros H. simpl. apply Z.eqb_neq. intros E. apply Ascii.eqb_neq in H. apply H.
  unfold byte_of in E. apply N2Z.inj in E. by rewrite <- (ascii_N_embedding a), <- E, ascii_N_embedding.
Qed.

Lemma take_char_start c d :
  (forall a, is_identifier_byte a = true -> Ascii.eqb a c = false) ->
  take_char l c (mkParser 0 d) = (Ok false, mkParser 0 d).
Proof.
  intros Hc. destruct (peek_start d) as (a & rest & E & Ha & Hp).
  unfold take_char, mbind, stM_bind. by rewrite Hp, is_char_other by auto.
Qed.

Lemma match_keyword_start k d :
  text l ≠ k -> match_keyword l k (mkParser 0 d) = (Ok false, mkParser 0 d).
Proof.
  intros Hk. destruct id_first as (a & rest & E & Ha).
  unfold match_keyword, mbind, stM_bind, get. cbn [pos].
  assert (l !! 0 = Some a) as -> by (by rewrite E). rewrite Ha. cbn [negb Nat.add].
  destruct (Nat.ltb_spec (length l) (String.length k)); [done|].
  rewrite slice_ok by lia. rewrite drop_0, Nat.sub_0_r.
  case_bool_decide as Et; [|done]. cbn [negb].
  destruct (l !! String.length k) as [b|] eqn:Eb.
  - pose proof id_bytes as Hb. rewrite Forall_lookup in Hb. by rewrite (Hb _ _ Eb).
  - apply lookup_ge_None in Eb. by rewrite take_ge in Et by lia.
Qed.

Lemma take_keyword_start {A} (ks : list (string * A)) d :
  Forall (fun k => text l ≠ k.1) ks -> take_keyword l ks (mkParser 0 d) = (Ok None, mkParser 0 d).
Proof.
  induction 1 as [|[k a] ks Hk _ IH]; [done|]. cbn [take_keyword]. unfold mbind, stM_bind.
  by rewrite match_keyword_start.
Qed.

Lemma scan_token_all m : Forall (fun b => is_identifier_byte b = true) m -> scan_token 0 m = length m.
Proof.
  induction 1 as [|a m Ha _ IH]; [done|]. simpl.
  apply identifier_byte_plain in Ha as (_ & -> & _ & -> & -> & -> & _). simpl. by rewrite IH.
Qed.

Lemma identifier_not_number : parse_i64 (text l) = None /\ parse_u64 (text l) = None.
Proof.
  destruct id_first as (a & rest & E & Ha). rewrite E. simpl.
  assert (Hn : Ascii.eqb a "+" = false /\ Ascii.eqb a "-" = false /\ digit_value a = None).
  { assert (H : forallb (fun n => implb (is_identifier_start (ascii_of_nat n))
       (negb (Ascii.eqb (ascii_of_nat n) "+") && negb (Ascii.eqb (ascii_of_nat n) "-")
        && bool_decide (digit_value (ascii_of_nat n) = None))) (seq 0 256) = true) by (vm_compute; reflexivity).
    rewrite forallb_forall in H. specialize (H (nat_of_ascii a)). rewrite ascii_nat_embedding, Ha in H.
    cbn [implb] in H. rewrite !andb_true_iff, !negb_true_iff, bool_decide_eq_true in H.
    destruct H as [[? ?] ?]; [apply in_seq; pose proof (nat_ascii_bounded a); lia|done]. }
  destruct Hn as (H1 & H2 & H3). unfold parse_i64, parse_u64. rewrite H1, H2. simpl. by rewrite H3.
Qed.

Lemma unquote_identifier q :
  (forall a, is_identifier_byte a = true -> Ascii.eqb a q = false) -> unquote q (text l) = None.
Proof.
  intros Hq. destruct id_first as (a & rest & -> & Ha). unfold unquote. simpl.
  rewrite Ascii.eqb_sym, Hq; [done|by apply identifier_start_byte].
Qed.

Lemma parse_token_identifier :
  is_keyword (text l) = false -> f64_from_str (text l) = None ->
  parse_token (text l) = Some (AVariable (text l)).
Proof.
  intros Hk Hf. unfold parse_token. rewrite trim_plain by apply id_bytes.
  unfold is_keyword in Hk. rewrite !orb_false_iff in Hk. destruct Hk as [[[K1 K2] K3] K4].
  unfold literal_of_token. rewrite K1, K2, K3, K4.
  destruct identifier_not_number as [-> ->].
  rewrite !unquote_identifier by (intros a Ha; apply identifier_byte_plain in Ha; apply Ha). by rewrite Hf.
Qed.

Lemma parse_unary_identifier expression n d :
  is_keyword (text l) = false -> f64_from_str (text l) = None ->
  parse_unary l expression (S n) (mkParser 0 d) = (Ok (AVariable (text l)), mkParser (length l) d).
Proof.
  intros Hk Hf. cbn [parse_unary]. unfold mbind, stM_bind.
  rewrite skip_whitespace_start, !take_char_start by (intros a Ha; apply identifier_byte_plain in Ha; apply Ha).
  rewrite take_keyword_start.
  2: { unfold is_keyword in Hk. rewrite !orb_false_iff in Hk. destruct Hk as [_ K].
       apply bool_decide_eq_false in K. repeat constructor; simpl; intros E; apply K; rewrite E; set_solver. }
  unfold parse_primary, mbind, stM_bind. rewrite skip_whitespace_start.
  destruct (peek_start d) as (a & rest & E & Ha & ->).
  pose proof (identifier_byte_plain a Ha) as (_ & _ & _ & P1 & _ & _ & _ & _ & P2 & P3).
  rewrite !is_char_other by done. unfold get, set_pos, modify. cbn [pos depth].
  rewrite drop_0, scan_token_all by apply id_bytes. cbn [Nat.add].
  rewrite slice_ok by lia. rewrite drop_0, Nat.sub_0_r, take_ge by lia.
  rewrite trim_plain by apply id_bytes. rewrite bool_decide_false by (by rewrite E).
  rewrite parse_token_identifier by done. apply suffix_chain_end.
Qed.

Lemma el_parse_identifier :
  is_keyword (text l) = false -> f64_from_str (text l) = None ->
  el_parse (text l) = Ok (AVariable (text l)).
Proof.
  intros Hk Hf. unfold el_parse. rewrite String.list_ascii_of_string_of_list_ascii.
  erewrite parse_expression_enter; [done|unfold MAX_EXPRESSION_NESTING_DEPTH; simpl; lia|].
  apply conditional_end. by apply parse_unary_identifier.
Qed.
End Identifier.

(** ** Agreement *)
Section Agreement.
Context `{Display} `{Unicode} (registry : ExpressionMethodRegistry) (scope : VariableContainer).

Lemma text_bytes s : text (String.list_ascii_of_string s) = s.
Proof. apply String.string_of_list_ascii_of_string. Qed.

Lemma strip_last_snoc a s : strip_last a (String.append s (String a EmptyString)) = Some s.
Proof.
  induction s as [|b s IH]; simpl; [by rewrite Ascii.eqb_refl|].
  rewrite IH. by destruct s.
Qed.

Lemma shell_bytes name :
  String.append "${" (String.append name "}")
  = text ("$"%char :: "{"%char :: String.list_ascii_of_string name ++ ["}"%char]).
Proof.
  assert (Hs : forall s, String.append s "}" = text (String.list_ascii_of_string s ++ ["}"%char])).
  { intros s. induction s as [|a s IH]; [done|]. cbn. by rewrite <- IH. }
  cbn. by rewrite Hs.
Qed.

Lemma trim_shell name (t := String.append "${" (String.append name "}")) :
  identifier (String.list_ascii_of_string name) -> trim t = t.
Proof.
  intros Hid. unfold t. rewrite shell_bytes. apply trim_visible.
  do 2 (constructor; [by split; vm_compute|]).
  apply Forall_app. split; [|repeat constructor; by vm_compute].
  eapply Forall_impl; [by apply identifier_bytes|].
  intros a Ha. split; [by apply identifier_byte_ascii|by apply identifier_byte_plain].
Qed.

(** The variable fast path is an optimisation.  An identifier that is no
    keyword and no word for a float, between [${] and a brace, is detected as
    a variable, and its value is the one the parser, the compiler and the
    machine compute from the same text, errors included. *)
Theorem variable_fast_path_correct name (text_ := String.append "${" (String.append name "}")) :
  is_valid_identifier name = true -> is_keyword name = false -> f64_from_str name = None ->
  detect_fast_path text_ = Some (FastVariable name)
  /\ exists c, compile_text (trim text_) = Ok c
      /\ execute_strict registry scope c = get_value_strict registry scope text_.
Proof.
  intros Hv Hk Hf. pose proof Hv as Hid. apply is_valid_identifier_spec in Hid.
  assert (Hb : expression_body text_ = Some name) by apply (strip_last_snoc "}" name).
  assert (Ht : trim text_ = text_) by (by apply trim_shell).
  assert (Hd : detect_fast_path text_ = Some (FastVariable name)).
  { unfold detect_fast_path. rewrite Ht, Hb. simpl. by rewrite Hv, Hk. }
  split; [done|]. rewrite <- (text_bytes name) in Hk, Hf.
  pose proof (el_parse_identifier _ Hid Hk Hf) as Hp. rewrite text_bytes in Hp.
  exists (compile (AVariable name)). rewrite Ht. split; [unfold compile_text; by rewrite Hb, Hp|].
  unfold get_value_strict. rewrite Hd, execute_strict_total, denote_strict by done. done.
Qed.
End Agreement.

#[local] Existing Instance plain_display.
#[local] Existing Instance ascii_only.

Lemma variable_fast_path_correct_witness :
  detect_fast_path "${order_1}" = Some (FastVariable "order_1")
  /\ exists c, compile_text (trim "${order_1}") = Ok c
      /\ execute_strict registry_new (map_container {["order_1" := VBool true]}) c
         = get_value_strict registry_new (map_container {["order_1" := VBool true]}) "${order_1}".
Proof.
  apply (variable_fast_path_correct registry_new (map_container {["order_1" := VBool true]}) "order_1");
    vm_compute; reflexivity.
Defined.
