(* ===== verification/ElTypes.v ===== *)
(** * The expression language: evaluation preserves well-formed values

    A [serde_json::Number] is a [u64], a negative [i64] or a finite [f64].
    [evaluate_strict_well_formed]: every value strict evaluation produces, from
    well-formed variables and methods, has numbers of that kind only; the
    wrap-around of integers and the strings for infinities are what makes it
    so. *)
From Stdlib Require Import Ascii.
From S2P Require Import Prelude Chars Float64 Numerals Json Errors ElValues ElCompiler ElCompilerProof ElParser ElParserProof ElExpression.

Open Scope Z_scope.

Definition number_wf (n : Number) : bool :=
  match n with
  | PosInt z => (0 <=? z) && (z <=? u64_max)
  | NegInt z => (i64_min <=? z) && (z <? 0)
  | Float f => f64_is_finite f
  end.

Fixpoint value_wf (v : Value) : bool :=
  match v with
  | VNull | VBool _ | VString _ => true
  | VNumber n => number_wf n
  | VArray l => forallb value_wf l
  | VObject m => forallb (fun kv => value_wf kv.2) m
  end.

(** ** Numbers *)
Lemma number_from_i64_wf n : i64_min <= n <= i64_max -> number_wf (number_from_i64 n) = true.
Proof.
  unfold number_from_i64, i64_min, i64_max. intros H.
  destruct (Z.ltb_spec n 0); simpl; unfold u64_max, i64_min; lia.
Qed.

Lemma wrap_i64_range n : i64_min <= wrap_i64 n <= i64_max.
Proof. unfold wrap_i64, i64_min, i64_max. pose proof (Z.mod_pos_bound (n + 2 ^ 63) (2 ^ 64)). lia. Qed.
Lemma wrap_u64_range n : 0 <= wrap_u64 n <= u64_max.
Proof. unfold wrap_u64, u64_max. pose proof (Z.mod_pos_bound n (2 ^ 64)). lia. Qed.

Lemma i64_of_f64_range x : i64_min <= i64_of_f64 x <= i64_max.
Proof. unfold i64_of_f64, i64_min, i64_max. destruct x as [| [] | |s m e]; lia. Qed.

Lemma number_as_i64_range n z :
  number_wf n = true -> number_as_i64 n = Some z -> i64_min <= z <= i64_max.
Proof.
  unfold number_as_i64, i64_min, i64_max. destruct n as [m|m|f]; simpl; [| |done].
  - unfold i64_max. destruct (Z.leb_spec m (2 ^ 63 - 1)); [|done]. intros [H1 H2]%andb_prop [= <-]. lia.
  - unfold i64_min. intros [H1 H2]%andb_prop [= <-]. lia.
Qed.
Lemma number_as_u64_range n z : number_wf n = true -> number_as_u64 n = Some z -> 0 <= z <= u64_max.
Proof. destruct n; simpl; try done. intros [H1 H2]%andb_prop [= <-]. lia. Qed.

Lemma rem_i64_range x y : i64_min <= y <= i64_max -> y <> 0 -> i64_min <= Z.rem x y <= i64_max.
Proof. unfold i64_min, i64_max. intros Hy H0. pose proof (Z.rem_bound_abs x y H0). lia. Qed.

Lemma number_from_f64_wf x n : number_from_f64 x = Some n -> number_wf n = true.
Proof. unfold number_from_f64. destruct (f64_is_finite x) eqn:E; [|done]. by intros [= <-]. Qed.

#[local] Hint Resolve number_from_i64_wf wrap_i64_range i64_of_f64_range number_from_f64_wf : core.

Section Typing.
Context `{Display} `{Unicode}.

Lemma nonfinite_sentinel_wf x : value_wf (nonfinite_sentinel x) = true.
Proof.
  unfold nonfinite_sentinel.
  assert (Hd : forall y, value_wf (match number_from_f64 y with
                                   | Some n => VNumber n
                                   | None => VString (f64_to_string y)
                                   end) = true).
  { intros y. destruct (number_from_f64 y) eqn:E; simpl; eauto. }
  destruct x as [s|[]| |s m e]; try done; destruct (_ && _);
    first [apply Hd|apply number_from_i64_wf, i64_of_f64_range].
Qed.

Lemma integer_op_wf op l r v :
  value_wf l = true -> value_wf r = true -> integer_op op l r = Some (Some (Ok v)) ->
  value_wf v = true.
Proof.
  intros Hl Hr. destruct l as [| |a| | |]; try done. destruct r as [| |b| | |]; try done.
  unfold integer_op, or_else. simpl in Hl, Hr.
  assert (Hu : match number_as_u64 a, number_as_u64 b with
    | Some x, Some y =>
        if Ascii.eqb op "+" then Some (Some (Ok (VNumber (PosInt (wrap_u64 (x + y))))))
        else if Ascii.eqb op "*" then Some (Some (Ok (VNumber (PosInt (wrap_u64 (x * y))))))
        else if Ascii.eqb op "%" then
          if y =? 0 then Some (Some (Err by_zero)) else Some (Some (Ok (VNumber (PosInt (Z.rem x y)))))
        else None
    | _, _ => None end = Some (Some (Ok v)) -> value_wf v = true).
  { destruct (number_as_u64 a) as [x|] eqn:Ea; [|done]. destruct (number_as_u64 b) as [y|] eqn:Eb; [|done].
    pose proof (number_as_u64_range _ _ Hl Ea). pose proof (number_as_u64_range _ _ Hr Eb).
    pose proof (wrap_u64_range (x + y)). pose proof (wrap_u64_range (x * y)).
    repeat destruct (Ascii.eqb op _); try done.
    1-2: intros [= <-]; simpl; lia.
    destruct (Z.eqb_spec y 0); [done|]. intros [= <-]. simpl.
    pose proof (Z.rem_bound_pos x y). lia. }
  destruct (number_as_i64 a) as [x|] eqn:Ea; [|exact Hu].
  destruct (number_as_i64 b) as [y|] eqn:Eb; [|exact Hu].
  pose proof (number_as_i64_range _ _ Hr Eb) as Hy.
  destruct (Ascii.eqb op "+"); [intros [= <-]; simpl; auto|].
  destruct (Ascii.eqb op "-"); [intros [= <-]; simpl; auto|].
  destruct (Ascii.eqb op "*"); [intros [= <-]; simpl; auto|].
  destruct (Ascii.eqb op "%"); [|exact Hu].
  destruct (Z.eqb_spec y 0); [done|]. destruct (_ && _); [done|]. intros [= <-]. simpl.
  apply number_from_i64_wf. by apply rem_i64_range.
Qed.

Lemma float_op_wf op l r bd x y v : float_op op l r bd x y = Ok v -> value_wf v = true.
Proof.
  unfold float_op. intros Hv. repeat case_match; simplify_eq; apply nonfinite_sentinel_wf.
Qed.

Lemma arithmetic_op_wf op l r v :
  value_wf l = true -> value_wf r = true -> arithmetic_op l r op = Some (Ok v) -> value_wf v = true.
Proof.
  intros Hl Hr. unfold arithmetic_op.
  destruct (integer_op op l r) as [o|] eqn:E; [intros ->; by apply (integer_op_wf op l r)|].
  intros [= Hf]. unfold mbind, result_bind in Hf.
  destruct (ok_or (cannot_coerce "left" op) _); [|done].
  destruct (ok_or (cannot_coerce "right" op) _); [|done]. exact (float_op_wf _ _ _ _ _ _ _ Hf).
Qed.

(** ** Access *)
Lemma map_get_wf k m v :
  forallb (fun kv => value_wf kv.2) m = true -> map_get k m = Some v -> value_wf v = true.
Proof.
  induction m as [|[k' w] m IH]; simpl; [done|]. intros [Hw Hm]%andb_prop.
  case_bool_decide; [by intros [= <-]|auto].
Qed.

Lemma property_wf m k : value_wf (VObject m) = true -> value_wf (unwrap_or VNull (map_get k m)) = true.
Proof. simpl. intros Hm. destruct (map_get k m) eqn:E; simpl; [by eapply map_get_wf|done]. Qed.

Lemma index_value_wf b p : value_wf b = true -> value_wf (index_value b p) = true.
Proof.
  intros Hb. destruct b as [| | | |l|m]; try done; unfold index_value.
  - destruct (coerce_index p); [|done]. destruct (_ && _); [|done].
    destruct (l !! _) as [v|] eqn:E; [|done]. simpl in *. rewrite forallb_forall in Hb. apply Hb.
    apply list_elem_of_In. by eapply list_elem_of_lookup_2.
  - destruct p; try done. by apply property_wf.
Qed.

(** ** Methods *)
Lemma invoke_builtin_method_wf v method args w :
  invoke_builtin_method v method args = Some w -> value_wf w = true.
Proof.
  assert (Hn : forall n, value_wf (VNumber (number_from_i64 (wrap_i64 n))) = true) by (simpl; auto).
  assert (Hs : forall s args, value_wf (substring_method s args) = true).
  { intros s args'. unfold substring_method. by repeat case_match. }
  destruct v as [|b|n|s|l|m]; try done; unfold invoke_builtin_method.
  - unfold number_method. intros Hw. destruct args; [|done].
    repeat (case_bool_decide; [|]); simplify_eq; simpl; auto.
    destruct (number_from_f64 _) eqn:E; simplify_eq/=. eauto.
  - unfold string_method. intros Hw. destruct args as [|a [|b [|]]]; [..|done];
      repeat (case_bool_decide; [|]); simplify_eq; eauto.
  - unfold array_method. intros Hw. destruct args; [|done].
    destruct (_ || _); [simplify_eq; apply Hn|]. case_bool_decide; simplify_eq. done.
Qed.

Definition method_wf (f : ExpressionMethod) : Prop :=
  forall args v, forallb value_wf args = true -> f args = Ok v -> value_wf v = true.

Definition registry_wf (r : ExpressionMethodRegistry) : Prop :=
  map_Forall (fun _ ms => map_Forall (fun _ f => method_wf f) ms) (bean_methods r)
  /\ map_Forall (fun _ ms => map_Forall (fun _ f => method_wf f) ms) (static_methods r).

Definition scope_wf (s : VariableContainer) : Prop :=
  (forall name v, get_variable s name = Some v -> value_wf v = true)
  /\ (forall v, root_object_json s = Some v -> value_wf v = true).

Lemma invoke_wf methods receiver method args v :
  map_Forall (fun _ ms => map_Forall (fun _ f => method_wf f) ms) methods ->
  forallb value_wf args = true -> invoke methods receiver method args = Some (Ok v) ->
  value_wf v = true.
Proof.
  intros Hm Ha. unfold invoke. destruct (methods !! receiver) as [ms|] eqn:E; simpl; [|done].
  destruct (ms !! method) as [f|] eqn:Ef; [|done]. intros [= Hv].
  by eapply (Hm _ _ E _ _ Ef).
Qed.

Lemma invoke_method_strict_wf r v method args w :
  registry_wf r -> forallb value_wf args = true ->
  invoke_method_strict r v method args = Ok (Some w) -> value_wf w = true.
Proof.
  intros [Hb Hs] Ha. unfold invoke_method_strict.
  destruct v; try (by intros [= <-]);
    (destruct (marker_receiver _) as [[name st]|];
     [unfold registry_call, invoke_static, invoke_bean; destruct st;
      [pose proof (invoke_wf _ name method args w Hs Ha)|pose proof (invoke_wf _ name method args w Hb Ha)];
      destruct (invoke _ _ _ _) as [[x|]|]; try done; intros [= ->]; auto
     |destruct (invoke_builtin_method _ _ _) eqn:E; [|done]; intros [= ->];
      by eapply invoke_builtin_method_wf]).
Qed.

(** ** Evaluation *)
Section Evaluation.
Context (registry : ExpressionMethodRegistry) (scope : VariableContainer).
Context (Hreg : registry_wf registry) (Hscope : scope_wf scope).

Lemma resolve_variable_wf name v : resolve_variable registry scope name = Some v -> value_wf v = true.
Proof.
  unfold resolve_variable. destruct Hscope as [Hv Hr]. intros Hw.
  destruct (parse_static_type_reference name); [by simplify_eq|].
  destruct (contains_bean registry name); [by simplify_eq|].
  case_bool_decide; [by apply Hr|]. case_bool_decide; [done|].
  case_bool_decide; [|by eapply Hv]. destruct (current_tenant_id scope); by simplify_eq/=.
Qed.

(** The outcome is not a value, or a well-formed one. *)
Definition outcome_wf (m : result Stop (option Value)) : Prop :=
  forall v, m = Ok (Some v) -> value_wf v = true.

Lemma require_wf m k :
  outcome_wf m -> (forall v, value_wf v = true -> outcome_wf (k v)) -> outcome_wf (require m k).
Proof. intros Hm Hk. destruct m as [[v|]|e]; simpl; [by apply Hk, Hm|done|done]. Qed.

Lemma require_all_wf ms k :
  Forall outcome_wf ms -> (forall vs, forallb value_wf vs = true -> outcome_wf (k vs)) ->
  outcome_wf (require_all ms k).
Proof.
  intros Hms. revert k. induction Hms as [|m ms Hm _ IH]; intros k Hk; simpl; [by apply Hk|].
  apply require_wf; [done|]. intros v Hv. apply IH. intros vs Hvs. apply Hk. simpl. by rewrite Hv, Hvs.
Qed.

Lemma arithmetic_strict_wf op l r :
  value_wf l = true -> value_wf r = true -> outcome_wf (arithmetic_strict op l r).
Proof.
  intros Hl Hr v. unfold arithmetic_strict.
  destruct (arithmetic_op l r op) as [[w|]|] eqn:E; try done. intros [= <-]. by apply (arithmetic_op_wf op l r).
Qed.

Lemma stored_literal_wf v : scalar_literal v = true -> value_wf (stored_literal v) = true.
Proof.
  destruct v as [|b|n|s|l|m]; simpl; try done. intros Hn.
  assert (Hw : number_wf n = true) by (by destruct n).
  destruct (number_as_i64 n) eqn:E; simpl; [by eapply number_from_i64_wf, number_as_i64_range|].
  destruct (number_from_f64 _) eqn:Ef; simpl; eauto.
Qed.

Lemma denote_strict_wf ast :
  scalar_literals ast = true -> outcome_wf (denote (strict_semantics registry scope) ast).
Proof.
  induction ast using Ast_nested_ind; simpl; intros Hx; rewrite ?andb_true_iff in Hx; destruct_and?;
    try (apply require_wf; [by auto|]; intros x Hwx);
    try (apply require_wf; [by auto|]; intros y Hwy);
    try (by apply arithmetic_strict_wf); try (by intros w [= <-]).
  - intros w [= <-]. by apply stored_literal_wf.
  - intros w. unfold load_strict. destruct (resolve_variable _ _ _) eqn:E; [|done].
    intros [= <-]. by eapply resolve_variable_wf.
  - destruct (is_truthy x); auto.
  - destruct (is_truthy x); [by intros w [= <-]|auto].
  - destruct (is_truthy x); [auto|by intros w [= <-]].
  - intros w. unfold negate_strict. destruct (to_f64 x); [|done]. intros [= <-]. apply nonfinite_sentinel_wf.
  - intros w. destruct x; simpl; intros [= <-]; first [done|by apply (index_value_wf (VArray _))|by apply (index_value_wf (VObject _))].
  - intros w. destruct x; simpl; intros [= <-]; first [done|by apply property_wf].
  - apply require_all_wf.
    + apply List.Forall_map. rewrite Forall_forall in *. intros a Ha. rewrite forallb_forall in *.
      apply list_elem_of_In in Ha as Ha'. auto.
    + intros vs Hvs w. destruct (invoke_method_strict _ _ _ _) as [[u|]|e] eqn:E; simpl; try done.
      intros [= <-]. by eapply invoke_method_strict_wf.
Qed.

(** ** Entry point *)
Lemma fast_path_wf fp v : eval_fast_path_strict registry scope fp = Ok (Some v) -> value_wf v = true.
Proof.
  destruct fp as [name|var lit neg]; simpl.
  - unfold load_strict. destruct (resolve_variable _ _ _) eqn:E; [|done].
    intros [= <-]. by eapply resolve_variable_wf.
  - destruct (resolve_variable _ _ _); [|done]. by intros [= <-].
Qed.

Lemma compile_text_scalar text c :
  compile_text text = Ok c -> exists ast, c = compile ast /\ scalar_literals ast = true.
Proof.
  unfold compile_text. destruct (expression_body text) as [inner|]; [|done].
  pose proof (el_parse_wp inner) as W. destruct (el_parse inner) as [ast|e]; simpl; [|done].
  intros [= <-]. eauto.
Qed.
End Evaluation.

(** Strict evaluation is type-sound.  Whatever text is evaluated, a value
    it returns is a JSON value: every number in it is a [u64], a negative
    [i64] or a finite float, provided this holds of the variables in scope and
    of what registered methods return. *)
Theorem get_value_strict_well_formed registry scope text v :
  registry_wf registry -> scope_wf scope ->
  get_value_strict registry scope text = Some (Ok (Some v)) -> value_wf v = true.
Proof.
  intros Hr Hs. unfold get_value_strict.
  destruct (detect_fast_path text) as [fp|]; [intros [= E]; by eapply fast_path_wf|].
  destruct (compile_text (trim text)) as [c|[]] eqn:E; try done.
  destruct (compile_text_scalar _ _ E) as (ast & -> & Hx). rewrite execute_strict_total.
  intros [= Ev]. by eapply denote_strict_wf.
Qed.

(** *** The registry the engine starts with *)
Lemma number_value_wf x v : number_value x = Ok v -> value_wf v = true.
Proof. unfold number_value. destruct (number_from_f64 x) eqn:E; [|done]. intros [= <-]. simpl. eauto. Qed.

Lemma numeric_extreme_wf maximum : method_wf (fun a => numeric_extreme a maximum).
Proof.
  intros args v Ha. destruct args as [|a [|b [|]]]; try done. simpl in Ha.
  rewrite !andb_true_iff in Ha. unfold numeric_extreme, mbind, result_bind.
  destruct (numeric_value a); [|done]. destruct (numeric_value b); [|done].
  destruct (_ || _); intros [= <-]; tauto.
Qed.

Lemma math_unary_wf name f :
  method_wf (fun a => x ← one_numeric_argument a name; number_value (f x)).
Proof.
  intros args v _. unfold mbind, result_bind. destruct (one_numeric_argument _ _); [|done].
  apply number_value_wf.
Qed.

Lemma math_pow_wf `{Libm} : method_wf math_pow.
Proof.
  intros args v _. unfold math_pow, mbind, result_bind. destruct args as [|a [|b [|]]]; try done.
  destruct (numeric_value a); [|done]. destruct (numeric_value b); [|done]. apply number_value_wf.
Qed.

Lemma register_static_wf t m f r :
  method_wf f -> registry_wf r -> registry_wf (register_static_method t m f r).
Proof.
  intros Hf [Hb Hs]. split; [done|]. simpl. apply map_Forall_insert_2; [|done].
  apply map_Forall_insert_2; [done|]. destruct (static_methods r !! t) as [ms|] eqn:E; simpl.
  - by eapply Hs.
  - apply map_Forall_empty.
Qed.

Lemma default_registry_wf `{Libm} : registry_wf default_expression_method_registry.
Proof.
  unfold default_expression_method_registry, register_java_math_methods, register_math. simpl.
  repeat apply register_static_wf;
    first [apply numeric_extreme_wf|apply math_unary_wf|apply math_pow_wf
          |split; apply map_Forall_empty].
Qed.
End Typing.

#[local] Existing Instance plain_display.
#[local] Existing Instance ascii_only.

Lemma map_container_wf m : map_Forall (fun _ v => value_wf v = true) m -> scope_wf (map_container m).
Proof. intros Hm. split; [exact Hm|done]. Qed.

Lemma get_value_strict_well_formed_witness :
  let registry := default_expression_method_registry (H := {| f64_powf x _ := x |}) in
  let scope := map_container {["n"%string := VNumber (PosInt i64_max)]} in
  get_value_strict registry scope "${T(Math).max(n + 1, 2)}"
  = Some (Ok (Some (VNumber (PosInt 2))))
  /\ value_wf (VNumber (PosInt 2)) = true.
Proof.
  intros registry scope.
  assert (E : get_value_strict registry scope "${T(Math).max(n + 1, 2)}"
              = Some (Ok (Some (VNumber (PosInt 2))))) by (vm_compute; reflexivity).
  split; [exact E|].
  apply (get_value_strict_well_formed registry scope "${T(Math).max(n + 1, 2)}").
  - apply default_registry_wf.
  - apply map_container_wf. apply map_Forall_singleton. vm_compute. reflexivity.
  - exact E.
Defined.
Close Scope Z_scope.
