(* ===== verification/BpmnModel.v ===== *)
(** * The BPMN model

    The data types of [flowable-bpmn-model/src/model.rs] the runtime core
    reads.  A Rust struct that flattens another one ([UserTask] over [Task]
    over [Activity] over [FlowNode] over [FlowElement] over [BaseElement])
    keeps the shared layers as records; the fields that only one behaviour
    or the diagram interchange uses (form keys, delegate classes, waypoints,
    IO parameters) are left out, and a [FlowElementEnum] constructor carries
    the shared layer directly.  [IndexMap] is an association list in
    insertion order. *)
From S2P Require Import Prelude Json.

(** ** Base layers *)
Record ExtensionAttribute := {
  ea_name : option string;
  ea_value : option string;
  ea_namespace_prefix : option string;
  ea_namespace : option string
}.

Inductive BaseElement : Type :=
| mkBaseElement
    (id : option string)
    (xml_row_number xml_column_number : Z)
    (extension_elements : list (string * list ExtensionElement))
    (attributes : list (string * list ExtensionAttribute))
with ExtensionElement : Type :=
| mkExtensionElement
    (base_element : BaseElement)
    (name namespace_prefix namespace element_text : option string)
    (child_elements : list (string * list ExtensionElement)).

Definition be_id (b : BaseElement) : option string :=
  let '(mkBaseElement id _ _ _ _) := b in id.

Definition base_default : BaseElement := mkBaseElement None 0 0 [] [].
Definition base_with_id (i : string) : BaseElement := mkBaseElement (Some i) 0 0 [] [].

Record FieldExtension := {
  fx_base_element : BaseElement;
  fx_field_name : option string;
  fx_string_value : option string;
  fx_expression : option string
}.

Record FlowableListener := {
  fl_base_element : BaseElement;
  fl_event : option string;
  fl_implementation_type : option string;
  fl_implementation : option string;
  fl_on_transaction : option string;
  fl_custom_properties_resolver_implementation_type : option string;
  fl_custom_properties_resolver_implementation : option string;
  fl_field_extensions : list FieldExtension
}.

Record FlowElement := {
  fe_base_element : BaseElement;
  fe_name : option string;
  fe_documentation : option string;
  fe_execution_listeners : list FlowableListener
}.

Record SequenceFlow := {
  sf_flow_element : FlowElement;
  sf_condition_expression : option string;
  sf_condition_language : option string;
  sf_source_ref : option string;
  sf_target_ref : option string;
  sf_skip_expression : option string
}.

Definition sf_id (f : SequenceFlow) : option string := be_id (fe_base_element (sf_flow_element f)).

Record FlowNode := {
  fn_flow_element : FlowElement;
  fn_asynchronous : bool;
  fn_asynchronous_leave : bool;
  fn_not_exclusive : bool;
  fn_asynchronous_leave_not_exclusive : bool;
  fn_exclusive : bool;
  fn_asynchronous_leave_exclusive : bool;
  fn_incoming_flows : list SequenceFlow;
  fn_outgoing_flows : list SequenceFlow
}.

Record VariableAggregationDefinitionVariable := {
  av_source : option string;
  av_source_expression : option string;
  av_target : option string;
  av_target_expression : option string
}.

Record VariableAggregationDefinition := {
  ad_target : option string;
  ad_target_expression : option string;
  ad_implementation_type : option string;
  ad_implementation : option string;
  ad_create_overview_variable : bool;
  ad_store_as_transient_variable : bool;
  ad_definitions : list VariableAggregationDefinitionVariable
}.

Record VariableAggregationDefinitions := {
  ad_aggregations : list VariableAggregationDefinition;
  ad_overview_aggregations : list VariableAggregationDefinition
}.

Record MultiInstanceLoopCharacteristics := {
  mi_base_element : BaseElement;
  mi_input_data_item : option string;
  mi_collection_string : option string;
  mi_loop_cardinality : option string;
  mi_completion_condition : option string;
  mi_element_variable : option string;
  mi_element_index_variable : option string;
  mi_sequential : bool;
  mi_aggregations : option VariableAggregationDefinitions;
  mi_no_wait_states_async_leave : bool
}.

Record Activity := {
  ac_flow_node : FlowNode;
  ac_failed_job_retry_time_cycle_value : option string;
  ac_default_flow : option string;
  ac_is_for_compensation : bool;
  ac_for_compensation : bool;
  ac_loop_characteristics : option MultiInstanceLoopCharacteristics
}.

(** ** Events and gateways *)
Inductive EventDefinitionEnum : Type :=
| TimerEventDefinition (time_date time_duration time_cycle end_date calendar_name : option string)
| ErrorEventDefinition (error_code error_ref error_variable_name : option string)
    (error_variable_local_scope error_variable_transient : bool)
| MessageEventDefinition (message_ref message_expression : option string)
| SignalEventDefinition (signal_ref signal_expression : option string)
| CancelEventDefinition
| CompensateEventDefinition (activity_ref : option string) (wait_for_completion : bool)
| ConditionalEventDefinition (condition_expression : option string)
| LinkEventDefinition (name target : option string) (source : list string)
| EscalationEventDefinition (escalation_ref escalation_code : option string)
| VariableListenerEventDefinition (variable_name variable_change_type : option string)
| TerminateEventDefinition (terminate_all terminate_multi_instance : bool).

Record Event := {
  ev_flow_node : FlowNode;
  ev_event_definitions : list EventDefinitionEnum
}.

Record BoundaryEvent := {
  bd_event : Event;
  bd_attached_to_ref_id : option string;
  bd_cancel_activity : bool
}.

Record Gateway := {
  gw_flow_node : FlowNode;
  gw_default_flow : option string
}.

Record Association := {
  as_base_element : BaseElement;
  as_source_ref : option string;
  as_target_ref : option string;
  as_association_direction : option string
}.

Inductive ArtifactEnum : Type :=
| AssociationArtifact (a : Association)
| TextAnnotation (base_element : BaseElement) (text text_format : option string)
| Group (base_element : BaseElement) (category_value_ref : option string).

Record ValuedDataObject := {
  vd_base_element : BaseElement;
  vd_name : option string;
  vd_execution_listeners : list FlowableListener;
  vd_value : option Value
}.

(** ** Containers

    [SubProcess] is generic in its children so that the recursive
    [FlowElementEnum] can be nested in it. *)
Record SubProcessOf (A : Type) := mkSubProcess {
  sp_activity : Activity;
  sp_flow_elements : list A;
  sp_flow_element_map : list (string * A);
  sp_artifacts : list ArtifactEnum;
  sp_data_objects : list ValuedDataObject;
  sp_triggered_by_event : bool
}.
Arguments mkSubProcess {A}.
Arguments sp_activity {A}.
Arguments sp_flow_elements {A}.
Arguments sp_flow_element_map {A}.
Arguments sp_artifacts {A}.
Arguments sp_data_objects {A}.
Arguments sp_triggered_by_event {A}.

Inductive FlowElementEnum : Type :=
| FESequenceFlow (f : SequenceFlow)
| FETask (a : Activity)
| FEUserTask (a : Activity)
| FEServiceTask (a : Activity)
| FECaseServiceTask (a : Activity)
| FESendTask (a : Activity)
| FEScriptTask (a : Activity)
| FEManualTask (a : Activity)
| FEReceiveTask (a : Activity)
| FEBusinessRuleTask (a : Activity)
| FEStartEvent (e : Event)
| FEEndEvent (e : Event)
| FEExclusiveGateway (g : Gateway)
| FEParallelGateway (g : Gateway)
| FEInclusiveGateway (g : Gateway)
| FEEventBasedGateway (g : Gateway)
| FEComplexGateway (g : Gateway)
| FEIntermediateCatchEvent (e : Event)
| FEIntermediateThrowEvent (e : Event)
| FESubProcess (s : SubProcessOf FlowElementEnum)
| FETransaction (s : SubProcessOf FlowElementEnum)
| FEEventSubProcess (s : SubProcessOf FlowElementEnum)
| FEAdhocSubProcess (s : SubProcessOf FlowElementEnum)
    (completion_condition ordering : option string) (cancel_remaining_instances : bool)
| FECallActivity (a : Activity)
| FEValuedDataObject (d : ValuedDataObject)
| FEBoundaryEvent (b : BoundaryEvent).

Definition SubProcess : Type := SubProcessOf FlowElementEnum.

Record Process := {
  pr_base_element : BaseElement;
  pr_name : option string;
  pr_executable : bool;
  pr_execution_listeners : list FlowableListener;
  pr_data_objects : list ValuedDataObject;
  pr_flow_elements : list FlowElementEnum;
  pr_flow_element_map : list (string * FlowElementEnum);
  pr_artifacts : list ArtifactEnum
}.

Record BpmnModel := {
  bm_processes : list Process;
  bm_main_process : option Process
}.

(** ** Defaults, for building concrete models *)
Definition flow_element_default (i : string) : FlowElement :=
  {| fe_base_element := base_with_id i; fe_name := None; fe_documentation := None;
     fe_execution_listeners := [] |}.

Definition sequence_flow (i src tgt : string) (condition : option string) : SequenceFlow :=
  {| sf_flow_element := flow_element_default i; sf_condition_expression := condition;
     sf_condition_language := None; sf_source_ref := Some src; sf_target_ref := Some tgt;
     sf_skip_expression := None |}.

Definition flow_node (i : string) (incoming outgoing : list SequenceFlow) : FlowNode :=
  {| fn_flow_element := flow_element_default i; fn_asynchronous := false;
     fn_asynchronous_leave := false; fn_not_exclusive := false;
     fn_asynchronous_leave_not_exclusive := false; fn_exclusive := true;
     fn_asynchronous_leave_exclusive := true; fn_incoming_flows := incoming;
     fn_outgoing_flows := outgoing |}.

Definition activity (i : string) (incoming outgoing : list SequenceFlow) : Activity :=
  {| ac_flow_node := flow_node i incoming outgoing;
     ac_failed_job_retry_time_cycle_value := None; ac_default_flow := None;
     ac_is_for_compensation := false; ac_for_compensation := false;
     ac_loop_characteristics := None |}.

Definition gateway (i : string) (incoming outgoing : list SequenceFlow) (d : option string) : Gateway :=
  {| gw_flow_node := flow_node i incoming outgoing; gw_default_flow := d |}.

Definition event (i : string) (incoming outgoing : list SequenceFlow) : Event :=
  {| ev_flow_node := flow_node i incoming outgoing; ev_event_definitions := [] |}.

Definition sub_process (i : string) (incoming outgoing : list SequenceFlow)
    (children : list FlowElementEnum) : SubProcess :=
  mkSubProcess (activity i incoming outgoing) children [] [] [] false.
