(* ===== verification/FlowElements.v ===== *)
(** * Accessors on flow elements

    The per-variant [match]es of
    [flowable-engine/src/agenda/continue_process_operation.rs],
    [agenda/take_outgoing_sequence_flows_operation.rs],
    [bpmn/execution_graph_util.rs] and the element map the converter builds
    ([flowable-bpmn-converter/src/lib.rs]).  Each source function lists its
    own set of variants; the sets differ, and the definitions keep the
    differences. *)
From S2P Require Import Prelude Json BpmnModel.

Definition flow_node_id (n : FlowNode) : option string := be_id (fe_base_element (fn_flow_element n)).
Definition activity_id (a : Activity) : option string := flow_node_id (ac_flow_node a).

(** ** [continue_process_operation.rs] *)
Definition flow_element_id (e : FlowElementEnum) : option string :=
  match e with
  | FESequenceFlow f => sf_id f
  | FETask a => activity_id a
  | FEUserTask a => activity_id a
  | FEServiceTask a => activity_id a
  | FECaseServiceTask a => activity_id a
  | FESendTask a => activity_id a
  | FEScriptTask a => activity_id a
  | FEManualTask a => activity_id a
  | FEReceiveTask a => activity_id a
  | FEBusinessRuleTask a => activity_id a
  | FEStartEvent ev => flow_node_id (ev_flow_node ev)
  | FEEndEvent ev => flow_node_id (ev_flow_node ev)
  | FEExclusiveGateway g => flow_node_id (gw_flow_node g)
  | FEParallelGateway g => flow_node_id (gw_flow_node g)
  | FEInclusiveGateway g => flow_node_id (gw_flow_node g)
  | FEEventBasedGateway g => flow_node_id (gw_flow_node g)
  | FEComplexGateway g => flow_node_id (gw_flow_node g)
  | FEIntermediateCatchEvent ev => flow_node_id (ev_flow_node ev)
  | FEIntermediateThrowEvent ev => flow_node_id (ev_flow_node ev)
  | FESubProcess s => activity_id (sp_activity s)
  | FETransaction s => activity_id (sp_activity s)
  | FEEventSubProcess s => activity_id (sp_activity s)
  | FEAdhocSubProcess s _ _ _ => activity_id (sp_activity s)
  | FECallActivity a => activity_id a
  | FEBoundaryEvent b => flow_node_id (ev_flow_node (bd_event b))
  | FEValuedDataObject d => be_id (vd_base_element d)
  end.

Definition flow_element_type (e : FlowElementEnum) : string :=
  match e with
  | FESequenceFlow _ => "SequenceFlow"
  | FETask _ => "Task"
  | FEUserTask _ => "UserTask"
  | FEServiceTask _ => "ServiceTask"
  | FECaseServiceTask _ => "CaseServiceTask"
  | FESendTask _ => "SendTask"
  | FEScriptTask _ => "ScriptTask"
  | FEManualTask _ => "ManualTask"
  | FEReceiveTask _ => "ReceiveTask"
  | FEBusinessRuleTask _ => "BusinessRuleTask"
  | FEStartEvent _ => "StartEvent"
  | FEEndEvent _ => "EndEvent"
  | FEExclusiveGateway _ => "ExclusiveGateway"
  | FEParallelGateway _ => "ParallelGateway"
  | FEInclusiveGateway _ => "InclusiveGateway"
  | FEEventBasedGateway _ => "EventBasedGateway"
  | FEComplexGateway _ => "ComplexGateway"
  | FEIntermediateCatchEvent _ => "IntermediateCatchEvent"
  | FEIntermediateThrowEvent _ => "IntermediateThrowEvent"
  | FESubProcess _ => "SubProcess"
  | FETransaction _ => "Transaction"
  | FEEventSubProcess _ => "EventSubProcess"
  | FEAdhocSubProcess _ _ _ _ => "AdhocSubProcess"
  | FECallActivity _ => "CallActivity"
  | FEBoundaryEvent _ => "BoundaryEvent"
  | FEValuedDataObject _ => "ValuedDataObject"
  end.

Definition find_flow_element (process : Process) (activity_id : string) : option FlowElementEnum :=
  or_else (map_get activity_id (pr_flow_element_map process))
    (find_first (fun e => is_some_eq (flow_element_id e) activity_id) (pr_flow_elements process)).

Definition is_process_level_start_event (process : Process) (activity_id : string) : bool :=
  existsb (fun e => match e with
                    | FEStartEvent _ => is_some_eq (flow_element_id e) activity_id
                    | _ => false
                    end) (pr_flow_elements process).

Definition is_async_before (e : FlowElementEnum) : bool :=
  match e with
  | FETask a | FEUserTask a | FEServiceTask a | FECaseServiceTask a | FEScriptTask a
  | FEManualTask a | FEReceiveTask a | FEBusinessRuleTask a | FECallActivity a =>
      fn_asynchronous (ac_flow_node a)
  | FESubProcess s | FETransaction s | FEEventSubProcess s | FEAdhocSubProcess s _ _ _ =>
      fn_asynchronous (ac_flow_node (sp_activity s))
  | _ => false
  end.

Definition is_async_after (e : FlowElementEnum) : bool :=
  match e with
  | FETask a | FEUserTask a | FEServiceTask a | FECaseServiceTask a | FEScriptTask a
  | FEManualTask a | FEReceiveTask a | FEBusinessRuleTask a | FECallActivity a =>
      fn_asynchronous_leave (ac_flow_node a)
  | FESubProcess s | FETransaction s | FEEventSubProcess s | FEAdhocSubProcess s _ _ _ =>
      fn_asynchronous_leave (ac_flow_node (sp_activity s))
  | _ => false
  end.

Definition is_exclusive (e : FlowElementEnum) : bool :=
  match e with
  | FETask a | FEUserTask a | FEServiceTask a | FECaseServiceTask a | FEScriptTask a
  | FEManualTask a | FEReceiveTask a | FEBusinessRuleTask a | FECallActivity a =>
      fn_exclusive (ac_flow_node a)
  | FESubProcess s | FETransaction s | FEEventSubProcess s | FEAdhocSubProcess s _ _ _ =>
      fn_exclusive (ac_flow_node (sp_activity s))
  | _ => true
  end.

Definition is_async_leave_exclusive (e : FlowElementEnum) : bool :=
  match e with
  | FETask a | FEUserTask a | FEServiceTask a | FECaseServiceTask a | FEScriptTask a
  | FEManualTask a | FEReceiveTask a | FEBusinessRuleTask a | FECallActivity a =>
      fn_asynchronous_leave_exclusive (ac_flow_node a)
  | FESubProcess s | FETransaction s | FEEventSubProcess s | FEAdhocSubProcess s _ _ _ =>
      fn_asynchronous_leave_exclusive (ac_flow_node (sp_activity s))
  | _ => true
  end.

Definition failed_job_retry_time_cycle_value (e : FlowElementEnum) : option string :=
  match e with
  | FETask a | FEUserTask a | FEServiceTask a | FECaseServiceTask a | FEScriptTask a
  | FEManualTask a | FEReceiveTask a | FEBusinessRuleTask a | FECallActivity a =>
      ac_failed_job_retry_time_cycle_value a
  | FESubProcess s | FETransaction s | FEEventSubProcess s | FEAdhocSubProcess s _ _ _ =>
      ac_failed_job_retry_time_cycle_value (sp_activity s)
  | _ => None
  end.

(** ** [take_outgoing_sequence_flows_operation.rs] *)
Definition get_outgoing_flows (e : FlowElementEnum) : option (list SequenceFlow) :=
  match e with
  | FETask a | FEUserTask a | FEServiceTask a | FECaseServiceTask a | FESendTask a
  | FEScriptTask a | FEManualTask a | FEReceiveTask a | FEBusinessRuleTask a
  | FECallActivity a => Some (fn_outgoing_flows (ac_flow_node a))
  | FEStartEvent ev | FEEndEvent ev | FEIntermediateCatchEvent ev
  | FEIntermediateThrowEvent ev => Some (fn_outgoing_flows (ev_flow_node ev))
  | FEExclusiveGateway g | FEParallelGateway g | FEInclusiveGateway g
  | FEEventBasedGateway g | FEComplexGateway g => Some (fn_outgoing_flows (gw_flow_node g))
  | FESubProcess s | FETransaction s | FEEventSubProcess s | FEAdhocSubProcess s _ _ _ =>
      Some (fn_outgoing_flows (ac_flow_node (sp_activity s)))
  | FEBoundaryEvent b => Some (fn_outgoing_flows (ev_flow_node (bd_event b)))
  | _ => None
  end.

Definition get_gateway_default_flow_id (e : FlowElementEnum) : option string :=
  match e with
  | FEExclusiveGateway g | FEParallelGateway g | FEInclusiveGateway g
  | FEEventBasedGateway g | FEComplexGateway g => gw_default_flow g
  | _ => None
  end.

(** [get_element_id]: the same table as [flow_element_id]. *)
Definition get_element_id (e : FlowElementEnum) : option string :=
  match e with
  | FETask a | FEUserTask a | FEServiceTask a | FECaseServiceTask a | FESendTask a
  | FEScriptTask a | FEManualTask a | FEReceiveTask a | FEBusinessRuleTask a
  | FECallActivity a => activity_id a
  | FEStartEvent ev | FEEndEvent ev | FEIntermediateCatchEvent ev
  | FEIntermediateThrowEvent ev => flow_node_id (ev_flow_node ev)
  | FEExclusiveGateway g | FEParallelGateway g | FEInclusiveGateway g
  | FEEventBasedGateway g | FEComplexGateway g => flow_node_id (gw_flow_node g)
  | FESubProcess s | FETransaction s | FEEventSubProcess s | FEAdhocSubProcess s _ _ _ =>
      activity_id (sp_activity s)
  | FEBoundaryEvent b => flow_node_id (ev_flow_node (bd_event b))
  | FESequenceFlow f => sf_id f
  | FEValuedDataObject d => be_id (vd_base_element d)
  end.

Definition is_end_event (o : option FlowElementEnum) : bool :=
  match o with Some (FEEndEvent _) => true | _ => false end.

(** ** [execution_graph_util.rs] *)
Definition is_flow_node (e : FlowElementEnum) : bool :=
  match e with FESequenceFlow _ | FEValuedDataObject _ => false | _ => true end.

Definition nested_flow_elements (e : FlowElementEnum) : option (list FlowElementEnum) :=
  match e with
  | FESubProcess s | FETransaction s | FEEventSubProcess s | FEAdhocSubProcess s _ _ _ =>
      Some (sp_flow_elements s)
  | _ => None
  end.

(** The reachability search has its own table of outgoing flows. *)
Definition graph_outgoing_flows (e : FlowElementEnum) : option (list SequenceFlow) :=
  match e with
  | FETask a | FEUserTask a | FEServiceTask a | FECaseServiceTask a
  | FEScriptTask a | FEManualTask a | FEReceiveTask a | FEBusinessRuleTask a
  | FECallActivity a => Some (fn_outgoing_flows (ac_flow_node a))
  | FEStartEvent ev | FEEndEvent ev | FEIntermediateCatchEvent ev
  | FEIntermediateThrowEvent ev => Some (fn_outgoing_flows (ev_flow_node ev))
  | FEExclusiveGateway g | FEParallelGateway g | FEInclusiveGateway g
  | FEEventBasedGateway g => Some (fn_outgoing_flows (gw_flow_node g))
  | FESubProcess s | FETransaction s | FEEventSubProcess s | FEAdhocSubProcess s _ _ _ =>
      Some (fn_outgoing_flows (ac_flow_node (sp_activity s)))
  | FEBoundaryEvent b => Some (fn_outgoing_flows (ev_flow_node (bd_event b)))
  | _ => None
  end.

Definition is_asynchronous_activity (e : FlowElementEnum) : bool :=
  match e with
  | FETask a | FEUserTask a | FEServiceTask a | FECaseServiceTask a | FEScriptTask a
  | FEManualTask a | FEReceiveTask a | FEBusinessRuleTask a | FECallActivity a =>
      fn_asynchronous (ac_flow_node a)
  | FESubProcess s | FETransaction s | FEEventSubProcess s | FEAdhocSubProcess s _ _ _ =>
      fn_asynchronous (ac_flow_node (sp_activity s))
  | FEStartEvent ev | FEEndEvent ev | FEIntermediateCatchEvent ev
  | FEIntermediateThrowEvent ev => fn_asynchronous (ev_flow_node ev)
  | FEExclusiveGateway g | FEParallelGateway g | FEInclusiveGateway g
  | FEEventBasedGateway g => fn_asynchronous (gw_flow_node g)
  | FEBoundaryEvent b => fn_asynchronous (ev_flow_node (bd_event b))
  | _ => false
  end.

Definition has_loop_characteristics (e : FlowElementEnum) : bool :=
  match e with
  | FETask a | FEUserTask a | FEServiceTask a | FECaseServiceTask a | FEScriptTask a
  | FEManualTask a | FEReceiveTask a | FEBusinessRuleTask a | FECallActivity a =>
      bool_decide (is_Some (ac_loop_characteristics a))
  | FESubProcess s | FETransaction s | FEEventSubProcess s | FEAdhocSubProcess s _ _ _ =>
      bool_decide (is_Some (ac_loop_characteristics (sp_activity s)))
  | _ => false
  end.

(** ** The element map built by the converter *)
Fixpoint index_map_insert {A} (k : string) (v : A) (m : list (string * A)) : list (string * A) :=
  match m with
  | [] => [(k, v)]
  | (k', v') :: m => if bool_decide (k = k') then (k, v) :: m else (k', v') :: index_map_insert k v m
  end.

Definition MAX_XML_NESTING_DEPTH : nat := 512.

Fixpoint populate_element (depth : nat) (e : FlowElementEnum)
    (map : list (string * FlowElementEnum)) {struct e} : list (string * FlowElementEnum) :=
  let map := match get_element_id e with
             | Some id => index_map_insert id e map
             | None => map
             end in
  match e with
  | FESubProcess s | FETransaction s | FEEventSubProcess s | FEAdhocSubProcess s _ _ _ =>
      if Nat.leb MAX_XML_NESTING_DEPTH (S depth) then map
      else (fix go (l : list FlowElementEnum) (map : list (string * FlowElementEnum)) :=
              match l with
              | [] => map
              | x :: l => go l (populate_element (S depth) x map)
              end) (sp_flow_elements s) map
  | _ => map
  end.

Definition populate_element_map (flow_elements : list FlowElementEnum)
    (map : list (string * FlowElementEnum)) (data_objects : list ValuedDataObject)
    (depth : nat) : list (string * FlowElementEnum) :=
  if Nat.leb MAX_XML_NESTING_DEPTH depth then map
  else
    let map := fold_left (fun m e => populate_element depth e m) flow_elements map in
    fold_left (fun m obj =>
                 match be_id (vd_base_element obj) with
                 | Some id => match map_get id m with
                              | Some _ => m
                              | None => index_map_insert id (FEValuedDataObject obj) m
                              end
                 | None => m
                 end) data_objects map.

(** ** Structure of the element tree *)
Definition children (e : FlowElementEnum) : list FlowElementEnum :=
  default [] (nested_flow_elements e).

Fixpoint preorder (e : FlowElementEnum) : list FlowElementEnum :=
  e :: match e with
       | FESubProcess s | FETransaction s | FEEventSubProcess s | FEAdhocSubProcess s _ _ _ =>
           flat_map preorder (sp_flow_elements s)
       | _ => []
       end.

Definition all_elements (l : list FlowElementEnum) : list FlowElementEnum := flat_map preorder l.

Lemma preorder_eq e : preorder e = e :: all_elements (children e).
Proof. by destruct e. Qed.

Lemma flow_element_ind (P : FlowElementEnum -> Prop) :
  (forall e, (forall c, c ∈ children e -> P c) -> P e) -> forall e, P e.
Proof.
  intros H. fix IH 1. intros e. apply H.
  assert (Hl : forall s : SubProcess, match s with mkSubProcess _ l _ _ _ _ => Forall P l end ->
    forall c, c ∈ sp_flow_elements s -> P c).
  { intros [? l ? ? ? ?] Hl c Hc. simpl in Hc. by eapply Forall_forall in Hl. }
  destruct e as [| | | | | | | | | | | | | | | | | | |s|s|s|s ? ? ?| | |];
    try (intros c Hc; destruct (not_elem_of_nil c Hc));
    apply Hl; destruct s as [? l ? ? ? ?]; induction l as [|x l IHl];
    constructor; [apply IH|apply IHl|apply IH|apply IHl|apply IH|apply IHl|apply IH|apply IHl].
Qed.

Lemma get_element_id_eq e : get_element_id e = flow_element_id e.
Proof. by destruct e. Qed.

Lemma all_elements_app l k : all_elements (l ++ k) = all_elements l ++ all_elements k.
Proof. apply flat_map_app. Qed.

Lemma elem_of_all_elements e l :
  e ∈ all_elements l <-> exists x, x ∈ l /\ e ∈ preorder x.
Proof.
  unfold all_elements. rewrite list_elem_of_In, in_flat_map.
  by setoid_rewrite list_elem_of_In.
Qed.

Lemma preorder_self e : e ∈ preorder e.
Proof. rewrite preorder_eq. left. Qed.

Lemma all_elements_incl e l : e ∈ l -> e ∈ all_elements l.
Proof. intros H. apply elem_of_all_elements. eauto using preorder_self. Qed.

Lemma preorder_trans e x c : e ∈ preorder x -> c ∈ children e -> c ∈ preorder x.
Proof.
  revert e. induction x as [x IH] using flow_element_ind. intros e He Hc.
  rewrite preorder_eq in He |- *. apply elem_of_cons in He as [->|He]; right.
  - by apply all_elements_incl.
  - apply elem_of_all_elements in He as (y & Hy & He). apply elem_of_all_elements.
    exists y. split; [done|]. by eapply IH.
Qed.

Fixpoint height (e : FlowElementEnum) : nat :=
  S match e with
    | FESubProcess s | FETransaction s | FEEventSubProcess s | FEAdhocSubProcess s _ _ _ =>
        fold_right (fun x n => Nat.max (height x) n) 0 (sp_flow_elements s)
    | _ => 0
    end.

Lemma height_eq e : height e = S (fold_right (fun x n => Nat.max (height x) n) 0 (children e)).
Proof. by destruct e. Qed.

Lemma height_children c l :
  c ∈ l -> height c <= fold_right (fun x n => Nat.max (height x) n) 0 l.
Proof.
  induction l as [|x l IH]; intros H; [by apply not_elem_of_nil in H|].
  apply elem_of_cons in H as [->|H]; simpl; [lia|]. specialize (IH H). lia.
Qed.

(** The ids of a list of elements, in order. *)
Definition element_ids (l : list FlowElementEnum) : list string := omap flow_element_id l.

Lemma elem_of_element_ids i l :
  i ∈ element_ids l <-> exists e, e ∈ l /\ flow_element_id e = Some i.
Proof. apply list_elem_of_omap. Qed.

(** Unique ids: an id determines the element of the list that carries it. *)
Lemma element_ids_inj l e1 e2 i :
  NoDup (element_ids l) -> e1 ∈ l -> e2 ∈ l ->
  flow_element_id e1 = Some i -> flow_element_id e2 = Some i -> e1 = e2.
Proof.
  unfold element_ids.
  induction l as [|x l IH]; intros Hnd H1 H2 Hi1 Hi2; [by apply not_elem_of_nil in H1|].
  assert (Hout : forall e, flow_element_id x = Some i -> e ∈ l -> flow_element_id e = Some i -> False).
  { intros e Hx He Hi. simpl in Hnd. rewrite Hx in Hnd. apply NoDup_cons in Hnd as [Hni _].
    apply Hni, list_elem_of_omap. eauto. }
  apply elem_of_cons in H1 as [->|H1]; apply elem_of_cons in H2 as [->|H2]; try done.
  - by destruct (Hout e2).
  - by destruct (Hout e1).
  - apply IH; try done. simpl in Hnd.
    destruct (flow_element_id x); [by apply NoDup_cons in Hnd as [_ ?]|done].
Qed.

Section PopulateElementMap.
Definition insert_element (m : list (string * FlowElementEnum)) (e : FlowElementEnum) :=
  match flow_element_id e with Some i => index_map_insert i e m | None => m end.

Lemma map_get_index_insert_eq {A} k (v : A) m : map_get k (index_map_insert k v m) = Some v.
Proof.
  induction m as [|[k' v'] m IH]; simpl; [by rewrite bool_decide_true|].
  case_bool_decide as E; simpl; [by rewrite bool_decide_true|by rewrite bool_decide_false].
Qed.

Lemma map_get_index_insert_ne {A} k k' (v : A) m :
  k ≠ k' -> map_get k' (index_map_insert k v m) = map_get k' m.
Proof.
  intros Hne. induction m as [|[k1 v1] m IH]; simpl; [by rewrite bool_decide_false|].
  case_bool_decide as E; simpl; [subst k1; by rewrite bool_decide_false|by rewrite IH].
Qed.

(** Within the nesting cap the recursion inserts the elements in preorder. *)
Lemma populate_element_fold e depth m :
  depth + height e <= MAX_XML_NESTING_DEPTH ->
  populate_element depth e m = fold_left insert_element (preorder e) m.
Proof.
  revert depth m. induction e as [e IH] using flow_element_ind. intros depth m Hd.
  rewrite preorder_eq. simpl. rewrite height_eq in Hd.
  assert (Hgo : forall l, (forall c, c ∈ l -> c ∈ children e) -> forall m',
    (fix go (l : list FlowElementEnum) (map : list (string * FlowElementEnum)) :=
       match l with [] => map | x :: l => go l (populate_element (S depth) x map) end) l m'
    = fold_left insert_element (all_elements l) m').
  { induction l as [|x l IHl]; intros Hl m'; simpl; [done|].
    assert (Hx : x ∈ children e) by (apply Hl; left).
    rewrite fold_left_app, <- (IH x Hx (S depth)).
    - apply IHl. intros c Hc. apply Hl. by right.
    - pose proof (height_children x (children e) Hx). lia. }
  assert (Hcap : (if Nat.leb MAX_XML_NESTING_DEPTH (S depth)
                  then insert_element m e
                  else (fix go (l : list FlowElementEnum) (map : list (string * FlowElementEnum)) :=
       match l with [] => map | x :: l => go l (populate_element (S depth) x map) end)
                     (children e) (insert_element m e))
            = fold_left insert_element (all_elements (children e)) (insert_element m e)).
  { destruct (Nat.leb_spec MAX_XML_NESTING_DEPTH (S depth)) as [Hle|Hlt].
    - destruct (children e) as [|x l] eqn:Hc; [done|]. exfalso.
      simpl in Hd. rewrite (height_eq x) in Hd. lia.
    - by apply Hgo. }
  rewrite <- Hcap. by destruct e.
Qed.

Lemma fold_populate_elements l depth m :
  (forall e, e ∈ l -> depth + height e <= MAX_XML_NESTING_DEPTH) ->
  fold_left (fun m e => populate_element depth e m) l m
  = fold_left insert_element (all_elements l) m.
Proof.
  revert m. induction l as [|x l IH]; intros m H; simpl; [done|].
  rewrite fold_left_app, populate_element_fold by (apply H; left).
  apply IH. intros e He. apply H. by right.
Qed.

(** Every entry of the map is filed under the element's own id. *)
Definition keys_are_ids (m : list (string * FlowElementEnum)) : Prop :=
  forall k e, map_get k m = Some e -> flow_element_id e = Some k.

Lemma insert_element_keys m e : keys_are_ids m -> keys_are_ids (insert_element m e).
Proof.
  intros H k e' Hk. unfold insert_element in Hk.
  destruct (flow_element_id e) as [i|] eqn:Ei; [|by apply H].
  destruct (decide (i = k)) as [->|Hne].
  - rewrite map_get_index_insert_eq in Hk. by injection Hk as <-.
  - rewrite map_get_index_insert_ne in Hk by done. by apply H.
Qed.

Lemma fold_insert_keys l m : keys_are_ids m -> keys_are_ids (fold_left insert_element l m).
Proof. revert m. induction l; simpl; auto using insert_element_keys. Qed.

Lemma fold_insert_other l m k :
  k ∉ element_ids l -> map_get k (fold_left insert_element l m) = map_get k m.
Proof.
  unfold element_ids. revert m. induction l as [|x l IH]; intros m H; simpl; [done|].
  simpl in H. destruct (flow_element_id x) as [i|] eqn:Ei.
  - apply not_elem_of_cons in H as [Hne H]. rewrite IH by done.
    unfold insert_element. rewrite Ei. by apply map_get_index_insert_ne.
  - rewrite IH by done. unfold insert_element. by rewrite Ei.
Qed.

Lemma fold_insert_lookup l m e i :
  NoDup (element_ids l) -> e ∈ l -> flow_element_id e = Some i ->
  map_get i (fold_left insert_element l m) = Some e.
Proof.
  unfold element_ids. revert m. induction l as [|x l IH]; intros m Hnd He Hi.
  - by apply not_elem_of_nil in He.
  - apply elem_of_cons in He as [->|He]; simpl in *.
    + rewrite Hi in Hnd. apply NoDup_cons in Hnd as [Hni Hnd].
      rewrite fold_insert_other by done. unfold insert_element. rewrite Hi.
      apply map_get_index_insert_eq.
    + apply IH; try done.
      destruct (flow_element_id x); [by apply NoDup_cons in Hnd as [_ ?]|done].
Qed.

Definition insert_data_object (m : list (string * FlowElementEnum)) (obj : ValuedDataObject) :=
  match be_id (vd_base_element obj) with
  | Some id => match map_get id m with
               | Some _ => m
               | None => index_map_insert id (FEValuedDataObject obj) m
               end
  | None => m
  end.

Lemma fold_data_objects objs m :
  (keys_are_ids m -> keys_are_ids (fold_left insert_data_object objs m)) /\
  (forall k e, map_get k m = Some e -> map_get k (fold_left insert_data_object objs m) = Some e).
Proof.
  revert m. induction objs as [|o objs IH]; intros m; simpl; [done|].
  destruct (IH (insert_data_object m o)) as [IH1 IH2]. unfold insert_data_object in *.
  destruct (be_id (vd_base_element o)) as [id|] eqn:Eid; [|by split].
  destruct (map_get id m) eqn:Em; [by split|]. split.
  - intros Hk. apply IH1. intros k e Hke. destruct (decide (id = k)) as [->|Hne].
    + rewrite map_get_index_insert_eq in Hke. by injection Hke as <-.
    + rewrite map_get_index_insert_ne in Hke by done. by apply Hk.
  - intros k e Hke. apply IH2. rewrite map_get_index_insert_ne; congruence.
Qed.
End PopulateElementMap.

(** ** Well-formed processes *)

(** The process' element map is the one the converter builds, ids are unique
    and the nesting stays below the converter's cap. *)
Record converted (p : Process) : Prop := {
  converted_map : pr_flow_element_map p
                  = populate_element_map (pr_flow_elements p) [] (pr_data_objects p) 0;
  converted_ids : NoDup (element_ids (all_elements (pr_flow_elements p)));
  converted_depth : forall e, e ∈ pr_flow_elements p -> height e <= MAX_XML_NESTING_DEPTH
}.

Lemma converted_map_fold p :
  converted p ->
  pr_flow_element_map p
  = fold_left insert_data_object (pr_data_objects p)
      (fold_left insert_element (all_elements (pr_flow_elements p)) []).
Proof.
  intros [Hm _ Hd]. rewrite Hm. unfold populate_element_map.
  by rewrite fold_populate_elements by (intros e He; by apply Hd).
Qed.

Lemma find_flow_element_id p i e :
  converted p -> find_flow_element p i = Some e -> flow_element_id e = Some i.
Proof.
  intros Hc. unfold find_flow_element.
  destruct (map_get i (pr_flow_element_map p)) as [e'|] eqn:Hm; simpl.
  - intros [= ->]. rewrite converted_map_fold in Hm by done.
    eapply (proj1 (fold_data_objects _ _)); [|exact Hm].
    apply fold_insert_keys. intros k e0 H. done.
  - intros H. apply find_first_Some in H as [H _]. by apply is_some_eq_spec.
Qed.

Lemma find_flow_element_nested p e i :
  converted p -> e ∈ all_elements (pr_flow_elements p) -> flow_element_id e = Some i ->
  find_flow_element p i = Some e.
Proof.
  intros Hc He Hi. unfold find_flow_element. rewrite converted_map_fold by done.
  rewrite (proj2 (fold_data_objects _ _) i e); [done|].
  apply fold_insert_lookup; [by destruct Hc|done|done].
Qed.
