(* ===== verification/Execution.v ===== *)
(** * Executions

    Models [flowable-engine/src/runtime/execution.rs]: the row of a process
    instance's token tree and its accessors.  A [HashMap<String, Value>] is a
    [gmap string Value]. *)
From S2P Require Import Prelude Json.

Record Execution := mkExecution {
  ex_id : string;
  ex_parent_id : option string;
  ex_super_execution_id : option string;
  ex_root_process_instance_id : option string;
  ex_process_instance_id : option string;
  ex_process_definition_id : option string;
  ex_process_definition_key : option string;
  ex_process_definition_name : option string;
  ex_process_definition_version : option Z;
  ex_activity_id : option string;
  ex_activity_name : option string;
  ex_name : option string;
  ex_description : option string;
  ex_is_suspended : bool;
  ex_is_ended : bool;
  ex_is_active : bool;
  ex_is_concurrent : bool;
  ex_is_scope : bool;
  ex_is_multi_instance_root : bool;
  ex_tenant_id : option string;
  ex_reference_id : option string;
  ex_reference_type : option string;
  ex_variables : gmap string Value;
  ex_local_variables : gmap string Value;
  ex_transient_variables : gmap string Value;
  ex_non_interrupting_event_subprocess_path : bool
}.

(** [Execution::default()]. *)
Definition execution_default : Execution :=
  mkExecution EmptyString None None None None None None None None None None None None
    false false false false false false None None None ∅ ∅ ∅ false.

(** Field assignment, [execution.f = x]. *)
Definition set_id (x : string) (e : Execution) : Execution :=
  mkExecution x (ex_parent_id e) (ex_super_execution_id e) (ex_root_process_instance_id e)
    (ex_process_instance_id e) (ex_process_definition_id e) (ex_process_definition_key e)
    (ex_process_definition_name e) (ex_process_definition_version e) (ex_activity_id e)
    (ex_activity_name e) (ex_name e) (ex_description e) (ex_is_suspended e) (ex_is_ended e)
    (ex_is_active e) (ex_is_concurrent e) (ex_is_scope e) (ex_is_multi_instance_root e)
    (ex_tenant_id e) (ex_reference_id e) (ex_reference_type e) (ex_variables e)
    (ex_local_variables e) (ex_transient_variables e)
    (ex_non_interrupting_event_subprocess_path e).
Definition set_parent_id (x : option string) (e : Execution) : Execution :=
  mkExecution (ex_id e) x (ex_super_execution_id e) (ex_root_process_instance_id e)
    (ex_process_instance_id e) (ex_process_definition_id e) (ex_process_definition_key e)
    (ex_process_definition_name e) (ex_process_definition_version e) (ex_activity_id e)
    (ex_activity_name e) (ex_name e) (ex_description e) (ex_is_suspended e) (ex_is_ended e)
    (ex_is_active e) (ex_is_concurrent e) (ex_is_scope e) (ex_is_multi_instance_root e)
    (ex_tenant_id e) (ex_reference_id e) (ex_reference_type e) (ex_variables e)
    (ex_local_variables e) (ex_transient_variables e)
    (ex_non_interrupting_event_subprocess_path e).
Definition set_activity_id (x : option string) (e : Execution) : Execution :=
  mkExecution (ex_id e) (ex_parent_id e) (ex_super_execution_id e)
    (ex_root_process_instance_id e) (ex_process_instance_id e) (ex_process_definition_id e)
    (ex_process_definition_key e) (ex_process_definition_name e)
    (ex_process_definition_version e) x (ex_activity_name e) (ex_name e) (ex_description e)
    (ex_is_suspended e) (ex_is_ended e) (ex_is_active e) (ex_is_concurrent e) (ex_is_scope
    e) (ex_is_multi_instance_root e) (ex_tenant_id e) (ex_reference_id e) (ex_reference_type
    e) (ex_variables e) (ex_local_variables e) (ex_transient_variables e)
    (ex_non_interrupting_event_subprocess_path e).
Definition set_activity_name (x : option string) (e : Execution) : Execution :=
  mkExecution (ex_id e) (ex_parent_id e) (ex_super_execution_id e)
    (ex_root_process_instance_id e) (ex_process_instance_id e) (ex_process_definition_id e)
    (ex_process_definition_key e) (ex_process_definition_name e)
    (ex_process_definition_version e) (ex_activity_id e) x (ex_name e) (ex_description e)
    (ex_is_suspended e) (ex_is_ended e) (ex_is_active e) (ex_is_concurrent e) (ex_is_scope
    e) (ex_is_multi_instance_root e) (ex_tenant_id e) (ex_reference_id e) (ex_reference_type
    e) (ex_variables e) (ex_local_variables e) (ex_transient_variables e)
    (ex_non_interrupting_event_subprocess_path e).
Definition set_is_ended (x : bool) (e : Execution) : Execution :=
  mkExecution (ex_id e) (ex_parent_id e) (ex_super_execution_id e)
    (ex_root_process_instance_id e) (ex_process_instance_id e) (ex_process_definition_id e)
    (ex_process_definition_key e) (ex_process_definition_name e)
    (ex_process_definition_version e) (ex_activity_id e) (ex_activity_name e) (ex_name e)
    (ex_description e) (ex_is_suspended e) x (ex_is_active e) (ex_is_concurrent e)
    (ex_is_scope e) (ex_is_multi_instance_root e) (ex_tenant_id e) (ex_reference_id e)
    (ex_reference_type e) (ex_variables e) (ex_local_variables e) (ex_transient_variables e)
    (ex_non_interrupting_event_subprocess_path e).
Definition set_is_active (x : bool) (e : Execution) : Execution :=
  mkExecution (ex_id e) (ex_parent_id e) (ex_super_execution_id e)
    (ex_root_process_instance_id e) (ex_process_instance_id e) (ex_process_definition_id e)
    (ex_process_definition_key e) (ex_process_definition_name e)
    (ex_process_definition_version e) (ex_activity_id e) (ex_activity_name e) (ex_name e)
    (ex_description e) (ex_is_suspended e) (ex_is_ended e) x (ex_is_concurrent e)
    (ex_is_scope e) (ex_is_multi_instance_root e) (ex_tenant_id e) (ex_reference_id e)
    (ex_reference_type e) (ex_variables e) (ex_local_variables e) (ex_transient_variables e)
    (ex_non_interrupting_event_subprocess_path e).
Definition set_is_concurrent (x : bool) (e : Execution) : Execution :=
  mkExecution (ex_id e) (ex_parent_id e) (ex_super_execution_id e)
    (ex_root_process_instance_id e) (ex_process_instance_id e) (ex_process_definition_id e)
    (ex_process_definition_key e) (ex_process_definition_name e)
    (ex_process_definition_version e) (ex_activity_id e) (ex_activity_name e) (ex_name e)
    (ex_description e) (ex_is_suspended e) (ex_is_ended e) (ex_is_active e) x (ex_is_scope
    e) (ex_is_multi_instance_root e) (ex_tenant_id e) (ex_reference_id e) (ex_reference_type
    e) (ex_variables e) (ex_local_variables e) (ex_transient_variables e)
    (ex_non_interrupting_event_subprocess_path e).
Definition set_is_scope (x : bool) (e : Execution) : Execution :=
  mkExecution (ex_id e) (ex_parent_id e) (ex_super_execution_id e)
    (ex_root_process_instance_id e) (ex_process_instance_id e) (ex_process_definition_id e)
    (ex_process_definition_key e) (ex_process_definition_name e)
    (ex_process_definition_version e) (ex_activity_id e) (ex_activity_name e) (ex_name e)
    (ex_description e) (ex_is_suspended e) (ex_is_ended e) (ex_is_active e)
    (ex_is_concurrent e) x (ex_is_multi_instance_root e) (ex_tenant_id e) (ex_reference_id
    e) (ex_reference_type e) (ex_variables e) (ex_local_variables e) (ex_transient_variables
    e) (ex_non_interrupting_event_subprocess_path e).
Definition set_is_multi_instance_root (x : bool) (e : Execution) : Execution :=
  mkExecution (ex_id e) (ex_parent_id e) (ex_super_execution_id e)
    (ex_root_process_instance_id e) (ex_process_instance_id e) (ex_process_definition_id e)
    (ex_process_definition_key e) (ex_process_definition_name e)
    (ex_process_definition_version e) (ex_activity_id e) (ex_activity_name e) (ex_name e)
    (ex_description e) (ex_is_suspended e) (ex_is_ended e) (ex_is_active e)
    (ex_is_concurrent e) (ex_is_scope e) x (ex_tenant_id e) (ex_reference_id e)
    (ex_reference_type e) (ex_variables e) (ex_local_variables e) (ex_transient_variables e)
    (ex_non_interrupting_event_subprocess_path e).
Definition set_variables (x : gmap string Value) (e : Execution) : Execution :=
  mkExecution (ex_id e) (ex_parent_id e) (ex_super_execution_id e)
    (ex_root_process_instance_id e) (ex_process_instance_id e) (ex_process_definition_id e)
    (ex_process_definition_key e) (ex_process_definition_name e)
    (ex_process_definition_version e) (ex_activity_id e) (ex_activity_name e) (ex_name e)
    (ex_description e) (ex_is_suspended e) (ex_is_ended e) (ex_is_active e)
    (ex_is_concurrent e) (ex_is_scope e) (ex_is_multi_instance_root e) (ex_tenant_id e)
    (ex_reference_id e) (ex_reference_type e) x (ex_local_variables e)
    (ex_transient_variables e) (ex_non_interrupting_event_subprocess_path e).
Definition set_local_variables (x : gmap string Value) (e : Execution) : Execution :=
  mkExecution (ex_id e) (ex_parent_id e) (ex_super_execution_id e)
    (ex_root_process_instance_id e) (ex_process_instance_id e) (ex_process_definition_id e)
    (ex_process_definition_key e) (ex_process_definition_name e)
    (ex_process_definition_version e) (ex_activity_id e) (ex_activity_name e) (ex_name e)
    (ex_description e) (ex_is_suspended e) (ex_is_ended e) (ex_is_active e)
    (ex_is_concurrent e) (ex_is_scope e) (ex_is_multi_instance_root e) (ex_tenant_id e)
    (ex_reference_id e) (ex_reference_type e) (ex_variables e) x (ex_transient_variables e)
    (ex_non_interrupting_event_subprocess_path e).
Definition set_transient_variables (x : gmap string Value) (e : Execution) : Execution :=
  mkExecution (ex_id e) (ex_parent_id e) (ex_super_execution_id e)
    (ex_root_process_instance_id e) (ex_process_instance_id e) (ex_process_definition_id e)
    (ex_process_definition_key e) (ex_process_definition_name e)
    (ex_process_definition_version e) (ex_activity_id e) (ex_activity_name e) (ex_name e)
    (ex_description e) (ex_is_suspended e) (ex_is_ended e) (ex_is_active e)
    (ex_is_concurrent e) (ex_is_scope e) (ex_is_multi_instance_root e) (ex_tenant_id e)
    (ex_reference_id e) (ex_reference_type e) (ex_variables e) (ex_local_variables e) x
    (ex_non_interrupting_event_subprocess_path e).
Definition set_non_interrupting_event_subprocess_path (x : bool) (e : Execution) : Execution :=
  mkExecution (ex_id e) (ex_parent_id e) (ex_super_execution_id e)
    (ex_root_process_instance_id e) (ex_process_instance_id e) (ex_process_definition_id e)
    (ex_process_definition_key e) (ex_process_definition_name e)
    (ex_process_definition_version e) (ex_activity_id e) (ex_activity_name e) (ex_name e)
    (ex_description e) (ex_is_suspended e) (ex_is_ended e) (ex_is_active e)
    (ex_is_concurrent e) (ex_is_scope e) (ex_is_multi_instance_root e) (ex_tenant_id e)
    (ex_reference_id e) (ex_reference_type e) (ex_variables e) (ex_local_variables e)
    (ex_transient_variables e) x.

(** ** Methods *)
Definition set_process_variable (name : string) (value : Value) (e : Execution) : Execution :=
  set_variables (<[name := value]> (ex_variables e)) e.

Definition set_process_variables (variables : gmap string Value) (e : Execution) : Execution :=
  set_variables variables e.

Definition process_variables (e : Execution) : gmap string Value := ex_variables e.

Definition process_variable (e : Execution) (name : string) : option Value :=
  or_else (ex_transient_variables e !! name)
    (or_else (ex_local_variables e !! name) (ex_variables e !! name)).

Definition persistent_process_variable (e : Execution) (name : string) : option Value :=
  ex_variables e !! name.

Definition set_local_variable (name : string) (value : Value) (e : Execution) : Execution :=
  set_local_variables (<[name := value]> (ex_local_variables e)) e.

Definition set_transient_variable (name : string) (value : Value) (e : Execution) : Execution :=
  set_transient_variables (<[name := value]> (ex_transient_variables e)) e.

Definition parallel_scope_id (e : Execution) : string := unwrap_or (ex_id e) (ex_parent_id e).

Definition is_process_instance_scope_execution (e : Execution) : bool :=
  bool_decide (ex_parent_id e = None) && is_some_eq (ex_process_instance_id e) (ex_id e).

(** ** Properties *)
Lemma process_variable_eq e name :
  process_variable e name
  = (ex_transient_variables e ∪ (ex_local_variables e ∪ ex_variables e)) !! name.
Proof.
  unfold process_variable. rewrite !lookup_union.
  destruct (ex_transient_variables e !! name), (ex_local_variables e !! name),
    (ex_variables e !! name); done.
Qed.

Lemma scope_execution_spec e :
  is_process_instance_scope_execution e = true <->
  ex_parent_id e = None /\ ex_process_instance_id e = Some (ex_id e).
Proof.
  unfold is_process_instance_scope_execution.
  by rewrite andb_true_iff, bool_decide_eq_true, is_some_eq_spec.
Qed.
