(* ===== verification/Store.v ===== *)
(** * The runtime store

    Models the slice of [flowable-engine/src/persistence/] the token flow
    writes through: the session ([db_session.rs]) over the tables
    [executions], [variables], [compensation_subscriptions],
    [boundary_event_states] and the normalized [ACT_RU_EXECUTION], and the
    [RuntimeStore] operations on executions ([runtime_store.rs]).  The tables
    of what a token waits for ([tasks], [event_wait_states] and the two tables
    of subscriptions) are a record of the session, [WaitTables]; their
    operations are in [WaitStates].

    The SQL engine is its documented behaviour on one open transaction: a
    table maps a primary key to a row, an upsert replaces the row, a
    [TEXT] column holds an integer as its decimal text.  JSON
    (de)serialization of an entity is the identity.  The statements that can
    fail in the model are those on a closed session, an optimistic-lock
    mismatch and a duplicate key. *)
From stdpp Require Import pretty.
From Stdlib Require Import Ascii.
From S2P Require Import Prelude Float64 Numerals Json Errors Execution.

(** ** Columns *)
Inductive DbValue := DbInteger (n : Z) | DbText (s : string).

(** The text a [TEXT] column holds. *)
Definition column_text (v : DbValue) : string :=
  match v with DbInteger n => pretty n | DbText s => s end.

(** The conversion of [insert_with_extra_inner]. *)
Definition typed_extra (value : string) : DbValue :=
  match parse_i64 value with Some n => DbInteger n | None => DbText value end.

Definition typed_extras (extras : list (string * option string)) : list (string * DbValue) :=
  omap (fun '(column, value) =>
          match value with Some v => Some (column, typed_extra v) | None => None end) extras.

(** ** Errors *)
Inductive StorageError : Type :=
| Connection (m : Message)
| Sql (m : Message)
| Serialization (m : Message)
| Deserialization (m : Message)
| ClosedTransaction
| InvalidTransactionHandle (m : Message)
| OptimisticLockConflict
| DuplicateEntity (entity_type id : string)
| CorruptGlobalLockValue (lock_name value : string)
| Persistence (m : Message).

Definition storage_display (e : StorageError) : Message :=
  match e with
  | Connection m => Lit "storage connection error: " :: m
  | Sql m => Lit "storage SQL error: " :: m
  | Serialization m => Lit "storage serialization error: " :: m
  | Deserialization m => Lit "storage deserialization error: " :: m
  | ClosedTransaction => [Lit "storage transaction is already closed"]
  | InvalidTransactionHandle m => Lit "invalid transaction handle: " :: m
  | OptimisticLockConflict => [Lit "optimistic lock conflict"]
  | DuplicateEntity t i => [Lit "persistence error: Duplicate entity: "; Lit t; Lit " id="; Lit i]
  | CorruptGlobalLockValue lock_name value =>
      [Lit "corrupt global lock value for '"; Lit lock_name; Lit "': "; Lit value]
  | Persistence m => Lit "persistence error: " :: m
  end.

(** [From<StorageError> for FlowableError]. *)
Definition storage_to_flowable (e : StorageError) : FlowableError := Internal (storage_display e).

(** ** Rows *)
Record Row (A : Type) := mkRow { row_data : A; row_extras : list (string * DbValue) }.
Arguments mkRow {A}.
Arguments row_data {A}.
Arguments row_extras {A}.

Notation Table A := (gmap string (Row A)).

Definition column_matches {A} (col val : string) (r : Row A) : bool :=
  match map_get col (row_extras r) with
  | Some v => bool_decide (column_text v = val)
  | None => false
  end.

(** [persistence/entity/execution.rs]: the columns of [ACT_RU_EXECUTION] the
    engine fills; the others keep the constants of [ExecutionEntity::new]. *)
Record ExecutionEntity := {
  ee_id : string;
  ee_revision : Z;
  ee_process_instance_id : option string;
  ee_parent_id : option string;
  ee_process_definition_id : option string;
  ee_super_execution_id : option string;
  ee_root_process_instance_id : option string;
  ee_activity_id : option string;
  ee_is_active : bool;
  ee_is_concurrent : bool;
  ee_is_scope : bool;
  ee_is_mi_root : bool;
  ee_suspension_state : Z;
  ee_tenant_id : option string;
  ee_name : option string
}.

(** [execution_to_entity], with the revision the caller keeps. *)
Definition entity_with_revision (revision : Z) (e : Execution) : ExecutionEntity :=
  {| ee_id := ex_id e; ee_revision := revision;
     ee_process_instance_id := ex_process_instance_id e; ee_parent_id := ex_parent_id e;
     ee_process_definition_id := ex_process_definition_id e;
     ee_super_execution_id := ex_super_execution_id e;
     ee_root_process_instance_id := ex_root_process_instance_id e;
     ee_activity_id := ex_activity_id e; ee_is_active := ex_is_active e;
     ee_is_concurrent := ex_is_concurrent e; ee_is_scope := ex_is_scope e;
     ee_is_mi_root := ex_is_multi_instance_root e;
     ee_suspension_state := if ex_is_suspended e then 2 else 1;
     ee_tenant_id := ex_tenant_id e; ee_name := ex_name e |}.

Definition execution_to_entity (e : Execution) : ExecutionEntity := entity_with_revision 1 e.

(** [runtime/compensation.rs]. *)
Record CompensationSubscription := {
  cs_id : string;
  cs_process_instance_id : string;
  cs_execution_id : string;
  cs_activity_id : string;
  cs_compensation_activity_id : string;
  cs_subscription_order : Z;
  cs_variables_snapshot : gmap string Value
}.

(** ** What a token waits for

    [task/task.rs] (times are milliseconds) and the wait states and
    subscriptions of [runtime_store.rs]. *)
Record Task := mkTask {
  tk_id : string;
  tk_process_instance_id : string;
  tk_execution_id : string;
  tk_task_definition_key : string;
  tk_name : string;
  tk_description : option string;
  tk_assignee : option string;
  tk_owner : option string;
  tk_delegation_state : option string;
  tk_parent_task_id : option string;
  tk_priority : option Z;
  tk_due_date : option Z;
  tk_category : option string;
  tk_form_key : option string;
  tk_tenant_id : option string;
  tk_is_completed : bool;
  tk_created_time : option Z;
  tk_completed_time : option Z;
  tk_claim_time : option Z;
  tk_state : string;
  tk_suspension_state : Z;
  tk_local_variables : gmap string Value
}.

Inductive EventSubscriptionKind : Set :=
| KindMessage | KindSignal | KindConditional | KindError | KindCancel | KindCompensate | KindEscalation
| KindEventRegistry.

#[export] Instance subscription_kind_dec : EqDecision EventSubscriptionKind.
Proof. solve_decision. Defined.

Record EventSubscription := mkSubscription {
  es_kind : EventSubscriptionKind;
  es_event_ref : string
}.

Inductive RuntimeEventWaitKind : Set :=
| WaitReceiveTask | WaitMessageCatchEvent | WaitSignalCatchEvent | WaitConditionalCatchEvent
| WaitErrorCatchEvent | WaitCancelCatchEvent | WaitCompensateCatchEvent | WaitEscalationCatchEvent
| WaitEventRegistryCatchEvent | WaitSendEventTask.

Record RuntimeEventWaitState := mkWaitState {
  ws_wait_kind : RuntimeEventWaitKind;
  ws_process_instance_id : string;
  ws_execution_id : string;
  ws_task_id : option string;
  ws_activity_id : option string;
  ws_display_name : option string;
  ws_event_subscription : option EventSubscription;
  ws_configuration : option string
}.

Record RuntimeBoundaryEventState := mkBoundaryState {
  bs_boundary_event_id : string;
  bs_attached_activity_id : string;
  bs_process_instance_id : string;
  bs_host_execution_id : string;
  bs_cancel_activity : bool;
  bs_event_subscription : EventSubscription;
  bs_configuration : option string
}.

Record EventSubprocessEventSubscription := mkEventSubprocessSubscription {
  sb_subscription_id : string;
  sb_process_instance_id : string;
  sb_scope_execution_id : option string;
  sb_scope_activity_id : option string;
  sb_event_subprocess_id : string;
  sb_start_event_id : string;
  sb_interrupting : bool;
  sb_event_kind : EventSubscriptionKind;
  sb_event_ref : string;
  sb_configuration : option string
}.

(** A row of [event_subscriptions] holds the wait state it belongs to. *)
Record WaitTables := mkWaitTables {
  wt_tasks : Table Task;
  wt_event_wait_states : Table RuntimeEventWaitState;
  wt_event_subscriptions : Table RuntimeEventWaitState;
  wt_event_subprocess_event_subscriptions : Table EventSubprocessEventSubscription
}.

(** ** The session *)
Record DbSession := mkDbSession {
  db_executions : Table Execution;
  db_variables : Table Value;
  db_compensation_subscriptions : Table CompensationSubscription;
  db_boundary_event_states : Table RuntimeBoundaryEventState;
  db_waits : WaitTables;
  db_act_ru_execution : gmap string ExecutionEntity;
  db_closed : bool;
  db_write_error : option StorageError
}.

(** A table of the session, by name in the source. *)
Record TableRef (A : Type) := {
  tget : DbSession -> Table A;
  tset : Table A -> DbSession -> DbSession
}.
Arguments tget {A}.
Arguments tset {A}.

Definition executions : TableRef Execution :=
  {| tget := db_executions;
     tset t s := mkDbSession t (db_variables s) (db_compensation_subscriptions s)
                   (db_boundary_event_states s) (db_waits s) (db_act_ru_execution s) (db_closed s)
                   (db_write_error s) |}.
Definition variables : TableRef Value :=
  {| tget := db_variables;
     tset t s := mkDbSession (db_executions s) t (db_compensation_subscriptions s)
                   (db_boundary_event_states s) (db_waits s) (db_act_ru_execution s) (db_closed s)
                   (db_write_error s) |}.
Definition compensation_subscriptions : TableRef CompensationSubscription :=
  {| tget := db_compensation_subscriptions;
     tset t s := mkDbSession (db_executions s) (db_variables s) t
                   (db_boundary_event_states s) (db_waits s) (db_act_ru_execution s) (db_closed s)
                   (db_write_error s) |}.
Definition boundary_event_states : TableRef RuntimeBoundaryEventState :=
  {| tget := db_boundary_event_states;
     tset t s := mkDbSession (db_executions s) (db_variables s)
                   (db_compensation_subscriptions s) t (db_waits s) (db_act_ru_execution s) (db_closed s)
                   (db_write_error s) |}.

Definition set_act_ru_execution (t : gmap string ExecutionEntity) (s : DbSession) : DbSession :=
  mkDbSession (db_executions s) (db_variables s) (db_compensation_subscriptions s)
    (db_boundary_event_states s) (db_waits s) t (db_closed s) (db_write_error s).

Definition set_write_error (o : option StorageError) (s : DbSession) : DbSession :=
  mkDbSession (db_executions s) (db_variables s) (db_compensation_subscriptions s)
    (db_boundary_event_states s) (db_waits s) (db_act_ru_execution s) (db_closed s) o.

Definition set_waits (w : WaitTables) (s : DbSession) : DbSession :=
  mkDbSession (db_executions s) (db_variables s) (db_compensation_subscriptions s)
    (db_boundary_event_states s) w (db_act_ru_execution s) (db_closed s) (db_write_error s).

Definition tasks : TableRef Task :=
  {| tget s := wt_tasks (db_waits s);
     tset t s := let w := db_waits s in
       set_waits (mkWaitTables t (wt_event_wait_states w) (wt_event_subscriptions w)
                    (wt_event_subprocess_event_subscriptions w)) s |}.
Definition event_wait_states : TableRef RuntimeEventWaitState :=
  {| tget s := wt_event_wait_states (db_waits s);
     tset t s := let w := db_waits s in
       set_waits (mkWaitTables (wt_tasks w) t (wt_event_subscriptions w)
                    (wt_event_subprocess_event_subscriptions w)) s |}.
Definition event_subscriptions : TableRef RuntimeEventWaitState :=
  {| tget s := wt_event_subscriptions (db_waits s);
     tset t s := let w := db_waits s in
       set_waits (mkWaitTables (wt_tasks w) (wt_event_wait_states w) t
                    (wt_event_subprocess_event_subscriptions w)) s |}.
Definition event_subprocess_event_subscriptions : TableRef EventSubprocessEventSubscription :=
  {| tget s := wt_event_subprocess_event_subscriptions (db_waits s);
     tset t s := let w := db_waits s in
       set_waits (mkWaitTables (wt_tasks w) (wt_event_wait_states w) (wt_event_subscriptions w) t) s |}.

(** [DbSession::new] over empty tables. *)
Definition waits_new : WaitTables := mkWaitTables ∅ ∅ ∅ ∅.
Definition session_new : DbSession := mkDbSession ∅ ∅ ∅ ∅ waits_new ∅ false None.

(** ** Session operations *)
Section Session.
Context {A : Type} (t : TableRef A).

Definition note_write_error (error : StorageError) (s : DbSession) : DbSession :=
  match db_write_error s with
  | None => set_write_error (Some error) s
  | Some _ => s
  end.

Definition ensure_open (s : DbSession) : result StorageError unit :=
  if db_closed s then Err ClosedTransaction else Ok tt.

Definition record_write_result {B} (r : result StorageError B) (s : DbSession) : DbSession :=
  match r with Ok _ => s | Err error => note_write_error error s end.

Definition insert_with_extra_inner (id : string) (value : A)
    (extras : list (string * option string)) (s : DbSession) : result StorageError unit * DbSession :=
  match ensure_open s with
  | Err e => (Err e, s)
  | Ok _ => (Ok tt, tset t (<[id := mkRow value (typed_extras extras)]> (tget t s)) s)
  end.

Definition insert_with_extra (id : string) (value : A) (extras : list (string * option string))
  : stM DbSession StorageError unit :=
  fun s => let '(r, s) := insert_with_extra_inner id value extras s in
           (r, record_write_result r s).

Definition session_find (id : string) (s : DbSession) : result StorageError (option A) :=
  match ensure_open s with
  | Err e => Err e
  | Ok _ => Ok (row_data <$> tget t s !! id)
  end.

Definition session_find_all (s : DbSession) : result StorageError (list A) :=
  match ensure_open s with
  | Err e => Err e
  | Ok _ => Ok (row_data <$> (map_to_list (tget t s)).*2)
  end.

Definition session_delete (id : string) : stM DbSession StorageError unit :=
  fun s => match ensure_open s with
           | Err e => (Err e, note_write_error e s)
           | Ok _ => (Ok tt, tset t (delete id (tget t s)) s)
           end.

Definition session_delete_by (col val : string) : stM DbSession StorageError unit :=
  fun s => match ensure_open s with
           | Err e => (Err e, note_write_error e s)
           | Ok _ => (Ok tt, tset t (filter (fun kr => column_matches col val kr.2 = false) (tget t s)) s)
           end.

Definition session_find_by (col val : string) (s : DbSession) : result StorageError (list A) :=
  match ensure_open s with
  | Err e => Err e
  | Ok _ => Ok (row_data <$> (map_to_list (filter (fun kr => column_matches col val kr.2 = true) (tget t s))).*2)
  end.

(** [SELECT MAX(col)], over the rows a condition keeps; a text that is not
    a number counts as absent. *)
Definition session_max (col : string) (keep : string -> bool) (s : DbSession)
  : result StorageError (option Z) :=
  match ensure_open s with
  | Err e => Err e
  | Ok _ =>
      let column (kr : string * Row A) : option Z :=
        if keep kr.1
        then match map_get col (row_extras kr.2) with
             | Some (DbInteger n) => Some n
             | _ => None
             end
        else None in
      Ok (fold_right (fun n acc => match acc with
                                   | Some m => Some (Z.max n m)
                                   | None => Some n
                                   end) None (omap column (map_to_list (tget t s))))
  end.
End Session.

(** ** [RuntimeStore]

    The session together with the thread-local registers of a command. *)
Record Runtime := mkRuntime {
  rt_session : DbSession;
  rt_transient_dirty : gset string;
  rt_involved : gmap string string
}.

Definition with_session (s : DbSession) (rt : Runtime) : Runtime :=
  mkRuntime s (rt_transient_dirty rt) (rt_involved rt).

Definition clear_transient_dirty_execution_ids (rt : Runtime) : Runtime :=
  mkRuntime (rt_session rt) ∅ (rt_involved rt).

Definition clear_involved_process_instances (rt : Runtime) : Runtime :=
  mkRuntime (rt_session rt) (rt_transient_dirty rt) ∅.

Definition mark_involved_process_instance (e : Execution) (rt : Runtime) : Runtime :=
  match ex_process_instance_id e, ex_process_definition_id e with
  | Some pi_id, Some def_id =>
      mkRuntime (rt_session rt) (rt_transient_dirty rt) (<[pi_id := def_id]> (rt_involved rt))
  | _, _ => rt
  end.

Definition take_involved_process_instances (rt : Runtime) : gmap string string * Runtime :=
  (rt_involved rt, mkRuntime (rt_session rt) (rt_transient_dirty rt) ∅).

Definition mark_transient_dirty_execution (id : string) (rt : Runtime) : Runtime :=
  mkRuntime (rt_session rt) ({[id]} ∪ rt_transient_dirty rt) (rt_involved rt).

Definition take_transient_dirty_execution_ids (rt : Runtime) : gset string * Runtime :=
  (rt_transient_dirty rt, mkRuntime (rt_session rt) ∅ (rt_involved rt)).

(** Run a session operation inside the store. *)
Definition on_session {A} (m : stM DbSession StorageError A) : stM Runtime StorageError A :=
  fun rt => let '(r, s) := m (rt_session rt) in (r, with_session s rt).

(** [ExecutionDataManager::update] / [insert] / [delete] followed by the
    flush of the queued statement. *)
Definition act_update (entity : ExecutionEntity) (s : DbSession) : result StorageError DbSession :=
  match db_act_ru_execution s !! ee_id entity with
  | Some row =>
      if bool_decide (ee_revision row = ee_revision entity)
      then Ok (set_act_ru_execution (<[ee_id entity := entity]> (db_act_ru_execution s)) s)
      else Err OptimisticLockConflict
  | None => Err OptimisticLockConflict
  end.

Definition act_insert (entity : ExecutionEntity) (s : DbSession) : result StorageError DbSession :=
  match db_act_ru_execution s !! ee_id entity with
  | Some _ => Err (DuplicateEntity "Execution" (ee_id entity))
  | None => Ok (set_act_ru_execution (<[ee_id entity := entity]> (db_act_ru_execution s)) s)
  end.

Definition act_delete (id : string) (s : DbSession) : result StorageError DbSession :=
  match db_act_ru_execution s !! id with
  | Some _ => Ok (set_act_ru_execution (delete id (db_act_ru_execution s)) s)
  | None => Err OptimisticLockConflict
  end.

(** A failed dual write is noted on the session, with its context. *)
Definition or_note (operation id : string) (r : result StorageError DbSession) (s : DbSession)
    : DbSession :=
  match r with
  | Ok s => s
  | Err e => note_write_error
               (Persistence ([Lit operation; Lit " failed for id="; Lit id; Lit ": "]
                             ++ storage_display e)) s
  end.

Definition dual_write_execution (e : Execution) (s : DbSession) : DbSession :=
  match db_act_ru_execution s !! ex_id e with
  | Some existing =>
      or_note "dual-write ACT_RU_EXECUTION flush" (ex_id e)
        (act_update (entity_with_revision (ee_revision existing) e) s) s
  | None =>
      or_note "dual-write ACT_RU_EXECUTION flush" (ex_id e)
        (act_insert (execution_to_entity e) s) s
  end.

Definition variable_key (execution_id name : string) : string :=
  String.append execution_id (String.append ":" name).

Definition delete_variables_by_execution_id (execution_id : string) (rt : Runtime) : Runtime :=
  (on_session (session_delete_by variables "execution_id" execution_id) rt).2.

Definition project_variable (e : Execution) (process_instance_id : string) (nv : string * Value)
    : stM DbSession StorageError unit :=
  insert_with_extra variables (variable_key (ex_id e) nv.1) nv.2
    [("execution_id", Some (ex_id e)); ("process_instance_id", Some process_instance_id);
     ("name", Some nv.1)].

Definition insert_execution (e : Execution) : stM Runtime StorageError unit :=
  fun rt =>
    let process_instance_id := default EmptyString (ex_process_instance_id e) in
    let rt := mark_involved_process_instance e rt in
    let rt := if decide (ex_transient_variables e = ∅) then rt
              else mark_transient_dirty_execution (ex_id e) rt in
    let rt := delete_variables_by_execution_id (ex_id e) rt in
    on_session
      (for_each (map_to_list (ex_variables e)) (project_variable e process_instance_id) ;;
       for_each (map_to_list (ex_local_variables e)) (project_variable e process_instance_id) ;;
       insert_with_extra executions (ex_id e) e
         [("process_instance_id", Some process_instance_id)] ;;
       modify (dual_write_execution e)) rt.

Definition update_execution (e : Execution) : stM Runtime StorageError unit := insert_execution e.

Definition rewrite_execution_json (e : Execution) (rt : Runtime) : Runtime :=
  let process_instance_id := default EmptyString (ex_process_instance_id e) in
  let '(_, s) := insert_with_extra executions (ex_id e) e
                   [("process_instance_id", Some process_instance_id)] (rt_session rt) in
  with_session (dual_write_execution e s) rt.

Definition find_execution (id : string) (rt : Runtime) : option Execution * Runtime :=
  match session_find executions id (rt_session rt) with
  | Ok found => (found, rt)
  | Err error => (None, with_session (note_write_error error (rt_session rt)) rt)
  end.

Definition strip_transient_variables_before_commit (rt : Runtime) : Runtime :=
  let '(dirty_ids, rt) := take_transient_dirty_execution_ids rt in
  fold_left (fun rt id =>
    match find_execution id rt with
    | (None, rt) => rt
    | (Some execution, rt) =>
        if decide (ex_transient_variables execution = ∅) then rt
        else rewrite_execution_json (set_transient_variables ∅ execution) rt
    end) (elements dirty_ids) rt.

Definition delete_execution (id : string) (rt : Runtime) : Runtime :=
  let rt := match session_find executions id (rt_session rt) with
            | Ok (Some execution) => mark_involved_process_instance execution rt
            | _ => rt
            end in
  let rt := delete_variables_by_execution_id id rt in
  let '(_, s) := session_delete executions id (rt_session rt) in
  let s := match db_act_ru_execution s !! id with
           | Some entity => or_note "dual-delete ACT_RU_EXECUTION flush" id
                              (act_delete (ee_id entity) s) s
           | None => s
           end in
  with_session s rt.

Definition snapshot_executions (rt : Runtime) : gmap string Execution * Runtime :=
  match session_find_all executions (rt_session rt) with
  | Ok found => (list_to_map ((fun e => (ex_id e, e)) <$> found), rt)
  | Err error => (∅, with_session (note_write_error error (rt_session rt)) rt)
  end.

Definition insert_compensation_subscription (sub : CompensationSubscription) (s : DbSession)
    : DbSession :=
  let max_order keep :=
    match session_max compensation_subscriptions "subscription_order" keep s with
    | Ok (Some n) => n
    | _ => 0%Z
    end in
  let order :=
    if (cs_subscription_order sub <=? 0)%Z then
      let existing_order := max_order (fun k => bool_decide (k = cs_id sub)) in
      if (0 <? existing_order)%Z then existing_order else (max_order (fun _ => true) + 1)%Z
    else cs_subscription_order sub in
  let sub := {| cs_id := cs_id sub; cs_process_instance_id := cs_process_instance_id sub;
                cs_execution_id := cs_execution_id sub; cs_activity_id := cs_activity_id sub;
                cs_compensation_activity_id := cs_compensation_activity_id sub;
                cs_subscription_order := order;
                cs_variables_snapshot := cs_variables_snapshot sub |} in
  (insert_with_extra compensation_subscriptions (cs_id sub) sub
     [("process_instance_id", Some (cs_process_instance_id sub));
      ("execution_id", Some (cs_execution_id sub));
      ("activity_id", Some (cs_activity_id sub));
      ("compensation_activity_id", Some (cs_compensation_activity_id sub));
      ("subscription_order", Some (pretty order))] s).2.

Definition delete_boundary_event_state (boundary_event_id process_instance_id : string)
    (s : DbSession) : DbSession :=
  let key := String.append process_instance_id (String.append ":" boundary_event_id) in
  (session_delete boundary_event_states key s).2.

(** ** Views and invariants *)

(** The executions a session holds, and the variable rows of one of them. *)
Definition view (s : DbSession) : gmap string Execution := row_data <$> db_executions s.

Definition variable_rows (s : DbSession) (i : string) : Table Value :=
  filter (fun kr => column_matches "execution_id" i kr.2 = true) (db_variables s).

(** The row-level variables of an execution: locals shadow process variables. *)
Definition row_variables (e : Execution) : gmap string Value :=
  ex_local_variables e ∪ ex_variables e.

Fixpoint has_colon (s : string) : bool :=
  match s with
  | EmptyString => false
  | String a s => Ascii.eqb a ":"%char || has_colon s
  end.

(** Ids as the engine generates them: no colon, and kept as they are by the
    typed projection columns. *)
Definition plain_id (i : string) : bool :=
  negb (has_colon i) && bool_decide (column_text (typed_extra i) = i).

(** The session is usable and no write failed so far. *)
Definition live (s : DbSession) : Prop := db_closed s = false /\ db_write_error s = None.

(** - a row is filed under its execution's id, and the id is plain;
    - [ACT_RU_EXECUTION] mirrors the execution rows, revision included;
    - the [variables] table holds, per execution, exactly its row variables. *)
Record store_wf (s : DbSession) : Prop := {
  wf_key : forall k e, view s !! k = Some e -> ex_id e = k /\ plain_id k = true;
  wf_mirror : db_act_ru_execution s = execution_to_entity <$> view s;
  wf_variables : forall i,
    row_data <$> variable_rows s i
    = match view s !! i with
      | Some e => kmap (variable_key i) (row_variables e)
      | None => ∅
      end
}.

(** Executions with transient variables are in the dirty register. *)
Record runtime_wf (rt : Runtime) : Prop := {
  wf_store : store_wf (rt_session rt);
  wf_dirty : forall k e, view (rt_session rt) !! k = Some e ->
    ex_transient_variables e <> ∅ -> k ∈ rt_transient_dirty rt
}.

(** *** Keys *)
#[export] Instance variable_key_inj i : Inj (=) (=) (variable_key i).
Proof.
  intros n n' H. unfold variable_key in H. induction i as [|a i IH]; simpl in H.
  - by injection H.
  - injection H as H. by apply IH.
Qed.

Lemma variable_key_plain i i' n n' :
  has_colon i = false -> has_colon i' = false -> variable_key i n = variable_key i' n' -> i = i'.
Proof.
  unfold variable_key. revert i'. induction i as [|a i IH]; intros [|a' i'] Hc Hc' H; simpl in *.
  - done.
  - injection H as <- _. apply orb_false_iff in Hc' as [Hc' _]. done.
  - injection H as -> _. apply orb_false_iff in Hc as [Hc _]. done.
  - apply orb_false_iff in Hc as [_ Hc]. apply orb_false_iff in Hc' as [_ Hc'].
    injection H as -> H. f_equal. by apply IH.
Qed.

Lemma plain_id_spec i :
  plain_id i = true <-> has_colon i = false /\ column_text (typed_extra i) = i.
Proof. unfold plain_id. rewrite andb_true_iff, negb_true_iff, bool_decide_eq_true. done. Qed.

(** *** Session operations on a live session *)
Lemma insert_with_extra_live {A} (t : TableRef A) i v x s :
  db_closed s = false ->
  insert_with_extra t i v x s
  = (Ok tt, tset t (<[i := mkRow v (typed_extras x)]> (tget t s)) s).
Proof.
  intros H. unfold insert_with_extra, insert_with_extra_inner, ensure_open. by rewrite H.
Qed.

Definition variable_row (e : Execution) (pi : string) (nv : string * Value) : Row Value :=
  mkRow nv.2 (typed_extras [("execution_id", Some (ex_id e)); ("process_instance_id", Some pi);
                            ("name", Some nv.1)]).

Definition projection (e : Execution) (pi : string) (m : gmap string Value) : Table Value :=
  list_to_map ((fun nv => (variable_key (ex_id e) nv.1, variable_row e pi nv)) <$> map_to_list m).

Lemma projection_data e pi m : row_data <$> projection e pi m = kmap (variable_key (ex_id e)) m.
Proof.
  unfold projection, kmap. rewrite <- list_to_map_fmap. f_equal.
  rewrite <- list_fmap_compose. apply list_fmap_ext. by intros ? [n v].
Qed.

Lemma projection_matches e pi m k r i :
  projection e pi m !! k = Some r ->
  column_matches "execution_id" i r = bool_decide (column_text (typed_extra (ex_id e)) = i).
Proof.
  intros H. apply elem_of_list_to_map_2, list_elem_of_fmap in H as ([n v] & [= -> ->] & _).
  done.
Qed.

Lemma project_variables_live e pi m s :
  db_closed s = false ->
  for_each (map_to_list m) (project_variable e pi) s
  = (Ok tt, tset variables (projection e pi m ∪ db_variables s) s).
Proof.
  intros Hc. unfold projection.
  assert (Hnd : NoDup (variable_key (ex_id e) <$> (map_to_list m).*1)).
  { apply NoDup_fmap_2; [apply _|]. apply NoDup_fst_map_to_list. }
  revert s Hc Hnd. generalize (map_to_list m). intros l.
  induction l as [|[n v] l IH]; intros s Hc Hnd; simpl.
  - unfold list_to_map. simpl. rewrite (left_id_L ∅ (∪)). by destruct s.
  - apply NoDup_cons in Hnd as [Hni Hnd].
    unfold mbind, stM_bind, project_variable at 1. rewrite insert_with_extra_live by done. simpl.
    rewrite IH by done. simpl. f_equal. f_equal.
    rewrite <- insert_union_l, <- insert_union_r; [done|].
    apply not_elem_of_list_to_map_1. intros Hin. apply Hni.
    rewrite <- list_fmap_compose in Hin.
    apply list_elem_of_fmap in Hin as (nv & Hk & Hin). apply list_elem_of_fmap.
    exists nv.1. split; [done|]. apply list_elem_of_fmap. eauto.
Qed.

(** *** Writing an execution *)
Definition act_revision (s : DbSession) (i : string) : Z :=
  match db_act_ru_execution s !! i with Some r => ee_revision r | None => 1%Z end.

(** The dual write always succeeds, and keeps the revision it finds. *)
Lemma dual_write_execution_eq e s :
  dual_write_execution e s
  = set_act_ru_execution
      (<[ex_id e := entity_with_revision (act_revision s (ex_id e)) e]> (db_act_ru_execution s)) s.
Proof.
  unfold dual_write_execution, act_revision, act_update, act_insert.
  destruct (db_act_ru_execution s !! ex_id e) as [row|] eqn:E; simpl; rewrite E; [|done].
  by rewrite bool_decide_true.
Qed.

Definition write_variables (e : Execution) (s : DbSession) : Table Value :=
  let pi := default EmptyString (ex_process_instance_id e) in
  projection e pi (ex_local_variables e)
  ∪ (projection e pi (ex_variables e)
     ∪ filter (fun kr => column_matches "execution_id" (ex_id e) kr.2 = false) (db_variables s)).

(** The session after [insert_execution]. *)
Definition write_session (e : Execution) (s : DbSession) : DbSession :=
  mkDbSession
    (<[ex_id e := mkRow e (typed_extras [("process_instance_id",
         Some (default EmptyString (ex_process_instance_id e)))])]> (db_executions s))
    (write_variables e s) (db_compensation_subscriptions s) (db_boundary_event_states s) (db_waits s)
    (<[ex_id e := entity_with_revision (act_revision s (ex_id e)) e]> (db_act_ru_execution s))
    (db_closed s) (db_write_error s).

Definition mark_write (e : Execution) (rt : Runtime) : Runtime :=
  let rt := mark_involved_process_instance e rt in
  if decide (ex_transient_variables e = ∅) then rt else mark_transient_dirty_execution (ex_id e) rt.

Lemma mark_involved_session e rt : rt_session (mark_involved_process_instance e rt) = rt_session rt.
Proof. unfold mark_involved_process_instance. by repeat case_match. Qed.

Lemma mark_involved_dirty e rt :
  rt_transient_dirty (mark_involved_process_instance e rt) = rt_transient_dirty rt.
Proof. unfold mark_involved_process_instance. by repeat case_match. Qed.

Lemma mark_write_session e rt : rt_session (mark_write e rt) = rt_session rt.
Proof. unfold mark_write. case_decide; simpl; apply mark_involved_session. Qed.

Lemma mark_write_dirty e rt :
  rt_transient_dirty rt ⊆ rt_transient_dirty (mark_write e rt)
  /\ (ex_transient_variables e <> ∅ -> ex_id e ∈ rt_transient_dirty (mark_write e rt)).
Proof.
  unfold mark_write. case_decide; simpl; rewrite mark_involved_dirty; set_solver.
Qed.

Lemma insert_execution_live e rt :
  db_closed (rt_session rt) = false ->
  insert_execution e rt
  = (Ok tt, with_session (write_session e (rt_session rt)) (mark_write e rt)).
Proof.
  intros Hc. unfold insert_execution.
  fold (mark_write e rt).
  change (if decide (ex_transient_variables e = ∅) then mark_involved_process_instance e rt
          else mark_transient_dirty_execution (ex_id e) (mark_involved_process_instance e rt))
    with (mark_write e rt).
  unfold delete_variables_by_execution_id, on_session, session_delete_by, ensure_open.
  rewrite mark_write_session, Hc. simpl. unfold mbind, stM_bind.
  rewrite project_variables_live by done. simpl.
  rewrite project_variables_live by done. simpl.
  rewrite insert_with_extra_live by done. simpl. rewrite dual_write_execution_eq. simpl.
  unfold write_session, with_session. simpl. by rewrite Hc.
Qed.

Lemma view_write e s : view (write_session e s) = <[ex_id e := e]> (view s).
Proof. unfold view. simpl. by rewrite fmap_insert. Qed.

Lemma act_revision_wf s i : store_wf s -> act_revision s i = 1%Z.
Proof.
  intros H. unfold act_revision. rewrite (wf_mirror s H), lookup_fmap.
  by destruct (view s !! i).
Qed.

Lemma projection_key e pi m k r :
  projection e pi m !! k = Some r -> exists n, k = variable_key (ex_id e) n.
Proof.
  intros H. apply elem_of_list_to_map_2, list_elem_of_fmap in H as ([n v] & [= -> ->] & _). eauto.
Qed.

Lemma variable_rows_lookup s i k :
  variable_rows s i !! k
  = match db_variables s !! k with
    | Some r => if column_matches "execution_id" i r then Some r else None
    | None => None
    end.
Proof.
  unfold variable_rows. destruct (db_variables s !! k) as [r|] eqn:E.
  - destruct (column_matches "execution_id" i r) eqn:Hm.
    + by apply map_lookup_filter_Some.
    + apply map_lookup_filter_None. right. intros r' Hr. simpl. congruence.
  - apply map_lookup_filter_None. by left.
Qed.

Lemma write_variables_lookup e s k :
  write_variables e s !! k
  = match (projection e (default EmptyString (ex_process_instance_id e)) (ex_local_variables e)
           ∪ projection e (default EmptyString (ex_process_instance_id e)) (ex_variables e)) !! k with
    | Some r => Some r
    | None => match db_variables s !! k with
              | Some r => if column_matches "execution_id" (ex_id e) r then None else Some r
              | None => None
              end
    end.
Proof.
  unfold write_variables. rewrite (assoc_L (∪)), lookup_union.
  set (L := projection _ _ _ ∪ projection _ _ _). destruct (L !! k); simpl; [by destruct (filter _ _ !! k)|].
  rewrite left_id by apply _.
  destruct (db_variables s !! k) as [r|] eqn:E.
  - destruct (column_matches "execution_id" (ex_id e) r) eqn:Hm.
    + apply map_lookup_filter_None. right. intros r' Hr. simpl. congruence.
    + by apply map_lookup_filter_Some.
  - apply map_lookup_filter_None. by left.
Qed.

Section WriteWf.
Context (e : Execution) (s : DbSession) (Hwf : store_wf s) (Hplain : plain_id (ex_id e) = true).
Let L := projection e (default EmptyString (ex_process_instance_id e)) (ex_local_variables e)
         ∪ projection e (default EmptyString (ex_process_instance_id e)) (ex_variables e).

Lemma written_rows k r : L !! k = Some r ->
  (exists n, k = variable_key (ex_id e) n)
  /\ forall i, column_matches "execution_id" i r = bool_decide (ex_id e = i).
Proof.
  apply plain_id_spec in Hplain as [_ Hcol].
  intros H. apply lookup_union_Some_raw in H as [H|[_ H]];
    (split; [by eapply projection_key|]); intros i;
    erewrite projection_matches by exact H; by rewrite Hcol.
Qed.

Lemma written_data : row_data <$> L = kmap (variable_key (ex_id e)) (row_variables e).
Proof.
  unfold L, row_variables. rewrite map_fmap_union, !projection_data.
  symmetry. apply kmap_union. apply _.
Qed.

(** A row of another execution is not overwritten. *)
Lemma other_row_kept i k r :
  i <> ex_id e -> variable_rows s i !! k = Some r -> L !! k = None.
Proof.
  intros Hne Hr. destruct (L !! k) as [r'|] eqn:HL; [|done]. exfalso.
  destruct (written_rows _ _ HL) as [[n ->] _].
  assert (Hd : (row_data <$> variable_rows s i) !! variable_key (ex_id e) n = Some (row_data r)).
  { by rewrite lookup_fmap, Hr. }
  rewrite (wf_variables s Hwf i) in Hd. destruct (view s !! i) as [e'|] eqn:Hv; [|done].
  apply lookup_kmap_Some in Hd as (n' & Hk & _); [|apply _].
  destruct (wf_key s Hwf i e' Hv) as [_ Hp].
  apply plain_id_spec in Hp as [Hc _]. apply plain_id_spec in Hplain as [Hc' _].
  apply Hne. symmetry. by eapply variable_key_plain.
Qed.

Lemma write_rows i :
  variable_rows (write_session e s) i
  = if decide (i = ex_id e) then L else variable_rows s i.
Proof.
  apply map_eq. intros k. rewrite variable_rows_lookup. simpl.
  rewrite write_variables_lookup. fold L. destruct (L !! k) as [r|] eqn:HL.
  - destruct (written_rows _ _ HL) as [_ Hm]. rewrite Hm.
    case_decide as Hi; [subst; by rewrite bool_decide_true|].
    rewrite bool_decide_false by done.
    destruct (variable_rows s i !! k) eqn:Hr; [|done].
    rewrite (other_row_kept _ _ _ Hi Hr) in HL. done.
  - case_decide as Hi.
    + subst. rewrite HL. destruct (db_variables s !! k) as [r|]; [|done].
      by destruct (column_matches "execution_id" (ex_id e) r) eqn:Hm; rewrite ?Hm.
    + rewrite variable_rows_lookup. destruct (db_variables s !! k) as [r|] eqn:Hr; [|done].
      destruct (column_matches "execution_id" (ex_id e) r) eqn:Hm; [|done].
      unfold column_matches in *. destruct (map_get "execution_id" (row_extras r)); [|done].
      apply bool_decide_eq_true in Hm. rewrite bool_decide_false by congruence. done.
Qed.

Lemma write_session_wf : store_wf (write_session e s).
Proof.
  split.
  - intros k e'. rewrite view_write, lookup_insert_Some.
    intros [[<- <-]|[_ H]]; [done|by apply (wf_key s Hwf)].
  - rewrite view_write, fmap_insert. simpl. rewrite (wf_mirror s Hwf).
    by rewrite (act_revision_wf s _ Hwf).
  - intros i. rewrite write_rows, view_write. case_decide as Hi.
    + subst. rewrite lookup_insert_eq. apply written_data.
    + rewrite lookup_insert_ne by done. apply (wf_variables s Hwf).
Qed.
End WriteWf.

(** *** Deleting an execution *)
Definition erase_session (i : string) (s : DbSession) : DbSession :=
  mkDbSession (delete i (db_executions s))
    (filter (fun kr => column_matches "execution_id" i kr.2 = false) (db_variables s))
    (db_compensation_subscriptions s) (db_boundary_event_states s) (db_waits s)
    (delete i (db_act_ru_execution s)) (db_closed s) (db_write_error s).

Definition mark_delete (i : string) (rt : Runtime) : Runtime :=
  match view (rt_session rt) !! i with
  | Some e => mark_involved_process_instance e rt
  | None => rt
  end.

Lemma mark_delete_session i rt : rt_session (mark_delete i rt) = rt_session rt.
Proof. unfold mark_delete. case_match; [apply mark_involved_session|done]. Qed.

Lemma mark_delete_dirty i rt : rt_transient_dirty (mark_delete i rt) = rt_transient_dirty rt.
Proof. unfold mark_delete. case_match; [apply mark_involved_dirty|done]. Qed.

Lemma delete_execution_live i rt :
  db_closed (rt_session rt) = false -> store_wf (rt_session rt) ->
  delete_execution i rt = with_session (erase_session i (rt_session rt)) (mark_delete i rt).
Proof.
  intros Hc Hwf. unfold delete_execution, session_find, ensure_open. rewrite Hc.
  change (row_data <$> tget executions (rt_session rt) !! i)
    with (row_data <$> (db_executions (rt_session rt) !! i)).
  rewrite <- lookup_fmap. fold (view (rt_session rt)). fold (mark_delete i rt).
  unfold delete_variables_by_execution_id, on_session, session_delete_by, ensure_open.
  rewrite mark_delete_session, Hc. simpl.
  unfold session_delete, ensure_open. simpl. rewrite Hc. simpl. unfold erase_session, with_session. simpl.
  assert (Hl : db_act_ru_execution (rt_session rt) !! i
               = execution_to_entity <$> view (rt_session rt) !! i).
  { by rewrite (wf_mirror _ Hwf), lookup_fmap. }
  rewrite Hl. destruct (view (rt_session rt) !! i) as [e|] eqn:Hv; simpl in *.
  - unfold act_delete. simpl. destruct (wf_key _ Hwf _ _ Hv) as [-> _].
    rewrite Hl. simpl. by rewrite Hc.
  - rewrite (delete_id (db_act_ru_execution (rt_session rt))) by done. by rewrite Hc.
Qed.

Lemma view_erase i s : view (erase_session i s) = delete i (view s).
Proof. unfold view. simpl. by rewrite fmap_delete. Qed.

Lemma erase_session_wf i s : store_wf s -> store_wf (erase_session i s).
Proof.
  intros Hwf. split.
  - intros k e. rewrite view_erase, lookup_delete_Some. intros [_ H]. by apply (wf_key s Hwf).
  - rewrite view_erase, fmap_delete. simpl. by rewrite (wf_mirror s Hwf).
  - intros j.
    assert (Hrows : variable_rows (erase_session i s) j
                    = if decide (j = i) then ∅ else variable_rows s j).
    { apply map_eq. intros k. rewrite variable_rows_lookup. simpl.
      assert (Hf : forall r, filter (fun kr => column_matches "execution_id" i kr.2 = false)
        (db_variables s) !! k = Some r -> column_matches "execution_id" i r = false
        /\ db_variables s !! k = Some r).
      { intros r Hr. by apply map_lookup_filter_Some in Hr as [? ?]. }
      destruct (filter _ (db_variables s) !! k) as [r|] eqn:Er.
      - destruct (Hf r eq_refl) as [Hm Hr]. case_decide as Hj; [subst j; by rewrite Hm|].
        by rewrite variable_rows_lookup, Hr.
      - case_decide as Hj; [done|]. rewrite variable_rows_lookup.
        destruct (db_variables s !! k) as [r|] eqn:Hr; [|done].
        apply map_lookup_filter_None in Er as [Er|Er]; [congruence|].
        specialize (Er r Hr). simpl in Er. unfold column_matches in *.
        destruct (map_get "execution_id" (row_extras r)) as [v|]; [|done].
        apply not_false_is_true, bool_decide_eq_true in Er. 
        rewrite bool_decide_false by congruence. done. }
    rewrite Hrows, view_erase. case_decide as Hj.
    + subst. rewrite lookup_delete_eq. by rewrite fmap_empty.
    + rewrite lookup_delete_ne by done. apply (wf_variables s Hwf).
Qed.

(** *** Reads on a live session *)
Lemma find_execution_live i rt :
  db_closed (rt_session rt) = false ->
  find_execution i rt = (view (rt_session rt) !! i, rt).
Proof.
  intros Hc. unfold find_execution, session_find, ensure_open. rewrite Hc.
  unfold view. by rewrite lookup_fmap.
Qed.

Lemma snapshot_executions_live rt :
  db_closed (rt_session rt) = false -> store_wf (rt_session rt) ->
  snapshot_executions rt = (view (rt_session rt), rt).
Proof.
  intros Hc Hwf. unfold snapshot_executions, session_find_all, ensure_open. rewrite Hc. f_equal.
  set (s := rt_session rt) in *. simpl.
  transitivity (list_to_map (map_to_list (view s)) : gmap string Execution);
    [|apply list_to_map_to_list].
  f_equal. unfold view. rewrite map_to_list_fmap, <- !list_fmap_compose.
  apply list_fmap_ext. intros j [k r] Hin. simpl. f_equal.
  apply list_elem_of_lookup_2, elem_of_map_to_list in Hin.
  apply (wf_key s Hwf). unfold view. by rewrite lookup_fmap, Hin.
Qed.

(** *** Stripping the transient variables *)
Definition rewrite_session (e : Execution) (s : DbSession) : DbSession :=
  mkDbSession
    (<[ex_id e := mkRow e (typed_extras [("process_instance_id",
         Some (default EmptyString (ex_process_instance_id e)))])]> (db_executions s))
    (db_variables s) (db_compensation_subscriptions s) (db_boundary_event_states s) (db_waits s)
    (<[ex_id e := entity_with_revision (act_revision s (ex_id e)) e]> (db_act_ru_execution s))
    (db_closed s) (db_write_error s).

Lemma rewrite_execution_json_live e rt :
  db_closed (rt_session rt) = false ->
  rewrite_execution_json e rt = with_session (rewrite_session e (rt_session rt)) rt.
Proof.
  intros Hc. unfold rewrite_execution_json. rewrite insert_with_extra_live by done. simpl.
  rewrite dual_write_execution_eq. unfold rewrite_session. simpl. done.
Qed.

Lemma rewrite_session_wf e e0 s :
  store_wf s -> view s !! ex_id e = Some e0 -> row_variables e = row_variables e0 ->
  store_wf (rewrite_session e s).
Proof.
  intros Hwf He0 Hrv.
  assert (Hview : view (rewrite_session e s) = <[ex_id e := e]> (view s)).
  { unfold view. simpl. by rewrite fmap_insert. }
  split; rewrite Hview.
  - intros k e'. rewrite lookup_insert_Some.
    intros [[<- <-]|[_ H]]; [|by apply (wf_key s Hwf)].
    split; [done|]. by apply (wf_key s Hwf _ _ He0).
  - rewrite fmap_insert. simpl. by rewrite (wf_mirror s Hwf), (act_revision_wf s _ Hwf).
  - intros i. change (variable_rows (rewrite_session e s) i) with (variable_rows s i).
    rewrite (wf_variables s Hwf i). destruct (decide (i = ex_id e)) as [->|Hne].
    + by rewrite lookup_insert_eq, He0, Hrv.
    + by rewrite lookup_insert_ne.
Qed.

Definition strip_step (rt : Runtime) (id : string) : Runtime :=
  match find_execution id rt with
  | (None, rt) => rt
  | (Some execution, rt) =>
      if decide (ex_transient_variables execution = ∅) then rt
      else rewrite_execution_json (set_transient_variables ∅ execution) rt
  end.

Lemma set_transient_id e : ex_transient_variables e = ∅ -> set_transient_variables ∅ e = e.
Proof. intros H. destruct e. simpl in *. by subst. Qed.

Lemma strip_step_live rt id :
  db_closed (rt_session rt) = false -> store_wf (rt_session rt) ->
  db_closed (rt_session (strip_step rt id)) = false
  /\ store_wf (rt_session (strip_step rt id))
  /\ view (rt_session (strip_step rt id)) = alter (set_transient_variables ∅) id (view (rt_session rt))
  /\ rt_transient_dirty (strip_step rt id) = rt_transient_dirty rt
  /\ db_write_error (rt_session (strip_step rt id)) = db_write_error (rt_session rt).
Proof.
  intros Hc Hwf. unfold strip_step. rewrite find_execution_live by done.
  destruct (view (rt_session rt) !! id) as [e|] eqn:Hv.
  - destruct (wf_key _ Hwf _ _ Hv) as [Hid _].
    assert (Halter : forall e', e' = set_transient_variables ∅ e ->
      <[id := e']> (view (rt_session rt)) = alter (set_transient_variables ∅) id (view (rt_session rt))).
    { intros e' ->. apply map_eq. intros k. destruct (decide (k = id)) as [->|Hne].
      - by rewrite lookup_insert_eq, lookup_alter_eq, Hv.
      - by rewrite lookup_insert_ne, lookup_alter_ne. }
    case_decide as Ht.
    + split_and!; try done. rewrite <- (Halter e); [by rewrite insert_id|].
      by rewrite set_transient_id.
    + rewrite rewrite_execution_json_live by done. simpl. split_and!; try done.
      * eapply rewrite_session_wf; [done|simpl; by rewrite Hid|done].
      * unfold view at 1. simpl. rewrite fmap_insert. simpl. rewrite Hid. by apply Halter.
  - split_and!; try done. symmetry. apply map_eq. intros k.
    destruct (decide (k = id)) as [->|Hne]; [by rewrite lookup_alter_eq, Hv|by rewrite lookup_alter_ne].
Qed.

Lemma strip_fold rt l :
  db_closed (rt_session rt) = false -> store_wf (rt_session rt) ->
  let rt' := fold_left strip_step l rt in
  db_closed (rt_session rt') = false /\ store_wf (rt_session rt')
  /\ rt_transient_dirty rt' = rt_transient_dirty rt
  /\ db_write_error (rt_session rt') = db_write_error (rt_session rt)
  /\ forall k, view (rt_session rt') !! k
               = if decide (k ∈ l) then set_transient_variables ∅ <$> view (rt_session rt) !! k
                 else view (rt_session rt) !! k.
Proof.
  revert rt. induction l as [|i l IH]; intros rt Hc Hwf; simpl.
  - by split_and!.
  - destruct (strip_step_live rt i Hc Hwf) as (Hc1 & Hwf1 & Hv1 & Hd1 & He1).
    destruct (IH (strip_step rt i) Hc1 Hwf1) as (Hc2 & Hwf2 & Hd2 & He2 & Hv2).
    split_and!; try done; [by rewrite Hd2|by rewrite He2|].
    intros k. rewrite Hv2, Hv1. destruct (decide (k = i)) as [->|Hne].
    + rewrite lookup_alter_eq. rewrite (decide_True (P := i ∈ i :: l)) by left.
      case_decide; destruct (view (rt_session rt) !! i); done.
    + rewrite lookup_alter_ne by done. destruct (decide (k ∈ l)).
      * by rewrite decide_True by (by right).
      * rewrite decide_False; [done|]. rewrite elem_of_cons. naive_solver.
Qed.

(** *** Numbers in projection columns *)
Lemma typed_extra_pretty n : (i64_min <= n <= i64_max)%Z -> typed_extra (pretty n) = DbInteger n.
Proof. intros Hn. unfold typed_extra. by rewrite parse_i64_pretty. Qed.

(** ** Theorems *)

(** C29: writing an execution on a live session succeeds: the row is filed under
    its id, every other execution is untouched, and the store is well formed
    again, that is, the [variables] table holds exactly the row variables of
    each execution and [ACT_RU_EXECUTION] mirrors the execution rows. *)
Theorem insert_execution_correct e rt :
  runtime_wf rt -> live (rt_session rt) -> plain_id (ex_id e) = true ->
  exists rt', insert_execution e rt = (Ok tt, rt')
    /\ runtime_wf rt' /\ live (rt_session rt')
    /\ view (rt_session rt') = <[ex_id e := e]> (view (rt_session rt)).
Proof.
  intros [Hwf Hd] [Hc He] Hp. eexists. split; [by apply insert_execution_live|].
  destruct (mark_write_dirty e rt) as [Hd1 Hd2]. split_and!; [split|by split|apply view_write].
  - simpl. by apply write_session_wf.
  - simpl. intros k e'. rewrite view_write, lookup_insert_Some.
    intros [[<- <-]|[_ Hv]] Ht; [by apply Hd2|]. apply Hd1. by eapply Hd.
Qed.

(** Deleting an execution removes its row and no other, and keeps the store
    well formed: its projected variables and its [ACT_RU_EXECUTION] row are gone
    as well, those of the other executions are untouched. *)
Theorem delete_execution_correct i rt :
  runtime_wf rt -> live (rt_session rt) ->
  runtime_wf (delete_execution i rt) /\ live (rt_session (delete_execution i rt))
  /\ view (rt_session (delete_execution i rt)) = delete i (view (rt_session rt)).
Proof.
  intros [Hwf Hd] [Hc He]. rewrite delete_execution_live by done. simpl.
  split_and!; [split|by split|apply view_erase].
  - by apply erase_session_wf.
  - intros k e. simpl. rewrite view_erase, lookup_delete_Some, mark_delete_dirty.
    intros [_ Hv]. by apply Hd.
Qed.

(** The end-of-command strip clears the transient variables of every
    execution, changes nothing else of the rows, and empties the dirty set. *)
Theorem strip_transient_correct rt :
  runtime_wf rt -> live (rt_session rt) ->
  let rt' := strip_transient_variables_before_commit rt in
  runtime_wf rt' /\ live (rt_session rt') /\ rt_transient_dirty rt' = ∅
  /\ view (rt_session rt') = set_transient_variables ∅ <$> view (rt_session rt).
Proof.
  intros [Hwf Hd] [Hc He] rt'.
  pose proof (strip_fold (take_transient_dirty_execution_ids rt).2
                (elements (rt_transient_dirty rt)) Hc Hwf) as (Hc' & Hwf' & Hd' & He' & Hv').
  change (fold_left strip_step _ _) with rt' in Hc', Hwf', Hd', He', Hv'. simpl in Hd', He', Hv'.
  assert (Hview : view (rt_session rt') = set_transient_variables ∅ <$> view (rt_session rt)).
  { apply map_eq. intros k. rewrite Hv', lookup_fmap. case_decide as Hk; [done|].
    destruct (view (rt_session rt) !! k) as [e|] eqn:Hve; [|done]. simpl. f_equal.
    symmetry. apply set_transient_id. destruct (decide (ex_transient_variables e = ∅)); [done|].
    destruct Hk. rewrite elem_of_elements. by eapply Hd. }
  split_and!; [split| |done|done].
  - done.
  - intros k e. rewrite Hview, lookup_fmap_Some. intros (e' & <- & _) Ht. done.
  - split; [done|]. by rewrite He'.
Qed.

(** A write on a closed session fails, changes no table, and leaves the
    failure on the session so that a later commit cannot succeed. *)
Theorem insert_execution_closed e rt :
  db_closed (rt_session rt) = true ->
  exists rt', insert_execution e rt = (Err ClosedTransaction, rt')
    /\ db_executions (rt_session rt') = db_executions (rt_session rt)
    /\ db_variables (rt_session rt') = db_variables (rt_session rt)
    /\ db_act_ru_execution (rt_session rt') = db_act_ru_execution (rt_session rt)
    /\ is_Some (db_write_error (rt_session rt')).
Proof.
  intros Hc. unfold insert_execution.
  change (if decide (ex_transient_variables e = ∅) then mark_involved_process_instance e rt
          else mark_transient_dirty_execution (ex_id e) (mark_involved_process_instance e rt))
    with (mark_write e rt).
  unfold delete_variables_by_execution_id, on_session, session_delete_by, ensure_open.
  rewrite mark_write_session, Hc. simpl.
  set (s := note_write_error ClosedTransaction (rt_session rt)).
  assert (Hs : db_closed s = true /\ is_Some (db_write_error s)).
  { unfold s, note_write_error. by destruct (db_write_error (rt_session rt)) eqn:E; simpl; rewrite ?E. }
  destruct Hs as [Hs1 Hs2].
  assert (Hins : forall A (t : TableRef A) i v x,
    insert_with_extra t i v x s = (Err ClosedTransaction, s)).
  { intros A t i v x. unfold insert_with_extra, insert_with_extra_inner, ensure_open. rewrite Hs1.
    simpl. unfold note_write_error. by destruct Hs2 as [? ->]. }
  assert (Hfor : forall l pi, for_each l (project_variable e pi) s
    = (Ok tt, s) \/ for_each l (project_variable e pi) s = (Err ClosedTransaction, s)).
  { intros [|nv l] pi; [by left|right]. simpl. unfold mbind, stM_bind, project_variable at 1.
    by rewrite Hins. }
  exists (with_session s (mark_write e rt)). unfold mbind, stM_bind.
  split; [|unfold s, note_write_error; by destruct (db_write_error (rt_session rt)) eqn:E; simpl;
           rewrite ?E].
  destruct (Hfor (map_to_list (ex_variables e)) (default EmptyString (ex_process_instance_id e)))
    as [->| ->]; [|done].
  destruct (Hfor (map_to_list (ex_local_variables e)) (default EmptyString (ex_process_instance_id e)))
    as [->| ->]; [|done].
  by rewrite Hins.
Qed.

(** *** Order of compensation subscriptions *)
Definition subscription_order_of (r : Row CompensationSubscription) : Z :=
  cs_subscription_order (row_data r).

(** Rows carry their order in the projection column; orders are positive and
    one more still fits an [i64]. *)
Definition subscriptions_wf (s : DbSession) : Prop :=
  forall k r, db_compensation_subscriptions s !! k = Some r ->
    map_get "subscription_order" (row_extras r) = Some (DbInteger (subscription_order_of r))
    /\ (0 < subscription_order_of r)%Z.

Definition max_orders (l : list Z) : option Z :=
  fold_right (fun n acc => match acc with Some m => Some (Z.max n m) | None => Some n end) None l.

Lemma max_orders_spec l :
  match max_orders l with
  | None => l = []
  | Some m => m ∈ l /\ forall n, n ∈ l -> (n <= m)%Z
  end.
Proof.
  induction l as [|x l IH]; simpl; [done|]. destruct (max_orders l) as [m|].
  - destruct IH as [Hm Hle]. split.
    + destruct (Z.max_spec x m) as [[_ ->]|[_ ->]]; [by right|left].
    + intros n Hn. apply elem_of_cons in Hn as [->|Hn]; [lia|]. specialize (Hle n Hn). lia.
  - subst. split; [left|]. intros n Hn. apply elem_of_cons in Hn as [->|Hn]; [lia|].
    by apply not_elem_of_nil in Hn.
Qed.

Lemma subscription_max s keep :
  db_closed s = false -> subscriptions_wf s ->
  exists l, session_max compensation_subscriptions "subscription_order" keep s
            = Ok (max_orders l)
    /\ forall n, n ∈ l <-> exists k r, db_compensation_subscriptions s !! k = Some r
                             /\ keep k = true /\ n = subscription_order_of r.
Proof.
  intros Hc Hwf. unfold session_max, ensure_open. rewrite Hc. eexists. split; [reflexivity|].
  intros n. rewrite list_elem_of_omap. split.
  - intros ([k r] & Hin & Hn). simpl in *. apply elem_of_map_to_list in Hin. exists k, r.
    destruct (keep k); [|done]. destruct (Hwf k r Hin) as [Hcol _].
    rewrite Hcol in Hn. injection Hn as <-. done.
  - intros (k & r & Hkr & Hk & ->). exists (k, r). split; [by apply elem_of_map_to_list|].
    simpl. rewrite Hk. destruct (Hwf k r Hkr) as [Hcol _]. by rewrite Hcol.
Qed.

(** A new subscription is ordered after every subscription already
    recorded, so that compensation can run in reverse order. *)
Theorem compensation_order_increases sub s :
  live s -> subscriptions_wf s -> (cs_subscription_order sub <= 0)%Z ->
  db_compensation_subscriptions s !! cs_id sub = None ->
  (forall k r, db_compensation_subscriptions s !! k = Some r ->
     subscription_order_of r < 2 ^ 63 - 1)%Z ->
  let s' := insert_compensation_subscription sub s in
  live s' /\ subscriptions_wf s'
  /\ exists row, db_compensation_subscriptions s'
                 = <[cs_id sub := row]> (db_compensation_subscriptions s)
       /\ cs_variables_snapshot (row_data row) = cs_variables_snapshot sub
       /\ forall k r, db_compensation_subscriptions s !! k = Some r ->
            (subscription_order_of r < subscription_order_of row)%Z.
Proof.
  intros [Hc He] Hwf Hle Hfresh Hmax s'.
  destruct (subscription_max s (fun k => bool_decide (k = cs_id sub)) Hc Hwf) as (l1 & Hl1 & Hin1).
  destruct (subscription_max s (fun _ => true) Hc Hwf) as (l2 & Hl2 & Hin2).
  assert (l1 = []) as ->.
  { destruct l1 as [|n l1]; [done|]. destruct (proj1 (Hin1 n)) as (k & r & Hkr & Hk & _); [left|].
    apply bool_decide_eq_true in Hk as ->. congruence. }
  set (m := match max_orders l2 with Some m => m | None => 0%Z end).
  assert (Hm : (0 <= m < 2 ^ 63 - 1)%Z /\ forall k r,
    db_compensation_subscriptions s !! k = Some r -> (subscription_order_of r <= m)%Z).
  { pose proof (max_orders_spec l2) as Hspec. unfold m. destruct (max_orders l2) as [m'|].
    - destruct Hspec as [Hml Hall]. apply Hin2 in Hml as (k & r & Hkr & _ & ->). split.
      + specialize (Hmax k r Hkr). destruct (Hwf k r Hkr). lia.
      + intros k' r' Hkr'. apply Hall, Hin2. eauto 10.
    - split; [lia|]. intros k r Hkr. subst l2.
      assert (subscription_order_of r ∈ []) as Hn by (apply Hin2; eauto 10).
      by apply not_elem_of_nil in Hn. }
  destruct Hm as [Hm Hall].
  assert (Hs' : exists row, s' = tset compensation_subscriptions
      (<[cs_id sub := row]> (db_compensation_subscriptions s)) s
      /\ subscription_order_of row = (m + 1)%Z
      /\ cs_variables_snapshot (row_data row) = cs_variables_snapshot sub
      /\ map_get "subscription_order" (row_extras row) = Some (DbInteger (m + 1)%Z)).
  { unfold s', insert_compensation_subscription. rewrite Hl1, Hl2. simpl max_orders. cbv zeta.
    fold m. rewrite (proj2 (Z.leb_le _ _) Hle). simpl (0 <? 0)%Z. cbv iota.
    rewrite insert_with_extra_live by done. eexists. split; [reflexivity|].
    split_and!; [done|done|]. simpl. rewrite typed_extra_pretty by (unfold i64_min, i64_max; lia). done. }
  destruct Hs' as (row & -> & Hord & Hsnap & Hcol). simpl. split_and!; [by split| |].
  - intros k r. simpl. rewrite lookup_insert_Some.
    intros [[<- <-]|[_ Hr]]; [|exact (Hwf k r Hr)]. rewrite Hcol, Hord. split; [done|lia].
  - exists row. split_and!; try done. intros k r Hkr. specialize (Hall k r Hkr). lia.
Qed.

(** [ExecutionDataManager::update] writes back the revision it read, so
    the revision of a row never changes, however often it is written. *)
Theorem revision_never_advances e s row :
  db_act_ru_execution s !! ex_id e = Some row ->
  ee_revision <$> db_act_ru_execution (dual_write_execution e s) !! ex_id e
  = Some (ee_revision row).
Proof.
  intros H. rewrite dual_write_execution_eq. simpl. rewrite lookup_insert_eq. simpl.
  unfold act_revision. by rewrite H.
Qed.

(** A variable whose name reads as an integer is projected with its name
    column rewritten: the row of ["007"] carries the text ["7"]. *)
Theorem numeric_name_rewritten e s :
  db_closed s = false ->
  exists r, db_variables (project_variable e "pi" ("007", VNull) s).2
              !! variable_key (ex_id e) "007" = Some r
    /\ column_matches "name" "7" r = true /\ column_matches "name" "007" r = false.
Proof.
  intros Hc. unfold project_variable. rewrite insert_with_extra_live by done. simpl.
  rewrite lookup_insert_eq. eexists. split; [reflexivity|]. split; vm_compute; reflexivity.
Qed.

(** ** Instances of the theorems *)
Definition runtime_new : Runtime := mkRuntime session_new ∅ ∅.

Lemma runtime_new_wf : runtime_wf runtime_new.
Proof.
  split; [split|].
  - intros k e H. unfold view in H. simpl in H. by rewrite fmap_empty in H.
  - simpl. unfold view. simpl. by rewrite !fmap_empty.
  - intros i. unfold view, variable_rows. simpl. rewrite map_filter_empty, !fmap_empty. done.
  - intros k e H. unfold view in H. simpl in H. by rewrite fmap_empty in H.
Qed.

Lemma runtime_new_live : live (rt_session runtime_new).
Proof. done. Qed.

(** A process instance's scope execution, waiting at a join. *)
Definition sample_root : Execution :=
  mkExecution "pi-1" None None (Some "pi-1") (Some "pi-1") (Some "proc:1") None None None
    (Some "join") None None None false false true false true false None None None
    {["amount" := VNumber (PosInt 42)]} ∅ {["tmp" := VBool true]} false.

Lemma insert_execution_correct_witness :
  exists rt', insert_execution sample_root runtime_new = (Ok tt, rt')
    /\ runtime_wf rt' /\ live (rt_session rt')
    /\ view (rt_session rt') = <[ex_id sample_root := sample_root]> (view (rt_session runtime_new)).
Proof.
  apply (insert_execution_correct sample_root runtime_new runtime_new_wf runtime_new_live).
  vm_compute. reflexivity.
Defined.

Definition sample_runtime : Runtime := (insert_execution sample_root runtime_new).2.

Lemma sample_runtime_wf : runtime_wf sample_runtime /\ live (rt_session sample_runtime).
Proof.
  unfold sample_runtime. rewrite insert_execution_live by done. split; [split|done].
  - apply write_session_wf; [apply runtime_new_wf|done].
  - simpl. intros k e. rewrite view_write, lookup_insert_Some.
    intros [[<- <-]|[_ Hv]] _; [|unfold view in Hv; simpl in Hv; by rewrite fmap_empty in Hv].
    by apply (bool_decide_unpack _); vm_compute.
Qed.

Lemma delete_execution_correct_witness :
  view (rt_session (delete_execution "pi-1" sample_runtime))
  = delete "pi-1" (view (rt_session sample_runtime)).
Proof.
  apply (delete_execution_correct "pi-1" sample_runtime (proj1 sample_runtime_wf)
           (proj2 sample_runtime_wf)).
Defined.

Lemma strip_transient_correct_witness :
  view (rt_session (strip_transient_variables_before_commit sample_runtime))
  = set_transient_variables ∅ <$> view (rt_session sample_runtime).
Proof.
  apply (strip_transient_correct sample_runtime (proj1 sample_runtime_wf)
           (proj2 sample_runtime_wf)).
Defined.

Lemma insert_execution_closed_witness :
  exists rt', insert_execution sample_root
                (mkRuntime (mkDbSession ∅ ∅ ∅ ∅ waits_new ∅ true None) ∅ ∅) = (Err ClosedTransaction, rt')
    /\ is_Some (db_write_error (rt_session rt')).
Proof.
  destruct (insert_execution_closed sample_root (mkRuntime (mkDbSession ∅ ∅ ∅ ∅ waits_new ∅ true None) ∅ ∅)
              eq_refl) as (rt' & H1 & _ & _ & _ & H2).
  exists rt'. split; [exact H1|exact H2].
Defined.

Definition sample_subscription : CompensationSubscription :=
  {| cs_id := "sub-1"; cs_process_instance_id := "pi-1"; cs_execution_id := "e-1";
     cs_activity_id := "book"; cs_compensation_activity_id := "cancel";
     cs_subscription_order := 0; cs_variables_snapshot := ∅ |}.

Lemma compensation_order_increases_witness :
  subscriptions_wf (insert_compensation_subscription sample_subscription session_new).
Proof.
  apply (compensation_order_increases sample_subscription session_new).
  - split; reflexivity.
  - intros k r H. discriminate H.
  - vm_compute. discriminate.
  - reflexivity.
  - intros k r H. discriminate H.
Defined.

Lemma revision_never_advances_witness :
  ee_revision <$> db_act_ru_execution
     (dual_write_execution sample_root (rt_session sample_runtime)) !! "pi-1" = Some 1%Z.
Proof.
  apply (revision_never_advances sample_root (rt_session sample_runtime)
           (execution_to_entity sample_root)).
  vm_compute. reflexivity.
Defined.

Lemma numeric_name_rewritten_witness :
  exists r, db_variables (project_variable sample_root "pi" ("007", VNull) session_new).2
              !! variable_key "pi-1" "007" = Some r
    /\ column_matches "name" "7" r = true /\ column_matches "name" "007" r = false.
Proof. apply (numeric_name_rewritten sample_root session_new eq_refl). Defined.
