(* ===== verification/JobTypes.v ===== *)
(** * Jobs: rows, columns and the session

    The state of asynchronous jobs and timers: [RuntimeTimerJobState] and the
    lock records of [flowable-engine/src/persistence/runtime_store.rs], and the
    operations of [db_session.rs] they are stored with.

    A row keeps the entity twice: as JSON (here the record itself) and as
    projected columns, which the filters and the conditional updates read.  A
    conditional update names the columns it sets and the values it expects in
    others; SQL compares and assigns a value that reads as an integer as that
    integer, so a [TEXT] column holds its canonical decimal text.

    [ORDER BY] leaves the order of equal keys open: [SqlOrder] is any sort. *)
From stdpp Require Import pretty.
From Stdlib Require Import Sorting.Sorted.
From S2P Require Import Prelude Chars Float64 Numerals Json Errors Execution Store.

Open Scope Z_scope.

(** ** Jobs *)
Record RuntimeTimerJobState := mkJob {
  jb_timer_job_id : string;
  jb_process_instance_id : string;
  jb_execution_id : string;
  jb_activity_id : string;
  jb_job_state : option string;
  jb_is_boundary : bool;
  jb_attached_activity_id : option string;
  jb_cancel_activity : bool;
  jb_time_duration : option string;
  jb_time_date : option string;
  jb_time_cycle : option string;
  jb_end_date : option string;
  jb_calendar_name : option string;
  jb_due_time : option Z;
  jb_lock_owner : option string;
  jb_lock_time : option Z;
  jb_lock_expiration_time : option Z;
  jb_retries : option Z;
  jb_error_message : option string;
  jb_error_details : option string;
  jb_category : option string;
  jb_create_time : option Z;
  jb_correlation_id : option string;
  jb_handler_type : option string;
  jb_tenant_id : option string;
  jb_process_definition_id : option string;
  jb_element_name : option string;
  jb_job_handler_configuration : option string;
  jb_advanced_job_handler_configuration : option string;
  jb_custom_values : option string;
  jb_scope_type : option string;
  jb_scope_id : option string;
  jb_sub_scope_id : option string;
  jb_scope_definition_id : option string;
  jb_exclusive : bool
}.

(** [RuntimeTimerJobState::default]. *)
Definition default_job : RuntimeTimerJobState :=
  mkJob EmptyString EmptyString EmptyString EmptyString None false None false None None None None
    None None None None None None None None None None None None None None None None None None
    None None None None true.

Definition with_lock (owner : option string) (time expiration : option Z) (j : RuntimeTimerJobState) : RuntimeTimerJobState :=
  mkJob (jb_timer_job_id j) (jb_process_instance_id j) (jb_execution_id j) (jb_activity_id j)
    (jb_job_state j) (jb_is_boundary j) (jb_attached_activity_id j) (jb_cancel_activity j)
    (jb_time_duration j) (jb_time_date j) (jb_time_cycle j) (jb_end_date j) (jb_calendar_name j)
    (jb_due_time j) owner time expiration (jb_retries j) (jb_error_message j)
    (jb_error_details j) (jb_category j) (jb_create_time j) (jb_correlation_id j)
    (jb_handler_type j) (jb_tenant_id j) (jb_process_definition_id j) (jb_element_name j)
    (jb_job_handler_configuration j) (jb_advanced_job_handler_configuration j)
    (jb_custom_values j) (jb_scope_type j) (jb_scope_id j) (jb_sub_scope_id j)
    (jb_scope_definition_id j) (jb_exclusive j).

Definition without_lock (j : RuntimeTimerJobState) : RuntimeTimerJobState := with_lock None None None j.

Definition with_progress (state : option string) (due retries_ : option Z) (message details : option string) (j : RuntimeTimerJobState) : RuntimeTimerJobState :=
  mkJob (jb_timer_job_id j) (jb_process_instance_id j) (jb_execution_id j) (jb_activity_id j)
    state (jb_is_boundary j) (jb_attached_activity_id j) (jb_cancel_activity j)
    (jb_time_duration j) (jb_time_date j) (jb_time_cycle j) (jb_end_date j) (jb_calendar_name j)
    due (jb_lock_owner j) (jb_lock_time j) (jb_lock_expiration_time j) retries_ message details
    (jb_category j) (jb_create_time j) (jb_correlation_id j) (jb_handler_type j) (jb_tenant_id j)
    (jb_process_definition_id j) (jb_element_name j) (jb_job_handler_configuration j)
    (jb_advanced_job_handler_configuration j) (jb_custom_values j) (jb_scope_type j)
    (jb_scope_id j) (jb_sub_scope_id j) (jb_scope_definition_id j) (jb_exclusive j).

Definition copy_job_query_metadata (from : RuntimeTimerJobState) (j : RuntimeTimerJobState) : RuntimeTimerJobState :=
  mkJob (jb_timer_job_id j) (jb_process_instance_id j) (jb_execution_id j) (jb_activity_id j)
    (jb_job_state j) (jb_is_boundary j) (jb_attached_activity_id j) (jb_cancel_activity j)
    (jb_time_duration j) (jb_time_date j) (jb_time_cycle j) (jb_end_date j) (jb_calendar_name j)
    (jb_due_time j) (jb_lock_owner j) (jb_lock_time j) (jb_lock_expiration_time j) (jb_retries j)
    (jb_error_message j) (jb_error_details j) (or_else (jb_category j) (jb_category from))
    (or_else (jb_create_time j) (jb_create_time from))
    (or_else (jb_correlation_id j) (jb_correlation_id from))
    (or_else (jb_handler_type j) (jb_handler_type from))
    (or_else (jb_tenant_id j) (jb_tenant_id from))
    (or_else (jb_process_definition_id j) (jb_process_definition_id from))
    (or_else (jb_element_name j) (jb_element_name from))
    (or_else (jb_job_handler_configuration j) (jb_job_handler_configuration from))
    (or_else (jb_advanced_job_handler_configuration j) (jb_advanced_job_handler_configuration from))
    (or_else (jb_custom_values j) (jb_custom_values from))
    (or_else (jb_scope_type j) (jb_scope_type from)) (or_else (jb_scope_id j) (jb_scope_id from))
    (or_else (jb_sub_scope_id j) (jb_sub_scope_id from))
    (or_else (jb_scope_definition_id j) (jb_scope_definition_id from)) (jb_exclusive j).

Definition with_defaults (now : Z) (correlation handler : string) (tenant definition element : option string) (j : RuntimeTimerJobState) : RuntimeTimerJobState :=
  mkJob (jb_timer_job_id j) (jb_process_instance_id j) (jb_execution_id j) (jb_activity_id j)
    (jb_job_state j) (jb_is_boundary j) (jb_attached_activity_id j) (jb_cancel_activity j)
    (jb_time_duration j) (jb_time_date j) (jb_time_cycle j) (jb_end_date j) (jb_calendar_name j)
    (jb_due_time j) (jb_lock_owner j) (jb_lock_time j) (jb_lock_expiration_time j) (jb_retries j)
    (jb_error_message j) (jb_error_details j) (jb_category j)
    (or_else (jb_create_time j) (Some now)) (or_else (jb_correlation_id j) (Some correlation))
    (or_else (jb_handler_type j) (Some handler)) (or_else (jb_tenant_id j) tenant)
    (or_else (jb_process_definition_id j) definition) (or_else (jb_element_name j) element)
    (jb_job_handler_configuration j) (jb_advanced_job_handler_configuration j)
    (jb_custom_values j) (jb_scope_type j) (jb_scope_id j) (jb_sub_scope_id j)
    (jb_scope_definition_id j) (jb_exclusive j).

Inductive RuntimeJobType := JobTimer | JobHistory | JobExternalWorker | JobOther (value : string).

Definition job_type_as_str (t : RuntimeJobType) : string :=
  match t with
  | JobTimer => "timer"
  | JobHistory => "history"
  | JobExternalWorker => "externalWorker"
  | JobOther value => value
  end.

Definition job_type_from_persisted (value : string) : RuntimeJobType :=
  if String.eqb value "timer" then JobTimer
  else if String.eqb value "history" then JobHistory
  else if String.eqb value "externalWorker" || String.eqb value "external-worker" then JobExternalWorker
  else JobOther value.

Inductive AcquisitionWritePolicy := Optimistic | SerializedByGlobalLock.

Inductive ExpiredJobClass := ExpiredAsync | ExpiredTimer | ExpiredHistory.

Definition all_expired_classes : list ExpiredJobClass := [ExpiredAsync; ExpiredTimer; ExpiredHistory].

Definition class_job_states (c : ExpiredJobClass) : list string :=
  match c with
  | ExpiredAsync => ["executable"; "async"; "async-after"]
  | ExpiredTimer => ["timer"]
  | ExpiredHistory => ["history"]
  end%string.

Record ResetExpiredJobsBatchOutcome := mkResetOutcome { scanned : nat; reset : nat; conflicts : nat }.

Record ProcessInstanceLockState := mkInstanceLock {
  il_process_instance_id : string;
  il_lock_owner : option string;
  il_lock_time : option Z
}.

Record TimerCoordinatorLease := mkLease {
  ls_id : string;
  ls_owner_node_id : string;
  ls_expiry_time : Z;
  ls_fencing_token : Z
}.

Record TimerWorkerNode := mkNode {
  nd_node_id : string;
  nd_last_heartbeat : Z;
  nd_worker_type : string
}.

(** What the job operations read of a process instance. *)
Record ProcessInstance := mkInstance {
  pi_tenant_id : option string;
  pi_process_definition_id : string;
  pi_is_suspended : bool
}.

(** ** Rows and the session *)
Record CasRow (A : Type) := mkCas { cas_data : A; cas_cells : gmap string DbValue }.
Arguments mkCas {A}.
Arguments cas_data {A}.
Arguments cas_cells {A}.

Record JobSession := mkJobSession {
  js_closed : bool;
  js_write_error : option StorageError;
  js_jobs : gmap string (CasRow RuntimeTimerJobState);
  js_instance_locks : gmap string (CasRow ProcessInstanceLockState);
  js_leases : gmap string (CasRow TimerCoordinatorLease);
  js_nodes : gmap string TimerWorkerNode;
  js_properties : gmap string (string * Z);
  js_instances : gmap string ProcessInstance;
  js_executions : gmap string Execution
}.

(** What ends an operation: an error, or an integer overflow. *)
Inductive JobStop : Type :=
| StorageStop (e : StorageError)
| FlowableStop (e : FlowableError)
| Overflowed.

Notation JM := (stM JobSession JobStop).
Definition storage {A} (r : result StorageError A) : JM A := lift (map_err StorageStop r).

Definition note_job_error (e : StorageError) (s : JobSession) : JobSession :=
  mkJobSession (js_closed s) (or_else (js_write_error s) (Some e)) (js_jobs s) (js_instance_locks s)
    (js_leases s) (js_nodes s) (js_properties s) (js_instances s) (js_executions s).

Definition ensure_job_open : JM unit :=
  fun s => (if js_closed s then Err (StorageStop ClosedTransaction) else Ok tt, s).

(** [i64::saturating_add], and the checked addition of the release profile. *)
Definition saturating_add (a b : Z) : Z := Z.max i64_min (Z.min i64_max (a + b)).
Definition add_or_overflow (a b : Z) : JM Z :=
  if (i64_min <=? a + b) && (a + b <=? i64_max) then mret (a + b) else throw Overflowed.

(** A table of the session. *)
Record JobTable (A : Type) := {
  jget : JobSession -> gmap string (CasRow A);
  jset : gmap string (CasRow A) -> JobSession -> JobSession
}.
Arguments jget {A}.
Arguments jset {A}.

Definition timer_job_states : JobTable RuntimeTimerJobState :=
  {| jget := js_jobs;
     jset t s := mkJobSession (js_closed s) (js_write_error s) t (js_instance_locks s) (js_leases s)
                   (js_nodes s) (js_properties s) (js_instances s) (js_executions s) |}.
Definition process_instance_locks : JobTable ProcessInstanceLockState :=
  {| jget := js_instance_locks;
     jset t s := mkJobSession (js_closed s) (js_write_error s) (js_jobs s) t (js_leases s)
                   (js_nodes s) (js_properties s) (js_instances s) (js_executions s) |}.
Definition timer_coordinator_leases : JobTable TimerCoordinatorLease :=
  {| jget := js_leases;
     jset t s := mkJobSession (js_closed s) (js_write_error s) (js_jobs s) (js_instance_locks s) t
                   (js_nodes s) (js_properties s) (js_instances s) (js_executions s) |}.

Definition set_properties (t : gmap string (string * Z)) (s : JobSession) : JobSession :=
  mkJobSession (js_closed s) (js_write_error s) (js_jobs s) (js_instance_locks s) (js_leases s)
    (js_nodes s) t (js_instances s) (js_executions s).

(** ** Cells *)
Definition is_integer_projection_column (column : string) : bool :=
  existsb (String.eqb column)
    ["lock_time"; "lock_expiration_time"; "due_time"; "retries"; "create_time"; "priority"; "due_date";
     "created_at"; "updated_at"; "deployed_at"; "last_heartbeat"; "expiry_time"; "fencing_token";
     "next_revision"; "revision"; "version"; "start_time_ms"; "end_time_ms"]%string.

(** A value bound as text by [cas_update] and [insert_exclusive_with_extra]. *)
Definition bound_cell (column value : string) : DbValue :=
  if is_integer_projection_column column then typed_extra value
  else DbText (column_text (typed_extra value)).

Notation Extras := (list (string * option string)).

Definition set_cell (cells : gmap string DbValue) (e : string * option string) : gmap string DbValue :=
  match e with
  | (column, Some v) => <[column := bound_cell column v]> cells
  | (column, None) => delete column cells
  end.

Definition set_cells (extras : Extras) (cells : gmap string DbValue) : gmap string DbValue :=
  fold_left set_cell extras cells.

#[export] Instance db_value_eq_dec : EqDecision DbValue.
Proof. solve_decision. Defined.

Definition cell_holds (cells : gmap string DbValue) (c : string * option string) : bool :=
  match c with
  | (column, Some v) => bool_decide (cells !! column = Some (bound_cell column v))
  | (column, None) => bool_decide (cells !! column = None)
  end.

(** [WHERE col = val], the value bound as text. *)
Definition cell_matches (col val : string) (cells : gmap string DbValue) : bool :=
  match cells !! col with Some v => bool_decide (column_text v = val) | None => false end.

(** ** Statements *)
Section Statements.
Context {A : Type} (t : JobTable A).

Definition job_find (id : string) : JM (option A) :=
  ensure_job_open ;; s ← get; mret (cas_data <$> jget t s !! id).

(** [find] whose error is noted on the session and read as no row. *)
Definition job_find_or_note (id : string) : JM (option A) :=
  fun s => match job_find id s with
           | (Err (StorageStop e), s) => (Ok None, note_job_error e s)
           | r => r
           end.

Definition job_find_all : JM (list A) :=
  ensure_job_open ;; s ← get; mret (cas_data <$> (map_to_list (jget t s)).*2).

Definition job_delete (id : string) : JM unit :=
  fun s => if js_closed s then (Err (StorageStop ClosedTransaction), note_job_error ClosedTransaction s)
           else (Ok tt, jset t (delete id (jget t s)) s).

Definition job_delete_by (col val : string) : JM unit :=
  fun s => if js_closed s then (Err (StorageStop ClosedTransaction), note_job_error ClosedTransaction s)
           else (Ok tt, jset t (filter (fun kr => cell_matches col val (cas_cells kr.2) = false) (jget t s)) s).

Definition cas_update (id : string) (data : A) (set_extras conditions : Extras) : JM nat :=
  ensure_job_open ;;
  s ← get;
  match jget t s !! id with
  | Some r =>
      if forallb (cell_holds (cas_cells r)) conditions then
        modify (jset t (<[id := mkCas data (set_cells set_extras (cas_cells r))]> (jget t s))) ;;
        mret 1%nat
      else mret 0%nat
  | None => mret 0%nat
  end.

Definition insert_exclusive_with_extra (id : string) (data : A) (extras : Extras) : JM unit :=
  ensure_job_open ;;
  s ← get;
  match jget t s !! id with
  | Some _ => throw (StorageStop (DuplicateEntity "" id))
  | None => modify (jset t (<[id := mkCas data (set_cells extras ∅)]> (jget t s)))
  end.

(** The columns given as [DbValue]s are set, [Null] clears; the others keep
    their value ([ON CONFLICT DO UPDATE]). *)
Definition set_typed (cells : gmap string DbValue) (e : string * option DbValue) : gmap string DbValue :=
  match e with (column, Some v) => <[column := v]> cells | (column, None) => delete column cells end.

Definition insert_with_typed_extra (id : string) (data : A) (extras : list (string * option DbValue))
  : JM unit :=
  fun s =>
    if js_closed s then (Err (StorageStop ClosedTransaction), note_job_error ClosedTransaction s)
    else
      let cells := match jget t s !! id with Some r => cas_cells r | None => ∅ end in
      (Ok tt, jset t (<[id := mkCas data (fold_left set_typed extras cells)]> (jget t s)) s).

(** The chunks of a bulk update run one after the other in the same
    transaction; a row that is absent is not counted. *)
Fixpoint bulk_rows (rows : list (string * A)) (shared : Extras) (tab : gmap string (CasRow A))
  : nat * gmap string (CasRow A) :=
  match rows with
  | [] => (0%nat, tab)
  | (id, data) :: rows =>
      match tab !! id with
      | Some r =>
          let '(n, tab) := bulk_rows rows shared
                             (<[id := mkCas data (set_cells shared (cas_cells r))]> tab) in
          (S n, tab)
      | None => bulk_rows rows shared tab
      end
  end.

Definition bulk_update_json_and_columns_by_ids (rows : list (string * A)) (shared : Extras) : JM nat :=
  ensure_job_open ;;
  s ← get;
  let '(n, tab) := bulk_rows rows shared (jget t s) in
  modify (jset t tab) ;; mret n.
End Statements.

(** ** Filtered queries

    [FilterOp] without [Like], which no job operation uses. *)
Inductive FilterOp : Type :=
| FEq (v : string)
| FIsNull
| FIsNotNull
| FGreaterThan (n : Z)
| FGreaterThanOrEqual (n : Z)
| FLessThan (n : Z)
| FLessThanOrEqual (n : Z)
| FIn (values : list string).

(** A comparison with [NULL] is not true. *)
Definition filter_holds (cells : gmap string DbValue) (f : string * FilterOp) : bool :=
  let cell := cells !! f.1 in
  let integer p := match cell with Some (DbInteger n) => p n | _ => false end in
  match f.2 with
  | FEq v => bool_decide (cell = Some (DbText v))
  | FIsNull => bool_decide (cell = None)
  | FIsNotNull => negb (bool_decide (cell = None))
  | FGreaterThan n => integer (fun c => n <? c)
  | FGreaterThanOrEqual n => integer (fun c => n <=? c)
  | FLessThan n => integer (fun c => c <? n)
  | FLessThanOrEqual n => integer (fun c => c <=? n)
  | FIn vs => match cell with Some (DbText s) => existsb (String.eqb s) vs | _ => false end
  end.

(** [NULL], then integers, then texts. *)
Definition cell_leb (a b : option DbValue) : bool :=
  match a, b with
  | None, _ => true
  | Some _, None => false
  | Some (DbInteger n), Some (DbInteger m) => n <=? m
  | Some (DbInteger _), Some (DbText _) => true
  | Some (DbText _), Some (DbInteger _) => false
  | Some (DbText x), Some (DbText y) => string_leb x y
  end.

Definition column_of {A} (column : string) (kr : string * CasRow A) : option DbValue :=
  if String.eqb column "id" then Some (DbText kr.1) else cas_cells kr.2 !! column.

(** What a database promises of [ORDER BY]. *)
Class SqlOrder := {
  sql_order : forall A, (A -> A -> bool) -> list A -> list A;
  sql_order_permutation : forall A (leb : A -> A -> bool) l, Permutation l (sql_order A leb l);
  sql_order_in_order : forall A (leb : A -> A -> bool) l,
    (forall a b, leb a b = true \/ leb b a = true) ->
    (forall a b c, leb a b = true -> leb b c = true -> leb a c = true) ->
    in_order leb (sql_order A leb l)
}.

Definition insertion_order : SqlOrder :=
  {| sql_order A leb l := order_by leb l;
     sql_order_permutation A leb l := order_by_permutation leb l;
     sql_order_in_order A leb l total trans := order_by_in_order leb total trans l |}.

Section Query.
Context `{SqlOrder} {A : Type} (t : JobTable A).

Definition limited (limit : option nat) {B} (l : list B) : list B :=
  match limit with Some n => take n l | None => l end.

Definition select_rows (filters : list (string * FilterOp)) (order : string) (limit : option nat)
  (tab : gmap string (CasRow A)) : list (string * CasRow A) :=
  limited limit
    (sql_order _ (fun a b => cell_leb (column_of order a) (column_of order b))
       (List.filter (fun kr => forallb (filter_holds (cas_cells kr.2)) filters) (map_to_list tab))).

Definition find_with_filters (filters : list (string * FilterOp)) (order : string)
  (limit : option nat) : JM (list A) :=
  ensure_job_open ;;
  s ← get;
  mret (map (fun kr => cas_data kr.2) (select_rows filters order limit (jget t s))).
End Query.

Lemma cell_leb_total a b : cell_leb a b = true \/ cell_leb b a = true.
Proof.
  destruct a as [[n|x]|], b as [[m|y]|]; simpl; auto.
  - destruct (Z.leb_spec n m); auto. right. lia.
  - apply string_leb_total.
Qed.

Lemma cell_leb_trans a b c : cell_leb a b = true -> cell_leb b c = true -> cell_leb a c = true.
Proof.
  destruct a as [[n|x]|], b as [[m|y]|], c as [[k|z]|]; simpl; try done; [lia|].
  apply string_leb_trans.
Qed.
Close Scope Z_scope.
