(* ===== verification/EventDispatcher.v ===== *)
(** * Engine events and their dispatch

    Models the types and the dispatcher of
    [flowable-engine/src/engine/event_dispatcher.rs].  A listener is
    application code: what it answers may depend on everything it and the
    other listeners were notified of before, the [log].  A listener is
    notified at once, or, when it asks for a transaction state, its
    invocation is kept until the command reaches that state. *)
From S2P Require Import Prelude Errors Store JobTypes.

Module EventType.
Inductive EngineEventType : Set :=
| EntityUpdated | EntitySuspended | EntityActivated | EntityInitialized
| ProcessCreated | ProcessStarted | ProcessCompleted | ProcessCompletedWithEscalationEndEvent
| ProcessCompletedWithErrorEndEvent | ProcessCompletedWithTerminateEndEvent | ProcessCancelled
| TaskCreated | TaskCompleted | TaskAssigned | TaskOwnerChanged | TaskPriorityChanged
| TaskDuedateChanged | TaskNameChanged
| ActivityStarted | ActivityCompleted | ActivityCancelled | ActivitySignaled | ActivitySignalWaiting
| ActivityMessageReceived | ActivityMessageWaiting | ActivityMessageCancelled | ActivityErrorReceived
| ActivityEscalationReceived | ActivityEscalationWaiting | ActivityConditionalWaiting
| ActivityConditionalReceived | ActivityCompensate
| MultiInstanceActivityStarted | MultiInstanceActivityCompleted
| MultiInstanceActivityCompletedWithCondition | MultiInstanceActivityCancelled
| SequenceflowTaken | VariableCreated | VariableUpdated | VariableDeleted | VariablePersisted
| JobCanceled | JobExecutionFailure | JobExecutionSuccess | JobMovedToDeadLetter | JobRejected
| JobRetriesDecremented | TimerScheduled | TimerFired | JobRescheduled
| HistoricProcessInstanceCreated | HistoricProcessInstanceEnded | HistoricActivityInstanceCreated
| HistoricActivityInstanceEnded.
End EventType.
Notation EngineEventType := EventType.EngineEventType.

#[export] Instance event_type_dec : EqDecision EngineEventType.
Proof. solve_decision. Defined.

Inductive TransactionState : Set := Committing | Committed | RollingBack | RolledBack.

#[export] Instance transaction_state_dec : EqDecision TransactionState.
Proof. solve_decision. Defined.

Inductive EntityKind : Set :=
| KindProcessInstance | KindExecution | KindTask | KindProcessDefinition | KindActivity
| KindSequenceFlow | KindVariable | KindHistoricProcessInstance | KindHistoricActivityInstance.

Record EntityEventData := mkEntityData {
  ed_entity_kind : EntityKind;
  ed_entity_id : string;
  ed_process_instance_id : option string;
  ed_execution_id : option string;
  ed_process_definition_id : option string;
  ed_scope_type : option string;
  ed_scope_id : option string;
  ed_sub_scope_id : option string
}.

Inductive EngineEvent : Type :=
| JobEngineEvent (event_type : EngineEventType) (job : RuntimeTimerJobState)
| JobFailureEvent (job : RuntimeTimerJobState) (error : FlowableError)
| EntityEvent (event_type : EngineEventType) (data : EntityEventData).

Definition event_type (ev : EngineEvent) : EngineEventType :=
  match ev with
  | JobEngineEvent t _ => t
  | JobFailureEvent _ _ => EventType.JobExecutionFailure
  | EntityEvent t _ => t
  end.

Definition event_error (ev : EngineEvent) : option FlowableError :=
  match ev with JobFailureEvent _ e => Some e | _ => None end.

(** ** The events of the token flow *)
Definition activity_event (t : EngineEventType) (activity_id activity_type : string)
    (process_instance_id execution_id process_definition_id : option string) : EngineEvent :=
  EntityEvent t (mkEntityData KindActivity (String.append activity_id (String.append ":" activity_type))
                   process_instance_id execution_id process_definition_id None None None).

Definition activity_started := activity_event EventType.ActivityStarted.
Definition activity_completed := activity_event EventType.ActivityCompleted.
Definition multi_instance_activity_started := activity_event EventType.MultiInstanceActivityStarted.

Definition multi_instance_activity_completed (with_condition : bool) :=
  activity_event (if with_condition then EventType.MultiInstanceActivityCompletedWithCondition
                  else EventType.MultiInstanceActivityCompleted).
Definition multi_instance_activity_cancelled := activity_event EventType.MultiInstanceActivityCancelled.

(** [dispatch_activity_named_event]. *)
Definition activity_named_event (t : EngineEventType) (activity_id event_name : string)
    (process_instance_id execution_id process_definition_id : option string) : EngineEvent :=
  EntityEvent t (mkEntityData KindActivity (String.append activity_id (String.append ":" event_name))
                   process_instance_id execution_id process_definition_id None (Some event_name) None).

Definition activity_message_cancelled := activity_named_event EventType.ActivityMessageCancelled.

Definition sequenceflow_taken (sequence_flow_id : string)
    (process_instance_id execution_id process_definition_id : option string) : EngineEvent :=
  EntityEvent EventType.SequenceflowTaken
    (mkEntityData KindSequenceFlow sequence_flow_id process_instance_id execution_id
       process_definition_id None None None).

Definition process_instance_started (process_instance_id process_definition_id : string) : EngineEvent :=
  EntityEvent EventType.ProcessStarted
    (mkEntityData KindProcessInstance process_instance_id (Some process_instance_id)
       (Some process_instance_id) (Some process_definition_id) None None None).

(** ** Listeners *)
Definition Log : Type := list (string * EngineEvent).

Record EngineEventListener := mkListener {
  li_name : string;
  on_event : Log -> EngineEvent -> result FlowableError unit;
  is_fail_on_exception : bool;
  is_fire_on_transaction_lifecycle_event : bool;
  on_transaction : TransactionState
}.

Record TransactionEventInvocation := mkInvocation {
  ti_listener : EngineEventListener;
  ti_event : EngineEvent
}.

Record EngineEventDispatcher := mkDispatcher {
  dp_enabled : bool;
  dp_global_listeners : list EngineEventListener;
  dp_typed_listeners : EngineEventType -> list EngineEventListener
}.

Notation LogM := (stM Log FlowableError).

Definition dispatch_to_listener (listener : EngineEventListener) (ev : EngineEvent) : LogM unit :=
  fun log => (match on_event listener log ev with
              | Ok _ => Ok tt
              | Err error => if is_fail_on_exception listener then Err error else Ok tt
              end, log ++ [(li_name listener, ev)]).

Definition invoke (i : TransactionEventInvocation) : LogM unit :=
  dispatch_to_listener (ti_listener i) (ti_event i).

(** The listeners of an event, in the order they are visited. *)
Definition listeners_of (d : EngineEventDispatcher) (ev : EngineEvent) : list EngineEventListener :=
  dp_global_listeners d ++ dp_typed_listeners d (event_type ev).

Definition visit_listeners {S E} (d : EngineEventDispatcher) (ev : EngineEvent)
  (visitor : EngineEventListener -> stM S E unit) : stM S E unit :=
  for_each (listeners_of d ev) visitor.

(** [dispatch], outside a command: lifecycle listeners are passed over. *)
Definition dispatch (d : EngineEventDispatcher) (ev : EngineEvent) : LogM unit :=
  if dp_enabled d then
    visit_listeners d ev (fun listener =>
      if is_fire_on_transaction_lifecycle_event listener then mret tt else dispatch_to_listener listener ev)
  else mret tt.

(** What a dispatch in a command changes: the log and the kept invocations, in
    the order they were registered. *)
Record Dispatching := mkDispatching {
  dg_log : Log;
  dg_transaction_events : list (TransactionState * TransactionEventInvocation)
}.

Notation DispatchM := (stM Dispatching FlowableError).

Definition on_log (m : LogM unit) : DispatchM unit :=
  fun s => let '(r, log) := m (dg_log s) in (r, mkDispatching log (dg_transaction_events s)).

Definition add_transaction_event (state : TransactionState) (i : TransactionEventInvocation) : DispatchM unit :=
  modify (fun s => mkDispatching (dg_log s) (dg_transaction_events s ++ [(state, i)])).

Definition dispatch_in_context (d : EngineEventDispatcher) (ev : EngineEvent) : DispatchM unit :=
  if dp_enabled d then
    visit_listeners d ev (fun listener =>
      if is_fire_on_transaction_lifecycle_event listener
      then add_transaction_event (on_transaction listener) (mkInvocation listener ev)
      else on_log (dispatch_to_listener listener ev))
  else mret tt.

(** The kept invocations of one state are taken out and invoked; the first
    failure drops the rest. *)
Definition invocations_of (state : TransactionState) (l : list (TransactionState * TransactionEventInvocation))
  : list TransactionEventInvocation :=
  (filter (fun si => si.1 = state) l).*2.

Definition dispatch_transaction_events (state : TransactionState) : DispatchM unit :=
  fun s => for_each (invocations_of state (dg_transaction_events s)) (fun i => on_log (invoke i))
             (mkDispatching (dg_log s) (filter (fun si => si.1 <> state) (dg_transaction_events s))).
