(* ===== verification/Context.v ===== *)
(** * The command context

    Models [flowable-engine/src/interceptor/command_context.rs] (the part the
    token flow uses), the agenda ([agenda/agenda.rs]), the entity manager
    ([persistence/execution_entity_manager.rs]) and the environment of a
    command: deployed models, the expression evaluator, the registered
    listeners, the id generator and the history manager. *)
From S2P Require Import Prelude Json Errors BpmnModel Execution Store EventDispatcher.

(** ** The environment

    - [get_bpmn_model]: the deployment manager's lookup by definition id;
    - [get_value_strict]: [SimpleExpression::get_value_strict]; an error is
      its rendered text;
    - [execution_listener]: the application's listener registry;
    - [new_v4]: the [n]-th id drawn by [Uuid::new_v4] in a command;
    - [record_activity_end]: the history manager, which writes its own tables. *)
Definition ExecutionListener : Type :=
  string -> option string -> list (string * Value) -> Execution -> result FlowableError Execution.

Class Env := {
  get_bpmn_model : string -> option BpmnModel;
  get_value_strict : string -> Execution -> result Message (option Value);
  execution_listener : string -> option ExecutionListener;
  new_v4 : nat -> string;
  HistoryState : Type;
  record_activity_end : string -> string -> HistoryState -> result FlowableError unit * HistoryState
}.

(** What the engine relies on of its id generator: the ids are distinct and
    plain ([Uuid::to_string] is hexadecimal digits and dashes). *)
Class UuidLaws `{Env} : Prop := {
  new_v4_inj : Inj (=) (=) new_v4;
  new_v4_plain : forall n, plain_id (new_v4 n) = true
}.

(** ** State *)
Inductive AgendaOperation : Type :=
| ContinueProcess (e : Execution)
| TakeOutgoingSequenceFlows (e : Execution).

Record CommandContext `{Env} := mkContext {
  cc_runtime : Runtime;
  cc_agenda : list AgendaOperation;
  cc_events : list EngineEvent;
  cc_history : HistoryState;
  cc_uuids : nat
}.

(** A handler fails with a [FlowableError], loops for ever, or overflows an integer. *)
Inductive Failure : Type :=
| Raised (e : FlowableError)
| Diverged
| Overflow.

Notation EngineM := (stM CommandContext Failure).

Section Operations.
Context `{Env}.

Definition set_runtime (rt : Runtime) (c : CommandContext) : CommandContext :=
  mkContext _ rt (cc_agenda c) (cc_events c) (cc_history c) (cc_uuids c).

Definition raise {A} (e : FlowableError) : EngineM A := throw (Raised e).

(** A pure [Result]-returning call followed by [?]. *)
Definition attempt {A} (r : result FlowableError A) : EngineM A := lift (map_err Raised r).

(** A call whose loop may not terminate. *)
Definition terminating {A} (o : option A) : EngineM A := lift (ok_or Diverged o).

(** ** The entity manager *)
Definition entity_insert (e : Execution) : EngineM unit :=
  fun c => let '(r, rt) := insert_execution e (cc_runtime c) in
           (map_err (fun x => Raised (storage_to_flowable x)) r, set_runtime rt c).

Definition entity_update (e : Execution) : EngineM unit :=
  fun c => let '(r, rt) := update_execution e (cc_runtime c) in
           (map_err (fun x => Raised (storage_to_flowable x)) r, set_runtime rt c).

Definition entity_delete (i : string) : EngineM unit :=
  modify (fun c => set_runtime (delete_execution i (cc_runtime c)) c).

Definition entity_find_by_id (i : string) : EngineM (option Execution) :=
  fun c => let '(o, rt) := find_execution i (cc_runtime c) in (Ok o, set_runtime rt c).

Definition snapshot : EngineM (gmap string Execution) :=
  fun c => let '(m, rt) := snapshot_executions (cc_runtime c) in (Ok m, set_runtime rt c).

Definition take_involved : EngineM (gmap string string) :=
  fun c => let '(m, rt) := take_involved_process_instances (cc_runtime c) in
           (Ok m, set_runtime rt c).

Definition on_db (f : DbSession -> DbSession) : EngineM unit :=
  modify (fun c => set_runtime (with_session (f (rt_session (cc_runtime c))) (cc_runtime c)) c).

(** [find_executions_by_process_instance_id]. *)
Definition find_executions_by_process_instance_id (pi : string) : EngineM (list Execution) :=
  all ← snapshot;
  mret (List.filter (fun e => is_some_eq (ex_process_instance_id e) pi) (map_to_list all).*2).

(** [find_child_executions_by_parent_execution_id]. *)
Definition find_child_executions_by_parent_execution_id (parent : string)
  : EngineM (list Execution) :=
  all ← snapshot;
  mret (List.filter (fun e => is_some_eq (ex_parent_id e) parent) (map_to_list all).*2).

(** ** The agenda: a queue *)
Definition plan_operation (op : AgendaOperation) : EngineM unit :=
  modify (fun c => mkContext _ (cc_runtime c) (cc_agenda c ++ [op]) (cc_events c)
                     (cc_history c) (cc_uuids c)).

Definition plan_continue_process_operation (e : Execution) : EngineM unit :=
  plan_operation (ContinueProcess e).

Definition plan_take_outgoing_sequence_flows_operation (e : Execution) : EngineM unit :=
  plan_operation (TakeOutgoingSequenceFlows e).

Definition pop_operation : EngineM (option AgendaOperation) :=
  fun c => match cc_agenda c with
           | [] => (Ok None, c)
           | op :: rest => (Ok (Some op), mkContext _ (cc_runtime c) rest (cc_events c)
                                            (cc_history c) (cc_uuids c))
           end.

Definition agenda_is_empty : EngineM bool :=
  c ← get; mret (bool_decide (length (cc_agenda c) = 0)).

Definition agenda_clear : EngineM unit :=
  modify (fun c => mkContext _ (cc_runtime c) [] (cc_events c) (cc_history c) (cc_uuids c)).

(** ** Events, ids, history *)
Definition add_post_agenda_event (ev : EngineEvent) : EngineM unit :=
  modify (fun c => mkContext _ (cc_runtime c) (cc_agenda c) (cc_events c ++ [ev])
                     (cc_history c) (cc_uuids c)).

Definition dispatch_activity_completed (activity_id activity_type : string)
    (process_instance_id execution_id process_definition_id : option string) : EngineM unit :=
  add_post_agenda_event (activity_completed activity_id activity_type process_instance_id
                           execution_id process_definition_id).

Definition dispatch_sequenceflow_taken (sequence_flow_id : string)
    (process_instance_id execution_id process_definition_id : option string) : EngineM unit :=
  add_post_agenda_event (sequenceflow_taken sequence_flow_id process_instance_id
                           execution_id process_definition_id).

Definition uuid_new_v4 : EngineM string :=
  fun c => (Ok (new_v4 (cc_uuids c)),
            mkContext _ (cc_runtime c) (cc_agenda c) (cc_events c) (cc_history c)
              (S (cc_uuids c))).

Definition history_activity_end (execution_id activity_id : string) : EngineM unit :=
  fun c => let '(r, h) := record_activity_end execution_id activity_id (cc_history c) in
           (map_err Raised r,
            mkContext _ (cc_runtime c) (cc_agenda c) (cc_events c) h (cc_uuids c)).
End Operations.

(** ** Well-formed contexts *)
Section ContextWf.
Context `{Env}.

(** The executions the command sees. *)
Definition tokens (c : CommandContext) : gmap string Execution := view (rt_session (cc_runtime c)).

(** The store is well formed and live, and the ids still to be drawn are
    not in use. *)
Record context_wf (c : CommandContext) : Prop := {
  cwf_runtime : runtime_wf (cc_runtime c);
  cwf_live : live (rt_session (cc_runtime c));
  cwf_fresh : forall n, cc_uuids c <= n -> tokens c !! new_v4 n = None
}.

Lemma context_closed c : context_wf c -> db_closed (rt_session (cc_runtime c)) = false.
Proof. intros [_ [? _] _]. done. Qed.

Lemma context_store c : context_wf c -> store_wf (rt_session (cc_runtime c)).
Proof. intros [[? _] _ _]. done. Qed.

(** Ids that may be written: plain, and not among those still to be drawn. *)
Definition usable (c : CommandContext) (i : string) : Prop :=
  plain_id i = true /\ forall n, cc_uuids c <= n -> new_v4 n <> i.

Lemma token_key c i e : context_wf c -> tokens c !! i = Some e -> ex_id e = i.
Proof. intros Hwf Hi. by apply (wf_key _ (context_store c Hwf)). Qed.

Lemma token_usable c i e : context_wf c -> tokens c !! i = Some e -> usable c i.
Proof.
  intros Hwf Hi. split; [by eapply (wf_key _ (context_store c Hwf))|].
  intros n Hn <-. rewrite (cwf_fresh c Hwf n Hn) in Hi. done.
Qed.

(** The effect of each operation on a well-formed context. *)
Definition write_ctx (e : Execution) (c : CommandContext) : CommandContext :=
  set_runtime (with_session (write_session e (rt_session (cc_runtime c)))
                 (mark_write e (cc_runtime c))) c.

Definition erase_ctx (i : string) (c : CommandContext) : CommandContext :=
  set_runtime (with_session (erase_session i (rt_session (cc_runtime c)))
                 (mark_delete i (cc_runtime c))) c.

Definition plan_ctx (op : AgendaOperation) (c : CommandContext) : CommandContext :=
  mkContext _ (cc_runtime c) (cc_agenda c ++ [op]) (cc_events c) (cc_history c) (cc_uuids c).

Definition draw_ctx (c : CommandContext) : CommandContext :=
  mkContext _ (cc_runtime c) (cc_agenda c) (cc_events c) (cc_history c) (S (cc_uuids c)).

Lemma set_runtime_id c : set_runtime (cc_runtime c) c = c.
Proof. by destruct c. Qed.

Lemma entity_insert_eq e c : context_wf c -> entity_insert e c = (Ok tt, write_ctx e c).
Proof.
  intros Hwf. unfold entity_insert. by rewrite insert_execution_live by (by apply context_closed).
Qed.

Lemma entity_update_eq e c : context_wf c -> entity_update e c = (Ok tt, write_ctx e c).
Proof. apply entity_insert_eq. Qed.

Lemma entity_delete_eq i c : context_wf c -> entity_delete i c = (Ok tt, erase_ctx i c).
Proof.
  intros Hwf. unfold entity_delete, modify.
  by rewrite delete_execution_live by (by first [apply context_closed|apply context_store]).
Qed.

Lemma entity_find_eq i c : context_wf c -> entity_find_by_id i c = (Ok (tokens c !! i), c).
Proof.
  intros Hwf. unfold entity_find_by_id. rewrite find_execution_live by (by apply context_closed).
  by rewrite set_runtime_id.
Qed.

Lemma snapshot_eq c : context_wf c -> snapshot c = (Ok (tokens c), c).
Proof.
  intros Hwf. unfold snapshot.
  rewrite snapshot_executions_live by (by first [apply context_closed|apply context_store]).
  by rewrite set_runtime_id.
Qed.

Lemma tokens_write e c : tokens (write_ctx e c) = <[ex_id e := e]> (tokens c).
Proof. apply view_write. Qed.

Lemma tokens_erase i c : tokens (erase_ctx i c) = delete i (tokens c).
Proof. apply view_erase. Qed.

Lemma write_ctx_wf e c : context_wf c -> usable c (ex_id e) -> context_wf (write_ctx e c).
Proof.
  intros Hwf [Hp Hu]. destruct (cwf_runtime c Hwf) as [Hs Hd]. split.
  - destruct (mark_write_dirty e (cc_runtime c)) as [Hd1 Hd2]. split.
    + by apply write_session_wf.
    + simpl. intros k e'. rewrite view_write, lookup_insert_Some.
      intros [[<- <-]|[_ Hv]] Ht; [by apply Hd2|]. apply Hd1. by eapply Hd.
  - apply (cwf_live c Hwf).
  - intros n Hn. rewrite tokens_write, lookup_insert_ne by (intros E; by apply (Hu n Hn)).
    by apply (cwf_fresh c Hwf).
Qed.

Lemma erase_ctx_wf i c : context_wf c -> context_wf (erase_ctx i c).
Proof.
  intros Hwf. destruct (cwf_runtime c Hwf) as [Hs Hd]. split.
  - split; [by apply erase_session_wf|]. intros k e. simpl.
    rewrite view_erase, lookup_delete_Some, mark_delete_dirty. intros [_ Hv]. by apply Hd.
  - apply (cwf_live c Hwf).
  - intros n Hn. rewrite tokens_erase, lookup_delete_None. right. by apply (cwf_fresh c Hwf).
Qed.

Lemma plan_ctx_wf op c : context_wf c -> context_wf (plan_ctx op c).
Proof. intros [H1 H2 H3]. by split. Qed.

Lemma draw_ctx_wf c : context_wf c -> context_wf (draw_ctx c).
Proof. intros [H1 H2 H3]. split; [done|done|]. intros n Hn. apply H3. simpl in Hn. lia. Qed.

Lemma draw_usable `{!UuidLaws} c : usable (draw_ctx c) (new_v4 (cc_uuids c)).
Proof.
  split; [apply new_v4_plain|]. simpl. intros n Hn E. apply new_v4_inj in E. lia.
Qed.

Lemma usable_draw c i : usable c i -> usable (draw_ctx c) i.
Proof. intros [Hp Hu]. split; [done|]. simpl. intros n Hn. apply Hu. lia. Qed.
End ContextWf.

(** Step through a handler: the next operation of a bind, on a context known
    to be well formed. *)
Ltac step := erewrite bind_ok; [|first
  [ apply entity_insert_eq | apply entity_update_eq | apply entity_delete_eq
  | apply entity_find_eq | apply snapshot_eq | reflexivity ]; eauto with ctx].

Create HintDb ctx discriminated.
#[export] Hint Resolve write_ctx_wf erase_ctx_wf plan_ctx_wf draw_ctx_wf draw_usable usable_draw
  token_usable : ctx.

(** ** Consuming and creating tokens *)
Section TokenLists.
Context `{Env}.

Definition erase_list (ids : list string) (c : CommandContext) : CommandContext :=
  fold_left (fun c i => erase_ctx i c) ids c.

Lemma erase_list_spec ids c :
  context_wf c ->
  context_wf (erase_list ids c)
  /\ cc_agenda (erase_list ids c) = cc_agenda c /\ cc_uuids (erase_list ids c) = cc_uuids c
  /\ cc_events (erase_list ids c) = cc_events c
  /\ forall k, tokens (erase_list ids c) !! k = if decide (k ∈ ids) then None else tokens c !! k.
Proof.
  revert c. induction ids as [|i ids IH]; intros c Hwf; simpl; [by split_and!|].
  destruct (IH (erase_ctx i c)) as (H1 & H2 & H3 & H4 & H5); [by apply erase_ctx_wf|].
  split_and!; try done. intros k. rewrite H5, tokens_erase, lookup_delete.
  destruct (decide (k = i)) as [->|Hne].
  - rewrite (decide_True (P := i ∈ i :: ids)) by left. case_decide; [done|].
    by rewrite decide_True.
  - destruct (decide (k ∈ ids)).
    + by rewrite decide_True by (by right).
    + rewrite decide_False by done.
      rewrite decide_False; [done|]. rewrite elem_of_cons. naive_solver.
Qed.

Lemma for_each_delete {A} (f : A -> string) l c :
  context_wf c ->
  for_each l (fun a => entity_delete (f a)) c = (Ok tt, erase_list (f <$> l) c).
Proof.
  revert c. induction l as [|a l IH]; intros c Hwf; simpl; [done|].
  erewrite bind_ok by (by apply entity_delete_eq). apply IH. by apply erase_ctx_wf.
Qed.

(** A child is inserted under a drawn id and its continuation planned. *)
Definition spawn_ctx (mk : string -> Execution) (c : CommandContext) : CommandContext :=
  let child := mk (new_v4 (cc_uuids c)) in
  plan_ctx (ContinueProcess child) (write_ctx child (draw_ctx c)).

Definition spawn_list (mks : list (string -> Execution)) (c : CommandContext) : CommandContext :=
  fold_left (fun c mk => spawn_ctx mk c) mks c.

Fixpoint spawned (n : nat) (mks : list (string -> Execution)) : list Execution :=
  match mks with
  | [] => []
  | mk :: mks => mk (new_v4 n) :: spawned (S n) mks
  end.

Lemma spawned_lookup n mks j x :
  spawned n mks !! j = Some x -> exists mk, mks !! j = Some mk /\ x = mk (new_v4 (n + j)).
Proof.
  revert n j. induction mks as [|mk mks IH]; intros n [|j]; simpl; try done.
  - intros [= <-]. exists mk. by rewrite Nat.add_0_r.
  - intros Hx. destruct (IH (S n) j Hx) as (mk' & Hmk & ->). exists mk'.
    by rewrite Nat.add_succ_r.
Qed.

Lemma spawned_length n mks : length (spawned n mks) = length mks.
Proof. revert n. induction mks; intros n; simpl; [done|]. by rewrite IHmks. Qed.

Context `{!UuidLaws}.

Lemma spawn_list_spec mks c :
  (forall mk i, mk ∈ mks -> ex_id (mk i) = i) -> context_wf c ->
  let c' := spawn_list mks c in
  let children := spawned (cc_uuids c) mks in
  context_wf c' /\ cc_agenda c' = cc_agenda c ++ (ContinueProcess <$> children)
  /\ cc_uuids c' = cc_uuids c + length mks /\ cc_events c' = cc_events c
  /\ (forall x, x ∈ children -> tokens c' !! ex_id x = Some x)
  /\ (forall k, k ∉ ex_id <$> children -> tokens c' !! k = tokens c !! k).
Proof.
  revert c. induction mks as [|mk mks IH]; intros c Hid Hwf; simpl.
  { split_and!; try done; [by rewrite app_nil_r|]. intros x Hx. by apply not_elem_of_nil in Hx. }
  assert (Hmk : forall i, ex_id (mk i) = i) by (intros i; apply Hid; left).
  destruct (IH (spawn_ctx mk c)) as (H1 & H2 & H3 & H4 & H5 & H6).
  { intros mk' i Hm. apply Hid. by right. }
  { apply plan_ctx_wf, write_ctx_wf; [by apply draw_ctx_wf|]. rewrite Hmk. apply draw_usable. }
  change (cc_uuids (spawn_ctx mk c)) with (S (cc_uuids c)) in *.
  assert (Htok : forall k, tokens (spawn_ctx mk c) !! k
    = if decide (new_v4 (cc_uuids c) = k) then Some (mk (new_v4 (cc_uuids c))) else tokens c !! k).
  { intros k. change (tokens (spawn_ctx mk c))
      with (tokens (write_ctx (mk (new_v4 (cc_uuids c))) (draw_ctx c))).
    by rewrite tokens_write, lookup_insert, Hmk. }
  split_and!; try done.
  - rewrite H2. simpl. by rewrite <- app_assoc.
  - rewrite H3. lia.
  - intros x Hx. apply elem_of_cons in Hx as [->|Hx]; [|by apply H5].
    rewrite Hmk, H6; [by rewrite Htok, decide_True|].
    intros Hin. apply list_elem_of_fmap in Hin as (y & Hy & Hin).
    apply list_elem_of_lookup in Hin as [j Hj].
    apply spawned_lookup in Hj as (mk' & Hmk' & ->).
    rewrite Hid in Hy by (right; by eapply list_elem_of_lookup_2).
    apply new_v4_inj in Hy. lia.
  - intros k Hk. apply not_elem_of_cons in Hk as [Hk1 Hk2]. rewrite Hmk in Hk1.
    rewrite H6 by done. rewrite Htok. by rewrite decide_False.
Qed.
End TokenLists.
