(* ===== verification/Samples.v ===== *)
(** * Concrete processes

    Small models on which the theorems with hypotheses are instantiated.

    [sample]: a parallel fork into a user task and a multi-instance embedded
    sub-process, merged by an inclusive gateway. *)
From stdpp Require Import pretty.
From Stdlib Require Import Ascii.
From S2P Require Import Prelude Numerals Json Errors BpmnModel FlowElements Execution Store Context.

Definition build_process (i : string) (elements : list FlowElementEnum) : Process :=
  {| pr_base_element := base_with_id i; pr_name := None; pr_executable := true;
     pr_execution_listeners := []; pr_data_objects := []; pr_flow_elements := elements;
     pr_flow_element_map := populate_element_map elements [] [] 0; pr_artifacts := [] |}.

Definition f1 := sequence_flow "f1" "start" "fork" None.
Definition f2 := sequence_flow "f2" "fork" "taskA" None.
Definition f3 := sequence_flow "f3" "fork" "sub" None.
Definition f4 := sequence_flow "f4" "taskA" "join" None.
Definition f5 := sequence_flow "f5" "sub" "join" None.
Definition f6 := sequence_flow "f6" "subStart" "subEnd" None.
Definition f7 := sequence_flow "f7" "join" "end" None.

Definition loop_characteristics : MultiInstanceLoopCharacteristics :=
  {| mi_base_element := base_default; mi_input_data_item := None; mi_collection_string := None;
     mi_loop_cardinality := Some "3"; mi_completion_condition := None;
     mi_element_variable := None; mi_element_index_variable := None; mi_sequential := false;
     mi_aggregations := None; mi_no_wait_states_async_leave := false |}.

Definition sample_sub : FlowElementEnum :=
  FESubProcess (mkSubProcess
    {| ac_flow_node := flow_node "sub" [f3] [f5];
       ac_failed_job_retry_time_cycle_value := None; ac_default_flow := None;
       ac_is_for_compensation := false; ac_for_compensation := false;
       ac_loop_characteristics := Some loop_characteristics |}
    [FEStartEvent (event "subStart" [] [f6]); FESequenceFlow f6; FEEndEvent (event "subEnd" [f6] [])]
    [] [] [] false).

Definition sample_join : FlowElementEnum := FEInclusiveGateway (gateway "join" [f4; f5] [f7] None).
Definition sample_fork : FlowElementEnum := FEParallelGateway (gateway "fork" [f1] [f2; f3] None).

Definition sample : Process :=
  build_process "proc"
    [FEStartEvent (event "start" [] [f1]); FESequenceFlow f1; sample_fork;
     FESequenceFlow f2; FESequenceFlow f3; FEUserTask (activity "taskA" [f2] [f4]); sample_sub;
     FESequenceFlow f4; FESequenceFlow f5; sample_join; FESequenceFlow f7;
     FEEndEvent (event "end" [f7] [])].

Lemma build_process_converted i l :
  NoDup (element_ids (all_elements l)) ->
  Forall (fun e => height e <= MAX_XML_NESTING_DEPTH) l -> converted (build_process i l).
Proof. intros H1 H2. split; [done|done|]. intros e He. by eapply Forall_forall in H2. Qed.

Lemma sample_converted : converted sample.
Proof.
  apply build_process_converted.
  - by apply (bool_decide_unpack _); vm_compute.
  - repeat constructor; apply Nat.leb_le; vm_compute; reflexivity.
Qed.

(** [sample2]: a parallel fork and the parallel join that closes it. *)
Definition h1 := sequence_flow "h1" "start" "pfork" None.
Definition h2 := sequence_flow "h2" "pfork" "t1" None.
Definition h3 := sequence_flow "h3" "pfork" "t2" None.
Definition h4 := sequence_flow "h4" "t1" "pjoin" None.
Definition h5 := sequence_flow "h5" "t2" "pjoin" None.
Definition h6 := sequence_flow "h6" "pjoin" "end" None.
Definition pfork : Gateway := gateway "pfork" [h1] [h2; h3] None.
Definition pjoin : Gateway := gateway "pjoin" [h4; h5] [h6] None.

Definition sample2 : Process :=
  build_process "proc2"
    [FEStartEvent (event "start" [] [h1]); FESequenceFlow h1; FEParallelGateway pfork;
     FESequenceFlow h2; FESequenceFlow h3; FEUserTask (activity "t1" [h2] [h4]);
     FEUserTask (activity "t2" [h3] [h5]); FESequenceFlow h4; FESequenceFlow h5;
     FEParallelGateway pjoin; FESequenceFlow h6; FEEndEvent (event "end" [h6] [])].

Lemma sample2_converted : converted sample2.
Proof.
  apply build_process_converted.
  - by apply (bool_decide_unpack _); vm_compute.
  - repeat constructor; apply Nat.leb_le; vm_compute; reflexivity.
Qed.

(** [sample3]: a task left through two flows, an exclusive gateway with one
    conditional flow, a task with no outgoing flow, and a send task before an
    inclusive join. *)
Definition k1 := sequence_flow "k1" "m1" "e1" None.
Definition k2 := sequence_flow "k2" "m1" "e2" None.
Definition k3 := sequence_flow "k3" "x1" "e1" (Some "no").
Definition k4 := sequence_flow "k4" "send" "ijoin" None.
Definition k5 := sequence_flow "k5" "x1" "ijoin" (Some "yes").
Definition k6 := sequence_flow "k6" "ijoin" "e2" None.
Definition x1 : FlowElementEnum := FEExclusiveGateway (gateway "x1" [] [k3] None).
Definition m1 : FlowElementEnum := FEUserTask (activity "m1" [] [k1; k2]).
Definition z1 : FlowElementEnum := FEUserTask (activity "z1" [] []).
Definition send : FlowElementEnum := FESendTask (activity "send" [] [k4]).

Definition sample3 : Process :=
  build_process "proc3"
    [m1; FESequenceFlow k1; FESequenceFlow k2; FEEndEvent (event "e1" [k1; k3] []);
     FEEndEvent (event "e2" [k2; k6] []); x1; FESequenceFlow k3; z1; send; FESequenceFlow k4;
     FESequenceFlow k5; FEInclusiveGateway (gateway "ijoin" [k4; k5] [k6] None); FESequenceFlow k6].

Lemma sample3_converted : converted sample3.
Proof.
  apply build_process_converted.
  - by apply (bool_decide_unpack _); vm_compute.
  - repeat constructor; apply Nat.leb_le; vm_compute; reflexivity.
Qed.

(** [sample4]: a start event, a parallel fork into a task that is left
    asynchronously and a plain task, an inclusive join, and an asynchronous
    task. *)
Definition c1 := sequence_flow "c1" "start" "split" None.
Definition c2 := sequence_flow "c2" "split" "after" None.
Definition c3 := sequence_flow "c3" "split" "plain" None.
Definition c4 := sequence_flow "c4" "after" "merge" None.
Definition c5 := sequence_flow "c5" "plain" "merge" None.
Definition c6 := sequence_flow "c6" "merge" "before" None.

Definition async_activity (i : string) (before after : bool) (incoming outgoing : list SequenceFlow) : Activity :=
  {| ac_flow_node :=
       {| fn_flow_element := flow_element_default i; fn_asynchronous := before;
          fn_asynchronous_leave := after; fn_not_exclusive := false;
          fn_asynchronous_leave_not_exclusive := false; fn_exclusive := true;
          fn_asynchronous_leave_exclusive := true; fn_incoming_flows := incoming;
          fn_outgoing_flows := outgoing |};
     ac_failed_job_retry_time_cycle_value := None; ac_default_flow := None;
     ac_is_for_compensation := false; ac_for_compensation := false; ac_loop_characteristics := None |}.

Definition before_task : FlowElementEnum := FETask (async_activity "before" true false [c6] []).

Definition sample4 : Process :=
  build_process "proc4"
    [FEStartEvent (event "start" [] [c1]); FESequenceFlow c1; FEParallelGateway (gateway "split" [c1] [c2; c3] None);
     FESequenceFlow c2; FESequenceFlow c3; FETask (async_activity "after" false true [c2] [c4]);
     FETask (activity "plain" [c3] [c5]); FESequenceFlow c4; FESequenceFlow c5;
     FEInclusiveGateway (gateway "merge" [c4; c5] [c6] None); FESequenceFlow c6; before_task].

Lemma sample4_converted : converted sample4.
Proof.
  apply build_process_converted.
  - by apply (bool_decide_unpack _); vm_compute.
  - repeat constructor; apply Nat.leb_le; vm_compute; reflexivity.
Qed.

(** [sample5]: a multi-instance user task, one in a sub-process, and a
    multi-instance manual task, each over the collection [voters]. *)
Definition v1 := sequence_flow "v1" "vote" "done" None.
Definition v2 := sequence_flow "v2" "print" "done" None.

Definition over_voters : MultiInstanceLoopCharacteristics :=
  {| mi_base_element := base_default; mi_input_data_item := None; mi_collection_string := Some "voters";
     mi_loop_cardinality := None; mi_completion_condition := None;
     mi_element_variable := Some "voter"; mi_element_index_variable := None; mi_sequential := false;
     mi_aggregations := None; mi_no_wait_states_async_leave := false |}.

Definition looped (i : string) (outgoing : list SequenceFlow) : Activity :=
  {| ac_flow_node := flow_node i [] outgoing;
     ac_failed_job_retry_time_cycle_value := None; ac_default_flow := None;
     ac_is_for_compensation := false; ac_for_compensation := false;
     ac_loop_characteristics := Some over_voters |}.

Definition sample5 : Process :=
  build_process "proc5"
    [FEUserTask (looped "vote" [v1]); FESequenceFlow v1; FEManualTask (looped "print" [v2]); FESequenceFlow v2;
     FEEndEvent (event "done" [v1; v2] []);
     FESubProcess (mkSubProcess (activity "box" [] []) [FEUserTask (looped "ballot" [])] [] [] [] false)].

Lemma sample5_converted : converted sample5.
Proof.
  apply build_process_converted.
  - by apply (bool_decide_unpack _); vm_compute.
  - repeat constructor; apply Nat.leb_le; vm_compute; reflexivity.
Qed.

(** ** A concrete environment and command contexts

    Instances the theorems about handlers are evaluated on: [sample_env]
    deploys the models of [Samples] under ["proc:1"] to ["proc:5"], resolves an expression as the
    name of a variable and draws the ids [uuid-0], [uuid-1], ... *)

Definition sample_model : BpmnModel :=
  {| bm_processes := [sample]; bm_main_process := Some sample |}.

Definition sample2_model : BpmnModel :=
  {| bm_processes := [sample2]; bm_main_process := Some sample2 |}.

Definition sample3_model : BpmnModel :=
  {| bm_processes := [sample3]; bm_main_process := Some sample3 |}.

Definition sample4_model : BpmnModel :=
  {| bm_processes := [sample4]; bm_main_process := Some sample4 |}.

Definition sample5_model : BpmnModel :=
  {| bm_processes := [sample5]; bm_main_process := Some sample5 |}.

#[export] Instance sample_env : Env := {
  get_bpmn_model d := if bool_decide (d = "proc:1") then Some sample_model
                      else if bool_decide (d = "proc:2") then Some sample2_model
                      else if bool_decide (d = "proc:3") then Some sample3_model
                      else if bool_decide (d = "proc:4") then Some sample4_model
                      else if bool_decide (d = "proc:5") then Some sample5_model else None;
  get_value_strict expr e :=
    match process_variable e expr with
    | Some v => Ok (Some v)
    | None => Err [Lit "Unknown property"; Lit expr]
    end;
  execution_listener name := None;
  new_v4 n := String.append "uuid-" (pretty (N.of_nat n));
  HistoryState := list (string * string);
  record_activity_end e a h := (Ok tt, h ++ [(e, a)])
}.

Lemma has_colon_pretty_go x s : has_colon s = false -> has_colon (pretty_N_go x s) = false.
Proof.
  revert s. induction (N.lt_wf_0 x) as [x _ IH]. intros s Hs.
  destruct (decide (x = 0)%N) as [->|Hx]; [by rewrite pretty_N_go_0|].
  rewrite pretty_N_go_step by lia. apply IH; [apply N.div_lt; lia|].
  simpl. rewrite Hs, orb_false_r.
  assert (Hm : (x `mod` 10 < 10)%N) by (apply N.mod_lt; lia).
  pose proof (digit_value_pretty _ Hm) as Hd.
  destruct (Ascii.eqb _ ":"%char) eqn:E; [|done]. apply Ascii.eqb_eq in E. rewrite E in Hd. done.
Qed.

#[export] Instance sample_uuid_laws : UuidLaws.
Proof.
  split.
  - intros n m E. simpl in E. injection E as E. apply pretty_N_inj in E. lia.
  - intros n. apply plain_id_spec. split; [|done]. simpl.
    unfold pretty, pretty_N. case_decide; [done|]. by apply has_colon_pretty_go.
Qed.

Definition empty_ctx : CommandContext := mkContext _ runtime_new [] [] [] 0.

Lemma empty_ctx_wf : context_wf empty_ctx.
Proof.
  split; [apply runtime_new_wf|done|]. intros n _. unfold tokens, view. simpl. by rewrite fmap_empty.
Qed.

(** A process instance with its inactive scope execution and two branches:
    one parked at the inclusive join, one still on the user task. *)
Definition token (i : string) (parent : option string) (activity : option string)
    (active concurrent scope : bool) (vars : gmap string Value) : Execution :=
  mkExecution i parent None (Some "pi-1") (Some "pi-1") (Some "proc:1") None None None activity
    None None None false false active concurrent scope false None None None vars ∅ ∅ false.

Definition scope_token : Execution :=
  token "pi-1" None None false false true {["amount" := VNumber (PosInt 42); "ok" := VBool true]}.
Definition join_token : Execution := token "e-a" (Some "pi-1") (Some "join") true true false ∅.
Definition task_token : Execution :=
  token "e-b" (Some "pi-1") (Some "taskA") true true false {["ok" := VBool false]}.

Definition sample_ctx : CommandContext :=
  write_ctx task_token (write_ctx join_token (write_ctx scope_token empty_ctx)).

Lemma not_uuid i n : String.get 0 i <> Some "u"%char -> new_v4 n <> i.
Proof. intros Hi <-. by apply Hi. Qed.

Lemma sample_usable c i :
  plain_id i = true -> String.get 0 i <> Some "u"%char -> usable c i.
Proof. intros Hp Hi. split; [done|]. intros n _. by apply not_uuid. Qed.

Lemma sample_ctx_wf : context_wf sample_ctx.
Proof.
  unfold sample_ctx. repeat apply write_ctx_wf; try apply empty_ctx_wf; by apply sample_usable.
Qed.

Lemma sample_tokens i :
  tokens sample_ctx !! i
  = if decide (i = "e-b") then Some task_token
    else if decide (i = "e-a") then Some join_token
    else if decide (i = "pi-1") then Some scope_token else None.
Proof.
  unfold sample_ctx. rewrite !tokens_write, !lookup_insert. simpl.
  assert (tokens empty_ctx !! i = None) as -> by (unfold tokens, view; simpl; by rewrite fmap_empty).
  repeat case_decide; congruence.
Qed.

(** An instance of [sample2]: its scope execution, and branches at the
    parallel join. *)
Definition token2 (i : string) (parent : option string) (activity : option string)
    (active concurrent scope : bool) : Execution :=
  mkExecution i parent None (Some "pi-2") (Some "pi-2") (Some "proc:2") None None None activity
    None None None false false active concurrent scope false None None None ∅ ∅ ∅ false.

Definition root2 : Execution := token2 "pi-2" None (Some "pfork") true false true.
Definition branch1 : Execution := token2 "e-1" (Some "pi-2") (Some "pjoin") true true false.
Definition branch2 : Execution := token2 "e-2" (Some "pi-2") (Some "pjoin") true true false.
Definition branch1_parked : Execution := token2 "e-1" (Some "pi-2") (Some "pjoin") false true false.

Definition fork_ctx : CommandContext := write_ctx root2 empty_ctx.
Definition first_ctx : CommandContext :=
  write_ctx branch1 (write_ctx (set_activity_id None root2) empty_ctx).
Definition last_ctx : CommandContext :=
  write_ctx branch2 (write_ctx branch1_parked (write_ctx (set_activity_id None root2) empty_ctx)).

Lemma sample2_ctx_wf : context_wf fork_ctx /\ context_wf first_ctx /\ context_wf last_ctx.
Proof.
  unfold fork_ctx, first_ctx, last_ctx.
  split_and!; repeat apply write_ctx_wf; try apply empty_ctx_wf; by apply sample_usable.
Qed.

Lemma written_token e c : is_Some (tokens (write_ctx e c) !! ex_id e).
Proof. rewrite tokens_write, lookup_insert_eq. by eexists. Qed.

(** An instance of [sample3] with one branch beside its scope execution. *)
Definition token3 (i : string) (parent : option string) (activity : option string)
    (scope : bool) : Execution :=
  mkExecution i parent None (Some "pi-3") (Some "pi-3") (Some "proc:3") None None None activity
    None None None false false true false scope false None None None {["no" := VBool false]} ∅ ∅ false.

Definition root3 : Execution := token3 "pi-3" None None true.
Definition ctx3 (e : Execution) : CommandContext := write_ctx e (write_ctx root3 empty_ctx).

Lemma ctx3_wf i a s : plain_id i = true -> String.get 0 i <> Some "u"%char ->
  context_wf (ctx3 (token3 i (Some "pi-3") a s)).
Proof.
  intros Hp Hg. unfold ctx3. repeat apply write_ctx_wf; try apply empty_ctx_wf; by apply sample_usable.
Qed.
