(* ===== verification/Variables.v ===== *)
(** * Variable scopes

    Models [collect_execution_variables] and [evaluation_execution] of
    [flowable-engine/src/engine/variable_service.rs] and
    [snapshot_scope_variables] of [runtime/compensation.rs]: how a token sees
    the variables of the scopes around it.

    The walk up the [parent_id] links has no bound in the source; here it
    has fuel, one more than the number of executions, which suffices exactly
    when the links are not circular. *)
From S2P Require Import Prelude Json Errors BpmnModel Execution Store Context Samples.

(** [entry(k).or_insert(v)] for every pair of a map. *)
Definition or_insert_all (all more : gmap string Value) : gmap string Value := all ∪ more.

Section Variables.
Context `{Env}.

Fixpoint collect_loop (fuel : nat) (all_variables : gmap string Value) (current_id : option string)
  : EngineM (gmap string Value) :=
  match fuel with
  | 0 => throw Diverged
  | S fuel =>
      match current_id with
      | None => mret all_variables
      | Some id =>
          found ← entity_find_by_id id;
          match found with
          | None => mret all_variables
          | Some execution =>
              let all := or_insert_all all_variables (ex_transient_variables execution) in
              let all := or_insert_all all (ex_local_variables execution) in
              let all := or_insert_all all (process_variables execution) in
              collect_loop fuel all (ex_parent_id execution)
          end
      end
  end.

Definition chain_fuel (c : CommandContext) : nat := S (S (size (tokens c))).

Definition collect_execution_variables (execution_id : string) : EngineM (gmap string Value) :=
  c ← get; collect_loop (chain_fuel c) ∅ (Some execution_id).

Definition evaluation_execution (execution : Execution) : EngineM Execution :=
  inherited ← match ex_parent_id execution with
              | Some parent_id => collect_execution_variables parent_id
              | None => mret ∅
              end;
  let process_instance_id := unwrap_or (ex_id execution) (ex_process_instance_id execution) in
  root ← entity_find_by_id process_instance_id;
  let inherited :=
    match root with
    | Some root_execution =>
        let i := or_insert_all inherited (ex_variables root_execution) in
        let i := or_insert_all i (ex_local_variables root_execution) in
        or_insert_all i (ex_transient_variables root_execution)
    | None => inherited
    end in
  mret (set_variables (or_insert_all (ex_variables execution) inherited) execution).

Definition snapshot_scope_variables (execution : Execution) : EngineM (gmap string Value) :=
  ev ← evaluation_execution execution;
  mret (ex_local_variables ev ∪ ex_variables ev).
End Variables.

(** ** Scope chains *)

(** The executions from [id] upwards, as far as the links lead. *)
Inductive chain (m : gmap string Execution) : string -> list Execution -> Prop :=
| chain_missing i : m !! i = None -> chain m i []
| chain_top i e : m !! i = Some e -> ex_parent_id e = None -> chain m i [e]
| chain_up i e p l : m !! i = Some e -> ex_parent_id e = Some p -> chain m p l -> chain m i (e :: l).

Lemma chain_det m i l l' : chain m i l -> chain m i l' -> l = l'.
Proof.
  intros H. revert l'. induction H as [i Hi|i e Hi Hp|i e p l Hi Hp _ IH];
    intros l' H'; inversion H'; subst; try congruence.
  f_equal; [congruence|]. apply IH. congruence.
Qed.

(** The links from every execution of [l] on are within [l]. *)
Lemma chain_suffix m i l :
  chain m i l -> forall e k, e ∈ l -> m !! k = Some e ->
  (forall k' e', m !! k' = Some e' -> ex_id e' = k') -> exists l', chain m k l' /\ length l' <= length l.
Proof.
  induction 1 as [i Hi|i e Hi Hp|i e p l Hi Hp Hc IH]; intros e0 k He Hk Hkey.
  - by apply not_elem_of_nil in He.
  - apply list_elem_of_singleton in He as ->. exists [e]. split; [by apply chain_top|done].
  - apply elem_of_cons in He as [->|He].
    + exists (e :: l). split; [by eapply chain_up|done].
    + destruct (IH e0 k He Hk Hkey) as (l' & Hl' & Hle). exists l'. simpl. split; [done|lia].
Qed.

Lemma chain_in_map m i l : chain m i l -> forall e, e ∈ l -> exists k, m !! k = Some e.
Proof.
  induction 1 as [i Hi|i e Hi Hp|i e p l Hi Hp Hc IH]; intros e0 He.
  - by apply not_elem_of_nil in He.
  - apply list_elem_of_singleton in He as ->. eauto.
  - apply elem_of_cons in He as [->|He]; [eauto|by apply IH].
Qed.

Lemma chain_NoDup m i l :
  (forall k e, m !! k = Some e -> ex_id e = k) -> chain m i l -> NoDup (ex_id <$> l).
Proof.
  intros Hkey. induction 1 as [i Hi|i e Hi Hp|i e p l Hi Hp Hc IH]; simpl.
  - constructor.
  - by apply NoDup_singleton.
  - apply NoDup_cons. split; [|done]. intros Hin.
    apply list_elem_of_fmap in Hin as (e' & Hid & He').
    destruct (chain_in_map _ _ _ Hc _ He') as (k & Hk).
    assert (k = i) as ->.
    { rewrite <- (Hkey _ _ Hk), <- Hid. by apply Hkey. }
    assert (e' = e) as -> by congruence.
    destruct (chain_suffix _ _ _ Hc _ _ He' Hi Hkey) as (l' & Hl' & Hle).
    assert (l' = e :: l) as -> by (eapply chain_det; [done|by eapply chain_up]).
    simpl in Hle. lia.
Qed.

Lemma chain_length m i l :
  (forall k e, m !! k = Some e -> ex_id e = k) -> chain m i l -> length l <= size m.
Proof.
  intros Hkey Hc. pose proof (chain_NoDup _ _ _ Hkey Hc) as Hnd.
  rewrite <- (length_fmap ex_id), <- (size_dom (D := gset string)).
  assert (Hsub : (list_to_set (ex_id <$> l) : gset string) ⊆ dom m).
  { intros k Hk. apply elem_of_list_to_set, list_elem_of_fmap in Hk as (e & -> & He).
    destruct (chain_in_map _ _ _ Hc _ He) as (k & Hk). apply elem_of_dom.
    rewrite (Hkey _ _ Hk). by eexists. }
  rewrite <- (size_list_to_set (C := gset string)) by done. by apply subseteq_size.
Qed.

(** The variables a scope chain offers: the nearest execution wins, and in
    one execution transient variables shadow local ones, which shadow the
    process variables. *)
Definition own_variables (e : Execution) : gmap string Value :=
  ex_transient_variables e ∪ ex_local_variables e ∪ ex_variables e.

Definition scope_variables (l : list Execution) : gmap string Value :=
  fold_right (fun e m => own_variables e ∪ m) ∅ l.

Lemma own_variables_lookup e name : own_variables e !! name = process_variable e name.
Proof. unfold own_variables. by rewrite process_variable_eq, (assoc_L (∪)). Qed.

Lemma scope_variables_lookup l name :
  scope_variables l !! name = find_map (fun e => process_variable e name) l.
Proof.
  induction l as [|e l IH]; simpl; [done|].
  rewrite lookup_union, own_variables_lookup, IH.
  by destruct (process_variable e name), (find_map _ l).
Qed.

Section VariableTheorems.
Context `{Env}.

Lemma context_keys c : context_wf c -> forall k e, tokens c !! k = Some e -> ex_id e = k.
Proof. intros Hwf k e Hk. by eapply token_key. Qed.

Lemma collect_loop_chain c i l fuel all :
  context_wf c -> chain (tokens c) i l -> length l < fuel - 1 ->
  collect_loop fuel all (Some i) c = (Ok (all ∪ scope_variables l), c).
Proof.
  intros Hwf Hc. revert fuel all.
  induction Hc as [i Hi|i e Hi Hp|i e p l Hi Hp Hc IH]; intros fuel all Hf;
    (destruct fuel as [|[|fuel]]; [simpl in Hf; lia|simpl in Hf; lia|]); simpl in Hf.
  - simpl. step. rewrite Hi. simpl. by rewrite (right_id_L ∅ (∪)).
  - simpl. step. rewrite Hi, Hp. unfold or_insert_all, own_variables, process_variables. simpl.
    by rewrite (right_id_L ∅ (∪)), !(assoc_L (∪)).
  - change (collect_loop (S (S fuel)) all (Some i)) with
      (found ← entity_find_by_id i;
       match found with
       | None => mret all
       | Some execution =>
           collect_loop (S fuel) (or_insert_all (or_insert_all (or_insert_all all
             (ex_transient_variables execution)) (ex_local_variables execution))
             (process_variables execution)) (ex_parent_id execution)
       end).
    step. rewrite Hi, Hp, IH by (simpl in *; lia).
    simpl. unfold or_insert_all, own_variables, process_variables. by rewrite !(assoc_L (∪)).
Qed.

Lemma collect_variables_chain c i l :
  context_wf c -> chain (tokens c) i l ->
  collect_execution_variables i c = (Ok (scope_variables l), c).
Proof.
  intros Hwf Hc. unfold collect_execution_variables. erewrite bind_ok by reflexivity.
  rewrite (collect_loop_chain c i l) by
    (try done; pose proof (chain_length _ _ _ (context_keys c Hwf) Hc);
     unfold chain_fuel; lia).
  by rewrite (left_id_L ∅ (∪)).
Qed.

(** The scopes around an execution. *)
Definition scopes (m : gmap string Execution) (e : Execution) (l : list Execution) : Prop :=
  match ex_parent_id e with Some p => chain m p l | None => l = [] end.

(** The scope execution of the process instance, as the fallback sees it. *)
Definition root_fallback (m : gmap string Execution) (e : Execution) : gmap string Value :=
  match m !! unwrap_or (ex_id e) (ex_process_instance_id e) with
  | Some r => ex_variables r ∪ ex_local_variables r ∪ ex_transient_variables r
  | None => ∅
  end.

Lemma evaluation_execution_eq c e l :
  context_wf c -> scopes (tokens c) e l ->
  evaluation_execution e c
  = (Ok (set_variables (ex_variables e ∪ (scope_variables l ∪ root_fallback (tokens c) e)) e), c).
Proof.
  intros Hwf Hs. unfold evaluation_execution, scopes, root_fallback in *.
  assert (Hi : (match ex_parent_id e with
                | Some parent_id => collect_execution_variables parent_id
                | None => mret ∅ end) c = (Ok (scope_variables l), c)).
  { destruct (ex_parent_id e); [by apply collect_variables_chain|by subst]. }
  erewrite bind_ok by exact Hi. step.
  destruct (tokens c !! _) as [r|]; unfold or_insert_all.
  - by rewrite !(assoc_L (∪)).
  - by rewrite (right_id_L ∅ (∪)).
Qed.
End VariableTheorems.

Section VariableProperties.
Context `{Env}.

(** The variables collected from an execution upwards resolve a name to
    the nearest scope that defines it, transient before local before
    process variables in each scope; the walk terminates when the parent
    links are not circular. *)
Theorem collect_nearest_wins c i l :
  context_wf c -> chain (tokens c) i l ->
  exists vars, collect_execution_variables i c = (Ok vars, c)
    /\ forall name, vars !! name = find_map (fun e => process_variable e name) l.
Proof.
  intros Hwf Hc. exists (scope_variables l). split; [by apply collect_variables_chain|].
  apply scope_variables_lookup.
Qed.

(** A name the fallback resolves is one of the scope execution's own. *)
Lemma root_fallback_found m e r name :
  m !! unwrap_or (ex_id e) (ex_process_instance_id e) = Some r -> is_Some (root_fallback m e !! name) ->
  is_Some (process_variable r name).
Proof.
  intros Hr. unfold root_fallback. rewrite Hr, process_variable_eq, !lookup_union.
  by destruct (ex_transient_variables r !! name), (ex_local_variables r !! name), (ex_variables r !! name).
Qed.

Lemma find_map_found {A B} (g : A -> option B) l x : x ∈ l -> is_Some (g x) -> is_Some (find_map g l).
Proof.
  induction l as [|a l IH]; intros Hx Hg; [by apply not_elem_of_nil in Hx|]. simpl.
  apply elem_of_cons in Hx as [<-|Hx]; [by destruct Hg as [? ->]|]. destruct (g a); [by eexists|by apply IH].
Qed.

(** C36: what an expression sees.  The context is well formed, the parent links above
    the token are not circular, and the scope execution of the process instance, where
    it is stored, is the token or one of the scopes above it.  Then the execution that
    expressions are evaluated on is the token with more process variables: every other
    field is that of the token, its own process variables keep their values, and nothing
    is written.  A name resolves on it to the value of the token itself if it has one,
    and otherwise to that of the nearest scope above that has one, in each of them
    transient before local before process variables; and to nothing if none has one. *)
Theorem evaluation_resolves c e l :
  context_wf c -> scopes (tokens c) e l ->
  (forall r, tokens c !! unwrap_or (ex_id e) (ex_process_instance_id e) = Some r -> r ∈ e :: l) ->
  exists ev, evaluation_execution e c = (Ok ev, c)
    /\ ev = set_variables (ex_variables ev) e /\ ex_variables e ⊆ ex_variables ev
    /\ forall name, process_variable ev name
         = find_map (fun x => or_else (ex_transient_variables x !! name)
                                (or_else (ex_local_variables x !! name) (ex_variables x !! name))) (e :: l).
Proof.
  intros Hwf Hs Hroot. eexists. split; [by apply evaluation_execution_eq|].
  split_and!; [done|simpl; apply map_union_subseteq_l|]. intros name.
  assert (Hfm : forall k, find_map (fun x => or_else (ex_transient_variables x !! name)
                  (or_else (ex_local_variables x !! name) (ex_variables x !! name))) k
                = find_map (fun x => process_variable x name) k).
  { induction k as [|x k IH]; simpl; [done|]. rewrite IH. unfold process_variable.
    by destruct (ex_transient_variables x !! name), (ex_local_variables x !! name), (ex_variables x !! name). }
  rewrite Hfm. assert (Hfall : is_Some (root_fallback (tokens c) e !! name) ->
    is_Some (find_map (fun x => process_variable x name) (e :: l))).
  { intros Hf. destruct (tokens c !! unwrap_or (ex_id e) (ex_process_instance_id e)) as [r|] eqn:Hr.
    - apply (find_map_found _ _ r); [by apply Hroot|by eapply root_fallback_found].
    - unfold root_fallback in Hf. rewrite Hr, lookup_empty in Hf. by destruct Hf. }
  simpl in Hfall. rewrite <- scope_variables_lookup, process_variable_eq, !lookup_union in Hfall.
  simpl. rewrite <- scope_variables_lookup, !process_variable_eq. simpl. rewrite !lookup_union.
  destruct (ex_transient_variables e !! name), (ex_local_variables e !! name), (ex_variables e !! name),
    (scope_variables l !! name), (root_fallback (tokens c) e !! name); try done.
  destruct Hfall as [w Hw]; [by eexists|discriminate Hw].
Qed.

(** The compensation snapshot never contains the completing execution's
    own transient variables: a name resolves in its local map, its process
    map, or an enclosing scope. *)
Theorem snapshot_excludes_own_transient c e l :
  context_wf c -> scopes (tokens c) e l ->
  exists snap, snapshot_scope_variables e c = (Ok snap, c)
    /\ forall name, snap !! name
         = or_else (ex_local_variables e !! name)
             (or_else (ex_variables e !! name)
                (or_else (find_map (fun x => process_variable x name) l)
                   (root_fallback (tokens c) e !! name))).
Proof.
  intros Hwf Hs. unfold snapshot_scope_variables.
  erewrite bind_ok by (by apply evaluation_execution_eq). eexists. split; [reflexivity|].
  intros name. rewrite <- scope_variables_lookup. simpl. rewrite !lookup_union.
  by destruct (ex_local_variables e !! name), (ex_variables e !! name),
    (scope_variables l !! name), (root_fallback (tokens c) e !! name).
Qed.

(** The fallback to the scope execution inverts the documented in-row
    precedence: a name that is both a process variable and a transient
    variable of the root resolves to the transient one for the root itself
    and to the process one for a token whose parent links do not reach it. *)
Theorem fallback_inverts_precedence c e r name v w :
  context_wf c -> scopes (tokens c) e [] -> process_variable e name = None ->
  tokens c !! unwrap_or (ex_id e) (ex_process_instance_id e) = Some r ->
  ex_transient_variables r !! name = Some v -> ex_variables r !! name = Some w ->
  process_variable r name = Some v
  /\ exists ev, evaluation_execution e c = (Ok ev, c) /\ process_variable ev name = Some w.
Proof.
  intros Hwf Hs Hn Hr Hv Hw. split; [unfold process_variable; by rewrite Hv|].
  eexists. split; [by apply evaluation_execution_eq|].
  rewrite process_variable_eq in *. simpl. rewrite !lookup_union in *.
  assert (root_fallback (tokens c) e !! name = Some w) as Hf.
  { unfold root_fallback. rewrite Hr, !lookup_union, Hw.
    by destruct (ex_local_variables r !! name), (ex_transient_variables r !! name). }
  rewrite Hf. destruct (ex_transient_variables e !! name), (ex_local_variables e !! name),
    (ex_variables e !! name); done.
Qed.
End VariableProperties.

Lemma sample_chain : chain (tokens sample_ctx) "e-b" [task_token; scope_token].
Proof.
  eapply chain_up with (p := "pi-1"); [by rewrite sample_tokens|done|].
  apply chain_top; [by rewrite sample_tokens|done].
Qed.

Lemma sample_scopes e : ex_parent_id e = Some "pi-1" -> scopes (tokens sample_ctx) e [scope_token].
Proof. intros Hp. unfold scopes. rewrite Hp. apply chain_top; [by rewrite sample_tokens|done]. Qed.

Lemma collect_nearest_wins_witness :
  exists vars, collect_execution_variables "e-b" sample_ctx = (Ok vars, sample_ctx)
    /\ vars !! "ok" = Some (VBool false) /\ vars !! "amount" = Some (VNumber (PosInt 42)).
Proof.
  destruct (collect_nearest_wins sample_ctx "e-b" [task_token; scope_token] sample_ctx_wf
              sample_chain) as (vars & Hc & Hl).
  exists vars. split; [exact Hc|]. rewrite !Hl. split; vm_compute; reflexivity.
Defined.

Lemma evaluation_resolves_witness :
  exists ev, evaluation_execution task_token sample_ctx = (Ok ev, sample_ctx)
    /\ process_variable ev "amount" = Some (VNumber (PosInt 42)).
Proof.
  destruct (evaluation_resolves sample_ctx task_token [scope_token] sample_ctx_wf
              (sample_scopes task_token eq_refl)) as (ev & He & _ & _ & Hl).
  - intros r Hr. simpl in Hr. rewrite sample_tokens in Hr. vm_compute in Hr. injection Hr as <-. right. left.
  - exists ev. split; [exact He|]. rewrite Hl. vm_compute. reflexivity.
Defined.

Lemma snapshot_excludes_own_transient_witness :
  exists snap, snapshot_scope_variables (set_transient_variables {["tmp" := VNull]} task_token)
                 sample_ctx = (Ok snap, sample_ctx) /\ snap !! "tmp" = None.
Proof.
  destruct (snapshot_excludes_own_transient sample_ctx
              (set_transient_variables {["tmp" := VNull]} task_token) [scope_token] sample_ctx_wf
              (sample_scopes (set_transient_variables {["tmp" := VNull]} task_token) eq_refl)) as (snap & Hs & Hl).
  exists snap. split; [exact Hs|]. rewrite Hl. unfold root_fallback. simpl.
  rewrite sample_tokens. vm_compute. reflexivity.
Defined.

(** A token whose recorded parent is gone, beside a scope execution that has
    a transient variable of the same name as a process variable. *)
Definition orphan_root : Execution :=
  set_transient_variables {["ok" := VBool false]} scope_token.
Definition orphan : Execution := token "e-x" (Some "e-gone") (Some "taskA") true true false ∅.
Definition orphan_ctx : CommandContext := write_ctx orphan_root empty_ctx.

Lemma orphan_tokens i :
  tokens orphan_ctx !! i = if decide (i = "pi-1") then Some orphan_root else None.
Proof.
  unfold orphan_ctx. rewrite tokens_write. case_decide; [subst; by rewrite lookup_insert_eq|].
  rewrite lookup_insert_ne by done. unfold tokens, view. simpl. by rewrite fmap_empty.
Qed.

Lemma fallback_inverts_precedence_witness :
  process_variable orphan_root "ok" = Some (VBool false)
  /\ exists ev, evaluation_execution orphan orphan_ctx = (Ok ev, orphan_ctx)
                /\ process_variable ev "ok" = Some (VBool true).
Proof.
  apply (fallback_inverts_precedence orphan_ctx orphan orphan_root "ok" (VBool false) (VBool true)).
  - apply write_ctx_wf; [apply empty_ctx_wf|]. apply sample_usable; [reflexivity|discriminate].
  - apply chain_missing. rewrite orphan_tokens. reflexivity.
  - reflexivity.
  - rewrite orphan_tokens. reflexivity.
  - reflexivity.
  - reflexivity.
Defined.
