(* ===== verification/FlowSelection.v ===== *)
(** * Selecting outgoing sequence flows

    Models [flowable-engine/src/bpmn/skip_expression.rs],
    [el/uel_expression_condition.rs] and the selection helpers of
    [agenda/take_outgoing_sequence_flows_operation.rs].  Expressions are
    evaluated by the environment. *)
From S2P Require Import Prelude Json Errors BpmnModel FlowElements Samples Execution Store Context.

Definition ACTIVITI_SKIP_EXPRESSION_ENABLED : string := "_ACTIVITI_SKIP_EXPRESSION_ENABLED".
Definition FLOWABLE_SKIP_EXPRESSION_ENABLED : string := "_FLOWABLE_SKIP_EXPRESSION_ENABLED".

Section FlowSelection.
Context `{Env}.

(** ** Skip expressions *)
Definition skip_expression_enabled_type_error (activity_id : option string) (value : Value)
  : FlowableError :=
  ExecutionError [Lit "Skip expression variable for activity '";
                  Lit (unwrap_or "<unknown>" activity_id);
                  Lit "' does not resolve to a boolean: "; ShowJson value].

Definition is_skip_expression_enabled (activity_id : option string) (execution : Execution)
  : result FlowableError bool :=
  match process_variable execution ACTIVITI_SKIP_EXPRESSION_ENABLED with
  | Some (VBool value) => Ok value
  | Some value => Err (skip_expression_enabled_type_error activity_id value)
  | None =>
      match process_variable execution FLOWABLE_SKIP_EXPRESSION_ENABLED with
      | Some (VBool value) => Ok value
      | Some value => Err (skip_expression_enabled_type_error activity_id value)
      | None => Ok false
      end
  end.

Definition should_skip_flow_element (skip_expression : option string) (element_type : string)
    (activity_id : option string) (execution : Execution) : result FlowableError bool :=
  match skip_expression with
  | None => Ok false
  | Some skip_expression =>
      enabled ← is_skip_expression_enabled activity_id execution;
      if negb enabled then Ok false
      else
        let prefix := [Lit element_type; Lit " '"; Lit (unwrap_or "<unknown>" activity_id)] in
        match get_value_strict skip_expression execution with
        | Ok (Some (VBool value)) => Ok value
        | Ok (Some value) =>
            Err (ExecutionError (prefix ++ [Lit "' skipExpression must evaluate to a boolean, got ";
                                            ShowJson value]))
        | Ok None =>
            Err (ExecutionError (prefix ++ [Lit "' skipExpression did not resolve to a boolean: ";
                                            Lit skip_expression]))
        | Err error => Err (ExecutionError (prefix ++ Lit "' skipExpression failed: " :: error))
        end
  end.

Definition should_skip_sequence_flow (outgoing_flow_count : nat) (skip_expression : option string)
    (flow_id : option string) (execution : Execution) : result FlowableError bool :=
  match skip_expression with
  | None => Ok false
  | Some skip_expression =>
      enabled ← is_skip_expression_enabled flow_id execution;
      if negb enabled then Ok false
      else if Nat.eqb outgoing_flow_count 1 then Ok true
      else should_skip_flow_element (Some skip_expression) "SequenceFlow" flow_id execution
  end.

(** ** Conditions: [UelExpressionCondition::evaluate] *)
Definition evaluate_condition (expression : string) (element_id : option string)
    (scope : Execution) : result FlowableError bool :=
  match get_value_strict expression scope with
  | Err error =>
      Err (ExecutionError ([Lit "condition expression failed (elementId: ";
                            DebugOptStr element_id; Lit "): "] ++ error))
  | Ok (Some (VBool value)) => Ok value
  | Ok (Some VNull) | Ok None =>
      Err (ExecutionError [Lit "condition expression returns null (elementId: ";
                           DebugOptStr element_id; Lit ")"])
  | Ok (Some value) =>
      Err (ExecutionError [Lit "condition expression returns non-Boolean (elementId: ";
                           DebugOptStr element_id; Lit "): "; ShowJson value])
  end.

Definition condition_met (flow : SequenceFlow) (execution : Execution)
  : result FlowableError bool :=
  match sf_condition_expression flow with
  | Some expr => evaluate_condition expr (Some (unwrap_or EmptyString (sf_id flow))) execution
  | None => Ok true
  end.

Definition target_is_end_event (main_process : Process) (flow : SequenceFlow) : bool :=
  match sf_target_ref flow with
  | Some target_ref => is_end_event (map_get target_ref (pr_flow_element_map main_process))
  | None => false
  end.

Definition is_default_flow (default_flow_id : option string) (flow : SequenceFlow) : bool :=
  bool_decide (is_Some default_flow_id) && bool_decide (sf_id flow = default_flow_id).

(** ** [collect_matching_outgoing_flows] *)
Fixpoint collect_loop (main_process : Process) (default_flow_id : option string) (count : nat)
    (execution : Execution) (flows : list SequenceFlow)
    (selected_flows : list (SequenceFlow * bool)) (default_flow : option SequenceFlow)
  : result FlowableError (list (SequenceFlow * bool) * option SequenceFlow) :=
  match flows with
  | [] => Ok (selected_flows, default_flow)
  | flow :: flows =>
      skip ← should_skip_sequence_flow count (sf_skip_expression flow) (sf_id flow) execution;
      if (skip : bool) then
        collect_loop main_process default_flow_id count execution flows
          (selected_flows ++ [(flow, target_is_end_event main_process flow)]) default_flow
      else if is_default_flow default_flow_id flow then
        collect_loop main_process default_flow_id count execution flows selected_flows (Some flow)
      else
        met ← condition_met flow execution;
        collect_loop main_process default_flow_id count execution flows
          (if (met : bool) then selected_flows ++ [(flow, target_is_end_event main_process flow)]
           else selected_flows) default_flow
  end.

Definition collect_matching_outgoing_flows (main_process : Process)
    (default_flow_id : option string) (outgoing_flows : list SequenceFlow) (execution : Execution)
  : result FlowableError (list (SequenceFlow * bool)) :=
  '(selected_flows, default_flow) ← collect_loop main_process default_flow_id
      (length outgoing_flows) execution outgoing_flows [] None;
  match selected_flows, default_flow with
  | [], Some flow => Ok [(flow, target_is_end_event main_process flow)]
  | _, _ => Ok selected_flows
  end.

(** ** [select_exclusive_gateway_flow] *)
Fixpoint select_loop (default_flow_id : option string) (execution : Execution)
    (flows : list SequenceFlow) (default_flow : option SequenceFlow)
  : result FlowableError (option SequenceFlow) :=
  match flows with
  | [] => Ok default_flow
  | flow :: flows =>
      let is_default := is_default_flow default_flow_id flow in
      let default_flow := if is_default then Some flow else default_flow in
      skip_active ← match sf_skip_expression flow with
                    | Some _ => is_skip_expression_enabled (sf_id flow) execution
                    | None => Ok false
                    end;
      if (skip_active : bool) then
        skip ← should_skip_flow_element (sf_skip_expression flow) "SequenceFlow" (sf_id flow)
                 execution;
        if (skip : bool) then Ok (Some flow)
        else select_loop default_flow_id execution flows default_flow
      else if is_default then select_loop default_flow_id execution flows default_flow
      else
        met ← condition_met flow execution;
        if (met : bool) then Ok (Some flow)
        else select_loop default_flow_id execution flows default_flow
  end.

Definition select_exclusive_gateway_flow (flow_element : FlowElementEnum)
    (outgoing_flows : list SequenceFlow) (execution : Execution)
  : result FlowableError (option SequenceFlow) :=
  select_loop (get_gateway_default_flow_id flow_element) execution outgoing_flows None.
End FlowSelection.

(** ** Specification *)
Section FlowSelectionSpec.
Context `{Env}.

(** Whether the exclusive gateway may leave through a flow: its skip
    expression decides when skipping is enabled, the default flow is never
    a first choice, and otherwise the condition decides. *)
Definition exclusive_verdict (default_flow_id : option string) (x : Execution) (f : SequenceFlow)
  : result FlowableError bool :=
  skip_active ← match sf_skip_expression f with
                | Some _ => is_skip_expression_enabled (sf_id f) x
                | None => Ok false
                end;
  if (skip_active : bool)
  then should_skip_flow_element (sf_skip_expression f) "SequenceFlow" (sf_id f) x
  else if is_default_flow default_flow_id f then Ok false else condition_met f x.

(** The same for any other node. *)
Definition flow_verdict (default_flow_id : option string) (count : nat) (x : Execution)
    (f : SequenceFlow) : result FlowableError bool :=
  skip ← should_skip_sequence_flow count (sf_skip_expression f) (sf_id f) x;
  if (skip : bool) then Ok true
  else if is_default_flow default_flow_id f then Ok false else condition_met f x.

Definition accepts {A} (verdict : A -> result FlowableError bool) (a : A) : bool :=
  match verdict a with Ok true => true | _ => false end.

(** The default flow among [flows]: the last one with the id. *)
Fixpoint last_default (default_flow_id : option string) (flows : list SequenceFlow)
  : option SequenceFlow :=
  match flows with
  | [] => None
  | f :: flows => or_else (last_default default_flow_id flows)
                    (if is_default_flow default_flow_id f then Some f else None)
  end.

Lemma select_loop_eq d x flows acc :
  select_loop d x flows acc
  = match flows with
    | [] => Ok acc
    | f :: rest =>
        b ← exclusive_verdict d x f;
        if (b : bool) then Ok (Some f)
        else select_loop d x rest (if is_default_flow d f then Some f else acc)
    end.
Proof.
  destruct flows as [|f rest]; [done|]. unfold exclusive_verdict. simpl.
  destruct (match sf_skip_expression f with
            | Some _ => is_skip_expression_enabled (sf_id f) x | None => Ok false end)
    as [[]|]; simpl; [done| |done].
  by destruct (is_default_flow d f).
Qed.

Lemma collect_loop_eq p d n x flows sel acc :
  collect_loop p d n x flows sel acc
  = match flows with
    | [] => Ok (sel, acc)
    | f :: rest =>
        b ← flow_verdict d n x f;
        collect_loop p d n x rest
          (if (b : bool) then sel ++ [(f, target_is_end_event p f)] else sel)
          (if (negb b && is_default_flow d f) then Some f else acc)
    end.
Proof.
  destruct flows as [|f rest]; [done|]. unfold flow_verdict. simpl.
  destruct (should_skip_sequence_flow n (sf_skip_expression f) (sf_id f) x) as [[]|]; simpl;
    [done| |done].
  destruct (is_default_flow d f) eqn:Hd; simpl; [done|].
  by destruct (condition_met f x) as [[]|].
Qed.

Lemma select_loop_spec d x flows acc :
  match select_loop d x flows acc with
  | Ok (Some f) =>
      (exists pre post, flows = pre ++ f :: post
         /\ Forall (fun g => exclusive_verdict d x g = Ok false) pre
         /\ exclusive_verdict d x f = Ok true)
      \/ (Forall (fun g => exclusive_verdict d x g = Ok false) flows
          /\ or_else (last_default d flows) acc = Some f)
  | Ok None => Forall (fun g => exclusive_verdict d x g = Ok false) flows
               /\ or_else (last_default d flows) acc = None
  | Err e => exists pre f post, flows = pre ++ f :: post
               /\ Forall (fun g => exclusive_verdict d x g = Ok false) pre
               /\ exclusive_verdict d x f = Err e
  end.
Proof.
  revert acc. induction flows as [|f rest IH]; intros acc; rewrite select_loop_eq.
  { destruct acc; [right|]; by split. }
  destruct (exclusive_verdict d x f) as [[]|e] eqn:Hv; simpl.
  - left. by exists [], rest.
  - assert (Hacc : forall o, or_else (last_default d rest) (if is_default_flow d f then Some f else o)
                             = or_else (or_else (last_default d rest)
                                 (if is_default_flow d f then Some f else None)) o).
    { intros o. by destruct (last_default d rest), (is_default_flow d f). }
    specialize (IH (if is_default_flow d f then Some f else acc)). rewrite Hacc in IH.
    destruct (select_loop d x rest _) as [[g|]|e].
    + destruct IH as [(pre & post & -> & Hpre & Hg)|[Hall Hd]].
      * left. exists (f :: pre), post. split_and!; [done|by constructor|done].
      * right. split; [by constructor|done].
    + destruct IH as [Hall Hd]. split; [by constructor|done].
    + destruct IH as (pre & g & post & -> & Hpre & Hg). exists (f :: pre), g, post.
      split_and!; [done|by constructor|done].
  - exists [], f, rest. split_and!; [done|constructor|done].
Qed.

Lemma collect_loop_spec p d n x flows sel acc :
  match collect_loop p d n x flows sel acc with
  | Ok (l, o) =>
      Forall (fun g => exists b, flow_verdict d n x g = Ok b) flows
      /\ l = sel ++ ((fun g => (g, target_is_end_event p g))
                     <$> List.filter (accepts (flow_verdict d n x)) flows)
      /\ (Forall (fun g => flow_verdict d n x g = Ok false) flows ->
          o = or_else (last_default d flows) acc)
  | Err e => exists pre f post, flows = pre ++ f :: post
               /\ Forall (fun g => exists b, flow_verdict d n x g = Ok b) pre
               /\ flow_verdict d n x f = Err e
  end.
Proof.
  revert sel acc. induction flows as [|f rest IH]; intros sel acc; rewrite collect_loop_eq.
  { simpl. split_and!; [constructor|by rewrite app_nil_r|done]. }
  destruct (flow_verdict d n x f) as [b|e] eqn:Hv; simpl.
  - specialize (IH (if b then sel ++ [(f, target_is_end_event p f)] else sel)
                  (if negb b && is_default_flow d f then Some f else acc)).
    destruct (collect_loop p d n x rest _ _) as [[l o]|e].
    + destruct IH as (Hall & -> & Ho). split_and!.
      * constructor; [by eexists|done].
      * unfold accepts at 2. rewrite Hv. destruct b; simpl; [by rewrite <- app_assoc|done].
      * intros Hf. apply Forall_cons in Hf as [Hf Hrest]. rewrite Hv in Hf. injection Hf as ->.
        rewrite (Ho Hrest). simpl. by destruct (last_default d rest), (is_default_flow d f).
    + destruct IH as (pre & g & post & -> & Hpre & Hg). exists (f :: pre), g, post.
      split_and!; [done|constructor; [by eexists|done]|done].
  - exists [], f, rest. split_and!; [done|constructor|done].
Qed.

Lemma last_default_Some d flows f :
  last_default d flows = Some f ->
  exists pre post, flows = pre ++ f :: post /\ is_default_flow d f = true
                   /\ Forall (fun g => is_default_flow d g = false) post.
Proof.
  induction flows as [|g rest IH]; simpl; [done|]. destruct (last_default d rest) as [h|] eqn:Hl.
  - intros [= ->]. destruct (IH eq_refl) as (pre & post & -> & Hd & Hp).
    by exists (g :: pre), post.
  - simpl. destruct (is_default_flow d g) eqn:Hd; intros [= ->]. exists [], rest.
    split_and!; [done|done|]. clear IH. induction rest as [|h rest IH]; constructor; simpl in Hl.
    + by destruct (last_default d rest), (is_default_flow d h).
    + apply IH. by destruct (last_default d rest).
Qed.

Lemma last_default_None d flows :
  last_default d flows = None -> Forall (fun g => is_default_flow d g = false) flows.
Proof.
  induction flows as [|g rest IH]; simpl; constructor.
  - by destruct (last_default d rest), (is_default_flow d g).
  - apply IH. by destruct (last_default d rest).
Qed.

(** C34: the exclusive gateway leaves through the first flow, in document
    order, that accepts; when none does, through the default flow; it
    selects nothing exactly when every flow refuses and there is no default,
    and fails exactly when a flow's expression fails before one accepts. *)
Theorem exclusive_selection gateway flows x :
  let d := get_gateway_default_flow_id gateway in
  match select_exclusive_gateway_flow gateway flows x with
  | Ok (Some f) =>
      (exists pre post, flows = pre ++ f :: post
         /\ Forall (fun g => exclusive_verdict d x g = Ok false) pre
         /\ exclusive_verdict d x f = Ok true)
      \/ (Forall (fun g => exclusive_verdict d x g = Ok false) flows
          /\ exists pre post, flows = pre ++ f :: post /\ is_default_flow d f = true
               /\ Forall (fun g => is_default_flow d g = false) post)
  | Ok None => Forall (fun g => exclusive_verdict d x g = Ok false
                                /\ is_default_flow d g = false) flows
  | Err e => exists pre f post, flows = pre ++ f :: post
               /\ Forall (fun g => exclusive_verdict d x g = Ok false) pre
               /\ exclusive_verdict d x f = Err e
  end.
Proof.
  intros d. unfold select_exclusive_gateway_flow. fold d.
  pose proof (select_loop_spec d x flows None) as Hs.
  destruct (select_loop d x flows None) as [[f|]|e]; [| |done].
  - destruct Hs as [Hs|[Hall Hd]]; [by left|right]. split; [done|].
    apply last_default_Some. by destruct (last_default d flows).
  - destruct Hs as [Hall Hd]. apply Forall_and. split; [done|].
    apply last_default_None. by destruct (last_default d flows).
Qed.

(** Any other node takes every flow that accepts, in document order,
    and its default flow only when no flow accepts. *)
Theorem matching_flows_selection p d flows x :
  let verdict := flow_verdict d (length flows) x in
  let mark g := (g, target_is_end_event p g) in
  match collect_matching_outgoing_flows p d flows x with
  | Ok l =>
      Forall (fun g => exists b, verdict g = Ok b) flows
      /\ match List.filter (accepts verdict) flows with
         | [] => l = match last_default d flows with Some f => [mark f] | None => [] end
         | accepted => l = mark <$> accepted
         end
  | Err e => exists pre f post, flows = pre ++ f :: post
               /\ Forall (fun g => exists b, verdict g = Ok b) pre /\ verdict f = Err e
  end.
Proof.
  intros verdict mark. unfold collect_matching_outgoing_flows.
  pose proof (collect_loop_spec p d (length flows) x flows [] None) as Hs.
  destruct (collect_loop p d (length flows) x flows [] None) as [[l o]|e]; [|done]. simpl.
  destruct Hs as (Hall & -> & Ho). fold verdict in Hall, Ho |- *. fold mark. simpl.
  destruct (List.filter (accepts verdict) flows) as [|f rest] eqn:Hf; simpl; [|by split].
  assert (Hno : Forall (fun g => verdict g = Ok false) flows).
  { apply Forall_forall. intros g Hg.
    pose proof (proj1 (Forall_forall _ _) Hall g Hg) as [b Hb].
    destruct b; [|done]. exfalso.
    assert (Hin : In g (List.filter (accepts verdict) flows)).
    { apply filter_In. split; [by apply list_elem_of_In|]. unfold accepts. by rewrite Hb. }
    by rewrite Hf in Hin. }
  rewrite (Ho Hno). by destruct (last_default d flows).
Qed.
End FlowSelectionSpec.

Section ActivityDefault.
Context `{Env}.

(** The default flow declared on an activity is not treated as one: it
    is taken together with a conditional flow that accepts, although a
    default flow is for the case where no condition holds. *)
Theorem activity_default_also_taken p a cond dflt x :
  sf_skip_expression cond = None -> sf_skip_expression dflt = None ->
  condition_met cond x = Ok true -> sf_condition_expression dflt = None ->
  ac_default_flow a = sf_id dflt ->
  collect_matching_outgoing_flows p (get_gateway_default_flow_id (FEUserTask a)) [cond; dflt] x
  = Ok [(cond, target_is_end_event p cond); (dflt, target_is_end_event p dflt)].
Proof.
  intros Hs1 Hs2 Hc Hd _. unfold collect_matching_outgoing_flows. simpl.
  rewrite Hs1, Hs2. simpl. rewrite Hc. simpl. unfold condition_met. rewrite Hd. done.
Qed.
End ActivityDefault.

Definition flow_if := sequence_flow "fIf" "taskA" "join" (Some "ok").
Definition flow_else := sequence_flow "fElse" "taskA" "end" None.

Lemma activity_default_also_taken_witness :
  collect_matching_outgoing_flows sample
    (get_gateway_default_flow_id (FEUserTask
      {| ac_flow_node := flow_node "taskA" [] [flow_if; flow_else];
         ac_failed_job_retry_time_cycle_value := None; ac_default_flow := Some "fElse";
         ac_is_for_compensation := false; ac_for_compensation := false;
         ac_loop_characteristics := None |})) [flow_if; flow_else] scope_token
  = Ok [(flow_if, false); (flow_else, true)].
Proof.
  apply (activity_default_also_taken sample
    {| ac_flow_node := flow_node "taskA" [] [flow_if; flow_else];
       ac_failed_job_retry_time_cycle_value := None; ac_default_flow := Some "fElse";
       ac_is_for_compensation := false; ac_for_compensation := false;
       ac_loop_characteristics := None |} flow_if flow_else scope_token); reflexivity.
Defined.
