(* ===== verification/Listeners.v ===== *)
(** * Execution listeners

    Models [flowable-engine/src/bpmn/listener/execution_listener_util.rs].  A
    listener reads the command context only through the registry of the
    environment, so firing listeners is a function on the execution. *)
From Stdlib Require Import Ascii.
From S2P Require Import Prelude Chars Json Errors BpmnModel FlowElements Execution Store Context.

Definition activity_listeners (a : Activity) : list FlowableListener :=
  fe_execution_listeners (fn_flow_element (ac_flow_node a)).

Definition flow_element_execution_listeners (e : FlowElementEnum) : list FlowableListener :=
  match e with
  | FESequenceFlow f => fe_execution_listeners (sf_flow_element f)
  | FETask a | FEUserTask a | FEServiceTask a | FECaseServiceTask a | FESendTask a
  | FEScriptTask a | FEManualTask a | FEReceiveTask a | FEBusinessRuleTask a
  | FECallActivity a => activity_listeners a
  | FEStartEvent ev | FEEndEvent ev | FEIntermediateCatchEvent ev
  | FEIntermediateThrowEvent ev => fe_execution_listeners (fn_flow_element (ev_flow_node ev))
  | FEExclusiveGateway g | FEParallelGateway g | FEInclusiveGateway g
  | FEEventBasedGateway g | FEComplexGateway g =>
      fe_execution_listeners (fn_flow_element (gw_flow_node g))
  | FESubProcess s | FETransaction s | FEEventSubProcess s | FEAdhocSubProcess s _ _ _ =>
      activity_listeners (sp_activity s)
  | FEBoundaryEvent b => fe_execution_listeners (fn_flow_element (ev_flow_node (bd_event b)))
  | FEValuedDataObject d => vd_execution_listeners d
  end.

Definition listener_matches_event (listener : FlowableListener) (event : string) : bool :=
  match trimmed (fl_event listener) with
  | None => true
  | Some configured =>
      eq_ignore_ascii_case configured "allEvents" || eq_ignore_ascii_case configured event
  end.

Definition reject_transaction_hook (listener : FlowableListener) (kind : string)
    : result FlowableError unit :=
  match trimmed (fl_on_transaction listener) with
  | Some hook =>
      Err (ExecutionError [Lit kind; Lit " onTransaction='"; Lit hook;
        Lit "' is not supported; transaction-phase listeners are deferred"])
  | None => Ok tt
  end.

Section Listeners.
Context `{Env}.

Definition evaluate_strict (expr : string) (x : Execution) (context : Message)
  : result FlowableError (option Value) :=
  map_err (fun error => ExecutionError (context ++ error)) (get_value_strict expr x).

Definition resolve_listener_name (impl_type implementation : string) (x : Execution)
  : result FlowableError string :=
  if bool_decide (impl_type = "class") || bool_decide (impl_type = EmptyString)
  then Ok implementation
  else if starts_with "${" implementation && ends_with_char implementation "}"%char then
    value ← evaluate_strict implementation x
              [Lit "executionListener delegateExpression '"; Lit implementation; Lit "' failed: "];
    value ← ok_or (ExecutionError [Lit "executionListener could not resolve delegateExpression '";
                                   Lit implementation; Lit "'"]) value;
    ok_or (ExecutionError [Lit "executionListener delegateExpression '"; Lit implementation;
                           Lit "' resolved to a non-string value"]) (as_str value)
  else Ok implementation.

Definition resolve_field (field : FieldExtension) (x : Execution)
  : result FlowableError (string * Value) :=
  name ← ok_or (ExecutionError [Lit "executionListener field extension is missing a name"])
           (trimmed (fx_field_name field));
  value ← match trimmed (fx_string_value field), trimmed (fx_expression field) with
          | Some v, None => Ok (VString v)
          | None, Some expr =>
              let at_field := [Lit "executionListener field '"; Lit name; Lit "' expression '";
                               Lit expr] in
              o ← evaluate_strict expr x (at_field ++ [Lit "' failed: "]);
              ok_or (ExecutionError (at_field ++ [Lit "' could not be resolved"])) o
          | Some _, Some _ =>
              Err (ExecutionError [Lit "executionListener field '"; Lit name;
                                   Lit "' cannot have both stringValue and expression"])
          | None, None => Ok VNull
          end;
  Ok (name, value).

Fixpoint resolve_field_extensions (fields : list FieldExtension) (x : Execution)
    (out : list (string * Value)) : result FlowableError (list (string * Value)) :=
  match fields with
  | [] => Ok out
  | field :: fields =>
      '(name, value) ← resolve_field field x;
      resolve_field_extensions fields x (map_insert name value out)
  end.

Definition invoke_execution_listener (execution : Execution) (listener : FlowableListener)
    (event : string) (activity_id : option string) (evaluation_execution : Execution)
  : result FlowableError Execution :=
  let impl_type := unwrap_or EmptyString (trimmed (fl_implementation_type listener)) in
  implementation ← ok_or (ExecutionError [Lit "executionListener on event '"; Lit event;
                                          Lit "' has no implementation"])
                     (trimmed (fl_implementation listener));
  if bool_decide (impl_type = "expression") then
    _ ← evaluate_strict implementation evaluation_execution
          [Lit "executionListener expression '"; Lit implementation; Lit "' on event '";
           Lit event; Lit "' failed: "];
    Ok execution
  else if bool_decide (impl_type ∈ ["delegateExpression"; "class"; EmptyString]) then
    delegate_name ← resolve_listener_name impl_type implementation evaluation_execution;
    fields ← resolve_field_extensions (fl_field_extensions listener) evaluation_execution [];
    listener_impl ← ok_or (ExecutionError [Lit "No local execution listener '"; Lit delegate_name;
                                           Lit "' is registered for event '"; Lit event; Lit "'"])
                      (execution_listener delegate_name);
    listener_impl event activity_id fields execution
  else Err (BadRequest [Lit "Unsupported executionListener implementationType '"; Lit impl_type;
                        Lit "' for event '"; Lit event; Lit "'"]).

Fixpoint listeners_loop (execution : Execution) (listeners : list FlowableListener)
    (event : string) (activity_id : option string) (evaluation_execution : Execution)
  : result FlowableError Execution :=
  match listeners with
  | [] => Ok execution
  | listener :: listeners =>
      if listener_matches_event listener event then
        _ ← reject_transaction_hook listener "executionListener";
        execution ← invoke_execution_listener execution listener event activity_id
                      evaluation_execution;
        listeners_loop execution listeners event activity_id evaluation_execution
      else listeners_loop execution listeners event activity_id evaluation_execution
  end.

Definition execute_execution_listeners (execution : Execution) (listeners : list FlowableListener)
    (event : string) (evaluation_execution : Execution) : result FlowableError Execution :=
  listeners_loop execution listeners event (ex_activity_id execution) evaluation_execution.

Definition notify_execution_listeners (execution : Execution) (flow_element : FlowElementEnum)
    (event : string) (evaluation_execution : Execution) : result FlowableError Execution :=
  execute_execution_listeners execution (flow_element_execution_listeners flow_element) event
    evaluation_execution.

(** ** Properties *)

(** A registered listener may change the variables of the execution, not
    its identity: the registry's contract. *)
Definition listeners_keep_identity : Prop :=
  forall name run event activity fields x x',
    execution_listener name = Some run -> run event activity fields x = Ok x' ->
    ex_id x' = ex_id x /\ ex_parent_id x' = ex_parent_id x
    /\ ex_process_instance_id x' = ex_process_instance_id x
    /\ ex_is_scope x' = ex_is_scope x.

Lemma invoke_identity x l event activity ev x' :
  listeners_keep_identity -> invoke_execution_listener x l event activity ev = Ok x' ->
  ex_id x' = ex_id x /\ ex_parent_id x' = ex_parent_id x
  /\ ex_process_instance_id x' = ex_process_instance_id x /\ ex_is_scope x' = ex_is_scope x.
Proof.
  intros Hk. unfold invoke_execution_listener. intros E.
  destruct (trimmed (fl_implementation l)) as [impl|]; [|done]. simpl in E.
  case_bool_decide.
  { destruct (evaluate_strict _ _ _); simpl in E; [|done]. injection E as <-. done. }
  case_bool_decide; [|done].
  destruct (resolve_listener_name _ _ _) as [n|]; [|done]. simpl in E.
  destruct (resolve_field_extensions _ _ _) as [fs|]; [|done]. simpl in E.
  destruct (execution_listener n) as [run|] eqn:Er; [|done]. simpl in E. by eapply Hk.
Qed.

Lemma listeners_identity x ls event ev x' :
  listeners_keep_identity -> execute_execution_listeners x ls event ev = Ok x' ->
  ex_id x' = ex_id x /\ ex_parent_id x' = ex_parent_id x
  /\ ex_process_instance_id x' = ex_process_instance_id x /\ ex_is_scope x' = ex_is_scope x.
Proof.
  intros Hk. unfold execute_execution_listeners. generalize (ex_activity_id x). intros activity.
  revert x. induction ls as [|l ls IH]; intros x E; simpl in E; [by injection E as <-|].
  destruct (listener_matches_event l event); [|by apply IH].
  destruct (reject_transaction_hook l _); [|done]. simpl in E.
  destruct (invoke_execution_listener x l event activity ev) as [x1|] eqn:E1; [|done].
  simpl in E. destruct (IH _ E) as (-> & -> & -> & ->). by eapply invoke_identity.
Qed.
End Listeners.
