(* ===== verification/ExecutionGraph.v ===== *)
(** * Reachability in the process graph

    Models [flowable-engine/src/bpmn/execution_graph_util.rs]: the container
    of an element, the climbs through enclosing containers and the
    depth-first search the inclusive gateway uses to decide whether a token
    can still arrive.

    The Rust loops have no bound; here they take fuel and return [None] when
    it runs out.  [climb_fuel] and [search_fuel] are the fuels used at the
    call sites, and the theorems show they are enough for every process the
    converter builds. *)
From S2P Require Import Prelude Json BpmnModel FlowElements Samples.

(** ** Containers *)
Fixpoint find_parent_in_element (container : FlowElementEnum) (element_id : string)
    {struct container} : option FlowElementEnum :=
  match container with
  | FESubProcess s | FETransaction s | FEEventSubProcess s | FEAdhocSubProcess s _ _ _ =>
      (fix go (l : list FlowElementEnum) : option FlowElementEnum :=
         match l with
         | [] => None
         | child :: l =>
             if is_some_eq (flow_element_id child) element_id then Some container
             else match find_parent_in_element child element_id with
                  | Some found => Some found
                  | None => go l
                  end
         end) (sp_flow_elements s)
  | _ => None
  end.

Definition find_parent_element_for_child (process : Process) (element_id : string)
    : option FlowElementEnum :=
  find_map (fun e => find_parent_in_element e element_id) (pr_flow_elements process).

(** The [loop] of [is_in_event_subprocess]. *)
Fixpoint in_event_subprocess_loop (fuel : nat) (process : Process) (current_id : string)
    : option bool :=
  match fuel with
  | 0 => None
  | S fuel =>
      match find_parent_element_for_child process current_id with
      | None => Some false
      | Some parent =>
          match parent with
          | FEEventSubProcess _ => Some true
          | FESubProcess _ | FETransaction _ | FEAdhocSubProcess _ _ _ _ =>
              match flow_element_id parent with
              | Some id => in_event_subprocess_loop fuel process id
              | None => Some false
              end
          | _ => Some false
          end
      end
  end.

Definition climb_fuel (process : Process) : nat :=
  S (S (length (all_elements (pr_flow_elements process)))).

Definition is_in_event_subprocess (process : Process) (flow_node : FlowElementEnum) : option bool :=
  match flow_element_id flow_node with
  | None => Some false
  | Some current_id => in_event_subprocess_loop (climb_fuel process) process current_id
  end.

(** The [loop] of [has_multi_instance_parent]. *)
Fixpoint multi_instance_parent_loop (fuel : nat) (process : Process) (current_id : string)
    : option bool :=
  match fuel with
  | 0 => None
  | S fuel =>
      match find_parent_element_for_child process current_id with
      | None => Some false
      | Some parent =>
          if has_loop_characteristics parent then Some true
          else match parent with
               | FESubProcess _ | FETransaction _ | FEEventSubProcess _
               | FEAdhocSubProcess _ _ _ _ =>
                   match flow_element_id parent with
                   | Some id => multi_instance_parent_loop fuel process id
                   | None => Some false
                   end
               | _ => Some false
               end
      end
  end.

Definition has_multi_instance_parent (process : Process) (flow_node_id : string) : option bool :=
  multi_instance_parent_loop (climb_fuel process) process flow_node_id.

(** ** The search *)
Definition resolve_flow_node (process : Process) (element_id : string) : option FlowElementEnum :=
  match find_flow_element process element_id with
  | None => None
  | Some (FESequenceFlow flow) =>
      match sf_target_ref flow with
      | None => None
      | Some target_ref =>
          match find_flow_element process target_ref with
          | None => None
          | Some target => if is_flow_node target then Some target else None
          end
      end
  | Some other => if is_flow_node other then Some other else None
  end.

Definition is_start_event (e : FlowElementEnum) : bool :=
  match e with FEStartEvent _ => true | _ => false end.

Definition is_container (e : FlowElementEnum) : bool :=
  match e with
  | FESubProcess _ | FETransaction _ | FEEventSubProcess _ | FEAdhocSubProcess _ _ _ _ => true
  | _ => false
  end.

(** No outgoing sequence flow, or no row for the variant in the table. *)
Definition is_leaf (e : FlowElementEnum) : bool :=
  match graph_outgoing_flows e with Some (_ :: _) => false | _ => true end.

(** The [for] loop over the outgoing flows; [search] is the recursive call. *)
Fixpoint search_flows (search : FlowElementEnum -> gset string -> option (bool * gset string))
    (process : Process) (flows : list SequenceFlow) (visited : gset string)
    : option (bool * gset string) :=
  match flows with
  | [] => Some (false, visited)
  | sequence_flow :: flows =>
      match sf_target_ref sequence_flow with
      | None => search_flows search process flows visited
      | Some target_ref =>
          match find_flow_element process target_ref with
          | None => search_flows search process flows visited
          | Some sequence_flow_target =>
              if negb (is_flow_node sequence_flow_target)
              then search_flows search process flows visited
              else match flow_element_id sequence_flow_target with
                   | None => search_flows search process flows visited
                   | Some seq_target_id =>
                       if bool_decide (seq_target_id ∈ visited)
                       then search_flows search process flows visited
                       else match search sequence_flow_target visited with
                            | None => None
                            | Some (true, visited) => Some (true, visited)
                            | Some (false, visited) => search_flows search process flows visited
                            end
                   end
          end
      end
  end.

(** [is_reachable_from]; the answer and the visited set after the search. *)
Fixpoint is_reachable_from (fuel : nat) (process : Process)
    (source_element target_element : FlowElementEnum) (visited : gset string)
    {struct fuel} : option (bool * gset string) :=
  match fuel with
  | 0 => None
  | S fuel =>
      match (if is_start_event source_element
             then is_in_event_subprocess process source_element else Some false) with
      | None => None
      | Some true => Some (false, visited)
      | Some false =>
          match flow_element_id source_element, flow_element_id target_element with
          | None, _ | _, None => Some (false, visited)
          | Some source_id, Some target_id =>
              let climbed :=
                if is_leaf source_element then
                  let visited := {[source_id]} ∪ visited in
                  match find_parent_element_for_child process source_id with
                  | Some parent => (if is_container parent then Some parent else None, visited)
                  | None => (None, visited)
                  end
                else (Some source_element, visited) in
              match climbed with
              | (None, visited) => Some (false, visited)
              | (Some source_element, visited) =>
                  match flow_element_id source_element with
                  | None => Some (false, visited)
                  | Some source_id =>
                      if bool_decide (source_id = target_id) then Some (true, visited)
                      else if bool_decide (source_id ∈ visited) then Some (false, visited)
                      else
                        let visited := {[source_id]} ∪ visited in
                        match graph_outgoing_flows source_element with
                        | None => Some (false, visited)
                        | Some sequence_flows =>
                            search_flows
                              (fun e v => is_reachable_from fuel process e target_element v)
                              process sequence_flows visited
                        end
                  end
              end
          end
      end
  end.

Definition search_fuel (process : Process) : nat :=
  S (S (length (all_elements (pr_flow_elements process))
        + length (pr_flow_element_map process))).

Definition is_reachable (process : Process) (source_element_id target_element_id : string)
    : option bool :=
  match resolve_flow_node process source_element_id,
        resolve_flow_node process target_element_id with
  | Some source_element, Some target_element =>
      match is_reachable_from (search_fuel process) process source_element target_element ∅ with
      | Some (b, _) => Some b
      | None => None
      end
  | _, _ => Some false
  end.

(** ** Containers: correctness *)
Lemma find_parent_in_element_spec container i m :
  find_parent_in_element container i = Some m ->
  m ∈ preorder container /\ is_container m = true
  /\ exists c, c ∈ children m /\ flow_element_id c = Some i.
Proof.
  induction container as [e IH] using flow_element_ind.
  assert (Hgo : forall l, (forall c, c ∈ l -> c ∈ children e) ->
    is_container e = true ->
    (fix go (l : list FlowElementEnum) : option FlowElementEnum :=
       match l with
       | [] => None
       | child :: l => if is_some_eq (flow_element_id child) i then Some e
                       else match find_parent_in_element child i with
                            | Some found => Some found
                            | None => go l
                            end
       end) l = Some m ->
    m ∈ preorder e /\ is_container m = true /\ exists c, c ∈ children m /\ flow_element_id c = Some i).
  { induction l as [|x l IHl]; intros Hl Hc; [done|].
    destruct (is_some_eq (flow_element_id x) i) eqn:Ex.
    - intros [= <-]. apply is_some_eq_spec in Ex. split_and!; [apply preorder_self|done|].
      exists x. split; [apply Hl; left|done].
    - destruct (find_parent_in_element x i) as [f|] eqn:Ef.
      + intros [= ->]. destruct (IH x (Hl x (list_elem_of_here _ _)) Ef) as (H1 & H2 & H3).
        split_and!; try done. rewrite preorder_eq. right. apply elem_of_all_elements.
        exists x. split; [apply Hl; left|done].
      + apply IHl; [|done]. intros c Hcl. apply Hl. by right. }
  destruct e; simpl; try done; apply Hgo; done.
Qed.

(** The container found for an id has a child with that id. *)
Lemma find_parent_spec p i m :
  find_parent_element_for_child p i = Some m ->
  m ∈ all_elements (pr_flow_elements p) /\ is_container m = true
  /\ exists c, c ∈ children m /\ flow_element_id c = Some i.
Proof.
  intros H. apply find_map_Some in H as (e & He & H).
  apply find_parent_in_element_spec in H as (H1 & H2 & H3). split_and!; try done.
  apply elem_of_all_elements. eauto.
Qed.

Lemma find_parent_in_element_eq e i :
  find_parent_in_element e i
  = find_map (fun c => if is_some_eq (flow_element_id c) i then Some e
                       else find_parent_in_element c i) (children e).
Proof.
  assert (Hgo : forall l,
    (fix go (l : list FlowElementEnum) : option FlowElementEnum :=
       match l with
       | [] => None
       | child :: l => if is_some_eq (flow_element_id child) i then Some e
                       else match find_parent_in_element child i with
                            | Some found => Some found
                            | None => go l
                            end
       end) l
    = find_map (fun c => if is_some_eq (flow_element_id c) i then Some e
                         else find_parent_in_element c i) l).
  { induction l as [|x l IH]; simpl; [done|].
    destruct (is_some_eq (flow_element_id x) i); [done|]. by rewrite IH. }
  destruct e; simpl; try done; apply Hgo.
Qed.

Lemma element_ids_app l k : element_ids (l ++ k) = element_ids l ++ element_ids k.
Proof. apply omap_app. Qed.

Lemma NoDup_subtree l y :
  NoDup (element_ids (all_elements l)) -> y ∈ l -> NoDup (element_ids (preorder y)).
Proof.
  intros Hnd Hy. apply list_elem_of_split in Hy as (l1 & l2 & ->).
  rewrite all_elements_app, element_ids_app in Hnd.
  apply NoDup_app in Hnd as (_ & _ & Hnd). simpl in Hnd.
  rewrite element_ids_app in Hnd. by apply NoDup_app in Hnd as (? & _ & _).
Qed.

(** With unique ids, two subtrees of a list that share an id are the same. *)
Lemma subtree_of_id_unique l y z i :
  NoDup (element_ids (all_elements l)) -> y ∈ l -> z ∈ l ->
  i ∈ element_ids (preorder y) -> i ∈ element_ids (preorder z) -> y = z.
Proof.
  induction l as [|x l IH]; intros Hnd Hy Hz Hiy Hiz; [by apply not_elem_of_nil in Hy|].
  simpl in Hnd. rewrite element_ids_app in Hnd. apply NoDup_app in Hnd as (_ & Hd & Hnd).
  assert (Hout : forall w, w ∈ l -> i ∈ element_ids (preorder x) ->
                 i ∈ element_ids (preorder w) -> False).
  { intros w Hw Hx Hiw. apply (Hd i Hx). apply elem_of_element_ids.
    apply elem_of_element_ids in Hiw as (e & He & Hi). exists e. split; [|done].
    apply elem_of_all_elements. eauto. }
  apply elem_of_cons in Hy as [->|Hy]; apply elem_of_cons in Hz as [->|Hz]; try done.
  - by destruct (Hout z).
  - by destruct (Hout y).
  - by apply IH.
Qed.

Lemma find_parent_in_element_ids e i m :
  find_parent_in_element e i = Some m -> i ∈ element_ids (all_elements (children e)).
Proof.
  intros H. rewrite find_parent_in_element_eq in H. apply find_map_Some in H as (c & Hc & H).
  apply elem_of_element_ids. setoid_rewrite elem_of_all_elements.
  destruct (is_some_eq (flow_element_id c) i) eqn:E.
  - apply is_some_eq_spec in E. exists c. split; [|done]. exists c. split; [done|apply preorder_self].
  - apply find_parent_in_element_spec in H as (Hm & _ & x & Hx & Hi).
    exists x. split; [|done]. exists c. split; [done|]. by eapply preorder_trans.
Qed.

Lemma children_ids_preorder e i :
  i ∈ element_ids (all_elements (children e)) -> i ∈ element_ids (preorder e).
Proof.
  rewrite !elem_of_element_ids, preorder_eq. intros (c & Hc & Hi). exists c.
  split; [by right|done].
Qed.

(** With unique ids the search for the container is complete. *)
Lemma find_parent_in_element_complete e m c i :
  NoDup (element_ids (preorder e)) -> m ∈ preorder e -> c ∈ children m ->
  flow_element_id c = Some i -> find_parent_in_element e i = Some m.
Proof.
  revert m. induction e as [e IH] using flow_element_ind. intros m Hnd Hm Hc Hi.
  rewrite find_parent_in_element_eq. rewrite preorder_eq in Hnd, Hm.
  assert (Hch : NoDup (element_ids (all_elements (children e)))).
  { unfold element_ids in *. simpl in Hnd.
    destruct (flow_element_id e); [by apply NoDup_cons in Hnd as [_ ?]|done]. }
  assert (Hsome : forall z b, z ∈ children e ->
    (if is_some_eq (flow_element_id z) i then Some e else find_parent_in_element z i) = Some b ->
    i ∈ element_ids (preorder z)).
  { intros z b Hz Hb. destruct (is_some_eq (flow_element_id z) i) eqn:E.
    - apply is_some_eq_spec in E. apply elem_of_element_ids. eauto using preorder_self.
    - by eapply children_ids_preorder, find_parent_in_element_ids. }
  assert (Hkey : exists y, y ∈ children e /\
    (if is_some_eq (flow_element_id y) i then Some e else find_parent_in_element y i) = Some m).
  { apply elem_of_cons in Hm as [->|Hm].
    - exists c. split; [done|]. by rewrite (proj2 (is_some_eq_spec _ _) Hi).
    - apply elem_of_all_elements in Hm as (y & Hy & Hm). exists y. split; [done|].
      pose proof (NoDup_subtree _ _ Hch Hy) as Hndy.
      rewrite (IH y Hy m Hndy Hm Hc Hi).
      destruct (is_some_eq (flow_element_id y) i) eqn:E; [|done]. exfalso.
      apply is_some_eq_spec in E. rewrite preorder_eq in Hndy.
      unfold element_ids in Hndy. simpl in Hndy. rewrite E in Hndy.
      apply NoDup_cons in Hndy as [Hni _]. apply Hni. apply list_elem_of_omap.
      exists c. split; [|done]. rewrite preorder_eq in Hm.
      apply elem_of_cons in Hm as [->|Hm]; [by apply all_elements_incl|].
      apply elem_of_all_elements in Hm as (w & Hw & Hm). apply elem_of_all_elements.
      exists w. split; [done|]. by eapply preorder_trans. }
  destruct Hkey as (y & Hy & Hfy). eapply find_map_unique; [exact Hy|exact Hfy|].
  intros z b Hz Hb.
  assert (z = y) as ->.
  { eapply subtree_of_id_unique; [exact Hch|done|done| |]; eapply Hsome; done. }
  congruence.
Qed.

Lemma all_elements_children p m c :
  m ∈ all_elements (pr_flow_elements p) -> c ∈ children m ->
  c ∈ all_elements (pr_flow_elements p).
Proof.
  rewrite !elem_of_all_elements. intros (x & Hx & Hm) Hc. exists x.
  split; [done|]. by eapply preorder_trans.
Qed.

Lemma find_parent_complete p m c i :
  converted p -> m ∈ all_elements (pr_flow_elements p) -> c ∈ children m ->
  flow_element_id c = Some i -> find_parent_element_for_child p i = Some m.
Proof.
  intros Hp Hm Hc Hi. apply elem_of_all_elements in Hm as (y & Hy & Hm).
  pose proof (converted_ids p Hp) as Hnd.
  eapply find_map_unique; [exact Hy| |].
  - by eapply find_parent_in_element_complete; [eapply NoDup_subtree|..].
  - intros z b Hz Hb.
    assert (i ∈ element_ids (preorder y)) as Hiy.
    { apply elem_of_element_ids. exists c. split; [by eapply preorder_trans|done]. }
    assert (z = y) as ->.
    { eapply subtree_of_id_unique; [exact Hnd|done|done| |exact Hiy].
      by eapply children_ids_preorder, find_parent_in_element_ids. }
    assert (find_parent_in_element y i = Some m); [|congruence].
    by eapply find_parent_in_element_complete; [eapply NoDup_subtree|..].
Qed.

(** ** The climbs *)

(** Both loops are this climb, with a different test on the container. *)
Fixpoint climb (test : FlowElementEnum -> bool) (fuel : nat) (p : Process) (i : string)
    : option bool :=
  match fuel with
  | 0 => None
  | S fuel =>
      match find_parent_element_for_child p i with
      | None => Some false
      | Some m => if test m then Some true
                  else match flow_element_id m with
                       | Some j => climb test fuel p j
                       | None => Some false
                       end
      end
  end.

Definition is_event_sub_process (e : FlowElementEnum) : bool :=
  match e with FEEventSubProcess _ => true | _ => false end.

Lemma in_event_subprocess_climb fuel p i :
  in_event_subprocess_loop fuel p i = climb is_event_sub_process fuel p i.
Proof.
  revert i. induction fuel as [|fuel IH]; intros i; simpl; [done|].
  destruct (find_parent_element_for_child p i) as [m|] eqn:E; [|done].
  apply find_parent_spec in E as (_ & Hm & _). unfold is_event_sub_process.
  destruct m; try done; destruct (flow_element_id _); auto.
Qed.

Lemma multi_instance_parent_climb fuel p i :
  multi_instance_parent_loop fuel p i = climb has_loop_characteristics fuel p i.
Proof.
  revert i. induction fuel as [|fuel IH]; intros i; simpl; [done|].
  destruct (find_parent_element_for_child p i) as [m|] eqn:E; [|done].
  apply find_parent_spec in E as (_ & Hm & _).
  destruct (has_loop_characteristics m); [done|].
  destruct m; try done; destruct (flow_element_id _); auto.
Qed.

(** The element with id [i] lies strictly inside the container [a]. *)
Definition inside (p : Process) (a : FlowElementEnum) (i : string) : Prop :=
  a ∈ all_elements (pr_flow_elements p)
  /\ exists c, c ∈ all_elements (children a) /\ flow_element_id c = Some i.

(** Every container has an id. *)
Definition containers_named (p : Process) : Prop :=
  forall e, e ∈ all_elements (pr_flow_elements p) -> is_container e = true ->
  is_Some (flow_element_id e).

Lemma is_container_children e c : c ∈ children e -> is_container e = true.
Proof. destruct e; try done; intros H; by apply not_elem_of_nil in H. Qed.

Lemma elem_of_all_children e x :
  x ∈ all_elements (children e) <->
  x ∈ children e \/ exists m, m ∈ all_elements (children e) /\ x ∈ children m.
Proof.
  split.
  - induction e as [e IH] using flow_element_ind. intros H.
    apply elem_of_all_elements in H as (y & Hy & Hx). rewrite preorder_eq in Hx.
    apply elem_of_cons in Hx as [->|Hx]; [by left|]. right.
    destruct (IH y Hy Hx) as [H|(m & Hm & Hxm)].
    + exists y. split; [by apply all_elements_incl|done].
    + exists m. split; [|done]. apply elem_of_all_elements. exists y.
      split; [done|]. rewrite preorder_eq. by right.
  - intros [H|(m & Hm & Hx)]; [by apply all_elements_incl|].
    apply elem_of_all_elements in Hm as (y & Hy & Hm). apply elem_of_all_elements.
    exists y. split; [done|]. by eapply preorder_trans.
Qed.

Section Climb.
Context (p : Process) (Hp : converted p).
Let elems := all_elements (pr_flow_elements p).

Lemma preorder_in_elems a x : a ∈ elems -> x ∈ preorder a -> x ∈ elems.
Proof.
  intros Ha. induction a as [a IH] using flow_element_ind. intros Hx.
  rewrite preorder_eq in Hx. apply elem_of_cons in Hx as [->|Hx]; [done|].
  apply elem_of_all_elements in Hx as (y & Hy & Hx).
  apply (IH y Hy); [|done]. by eapply all_elements_children.
Qed.

Lemma elems_id_inj x y i :
  x ∈ elems -> y ∈ elems -> flow_element_id x = Some i -> flow_element_id y = Some i -> x = y.
Proof. apply element_ids_inj. by destruct Hp. Qed.

(** The containers around [i] are its own container and the containers
    around that one. *)
Lemma inside_step i m j :
  find_parent_element_for_child p i = Some m -> flow_element_id m = Some j ->
  forall a, inside p a i <-> a = m \/ inside p a j.
Proof.
  intros Hf Hj a. destruct (find_parent_spec _ _ _ Hf) as (Hm & Hcm & c & Hc & Hi).
  assert (Hin : forall x, a ∈ elems -> x ∈ all_elements (children a) -> x ∈ elems).
  { intros x Ha Hx. eapply preorder_in_elems; [exact Ha|]. rewrite preorder_eq. by right. }
  split.
  - intros (Ha & x & Hx & Hxi).
    assert (x = c) as -> by (eapply elems_id_inj; eauto using all_elements_children).
    apply elem_of_all_children in Hx as [Hx|(m' & Hm' & Hx)].
    + left. pose proof (find_parent_complete _ _ _ _ Hp Ha Hx Hi). congruence.
    + right. pose proof (find_parent_complete _ _ _ _ Hp (Hin _ Ha Hm') Hx Hi).
      assert (m' = m) as -> by congruence. split; eauto.
  - intros [->|(Ha & x & Hx & Hxj)]; split; try done; exists c; split; try done.
    + by apply all_elements_incl.
    + assert (x = m) as -> by (eapply elems_id_inj; eauto).
      apply elem_of_all_children. eauto.
Qed.

Lemma inside_none i :
  find_parent_element_for_child p i = None -> forall a, ~ inside p a i.
Proof.
  intros Hf a (Ha & c & Hc & Hi).
  apply elem_of_all_children in Hc as [Hc|(m & Hm & Hc)].
  - pose proof (find_parent_complete _ _ _ _ Hp Ha Hc Hi). congruence.
  - assert (m ∈ elems) as Hme.
    { eapply preorder_in_elems; [exact Ha|]. rewrite preorder_eq. by right. }
    pose proof (find_parent_complete _ _ _ _ Hp Hme Hc Hi). congruence.
Qed.

Lemma preorder_length_children x l : x ∈ l -> length (preorder x) <= length (all_elements l).
Proof.
  induction l as [|y l IH]; intros H; [by apply not_elem_of_nil in H|].
  simpl. rewrite length_app. apply elem_of_cons in H as [->|H]; [lia|]. specialize (IH H). lia.
Qed.

Lemma preorder_length_sub a e : e ∈ preorder a -> length (preorder e) <= length (preorder a).
Proof.
  induction a as [a IH] using flow_element_ind. rewrite (preorder_eq a). intros H.
  apply elem_of_cons in H as [->|H]; [by rewrite preorder_eq|].
  apply elem_of_all_elements in H as (y & Hy & H). specialize (IH y Hy H).
  pose proof (preorder_length_children _ _ Hy). simpl. lia.
Qed.

Lemma preorder_length_elems m : m ∈ elems -> length (preorder m) <= length elems.
Proof.
  intros H. apply elem_of_all_elements in H as (y & Hy & H).
  pose proof (preorder_length_sub _ _ H). pose proof (preorder_length_children _ _ Hy) as Hl.
  fold elems in Hl. lia.
Qed.

(** Each step of the climb moves to a strictly larger subtree. *)
Lemma climb_step_larger i m j m' :
  find_parent_element_for_child p i = Some m -> flow_element_id m = Some j ->
  find_parent_element_for_child p j = Some m' ->
  length (preorder m) < length (preorder m').
Proof.
  intros Hf Hj Hf'. destruct (find_parent_spec _ _ _ Hf) as (Hm & _ & _).
  destruct (find_parent_spec _ _ _ Hf') as (Hm' & _ & c & Hc & Hcj).
  assert (c = m) as -> by (eapply elems_id_inj; eauto using all_elements_children).
  pose proof (preorder_length_children _ _ Hc). rewrite (preorder_eq m'). simpl. lia.
Qed.

Lemma climb_spec test fuel i :
  containers_named p ->
  match find_parent_element_for_child p i with
  | Some m => S (length elems) - length (preorder m) < fuel
  | None => 0 < fuel
  end ->
  exists b, climb test fuel p i = Some b
            /\ (b = true <-> exists a, inside p a i /\ test a = true).
Proof.
  intros Hn. revert i. induction fuel as [|fuel IH]; intros i Hfuel.
  { destruct (find_parent_element_for_child p i); lia. }
  simpl. destruct (find_parent_element_for_child p i) as [m|] eqn:Hf.
  - destruct (find_parent_spec _ _ _ Hf) as (Hm & Hcm & _).
    destruct (Hn m Hm Hcm) as [j Hj]. pose proof (inside_step _ _ _ Hf Hj) as Hin.
    destruct (test m) eqn:Ht.
    { exists true. split; [done|]. split; [|done]. intros _. exists m.
      split; [|done]. apply Hin. by left. }
    rewrite Hj.
    destruct (IH j) as (b & Hb & Hspec).
    + pose proof (preorder_length_elems _ Hm).
      destruct (find_parent_element_for_child p j) as [m'|] eqn:Hf'; [|lia].
      pose proof (climb_step_larger _ _ _ _ Hf Hj Hf'). lia.
    + exists b. split; [done|]. rewrite Hspec.
      split; intros (a & Ha & Hta); exists a; (split; [|done]).
      * apply Hin. by right.
      * apply Hin in Ha as [->|Ha]; [congruence|done].
  - exists false. split; [done|]. split; [done|].
    intros (a & Ha & _). by destruct (inside_none _ Hf a).
Qed.

Lemma climb_fuel_enough i :
  match find_parent_element_for_child p i with
  | Some m => S (length elems) - length (preorder m) < climb_fuel p
  | None => 0 < climb_fuel p
  end.
Proof. unfold climb_fuel. fold elems. destruct (find_parent_element_for_child p i); lia. Qed.

(** Termination of the climb without the naming hypothesis. *)
Lemma climb_total test fuel i :
  match find_parent_element_for_child p i with
  | Some m => S (length elems) - length (preorder m) < fuel
  | None => 0 < fuel
  end ->
  is_Some (climb test fuel p i).
Proof.
  revert i. induction fuel as [|fuel IH]; intros i Hfuel.
  { destruct (find_parent_element_for_child p i); lia. }
  simpl. destruct (find_parent_element_for_child p i) as [m|] eqn:Hf; [|by eexists].
  destruct (test m); [by eexists|]. destruct (flow_element_id m) as [j|] eqn:Hj; [|by eexists].
  apply IH. destruct (find_parent_spec _ _ _ Hf) as (Hm & _ & _).
  pose proof (preorder_length_elems _ Hm).
  destruct (find_parent_element_for_child p j) as [m'|] eqn:Hf'; [|lia].
  pose proof (climb_step_larger _ _ _ _ Hf Hj Hf'). lia.
Qed.

Lemma is_in_event_subprocess_total e : is_Some (is_in_event_subprocess p e).
Proof.
  unfold is_in_event_subprocess. destruct (flow_element_id e) as [i|]; [|by eexists].
  rewrite in_event_subprocess_climb. apply climb_total, climb_fuel_enough.
Qed.
End Climb.

(** ** Reachability: specification *)

(** The start events the search refuses to leave. *)
Definition blocked (p : Process) (e : FlowElementEnum) : Prop :=
  is_start_event e = true /\ is_in_event_subprocess p e = Some true.

(** Where a token on [e] goes on from: [e] itself, or its container when [e]
    has no outgoing sequence flow. *)
Definition departs (p : Process) (e m : FlowElementEnum) : Prop :=
  if is_leaf e
  then exists i, flow_element_id e = Some i /\ find_parent_element_for_child p i = Some m
  else m = e.

(** [t] is the flow node at the end of a sequence flow that leaves [m]. *)
Definition flows_to (p : Process) (m t : FlowElementEnum) : Prop :=
  exists flows f r, graph_outgoing_flows m = Some flows /\ f ∈ flows
    /\ sf_target_ref f = Some r /\ find_flow_element p r = Some t /\ is_flow_node t = true.

(** A token on an element can arrive at the element with id [tid]. *)
Inductive reaches (p : Process) (tid : string) : FlowElementEnum -> Prop :=
| reaches_here e m i :
    flow_element_id e = Some i -> ~ blocked p e -> departs p e m ->
    flow_element_id m = Some tid -> reaches p tid e
| reaches_flow e m t i k :
    flow_element_id e = Some i -> ~ blocked p e -> departs p e m ->
    flow_element_id m = Some k -> flows_to p m t -> reaches p tid t -> reaches p tid e.

Lemma is_leaf_outgoing e : is_leaf e = true -> forall t p, ~ flows_to p e t.
Proof.
  unfold is_leaf. intros H t p (flows & f & r & Hf & Hin & _). rewrite Hf in H.
  destruct flows; [by apply not_elem_of_nil in Hin|done].
Qed.

(** The search from the element a token departs from. *)
Definition explore (fuel : nat) (p : Process) (t : FlowElementEnum) (tid : string)
    (m : FlowElementEnum) (V : gset string) : option (bool * gset string) :=
  match flow_element_id m with
  | None => Some (false, V)
  | Some k =>
      if bool_decide (k = tid) then Some (true, V)
      else if bool_decide (k ∈ V) then Some (false, V)
      else match graph_outgoing_flows m with
           | None => Some (false, {[k]} ∪ V)
           | Some fl => search_flows (fun e v => is_reachable_from fuel p e t v) p fl ({[k]} ∪ V)
           end
  end.

Lemma is_reachable_from_step fuel p e t V i tid b :
  flow_element_id e = Some i -> flow_element_id t = Some tid ->
  is_in_event_subprocess p e = Some b ->
  is_reachable_from (S fuel) p e t V
  = if is_start_event e && b then Some (false, V)
    else if is_leaf e
         then match find_parent_element_for_child p i with
              | Some m => explore fuel p t tid m ({[i]} ∪ V)
              | None => Some (false, {[i]} ∪ V)
              end
         else explore fuel p t tid e V.
Proof.
  intros Hi Ht Hb. simpl. rewrite Hi, Ht, Hb.
  destruct (is_start_event e), b; simpl; try done;
    (destruct (is_leaf e); [|unfold explore; by rewrite Hi]);
    (destruct (find_parent_element_for_child p i) as [m|] eqn:Hm; [|done]);
    (destruct (find_parent_spec _ _ _ Hm) as (_ & Hc & _)); by rewrite Hc.
Qed.

(** The flow nodes the loop over a list of flows visits. *)
Definition flow_target (p : Process) (l : list SequenceFlow) (t : FlowElementEnum) : Prop :=
  exists f r, f ∈ l /\ sf_target_ref f = Some r /\ find_flow_element p r = Some t
              /\ is_flow_node t = true.

Lemma flow_target_cons p f l t :
  flow_target p (f :: l) t <->
  (exists r, sf_target_ref f = Some r /\ find_flow_element p r = Some t /\ is_flow_node t = true)
  \/ flow_target p l t.
Proof.
  unfold flow_target. setoid_rewrite elem_of_cons. naive_solver.
Qed.

Section Reachability.
Context (p : Process) (Hp : converted p) (t : FlowElementEnum) (tid : string).
Context (Ht : flow_element_id t = Some tid).

Lemma search_flows_true s l V V' :
  search_flows s p l V = Some (true, V') ->
  exists x V1, flow_target p l x /\ s x V1 = Some (true, V').
Proof.
  revert V. induction l as [|f l IH]; intros V H; [done|]. simpl in H.
  assert (Hrest : forall V, search_flows s p l V = Some (true, V') ->
    exists x V1, flow_target p (f :: l) x /\ s x V1 = Some (true, V')).
  { intros V1 H1. destruct (IH _ H1) as (x & V2 & Hx & Hs). exists x, V2.
    split; [|done]. apply flow_target_cons. by right. }
  destruct (sf_target_ref f) as [r|] eqn:Hr; [|by eapply Hrest].
  destruct (find_flow_element p r) as [x|] eqn:Hx; [|by eapply Hrest].
  destruct (is_flow_node x) eqn:Hn; simpl in H; [|by eapply Hrest].
  destruct (flow_element_id x) as [xi|] eqn:Hxi; [|by eapply Hrest].
  case_bool_decide; [by eapply Hrest|].
  destruct (s x V) as [[[] V2]|] eqn:Hrec; [|by eapply Hrest|done].
  exists x, V. rewrite Hrec. split; [|done]. apply flow_target_cons. left. eauto.
Qed.

Lemma not_blocked e b :
  is_in_event_subprocess p e = Some b -> is_start_event e && b = false -> ~ blocked p e.
Proof. intros Hb H [H1 H2]. rewrite H2 in Hb. injection Hb as <-. by rewrite H1 in H. Qed.

(** A positive answer is right. *)
Lemma is_reachable_from_sound fuel e V V' :
  is_reachable_from fuel p e t V = Some (true, V') -> reaches p tid e.
Proof.
  revert e V V'. induction fuel as [|fuel IH]; intros e V V' H; [done|].
  destruct (is_in_event_subprocess_total p Hp e) as [b Hb].
  destruct (flow_element_id e) as [i|] eqn:Hi.
  2:{ simpl in H. rewrite Hi, Hb in H. destruct (is_start_event e), b; discriminate H. }
  rewrite (is_reachable_from_step _ _ _ _ _ _ _ _ Hi Ht Hb) in H.
  destruct (is_start_event e && b) eqn:Hsb; [done|].
  pose proof (not_blocked _ _ Hb Hsb) as Hnb.
  assert (Hgo : forall m V1, departs p e m -> explore fuel p t tid m V1 = Some (true, V') ->
    reaches p tid e).
  { intros m V1 Hd Hm. unfold explore in Hm.
    destruct (flow_element_id m) as [k|] eqn:Hk; [|done].
    case_bool_decide; [subst; by eapply reaches_here|]. case_bool_decide; [done|].
    destruct (graph_outgoing_flows m) as [fl|] eqn:Hfl; [|done].
    apply search_flows_true in Hm as (x & V2 & (f & r & Hx) & Hs).
    eapply reaches_flow; [done..| |by eapply IH]. exists fl, f, r. naive_solver. }
  destruct (is_leaf e) eqn:Hleaf.
  - destruct (find_parent_element_for_child p i) as [m|] eqn:Hm; [|done].
    eapply Hgo; [|exact H]. unfold departs. rewrite Hleaf. eauto.
  - eapply Hgo; [|exact H]. unfold departs. by rewrite Hleaf.
Qed.

(** *** The fuel is enough *)
Definition graph_ids : gset string :=
  list_to_set (element_ids (all_elements (pr_flow_elements p))
               ++ (pr_flow_element_map p).*1).

Lemma map_get_key {A} k (m : list (string * A)) v : map_get k m = Some v -> k ∈ m.*1.
Proof.
  induction m as [|[k' v'] m IH]; simpl; [done|]. case_bool_decide as E.
  - subst. intros _. left.
  - intros H. right. by apply IH.
Qed.

Lemma elems_graph_ids e i :
  e ∈ all_elements (pr_flow_elements p) -> flow_element_id e = Some i -> i ∈ graph_ids.
Proof.
  intros He Hi. apply elem_of_list_to_set, elem_of_app. left.
  apply elem_of_element_ids. eauto.
Qed.

Lemma found_graph_ids r e i :
  find_flow_element p r = Some e -> flow_element_id e = Some i -> i ∈ graph_ids.
Proof.
  intros Hf Hi. pose proof (find_flow_element_id _ _ _ Hp Hf) as Hr.
  assert (r = i) as -> by congruence. unfold find_flow_element in Hf.
  destruct (map_get i (pr_flow_element_map p)) as [e'|] eqn:Hm; simpl in Hf.
  - apply elem_of_list_to_set, elem_of_app. right. by eapply map_get_key.
  - apply find_first_Some in Hf as [_ Hf]. by eapply elems_graph_ids; [apply all_elements_incl|].
Qed.

Lemma search_flows_total s l V :
  (forall x V1, flow_target p l x -> V ⊆ V1 -> exists b V2, s x V1 = Some (b, V2) /\ V1 ⊆ V2) ->
  exists b V', search_flows s p l V = Some (b, V') /\ V ⊆ V'.
Proof.
  revert V. induction l as [|f l IH]; intros V Hs; [by exists false, V|]. simpl.
  assert (Hrest : forall V1, V ⊆ V1 ->
    exists b V', search_flows s p l V1 = Some (b, V') /\ V ⊆ V').
  { intros V1 HV. destruct (IH V1) as (b & V' & H1 & H2).
    - intros x V2 Hx HV2. apply Hs; [|by etrans]. apply flow_target_cons. by right.
    - exists b, V'. split; [done|by etrans]. }
  destruct (sf_target_ref f) as [r|] eqn:Hr; [|by apply Hrest].
  destruct (find_flow_element p r) as [x|] eqn:Hx; [|by apply Hrest].
  destruct (is_flow_node x) eqn:Hn; simpl; [|by apply Hrest].
  destruct (flow_element_id x) as [xi|] eqn:Hxi; [|by apply Hrest].
  case_bool_decide; [by apply Hrest|].
  destruct (Hs x V) as (b & V2 & Hsx & HV2); [apply flow_target_cons; left; eauto|done|].
  rewrite Hsx. destruct b; [eauto|]. by apply Hrest.
Qed.

Lemma is_reachable_from_total fuel e V i :
  flow_element_id e = Some i -> i ∈ graph_ids -> size (graph_ids ∖ V) < fuel ->
  exists b V', is_reachable_from fuel p e t V = Some (b, V') /\ V ⊆ V'.
Proof.
  revert e V i. induction fuel as [|fuel IH]; intros e V i Hi HU Hfuel; [lia|].
  destruct (is_in_event_subprocess_total p Hp e) as [b Hb].
  rewrite (is_reachable_from_step _ _ _ _ _ _ _ _ Hi Ht Hb).
  destruct (is_start_event e && b); [eauto|].
  assert (Hgo : forall m V1, V ⊆ V1 -> (forall k, flow_element_id m = Some k -> k ∈ graph_ids) ->
    exists b V', explore fuel p t tid m V1 = Some (b, V') /\ V ⊆ V').
  { intros m V1 HV Hm. unfold explore.
    destruct (flow_element_id m) as [k|] eqn:Hk; [|eauto]. case_bool_decide; [eauto|].
    case_bool_decide as Hin; [eauto|]. specialize (Hm k eq_refl).
    destruct (graph_outgoing_flows m) as [fl|]; [|exists false, ({[k]} ∪ V1); set_solver].
    destruct (search_flows_total (fun e v => is_reachable_from fuel p e t v) fl ({[k]} ∪ V1))
      as (b' & V' & Hs & HV'); [|exists b', V'; set_solver].
    intros x V2 (f & r & _ & _ & Hx & _) HV2.
    pose proof (find_flow_element_id _ _ _ Hp Hx) as Hxi.
    apply (IH x V2 r Hxi); [by eapply found_graph_ids|].
    assert (size (graph_ids ∖ V2) < size (graph_ids ∖ V)); [|lia].
    apply subset_size. split; [set_solver|]. intros Hsub.
    assert (k ∈ graph_ids ∖ V) as Hk' by set_solver. set_solver. }
  destruct (is_leaf e); [|apply Hgo; [done|]; intros; congruence].
  destruct (find_parent_element_for_child p i) as [m|] eqn:Hm;
    [|exists false, ({[i]} ∪ V); set_solver].
  destruct (find_parent_spec _ _ _ Hm) as (Hme & _).
  apply Hgo; [set_solver|]. intros k Hk. by eapply elems_graph_ids.
Qed.

Lemma size_list_to_set_le (l : list string) : size (list_to_set l : gset string) <= length l.
Proof.
  induction l as [|x l IH]; [done|]. rewrite list_to_set_cons.
  rewrite size_union_alt, size_singleton.
  assert (Hsub : (list_to_set l ∖ {[x]} : gset string) ⊆ list_to_set l) by set_solver.
  pose proof (subseteq_size _ _ Hsub). simpl. lia.
Qed.

Lemma element_ids_length l : length (element_ids l) <= length l.
Proof. induction l as [|x l IH]; csimpl; [done|]. unfold element_ids in *. simpl.
  destruct (flow_element_id x); simpl; lia. Qed.

Lemma search_fuel_enough : size (graph_ids ∖ ∅) < search_fuel p.
Proof.
  rewrite difference_empty_L. unfold graph_ids, search_fuel.
  pose proof (size_list_to_set_le (element_ids (all_elements (pr_flow_elements p))
                   ++ (pr_flow_element_map p).*1)) as Hle.
  rewrite length_app, length_fmap in Hle.
  pose proof (element_ids_length (all_elements (pr_flow_elements p))). lia.
Qed.

(** *** A negative answer is right *)
Definition arrived (V : gset string) (x : FlowElementEnum) : Prop :=
  blocked p x \/ exists j, flow_element_id x = Some j /\ j ∈ V.

(** One hop from a visited element stays among the visited ones. *)
Definition closed (V : gset string) (e : FlowElementEnum) : Prop :=
  blocked p e \/
  (forall m k, departs p e m -> flow_element_id m = Some k -> k ≠ tid /\ k ∈ V)
  /\ (is_leaf e = false -> forall x, flows_to p e x -> arrived V x).

(** Every element visited between [V] and [V'] is closed. *)
Definition explored (V V' : gset string) : Prop :=
  V ⊆ V' /\ forall k e, k ∈ V' -> k ∉ V -> find_flow_element p k = Some e -> closed V' e.

Lemma arrived_mono V V' x : V ⊆ V' -> arrived V x -> arrived V' x.
Proof. intros HV [H|(j & Hj & H)]; [by left|right]. exists j. split; [done|]. set_solver. Qed.

Lemma closed_mono V V' e : V ⊆ V' -> closed V e -> closed V' e.
Proof.
  intros HV [H|[H1 H2]]; [by left|right]. split.
  - intros m k Hm Hk. destruct (H1 m k Hm Hk). split; [done|set_solver].
  - intros Hl x Hx. by eapply arrived_mono, H2.
Qed.

Lemma explored_trans V1 V2 V3 : explored V1 V2 -> explored V2 V3 -> explored V1 V3.
Proof.
  intros [H12 C12] [H23 C23]. split; [by etrans|]. intros k e Hk Hn He.
  destruct (decide (k ∈ V2)) as [H2|H2].
  - eapply closed_mono; [exact H23|]. by eapply C12.
  - by eapply C23.
Qed.

Lemma explored_refl V : explored V V.
Proof. split; [done|]. intros; by exfalso. Qed.

Lemma explored_insert V i e :
  find_flow_element p i = Some e -> forall V', explored ({[i]} ∪ V) V' -> closed V' e ->
  explored V V'.
Proof.
  intros He V' [HV HC] Hc. split; [set_solver|]. intros k e' Hk Hn He'.
  destruct (decide (k = i)) as [->|Hne]; [congruence|]. apply (HC k e' Hk); [set_solver|done].
Qed.

Lemma search_flows_false s l V V' :
  (forall x V1 V2, flow_target p l x -> s x V1 = Some (false, V2) ->
     explored V1 V2 /\ arrived V2 x) ->
  search_flows s p l V = Some (false, V') ->
  explored V V' /\ forall x, flow_target p l x -> arrived V' x.
Proof.
  revert V. induction l as [|f l IH]; intros V Hs H.
  { injection H as <-. split; [apply explored_refl|]. intros x (f & r & Hf & _).
    by apply not_elem_of_nil in Hf. }
  simpl in H.
  assert (Hrest : forall V1, explored V V1 ->
    (forall x, (exists r, sf_target_ref f = Some r /\ find_flow_element p r = Some x
                          /\ is_flow_node x = true) -> arrived V1 x) ->
    search_flows s p l V1 = Some (false, V') ->
    explored V V' /\ forall x, flow_target p (f :: l) x -> arrived V' x).
  { intros V1 HV Hf H1. destruct (IH V1) as [H2 H3]; [|done|].
    - intros x V2 V3 Hx. apply Hs. apply flow_target_cons. by right.
    - split; [by eapply explored_trans|]. intros x Hx.
      apply flow_target_cons in Hx as [Hx|Hx]; [|by apply H3].
      eapply arrived_mono; [apply H2|]. by apply Hf. }
  pose proof (explored_refl V) as Hrefl.
  destruct (sf_target_ref f) as [r|] eqn:Hr; [|eapply Hrest; [done|intros ? (? & ? & ? & ?); congruence|done]].
  destruct (find_flow_element p r) as [x|] eqn:Hx; [|eapply Hrest; [done|intros ? (? & ? & ? & ?); congruence|done]].
  destruct (is_flow_node x) eqn:Hn; simpl in H; [|eapply Hrest; [done|intros ? (? & ? & ? & ?); congruence|done]].
  pose proof (find_flow_element_id _ _ _ Hp Hx) as Hxi. rewrite Hxi in H.
  case_bool_decide as Hv.
  - eapply Hrest; [done| |done]. intros y (r' & [= <-] & Hy & _).
    assert (y = x) as -> by congruence. right. eauto.
  - destruct (s x V) as [[[] V2]|] eqn:Hsx; [done| |done].
    destruct (Hs x V V2) as [H1 H2]; [apply flow_target_cons; left; eauto|done|].
    eapply Hrest; [exact H1| |done]. intros y (r' & [= <-] & Hy & _).
    assert (y = x) as -> by congruence. done.
Qed.

(** Only a top-level container may have no outgoing flow. *)
Definition leaf_containers_top : Prop :=
  forall m i, m ∈ all_elements (pr_flow_elements p) -> is_container m = true ->
  is_leaf m = true -> flow_element_id m = Some i -> find_parent_element_for_child p i = None.

Context (Htop : leaf_containers_top).

Lemma explore_false fuel m V V' :
  (forall e i V V', find_flow_element p i = Some e ->
     is_reachable_from fuel p e t V = Some (false, V') -> explored V V' /\ arrived V' e) ->
  (forall k, flow_element_id m = Some k -> find_flow_element p k = Some m) ->
  (is_leaf m = true -> is_container m = true /\ m ∈ all_elements (pr_flow_elements p)) ->
  explore fuel p t tid m V = Some (false, V') ->
  explored V V' /\ forall k, flow_element_id m = Some k -> k ≠ tid /\ k ∈ V'.
Proof.
  intros IH Hf Hleaf H. unfold explore in H.
  destruct (flow_element_id m) as [k|] eqn:Hk.
  2:{ injection H as <-. split; [apply explored_refl|done]. }
  case_bool_decide as Htid; [done|]. specialize (Hf k eq_refl).
  case_bool_decide as Hv.
  { injection H as <-. split; [apply explored_refl|]. intros ? [= <-]. done. }
  assert (Hex : explored ({[k]} ∪ V) V' /\ forall x, flows_to p m x -> arrived V' x).
  { destruct (graph_outgoing_flows m) as [fl|] eqn:Hfl.
    - apply search_flows_false in H as [H1 H2].
      + split; [done|]. intros x (fl' & f & r & Hx & Hin & Hx'). apply H2.
        assert (fl' = fl) as -> by congruence. by exists f, r.
      + intros x V1 V2 (f & r & _ & _ & Hx & _). by eapply IH.
    - injection H as <-. split; [apply explored_refl|]. intros x (fl' & f & r & Hx & _).
      congruence. }
  destruct Hex as [Hex Harr].
  assert (HkV : k ∈ V') by (destruct Hex; set_solver).
  split; [|intros ? [= <-]; done]. eapply explored_insert; [exact Hf|exact Hex|].
  right. split; [|done]. intros m' k' Hd Hk'. unfold departs in Hd.
  destruct (is_leaf m) eqn:Hl; [|subst m'; split; congruence].
  destruct Hd as (i & Hi & Hpar). destruct Hleaf as [Hc Hin]; [done|].
  rewrite (Htop m i Hin Hc Hl Hi) in Hpar. discriminate.
Qed.

Lemma is_reachable_from_false fuel e i V V' :
  find_flow_element p i = Some e ->
  is_reachable_from fuel p e t V = Some (false, V') -> explored V V' /\ arrived V' e.
Proof.
  revert e i V V'. induction fuel as [|fuel IH]; intros e i V V' Hf H; [done|].
  pose proof (find_flow_element_id _ _ _ Hp Hf) as Hi.
  destruct (is_in_event_subprocess_total p Hp e) as [b Hb].
  rewrite (is_reachable_from_step _ _ _ _ _ _ _ _ Hi Ht Hb) in H.
  destruct (is_start_event e && b) eqn:Hsb.
  { injection H as <-. split; [apply explored_refl|]. left.
    apply andb_true_iff in Hsb as [H1 ->]. by split. }
  destruct (is_leaf e) eqn:Hleaf.
  - assert (Hgoal : explored ({[i]} ∪ V) V' -> closed V' e -> explored V V' /\ arrived V' e).
    { intros H1 H2. split; [by eapply explored_insert|]. right. exists i. split; [done|].
      destruct H1. set_solver. }
    destruct (find_parent_element_for_child p i) as [m|] eqn:Hm.
    + destruct (find_parent_spec _ _ _ Hm) as (Hme & Hc & _).
      apply explore_false in H as [H1 H2]; [|done| |done].
      * apply Hgoal; [done|]. right. split; [|congruence].
        intros m' k Hd Hk. unfold departs in Hd. rewrite Hleaf in Hd.
        destruct Hd as (j & Hj & Hm'). apply H2. congruence.
      * intros k Hk. by apply find_flow_element_nested.
    + injection H as <-. apply Hgoal; [apply explored_refl|]. right.
      split; [|congruence]. intros m' k Hd. unfold departs in Hd. rewrite Hleaf in Hd.
      destruct Hd as (j & Hj & Hm'). congruence.
  - apply explore_false in H as [H1 H2]; [|done| |by rewrite Hleaf].
    + split; [done|]. right. exists i. split; [done|]. by apply H2.
    + intros k Hk. congruence.
Qed.

Lemma closed_not_reaches V' :
  explored ∅ V' -> forall e, reaches p tid e -> forall i, find_flow_element p i = Some e ->
  i ∈ V' -> False.
Proof.
  intros [_ HC] e Hr. induction Hr as [e m i Hi Hnb Hd Hk|e m x i k Hi Hnb Hd Hk Hfl Hx IH];
    intros i' Hf HiV; (destruct (HC i' e HiV) as [?|[Hm Hs]]; [set_solver|done|done|]).
  - by destruct (Hm m tid Hd Hk).
  - assert (Harr : arrived V' x).
    { destruct (Hm m k Hd Hk) as [_ HkV]. unfold departs in Hd.
      destruct (is_leaf e) eqn:Hleaf; [|subst m; by apply Hs].
      destruct Hd as (j & Hj & Hpar). destruct (find_parent_spec _ _ _ Hpar) as (Hme & Hc & _).
      destruct (HC k m HkV) as [[Hst _]|[_ Hsm]]; [set_solver|by apply find_flow_element_nested| |].
      - by destruct m.
      - apply Hsm; [|done]. destruct (is_leaf m) eqn:Hl; [|done].
        by destruct (is_leaf_outgoing m Hl x p). }
    destruct Harr as [Hb|(j & Hj & HjV)]; [inversion Hx; done|].
    destruct Hfl as (fl & f & r & _ & _ & _ & Hfx & _).
    apply (IH r Hfx). pose proof (find_flow_element_id _ _ _ Hp Hfx). congruence.
Qed.
End Reachability.

Lemma resolve_found p i e : resolve_flow_node p i = Some e -> exists r, find_flow_element p r = Some e.
Proof.
  unfold resolve_flow_node. intros H. destruct (find_flow_element p i) as [x|] eqn:Hx; [|done].
  assert (Hother : (if is_flow_node x then Some x else None) = Some e -> x = e).
  { by destruct (is_flow_node x); intros [= ->]. }
  destruct x; try (exists i; rewrite Hx; f_equal; by apply Hother).
  destruct (sf_target_ref f) as [r|]; [|done].
  destruct (find_flow_element p r) as [y|] eqn:Hy; [|done]. exists r.
  rewrite Hy. by destruct (is_flow_node y).
Qed.

Lemma is_reachable_total p src tgt : converted p -> is_Some (is_reachable p src tgt).
Proof.
  intros Hp. unfold is_reachable.
  destruct (resolve_flow_node p src) as [e|] eqn:He; [|by eexists].
  destruct (resolve_flow_node p tgt) as [te|] eqn:Hte; [|by eexists].
  destruct (resolve_found p src e He) as (r & Hr).
  destruct (resolve_found p tgt te Hte) as (rt & Hrt).
  pose proof (find_flow_element_id _ _ _ Hp Hr) as Hi.
  pose proof (find_flow_element_id _ _ _ Hp Hrt) as Hti.
  destruct (is_reachable_from_total p Hp te rt Hti (search_fuel p) e ∅ r Hi) as (b & V & Hb & _).
  - exact (found_graph_ids p Hp r e r Hr Hi).
  - by eapply search_fuel_enough.
  - rewrite Hb. by eexists.
Qed.

(** ** Theorems *)

(** With unique ids, the container search returns exactly the container
    that has the element among its direct children. *)
Theorem find_parent_correct p i m :
  converted p ->
  find_parent_element_for_child p i = Some m <->
  m ∈ all_elements (pr_flow_elements p) /\ exists c, c ∈ children m /\ flow_element_id c = Some i.
Proof.
  intros Hp. split.
  - intros H. destruct (find_parent_spec _ _ _ H) as (? & _ & ?). by split.
  - intros (Hm & c & Hc & Hi). by eapply find_parent_complete.
Qed.

Lemma find_parent_correct_witness :
  converted sample /\ find_parent_element_for_child sample "subEnd" = Some sample_sub.
Proof.
  split; [exact sample_converted|].
  apply (find_parent_correct sample "subEnd" sample_sub sample_converted).
  split.
  - apply list_elem_of_In. vm_compute. tauto.
  - exists (FEEndEvent (event "subEnd" [f6] [])). split; [|reflexivity].
    apply list_elem_of_In. vm_compute. tauto.
Defined.

(** [has_multi_instance_parent] terminates and answers whether some
    enclosing container, at any depth, is multi-instance. *)
Theorem has_multi_instance_parent_correct p i :
  converted p -> containers_named p ->
  exists b, has_multi_instance_parent p i = Some b
            /\ (b = true <-> exists a, inside p a i /\ has_loop_characteristics a = true).
Proof.
  intros Hp Hn. unfold has_multi_instance_parent. rewrite multi_instance_parent_climb.
  apply climb_spec; [done|done|]. apply climb_fuel_enough.
Qed.

Lemma sample_containers_named : containers_named sample.
Proof.
  intros e He. assert (H : Forall (fun e => is_container e = true -> is_Some (flow_element_id e))
    (all_elements (pr_flow_elements sample))).
  { repeat constructor; intros _; by eexists. }
  by eapply Forall_forall in H.
Qed.

Lemma has_multi_instance_parent_correct_witness :
  has_multi_instance_parent sample "subEnd" = Some true
  /\ exists a, inside sample a "subEnd" /\ has_loop_characteristics a = true.
Proof.
  assert (H : has_multi_instance_parent sample "subEnd" = Some true) by (vm_compute; reflexivity).
  split; [exact H|].
  destruct (has_multi_instance_parent_correct sample "subEnd" sample_converted
              sample_containers_named) as (b & Hb & Hspec).
  apply Hspec. rewrite H in Hb. injection Hb as <-. reflexivity.
Defined.

(** The reachability search terminates on every converted process, and a
    positive answer is witnessed by a path of sequence flows and climbs out
    of containers that passes no start event of an event sub-process. *)
Theorem is_reachable_sound p src tgt :
  converted p ->
  exists b, is_reachable p src tgt = Some b
            /\ (b = true -> exists e te tid, resolve_flow_node p src = Some e
                  /\ resolve_flow_node p tgt = Some te /\ flow_element_id te = Some tid
                  /\ reaches p tid e).
Proof.
  intros Hp. unfold is_reachable.
  destruct (resolve_flow_node p src) as [e|] eqn:He; [|by exists false].
  destruct (resolve_flow_node p tgt) as [te|] eqn:Hte; [|by exists false].
  destruct (resolve_found p src e He) as (r & Hr).
  destruct (resolve_found p tgt te Hte) as (rt & Hrt).
  pose proof (find_flow_element_id _ _ _ Hp Hr) as Hi.
  pose proof (find_flow_element_id _ _ _ Hp Hrt) as Hti.
  destruct (is_reachable_from_total p Hp te rt Hti (search_fuel p) e ∅ r Hi) as (b & V & Hb & _).
  - exact (found_graph_ids p Hp r e r Hr Hi).
  - eapply search_fuel_enough; done.
  - rewrite Hb. exists b. split; [done|]. intros ->. exists e, te, rt.
    split_and!; try done. by eapply is_reachable_from_sound.
Qed.

Lemma is_reachable_sound_witness :
  is_reachable sample "subStart" "join" = Some true
  /\ exists e, resolve_flow_node sample "subStart" = Some e /\ reaches sample "join" e.
Proof.
  assert (H : is_reachable sample "subStart" "join" = Some true) by (vm_compute; reflexivity).
  split; [exact H|].
  destruct (is_reachable_sound sample "subStart" "join" sample_converted) as (b & Hb & Hs).
  rewrite H in Hb. injection Hb as <-. destruct (Hs eq_refl) as (e & te & tid & He & Hte & Hid & Hr).
  exists e. split; [exact He|]. vm_compute in Hte. injection Hte as <-.
  vm_compute in Hid. injection Hid as <-. exact Hr.
Defined.

(** When only top-level containers have no outgoing flow, the search answers
    [reaches]. *)
Lemma search_exact p src tgt e te tid :
  converted p -> leaf_containers_top p ->
  resolve_flow_node p src = Some e -> resolve_flow_node p tgt = Some te ->
  flow_element_id te = Some tid ->
  is_reachable p src tgt = Some true <-> reaches p tid e.
Proof.
  intros Hp Htop He Hte Htid. unfold is_reachable. rewrite He, Hte.
  destruct (resolve_found p src e He) as (r & Hr).
  pose proof (find_flow_element_id _ _ _ Hp Hr) as Hi.
  destruct (is_reachable_from_total p Hp te tid Htid (search_fuel p) e ∅ r Hi) as (b & V & Hb & _).
  { exact (found_graph_ids p Hp r e r Hr Hi). }
  { eapply search_fuel_enough; done. }
  rewrite Hb. split.
  - intros [= ->]. by eapply is_reachable_from_sound.
  - intros Hreach. destruct b; [done|]. exfalso.
    apply (is_reachable_from_false p Hp te tid Htid Htop _ _ _ _ _ Hr) in Hb as [Hex Harr].
    destruct Harr as [Hbl|(j & Hj & HjV)]; [by destruct Hreach|].
    apply (closed_not_reaches p Hp te tid Htid Htop V Hex e Hreach r Hr). congruence.
Qed.

Lemma resolve_node p i e : resolve_flow_node p i = Some e -> is_flow_node e = true.
Proof.
  unfold resolve_flow_node. destruct (find_flow_element p i) as [x|]; [|done].
  destruct x; simpl; try (by intros [= <-]); try done.
  destruct (sf_target_ref f) as [r|]; [|done]. destruct (find_flow_element p r) as [y|]; [|done].
  destruct (is_flow_node y) eqn:E; [|done]. by intros [= <-].
Qed.

(** *** The search and the moves of a token

    The moves are stated on the model alone: every flow node has its outgoing
    flows, whatever its kind. *)
Definition node_of (e : FlowElementEnum) : option FlowNode :=
  match e with
  | FESequenceFlow _ | FEValuedDataObject _ => None
  | FETask a | FEUserTask a | FEServiceTask a | FECaseServiceTask a | FESendTask a | FEScriptTask a
  | FEManualTask a | FEReceiveTask a | FEBusinessRuleTask a | FECallActivity a => Some (ac_flow_node a)
  | FEStartEvent e | FEEndEvent e | FEIntermediateCatchEvent e | FEIntermediateThrowEvent e => Some (ev_flow_node e)
  | FEExclusiveGateway g | FEParallelGateway g | FEInclusiveGateway g | FEEventBasedGateway g
  | FEComplexGateway g => Some (gw_flow_node g)
  | FESubProcess s | FETransaction s | FEEventSubProcess s | FEAdhocSubProcess s _ _ _ =>
      Some (ac_flow_node (sp_activity s))
  | FEBoundaryEvent b => Some (ev_flow_node (bd_event b))
  end.

Definition leaving (e : FlowElementEnum) : list SequenceFlow :=
  match node_of e with Some n => fn_outgoing_flows n | None => [] end.

(** The element is a direct child of [m]. *)
Definition contained (p : Process) (m e : FlowElementEnum) : Prop :=
  m ∈ all_elements (pr_flow_elements p)
  /\ exists c i, c ∈ children m /\ flow_element_id c = Some i /\ flow_element_id e = Some i.

(** A start event of an event sub-process: no token ever stands on it. *)
Definition idle_start (p : Process) (e : FlowElementEnum) : Prop :=
  is_start_event e = true
  /\ exists i a, flow_element_id e = Some i /\ inside p a i /\ is_event_sub_process a = true.

(** A token on an element moves along a sequence flow, or, where none leaves
    the element, out of the container the element is in. *)
Inductive moves (p : Process) (e : FlowElementEnum) : FlowElementEnum -> Prop :=
| moves_along f r t :
    ~ idle_start p e -> f ∈ leaving e -> sf_target_ref f = Some r -> find_flow_element p r = Some t ->
    is_flow_node t = true -> moves p e t
| moves_out m : ~ idle_start p e -> leaving e = [] -> contained p m e -> moves p e m.

(** The kinds of node the table of the search has no row for. *)
Definition searched (e : FlowElementEnum) : Prop :=
  match e with FESendTask _ | FEComplexGateway _ => False | _ => True end.

(** No container without outgoing flow lies in another container. *)
Definition closed_containers_top (p : Process) : Prop :=
  forall m c, m ∈ all_elements (pr_flow_elements p) -> c ∈ children m -> is_container c = true -> leaving c <> [].

Section Moves.
Context (p : Process) (Hp : converted p) (Hnamed : containers_named p) (Htop : closed_containers_top p).
Context (Hrows : forall i e, find_flow_element p i = Some e -> searched e).

Lemma blocked_idle e i : flow_element_id e = Some i -> blocked p e <-> idle_start p e.
Proof.
  intros Hi. unfold blocked, idle_start, is_in_event_subprocess. rewrite Hi, in_event_subprocess_climb.
  destruct (climb_spec p Hp is_event_sub_process (climb_fuel p) i Hnamed (climb_fuel_enough p i)) as (b & -> & Hb).
  split.
  - intros [H1 [= ->]]. split; [done|]. destruct (proj1 Hb eq_refl) as (a & ? & ?). eauto.
  - intros [H1 (j & a & [= <-] & Ha & Ht)]. split; [done|]. f_equal. apply Hb. eauto.
Qed.

Lemma leaf_leaving e i : find_flow_element p i = Some e -> is_flow_node e = true -> is_leaf e = true <-> leaving e = [].
Proof.
  intros Hf Hn. specialize (Hrows _ _ Hf). unfold is_leaf, leaving.
  destruct e; try done; simpl; by destruct (fn_outgoing_flows _).
Qed.

Lemma outgoing_leaving e i : find_flow_element p i = Some e -> is_flow_node e = true ->
  graph_outgoing_flows e = Some (leaving e).
Proof. intros Hf Hn. specialize (Hrows _ _ Hf). by destruct e. Qed.

Lemma parent_contained e m i : flow_element_id e = Some i ->
  find_parent_element_for_child p i = Some m <-> contained p m e.
Proof.
  intros Hi. split.
  - intros H. destruct (find_parent_spec _ _ _ H) as (Hm & _ & c & Hc & Hci). split; [done|]. eauto.
  - intros (Hm & c & j & Hc & Hci & Hj). rewrite Hi in Hj. injection Hj as <-. by eapply find_parent_complete.
Qed.

Lemma contained_found e m : contained p m e -> exists k, flow_element_id m = Some k /\ find_flow_element p k = Some m
  /\ is_container m = true.
Proof.
  intros (Hm & c & i & Hc & _). pose proof (is_container_children _ _ Hc) as Hcm.
  destruct (Hnamed m Hm Hcm) as [k Hk]. exists k. split_and!; [done|by apply find_flow_element_nested|done].
Qed.

Lemma container_not_start m : is_container m = true -> is_start_event m = false /\ is_flow_node m = true.
Proof. by destruct m. Qed.

Lemma closed_leaf_containers_top : leaf_containers_top p.
Proof.
  intros m i Hm Hc Hl Hi. destruct (find_parent_element_for_child p i) as [m'|] eqn:E; [|done]. exfalso.
  destruct (find_parent_spec _ _ _ E) as (Hm' & _ & c & Hcc & Hci).
  assert (c = m) as -> by (eapply (elems_id_inj p Hp); [by eapply all_elements_children|done|done|done]).
  apply (Htop m' m Hm' Hcc Hc). apply (leaf_leaving m i); [by apply find_flow_element_nested| |done].
  by apply container_not_start.
Qed.

Lemma departs_moves e i m :
  find_flow_element p i = Some e -> is_flow_node e = true -> ~ blocked p e -> departs p e m ->
  e = m \/ moves p e m /\ is_container m = true /\ m ∈ all_elements (pr_flow_elements p).
Proof.
  intros Hf Hn Hb Hd. pose proof (find_flow_element_id _ _ _ Hp Hf) as Hi. unfold departs in Hd.
  destruct (is_leaf e) eqn:Hl; [|by left]. right. destruct Hd as (j & Hj & Hm).
  apply (parent_contained e m j Hj) in Hm. destruct (contained_found e m Hm) as (k & _ & _ & Hc).
  split_and!; [|done|by destruct Hm]. apply moves_out; [|by eapply leaf_leaving|done]. by rewrite <- (blocked_idle e i).
Qed.

Lemma reaches_moves tid te e :
  find_flow_element p tid = Some te -> reaches p tid e ->
  forall i, find_flow_element p i = Some e -> is_flow_node e = true -> rtc (moves p) e te.
Proof.
  intros Hte Hr. induction Hr as [e m i Hi Hnb Hd Hm|e m x i k Hi Hnb Hd Hk Hfl Hx IH]; intros r Hf Hn;
    (destruct (departs_moves e r m Hf Hn Hnb Hd) as [<-|(Hem & Hc & Hin)]).
  - pose proof (find_flow_element_id _ _ _ Hp Hf). assert (e = te) as -> by congruence. reflexivity.
  - apply rtc_once. replace te with m; [done|].
    assert (find_flow_element p tid = Some m); [|congruence]. by apply find_flow_element_nested.
  - destruct Hfl as (fl & f & q & Hfl & Hif & Hq & Hfx & Hnx). eapply rtc_l; [|by eapply IH].
    rewrite (outgoing_leaving e r Hf Hn) in Hfl. injection Hfl as <-.
    apply (moves_along p e f q); [by rewrite <- (blocked_idle e i)|done..].
  - destruct Hfl as (fl & f & q & Hfl & Hif & Hq & Hfx & Hnx).
    destruct (container_not_start m Hc) as [Hs Hnm].
    assert (Hfm : find_flow_element p k = Some m) by (by apply find_flow_element_nested).
    eapply rtc_l; [exact Hem|]. eapply rtc_l; [|by eapply IH].
    rewrite (outgoing_leaving m k Hfm Hnm) in Hfl. injection Hfl as <-.
    apply (moves_along p m f q); [|done..]. intros [? _]. congruence.
Qed.

Lemma moves_found e t : moves p e t -> exists r, find_flow_element p r = Some t /\ is_flow_node t = true.
Proof.
  intros [f r t' _ _ _ Hf Hn|m _ _ Hm]; [eauto|].
  destruct (contained_found e m Hm) as (k & _ & Hf & Hc). exists k. split; [done|]. by apply container_not_start.
Qed.

Lemma moves_reaches tid te e :
  flow_element_id te = Some tid -> leaving te <> [] -> is_start_event te = false ->
  rtc (moves p) e te -> forall i, find_flow_element p i = Some e -> is_flow_node e = true -> reaches p tid e.
Proof.
  intros Hid Hl Hs Hr. induction Hr as [te|e x te Hm Hr IH]; intros i Hf Hn.
  - pose proof (leaf_leaving te i Hf Hn) as Hlf. apply (reaches_here p tid te te tid); [done| | |done].
    + intros [? _]. congruence.
    + unfold departs. destruct (is_leaf te); [|done]. by destruct Hl; apply Hlf.
  - destruct (moves_found _ _ Hm) as (r & Hfx & Hnx). specialize (IH Hid Hl Hs r Hfx Hnx).
    pose proof (find_flow_element_id _ _ _ Hp Hf) as Hi. pose proof (leaf_leaving e i Hf Hn) as Hlf.
    destruct Hm as [f q t Hidle Hin Hq Hft Hnt|m Hidle Hlv Hm].
    + apply (reaches_flow p tid e e t i i); try done; [by rewrite (blocked_idle e i)| |].
      * unfold departs. destruct (is_leaf e); [|done]. rewrite (proj1 Hlf eq_refl) in Hin. by apply not_elem_of_nil in Hin.
      * exists (leaving e), f, q. split_and!; try done. by eapply outgoing_leaving.
    + destruct (contained_found e m Hm) as (k & Hk & Hfm & Hc).
      assert (Hd : departs p e m).
      { unfold departs. rewrite (proj2 Hlf Hlv). exists i. split; [done|]. by apply (parent_contained e). }
      assert (Hdm : forall m', departs p m m' -> m' = m).
      { intros m'. unfold departs. destruct (is_leaf m) eqn:Elm; [|done]. intros (j & Hj & Hpar).
        destruct (find_parent_spec _ _ _ Hpar) as (Hin & _).
        rewrite (closed_leaf_containers_top m j) in Hpar; try done. by destruct Hm. }
      assert (Hnb : ~ blocked p e) by (by rewrite (blocked_idle e i)).
      inversion IH as [? m' j Hj _ Hd' Hm'|? m' t j k' Hj _ Hd' Hk' Hfl Ht]; subst;
        rewrite (Hdm _ Hd') in *; [by eapply reaches_here|by eapply reaches_flow].
Qed.
End Moves.

(** What the search finds, a token can walk. *)
Lemma reachable_moves p src tgt :
  converted p -> containers_named p -> (forall i x, find_flow_element p i = Some x -> searched x) ->
  is_reachable p src tgt = Some true ->
  exists e te, resolve_flow_node p src = Some e /\ resolve_flow_node p tgt = Some te /\ rtc (moves p) e te.
Proof.
  intros Hp Hnamed Hrows. unfold is_reachable.
  destruct (resolve_flow_node p src) as [e|] eqn:He; [|done].
  destruct (resolve_flow_node p tgt) as [te|] eqn:Hte; [|done]. intros Hb. exists e, te. split_and!; [done..|].
  destruct (resolve_found p src e He) as (r & Hr). destruct (resolve_found p tgt te Hte) as (rt & Hrt).
  pose proof (find_flow_element_id _ _ _ Hp Hrt) as Hid. pose proof (find_flow_element_id _ _ _ Hp Hr) as Hi.
  apply (reaches_moves p Hp Hnamed Hrows rt te e Hrt) with (i := r); [|done|by eapply resolve_node].
  destruct (is_reachable_from (search_fuel p) p e te ∅) as [[b V]|] eqn:E; [|done]. injection Hb as ->.
  by eapply is_reachable_from_sound.
Qed.


Lemma sample_containers_closed : closed_containers_top sample.
Proof.
  intros m c Hm Hc Hcont.
  assert (H : Forall (fun c => is_container c = true -> leaving c <> []) (all_elements (pr_flow_elements sample)))
    by (repeat constructor; vm_compute; discriminate).
  eapply Forall_forall in H; [by apply H|]. by eapply all_elements_children.
Qed.

Lemma sample_searched i x : find_flow_element sample i = Some x -> searched x.
Proof.
  intros H. assert (Hall : Forall (fun kv => searched kv.2) (pr_flow_element_map sample)
                           /\ Forall searched (pr_flow_elements sample)) by (split; vm_compute; repeat constructor).
  destruct Hall as [H1 H2]. unfold find_flow_element in H. destruct (map_get i (pr_flow_element_map sample)) as [y|] eqn:E.
  - simpl in H. injection H as <-. revert H1 E. induction (pr_flow_element_map sample) as [|[k v] m IH]; [done|].
    intros Hf E. inversion Hf; subst. simpl in E. destruct (bool_decide _); [by injection E as <-|by apply IH].
  - apply find_first_Some in H as [_ H]. by eapply Forall_forall in H2.
Qed.

