(* ===== verification/Compensation.v ===== *)
(** * Compensation handlers and boundary events

    The model lookups nested in [TakeOutgoingSequenceFlowsOperation::run]
    ([agenda/take_outgoing_sequence_flows_operation.rs]) and
    [find_cancel_boundary_id] of [bpmn/behavior/cancel_end_event_activity_behavior.rs]. *)
From S2P Require Import Prelude Json BpmnModel FlowElements Samples.

(** [collect_boundary_events], for one element. *)
Fixpoint boundary_events_of (activity_id : string) (e : FlowElementEnum) : list BoundaryEvent :=
  match e with
  | FEBoundaryEvent b => if is_some_eq (bd_attached_to_ref_id b) activity_id then [b] else []
  | FESubProcess s | FETransaction s | FEEventSubProcess s | FEAdhocSubProcess s _ _ _ =>
      flat_map (boundary_events_of activity_id) (sp_flow_elements s)
  | _ => []
  end.

Definition collect_boundary_events (elements : list FlowElementEnum) (activity_id : string)
    : list BoundaryEvent :=
  flat_map (boundary_events_of activity_id) elements.

(** [compensation_activity_id]. *)
Definition compensation_activity_id (e : FlowElementEnum) : option string :=
  match e with
  | FETask a | FEUserTask a | FEServiceTask a | FECaseServiceTask a | FEScriptTask a
  | FEManualTask a | FEReceiveTask a | FEBusinessRuleTask a =>
      if ac_is_for_compensation a then activity_id a else None
  | _ => None
  end.

(** The sorted and deduplicated candidates are one id. *)
Definition sole_candidate (candidates : list string) : option string :=
  match remove_dups candidates with [c] => Some c | _ => None end.

Definition local_handler (flow_elements : list FlowElementEnum) (boundary_id : string)
    : option string :=
  if existsb (fun e => is_some_eq (get_element_id e) boundary_id) flow_elements
  then sole_candidate (omap compensation_activity_id flow_elements)
  else None.

(** [find_compensation_handler_in_container], on the content of a container. *)
Fixpoint handler_in_container (boundary_id : string) (e : FlowElementEnum) : option string :=
  match e with
  | FESubProcess s | FETransaction s | FEEventSubProcess s | FEAdhocSubProcess s _ _ _ =>
      match local_handler (sp_flow_elements s) boundary_id with
      | Some h => Some h
      | None => (fix go (l : list FlowElementEnum) : option string :=
                   match l with
                   | [] => None
                   | x :: l => match handler_in_container boundary_id x with
                               | Some h => Some h
                               | None => go l
                               end
                   end) (sp_flow_elements s)
      end
  | _ => None
  end.

Definition find_compensation_handler_in_container (flow_elements : list FlowElementEnum)
    (boundary_id : string) : option string :=
  match local_handler flow_elements boundary_id with
  | Some h => Some h
  | None => find_map (handler_in_container boundary_id) flow_elements
  end.

(** The first association that starts at the boundary event decides, with or
    without a target. *)
Fixpoint association_target (artifacts : list ArtifactEnum) (boundary_id : string)
    : option (option string) :=
  match artifacts with
  | [] => None
  | AssociationArtifact a :: artifacts =>
      if is_some_eq (as_source_ref a) boundary_id then Some (as_target_ref a)
      else association_target artifacts boundary_id
  | _ :: artifacts => association_target artifacts boundary_id
  end.

Fixpoint handler_of (boundary_id : string) (e : FlowElementEnum) : option string :=
  match e with
  | FESubProcess s | FETransaction s | FEEventSubProcess s | FEAdhocSubProcess s _ _ _ =>
      match association_target (sp_artifacts s) boundary_id with
      | Some target => target
      | None =>
          match (fix go (l : list FlowElementEnum) : option string :=
                   match l with
                   | [] => None
                   | x :: l => match handler_of boundary_id x with
                               | Some h => Some h
                               | None => go l
                               end
                   end) (sp_flow_elements s) with
          | Some h => Some h
          | None => find_compensation_handler_in_container (sp_flow_elements s) boundary_id
          end
      end
  | _ => None
  end.

Definition find_compensation_handler (artifacts : list ArtifactEnum)
    (flow_elements : list FlowElementEnum) (boundary_id : string) : option string :=
  match association_target artifacts boundary_id with
  | Some target => target
  | None =>
      match find_map (handler_of boundary_id) flow_elements with
      | Some h => Some h
      | None => find_compensation_handler_in_container flow_elements boundary_id
      end
  end.

(** ** [find_cancel_boundary_id] *)

(** The element is a cancel boundary event of the transaction: its id, which
    ends the search of its list even when it is absent. *)
Definition cancel_boundary (attached_to_id : string) (e : FlowElementEnum) : option (option string) :=
  match e with
  | FEBoundaryEvent b =>
      if is_some_eq (bd_attached_to_ref_id b) attached_to_id
      then match ev_event_definitions (bd_event b) with
           | [CancelEventDefinition] => Some (flow_node_id (ev_flow_node (bd_event b)))
           | _ => None
           end
      else None
  | _ => None
  end.

Fixpoint cancel_boundary_in (attached_to_id : string) (e : FlowElementEnum) : option string :=
  match e with
  | FESubProcess s | FETransaction s | FEEventSubProcess s | FEAdhocSubProcess s _ _ _ =>
      (fix go (l : list FlowElementEnum) : option string :=
         match l with
         | [] => None
         | x :: l =>
             match cancel_boundary attached_to_id x with
             | Some id => id
             | None => match cancel_boundary_in attached_to_id x with
                       | Some found => Some found
                       | None => go l
                       end
             end
         end) (sp_flow_elements s)
  | _ => None
  end.

Fixpoint find_cancel_boundary_id (flow_elements : list FlowElementEnum) (attached_to_id : string)
    : option string :=
  match flow_elements with
  | [] => None
  | x :: l =>
      match cancel_boundary attached_to_id x with
      | Some id => id
      | None => match cancel_boundary_in attached_to_id x with
                | Some found => Some found
                | None => find_cancel_boundary_id l attached_to_id
                end
      end
  end.

(** ** Properties *)
Lemma boundary_events_of_spec a e b :
  b ∈ boundary_events_of a e <->
  FEBoundaryEvent b ∈ preorder e /\ bd_attached_to_ref_id b = Some a.
Proof.
  induction e as [e IH] using flow_element_ind.
  assert (Hnest : forall l, (forall x, x ∈ l -> x ∈ children e) ->
    (b ∈ flat_map (boundary_events_of a) l <->
     FEBoundaryEvent b ∈ all_elements l /\ bd_attached_to_ref_id b = Some a)).
  { intros l Hl. rewrite list_elem_of_In, in_flat_map, elem_of_all_elements. split.
    - intros (x & Hx & Hb). apply list_elem_of_In in Hx, Hb.
      apply (IH x (Hl x Hx)) in Hb as [Hb Ha]. split; [by exists x|done].
    - intros [(x & Hx & Hb) Ha]. exists x. rewrite <- !list_elem_of_In. split; [done|].
      by apply (IH x (Hl x Hx)). }
  rewrite preorder_eq, elem_of_cons.
  assert (Hleaf : children e = [] -> FEBoundaryEvent b ∈ all_elements (children e) -> False).
  { intros ->. intros Hb. by apply not_elem_of_nil in Hb. }
  destruct e; simpl;
    try (split; [intros Hb; by apply not_elem_of_nil in Hb|];
         intros [[Hb|Hb] _]; [discriminate Hb|by destruct (Hleaf eq_refl Hb)]);
    try (rewrite Hnest by done; split; [intros [? ?]; split; [by right|done]|];
         intros [[Hb|Hb] ?]; [discriminate Hb|by split]).
  destruct (is_some_eq (bd_attached_to_ref_id b0) a) eqn:Ea.
  - apply is_some_eq_spec in Ea. rewrite list_elem_of_singleton. split.
    + intros ->. split; [by left|done].
    + intros [[[= ->]|Hb] _]; [done|by destruct (Hleaf eq_refl Hb)].
  - split; [intros Hb; by apply not_elem_of_nil in Hb|].
    intros [[[= ->]|Hb] Ha]; [|by destruct (Hleaf eq_refl Hb)].
    apply is_some_eq_spec in Ha. congruence.
Qed.

(** The boundary events collected for an activity are exactly those of
    the process, at any depth, that are attached to it. *)
Theorem collect_boundary_events_correct elements a b :
  b ∈ collect_boundary_events elements a <->
  FEBoundaryEvent b ∈ all_elements elements /\ bd_attached_to_ref_id b = Some a.
Proof.
  unfold collect_boundary_events. rewrite list_elem_of_In, in_flat_map, elem_of_all_elements. split.
  - intros (x & Hx & Hb). apply list_elem_of_In in Hx, Hb.
    apply boundary_events_of_spec in Hb as [Hb Ha]. split; [by exists x|done].
  - intros [(x & Hx & Hb) Ha]. exists x. rewrite <- !list_elem_of_In. split; [done|].
    by apply boundary_events_of_spec.
Qed.
