(* ===== verification/ParallelGateway.v ===== *)
(** * The parallel gateway

    Models [flowable-engine/src/bpmn/behavior/parallel_gateway_activity_behavior.rs]:
    a token arriving at a join parks until as many tokens of the same scope
    wait there as the gateway has incoming flows; then the tokens are
    consumed and one child is created per outgoing flow. *)
From S2P Require Import Prelude Json Errors BpmnModel FlowElements Samples ExecutionGraph Execution Store Context Variables.

Definition gateway_flows (e : FlowElementEnum) : option (list SequenceFlow * list SequenceFlow) :=
  match e with
  | FEParallelGateway g => Some (fn_incoming_flows (gw_flow_node g), fn_outgoing_flows (gw_flow_node g))
  | _ => None
  end.

Definition is_waiting_token_at_parallel_gateway (e : Execution) (gateway_id scope_id : string) : bool :=
  is_some_eq (ex_activity_id e) gateway_id && bool_decide (parallel_scope_id e = scope_id).

(** [is_child_of_multi_instance_execution]; [None] when the links loop. *)
Fixpoint is_child_loop (fuel : nat) (current_parent_id : option string) (mi_id : string)
    (by_id : gmap string Execution) : option bool :=
  match fuel with
  | 0 => None
  | S fuel =>
      match current_parent_id with
      | None => Some false
      | Some parent_id =>
          if bool_decide (parent_id = mi_id) then Some true
          else is_child_loop fuel (by_id !! parent_id ≫= ex_parent_id) mi_id by_id
      end
  end.

Definition is_child_of_multi_instance_execution (e mi : Execution) (by_id : gmap string Execution)
    : option bool :=
  is_child_loop (S (S (size by_id))) (ex_parent_id e) (ex_id mi) by_id.

Fixpoint clean_joined_executions (joined : list Execution) (mi : Execution)
    (by_id : gmap string Execution) : option (list Execution) :=
  match joined with
  | [] => Some []
  | e :: joined =>
      keep ← is_child_of_multi_instance_execution e mi by_id;
      rest ← clean_joined_executions joined mi by_id;
      Some (if (keep : bool) then e :: rest else rest)
  end.

Section ParallelGateway.
Context `{Env}.

Definition delete_or_preserve_scope_execution (e : Execution) : EngineM unit :=
  if is_process_instance_scope_execution e
  then entity_update (set_activity_id None (set_is_scope true (set_is_active false e)))
  else entity_delete (ex_id e).

Fixpoint mi_parent_loop (fuel : nat) (process : Process) (current_parent_id : option string)
  : EngineM (option Execution) :=
  match fuel with
  | 0 => throw Diverged
  | S fuel =>
      match current_parent_id with
      | None => mret None
      | Some parent_id =>
          found ← entity_find_by_id parent_id;
          match found with
          | None => mret None
          | Some parent =>
              if ex_is_multi_instance_root parent then mret (Some parent)
              else if match ex_activity_id parent with
                      | Some activity_id =>
                          match find_flow_element process activity_id with
                          | Some flow_element => has_loop_characteristics flow_element
                          | None => false
                          end
                      | None => false
                      end
              then mret (Some parent)
              else mi_parent_loop fuel process (ex_parent_id parent)
          end
      end
  end.

Definition find_multi_instance_parent_execution (process : Process) (e : Execution)
  : EngineM (option Execution) :=
  c ← get; mi_parent_loop (chain_fuel c) process (ex_parent_id e).

(** The child created for an outgoing flow. *)
Definition fork_child (main_process : Process) (e : Execution) (scope_id id target_ref : string)
  : Execution :=
  set_transient_variables ∅ (set_local_variables ∅ (set_variables ∅
    (set_is_multi_instance_root false (set_is_scope false (set_is_ended false
      (set_is_concurrent true
        (set_is_active (negb (is_end_event (map_get target_ref (pr_flow_element_map main_process))))
          (set_activity_id (Some target_ref)
            (set_parent_id (Some scope_id) (set_id id e)))))))))).

Definition fork_flow (main_process : Process) (e : Execution) (scope_id : string)
    (flow : SequenceFlow) : EngineM unit :=
  let_some target_ref := sf_target_ref flow in
  id ← uuid_new_v4;
  let child := fork_child main_process e scope_id id target_ref in
  entity_insert child ;;
  plan_continue_process_operation child.

(** The tokens already waiting at the join, of the arriving token's scope. *)
Definition waiting_tokens (all : gmap string Execution) (e : Execution)
    (gateway_id scope_id : string) : list Execution :=
  List.filter (fun candidate =>
    bool_decide (ex_process_instance_id candidate = ex_process_instance_id e)
    && is_waiting_token_at_parallel_gateway candidate gateway_id scope_id) (map_to_list all).*2.

(** [ActivityBehavior::execute]. *)
Definition parallel_gateway_execute (execution : Execution) : EngineM unit :=
  let_some activity_id := ex_activity_id execution in
  let_some process_definition_id := ex_process_definition_id execution in
  let_some bpmn_model := get_bpmn_model process_definition_id in
  let_some main_process := bm_main_process bpmn_model in
  let_some flow_element := find_flow_element main_process activity_id in
  let_some flows := gateway_flows flow_element in
  let '(incoming_flows, outgoing_flows) := flows in
  let incoming_count := length incoming_flows in
  let scope_id := parallel_scope_id execution in
  go ← (if Nat.ltb 1 incoming_count then
          entity_update (set_is_concurrent true (set_is_active false execution)) ;;
          all ← snapshot;
          let waiting := waiting_tokens all execution activity_id scope_id in
          under_mi ← terminating (has_multi_instance_parent main_process activity_id);
          waiting ← (if (under_mi : bool) then
                       mi_parent ← find_multi_instance_parent_execution main_process execution;
                       match mi_parent with
                       | Some mi => terminating (clean_joined_executions waiting mi all)
                       | None => mret waiting
                       end
                     else mret waiting);
          if Nat.ltb (length waiting) incoming_count then mret false
          else
            for_each (List.filter (fun w => negb (bool_decide (ex_id w = ex_id execution))) waiting)
              (fun w => entity_delete (ex_id w)) ;;
            delete_or_preserve_scope_execution execution ;;
            mret true
        else delete_or_preserve_scope_execution execution ;; mret true);
  if (go : bool)
  then for_each outgoing_flows (fork_flow main_process execution scope_id)
  else mret tt.
End ParallelGateway.

(** ** Correctness *)

(** The element the token stands on, resolved the way the behaviours do. *)
Definition stands_on `{Env} (e : Execution) (a : string) (p : Process) (el : FlowElementEnum) : Prop :=
  ex_activity_id e = Some a
  /\ exists d model, ex_process_definition_id e = Some d /\ get_bpmn_model d = Some model
       /\ bm_main_process model = Some p /\ find_flow_element p a = Some el.

Definition parked (e : Execution) : Execution := set_is_concurrent true (set_is_active false e).

(** The scope execution of a process instance after a fork or a join. *)
Definition preserved (e : Execution) : Execution :=
  set_activity_id None (set_is_scope true (set_is_active false e)).

Section ParallelTheorems.
Context `{Env} `{!UuidLaws}.
Context (p : Process) (g : Gateway) (e : Execution) (a : string) (c : CommandContext).
Context (Hwf : context_wf c) (He : is_Some (tokens c !! ex_id e)).
Context (Hat : stands_on e a p (FEParallelGateway g)).

Let incoming := fn_incoming_flows (gw_flow_node g).
Let outgoing := fn_outgoing_flows (gw_flow_node g).
Let scope := parallel_scope_id e.

Definition fork_children : list (string -> Execution) :=
  omap (fun f => match sf_target_ref f with
                 | Some t => Some (fun i => fork_child p e scope i t)
                 | None => None
                 end) outgoing.

(** The token itself: its row survives, inactive, when it is the scope
    execution of the process instance. *)
Definition leave_ctx (c : CommandContext) : CommandContext :=
  if is_process_instance_scope_execution e then write_ctx (preserved e) c
  else erase_ctx (ex_id e) c.

Definition token_after_leave : option Execution :=
  if is_process_instance_scope_execution e then Some (preserved e) else None.

Lemma self_usable : usable c (ex_id e).
Proof. destruct He as [x Hx]. by eapply token_usable. Qed.

Lemma leave_eq c1 :
  context_wf c1 -> delete_or_preserve_scope_execution e c1 = (Ok tt, leave_ctx c1).
Proof.
  intros H1. unfold delete_or_preserve_scope_execution, leave_ctx.
  destruct (is_process_instance_scope_execution e);
    [by apply entity_update_eq|by apply entity_delete_eq].
Qed.

Lemma leave_spec c1 :
  context_wf c1 -> usable c1 (ex_id e) ->
  context_wf (leave_ctx c1) /\ cc_agenda (leave_ctx c1) = cc_agenda c1
  /\ cc_uuids (leave_ctx c1) = cc_uuids c1 /\ cc_events (leave_ctx c1) = cc_events c1
  /\ forall k, tokens (leave_ctx c1) !! k
               = if decide (k = ex_id e) then token_after_leave else tokens c1 !! k.
Proof.
  intros H1 Hu. unfold leave_ctx, token_after_leave.
  destruct (is_process_instance_scope_execution e); split_and!; try done.
  - by apply write_ctx_wf.
  - intros k. rewrite tokens_write, lookup_insert. simpl. repeat case_decide; congruence.
  - by apply erase_ctx_wf.
  - intros k. rewrite tokens_erase, lookup_delete. repeat case_decide; congruence.
Qed.

Lemma fork_flow_eq f c1 :
  context_wf c1 ->
  fork_flow p e scope f c1
  = (Ok tt, match sf_target_ref f with
            | Some t => spawn_ctx (fun i => fork_child p e scope i t) c1
            | None => c1
            end).
Proof.
  intros H1. unfold fork_flow. destruct (sf_target_ref f) as [t|]; [|done].
  erewrite bind_ok by reflexivity.
  by erewrite bind_ok by (apply entity_insert_eq; by apply draw_ctx_wf).
Qed.

Lemma fork_flows_eq flows c1 :
  context_wf c1 ->
  for_each flows (fork_flow p e scope) c1
  = (Ok tt, spawn_list (omap (fun f => match sf_target_ref f with
                 | Some t => Some (fun i => fork_child p e scope i t)
                 | None => None
                 end) flows) c1).
Proof.
  revert c1. induction flows as [|f flows IH]; intros c1 H1; simpl; [done|].
  erewrite bind_ok by (by apply fork_flow_eq). destruct (sf_target_ref f) as [t|]; simpl; [|by apply IH].
  rewrite IH; [done|]. apply plan_ctx_wf, write_ctx_wf; [by apply draw_ctx_wf|]. apply draw_usable.
Qed.

(** The final context of a fork or of a completed join. *)
Lemma leave_and_fork gone c1 :
  context_wf c1 -> usable c1 (ex_id e) ->
  let c' := spawn_list fork_children (leave_ctx (erase_list gone c1)) in
  let children := spawned (cc_uuids c1) fork_children in
  context_wf c' /\ cc_agenda c' = cc_agenda c1 ++ (ContinueProcess <$> children)
  /\ cc_events c' = cc_events c1
  /\ (forall x, x ∈ children -> tokens c' !! ex_id x = Some x)
  /\ (forall k, k ∉ ex_id <$> children ->
        tokens c' !! k = if decide (k = ex_id e) then token_after_leave
                         else if decide (k ∈ gone) then None else tokens c1 !! k).
Proof.
  intros H1 Hu c' children. destruct (erase_list_spec gone c1 H1) as (E1 & E2 & E3 & E4 & E5).
  assert (Hu' : usable (erase_list gone c1) (ex_id e)).
  { destruct Hu as [Hp Hn]. split; [done|]. by rewrite E3. }
  destruct (leave_spec _ E1 Hu') as (L1 & L2 & L3 & L4 & L5).
  destruct (spawn_list_spec fork_children (leave_ctx (erase_list gone c1)))
    as (S1 & S2 & S3 & S4 & S5 & S6); [|done|].
  { intros mk i Hin. apply list_elem_of_omap in Hin as (f & _ & Hf).
    destruct (sf_target_ref f); [|done]. by injection Hf as <-. }
  rewrite L3, E3 in S2, S5, S6. rewrite L2, E2 in S2. rewrite L4, E4 in S4.
  split_and!; try done. intros k Hk. rewrite S6 by done. rewrite L5, E5. done.
Qed.

Lemma execute_unfold :
  parallel_gateway_execute e c
  = ((if Nat.ltb 1 (length incoming) then
        entity_update (parked e) ;;
        all ← snapshot;
        let waiting := waiting_tokens all e a scope in
        under_mi ← terminating (has_multi_instance_parent p a);
        waiting ← (if (under_mi : bool) then
                     mi_parent ← find_multi_instance_parent_execution p e;
                     match mi_parent with
                     | Some mi => terminating (clean_joined_executions waiting mi all)
                     | None => mret waiting
                     end
                   else mret waiting);
        if Nat.ltb (length waiting) (length incoming) then mret false
        else
          for_each (List.filter (fun w => negb (bool_decide (ex_id w = ex_id e))) waiting)
            (fun w => entity_delete (ex_id w)) ;;
          delete_or_preserve_scope_execution e ;;
          mret true
      else delete_or_preserve_scope_execution e ;; mret true)
     ≫= fun go : bool => if go then for_each outgoing (fork_flow p e scope) else mret tt) c.
Proof.
  destruct Hat as (Ha & d & model & Hd & Hm & Hp & Hf).
  unfold parallel_gateway_execute. rewrite Ha, Hd, Hm, Hp, Hf. done.
Qed.

Definition arrived_tokens : list Execution :=
  waiting_tokens (<[ex_id e := parked e]> (tokens c)) e a scope.

Lemma join_prefix :
  Nat.ltb 1 (length incoming) = true -> has_multi_instance_parent p a = Some false ->
  parallel_gateway_execute e c
  = ((if Nat.ltb (length arrived_tokens) (length incoming) then mret false
      else
        for_each (List.filter (fun w => negb (bool_decide (ex_id w = ex_id e))) arrived_tokens)
          (fun w => entity_delete (ex_id w)) ;;
        delete_or_preserve_scope_execution e ;;
        mret true)
     ≫= fun go : bool => if go then for_each outgoing (fork_flow p e scope) else mret tt)
    (write_ctx (parked e) c).
Proof.
  intros Hin Hmi. rewrite execute_unfold, Hin.
  pose proof self_usable as Hu.
  assert (Hwf1 : context_wf (write_ctx (parked e) c)) by (by apply write_ctx_wf).
  unfold mbind, stM_bind. rewrite entity_update_eq by done. rewrite snapshot_eq by done.
  rewrite tokens_write. unfold terminating. rewrite Hmi. simpl. done.
Qed.

(** While fewer tokens of the scope wait at a parallel join than it has
    incoming flows, the arriving token is parked (inactive, concurrent) and
    nothing else happens: no token is created or consumed, nothing is
    planned. *)
Theorem parallel_join_waits :
  1 < length incoming -> has_multi_instance_parent p a = Some false ->
  length arrived_tokens < length incoming ->
  exists c', parallel_gateway_execute e c = (Ok tt, c') /\ context_wf c'
    /\ tokens c' = <[ex_id e := parked e]> (tokens c)
    /\ cc_agenda c' = cc_agenda c /\ cc_events c' = cc_events c.
Proof.
  intros Hin Hmi Hlt. exists (write_ctx (parked e) c).
  rewrite join_prefix by (done || by apply Nat.ltb_lt).
  rewrite (proj2 (Nat.ltb_lt _ _) Hlt). split_and!; try done.
  - apply write_ctx_wf; [done|exact self_usable].
  - exact (tokens_write (parked e) c).
Qed.

(** The final state of a join that fires, row by row. *)
Lemma join_fires_rows :
  1 < length incoming -> has_multi_instance_parent p a = Some false ->
  length incoming <= length arrived_tokens ->
  let children := spawned (cc_uuids c) fork_children in
  exists c', parallel_gateway_execute e c = (Ok tt, c') /\ context_wf c'
    /\ cc_agenda c' = cc_agenda c ++ (ContinueProcess <$> children)
    /\ (forall x, x ∈ children -> tokens c' !! ex_id x = Some x)
    /\ (forall k, k ∉ ex_id <$> children ->
          tokens c' !! k = if decide (k = ex_id e) then token_after_leave
                           else if decide (k ∈ ex_id <$> arrived_tokens) then None
                           else tokens c !! k).
Proof.
  intros Hin Hmi Hge children. pose proof self_usable as Hu.
  set (c1 := write_ctx (parked e) c).
  assert (H1 : context_wf c1) by (by apply write_ctx_wf).
  set (others := List.filter (fun w => negb (bool_decide (ex_id w = ex_id e))) arrived_tokens).
  destruct (leave_and_fork (ex_id <$> others) c1) as (F1 & F2 & F3 & F4 & F5); [done|done|].
  eexists. split_and!; [|exact F1|exact F2|exact F4|].
  - rewrite join_prefix by (done || by apply Nat.ltb_lt).
    rewrite (proj2 (Nat.ltb_ge _ _) Hge). fold c1 others.
    destruct (erase_list_spec (ex_id <$> others) c1 H1) as (E1 & _).
    unfold mbind, stM_bind. rewrite for_each_delete, leave_eq by done. simpl.
    apply fork_flows_eq. apply leave_spec; [done|].
    destruct Hu as [Hp Hn]. split; [done|].
    by rewrite (proj1 (proj2 (proj2 (erase_list_spec (ex_id <$> others) c1 H1)))).
  - intros k Hk. rewrite F5 by done. destruct (decide (k = ex_id e)) as [->|Hne]; [done|].
    assert (k ∈ ex_id <$> others <-> k ∈ ex_id <$> arrived_tokens) as Hiff.
    { unfold others. rewrite !list_elem_of_fmap. split; intros (w & -> & Hw); exists w.
      - apply list_elem_of_In, filter_In in Hw as [Hw _]. by apply list_elem_of_In in Hw.
      - split; [done|]. apply list_elem_of_In, filter_In. apply list_elem_of_In in Hw.
        by rewrite bool_decide_false. }
    rewrite (decide_ext _ _ _ _ Hiff). unfold c1. rewrite tokens_write.
    by rewrite lookup_insert_ne by (simpl; congruence).
Qed.

Lemma arrived_self : ex_id e ∈ ex_id <$> arrived_tokens.
Proof.
  apply list_elem_of_fmap. exists (parked e). split; [done|]. unfold arrived_tokens, waiting_tokens.
  apply list_elem_of_In, filter_In. split.
  - apply list_elem_of_In, list_elem_of_fmap. exists (ex_id e, parked e). split; [done|].
    by rewrite elem_of_map_to_list, lookup_insert_eq.
  - destruct Hat as [Ha _]. unfold is_waiting_token_at_parallel_gateway, is_some_eq. simpl. rewrite Ha.
    by rewrite !bool_decide_true.
Qed.

(** A waiting token is a stored one, or the arriving one. *)
Lemma arrived_stored w : w ∈ arrived_tokens -> is_Some (tokens c !! ex_id w) /\ (ex_id w = ex_id e -> w = parked e).
Proof.
  intros Hw. apply list_elem_of_In, filter_In in Hw as [Hw _].
  apply list_elem_of_In, list_elem_of_fmap in Hw as ([k w'] & -> & Hk). simpl.
  apply elem_of_map_to_list in Hk. destruct (decide (k = ex_id e)) as [->|Hne].
  - rewrite lookup_insert_eq in Hk. injection Hk as <-. done.
  - rewrite lookup_insert_ne in Hk by done. assert (ex_id w' = k) as -> by (by eapply token_key).
    split; [by eexists|done].
Qed.

Lemma fork_children_targets :
  (fun x => (ex_parent_id x, ex_activity_id x)) <$> spawned (cc_uuids c) fork_children
  = (fun target => (Some scope, Some target)) <$> omap sf_target_ref outgoing.
Proof.
  unfold fork_children. generalize (cc_uuids c). induction outgoing as [|f l IH]; intros n; [done|]. simpl.
  destruct (sf_target_ref f); simpl; [f_equal|]; apply IH.
Qed.

Lemma fork_children_plain x :
  x ∈ spawned (cc_uuids c) fork_children ->
  ex_variables x = ∅ /\ ex_local_variables x = ∅ /\ ex_transient_variables x = ∅ /\ tokens c !! ex_id x = None.
Proof.
  intros Hx. apply list_elem_of_lookup_1 in Hx as [j Hj]. apply spawned_lookup in Hj as (mk & Hmk & ->).
  apply list_elem_of_lookup_2, list_elem_of_omap in Hmk as (f & _ & Hf). destruct (sf_target_ref f); [|done].
  injection Hf as <-. split_and!; try done. simpl. apply (cwf_fresh _ Hwf). lia.
Qed.

Lemma fork_children_ids : NoDup (ex_id <$> spawned (cc_uuids c) fork_children).
Proof.
  apply NoDup_alt. intros i j k Hi Hj.
  apply list_lookup_fmap_Some in Hi as (x & -> & Hi), Hj as (y & Heq & Hj).
  apply spawned_lookup in Hi as (mk & Hmk & ->), Hj as (mk' & Hmk' & ->).
  apply list_elem_of_lookup_2, list_elem_of_omap in Hmk as (f & _ & Hf), Hmk' as (f' & _ & Hf').
  destruct (sf_target_ref f), (sf_target_ref f'); try done. injection Hf as <-. injection Hf' as <-.
  simpl in Heq. apply new_v4_inj in Heq. lia.
Qed.

(** C1: a parallel join fires.  For a token that arrives at a parallel gateway
    with more than one incoming flow, outside every multi-instance activity,
    when at least as many tokens of its scope wait there, itself counted, as the
    gateway has incoming flows, and none of them but possibly itself is the
    scope execution of the process instance: every waiting token is consumed,
    except that the scope execution of the process instance stays, inactive and
    off the gateway; for each outgoing flow that has a target, in their order,
    one child is stored under a fresh id, below the scope, at that target,
    without variables, and planned; every other token is as before. *)
Theorem parallel_join_fires :
  1 < length incoming -> has_multi_instance_parent p a = Some false ->
  length incoming <= length arrived_tokens ->
  (forall w, w ∈ arrived_tokens -> is_process_instance_scope_execution w = true -> ex_id w = ex_id e) ->
  exists c' children, parallel_gateway_execute e c = (Ok tt, c') /\ context_wf c'
    /\ cc_agenda c' = cc_agenda c ++ (ContinueProcess <$> children)
    /\ (fun x => (ex_parent_id x, ex_activity_id x)) <$> children
       = (fun target => (Some (parallel_scope_id e), Some target)) <$> omap sf_target_ref outgoing
    /\ NoDup (ex_id <$> children)
    /\ (forall x, x ∈ children -> tokens c !! ex_id x = None /\ tokens c' !! ex_id x = Some x
          /\ ex_variables x = ∅ /\ ex_local_variables x = ∅ /\ ex_transient_variables x = ∅)
    /\ (forall w, w ∈ arrived_tokens ->
          if is_process_instance_scope_execution w
          then exists r, tokens c' !! ex_id w = Some r /\ ex_is_active r = false /\ ex_activity_id r = None
                 /\ ex_variables r = ex_variables w /\ ex_local_variables r = ex_local_variables w
          else tokens c' !! ex_id w = None)
    /\ (forall k, k ∉ ex_id <$> children -> k ∉ ex_id <$> arrived_tokens -> tokens c' !! k = tokens c !! k).
Proof.
  intros Hin Hmi Hge Hscope.
  destruct (join_fires_rows Hin Hmi Hge) as (c' & E & W & A & Hx & Hk).
  set (children := spawned (cc_uuids c) fork_children) in *.
  assert (Hnew : forall w, w ∈ arrived_tokens -> ex_id w ∉ ex_id <$> children).
  { intros w Hw (x & Heq & Hin')%list_elem_of_fmap. apply fork_children_plain in Hin' as (_ & _ & _ & Hn).
    apply arrived_stored in Hw as [[? Hs] _]. congruence. }
  exists c', children. split_and!; [done|done|done|apply fork_children_targets|apply fork_children_ids| | |].
  - intros x Hxc. destruct (fork_children_plain x Hxc) as (? & ? & ? & ?). by rewrite (Hx x Hxc).
  - intros w Hw. rewrite (Hk _ (Hnew w Hw)). unfold token_after_leave.
    destruct (is_process_instance_scope_execution w) eqn:Ew.
    + pose proof (Hscope w Hw Ew) as Hid. rewrite decide_True by done.
      apply arrived_stored in Hw as [_ Hw]. rewrite (Hw Hid) in Ew |- *.
      change (is_process_instance_scope_execution e = true) in Ew. rewrite Ew. by exists (preserved e).
    + destruct (decide (ex_id w = ex_id e)) as [Hid|Hid].
      * pose proof (proj2 (arrived_stored w Hw) Hid) as ->.
        change (is_process_instance_scope_execution e = false) in Ew. by rewrite Ew.
      * rewrite decide_True; [done|]. by apply list_elem_of_fmap_2.
  - intros k Hk1 Hk2. rewrite Hk by done. rewrite decide_False; [by rewrite decide_False|].
    intros ->. by apply Hk2, arrived_self.
Qed.

(** A token that waits at a join when another arrives last loses its row.
    Nothing exempts the scope execution of the process instance, whose row a
    fork must preserve; the preserving branch is for the arriving token only. *)
Theorem parallel_join_drops_scope w :
  1 < length incoming -> has_multi_instance_parent p a = Some false ->
  length incoming <= length arrived_tokens -> w ∈ arrived_tokens -> ex_id w <> ex_id e ->
  exists c', parallel_gateway_execute e c = (Ok tt, c') /\ tokens c' !! ex_id w = None.
Proof.
  intros Hin Hmi Hge Hw Hne. destruct (join_fires_rows Hin Hmi Hge) as (c' & E & _ & _ & _ & Hk).
  exists c'. split; [done|]. rewrite Hk.
  - rewrite decide_False, decide_True; [done| |done]. by apply list_elem_of_fmap_2.
  - intros (x & Heq & Hin')%list_elem_of_fmap. apply fork_children_plain in Hin' as (_ & _ & _ & Hn).
    apply arrived_stored in Hw as [[? Hs] _]. congruence.
Qed.

(** A parallel gateway with at most one incoming flow forks at once. *)
Theorem parallel_fork :
  length incoming <= 1 ->
  let children := spawned (cc_uuids c) fork_children in
  exists c', parallel_gateway_execute e c = (Ok tt, c') /\ context_wf c'
    /\ cc_agenda c' = cc_agenda c ++ (ContinueProcess <$> children)
    /\ (forall x, x ∈ children -> tokens c' !! ex_id x = Some x)
    /\ (forall k, k ∉ ex_id <$> children ->
          tokens c' !! k = if decide (k = ex_id e) then token_after_leave else tokens c !! k).
Proof.
  intros Hin children. pose proof self_usable as Hu.
  destruct (leave_and_fork [] c) as (F1 & F2 & F3 & F4 & F5); [done|done|].
  eexists. split_and!; [|exact F1|exact F2|exact F4|].
  - rewrite execute_unfold. rewrite (proj2 (Nat.ltb_ge _ _) Hin).
    unfold mbind, stM_bind. rewrite leave_eq by done. simpl.
    apply fork_flows_eq. by apply leave_spec.
  - intros k Hk. rewrite F5 by done. case_decide; [done|].
    by rewrite decide_False by apply not_elem_of_nil.
Qed.
End ParallelTheorems.

(** ** Joins below a multi-instance activity *)

(** [i] is met on the way up from [e]. *)
Inductive descends (m : gmap string Execution) (i : string) : Execution -> Prop :=
| descends_parent e : ex_parent_id e = Some i -> descends m i e
| descends_up e p x : ex_parent_id e = Some p -> m !! p = Some x -> descends m i x -> descends m i e.

Lemma is_child_loop_spec m mi e l fuel :
  scopes m e l -> length l + 1 < fuel ->
  exists b, is_child_loop fuel (ex_parent_id e) mi m = Some b /\ (b = true <-> descends m mi e).
Proof.
  intros Hs. unfold scopes in Hs. revert e Hs fuel.
  induction l as [|x l IH]; intros e Hs fuel Hf;
    (destruct fuel as [|fuel]; [lia|]); simpl; simpl in Hf;
    (destruct (ex_parent_id e) as [p|] eqn:Hp;
     [|exists false; split; [done|]; split; [done|]; inversion 1; congruence]);
    (destruct (bool_decide (p = mi)) eqn:Hd;
     [apply bool_decide_eq_true in Hd; subst p; exists true; split; [done|]; split; [|done];
      intros _; by apply descends_parent|apply bool_decide_eq_false in Hd]).
  - inversion Hs as [i Hi| |]; subst. rewrite Hi. simpl. destruct fuel as [|fuel]; [lia|].
    exists false. split; [done|]. split; [done|]. inversion 1; congruence.
  - destruct (IH x) with (fuel := fuel) as (b & Hb & Hspec).
    + inversion Hs as [|i y Hi Hpar|i y q k Hi Hpar Hc]; subst; by rewrite Hpar.
    + lia.
    + assert (Hx : m !! p = Some x) by (by inversion Hs).
      rewrite Hx. simpl. exists b. split; [done|]. rewrite Hspec. split.
      * intros Hdx. by eapply descends_up.
      * inversion 1 as [? Hq|? q y Hq Hy Hdy]; subst; [congruence|].
        assert (y = x) as -> by congruence. done.
Qed.

(** Below a multi-instance activity a join counts exactly the waiting
    tokens that belong to the same instance, and the walk up the parent links
    terminates when they are not circular. *)
Theorem clean_joined_correct m joined mi :
  (forall k x, m !! k = Some x -> ex_id x = k) ->
  (forall e, e ∈ joined -> exists l, scopes m e l) ->
  exists kept, clean_joined_executions joined mi m = Some kept
    /\ forall e, e ∈ kept <-> e ∈ joined /\ descends m (ex_id mi) e.
Proof.
  intros Hkey. induction joined as [|e joined IH]; intros Hs.
  { exists []. split; [done|]. intros e. split; [|by intros [? _]].
    intros He. by apply not_elem_of_nil in He. }
  destruct IH as (kept & Hk & Hspec); [intros x Hx; apply Hs; by right|].
  destruct (Hs e) as (l & Hl); [left|].
  destruct (is_child_loop_spec m (ex_id mi) e l (S (S (size m))) Hl) as (b & Hb & Hbs).
  { assert (length l <= size m); [|lia]. unfold scopes in Hl.
    destruct (ex_parent_id e); [by eapply chain_length|subst; simpl; lia]. }
  simpl. unfold is_child_of_multi_instance_execution. rewrite Hb. simpl. rewrite Hk. simpl.
  eexists. split; [reflexivity|]. intros x. destruct b; rewrite ?elem_of_cons, Hspec; naive_solver.
Qed.

(** ** Instances of the theorems *)
Lemma stands_on_sample2 e a el :
  ex_activity_id e = Some a -> ex_process_definition_id e = Some "proc:2" ->
  find_flow_element sample2 a = Some el -> stands_on e a sample2 el.
Proof. intros Ha Hd Hf. split; [done|]. by exists "proc:2", sample2_model. Qed.

Lemma parallel_join_waits_witness :
  exists c', parallel_gateway_execute branch1 first_ctx = (Ok tt, c')
    /\ tokens c' !! "e-1" = Some branch1_parked /\ cc_agenda c' = [].
Proof.
  destruct (parallel_join_waits sample2 pjoin branch1 "pjoin" first_ctx
    (proj1 (proj2 sample2_ctx_wf)) (written_token branch1 _)
    (stands_on_sample2 branch1 "pjoin" (FEParallelGateway pjoin) eq_refl eq_refl eq_refl))
    as (c' & Hc & _ & Ht & Ha & _).
  - vm_compute. lia.
  - vm_compute. reflexivity.
  - vm_compute. lia.
  - exists c'. split; [exact Hc|]. rewrite Ht, Ha. split; reflexivity.
Defined.

Lemma parallel_join_fires_witness :
  exists c' children, parallel_gateway_execute branch2 last_ctx = (Ok tt, c')
    /\ tokens c' !! "e-1" = None
    /\ cc_agenda c' = ContinueProcess <$> children
    /\ (fun x => (ex_parent_id x, ex_activity_id x)) <$> children = [(Some "pi-2", Some "end")].
Proof.
  destruct (parallel_join_fires sample2 pjoin branch2 "pjoin" last_ctx
    (proj2 (proj2 sample2_ctx_wf)) (written_token branch2 _)
    (stands_on_sample2 branch2 "pjoin" (FEParallelGateway pjoin) eq_refl eq_refl eq_refl))
    as (c' & children & Hc & _ & Ha & Hch & _ & _ & Hw & _).
  - vm_compute. lia.
  - vm_compute. reflexivity.
  - vm_compute. lia.
  - intros w Hw Hs. vm_compute in Hw. exfalso. repeat (apply elem_of_cons in Hw as [->|Hw]; [discriminate Hs|]).
    by apply not_elem_of_nil in Hw.
  - exists c', children. split_and!; [exact Hc| |exact Ha|exact Hch].
    apply (Hw branch1_parked). apply list_elem_of_In. vm_compute. repeat (first [left; reflexivity|right]).
Defined.

Lemma parallel_fork_witness :
  exists c', parallel_gateway_execute root2 fork_ctx = (Ok tt, c')
    /\ length (cc_agenda c') = 2 /\ tokens c' !! "pi-2" = Some (preserved root2).
Proof.
  destruct (parallel_fork sample2 pfork root2 "pfork" fork_ctx
    (proj1 sample2_ctx_wf) (written_token root2 _)
    (stands_on_sample2 root2 "pfork" (FEParallelGateway pfork) eq_refl eq_refl eq_refl))
    as (c' & Hc & _ & Ha & _ & Ht).
  - vm_compute. lia.
  - exists c'. split; [exact Hc|]. rewrite Ha, Ht.
    + split; vm_compute; reflexivity.
    + vm_compute. intros H. repeat (apply elem_of_cons in H as [H|H]; [discriminate H|]).
      apply not_elem_of_nil in H. exact H.
Defined.

Lemma clean_joined_correct_witness :
  exists kept, clean_joined_executions [branch1; branch2] root2 (tokens last_ctx) = Some kept
    /\ branch1 ∈ kept.
Proof.
  destruct (clean_joined_correct (tokens last_ctx) [branch1; branch2] root2) as (kept & Hk & Hs).
  - apply context_keys. exact (proj2 (proj2 sample2_ctx_wf)).
  - intros e He. exists [set_activity_id None root2].
    repeat (apply elem_of_cons in He as [->|He];
      [apply chain_top; [vm_compute; reflexivity|reflexivity]|]).
    apply not_elem_of_nil in He. destruct He.
  - exists kept. split; [exact Hk|]. apply Hs. split; [left|]. apply descends_parent. reflexivity.
Defined.
