(* ===== verification/InclusiveGateway.v ===== *)
(** * The inclusive gateway

    Models [flowable-engine/src/bpmn/behavior/inclusive_gateway_activity_behavior.rs]:
    a token arriving at a join parks while some other token of the instance
    can still reach the gateway; when none can, the waiting tokens are merged
    into one.  [execute_inactive_inclusive_joins] re-runs the decision for
    parked tokens at the end of a command. *)
From S2P Require Import Prelude Json Errors BpmnModel FlowElements Samples ExecutionGraph Execution Store Context Variables ParallelGateway.

Definition gateway_incoming_count (e : FlowElementEnum) : nat :=
  match e with
  | FEInclusiveGateway g => length (fn_incoming_flows (gw_flow_node g))
  | _ => 0
  end.

(** The body of the loop over the candidates; [None] when the reachability
    search does not return. *)
Definition candidate_blocks (process : Process) (gateway_id : string) (join candidate : Execution)
    : option bool :=
  if negb (bool_decide (ex_process_instance_id candidate = ex_process_instance_id join))
  then Some false
  else
    match ex_activity_id candidate with
    | None => Some false
    | Some candidate_activity_id =>
        if negb (bool_decide (candidate_activity_id = gateway_id)) then
          reachable ← is_reachable process candidate_activity_id gateway_id;
          Some (reachable && bool_decide (ex_parent_id candidate = ex_parent_id join))
        else
          Some (ex_is_active candidate
                && (bool_decide (ex_id candidate = ex_id join)
                    || match find_flow_element process candidate_activity_id with
                       | Some el => is_asynchronous_activity el
                       | None => false
                       end))
    end.

Fixpoint one_execution_can_reach_gateway (process : Process) (gateway_id : string)
    (join : Execution) (all_executions : list Execution) : option bool :=
  match all_executions with
  | [] => Some false
  | candidate :: all_executions =>
      b ← candidate_blocks process gateway_id join candidate;
      if (b : bool) then Some true
      else one_execution_can_reach_gateway process gateway_id join all_executions
  end.

(** [collect_inclusive_join_ids], for one element. *)
Fixpoint inclusive_join_ids (e : FlowElementEnum) : list string :=
  match e with
  | FEInclusiveGateway g =>
      if Nat.ltb 1 (length (fn_incoming_flows (gw_flow_node g)))
      then match flow_node_id (gw_flow_node g) with Some id => [id] | None => [] end
      else []
  | FESubProcess s | FEEventSubProcess s | FEAdhocSubProcess s _ _ _ =>
      flat_map inclusive_join_ids (sp_flow_elements s)
  | _ => []
  end.

Definition collect_inclusive_join_ids (flow_elements : list FlowElementEnum) : list string :=
  flat_map inclusive_join_ids flow_elements.

(** The tokens merged by a join. *)
Definition join_tokens (all : list Execution) (e : Execution) (gateway_id scope_id : string)
    : list Execution :=
  List.filter (fun candidate =>
    bool_decide (ex_process_instance_id candidate = ex_process_instance_id e)
    && is_some_eq (ex_activity_id candidate) gateway_id
    && bool_decide (parallel_scope_id candidate = scope_id)) all.

Definition merged_token (e : Execution) (gateway_id scope_id id : string) : Execution :=
  set_is_ended false (set_is_concurrent false (set_is_active true
    (set_activity_id (Some gateway_id) (set_parent_id (Some scope_id) (set_id id e))))).

Section InclusiveGateway.
Context `{Env}.

(** Delete the waiting tokens, insert the merged one, plan its leave. *)
Definition merge_tokens (waiting : list Execution) (e : Execution) (gateway_id scope_id : string)
  : EngineM unit :=
  for_each waiting (fun w => entity_delete (ex_id w)) ;;
  id ← uuid_new_v4;
  let merged := merged_token e gateway_id scope_id id in
  entity_insert merged ;;
  plan_take_outgoing_sequence_flows_operation merged.

(** [ActivityBehavior::execute]. *)
Definition inclusive_gateway_execute (execution : Execution) : EngineM unit :=
  let_some activity_id := ex_activity_id execution in
  let_some process_definition_id := ex_process_definition_id execution in
  let_some bpmn_model := get_bpmn_model process_definition_id in
  let_some main_process := bm_main_process bpmn_model in
  let_some flow_element := find_flow_element main_process activity_id in
  let incoming_count := gateway_incoming_count flow_element in
  let scope_id := parallel_scope_id execution in
  if Nat.ltb 1 incoming_count then
    let waiting_execution := set_is_concurrent true (set_is_active false execution) in
    entity_update waiting_execution ;;
    all ← snapshot;
    let all_executions := (map_to_list all).*2 in
    blocked ← terminating (one_execution_can_reach_gateway main_process activity_id
                             waiting_execution all_executions);
    if (blocked : bool) then mret tt
    else merge_tokens (join_tokens all_executions execution activity_id scope_id)
           execution activity_id scope_id
  else plan_take_outgoing_sequence_flows_operation execution.

(** ** End-of-command scan *)
Definition Gated : Type := string * Process * list string.

Definition gate_instance (pi_def : string * string) : option Gated :=
  match get_bpmn_model pi_def.2 with
  | None => None
  | Some bpmn_model =>
      match bm_main_process bpmn_model with
      | None => None
      | Some main_process =>
          match collect_inclusive_join_ids (pr_flow_elements main_process) with
          | [] => None
          | join_ids => Some (pi_def.1, main_process, join_ids)
          end
      end
  end.

Definition GroupKey : Type := option string * string * string.

(** A parked token of the instance, at one of its joins. *)
Definition parked_at (pi_id : string) (join_ids : list string) (waiting : Execution)
  : option string :=
  if negb (is_some_eq (ex_process_instance_id waiting) pi_id) then None
  else if ex_is_active waiting || negb (ex_is_concurrent waiting) || ex_is_ended waiting then None
  else
    match ex_activity_id waiting with
    | None => None
    | Some activity_id =>
        if negb (bool_decide (activity_id ∈ join_ids)) then None
        else match ex_process_definition_id waiting with
             | None => None
             | Some _ => Some activity_id
             end
    end.

Definition group_key (waiting : Execution) (activity_id : string) : GroupKey :=
  (ex_process_instance_id waiting, activity_id, parallel_scope_id waiting).

(** The inner loop, over the snapshot. *)
Fixpoint scan_tokens (gated : Gated) (all_executions todo : list Execution)
    (activated : bool) (handled_groups : list GroupKey) : EngineM (bool * list GroupKey) :=
  match todo with
  | [] => mret (activated, handled_groups)
  | waiting :: todo =>
      let '(pi_id, main_process, join_ids) := gated in
      match parked_at pi_id join_ids waiting with
      | None => scan_tokens gated all_executions todo activated handled_groups
      | Some activity_id =>
          let key := group_key waiting activity_id in
          if bool_decide (key ∈ handled_groups)
          then scan_tokens gated all_executions todo activated handled_groups
          else
            let handled_groups := handled_groups ++ [key] in
            blocked ← terminating (one_execution_can_reach_gateway main_process activity_id
                                     waiting all_executions);
            if (blocked : bool)
            then scan_tokens gated all_executions todo activated handled_groups
            else
              let scope_id := parallel_scope_id waiting in
              merge_tokens (join_tokens all_executions waiting activity_id scope_id)
                waiting activity_id scope_id ;;
              scan_tokens gated all_executions todo true handled_groups
      end
  end.

(** The outer loop, over the gated instances. *)
Fixpoint scan_instances (all_executions : list Execution) (gated : list Gated)
    (activated : bool) (handled_groups : list GroupKey) : EngineM bool :=
  match gated with
  | [] => mret activated
  | g :: gated =>
      '(activated, handled_groups) ← scan_tokens g all_executions all_executions activated
                                       handled_groups;
      scan_instances all_executions gated activated handled_groups
  end.

Definition execute_inactive_inclusive_joins : EngineM bool :=
  involved ← take_involved;
  if bool_decide (involved = ∅) then mret false
  else
    match omap gate_instance (map_to_list involved) with
    | [] => mret false
    | gated =>
        all ← snapshot;
        scan_instances (map_to_list all).*2 gated false []
    end.
End InclusiveGateway.

(** ** The decision *)

(** A token that keeps a join waiting: another token of the instance, on the
    same parent, from whose activity the gateway can be reached; or a token
    at the gateway that has not been parked yet. *)
Definition blocks (p : Process) (gateway_id : string) (join candidate : Execution) : Prop :=
  ex_process_instance_id candidate = ex_process_instance_id join
  /\ exists a, ex_activity_id candidate = Some a
     /\ ((a <> gateway_id /\ is_reachable p a gateway_id = Some true
          /\ ex_parent_id candidate = ex_parent_id join)
         \/ (a = gateway_id /\ ex_is_active candidate = true
             /\ (ex_id candidate = ex_id join
                 \/ exists el, find_flow_element p a = Some el
                               /\ is_asynchronous_activity el = true))).

Lemma candidate_blocks_spec p gw j x :
  converted p ->
  exists b, candidate_blocks p gw j x = Some b /\ (b = true <-> blocks p gw j x).
Proof.
  intros Hp. unfold candidate_blocks, blocks.
  destruct (bool_decide (ex_process_instance_id x = ex_process_instance_id j)) eqn:Hpi; simpl.
  2:{ apply bool_decide_eq_false in Hpi. exists false. split; [done|]. split; [done|].
      by intros [? _]. }
  apply bool_decide_eq_true in Hpi.
  destruct (ex_activity_id x) as [a|] eqn:Ha.
  2:{ exists false. split; [done|]. split; [done|]. intros (_ & a & ? & _). done. }
  destruct (bool_decide (a = gw)) eqn:Hg; simpl.
  - apply bool_decide_eq_true in Hg. subst a. eexists. split; [reflexivity|].
    rewrite andb_true_iff, orb_true_iff, bool_decide_eq_true. split.
    + intros [Hact Hor]. split; [done|]. exists gw. split; [done|]. right. split_and!; [done|done|].
      destruct Hor as [Hor|Hor]; [by left|right].
      destruct (find_flow_element p gw) as [el|]; [eauto|done].
    + intros (_ & a & [= <-] & [(? & _)|(_ & Hact & Hor)]); [done|]. split; [done|].
      destruct Hor as [Hor|(el & -> & Hel)]; [by left|by right].
  - apply bool_decide_eq_false in Hg.
    destruct (is_reachable_total p a gw Hp) as [r Hr].
    rewrite Hr. simpl. eexists. split; [reflexivity|].
    rewrite andb_true_iff, bool_decide_eq_true. split.
    + intros [-> Hpar]. split; [done|]. exists a. split; [done|]. by left.
    + intros (_ & a' & [= <-] & [(_ & Hr' & Hpar)|(? & _)]); [|done]. by rewrite Hr in Hr'; injection Hr' as ->.
Qed.

Lemma can_reach_spec p gw j l :
  converted p ->
  exists b, one_execution_can_reach_gateway p gw j l = Some b
            /\ (b = true <-> exists x, x ∈ l /\ blocks p gw j x).
Proof.
  intros Hp. induction l as [|x l IH]; simpl.
  - exists false. split; [done|]. split; [done|]. intros (x & Hx & _). by apply not_elem_of_nil in Hx.
  - destruct (candidate_blocks_spec p gw j x Hp) as (b & Hb & Hbs). rewrite Hb. simpl. destruct b.
    + exists true. split; [done|]. split; [|done]. intros _. exists x. split; [left|]. by apply Hbs.
    + destruct IH as (b & -> & Hspec). exists b. split; [done|]. rewrite Hspec. split.
      * intros (y & Hy & Hby). exists y. split; [by right|done].
      * intros (y & Hy & Hby). apply elem_of_cons in Hy as [->|Hy]; [|eauto].
        apply Hbs in Hby. done.
Qed.

(** ** The join *)
Section InclusiveTheorems.
Context `{Env} `{!UuidLaws}.

(** The context after a merge. *)
Definition merge_ctx (waiting : list Execution) (e : Execution) (gw scope : string)
    (c : CommandContext) : CommandContext :=
  let c := erase_list (ex_id <$> waiting) c in
  let merged := merged_token e gw scope (new_v4 (cc_uuids c)) in
  plan_ctx (TakeOutgoingSequenceFlows merged) (write_ctx merged (draw_ctx c)).

Lemma merge_tokens_eq waiting e gw scope c :
  context_wf c -> merge_tokens waiting e gw scope c = (Ok tt, merge_ctx waiting e gw scope c).
Proof.
  intros Hwf. unfold merge_tokens, merge_ctx.
  destruct (erase_list_spec (ex_id <$> waiting) c Hwf) as (E1 & _).
  erewrite bind_ok by (by apply for_each_delete). erewrite bind_ok by reflexivity.
  by erewrite bind_ok by (apply entity_insert_eq; by apply draw_ctx_wf).
Qed.

Lemma merge_ctx_spec waiting e gw scope c :
  context_wf c ->
  let c' := merge_ctx waiting e gw scope c in
  let merged := merged_token e gw scope (new_v4 (cc_uuids c)) in
  context_wf c' /\ cc_agenda c' = cc_agenda c ++ [TakeOutgoingSequenceFlows merged]
  /\ cc_events c' = cc_events c
  /\ tokens c' !! new_v4 (cc_uuids c) = Some merged
  /\ forall k, k <> new_v4 (cc_uuids c) ->
       tokens c' !! k = if decide (k ∈ ex_id <$> waiting) then None else tokens c !! k.
Proof.
  intros Hwf c' merged.
  destruct (erase_list_spec (ex_id <$> waiting) c Hwf) as (E1 & E2 & E3 & E4 & E5).
  assert (Hc' : c' = plan_ctx (TakeOutgoingSequenceFlows merged)
    (write_ctx merged (draw_ctx (erase_list (ex_id <$> waiting) c)))).
  { unfold c', merge_ctx, merged. by rewrite E3. }
  rewrite Hc'. split_and!.
  - apply plan_ctx_wf, write_ctx_wf; [by apply draw_ctx_wf|].
    unfold merged. simpl. rewrite <- E3. apply draw_usable.
  - simpl. by rewrite E2.
  - done.
  - change (tokens (plan_ctx (TakeOutgoingSequenceFlows merged) ?c)) with (tokens c).
    exact (eq_trans (f_equal (fun m => m !! _) (tokens_write merged _)) (lookup_insert_eq _ _ _)).
  - intros k Hk. transitivity (tokens (write_ctx merged (draw_ctx (erase_list (ex_id <$> waiting) c))) !! k);
      [done|]. rewrite tokens_write, lookup_insert_ne by (simpl; congruence). apply E5.
Qed.
End InclusiveTheorems.

Section InclusiveExecute.
Context `{Env} `{!UuidLaws}.
Context (p : Process) (g : Gateway) (e : Execution) (a : string) (c : CommandContext).
Context (Hp : converted p) (Hwf : context_wf c) (He : is_Some (tokens c !! ex_id e)).
Context (Hat : stands_on e a p (FEInclusiveGateway g)).
Context (Hin : 1 < length (fn_incoming_flows (gw_flow_node g))).

(** The tokens the join looks at: the store with the arriving token parked. *)
Let parked_tokens : gmap string Execution := <[ex_id e := parked e]> (tokens c).

Lemma inclusive_execute_eq :
  inclusive_gateway_execute e c
  = (blocked ← terminating (one_execution_can_reach_gateway p a (parked e)
                              (map_to_list parked_tokens).*2);
     if (blocked : bool) then mret tt
     else merge_tokens (join_tokens (map_to_list parked_tokens).*2 e a (parallel_scope_id e))
            e a (parallel_scope_id e)) (write_ctx (parked e) c).
Proof.
  destruct Hat as (Ha & d & model & Hd & Hm & Hpr & Hf).
  unfold inclusive_gateway_execute. rewrite Ha, Hd, Hm, Hpr, Hf. simpl.
  rewrite (proj2 (Nat.ltb_lt _ _) Hin). fold (parked e).
  assert (Hwf1 : context_wf (write_ctx (parked e) c)).
  { apply write_ctx_wf; [done|]. destruct He as [x Hx]. by eapply token_usable. }
  erewrite bind_ok by (by apply entity_update_eq). erewrite bind_ok by (by apply snapshot_eq).
  rewrite tokens_write. done.
Qed.

(** While some token of the instance can still reach the inclusive join
    on the same parent, the arriving token is parked and nothing else
    happens. *)
Theorem inclusive_join_waits :
  (exists k x, parked_tokens !! k = Some x /\ blocks p a (parked e) x) ->
  exists c', inclusive_gateway_execute e c = (Ok tt, c') /\ context_wf c'
    /\ tokens c' = parked_tokens /\ cc_agenda c' = cc_agenda c.
Proof.
  intros (k & x & Hk & Hx). rewrite inclusive_execute_eq.
  destruct (can_reach_spec p a (parked e) (map_to_list parked_tokens).*2 Hp) as (b & Hb & Hs).
  rewrite Hb. exists (write_ctx (parked e) c).
  assert (b = true) as ->.
  { apply Hs. exists x. split; [|done]. apply list_elem_of_fmap. exists (k, x).
    split; [done|]. by apply elem_of_map_to_list. }
  split_and!; try done.
  - apply write_ctx_wf; [done|]. destruct He as [y Hy]. by eapply token_usable.
  - exact (tokens_write (parked e) c).
Qed.

Lemma join_merges :
  (forall k x, parked_tokens !! k = Some x -> ~ blocks p a (parked e) x) ->
  let scope := parallel_scope_id e in
  let merged := merged_token e a scope (new_v4 (cc_uuids c)) in
  exists c', inclusive_gateway_execute e c = (Ok tt, c') /\ context_wf c'
    /\ cc_agenda c' = cc_agenda c ++ [TakeOutgoingSequenceFlows merged]
    /\ tokens c' !! ex_id merged = Some merged
    /\ (forall k x, parked_tokens !! k = Some x ->
          ex_process_instance_id x = ex_process_instance_id e -> ex_activity_id x = Some a ->
          parallel_scope_id x = scope -> tokens c' !! k = None)
    /\ (forall k x, parked_tokens !! k = Some x ->
          ex_process_instance_id x <> ex_process_instance_id e \/ ex_activity_id x <> Some a
          \/ parallel_scope_id x <> scope -> tokens c' !! k = Some x)
    /\ (forall k, k <> ex_id merged -> parked_tokens !! k = None -> tokens c' !! k = None).
Proof.
  intros Hno scope merged. rewrite inclusive_execute_eq.
  destruct (can_reach_spec p a (parked e) (map_to_list parked_tokens).*2 Hp) as (b & Hb & Hs).
  rewrite Hb.
  assert (b = false) as ->.
  { destruct b; [|done]. exfalso. destruct (proj1 Hs eq_refl) as (x & Hx & Hbl).
    apply list_elem_of_fmap in Hx as ([k y] & -> & Hky). apply elem_of_map_to_list in Hky.
    by eapply Hno. }
  set (c1 := write_ctx (parked e) c).
  assert (H1 : context_wf c1).
  { apply write_ctx_wf; [done|]. destruct He as [y Hy]. by eapply token_usable. }
  assert (Ht1 : tokens c1 = parked_tokens) by exact (tokens_write (parked e) c).
  set (w := join_tokens (map_to_list parked_tokens).*2 e a scope).
  destruct (merge_ctx_spec w e a scope c1 H1) as (M1 & M2 & M3 & M4 & M5).
  assert (Hw : forall k x, parked_tokens !! k = Some x ->
    (k ∈ ex_id <$> w <-> ex_process_instance_id x = ex_process_instance_id e
       /\ ex_activity_id x = Some a /\ parallel_scope_id x = scope)).
  { intros k x Hk. unfold w, join_tokens. rewrite list_elem_of_fmap. split.
    - intros (y & -> & Hy). apply list_elem_of_In, filter_In in Hy as [Hy Hf].
      apply list_elem_of_In, list_elem_of_fmap in Hy as ([k' y'] & -> & Hy).
      apply elem_of_map_to_list in Hy. simpl in *. rewrite <- Ht1 in Hy, Hk.
      rewrite (token_key _ _ _ H1 Hy) in Hk. assert (y' = x) as -> by congruence.
      apply andb_true_iff in Hf as [Hf H3]. apply andb_true_iff in Hf as [Hf2 Hf3].
      apply bool_decide_eq_true in H3, Hf2. by apply is_some_eq_spec in Hf3.
    - intros (X1 & X2 & X3). exists x. rewrite <- Ht1 in Hk.
      split; [by rewrite (token_key _ _ _ H1 Hk)|]. apply list_elem_of_In, filter_In. split.
      + apply list_elem_of_In, list_elem_of_fmap. exists (k, x). split; [done|].
        apply elem_of_map_to_list. by rewrite <- Ht1.
      + rewrite !bool_decide_true by done. by rewrite (proj2 (is_some_eq_spec _ _) X2). }
  assert (Hfresh : forall k x, parked_tokens !! k = Some x -> k <> new_v4 (cc_uuids c1)).
  { intros k x Hk ->. rewrite <- Ht1, (cwf_fresh c1 H1) in Hk by done. done. }
  exists (merge_ctx w e a scope c1). split_and!; try done.
  - unfold terminating, lift, ok_or, mbind at 1, stM_bind. simpl. by apply merge_tokens_eq.
  - intros k x Hk X1 X2 X3. rewrite M5 by (by eapply Hfresh).
    rewrite decide_True; [done|]. by apply (Hw k x Hk).
  - intros k x Hk X. rewrite M5 by (by eapply Hfresh).
    rewrite decide_False; [by rewrite Ht1|]. rewrite (Hw k x Hk). naive_solver.
  - intros k Hk Hn. rewrite M5 by done. rewrite Ht1, Hn. by case_decide.
Qed.

(** The token waits at the join together with [e]. *)
Definition waits_with (x : Execution) : Prop :=
  ex_process_instance_id x = ex_process_instance_id e /\ ex_activity_id x = Some a
  /\ parallel_scope_id x = parallel_scope_id e.

(** Another token of the instance, on the parent of [e], that can still come
    to the gateway by the flows of the process. *)
Definition may_arrive (x : Execution) : Prop :=
  ex_process_instance_id x = ex_process_instance_id e /\ ex_parent_id x = ex_parent_id e
  /\ exists b from to, ex_activity_id x = Some b /\ b <> a
       /\ resolve_flow_node p b = Some from /\ resolve_flow_node p a = Some to /\ rtc (moves p) from to.

Lemma nothing_blocks :
  containers_named p -> (forall i x, find_flow_element p i = Some x -> searched x) ->
  fn_asynchronous (gw_flow_node g) = false ->
  (forall k x, tokens c !! k = Some x -> k <> ex_id e -> ~ may_arrive x) ->
  forall k x, parked_tokens !! k = Some x -> ~ blocks p a (parked e) x.
Proof.
  intros Hnamed Hrows Has Hno k x Hk (Hpi & b & Hb & [(Hne & Hr & Hpar)|(-> & Hact & Hor)]).
  - destruct (decide (k = ex_id e)) as [->|Hke].
    + unfold parked_tokens in Hk. rewrite lookup_insert_eq in Hk. injection Hk as <-.
      apply Hne. destruct Hat as [Ha _]. simpl in Hb. congruence.
    + unfold parked_tokens in Hk. rewrite lookup_insert_ne in Hk by done. apply (Hno k x Hk Hke).
      destruct (reachable_moves p b a Hp Hnamed Hrows Hr) as (from & to & H1 & H2 & H3).
      split_and!; [done|done|]. by exists b, from, to.
  - destruct Hor as [Hid|(el & Hel & Hasy)].
    + assert (x = parked e) as ->; [|done].
      destruct (decide (k = ex_id e)) as [->|Hke].
      { unfold parked_tokens in Hk. rewrite lookup_insert_eq in Hk. congruence. }
      unfold parked_tokens in Hk. rewrite lookup_insert_ne in Hk by done.
      destruct Hke. by rewrite <- (token_key _ _ _ Hwf Hk), Hid.
    + destruct Hat as (_ & d & model & _ & _ & _ & Hf). rewrite Hf in Hel. injection Hel as <-.
      simpl in Hasy. congruence.
Qed.

(** C33: an inclusive join merges.  A token arrives at an inclusive gateway that is
    not asynchronous and has more than one incoming flow, in a converted process whose
    containers have ids and which has no send task and no complex gateway (the search
    of the join has no row for these two).  No other token of the instance and of the
    same parent can come to the gateway by the flows of the process ([moves]), and
    none of the tokens waiting with it is the scope execution of the process instance.
    Then the call succeeds and the tokens waiting with it are consumed, the arriving
    one included; exactly one token is created, under an id no row had: active, on
    the gateway, of the same instance, below the scope, with the variables of the
    arriving token, and planned to leave.  Every other token is as before, the scope
    execution of the process instance included, and no further row appears. *)
Theorem inclusive_join_merges :
  containers_named p -> (forall i x, find_flow_element p i = Some x -> searched x) ->
  fn_asynchronous (gw_flow_node g) = false ->
  (forall k x, tokens c !! k = Some x -> k <> ex_id e -> ~ may_arrive x) ->
  (forall k x, parked_tokens !! k = Some x -> waits_with x -> is_process_instance_scope_execution x = false) ->
  exists c' merged, inclusive_gateway_execute e c = (Ok tt, c') /\ context_wf c'
    /\ cc_agenda c' = cc_agenda c ++ [TakeOutgoingSequenceFlows merged]
    /\ tokens c !! ex_id merged = None /\ tokens c' !! ex_id merged = Some merged
    /\ ex_is_active merged = true /\ ex_is_ended merged = false /\ ex_activity_id merged = Some a
    /\ ex_process_instance_id merged = ex_process_instance_id e
    /\ ex_parent_id merged = Some (parallel_scope_id e)
    /\ ex_variables merged = ex_variables e /\ ex_local_variables merged = ex_local_variables e
    /\ tokens c' !! ex_id e = None
    /\ (forall k x, k <> ex_id e -> tokens c !! k = Some x -> waits_with x -> tokens c' !! k = None)
    /\ (forall k x, k <> ex_id e -> tokens c !! k = Some x -> ~ waits_with x -> tokens c' !! k = Some x)
    /\ (forall k, k <> ex_id merged -> tokens c !! k = None -> tokens c' !! k = None)
    /\ (forall k x, k <> ex_id e -> tokens c !! k = Some x -> is_process_instance_scope_execution x = true ->
          tokens c' !! k = Some x).
Proof.
  intros Hnamed Hrows Has Hno Hscope.
  destruct (join_merges (nothing_blocks Hnamed Hrows Has Hno)) as (c' & Hc & Hw & Hag & Hm & Hgone & Hkept & Hnew).
  assert (Hpk : forall k x, k <> ex_id e -> tokens c !! k = Some x -> parked_tokens !! k = Some x)
    by (intros; unfold parked_tokens; by rewrite lookup_insert_ne).
  assert (Hkeep : forall k x, k <> ex_id e -> tokens c !! k = Some x -> ~ waits_with x -> tokens c' !! k = Some x).
  { intros k x Hne Hk Hnw. apply Hkept; [by apply Hpk|]. unfold waits_with in Hnw.
    destruct (decide (ex_process_instance_id x = ex_process_instance_id e)); [|by left].
    destruct (decide (ex_activity_id x = Some a)); [|by right; left].
    destruct (decide (parallel_scope_id x = parallel_scope_id e)); [|by right; right]. by destruct Hnw. }
  exists c', (merged_token e a (parallel_scope_id e) (new_v4 (cc_uuids c))).
  split_and!; try done.
  - simpl. by apply (cwf_fresh _ Hwf).
  - apply (Hgone _ (parked e)); [apply lookup_insert_eq|done|apply Hat|done].
  - intros k x Hne Hk (W1 & W2 & W3). eapply Hgone; [by apply Hpk|done..].
  - intros k Hk Hn. apply Hnew; [done|]. unfold parked_tokens. rewrite lookup_insert_ne; [done|].
    intros <-. destruct He as [y Hy]. congruence.
  - intros k x Hne Hk Hs. apply Hkeep; [done..|]. intros Hww. by rewrite (Hscope k x (Hpk _ _ Hne Hk) Hww) in Hs.
Qed.

(** An inclusive join reached by the scope execution of the process
    instance deletes that row, and the merged token is left with a parent
    that does not exist; the parallel gateway keeps the row of the token that
    arrives last. *)
Theorem inclusive_join_drops_scope :
  is_process_instance_scope_execution e = true ->
  (forall k x, parked_tokens !! k = Some x -> ~ blocks p a (parked e) x) ->
  exists c', inclusive_gateway_execute e c = (Ok tt, c') /\ tokens c' !! ex_id e = None
    /\ exists merged, cc_agenda c' = cc_agenda c ++ [TakeOutgoingSequenceFlows merged]
         /\ ex_parent_id merged = Some (ex_id e).
Proof.
  intros Hs Hno. destruct (join_merges Hno) as (c' & Hc & _ & Hag & _ & Hgone & _).
  apply scope_execution_spec in Hs as [Hpar Hpi].
  exists c'. split_and!; [done| |].
  - apply (Hgone (ex_id e) (parked e)); [apply lookup_insert_eq|done| |done].
    simpl. apply Hat.
  - eexists. split; [exact Hag|]. simpl. unfold parallel_scope_id. by rewrite Hpar.
Qed.
End InclusiveExecute.

(** ** The end-of-command scan *)
Section InactiveScan.
Context `{Env} `{!UuidLaws}.

(** The groups after a scan of [todo]: those from before are kept, every
    parked token of [todo] is in one, and when nothing was merged each new
    group is that of a token held back. *)
Definition scanned (pi : string) (p : Process) (joins : list string) (all todo : list Execution)
  (hg hg' : list GroupKey) (merged : bool) : Prop :=
  (forall key, key ∈ hg -> key ∈ hg')
  /\ (forall w a, w ∈ todo -> parked_at pi joins w = Some a -> group_key w a ∈ hg')
  /\ (merged = false -> forall key, key ∈ hg' -> key ∈ hg \/
        exists w a, w ∈ todo /\ parked_at pi joins w = Some a /\ key = group_key w a
          /\ one_execution_can_reach_gateway p a w all = Some true).

Lemma scanned_skip pi p joins all w todo hg hg' m :
  (forall a, parked_at pi joins w = Some a -> group_key w a ∈ hg) ->
  scanned pi p joins all todo hg hg' m -> scanned pi p joins all (w :: todo) hg hg' m.
Proof.
  intros Hw (H5 & H6 & H7). split_and!; [done| |].
  - intros w' a' Hw' Ha'. apply elem_of_cons in Hw' as [->|Hw']; [by apply H5, Hw|by apply H6].
  - intros Hm key Hkey. destruct (H7 Hm key Hkey) as [?|(w' & a' & Hw' & ?)]; [by left|right].
    exists w', a'. split; [by right|done].
Qed.

Lemma scanned_handle pi p joins all w a todo hg hg' m :
  parked_at pi joins w = Some a ->
  (m = false -> one_execution_can_reach_gateway p a w all = Some true) ->
  scanned pi p joins all todo (hg ++ [group_key w a]) hg' m ->
  scanned pi p joins all (w :: todo) hg hg' m.
Proof.
  intros Hpk Hb (H5 & H6 & H7). split_and!.
  - intros key Hkey. apply H5, elem_of_app. by left.
  - intros w' a' Hw' Ha'. apply elem_of_cons in Hw' as [->|Hw']; [|by apply H6].
    assert (a' = a) as -> by congruence. apply H5, elem_of_app. right. left.
  - intros Hm key Hkey. destruct (H7 Hm key Hkey) as [Hin|(w' & a' & Hw' & ?)].
    + apply elem_of_app in Hin as [?|Hin]; [by left|right].
      apply list_elem_of_singleton in Hin as ->. exists w, a. split_and!; auto. left.
    + right. exists w', a'. split; [by right|done].
Qed.

Lemma scan_tokens_spec pi p joins all todo act hg c :
  converted p -> context_wf c ->
  exists hg' ms c', scan_tokens (pi, p, joins) all todo act hg c
                    = (Ok (act || bool_decide (ms <> []), hg'), c')
    /\ context_wf c' /\ cc_agenda c' = cc_agenda c ++ (TakeOutgoingSequenceFlows <$> ms)
    /\ (ms = [] -> c' = c)
    /\ scanned pi p joins all todo hg hg' (bool_decide (ms <> [])).
Proof.
  intros Hp. revert act hg c. induction todo as [|w todo IH]; intros act hg c Hwf.
  { exists hg, [], c. rewrite bool_decide_false, orb_false_r by auto.
    split_and!; try done; [by rewrite app_nil_r|]. split_and!; [done| |by left].
    intros w a Hw. by apply not_elem_of_nil in Hw. }
  simpl. destruct (parked_at pi joins w) as [a|] eqn:Hpk.
  2:{ destruct (IH act hg c Hwf) as (hg' & ms & c' & H1 & H2 & H3 & H4 & H5).
      exists hg', ms, c'. split_and!; try done. apply scanned_skip; [|done]. congruence. }
  destruct (bool_decide (group_key w a ∈ hg)) eqn:Hk.
  { apply bool_decide_eq_true in Hk.
    destruct (IH act hg c Hwf) as (hg' & ms & c' & H1 & H2 & H3 & H4 & H5).
    exists hg', ms, c'. split_and!; try done. apply scanned_skip; [|done]. congruence. }
  destruct (can_reach_spec p a w all Hp) as (b & Hb & _).
  rewrite Hb. unfold terminating, lift. simpl. unfold mbind at 1, stM_bind at 1. simpl.
  destruct b.
  - destruct (IH act (hg ++ [group_key w a]) c Hwf) as (hg' & ms & c' & H1 & H2 & H3 & H4 & H5).
    exists hg', ms, c'. split_and!; try done. by eapply scanned_handle.
  - erewrite bind_ok by (by apply merge_tokens_eq).
    destruct (merge_ctx_spec (join_tokens all w a (parallel_scope_id w)) w a
                (parallel_scope_id w) c Hwf) as (M1 & M2 & _).
    destruct (IH true (hg ++ [group_key w a]) _ M1) as (hg' & ms & c' & H1 & H2 & H3 & H4 & H5).
    eexists hg', (_ :: ms), c'. rewrite bool_decide_true by done. rewrite orb_true_r.
    split_and!; try done; [rewrite H3, M2; simpl; by rewrite <- app_assoc|].
    eapply scanned_handle; [done|done|]. destruct H5 as (K1 & K2 & _). by split_and!.
Qed.

(** Every deployed definition was built by the converter. *)
Definition deployed_converted : Prop :=
  forall d m p, get_bpmn_model d = Some m -> bm_main_process m = Some p -> converted p.

Lemma gate_instance_converted pd pi p joins :
  deployed_converted -> gate_instance pd = Some (pi, p, joins) -> converted p /\ pi = pd.1.
Proof.
  intros Hd. unfold gate_instance. destruct (get_bpmn_model pd.2) as [m|] eqn:Hm; [|done].
  destruct (bm_main_process m) as [q|] eqn:Hq; [|done].
  destruct (collect_inclusive_join_ids (pr_flow_elements q)); [done|].
  intros [= <- <- _]. split; [by eapply Hd|done].
Qed.

Lemma scan_instances_spec all gated act hg c :
  (forall pi p joins, (pi, p, joins) ∈ gated -> converted p) -> context_wf c ->
  exists ms c', scan_instances all gated act hg c = (Ok (act || bool_decide (ms <> [])), c')
    /\ context_wf c' /\ cc_agenda c' = cc_agenda c ++ (TakeOutgoingSequenceFlows <$> ms)
    /\ (ms = [] -> c' = c)
    /\ (ms = [] -> forall pi p joins w a, (pi, p, joins) ∈ gated -> w ∈ all ->
          parked_at pi joins w = Some a -> group_key w a ∈ hg \/
          exists pi' p' joins' w', (pi', p', joins') ∈ gated /\ w' ∈ all
            /\ parked_at pi' joins' w' = Some a /\ group_key w a = group_key w' a
            /\ one_execution_can_reach_gateway p' a w' all = Some true).
Proof.
  intros Hconv. revert act hg c. induction gated as [|[[pi p] joins] gated IH]; intros act hg c Hwf.
  { exists [], c. rewrite bool_decide_false, orb_false_r by auto.
    split_and!; try done; [by rewrite app_nil_r|]. intros _ pi p joins w a Hg.
    by apply not_elem_of_nil in Hg. }
  simpl.
  destruct (scan_tokens_spec pi p joins all all act hg c)
    as (hg1 & ms1 & c1 & H1 & H2 & H3 & H4 & H5 & H6 & H7); [eapply Hconv; left|done|].
  erewrite bind_ok by exact H1. simpl.
  destruct IH with (act := act || bool_decide (ms1 <> [])) (hg := hg1) (c := c1)
    as (ms2 & c2 & G1 & G2 & G3 & G4 & G5); [intros; eapply Hconv; by right|done|].
  exists (ms1 ++ ms2), c2. split_and!; try done.
  - rewrite G1. f_equal. f_equal. rewrite <- orb_assoc. f_equal.
    destruct ms1, ms2; simpl; by rewrite ?bool_decide_true, ?bool_decide_false by auto.
  - rewrite G3, H3, fmap_app. by rewrite <- app_assoc.
  - intros [-> ->]%app_nil. by rewrite G4, H4.
  - intros [-> ->]%app_nil pi' p' joins' w a Hg Hw Hpk.
    assert (Hin : group_key w a ∈ hg1 \/ (pi', p', joins') ∈ gated).
    { apply elem_of_cons in Hg as [[= -> -> ->]|Hg]; [left; by apply H6|by right]. }
    assert (Hcase : group_key w a ∈ hg1 \/ exists pi' p' joins' w', (pi', p', joins') ∈ gated
       /\ w' ∈ all /\ parked_at pi' joins' w' = Some a /\ group_key w a = group_key w' a
       /\ one_execution_can_reach_gateway p' a w' all = Some true).
    { destruct Hin as [Hin|Hin]; [by left|]. by eapply G5. }
    destruct Hcase as [Hk|(pi2 & p2 & j2 & w2 & Hg2 & Hrest)].
    + destruct (H7 eq_refl _ Hk) as [?|(w2 & a2 & Hw2 & Hp2 & Hkey & Hb)]; [by left|right].
      assert (a2 = a) as -> by (unfold group_key in Hkey; congruence).
      exists pi, p, joins, w2. split_and!; try done. left.
    + right. exists pi2, p2, j2, w2. split; [by right|done].
Qed.

Lemma parked_at_instance pi joins w a :
  parked_at pi joins w = Some a -> ex_process_instance_id w = Some pi.
Proof.
  unfold parked_at. destruct (is_some_eq (ex_process_instance_id w) pi) eqn:E; [|done].
  intros _. by apply is_some_eq_spec.
Qed.

Lemma elem_of_values (m : gmap string Execution) x :
  x ∈ (map_to_list m).*2 <-> exists l, m !! l = Some x.
Proof.
  rewrite list_elem_of_fmap. split.
  - intros ([l y] & -> & Hl). apply elem_of_map_to_list in Hl. by exists l.
  - intros (l & Hl). exists (l, x). split; [done|]. by apply elem_of_map_to_list.
Qed.

Lemma elem_of_gated (involved : gmap string string) pi p joins :
  deployed_converted ->
  (pi, p, joins) ∈ omap gate_instance (map_to_list involved)
  <-> exists d, involved !! pi = Some d /\ gate_instance (pi, d) = Some (pi, p, joins).
Proof.
  intros Hdep. rewrite list_elem_of_omap. split.
  - intros ([pi' d] & Hin & Hg). apply elem_of_map_to_list in Hin.
    destruct (gate_instance_converted _ _ _ _ Hdep Hg) as [_ ->]. by exists d.
  - intros (d & Hi & Hg). exists (pi, d). split; [by apply elem_of_map_to_list|done].
Qed.

(** A token the scan found held back names the token that holds it back. *)
Lemma held_back c p a w :
  converted p -> one_execution_can_reach_gateway p a w (map_to_list (tokens c)).*2 = Some true ->
  exists l x, tokens c !! l = Some x /\ blocks p a w x.
Proof.
  intros Hp Hb. destruct (can_reach_spec p a w (map_to_list (tokens c)).*2 Hp) as (b & Hb' & Hspec).
  rewrite Hb in Hb'. injection Hb' as <-. destruct (proj1 Hspec eq_refl) as (x & Hx & Hblk).
  apply elem_of_values in Hx as (l & Hl). eauto.
Qed.

(** The end-of-command scan terminates without error.  When it reports
    an activation it has planned at least one merged token; when it reports
    none it has changed nothing, and every token parked at a join of an
    involved instance has a token of its group that is held back by a token
    which can still reach the join: no join that could fire is left behind. *)
Theorem inactive_scan_correct c :
  context_wf c -> deployed_converted ->
  exists b c', execute_inactive_inclusive_joins c = (Ok b, c') /\ context_wf c'
    /\ if (b : bool)
       then exists ms, ms <> [] /\ cc_agenda c' = cc_agenda c ++ (TakeOutgoingSequenceFlows <$> ms)
       else tokens c' = tokens c /\ cc_agenda c' = cc_agenda c
         /\ forall pi d p joins k w a,
              rt_involved (cc_runtime c) !! pi = Some d ->
              gate_instance (pi, d) = Some (pi, p, joins) ->
              tokens c !! k = Some w -> parked_at pi joins w = Some a ->
              exists k' w' l x, tokens c !! k' = Some w' /\ group_key w' a = group_key w a
                /\ tokens c !! l = Some x /\ blocks p a w' x.
Proof.
  intros Hwf Hdep. unfold execute_inactive_inclusive_joins.
  set (c0 := set_runtime (take_involved_process_instances (cc_runtime c)).2 c).
  assert (Hwf0 : context_wf c0).
  { destruct Hwf as [[Hs Hd] Hl Hf]. split; [split; [exact Hs|exact Hd]|exact Hl|exact Hf]. }
  erewrite bind_ok by reflexivity. change (set_runtime _ c) with c0.
  destruct (bool_decide (rt_involved (cc_runtime c) = ∅)) eqn:Hemp.
  { apply bool_decide_eq_true in Hemp. exists false, c0. split_and!; try done.
    intros pi d p joins k w a Hi. by rewrite Hemp in Hi. }
  clear Hemp. set (gated := omap gate_instance (map_to_list (rt_involved (cc_runtime c)))).
  assert (Hgated := fun pi p joins => elem_of_gated (rt_involved (cc_runtime c)) pi p joins Hdep).
  fold gated in Hgated.
  change (omap gate_instance _) with gated.
  destruct gated as [|g0 gated0] eqn:Eg.
  { exists false, c0. split_and!; try done. intros pi d p joins k w a Hi Hg.
    assert ((pi, p, joins) ∈ []) as Hin by (apply Hgated; eauto). by apply not_elem_of_nil in Hin. }
  erewrite bind_ok by (by apply snapshot_eq). rewrite <- Eg. change (tokens c0) with (tokens c).
  destruct (scan_instances_spec (map_to_list (tokens c)).*2 (g0 :: gated0) false [] c0)
    as (ms & c' & S1 & S2 & S3 & S4 & S5); [|done|].
  { intros pi p joins Hin. apply Hgated in Hin as (d & _ & Hg).
    by eapply gate_instance_converted. }
  rewrite Eg, S1. simpl. exists (bool_decide (ms <> [])), c'. split_and!; [done|done|].
  destruct (decide (ms = [])) as [->|Hms].
  2:{ rewrite bool_decide_true by done. exists ms. by split. }
  rewrite bool_decide_false by auto. rewrite S4 by done. split_and!; try done.
  intros pi d p joins k w a Hi Hg Hk Hpk.
  destruct (S5 eq_refl pi p joins w a) as [Hn|(pi' & p' & j' & w' & Hg' & Hw' & Hpk' & Hkey & Hb)];
    [apply Hgated; eauto|apply elem_of_values; eauto|done|by apply not_elem_of_nil in Hn|].
  apply Hgated in Hg' as (d' & Hi' & Hg').
  assert (pi' = pi) as ->.
  { apply parked_at_instance in Hpk, Hpk'. unfold group_key in Hkey. congruence. }
  assert (p' = p) as -> by congruence.
  destruct (held_back c p a w') as (l & x & Hl & Hblk); [by eapply gate_instance_converted|done|].
  apply elem_of_values in Hw' as (k' & Hk').
  exists k', w', l, x. by rewrite Hkey.
Qed.
End InactiveScan.

(** ** Instances of the theorems *)
Lemma sample_model_converted : deployed_converted.
Proof.
  intros d m p. simpl. case_bool_decide; [intros [= <-] [= <-]; apply sample_converted|].
  case_bool_decide; [intros [= <-] [= <-]; apply sample2_converted|].
  case_bool_decide; [intros [= <-] [= <-]; apply sample3_converted|].
  case_bool_decide; [intros [= <-] [= <-]; apply sample4_converted|].
  case_bool_decide; [|done]. intros [= <-] [= <-]. apply sample5_converted.
Qed.

Definition sample_join_gateway : Gateway := gateway "join" [f4; f5] [f7] None.

Lemma stands_on_sample e a el :
  ex_activity_id e = Some a -> ex_process_definition_id e = Some "proc:1" ->
  find_flow_element sample a = Some el -> stands_on e a sample el.
Proof. intros Ha Hd Hf. split; [done|]. by exists "proc:1", sample_model. Qed.

Lemma inclusive_join_waits_witness :
  exists c', inclusive_gateway_execute join_token sample_ctx = (Ok tt, c')
    /\ tokens c' !! "e-a" = Some (parked join_token) /\ cc_agenda c' = [].
Proof.
  destruct (inclusive_join_waits sample sample_join_gateway join_token "join" sample_ctx
    sample_converted sample_ctx_wf) as (c' & Hc & _ & Ht & Ha).
  - rewrite sample_tokens. vm_compute. eexists. reflexivity.
  - apply stands_on_sample; reflexivity.
  - vm_compute. lia.
  - exists "e-b", task_token. split; [vm_compute; reflexivity|].
    split; [reflexivity|]. exists "taskA". split; [reflexivity|]. left.
    split_and!; [discriminate|vm_compute; reflexivity|reflexivity].
  - exists c'. split; [exact Hc|]. rewrite Ht, Ha. split; vm_compute; reflexivity.
Defined.

(** Only the arriving token is left of the fork. *)
Definition lone_ctx : CommandContext := write_ctx join_token (write_ctx scope_token empty_ctx).

Lemma lone_ctx_wf : context_wf lone_ctx.
Proof.
  unfold lone_ctx. repeat apply write_ctx_wf; try apply empty_ctx_wf; by apply sample_usable.
Qed.

Lemma empty_tokens i : tokens empty_ctx !! i = None.
Proof. unfold tokens, view. simpl. by rewrite fmap_empty. Qed.

Lemma inclusive_join_merges_witness :
  exists c' merged, inclusive_gateway_execute join_token lone_ctx = (Ok tt, c')
    /\ tokens c' !! "e-a" = None /\ tokens c' !! "pi-1" = Some scope_token
    /\ cc_agenda c' = [TakeOutgoingSequenceFlows merged] /\ ex_parent_id merged = Some "pi-1".
Proof.
  destruct (inclusive_join_merges sample sample_join_gateway join_token "join" lone_ctx
    sample_converted lone_ctx_wf (written_token join_token _)
    (stands_on_sample join_token "join" (FEInclusiveGateway sample_join_gateway)
       eq_refl eq_refl eq_refl))
    as (c' & m & Hc & _ & Ha & _ & _ & _ & _ & _ & _ & Hp & _ & _ & Hgone & _ & _ & _ & Hscope).
  - vm_compute. lia.
  - exact sample_containers_named.
  - intros i x. exact (sample_searched i x).
  - reflexivity.
  - intros k x. unfold lone_ctx. rewrite !tokens_write, !lookup_insert, empty_tokens.
    repeat case_decide; try done; intros [= <-] ? (_ & _ & b & from & to & Hb & _); try discriminate Hb; congruence.
  - intros k x. unfold lone_ctx. rewrite !tokens_write, !lookup_insert, empty_tokens.
    repeat case_decide; try done; intros [= <-] (_ & Hb & _); reflexivity || discriminate Hb.
  - exists c', m. split_and!; [exact Hc|exact Hgone| |exact Ha|exact Hp].
    apply Hscope; [discriminate|vm_compute; reflexivity|reflexivity].
Defined.

(** The scope execution itself arrives at the join: a process whose flow
    never forked before it. *)
Definition scope_at_join : Execution := set_activity_id (Some "join") scope_token.
Definition scope_ctx : CommandContext := write_ctx scope_at_join empty_ctx.

Lemma inclusive_join_drops_scope_witness :
  exists c', inclusive_gateway_execute scope_at_join scope_ctx = (Ok tt, c')
    /\ tokens c' !! "pi-1" = None
    /\ exists merged, cc_agenda c' = [TakeOutgoingSequenceFlows merged]
                      /\ ex_parent_id merged = Some "pi-1".
Proof.
  apply (inclusive_join_drops_scope sample sample_join_gateway scope_at_join "join" scope_ctx
    sample_converted).
  - apply write_ctx_wf; [apply empty_ctx_wf|]. apply sample_usable; [reflexivity|discriminate].
  - apply written_token.
  - apply stands_on_sample; reflexivity.
  - vm_compute. lia.
  - reflexivity.
  - intros k x. unfold scope_ctx. rewrite tokens_write, !lookup_insert, empty_tokens.
    repeat case_decide; try done; intros [= <-] (_ & a & Ha & Hor);
      injection Ha as <-; destruct Hor as [(? & _)|(_ & Hact & _)]; done.
Defined.

(** A token was parked, and its sibling branch is gone. *)
Definition stuck_ctx : CommandContext :=
  write_ctx (parked join_token) (write_ctx scope_token empty_ctx).

Lemma inactive_scan_correct_witness :
  exists c', execute_inactive_inclusive_joins stuck_ctx = (Ok true, c')
    /\ exists ms, ms <> [] /\ cc_agenda c' = TakeOutgoingSequenceFlows <$> ms.
Proof.
  destruct (inactive_scan_correct stuck_ctx) as (b & c' & Hc & _ & Hb).
  - unfold stuck_ctx. apply write_ctx_wf; [apply write_ctx_wf; [apply empty_ctx_wf|]|];
      apply sample_usable; (reflexivity || discriminate).
  - exact sample_model_converted.
  - assert (Ht : (execute_inactive_inclusive_joins stuck_ctx).1 = Ok true)
      by (vm_compute; reflexivity).
    rewrite Hc in Ht. simpl in Ht. injection Ht as ->. exists c'. split; [exact Hc|exact Hb].
Defined.

(** The search treats a send task as a node without outgoing flows, so the
    join after one does not wait for the token on it. *)
Lemma send_task_not_waited :
  is_reachable sample3 "send" "ijoin" = Some false
  /\ get_outgoing_flows send = Some [k4] /\ sf_target_ref k4 = Some "ijoin".
Proof. split_and!; vm_compute; reflexivity. Qed.
