(* ===== verification/TakeOutgoing.v ===== *)
(** * Leaving a flow node

    Models [TakeOutgoingSequenceFlowsOperation]
    ([flowable-engine/src/agenda/take_outgoing_sequence_flows_operation.rs]):
    end listeners, history and completion event, compensation
    subscriptions, flow selection, and the token update for one, several or
    no selected flow. *)
From S2P Require Import Prelude Json Errors BpmnModel FlowElements Samples ExecutionGraph Execution Store EventDispatcher Context Variables FlowSelection Listeners Compensation ParallelGateway.

(** What this operation needs of the ad-hoc sub-process behaviour. *)
Class AdhocCompletion `{Env} := {
  try_auto_complete_adhoc_after_child_leave : Execution -> EngineM unit
}.

Inductive InclusiveGatewayAction : Type :=
| Continue (flows : list (SequenceFlow * bool))
| Split (flows : list (SequenceFlow * bool)).

Section TakeOutgoing.
Context `{Env}.

(** ** Sequence flows *)
Definition fire_sequence_flow_listeners (execution : Execution) (flow : SequenceFlow)
    (flow_id : string) : EngineM Execution :=
  match fe_execution_listeners (sf_flow_element flow) with
  | [] => mret execution
  | listeners =>
      ev ← evaluation_execution execution;
      let on_flow := set_activity_id (Some flow_id) execution in
      x ← attempt (execute_execution_listeners on_flow listeners "start" ev);
      x ← attempt (execute_execution_listeners x listeners "take" ev);
      x ← attempt (execute_execution_listeners x listeners "end" ev);
      mret (set_activity_id (ex_activity_id execution) x)
  end.

Definition flow_name (flow : SequenceFlow) : string := unwrap_or "<unnamed>" (sf_id flow).

Definition schedule_sequence_flow (execution : Execution) (flow : SequenceFlow) : EngineM unit :=
  let_some target_ref := sf_target_ref flow in
  new_execution ← fire_sequence_flow_listeners execution flow (flow_name flow);
  let new_execution := set_activity_id (Some target_ref) new_execution in
  dispatch_sequenceflow_taken (flow_name flow) (ex_process_instance_id execution)
    (Some (ex_id execution)) (ex_process_definition_id execution) ;;
  entity_update new_execution ;;
  plan_continue_process_operation new_execution.

(** The child both split helpers start from, under [parent_id]. *)
Definition split_child (execution : Execution) (parent_id id : string) (target_is_end_event : bool)
  : Execution :=
  set_non_interrupting_event_subprocess_path false
    (set_transient_variables ∅ (set_local_variables ∅ (set_variables ∅
      (set_is_multi_instance_root false (set_is_scope false (set_is_ended false
        (set_is_concurrent true (set_is_active (negb target_is_end_event)
          (set_parent_id (Some parent_id) (set_id id execution)))))))))).

Definition spawn_under (parent_id : string) (execution : Execution) (flow : SequenceFlow)
    (target_is_end_event : bool) : EngineM unit :=
  let_some target_ref := sf_target_ref flow in
  id ← uuid_new_v4;
  let child := split_child execution parent_id id target_is_end_event in
  child ← fire_sequence_flow_listeners child flow (flow_name flow);
  let child := set_activity_id (Some target_ref) child in
  entity_insert child ;;
  plan_continue_process_operation child.

Definition spawn_child_execution (execution : Execution) (flow : SequenceFlow)
    (target_is_end_event : bool) : EngineM unit :=
  spawn_under (ex_id execution) execution flow target_is_end_event.

Definition schedule_inclusive_gateway_child (execution : Execution) (flow : SequenceFlow)
    (target_is_end_event : bool) : EngineM unit :=
  spawn_under (parallel_scope_id execution) execution flow target_is_end_event.

(** ** The parts of [run] *)
Definition resolve_element (execution : Execution) (activity_id : string)
  : option (Process * FlowElementEnum) :=
  match ex_process_definition_id execution with
  | None => None
  | Some d => match get_bpmn_model d with
              | None => None
              | Some m => match bm_main_process m with
                          | None => None
                          | Some p => match find_flow_element p activity_id with
                                      | None => None
                                      | Some el => Some (p, el)
                                      end
                          end
              end
  end.

Definition fire_end_listeners (execution : Execution) : EngineM Execution :=
  match ex_activity_id execution with
  | None => mret execution
  | Some activity_id =>
      match resolve_element execution activity_id with
      | None => mret execution
      | Some (_, flow_element) =>
          ev ← evaluation_execution execution;
          x ← attempt (execute_execution_listeners execution
                         (flow_element_execution_listeners flow_element) "end" ev);
          entity_update x ;;
          mret x
      end
  end.

Definition complete_activity (execution : Execution) (activity_id : string) : EngineM unit :=
  history_activity_end (ex_id execution) activity_id ;;
  dispatch_activity_completed activity_id
    (match resolve_element execution activity_id with
     | Some (_, flow_element) => flow_element_type flow_element
     | None => "unknown"
     end) (ex_process_instance_id execution) (Some (ex_id execution))
    (ex_process_definition_id execution).

(** A compensation subscription per compensation boundary event. *)
Definition subscribe_boundary (main_process : Process) (execution : Execution)
    (activity_id : string) (b : BoundaryEvent) : EngineM unit :=
  match ev_event_definitions (bd_event b) with
  | [CompensateEventDefinition _ _] =>
      let b_id := default EmptyString (flow_node_id (ev_flow_node (bd_event b))) in
      let handler := unwrap_or b_id (find_compensation_handler (pr_artifacts main_process)
                                       (pr_flow_elements main_process) b_id) in
      snap ← snapshot_scope_variables execution;
      id ← uuid_new_v4;
      on_db (insert_compensation_subscription
               {| cs_id := id;
                  cs_process_instance_id :=
                    unwrap_or (ex_id execution) (ex_process_instance_id execution);
                  cs_execution_id := ex_id execution; cs_activity_id := activity_id;
                  cs_compensation_activity_id := handler; cs_subscription_order := 0;
                  cs_variables_snapshot := snap |})
  | _ => mret tt
  end.

Definition subscribe_compensation (main_process : Process) (execution : Execution)
    (activity_id : string) : EngineM unit :=
  for_each (collect_boundary_events (pr_flow_elements main_process) activity_id)
    (subscribe_boundary main_process execution activity_id).

(** The selection of flows by the kind of node. *)
Definition select_action (main_process : Process) (flow_element : FlowElementEnum)
    (outgoing_flows : list SequenceFlow) (activity_id execution_id : string)
    (evaluation_execution : Execution) : result FlowableError InclusiveGatewayAction :=
  let matching := collect_matching_outgoing_flows main_process
                    (get_gateway_default_flow_id flow_element) outgoing_flows
                    evaluation_execution in
  match flow_element with
  | FEExclusiveGateway _ =>
      selected ← select_exclusive_gateway_flow flow_element outgoing_flows evaluation_execution;
      match selected with
      | Some flow => Ok (Continue [(flow, target_is_end_event main_process flow)])
      | None => Err (ExecutionError
                  [Lit "No outgoing sequence flow of the exclusive gateway '"; Lit activity_id;
                   Lit "' could be selected for continuing execution "; Lit execution_id])
      end
  | FEInclusiveGateway _ => flows ← matching; Ok (Split flows)
  | _ => flows ← matching; Ok (Continue flows)
  end.

(** The element is a compensation handler, as the clean-up checks it. *)
Definition is_for_compensation (e : FlowElementEnum) : bool :=
  match e with
  | FETask a | FEUserTask a | FEServiceTask a => ac_is_for_compensation a
  | _ => false
  end.

(** No flow selected: the token ends; the last compensation handler of a
    cancelled transaction resumes at its cancel boundary event. *)
Definition resume_cancelled_transaction (execution : Execution) (main_process : Process)
    (parent_id : string) : EngineM unit :=
  all ← snapshot;
  let siblings := List.filter (fun e => is_some_eq (ex_parent_id e) parent_id)
                    (map_to_list all).*2 in
  if existsb (fun s => negb (bool_decide (ex_id s = ex_id execution))) siblings then mret tt
  else
    let_some parent_exec := all !! parent_id in
    let_some grandparent_id := ex_parent_id parent_exec in
    let_some grandparent_exec := all !! grandparent_id in
    let_some tx_id := ex_activity_id grandparent_exec in
    let_some b_id := find_cancel_boundary_id (pr_flow_elements main_process) tx_id in
    match or_else (ex_process_instance_id execution) (ex_process_instance_id grandparent_exec) with
    | Some pi_id => on_db (delete_boundary_event_state b_id pi_id)
    | None => mret tt
    end ;;
    let boundary_exec := set_activity_id (Some b_id) grandparent_exec in
    entity_update boundary_exec ;;
    plan_continue_process_operation boundary_exec ;;
    plan_take_outgoing_sequence_flows_operation boundary_exec.

Definition end_token (execution : Execution) (main_process : Process) (activity_id : string)
  : EngineM unit :=
  entity_delete (ex_id execution) ;;
  match find_flow_element main_process activity_id, ex_parent_id execution with
  | Some flow_element, Some parent_id =>
      if is_for_compensation flow_element
      then resume_cancelled_transaction execution main_process parent_id
      else mret tt
  | _, _ => mret tt
  end.

(** The inclusive split: the scope row is kept, any other token deleted. *)
Definition split_inclusive (execution : Execution) (flows : list (SequenceFlow * bool))
  : EngineM unit :=
  delete_or_preserve_scope_execution execution ;;
  for_each flows (fun '(flow, target_is_end_event) =>
    schedule_inclusive_gateway_child execution flow target_is_end_event).

Definition split_several (execution : Execution) (flows : list (SequenceFlow * bool))
  : EngineM unit :=
  (if ex_is_scope execution then entity_update (set_is_active false execution)
   else entity_delete (ex_id execution)) ;;
  for_each flows (fun '(flow, target_is_end_event) =>
    spawn_child_execution execution flow target_is_end_event).

Context `{!AdhocCompletion}.

Definition after_leave (adhoc_child_leave : bool) (leaving_snapshot : Execution) : EngineM unit :=
  if adhoc_child_leave then try_auto_complete_adhoc_after_child_leave leaving_snapshot
  else mret tt.

Definition is_adhoc (o : option FlowElementEnum) : bool :=
  match o with Some (FEAdhocSubProcess _ _ _ _) => true | _ => false end.

(** [AgendaOperation::run]. *)
Definition take_outgoing_run (leaving_snapshot : Execution) : EngineM unit :=
  execution ← fire_end_listeners leaving_snapshot;
  let_some activity_id := ex_activity_id execution in
  complete_activity execution activity_id ;;
  let_some process_def_id := ex_process_definition_id execution in
  let_some bpmn_model := get_bpmn_model process_def_id in
  let_some main_process := bm_main_process bpmn_model in
  subscribe_compensation main_process execution activity_id ;;
  let_some flow_element := find_flow_element main_process activity_id in
  let adhoc_child_leave := is_adhoc (find_parent_element_for_child main_process activity_id) in
  let_some outgoing_flows := get_outgoing_flows flow_element in
  ev ← evaluation_execution execution;
  action ← attempt (select_action main_process flow_element outgoing_flows activity_id
                      (ex_id execution) ev);
  match action with
  | Split flows =>
      split_inclusive execution flows ;; after_leave adhoc_child_leave leaving_snapshot
  | Continue [] =>
      if is_start_event flow_element then mret tt
      else end_token execution main_process activity_id ;;
           after_leave adhoc_child_leave leaving_snapshot
  | Continue [(flow, _)] =>
      schedule_sequence_flow execution flow ;; after_leave adhoc_child_leave leaving_snapshot
  | Continue selected_flows =>
      split_several execution selected_flows ;; after_leave adhoc_child_leave leaving_snapshot
  end.
End TakeOutgoing.

(** ** Correctness *)
Section TakeOutgoingTheorems.
Context {env : Env} {uuids : UuidLaws} {adhoc : AdhocCompletion}.

Definition event_ctx (ev : EngineEvent) (c : CommandContext) : CommandContext :=
  mkContext _ (cc_runtime c) (cc_agenda c) (cc_events c ++ [ev]) (cc_history c) (cc_uuids c).

Lemma event_ctx_wf ev c : context_wf c -> context_wf (event_ctx ev c).
Proof. intros [H1 H2 H3]. by split. Qed.

Definition no_flow_listeners (f : SequenceFlow) : Prop :=
  fe_execution_listeners (sf_flow_element f) = [].

Lemma fire_flow_none x f n c :
  no_flow_listeners f -> fire_sequence_flow_listeners x f n c = (Ok x, c).
Proof. intros Hl. unfold fire_sequence_flow_listeners. by rewrite Hl. Qed.

(** *** One flow *)
Definition flow_taken (e : Execution) (f : SequenceFlow) : EngineEvent :=
  sequenceflow_taken (flow_name f) (ex_process_instance_id e) (Some (ex_id e))
    (ex_process_definition_id e).

Lemma schedule_eq e f t c :
  context_wf c -> no_flow_listeners f -> sf_target_ref f = Some t ->
  schedule_sequence_flow e f c
  = (Ok tt, plan_ctx (ContinueProcess (set_activity_id (Some t) e))
              (write_ctx (set_activity_id (Some t) e) (event_ctx (flow_taken e f) c))).
Proof.
  intros Hwf Hl Ht. unfold schedule_sequence_flow. rewrite Ht.
  erewrite bind_ok by (by apply fire_flow_none). erewrite bind_ok by reflexivity.
  by erewrite bind_ok by (apply entity_update_eq; by apply event_ctx_wf).
Qed.

(** *** Several flows *)
Definition split_children (parent : string) (e : Execution) (flows : list (SequenceFlow * bool))
  : list (string -> Execution) :=
  omap (fun '(f, is_end) =>
          match sf_target_ref f with
          | Some t => Some (fun i => set_activity_id (Some t) (split_child e parent i is_end))
          | None => None
          end) flows.

Lemma split_children_id parent e flows mk i :
  mk ∈ split_children parent e flows -> ex_id (mk i) = i.
Proof.
  intros Hin. apply list_elem_of_omap in Hin as ([f b] & _ & Hf).
  destruct (sf_target_ref f); [|done]. by injection Hf as <-.
Qed.

Lemma split_children_parent parent e flows x n :
  x ∈ spawned n (split_children parent e flows) -> ex_parent_id x = Some parent.
Proof.
  intros Hx. apply list_elem_of_lookup in Hx as [j Hj].
  apply spawned_lookup in Hj as (mk & Hmk & ->). apply list_elem_of_lookup_2 in Hmk.
  apply list_elem_of_omap in Hmk as ([f b] & _ & Hf).
  destruct (sf_target_ref f); [|done]. by injection Hf as <-.
Qed.

Lemma spawn_under_eq parent e f b c :
  context_wf c -> no_flow_listeners f ->
  spawn_under parent e f b c
  = (Ok tt, match sf_target_ref f with
            | Some t => spawn_ctx (fun i => set_activity_id (Some t) (split_child e parent i b)) c
            | None => c
            end).
Proof.
  intros Hwf Hl. unfold spawn_under. destruct (sf_target_ref f) as [t|]; [|done].
  erewrite bind_ok by reflexivity. erewrite bind_ok by (by apply fire_flow_none).
  by erewrite bind_ok by (apply entity_insert_eq; by apply draw_ctx_wf).
Qed.

Lemma spawn_flows_eq parent e flows c :
  context_wf c -> Forall (fun fb => no_flow_listeners fb.1) flows ->
  for_each flows (fun '(f, b) => spawn_under parent e f b) c
  = (Ok tt, spawn_list (split_children parent e flows) c).
Proof.
  intros Hwf Hl. revert c Hwf. induction Hl as [|[f b] flows Hf _ IH]; intros c Hwf; simpl; [done|].
  erewrite bind_ok by (by apply spawn_under_eq).
  destruct (sf_target_ref f) as [t|] eqn:Ht; simpl; rewrite IH; rewrite ?Ht; try done.
  apply plan_ctx_wf, write_ctx_wf; [by apply draw_ctx_wf|]. apply draw_usable.
Qed.

(** The token's own row after a split on a node other than a gateway. *)
Definition split_self (e : Execution) : option Execution :=
  if ex_is_scope e then Some (set_is_active false e) else None.

Definition split_leave_ctx (e : Execution) (c : CommandContext) : CommandContext :=
  if ex_is_scope e then write_ctx (set_is_active false e) c else erase_ctx (ex_id e) c.

Lemma split_leave_spec e c :
  context_wf c -> usable c (ex_id e) ->
  context_wf (split_leave_ctx e c) /\ cc_agenda (split_leave_ctx e c) = cc_agenda c
  /\ cc_uuids (split_leave_ctx e c) = cc_uuids c /\ cc_events (split_leave_ctx e c) = cc_events c
  /\ forall k, tokens (split_leave_ctx e c) !! k
               = if decide (k = ex_id e) then split_self e else tokens c !! k.
Proof.
  intros H1 Hu. unfold split_leave_ctx, split_self.
  destruct (ex_is_scope e); split_and!; try done.
  - by apply write_ctx_wf.
  - intros k. rewrite tokens_write, lookup_insert. simpl. repeat case_decide; congruence.
  - by apply erase_ctx_wf.
  - intros k. rewrite tokens_erase, lookup_delete. repeat case_decide; congruence.
Qed.

Lemma split_several_spec e flows c :
  context_wf c -> usable c (ex_id e) -> Forall (fun fb => no_flow_listeners fb.1) flows ->
  let children := spawned (cc_uuids c) (split_children (ex_id e) e flows) in
  exists c', split_several e flows c = (Ok tt, c') /\ context_wf c'
    /\ cc_agenda c' = cc_agenda c ++ (ContinueProcess <$> children)
    /\ cc_events c' = cc_events c
    /\ (forall x, x ∈ children -> tokens c' !! ex_id x = Some x)
    /\ (forall k, k ∉ ex_id <$> children ->
          tokens c' !! k = if decide (k = ex_id e) then split_self e else tokens c !! k).
Proof.
  intros Hwf Hu Hl children. destruct (split_leave_spec e c Hwf Hu) as (L1 & L2 & L3 & L4 & L5).
  destruct (spawn_list_spec (split_children (ex_id e) e flows) (split_leave_ctx e c))
    as (S1 & S2 & S3 & S4 & S5 & S6); [intros mk i; apply split_children_id|done|].
  rewrite L3 in S2, S5, S6. rewrite L2 in S2. rewrite L4 in S4.
  eexists. split_and!; [|exact S1|exact S2|exact S4|exact S5|].
  - unfold split_several, spawn_child_execution.
    assert (Hself : (if ex_is_scope e then entity_update (set_is_active false e)
                     else entity_delete (ex_id e)) c = (Ok tt, split_leave_ctx e c)).
    { unfold split_leave_ctx. destruct (ex_is_scope e);
        [by apply entity_update_eq|by apply entity_delete_eq]. }
    erewrite bind_ok by exact Hself. by apply spawn_flows_eq.
  - intros k Hk. rewrite S6 by done. apply L5.
Qed.

(** A node left through several flows creates one child per flow that
    has a target, under fresh ids, and plans them in order; a scope token
    stays, inactive, and any other token is deleted. *)
Theorem split_creates_children e flows c :
  context_wf c -> usable c (ex_id e) -> Forall (fun fb => no_flow_listeners fb.1) flows ->
  let children := spawned (cc_uuids c) (split_children (ex_id e) e flows) in
  exists c', split_several e flows c = (Ok tt, c') /\ context_wf c'
    /\ cc_agenda c' = cc_agenda c ++ (ContinueProcess <$> children)
    /\ (forall x, x ∈ children -> tokens c' !! ex_id x = Some x)
    /\ (forall k, k ∉ ex_id <$> children ->
          tokens c' !! k = if decide (k = ex_id e) then split_self e else tokens c !! k).
Proof.
  intros Hwf Hu Hl children.
  destruct (split_several_spec e flows c Hwf Hu Hl) as (c' & H1 & H2 & H3 & _ & H4 & H5).
  by exists c'.
Qed.

(** When the token left is not a scope, its children point to a parent
    that the same operation has just deleted. *)
Theorem split_orphans_children e flows c :
  context_wf c -> usable c (ex_id e) -> Forall (fun fb => no_flow_listeners fb.1) flows ->
  is_Some (tokens c !! ex_id e) -> ex_is_scope e = false ->
  exists c', split_several e flows c = (Ok tt, c')
    /\ forall x, x ∈ spawned (cc_uuids c) (split_children (ex_id e) e flows) ->
         tokens c' !! ex_id x = Some x /\ ex_parent_id x = Some (ex_id e)
         /\ tokens c' !! ex_id e = None.
Proof.
  intros Hwf Hu Hl He Hs.
  destruct (split_several_spec e flows c Hwf Hu Hl) as (c' & H1 & H2 & H3 & _ & H4 & H5).
  exists c'. split; [done|]. intros x Hx. split_and!; [by apply H4|by eapply split_children_parent|].
  rewrite H5.
  - rewrite decide_True by done. unfold split_self. by rewrite Hs.
  - intros Hin. apply list_elem_of_fmap in Hin as (y & Hy & Hin).
    apply list_elem_of_lookup in Hin as [j Hj]. apply spawned_lookup in Hj as (mk & Hmk & ->).
    rewrite (split_children_id (ex_id e) e flows) in Hy by (by eapply list_elem_of_lookup_2).
    destruct Hu as [_ Hu]. apply (Hu (cc_uuids c + j)); [lia|done].
Qed.
End TakeOutgoingTheorems.

(** *** The whole operation *)
Section Run.
Context {env : Env} {uuids : UuidLaws} {adhoc : AdhocCompletion}.
Context (p : Process) (el : FlowElementEnum) (e : Execution) (a : string) (c : CommandContext).
Context (scopes_of_e : list Execution) (outgoing : list SequenceFlow).
Context (Hwf : context_wf c) (He : tokens c !! ex_id e = Some e).
Context (Hat : stands_on e a p el) (Hout : get_outgoing_flows el = Some outgoing).
Context (Hscopes : scopes (tokens c) e scopes_of_e).
Context (Hlisteners : flow_element_execution_listeners el = []).
Context (Hplain : forall b, b ∈ collect_boundary_events (pr_flow_elements p) a ->
  forall r w, ev_event_definitions (bd_event b) <> [CompensateEventDefinition r w]).
Context (Hnoadhoc : is_adhoc (find_parent_element_for_child p a) = false).
Context (Hhist : (record_activity_end (ex_id e) a (cc_history c)).1 = Ok tt).

(** What the token sees when the conditions are evaluated. *)
Definition seen : Execution :=
  set_variables (ex_variables e ∪ (scope_variables scopes_of_e ∪ root_fallback (tokens c) e)) e.

Definition completed : EngineEvent :=
  activity_completed a (flow_element_type el) (ex_process_instance_id e) (Some (ex_id e))
    (ex_process_definition_id e).

(** The context in which a flow is chosen: the row is rewritten as it was,
    the history has recorded the end of the activity and the completion
    event is queued. *)
Definition completed_ctx : CommandContext :=
  let c := write_ctx e c in
  event_ctx completed
    (mkContext _ (cc_runtime c) (cc_agenda c) (cc_events c)
       (record_activity_end (ex_id e) a (cc_history c)).2 (cc_uuids c)).

Lemma completed_ctx_spec :
  context_wf completed_ctx /\ tokens completed_ctx = tokens c
  /\ cc_agenda completed_ctx = cc_agenda c /\ cc_uuids completed_ctx = cc_uuids c
  /\ cc_events completed_ctx = cc_events c ++ [completed].
Proof.
  assert (H1 : context_wf (write_ctx e c)).
  { apply write_ctx_wf; [done|]. by eapply token_usable. }
  split_and!; try done.
  - apply event_ctx_wf. destruct H1 as [? ? ?]. by split.
  - transitivity (tokens (write_ctx e c)); [done|]. rewrite tokens_write. by apply insert_id.
Qed.

Lemma resolve_stands : resolve_element e a = Some (p, el).
Proof.
  destruct Hat as (_ & d & m & Hd & Hm & Hp & Hf). unfold resolve_element.
  by rewrite Hd, Hm, Hp, Hf.
Qed.

Lemma subscribe_none x c1 : subscribe_compensation p x a c1 = (Ok tt, c1).
Proof.
  unfold subscribe_compensation.
  assert (Hall : forall l, (forall b, b ∈ l -> b ∈ collect_boundary_events (pr_flow_elements p) a) ->
    for_each l (subscribe_boundary p x a) c1 = (Ok tt, c1)); [|by apply Hall].
  induction l as [|b l IH]; intros Hl; simpl; [done|].
  assert (Hb : subscribe_boundary p x a b c1 = (Ok tt, c1)).
  { unfold subscribe_boundary. pose proof (Hplain b (Hl b (list_elem_of_here _ _))) as Hd.
    destruct (ev_event_definitions (bd_event b)) as [|[] [|]]; try done. by edestruct Hd. }
  erewrite bind_ok by exact Hb. apply IH. intros b' Hb'. apply Hl. by right.
Qed.

Lemma run_prefix :
  take_outgoing_run e c
  = (action ← attempt (select_action p el outgoing a (ex_id e) seen);
     match action with
     | Split flows => split_inclusive e flows ;; mret tt
     | Continue [] => if is_start_event el then mret tt
                      else end_token e p a ;; mret tt
     | Continue [(flow, _)] => schedule_sequence_flow e flow ;; mret tt
     | Continue flows => split_several e flows ;; mret tt
     end) completed_ctx.
Proof.
  destruct Hat as (Ha & d & m & Hd & Hm & Hp & Hf).
  destruct completed_ctx_spec as (C1 & C2 & C3 & C4 & C5).
  unfold take_outgoing_run, fire_end_listeners. rewrite Ha, resolve_stands.
  assert (Hfire : (ev ← evaluation_execution e;
           x ← attempt (execute_execution_listeners e (flow_element_execution_listeners el) "end" ev);
           entity_update x ;; mret x) c = (Ok e, write_ctx e c)).
  { erewrite bind_ok by (by apply evaluation_execution_eq). rewrite Hlisteners.
    erewrite bind_ok by reflexivity. erewrite bind_ok by (by apply entity_update_eq). done. }
  erewrite bind_ok by exact Hfire. rewrite Ha.
  assert (Hcomp : complete_activity e a (write_ctx e c) = (Ok tt, completed_ctx)).
  { unfold complete_activity. rewrite resolve_stands. unfold mbind, stM_bind, history_activity_end.
    unfold completed_ctx. simpl.
    destruct (record_activity_end (ex_id e) a (cc_history c)) as [r h]. simpl in Hhist. by subst r. }
  erewrite bind_ok by exact Hcomp. rewrite Hd, Hm, Hp.
  erewrite bind_ok by apply subscribe_none. rewrite Hf, Hout, Hnoadhoc.
  erewrite bind_ok.
  2:{ apply (evaluation_execution_eq completed_ctx e scopes_of_e); [done|]. by rewrite C2. }
  rewrite C2. done.
Qed.

(** C2: leaving through one flow keeps the token.  A stored token stands on an
    element of its process, in a well-formed context and below finitely many scopes;
    the element has no execution listener, no compensation boundary event is attached
    to it, its parent is no ad-hoc sub-process, the history records the end of the
    activity without an error, and the selection of the outgoing flows, evaluated on
    the variables of the token and of its scopes, gives exactly one flow, which has no
    execution listener and has a target.  Then the run succeeds: the token moves to
    the target of the flow under the same id, every other field unchanged, and is
    planned there as the last operation of the agenda; the completion of the activity
    and the taken flow are reported in that order; and no other token changes. *)
Theorem take_single_flow f b t :
  select_action p el outgoing a (ex_id e) seen = Ok (Continue [(f, b)]) ->
  no_flow_listeners f -> sf_target_ref f = Some t ->
  exists c', take_outgoing_run e c = (Ok tt, c') /\ context_wf c'
    /\ tokens c' = <[ex_id e := set_activity_id (Some t) e]> (tokens c)
    /\ cc_agenda c' = cc_agenda c ++ [ContinueProcess (set_activity_id (Some t) e)]
    /\ cc_events c' = cc_events c ++ [completed; flow_taken e f].
Proof.
  intros Hsel Hl Ht. destruct completed_ctx_spec as (C1 & C2 & C3 & C4 & C5).
  rewrite run_prefix, Hsel. erewrite bind_ok by reflexivity. cbv beta iota.
  erewrite bind_ok by (by apply schedule_eq). eexists. split; [reflexivity|].
  split_and!.
  - apply plan_ctx_wf, write_ctx_wf; [by apply event_ctx_wf|].
    apply (token_usable (event_ctx (flow_taken e f) completed_ctx) (ex_id e) e);
      [by apply event_ctx_wf|]. by rewrite <- He, <- C2.
  - rewrite <- C2. exact (tokens_write (set_activity_id (Some t) e) _).
  - simpl. by rewrite <- C3.
  - change (cc_events completed_ctx ++ [flow_taken e f] = cc_events c ++ [completed; flow_taken e f]).
    rewrite C5. by rewrite <- app_assoc.
Qed.

(** C39: a failing selection moves nothing.  A stored token stands on an element of
    its process, in a well-formed context and below finitely many scopes; the element
    has no execution listener, no compensation boundary event is attached to it, its
    parent is no ad-hoc sub-process and the history records the end of the activity
    without an error.  When the selection of the outgoing flows (no matching flow, or
    a condition that fails) is an error, the run fails with that very error; the
    tokens and the agenda are exactly those from before, so no token was created,
    consumed or moved and nothing was planned.  The completion event and the history
    of the activity's end were written before the selection. *)
Theorem selection_error_changes_nothing err :
  select_action p el outgoing a (ex_id e) seen = Err err ->
  exists c', take_outgoing_run e c = (Err (Raised err), c')
    /\ tokens c' = tokens c /\ cc_agenda c' = cc_agenda c.
Proof.
  intros Hsel. destruct completed_ctx_spec as (C1 & C2 & C3 & C4 & C5).
  exists completed_ctx. rewrite run_prefix, Hsel. done.
Qed.

(** A node left through several flows hands over to the split: one fresh
    child per flow, in document order. *)
Theorem take_several_flows flows :
  select_action p el outgoing a (ex_id e) seen = Ok (Continue flows) -> 2 <= length flows ->
  Forall (fun fb => no_flow_listeners fb.1) flows ->
  let children := spawned (cc_uuids c) (split_children (ex_id e) e flows) in
  exists c', take_outgoing_run e c = (Ok tt, c') /\ context_wf c'
    /\ cc_agenda c' = cc_agenda c ++ (ContinueProcess <$> children)
    /\ (forall x, x ∈ children -> tokens c' !! ex_id x = Some x)
    /\ (forall k, k ∉ ex_id <$> children ->
          tokens c' !! k = if decide (k = ex_id e) then split_self e else tokens c !! k).
Proof.
  intros Hsel Hlen Hl children. destruct completed_ctx_spec as (C1 & C2 & C3 & C4 & C5).
  destruct (split_several_spec e flows completed_ctx) as (c' & S1 & S2 & S3 & _ & S4 & S5);
    [done| |done|].
  { apply (token_usable _ _ e); [done|]. by rewrite C2. }
  rewrite C2, C4 in S5. rewrite C3, C4 in S3. rewrite C4 in S4.
  exists c'. split_and!; try done.
  rewrite run_prefix, Hsel. erewrite bind_ok by reflexivity. cbv beta iota.
  destruct flows as [|[f1 b1] [|fb2 flows]]; [simpl in Hlen; lia|simpl in Hlen; lia|].
  by erewrite bind_ok by exact S1.
Qed.

(** A node left through no flow ends the token: its row is deleted
    and, unless it was a compensation handler, nothing else happens. *)
Theorem take_no_flow :
  select_action p el outgoing a (ex_id e) seen = Ok (Continue []) ->
  is_start_event el = false -> is_for_compensation el = false ->
  exists c', take_outgoing_run e c = (Ok tt, c') /\ context_wf c'
    /\ tokens c' = delete (ex_id e) (tokens c) /\ cc_agenda c' = cc_agenda c.
Proof.
  intros Hsel Hst Hcomp. destruct completed_ctx_spec as (C1 & C2 & C3 & C4 & C5).
  rewrite run_prefix, Hsel. erewrite bind_ok by reflexivity. cbv beta iota. rewrite Hst.
  exists (erase_ctx (ex_id e) completed_ctx). split_and!; [|by apply erase_ctx_wf| |done].
  - assert (Hend : end_token e p a completed_ctx = (Ok tt, erase_ctx (ex_id e) completed_ctx)).
    { unfold end_token. erewrite bind_ok by (by apply entity_delete_eq).
      destruct Hat as (_ & d & m & _ & _ & _ & Hf). rewrite Hf, Hcomp.
      by destruct (ex_parent_id e). }
    by erewrite bind_ok by exact Hend.
  - rewrite <- C2. apply tokens_erase.
Qed.
End Run.

(** ** Instances of the theorems *)
#[export] Instance sample_adhoc : AdhocCompletion := {
  try_auto_complete_adhoc_after_child_leave _ := mret tt
}.

Lemma stands_on_sample3 e a el :
  ex_activity_id e = Some a -> ex_process_definition_id e = Some "proc:3" ->
  find_flow_element sample3 a = Some el -> stands_on e a sample3 el.
Proof. intros Ha Hd Hf. split; [done|]. by exists "proc:3", sample3_model. Qed.

Definition at_m1 : Execution := token3 "e-m" (Some "pi-3") (Some "m1") false.
Definition at_x1 : Execution := token3 "e-x" (Some "pi-3") (Some "x1") false.
Definition at_z1 : Execution := token3 "e-z" (Some "pi-3") (Some "z1") false.
Definition at_t1 : Execution := token2 "e-1" (Some "pi-2") (Some "t1") true true false.
Definition ctx_t1 : CommandContext := write_ctx at_t1 (write_ctx root2 empty_ctx).

Lemma ctx_t1_wf : context_wf ctx_t1.
Proof. unfold ctx_t1. repeat apply write_ctx_wf; try apply empty_ctx_wf; by apply sample_usable. Qed.

Lemma written_self e c : tokens (write_ctx e c) !! ex_id e = Some e.
Proof. rewrite tokens_write. apply lookup_insert_eq. Qed.

Lemma scopes3 e : ex_id e <> "pi-3" -> ex_parent_id e = Some "pi-3" -> scopes (tokens (ctx3 e)) e [root3].
Proof.
  intros Hne Hp. unfold scopes. rewrite Hp. apply chain_top; [|done]. unfold ctx3.
  rewrite tokens_write, lookup_insert_ne by done. apply written_self.
Qed.

Lemma no_boundary (p : Process) a :
  collect_boundary_events (pr_flow_elements p) a = [] ->
  forall b, b ∈ collect_boundary_events (pr_flow_elements p) a ->
  forall r w, ev_event_definitions (bd_event b) <> [CompensateEventDefinition r w].
Proof. intros ->. intros b Hb. by apply not_elem_of_nil in Hb. Qed.

Lemma take_single_flow_witness :
  exists c', take_outgoing_run at_t1 ctx_t1 = (Ok tt, c')
    /\ cc_agenda c' = [ContinueProcess branch1].
Proof.
  destruct (take_single_flow sample2 (FEUserTask (activity "t1" [h2] [h4])) at_t1 "t1" ctx_t1
    [root2] [h4] ctx_t1_wf (written_self at_t1 _)
    (stands_on_sample2 at_t1 "t1" (FEUserTask (activity "t1" [h2] [h4])) eq_refl eq_refl eq_refl)
    eq_refl) with (f := h4) (b := false) (t := "pjoin") as (c' & Hc & _ & _ & Ha & _).
  - apply chain_top; [vm_compute; reflexivity|reflexivity].
  - reflexivity.
  - apply no_boundary. reflexivity.
  - reflexivity.
  - reflexivity.
  - vm_compute. reflexivity.
  - reflexivity.
  - reflexivity.
  - exists c'. split; [exact Hc|]. rewrite Ha. reflexivity.
Defined.

Lemma selection_error_changes_nothing_witness :
  exists err c', take_outgoing_run at_x1 (ctx3 at_x1) = (Err (Raised err), c')
    /\ tokens c' = tokens (ctx3 at_x1).
Proof.
  destruct (selection_error_changes_nothing sample3 x1 at_x1 "x1" (ctx3 at_x1) [root3] [k3])
    with (err := ExecutionError
       [Lit "No outgoing sequence flow of the exclusive gateway '"; Lit "x1";
        Lit "' could be selected for continuing execution "; Lit "e-x"]) as (c' & Hc & Ht & _).
  - apply ctx3_wf; [reflexivity|discriminate].
  - apply written_self.
  - apply stands_on_sample3; reflexivity.
  - reflexivity.
  - apply scopes3; [discriminate|reflexivity].
  - reflexivity.
  - apply no_boundary. reflexivity.
  - reflexivity.
  - reflexivity.
  - vm_compute. reflexivity.
  - eexists _, c'. split; [exact Hc|exact Ht].
Defined.

Lemma take_several_flows_witness :
  exists c', take_outgoing_run at_m1 (ctx3 at_m1) = (Ok tt, c') /\ length (cc_agenda c') = 2.
Proof.
  destruct (take_several_flows sample3 m1 at_m1 "m1" (ctx3 at_m1) [root3] [k1; k2])
    with (flows := [(k1, true); (k2, true)]) as (c' & Hc & _ & Ha & _).
  - apply ctx3_wf; [reflexivity|discriminate].
  - apply written_self.
  - apply stands_on_sample3; reflexivity.
  - reflexivity.
  - apply scopes3; [discriminate|reflexivity].
  - reflexivity.
  - apply no_boundary. reflexivity.
  - reflexivity.
  - reflexivity.
  - vm_compute. reflexivity.
  - vm_compute. lia.
  - repeat constructor.
  - exists c'. split; [exact Hc|]. rewrite Ha. reflexivity.
Defined.

Lemma take_no_flow_witness :
  exists c', take_outgoing_run at_z1 (ctx3 at_z1) = (Ok tt, c')
    /\ tokens c' = delete "e-z" (tokens (ctx3 at_z1)).
Proof.
  destruct (take_no_flow sample3 z1 at_z1 "z1" (ctx3 at_z1) [root3] []) as (c' & Hc & _ & Ht & _).
  - apply ctx3_wf; [reflexivity|discriminate].
  - apply written_self.
  - apply stands_on_sample3; reflexivity.
  - reflexivity.
  - apply scopes3; [discriminate|reflexivity].
  - reflexivity.
  - apply no_boundary. reflexivity.
  - reflexivity.
  - reflexivity.
  - vm_compute. reflexivity.
  - reflexivity.
  - reflexivity.
  - exists c'. split; [exact Hc|exact Ht].
Defined.

Lemma at_m1_facts :
  context_wf (ctx3 at_m1) /\ usable (ctx3 at_m1) "e-m"
  /\ Forall (fun fb : SequenceFlow * bool => no_flow_listeners fb.1) [(k1, true); (k2, true)].
Proof.
  split_and!; [by apply ctx3_wf|by apply sample_usable|by repeat constructor].
Qed.

Lemma split_creates_children_witness :
  exists c', split_several at_m1 [(k1, true); (k2, true)] (ctx3 at_m1) = (Ok tt, c')
    /\ length (cc_agenda c') = 2.
Proof.
  destruct at_m1_facts as (H1 & H2 & H3).
  destruct (split_creates_children at_m1 [(k1, true); (k2, true)] (ctx3 at_m1) H1 H2 H3)
    as (c' & Hc & _ & Ha & _).
  exists c'. split; [exact Hc|]. rewrite Ha. reflexivity.
Defined.

Lemma split_orphans_children_witness :
  exists c', split_several at_m1 [(k1, true); (k2, true)] (ctx3 at_m1) = (Ok tt, c')
    /\ tokens c' !! "e-m" = None.
Proof.
  destruct at_m1_facts as (H1 & H2 & H3).
  destruct (split_orphans_children at_m1 [(k1, true); (k2, true)] (ctx3 at_m1) H1 H2 H3)
    as (c' & Hc & Hx).
  - exact (ex_intro _ at_m1 (written_self at_m1 _)).
  - reflexivity.
  - exists c'. split; [exact Hc|].
    destruct (Hx (set_activity_id (Some "e1") (split_child at_m1 "e-m" "uuid-0" true)))
      as (_ & _ & Hn); [left|exact Hn].
Defined.
