(* ===== verification/FeelLexer.v ===== *)
(** * FEEL: tokens, syntax trees and errors

    Models [flowable-dmn-engine/src/feel/token.rs], [feel/ast.rs] and
    [error.rs]: the data the lexer, the parser and the evaluator exchange. *)
From Stdlib Require Import Ascii Sorted.
From S2P Require Import Prelude Chars Float64 Json Errors.

(** ** [token.rs] *)
Inductive TokenKind : Type :=
| TNumber (value : f64)
| TString (value : string)
| TName (name : string)
| TNull | TTrue | TFalse
| TIf | TThen | TElse | TFor | TReturn | TSome | TEvery | TSatisfies | TIn
| TAnd | TOr | TNot
| TPlus | TMinus | TStar | TSlash | TPower
| TEqual | TNotEqual | TLess | TLessEqual | TGreater | TGreaterEqual
| TLParen | TRParen | TLBracket | TRBracket | TLBrace | TRBrace
| TComma | TColon | TDot | TDotDot
| TEof.

Record Token := {
  kind : TokenKind;
  start : nat;
  end_ : nat
}.

(** ** [ast.rs] *)
Inductive UnaryOp : Type := Negate | Not.

Inductive BinaryOp : Type :=
| Add | Subtract | Multiply | Divide | Power | And | Or
| Equal | NotEqual | Less | LessEqual | Greater | GreaterEqual | In.

Inductive Expr : Type :=
| ENull
| EBool (value : bool)
| ENumber (value : f64)
| EString (value : string)
| EName (name : string)
| EList (items : list Expr)
| EContext (entries : list (string * Expr))
| ERange (start_ end_ : Expr) (start_inclusive end_inclusive : bool)
| EUnary (op : UnaryOp) (expr : Expr)
| EBinary (op : BinaryOp) (left_ right_ : Expr)
| EIf (condition then_expr else_expr : Expr)
| EPath (target : Expr) (key : string)
| EFilter (target predicate : Expr)
| ECall (name : string) (args : list Expr)
| EFor (variable : string) (input body : Expr)
| EQuantified (every : bool) (variable : string) (input predicate : Expr).

(** Induction through the element lists and the context entries. *)
Section ExprInduction.
Context (P : Expr -> Prop).
Context (HNull : P ENull) (HBool : forall b, P (EBool b)) (HNumber : forall v, P (ENumber v))
  (HString : forall s, P (EString s)) (HName : forall n, P (EName n))
  (HList : forall l, Forall P l -> P (EList l))
  (HContext : forall l, Forall (fun kv => P kv.2) l -> P (EContext l))
  (HRange : forall a b i j, P a -> P b -> P (ERange a b i j))
  (HUnary : forall op e, P e -> P (EUnary op e))
  (HBinary : forall op a b, P a -> P b -> P (EBinary op a b))
  (HIf : forall c t e, P c -> P t -> P e -> P (EIf c t e))
  (HPath : forall t k, P t -> P (EPath t k))
  (HFilter : forall t p, P t -> P p -> P (EFilter t p))
  (HCall : forall n l, Forall P l -> P (ECall n l))
  (HFor : forall x i b, P i -> P b -> P (EFor x i b))
  (HQuantified : forall q x i p, P i -> P p -> P (EQuantified q x i p)).

Fixpoint Expr_nested_ind (e : Expr) : P e :=
  let fix all (l : list Expr) : Forall P l :=
    match l with
    | [] => List.Forall_nil P
    | x :: l => List.Forall_cons P x l (Expr_nested_ind x) (all l)
    end in
  match e with
  | ENull => HNull
  | EBool b => HBool b
  | ENumber v => HNumber v
  | EString s => HString s
  | EName n => HName n
  | EList l => HList l (all l)
  | EContext l =>
      HContext l
        ((fix entries (l : list (string * Expr)) : Forall (fun kv => P kv.2) l :=
            match l with
            | [] => List.Forall_nil _
            | kv :: l => List.Forall_cons _ kv l (Expr_nested_ind kv.2) (entries l)
            end) l)
  | ERange a b i j => HRange a b i j (Expr_nested_ind a) (Expr_nested_ind b)
  | EUnary op x => HUnary op x (Expr_nested_ind x)
  | EBinary op a b => HBinary op a b (Expr_nested_ind a) (Expr_nested_ind b)
  | EIf c t x => HIf c t x (Expr_nested_ind c) (Expr_nested_ind t) (Expr_nested_ind x)
  | EPath t k => HPath t k (Expr_nested_ind t)
  | EFilter t p => HFilter t p (Expr_nested_ind t) (Expr_nested_ind p)
  | ECall n l => HCall n l (all l)
  | EFor x i b => HFor x i b (Expr_nested_ind i) (Expr_nested_ind b)
  | EQuantified q x i p => HQuantified q x i p (Expr_nested_ind i) (Expr_nested_ind p)
  end.
End ExprInduction.

(** ** [error.rs] *)
Inductive DmnError : Type :=
| Validation (message : Message)
| UnsupportedModel (feature : string) (message : Message)
| DmnNotFound (message : Message)
| DmnExecution (message : Message)
| DmnStorage (message : Message).

Definition dmn_display (e : DmnError) : Message :=
  match e with
  | Validation m | DmnNotFound m | DmnExecution m | DmnStorage m => m
  | UnsupportedModel feature m =>
      [Lit "Unsupported DMN "; Lit feature; Lit ": "] ++ m
  end.

(** ** FEEL: the lexer

    Models [flowable-dmn-engine/src/feel/lexer.rs].  The source's vector
    [chars] of byte offsets and characters is [char_indices source]; the
    position [index] of the loop is the suffix [chars[index..]], so
    [chars.get(index + 1)] is the second element of the suffix and the
    offset after a lexeme is [byte_at] of the suffix behind it.  The outer
    loop runs on fuel, one unit per turn. *)

(** [str::char_indices]. *)
Fixpoint char_indices_from (byte : nat) (cs : list Z) : list (nat * Z) :=
  match cs with
  | [] => []
  | c :: cs => (byte, c) :: char_indices_from (byte + len_utf8 c) cs
  end.

Definition char_indices (source : string) : list (nat * Z) :=
  char_indices_from 0 (chars source).

Definition char (a : ascii) : Z := byte_of a.

Definition head_is (c : Z) (rest : list (nat * Z)) : bool :=
  match rest with (_, c') :: _ => (c =? c')%Z | [] => false end.

(** [chars.get(index).map(|(byte, _)| *byte).unwrap_or(source.len())]. *)
Definition byte_at (len : nat) (rest : list (nat * Z)) : nat :=
  match rest with (b, _) :: _ => b | [] => len end.

(** ** Numbers: [str::parse::<f64>] on digits and dots *)
Definition digits_nat (cs : list Z) : Z :=
  fold_left (fun acc c => acc * 10 + (c - 48))%Z cs 0%Z.

Fixpoint split_dot (cs : list Z) : list Z * option (list Z) :=
  match cs with
  | [] => ([], None)
  | c :: cs' =>
      if (c =? 46)%Z then ([], Some cs')
      else let '(a, b) := split_dot cs' in (c :: a, b)
  end.

(** A literal of the lexer starts with a digit and holds digits and dots;
    Rust reads it when it has at most one dot. *)
Definition parse_f64 (cs : list Z) : option f64 :=
  match split_dot cs with
  | (a, None) => Some (f64_of_decimal (digits_nat a) 0)
  | (a, Some b) =>
      if forallb is_ascii_digit b
      then Some (f64_of_decimal (digits_nat (a ++ b)) (- Z.of_nat (length b)))
      else None
  end.

Section Lexer.
Context `{Unicode}.

Definition is_alphabetic (c : Z) : bool :=
  if (c <? 128)%Z then is_ascii_alphabetic c else unicode_alphabetic c.
Definition is_alphanumeric (c : Z) : bool :=
  if (c <? 128)%Z then is_ascii_alphabetic c || is_ascii_digit c
  else unicode_alphabetic c || unicode_numeric c.

Definition is_name_start (c : Z) : bool := (c =? char "_")%Z || is_alphabetic c.
Definition is_name_continue (c : Z) : bool :=
  (c =? char "_")%Z || (c =? char "-")%Z || is_alphanumeric c.

(** The scan of a name: [while end_index < chars.len() && is_name_continue(..)]. *)
Fixpoint scan_name (rest : list (nat * Z)) : list Z * list (nat * Z) :=
  match rest with
  | (b, c) :: rest' =>
      if is_name_continue c
      then let '(w, r) := scan_name rest' in (c :: w, r)
      else ([], rest)
  | [] => ([], [])
  end.

(** The scan of a number: digits and dots, stopping before [..]. *)
Fixpoint scan_number (rest : list (nat * Z)) : list Z * list (nat * Z) :=
  match rest with
  | (b, c) :: rest' =>
      if is_ascii_digit c || (c =? char ".")%Z then
        if (c =? char ".")%Z && head_is (char ".") rest' then ([], rest)
        else let '(w, r) := scan_number rest' in (c :: w, r)
      else ([], rest)
  | [] => ([], [])
  end.

Definition escape (c : Z) : Z :=
  if (c =? char "n")%Z then 10%Z
  else if (c =? char "r")%Z then 13%Z
  else if (c =? char "t")%Z then 9%Z
  else c.

(** The scan of a string literal after its opening quote. *)
Fixpoint scan_string (start : nat) (quote : Z) (value : list Z) (rest : list (nat * Z))
  : result DmnError (list Z * list (nat * Z)) :=
  match rest with
  | [] => Err (Validation [Lit "unterminated FEEL string at byte "; ShowInt (Z.of_nat start)])
  | (_, current) :: rest' =>
      if (current =? quote)%Z then Ok (value, rest')
      else if (current =? char "\")%Z then
        match rest' with
        | [] => Err (Validation [Lit "unterminated FEEL string escape"])
        | (_, escaped) :: rest'' =>
            scan_string start quote (value ++ [escape escaped]) rest''
        end
      else scan_string start quote (value ++ [current]) rest'
  end.

Definition word_kind (word : string) : TokenKind :=
  let w := to_ascii_lowercase word in
  if bool_decide (w = "null") then TNull
  else if bool_decide (w = "true") then TTrue
  else if bool_decide (w = "false") then TFalse
  else if bool_decide (w = "if") then TIf
  else if bool_decide (w = "then") then TThen
  else if bool_decide (w = "else") then TElse
  else if bool_decide (w = "for") then TFor
  else if bool_decide (w = "return") then TReturn
  else if bool_decide (w = "some") then TSome
  else if bool_decide (w = "every") then TEvery
  else if bool_decide (w = "satisfies") then TSatisfies
  else if bool_decide (w = "in") then TIn
  else if bool_decide (w = "and") then TAnd
  else if bool_decide (w = "or") then TOr
  else if bool_decide (w = "not") then TNot
  else TName word.

(** The symbol [ch] starts, given the character after it: its token kind
    and whether it is two characters long. *)
Definition symbol_kind (ch : Z) (rest : list (nat * Z)) : option (TokenKind * bool) :=
  if (ch =? char "(")%Z then Some (TLParen, false)
  else if (ch =? char ")")%Z then Some (TRParen, false)
  else if (ch =? char "[")%Z then Some (TLBracket, false)
  else if (ch =? char "]")%Z then Some (TRBracket, false)
  else if (ch =? char "{")%Z then Some (TLBrace, false)
  else if (ch =? char "}")%Z then Some (TRBrace, false)
  else if (ch =? char ",")%Z then Some (TComma, false)
  else if (ch =? char ":")%Z then Some (TColon, false)
  else if (ch =? char "+")%Z then Some (TPlus, false)
  else if (ch =? char "-")%Z then Some (TMinus, false)
  else if (ch =? char "*")%Z then
    Some (if head_is (char "*") rest then (TPower, true) else (TStar, false))
  else if (ch =? char "/")%Z then Some (TSlash, false)
  else if (ch =? char ".")%Z then
    Some (if head_is (char ".") rest then (TDotDot, true) else (TDot, false))
  else if (ch =? char "=")%Z then Some (TEqual, false)
  else if (ch =? char "!")%Z && head_is (char "=") rest then Some (TNotEqual, true)
  else if (ch =? char "<")%Z then
    Some (if head_is (char "=") rest then (TLessEqual, true) else (TLess, false))
  else if (ch =? char ">")%Z then
    Some (if head_is (char "=") rest then (TGreaterEqual, true) else (TGreater, false))
  else None.

Definition is_quote (c : Z) : bool := (c =? 34)%Z || (c =? 39)%Z.

(** One lexeme that starts at byte [start] with [ch]: the token and the
    suffix behind it. *)
Definition lex_token (len start : nat) (ch : Z) (rest : list (nat * Z))
  : result DmnError (Token * list (nat * Z)) :=
  match symbol_kind ch rest with
  | Some (k, true) => Ok ({| kind := k; start := start; end_ := start + 2 |}, tail rest)
  | Some (k, false) => Ok ({| kind := k; start := start; end_ := start + 1 |}, rest)
  | None =>
      if is_quote ch then
        '(value, rest') ← scan_string start ch [] rest;
        Ok ({| kind := TString (of_chars value); start := start; end_ := byte_at len rest' |},
            rest')
      else if is_ascii_digit ch then
        let '(w, rest') := scan_number rest in
        match parse_f64 (ch :: w) with
        | None =>
            Err (Validation [Lit "invalid FEEL number at byte "; ShowInt (Z.of_nat start)])
        | Some v =>
            Ok ({| kind := TNumber v; start := start; end_ := byte_at len rest' |}, rest')
        end
      else if is_name_start ch then
        let '(w, rest') := scan_name rest in
        Ok ({| kind := word_kind (of_chars (ch :: w)); start := start;
               end_ := byte_at len rest' |}, rest')
      else
        Err (Validation [Lit "unexpected FEEL character '"; Lit (of_chars [ch]);
                         Lit "' at byte "; ShowInt (Z.of_nat start)])
  end.

(** The [while] loop; [None] when the fuel is out. *)
Fixpoint lex_loop (fuel len : nat) (rest : list (nat * Z)) (tokens : list Token)
  : option (result DmnError (list Token)) :=
  match rest with
  | [] => Some (Ok (tokens ++ [{| kind := TEof; start := len; end_ := len |}]))
  | (start, ch) :: rest' =>
      match fuel with
      | 0 => None
      | S fuel =>
          if is_whitespace ch then lex_loop fuel len rest' tokens
          else match lex_token len start ch rest' with
               | Err e => Some (Err e)
               | Ok (t, rest'') => lex_loop fuel len rest'' (tokens ++ [t])
               end
      end
  end.

Definition lex (source : string) : option (result DmnError (list Token)) :=
  lex_loop (length (chars source)) (String.length source) (char_indices source) [].
End Lexer.

(** ** The lexical grammar

    What the lexer should accept, with no loop and no index: a source is a
    sequence of white space and lexemes, each as long as possible. *)
Definition bytes (cs : list Z) : nat := sum_list (len_utf8 <$> cs).

Definition next_is (c : Z) (cs : list Z) : bool :=
  match cs with c' :: _ => (c =? c')%Z | [] => false end.

Definition symbols : list (list Z * TokenKind) :=
  [([40], TLParen); ([41], TRParen); ([91], TLBracket); ([93], TRBracket);
   ([123], TLBrace); ([125], TRBrace); ([44], TComma); ([58], TColon);
   ([43], TPlus); ([45], TMinus); ([42; 42], TPower); ([42], TStar); ([47], TSlash);
   ([46; 46], TDotDot); ([46], TDot); ([61], TEqual); ([33; 61], TNotEqual);
   ([60; 61], TLessEqual); ([62; 61], TGreaterEqual); ([60], TLess); ([62], TGreater)]%Z.

(** A one-character symbol is not the start of a longer one. *)
Definition symbol_ends (k : TokenKind) (cs : list Z) : bool :=
  match k with
  | TStar => negb (next_is 42 cs)
  | TDot => negb (next_is 46 cs)
  | TLess | TGreater => negb (next_is 61 cs)
  | _ => true
  end.

(** The inside of a string literal and the text it stands for. *)
Inductive string_body (q : Z) : list Z -> list Z -> Prop :=
| body_nil : string_body q [] []
| body_char c b v :
    c ≠ q -> c ≠ 92%Z -> string_body q b v -> string_body q (c :: b) (c :: v)
| body_escape c b v :
    q ≠ 92%Z -> string_body q b v -> string_body q (92%Z :: c :: b) (escape c :: v).

(** Digits and dots, never up to a [..], up to the last possible one. *)
Inductive number_tail : list Z -> list Z -> Prop :=
| tail_end cs :
    (forall c cs', cs = c :: cs' -> is_ascii_digit c = false) ->
    (forall cs', cs = 46%Z :: cs' -> next_is 46 cs' = true) -> number_tail [] cs
| tail_digit c w cs : is_ascii_digit c = true -> number_tail w cs -> number_tail (c :: w) cs
| tail_dot w cs : next_is 46 (w ++ cs) = false -> number_tail w cs -> number_tail (46%Z :: w) cs.

Section Grammar.
Context `{Unicode}.

(** [lexeme k s cs]: before the characters [cs], [s] is a lexeme of kind [k]. *)
Inductive lexeme : TokenKind -> list Z -> list Z -> Prop :=
| lexeme_symbol s k cs : (s, k) ∈ symbols -> symbol_ends k cs = true -> lexeme k s cs
| lexeme_string q b v cs :
    is_quote q = true -> string_body q b v -> lexeme (TString (of_chars v)) (q :: b ++ [q]) cs
| lexeme_number c w cs v :
    is_ascii_digit c = true -> number_tail w cs -> parse_f64 (c :: w) = Some v ->
    lexeme (TNumber v) (c :: w) cs
| lexeme_word c w cs :
    is_name_start c = true -> Forall (fun x => is_name_continue x = true) w ->
    (forall x cs', cs = x :: cs' -> is_name_continue x = false) ->
    lexeme (word_kind (of_chars (c :: w))) (c :: w) cs.

(** [lexes b cs ts]: the characters [cs], which start at byte [b], are the
    tokens [ts]. *)
Inductive lexes : nat -> list Z -> list Token -> Prop :=
| lexes_eof b : lexes b [] [{| kind := TEof; start := b; end_ := b |}]
| lexes_space b c cs ts :
    is_whitespace c = true -> lexes (b + len_utf8 c) cs ts -> lexes b (c :: cs) ts
| lexes_token b k c s cs ts :
    is_whitespace c = false -> lexeme k (c :: s) cs -> lexes (b + bytes (c :: s)) cs ts ->
    lexes b ((c :: s) ++ cs) ({| kind := k; start := b; end_ := b + bytes (c :: s) |} :: ts).
End Grammar.

(** ** Characters and offsets *)
Lemma bytes_cons c cs : bytes (c :: cs) = len_utf8 c + bytes cs.
Proof. done. Qed.

Lemma bytes_app a b : bytes (a ++ b) = bytes a + bytes b.
Proof. induction a as [|c a IH]; [done|]. simpl. rewrite !bytes_cons, IH. lia. Qed.

Lemma len_utf8_pos c : 0 < len_utf8 c.
Proof. unfold len_utf8, char_bytes. repeat case_match; simpl; lia. Qed.

Lemma len_utf8_ascii c : (c < 128)%Z -> len_utf8 c = 1.
Proof. intros Hc. unfold len_utf8, char_bytes. by rewrite (proj2 (Z.ltb_lt c 128)). Qed.

Lemma next_is_true c cs : next_is c cs = true -> exists cs', cs = c :: cs'.
Proof. destruct cs as [|c' cs]; simpl; [done|]. intros ->%Z.eqb_eq. eauto. Qed.

Lemma head_is_from c b cs : head_is c (char_indices_from b cs) = next_is c cs.
Proof. by destruct cs. Qed.

Lemma byte_at_from b cs len : len = b + bytes cs -> byte_at len (char_indices_from b cs) = b.
Proof. intros ->. destruct cs; simpl; [|done]. unfold bytes. simpl. lia. Qed.

Lemma length_char_indices b cs : length (char_indices_from b cs) = length cs.
Proof. revert b. induction cs as [|c cs IH]; intros b; simpl; [done|]. by rewrite IH. Qed.

Lemma length_of_chars cs : String.length (of_chars cs) = bytes cs.
Proof.
  induction cs as [|c cs IH]; [done|]. rewrite bytes_cons, <- IH. simpl. unfold len_utf8.
  induction (char_bytes c) as [|x l IHl]; simpl; [done|]. by rewrite IHl.
Qed.

(** ** The scans follow the grammar *)
Section Scans.
Context `{Unicode}.

Lemma scan_name_sound b cs w r :
  scan_name (char_indices_from b cs) = (w, r) ->
  exists cs', cs = w ++ cs' /\ r = char_indices_from (b + bytes w) cs'
    /\ Forall (fun x => is_name_continue x = true) w
    /\ (forall x cs1, cs' = x :: cs1 -> is_name_continue x = false).
Proof.
  revert b w r. induction cs as [|c cs IH]; intros b w r; simpl.
  - intros [= <- <-]. exists []. split_and!; [done|done|constructor|done].
  - destruct (is_name_continue c) eqn:Ec.
    + destruct (scan_name _) as [w' r'] eqn:E. intros [= <- <-].
      destruct (IH _ _ _ E) as (cs' & -> & -> & Hw & Hn). exists cs'.
      rewrite bytes_cons, Nat.add_assoc. split_and!; [done|done|by constructor|done].
    + intros [= <- <-]. exists (c :: cs).
      split_and!; [done|by rewrite Nat.add_0_r|constructor|by intros x cs1 [= -> ->]].
Qed.

Lemma scan_name_complete b w cs :
  Forall (fun x => is_name_continue x = true) w ->
  (forall x cs', cs = x :: cs' -> is_name_continue x = false) ->
  scan_name (char_indices_from b (w ++ cs)) = (w, char_indices_from (b + bytes w) cs).
Proof.
  intros Hw Hn. revert b. induction Hw as [|c w Hc _ IH]; intros b; simpl.
  - rewrite Nat.add_0_r. destruct cs as [|x cs]; simpl; [done|]. by rewrite (Hn x cs).
  - rewrite Hc, IH, bytes_cons, Nat.add_assoc. done.
Qed.

Lemma scan_number_sound b cs w r :
  scan_number (char_indices_from b cs) = (w, r) ->
  exists cs', cs = w ++ cs' /\ r = char_indices_from (b + bytes w) cs' /\ number_tail w cs'.
Proof.
  revert b w r. induction cs as [|c cs IH]; intros b w r; simpl.
  - intros [= <- <-]. exists []. by split_and!; [| |constructor].
  - change (char ".") with 46%Z. rewrite head_is_from.
    destruct (is_ascii_digit c || (c =? 46)%Z) eqn:Ec.
    + destruct ((c =? 46)%Z && next_is 46 cs) eqn:Ed.
      * intros [= <- <-]. apply andb_prop in Ed as [Ed En]. exists (c :: cs).
        split_and!; [done|by rewrite Nat.add_0_r|]. apply Z.eqb_eq in Ed as ->.
        constructor; [by intros ? ? [= <- <-]|by intros ? [= <-]].
      * destruct (scan_number _) as [w' r'] eqn:E. intros [= <- <-].
        destruct (IH _ _ _ E) as (cs' & -> & -> & Hw). exists cs'.
        rewrite bytes_cons, Nat.add_assoc. split_and!; [done|done|].
        destruct (is_ascii_digit c) eqn:Eg; [by constructor|]. simpl in Ec.
        rewrite Ec in Ed. apply Z.eqb_eq in Ec as ->. by constructor.
    + intros [= <- <-]. apply orb_false_elim in Ec as [Eg Ed]. exists (c :: cs).
      split_and!; [done|by rewrite Nat.add_0_r|].
      constructor; [by intros ? ? [= -> ->]|by intros ? [= -> ->]].
Qed.

Lemma scan_number_complete b w cs :
  number_tail w cs ->
  scan_number (char_indices_from b (w ++ cs)) = (w, char_indices_from (b + bytes w) cs).
Proof.
  intros Hw. revert b. induction Hw as [cs Hd Hp|c w cs Hc _ IH|w cs Hn _ IH]; intros b; simpl.
  - rewrite Nat.add_0_r. destruct cs as [|c cs]; simpl; [done|]. change (char ".") with 46%Z.
    rewrite (Hd c cs), head_is_from by done. simpl.
    destruct (Z.eqb_spec c 46) as [->|]; simpl; [|done]. by rewrite (Hp cs).
  - change (char ".") with 46%Z. rewrite Hc, IH, bytes_cons, Nat.add_assoc. simpl.
    destruct (Z.eqb_spec c 46) as [->|]; [discriminate Hc|done].
  - change (char ".") with 46%Z. rewrite head_is_from, Hn, IH, bytes_cons, Nat.add_assoc. done.
Qed.

Lemma scan_string_sound st q acc b cs v r :
  scan_string st q acc (char_indices_from b cs) = Ok (v, r) ->
  exists body v' cs', cs = body ++ q :: cs' /\ v = acc ++ v' /\ string_body q body v'
    /\ r = char_indices_from (b + bytes (body ++ [q])) cs'.
Proof.
  revert acc b v r. induction cs as [cs IH] using (induction_ltof1 _ (@length Z)).
  unfold ltof in IH. intros acc b v r. destruct cs as [|c cs]; simpl; [done|].
  destruct (Z.eqb_spec c q) as [->|Hq].
  - intros [= <- <-]. exists [], [], cs. simpl. unfold bytes. simpl.
    rewrite app_nil_r, Nat.add_0_r. split_and!; [done|done|constructor|done].
  - change (char "\") with 92%Z. destruct (Z.eqb_spec c 92) as [->|Hb].
    + destruct cs as [|e cs]; simpl; [done|]. intros Hs.
      destruct (IH cs ltac:(simpl; lia) _ _ _ _ Hs) as (body & v' & cs' & -> & -> & Hb & ->).
      exists (92%Z :: e :: body), (escape e :: v'), cs'. simpl.
      rewrite !bytes_cons, <- app_assoc, !Nat.add_assoc.
      split_and!; [done|done|by constructor|done].
    + intros Hs.
      destruct (IH cs ltac:(simpl; lia) _ _ _ _ Hs) as (body & v' & cs' & -> & -> & Hbd & ->).
      exists (c :: body), (c :: v'), cs'. simpl.
      rewrite bytes_cons, <- app_assoc, !Nat.add_assoc.
      split_and!; [done|done|by constructor|done].
Qed.

Lemma scan_string_complete st q acc b body v cs :
  string_body q body v ->
  scan_string st q acc (char_indices_from b (body ++ q :: cs))
  = Ok (acc ++ v, char_indices_from (b + bytes (body ++ [q])) cs).
Proof.
  intros Hb. revert acc b. induction Hb as [|c body v Hq He _ IH|c body v Hq _ IH];
    intros acc b; [simpl..|].
  - rewrite Z.eqb_refl, app_nil_r. unfold bytes. simpl. by rewrite Nat.add_0_r.
  - change (char "\") with 92%Z. rewrite (proj2 (Z.eqb_neq c q)), (proj2 (Z.eqb_neq c 92)) by done.
    rewrite IH, bytes_cons, <- app_assoc, Nat.add_assoc. done.
  - assert (E : (92 =? q)%Z = false) by by apply Z.eqb_neq.
    simpl in E |- *. rewrite E. simpl. rewrite IH, !bytes_cons, <- app_assoc, !Nat.add_assoc. done.
Qed.
End Scans.

(** ** Symbols and lexemes *)
Section Lexemes.
Context `{Unicode}.

Lemma symbol_kind_sound ch b cs k two :
  symbol_kind ch (char_indices_from b cs) = Some (k, two) ->
  (ch < 128)%Z /\ k ≠ TEof
  /\ if two then exists c cs', cs = c :: cs' /\ (c < 128)%Z /\ ([ch; c], k) ∈ symbols
                             /\ symbol_ends k cs' = true
     else ([ch], k) ∈ symbols /\ symbol_ends k cs = true.
Proof.
  unfold symbol_kind. rewrite !head_is_from.
  repeat match goal with
  | |- context [(ch =? char ?a)%Z] =>
      destruct (Z.eqb_spec ch (char a)) as [->|_]; simpl;
      [try match goal with
           | |- context [next_is ?x cs] => destruct (next_is x cs) eqn:En
           end; try (intros [= <- <-])|]
  end; try done.
  all: try split_and!; try done.
  all: try (apply next_is_true in En as [cs' ->]; eexists _, cs').
  all: try split_and!; try done; try (simpl; change (char "=") with 61%Z in *;
    change (char "*") with 42%Z in *; change (char ".") with 46%Z in *; by rewrite ?En).
  all: apply list_elem_of_In; vm_compute; tauto.
Qed.

Lemma symbol_kind_complete b s k cs :
  (s, k) ∈ symbols -> symbol_ends k cs = true ->
  exists ch s', s = ch :: s' /\ (ch < 128)%Z
    /\ ((s' = [] /\ symbol_kind ch (char_indices_from b cs) = Some (k, false))
        \/ exists c, s' = [c] /\ (c < 128)%Z
             /\ symbol_kind ch (char_indices_from b (c :: cs)) = Some (k, true)).
Proof.
  intros Hin%list_elem_of_In He. simpl in Hin.
  repeat (destruct Hin as [[= <- <-]|Hin]; [eexists _, _; split_and!; [done|done|]|]); [..|done].
  all: try (right; eexists; split_and!; [done|done|]; done).
  all: left; split; [done|]; try done.
  all: unfold symbol_ends in He; apply negb_true_iff in He; unfold symbol_kind.
  all: rewrite !head_is_from; change (char "*") with 42%Z; change (char ".") with 46%Z;
    change (char "=") with 61%Z; rewrite He; reflexivity.
Qed.

Lemma symbol_kind_none ch rest :
  is_quote ch || is_ascii_digit ch || is_name_start ch = true -> symbol_kind ch rest = None.
Proof.
  intros Hc. unfold symbol_kind.
  repeat match goal with
  | |- context [(ch =? char ?a)%Z] =>
      destruct (Z.eqb_spec ch (char a)) as [->|_]; [vm_compute in Hc; discriminate Hc|]
  end. done.
Qed.

Lemma name_start_plain ch : is_name_start ch = true -> is_quote ch = false /\ is_ascii_digit ch = false.
Proof.
  intros Hn. destruct (Z.ltb_spec ch 128) as [Hlt|Hge].
  - unfold is_name_start, is_alphabetic in Hn. rewrite (proj2 (Z.ltb_lt _ _) Hlt) in Hn.
    unfold is_quote, is_ascii_digit, is_ascii_alphabetic, is_ascii_upper, is_ascii_lower in *.
    change (char "_") with 95%Z in Hn. lia.
  - unfold is_quote, is_ascii_digit. lia.
Qed.

Lemma lex_token_sound len b ch cs t r :
  len = b + bytes (ch :: cs) ->
  lex_token len b ch (char_indices_from (b + len_utf8 ch) cs) = Ok (t, r) ->
  exists k s cs', cs = s ++ cs' /\ r = char_indices_from (b + bytes (ch :: s)) cs'
    /\ t = {| kind := k; start := b; end_ := b + bytes (ch :: s) |}
    /\ lexeme k (ch :: s) cs'.
Proof.
  intros Hlen. unfold lex_token. destruct (symbol_kind _ _) as [[k []]|] eqn:Es.
  - apply symbol_kind_sound in Es as (Hch & _ & c & cs' & -> & Hc & Hin & He).
    simpl. intros [= <- <-]. exists k, [c], cs'.
    unfold bytes. simpl. rewrite !len_utf8_ascii, <- Nat.add_assoc by done.
    split_and!; [done|done|done|by constructor].
  - apply symbol_kind_sound in Es as (Hch & _ & Hin & He).
    intros [= <- <-]. exists k, [], cs. unfold bytes. simpl.
    rewrite !len_utf8_ascii by done. split_and!; [done|done|done|by constructor].
  - destruct (is_quote ch) eqn:Eq; [|destruct (is_ascii_digit ch) eqn:Ed;
      [|destruct (is_name_start ch) eqn:En]]; [..|done].
    + destruct (scan_string _ _ _ _) as [[v r']|] eqn:Ev; [|done]. intros [= <- <-].
      apply scan_string_sound in Ev as (body & v' & cs' & -> & -> & Hb & ->).
      exists (TString (of_chars v')), (body ++ [ch]), cs'. rewrite <- app_assoc.
      rewrite <- Nat.add_assoc, <- bytes_cons.
      split_and!; [done|done| |by constructor]. f_equal. apply byte_at_from. subst len.
      rewrite !bytes_cons, !bytes_app, !bytes_cons. change (bytes []) with 0. lia.
    + destruct (scan_number _) as [w r'] eqn:Ew.
      destruct (parse_f64 (ch :: w)) as [v|] eqn:Ev; [|done]. intros [= <- <-].
      apply scan_number_sound in Ew as (cs' & -> & -> & Hw). exists (TNumber v), w, cs'.
      rewrite <- Nat.add_assoc, <- bytes_cons.
      split_and!; [done|done| |by constructor]. f_equal. apply byte_at_from. subst len.
      rewrite !bytes_cons, bytes_app. lia.
    + destruct (scan_name _) as [w r'] eqn:Ew. intros [= <- <-].
      apply scan_name_sound in Ew as (cs' & -> & -> & Hw & Hn).
      exists (word_kind (of_chars (ch :: w))), w, cs'. rewrite <- Nat.add_assoc, <- bytes_cons.
      split_and!; [done|done| |by constructor]. f_equal. apply byte_at_from. subst len.
      rewrite !bytes_cons, bytes_app. lia.
Qed.
Lemma lex_token_complete len b ch k s cs :
  lexeme k (ch :: s) cs -> len = b + bytes (ch :: s ++ cs) ->
  lex_token len b ch (char_indices_from (b + len_utf8 ch) (s ++ cs))
  = Ok ({| kind := k; start := b; end_ := b + bytes (ch :: s) |},
        char_indices_from (b + bytes (ch :: s)) cs).
Proof.
  intros Hl Hlen. unfold lex_token. inversion Hl as
    [s0 k0 cs0 Hin He|q body v cs0 Hq Hb|c w cs0 v Hd Hw Hv|c w cs0 Hn Hw Hc]; simplify_eq.
  - apply (symbol_kind_complete (b + len_utf8 ch)) with (cs := cs) in Hin
      as (ch' & s' & [= <- <-] & Hch & [(-> & Hk)|(c & -> & Hc & Hk)]); [| |done].
    + simpl. rewrite Hk. unfold bytes. simpl. by rewrite len_utf8_ascii.
    + simpl in Hk |- *. rewrite Hk. unfold bytes. simpl.
      by rewrite !len_utf8_ascii, <- Nat.add_assoc.
  - rewrite symbol_kind_none by by rewrite Hq. rewrite Hq, <- app_assoc. simpl.
    rewrite (scan_string_complete b ch [] _ body v cs Hb). simpl.
    rewrite <- Nat.add_assoc, <- bytes_cons. rewrite byte_at_from; [done|].
    rewrite !bytes_cons, !bytes_app, !bytes_cons. change (bytes []) with 0. lia.
  - rewrite symbol_kind_none by (rewrite Hd; by destruct (is_quote ch)).
    destruct (is_quote ch) eqn:Eq.
    { unfold is_quote, is_ascii_digit in *. lia. }
    rewrite Hd, scan_number_complete, Hv by done.
    rewrite <- Nat.add_assoc, <- bytes_cons, byte_at_from; [done|].
    rewrite !bytes_cons, bytes_app. lia.
  - rewrite symbol_kind_none by (rewrite Hn; apply orb_true_r).
    destruct (name_start_plain ch Hn) as [-> ->].
    rewrite Hn, scan_name_complete by done.
    rewrite <- Nat.add_assoc, <- bytes_cons, byte_at_from; [done|].
    rewrite !bytes_cons, bytes_app. lia.
Qed.

Lemma lex_token_shorter len st ch rest t r :
  lex_token len st ch rest = Ok (t, r) -> length r <= length rest.
Proof.
  assert (Hs : forall q rest acc v r, scan_string st q acc rest = Ok (v, r) ->
    length r <= length rest).
  { clear. intros q rest. induction rest as [rest IH] using (induction_ltof1 _ (@length _)).
    unfold ltof in IH. intros acc v r. destruct rest as [|[b c] rest]; simpl; [done|].
    destruct (c =? q)%Z; [intros [= <- <-]; lia|]. destruct (c =? char "\")%Z.
    - destruct rest as [|[b' c'] rest]; [done|]. intros Hr.
      apply IH in Hr; simpl in *; lia.
    - intros Hr. apply IH in Hr; simpl in *; lia. }
  assert (Hn : forall rest w r, scan_name rest = (w, r) -> length r <= length rest).
  { clear. induction rest as [|[b c] rest IH]; intros w r; simpl; [by intros [= <- <-]|].
    destruct (is_name_continue c); [|intros [= <- <-]; simpl; lia].
    destruct (scan_name rest) eqn:E. intros [= <- <-]. specialize (IH _ _ eq_refl). lia. }
  assert (Hd : forall rest w r, scan_number rest = (w, r) -> length r <= length rest).
  { clear. induction rest as [|[b c] rest IH]; intros w r; simpl; [by intros [= <- <-]|].
    destruct (is_ascii_digit c || _); [|intros [= <- <-]; simpl; lia].
    destruct (_ && _); [intros [= <- <-]; simpl; lia|].
    destruct (scan_number rest) eqn:E. intros [= <- <-]. specialize (IH _ _ eq_refl). lia. }
  unfold lex_token. intros Hl. repeat case_match; simplify_eq; try lia; eauto.
  - destruct rest; simpl; lia.
  - destruct (scan_string _ _ _ _) as [[v r']|] eqn:E; simplify_eq/=. eauto.
Qed.

Lemma lex_loop_total fuel len rest acc :
  length rest <= fuel -> is_Some (lex_loop fuel len rest acc).
Proof.
  revert rest acc. induction fuel as [|fuel IH]; intros [|[b c] rest] acc; simpl;
    [eauto|lia|eauto|]. intros Hf.
  destruct (is_whitespace c); [apply IH; lia|].
  destruct (lex_token _ _ _ _) as [[t r]|e] eqn:E; [|eauto].
  apply lex_token_shorter in E. apply IH. lia.
Qed.

Lemma lex_loop_sound fuel len b cs acc ts :
  len = b + bytes cs -> lex_loop fuel len (char_indices_from b cs) acc = Some (Ok ts) ->
  exists ts', ts = acc ++ ts' /\ lexes b cs ts'.
Proof.
  revert b cs acc. induction fuel as [|fuel IH]; intros b [|c cs] acc Hlen; simpl; try done.
  1, 2: intros [= <-]; eexists; split; [done|]; subst len;
    change (bytes []) with 0; rewrite Nat.add_0_r; constructor.
  destruct (is_whitespace c) eqn:Ec.
  - intros (ts' & -> & Hts)%IH; [|rewrite Hlen, bytes_cons; lia].
    exists ts'. split; [done|by constructor].
  - destruct (lex_token _ _ _ _) as [[t r]|e] eqn:E; [|done].
    apply lex_token_sound in E as (k & s & cs' & -> & -> & -> & Hlx); [|done].
    intros (ts' & -> & Hts)%IH; [|rewrite Hlen, !bytes_cons, bytes_app; lia].
    eexists. rewrite <- app_assoc. split; [done|].
    by apply (lexes_token b k c s cs' ts').
Qed.

Lemma lex_loop_complete fuel len b cs acc ts :
  lexes b cs ts -> len = b + bytes cs -> length cs <= fuel ->
  lex_loop fuel len (char_indices_from b cs) acc = Some (Ok (acc ++ ts)).
Proof.
  intros Hts. revert fuel acc.
  induction Hts as [b|b c cs ts Hc _ IH|b k c s cs ts Hc Hl _ IH]; intros fuel acc Hlen Hf.
  - change (bytes []) with 0 in Hlen. rewrite Nat.add_0_r in Hlen. subst len. by destruct fuel.
  - simpl in Hf. destruct fuel as [|fuel]; [lia|]. simpl. rewrite Hc.
    apply IH; [rewrite Hlen, bytes_cons|]; lia.
  - simpl in Hf. destruct fuel as [|fuel]; [lia|]. simpl. rewrite Hc.
    rewrite (lex_token_complete _ _ _ _ _ _ Hl) by done.
    rewrite IH, <- app_assoc; [done| |rewrite length_app in Hf; lia].
    rewrite Hlen. simpl. rewrite !bytes_cons, bytes_app. lia.
Qed.
End Lexemes.

(** ** What the tokens look like *)
Section TokenShape.
Context `{Unicode}.

Lemma word_kind_shape w : word_kind w ≠ TEof /\ forall n, word_kind w = TName n -> n = w.
Proof.
  unfold word_kind. repeat case_bool_decide; try done. split; [done|]. by intros n [= <-].
Qed.

Lemma lexeme_not_eof k s cs : lexeme k s cs -> k ≠ TEof.
Proof.
  destruct 1 as [s k cs Hin _| | |c w cs]; try done; [|by apply word_kind_shape].
  intros ->. apply list_elem_of_In in Hin. simpl in Hin. intuition discriminate.
Qed.

Lemma lexes_structure b cs ts :
  lexes b cs ts ->
  exists init, ts = init ++ [{| kind := TEof; start := b + bytes cs; end_ := b + bytes cs |}]
    /\ Forall (fun t => kind t ≠ TEof /\ start t < end_ t) init
    /\ Forall (fun t => b <= start t) ts
    /\ StronglySorted (fun t u => end_ t <= start u) ts.
Proof.
  induction 1 as [b|b c cs ts Hc _ IH|b k c s cs ts Hc Hl _ IH].
  - exists []. change (bytes []) with 0. rewrite Nat.add_0_r. simpl.
    split_and!; [done|constructor|repeat constructor|repeat constructor].
  - destruct IH as (init & -> & Hi & Hb & Hs). exists init. rewrite bytes_cons, Nat.add_assoc.
    split_and!; [done|done| |done]. eapply Forall_impl; [exact Hb|]. simpl. lia.
  - destruct IH as (init & -> & Hi & Hb & Hs).
    pose proof (len_utf8_pos c) as Hp.
    eexists (_ :: init). rewrite bytes_app, Nat.add_assoc.
    split_and!; [done| | |].
    + constructor; [|done]. simpl. split; [by eapply lexeme_not_eof|].
      rewrite bytes_cons. lia.
    + constructor; [simpl; lia|]. eapply Forall_impl; [exact Hb|]. simpl. lia.
    + constructor; [done|]. eapply Forall_impl; [exact Hb|]. simpl. lia.
Qed.

(** Every name of the source is a run of name characters. *)
Lemma lexes_names b cs ts t n :
  lexes b cs ts -> Forall scalar cs -> t ∈ ts -> kind t = TName n ->
  exists c w, n = of_chars (c :: w) /\ is_name_start c = true
    /\ Forall (fun x => is_name_continue x = true) w /\ Forall scalar (c :: w).
Proof.
  induction 1 as [b|b c cs ts Hc _ IH|b k c s cs ts Hc Hl _ IH]; intros Hcs Ht Hn.
  - apply list_elem_of_singleton in Ht as ->. discriminate Hn.
  - apply IH; [by inversion Hcs|done|done].
  - apply Forall_app in Hcs as [Hsc Hcs].
    apply elem_of_cons in Ht as [->|Ht]; [|by apply IH]. simpl in Hn. subst k.
    inversion Hl as [s0 k0 cs0 Hin| | |c0 w cs0 Hst Hw]; simplify_eq.
    + apply list_elem_of_In in Hin. simpl in Hin. intuition discriminate.
    + exists c, s. split_and!; [|done..].
      by apply (proj2 (word_kind_shape (of_chars (c :: s)))).
Qed.
End TokenShape.

(** ** The lexer's contract *)
Section LexerContract.
Context `{Unicode}.

(** The lexer always ends: on every source the loop reaches its result
    (tokens or an error) within one turn per character. *)
Theorem lex_total (source : string) : exists r, lex source = Some r.
Proof. apply lex_loop_total. unfold char_indices. by rewrite length_char_indices. Qed.

Lemma lex_iff (cs : list Z) (ts : list Token) :
  Forall scalar cs -> lex (of_chars cs) = Some (Ok ts) <-> lexes 0 cs ts.
Proof.
  intros Hcs. unfold lex, char_indices. rewrite chars_of_chars, length_of_chars by done. split.
  - intros (ts' & -> & Hts)%lex_loop_sound; done.
  - intros Hts. by rewrite (lex_loop_complete _ _ _ _ [] ts Hts).
Qed.

(** C32: the lexer implements the lexical grammar.  On a source made of the
    characters [cs] it returns the tokens [ts] exactly when [cs] splits into
    white space and longest lexemes of those kinds at those byte offsets. *)
Theorem lex_correct (cs : list Z) (ts : list Token) :
  Forall scalar cs -> lex (of_chars cs) = Some (Ok ts) <-> lexes 0 cs ts.
Proof. apply lex_iff. Qed.

(** The tokens partition the source: each one but the last covers a
    non-empty span of bytes, the spans come in order without overlap, and the
    vector ends with its only [Eof], at the end of the source. *)
Theorem lex_spans (cs : list Z) (ts : list Token) :
  Forall scalar cs -> lex (of_chars cs) = Some (Ok ts) ->
  exists init, ts = init ++ [{| kind := TEof; start := bytes cs; end_ := bytes cs |}]
    /\ Forall (fun t => kind t ≠ TEof /\ start t < end_ t) init
    /\ StronglySorted (fun t u => end_ t <= start u) ts.
Proof.
  intros Hcs Hl. apply lex_iff in Hl; [|done].
  destruct (lexes_structure _ _ _ Hl) as (init & -> & Hi & _ & Hs). by exists init.
Qed.
End LexerContract.

(** ** Witnesses *)
Lemma scalars_ok cs :
  forallb (fun c => (0 <=? c) && (c <? 1114112))%Z cs = true -> Forall scalar cs.
Proof.
  induction cs as [|c cs IH]; simpl; [constructor|]. intros [Hc Hcs]%andb_prop.
  constructor; [unfold scalar; lia|by apply IH].
Qed.

Lemma lex_correct_witness :
  exists ts, lexes (H := ascii_only) 0 (chars "if a-b<=1.5 then 'x\n' else [0..9]") ts
    /\ length ts = 13.
Proof.
  eexists. split.
  - apply (lex_correct (H := ascii_only)); [apply scalars_ok; vm_compute; reflexivity|].
    vm_compute. reflexivity.
  - reflexivity.
Defined.

Lemma lex_spans_witness :
  exists ts init, lex (H := ascii_only) (of_chars (chars "x ** 2")) = Some (Ok ts)
    /\ ts = init ++ [{| kind := TEof; start := 6; end_ := 6 |}] /\ length init = 3.
Proof.
  eexists. 
  destruct (lex_spans (H := ascii_only) (chars "x ** 2") _
    ltac:(apply scalars_ok; vm_compute; reflexivity) ltac:(vm_compute; reflexivity))
    as (init & Hi & _).
  exists init. split; [vm_compute; reflexivity|]. split; [exact Hi|].
  apply (f_equal length) in Hi. rewrite length_app in Hi. simpl in Hi. lia.
Defined.
