(* ===== verification/FeelParser.v ===== *)
(** * FEEL: the parser

    Models [flowable-dmn-engine/src/feel/parser.rs], a recursive-descent
    parser over a token vector and a position.  Each method is a computation
    on the [Parser] record; indexing past the vector is a panic.  The
    recursion through [expression] and the loops run on fuel: [expression]
    has one unit per nesting level, a loop ([turns]) one per turn, and [parse]
    gives each as many as there are tokens. *)
From S2P Require Import Prelude Float64 Json Errors FeelLexer.

Record Parser := {
  tokens : list Token;
  position : nat
}.

Inductive ParseFailure : Type :=
| PRaised (e : DmnError)
| PPanicked
| PExhausted.

Definition P (A : Type) : Type := stM Parser ParseFailure A.

(** ** The cursor *)
Definition index_token (i : nat) : P Token := fun st =>
  match tokens st !! i with Some t => (Ok t, st) | None => (Err PPanicked, st) end.

Definition current : P Token := fun st => index_token (position st) st.

Definition previous : P Token := fun st => index_token (position st - 1) st.

Definition bump : P unit := fun st =>
  (Ok tt, if position st + 1 <? length (tokens st)
          then {| tokens := tokens st; position := position st + 1 |} else st).

Definition error {A} (message : string) : P A :=
  t ← current;
  throw (PRaised (Validation [Lit message; Lit " at byte "; ShowInt (Z.of_nat (start t))])).

Definition expect (predicate : TokenKind -> bool) (message : string) : P unit :=
  t ← current;
  if predicate (kind t) then bump else error message.

Definition name : P string :=
  t ← current;
  match kind t with
  | TName n => bump ;; mret n
  | _ => error "expected name"
  end.

(** The patterns of the source's [matches!]. *)
Definition is_then (k : TokenKind) : bool := match k with TThen => true | _ => false end.
Definition is_else (k : TokenKind) : bool := match k with TElse => true | _ => false end.
Definition is_in (k : TokenKind) : bool := match k with TIn => true | _ => false end.
Definition is_return (k : TokenKind) : bool := match k with TReturn => true | _ => false end.
Definition is_satisfies (k : TokenKind) : bool := match k with TSatisfies => true | _ => false end.
Definition is_every (k : TokenKind) : bool := match k with TEvery => true | _ => false end.
Definition is_rparen (k : TokenKind) : bool := match k with TRParen => true | _ => false end.
Definition is_lparen (k : TokenKind) : bool := match k with TLParen => true | _ => false end.
Definition is_rbracket (k : TokenKind) : bool := match k with TRBracket => true | _ => false end.
Definition is_rbrace (k : TokenKind) : bool := match k with TRBrace => true | _ => false end.
Definition is_colon (k : TokenKind) : bool := match k with TColon => true | _ => false end.
Definition is_comma (k : TokenKind) : bool := match k with TComma => true | _ => false end.
Definition is_dotdot (k : TokenKind) : bool := match k with TDotDot => true | _ => false end.
Definition is_eof (k : TokenKind) : bool := match k with TEof => true | _ => false end.
Definition is_range_end (k : TokenKind) : bool := is_rparen k || is_rbracket k.

(** The operators of the six binary levels, from [or] to [power]. *)
Definition operator (level : nat) (k : TokenKind) : option BinaryOp :=
  match level, k with
  | 1, TOr => Some Or
  | 2, TAnd => Some And
  | 3, TEqual => Some Equal
  | 3, TNotEqual => Some NotEqual
  | 3, TLess => Some Less
  | 3, TLessEqual => Some LessEqual
  | 3, TGreater => Some Greater
  | 3, TGreaterEqual => Some GreaterEqual
  | 3, TIn => Some In
  | 4, TPlus => Some Add
  | 4, TMinus => Some Subtract
  | 5, TStar => Some Multiply
  | 5, TSlash => Some Divide
  | 6, TPower => Some Power
  | _, _ => None
  end.

(** ** The productions, over the recursive call [expression] *)
Section Productions.
Context (turns : nat) (expression : P Expr).

(** [loop { args.push(self.expression()?); if !Comma { break }; bump }]. *)
Fixpoint args_loop (n : nat) (args : list Expr) : P (list Expr) :=
  match n with
  | 0 => throw PExhausted
  | S n =>
      a ← expression;
      t ← current;
      if is_comma (kind t) then bump ;; args_loop n (args ++ [a])
      else mret (args ++ [a])
  end.

Fixpoint values_loop (n : nat) (values : list Expr) : P (list Expr) :=
  match n with
  | 0 => throw PExhausted
  | S n =>
      t ← current;
      if is_comma (kind t) then bump ;; v ← expression; values_loop n (values ++ [v])
      else mret values
  end.

Definition list_or_range : P Expr :=
  bump ;;
  t ← current;
  if is_rbracket (kind t) then bump ;; mret (EList [])
  else
    first ← expression;
    t ← current;
    if is_dotdot (kind t) then
      bump ;;
      end_ ← expression;
      t ← current;
      let inclusive := is_rbracket (kind t) in
      expect is_range_end "expected range terminator" ;;
      mret (ERange first end_ true inclusive)
    else
      values ← values_loop turns [first];
      expect is_rbracket "expected ']'" ;;
      mret (EList values).

Fixpoint entries_loop (n : nat) (entries : list (string * Expr)) : P (list (string * Expr)) :=
  match n with
  | 0 => throw PExhausted
  | S n =>
      t ← current;
      key ← match kind t with
            | TName name | TString name => bump ;; mret name
            | _ => error "expected context key"
            end;
      expect is_colon "expected ':'" ;;
      value ← expression;
      t ← current;
      if is_comma (kind t) then bump ;; entries_loop n (entries ++ [(key, value)])
      else mret (entries ++ [(key, value)])
  end.

Definition context_ : P Expr :=
  bump ;;
  t ← current;
  entries ← (if is_rbrace (kind t) then mret [] else entries_loop turns []);
  expect is_rbrace "expected '}'" ;;
  mret (EContext entries).

Definition primary : P Expr :=
  t ← current;
  match kind t with
  | TNull => bump ;; mret ENull
  | TTrue => bump ;; mret (EBool true)
  | TFalse => bump ;; mret (EBool false)
  | TNumber value => bump ;; mret (ENumber value)
  | TString value => bump ;; mret (EString value)
  | TName name =>
      bump ;;
      t ← current;
      if is_lparen (kind t) then
        bump ;;
        t ← current;
        args ← (if is_rparen (kind t) then mret [] else args_loop turns []);
        expect is_rparen "expected ')'" ;;
        mret (ECall name args)
      else mret (EName name)
  | TLParen =>
      bump ;;
      start_ ← expression;
      t ← current;
      if is_dotdot (kind t) then
        bump ;;
        end_ ← expression;
        expect is_range_end "expected range terminator" ;;
        p ← previous;
        mret (ERange start_ end_ false (is_rbracket (kind p)))
      else
        expect is_rparen "expected ')'" ;;
        mret start_
  | TLBracket => list_or_range
  | TLBrace => context_
  | _ => error "expected FEEL expression"
  end.

Fixpoint postfix_loop (n : nat) (expression_ : Expr) : P Expr :=
  match n with
  | 0 => throw PExhausted
  | S n =>
      t ← current;
      match kind t with
      | TDot => bump ;; key ← name; postfix_loop n (EPath expression_ key)
      | TLBracket =>
          bump ;;
          predicate ← expression;
          expect is_rbracket "expected ']'" ;;
          postfix_loop n (EFilter expression_ predicate)
      | _ => mret expression_
      end
  end.

Definition postfix : P Expr :=
  e ← primary;
  postfix_loop turns e.

Fixpoint unary (n : nat) : P Expr :=
  match n with
  | 0 => throw PExhausted
  | S n =>
      t ← current;
      match kind t with
      | TMinus => bump ;; e ← unary n; mret (EUnary Negate e)
      | TNot => bump ;; e ← unary n; mret (EUnary Not e)
      | _ => postfix
      end
  end.

Fixpoint binary_loop (operand : P Expr) (level n : nat) (left_ : Expr) : P Expr :=
  match n with
  | 0 => throw PExhausted
  | S n =>
      t ← current;
      match operator level (kind t) with
      | Some op =>
          bump ;;
          right_ ← operand;
          binary_loop operand level n (EBinary op left_ right_)
      | None => mret left_
      end
  end.

Definition binary (operand : P Expr) (level : nat) : P Expr :=
  left_ ← operand;
  binary_loop operand level turns left_.

Definition power : P Expr := binary (unary turns) 6.
Definition multiplicative : P Expr := binary power 5.
Definition additive : P Expr := binary multiplicative 4.
Definition comparison : P Expr := binary additive 3.
Definition and_ : P Expr := binary comparison 2.
Definition or_ : P Expr := binary and_ 1.

Definition if_expression : P Expr :=
  bump ;;
  condition ← expression;
  expect is_then "expected 'then'" ;;
  then_expr ← expression;
  expect is_else "expected 'else'" ;;
  else_expr ← expression;
  mret (EIf condition then_expr else_expr).

Definition for_expression : P Expr :=
  bump ;;
  variable ← name;
  expect is_in "expected 'in'" ;;
  input ← or_;
  expect is_return "expected 'return'" ;;
  body ← expression;
  mret (EFor variable input body).

Definition quantified_expression : P Expr :=
  t ← current;
  let every := is_every (kind t) in
  bump ;;
  variable ← name;
  expect is_in "expected 'in'" ;;
  input ← or_;
  expect is_satisfies "expected 'satisfies'" ;;
  predicate ← expression;
  mret (EQuantified every variable input predicate).

Definition expression_body : P Expr :=
  t ← current;
  match kind t with
  | TIf => if_expression
  | TFor => for_expression
  | TSome | TEvery => quantified_expression
  | _ => or_
  end.
End Productions.

Fixpoint expression (turns fuel : nat) : P Expr :=
  match fuel with
  | 0 => throw PExhausted
  | S fuel => expression_body turns (expression turns fuel)
  end.

(** [parse] after the parser is built: one expression, then [Eof]. *)
Definition whole_expression (turns : nat) : P Expr :=
  e ← expression turns turns;
  t ← current;
  if is_eof (kind t) then mret e
  else error "unexpected token after expression".

Definition parse (tokens : list Token) : result ParseFailure Expr :=
  (whole_expression (length tokens) {| tokens := tokens; position := 0 |}).1.
