(* ===== verification/FeelGrammar.v ===== *)
(** * FEEL: the grammar and the parser's correctness

    [derives k ts e] is the expression grammar as a relation: the token
    kinds [ts] form a phrase of level [k] with syntax tree [e].  Level 0 is
    [expression], 1 to 6 are the binary levels from [or] to [power], 7 is
    [unary], 8 [postfix] and 9 [primary].  The parser of [FeelParser]
    decides this relation. *)
From S2P Require Import Prelude Float64 Json Errors FeelLexer FeelParser.

Definition key_of (k : TokenKind) : option string :=
  match k with TName n | TString n => Some n | _ => None end.

(** The infix operators with their levels. *)
Inductive infix : nat -> TokenKind -> BinaryOp -> Prop :=
| infix_or : infix 1 TOr Or
| infix_and : infix 2 TAnd And
| infix_equal : infix 3 TEqual Equal
| infix_not_equal : infix 3 TNotEqual NotEqual
| infix_less : infix 3 TLess Less
| infix_less_equal : infix 3 TLessEqual LessEqual
| infix_greater : infix 3 TGreater Greater
| infix_greater_equal : infix 3 TGreaterEqual GreaterEqual
| infix_in : infix 3 TIn In
| infix_add : infix 4 TPlus Add
| infix_subtract : infix 4 TMinus Subtract
| infix_multiply : infix 5 TStar Multiply
| infix_divide : infix 5 TSlash Divide
| infix_power : infix 6 TPower Power.

Inductive derives : nat -> list TokenKind -> Expr -> Prop :=
| d_up k ts e : k < 9 -> derives (S k) ts e -> derives k ts e
| d_if c ec t et l el :
    derives 0 c ec -> derives 0 t et -> derives 0 l el ->
    derives 0 (TIf :: c ++ TThen :: t ++ TElse :: l) (EIf ec et el)
| d_for x i ei b eb :
    derives 1 i ei -> derives 0 b eb ->
    derives 0 (TFor :: TName x :: TIn :: i ++ TReturn :: b) (EFor x ei eb)
| d_quantified (q : bool) x i ei p ep :
    derives 1 i ei -> derives 0 p ep ->
    derives 0 ((if q then TEvery else TSome) :: TName x :: TIn :: i ++ TSatisfies :: p)
      (EQuantified q x ei ep)
| d_binary k t op l el r er :
    infix k t op -> derives k l el -> derives (S k) r er ->
    derives k (l ++ t :: r) (EBinary op el er)
| d_negate ts e : derives 7 ts e -> derives 7 (TMinus :: ts) (EUnary Negate e)
| d_not ts e : derives 7 ts e -> derives 7 (TNot :: ts) (EUnary Not e)
| d_path ts e key : derives 8 ts e -> derives 8 (ts ++ [TDot; TName key]) (EPath e key)
| d_filter ts e p ep :
    derives 8 ts e -> derives 0 p ep ->
    derives 8 (ts ++ TLBracket :: p ++ [TRBracket]) (EFilter e ep)
| d_null : derives 9 [TNull] ENull
| d_bool (b : bool) : derives 9 [if b then TTrue else TFalse] (EBool b)
| d_number v : derives 9 [TNumber v] (ENumber v)
| d_string s : derives 9 [TString s] (EString s)
| d_name n : derives 9 [TName n] (EName n)
| d_call_nil n : derives 9 [TName n; TLParen; TRParen] (ECall n [])
| d_call n ts es :
    derives_list ts es -> derives 9 (TName n :: TLParen :: ts ++ [TRParen]) (ECall n es)
| d_parens ts e : derives 0 ts e -> derives 9 (TLParen :: ts ++ [TRParen]) e
| d_range (si ei : bool) a ea b eb :
    derives 0 a ea -> derives 0 b eb ->
    derives 9 ((if si then TLBracket else TLParen) :: a ++ TDotDot :: b
               ++ [if ei then TRBracket else TRParen]) (ERange ea eb si ei)
| d_list_nil : derives 9 [TLBracket; TRBracket] (EList [])
| d_list ts es : derives_list ts es -> derives 9 (TLBracket :: ts ++ [TRBracket]) (EList es)
| d_context_nil : derives 9 [TLBrace; TRBrace] (EContext [])
| d_context ts es :
    derives_entries ts es -> derives 9 (TLBrace :: ts ++ [TRBrace]) (EContext es)
with derives_list : list TokenKind -> list Expr -> Prop :=
| dl_one ts e : derives 0 ts e -> derives_list ts [e]
| dl_cons ts e tss es :
    derives 0 ts e -> derives_list tss es -> derives_list (ts ++ TComma :: tss) (e :: es)
with derives_entries : list TokenKind -> list (string * Expr) -> Prop :=
| de_one k key ts e :
    key_of k = Some key -> derives 0 ts e -> derives_entries (k :: TColon :: ts) [(key, e)]
| de_cons k key ts e tss es :
    key_of k = Some key -> derives 0 ts e -> derives_entries tss es ->
    derives_entries (k :: TColon :: ts ++ TComma :: tss) ((key, e) :: es).

Scheme derives_mut := Induction for derives Sort Prop
with derives_list_mut := Induction for derives_list Sort Prop
with derives_entries_mut := Induction for derives_entries Sort Prop.

Create HintDb feel discriminated.
#[export] Hint Constructors derives derives_list derives_entries : feel.

Lemma operator_infix k t op : operator k t = Some op <-> infix k t op.
Proof.
  split; [|by destruct 1]. intros Ho.
  do 7 (destruct k as [|k]; [destruct t; simplify_eq/=; constructor|]). done.
Qed.

(** ** What is left to read *)
Definition view (st : Parser) : list TokenKind := drop (position st) (kind <$> tokens st).

(** The remaining tokens end with the only [Eof]. *)
Definition good (st : Parser) : Prop := exists l, view st = l ++ [TEof] /\ TEof ∉ l.

(** [eats st ts st']: from [st] to [st'] the parser has read [ts]. *)
Definition eats (st : Parser) (ts : list TokenKind) (st' : Parser) : Prop :=
  view st = ts ++ view st' /\ good st'.

(** A computation that neither panics nor runs out of fuel, and whose result
    satisfies [Φ] when it is not an error value. *)
Definition wp {A} (p : P A) (st : Parser) (Φ : A -> Parser -> Prop) : Prop :=
  match p st with
  | (Ok a, st') => Φ a st'
  | (Err (PRaised _), _) => True
  | (Err _, _) => False
  end.

Section Wp.
Lemma wp_bind {A B} (p : P A) (f : A -> P B) st Φ :
  wp p st (fun a st' => wp (f a) st' Φ) -> wp (p ≫= f) st Φ.
Proof.
  unfold wp, mbind, stM_bind. destruct (p st) as [[a|e] st']; [done|]. by destruct e.
Qed.

Lemma wp_ret {A} (a : A) st (Φ : A -> Parser -> Prop) : Φ a st -> wp (mret a) st Φ.
Proof. done. Qed.

Lemma wp_mono {A} (p : P A) st (Φ Ψ : A -> Parser -> Prop) :
  wp p st Φ -> (forall a st', Φ a st' -> Ψ a st') -> wp p st Ψ.
Proof. unfold wp. destruct (p st) as [[a|[]] st']; auto. Qed.

Lemma good_cons st : good st -> exists k l, view st = k :: l.
Proof. intros ([|k l] & -> & _); simpl; eauto. Qed.

Lemma view_lookup st k l : view st = k :: l ->
  exists t, tokens st !! position st = Some t /\ kind t = k.
Proof.
  unfold view. intros Hv. assert (Hk : (kind <$> tokens st) !! position st = Some k).
  { rewrite <- (Nat.add_0_r (position st)), <- lookup_drop, Hv. done. }
  apply list_lookup_fmap_Some in Hk as (t & ? & ->). eauto.
Qed.

Lemma wp_current st (Φ : Token -> Parser -> Prop) :
  good st -> (forall t l, view st = kind t :: l -> Φ t st) -> wp current st Φ.
Proof.
  intros (k & l & Hv)%good_cons HΦ. destruct (view_lookup _ _ _ Hv) as (t & Ht & <-).
  unfold wp, current, index_token. rewrite Ht. by eapply HΦ.
Qed.

Lemma wp_error {A} m st (Φ : A -> Parser -> Prop) : good st -> wp (error m) st Φ.
Proof. intros Hg. apply wp_bind, wp_current; [done|]. by intros. Qed.

Lemma bump_view st k k' l : view st = k :: k' :: l ->
  bump st = (Ok tt, {| tokens := tokens st; position := position st + 1 |})
  /\ view {| tokens := tokens st; position := position st + 1 |} = k' :: l.
Proof.
  unfold bump, view. simpl. intros Hv. rewrite <- drop_drop, Hv. split; [|done].
  apply (f_equal length) in Hv. rewrite length_drop, length_fmap in Hv. simpl in Hv.
  by rewrite (proj2 (Nat.ltb_lt _ _)) by lia.
Qed.

Lemma good_tail st st' k l : good st -> view st = k :: l -> view st' = l -> k ≠ TEof -> good st'.
Proof.
  intros ([|k1 l1] & Hv & Hn) Hk Hv' Hne; rewrite Hk in Hv; simplify_eq/=.
  exists l1. split; [done|]. set_solver.
Qed.

Lemma good_two st k l : good st -> view st = k :: l -> k ≠ TEof -> exists k' l', l = k' :: l'.
Proof.
  intros ([|k1 [|k2 l1]] & Hv & _) Hk Hne; rewrite Hk in Hv; simplify_eq/=; eauto.
Qed.

Lemma wp_bump st k l (Φ : unit -> Parser -> Prop) :
  good st -> view st = k :: l -> k ≠ TEof ->
  (forall st', eats st [k] st' -> Φ tt st') -> wp bump st Φ.
Proof.
  intros Hg Hv Hne HΦ. destruct (good_two _ _ _ Hg Hv Hne) as (k' & l' & ->).
  destruct (bump_view _ _ _ _ Hv) as [Hb Hv']. unfold wp. rewrite Hb. apply HΦ.
  split; [by rewrite Hv, Hv'|]. by eapply good_tail.
Qed.

Lemma wp_expect pred m st (Φ : unit -> Parser -> Prop) :
  good st -> pred TEof = false ->
  (forall k st', pred k = true -> eats st [k] st' -> Φ tt st') -> wp (expect pred m) st Φ.
Proof.
  intros Hg Hp HΦ. apply wp_bind, wp_current; [done|]. intros t l Hv.
  destruct (pred (kind t)) eqn:Ep; [|by apply wp_error].
  eapply wp_bump; [done..|congruence|]. eauto.
Qed.

(** The token [expect] has passed is the [previous] one. *)
Lemma wp_expect_previous pred m st (Φ : unit -> Parser -> Prop) :
  good st -> pred TEof = false ->
  (forall k st' p, pred k = true -> eats st [k] st' -> previous st' = (Ok p, st') ->
     kind p = k -> Φ tt st') ->
  wp (expect pred m) st Φ.
Proof.
  intros Hg Hp HΦ. apply wp_bind, wp_current; [done|]. intros t l Hv.
  destruct (pred (kind t)) eqn:Ep; [|by apply wp_error].
  assert (Hne : kind t ≠ TEof) by congruence.
  destruct (good_two _ _ _ Hg Hv Hne) as (k' & l' & ->).
  destruct (view_lookup _ _ _ Hv) as (t0 & Ht0 & Hk0).
  destruct (bump_view _ _ _ _ Hv) as [Hb Hv']. unfold wp. rewrite Hb.
  apply (HΦ (kind t) _ t0); [done|split| |done]; [by rewrite Hv, Hv'|by eapply good_tail|].
  unfold previous, index_token. simpl. by rewrite Nat.add_sub, Ht0.
Qed.

Lemma wp_name st (Φ : string -> Parser -> Prop) :
  good st -> (forall n st', eats st [TName n] st' -> Φ n st') -> wp name st Φ.
Proof.
  intros Hg HΦ. apply wp_bind, wp_current; [done|]. intros t l Hv.
  destruct (kind t) eqn:Ek; try by apply wp_error.
  apply wp_bind. eapply wp_bump; [done..|]. intros st' He. apply wp_ret. eauto.
Qed.

Lemma eats_nil st : good st -> eats st [] st.
Proof. by split. Qed.

Lemma eats_app st1 a st2 b st3 : eats st1 a st2 -> eats st2 b st3 -> eats st1 (a ++ b) st3.
Proof. intros [H1 _] [H2 Hg]. split; [|done]. by rewrite H1, H2, app_assoc. Qed.

Lemma eats_good st ts st' : eats st ts st' -> good st'.
Proof. by intros []. Qed.

Lemma eats_length st ts st' : eats st ts st' -> length (view st) = length ts + length (view st').
Proof. intros [-> _]. by rewrite length_app. Qed.

Lemma good_length st : good st -> 1 <= length (view st).
Proof. intros (l & -> & _). rewrite length_app. simpl. lia. Qed.
End Wp.

(** Finish [eats] goals by chaining the steps, and length goals by counting
    what each step has read. *)
Ltac chain := first [eassumption | eapply eats_app; [eassumption|chain]].
Ltac lens :=
  repeat match goal with
  | H : eats ?a ?b ?c |- _ =>
      let L := fresh "L" in let G := fresh "G" in
      pose proof (eats_length _ _ _ H) as L;
      pose proof (good_length _ (eats_good _ _ _ H)) as G;
      simpl in L; revert H
  end; intros; lia.

(** ** Soundness and totality of each production *)
Definition reads (k : nat) (st : Parser) (e : Expr) (st' : Parser) : Prop :=
  exists ts, ts ≠ [] /\ eats st ts st' /\ derives k ts e.

Lemma nonempty_pos {A} (l : list A) : l ≠ [] -> 1 <= length l.
Proof. destruct l; simpl; [done|lia]. Qed.

Lemma reads_up k st e st' : k < 9 -> reads (S k) st e st' -> reads k st e st'.
Proof. intros Hk (ts & Hn & He & Hd). exists ts. eauto with feel. Qed.

Section Sound.
Context (turns f : nat) (expr : P Expr).
Context (Hexpr : forall st, good st -> length (view st) <= f -> wp expr st (reads 0 st)).

Lemma wp_expr st (Φ : Expr -> Parser -> Prop) :
  good st -> length (view st) <= f ->
  (forall e ts st', 1 <= length ts -> eats st ts st' -> derives 0 ts e -> Φ e st') ->
  wp expr st Φ.
Proof.
  intros Hg Hl HΦ. eapply wp_mono; [by apply Hexpr|].
  intros e st' (ts & Hn%nonempty_pos & He & Hd). eauto.
Qed.

Lemma wp_args n acc st :
  good st -> length (view st) <= f -> length (view st) <= n ->
  wp (args_loop expr n acc) st (fun r st' =>
    exists ts es, r = acc ++ es /\ eats st ts st' /\ derives_list ts es).
Proof.
  revert acc st. induction n as [|n IH]; intros acc st Hg Hf Hn.
  { pose proof (good_length _ Hg). lia. }
  apply wp_bind, wp_expr; [done|done|]. intros a ts1 st1 Hts1 E1 D1.
  apply wp_bind, wp_current; [by eapply eats_good|]. intros t l Hv.
  destruct (kind t) eqn:Ek; try (apply wp_ret; exists ts1, [a]; eauto with feel).
  apply wp_bind. eapply wp_bump; [by eapply eats_good|done..|]. intros st2 E2.
  eapply wp_mono; [apply IH; [by eapply eats_good|lens|lens]|].
  intros r st3 (ts & es & -> & E3 & D3). eexists _, (a :: es).
  rewrite <- app_assoc. split_and!; [done|chain|by constructor].
Qed.

Lemma wp_values n acc st :
  good st -> length (view st) <= S f -> length (view st) <= n ->
  wp (values_loop expr n acc) st (fun r st' =>
    (r = acc /\ st' = st) \/
    exists ts es, r = acc ++ es /\ eats st (TComma :: ts) st' /\ derives_list ts es).
Proof.
  revert acc st. induction n as [|n IH]; intros acc st Hg Hf Hn.
  { pose proof (good_length _ Hg). lia. }
  apply wp_bind, wp_current; [done|]. intros t l Hv.
  destruct (kind t) eqn:Ek; try (apply wp_ret; by left).
  apply wp_bind. eapply wp_bump; [done..|]. intros st1 E1.
  apply wp_bind, wp_expr; [by eapply eats_good|lens|]. intros v ts2 st2 Hts2 E2 D2.
  eapply wp_mono; [apply IH; [by eapply eats_good|lens|lens]|].
  intros r st3 [[-> ->]|(ts & es & -> & E3 & D3)]; right.
  - exists ts2, [v]. split_and!; [done|by apply (eats_app _ [TComma] st1)|by constructor].
  - exists (ts2 ++ TComma :: ts), (v :: es). rewrite <- app_assoc.
    split_and!; [done| |by constructor].
    apply (eats_app _ [TComma] st1); [done|]. by apply (eats_app _ _ st2).
Qed.

Lemma wp_entries n acc st :
  good st -> length (view st) <= f -> length (view st) <= n ->
  wp (entries_loop expr n acc) st (fun r st' =>
    exists ts es, r = acc ++ es /\ eats st ts st' /\ derives_entries ts es).
Proof.
  revert acc st. induction n as [|n IH]; intros acc st Hg Hf Hn.
  { pose proof (good_length _ Hg). lia. }
  apply wp_bind, wp_current; [done|]. intros t l Hv. apply wp_bind.
  assert (Hkey : wp (match kind t with TName n0 | TString n0 => bump ;; mret n0
                     | _ => error "expected context key" end) st
           (fun key st1 => exists k, key_of k = Some key /\ eats st [k] st1)).
  { destruct (kind t) eqn:Ek; try by apply wp_error.
    all: apply wp_bind; eapply wp_bump; [done..|]; intros st1 E1; apply wp_ret.
    all: by exists (kind t); rewrite Ek. }
  eapply wp_mono; [exact Hkey|]. clear Hkey. intros key st1 (k & Hk & E1).
  apply wp_bind, wp_expect; [by eapply eats_good|done|]. intros k2 st2 Hk2 E2.
  destruct k2; try done.
  apply wp_bind, wp_expr; [by eapply eats_good|lens|]. intros v ts3 st3 Hts3 E3 D3.
  apply wp_bind, wp_current; [by eapply eats_good|]. intros t' l' Hv'.
  destruct (kind t') eqn:Ek;
    try (apply wp_ret; eexists _, [(key, v)]; split_and!; [done|chain|by apply de_one]).
  apply wp_bind. eapply wp_bump; [by eapply eats_good|done..|]. intros st4 E4.
  eapply wp_mono; [apply IH; [by eapply eats_good|lens|lens]|].
  intros r st5 (ts & es & -> & E5 & D5). eexists _, ((key, v) :: es).
  rewrite <- app_assoc. split_and!; [done|chain|by apply de_cons].
Qed.
Context (Hturns : S f <= turns).

Lemma wp_list_or_range st l :
  good st -> view st = TLBracket :: l -> length (view st) <= S f ->
  wp (list_or_range turns expr) st (reads 9 st).
Proof.
  intros Hg Hv Hf. apply wp_bind. eapply wp_bump; [done..|]. intros st1 E1.
  apply wp_bind, wp_current; [by eapply eats_good|]. intros t l1 Hv1.
  destruct (is_rbracket (kind t)) eqn:Er.
  { destruct (kind t) eqn:Ek; try done.
    apply wp_bind. eapply wp_bump; [by eapply eats_good|done..|]. intros st2 E2. apply wp_ret.
    eexists. split_and!; [|chain|apply d_list_nil]. done. }
  apply wp_bind, wp_expr; [by eapply eats_good|lens|]. intros e1 ts2 st2 Hts2 E2 D2.
  apply wp_bind, wp_current; [by eapply eats_good|]. intros t' l2 Hv2.
  destruct (is_dotdot (kind t')) eqn:Ed.
  - destruct (kind t') eqn:Ek; try done.
    apply wp_bind. eapply wp_bump; [by eapply eats_good|done..|]. intros st3 E3.
    apply wp_bind, wp_expr; [by eapply eats_good|lens|]. intros e2 ts4 st4 Hts4 E4 D4.
    apply wp_bind, wp_current; [by eapply eats_good|]. intros t'' l4 Hv4.
    apply wp_bind, wp_expect; [by eapply eats_good|done|]. intros k st5 Hk E5. apply wp_ret.
    assert (kind t'' = k) as -> by (destruct E5 as [E5 _]; rewrite Hv4 in E5; by simplify_eq/=).
    eexists. split_and!; [|chain|]; [done|].
    pose proof (d_range true (is_rbracket k) _ _ _ _ D2 D4) as HR. by destruct k.
  - apply wp_bind. eapply wp_mono; [apply wp_values; [by eapply eats_good|lens|lens]|].
    intros r st3 Hr. apply wp_bind, wp_expect; [|done|].
    { destruct Hr as [[_ ->]|(? & ? & _ & E3 & _)]; by eapply eats_good. }
    intros k st4 Hk E4. destruct k; try done. apply wp_ret.
    destruct Hr as [[-> ->]|(ts & es & -> & E3 & D3)].
    + eexists. split_and!; [|chain|apply d_list; by constructor]. done.
    + pose proof (eats_app _ _ _ _ _ E2 E3) as E23. clear E2 E3.
      eexists. split_and!; [|chain|apply d_list; by constructor]. done.
Qed.

Lemma wp_context st l :
  good st -> view st = TLBrace :: l -> length (view st) <= S f ->
  wp (context_ turns expr) st (reads 9 st).
Proof.
  intros Hg Hv Hf. apply wp_bind. eapply wp_bump; [done..|]. intros st1 E1.
  apply wp_bind, wp_current; [by eapply eats_good|]. intros t l1 Hv1. apply wp_bind.
  destruct (is_rbrace (kind t)) eqn:Er.
  - apply wp_ret, wp_bind, wp_expect; [by eapply eats_good|done|]. intros k st2 Hk E2.
    destruct k; try done. apply wp_ret. eexists. split_and!; [|chain|apply d_context_nil]. done.
  - eapply wp_mono; [apply wp_entries; [by eapply eats_good|lens|lens]|].
    intros r st2 (ts & es & -> & E2 & D2).
    apply wp_bind, wp_expect; [by eapply eats_good|done|]. intros k st3 Hk E3.
    destruct k; try done. apply wp_ret.
    eexists. split_and!; [|chain|by apply d_context]. done.
Qed.

Lemma wp_name_or_call st n l :
  good st -> view st = TName n :: l -> length (view st) <= S f ->
  wp (bump ;; t ← current;
      if is_lparen (kind t) then
        bump ;; t ← current;
        args ← (if is_rparen (kind t) then mret [] else args_loop expr turns []);
        expect is_rparen "expected ')'" ;; mret (ECall n args)
      else mret (EName n)) st (reads 9 st).
Proof.
  intros Hg Hv Hf. apply wp_bind. eapply wp_bump; [done..|]. intros st1 E1.
  apply wp_bind, wp_current; [by eapply eats_good|]. intros t l1 Hv1.
  destruct (is_lparen (kind t)) eqn:El.
  2: { apply wp_ret. eexists. split_and!; [|chain|apply d_name]. done. }
  destruct (kind t) eqn:Ek; try done.
  apply wp_bind. eapply wp_bump; [by eapply eats_good|done..|]. intros st2 E2.
  apply wp_bind, wp_current; [by eapply eats_good|]. intros t' l2 Hv2. apply wp_bind.
  destruct (is_rparen (kind t')) eqn:Er.
  - apply wp_ret, wp_bind, wp_expect; [by eapply eats_good|done|]. intros k st3 Hk E3.
    destruct k; try done. apply wp_ret. eexists. split_and!; [|chain|apply d_call_nil]. done.
  - eapply wp_mono; [apply wp_args; [by eapply eats_good|lens|lens]|].
    intros r st3 (ts & es & -> & E3 & D3).
    apply wp_bind, wp_expect; [by eapply eats_good|done|]. intros k st4 Hk E4.
    destruct k; try done. apply wp_ret.
    eexists. split_and!; [|chain|by apply d_call]. done.
Qed.

Lemma wp_parens st l :
  good st -> view st = TLParen :: l -> length (view st) <= S f ->
  wp (bump ;; start_ ← expr; t ← current;
      if is_dotdot (kind t) then
        bump ;; end_ ← expr; expect is_range_end "expected range terminator" ;;
        p ← previous; mret (ERange start_ end_ false (is_rbracket (kind p)))
      else expect is_rparen "expected ')'" ;; mret start_) st (reads 9 st).
Proof.
  intros Hg Hv Hf. apply wp_bind. eapply wp_bump; [done..|]. intros st1 E1.
  apply wp_bind, wp_expr; [by eapply eats_good|lens|]. intros e1 ts2 st2 Hts2 E2 D2.
  apply wp_bind, wp_current; [by eapply eats_good|]. intros t l1 Hv1.
  destruct (is_dotdot (kind t)) eqn:Ed.
  - destruct (kind t) eqn:Ek; try done.
    apply wp_bind. eapply wp_bump; [by eapply eats_good|done..|]. intros st3 E3.
    apply wp_bind, wp_expr; [by eapply eats_good|lens|]. intros e2 ts4 st4 Hts4 E4 D4.
    apply wp_bind, wp_expect_previous; [by eapply eats_good|done|]. intros k st5 p Hk E5 Hp <-.
    apply wp_bind. unfold wp at 1. rewrite Hp. apply wp_ret.
    eexists. split_and!; [|chain|]; [done|].
    pose proof (d_range false (is_rbracket (kind p)) _ _ _ _ D2 D4) as HR.
    by destruct (kind p).
  - apply wp_bind, wp_expect; [by eapply eats_good|done|]. intros k st3 Hk E3.
    destruct k; try done. apply wp_ret.
    eexists. split_and!; [|chain|by apply d_parens]. done.
Qed.

Lemma wp_primary st :
  good st -> length (view st) <= S f -> wp (primary turns expr) st (reads 9 st).
Proof.
  intros Hg Hf. apply wp_bind, wp_current; [done|]. intros t l Hv.
  destruct (kind t) eqn:Ek; try by apply wp_error.
  3: by eapply wp_name_or_call.
  6: by eapply wp_parens.
  6: by eapply wp_list_or_range.
  6: by eapply wp_context.
  all: apply wp_bind; eapply wp_bump; [done..|]; intros st1 E1; apply wp_ret.
  all: eexists; split_and!; [|chain|]; [done|].
  all: first [apply d_number|apply d_string|apply d_null|apply (d_bool true)|apply (d_bool false)].
Qed.

Lemma wp_postfix_loop n e st :
  good st -> length (view st) <= S f -> length (view st) <= n ->
  wp (postfix_loop expr n e) st (fun e' st' =>
    exists ts, eats st ts st' /\ forall ts0, derives 8 ts0 e -> derives 8 (ts0 ++ ts) e').
Proof.
  revert e st. induction n as [|n IH]; intros e st Hg Hf Hn.
  { pose proof (good_length _ Hg). lia. }
  apply wp_bind, wp_current; [done|]. intros t l Hv.
  destruct (kind t) eqn:Ek; try (apply wp_ret; exists []; split; [by apply eats_nil|];
    intros ts0 H0; by rewrite app_nil_r).
  - apply wp_bind. eapply wp_bump; [done..|]. intros st1 E1.
    apply wp_bind, wp_expr; [by eapply eats_good|lens|]. intros p ts2 st2 Hts2 E2 D2.
    apply wp_bind, wp_expect; [by eapply eats_good|done|]. intros k st3 Hk E3.
    destruct k; try done.
    eapply wp_mono; [apply IH; [by eapply eats_good|lens|lens]|].
    intros e' st4 (ts & E4 & D4). eexists. split; [chain|]. intros ts0 H0.
    specialize (D4 _ (d_filter _ _ _ _ H0 D2)).
    by rewrite <- app_assoc in D4; simpl in D4; rewrite <- app_assoc in D4.
  - apply wp_bind. eapply wp_bump; [done..|]. intros st1 E1.
    apply wp_bind, wp_name; [by eapply eats_good|]. intros key st2 E2.
    eapply wp_mono; [apply IH; [by eapply eats_good|lens|lens]|].
    intros e' st3 (ts & E3 & D3). eexists. split; [chain|]. intros ts0 H0.
    specialize (D3 _ (d_path _ _ key H0)). by rewrite <- app_assoc in D3.
Qed.

Lemma wp_postfix st :
  good st -> length (view st) <= S f -> wp (postfix turns expr) st (reads 8 st).
Proof.
  intros Hg Hf. apply wp_bind. eapply wp_mono; [by apply wp_primary|].
  intros e st1 (ts & Hts & E1 & D1).
  eapply wp_mono; [apply wp_postfix_loop; [by eapply eats_good|lens|lens]|].
  intros e' st2 (ts2 & E2 & D2). exists (ts ++ ts2).
  split_and!; [by destruct ts|chain|]. apply D2. by constructor; [lia|].
Qed.

Lemma wp_unary n st :
  good st -> length (view st) <= S f -> length (view st) <= n ->
  wp (unary turns expr n) st (reads 7 st).
Proof.
  revert st. induction n as [|n IH]; intros st Hg Hf Hn.
  { pose proof (good_length _ Hg). lia. }
  apply wp_bind, wp_current; [done|]. intros t l Hv.
  destruct (kind t) eqn:Ek.
  all: try (eapply wp_mono; [by apply wp_postfix|]; intros e st' He; apply reads_up; [lia|done]).
  all: apply wp_bind; eapply wp_bump; [done..|]; intros st1 E1; apply wp_bind.
  all: eapply wp_mono; [apply IH; [by eapply eats_good|lens|lens]|].
  all: intros e st2 (ts & _ & E2 & D2); apply wp_ret; eexists; split_and!; [|chain|]; [done|].
  - by apply d_not.
  - by apply d_negate.
Qed.

(** The levels of the source's [binary] differ in operand and operators only. *)
Lemma wp_binary_loop operand k n e st :
  (forall st, good st -> length (view st) <= S f -> wp operand st (reads (S k) st)) ->
  good st -> length (view st) <= S f -> length (view st) <= n ->
  wp (binary_loop operand k n e) st (fun e' st' =>
    exists ts, eats st ts st' /\ forall ts0, derives k ts0 e -> derives k (ts0 ++ ts) e').
Proof.
  intros Hop. revert e st. induction n as [|n IH]; intros e st Hg Hf Hn.
  { pose proof (good_length _ Hg). lia. }
  apply wp_bind, wp_current; [done|]. intros t l Hv.
  destruct (operator k (kind t)) as [op|] eqn:Eo.
  - assert (Hne : kind t ≠ TEof).
    { intros Hk. rewrite Hk in Eo. by do 7 (destruct k as [|k]; try done). }
    apply wp_bind. eapply wp_bump; [done..|]. intros st1 E1.
    apply wp_bind. eapply wp_mono; [apply Hop; [by eapply eats_good|lens]|].
    intros r st2 (ts2 & _ & E2 & D2).
    eapply wp_mono; [apply IH; [by eapply eats_good|lens|lens]|].
    intros e' st3 (ts & E3 & D3). eexists. split; [chain|]. intros ts0 H0.
    specialize (D3 _ (d_binary _ _ _ _ _ _ _ (proj1 (operator_infix _ _ _) Eo) H0 D2)). by rewrite <- app_assoc in D3.
  - apply wp_ret. exists []. split; [by apply eats_nil|]. intros ts0 H0. by rewrite app_nil_r.
Qed.

Lemma wp_binary operand k :
  k < 9 -> (forall st, good st -> length (view st) <= S f -> wp operand st (reads (S k) st)) ->
  forall st, good st -> length (view st) <= S f -> wp (binary turns operand k) st (reads k st).
Proof.
  intros Hk Hop st Hg Hf. apply wp_bind. eapply wp_mono; [by apply Hop|].
  intros e st1 (ts & Hts & E1 & D1).
  eapply wp_mono; [apply wp_binary_loop; [done|by eapply eats_good|lens|lens]|].
  intros e' st2 (ts2 & E2 & D2). exists (ts ++ ts2).
  split_and!; [by destruct ts|chain|]. apply D2. by constructor.
Qed.

Lemma wp_or st :
  good st -> length (view st) <= S f -> wp (or_ turns expr) st (reads 1 st).
Proof.
  intros Hg Hf. revert st Hg Hf. do 6 (apply wp_binary; [lia|]).
  intros st Hg Hf. apply wp_unary; [done|done|lia].
Qed.

Lemma wp_or_read st (Φ : Expr -> Parser -> Prop) :
  good st -> length (view st) <= S f ->
  (forall e ts st', 1 <= length ts -> eats st ts st' -> derives 1 ts e -> Φ e st') ->
  wp (or_ turns expr) st Φ.
Proof.
  intros Hg Hl HΦ. eapply wp_mono; [by apply wp_or|].
  intros e st' (ts & Hn%nonempty_pos & He & Hd). eauto.
Qed.

Lemma wp_if st l :
  good st -> view st = TIf :: l -> length (view st) <= S f ->
  wp (if_expression expr) st (reads 0 st).
Proof.
  intros Hg Hv Hf. apply wp_bind. eapply wp_bump; [done..|]. intros st1 E1.
  apply wp_bind, wp_expr; [by eapply eats_good|lens|]. intros c ts2 st2 Hts2 E2 D2.
  apply wp_bind, wp_expect; [by eapply eats_good|done|]. intros k3 st3 Hk3 E3.
  destruct k3; try done.
  apply wp_bind, wp_expr; [by eapply eats_good|lens|]. intros e4 ts4 st4 Hts4 E4 D4.
  apply wp_bind, wp_expect; [by eapply eats_good|done|]. intros k5 st5 Hk5 E5.
  destruct k5; try done.
  apply wp_bind, wp_expr; [by eapply eats_good|lens|]. intros e6 ts6 st6 Hts6 E6 D6.
  apply wp_ret. eexists. split_and!; [|chain|by apply d_if]. done.
Qed.

(** [for] and the quantifiers share their shape: a keyword, a variable,
    [in], an input, a second keyword and a body. *)
Lemma wp_iteration st k l second msg (build : string -> Expr -> Expr -> Expr) sep :
  good st -> view st = k :: l -> k ≠ TEof -> length (view st) <= S f ->
  second TEof = false -> (forall k', second k' = true -> k' = sep) ->
  (forall x i ei b eb, derives 1 i ei -> derives 0 b eb ->
     derives 0 (k :: TName x :: TIn :: i ++ sep :: b) (build x ei eb)) ->
  wp (bump ;; variable ← name; expect is_in "expected 'in'" ;; input ← or_ turns expr;
      expect second msg ;; body ← expr; mret (build variable input body)) st (reads 0 st).
Proof.
  intros Hg Hv Hne Hf Hs Hsep Hd. apply wp_bind. eapply wp_bump; [done..|]. intros st1 E1.
  apply wp_bind, wp_name; [by eapply eats_good|]. intros x st2 E2.
  apply wp_bind, wp_expect; [by eapply eats_good|done|]. intros k3 st3 Hk3 E3.
  destruct k3; try done.
  apply wp_bind, wp_or_read; [by eapply eats_good|lens|]. intros e4 ts4 st4 Hts4 E4 D4.
  apply wp_bind, wp_expect; [by eapply eats_good|done|]. intros k5 st5 ->%Hsep E5.
  apply wp_bind, wp_expr; [by eapply eats_good|lens|]. intros e6 ts6 st6 Hts6 E6 D6.
  apply wp_ret. eexists. split_and!; [|chain|by apply Hd]. done.
Qed.

Lemma wp_expression_body st :
  good st -> length (view st) <= S f -> wp (expression_body turns expr) st (reads 0 st).
Proof.
  intros Hg Hf. apply wp_bind, wp_current; [done|]. intros t l Hv.
  destruct (kind t) eqn:Ek;
    try (eapply wp_mono; [by apply wp_or|]; intros e st' He; apply reads_up; [lia|done]).
  - by eapply wp_if.
  - apply (wp_iteration st TFor l is_return _ EFor TReturn); try done; [by intros []|].
    intros. by apply d_for.
  - apply wp_bind, wp_current; [done|]. intros t' l' Hv'.
    assert (kind t' = TSome) as -> by congruence.
    apply (wp_iteration st TSome l is_satisfies _ (EQuantified false) TSatisfies);
      try done; [by intros []|]. intros. by apply (d_quantified false).
  - apply wp_bind, wp_current; [done|]. intros t' l' Hv'.
    assert (kind t' = TEvery) as -> by congruence.
    apply (wp_iteration st TEvery l is_satisfies _ (EQuantified true) TSatisfies);
      try done; [by intros []|]. intros. by apply (d_quantified true).
Qed.
End Sound.

Lemma wp_expression turns f st :
  good st -> length (view st) <= f -> f <= turns -> wp (expression turns f) st (reads 0 st).
Proof.
  revert st. induction f as [|f IH]; intros st Hg Hf Ht.
  - pose proof (good_length _ Hg). lia.
  - simpl. apply (wp_expression_body turns f); [|lia|done|done].
    intros st' Hg' Hf'. apply IH; [done|done|lia].
Qed.

(** ** Completeness *)

(** A computation that succeeds, with a result that satisfies [Φ]. *)
Definition succeeds {A} (p : P A) (st : Parser) (Φ : A -> Parser -> Prop) : Prop :=
  exists a st', p st = (Ok a, st') /\ Φ a st'.

(** The tokens a phrase of level [k] can start with. *)
Definition starts (k : nat) (t : TokenKind) : bool :=
  match t with
  | TIf | TFor | TSome | TEvery => k <=? 0
  | TMinus | TNot => k <=? 7
  | TNull | TTrue | TFalse | TNumber _ | TString _ | TName _
  | TLParen | TLBracket | TLBrace => true
  | _ => false
  end.

(** The tokens that would extend a phrase of level [k]. *)
Definition continues (k : nat) (t : TokenKind) : bool :=
  match t with
  | TOr => k <=? 1
  | TAnd => k <=? 2
  | TEqual | TNotEqual | TLess | TLessEqual | TGreater | TGreaterEqual | TIn => k <=? 3
  | TPlus | TMinus => k <=? 4
  | TStar | TSlash => k <=? 5
  | TPower => k <=? 6
  | TDot | TLBracket => k <=? 8
  | TLParen => k <=? 9
  | _ => false
  end.

Definition stop (k : nat) (rest : list TokenKind) : Prop :=
  match rest with t :: _ => continues k t = false | [] => False end.

Lemma derives_starts k ts e :
  derives k ts e -> exists t ts', ts = t :: ts' /\ starts k t = true.
Proof.
  induction 1; try (eexists _, _; split; [reflexivity|];
                    first [reflexivity | by destruct q | by destruct b | by destruct si]).
  - destruct IHderives as (t & ts' & -> & Ht). exists t, ts'. split; [done|].
    destruct t; simpl in *; try done. all: apply Nat.leb_le; apply Nat.leb_le in Ht; lia.
  - destruct IHderives1 as (t' & ts' & -> & Ht). by exists t', (ts' ++ t :: r).
  - destruct IHderives as (t & ts' & -> & Ht). by exists t, (ts' ++ [TDot; TName key]).
  - destruct IHderives1 as (t & ts' & -> & Ht). by eexists t, (ts' ++ _).
Qed.

Lemma operator_level k t op :
  operator k t = Some op -> 1 <= k <= 6 /\ forall j, continues j t = (j <=? k).
Proof. intros Ho. do 7 (destruct k as [|k]; [destruct t; simplify_eq/=; (split; [lia|done])|]). done. Qed.

Lemma stop_S k rest : stop k rest -> stop (S k) rest.
Proof.
  destruct rest as [|t rest]; simpl; [done|]. unfold continues.
  destruct t; try done; rewrite !Nat.leb_nle; lia.
Qed.

Lemma stop_le j k rest : j <= k -> stop j rest -> stop k rest.
Proof. induction 1; auto using stop_S. Qed.

Lemma stop_operator k t op rest : operator k t = Some op -> stop (S k) (t :: rest).
Proof. intros [_ Ho]%operator_level. simpl. rewrite Ho. apply Nat.leb_nle. lia. Qed.

Lemma stop_no_operator j k t rest : j <= k -> stop j (t :: rest) -> operator k t = None.
Proof.
  intros Hj Hs. destruct (operator k t) eqn:Eo; [|done]. apply operator_level in Eo as [_ Ho].
  simpl in Hs. rewrite Ho in Hs. apply Nat.leb_nle in Hs. lia.
Qed.

Lemma stop_length k rest : stop k rest -> 1 <= length rest.
Proof. destruct rest; simpl; [done|lia]. Qed.

Section Succeeds.
Lemma s_bind {A B} (p : P A) (f : A -> P B) st Φ :
  succeeds p st (fun a st' => succeeds (f a) st' Φ) -> succeeds (p ≫= f) st Φ.
Proof.
  intros (a & st' & Hp & b & st2 & Hf & HΦ). exists b, st2. split; [|done].
  by rewrite (bind_ok _ _ _ _ _ Hp).
Qed.

Lemma s_ret {A} (a : A) st (Φ : A -> Parser -> Prop) : Φ a st -> succeeds (mret a) st Φ.
Proof. intros. by exists a, st. Qed.

Lemma s_current st k l (Φ : Token -> Parser -> Prop) :
  view st = k :: l -> (forall t, kind t = k -> Φ t st) -> succeeds current st Φ.
Proof.
  intros Hv HΦ. destruct (view_lookup _ _ _ Hv) as (t & Ht & Hk). exists t, st.
  unfold current, index_token. rewrite Ht. auto.
Qed.

Lemma s_bump st k l (Φ : unit -> Parser -> Prop) :
  view st = k :: l -> 1 <= length l -> (forall st', view st' = l -> Φ tt st') ->
  succeeds bump st Φ.
Proof.
  intros Hv Hl HΦ. destruct l as [|k' l]; simpl in Hl; [lia|].
  destruct (bump_view _ _ _ _ Hv) as [Hb Hv']. eexists _, _. eauto.
Qed.

Lemma s_expect pred m st k l (Φ : unit -> Parser -> Prop) :
  view st = k :: l -> 1 <= length l -> pred k = true ->
  (forall st', view st' = l -> Φ tt st') -> succeeds (expect pred m) st Φ.
Proof.
  intros Hv Hl Hp HΦ. apply s_bind. eapply s_current; [done|]. intros t ->.
  rewrite Hp. by eapply s_bump.
Qed.

Lemma s_expect_previous pred m st k l (Φ : unit -> Parser -> Prop) :
  view st = k :: l -> 1 <= length l -> pred k = true ->
  (forall st' p, view st' = l -> previous st' = (Ok p, st') -> kind p = k -> Φ tt st') ->
  succeeds (expect pred m) st Φ.
Proof.
  intros Hv Hl Hp HΦ. apply s_bind. eapply s_current; [done|]. intros t ->. rewrite Hp.
  destruct l as [|k' l]; simpl in Hl; [lia|].
  destruct (view_lookup _ _ _ Hv) as (t0 & Ht0 & Hk0).
  destruct (bump_view _ _ _ _ Hv) as [Hb Hv']. eexists _, _. split; [exact Hb|].
  apply (HΦ _ t0); [done| |done]. unfold previous, index_token. simpl.
  by rewrite Nat.add_sub, Ht0.
Qed.

Lemma s_name st n l (Φ : string -> Parser -> Prop) :
  view st = TName n :: l -> 1 <= length l -> (forall st', view st' = l -> Φ n st') ->
  succeeds name st Φ.
Proof.
  intros Hv Hl HΦ. apply s_bind. eapply s_current; [done|]. intros t ->.
  apply s_bind. eapply s_bump; [done..|]. intros st' Hv'. apply s_ret. auto.
Qed.
End Succeeds.

(** Lengths of the token lists left to read. *)
Ltac room :=
  repeat match goal with
  | H : stop _ ?l |- _ => apply stop_length in H
  | H : view ?s = _ |- context [view ?s] => rewrite H
  | H : view ?s = _, H' : context [length (view ?s)] |- _ => rewrite H in H'
  end; simpl in *; repeat progress (rewrite ?length_app in *; simpl in *); lia.
(** The binary levels, one by one. *)
Ltac levels k := destruct k as [|[|[|[|[|[|[|k]]]]]]]; try lia.
Ltac flatten H := simpl in H; repeat (rewrite <- app_assoc in H; simpl in H).

(** The computation that reads a phrase of level [k]. *)
Definition level (turns : nat) (expr : P Expr) (k : nat) : P Expr :=
  match k with
  | 0 => expression_body turns expr
  | 1 => or_ turns expr
  | 2 => and_ turns expr
  | 3 => comparison turns expr
  | 4 => additive turns expr
  | 5 => multiplicative turns expr
  | 6 => power turns expr
  | 7 => unary turns expr turns
  | 8 => postfix turns expr
  | _ => primary turns expr
  end.

Definition yields (p : P Expr) (st : Parser) (e : Expr) (rest : list TokenKind) : Prop :=
  forall Φ : Expr -> Parser -> Prop, (forall st', view st' = rest -> Φ e st') -> succeeds p st Φ.

(** The computation reaches its loop with the tree [e] and [rest] to read. *)
Definition loops (p : P Expr) (loop : nat -> Expr -> P Expr) (st : Parser) (e : Expr)
  (rest : list TokenKind) : Prop :=
  forall Φ : Expr -> Parser -> Prop,
  (forall st' n, view st' = rest -> length rest <= n -> succeeds (loop n e) st' Φ) ->
  succeeds p st Φ.

(** What the parser does on a phrase of level [k]. *)
Definition parses (k : nat) (ts : list TokenKind) (e : Expr) : Prop :=
  forall turns f st rest, view st = ts ++ rest -> length (view st) <= S f -> S f <= turns ->
  match k with
  | 0 => stop 0 rest -> yields (expression turns (S f)) st e rest
  | 7 =>
      stop 8 rest -> forall n, length (view st) <= n ->
      yields (unary turns (expression turns f) n) st e rest
  | 8 =>
      stop 9 rest ->
      loops (postfix turns (expression turns f)) (postfix_loop (expression turns f)) st e rest
  | 9 => stop 9 rest -> yields (primary turns (expression turns f)) st e rest
  | _ =>
      stop (S k) rest ->
      loops (level turns (expression turns f) k)
        (binary_loop (level turns (expression turns f) (S k)) k) st e rest
  end.

(** Comma-separated phrases that satisfy [Q]. *)
Inductive listed (Q : list TokenKind -> Expr -> Prop) : list TokenKind -> list Expr -> Prop :=
| listed_one ts e : Q ts e -> listed Q ts [e]
| listed_cons ts e tss es :
    Q ts e -> listed Q tss es -> listed Q (ts ++ TComma :: tss) (e :: es).

Inductive entered (Q : list TokenKind -> Expr -> Prop)
  : list TokenKind -> list (string * Expr) -> Prop :=
| entered_one k key ts e :
    key_of k = Some key -> Q ts e -> entered Q (k :: TColon :: ts) [(key, e)]
| entered_cons k key ts e tss es :
    key_of k = Some key -> Q ts e -> entered Q tss es ->
    entered Q (k :: TColon :: ts ++ TComma :: tss) ((key, e) :: es).

Section Complete.
Context (turns f : nat).

Lemma s_expr ts e st rest (Φ : Expr -> Parser -> Prop) :
  parses 0 ts e -> view st = ts ++ rest -> length (view st) <= f -> f <= turns ->
  stop 0 rest -> (forall st', view st' = rest -> Φ e st') ->
  succeeds (expression turns f) st Φ.
Proof.
  intros Hp Hv Hl Ht Hs HΦ.
  assert (Hr : 1 <= length (view st)) by (rewrite Hv, length_app; apply stop_length in Hs; lia).
  destruct f as [|f']; [lia|]. by apply (Hp turns f' st rest).
Qed.

(** Read the next token, a token and its successor, a name or a phrase. *)
Ltac look := first [apply s_bind; eapply s_current; [eassumption|]; intros ? ->; simpl].
Ltac next := apply s_bind; eapply s_bump; [eassumption|room|]; intros ? ?.
Ltac want := apply s_bind; eapply s_expect; [eassumption|room|reflexivity|]; intros ? ?.
Ltac named := apply s_bind; eapply s_name; [eassumption|room|]; intros ? ?.
Ltac phrase D := apply s_bind; eapply (s_expr _ _ _ _ _ D); [eassumption|room|lia|first [exact eq_refl|done]|];
  intros ? ?.

Lemma s_args ts es st rest n acc (Φ : list Expr -> Parser -> Prop) :
  listed (parses 0) ts es -> view st = ts ++ rest -> length (view st) <= f -> f <= turns ->
  length (view st) <= n -> (exists l, rest = TRParen :: l) ->
  (forall st', view st' = rest -> Φ (acc ++ es) st') ->
  succeeds (args_loop (expression turns f) n acc) st Φ.
Proof.
  intros Hd Hv Hl Ht Hn [l ->]. revert st n acc Hv Hl Hn.
  induction Hd as [ts e Hp|ts e tss es Hp _ IH]; intros st n acc Hv Hl Hn HΦ.
  all: destruct n as [|n]; [room|]; simpl; flatten Hv.
  - phrase Hp. look. apply s_ret. auto.
  - phrase Hp. look. next. apply IH; [done|room|room|].
    intros st2 Hv2. rewrite <- app_assoc. auto.
Qed.

Lemma s_values ts es st rest n acc (Φ : list Expr -> Parser -> Prop) :
  listed (parses 0) ts es -> view st = TComma :: ts ++ rest -> length (view st) <= S f ->
  f <= turns -> length (view st) <= n -> (exists l, rest = TRBracket :: l) ->
  (forall st', view st' = rest -> Φ (acc ++ es) st') ->
  succeeds (values_loop (expression turns f) n acc) st Φ.
Proof.
  intros Hd Hv Hl Ht Hn [l ->]. revert st n acc Hv Hl Hn.
  induction Hd as [ts e Hp|ts e tss es Hp _ IH]; intros st n acc Hv Hl Hn HΦ.
  all: destruct n as [|n]; [room|]; simpl; flatten Hv; look; next.
  - phrase Hp. destruct n as [|n]; [room|]. simpl. look. apply s_ret. auto.
  - phrase Hp. apply IH; [done|room|room|].
    intros st2 Hv2. rewrite <- app_assoc. auto.
Qed.

Lemma s_entries ts es st rest n acc (Φ : list (string * Expr) -> Parser -> Prop) :
  entered (parses 0) ts es -> view st = ts ++ rest -> length (view st) <= f ->
  f <= turns -> length (view st) <= n -> (exists l, rest = TRBrace :: l) ->
  (forall st', view st' = rest -> Φ (acc ++ es) st') ->
  succeeds (entries_loop (expression turns f) n acc) st Φ.
Proof.
  intros Hd Hv Hl Ht Hn [l ->]. revert st n acc Hv Hl Hn.
  induction Hd as [k key ts e Hk Hp|k key ts e tss es Hk Hp _ IH];
    intros st n acc Hv Hl Hn HΦ.
  all: destruct n as [|n]; [room|]; simpl; flatten Hv; look; apply s_bind.
  all: assert (Hkey : forall Ψ : string -> Parser -> Prop,
         (forall st', view st' = tail (view st) -> Ψ key st') ->
         succeeds (match k with TName n | TString n => bump ;; mret n
                   | _ => error "expected context key" end) st Ψ)
       by (intros Ψ HΨ; destruct k; simplify_eq/=;
           (apply s_bind; eapply s_bump; [eassumption|room|]; intros st' Hv';
            apply s_ret, HΨ; by rewrite Hv, Hv')).
  all: apply Hkey; rewrite Hv; simpl; intros st1 Hv1; want; phrase Hp; look.
  - apply s_ret. auto.
  - next. apply IH; [done|room|room|]. intros st2 Hv2. rewrite <- app_assoc. auto.
Qed.

(** A loop ends at a token that does not extend its phrase. *)
Lemma binary_loop_ends p operand k st e rest :
  loops p (binary_loop operand k) st e rest -> stop k rest -> yields p st e rest.
Proof.
  intros Hp Hs Φ HΦ. apply Hp. intros st' n Hv Hn. destruct rest as [|t rest]; [done|].
  destruct n as [|n]; [simpl in Hn; lia|]. simpl. look.
  rewrite (stop_no_operator k k t rest) by done. apply s_ret. auto.
Qed.

Lemma postfix_loop_ends p expr st e rest :
  loops p (postfix_loop expr) st e rest -> stop 8 rest -> yields p st e rest.
Proof.
  intros Hp Hs Φ HΦ. apply Hp. intros st' n Hv Hn. destruct rest as [|t rest]; [done|].
  destruct n as [|n]; [simpl in Hn; lia|]. simpl. look.
  destruct t; try (by apply s_ret, HΦ); discriminate Hs.
Qed.

Lemma level_yields k ts e st rest :
  parses k ts e -> 1 <= k <= 7 -> view st = ts ++ rest -> length (view st) <= S f ->
  S f <= turns -> stop k rest -> yields (level turns (expression turns f) k) st e rest.
Proof.
  intros Hp Hk Hv Hf Ht Hs. specialize (Hp turns f st rest Hv Hf Ht).
  destruct (decide (k = 7)) as [->|].
  - apply Hp; [by apply (stop_le 7); [lia|]|lia].
  - apply (binary_loop_ends _ (level turns (expression turns f) (S k)) k); [|done].
    levels k; apply Hp; by apply stop_S.
Qed.

Lemma operand_then_loop k ts e st rest :
  parses (S k) ts e -> 1 <= k <= 6 -> view st = ts ++ rest -> length (view st) <= S f ->
  S f <= turns -> stop (S k) rest ->
  loops (level turns (expression turns f) k)
    (binary_loop (level turns (expression turns f) (S k)) k) st e rest.
Proof.
  intros Hp Hk Hv Hf Ht Hs Φ HΦ.
  assert (Hl : level turns (expression turns f) k
               = binary turns (level turns (expression turns f) (S k)) k).
  { by levels k. }
  rewrite Hl. apply s_bind. eapply (level_yields (S k)); try done; [lia|].
  intros st' Hv'. apply HΦ; [done|]. room.
Qed.
End Complete.

Lemma parses_up k ts e : k < 9 -> derives (S k) ts e -> parses (S k) ts e -> parses k ts e.
Proof.
  intros Hk Hd Hp turns f st rest Hv Hf Ht.
  destruct (derives_starts _ _ _ Hd) as (t & ts' & -> & Hst).
  destruct (decide (k = 0)) as [->|Hk0]; [|destruct (decide (k = 7)) as [->|Hk7];
    [|destruct (decide (k = 8)) as [->|Hk8]]].
  - intros Hs Φ HΦ. simpl. apply s_bind. eapply s_current; [exact Hv|]. intros t' ->.
    assert (Ho : succeeds (or_ turns (expression turns f)) st Φ).
    { apply (level_yields turns f 1 (t :: ts') e st rest); try done; try lia; by apply stop_S. }
    by destruct t.
  - intros Hs n Hn Φ HΦ. destruct n as [|n]; [rewrite Hv in Hn; simpl in Hn; lia|].
    simpl. apply s_bind. eapply s_current; [exact Hv|]. intros t' ->.
    assert (Ho : succeeds (postfix turns (expression turns f)) st Φ).
    { eapply postfix_loop_ends; [|done|done]. apply (Hp turns f st rest); try done.
      by apply (stop_le 8); [lia|]. }
    by destruct t.
  - intros Hs Φ HΦ. apply s_bind. apply (Hp turns f st rest); try done.
    intros st' Hv'. apply HΦ; [done|]. room.
  - assert (Hl : 1 <= k <= 6) by lia. pose proof (operand_then_loop turns f k _ _ st rest Hp Hl Hv Hf Ht).
    by levels k.
Qed.

Lemma parses_binary k t op l el r er :
  infix k t op -> derives (S k) r er -> parses k l el -> parses (S k) r er ->
  parses k (l ++ t :: r) (EBinary op el er).
Proof.
  intros Ho%operator_infix Hd Hl Hr turns f st rest Hv Hf Ht. flatten Hv.
  destruct (operator_level _ _ _ Ho) as [Hk _].
  assert (Hg : stop (S k) rest ->
    loops (level turns (expression turns f) k)
      (binary_loop (level turns (expression turns f) (S k)) k) st (EBinary op el er) rest).
  { intros Hs Φ HΦ.
    assert (Hlo : loops (level turns (expression turns f) k)
      (binary_loop (level turns (expression turns f) (S k)) k) st el (t :: r ++ rest)).
    { specialize (Hl turns f st (t :: r ++ rest) Hv Hf Ht).
      pose proof (stop_operator k t op (r ++ rest) Ho).
      levels k; by apply Hl. }
    apply Hlo. intros st1 n Hv1 Hn. destruct n as [|n]; [simpl in Hn; lia|]. simpl.
    apply s_bind. eapply s_current; [exact Hv1|]. intros t' ->. rewrite Ho.
    apply s_bind. eapply s_bump; [exact Hv1|room|]. intros st2 Hv2. apply s_bind.
    apply (level_yields turns f (S k) r er st2 rest); try done; [lia|room|].
    intros st3 Hv3. apply HΦ; [done|room]. }
  by levels k.
Qed.

(** Symbolic steps of a successful run: look at the next token, pass it,
    pass an expected token or a name, read a whole phrase. *)
Ltac look := apply s_bind; eapply s_current; [eassumption|]; intros ? ->; simpl.
Ltac next := apply s_bind; eapply s_bump; [eassumption|room|]; intros ? ?.
Ltac want := apply s_bind; eapply s_expect; [eassumption|room|reflexivity|]; intros ? ?.
Ltac named := apply s_bind; eapply s_name; [eassumption|room|]; intros ? ?.
Ltac phrase D :=
  apply s_bind; eapply (s_expr _ _ _ _ _ _ _ D);
  [eassumption|room|lia|first [exact eq_refl|eassumption]|]; intros ? ?.
Ltac input D :=
  apply s_bind; eapply (level_yields _ _ 1 _ _ _ _ D);
  [lia|eassumption|room|lia|exact eq_refl|]; intros ? ?.
Ltac open_phrase :=
  intros turns f st rest Hv Hf Ht Hs Φ HΦ; flatten Hv; simpl.

Lemma parses_if c ec t et l el :
  parses 0 c ec -> parses 0 t et -> parses 0 l el ->
  parses 0 (TIf :: c ++ TThen :: t ++ TElse :: l) (EIf ec et el).
Proof.
  intros Hc Hp Hl. open_phrase. look. next. phrase Hc. want. phrase Hp. want. phrase Hl.
  apply s_ret. auto.
Qed.

Lemma parses_for x i ei b eb :
  parses 1 i ei -> parses 0 b eb ->
  parses 0 (TFor :: TName x :: TIn :: i ++ TReturn :: b) (EFor x ei eb).
Proof.
  intros Hi Hb. open_phrase. look. next. named. want. input Hi. want. phrase Hb.
  apply s_ret. auto.
Qed.

Lemma parses_quantified (q : bool) x i ei p ep :
  parses 1 i ei -> parses 0 p ep ->
  parses 0 ((if q then TEvery else TSome) :: TName x :: TIn :: i ++ TSatisfies :: p)
    (EQuantified q x ei ep).
Proof.
  intros Hi Hp. open_phrase.
  destruct q; look; look; next; named; want; input Hi; want; phrase Hp; apply s_ret; auto.
Qed.

Lemma parses_unary (b : bool) ts e :
  parses 7 ts e ->
  parses 7 ((if b then TMinus else TNot) :: ts) (EUnary (if b then Negate else Not) e).
Proof.
  intros Hp turns f st rest Hv Hf Ht Hs n Hn Φ HΦ. flatten Hv.
  destruct n as [|n]; [rewrite Hv in Hn; simpl in Hn; lia|]. simpl.
  destruct b; look; next; apply s_bind.
  all: eapply (Hp turns f); [eassumption|room|lia|done|room|]; intros st2 Hv2; apply s_ret; auto.
Qed.

Lemma parses_path ts e key : parses 8 ts e -> parses 8 (ts ++ [TDot; TName key]) (EPath e key).
Proof.
  intros Hp turns f st rest Hv Hf Ht Hs Φ HΦ. flatten Hv.
  eapply (Hp turns f); [eassumption|done|done|exact eq_refl|]. intros st1 n Hv1 Hn.
  destruct n as [|n]; [simpl in Hn; lia|]. simpl. look. next. named. apply HΦ; [done|room].
Qed.

Lemma parses_filter ts e p ep :
  parses 8 ts e -> parses 0 p ep ->
  parses 8 (ts ++ TLBracket :: p ++ [TRBracket]) (EFilter e ep).
Proof.
  intros Hp Hq turns f st rest Hv Hf Ht Hs Φ HΦ. flatten Hv.
  eapply (Hp turns f); [eassumption|done|done|exact eq_refl|]. intros st1 n Hv1 Hn.
  destruct n as [|n]; [simpl in Hn; lia|]. simpl. look. next. phrase Hq. want.
  apply HΦ; [done|room].
Qed.

Lemma parses_name n : parses 9 [TName n] (EName n).
Proof.
  open_phrase. destruct rest as [|t rest]; [done|]. look. next. look.
  destruct t; try discriminate Hs; simpl; apply s_ret; auto.
Qed.

(** A literal token is a phrase of its own. *)
Ltac atom := open_phrase; look; next; apply s_ret; auto.

Lemma parses_null : parses 9 [TNull] ENull.
Proof. atom. Qed.
Lemma parses_bool (b : bool) : parses 9 [if b then TTrue else TFalse] (EBool b).
Proof. destruct b; atom. Qed.
Lemma parses_number v : parses 9 [TNumber v] (ENumber v).
Proof. atom. Qed.
Lemma parses_string v : parses 9 [TString v] (EString v).
Proof. atom. Qed.

Lemma listed_starts Q ts es :
  (forall ts e, Q ts e -> exists t ts', ts = t :: ts' /\ starts 0 t = true) ->
  listed Q ts es -> exists t ts', ts = t :: ts' /\ starts 0 t = true.
Proof.
  intros HQ Hl. destruct Hl as [ts e He|ts e tss es He _]; [eauto|].
  destruct (HQ _ _ He) as (t & ts' & -> & Ht). by exists t, (ts' ++ TComma :: tss).
Qed.

Definition phrase_of (ts : list TokenKind) (e : Expr) : Prop :=
  derives 0 ts e /\ parses 0 ts e.

Lemma phrases_start ts es :
  listed phrase_of ts es -> exists t ts', ts = t :: ts' /\ starts 0 t = true.
Proof. apply listed_starts. intros ? ? [Hd _]. by eapply derives_starts. Qed.

Lemma phrases_parse ts es : listed phrase_of ts es -> listed (parses 0) ts es.
Proof. induction 1 as [? ? []|? ? ? ? []]; by constructor. Qed.

Lemma parses_call n ts es :
  listed phrase_of ts es -> parses 9 (TName n :: TLParen :: ts ++ [TRParen]) (ECall n es).
Proof.
  intros Hl. destruct (phrases_start _ _ Hl) as (t & ts' & -> & Hst).
  open_phrase. look. next. look. next. look.
  assert (Hr : is_rparen t = false) by by destruct t. rewrite Hr.
  apply s_bind. eapply (s_args turns f (t :: ts') es _ (TRParen :: rest));
    [by apply phrases_parse|eassumption|room|lia|room|eauto|]. intros st3 Hv3.
  want. apply s_ret. auto.
Qed.

Lemma parses_call_nil n : parses 9 [TName n; TLParen; TRParen] (ECall n []).
Proof.
  open_phrase. look. next. look. next. look. apply s_bind, s_ret. want. apply s_ret. auto.
Qed.

Lemma parses_parens ts e : parses 0 ts e -> parses 9 (TLParen :: ts ++ [TRParen]) e.
Proof. intros Hp. open_phrase. look. next. phrase Hp. look. want. apply s_ret. auto. Qed.

(** Show the first token of a phrase that is next, keeping the phrase. *)
Ltac unroll ts E :=
  match goal with
  | H : view _ = ts ++ _ |- _ =>
      let H' := fresh "Hv" in pose proof H as H'; rewrite E in H; simpl in H
  end.

(** Nothing that starts a phrase closes a bracket. *)
Lemma starts_not_closing t : starts 0 t = true -> is_rbracket t = false /\ is_rbrace t = false.
Proof. by destruct t. Qed.

Lemma parses_range (si ei : bool) a ea b eb :
  phrase_of a ea -> parses 0 b eb ->
  parses 9 ((if si then TLBracket else TLParen) :: a ++ TDotDot :: b
            ++ [if ei then TRBracket else TRParen]) (ERange ea eb si ei).
Proof.
  intros [Hd Ha] Hb. destruct (derives_starts _ _ _ Hd) as (t & a' & Ea & Hst).
  apply starts_not_closing in Hst as [Hst _]. open_phrase. destruct si; look; next.
  - unroll a Ea. look. rewrite Hst. phrase Ha. look. next.
    destruct ei; phrase Hb; look; want; apply s_ret; auto.
  - phrase Ha. look. next.
    destruct ei; phrase Hb; apply s_bind; (eapply s_expect_previous; [eassumption|room|reflexivity|]);
      intros st5 p Hv5 Hp Hk; apply s_bind; exists p, st5; (split; [done|]); rewrite Hk;
      apply s_ret; auto.
Qed.

Lemma parses_list ts es :
  listed phrase_of ts es -> parses 9 (TLBracket :: ts ++ [TRBracket]) (EList es).
Proof.
  intros Hl. destruct Hl as [ts e [Hd He]|ts e tss es [Hd He] Hes%phrases_parse].
  all: destruct (derives_starts _ _ _ Hd) as (t & ts' & Et & Hst).
  all: apply starts_not_closing in Hst as [Hst _]; open_phrase; look; next.
  - unroll ts Et. look. rewrite Hst. phrase He. look. apply s_bind.
    destruct turns as [|n]; [lia|]. simpl. look. apply s_ret. want. apply s_ret. auto.
  - unroll ts Et. look. rewrite Hst. phrase He. look. apply s_bind.
    eapply (s_values turns f tss es _ (TRBracket :: rest));
      [done|eassumption|room|lia|room|eauto|]. intros st3 Hv3.
    want. apply s_ret. auto.
Qed.

Lemma parses_list_nil : parses 9 [TLBracket; TRBracket] (EList []).
Proof. open_phrase. look. next. look. next. apply s_ret. auto. Qed.

Lemma parses_context_nil : parses 9 [TLBrace; TRBrace] (EContext []).
Proof. open_phrase. look. next. look. apply s_bind, s_ret. want. apply s_ret. auto. Qed.

Lemma parses_context ts es :
  entered (parses 0) ts es -> parses 9 (TLBrace :: ts ++ [TRBrace]) (EContext es).
Proof.
  intros Hl. open_phrase. look. next.
  assert (Hk : exists k ts', ts = k :: ts' /\ is_rbrace k = false).
  { destruct Hl as [k ? ? ? Hk _|k ? ? ? ? ? Hk _ _]; destruct k; try done; eauto. }
  destruct Hk as (k & ts' & Et & Hk).
  unroll ts Et. look. rewrite Hk. apply s_bind.
  eapply (s_entries turns f ts es _ (TRBrace :: rest));
    [done|eassumption|room|lia|room|eauto|]. intros st3 Hv3.
  want. apply s_ret. auto.
Qed.

Definition phrase_at (k : nat) (ts : list TokenKind) (e : Expr) : Prop :=
  derives k ts e /\ parses k ts e.

Lemma derives_phrase k ts e : derives k ts e -> phrase_at k ts e.
Proof.
  intros Hd.
  induction Hd using derives_mut
    with (P0 := fun ts es (_ : derives_list ts es) => listed phrase_of ts es)
         (P1 := fun ts es (_ : derives_entries ts es) => entered (parses 0) ts es);
    unfold phrase_at, phrase_of in *; destruct_and?; try (split; [by eauto with feel|]).
  all: eauto using parses_up, parses_if, parses_for, parses_quantified, parses_binary,
    parses_path, parses_filter, parses_null, parses_bool, parses_number, parses_string,
    parses_name, parses_call_nil, parses_call, parses_parens, parses_range, parses_list_nil,
    parses_list, parses_context_nil, parses_context, listed_one, listed_cons, entered_one,
    entered_cons.
  - by apply (parses_unary true).
  - by apply (parses_unary false).
  - by apply parses_range.
Qed.

(** ** The parser's contract *)

(** A token vector as the lexer returns it: one [Eof], at the end. *)
Definition ends_in_eof (ts : list Token) (init : list TokenKind) : Prop :=
  kind <$> ts = init ++ [TEof] /\ TEof ∉ init.

Section ParserContract.
Context (ts : list Token) (init : list TokenKind) (Hts : ends_in_eof ts init).

Let start_state : Parser := {| tokens := ts; position := 0 |}.

Lemma start_view : view start_state = init ++ [TEof].
Proof. apply Hts. Qed.

Lemma start_good : good start_state.
Proof. exists init. split; [apply start_view|apply Hts]. Qed.

Lemma start_length : length (view start_state) = length ts.
Proof. unfold view. simpl. by rewrite drop_0, length_fmap. Qed.

Lemma parse_wp (Φ : Expr -> Prop) :
  (forall e, derives 0 init e -> Φ e) ->
  match parse ts with Ok e => Φ e | Err (PRaised _) => True | Err _ => False end.
Proof.
  intros HΦ.
  assert (Hw : wp (whole_expression (length ts)) start_state (fun e _ => Φ e)).
  { apply wp_bind. eapply wp_mono.
    { apply wp_expression; [apply start_good|by rewrite start_length|done]. }
    intros e st1 (us & _ & E1 & D1). apply wp_bind, wp_current; [by eapply eats_good|].
    intros t l Hv. destruct (is_eof (kind t)) eqn:Ee; [|apply wp_error; by eapply eats_good].
    destruct (kind t) eqn:Ek; try done. apply wp_ret, HΦ.
    destruct E1 as [E1 (l' & Hl' & Hn)]. rewrite Hl' in Hv.
    destruct l' as [|k' l']; simplify_eq/=; [|set_solver].
    rewrite start_view, Hl' in E1. simpl in E1. by apply app_inj_tail in E1 as [-> _]. }
  unfold wp in Hw. unfold parse. fold start_state.
  by destruct (whole_expression _ _) as [[e|[]] st'].
Qed.

(** On a token vector that ends in [Eof], as the lexer's do, the parser
    returns a syntax tree or a validation error; it never indexes past the
    vector and never loops. *)
Theorem parse_total :
  (exists e, parse ts = Ok e) \/ (exists err, parse ts = Err (PRaised err)).
Proof.
  pose proof (parse_wp (fun _ => True) (fun _ _ => I)) as Hw.
  destruct (parse ts) as [e|[]]; [eauto|eauto|done|done].
Qed.

Lemma parse_iff (e : Expr) : parse ts = Ok e <-> derives 0 init e.
Proof.
  split.
  - intros Hp. pose proof (parse_wp (fun e' => derives 0 init e')) as Hw.
    rewrite Hp in Hw. by apply Hw.
  - intros [_ Hp]%derives_phrase.
    assert (Hlen : length ts = S (length init)).
    { rewrite <- start_length, start_view, length_app. simpl. lia. }
    assert (Hs : succeeds (whole_expression (length ts)) start_state (fun e' _ => e' = e)).
    { apply s_bind. eapply (s_expr _ _ _ _ _ [TEof] _ Hp);
        [apply start_view|by rewrite start_length|done|exact eq_refl|].
      intros st' Hv'. look. by apply s_ret. }
    destruct Hs as (e' & st' & Hs & ->). unfold parse. fold start_state. by rewrite Hs.
Qed.
(** C4: the parser decides the grammar: it returns the tree [e] exactly when
    the tokens before [Eof] derive [e] as an [expression]. *)
Theorem parse_correct (e : Expr) : parse ts = Ok e <-> derives 0 init e.
Proof. apply parse_iff. Qed.
End ParserContract.

(** ** Printing

    [print k e] writes [e] as a phrase of level [k], with parentheses only
    where the grammar needs them. *)
Definition op_level (op : BinaryOp) : nat :=
  match op with
  | Or => 1
  | And => 2
  | Equal | NotEqual | Less | LessEqual | Greater | GreaterEqual | In => 3
  | Add | Subtract => 4
  | Multiply | Divide => 5
  | Power => 6
  end.

Definition op_token (op : BinaryOp) : TokenKind :=
  match op with
  | Add => TPlus | Subtract => TMinus | Multiply => TStar | Divide => TSlash | Power => TPower
  | And => TAnd | Or => TOr | Equal => TEqual | NotEqual => TNotEqual | Less => TLess
  | LessEqual => TLessEqual | Greater => TGreater | GreaterEqual => TGreaterEqual | In => TIn
  end.

Definition paren (k prec : nat) (ts : list TokenKind) : list TokenKind :=
  if k <=? prec then ts else TLParen :: ts ++ [TRParen].

Fixpoint commas (l : list (list TokenKind)) : list TokenKind :=
  match l with
  | [] => []
  | [ts] => ts
  | ts :: l => ts ++ TComma :: commas l
  end.

Fixpoint print (k : nat) (e : Expr) : list TokenKind :=
  match e with
  | ENull => [TNull]
  | EBool b => [if b then TTrue else TFalse]
  | ENumber v => [TNumber v]
  | EString s => [TString s]
  | EName n => [TName n]
  | EList l => TLBracket :: commas (map (print 0) l) ++ [TRBracket]
  | EContext l =>
      TLBrace :: commas (map (fun kv => TString kv.1 :: TColon :: print 0 kv.2) l) ++ [TRBrace]
  | ERange a b si ei =>
      (if si then TLBracket else TLParen) :: print 0 a ++ TDotDot :: print 0 b
      ++ [if ei then TRBracket else TRParen]
  | EUnary op x =>
      paren k 7 ((match op with Negate => TMinus | Not => TNot end) :: print 7 x)
  | EBinary op a b =>
      paren k (op_level op) (print (op_level op) a ++ op_token op :: print (S (op_level op)) b)
  | EIf c t x => paren k 0 (TIf :: print 0 c ++ TThen :: print 0 t ++ TElse :: print 0 x)
  | EPath t key => paren k 8 (print 8 t ++ [TDot; TName key])
  | EFilter t p => paren k 8 (print 8 t ++ TLBracket :: print 0 p ++ [TRBracket])
  | ECall n l => TName n :: TLParen :: commas (map (print 0) l) ++ [TRParen]
  | EFor x i b => paren k 0 (TFor :: TName x :: TIn :: print 1 i ++ TReturn :: print 0 b)
  | EQuantified q x i p =>
      paren k 0 ((if q then TEvery else TSome) :: TName x :: TIn :: print 1 i
                 ++ TSatisfies :: print 0 p)
  end.

Lemma derives_le j k ts e : j <= k -> k <= 9 -> derives k ts e -> derives j ts e.
Proof.
  intros Hj. induction Hj as [|k Hj IH]; [done|]. intros Hk Hd. apply IH; [lia|].
  apply d_up; [lia|done].
Qed.

Lemma derives_paren j k ts e : j <= 9 -> k <= 9 -> derives k ts e -> derives j (paren j k ts) e.
Proof.
  intros Hj Hk Hd. unfold paren. destruct (Nat.leb_spec j k); [by eapply derives_le|].
  apply (derives_le j 9); [done|done|]. apply d_parens. apply (derives_le 0 k); [lia|done|done].
Qed.

Lemma print_list es :
  Forall (fun e => forall k, k <= 9 -> derives k (print k e) e) es -> es ≠ [] ->
  derives_list (commas (map (print 0) es)) es.
Proof.
  induction 1 as [|e es He Hes IH]; [done|]. intros _.
  assert (H0 : derives 0 (print 0 e) e) by (apply He; lia).
  destruct es as [|e' es]; [by apply dl_one|]. apply dl_cons; [done|by apply IH].
Qed.

Lemma print_entries es :
  Forall (fun kv => forall k, k <= 9 -> derives k (print k kv.2) kv.2) es -> es ≠ [] ->
  derives_entries (commas (map (fun kv => TString kv.1 :: TColon :: print 0 kv.2) es)) es.
Proof.
  induction 1 as [|[key e] es He Hes IH]; [done|]. intros _.
  assert (H0 : derives 0 (print 0 e) e) by (apply He; lia).
  destruct es as [|e' es]; [by apply de_one|]. simpl. apply de_cons; [done|done|by apply IH].
Qed.

Lemma print_derives e k : k <= 9 -> derives k (print k e) e.
Proof.
  revert k. induction e using Expr_nested_ind; intros m Hm; simpl.
  all: try (apply (derives_le m 9); [done|done|]; by eauto with feel).
  - apply (derives_le m 9); [done|done|]. destruct l as [|x l]; [apply d_list_nil|].
    by apply d_list, print_list.
  - apply (derives_le m 9); [done|done|]. destruct l as [|x l]; [apply d_context_nil|].
    by apply d_context, print_entries.
  - apply (derives_le m 9); [done|done|]. apply d_range; auto with lia.
  - apply derives_paren; [done|lia|]. destruct op; [apply d_negate|apply d_not]; auto with lia.
  - apply derives_paren; [done|destruct op; simpl; lia|].
    apply d_binary; [destruct op; constructor|apply IHe1|apply IHe2]; destruct op; simpl; lia.
  - apply derives_paren; [done|lia|]. apply d_if; auto with lia.
  - apply derives_paren; [done|lia|]. apply d_path; auto with lia.
  - apply derives_paren; [done|lia|]. apply d_filter; auto with lia.
  - apply (derives_le m 9); [done|done|]. destruct l as [|x l]; [apply d_call_nil|].
    by apply d_call, print_list.
  - apply derives_paren; [done|lia|]. apply d_for; auto with lia.
  - apply derives_paren; [done|lia|]. apply d_quantified; auto with lia.
Qed.

(** ** The tokens of a phrase *)

(** No phrase holds an [Eof], and the functions a tree calls are names of
    its tokens. *)
Fixpoint called (e : Expr) : list string :=
  match e with
  | ENull | EBool _ | ENumber _ | EString _ | EName _ => []
  | EList l => flat_map called l
  | EContext l => flat_map (fun kv => called kv.2) l
  | ERange a b _ _ | EBinary _ a b | EFilter a b | EFor _ a b | EQuantified _ _ a b =>
      called a ++ called b
  | EUnary _ x | EPath x _ => called x
  | EIf c t x => called c ++ called t ++ called x
  | ECall n l => n :: flat_map called l
  end.

Definition tokens_ok (ts : list TokenKind) (names : list string) : Prop :=
  TEof ∉ ts /\ forall n, n ∈ names -> TName n ∈ ts.

Lemma derives_tokens k ts e : derives k ts e -> tokens_ok ts (called e).
Proof.
  intros Hd.
  induction Hd using derives_mut
    with (P0 := fun ts es (_ : derives_list ts es) => tokens_ok ts (flat_map called es))
         (P1 := fun ts es (_ : derives_entries ts es) =>
                  tokens_ok ts (flat_map (fun kv => called kv.2) es));
    unfold tokens_ok in *; destruct_and?; simpl.
  all: try match goal with
       | Ho : infix _ ?t _ |- _ => assert (t ≠ TEof) by (destruct Ho; done)
       end.
  all: try match goal with
       | Hk : key_of ?k = Some _ |- _ => assert (k ≠ TEof) by by intros ->
       end.
  all: try (destruct q); try (destruct b); try (destruct si, ei).
  all: split; [set_solver|]; intros ?; rewrite ?app_nil_r; set_solver.
Qed.

(** C38: printing then parsing is the identity.  The tokens [print 0] writes
    for a tree, with parentheses only where precedence and left association
    require them, are parsed back to the same tree. *)
Theorem parse_print (e : Expr) (ts : list Token) :
  kind <$> ts = print 0 e ++ [TEof] -> parse ts = Ok e.
Proof.
  intros Hts. assert (Hd : derives 0 (print 0 e) e) by (apply print_derives; lia).
  apply (parse_iff ts (print 0 e)); [|done]. split; [done|]. apply (derives_tokens _ _ _ Hd).
Qed.

(** ** Witnesses *)
Definition bare (k : TokenKind) : Token := {| kind := k; start := 0; end_ := 0 |}.

(** [(x + y) * f(z)]. *)
Definition product : Expr :=
  EBinary Multiply (EBinary Add (EName "x") (EName "y")) (ECall "f" [EName "z"]).
Definition product_kinds : list TokenKind :=
  [TLParen; TName "x"; TPlus; TName "y"; TRParen; TStar; TName "f"; TLParen; TName "z"; TRParen].
Definition product_tokens : list Token := map bare (product_kinds ++ [TEof]).

Lemma product_ends : ends_in_eof product_tokens product_kinds.
Proof.
  split; [reflexivity|]. intros Hin. apply list_elem_of_In in Hin. simpl in Hin.
  intuition discriminate.
Qed.

Lemma parse_total_witness :
  (exists e, parse product_tokens = Ok e) \/ (exists err, parse product_tokens = Err (PRaised err)).
Proof. exact (parse_total product_tokens product_kinds product_ends). Defined.

Lemma parse_correct_witness : derives 0 product_kinds product.
Proof.
  apply (parse_correct product_tokens product_kinds product_ends product).
  vm_compute. reflexivity.
Defined.

Lemma parse_print_witness : parse product_tokens = Ok product.
Proof. apply (parse_print product product_tokens). reflexivity. Defined.
