(* ===== verification/FeelEvaluator.v ===== *)
(** * FEEL: the evaluator and the pipeline

    Models [flowable-dmn-engine/src/feel/evaluator.rs] and [feel/mod.rs].
    The source threads one [&mut HashMap] through the whole evaluation, so
    the evaluator is a computation on that scope: what a [for], a quantifier
    or a filter inserts stays in it.  [evaluate_binary] and [evaluate_call]
    take the evaluations of their operands as arguments. *)
From S2P Require Import Prelude Chars Float64 Json Errors FeelLexer FeelParser FeelGrammar.

Notation Scope := (gmap string Value).
Definition EvalM (A : Type) : Type := stM Scope DmnError A.

(** ** Values *)
Definition number (v : Value) : result DmnError f64 :=
  ok_or (DmnExecution [Lit "FEEL arithmetic requires numeric values"]) (as_f64 v).

Definition truthy (v : Value) : bool := unwrap_or false (as_bool v).

Definition numeric_value (x : f64) : Value :=
  if f64_eqb (f64_fract x) f64_zero && f64_leb (f64_of_Z i64_min) x && f64_leb x (f64_of_Z i64_max)
  then value_of_i64 (i64_of_f64 x) else value_of_f64 x.

Definition compare (l r : Value) (predicate : f64 -> f64 -> bool) : result DmnError Value :=
  a ← number l; b ← number r; Ok (VBool (predicate a b)).

Definition arithmetic_value (l r : Value) (operation : f64 -> f64 -> f64)
  : result DmnError Value :=
  a ← number l; b ← number r; Ok (numeric_value (operation a b)).

Definition value_of_usize (n : nat) : Value := VNumber (PosInt (Z.of_nat n)).

Definition str_or_empty (v : Value) : string := unwrap_or EmptyString (as_str v).

(** [iter().sum::<f64>()], whose neutral element is [-0.0]. *)
Definition f64_sum (l : list f64) : f64 := fold_left f64_add l (S754_zero true).

Section Evaluator.
Context `{Unicode} `{Libm}.

Definition unless_zero (divisor : f64) (q : result DmnError Value) : result DmnError Value :=
  if f64_eqb divisor f64_zero then Err (DmnExecution [Lit "division by zero"]) else q.

Definition apply_binary (op : BinaryOp) (l r : Value) : result DmnError Value :=
  match op with
  | Add => arithmetic_value l r f64_add
  | Subtract => arithmetic_value l r f64_sub
  | Multiply => arithmetic_value l r f64_mul
  | Divide =>
      divisor ← number r;
      unless_zero divisor (a ← number l; Ok (value_of_f64 (f64_div a divisor)))
  | Power => a ← number l; b ← number r; Ok (value_of_f64 (f64_powf a b))
  | Equal => Ok (VBool (value_eqb l r))
  | NotEqual => Ok (VBool (negb (value_eqb l r)))
  | Less => compare l r f64_ltb
  | LessEqual => compare l r f64_leb
  | Greater => compare l r (fun a b => f64_ltb b a)
  | GreaterEqual => compare l r (fun a b => f64_leb b a)
  | In => Ok (VBool (match as_array r with
                     | Some items => value_contains items l
                     | None => false
                     end))
  | And | Or => Err (DmnExecution []) (* [unreachable!()]: see [evaluate_binary] *)
  end.

Definition evaluate_binary (op : BinaryOp) (left_ right_ : EvalM Value) : EvalM Value :=
  match op with
  | And =>
      l ← left_;
      if truthy l then r ← right_; mret (VBool (truthy r)) else mret (VBool false)
  | Or =>
      l ← left_;
      if truthy l then mret (VBool true) else r ← right_; mret (VBool (truthy r))
  | _ => l ← left_; r ← right_; lift (apply_binary op l r)
  end.

(** [iter().map(..).collect::<Result<Vec<_>, _>>()]: in order, up to the
    first error. *)
Fixpoint collect (l : list (EvalM Value)) : EvalM (list Value) :=
  match l with
  | [] => mret []
  | m :: l => v ← m; vs ← collect l; mret (v :: vs)
  end.

Definition builtin (name : string) (values : list Value) : result DmnError Value :=
  let first := unwrap_or VNull (head values) in
  let f := to_ascii_lowercase name in
  if bool_decide (f = "contains") then
    Ok (VBool (str_contains (str_or_empty first)
                 (unwrap_or EmptyString (values !! 1 ≫= as_str))))
  else if bool_decide (f = "list contains") then
    Ok (VBool (match as_array first, values !! 1 with
               | Some items, Some needle => value_contains items needle
               | _, _ => false
               end))
  else if bool_decide (f = "string length") then
    Ok (value_of_usize (length (chars (str_or_empty first))))
  else if bool_decide (f = "upper case") then Ok (VString (to_uppercase (str_or_empty first)))
  else if bool_decide (f = "lower case") then Ok (VString (to_lowercase (str_or_empty first)))
  else if bool_decide (f = "abs") then x ← number first; Ok (value_of_f64 (f64_abs x))
  else if bool_decide (f = "floor") then x ← number first; Ok (value_of_f64 (f64_floor x))
  else if bool_decide (f = "ceiling") || bool_decide (f = "ceil") then
    x ← number first; Ok (value_of_f64 (f64_ceil x))
  else if bool_decide (f = "count") then
    Ok (value_of_usize (match as_array first with
                        | Some l => length l
                        | None => length values
                        end))
  else if bool_decide (f = "sum") then
    Ok (value_of_f64 (match as_array first with
                      | Some items => f64_sum (omap as_f64 items)
                      | None => f64_zero
                      end))
  else if bool_decide (f = "append") then
    Ok (VArray (unwrap_or [] (as_array first) ++ tail values))
  else Err (UnsupportedModel "FEEL function"
              [Lit "unsupported FEEL function '"; Lit name; Lit "'"]).

Definition evaluate_call (name : string) (args : list (EvalM Value)) : EvalM Value :=
  values ← collect args;
  lift (builtin name values).

Definition insert_scope (x : string) (v : Value) : EvalM unit := modify <[x := v]>.

(** [evaluate(input)?.as_array().cloned().unwrap_or_default()]. *)
Definition items_of (v : Value) : list Value := unwrap_or [] (as_array v).

Fixpoint filter_loop (predicate : EvalM Value) (values result_ : list Value) : EvalM Value :=
  match values with
  | [] => mret (VArray result_)
  | v :: values =>
      insert_scope "item" v ;;
      p ← predicate;
      filter_loop predicate values (if truthy p then result_ ++ [v] else result_)
  end.

Fixpoint for_loop (variable : string) (body : EvalM Value) (values result_ : list Value)
  : EvalM Value :=
  match values with
  | [] => mret (VArray result_)
  | v :: values =>
      insert_scope variable v ;;
      r ← body;
      for_loop variable body values (result_ ++ [r])
  end.

Fixpoint quantified_loop (every : bool) (variable : string) (predicate : EvalM Value)
  (values : list Value) : EvalM Value :=
  match values with
  | [] => mret (VBool every)
  | v :: values =>
      insert_scope variable v ;;
      p ← predicate;
      let current := truthy p in
      if (every && negb current) || (negb every && current) then mret (VBool current)
      else quantified_loop every variable predicate values
  end.

Fixpoint context_loop (entries : list (string * EvalM Value)) (object : list (string * Value))
  : EvalM Value :=
  match entries with
  | [] => mret (VObject object)
  | (key, m) :: entries => v ← m; context_loop entries (map_insert key v object)
  end.

Definition range_value (s e : Value) (start_inclusive end_inclusive : bool) : Value :=
  VObject (map_insert "endInclusive" (VBool end_inclusive)
    (map_insert "startInclusive" (VBool start_inclusive)
      (map_insert "end" e (map_insert "start" s [])))).

Fixpoint evaluate_inner (expr : Expr) : EvalM Value :=
  match expr with
  | ENull => mret VNull
  | EBool b => mret (VBool b)
  | ENumber v => mret (numeric_value v)
  | EString s => mret (VString s)
  | EName n => scope ← get; mret (unwrap_or VNull (scope !! n))
  | EList items => vs ← collect (List.map evaluate_inner items); mret (VArray vs)
  | EContext entries =>
      context_loop (List.map (fun kv => (kv.1, evaluate_inner kv.2)) entries) []
  | ERange start_ end_ si ei =>
      s ← evaluate_inner start_; e ← evaluate_inner end_; mret (range_value s e si ei)
  | EUnary Negate x => v ← evaluate_inner x; n ← lift (number v); mret (value_of_f64 (f64_neg n))
  | EUnary Not x => v ← evaluate_inner x; mret (VBool (negb (truthy v)))
  | EBinary op l r => evaluate_binary op (evaluate_inner l) (evaluate_inner r)
  | EIf c t e => v ← evaluate_inner c; if truthy v then evaluate_inner t else evaluate_inner e
  | EPath target key =>
      v ← evaluate_inner target; mret (unwrap_or VNull (value_get key v))
  | EFilter target predicate =>
      v ← evaluate_inner target; filter_loop (evaluate_inner predicate) (items_of v) []
  | ECall name args => evaluate_call name (List.map evaluate_inner args)
  | EFor variable input body =>
      v ← evaluate_inner input; for_loop variable (evaluate_inner body) (items_of v) []
  | EQuantified every variable input predicate =>
      v ← evaluate_inner input;
      quantified_loop every variable (evaluate_inner predicate) (items_of v)
  end.

Definition evaluate (expr : Expr) (context : Scope) : result DmnError Value :=
  (evaluate_inner expr context).1.

(** [feel::evaluate]; [None] would be a panic or a loop without end. *)
Definition feel_evaluate (source : string) (context : Scope) : option (result DmnError Value) :=
  match lex source with
  | None => None
  | Some (Err e) => Some (Err e)
  | Some (Ok tokens) =>
      match parse tokens with
      | Ok e => Some (evaluate e context)
      | Err (PRaised e) => Some (Err e)
      | Err _ => None
      end
  end.
End Evaluator.

(** ** The scope *)

(** The names an evaluation may write into the scope. *)
Fixpoint binders (e : Expr) : list string :=
  match e with
  | ENull | EBool _ | ENumber _ | EString _ | EName _ => []
  | EList l | ECall _ l => flat_map binders l
  | EContext l => flat_map (fun kv => binders kv.2) l
  | ERange a b _ _ | EBinary _ a b => binders a ++ binders b
  | EUnary _ x | EPath x _ => binders x
  | EIf c t x => binders c ++ binders t ++ binders x
  | EFilter t p => "item"%string :: binders t ++ binders p
  | EFor x i b => x :: binders i ++ binders b
  | EQuantified _ x i p => x :: binders i ++ binders p
  end.

Section Scoping.
Context `{Unicode} `{Libm}.

Section Frame.
Context (x : string) (o : option Value).

Definition keeps {A} (m : EvalM A) : Prop := preserves (fun s : Scope => s !! x = o) m.

Lemma keeps_bind {A B} (m : EvalM A) (f : A -> EvalM B) :
  keeps m -> (forall a, keeps (f a)) -> keeps (m ≫= f).
Proof. apply preserves_bind. Qed.
Lemma keeps_ret {A} (a : A) : keeps (mret a).
Proof. apply preserves_ret. Qed.
Lemma keeps_lift {A} (r : result DmnError A) : keeps (lift r).
Proof. apply preserves_lift. Qed.
Lemma keeps_insert y v : y ≠ x -> keeps (insert_scope y v).
Proof. intros Hne s Hs. change (<[y:=v]> s !! x = o). by rewrite lookup_insert_ne. Qed.

Lemma keeps_collect l : Forall keeps l -> keeps (collect l).
Proof.
  induction 1 as [|m l Hm _ IH]; simpl; [apply keeps_ret|].
  apply keeps_bind; [done|]. intros v. apply keeps_bind; [done|]. intros vs. apply keeps_ret.
Qed.

Lemma keeps_filter p vs acc : "item" ≠ x -> keeps p -> keeps (filter_loop p vs acc).
Proof.
  intros Hne Hp. revert acc. induction vs as [|v vs IH]; intros acc; simpl; [apply keeps_ret|].
  apply keeps_bind; [by apply keeps_insert|]. intros _. by apply keeps_bind.
Qed.
Lemma keeps_for y b vs acc : y ≠ x -> keeps b -> keeps (for_loop y b vs acc).
Proof.
  intros Hne Hp. revert acc. induction vs as [|v vs IH]; intros acc; simpl; [apply keeps_ret|].
  apply keeps_bind; [by apply keeps_insert|]. intros _. by apply keeps_bind.
Qed.
Lemma keeps_quantified q y p vs : y ≠ x -> keeps p -> keeps (quantified_loop q y p vs).
Proof.
  intros Hne Hp. induction vs as [|v vs IH]; simpl; [apply keeps_ret|].
  apply keeps_bind; [by apply keeps_insert|]. intros _. apply keeps_bind; [done|].
  intros r. destruct (_ || _); [apply keeps_ret|done].
Qed.
Lemma keeps_context l acc : Forall (fun km => keeps km.2) l -> keeps (context_loop l acc).
Proof.
  intros Hl. revert acc. induction Hl as [|[k m] l Hm _ IH]; intros acc; simpl;
    [apply keeps_ret|]. by apply keeps_bind.
Qed.
Lemma keeps_binary op l r : keeps l -> keeps r -> keeps (evaluate_binary op l r).
Proof.
  intros Hl Hr.
  destruct op; simpl; (apply keeps_bind; [done|]); intros a; try destruct (truthy a);
    try apply keeps_ret; (apply keeps_bind; [done|]); intros b;
    try apply keeps_ret; apply keeps_lift.
Qed.
End Frame.

Lemma evaluate_keeps x o e : x ∉ binders e -> keeps x o (evaluate_inner e).
Proof.
  assert (Hflat : forall {A} (f : A -> list string) l, x ∉ flat_map f l -> Forall (fun a => x ∉ f a) l).
  { intros A f l. induction l as [|a l IH]; simpl; constructor; set_solver. }
  induction e using Expr_nested_ind; simpl; intros Hx; rewrite ?not_elem_of_cons, ?not_elem_of_app in Hx;
    destruct_and?; try apply keeps_ret.
  - apply keeps_bind; [apply preserves_get|]. intros s. apply keeps_ret.
  - apply keeps_bind; [|intros; apply keeps_ret]. apply keeps_collect, Forall_map.
    apply Hflat in Hx. rewrite Forall_forall in *. auto.
  - apply keeps_context, Forall_map. apply Hflat in Hx. rewrite Forall_forall in *. simpl. auto.
  - apply keeps_bind; [auto|]. intros a. apply keeps_bind; [auto|]. intros b. apply keeps_ret.
  - destruct op; (apply keeps_bind; [auto|]); intros v.
    + apply keeps_bind; [apply keeps_lift|]. intros n. apply keeps_ret.
    + apply keeps_ret.
  - apply keeps_binary; auto.
  - apply keeps_bind; [auto|]. intros v. destruct (truthy v); auto.
  - apply keeps_bind; [auto|]. intros v. apply keeps_ret.
  - apply keeps_bind; [auto|]. intros v. apply keeps_filter; auto.
  - apply keeps_bind; [|intros; apply keeps_lift]. apply keeps_collect, Forall_map.
    apply Hflat in Hx. rewrite Forall_forall in *. auto.
  - apply keeps_bind; [auto|]. intros v. apply keeps_for; auto.
  - apply keeps_bind; [auto|]. intros v. apply keeps_quantified; auto.
Qed.

(** Evaluation writes only what the expression binds: a name that is not
    the variable of a [for] or a quantifier, nor [item] under a filter, has
    the same value in the scope afterwards, also when evaluation fails. *)
Theorem evaluate_frame (x : string) (e : Expr) (s : Scope) :
  x ∉ binders e -> (evaluate_inner e s).2 !! x = s !! x.
Proof. intros Hx. by apply (evaluate_keeps x (s !! x) e Hx). Qed.

Lemma evaluate_same_scope e s : binders e = [] -> (evaluate_inner e s).2 = s.
Proof.
  intros He. apply map_eq. intros x. apply (evaluate_keeps x (s !! x) e); [|done].
  rewrite He. apply not_elem_of_nil.
Qed.

(** What a body with no binders of its own computes for each value of the
    variable, in the scope [s]. *)
Definition computes (body : Expr) (x : string) (s : Scope) (vs : list Value)
  (g : Value -> Value) : Prop :=
  binders body = [] /\ forall v, v ∈ vs -> evaluate body (<[x := v]> s) = Ok (g v).

Lemma computes_run body x s vs g v s' :
  computes body x s vs g -> v ∈ vs -> <[x := v]> s' = <[x := v]> s ->
  (insert_scope x v ;; evaluate_inner body) s' = (Ok (g v), <[x := v]> s).
Proof.
  intros [Hb Hg] Hv Hs. unfold insert_scope, modify, mbind, stM_bind. rewrite Hs.
  apply Hg in Hv. unfold evaluate in Hv.
  pose proof (evaluate_same_scope body (<[x := v]> s) Hb) as Hs2.
  destruct (evaluate_inner body _) as [r s2]. simpl in *. congruence.
Qed.

Lemma computes_tail body x s v vs g : computes body x s (v :: vs) g -> computes body x s vs g.
Proof. intros [? Hg]. split; [done|]. intros w Hw. apply Hg. by right. Qed.

(** One turn of a loop over the values of [x]. *)
Lemma turn {A} (body : Expr) x s s' v vs g (k : Value -> EvalM A) :
  computes body x s (v :: vs) g -> <[x := v]> s' = <[x := v]> s ->
  (insert_scope x v ;; r ← evaluate_inner body; k r) s' = k (g v) (<[x := v]> s).
Proof.
  intros Hc Hs. pose proof (computes_run _ _ _ _ _ v s' Hc (list_elem_of_here _ _) Hs) as Hr.
  revert Hr. unfold insert_scope, modify, mbind, stM_bind.
  destruct (evaluate_inner body _) as [r s2]. simpl. by intros [= -> ->].
Qed.

Lemma for_loop_map x body s vs g acc s' :
  computes body x s vs g -> (forall v, <[x := v]> s' = <[x := v]> s) ->
  (for_loop x (evaluate_inner body) vs acc s').1 = Ok (VArray (acc ++ map g vs)).
Proof.
  revert acc s'. induction vs as [|v vs IH]; intros acc s' Hc Hs; simpl; [by rewrite app_nil_r|].
  rewrite (turn body x s s' v vs g) by done.
  rewrite IH; [by rewrite <- app_assoc|by eapply computes_tail|].
  intros w. by rewrite insert_insert_eq.
Qed.

Lemma filter_loop_filter p s vs g acc s' :
  computes p "item" s vs g -> (forall v, <["item" := v]> s' = <["item" := v]> s) ->
  (filter_loop (evaluate_inner p) vs acc s').1
  = Ok (VArray (acc ++ List.filter (fun v => truthy (g v)) vs)).
Proof.
  revert acc s'. induction vs as [|v vs IH]; intros acc s' Hc Hs; simpl; [by rewrite app_nil_r|].
  rewrite (turn p "item" s s' v vs g) by done.
  rewrite IH; [|by eapply computes_tail|intros w; by rewrite insert_insert_eq].
  destruct (truthy (g v)); [by rewrite <- app_assoc|done].
Qed.

Lemma quantified_loop_decides q x p s vs g s' :
  computes p x s vs g -> (forall v, <[x := v]> s' = <[x := v]> s) ->
  (quantified_loop q x (evaluate_inner p) vs s').1
  = Ok (VBool (if q then forallb (fun v => truthy (g v)) vs
               else existsb (fun v => truthy (g v)) vs)).
Proof.
  revert s'. induction vs as [|v vs IH]; intros s' Hc Hs; simpl; [by destruct q|].
  rewrite (turn p x s s' v vs g) by done.
  destruct q, (truthy (g v)); simpl; try done.
  all: apply IH; [by eapply computes_tail|intros w; by rewrite insert_insert_eq].
Qed.

(** [for], the filter and the quantifiers do what their names say.  When
    the input evaluates to the values [vs] and a body without binders of its
    own evaluates to [g v] for each of them, [for] returns the images in
    order, the filter the values whose image is [true], and [every]/[some]
    whether all/any image is [true]. *)
Theorem comprehensions_correct (x : string) (input body : Expr) (s s1 : Scope) (v0 : Value)
  (g : Value -> Value) (q : bool) :
  evaluate_inner input s = (Ok v0, s1) ->
  computes body x s1 (items_of v0) g ->
  evaluate (EFor x input body) s = Ok (VArray (map g (items_of v0)))
  /\ evaluate (EQuantified q x input body) s
     = Ok (VBool (if q then forallb (fun v => truthy (g v)) (items_of v0)
                  else existsb (fun v => truthy (g v)) (items_of v0)))
  /\ (x = "item"%string ->
      evaluate (EFilter input body) s
      = Ok (VArray (List.filter (fun v => truthy (g v)) (items_of v0)))).
Proof.
  intros Hi Hc. unfold evaluate. simpl. rewrite !(bind_ok _ _ _ _ _ Hi). split_and!.
  - by rewrite (for_loop_map x body s1 _ g).
  - by apply quantified_loop_decides with (s := s1).
  - intros ->. by apply (filter_loop_filter body s1 _ g []).
Qed.

(** The loop variable outlives its loop.  After a [for] over a non-empty
    list the name is still in the scope, bound to the last value, where the
    rest of the enclosing expression sees it. *)
Theorem for_variable_leaks (x : string) (input body : Expr) (s s1 s' : Scope) (v0 r v : Value) :
  evaluate_inner input s = (Ok v0, s1) ->
  evaluate_inner (EFor x input body) s = (Ok r, s') ->
  last (items_of v0) = Some v -> x ∉ binders body -> s' !! x = Some v.
Proof.
  intros Hi Hf Hl Hx. simpl in Hf. rewrite (bind_ok _ _ _ _ _ Hi) in Hf. clear Hi.
  revert Hf. generalize (@nil Value) as acc. revert s1.
  induction (items_of v0) as [|w vs IH]; intros s1 acc; [done|]. simpl.
  intros (? & s2 & [= <- <-] & Hf)%bind_inv_ok.
  apply bind_inv_ok in Hf as (rb & s3 & Hb & Hf).
  destruct vs as [|w' vs]; [|by eapply IH].
  simpl in Hf. injection Hf as _ <-. injection Hl as ->.
  pose proof (evaluate_keeps x (Some v) body Hx _ (lookup_insert_eq s1 x v)) as Hk.
  by rewrite Hb in Hk.
Qed.
End Scoping.

(** ** Operators and errors *)

(** The errors an evaluation can report. *)
Inductive eval_error : DmnError -> Prop :=
| err_number : eval_error (DmnExecution [Lit "FEEL arithmetic requires numeric values"])
| err_zero : eval_error (DmnExecution [Lit "division by zero"])
| err_function n :
    eval_error (UnsupportedModel "FEEL function" [Lit "unsupported FEEL function '"; Lit n; Lit "'"]).
#[export] Hint Constructors eval_error : feel.

Section Operators.
Context `{Unicode} `{Libm}.

Definition fails_well {A} (m : EvalM A) : Prop :=
  forall s e s', m s = (Err e, s') -> eval_error e.

Lemma fails_bind {A B} (m : EvalM A) (f : A -> EvalM B) :
  fails_well m -> (forall a, fails_well (f a)) -> fails_well (m ≫= f).
Proof.
  intros Hm Hf s e s'. unfold mbind, stM_bind. specialize (Hm s).
  destruct (m s) as [[a|e1] s1]; [apply Hf|]. intros [= -> ->]. eauto.
Qed.
Lemma fails_ret {A} (a : A) : fails_well (mret a).
Proof. by intros s e s'. Qed.
Lemma fails_lift {A} (r : result DmnError A) : (forall e, r = Err e -> eval_error e) -> fails_well (lift r).
Proof. intros Hr s e s' [= ->]. auto. Qed.

Lemma number_error v e : number v = Err e -> eval_error e.
Proof. unfold number. destruct (as_f64 v); simpl; [done|]. intros [= <-]. constructor. Qed.

Ltac numbers :=
  repeat match goal with
  | |- context [number ?v] => destruct (number v) eqn:?; simpl
  end.

Lemma apply_binary_error op l r e :
  op ≠ And -> op ≠ Or -> apply_binary op l r = Err e -> eval_error e.
Proof.
  intros Ha Ho. destruct op; try done; simpl; unfold arithmetic_value, compare, unless_zero;
    simpl; numbers; try done; try (intros [= <-]; by eapply number_error).
  all: destruct (f64_eqb _ _); simpl; try done; intros [= <-]; [constructor|..].
  all: try constructor; by eapply number_error.
Qed.

Lemma builtin_error name vs e : builtin name vs = Err e -> eval_error e.
Proof.
  unfold builtin. repeat case_bool_decide; simpl; numbers; try done;
    intros [= <-]; first [by eapply number_error|constructor].
Qed.

Lemma fails_collect l : Forall fails_well l -> fails_well (collect l).
Proof.
  induction 1; simpl; [apply fails_ret|]. apply fails_bind; [done|]. intros v.
  apply fails_bind; [done|]. intros vs. apply fails_ret.
Qed.

Lemma fails_insert x v : fails_well (insert_scope x v).
Proof. by intros s e s'. Qed.

Lemma fails_loops b :
  fails_well b ->
  (forall vs acc, fails_well (filter_loop b vs acc))
  /\ (forall x vs acc, fails_well (for_loop x b vs acc))
  /\ (forall q x vs, fails_well (quantified_loop q x b vs)).
Proof.
  intros Hb. split_and!.
  - induction vs as [|v vs IH]; intros acc; simpl; [apply fails_ret|].
    apply fails_bind; [apply fails_insert|]. intros _. by apply fails_bind.
  - intros x. induction vs as [|v vs IH]; intros acc; simpl; [apply fails_ret|].
    apply fails_bind; [apply fails_insert|]. intros _. by apply fails_bind.
  - intros q x. induction vs as [|v vs IH]; simpl; [apply fails_ret|].
    apply fails_bind; [apply fails_insert|]. intros _. apply fails_bind; [done|].
    intros p. destruct (_ || _); [apply fails_ret|done].
Qed.

Lemma fails_context l acc : Forall (fun km => fails_well km.2) l -> fails_well (context_loop l acc).
Proof.
  intros Hl. revert acc. induction Hl as [|[k m] l Hm _ IH]; intros acc; simpl;
    [apply fails_ret|]. by apply fails_bind.
Qed.

Lemma fails_binary op l r : fails_well l -> fails_well r -> fails_well (evaluate_binary op l r).
Proof.
  intros Hl Hr.
  assert (Hs : op ≠ And -> op ≠ Or ->
    fails_well (a ← l; b ← r; lift (apply_binary op a b))).
  { intros Ha Ho. apply fails_bind; [done|]. intros a. apply fails_bind; [done|]. intros b.
    apply fails_lift. intros e. by apply apply_binary_error. }
  destruct op; try (by apply Hs); clear Hs; simpl; (apply fails_bind; [done|]); intros a.
  all: destruct (truthy a); try apply fails_ret.
  all: apply fails_bind; [done|]; intros; apply fails_ret.
Qed.

Lemma evaluate_fails_well e : fails_well (evaluate_inner e).
Proof.
  induction e as [| | | | |l IH|l IH|a b si ei IHa IHb|op x IH|op a b IHa IHb|c t x IHc IHt IHx
                  |t k IH|t p IHt IHp|n l IH|x i b IHi IHb|q x i p IHi IHp]
    using Expr_nested_ind; simpl; try apply fails_ret.
  - by apply fails_bind.
  - apply fails_bind; [|intros; apply fails_ret]. by apply fails_collect, Forall_map.
  - by apply fails_context, Forall_map.
  - apply fails_bind; [done|]. intros u. apply fails_bind; [done|]. intros w. apply fails_ret.
  - destruct op; (apply fails_bind; [done|]); intros v; [|apply fails_ret].
    apply fails_bind; [|intros; apply fails_ret]. apply fails_lift. by apply number_error.
  - by apply fails_binary.
  - apply fails_bind; [done|]. intros v. by destruct (truthy v).
  - apply fails_bind; [done|]. intros v. apply fails_ret.
  - apply fails_bind; [done|]. intros v. by apply fails_loops.
  - apply fails_bind; [by apply fails_collect, Forall_map|]. intros vs. apply fails_lift.
    apply builtin_error.
  - apply fails_bind; [done|]. intros v. by apply fails_loops.
  - apply fails_bind; [done|]. intros v. by apply fails_loops.
Qed.

(** The evaluator fails for three reasons only: a non-numeric operand
    where a number is needed, a division by zero, or a call of a function it
    does not have. *)
Theorem evaluate_errors (e : Expr) (context : Scope) (err : DmnError) :
  evaluate e context = Err err -> eval_error err.
Proof.
  unfold evaluate. destruct (evaluate_inner e context) as [r s'] eqn:E. simpl. intros ->.
  by eapply evaluate_fails_well.
Qed.

(** [and] and [or] do not evaluate their right operand when the left one
    decides, so an error or a binding of the right operand has no effect. *)
Theorem logical_short_circuit (l r : Expr) (s s1 : Scope) (v : Value) :
  evaluate_inner l s = (Ok v, s1) ->
  evaluate_inner (EBinary (if truthy v then Or else And) l r) s = (Ok (VBool (truthy v)), s1).
Proof.
  intros Hl. destruct (truthy v) eqn:Ev; simpl; rewrite (bind_ok _ _ _ _ _ Hl), Ev; done.
Qed.

(** Membership in a range is never true: a range evaluates to an object,
    and [in] looks for its left operand in arrays only. *)
Theorem range_membership_false (x a b : Expr) (si ei : bool) (s s' : Scope) (v : Value) :
  evaluate_inner (EBinary In x (ERange a b si ei)) s = (Ok v, s') -> v = VBool false.
Proof.
  simpl. intros (w & s1 & _ & Hr)%bind_inv_ok.
  apply bind_inv_ok in Hr as (rv & s2 & Hr & Hin).
  apply bind_inv_ok in Hr as (sa & s3 & _ & Hr). apply bind_inv_ok in Hr as (sb & s4 & _ & Hr).
  injection Hr as <- _. by injection Hin as <- _.
Qed.

(** A quotient never equals an integer literal: division yields the
    floating-point representation, a literal with an integral value the
    integer one, and [=] compares representations. *)
Theorem quotient_never_equals_integer (a b : Expr) (x : f64) (n : Z) (s s' : Scope) (v : Value) :
  numeric_value x = value_of_i64 n ->
  evaluate_inner (EBinary Equal (EBinary Divide a b) (ENumber x)) s = (Ok v, s') ->
  v = VBool false.
Proof.
  intros Hx. simpl. intros (q & s1 & Hq & Hr)%bind_inv_ok.
  apply bind_inv_ok in Hr as (i & s2 & [= <- <-] & Hr). rewrite Hx in Hr.
  apply bind_inv_ok in Hq as (va & s3 & _ & Hq). apply bind_inv_ok in Hq as (vb & s4 & _ & Hq).
  injection Hq as Hq _. injection Hr as <- _. f_equal. revert Hq.
  destruct (number vb) as [d|]; simpl; [|done]. unfold unless_zero.
  destruct (f64_eqb d f64_zero); [done|]. destruct (number va) as [c|]; simpl; [|done].
  intros [= <-]. unfold value_of_f64, value_of_i64.
  destruct (f64_is_finite _), (Z.ltb n 0); done.
Qed.
End Operators.

(** ** The pipeline *)
Fixpoint no_space (s : string) : bool :=
  match s with
  | EmptyString => true
  | String a s => negb (byte_of a =? 32)%Z && no_space s
  end.

Lemma no_space_lower s : no_space (to_ascii_lowercase s) = no_space s.
Proof.
  induction s as [|a s IH]; simpl; [done|]. rewrite IH. f_equal. f_equal.
  unfold to_ascii_lowercase_byte, is_ascii_upper.
  pose proof (Ascii.N_ascii_bounded a). unfold byte_of in *.
  destruct ((65 <=? _) && _)%Z eqn:E; [|done].
  assert (Hb : byte_of (ascii_of (Z.of_N (Ascii.N_of_ascii a) + 32)) = (Z.of_N (Ascii.N_of_ascii a) + 32)%Z)
    by (apply byte_of_ascii_of; lia).
  unfold byte_of in Hb. rewrite Hb.
  destruct (Z.eqb_spec (Z.of_N (Ascii.N_of_ascii a) + 32) 32);
    destruct (Z.eqb_spec (Z.of_N (Ascii.N_of_ascii a)) 32); lia || done.
Qed.

Lemma no_space_of_bytes l s :
  Forall (fun b => (0 <= b < 256 /\ b <> 32)%Z) l -> no_space s = true -> no_space (of_bytes l s) = true.
Proof.
  intros Hl Hs. induction Hl as [|b l [Hb Hn] _ IH]; simpl; [done|].
  rewrite byte_of_ascii_of by done. by rewrite (proj2 (Z.eqb_neq _ _) Hn).
Qed.

Lemma no_space_of_chars cs :
  Forall scalar cs -> Forall (fun c => c ≠ 32%Z) cs -> no_space (of_chars cs) = true.
Proof.
  intros Hs Hn. induction Hs as [|c cs Hc _ IH]; simpl; [done|].
  apply Forall_cons in Hn as [Hn Hns]. apply no_space_of_bytes; [|by apply IH].
  unfold scalar in Hc. unfold char_bytes.
  repeat case_match; rewrite ?Z.ltb_lt, ?Z.ltb_ge in *; repeat constructor;
    Z.to_euclidean_division_equations; lia.
Qed.

Section Pipeline.
Context `{Unicode} `{Libm}.

Lemma lexes_ends_in_eof b cs ts : lexes b cs ts -> exists init, ends_in_eof ts init.
Proof.
  intros (init & -> & Hi & _)%lexes_structure. exists (kind <$> init).
  split; [by rewrite fmap_app|]. intros Hin.
  apply list_elem_of_fmap in Hin as (t & Hk & Ht). rewrite Forall_forall in Hi.
  destruct (Hi t Ht) as [Hne _]. congruence.
Qed.

(** FEEL evaluation is total: on every source text and every context it
    returns a value or an error, and neither lexer nor parser can panic or
    loop on what the previous stage hands over. *)
Theorem feel_evaluate_total (cs : list Z) (context : Scope) :
  Forall scalar cs -> exists r, feel_evaluate (of_chars cs) context = Some r.
Proof.
  intros Hcs. unfold feel_evaluate.
  assert (Hl : is_Some (lex (of_chars cs))).
  { apply lex_loop_total. unfold char_indices. by rewrite length_char_indices. }
  destruct Hl as [[ts|e] Hl]; rewrite Hl; [|eauto].
  apply lex_iff in Hl; [|done]. destruct (lexes_ends_in_eof _ _ _ Hl) as [init Hi].
  pose proof (parse_wp ts init Hi (fun _ => True) (fun _ _ => I)) as Hp.
  destruct (parse ts) as [e|[]]; eauto; done.
Qed.

(** Four of the evaluator's functions cannot be called from a source
    text: their names contain a space, and no name the lexer produces does,
    so every call of the parsed tree misses them. *)
Theorem spaced_builtins_unreachable (cs : list Z) (ts : list Token) (e : Expr) (n : string) :
  Forall scalar cs -> lex (of_chars cs) = Some (Ok ts) -> parse ts = Ok e -> n ∈ called e ->
  no_space (to_ascii_lowercase n) = true
  /\ to_ascii_lowercase n
       ∉ ["list contains"; "string length"; "upper case"; "lower case"]%string.
Proof.
  intros Hcs Hl Hp Hn. apply lex_iff in Hl; [|done].
  destruct (lexes_ends_in_eof _ _ _ Hl) as [init Hi]. apply (parse_iff ts init Hi) in Hp.
  apply (proj2 (derives_tokens _ _ _ Hp)) in Hn.
  assert (Ht : TName n ∈ kind <$> ts) by (destruct Hi as [-> _]; set_solver).
  apply list_elem_of_fmap in Ht as (t & Hk & Ht).
  destruct (lexes_names _ _ _ _ _ Hl Hcs Ht (eq_sym Hk)) as (c & w & -> & Hc & Hw & Hs).
  assert (Hns : no_space (of_chars (c :: w)) = true).
  { apply no_space_of_chars; [done|]. constructor.
    - intros ->. discriminate Hc.
    - eapply Forall_impl; [exact Hw|]. simpl. intros x Hx ->. discriminate Hx. }
  rewrite <- no_space_lower in Hns. split; [done|]. intros Hin.
  repeat (apply elem_of_cons in Hin as [Hin|Hin]; [rewrite Hin in Hns; discriminate Hns|]).
  by apply not_elem_of_nil in Hin.
Qed.
End Pipeline.

(** ** Witnesses *)
#[local] Existing Instance ascii_only.
Definition no_libm : Libm := {| f64_powf a _ := a |}.
#[local] Existing Instance no_libm.

Definition lit (n : Z) : Expr := ENumber (f64_of_Z n).
Definition one_two : Expr := EList [lit 1; lit 2].
Definition int (n : Z) : Value := VNumber (PosInt n).

Lemma evaluate_frame_witness :
  (evaluate_inner (EFor "i" one_two (EName "i")) (<["j" := VNull]> ∅)).2 !! "j" = Some VNull.
Proof.
  rewrite (evaluate_frame "j" (EFor "i" one_two (EName "i")) (<["j" := VNull]> ∅)); [reflexivity|].
  intros Hin. apply list_elem_of_In in Hin. simpl in Hin. intuition discriminate.
Defined.

Lemma comprehensions_correct_witness :
  evaluate (EFor "i" one_two (EBinary Less (EName "i") (lit 2))) ∅
  = Ok (VArray [VBool true; VBool false])
  /\ evaluate (EQuantified true "i" one_two (EBinary Less (EName "i") (lit 2))) ∅
     = Ok (VBool false).
Proof.
  destruct (comprehensions_correct "i" one_two (EBinary Less (EName "i") (lit 2)) ∅ ∅
    (VArray [int 1; int 2]) (fun v => VBool (value_eqb v (int 1))) true) as (H1 & H2 & _).
  - vm_compute. reflexivity.
  - split; [reflexivity|]. intros v Hv. apply list_elem_of_In in Hv. simpl in Hv.
    destruct Hv as [<-|[<-|[]]]; vm_compute; reflexivity.
  - split; [exact H1|exact H2].
Defined.

Lemma for_variable_leaks_witness :
  (evaluate_inner (EFor "i" one_two (EName "i")) ∅).2 !! "i" = Some (int 2).
Proof.
  apply (for_variable_leaks "i" one_two (EName "i") ∅ ∅ _ (VArray [int 1; int 2])
    (VArray [int 1; int 2]) (int 2)).
  - vm_compute. reflexivity.
  - vm_compute. reflexivity.
  - reflexivity.
  - apply not_elem_of_nil.
Defined.

Lemma evaluate_errors_witness :
  eval_error (DmnExecution [Lit "division by zero"]).
Proof.
  apply (evaluate_errors (EBinary Divide (lit 1) (lit 0)) ∅). vm_compute. reflexivity.
Defined.

Lemma logical_short_circuit_witness :
  evaluate_inner (EBinary And (EBool false) (EBinary Divide (lit 1) (lit 0))) ∅
  = (Ok (VBool false), ∅).
Proof.
  apply (logical_short_circuit (EBool false) (EBinary Divide (lit 1) (lit 0)) ∅ ∅ (VBool false)).
  reflexivity.
Defined.

Lemma range_membership_false_witness :
  exists v, evaluate (EBinary In (lit 3) (ERange (lit 1) (lit 5) true true)) ∅ = Ok v
    /\ v = VBool false.
Proof.
  eexists. split; [vm_compute; reflexivity|].
  apply (range_membership_false (lit 3) (lit 1) (lit 5) true true ∅ ∅). vm_compute. reflexivity.
Defined.

Lemma quotient_never_equals_integer_witness :
  exists v, evaluate (EBinary Equal (EBinary Divide (lit 6) (lit 2)) (lit 3)) ∅ = Ok v
    /\ v = VBool false.
Proof.
  eexists. split; [vm_compute; reflexivity|].
  apply (quotient_never_equals_integer (lit 6) (lit 2) (f64_of_Z 3) 3 ∅ ∅).
  - vm_compute. reflexivity.
  - vm_compute. reflexivity.
Defined.

Lemma feel_evaluate_total_witness :
  exists r, feel_evaluate (of_chars (chars "every x in [1, 2] satisfies x >= 1")) ∅ = Some r.
Proof. apply feel_evaluate_total. apply scalars_ok. vm_compute. reflexivity. Defined.

Definition call_source : list Z := chars "contains('abc', 'b')".

Lemma spaced_builtins_unreachable_witness :
  to_ascii_lowercase "contains"
    ∉ ["list contains"; "string length"; "upper case"; "lower case"]%string.
Proof.
  eapply (spaced_builtins_unreachable call_source _ _ "contains").
  - apply scalars_ok. vm_compute. reflexivity.
  - vm_compute. reflexivity.
  - vm_compute. reflexivity.
  - simpl. left.
Defined.
