(* ===== verification/DmnTypes.v ===== *)
(** * DMN: the data of decision tables

    The types of [flowable-dmn-engine/src/models.rs]: hit policies, unary
    tests, clauses, rules, decision definitions, execution requests and
    results, audit and history records (without the labels, descriptions and
    annotations, which are stored and never read); the conversion of result
    rows to variables; and the interfaces to the libraries the engine calls ([chrono],
    [regex], [serde_json]'s reader). *)
From S2P Require Import Prelude Chars Float64 Json Errors FeelLexer FeelEvaluator.

Inductive CollectOperator : Type := Count | Sum | Min | Max.

Inductive DmnHitPolicy : Type :=
| First | Unique | AnyHit | RuleOrder | OutputOrder | Priority | Collect | Complete | Batch.

Inductive DmnDeferredOperator : Type :=
| DEquals | DNotEquals | DGreaterThan | DGreaterThanOrEqual | DLessThan | DLessThanOrEqual.

Inductive DmnListContainsNeedle : Type :=
| NLiteral (v : Value)
| NVariable (name : string).

Inductive DmnStringFunction : Type := SContains | SStartsWith | SEndsWith | SMatches.
Inductive DmnStringTransform : Type := LowerCase | UpperCase | StringLength.
Inductive DmnComparisonOperator : Type :=
| CGreaterThan | CGreaterThanOrEqual | CLessThan | CLessThanOrEqual.

Inductive DmnUnaryTest : Type :=
| TAny
| TEquals (v : Value)
| TNotEquals (v : Value)
| TStringFunction (function : DmnStringFunction) (needle : string)
| TStringTransform (transform : DmnStringTransform) (expected : string)
| TStringTransformComparison (transform : DmnStringTransform)
    (operator : DmnComparisonOperator) (expected : Value)
| TGreaterThan (v : Value)
| TGreaterThanOrEqual (v : Value)
| TLessThan (v : Value)
| TLessThanOrEqual (v : Value)
| TRange (start end_ : Value) (start_inclusive end_inclusive : bool)
| TAnyOf (tests : list DmnUnaryTest)
| TNot (test : DmnUnaryTest)
| TAnd (tests : list DmnUnaryTest)
| TOr (tests : list DmnUnaryTest)
| TInstanceOf (type_name : string)
| TSubstring (start : Z) (length : option Z) (expected : string)
| TReplace (pattern replacement : string) (flags : option string) (expected : string)
| TListContains (needle : DmnListContainsNeedle)
| TInList (values : list Value)
| TDeferredComparison (operator : DmnDeferredOperator) (source : string)
| TElCondition (source : string)
| TPropertyPath (path : list string) (test : DmnUnaryTest).

Record DmnInputClause := mkInput {
  in_id : string;
  input_variable : string;
  in_type_ref : option string
}.

Record DmnOutputClause := mkOutput {
  out_id : string;
  out_name : string;
  out_type_ref : option string;
  output_values : list Value
}.

Record DmnRuleInputEntry := mkInputEntry {
  ie_id : option string;
  ie_expression : DmnUnaryTest
}.

Record DmnRuleOutputEntry := mkOutputEntry {
  oe_id : option string;
  oe_value : Value;
  oe_expression : string
}.

Record DmnRule := mkRule {
  rule_id : string;
  input_entries : list DmnRuleInputEntry;
  output_entries : list DmnRuleOutputEntry
}.

(** A decision of a resource, and the definition a deployment stores for it. *)
Record DmnDecision := mkDecision {
  de_id : string;
  de_key : string;
  de_name : string;
  de_hit_policy : DmnHitPolicy;
  de_collect_operator : option CollectOperator;
  de_inputs : list DmnInputClause;
  de_outputs : list DmnOutputClause;
  de_rules : list DmnRule;
  de_required_decisions : list string
}.

Record DmnDecisionDefinition := mkDefinition {
  df_id : string;
  df_decision_id : string;
  df_deployment_id : string;
  df_key : string;
  df_name : string;
  df_version : Z;
  df_category : option string;
  df_parent_deployment_id : option string;
  df_tenant_id : option string;
  df_resource_name : string;
  df_hit_policy : DmnHitPolicy;
  df_collect_operator : option CollectOperator;
  df_inputs : list DmnInputClause;
  df_outputs : list DmnOutputClause;
  df_rules : list DmnRule;
  df_required_decisions : list string
}.

Record DecisionService := mkService {
  ds_id : string;
  ds_name : string;
  ds_required_decisions : list string;
  ds_output_decisions : list string
}.

Record DmnModel := mkModel {
  mo_id : string;
  mo_name : string;
  mo_decisions : list DmnDecision;
  mo_decision_services : list DecisionService
}.

Record DmnDeployment := mkDeployment {
  dp_id : string;
  dp_name : string;
  dp_category : option string;
  dp_parent_deployment_id : option string;
  dp_tenant_id : option string;
  dp_resource_names : list string;
  dp_deployed_at : Z
}.

(** [Map<String, Value>]: the rows of a decision result. *)
Notation Row := (list (string * Value)).

Record DmnExecutionRequest := mkRequest {
  rq_variables : Value;
  rq_business_key : option string;
  rq_tenant_id : option string;
  rq_parent_deployment_id : option string;
  rq_disable_history : bool;
  rq_fallback_to_default_tenant : bool;
  rq_instance_id : option string;
  rq_execution_id : option string;
  rq_activity_id : option string;
  rq_scope_type : option string
}.

Definition request_with_variables (variables : Value) (r : DmnExecutionRequest)
  : DmnExecutionRequest :=
  mkRequest variables (rq_business_key r) (rq_tenant_id r) (rq_parent_deployment_id r)
    (rq_disable_history r) (rq_fallback_to_default_tenant r) (rq_instance_id r)
    (rq_execution_id r) (rq_activity_id r) (rq_scope_type r).

Definition request_new (variables : Value) : DmnExecutionRequest :=
  mkRequest variables None None None false false None None None None.

Record DmnExpressionExecution := mkExpressionExecution {
  ee_id : Message;
  ee_result : Value
}.

Record DmnRuleExecutionAudit := mkAudit {
  au_rule_number : nat;
  au_rule_id : string;
  au_valid : bool;
  au_condition_results : list DmnExpressionExecution;
  au_conclusion_results : list DmnExpressionExecution;
  au_validation_message : option Message;
  au_exception_message : option Message
}.

Record DmnExecutionResult := mkResult {
  rs_execution_id : string;
  rs_decision_definition_id : string;
  rs_deployment_id : string;
  rs_decision_key : string;
  rs_decision_name : string;
  rs_decision_version : Z;
  rs_hit_policy : DmnHitPolicy;
  rs_matched_rule_id : option string;
  rs_matched_rule_count : nat;
  rs_rule_executions : list DmnRuleExecutionAudit;
  rs_business_key : option string;
  rs_executed_at : Z;
  rs_inputs : Row;
  rs_decision_result : list Row;
  rs_multiple_results : bool;
  rs_decision_service_result : option (list (string * list Row));
  rs_validation_message : option Message
}.

Record HistoricDecisionExecution := mkHistoric {
  hi_execution_id : string;
  hi_decision_definition_id : string;
  hi_deployment_id : string;
  hi_decision_key : string;
  hi_decision_name : string;
  hi_decision_version : Z;
  hi_hit_policy : DmnHitPolicy;
  hi_matched_rule_id : option string;
  hi_matched_rule_count : nat;
  hi_rule_executions : list DmnRuleExecutionAudit;
  hi_business_key : option string;
  hi_tenant_id : option string;
  hi_instance_id : option string;
  hi_scope_execution_id : option string;
  hi_activity_id : option string;
  hi_scope_type : option string;
  hi_failed : bool;
  hi_executed_at : Z;
  hi_inputs : Row;
  hi_decision_result : list Row;
  hi_multiple_results : bool;
  hi_validation_message : option Message
}.

(** ** Rows as variables *)

(** [Map::extend]: the entries of the second map are inserted into the first. *)
Definition map_extend {A} (m m' : list (string * A)) : list (string * A) :=
  fold_left (fun acc kv => map_insert kv.1 kv.2 acc) m' m.

Definition stack_variables_from_rows (rows : list Row) : Row :=
  fold_left map_extend rows [].

Definition stack_variables (r : DmnExecutionResult) : Row :=
  stack_variables_from_rows (rs_decision_result r).

(** The history reader accepts the older columnar shape: one array per output. *)
Definition column_length (v : Value) : nat :=
  match v with VArray items => length items | _ => 1%nat end.

Fixpoint fill_column (key : string) (items : list Value) (rows : list Row) : list Row :=
  match items, rows with
  | item :: items, row :: rows => map_insert key item row :: fill_column key items rows
  | _, _ => rows
  end.

Definition columnar_outputs_to_rows (outputs : Row) : list Row :=
  fold_left
    (fun rows '(key, value) =>
       fill_column key (match value with VArray items => items | other => [other] end) rows)
    outputs
    (replicate (foldr Nat.max 0%nat (map (fun kv => column_length kv.2) outputs)) []).

(** ** Libraries *)

(** [chrono]: dates, times and date-times with their parsers and printers, in
    the formats the engine uses.  [parse_local] reads an optional fraction of
    a second, [parse_local_seconds] does not; [parse_rfc3339] is the instant of
    an RFC 3339 text, as a date-time in UTC. *)
Class Chrono := {
  NaiveDate : Type;
  NaiveTime : Type;
  NaiveDateTime : Type;
  parse_date : string -> option NaiveDate;
  format_date : NaiveDate -> string;
  compare_date : NaiveDate -> NaiveDate -> comparison;
  parse_time : string -> option NaiveTime;
  format_time : NaiveTime -> string;
  compare_time : NaiveTime -> NaiveTime -> comparison;
  parse_local : string -> option NaiveDateTime;
  parse_local_seconds : string -> option NaiveDateTime;
  local_nanosecond : NaiveDateTime -> Z;
  format_local_seconds : NaiveDateTime -> string;
  format_local_fraction : NaiveDateTime -> string;
  compare_local : NaiveDateTime -> NaiveDateTime -> comparison;
  parse_rfc3339 : string -> option NaiveDateTime;
  format_rfc3339 : NaiveDateTime -> string
}.

(** [regex]: [None] when the pattern is not a regular expression, which
    [regex_error] then describes. *)
Class Regex := {
  regex_error : string -> string;
  regex_is_match : string -> string -> option bool;
  regex_replace_all : bool * bool * bool * bool -> string -> string -> string -> option string
}.

(** [serde_json::from_str::<Value>]. *)
Class JsonReader := { json_from_str : string -> option Value }.

(** What stops an evaluation: an error value, or a panic. *)
Inductive DmnStop : Type :=
| Raised (e : DmnError)
| Aborted.

(** An evaluation session: FEEL expressions are evaluated at one instant. *)
Class Evaluation := {
  engine_evaluate : string -> Scope -> result DmnStop Value;
  now_rfc3339 : string
}.

(** An instance where no pattern compiles, for evaluation on examples. *)
Definition no_regex : Regex :=
  {| regex_error _ := EmptyString; regex_is_match _ _ := None; regex_replace_all _ _ _ _ := None |}.

Lemma map_get_extend {A} k (m m' : list (string * A)) :
  NoDup (map fst m') ->
  map_get k (map_extend m m') = or_else (map_get k m') (map_get k m).
Proof.
  unfold map_extend. revert m. induction m' as [|[k' v] m' IH]; intros m ND; simpl in *.
  - done.
  - apply NoDup_cons in ND as [Hnin ND]. rewrite IH by done.
    case_bool_decide as E.
    + subst k'. rewrite map_get_insert_eq.
      assert (map_get k m' = None) as ->; [|done].
      clear IH ND. induction m' as [|[k1 v1] m' IH]; [done|]. simpl in *.
      apply not_elem_of_cons in Hnin as [? ?]. rewrite bool_decide_false by done. by apply IH.
    + by rewrite map_get_insert_ne by done.
Qed.
