(* ===== verification/DmnTemporal.v ===== *)
(** * DMN: type references, durations and temporal values

    From [flowable-dmn-engine/src/models.rs] (lines 2341-2805): the
    normalisation of [typeRef]s, the reader and printer of the two duration
    types on [i128] with checked arithmetic, dates and times over [chrono],
    and the numeric readings of JSON values.

    [format_parse_day_time]: what the printer writes reads back as the same
    number of nanoseconds, except that a fraction of a second after a whole
    number of days is lost; [format_parse_year_month] has no exception. *)
From Stdlib Require Import Ascii.
From S2P Require Import Prelude Chars Float64 Numerals Json Errors ElValues FeelLexer FeelEvaluator DmnTypes.

Open Scope Z_scope.

(** Rust's [?] on options. *)
Local Notation "'try' p '<~' o ; k" :=
  (match o with Some p => k | None => None end)
  (at level 200, p pattern, o at level 100, k at level 200, right associativity).

Definition i128_min : Z := - 2 ^ 127.
Definition i128_max : Z := 2 ^ 127 - 1.

Definition checked (n : Z) : option Z :=
  if (i128_min <=? n) && (n <=? i128_max) then Some n else None.
Definition checked_add (a b : Z) : option Z := checked (a + b).
Definition checked_mul (a b : Z) : option Z := checked (a * b).
Definition checked_neg (a : Z) : option Z := checked (- a).
Definition checked_abs (a : Z) : option Z := checked (Z.abs a).

Definition is_Some_b {A} (o : option A) : bool := match o with Some _ => true | None => false end.

(** ** Type references *)

(** [rsplit(':').next()]: what follows the last colon. *)
Fixpoint after_last (a : ascii) (s : string) : string :=
  match s with
  | EmptyString => EmptyString
  | String b t => if has_char a t then after_last a t
                  else if Ascii.eqb a b then t else s
  end.

Definition normalized_type_ref (type_ref : string) : string :=
  let normalized := to_ascii_lowercase (after_last ":" (trim type_ref)) in
  if bool_decide (normalized = "date and time") then "datetime"
  else if bool_decide (normalized = "day time duration") then "daytimeduration"
  else if bool_decide (normalized = "year month duration") then "yearmonthduration"
  else normalized.

Inductive TemporalTypeRef : Type :=
| TyDate | TyTime | TyDateTime | TyDuration | TyYearMonthDuration.

Definition temporal_type_ref (type_ref : string) : option TemporalTypeRef :=
  let t := normalized_type_ref type_ref in
  if bool_decide (t = "date") then Some TyDate
  else if bool_decide (t = "time") then Some TyTime
  else if bool_decide (t = "datetime") then Some TyDateTime
  else if bool_decide (t = "duration") || bool_decide (t = "daytimeduration") then Some TyDuration
  else if bool_decide (t = "yearmonthduration") then Some TyYearMonthDuration
  else None.

(** ** Durations: [DayTimeDurationCursor] is the text still to read *)
Definition Cursor : Type := list ascii.

(** [str::find] of a marker and the two sides of it. *)
Fixpoint split_at (marker : ascii) (l : list ascii) : option (list ascii * list ascii) :=
  match l with
  | [] => None
  | a :: l => if Ascii.eqb marker a then Some ([], l)
              else try (before, after) <~ split_at marker l; Some (a :: before, after)
  end.

Definition all_digits (l : list ascii) : bool := forallb is_digit l.

(** [parse::<i128>] of a non-empty text of digits. *)
Definition parse_i128 (l : list ascii) : option Z := digits_value 0 (text l) ≫= checked.

Definition take_number_before (marker : ascii) (c : Cursor) : option (option Z * Cursor) :=
  match split_at marker c with
  | None => Some (None, c)
  | Some (number_text, rest) =>
      if bool_decide (number_text = []) || negb (all_digits number_text) then None
      else try number <~ parse_i128 number_text; Some (Some number, rest)
  end.

Definition NANOS_PER_SECOND : Z := 1000000000.
Definition NANOS_PER_MINUTE : Z := 60 * NANOS_PER_SECOND.
Definition NANOS_PER_HOUR : Z := 60 * NANOS_PER_MINUTE.
Definition NANOS_PER_DAY : Z := 24 * NANOS_PER_HOUR.

Definition pad9 (l : list ascii) : list ascii := l ++ repeat "0"%char (9 - length l).

Definition parse_seconds_nanos (l : list ascii) : option Z :=
  try (whole_text, fraction_text) <~
    match split_at "." l with
    | Some (_, []) => None
    | Some (whole, fraction) => Some (whole, fraction)
    | None => Some (l, [])
    end;
  if bool_decide (whole_text = []) || negb (all_digits whole_text) then None
  else if negb (bool_decide (fraction_text = []))
          && ((9 <? length fraction_text)%nat || negb (all_digits fraction_text)) then None
  else
    try whole <~ parse_i128 whole_text;
    try fraction <~ (if bool_decide (fraction_text = []) then Some 0
                else parse_i128 (pad9 fraction_text));
    try product <~ checked_mul whole NANOS_PER_SECOND;
    checked_add product fraction.

Definition take_seconds_before (marker : ascii) (c : Cursor) : option (option Z * Cursor) :=
  match split_at marker c with
  | None => Some (None, c)
  | Some (seconds_text, rest) =>
      try seconds <~ parse_seconds_nanos seconds_text; Some (Some seconds, rest)
  end.

Definition strip_time_marker (c : Cursor) : option Cursor :=
  match c with a :: c => if Ascii.eqb a "T" then Some c else None | [] => None end.

Definition signed_duration_nanos (nanos : Z) (negative saw_component : bool) : option Z :=
  if negb saw_component then None
  else if negative then checked_neg nanos else Some nanos.

Definition parse_week_duration_nanos (l : list ascii) : option Z :=
  try (weeks, c) <~ take_number_before "W" l;
  try weeks <~ weeks;
  if negb (bool_decide (c = [])) then None
  else try days <~ checked_mul weeks 7; checked_mul days NANOS_PER_DAY.

(** [total + component * unit] when the component is there. *)
Definition add_component (total unit_ : Z) (component : option Z) : option Z :=
  match component with
  | Some n => try product <~ checked_mul n unit_; checked_add total product
  | None => Some total
  end.

(** The optional minus sign and [P]. *)
Definition duration_body (s : string) : option (bool * list ascii) :=
  let l := String.list_ascii_of_string (trim s) in
  let negative := match l with a :: _ => Ascii.eqb a "-" | [] => false end in
  match (if negative then tail l else l) with
  | a :: body => if Ascii.eqb a "P" then Some (negative, body) else None
  | [] => None
  end.

Definition parse_year_month_duration_months (s : string) : option Z :=
  try (negative, body) <~ duration_body s;
  try (years, c) <~ take_number_before "Y" body;
  try total <~ add_component 0 12 years;
  try (months, c) <~ take_number_before "M" c;
  try total <~ match months with Some m => checked_add total m | None => Some total end;
  if negb (bool_decide (c = [])) || negb (is_Some_b years || is_Some_b months) then None
  else if negative then checked_neg total else Some total.

Definition parse_time_part (c : Cursor) (total : Z) (negative : bool) : option Z :=
  try c <~ strip_time_marker c;
  try (hours, c) <~ take_number_before "H" c;
  try total <~ add_component total NANOS_PER_HOUR hours;
  try (minutes, c) <~ take_number_before "M" c;
  try total <~ add_component total NANOS_PER_MINUTE minutes;
  try (seconds, c) <~ take_seconds_before "S" c;
  try total <~ match seconds with Some s => checked_add total s | None => Some total end;
  if negb (bool_decide (c = [])) then None
  else if negb (is_Some_b hours || is_Some_b minutes || is_Some_b seconds) then None
  else signed_duration_nanos total negative true.

Definition parse_day_time_duration_nanos (s : string) : option Z :=
  try (negative, body) <~ duration_body s;
  if existsb (Ascii.eqb "W") body then
    try nanos <~ parse_week_duration_nanos body; signed_duration_nanos nanos negative true
  else
    try (days, c) <~ take_number_before "D" body;
    try total <~ add_component 0 NANOS_PER_DAY days;
    if bool_decide (c = []) then signed_duration_nanos total negative (is_Some_b days)
    else parse_time_part c total negative.

(** ** Printing durations *)

(** [{:09}]. *)
Definition padded9 (n : Z) : list ascii :=
  let l := decimal_digits n in repeat "0"%char (9 - length l) ++ l.

Definition strip_zeros (l : list ascii) : list ascii :=
  rev (drop_while (Ascii.eqb "0") (rev l)).

Definition format_duration_seconds (seconds fractional_nanos : Z) : list ascii :=
  if fractional_nanos =? 0 then decimal_digits seconds ++ ["S"%char]
  else decimal_digits seconds ++ "."%char :: strip_zeros (padded9 fractional_nanos) ++ ["S"%char].

Definition component_text (n : Z) (marker : ascii) : list ascii :=
  if 0 <? n then decimal_digits n ++ [marker] else [].

Definition sign_text (n : Z) : list ascii := if n <? 0 then ["-"%char] else [].

Definition format_day_time_duration (nanos : Z) : option string :=
  try remaining <~ checked_abs nanos;
  if remaining =? 0 then Some "PT0S"
  else
    let days := remaining / NANOS_PER_DAY in
    let remaining := remaining mod NANOS_PER_DAY in
    let hours := remaining / NANOS_PER_HOUR in
    let remaining := remaining mod NANOS_PER_HOUR in
    let minutes := remaining / NANOS_PER_MINUTE in
    let remaining := remaining mod NANOS_PER_MINUTE in
    let seconds := remaining / NANOS_PER_SECOND in
    let fractional_nanos := remaining mod NANOS_PER_SECOND in
    let time :=
      if (0 <? hours) || (0 <? minutes) || (0 <? seconds) || (days =? 0) then
        "T"%char :: component_text hours "H" ++ component_text minutes "M"
          ++ (if (0 <? seconds) || (0 <? fractional_nanos)
              then format_duration_seconds seconds fractional_nanos else [])
      else [] in
    Some (text (sign_text nanos ++ "P"%char :: component_text days "D" ++ time)).

Definition format_year_month_duration (months : Z) : option string :=
  try magnitude <~ checked_abs months;
  Some (text (sign_text months ++ "P"%char :: decimal_digits magnitude ++ ["M"%char])).

Definition normalize_day_time_duration_text (s : string) : option string :=
  parse_day_time_duration_nanos s ≫= format_day_time_duration.
Definition normalize_year_month_duration_text (s : string) : option string :=
  parse_year_month_duration_months s ≫= format_year_month_duration.

Example duration_examples :
  parse_day_time_duration_nanos "P1DT2H3M4.5S" = Some 93784500000000
  /\ parse_day_time_duration_nanos " -P2W " = Some (-1209600000000000)
  /\ parse_day_time_duration_nanos "P" = None /\ parse_day_time_duration_nanos "P1DT" = None
  /\ parse_year_month_duration_months "-P1Y2M" = Some (-14)
  /\ normalize_day_time_duration_text "PT36H" = Some "P1DT12H"%string
  /\ normalize_day_time_duration_text "PT0.50S" = Some "PT0.5S"%string
  /\ normalize_year_month_duration_text "P1Y" = Some "P12M"%string.
Proof. vm_compute. repeat split; reflexivity. Qed.
(** ** Reading back what is printed *)
Ltac unfold_nanos :=
  unfold NANOS_PER_DAY, NANOS_PER_HOUR, NANOS_PER_MINUTE, NANOS_PER_SECOND in *.

Lemma checked_ok n : i128_min <= n <= i128_max -> checked n = Some n.
Proof. intros H. unfold checked. by rewrite (proj2 (Z.leb_le _ _)), (proj2 (Z.leb_le _ _)) by lia. Qed.

Lemma split_at_spec m l rest : m ∉ l -> split_at m (l ++ m :: rest) = Some (l, rest).
Proof.
  induction l as [|a l IH]; intros H; simpl; [by rewrite Ascii.eqb_refl|].
  apply not_elem_of_cons in H as [Hne H]. apply Ascii.eqb_neq in Hne. by rewrite Hne, IH.
Qed.

Lemma split_at_none m l : m ∉ l -> split_at m l = None.
Proof.
  induction l as [|a l IH]; intros H; simpl; [done|].
  apply not_elem_of_cons in H as [Hne H]. apply Ascii.eqb_neq in Hne. by rewrite Hne, IH.
Qed.

Definition digit_list (l : list ascii) : Prop := Forall (fun a => is_digit a = true) l.

Lemma digits_not_in m l : is_digit m = false -> digit_list l -> m ∉ l.
Proof. intros Hm Hl Hin. eapply Forall_forall in Hl; [|exact Hin]. congruence. Qed.

Lemma digit_list_all l : digit_list l -> all_digits l = true.
Proof. intros H. apply forallb_forall. intros a Ha. eapply Forall_forall in H; [done|by apply list_elem_of_In]. Qed.

Lemma decimal_digit_list n : 0 <= n -> digit_list (decimal_digits n).
Proof. intros H. by apply decimal_digits_spec. Qed.

(** A printed number in front of its marker is read as that number. *)
Lemma take_number_printed m n rest :
  is_digit m = false -> 0 <= n <= i128_max ->
  take_number_before m (decimal_digits n ++ m :: rest) = Some (Some n, rest).
Proof.
  intros Hm Hn. destruct (decimal_digits_spec n) as (Hv & Hd & Hne); [lia|].
  unfold take_number_before. rewrite split_at_spec by (by apply digits_not_in).
  rewrite bool_decide_false, digit_list_all by done. simpl.
  unfold parse_i128. rewrite Hv. simpl. rewrite checked_ok by (unfold i128_min, i128_max in *; lia). done.
Qed.

Definition present (n : Z) : option Z := if 0 <? n then Some n else None.

Lemma take_component m n rest :
  is_digit m = false -> 0 <= n <= i128_max -> m ∉ rest ->
  take_number_before m (component_text n m ++ rest) = Some (present n, rest).
Proof.
  intros Hm Hn Hr. unfold component_text, present. destruct (0 <? n).
  - rewrite <- app_assoc. by apply take_number_printed.
  - unfold take_number_before. simpl. by rewrite split_at_none.
Qed.

Lemma add_present total unit_ n :
  0 <= n -> 0 <= unit_ -> 0 <= total -> total + n * unit_ <= i128_max ->
  add_component total unit_ (present n) = Some (total + n * unit_).
Proof.
  intros Hn Hu Ht Hb. unfold add_component, present. destruct (Z.ltb_spec 0 n).
  - unfold checked_mul, checked_add. rewrite !checked_ok by (unfold i128_min; nia). done.
  - f_equal. lia.
Qed.

(** *** Fractions of a second *)
Lemma decimal_loop_length fuel n k :
  0 <= n < 10 ^ Z.of_nat (S k) -> (length (decimal_loop fuel n) <= S k)%nat.
Proof.
  revert n k. induction fuel as [|fuel IH]; intros n k Hn; simpl; [lia|].
  destruct (Z.ltb_spec n 10); [simpl; lia|]. rewrite length_app. simpl.
  destruct k as [|k]; [simpl in Hn; lia|]. enough (length (decimal_loop fuel (n / 10)) <= S k)%nat by lia.
  apply IH. split; [apply Z.div_pos; lia|]. apply Z.div_lt_upper_bound; [lia|].
  rewrite (Nat2Z.inj_succ (S k)), Z.pow_succ_r in Hn by lia. lia.
Qed.

Lemma digits_value_zeros k l : digits_value 0 (text (repeat "0"%char k ++ l)) = digits_value 0 (text l).
Proof. induction k as [|k IH]; simpl; [done|]. exact IH. Qed.

Lemma zeros_digit_list k : digit_list (repeat "0"%char k).
Proof. apply List.Forall_forall. intros a Ha. apply repeat_spec in Ha. by subst. Qed.

Lemma padded9_spec f :
  0 <= f < 10 ^ 9 ->
  length (padded9 f) = 9%nat /\ digit_list (padded9 f) /\ digits_value 0 (text (padded9 f)) = Some f.
Proof.
  intros Hf. destruct (decimal_digits_spec f) as (Hv & Hd & _); [lia|]. unfold padded9.
  assert (length (decimal_digits f) <= 9)%nat.
  { apply (decimal_loop_length _ _ 8). simpl. lia. }
  rewrite length_app, repeat_length, digits_value_zeros. repeat split; [lia| |done].
  apply Forall_app. split; [apply zeros_digit_list|done].
Qed.

Lemma drop_zeros_pad l :
  repeat "0"%char (length l - length (drop_while (Ascii.eqb "0") l)) ++ drop_while (Ascii.eqb "0") l = l.
Proof.
  induction l as [|a l IH]; cbn [drop_while]; [done|]. destruct (Ascii.eqb "0" a) eqn:E.
  - apply Ascii.eqb_eq in E. subst a.
    assert (length (drop_while (Ascii.eqb "0") l) <= length l)%nat.
    { clear. induction l as [|a l IH]; cbn [drop_while]; [done|]. destruct (Ascii.eqb "0" a); cbn [length]; lia. }
    cbn [length]. rewrite Nat.sub_succ_l by done. cbn [repeat app]. by rewrite IH.
  - by rewrite Nat.sub_diag.
Qed.

Lemma rev_zeros k : rev (repeat "0"%char k) = repeat "0"%char k.
Proof. induction k as [|k IH]; [done|]. simpl. rewrite IH. by rewrite <- repeat_cons. Qed.

Lemma strip_zeros_pad l :
  strip_zeros l ++ repeat "0"%char (length l - length (strip_zeros l)) = l.
Proof.
  unfold strip_zeros. pose proof (drop_zeros_pad (rev l)) as H.
  apply (f_equal (@rev _)) in H. rewrite rev_app_distr, rev_involutive, rev_zeros, length_rev in H.
  by rewrite length_rev.
Qed.

Lemma parse_fraction f :
  0 < f < 10 ^ 9 ->
  let l := strip_zeros (padded9 f) in
  l <> [] /\ (length l <= 9)%nat /\ digit_list l /\ parse_i128 (pad9 l) = Some f.
Proof.
  intros Hf. destruct (padded9_spec f ltac:(lia)) as (Hlen & Hd & Hv).
  pose proof (strip_zeros_pad (padded9 f)) as Hp. cbv zeta.
  set (l := strip_zeros (padded9 f)) in *. rewrite Hlen in Hp.
  assert (length l <= 9)%nat by (apply (f_equal length) in Hp; rewrite length_app in Hp; lia).
  assert (digit_list l) by (rewrite <- Hp in Hd; by apply Forall_app in Hd as [? _]).
  repeat split; try done.
  - intros Hnil. rewrite Hnil in Hp. simpl in Hp. rewrite <- Hp in Hv. vm_compute in Hv. inversion Hv. lia.
  - unfold parse_i128, pad9. rewrite Hp, Hv. simpl. apply checked_ok. unfold i128_min, i128_max. lia.
Qed.

Lemma parse_seconds_printed seconds f :
  0 <= seconds <= 60 -> 0 <= f < NANOS_PER_SECOND ->
  forall rest, take_seconds_before "S" (format_duration_seconds seconds f ++ rest)
               = Some (Some (seconds * NANOS_PER_SECOND + f), rest).
Proof.
  intros Hs Hf rest. destruct (decimal_digits_spec seconds) as (Hv & Hd & Hne); [lia|].
  unfold take_seconds_before, format_duration_seconds.
  assert (HS : parse_i128 (decimal_digits seconds) = Some seconds).
  { unfold parse_i128. rewrite Hv. apply checked_ok. unfold i128_min, i128_max. lia. }
  assert (Hm : checked_mul seconds NANOS_PER_SECOND = Some (seconds * NANOS_PER_SECOND)).
  { apply checked_ok. unfold_nanos. unfold i128_min, i128_max. lia. }
  assert (Ha : checked_add (seconds * NANOS_PER_SECOND) f = Some (seconds * NANOS_PER_SECOND + f)).
  { apply checked_ok. unfold_nanos. unfold i128_min, i128_max. lia. }
  destruct (Z.eqb_spec f 0) as [->|Hf0].
  - rewrite <- app_assoc. simpl. rewrite split_at_spec by (by apply digits_not_in).
    unfold parse_seconds_nanos. rewrite split_at_none by (by apply digits_not_in). cbv iota beta.
    rewrite (bool_decide_false (decimal_digits seconds = [])), digit_list_all by done. simpl.
    by rewrite HS, Hm, Ha.
  - destruct (parse_fraction f) as (Hln & Hll & Hld & Hlv); [unfold_nanos; lia|].
    set (l := strip_zeros (padded9 f)) in *.
    assert (E : (decimal_digits seconds ++ "."%char :: l ++ ["S"%char]) ++ rest
                = (decimal_digits seconds ++ "."%char :: l) ++ "S"%char :: rest).
    { by rewrite <- !app_assoc, <- app_comm_cons, <- app_assoc. }
    rewrite E, split_at_spec; last first.
    { rewrite not_elem_of_app, not_elem_of_cons. repeat split; [by apply digits_not_in|done|by apply digits_not_in]. }
    unfold parse_seconds_nanos. rewrite split_at_spec by (by apply digits_not_in).
    destruct l as [|a l'] eqn:El; [done|]. cbv iota beta. rewrite <- El in *.
    rewrite (bool_decide_false (decimal_digits seconds = [])), (digit_list_all (decimal_digits seconds)) by done. simpl.
    rewrite (bool_decide_false (l = [])) by (by rewrite El).
    rewrite (digit_list_all l) by done. rewrite (proj2 (Nat.ltb_ge _ _)) by lia. simpl.
    by rewrite HS, Hlv, Hm, Ha.
Qed.
(** *** The characters of a printed duration *)
Lemma component_chars n m a : 0 <= n -> a ∈ component_text n m -> is_digit a = true \/ a = m.
Proof.
  unfold component_text. intros Hn. destruct (0 <? n); [|by rewrite elem_of_nil].
  rewrite elem_of_app, list_elem_of_singleton. intros [H| ->]; [left|by right].
  pose proof (decimal_digit_list n Hn) as Hd. by eapply Forall_forall in Hd.
Qed.

Lemma seconds_chars seconds f a :
  0 <= seconds -> 0 <= f < 10 ^ 9 -> a ∈ format_duration_seconds seconds f ->
  is_digit a = true \/ a = "."%char \/ a = "S"%char.
Proof.
  intros Hs Hf. pose proof (decimal_digit_list seconds Hs) as Hd. unfold format_duration_seconds.
  assert (Hl : digit_list (strip_zeros (padded9 f))).
  { destruct (padded9_spec f Hf) as (_ & H & _). rewrite <- (strip_zeros_pad (padded9 f)) in H.
    by apply Forall_app in H as [? _]. }
  unfold digit_list in *. rewrite Forall_forall in Hd, Hl.
  destruct (f =? 0).
  - rewrite elem_of_app, list_elem_of_singleton. intros [H| ->]; [left; by apply Hd|tauto].
  - rewrite elem_of_app, elem_of_cons, elem_of_app, list_elem_of_singleton.
    intros [H|[->|[H| ->]]]; [left; by apply Hd|tauto|left; by apply Hl|tauto].
Qed.

Definition time_text (hours minutes seconds f : Z) : list ascii :=
  component_text hours "H" ++ component_text minutes "M"
  ++ (if (0 <? seconds) || (0 <? f) then format_duration_seconds seconds f else []).

Lemma time_chars hours minutes seconds f a :
  0 <= hours -> 0 <= minutes -> 0 <= seconds -> 0 <= f < 10 ^ 9 ->
  a ∈ time_text hours minutes seconds f ->
  is_digit a = true \/ a = "H"%char \/ a = "M"%char \/ a = "."%char \/ a = "S"%char.
Proof.
  intros Hh Hm Hs Hf. unfold time_text. rewrite !elem_of_app.
  intros [H|[H|H]].
  - apply component_chars in H; tauto.
  - apply component_chars in H; tauto.
  - destruct (_ || _); [|by apply elem_of_nil in H]. apply seconds_chars in H; tauto.
Qed.

(** *** The time part *)
Lemma take_optional_seconds seconds f :
  0 <= seconds <= 60 -> 0 <= f < NANOS_PER_SECOND ->
  take_seconds_before "S" (if (0 <? seconds) || (0 <? f) then format_duration_seconds seconds f else [])
  = Some (present (seconds * NANOS_PER_SECOND + f), []).
Proof.
  intros Hs Hf. unfold present. destruct (Z.ltb_spec 0 seconds), (Z.ltb_spec 0 f); cbn [orb];
    try (rewrite <- (app_nil_r (format_duration_seconds _ _)), parse_seconds_printed by done;
         rewrite (proj2 (Z.ltb_lt _ _)) by (unfold_nanos; lia); done).
  rewrite (proj2 (Z.ltb_ge _ _)) by (unfold_nanos; lia). done.
Qed.

Lemma parse_printed_time total hours minutes seconds f negative :
  0 <= hours <= 24 -> 0 <= minutes <= 60 -> 0 <= seconds <= 60 -> 0 <= f < NANOS_PER_SECOND ->
  let nanos := hours * NANOS_PER_HOUR + minutes * NANOS_PER_MINUTE + seconds * NANOS_PER_SECOND + f in
  0 <= total -> total + nanos <= i128_max -> 0 < nanos ->
  parse_time_part ("T"%char :: time_text hours minutes seconds f) total negative
  = Some (if negative then - (total + nanos) else total + nanos).
Proof.
  cbv zeta. intros Hh Hm Hs Hf Ht Hb Hpos. unfold parse_time_part, time_text. simpl strip_time_marker. cbv iota beta.
  rewrite take_component; [|done|unfold i128_max; lia|]; last first.
  { intros H. assert ("H"%char ∈ time_text 0 minutes seconds f) as H' by exact H.
    unfold time_text in H'. rewrite elem_of_app in H'. destruct H' as [H'|H'].
    - by apply elem_of_nil in H'.
    - rewrite elem_of_app in H'. destruct H' as [H'|H']; [apply component_chars in H' as [?|?]; [done|done|lia]|].
      destruct (_ || _); [|by apply elem_of_nil in H'].
      apply seconds_chars in H' as [?|[?|?]]; [done..|lia|unfold_nanos; lia]. }
  rewrite add_present by (unfold_nanos; lia).
  rewrite take_component; [|done|unfold i128_max; lia|]; last first.
  { intros H'. destruct (_ || _); [|by apply elem_of_nil in H'].
    apply seconds_chars in H' as [?|[?|?]]; [done..|lia|unfold_nanos; lia]. }
  rewrite add_present by (unfold_nanos; lia).
  rewrite take_optional_seconds by done.
  set (t := total + hours * NANOS_PER_HOUR + minutes * NANOS_PER_MINUTE).
  assert (E : match present (seconds * NANOS_PER_SECOND + f) with
              | Some s => checked_add t s
              | None => Some t
              end = Some (t + (seconds * NANOS_PER_SECOND + f))).
  { unfold present. destruct (Z.ltb_spec 0 (seconds * NANOS_PER_SECOND + f)).
    - apply checked_ok. unfold t, i128_min. unfold_nanos. lia.
    - f_equal. unfold_nanos. lia. }
  rewrite E. rewrite bool_decide_true by done. cbn [negb].
  assert (Hsaw : is_Some_b (present hours) || is_Some_b (present minutes)
                 || is_Some_b (present (seconds * NANOS_PER_SECOND + f)) = true).
  { unfold present. destruct (Z.ltb_spec 0 hours), (Z.ltb_spec 0 minutes),
      (Z.ltb_spec 0 (seconds * NANOS_PER_SECOND + f)); try done. unfold_nanos. lia. }
  rewrite Hsaw. cbn [negb]. unfold signed_duration_nanos. cbn [negb].
  destruct negative.
  - unfold checked_neg. rewrite checked_ok by (unfold t, i128_min, i128_max in *; unfold_nanos; lia).
    f_equal. unfold t. lia.
  - f_equal. unfold t. lia.
Qed.
(** *** Signs *)
Lemma duration_body_printed n body :
  Forall visible body ->
  duration_body (text (sign_text n ++ "P"%char :: body)) = Some (n <? 0, body).
Proof.
  intros Hb. unfold duration_body. rewrite trim_visible; last first.
  { unfold sign_text. apply Forall_app. split; [destruct (n <? 0); repeat constructor|].
    constructor; [by split|done]. }
  rewrite String.list_ascii_of_string_of_list_ascii. unfold sign_text.
  by destruct (n <? 0).
Qed.

Lemma marker_visible a :
  is_digit a = true \/ List.In a ["D"; "T"; "H"; "M"; "S"; "."]%char -> visible a.
Proof.
  intros [H|H]; [by apply is_digit_visible|]. simpl in H.
  repeat destruct H as [<-|H]; try (by split); done.
Qed.

(** ** Round trips *)

(** A fraction of a second that follows a whole number of days is dropped. *)
Definition drops_fraction (n : Z) : bool :=
  (NANOS_PER_DAY <=? Z.abs n) && (Z.abs n mod NANOS_PER_DAY <? NANOS_PER_SECOND).

Definition kept_nanos (n : Z) : Z :=
  if drops_fraction n then Z.sgn n * (Z.abs n / NANOS_PER_DAY * NANOS_PER_DAY) else n.

Lemma digit_list_visible l : digit_list l -> Forall visible l.
Proof. intros H. eapply Forall_impl; [exact H|]. intros a. apply is_digit_visible. Qed.

Lemma component_visible n m :
  0 <= n -> visible m -> Forall visible (component_text n m).
Proof.
  intros Hn Hm. apply Forall_forall. intros a Ha.
  apply component_chars in Ha as [Ha| ->]; [by apply is_digit_visible|done|done].
Qed.

(** A body with no time part. *)
Lemma parse_days days negative :
  0 < days -> days * NANOS_PER_DAY <= i128_max ->
  (try (d, c) <~ take_number_before "D" (component_text days "D" ++ []);
   try total <~ add_component 0 NANOS_PER_DAY d;
   if bool_decide (c = []) then signed_duration_nanos total negative (is_Some_b d)
   else parse_time_part c total negative)
  = Some (if negative then - (days * NANOS_PER_DAY) else days * NANOS_PER_DAY).
Proof.
  intros Hd Hb. rewrite take_component; [|done|unfold i128_max in *; unfold_nanos; lia|set_solver].
  rewrite add_present by (unfold_nanos; lia). rewrite bool_decide_true by done.
  unfold present. rewrite (proj2 (Z.ltb_lt _ _)) by done.
  destruct negative; [|done]. apply checked_ok.
  unfold i128_min, i128_max in *. unfold_nanos. lia.
Qed.

(** A body with a time part. *)
Lemma parse_days_and_time days hours minutes seconds f negative :
  0 <= days -> 0 <= hours <= 24 -> 0 <= minutes <= 60 -> 0 <= seconds <= 60 ->
  0 <= f < NANOS_PER_SECOND ->
  let nanos := hours * NANOS_PER_HOUR + minutes * NANOS_PER_MINUTE + seconds * NANOS_PER_SECOND + f in
  days * NANOS_PER_DAY + nanos <= i128_max -> 0 < nanos ->
  (try (d, c) <~ take_number_before "D"
                   (component_text days "D" ++ "T"%char :: time_text hours minutes seconds f);
   try total <~ add_component 0 NANOS_PER_DAY d;
   if bool_decide (c = []) then signed_duration_nanos total negative (is_Some_b d)
   else parse_time_part c total negative)
  = Some (if negative then - (days * NANOS_PER_DAY + nanos) else days * NANOS_PER_DAY + nanos).
Proof.
  cbv zeta. intros Hd Hh Hm Hs Hf Hb Hpos.
  rewrite take_component; [|done|unfold i128_max in *; unfold_nanos; lia|]; last first.
  { rewrite not_elem_of_cons. split; [done|]. intros H.
    apply time_chars in H as [?|[?|[?|[?|?]]]]; try done; unfold_nanos; lia. }
  rewrite add_present by (unfold_nanos; lia). rewrite bool_decide_false by done.
  rewrite parse_printed_time by (unfold_nanos; lia). rewrite Z.add_0_l. done.
Qed.

Lemma body_plain days hours minutes seconds f tail_ :
  0 <= days -> 0 <= hours -> 0 <= minutes -> 0 <= seconds -> 0 <= f < 10 ^ 9 ->
  tail_ = [] \/ tail_ = "T"%char :: time_text hours minutes seconds f ->
  Forall visible (component_text days "D" ++ tail_)
  /\ existsb (Ascii.eqb "W") (component_text days "D" ++ tail_) = false.
Proof.
  intros Hd Hh Hm Hs Hf Ht.
  assert (H : forall a, a ∈ component_text days "D" ++ tail_ ->
                   is_digit a = true \/ List.In a ["D"; "T"; "H"; "M"; "S"; "."]%char).
  { intros a. rewrite elem_of_app. intros [Ha|Ha].
    - apply component_chars in Ha as [?| ->]; simpl; tauto.
    - destruct Ht as [->| ->]; [by apply elem_of_nil in Ha|].
      apply elem_of_cons in Ha as [->|Ha]; [simpl; tauto|].
      apply time_chars in Ha as [?|[->|[->|[->| ->]]]]; simpl; tauto. }
  split.
  - apply Forall_forall. intros a Ha. apply marker_visible. by apply H.
  - apply not_true_iff_false. intros He. apply existsb_exists in He as (a & Ha & He).
    apply Ascii.eqb_eq in He. subst a. apply list_elem_of_In, H in Ha as [Ha|Ha]; [done|].
    simpl in Ha. repeat destruct Ha as [Ha|Ha]; done.
Qed.

(** The split of a number of nanoseconds into its components. *)
Lemma nanos_components m :
  0 <= m ->
  let days := m / NANOS_PER_DAY in let r := m mod NANOS_PER_DAY in
  let hours := r / NANOS_PER_HOUR in let r := r mod NANOS_PER_HOUR in
  let minutes := r / NANOS_PER_MINUTE in let r := r mod NANOS_PER_MINUTE in
  let seconds := r / NANOS_PER_SECOND in let f := r mod NANOS_PER_SECOND in
  0 <= days /\ 0 <= hours <= 24 /\ 0 <= minutes <= 60 /\ 0 <= seconds <= 60
  /\ 0 <= f < NANOS_PER_SECOND
  /\ m = days * NANOS_PER_DAY + (hours * NANOS_PER_HOUR + minutes * NANOS_PER_MINUTE
                                 + seconds * NANOS_PER_SECOND + f)
  /\ m mod NANOS_PER_DAY = hours * NANOS_PER_HOUR + minutes * NANOS_PER_MINUTE
                                 + seconds * NANOS_PER_SECOND + f.
Proof.
  cbv zeta. intros Hm. unfold_nanos.
  Z.to_euclidean_division_equations. lia.
Qed.

(** Printing a day-time duration and reading the text back gives the same number of nanoseconds; the only loss is a fraction of a second after a whole number of days, which the printer drops. *)
Theorem format_parse_day_time n (Hn : i128_min < n <= i128_max) :
  exists s, format_day_time_duration n = Some s
            /\ parse_day_time_duration_nanos s = Some (kept_nanos n).
Proof.
  unfold format_day_time_duration, checked_abs.
  rewrite checked_ok by (unfold i128_min, i128_max in *; lia).
  destruct (Z.eqb_spec (Z.abs n) 0) as [E|Hne].
  { assert (n = 0) as -> by lia. by eexists. }
  pose proof (nanos_components (Z.abs n) ltac:(lia)) as H. cbv zeta in H |- *.
  set (days := Z.abs n / NANOS_PER_DAY) in *. set (r := Z.abs n mod NANOS_PER_DAY) in *.
  set (hours := r / NANOS_PER_HOUR) in *. set (r1 := r mod NANOS_PER_HOUR) in *.
  set (minutes := r1 / NANOS_PER_MINUTE) in *. set (r2 := r1 mod NANOS_PER_MINUTE) in *.
  set (seconds := r2 / NANOS_PER_SECOND) in *. set (f := r2 mod NANOS_PER_SECOND) in *.
  destruct H as (Hd & Hh & Hm & Hs & Hf & Habs & Hr).
  eexists. split; [reflexivity|]. unfold parse_day_time_duration_nanos.
  fold (time_text hours minutes seconds f). unfold kept_nanos, drops_fraction.
  fold days. fold r.
  destruct ((0 <? hours) || (0 <? minutes) || (0 <? seconds) || (days =? 0)) eqn:Etime.
  - destruct (body_plain days hours minutes seconds f ("T"%char :: time_text hours minutes seconds f))
      as [Hv Hw]; [lia..|unfold_nanos; lia|by right|].
    rewrite duration_body_printed by done. rewrite Hw.
    assert (0 < hours * NANOS_PER_HOUR + minutes * NANOS_PER_MINUTE + seconds * NANOS_PER_SECOND + f).
    { rewrite !orb_true_iff, !Z.ltb_lt, Z.eqb_eq in Etime. unfold_nanos. lia. }
    rewrite parse_days_and_time by (try done; unfold i128_min, i128_max in *; lia).
    + replace ((NANOS_PER_DAY <=? Z.abs n) && (r <? NANOS_PER_SECOND)) with false.
      { f_equal. destruct (Z.ltb_spec n 0); lia. }
      symmetry. apply andb_false_iff. rewrite Z.leb_gt, Z.ltb_ge.
      rewrite !orb_true_iff, !Z.ltb_lt, Z.eqb_eq in Etime. unfold_nanos. lia.
  - rewrite !orb_false_iff, !Z.ltb_ge, Z.eqb_neq in Etime.
    destruct (body_plain days hours minutes seconds f []) as [Hv Hw]; [lia..|unfold_nanos; lia|by left|].
    rewrite duration_body_printed by done. rewrite Hw.
    rewrite parse_days by (unfold i128_min, i128_max in *; unfold_nanos; lia).
    replace ((NANOS_PER_DAY <=? Z.abs n) && (r <? NANOS_PER_SECOND)) with true.
    + f_equal. destruct (Z.ltb_spec n 0); lia.
    + symmetry. apply andb_true_iff. rewrite Z.leb_le, Z.ltb_lt. unfold_nanos. lia.
Qed.

Lemma format_parse_day_time_witness :
  exists s, format_day_time_duration (-93784500000000) = Some s
            /\ parse_day_time_duration_nanos s = Some (kept_nanos (-93784500000000)).
Proof. apply (format_parse_day_time (-93784500000000)). unfold i128_min, i128_max. lia. Defined.

(** Printing a year-month duration and reading the text back gives the same number of months. *)
Theorem format_parse_year_month n (Hn : i128_min < n <= i128_max) :
  exists s, format_year_month_duration n = Some s
            /\ parse_year_month_duration_months s = Some n.
Proof.
  unfold format_year_month_duration, checked_abs.
  rewrite checked_ok by (unfold i128_min, i128_max in *; lia).
  eexists. split; [reflexivity|]. unfold parse_year_month_duration_months.
  pose proof (decimal_digit_list (Z.abs n) ltac:(lia)) as Hd.
  rewrite duration_body_printed.
  2: { apply Forall_app. split; [by apply digit_list_visible|]. constructor; [by split|constructor]. }
  unfold take_number_before at 1. rewrite split_at_none; last first.
  { rewrite not_elem_of_app. split; [by apply digits_not_in|set_solver]. }
  cbn [add_component].
  rewrite (take_number_printed "M" (Z.abs n) []); [|done|unfold i128_min, i128_max in *; lia].
  unfold checked_add. rewrite checked_ok by (unfold i128_min, i128_max in *; lia).
  rewrite bool_decide_true by done. cbn [negb orb is_Some_b].
  destruct (Z.ltb_spec n 0).
  - unfold checked_neg. rewrite checked_ok by (unfold i128_min, i128_max in *; lia). f_equal. lia.
  - f_equal. lia.
Qed.

Lemma format_parse_year_month_witness :
  exists s, format_year_month_duration (-14) = Some s
            /\ parse_year_month_duration_months s = Some (-14).
Proof. apply (format_parse_year_month (-14)). unfold i128_min, i128_max. lia. Defined.

(** The lost fraction: a day and half a second is normalised to a day. *)
Theorem day_fraction_lost :
  parse_day_time_duration_nanos "P1DT0.5S" = Some (NANOS_PER_DAY + 500000000)
  /\ normalize_day_time_duration_text "P1DT0.5S" = Some "P1D"%string.
Proof. by vm_compute. Qed.
Close Scope Z_scope.
