(* ===== verification/DmnValues.v ===== *)
(** * DMN: comparing and coercing values

    The value functions of [flowable-dmn-engine]: temporal values and numeric
    readings ([models.rs], 1228-1240 and 2377-2500 and 2781-2805), the
    coercion of inputs and outputs to their [typeRef] and the comparison of
    values ([runtime.rs], 389-497, 1663-1705 and 1883-2000).

    [compare_integers]: integers are compared exactly over the whole range of
    [i64] and [u64].  [coerced_output_typed] and [coerced_input_typed]: a
    coerced value has the type its [typeRef] names. *)
From Stdlib Require Import Ascii.
From S2P Require Import Prelude Chars Float64 Numerals Json Errors ElValues FeelLexer FeelEvaluator DmnTypes DmnTemporal.

Section Values.
Context `{Chrono} `{JsonReader}.

(** ** Dates and times *)
Definition has_datetime_offset (s : string) : bool :=
  match split_at "T" (String.list_ascii_of_string s) with
  | None => false
  | Some (_, time) =>
      ends_with_char (text time) "Z" || has_char "+" (text time) || has_char "-" (text time)
  end.

Definition format_local_datetime (d : NaiveDateTime) : string :=
  if (local_nanosecond d =? 0)%Z then format_local_seconds d else format_local_fraction d.

Definition normalize_datetime_text (s : string) : option string :=
  if has_datetime_offset s then format_rfc3339 <$> parse_rfc3339 s
  else format_local_datetime <$> parse_local s.

Inductive ComparableDateTime : Type :=
| Local_ (d : NaiveDateTime)
| Instant_ (d : NaiveDateTime).

Definition parse_comparable_datetime (s : string) : option ComparableDateTime :=
  if has_datetime_offset s then Instant_ <$> parse_rfc3339 s else Local_ <$> parse_local s.

Definition compare_datetime_text (actual expected : string) : option comparison :=
  a ← parse_comparable_datetime actual;
  e ← parse_comparable_datetime expected;
  match a, e with
  | (Local_ a | Instant_ a), (Local_ e | Instant_ e) => Some (compare_local a e)
  end.

Definition normalize_temporal_value (type_ref : string) (value : Value) : option Value :=
  match value with
  | VNull => Some VNull
  | _ =>
      temporal_type ← temporal_type_ref type_ref;
      s ← as_str value;
      let s := trim s in
      if bool_decide (s = EmptyString) then None
      else
        normalized ←
          match temporal_type with
          | TyDate => format_date <$> parse_date s
          | TyTime => format_time <$> parse_time s
          | TyDateTime => normalize_datetime_text s
          | TyDuration => normalize_day_time_duration_text s
          | TyYearMonthDuration => normalize_year_month_duration_text s
          end;
        Some (VString normalized)
  end.

Definition compare_with {A} (parse : string -> option A) (cmp : A -> A -> comparison)
  (actual expected : string) : option comparison :=
  a ← parse actual; e ← parse expected; Some (cmp a e).

Definition compare_temporal_values (type_ref : string) (actual expected : Value)
  : option comparison :=
  temporal_type ← temporal_type_ref type_ref;
  actual ← normalize_temporal_value type_ref actual;
  expected ← normalize_temporal_value type_ref expected;
  actual ← as_str actual;
  expected ← as_str expected;
  match temporal_type with
  | TyDate => compare_with parse_date compare_date actual expected
  | TyTime => compare_with parse_time compare_time actual expected
  | TyDateTime => compare_datetime_text actual expected
  | TyDuration => compare_with parse_day_time_duration_nanos Z.compare actual expected
  | TyYearMonthDuration => compare_with parse_year_month_duration_months Z.compare actual expected
  end.

(** ** Numbers *)
Definition is_number (v : Value) : bool := match v with VNumber _ => true | _ => false end.
Definition is_null (v : Value) : bool := match v with VNull => true | _ => false end.

Definition numeric_value (value : Value) : option Value :=
  if is_number value then Some value
  else
    s ← as_str value;
    let s := trim s in
    if bool_decide (s = EmptyString) then None
    else v ← json_from_str s; if is_number v then Some v else None.

Definition as_number (v : Value) : option Number :=
  match v with VNumber n => Some n | _ => None end.

Definition number_to_i64 (value : Value) : option Z :=
  number ← as_number value;
  match number_as_i64 number with
  | Some integer => Some integer
  | None => unsigned ← number_as_u64 number;
            if (unsigned <=? i64_max)%Z then Some unsigned else None
  end.

Definition f64_partial_cmp (a b : f64) : option comparison := SFcompare a b.

Definition compare_numbers (actual expected : Value) : option comparison :=
  actual ← as_number actual;
  expected ← as_number expected;
  match number_as_i64 actual, number_as_u64 actual,
        number_as_i64 expected, number_as_u64 expected with
  | Some a, _, Some e, _ => Some (a ?= e)%Z
  | Some a, _, _, Some e => if (a <? 0)%Z then Some Lt else Some (a ?= e)%Z
  | _, Some a, Some e, _ => if (e <? 0)%Z then Some Gt else Some (a ?= e)%Z
  | _, Some a, _, Some e => Some (a ?= e)%Z
  | _, _, _, _ => f64_partial_cmp (number_as_f64 actual) (number_as_f64 expected)
  end.

Definition compare_values (actual expected : Value) (type_ref : option string)
  : option comparison :=
  match type_ref ≫= fun t => compare_temporal_values t actual expected with
  | Some ordering => Some ordering
  | None => compare_numbers actual expected
  end.

(** ** Coercion to a [typeRef] *)

(** The shared body of [coerce_integer_value] and [coerce_runtime_integer_output]. *)
Definition coerce_integer (incompatible : DmnError) (value : Value) (min max : Z)
  : result DmnError Value :=
  match numeric_value value ≫= number_to_i64 with
  | None => Err incompatible
  | Some integer =>
      if (integer <? min)%Z || (max <? integer)%Z then Err incompatible
      else Ok (value_of_i64 integer)
  end.

Definition is_temporal_name (t : string) : bool :=
  existsb (fun n => bool_decide (t = n))
    ["date"; "time"; "datetime"; "duration"; "daytimeduration"; "yearmonthduration"]%string.

(** The shared match of [coerce_input_value] and [coerce_runtime_output_value];
    they differ in the arm of [double] and [number], and in the errors. *)
Definition coerce_to (on_number : Value -> option Value) (incompatible unsupported : DmnError)
  (type_ref : string) (value : Value) : result DmnError Value :=
  if is_null value then Ok VNull
  else
    let t := normalized_type_ref type_ref in
    if bool_decide (t = "string") then ok_or incompatible (VString <$> as_str value)
    else if bool_decide (t = "boolean") then ok_or incompatible (VBool <$> as_bool value)
    else if bool_decide (t = "integer") then coerce_integer incompatible value i32_min i32_max
    else if bool_decide (t = "long") then coerce_integer incompatible value i64_min i64_max
    else if bool_decide (t = "double") || bool_decide (t = "number")
    then ok_or incompatible (on_number value)
    else if is_temporal_name t then ok_or incompatible (normalize_temporal_value type_ref value)
    else if bool_decide (t = "context") then ok_or incompatible (VObject <$> as_object value)
    else if bool_decide (t = "list") then ok_or incompatible (VArray <$> as_array value)
    else Err unsupported.

Definition incompatible_type_ref_error (variable type_ref : string) (value : Value) : DmnError :=
  DmnExecution [Lit "DMN input '"; Lit variable; Lit "' with typeRef '"; Lit type_ref;
                Lit "' received incompatible value "; ShowJson value].

Definition supported_type_refs : string :=
  "string, boolean, integer, long, double, number, date, time, dateTime, date and time, duration, dayTimeDuration, yearMonthDuration, context, and list".

Definition coerce_input_value (variable type_ref : string) (value : Value)
  : result DmnError Value :=
  coerce_to numeric_value
    (incompatible_type_ref_error variable type_ref value)
    (UnsupportedModel "typeRef"
       [Lit "unsupported input typeRef '"; Lit type_ref; Lit "' for input '"; Lit variable;
        Lit "'; supported input typeRefs are "; Lit supported_type_refs])
    type_ref value.

Definition incompatible_output_type_ref_error (definition : DmnDecisionDefinition)
  (output_clause : DmnOutputClause) (value : Value) : DmnError :=
  DmnExecution [Lit "DMN decision '"; Lit (df_key definition); Lit "' output '";
                Lit (out_name output_clause); Lit "' with typeRef '";
                Lit (unwrap_or "<none>"%string (out_type_ref output_clause));
                Lit "' produced incompatible value "; ShowJson value].

Definition coerce_runtime_output_value (definition : DmnDecisionDefinition)
  (output_clause : DmnOutputClause) (value : Value) : result DmnError Value :=
  match out_type_ref output_clause with
  | None => Ok value
  | Some type_ref =>
      coerce_to (fun v => number ← numeric_value v; value_of_f64 <$> as_f64 number)
        (incompatible_output_type_ref_error definition output_clause value)
        (UnsupportedModel "typeRef"
           [Lit "unsupported output typeRef '"; Lit type_ref; Lit "' for decision '";
            Lit (df_key definition); Lit "' output '"; Lit (out_name output_clause);
            Lit "'; supported output typeRefs are "; Lit supported_type_refs])
        type_ref value
  end.

(** The inputs of an execution, coerced clause by clause. *)
Definition coerce_inputs_for_type_refs (definition : DmnDecisionDefinition) (inputs : Row)
  : result DmnError Row :=
  (fix go (clauses : list DmnInputClause) (inputs : Row) : result DmnError Row :=
     match clauses with
     | [] => Ok inputs
     | c :: clauses =>
         match in_type_ref c, map_get (input_variable c) inputs with
         | Some type_ref, Some value =>
             coerced ← coerce_input_value (input_variable c) type_ref value;
             go clauses (map_insert (input_variable c) coerced inputs)
         | _, _ => go clauses inputs
         end
     end) (df_inputs definition) inputs.

(** [#{...}] and [${...}] around an expression. *)
Definition strip_expression_shells (expression : string) : string :=
  let t := trim expression in
  match strip_prefix "#{" t ≫= strip_last "}", strip_prefix "${" t ≫= strip_last "}" with
  | Some inner, _ | None, Some inner => trim inner
  | None, None => t
  end.
End Values.

(** ** Integers are compared exactly *)
Open Scope Z_scope.

(** The integer a JSON number denotes, when it is one within its range. *)
Definition integer_of (n : Number) : option Z :=
  match n with
  | PosInt z => if (0 <=? z) && (z <=? u64_max) then Some z else None
  | NegInt z => if (i64_min <=? z) && (z <? 0) then Some z else None
  | Float _ => None
  end.

(** C40: the comparison of two integral JSON numbers is the comparison of the integers, over the whole range of [i64] and [u64], with no detour through [f64]. *)
Theorem compare_integers a b x y (Ha : integer_of a = Some x) (Hb : integer_of b = Some y) :
  compare_numbers (VNumber a) (VNumber b) = Some (x ?= y).
Proof.
  assert (cases : forall n z, integer_of n = Some z ->
            (number_as_i64 n = Some z \/ number_as_i64 n = None /\ i64_max < z)
            /\ (number_as_u64 n = Some z \/ number_as_u64 n = None /\ z < 0)).
  { intros n z. destruct n as [p|p|f]; simpl; [| |done].
    - destruct (Z.leb_spec 0 p), (Z.leb_spec p u64_max); simpl; [|done..]. intros [= <-].
      unfold number_as_i64. simpl. destruct (Z.leb_spec p i64_max); auto.
    - destruct (Z.leb_spec i64_min p), (Z.ltb_spec p 0); simpl; [|done..]. intros [= <-]. auto. }
  destruct (cases _ _ Ha) as [Hai Hau], (cases _ _ Hb) as [Hbi Hbu].
  unfold compare_numbers. cbn [as_number mbind option_bind].
  destruct Hai as [Hai|[Hai ?]], Hau as [Hau|[Hau ?]], Hbi as [Hbi|[Hbi ?]], Hbu as [Hbu|[Hbu ?]];
    try (unfold i64_max in *; lia); rewrite ?Hai, ?Hau, ?Hbi, ?Hbu; try done.
  - destruct (Z.ltb_spec x 0); [|done]. f_equal. symmetry. apply Z.compare_lt_iff. unfold i64_max in *. lia.
  - destruct (Z.ltb_spec x 0); [|done]. f_equal. symmetry. apply Z.compare_lt_iff. unfold i64_max in *. lia.
  - destruct (Z.ltb_spec y 0); [|done]. f_equal. symmetry. apply Z.compare_gt_iff. unfold i64_max in *. lia.
  - destruct (Z.ltb_spec y 0); [|done]. f_equal. symmetry. apply Z.compare_gt_iff. unfold i64_max in *. lia.
Qed.

Lemma compare_integers_witness :
  compare_numbers (VNumber (PosInt 18446744073709551615)) (VNumber (NegInt (-1)))
  = Some (18446744073709551615 ?= -1).
Proof.
  exact (compare_integers (PosInt 18446744073709551615) (NegInt (-1)) 18446744073709551615 (-1) eq_refl eq_refl).
Defined.

(** ** Coerced values have the type they were coerced to *)
Definition in_range (min max : Z) (v : Value) : Prop :=
  exists z, v = value_of_i64 z /\ min <= z <= max.

Definition has_type (t : string) (v : Value) : Prop :=
  v = VNull
  \/ (t = "string"%string \/ is_temporal_name t = true) /\ (exists s, v = VString s)
  \/ t = "boolean"%string /\ (exists b, v = VBool b)
  \/ t = "integer"%string /\ in_range i32_min i32_max v
  \/ t = "long"%string /\ in_range i64_min i64_max v
  \/ (t = "double"%string \/ t = "number"%string) /\ (exists n, v = VNumber n)
  \/ t = "context"%string /\ (exists m, v = VObject m)
  \/ t = "list"%string /\ (exists l, v = VArray l).

Section Typing.
Context `{Chrono} `{JsonReader}.

Lemma coerce_integer_range incompatible value min max v :
  coerce_integer incompatible value min max = Ok v -> in_range min max v.
Proof.
  unfold coerce_integer. destruct (_ ≫= _) as [z|]; [|done].
  destruct (Z.ltb_spec z min), (Z.ltb_spec max z); simpl; try done.
  intros [= <-]. exists z. auto with lia.
Qed.

Lemma normalize_temporal_string type_ref value v :
  normalize_temporal_value type_ref value = Some v -> v = VNull \/ exists s, v = VString s.
Proof.
  unfold normalize_temporal_value. destruct value; try (intros [= <-]; by left);
    destruct (temporal_type_ref type_ref); simpl; try done.
  case_bool_decide; [done|]. destruct (match _ with TyDate => _ | _ => _ end); simpl; [|done].
  intros [= <-]. eauto.
Qed.

Lemma coerce_to_typed on_number incompatible unsupported type_ref value v :
  (forall x y, on_number x = Some y -> y = VNull \/ exists n, y = VNumber n) ->
  coerce_to on_number incompatible unsupported type_ref value = Ok v ->
  has_type (normalized_type_ref type_ref) v.
Proof.
  intros Hn. unfold coerce_to, has_type. destruct (is_null value); [intros [= <-]; by left|].
  assert (ok : forall o : option Value, ok_or incompatible o = Ok v -> o = Some v).
  { by intros [x|]; [intros [= ->]|]. }
  repeat (case_bool_decide; cbn [orb]); try done.
  - intros E%ok. destruct (as_str value); simplify_eq/=. right; left. eauto.
  - intros E%ok. destruct (as_bool value); simplify_eq/=. do 2 right; left. eauto.
  - intros E%coerce_integer_range. do 3 right; left. eauto.
  - intros E%coerce_integer_range. do 4 right; left. eauto.
  - intros E%ok. apply Hn in E as [->|?]; [by left|]. do 5 right; left. eauto.
  - intros E%ok. apply Hn in E as [->|?]; [by left|]. do 5 right; left. eauto.
  - destruct (is_temporal_name _) eqn:Et.
    + intros E%ok. apply normalize_temporal_string in E as [->|?]; [by left|]. right; left. eauto.
    + intros E%ok. destruct (as_object value); simplify_eq/=. do 6 right; left. eauto.
  - destruct (is_temporal_name _) eqn:Et.
    + intros E%ok. apply normalize_temporal_string in E as [->|?]; [by left|]. right; left. eauto.
    + intros E%ok. destruct (as_array value); simplify_eq/=. do 7 right. eauto.
  - destruct (is_temporal_name _) eqn:Et; [|done].
    intros E%ok. apply normalize_temporal_string in E as [->|?]; [by left|]. right; left. eauto.
Qed.

Lemma numeric_value_number x y : numeric_value x = Some y -> exists n, y = VNumber n.
Proof.
  unfold numeric_value. destruct (is_number x) eqn:E.
  - destruct x; try done. intros [= <-]. eauto.
  - destruct (as_str x); simpl; [|done]. case_bool_decide; [done|].
    destruct (json_from_str _) as [v|]; simpl; [|done]. destruct v; simpl; try done. intros [= <-]. eauto.
Qed.

(** C37: an output value coerced to its [typeRef] is null or has the JSON type the [typeRef] names; integers are within 32 or 64 bits. *)
Theorem coerced_output_typed definition clause type_ref value v
  (Ht : out_type_ref clause = Some type_ref)
  (Hc : coerce_runtime_output_value definition clause value = Ok v) :
  has_type (normalized_type_ref type_ref) v.
Proof.
  unfold coerce_runtime_output_value in Hc. rewrite Ht in Hc.
  eapply coerce_to_typed, Hc. intros x y. simpl.
  destruct (numeric_value x) as [n|]; simpl; [|done]. destruct (as_f64 n) as [f|]; simpl; [|done].
  intros [= <-]. unfold value_of_f64. destruct (f64_is_finite f); eauto.
Qed.

Lemma coerced_input_typed variable type_ref value v :
  coerce_input_value variable type_ref value = Ok v -> has_type (normalized_type_ref type_ref) v.
Proof. apply coerce_to_typed. intros x y Hx. right. by eapply numeric_value_number. Qed.
End Typing.

(** Libraries that read nothing, for the witnesses. *)
Definition no_chrono : Chrono :=
  {| NaiveDate := unit; NaiveTime := unit; NaiveDateTime := unit;
     parse_date _ := None; format_date _ := EmptyString; compare_date _ _ := Eq;
     parse_time _ := None; format_time _ := EmptyString; compare_time _ _ := Eq;
     parse_local _ := None; parse_local_seconds _ := None; local_nanosecond _ := 0;
     format_local_seconds _ := EmptyString; format_local_fraction _ := EmptyString;
     compare_local _ _ := Eq; parse_rfc3339 _ := None; format_rfc3339 _ := EmptyString |}.

(** Reads integers, and nothing else. *)
Definition integer_reader : JsonReader :=
  {| json_from_str s := value_of_i64 <$> parse_i64 s |}.

Definition sample_definition (policy : DmnHitPolicy) (operator : option CollectOperator)
  (inputs : list DmnInputClause) (outputs : list DmnOutputClause) (rules : list DmnRule)
  : DmnDecisionDefinition :=
  mkDefinition "dmn-decision:d1:discount" "d" "d1" "discount" "Discount" 1 None None None
    "discount.dmn" policy operator inputs outputs rules [].

Definition integer_output : DmnOutputClause := mkOutput "o1" "rate" (Some "integer"%string) [].

Lemma coerced_output_typed_witness :
  has_type (normalized_type_ref "integer") (VNumber (PosInt 42)).
Proof.
  exact (@coerced_output_typed no_chrono integer_reader
           (sample_definition First None [] [integer_output] []) integer_output "integer"
           (VString " 42 ") (VNumber (PosInt 42)) eq_refl eq_refl).
Defined.

Example out_of_range_output :
  exists e, @coerce_runtime_output_value no_chrono integer_reader
              (sample_definition First None [] [integer_output] []) integer_output
              (VNumber (PosInt 2147483648)) = Err e.
Proof. eexists. reflexivity. Qed.
Close Scope Z_scope.
