(* ===== verification/DmnTable.v ===== *)
(** * DMN: decision tables

    The rule engine of [flowable-dmn-engine/src/runtime.rs]: unary tests
    (1251-1535), rule matching, the evaluation of output entries with its
    cache by rule id (1708-1880), the hit policies (509-1145) and the audit
    of the rules (1159-1225).

    Expressions are evaluated by the interface [Evaluation]; an evaluation is
    a computation that ends in a value, an error or a panic of the expression
    engine. *)
From Stdlib Require Import Ascii.
From S2P Require Import Prelude Chars Float64 Numerals Json Errors ElValues FeelLexer FeelEvaluator DmnTypes DmnTemporal DmnValues.

(** A step that can fail but not panic. *)
Definition raise {A} (r : result DmnError A) : result DmnStop A := map_err Raised r.
Definition fail {A} (m : Message) : result DmnStop A := Err (Raised (DmnExecution m)).

(** [iter().map(f).collect::<Result<Vec<_>, _>>()]. *)
Fixpoint collect_results {E A B} (f : A -> result E B) (l : list A) : result E (list B) :=
  match l with
  | [] => Ok []
  | a :: l => b ← f a; bs ← collect_results f l; Ok (b :: bs)
  end.

Definition scope_of (inputs : Row) : Scope := list_to_map inputs.

Section Tables.
Context `{Chrono} `{JsonReader} `{Regex} `{Unicode} `{Evaluation}.

(** ** Unary tests *)
Definition comparison_matches (operator : DmnComparisonOperator) (ordering : comparison) : bool :=
  match operator, ordering with
  | CGreaterThan, Gt | CGreaterThanOrEqual, (Gt | Eq)
  | CLessThan, Lt | CLessThanOrEqual, (Lt | Eq) => true
  | _, _ => false
  end.

(** [compare_values(..).is_some_and(|ordering| ..)]. *)
Definition ordered (operator : DmnComparisonOperator) (o : option comparison) : bool :=
  match o with Some ordering => comparison_matches operator ordering | None => false end.

Definition range_matches (actual start end_ : Value) (start_inclusive end_inclusive : bool)
  (type_ref : option string) : bool :=
  match compare_values actual start type_ref, compare_values actual end_ type_ref with
  | Some start_ordering, Some end_ordering =>
      match start_ordering with Gt => true | Eq => start_inclusive | Lt => false end
      && match end_ordering with Lt => true | Eq => end_inclusive | Gt => false end
  | _, _ => false
  end.

Definition is_string (v : Value) : bool := match v with VString _ => true | _ => false end.

(** A string value whose text passes a test. *)
Definition string_test (v : Value) (p : string -> bool) : bool :=
  match as_str v with Some s => p s | None => false end.

Definition instance_of_matches (type_name : string) (actual : Value) : bool :=
  let t := to_lowercase type_name in
  if bool_decide (t = "string") then is_string actual
  else if bool_decide (t = "number") || bool_decide (t = "double") || bool_decide (t = "long")
          || bool_decide (t = "integer") then is_number actual
  else if bool_decide (t = "boolean") then match actual with VBool _ => true | _ => false end
  else if bool_decide (t = "null") then is_null actual
  else if bool_decide (t = "date") then string_test actual (fun s => is_Some_b (parse_date s))
  else if bool_decide (t = "time") then string_test actual (fun s => is_Some_b (parse_time s))
  else if bool_decide (t = "datetime") then
    string_test actual (fun s => is_Some_b (parse_rfc3339 s) || is_Some_b (parse_local_seconds s))
  else if bool_decide (t = "duration") then string_test actual (starts_with "P")
  else if bool_decide (t = "context") then match actual with VObject _ => true | _ => false end
  else if bool_decide (t = "list") then match actual with VArray _ => true | _ => false end
  else false.

Definition string_function_matches (function : DmnStringFunction) (actual : Value) (needle : string)
  : bool :=
  string_test actual (fun s =>
    match function with
    | SContains => str_contains s needle
    | SStartsWith => starts_with needle s
    | SEndsWith => str_ends_with s needle
    | SMatches => unwrap_or false (regex_is_match needle s)
    end).

Definition string_transform_matches (transform : DmnStringTransform) (actual : Value)
  (expected : string) : bool :=
  string_test actual (fun s =>
    match transform with
    | LowerCase => bool_decide (to_lowercase s = expected)
    | UpperCase => bool_decide (to_uppercase s = expected)
    | StringLength => false
    end).

Definition string_transform_comparison_value (transform : DmnStringTransform) (actual : Value)
  : option Value :=
  s ← as_str actual;
  match transform with
  | StringLength => Some (value_of_usize (length (chars s)))
  | LowerCase | UpperCase => None
  end.

Definition string_transform_comparison_matches (transform : DmnStringTransform)
  (operator : DmnComparisonOperator) (actual expected : Value) : bool :=
  match string_transform_comparison_value transform actual with
  | Some a => ordered operator (compare_numbers a expected)
  | None => false
  end.

(** [Substring]: [start] counts characters from 1, or from the end when negative. *)
Definition substring_chars (cs : list Z) (start : Z) (length_ : option Z) : list Z :=
  let char_len := Z.of_nat (length cs) in
  let start_idx :=
    Z.to_nat (if (0 <? start)%Z then Z.min (start - 1) char_len
              else if (start <? 0)%Z then Z.max (char_len + start) 0 else 0%Z) in
  match length_ with
  | Some len => if (len <=? 0)%Z then [] else take (Z.to_nat len) (drop start_idx cs)
  | None => drop start_idx cs
  end.

Definition regex_flags (flags : option string) : bool * bool * bool * bool :=
  match flags with
  | Some f => (has_char "i" f, has_char "s" f, has_char "m" f, has_char "x" f)
  | None => (false, false, false, false)
  end.

Definition input_expression_error (source : string) (e : DmnStop) : DmnStop :=
  match e with
  | Raised error =>
      Raised (DmnExecution ([Lit "failed to evaluate input entry expression '"; Lit source; Lit "': "]
                            ++ dmn_display error))
  | Aborted => Aborted
  end.

Definition deferred_matches (operator : DmnDeferredOperator) (actual expected : Value)
  (type_ref : option string) : bool :=
  match operator with
  | DEquals => value_eqb actual expected
  | DNotEquals => negb (value_eqb actual expected)
  | DGreaterThan => ordered CGreaterThan (compare_values actual expected type_ref)
  | DGreaterThanOrEqual => ordered CGreaterThanOrEqual (compare_values actual expected type_ref)
  | DLessThan => ordered CLessThan (compare_values actual expected type_ref)
  | DLessThanOrEqual => ordered CLessThanOrEqual (compare_values actual expected type_ref)
  end.

Definition is_date_or_number (type_ref : option string) : bool :=
  match normalized_type_ref <$> type_ref with
  | Some t => existsb (fun n => bool_decide (t = n)) ["date"; "number"; "double"; "integer"; "long"]%string
  | None => false
  end.

(** [current.get(key)] along a path. *)
Fixpoint walk_path (path : list string) (v : Value) : option Value :=
  match path with
  | [] => Some v
  | key :: path => value_get key v ≫= walk_path path
  end.

Fixpoint unary_test_matches (expression : DmnUnaryTest) (actual : Value)
  (type_ref : option string) (inputs : Row) {struct expression} : result DmnStop bool :=
  match expression with
  | TAny => Ok true
  | TEquals expected => Ok (value_eqb actual expected)
  | TNotEquals expected => Ok (negb (value_eqb actual expected))
  | TStringFunction function needle => Ok (string_function_matches function actual needle)
  | TStringTransform transform expected => Ok (string_transform_matches transform actual expected)
  | TStringTransformComparison transform operator expected =>
      Ok (string_transform_comparison_matches transform operator actual expected)
  | TGreaterThan expected => Ok (ordered CGreaterThan (compare_values actual expected type_ref))
  | TGreaterThanOrEqual expected =>
      Ok (ordered CGreaterThanOrEqual (compare_values actual expected type_ref))
  | TLessThan expected => Ok (ordered CLessThan (compare_values actual expected type_ref))
  | TLessThanOrEqual expected =>
      Ok (ordered CLessThanOrEqual (compare_values actual expected type_ref))
  | TRange start end_ start_inclusive end_inclusive =>
      Ok (range_matches actual start end_ start_inclusive end_inclusive type_ref)
  | TAnyOf tests | TOr tests =>
      (fix any (tests : list DmnUnaryTest) : result DmnStop bool :=
         match tests with
         | [] => Ok false
         | t :: tests => b ← unary_test_matches t actual type_ref inputs;
                         if (b : bool) then Ok true else any tests
         end) tests
  | TNot test => b ← unary_test_matches test actual type_ref inputs; Ok (negb b)
  | TAnd tests =>
      (fix all (tests : list DmnUnaryTest) : result DmnStop bool :=
         match tests with
         | [] => Ok true
         | t :: tests => b ← unary_test_matches t actual type_ref inputs;
                         if (b : bool) then all tests else Ok false
         end) tests
  | TInstanceOf type_name => Ok (instance_of_matches type_name actual)
  | TSubstring start length_ expected =>
      Ok (string_test actual (fun s =>
            bool_decide (of_chars (substring_chars (chars s) start length_) = expected)))
  | TReplace pattern replacement flags expected =>
      Ok (string_test actual (fun s =>
            bool_decide (regex_replace_all (regex_flags flags) pattern s replacement = Some expected)))
  | TListContains needle =>
      Ok (match as_array actual with
          | Some list_ =>
              value_contains list_
                (match needle with
                 | NLiteral v => v
                 | NVariable name => unwrap_or VNull (map_get name inputs)
                 end)
          | None => false
          end)
  | TInList values => Ok (existsb (value_eqb actual) values)
  | TDeferredComparison operator source =>
      expected ← map_err (input_expression_error source) (engine_evaluate source (scope_of inputs));
      Ok (deferred_matches operator actual expected type_ref)
  | TElCondition source =>
      evaluated ← map_err (input_expression_error source) (engine_evaluate source (scope_of inputs));
      match as_bool evaluated with
      | Some b => Ok b
      | None => fail [Lit "input entry expression '"; Lit source; Lit "' returned non-Boolean: ";
                      ShowJson evaluated]
      end
  | TPropertyPath path test =>
      if is_date_or_number type_ref then Ok false
      else match walk_path path actual with
           | Some current => unary_test_matches test current None inputs
           | None => Ok false
           end
  end.

(** ** Matching rules *)
Definition actual_of (inputs : Row) (clause : DmnInputClause) : Value :=
  unwrap_or VNull (map_get (input_variable clause) inputs).

Definition entry_matches (inputs : Row) (clause : DmnInputClause) (entry : DmnRuleInputEntry)
  : result DmnStop bool :=
  unary_test_matches (ie_expression entry) (actual_of inputs clause) (in_type_ref clause) inputs.

Fixpoint entries_match (inputs : Row) (entries : list (DmnInputClause * DmnRuleInputEntry))
  : result DmnStop bool :=
  match entries with
  | [] => Ok true
  | (clause, entry) :: entries =>
      b ← entry_matches inputs clause entry;
      if (b : bool) then entries_match inputs entries else Ok false
  end.

Definition rule_matches (definition : DmnDecisionDefinition) (inputs : Row) (rule : DmnRule)
  : result DmnStop bool :=
  entries_match inputs (combine (df_inputs definition) (input_entries rule)).

(** [for rule in &definition.rules { if rule_matches(..)? { matched.push(rule) } }]. *)
Fixpoint matching_loop (definition : DmnDecisionDefinition) (inputs : Row) (rules : list DmnRule)
  : result DmnStop (list DmnRule) :=
  match rules with
  | [] => Ok []
  | rule :: rules =>
      b ← rule_matches definition inputs rule;
      matched ← matching_loop definition inputs rules;
      Ok (if (b : bool) then rule :: matched else matched)
  end.

Definition matching_rules (definition : DmnDecisionDefinition) (inputs : Row)
  : result DmnStop (list DmnRule) :=
  matching_loop definition inputs (df_rules definition).

(** ** Output entries *)
Record EvaluatedRuleOutputs := mkEvaluated {
  ev_values : Row;
  ev_conclusions : list DmnExpressionExecution
}.

Notation RuleOutputCache := (gmap string EvaluatedRuleOutputs).

Definition default_output (clause : DmnOutputClause) : Value :=
  match normalized_type_ref <$> out_type_ref clause with
  | Some t => if bool_decide (t = "number") then value_of_f64 f64_zero
              else if bool_decide (t = "date") then VString now_rfc3339
              else VString EmptyString
  | None => VString EmptyString
  end.

Definition default_boolean (scope : Scope) (clause : DmnInputClause) : Scope :=
  match in_type_ref clause, scope !! input_variable clause with
  | Some t, None => if bool_decide (normalized_type_ref t = "boolean")
                    then <[input_variable clause := VBool false]> scope else scope
  | _, _ => scope
  end.

Definition default_missing (scope : Scope) (clause : DmnOutputClause) : Scope :=
  match scope !! out_name clause with
  | None | Some VNull => <[out_name clause := default_output clause]> scope
  | Some _ => scope
  end.

Definition build_output_evaluation_scope (definition : DmnDecisionDefinition) (inputs : Row) : Scope :=
  fold_left default_missing (df_outputs definition)
    (fold_left default_boolean (df_inputs definition) (scope_of inputs)).

Definition output_expression_error (definition : DmnDecisionDefinition) (clause : DmnOutputClause)
  (e : DmnStop) : DmnStop :=
  match e with
  | Raised error =>
      Raised (DmnExecution ([Lit "failed to evaluate output expression for decision '";
                             Lit (df_key definition); Lit "' output '"; Lit (out_name clause);
                             Lit "': "] ++ dmn_display error))
  | Aborted => Aborted
  end.

Definition evaluate_single_output_entry (definition : DmnDecisionDefinition)
  (clause : DmnOutputClause) (entry : DmnRuleOutputEntry) (scope : Scope)
  : result DmnStop (option Value) :=
  let raw := trim (oe_expression entry) in
  if bool_decide (raw = EmptyString) || bool_decide (raw = "-") then
    if is_null (oe_value entry) then Ok None
    else v ← raise (coerce_runtime_output_value definition clause (oe_value entry)); Ok (Some v)
  else
    let expr := strip_expression_shells raw in
    if bool_decide (expr = EmptyString) then Ok None
    else
      evaluated ← map_err (output_expression_error definition clause) (engine_evaluate expr scope);
      coerced ← raise (coerce_runtime_output_value definition clause evaluated);
      Ok (Some coerced).

Definition conclusion_id (rule : DmnRule) (index : nat) (entry : DmnRuleOutputEntry) : Message :=
  match oe_id entry with
  | Some id => [Lit id]
  | None => [Lit (rule_id rule); Lit ":output:"; ShowInt (Z.of_nat (S index))]
  end.

Fixpoint outputs_loop (definition : DmnDecisionDefinition) (rule : DmnRule) (index : nat)
  (entries : list (DmnOutputClause * DmnRuleOutputEntry)) (scope : Scope) (acc : EvaluatedRuleOutputs)
  : result DmnStop EvaluatedRuleOutputs :=
  match entries with
  | [] => Ok acc
  | (clause, entry) :: entries =>
      let id := conclusion_id rule index entry in
      o ← evaluate_single_output_entry definition clause entry scope;
      match o with
      | Some coerced =>
          outputs_loop definition rule (S index) entries (<[out_name clause := coerced]> scope)
            (mkEvaluated (map_insert (out_name clause) coerced (ev_values acc))
                         (ev_conclusions acc ++ [mkExpressionExecution id coerced]))
      | None =>
          outputs_loop definition rule (S index) entries scope
            (mkEvaluated (ev_values acc) (ev_conclusions acc ++ [mkExpressionExecution id VNull]))
      end
  end.

Definition evaluate_rule_outputs (definition : DmnDecisionDefinition) (rule : DmnRule) (inputs : Row)
  : result DmnStop EvaluatedRuleOutputs :=
  outputs_loop definition rule 0 (combine (df_outputs definition) (output_entries rule))
    (build_output_evaluation_scope definition inputs) (mkEvaluated [] []).

Fixpoint precompute_loop (definition : DmnDecisionDefinition) (inputs : Row) (rules : list DmnRule)
  (cache : RuleOutputCache) : result DmnStop RuleOutputCache :=
  match rules with
  | [] => Ok cache
  | rule :: rules =>
      b ← rule_matches definition inputs rule;
      if (b : bool) then
        evaluated ← evaluate_rule_outputs definition rule inputs;
        precompute_loop definition inputs rules (<[rule_id rule := evaluated]> cache)
      else precompute_loop definition inputs rules cache
  end.

Definition precompute_matching_rule_outputs (definition : DmnDecisionDefinition) (inputs : Row)
  : result DmnStop RuleOutputCache :=
  precompute_loop definition inputs (df_rules definition) ∅.

Definition cached_outputs_for_rule (cache : RuleOutputCache) (rule : DmnRule) : result DmnStop Row :=
  match cache !! rule_id rule with
  | Some evaluated => Ok (ev_values evaluated)
  | None => fail [Lit "internal error: missing precomputed outputs for rule '"; Lit (rule_id rule);
                  Lit "'"]
  end.
End Tables.

Notation RuleOutputCache := (gmap string EvaluatedRuleOutputs).
