(* ===== verification/DmnHitPolicy.v ===== *)
(** * DMN: hit policies and audit

    [evaluate_hit_policy] and the audit of [flowable-dmn-engine/src/runtime.rs]
    (499-1225, 2002-2010). *)
From Stdlib Require Import Ascii.
From S2P Require Import Prelude Chars Float64 Numerals Json Errors ElValues FeelLexer FeelEvaluator DmnTypes DmnTemporal DmnValues DmnTable.

Record RuleHitPolicyMessage := mkRuleMessage {
  rm_validation_message : option Message;
  rm_exception_message : option Message
}.

Record HitPolicyEvaluation := mkEvaluation {
  he_matched_rule_id : option string;
  he_matched_rule_count : nat;
  he_decision_result : list Row;
  he_multiple_results : bool;
  he_validation_message : option Message;
  he_rule_messages : gmap string RuleHitPolicyMessage
}.

Definition with_validation (m : option Message) (e : HitPolicyEvaluation) : HitPolicyEvaluation :=
  mkEvaluation (he_matched_rule_id e) (he_matched_rule_count e) (he_decision_result e)
    (he_multiple_results e) m (he_rule_messages e).

(** A result of no or one row: an empty row is no row. *)
Definition row_list (outputs : Row) : list Row :=
  match outputs with [] => [] | _ => [outputs] end.

Definition single_row_result (matched_rule_id : option string) (matched_rule_count : nat)
  (outputs : Row) : HitPolicyEvaluation :=
  mkEvaluation matched_rule_id matched_rule_count (row_list outputs) false None ∅.

Definition empty_hit_result : HitPolicyEvaluation := mkEvaluation None 0 [] false None ∅.

(** [[rule] => Some(rule.id), _ => None]. *)
Definition sole_rule_id (rules : list DmnRule) : option string :=
  match rules with [rule] => Some (rule_id rule) | _ => None end.

(** The [Debug] text of a hit policy. *)
Definition policy_debug (p : DmnHitPolicy) : string :=
  match p with
  | First => "First" | Unique => "Unique" | AnyHit => "Any" | RuleOrder => "RuleOrder"
  | OutputOrder => "OutputOrder" | Priority => "Priority" | Collect => "Collect"
  | Complete => "Complete" | Batch => "Batch"
  end.

Fixpoint joined_rule_ids (rules : list DmnRule) : Message :=
  match rules with
  | [] => []
  | [rule] => [Lit (rule_id rule)]
  | rule :: rules => Lit (rule_id rule) :: Lit ", " :: joined_rule_ids rules
  end.

(** The same message for every matched rule. *)
Definition rule_messages_for (rules : list DmnRule) (message : Message)
  : gmap string RuleHitPolicyMessage :=
  fold_left (fun acc rule => <[rule_id rule := mkRuleMessage (Some message) None]> acc) rules ∅.

Definition row_eqb (r r' : Row) : bool := value_eqb (VObject r) (VObject r').

(** [sort_by_key]: a stable sort. *)
Section Sorting.
Context {A : Type} (key : A -> nat).

Fixpoint insert_by_key (a : A) (l : list A) : list A :=
  match l with
  | [] => [a]
  | b :: l' => if Nat.leb (key a) (key b) then a :: l else b :: insert_by_key a l'
  end.

Definition sort_by_key (l : list A) : list A := foldr insert_by_key [] l.
End Sorting.

Definition f64_is_nan (x : f64) : bool := match x with S754_nan => true | _ => false end.
Definition f64_min (a b : f64) : f64 :=
  if f64_is_nan a then b else if f64_is_nan b then a else if f64_ltb b a then b else a.
Definition f64_max (a b : f64) : f64 :=
  if f64_is_nan a then b else if f64_is_nan b then a else if f64_ltb a b then b else a.

(** [Iterator::reduce]. *)
Definition reduce {A} (f : A -> A -> A) (l : list A) : option A :=
  match l with [] => None | a :: l => Some (fold_left f l a) end.

Section Policies.
Context `{Chrono} `{JsonReader} `{Regex} `{Unicode} `{Evaluation}.

(** ** FIRST *)
Fixpoint first_loop (definition : DmnDecisionDefinition) (inputs : Row) (cache : RuleOutputCache)
  (rules : list DmnRule) : result DmnStop HitPolicyEvaluation :=
  match rules with
  | [] => Ok empty_hit_result
  | rule :: rules =>
      b ← rule_matches definition inputs rule;
      if (b : bool) then
        outputs ← cached_outputs_for_rule cache rule;
        Ok (single_row_result (Some (rule_id rule)) 1 outputs)
      else first_loop definition inputs cache rules
  end.

Definition evaluate_first_hit (definition : DmnDecisionDefinition) (inputs : Row)
  (cache : RuleOutputCache) : result DmnStop HitPolicyEvaluation :=
  first_loop definition inputs cache (df_rules definition).

(** ** UNIQUE *)
Definition merge_non_null (merged row : Row) : Row :=
  fold_left (fun merged kv => if is_null kv.2 then merged else map_insert kv.1 kv.2 merged) row merged.

Fixpoint merge_unique_loop (cache : RuleOutputCache) (rules : list DmnRule) (merged : Row)
  : result DmnStop Row :=
  match rules with
  | [] => Ok merged
  | rule :: rules =>
      row ← cached_outputs_for_rule cache rule;
      merge_unique_loop cache rules (merge_non_null merged row)
  end.

Definition merge_unique_outputs_by_key (rules : list DmnRule) (cache : RuleOutputCache)
  : result DmnStop Row := merge_unique_loop cache rules [].

Definition unique_violated : Message :=
  [Lit "HitPolicy UNIQUE violated; multiple valid rules. Setting last valid rule result as final result."].

Definition evaluate_unique_hit (definition : DmnDecisionDefinition) (inputs : Row)
  (cache : RuleOutputCache) (strict_mode : bool) : result DmnStop HitPolicyEvaluation :=
  matched_rules ← matching_rules definition inputs;
  match matched_rules with
  | [] => Ok empty_hit_result
  | [rule] => outputs ← cached_outputs_for_rule cache rule;
              Ok (single_row_result (Some (rule_id rule)) 1 outputs)
  | rules =>
      if strict_mode then
        fail ([Lit "UNIQUE hit policy violation for decision '"; Lit (df_key definition);
               Lit "': matched rules "] ++ joined_rule_ids rules)
      else
        merged ← merge_unique_outputs_by_key rules cache;
        Ok (mkEvaluation None (length rules) (row_list merged) false (Some unique_violated)
              (rule_messages_for rules
                 ([Lit "HitPolicy UNIQUE violated; multiple valid rules: "]
                  ++ joined_rule_ids rules ++ [Lit "."])))
  end.

(** ** ANY *)
Fixpoint find_conflict (cache : RuleOutputCache) (first_outputs : Row) (rules : list DmnRule)
  : result DmnStop (option DmnRule) :=
  match rules with
  | [] => Ok None
  | rule :: rules =>
      outputs ← cached_outputs_for_rule cache rule;
      if negb (row_eqb outputs first_outputs) then Ok (Some rule)
      else find_conflict cache first_outputs rules
  end.

Definition any_violated : Message :=
  [Lit "HitPolicy ANY violated; multiple valid rules with different outcomes. Setting last valid rule result as final result."].

Definition evaluate_any_hit (definition : DmnDecisionDefinition) (inputs : Row)
  (cache : RuleOutputCache) (strict_mode : bool) : result DmnStop HitPolicyEvaluation :=
  matched_rules ← matching_rules definition inputs;
  match matched_rules with
  | [] => Ok empty_hit_result
  | first_rule :: others =>
      first_outputs ← cached_outputs_for_rule cache first_rule;
      conflict ← find_conflict cache first_outputs others;
      match conflict with
      | Some conflicting_rule =>
          if strict_mode then
            fail ([Lit "ANY hit policy violation for decision '"; Lit (df_key definition);
                   Lit "': matched rules "] ++ joined_rule_ids matched_rules
                  ++ [Lit " produce different outputs; first conflicting rule '";
                      Lit (rule_id conflicting_rule); Lit "'"])
          else
            let last_rule := List.last others first_rule in
            last_outputs ← cached_outputs_for_rule cache last_rule;
            Ok (mkEvaluation (Some (rule_id last_rule)) (length matched_rules)
                  (row_list last_outputs) false (Some any_violated)
                  (rule_messages_for matched_rules
                     [Lit "HitPolicy ANY violated; both rule '"; Lit (rule_id first_rule);
                      Lit "' and '"; Lit (rule_id conflicting_rule);
                      Lit "' are valid but outputs differ."]))
      | None => Ok (single_row_result (Some (rule_id first_rule)) (length matched_rules) first_outputs)
      end
  end.

(** ** RULE ORDER, and the policies that return one row per matched rule *)
Definition evaluate_rule_order_matches (matched_rules : list DmnRule) (cache : RuleOutputCache)
  : result DmnStop HitPolicyEvaluation :=
  decision_result ← collect_results (cached_outputs_for_rule cache) matched_rules;
  Ok (mkEvaluation (sole_rule_id matched_rules) (length matched_rules) decision_result true None ∅).

Definition evaluate_rule_order_hit (definition : DmnDecisionDefinition) (inputs : Row)
  (cache : RuleOutputCache) : result DmnStop HitPolicyEvaluation :=
  matched_rules ← matching_rules definition inputs;
  evaluate_rule_order_matches matched_rules cache.

Definition evaluate_batch_hit (definition : DmnDecisionDefinition) (inputs : Row)
  (cache : RuleOutputCache) : result DmnStop HitPolicyEvaluation :=
  matched_rules ← matching_rules definition inputs;
  evaluate_rule_order_matches matched_rules cache.

(** ** OUTPUT ORDER and PRIORITY *)
Definition has_any_output_values (definition : DmnDecisionDefinition) : bool :=
  existsb (fun output => match output_values output with [] => false | _ => true end)
    (df_outputs definition).

Definition ensure_output_values_for_order_policy (definition : DmnDecisionDefinition)
  (matched_rules : list DmnRule) (strict_mode priority_style : bool)
  : result DmnStop (option Message) :=
  let name := Lit (policy_debug (df_hit_policy definition)) in
  if has_any_output_values definition then Ok None
  else if priority_style && Nat.ltb (length matched_rules) 2 then Ok None
  else if strict_mode then
    fail [Lit "HitPolicy "; name; Lit " violated; no output values present."]
  else if priority_style then
    Ok (Some [Lit "HitPolicy "; name;
              Lit " violated; no output values present. Setting first valid result as final result."])
  else Ok (Some [Lit "HitPolicy: "; name; Lit " violated; no output values present"]).

Fixpoint position_of (candidates : list Value) (v : Value) (index : nat) : option nat :=
  match candidates with
  | [] => None
  | c :: candidates => if value_eqb c v then Some index else position_of candidates v (S index)
  end.

Definition output_priority_rank (definition : DmnDecisionDefinition) (cache : RuleOutputCache)
  (rule : DmnRule) : result DmnStop nat :=
  let policy := Lit (policy_debug (df_hit_policy definition)) in
  match df_outputs definition with
  | [] => fail [policy; Lit " hit policy for decision '"; Lit (df_key definition);
                Lit "' requires one output"]
  | output :: _ =>
      let evaluated := cache !! rule_id rule ≫= fun e => map_get (out_name output) (ev_values e) in
      match or_else evaluated (oe_value <$> head (output_entries rule)) with
      | None => fail [policy; Lit " hit policy for decision '"; Lit (df_key definition);
                      Lit "' requires one output entry per rule"]
      | Some value =>
          value ← raise (coerce_runtime_output_value definition output value);
          Ok (match position_of (output_values output) value 0 with
              | Some index => S index
              | None => 0%nat
              end)
      end
  end.

Definition rank_or_zero (r : result DmnStop nat) : nat :=
  match r with Ok n => n | Err _ => 0%nat end.

Definition sort_rules_by_output_priority (definition : DmnDecisionDefinition)
  (rules : list DmnRule) (cache : RuleOutputCache) : result DmnStop (list DmnRule) :=
  _ ← collect_results (output_priority_rank definition cache) rules;
  Ok (sort_by_key (fun rule => rank_or_zero (output_priority_rank definition cache rule)) rules).

(** [if has_any_output_values(definition) { sort_rules_by_output_priority(..)? }]. *)
Definition prioritised (definition : DmnDecisionDefinition) (rules : list DmnRule)
  (cache : RuleOutputCache) : result DmnStop (list DmnRule) :=
  if has_any_output_values definition
  then sort_rules_by_output_priority definition rules cache else Ok rules.

Definition evaluate_output_order_hit (definition : DmnDecisionDefinition) (inputs : Row)
  (cache : RuleOutputCache) (strict_mode : bool) : result DmnStop HitPolicyEvaluation :=
  matched_rules ← matching_rules definition inputs;
  validation_message ← ensure_output_values_for_order_policy definition matched_rules strict_mode false;
  matched_rules ← prioritised definition matched_rules cache;
  evaluation ← evaluate_rule_order_matches matched_rules cache;
  Ok (with_validation validation_message evaluation).

Definition evaluate_priority_hit (definition : DmnDecisionDefinition) (inputs : Row)
  (cache : RuleOutputCache) (strict_mode : bool) : result DmnStop HitPolicyEvaluation :=
  matched_rules ← matching_rules definition inputs;
  validation_message ← ensure_output_values_for_order_policy definition matched_rules strict_mode true;
  matched_rules ← prioritised definition matched_rules cache;
  match matched_rules with
  | [] => Ok empty_hit_result
  | rule :: _ =>
      outputs ← cached_outputs_for_rule cache rule;
      Ok (with_validation validation_message
            (single_row_result (Some (rule_id rule)) (length matched_rules) outputs))
  end.

(** ** COLLECT *)
Definition non_numeric (definition : DmnDecisionDefinition) (rule : DmnRule) (index : nat) : Message :=
  [Lit "COLLECT aggregation for decision '"; Lit (df_key definition);
   Lit "' requires numeric output values; rule '"; Lit (rule_id rule);
   Lit "' produced non-numeric output at index "; ShowInt (Z.of_nat index)].

Definition numeric_collect_value (definition : DmnDecisionDefinition) (index : nat)
  (cache : RuleOutputCache) (rule : DmnRule) : result DmnStop f64 :=
  match df_outputs definition !! index with
  | None => fail [Lit "COLLECT aggregation requires output at index"]
  | Some output =>
      match cache !! rule_id rule ≫= fun e => map_get (out_name output) (ev_values e) with
      | None => fail (non_numeric definition rule index)
      | Some value => match as_f64 value with
                      | Some x => Ok x
                      | None => fail (non_numeric definition rule index)
                      end
      end
  end.

Definition numeric_collect_values_at_index (definition : DmnDecisionDefinition)
  (matched_rules : list DmnRule) (index : nat) (cache : RuleOutputCache) : result DmnStop (list f64) :=
  collect_results (numeric_collect_value definition index cache) matched_rules.

Definition sum_collect_values_at_index (definition : DmnDecisionDefinition)
  (matched_rules : list DmnRule) (index : nat) (cache : RuleOutputCache) : result DmnStop f64 :=
  values ← numeric_collect_values_at_index definition matched_rules index cache;
  Ok (f64_sum values).

Definition aggregate (operator : CollectOperator) (definition : DmnDecisionDefinition)
  (matched_rules : list DmnRule) (index : nat) (cache : RuleOutputCache) : result DmnStop Value :=
  match operator with
  | Count => Ok (value_of_usize (length matched_rules))
  | Sum => value_of_f64 <$> sum_collect_values_at_index definition matched_rules index cache
  | Min => values ← numeric_collect_values_at_index definition matched_rules index cache;
           Ok (match reduce f64_min values with Some x => value_of_f64 x | None => VNull end)
  | Max => values ← numeric_collect_values_at_index definition matched_rules index cache;
           Ok (match reduce f64_max values with Some x => value_of_f64 x | None => VNull end)
  end.

Fixpoint aggregation_loop (operator : CollectOperator) (definition : DmnDecisionDefinition)
  (matched_rules : list DmnRule) (cache : RuleOutputCache) (index : nat)
  (clauses : list DmnOutputClause) (outputs : Row) : result DmnStop Row :=
  match clauses with
  | [] => Ok outputs
  | clause :: clauses =>
      value ← aggregate operator definition matched_rules index cache;
      coerced ← raise (coerce_runtime_output_value definition clause value);
      aggregation_loop operator definition matched_rules cache (S index) clauses
        (map_insert (out_name clause) coerced outputs)
  end.

Definition evaluate_collect_aggregation (definition : DmnDecisionDefinition)
  (matched_rules : list DmnRule) (operator : CollectOperator) (cache : RuleOutputCache)
  : result DmnStop HitPolicyEvaluation :=
  match df_outputs definition with
  | [] => fail [Lit "COLLECT aggregation requires at least one output"]
  | clauses =>
      outputs ← aggregation_loop operator definition matched_rules cache 0 clauses [];
      Ok (single_row_result (sole_rule_id matched_rules) (length matched_rules) outputs)
  end.

Definition evaluate_collect_hit (definition : DmnDecisionDefinition) (inputs : Row)
  (cache : RuleOutputCache) : result DmnStop HitPolicyEvaluation :=
  matched_rules ← matching_rules definition inputs;
  match df_collect_operator definition with
  | Some operator => evaluate_collect_aggregation definition matched_rules operator cache
  | None => evaluate_rule_order_matches matched_rules cache
  end.

Definition evaluate_hit_policy (definition : DmnDecisionDefinition) (inputs : Row)
  (cache : RuleOutputCache) (strict_mode : bool) : result DmnStop HitPolicyEvaluation :=
  match df_hit_policy definition with
  | First => evaluate_first_hit definition inputs cache
  | Unique => evaluate_unique_hit definition inputs cache strict_mode
  | AnyHit => evaluate_any_hit definition inputs cache strict_mode
  | RuleOrder => evaluate_rule_order_hit definition inputs cache
  | OutputOrder => evaluate_output_order_hit definition inputs cache strict_mode
  | Priority => evaluate_priority_hit definition inputs cache strict_mode
  | Collect => evaluate_collect_hit definition inputs cache
  | Complete => matched_rules ← matching_rules definition inputs;
                evaluate_rule_order_matches matched_rules cache
  | Batch => evaluate_batch_hit definition inputs cache
  end.

(** ** Audit *)
Definition condition_id (rule : DmnRule) (index : nat) (entry : DmnRuleInputEntry) : Message :=
  match ie_id entry with
  | Some id => [Lit id]
  | None => [Lit (rule_id rule); Lit ":input:"; ShowInt (Z.of_nat (S index))]
  end.

Fixpoint audit_conditions (inputs : Row) (rule : DmnRule) (index : nat)
  (entries : list (DmnInputClause * DmnRuleInputEntry)) : result DmnStop (list DmnExpressionExecution) :=
  match entries with
  | [] => Ok []
  | (clause, entry) :: entries =>
      b ← entry_matches inputs clause entry;
      rest ← audit_conditions inputs rule (S index) entries;
      Ok (mkExpressionExecution (condition_id rule index entry) (VBool b) :: rest)
  end.

Definition audit_rule (definition : DmnDecisionDefinition) (inputs : Row) (cache : RuleOutputCache)
  (number : nat) (rule : DmnRule) : result DmnStop DmnRuleExecutionAudit :=
  condition_results ←
    audit_conditions inputs rule 0 (combine (df_inputs definition) (input_entries rule));
  let valid := forallb (fun c => value_eqb (ee_result c) (VBool true)) condition_results in
  Ok (mkAudit number (rule_id rule) valid condition_results
        (if valid then match cache !! rule_id rule with Some e => ev_conclusions e | None => [] end
         else []) None None).

Fixpoint audit_loop (definition : DmnDecisionDefinition) (inputs : Row) (cache : RuleOutputCache)
  (number : nat) (rules : list DmnRule) : result DmnStop (list DmnRuleExecutionAudit) :=
  match rules with
  | [] => Ok []
  | rule :: rules =>
      audit ← audit_rule definition inputs cache number rule;
      audits ← audit_loop definition inputs cache (S number) rules;
      Ok (audit :: audits)
  end.

Definition build_rule_execution_audit (definition : DmnDecisionDefinition) (inputs : Row)
  (cache : RuleOutputCache) : result DmnStop (list DmnRuleExecutionAudit) :=
  audit_loop definition inputs cache 1 (df_rules definition).
End Policies.

Definition apply_rule_message (messages : gmap string RuleHitPolicyMessage)
  (audit : DmnRuleExecutionAudit) : DmnRuleExecutionAudit :=
  match messages !! au_rule_id audit with
  | Some m =>
      mkAudit (au_rule_number audit) (au_rule_id audit) (au_valid audit)
        (au_condition_results audit) (au_conclusion_results audit)
        (or_else (rm_validation_message m) (au_validation_message audit))
        (or_else (rm_exception_message m) (au_exception_message audit))
  | None => audit
  end.

Definition apply_hit_policy_rule_messages (audits : list DmnRuleExecutionAudit)
  (evaluation : HitPolicyEvaluation) : list DmnRuleExecutionAudit :=
  map (apply_rule_message (he_rule_messages evaluation)) audits.
