(* ===== verification/DmnHitPolicyProof.v ===== *)
(** * DMN: correctness of the hit policies

    The rule engine matches the rules three times, caches the outputs of the
    matching ones by rule id and looks them up again.  Against that,
    [row_of] is the row of a rule, evaluated on its own.  For a definition
    whose rule ids are distinct:

    - [cache_complete]: every matching rule has its own row in the cache;
    - [single_hit_correct], [ordered_hit_correct], [multi_hit_correct]: the
      result of each policy in terms of the matching rules and their rows;
    - [audit_correct]: the audit tells, rule by rule, what was matched.

    [duplicate_rule_ids_share_outputs] shows why the ids must be distinct;
    [audit_evaluates_skipped_entries] that the audit evaluates the entries the
    matching skips. *)
From Stdlib Require Import Ascii Sorting.Sorted Sorting.Permutation.
From S2P Require Import Prelude Chars Float64 Numerals Json Errors ElValues FeelLexer FeelEvaluator DmnTypes DmnTemporal DmnValues DmnTable DmnHitPolicy.

(** ** The result monad *)
Lemma result_bind_ok {E A B} (m : result E A) (f : A -> result E B) b :
  m ≫= f = Ok b -> exists a, m = Ok a /\ f a = Ok b.
Proof. destruct m as [a|e]; [|done]. intros H. by exists a. Qed.

Lemma collect_results_map {E A B} (f : A -> result E B) (g : A -> B) l :
  (forall a, a ∈ l -> f a = Ok (g a)) -> collect_results f l = Ok (map g l).
Proof.
  induction l as [|a l IH]; intros H; [done|]. simpl. rewrite H by set_solver. simpl.
  rewrite IH by set_solver. done.
Qed.

Lemma collect_results_ok {E A B} (f : A -> result E B) l bs a :
  collect_results f l = Ok bs -> a ∈ l -> exists b, f a = Ok b.
Proof.
  revert bs. induction l as [|x l IH]; intros bs; [set_solver|]. simpl.
  intros (b & Hb & H)%result_bind_ok. apply result_bind_ok in H as (bs' & Hbs & _).
  intros [->|Ha]%elem_of_cons; eauto.
Qed.

(** ** Stable sorting *)
Section StableSort.
Context {A : Type} (key : A -> nat).

Definition stable_sorted (l l' : list A) : Prop :=
  Permutation l l'
  /\ Sorted (fun a b => (key a <= key b)%nat) l'
  /\ forall k, filter (fun a => key a = k) l' = filter (fun a => key a = k) l.

Lemma insert_permutation a l : Permutation (a :: l) (insert_by_key key a l).
Proof.
  induction l as [|b l IH]; simpl; [done|]. destruct (Nat.leb _ _); [done|].
  rewrite Permutation_swap. by constructor.
Qed.

Lemma insert_sorted a l :
  Sorted (fun a b => (key a <= key b)%nat) l ->
  Sorted (fun a b => (key a <= key b)%nat) (insert_by_key key a l).
Proof.
  induction 1 as [|b l Hl IH Hb]; simpl; [repeat constructor|].
  destruct (Nat.leb_spec (key a) (key b)).
  - constructor; [by constructor|]. by constructor.
  - constructor; [done|]. destruct l as [|c l]; simpl in *; [constructor; lia|].
    inversion Hb; subst. destruct (Nat.leb (key a) (key c)); constructor; lia.
Qed.

Lemma insert_filter a l k :
  filter (fun x => key x = k) (insert_by_key key a l) = filter (fun x => key x = k) (a :: l).
Proof.
  induction l as [|b l IH]; [done|]. cbn [insert_by_key].
  destruct (Nat.leb_spec (key a) (key b)); [done|].
  rewrite !filter_cons in *. rewrite IH.
  destruct (decide (key a = k)), (decide (key b = k)); try done. lia.
Qed.

Lemma sort_by_key_spec l : stable_sorted l (sort_by_key key l).
Proof.
  induction l as [|a l (IH1 & IH2 & IH3)]; [by repeat split; constructor|].
  cbn [sort_by_key foldr]. fold (sort_by_key key l). repeat split.
  - rewrite <- insert_permutation. by constructor.
  - by apply insert_sorted.
  - intros k. rewrite insert_filter, !filter_cons, IH3. done.
Qed.

(** The head of a stable sort is the first element of least key. *)
Definition first_minimal (l : list A) (a : A) : Prop :=
  exists pre post, l = pre ++ a :: post
    /\ Forall (fun b => (key a < key b)%nat) pre /\ Forall (fun b => (key a <= key b)%nat) post.

Lemma insert_head a l b l' :
  insert_by_key key a l = b :: l' ->
  b = a /\ (forall c, head l = Some c -> (key a <= key c)%nat)
  \/ head l = Some b /\ (key b < key a)%nat.
Proof.
  destruct l as [|c l]; simpl; [intros [= <- _]; left; split; [done|]; by intros ?|].
  destruct (Nat.leb_spec (key a) (key c)); intros [= <- _]; [left|by right].
  split; [done|]. by intros ? [= <-].
Qed.

Lemma sort_head l a l' : sort_by_key key l = a :: l' -> first_minimal l a.
Proof.
  revert a l'. induction l as [|x l IH]; intros a l'; [done|]. cbn [sort_by_key foldr].
  fold (sort_by_key key l). intros [[-> Hx]|[Hh Hlt]]%insert_head.
  - exists [], l. split; [done|]. split; [constructor|].
    destruct (sort_by_key_spec l) as (Hp & Hs & _).
    apply Sorted_StronglySorted in Hs; [|intros ???; lia].
    eapply Permutation_Forall; [symmetry; exact Hp|].
    destruct (sort_by_key key l) as [|c s]; [constructor|].
    inversion Hs as [|? ? _ Hc]; subst. specialize (Hx c eq_refl).
    constructor; [done|]. eapply List.Forall_impl; [|exact Hc]. simpl. intros; lia.
  - destruct (sort_by_key key l) as [|c s] eqn:E; [done|]. injection Hh as ->.
    destruct (IH _ _ eq_refl) as (pre & post & -> & Hpre & Hpost).
    exists (x :: pre), post. repeat split; [by constructor|done].
Qed.
End StableSort.

Section Correctness.
Context `{Chrono} `{JsonReader} `{Regex} `{Unicode} `{Evaluation}.
Context (definition : DmnDecisionDefinition) (inputs : Row).

(** The row of a rule, evaluated on its own. *)
Definition row_of (rule : DmnRule) : Row :=
  match evaluate_rule_outputs definition rule inputs with Ok e => ev_values e | Err _ => [] end.

Lemma matching_loop_sub rules ms :
  matching_loop definition inputs rules = Ok ms -> sublist ms rules.
Proof.
  revert ms. induction rules as [|r rules IH]; intros ms; simpl; [intros [= <-]; constructor|].
  intros (b & _ & E)%result_bind_ok. apply result_bind_ok in E as (m & Hm & E).
  apply IH in Hm. destruct b; injection E as <-; by constructor.
Qed.

(** Whether a rule matches, and the matching rules in table order. *)
Definition hits (rule : DmnRule) : bool :=
  match rule_matches definition inputs rule with Ok b => b | Err _ => false end.

Definition matched : list DmnRule := List.filter hits (df_rules definition).

Lemma matching_loop_filter rules ms :
  matching_loop definition inputs rules = Ok ms -> ms = List.filter hits rules.
Proof.
  revert ms. induction rules as [|r rules IH]; intros ms; simpl; [by intros [= <-]|].
  intros (b & Hb & E)%result_bind_ok. apply result_bind_ok in E as (m & Hm & E).
  apply IH in Hm as ->. unfold hits at 1. rewrite Hb. by destruct b; injection E as <-.
Qed.

(** Rows are maps: their keys are sorted. *)
Lemma outputs_loop_sorted rule index entries scope acc e :
  keys_sorted (ev_values acc) ->
  outputs_loop definition rule index entries scope acc = Ok e -> keys_sorted (ev_values e).
Proof.
  revert index scope acc. induction entries as [|[clause entry] entries IH];
    intros index scope acc Hs; cbn [outputs_loop]; [by intros [= <-]|].
  intros (o & _ & E)%result_bind_ok. destruct o as [v|]; eapply IH, E; [|done].
  by apply map_insert_sorted.
Qed.

Lemma row_of_sorted rule : keys_sorted (row_of rule).
Proof.
  unfold row_of. destruct (evaluate_rule_outputs definition rule inputs) as [e|] eqn:E; [|constructor].
  eapply outputs_loop_sorted, E. constructor.
Qed.

(** ** The cache *)
Definition holds (cache : RuleOutputCache) (rule : DmnRule) : Prop :=
  exists e, evaluate_rule_outputs definition rule inputs = Ok e /\ cache !! rule_id rule = Some e.

Lemma precompute_loop_spec rules cache0 cache :
  NoDup (map rule_id rules) ->
  precompute_loop definition inputs rules cache0 = Ok cache ->
  exists ms, matching_loop definition inputs rules = Ok ms /\ Forall (holds cache) ms
    /\ forall id, id ∉ map rule_id rules -> cache !! id = cache0 !! id.
Proof.
  revert cache0. induction rules as [|r rules IH]; intros cache0 ND; simpl.
  - intros [= <-]. exists []. split; [done|]. split; [constructor|done].
  - apply NoDup_cons in ND as [Hr ND]. intros (b & Hb & E)%result_bind_ok. rewrite Hb. simpl.
    destruct b; [apply result_bind_ok in E as (e & He & E)|];
      destruct (IH _ ND E) as (ms & -> & Hms & Hid); simpl; eexists; (split; [reflexivity|]); split.
    + constructor; [|done]. exists e. split; [done|]. rewrite Hid by done. apply lookup_insert_eq.
    + intros id [Hne Hni]%not_elem_of_cons. rewrite Hid by done. by rewrite lookup_insert_ne by done.
    + done.
    + intros id [_ Hni]%not_elem_of_cons. by apply Hid.
Qed.

Section Distinct.
Context (Hids : NoDup (map rule_id (df_rules definition))) (cache : RuleOutputCache)
  (Hcache : precompute_matching_rule_outputs definition inputs = Ok cache).

Lemma cache_complete :
  matching_rules definition inputs = Ok matched
  /\ forall r, r ∈ matched -> cached_outputs_for_rule cache r = Ok (row_of r).
Proof.
  destruct (precompute_loop_spec _ _ _ Hids Hcache) as (ms & Hm & Hh & _).
  pose proof (matching_loop_filter _ _ Hm) as ->. split; [exact Hm|]. intros r Hr.
  eapply Forall_forall in Hh as (e & He & Hc); [|exact Hr].
  unfold cached_outputs_for_rule, row_of. by rewrite Hc, He.
Qed.

Lemma cached_row r : r ∈ matched -> cached_outputs_for_rule cache r = Ok (row_of r).
Proof. apply cache_complete. Qed.

Lemma matching_matched : matching_rules definition inputs = Ok matched.
Proof. apply cache_complete. Qed.

(** ** FIRST *)
Lemma first_loop_spec rules ms :
  matching_loop definition inputs rules = Ok ms ->
  (forall r, r ∈ ms -> cached_outputs_for_rule cache r = Ok (row_of r)) ->
  first_loop definition inputs cache rules
  = Ok (match ms with
        | [] => empty_hit_result
        | r :: _ => single_row_result (Some (rule_id r)) 1 (row_of r)
        end).
Proof.
  revert ms. induction rules as [|r rules IH]; intros ms; simpl; [by intros [= <-]|].
  intros (b & -> & E)%result_bind_ok Hc. apply result_bind_ok in E as (m & Hm & E). simpl.
  destruct b; injection E as <-; [|by apply IH]. by rewrite Hc by set_solver.
Qed.

(** ** UNIQUE: the last value that is not null wins *)
Definition non_null (key : string) (row : Row) : option Value :=
  v ← map_get key row; if is_null v then None else Some v.

Definition last_non_null (key : string) (rows : list Row) : option Value :=
  last (omap (non_null key) rows).

Lemma map_get_absent {A} k (m : list (string * A)) : k ∉ map fst m -> map_get k m = None.
Proof.
  induction m as [|[k' v] m IH]; simpl; [done|]. intros [Hne Hm]%not_elem_of_cons.
  rewrite bool_decide_false by done. by apply IH.
Qed.

Lemma merge_non_null_get key merged row :
  NoDup (map fst row) ->
  map_get key (merge_non_null merged row) = or_else (non_null key row) (map_get key merged).
Proof.
  unfold merge_non_null. revert merged. induction row as [|[k v] row IH]; intros merged ND; [done|].
  apply NoDup_cons in ND as [Hk ND]. cbn [fold_left fst snd]. rewrite IH by done.
  unfold non_null. cbn [map_get]. case_bool_decide as E.
  - subst k. rewrite (map_get_absent key row) by done. simpl.
    destruct (is_null v); [done|]. by rewrite map_get_insert_eq.
  - destruct (is_null v); [done|]. by rewrite map_get_insert_ne.
Qed.

Lemma merge_unique_spec rules merged :
  (forall r, r ∈ rules -> cached_outputs_for_rule cache r = Ok (row_of r)) ->
  exists m, merge_unique_loop cache rules merged = Ok m
    /\ forall key, map_get key m = or_else (last_non_null key (map row_of rules)) (map_get key merged).
Proof.
  revert merged. induction rules as [|r rules IH]; intros merged Hc; cbn [merge_unique_loop].
  - exists merged. done.
  - rewrite Hc by set_solver. simpl. destruct (IH (merge_non_null merged (row_of r))) as (m & -> & Hm).
    { intros r' Hr'. apply Hc. set_solver. }
    exists m. split; [done|]. intros key. rewrite Hm.
    rewrite merge_non_null_get by apply keys_sorted_NoDup, row_of_sorted.
    unfold last_non_null. cbn [map omap list_omap].
    destruct (non_null key (row_of r)) as [v|]; [|done].
    rewrite last_cons. by destruct (last (omap (non_null key) (map row_of rules))).
Qed.

(** ** ANY *)
Lemma find_conflict_spec first_outputs rules :
  (forall r, r ∈ rules -> cached_outputs_for_rule cache r = Ok (row_of r)) ->
  find_conflict cache first_outputs rules
  = Ok (find_first (fun r => negb (row_eqb (row_of r) first_outputs)) rules).
Proof.
  induction rules as [|r rules IH]; intros Hc; simpl; [done|]. rewrite Hc by set_solver. simpl.
  destruct (row_eqb (row_of r) first_outputs); simpl; [|done]. apply IH. set_solver.
Qed.

Lemma rule_messages_all rules message r :
  r ∈ rules -> is_Some (rule_messages_for rules message !! rule_id r).
Proof.
  unfold rule_messages_for. intros Hr.
  enough (G : forall acc, r ∈ rules \/ is_Some (acc !! rule_id r) ->
     is_Some (fold_left (fun acc rule => <[rule_id rule := mkRuleMessage (Some message) None]> acc)
                rules acc !! rule_id r)) by (apply G; by left).
  clear Hr. induction rules as [|x rules IH]; intros acc; simpl; [intros [?|?]; [set_solver|done]|].
  intros Hx. apply IH. destruct (decide (rule_id x = rule_id r)) as [E|E].
  - right. rewrite E, lookup_insert_eq. eauto.
  - destruct Hx as [Hx|Hx]; [|right; by rewrite lookup_insert_ne].
    apply elem_of_cons in Hx as [->|Hx]; [done|by left].
Qed.

(** The outcome of a policy that found a violation: an error when strict, a
    result with messages for the decision and for every matched rule otherwise. *)
Definition violation (strict : bool) (res : result DmnStop HitPolicyEvaluation)
  (P : HitPolicyEvaluation -> Prop) : Prop :=
  if strict then exists m, res = Err (Raised (DmnExecution m))
  else exists e, res = Ok e /\ P e /\ is_Some (he_validation_message e)
         /\ he_matched_rule_count e = length matched /\ he_multiple_results e = false
         /\ forall r, r ∈ matched -> is_Some (he_rule_messages e !! rule_id r).
Notation evaluated strict := (evaluate_hit_policy definition inputs cache strict).

Lemma last_elem {A} (l : list A) a : List.last l a ∈ a :: l.
Proof.
  induction l as [|b l IH] in a |- *; [left|]. destruct l as [|c l]; [right; left|].
  change (List.last (b :: c :: l) a) with (List.last (c :: l) a).
  specialize (IH a). apply elem_of_cons in IH as [->|IH]; [left|by right; right].
Qed.

(** C28: the hit policies that return one row.  The rules of the table have distinct
    ids (deployment does not check this), and the outputs of the matching rules were
    computed without error before the policy is applied; the matching rules are those
    whose conditions match the inputs, in the order of the table.  With no matching
    rule the result of FIRST, UNIQUE and ANY is empty.  FIRST returns the row of the
    first matching rule; UNIQUE the row of the only one; ANY the common row when all
    matching rules agree.  When several rules match under UNIQUE, or rows differ under
    ANY, strict mode fails with an execution error; otherwise the violation is reported
    on the decision and on every matching rule, and the result is the merge of the rows
    in which the last value that is not null wins (UNIQUE) or the row of the last rule
    (ANY). *)
Theorem single_hit_correct strict :
  match df_hit_policy definition, matched with
  | (First | Unique | AnyHit), [] => evaluated strict = Ok empty_hit_result
  | First, r :: _ | Unique, [r] =>
      evaluated strict = Ok (single_row_result (Some (rule_id r)) 1 (row_of r))
  | Unique, _ =>
      violation strict (evaluated strict) (fun e =>
        he_matched_rule_id e = None
        /\ exists merged, he_decision_result e = row_list merged
             /\ forall key, map_get key merged = last_non_null key (map row_of matched))
  | AnyHit, r :: others =>
      if forallb (fun r' => row_eqb (row_of r') (row_of r)) others
      then evaluated strict = Ok (single_row_result (Some (rule_id r)) (length matched) (row_of r))
      else violation strict (evaluated strict) (fun e =>
             he_matched_rule_id e = Some (rule_id (List.last others r))
             /\ he_decision_result e = row_list (row_of (List.last others r)))
  | _, _ => True
  end.
Proof.
  pose proof matching_matched as Hm. pose proof cached_row as Hc. unfold evaluate_hit_policy.
  destruct (df_hit_policy definition); try done.
  - pose proof (first_loop_spec _ _ Hm Hc) as Hf. unfold evaluate_first_hit. rewrite Hf.
    by destruct matched.
  - unfold evaluate_unique_hit. rewrite Hm. simpl.
    destruct matched as [|r [|r' others]] eqn:Em; [done| |].
    + by rewrite Hc by left.
    + unfold violation. destruct strict; [by eexists|].
      destruct (merge_unique_spec (r :: r' :: others) []) as (m & Hmerge & Hget); [done|].
      unfold merge_unique_outputs_by_key. rewrite Hmerge. eexists. split; [reflexivity|]. rewrite Em.
      repeat split; simpl; eauto using rule_messages_all. exists m. split; [done|].
      intros key. rewrite Hget. simpl. by destruct (last_non_null _ _).
  - unfold evaluate_any_hit. rewrite Hm. simpl. destruct matched as [|r others] eqn:Em; [done|].
    rewrite (Hc r) by left. simpl. rewrite find_conflict_spec by (intros x Hx; apply Hc; by right). simpl.
    destruct (forallb _ others) eqn:Eall.
    + rewrite (proj2 (find_first_None _ others)); [done|].
      intros x Hx. rewrite forallb_forall in Eall. rewrite Eall; [done|by apply list_elem_of_In].
    + destruct (find_first _ others) as [c|] eqn:Ef; last first.
      { exfalso. rewrite find_first_None in Ef. apply not_true_iff_false in Eall. apply Eall.
        apply forallb_forall. intros x Hx%list_elem_of_In. specialize (Ef x Hx).
        by apply negb_false_iff in Ef. }
      unfold violation. destruct strict; [by eexists|].
      rewrite Hc by apply last_elem. simpl. eexists. split; [reflexivity|]. rewrite Em.
      repeat split; simpl; eauto using rule_messages_all.
Qed.
(** ** Policies with one row per matching rule *)
Lemma rule_order_rows rules :
  (forall r, r ∈ rules -> r ∈ matched) ->
  evaluate_rule_order_matches rules cache
  = Ok (mkEvaluation (sole_rule_id rules) (length rules) (map row_of rules) true None ∅).
Proof.
  intros Hr. unfold evaluate_rule_order_matches.
  by rewrite (collect_results_map _ row_of) by (intros r ?; by apply cached_row, Hr).
Qed.

(** RULE ORDER, COMPLETE, BATCH and COLLECT without an operator: the rows of
    the matching rules in table order. *)
Lemma multi_hit_correct strict :
  match df_hit_policy definition, df_collect_operator definition with
  | (RuleOrder | Complete | Batch), _ | Collect, None =>
      evaluated strict
      = Ok (mkEvaluation (sole_rule_id matched) (length matched) (map row_of matched) true None ∅)
  | _, _ => True
  end.
Proof.
  unfold evaluate_hit_policy, evaluate_rule_order_hit, evaluate_batch_hit, evaluate_collect_hit.
  rewrite matching_matched. destruct (df_hit_policy definition), (df_collect_operator definition);
    try done; by apply rule_order_rows.
Qed.

(** ** OUTPUT ORDER and PRIORITY *)
Definition rank (rule : DmnRule) : nat := rank_or_zero (output_priority_rank definition cache rule).

Definition rank_errors : result DmnStop (list nat) :=
  collect_results (output_priority_rank definition cache) matched.

(** The hit policies that use the order of the declared output values. With output values, OUTPUT ORDER returns the rows of the matching rules stably sorted by the rank of their output, and PRIORITY the row of the first matching rule of least rank. Without them, strict mode fails; otherwise the decision carries a message and keeps the table order (PRIORITY needs two matches for that). *)
Theorem ordered_hit_correct strict :
  match df_hit_policy definition, has_any_output_values definition, rank_errors with
  | (OutputOrder | Priority), true, Err e => evaluated strict = Err e
  | OutputOrder, true, Ok _ =>
      exists sorted, stable_sorted rank matched sorted
        /\ evaluated strict
           = Ok (mkEvaluation (sole_rule_id sorted) (length matched) (map row_of sorted) true None ∅)
  | OutputOrder, false, _ =>
      if strict then exists m, evaluated strict = Err (Raised (DmnExecution m))
      else exists m, evaluated strict
             = Ok (mkEvaluation (sole_rule_id matched) (length matched) (map row_of matched) true (Some m) ∅)
  | Priority, true, Ok _ =>
      matched = [] /\ evaluated strict = Ok empty_hit_result
      \/ exists r, first_minimal rank matched r
           /\ evaluated strict = Ok (single_row_result (Some (rule_id r)) (length matched) (row_of r))
  | Priority, false, _ =>
      match matched with
      | [] => evaluated strict = Ok empty_hit_result
      | [r] => evaluated strict = Ok (single_row_result (Some (rule_id r)) 1 (row_of r))
      | r :: _ =>
          if strict then exists m, evaluated strict = Err (Raised (DmnExecution m))
          else exists m, evaluated strict
                 = Ok (with_validation (Some m)
                         (single_row_result (Some (rule_id r)) (length matched) (row_of r)))
      end
  | _, _, _ => True
  end.
Proof.
  unfold evaluate_hit_policy, evaluate_output_order_hit, evaluate_priority_hit,
    ensure_output_values_for_order_policy, prioritised, sort_rules_by_output_priority.
  rewrite matching_matched. cbn [mbind result_bind]. fold rank_errors.
  change (fun rule => rank_or_zero (output_priority_rank definition cache rule)) with rank.
  pose proof (sort_by_key_spec rank matched) as Hsort. pose proof cached_row as Hc.
  destruct (df_hit_policy definition); try done; destruct (has_any_output_values definition).
  - destruct rank_errors as [ranks|e]; [|done]. cbn [mbind result_bind].
    exists (sort_by_key rank matched). split; [done|].
    rewrite rule_order_rows by (intros r Hr; by rewrite (proj1 Hsort)).
    by rewrite <- (Permutation_length (proj1 Hsort)).
  - destruct strict; simpl; [by eexists|]. rewrite rule_order_rows by done. by eexists.
  - destruct rank_errors as [ranks|e]; [|done]. cbn [mbind result_bind].
    destruct (sort_by_key rank matched) as [|r sorted] eqn:E.
    + left. destruct Hsort as [Hp _]. apply Permutation_sym, Permutation_nil in Hp. by rewrite Hp.
    + right. exists r. split; [by eapply sort_head|].
      rewrite (Hc r) by (rewrite (proj1 Hsort); apply list_elem_of_here). simpl.
      by rewrite (Permutation_length (proj1 Hsort)).
  - destruct matched as [|r [|r' others]]; simpl; [done|by rewrite Hc by left|].
    destruct strict; [by eexists|]. rewrite (Hc r) by left. by eexists.
Qed.
(** ** The audit *)
Lemma audit_conditions_spec rule index entries cs :
  audit_conditions inputs rule index entries = Ok cs ->
  entries_match inputs entries = Ok (forallb (fun c => value_eqb (ee_result c) (VBool true)) cs).
Proof.
  revert index cs. induction entries as [|[clause entry] entries IH]; intros index cs; simpl;
    [by intros [= <-]|].
  intros (b & -> & E)%result_bind_ok. apply result_bind_ok in E as (rest & Hr & E). injection E as <-.
  simpl. destruct b; simpl; [by eapply IH|done].
Qed.

(** What the audit says of a rule. *)
Definition audited (number : nat) (rule : DmnRule) (a : DmnRuleExecutionAudit) : Prop :=
  au_rule_number a = number /\ au_rule_id a = rule_id rule
  /\ rule_matches definition inputs rule = Ok (au_valid a)
  /\ (au_valid a = true -> exists e, evaluate_rule_outputs definition rule inputs = Ok e
                             /\ au_conclusion_results a = ev_conclusions e)
  /\ (au_valid a = false -> au_conclusion_results a = []).

Lemma audit_rule_spec number rule a :
  rule ∈ df_rules definition ->
  audit_rule definition inputs cache number rule = Ok a -> audited number rule a.
Proof.
  intros Hin (cs & Hcs & E)%result_bind_ok. injection E as <-.
  apply audit_conditions_spec in Hcs. unfold audited. simpl.
  set (valid := forallb _ cs) in *. repeat split; [exact Hcs| |by intros ->].
  intros Hv. rewrite Hv in *. destruct (precompute_loop_spec _ _ _ Hids Hcache) as (ms & Hm & Hh & _).
  apply matching_loop_filter in Hm as ->.
  assert (Hr : rule ∈ List.filter hits (df_rules definition)).
  { apply list_elem_of_In, filter_In. split; [by apply list_elem_of_In|].
    unfold hits, rule_matches. by rewrite Hcs. }
  eapply Forall_forall in Hh as (e & He & Hc); [|exact Hr]. exists e. by rewrite Hc.
Qed.

Lemma audit_loop_spec number rules audits :
  (forall r, r ∈ rules -> r ∈ df_rules definition) ->
  audit_loop definition inputs cache number rules = Ok audits ->
  Forall2 (fun nr => audited nr.1 nr.2) (combine (seq number (length rules)) rules) audits.
Proof.
  revert number audits. induction rules as [|r rules IH]; intros number audits Hr; simpl;
    [intros [= <-]; constructor|].
  intros (a & Ha & E)%result_bind_ok. apply result_bind_ok in E as (rest & Hrest & E). injection E as <-.
  constructor; [by apply audit_rule_spec; [apply Hr; left|]|].
  apply IH; [|done]. intros x Hx. apply Hr. by right.
Qed.

(** The audit has one entry per rule, numbered from 1 in table order; a rule is marked valid exactly when it matched, and then carries the conclusions of its own output entries. *)
Theorem audit_correct audits
  (Haudit : build_rule_execution_audit definition inputs cache = Ok audits) :
  Forall2 (fun nr => audited nr.1 nr.2)
    (combine (seq 1 (length (df_rules definition))) (df_rules definition)) audits.
Proof. by apply audit_loop_spec. Qed.
End Distinct.
End Correctness.

(** ** Examples *)

(** Expressions evaluated by the FEEL interpreter alone. *)
Definition feel_session `{Unicode} `{Libm} : Evaluation :=
  {| engine_evaluate source scope :=
       match feel_evaluate source scope with
       | Some (Ok v) => Ok v
       | Some (Err e) => Err (Raised e)
       | None => Err Aborted
       end;
     now_rfc3339 := "2026-01-01T00:00:00+00:00" |}.

Section Examples.
#[local] Existing Instances no_chrono integer_reader no_regex ascii_only no_libm feel_session.

Definition num (n : Z) : Value := VNumber (PosInt n).

Definition discount_rule (id : string) (test : DmnUnaryTest) (rate_ : string) : DmnRule :=
  mkRule id [mkInputEntry None test] [mkOutputEntry None VNull rate_].

Definition discount (policy : DmnHitPolicy) : DmnDecisionDefinition :=
  sample_definition policy None [mkInput "i1" "amount" (Some "integer"%string)]
    [mkOutput "o1" "rate" (Some "integer"%string) [num 10; num 5; num 0]]
    [discount_rule "base" TAny "0"; discount_rule "medium" (TGreaterThanOrEqual (num 100)) "5";
     discount_rule "large" (TGreaterThanOrEqual (num 1000)) "5 + 5"].

Definition order_of (amount : Z) : Row := [("amount"%string, num amount)].

Definition cache_of (definition : DmnDecisionDefinition) (inputs : Row) : RuleOutputCache :=
  match precompute_matching_rule_outputs definition inputs with Ok c => c | Err _ => ∅ end.

Definition rate_row (rate_ : Z) : Row := [("rate"%string, num rate_)].

Lemma discount_ids policy : NoDup (map rule_id (df_rules (discount policy))).
Proof. repeat (constructor; [set_solver|]). constructor. Qed.

Lemma single_hit_correct_witness :
  evaluate_hit_policy (discount First) (order_of 1500) (cache_of (discount First) (order_of 1500)) true
  = Ok (single_row_result (Some "base"%string) 1 (rate_row 0)).
Proof.
  exact (single_hit_correct (discount First) (order_of 1500) (discount_ids First)
           (cache_of (discount First) (order_of 1500)) eq_refl true).
Defined.

Lemma ordered_hit_correct_witness :
  exists sorted,
    stable_sorted (rank (discount OutputOrder) (cache_of (discount OutputOrder) (order_of 1500)))
      (matched (discount OutputOrder) (order_of 1500)) sorted
    /\ evaluate_hit_policy (discount OutputOrder) (order_of 1500)
         (cache_of (discount OutputOrder) (order_of 1500)) false
       = Ok (mkEvaluation (sole_rule_id sorted) 3 (map (row_of (discount OutputOrder) (order_of 1500)) sorted)
               true None ∅).
Proof.
  exact (ordered_hit_correct (discount OutputOrder) (order_of 1500) (discount_ids OutputOrder)
           (cache_of (discount OutputOrder) (order_of 1500)) eq_refl false).
Defined.

(** The three policies on the same order. *)
Example discount_results :
  (he_decision_result <$> evaluate_hit_policy (discount Priority) (order_of 1500)
     (cache_of (discount Priority) (order_of 1500)) true) = Ok [rate_row 10]
  /\ (he_decision_result <$> evaluate_hit_policy (discount OutputOrder) (order_of 1500)
        (cache_of (discount OutputOrder) (order_of 1500)) true) = Ok [rate_row 10; rate_row 5; rate_row 0]
  /\ (he_decision_result <$> evaluate_hit_policy (discount RuleOrder) (order_of 500)
        (cache_of (discount RuleOrder) (order_of 500)) true) = Ok [rate_row 0; rate_row 5]
  /\ is_ok (evaluate_hit_policy (discount Unique) (order_of 500)
              (cache_of (discount Unique) (order_of 500)) true) = false
  /\ (he_decision_result <$> evaluate_hit_policy (discount Unique) (order_of 500)
        (cache_of (discount Unique) (order_of 500)) false) = Ok [rate_row 5].
Proof. vm_compute. repeat split; reflexivity. Qed.

Definition sample_audits : list DmnRuleExecutionAudit :=
  match build_rule_execution_audit (discount Priority) (order_of 500)
          (cache_of (discount Priority) (order_of 500)) with Ok a => a | Err _ => [] end.

Lemma audit_correct_witness :
  Forall2 (fun nr => audited (discount Priority) (order_of 500) nr.1 nr.2)
    (combine (seq 1 3) (df_rules (discount Priority))) sample_audits.
Proof.
  exact (audit_correct (discount Priority) (order_of 500) (discount_ids Priority)
           (cache_of (discount Priority) (order_of 500)) eq_refl sample_audits eq_refl).
Defined.

(** Two rules with the same id: both matching rules return the row of the second. *)
Definition twin_rules : DmnDecisionDefinition :=
  sample_definition RuleOrder None [] [mkOutput "o1" "rate" (Some "integer"%string) []]
    [mkRule "r" [] [mkOutputEntry None VNull "1"]; mkRule "r" [] [mkOutputEntry None VNull "2"]].

Theorem duplicate_rule_ids_share_outputs :
  map (row_of twin_rules []) (df_rules twin_rules) = [rate_row 1; rate_row 2]
  /\ (he_decision_result <$> evaluate_hit_policy twin_rules [] (cache_of twin_rules []) true)
     = Ok [rate_row 2; rate_row 2].
Proof. vm_compute. split; reflexivity. Qed.

(** The matching stops at the first entry that is false, the audit does not: an
    entry that was never needed fails the decision. *)
Definition guarded_rule : DmnDecisionDefinition :=
  sample_definition First None [mkInput "i1" "kind" None; mkInput "i2" "amount" None]
    [mkOutput "o1" "rate" (Some "integer"%string) []]
    [mkRule "r" [mkInputEntry None (TEquals (VString "order"));
                 mkInputEntry None (TElCondition "amount / 0")]
       [mkOutputEntry None VNull "1"]].

Theorem audit_evaluates_skipped_entries :
  let inputs := [("amount"%string, num 1); ("kind"%string, VString "other")] in
  evaluate_hit_policy guarded_rule inputs (cache_of guarded_rule inputs) true = Ok empty_hit_result
  /\ is_ok (build_rule_execution_audit guarded_rule inputs (cache_of guarded_rule inputs)) = false.
Proof. vm_compute. split; reflexivity. Qed.
End Examples.
