(* ===== verification/DmnRepository.v ===== *)
(** * DMN: looking up decisions and decision services

    The queries of [flowable-dmn-engine/src/repository.rs] that the execution
    of a decision uses (366-530, 1365-1395, 1733-1741): the latest definition
    of a key, first within a parent deployment, then over all of them, then
    without the tenant; and the decision services of the deployed diagrams.

    [lookup_latest]: what is returned has the key and the tenant that were
    asked for, and no matching definition has a higher version.
    [untenanted_lookup_crosses_tenants]: a request without tenant matches the
    definitions of every tenant. *)
From Stdlib Require Import Sorting.Sorted OrderedTypeEx.
From S2P Require Import Prelude Chars Float64 Json Errors FeelLexer FeelEvaluator DmnTypes.

(** The tables read here; [st_unavailable] is the error of a failed read. *)
Record DmnStore := mkStore {
  st_unavailable : option DmnError;
  st_deployments : list DmnDeployment;
  st_definitions : list DmnDecisionDefinition;
  st_drds : list (string * DmnModel)
}.

Definition read {A} (store : DmnStore) (a : A) : result DmnError A :=
  match st_unavailable store with Some e => Err e | None => Ok a end.

(** [ORDER BY DECISION_KEY_ ASC, VERSION_ DESC, ID_ ASC]. *)
Definition definition_leb (a b : DmnDecisionDefinition) : bool :=
  if String.eqb (df_key a) (df_key b) then
    if (df_version a =? df_version b)%Z then string_leb (df_id a) (df_id b)
    else (df_version b <? df_version a)%Z
  else String.ltb (df_key a) (df_key b).

(** [ORDER BY deployments.DEPLOYED_AT_ DESC, deployments.ID_ DESC]. *)
Definition deployment_leb (a b : DmnDeployment * DmnModel) : bool :=
  if (dp_deployed_at a.1 =? dp_deployed_at b.1)%Z then string_leb (dp_id b.1) (dp_id a.1)
  else (dp_deployed_at b.1 <? dp_deployed_at a.1)%Z.

Definition matches_optional (filter_ : option string) (actual : string) : bool :=
  match filter_ with Some v => String.eqb v actual | None => true end.

Definition matches_optional_option (filter_ actual : option string) : bool :=
  match filter_ with Some v => bool_decide (actual = Some v) | None => true end.

(** [DmnDecisionQuery::list] with a key and an optional tenant. *)
Definition decision_query (store : DmnStore) (key : string) (tenant_id : option string)
  : result DmnError (list DmnDecisionDefinition) :=
  definitions ← read store (order_by definition_leb (st_definitions store));
  Ok (List.filter (fun d => matches_optional_option tenant_id (df_tenant_id d))
        (List.filter (fun d => matches_optional (Some key) (df_key d)) definitions)).

(** The ids of the deployments with a given parent. *)
Definition deployments_of_parent (store : DmnStore) (parent_id : string)
  : result DmnError (list string) :=
  read store (map dp_id (List.filter (fun d => bool_decide (dp_parent_deployment_id d = Some parent_id))
                           (st_deployments store))).

Definition is_nonempty_tenant (tenant_id : option string) : bool :=
  match tenant_id with Some t => negb (String.eqb t EmptyString) | None => false end.

Definition not_found_decision (key : string) : DmnError :=
  DmnNotFound [Lit "DMN decision '"; Lit key; Lit "' was not found"].

Definition latest_decision_by_key_with_fallback (store : DmnStore) (key : string)
  (tenant_id parent_deployment_id : option string) (fallback_to_default_tenant : bool)
  : result DmnError DmnDecisionDefinition :=
  in_parent ←
    match parent_deployment_id with
    | None => Ok None
    | Some parent_id =>
        deployment_ids ← deployments_of_parent store parent_id;
        match deployment_ids with
        | [] => Ok None
        | _ => definitions ← decision_query store key tenant_id;
               Ok (find_first (fun d => bool_decide (df_deployment_id d ∈ deployment_ids)) definitions)
        end
    end;
  match in_parent with
  | Some found => Ok found
  | None =>
      definitions ← decision_query store key tenant_id;
      match definitions with
      | found :: _ => Ok found
      | [] =>
          if fallback_to_default_tenant && is_nonempty_tenant tenant_id then
            fallback ← decision_query store key None;
            match fallback with
            | found :: _ => Ok found
            | [] => Err (DmnNotFound
                           [Lit "DMN decision '"; Lit key;
                            Lit "' was not found. There was also no fall back decision found without tenant"])
            end
          else Err (not_found_decision key)
      end
  end.

(** The join of the diagrams with their deployments. *)
Definition deployed_models (store : DmnStore) : list (DmnDeployment * DmnModel) :=
  flat_map (fun '(deployment_id, model) =>
              map (fun d => (d, model))
                (List.filter (fun d => String.eqb (dp_id d) deployment_id) (st_deployments store)))
           (st_drds store).

Definition find_decision_service_by_key_filtered (store : DmnStore) (key : string)
  (tenant_id parent_deployment_id : option string)
  : result DmnError (option (DecisionService * DmnDeployment)) :=
  rows ← read store (order_by deployment_leb (deployed_models store));
  Ok (find_map (fun '(deployment, model) =>
        if matches_optional_option tenant_id (dp_tenant_id deployment)
           && matches_optional_option parent_deployment_id (dp_parent_deployment_id deployment)
        then (fun service => (service, deployment)) <$>
               find_first (fun service => String.eqb (ds_id service) key || String.eqb (ds_name service) key)
                 (mo_decision_services model)
        else None) rows).

Definition latest_decision_service_by_key (store : DmnStore) (key : string)
  (tenant_id parent_deployment_id : option string) (fallback_to_default_tenant : bool)
  : result DmnError (option (DecisionService * DmnDeployment)) :=
  in_parent ←
    match parent_deployment_id with
    | None => Ok None
    | Some parent_id => find_decision_service_by_key_filtered store key tenant_id (Some parent_id)
    end;
  match in_parent with
  | Some found => Ok (Some found)
  | None =>
      latest ← find_decision_service_by_key_filtered store key tenant_id None;
      match latest with
      | Some found => Ok (Some found)
      | None => if fallback_to_default_tenant && is_nonempty_tenant tenant_id
                then find_decision_service_by_key_filtered store key None None
                else Ok None
      end
  end.

(** ** The latest version *)
Lemma definition_leb_total a b : definition_leb a b = true \/ definition_leb b a = true.
Proof.
  unfold definition_leb. rewrite (String.eqb_sym (df_key b)).
  destruct (String.eqb_spec (df_key a) (df_key b)) as [E|E].
  - rewrite (Z.eqb_sym (df_version b)). destruct (Z.eqb_spec (df_version a) (df_version b)).
    + apply string_leb_total.
    + destruct (Z.ltb_spec (df_version b) (df_version a)), (Z.ltb_spec (df_version a) (df_version b)); auto; lia.
  - destruct (String.ltb (df_key a) (df_key b)) eqn:El; [by left|right].
    apply string_ltb_lt. by apply string_total.
Qed.

Lemma definition_leb_trans a b c :
  definition_leb a b = true -> definition_leb b c = true -> definition_leb a c = true.
Proof.
  unfold definition_leb.
  destruct (String.eqb_spec (df_key a) (df_key b)) as [Eab|Eab],
    (String.eqb_spec (df_key b) (df_key c)) as [Ebc|Ebc],
    (String.eqb_spec (df_key a) (df_key c)) as [Eac|Eac]; try congruence.
  - destruct (Z.eqb_spec (df_version a) (df_version b)), (Z.eqb_spec (df_version b) (df_version c)),
      (Z.eqb_spec (df_version a) (df_version c)); rewrite ?Z.ltb_lt; try lia; eauto using string_leb_trans.
  - intros H1 H2. pose proof (ltb_trans _ _ _ H1 H2) as H3. rewrite Eac, ltb_irrefl in H3. done.
  - apply ltb_trans.
Qed.

Section Lookup.
Context (store : DmnStore) (key : string).

(** The stored definitions of a key visible to a tenant. *)
Definition visible_definitions (tenant_id : option string) : list DmnDecisionDefinition :=
  List.filter (fun d => matches_optional_option tenant_id (df_tenant_id d)
                        && String.eqb key (df_key d)) (st_definitions store).

Definition latest_of (definitions : list DmnDecisionDefinition) (d : DmnDecisionDefinition) : Prop :=
  d ∈ definitions /\ forall d', d' ∈ definitions -> (df_version d' <= df_version d)%Z.

Lemma decision_query_spec tenant_id definitions :
  decision_query store key tenant_id = Ok definitions ->
  (forall d, d ∈ definitions <-> d ∈ visible_definitions tenant_id)
  /\ in_order definition_leb definitions.
Proof.
  unfold decision_query, read. destruct (st_unavailable store); [done|]. simpl. intros [= <-].
  split.
  - intros d. unfold visible_definitions. rewrite !list_elem_of_In, !filter_In, <- !list_elem_of_In.
    rewrite <- (order_by_permutation definition_leb). simpl.
    destruct (matches_optional_option _ _), (String.eqb _ _); naive_solver.
  - apply in_order_filter, in_order_filter, order_by_in_order;
      [apply definition_leb_total|apply definition_leb_trans].
Qed.

Lemma visible_key tenant_id d :
  d ∈ visible_definitions tenant_id ->
  df_key d = key /\ matches_optional_option tenant_id (df_tenant_id d) = true.
Proof.
  intros Hd%list_elem_of_In. apply filter_In in Hd as [_ Hd]. apply andb_true_iff in Hd as [? E].
  by apply String.eqb_eq in E.
Qed.

(** The first row of a query is a latest definition. *)
Lemma first_is_latest tenant_id d rest :
  decision_query store key tenant_id = Ok (d :: rest) -> latest_of (visible_definitions tenant_id) d.
Proof.
  intros [Hin Hord]%decision_query_spec. split; [apply Hin; left|]. intros d' Hd'.
  pose proof (visible_key _ _ Hd') as [Hk' _]. assert (d ∈ visible_definitions tenant_id) as Hd by (apply Hin; left).
  pose proof (visible_key _ _ Hd) as [Hk _]. apply Hin, elem_of_cons in Hd' as [->|Hd']; [lia|].
  inversion Hord as [|? ? _ Hall]; subst. eapply Forall_forall in Hall; [|exact Hd'].
  unfold definition_leb in Hall. rewrite Hk, Hk', String.eqb_refl in Hall.
  destruct (Z.eqb_spec (df_version d) (df_version d')); [lia|].
  apply Z.ltb_lt in Hall. lia.
Qed.

Lemma query_empty tenant_id :
  decision_query store key tenant_id = Ok [] -> visible_definitions tenant_id = [].
Proof.
  intros [Hin _]%decision_query_spec. destruct (visible_definitions tenant_id) as [|d l]; [done|].
  assert (d ∈ []) as Hd by (apply Hin; left). by apply elem_of_nil in Hd.
Qed.

(** Without a parent deployment, the lookup returns a definition of the key and tenant asked for whose version no other such definition exceeds; only when there is none, and the caller allows it, the latest definition of the key over all tenants; and it fails with not-found exactly when there is no candidate. *)
Theorem lookup_latest tenant_id fallback (Hstore : st_unavailable store = None) :
  match latest_decision_by_key_with_fallback store key tenant_id None fallback with
  | Ok d =>
      latest_of (visible_definitions tenant_id) d
      \/ visible_definitions tenant_id = [] /\ fallback = true /\ is_nonempty_tenant tenant_id = true
         /\ latest_of (visible_definitions None) d
  | Err e =>
      visible_definitions tenant_id = []
      /\ (fallback && is_nonempty_tenant tenant_id = true -> visible_definitions None = [])
      /\ exists m, e = DmnNotFound m
  end.
Proof.
  unfold latest_decision_by_key_with_fallback. simpl.
  assert (total_ : forall t, exists l, decision_query store key t = Ok l).
  { intros t. unfold decision_query, read. rewrite Hstore. by eexists. }
  destruct (total_ tenant_id) as [[|d rest] Hq]; rewrite Hq; simpl.
  - apply query_empty in Hq. destruct (fallback && is_nonempty_tenant tenant_id) eqn:Ef.
    + destruct (total_ None) as [[|d rest] Hn]; rewrite Hn; simpl.
      * apply query_empty in Hn. eauto.
      * right. apply andb_true_iff in Ef as [? ?]. repeat split; try done; by eapply first_is_latest.
    + repeat split; [done|done|by eexists].
  - left. by eapply first_is_latest.
Qed.

(** Within a parent deployment: the latest of the definitions deployed with it. *)
Lemma lookup_in_parent tenant_id parent d fallback ids :
  deployments_of_parent store parent = Ok ids ->
  latest_decision_by_key_with_fallback store key tenant_id (Some parent) fallback = Ok d ->
  (exists d', d' ∈ visible_definitions tenant_id /\ df_deployment_id d' ∈ ids) ->
  df_deployment_id d ∈ ids /\ d ∈ visible_definitions tenant_id.
Proof.
  unfold latest_decision_by_key_with_fallback. intros Hids. rewrite Hids. simpl.
  destruct ids as [|i ids]; [intros _ (? & _ & Hx); by apply elem_of_nil in Hx|].
  destruct (decision_query store key tenant_id) as [l|e] eqn:Hq; simpl; [|done].
  apply decision_query_spec in Hq as [Hin _].
  destruct (find_first _ l) as [x|] eqn:Ef; intros E (d' & Hd' & Hid').
  - injection E as <-. apply find_first_Some in Ef as [Hx Hl]. apply bool_decide_eq_true in Hx.
    split; [done|by apply Hin].
  - rewrite find_first_None in Ef. specialize (Ef d' (proj2 (Hin d') Hd')).
    by apply bool_decide_eq_false in Ef.
Qed.

(** What is found has the key that was asked for. *)
Lemma lookup_key tenant_id parent fallback d :
  latest_decision_by_key_with_fallback store key tenant_id parent fallback = Ok d ->
  df_key d = key /\ d ∈ st_definitions store.
Proof.
  assert (G : forall t l x, decision_query store key t = Ok l -> x ∈ l ->
                df_key x = key /\ x ∈ st_definitions store).
  { intros t l x [Hin _]%decision_query_spec Hx. apply Hin in Hx. split; [by eapply visible_key|].
    apply list_elem_of_In in Hx. apply filter_In in Hx as [Hx _]. by apply list_elem_of_In. }
  unfold latest_decision_by_key_with_fallback.
  destruct (match parent with Some _ => _ | None => _ end) as [[x|]|] eqn:Ep; simpl; [| |done].
  - intros [= <-]. destruct parent as [p|]; [|done].
    destruct (deployments_of_parent store p) as [[|i ids]|]; simpl in Ep; try done.
    destruct (decision_query store key tenant_id) as [l|] eqn:Hq; simpl in Ep; [|done].
    injection Ep as Ef. apply find_first_Some in Ef as [_ Hx]. by eapply G.
  - clear Ep. destruct (decision_query store key tenant_id) as [[|x l]|] eqn:Hq; simpl; [| |done].
    + destruct (fallback && _); [|done].
      destruct (decision_query store key None) as [[|x l]|] eqn:Hn; simpl; try done.
      intros [= <-]. eapply G; [exact Hn|left].
    + intros [= <-]. eapply G; [exact Hq|left].
Qed.
End Lookup.

(** ** Examples *)
Definition stored (key : string) (tenant_id : option string) (version : Z) (deployment : string)
  : DmnDecisionDefinition :=
  mkDefinition (String.append deployment key) key deployment key key version None None tenant_id
    "table.dmn" First None [] [] [] [].

Definition sample_store : DmnStore :=
  mkStore None [] [stored "risk" (Some "acme"%string) 1 "d1"; stored "risk" (Some "acme"%string) 2 "d2";
                   stored "risk" (Some "bank"%string) 7 "d3"] [].

Lemma lookup_latest_witness :
  latest_of (visible_definitions sample_store "risk" (Some "acme"%string))
    (stored "risk" (Some "acme"%string) 2 "d2")
  \/ visible_definitions sample_store "risk" (Some "acme"%string) = [] /\ false = true
     /\ is_nonempty_tenant (Some "acme"%string) = true
     /\ latest_of (visible_definitions sample_store "risk" None) (stored "risk" (Some "acme"%string) 2 "d2").
Proof. exact (lookup_latest sample_store "risk" (Some "acme"%string) false eq_refl). Defined.

(** A request without tenant, and the fallback, reach the definitions of every
    tenant and take the highest version among them. *)
Theorem untenanted_lookup_crosses_tenants :
  latest_decision_by_key_with_fallback sample_store "risk" None None false
  = Ok (stored "risk" (Some "bank"%string) 7 "d3")
  /\ latest_decision_by_key_with_fallback sample_store "risk" (Some "other"%string) None true
     = Ok (stored "risk" (Some "bank"%string) 7 "d3").
Proof. vm_compute. split; reflexivity. Qed.
