(* ===== verification/DmnRuntime.v ===== *)
(** * DMN: executing decisions

    [DmnDecisionService] of [flowable-dmn-engine/src/runtime.rs] (56-387,
    2012-2075): one decision with its history record, the decisions it
    requires, and decision services.

    The clock, the source of ids, the store and its failures, and the
    expression engine are the environment.  Each of the three passes over the
    rules (outputs, hit policy, audit) is one evaluation session, at the
    instant it starts. *)
From Stdlib Require Import Ascii.
From S2P Require Import Prelude Chars Float64 Numerals Json Errors ElValues FeelLexer FeelEvaluator DmnTypes DmnTemporal DmnValues DmnTable DmnHitPolicy DmnHitPolicyProof DmnRepository.

(** What stops a run: the stop of an evaluation, or the fuel of the model. *)
Inductive RunStop : Type :=
| Stopped (s : DmnStop)
| OutOfFuel.

Record DmnEnv := mkEnv {
  env_store : DmnStore;
  env_strict_mode : bool;
  env_session : Z -> Evaluation;
  env_clock : nat -> Z;
  env_uuid : nat -> string;
  env_history_error : HistoricDecisionExecution -> option DmnError
}.

(** The mutable state of an execution: the reads of the clock and the ids
    drawn so far, the history table, and the three collections threaded
    through the recursion. *)
Record Run := mkRun {
  clock_reads : nat;
  ids_drawn : nat;
  history : list HistoricDecisionExecution;
  run_context : Row;
  resolved : gset string;
  visiting : gset string
}.

Definition M (A : Type) : Type := stM Run RunStop A.

Definition run_new (variables : Row) (past : list HistoricDecisionExecution) : Run :=
  mkRun 0 0 past variables ∅ ∅.

Definition stop {A} (e : DmnError) : M A := throw (Stopped (Raised e)).
Definition of_result {A} (r : result DmnStop A) : M A := lift (map_err Stopped r).
Definition of_store {A} (r : result DmnError A) : M A := of_result (raise r).

(** [match attempt { Ok(..) => .., Err(error) => .. }]; a panic is not caught. *)
Definition catch {A} (m : M A) (handler : DmnError -> M A) : M A :=
  fun s => match m s with
           | (Err (Stopped (Raised e)), s') => handler e s'
           | r => r
           end.

Definition set_collections (f : Run -> Row * gset string * gset string) : M unit :=
  modify (fun s => let '(c, r, v) := f s in
                   mkRun (clock_reads s) (ids_drawn s) (history s) c r v).

Section Runtime.
Context `{Chrono} `{JsonReader} `{Regex} `{Unicode} (env : DmnEnv).

Definition utc_now : M Z :=
  s ← get;
  modify (fun s => mkRun (S (clock_reads s)) (ids_drawn s) (history s) (run_context s) (resolved s)
                     (visiting s)) ;;
  mret (env_clock env (clock_reads s)).

Definition uuid_new_v4 : M string :=
  s ← get;
  modify (fun s => mkRun (clock_reads s) (S (ids_drawn s)) (history s) (run_context s) (resolved s)
                     (visiting s)) ;;
  mret (env_uuid env (ids_drawn s)).

Definition persist_history (h : HistoricDecisionExecution) : M unit :=
  match env_history_error env h with
  | Some e => stop e
  | None => modify (fun s => mkRun (clock_reads s) (ids_drawn s) (history s ++ [h]) (run_context s)
                               (resolved s) (visiting s))
  end.

Definition not_an_object : DmnError :=
  DmnExecution [Lit "DMN execution variables must be a JSON object"].

Definition failed_history_record (definition : DmnDecisionDefinition) (request : DmnExecutionRequest)
  (inputs : Row) : M HistoricDecisionExecution :=
  id ← uuid_new_v4;
  executed_at ← utc_now;
  mret (mkHistoric (String.append "dmn-execution:" id) (df_id definition) (df_deployment_id definition)
          (df_key definition) (df_name definition) (df_version definition) (df_hit_policy definition)
          None 0 [] (rq_business_key request) (rq_tenant_id request) (rq_instance_id request)
          (rq_execution_id request) (rq_activity_id request) (rq_scope_type request) true executed_at
          inputs [] false None).

(** The record of a result; the correlation ids are those of the request. *)
Definition historic_record (request : DmnExecutionRequest) (r : DmnExecutionResult)
  : HistoricDecisionExecution :=
  mkHistoric (rs_execution_id r) (rs_decision_definition_id r) (rs_deployment_id r)
    (rs_decision_key r) (rs_decision_name r) (rs_decision_version r) (rs_hit_policy r)
    (rs_matched_rule_id r) (rs_matched_rule_count r) (rs_rule_executions r) (rq_business_key request)
    (rq_tenant_id request) (rq_instance_id request) (rq_execution_id request)
    (rq_activity_id request) (rq_scope_type request) false (rs_executed_at r) (rs_inputs r)
    (rs_decision_result r) (rs_multiple_results r) (rs_validation_message r).

(** The region whose errors are recorded: outputs, hit policy, audit. *)
Definition evaluate_table (definition : DmnDecisionDefinition) (inputs : Row)
  : M (HitPolicyEvaluation * list DmnRuleExecutionAudit) :=
  t1 ← utc_now;
  cache ← of_result (precompute_matching_rule_outputs (H3 := env_session env t1) definition inputs);
  t2 ← utc_now;
  evaluation ← of_result (evaluate_hit_policy (H3 := env_session env t2) definition inputs cache
                            (env_strict_mode env));
  t3 ← utc_now;
  audits ← of_result (build_rule_execution_audit (H3 := env_session env t3) definition inputs cache);
  mret (evaluation, apply_hit_policy_rule_messages audits evaluation).

Definition execute_definition (definition : DmnDecisionDefinition) (request : DmnExecutionRequest)
  : M DmnExecutionResult :=
  raw_inputs ← of_store (ok_or not_an_object (as_object (rq_variables request)));
  inputs ← of_store (coerce_inputs_for_type_refs definition raw_inputs);
  evaluated ←
    catch (evaluate_table definition inputs)
      (fun error =>
         (if rq_disable_history request then mret tt
          else record ← failed_history_record definition request inputs; persist_history record) ;;
         stop error);
  let '(evaluation, rule_executions) := evaluated in
  executed_at ← utc_now;
  id ← uuid_new_v4;
  let execution_id := String.append "dmn-execution:" id in
  let result :=
    mkResult execution_id (df_id definition) (df_deployment_id definition) (df_key definition)
      (df_name definition) (df_version definition) (df_hit_policy definition)
      (he_matched_rule_id evaluation) (he_matched_rule_count evaluation) rule_executions
      (rq_business_key request) executed_at inputs (he_decision_result evaluation)
      (he_multiple_results evaluation) None (he_validation_message evaluation) in
  (if rq_disable_history request then mret tt else persist_history (historic_record request result)) ;;
  mret result.

(** ** Required decisions *)
Definition lookup_decision (request : DmnExecutionRequest) (key : string)
  : result DmnError DmnDecisionDefinition :=
  latest_decision_by_key_with_fallback (env_store env) key (rq_tenant_id request)
    (rq_parent_deployment_id request) (rq_fallback_to_default_tenant request).

Definition cyclic (key : string) : DmnError :=
  DmnExecution [Lit "Cyclic DMN decision requirement detected at '"; Lit key; Lit "'"].

Fixpoint execute_definition_with_dependencies (fuel : nat) (definition : DmnDecisionDefinition)
  (request : DmnExecutionRequest) : M DmnExecutionResult :=
  match fuel with
  | O => throw OutOfFuel
  | S fuel =>
      s ← get;
      if bool_decide (df_key definition ∈ visiting s) then stop (cyclic (df_key definition))
      else
        set_collections (fun s => (run_context s, resolved s, {[df_key definition]} ∪ visiting s)) ;;
        for_each (df_required_decisions definition) (fun required_key =>
          s ← get;
          if bool_decide (required_key ∈ resolved s) then mret tt
          else
            required_definition ← of_store (lookup_decision request required_key);
            execute_definition_with_dependencies fuel required_definition request ;;
            mret tt) ;;
        s ← get;
        result ← execute_definition definition
                   (request_with_variables (VObject (run_context s)) request);
        set_collections (fun s => (map_extend (run_context s) (stack_variables result),
                                   {[df_key definition]} ∪ resolved s,
                                   visiting s ∖ {[df_key definition]})) ;;
        mret result
  end.

(** One more than the number of stored definitions is enough ([dependencies_terminate]). *)
Definition fuel_for (store : DmnStore) : nat := S (length (st_definitions store)).

Definition run_decision (definition : DmnDecisionDefinition) (request : DmnExecutionRequest)
  : M DmnExecutionResult :=
  execute_definition_with_dependencies (fuel_for (env_store env)) definition request.

(** ** Decision services *)
Record ServiceOutput := mkServiceOutput {
  so_result : option DmnExecutionResult;
  so_matched_rule_count : nat;
  so_rule_executions : list DmnRuleExecutionAudit;
  so_multiple_results : bool;
  so_by_decision : list (string * list Row);
  so_flattened : list Row
}.

Definition add_output (decision_key : string) (r : DmnExecutionResult) (o : ServiceOutput)
  : ServiceOutput :=
  mkServiceOutput (Some r) (so_matched_rule_count o + rs_matched_rule_count r)
    (so_rule_executions o ++ rs_rule_executions r) (so_multiple_results o || rs_multiple_results r)
    (match rs_decision_result r with
     | [] => so_by_decision o
     | rows => map_insert decision_key rows (so_by_decision o)
     end)
    (so_flattened o ++ rs_decision_result r).

(** A decision of the service, unless it has been resolved already. *)
Definition run_unresolved (request : DmnExecutionRequest) (decision_key : string)
  : M (option DmnExecutionResult) :=
  s ← get;
  if bool_decide (decision_key ∈ resolved s) then mret None
  else
    definition ← of_store (lookup_decision request decision_key);
    result ← run_decision definition request;
    mret (Some result).

Fixpoint run_outputs (request : DmnExecutionRequest) (keys : list string) (o : ServiceOutput)
  : M ServiceOutput :=
  match keys with
  | [] => mret o
  | key :: keys =>
      r ← run_unresolved request key;
      run_outputs request keys (match r with Some r => add_output key r o | None => o end)
  end.

Definition is_single {A} (l : list A) : bool := Nat.eqb (length l) 1.

Definition execute_decision_service_by_key (service_key : string) (request : DmnExecutionRequest)
  : M DmnExecutionResult :=
  found ← of_store (latest_decision_service_by_key (env_store env) service_key (rq_tenant_id request)
                      (rq_parent_deployment_id request) (rq_fallback_to_default_tenant request));
  match found with
  | None => stop (DmnNotFound [Lit "DMN decision or decision service '"; Lit service_key;
                               Lit "' was not found"])
  | Some (service, deployment) =>
      context ← of_store (ok_or not_an_object (as_object (rq_variables request)));
      set_collections (fun _ => (context, ∅, ∅)) ;;
      for_each (ds_required_decisions service) (fun key => run_unresolved request key ;; mret tt) ;;
      o ← run_outputs request (ds_output_decisions service)
            (mkServiceOutput None 0 [] (Nat.ltb 1 (length (ds_output_decisions service))) [] []);
      match so_result o with
      | None => stop (DmnExecution [Lit "DMN decision service '"; Lit service_key;
                                    Lit "' did not declare executable decisions"])
      | Some last_output =>
          let single := is_single (ds_output_decisions service) in
          mret (mkResult (rs_execution_id last_output)
                  (String.append "dmn-decision-service:"
                     (String.append (dp_id deployment) (String.append ":" (ds_id service))))
                  (dp_id deployment) (ds_id service) (ds_name service) 1 (rs_hit_policy last_output)
                  (if single then rs_matched_rule_id last_output else None)
                  (so_matched_rule_count o) (so_rule_executions o) (rq_business_key request)
                  (rs_executed_at last_output) context
                  (if single then match so_by_decision o with (_, rows) :: _ => rows | [] => [] end
                   else so_flattened o)
                  (so_multiple_results o) (Some (so_by_decision o))
                  (rs_validation_message last_output))
      end
  end.

Definition execute_by_key (decision_key : string) (request : DmnExecutionRequest)
  : M DmnExecutionResult :=
  match lookup_decision request decision_key with
  | Ok definition =>
      context ← of_store (ok_or not_an_object (as_object (rq_variables request)));
      set_collections (fun _ => (context, ∅, ∅)) ;;
      run_decision definition request
  | Err (DmnNotFound _) => execute_decision_service_by_key decision_key request
  | Err e => stop e
  end.
End Runtime.

(** ** DMN: correctness of the execution of decisions

    - [execute_definition_history]: one record per evaluated decision, marked
      failed exactly when the evaluation raised;
    - [dependencies_terminate]: the recursion over required decisions ends;
    - [dependencies_once]: a successful execution evaluates every decision it
      needs once, after the decisions that one requires, and leaves them all
      resolved. *)

(** The parts of the state other than the clock and the ids. *)
Definition same_collections (s s' : Run) : Prop :=
  run_context s' = run_context s /\ resolved s' = resolved s /\ visiting s' = visiting s.

Definition same_data (s s' : Run) : Prop := same_collections s s' /\ history s' = history s.

Section Proofs.
Context `{Chrono} `{JsonReader} `{Regex} `{Unicode} (env : DmnEnv).

(** ** One decision *)
Definition evaluates {A} (m : M A) : Prop :=
  forall s, same_data s (m s).2 /\ (m s).1 <> Err OutOfFuel.

Lemma evaluates_bind {A B} (m : M A) (f : A -> M B) :
  evaluates m -> (forall a, evaluates (f a)) -> evaluates (m ≫= f).
Proof.
  intros Hm Hf s. specialize (Hm s). unfold mbind, stM_bind. destruct (m s) as [[a|e] s1]; simpl in *.
  - destruct (Hf a s1) as [Hd Ho]. split; [|done]. destruct Hm as [Hm _].
    unfold same_data, same_collections in *. intuition congruence.
  - destruct Hm as [Hd Ho]. split; [done|]. intros [= ->]. done.
Qed.

Lemma evaluates_ret {A} (a : A) : evaluates (mret a).
Proof. by intros s. Qed.
Lemma evaluates_result {A} (r : result DmnStop A) : evaluates (of_result r).
Proof. intros s. split; [done|]. by destruct r. Qed.
Lemma evaluates_now : evaluates (utc_now env).
Proof. by intros s. Qed.
Lemma evaluates_uuid : evaluates (uuid_new_v4 env).
Proof. by intros s. Qed.

Hint Resolve evaluates_ret evaluates_result evaluates_now evaluates_uuid : core.

Lemma evaluates_table definition inputs : evaluates (evaluate_table env definition inputs).
Proof. unfold evaluate_table. repeat (apply evaluates_bind; [done|intros]). done. Qed.

Lemma evaluates_failed definition request inputs :
  evaluates (failed_history_record env definition request inputs).
Proof. unfold failed_history_record. repeat (apply evaluates_bind; [done|intros]). done. Qed.

(** What [failed_history_record] says. *)
Lemma failed_record_fields definition request inputs s h s' :
  failed_history_record env definition request inputs s = (Ok h, s') ->
  hi_failed h = true /\ hi_decision_key h = df_key definition /\ hi_decision_result h = []
  /\ hi_inputs h = inputs.
Proof. unfold failed_history_record, mbind, stM_bind. simpl. by intros [= <- _]. Qed.

(** The rows a request adds to the history. *)
Definition recorded (request : DmnExecutionRequest) (h : HistoricDecisionExecution)
  : list HistoricDecisionExecution := if rq_disable_history request then [] else [h].

(** The inputs of a decision that is evaluated. *)
Definition decision_inputs (definition : DmnDecisionDefinition) (request : DmnExecutionRequest)
  : option Row :=
  match as_object (rq_variables request) with
  | Some raw => match coerce_inputs_for_type_refs definition raw with Ok i => Some i | Err _ => None end
  | None => None
  end.

(** A decision whose inputs are well typed leaves exactly one history record (none when history is disabled): a faithful copy of the result on success, a failed record without results when the evaluation raised an error, which is then returned; inputs that cannot be coerced leave none, and neither does a panic. *)
Theorem execute_definition_history definition request s
  (Hstore : forall h, env_history_error env h = None) :
  let r := execute_definition env definition request s in
  same_collections s r.2
  /\ match decision_inputs definition request with
     | None => history r.2 = history s /\ exists e, r.1 = Err (Stopped (Raised e))
     | Some inputs =>
         match (evaluate_table env definition inputs s).1 with
         | Ok (evaluation, audits) =>
             exists res, r.1 = Ok res
               /\ history r.2 = history s ++ recorded request (historic_record request res)
               /\ rs_decision_key res = df_key definition /\ rs_inputs res = inputs
               /\ rs_decision_result res = he_decision_result evaluation
               /\ rs_rule_executions res = audits
         | Err (Stopped (Raised e)) =>
             r.1 = Err (Stopped (Raised e))
             /\ exists h, history r.2 = history s ++ recorded request h /\ hi_failed h = true
                  /\ hi_decision_key h = df_key definition /\ hi_decision_result h = []
                  /\ hi_inputs h = inputs
         | Err stop_ => r.1 = Err stop_ /\ history r.2 = history s
         end
     end.
Proof.
  cbv zeta. destruct (execute_definition env definition request s) as [r s'] eqn:E. simpl.
  revert E. unfold execute_definition, decision_inputs.
  unfold mbind at 1, stM_bind at 1, of_store at 1, of_result at 1, lift at 1.
  destruct (as_object (rq_variables request)) as [raw|]; simpl; [|intros [= <- <-]; by repeat split; eexists].
  unfold mbind at 1, stM_bind at 1, of_store at 1, of_result at 1, lift at 1.
  destruct (coerce_inputs_for_type_refs definition raw) as [inputs|e]; simpl;
    [|intros [= <- <-]; by repeat split; eexists].
  unfold mbind at 1, stM_bind at 1, catch.
  destruct (evaluates_table definition inputs s) as [Hd Hne].
  destruct (evaluate_table env definition inputs s) as [r1 s1]; simpl in *.
  unfold same_data, same_collections in Hd. destruct Hd as [(Hc & Hr & Hv) Hh].
  destruct r1 as [[evaluation audits]|[[e|]|]]; simpl; [| |by intros [= <- <-]|done].
  - unfold mbind, stM_bind, utc_now, uuid_new_v4, persist_history, get, modify, mret, stM_ret. simpl.
    unfold same_collections, recorded. destruct (rq_disable_history request); simpl.
    + intros [= <- <-]. split; [done|]. eexists. rewrite app_nil_r. by repeat split.
    + rewrite Hstore. simpl. intros [= <- <-]. split; [done|]. simpl. rewrite Hh.
      eexists. by repeat split.
  - unfold mbind, stM_bind, recorded. pose proof (evaluates_failed definition request inputs s1) as [Hd' _].
    destruct (failed_history_record env definition request inputs s1) as [[h|?] s2] eqn:Ef; [|done].
    pose proof (failed_record_fields _ _ _ _ _ _ Ef) as Hf. simpl in Hd'.
    destruct (rq_disable_history request); simpl.
    + intros [= <- <-]. split; [done|]. split; [done|]. exists h. by rewrite app_nil_r.
    + unfold persist_history. rewrite Hstore. simpl. intros [= <- <-]. simpl.
      unfold same_data, same_collections in *. destruct Hd' as [(Hc' & Hr' & Hv') Hh'].
      split; [simpl; repeat split; congruence|]. split; [done|]. eexists. simpl. rewrite Hh. split; [reflexivity|done].
Qed.

(** ** Required decisions: termination *)
Context (request : DmnExecutionRequest).

Definition all_keys : gset string := list_to_set (df_key <$> st_definitions (env_store env)).

Lemma all_keys_size : (size all_keys <= length (st_definitions (env_store env)))%nat.
Proof.
  unfold all_keys. generalize (st_definitions (env_store env)) as l. intros l.
  induction l as [|d l IH]; [done|]. cbn [fmap list_fmap list_to_set length].
  rewrite size_union_alt, size_singleton. apply le_n_S. etrans; [|exact IH].
  apply subseteq_size. set_solver.
Qed.

Lemma lookup_decision_key key d :
  lookup_decision env request key = Ok d -> df_key d = key /\ d ∈ st_definitions (env_store env).
Proof. apply lookup_key. Qed.

(** The keys still open to the recursion. *)
Definition open_keys (s : Run) : nat := size (all_keys ∖ visiting s).

(** A computation that ends, and when it succeeds leaves [visiting] as it was. *)
Definition ends {A} (m : M A) (s : Run) : Prop :=
  match m s with
  | (Ok _, s') => visiting s' = visiting s
  | (Err e, _) => e <> OutOfFuel
  end.

Lemma ends_bind {A B} (m : M A) (f : A -> M B) s :
  ends m s -> (forall a s', m s = (Ok a, s') -> visiting s' = visiting s -> ends (f a) s') ->
  ends (m ≫= f) s.
Proof.
  unfold ends, mbind, stM_bind. destruct (m s) as [[a|e] s1]; [|done].
  intros Hv Hf. specialize (Hf a s1 eq_refl Hv). destruct (f a s1) as [[b|e] s2]; [congruence|done].
Qed.

Lemma ends_for_each {A} (l : list A) body s :
  (forall a s', visiting s' = visiting s -> ends (body a) s') -> ends (for_each l body) s.
Proof.
  revert s. induction l as [|a l IH]; intros s Hb; simpl; [done|].
  apply ends_bind; [by apply Hb|]. intros _ s1 _ Hv. apply IH. intros x s2 Hv2. apply Hb. congruence.
Qed.

Lemma ends_result {A} (r : result DmnStop A) s : ends (of_result r) s.
Proof. unfold ends, of_result, lift. by destruct r. Qed.

Lemma ends_definition definition rq s : ends (execute_definition env definition rq) s.
Proof.
  unfold execute_definition. repeat (apply ends_bind; [apply ends_result|]; intros ? ? _ _).
  apply ends_bind.
  { unfold ends, catch. destruct (evaluates_table definition a0 s'0) as [[(_ & _ & Hv) _] Hne].
    destruct (evaluate_table env definition a0 s'0) as [[[ev au]|[[e|]|]] s2]; simpl in *; try done.
    destruct (rq_disable_history rq); simpl; [done|].
    unfold mbind, stM_bind, persist_history.
    destruct (evaluates_failed definition rq a0 s2) as [_ Hf].
    destruct (failed_history_record env definition rq a0 s2) as [[h|x] s3]; simpl in *; [|congruence].
    by destruct (env_history_error env h). }
  intros [ev au] s2 _ _. repeat (apply ends_bind; [done|]; intros ? ? _ _).
  apply ends_bind; [|done]. destruct (rq_disable_history rq); [done|]. unfold ends, persist_history.
  by destruct (env_history_error env _).
Qed.

Lemma open_keys_visit s k :
  k ∈ all_keys -> k ∉ visiting s ->
  (size (all_keys ∖ ({[k]} ∪ visiting s)) < open_keys s)%nat.
Proof. intros Hk Hv. unfold open_keys. apply subset_size. set_solver. Qed.

Lemma dependencies_end fuel definition s :
  df_key definition ∈ all_keys -> (open_keys s < fuel)%nat ->
  ends (execute_definition_with_dependencies env fuel definition request) s.
Proof.
  revert definition s. induction fuel as [|fuel IH]; intros definition s Hk Hf; [lia|].
  cbn [execute_definition_with_dependencies]. unfold ends.
  unfold mbind at 1, stM_bind at 1, get at 1. case_bool_decide as Hin; [done|].
  set (s0 := mkRun (clock_reads s) (ids_drawn s) (history s) (run_context s) (resolved s)
               ({[df_key definition]} ∪ visiting s)).
  match goal with |- context [(set_collections _ ≫= ?k) s] =>
    change ((set_collections _ ≫= k) s) with (k tt s0) end. cbv beta.
  match goal with |- context [(for_each ?l ?b ≫= ?k) s0] =>
    assert (Hl : ends (for_each l b) s0); [|unfold ends in Hl] end.
  { apply ends_for_each. intros key s1 Hv. apply ends_bind; [done|]. intros s2 s3 [= -> ->] _.
    case_bool_decide; [done|].
    apply ends_bind; [apply ends_result|]. intros d s4 Hd Hv4.
    apply ends_bind; [|done]. apply IH.
    - unfold of_store, of_result, lift in Hd. destruct (lookup_decision env request key) eqn:El; [|done].
      injection Hd as -> _. apply lookup_decision_key in El as [_ Hd].
      unfold all_keys. apply elem_of_list_to_set, list_elem_of_fmap. eauto.
    - unfold open_keys. rewrite Hv4, Hv. simpl.
      pose proof (open_keys_visit s _ Hk Hin). lia. }
  unfold mbind at 1, stM_bind at 1.
  destruct (for_each _ _ s0) as [[[]|e] s1]; [|done].
  unfold mbind at 1, stM_bind at 1, get at 1. unfold mbind at 1, stM_bind at 1.
  match goal with |- context [execute_definition env definition ?rq s1] =>
    pose proof (ends_definition definition rq s1) as Hd; unfold ends in Hd;
    destruct (execute_definition env definition rq s1) as [[r|e] s2] end; [|done].
  simpl. rewrite Hd, Hl. simpl. set_solver.
Qed.

(** The execution of a stored decision with everything it requires never runs out of the fuel [run_decision] gives it: one more than the number of stored definitions bounds the depth of the recursion, whatever the requirement graph. *)
Theorem dependencies_terminate definition s (Hd : definition ∈ st_definitions (env_store env)) :
  (run_decision env definition request s).1 <> Err OutOfFuel.
Proof.
  assert (ends (run_decision env definition request) s) as He.
  { apply dependencies_end.
    - unfold all_keys. apply elem_of_list_to_set, list_elem_of_fmap. eauto.
    - unfold fuel_for, open_keys. pose proof all_keys_size.
      pose proof (subseteq_size (all_keys ∖ visiting s) all_keys ltac:(set_solver)). lia. }
  unfold ends in He. destruct (run_decision env definition request s) as [[r|e] s']; simpl; [done|].
  by intros [= ->].
Qed.

(** ** Required decisions: once each, and in order *)

(** In [keys], evaluated from left to right when the decisions of [done] are
    resolved, every decision comes after the decisions it requires. *)
Fixpoint in_dependency_order (done_ : gset string) (keys : list string) : Prop :=
  match keys with
  | [] => True
  | k :: keys =>
      (exists d, lookup_decision env request k = Ok d
                 /\ forall q, q ∈ df_required_decisions d -> q ∈ done_)
      /\ in_dependency_order ({[k]} ∪ done_) keys
  end.

Lemma in_dependency_order_app done_ l l' :
  in_dependency_order done_ l -> in_dependency_order (list_to_set l ∪ done_) l' ->
  in_dependency_order done_ (l ++ l').
Proof.
  revert done_. induction l as [|k l IH]; intros done_; simpl.
  - intros _. by rewrite union_empty_l_L.
  - intros [Hk Hl] Hl'. split; [done|]. apply IH; [done|].
    by replace (list_to_set l ∪ ({[k]} ∪ done_)) with ({[k]} ∪ list_to_set l ∪ done_) by set_solver.
Qed.

(** A stretch of a run that evaluated the decisions recorded in [hs]. *)
Record trace (s : Run) (hs : list HistoricDecisionExecution) (s' : Run) : Prop := mkTrace {
  tr_history : history s' = history s ++ hs;
  tr_visiting : visiting s' = visiting s;
  tr_once : NoDup (map hi_decision_key hs);
  tr_fresh : forall k, k ∈ map hi_decision_key hs -> k ∉ resolved s /\ k ∉ visiting s;
  tr_resolved : resolved s' = list_to_set (map hi_decision_key hs) ∪ resolved s;
  tr_order : in_dependency_order (resolved s) (map hi_decision_key hs);
  tr_success : Forall (fun h => hi_failed h = false) hs
}.

Lemma trace_refl s : trace s [] s.
Proof.
  constructor; simpl; rewrite ?app_nil_r, ?union_empty_l_L; try done.
  - apply NoDup_nil_2.
  - intros k Hk. by apply elem_of_nil in Hk.
Qed.

Lemma trace_app s hs s1 hs' s2 : trace s hs s1 -> trace s1 hs' s2 -> trace s (hs ++ hs') s2.
Proof.
  intros [F1 F2 F3 F4 F5 F6 F7] [G1 G2 G3 G4 G5 G6 G7]. constructor; rewrite ?map_app.
  - by rewrite G1, F1, app_assoc.
  - congruence.
  - apply NoDup_app. repeat split; [done| |done]. intros k Hk Hk'.
    apply G4 in Hk' as [Hr _]. rewrite F5 in Hr. set_solver.
  - intros k [Hk|Hk]%elem_of_app; [by apply F4|]. apply G4 in Hk as [Hr Hv].
    rewrite F5 in Hr. rewrite F2 in Hv. set_solver.
  - rewrite G5, F5, list_to_set_app_L. set_solver.
  - apply in_dependency_order_app; [done|]. by rewrite F5 in G6.
  - by apply Forall_app.
Qed.

Context (Hhistory : rq_disable_history request = false)
  (Hstore : forall h, env_history_error env h = None).

(** A successful loop over the required decisions resolves them all. *)
Lemma required_trace (run : DmnDecisionDefinition -> M DmnExecutionResult) keys s s' :
  (forall d s r s', lookup_decision env request (df_key d) = Ok d -> resolved s ## visiting s ->
     df_key d ∉ resolved s -> run d s = (Ok r, s') ->
     exists hs, trace s hs s' /\ df_key d ∈ resolved s') ->
  resolved s ## visiting s ->
  for_each keys (fun key =>
    s ← get;
    if bool_decide (key ∈ resolved s) then mret tt
    else d ← of_store (lookup_decision env request key); run d ;; mret tt) s = (Ok tt, s') ->
  exists hs, trace s hs s' /\ forall k, k ∈ keys -> k ∈ resolved s'.
Proof.
  intros Hrun. revert s. induction keys as [|key keys IH]; intros s Hdis.
  - intros [= <-]. exists []. split; [apply trace_refl|]. intros k Hk. by apply elem_of_nil in Hk.
  - cbn [for_each]. intros ([] & s1 & Hbody & Hrest)%bind_inv_ok.
    assert (Hone : exists hs, trace s hs s1 /\ key ∈ resolved s1).
    { apply bind_inv_ok in Hbody as (? & ? & [= <- <-] & Hbody).
      case_bool_decide as Hin; [injection Hbody as <-; eauto using trace_refl|].
      apply bind_inv_ok in Hbody as (d & s2 & Hd & Hbody).
      unfold of_store, of_result, lift in Hd. destruct (lookup_decision env request key) as [d'|] eqn:El; [|done].
      injection Hd as -> <-. apply bind_inv_ok in Hbody as (r & s3 & Hr & [= <-]).
      pose proof (lookup_decision_key _ _ El) as [<- _]. by eapply Hrun. }
    destruct Hone as (hs & Ht & Hk). destruct (IH s1) as (hs' & Ht' & Hks); [|done|].
    + rewrite (tr_resolved _ _ _ Ht), (tr_visiting _ _ _ Ht).
      apply disjoint_union_l. split; [|done]. intros k Hk1 Hk2.
      apply elem_of_list_to_set in Hk1. by apply (tr_fresh _ _ _ Ht) in Hk1 as [_ ?].
    + exists (hs ++ hs'). split; [by eapply trace_app|].
      intros k [->|Hin]%elem_of_cons; [|by apply Hks].
      rewrite (tr_resolved _ _ _ Ht'). set_solver.
Qed.

Lemma dependencies_trace fuel definition s r s' :
  lookup_decision env request (df_key definition) = Ok definition ->
  resolved s ## visiting s -> df_key definition ∉ resolved s ->
  execute_definition_with_dependencies env fuel definition request s = (Ok r, s') ->
  exists hs, trace s hs s' /\ df_key definition ∈ resolved s'.
Proof.
  revert definition s r s'. induction fuel as [|fuel IH]; intros definition s r s' Hlook Hdis Hnr; [done|].
  cbn [execute_definition_with_dependencies]. intros (? & ? & [= <- <-] & E)%bind_inv_ok.
  case_bool_decide as Hin; [done|]. apply bind_inv_ok in E as ([] & s0 & [= <-] & E).
  apply bind_inv_ok in E as ([] & s1 & Hloop & E).
  apply required_trace in Hloop as (hs & Ht & Hreq); [|done|simpl; set_solver].
  apply bind_inv_ok in E as (? & ? & [= <- <-] & E).
  apply bind_inv_ok in E as (res & s2 & Hexec & E). apply bind_inv_ok in E as ([] & s3 & [= <-] & [= <- <-]).
  pose proof (execute_definition_history definition
                (request_with_variables (VObject (run_context s1)) request) s1 Hstore) as Hh.
  rewrite Hexec in Hh. cbn [fst snd] in Hh. destruct Hh as [(Hc & Hr & Hv) Hh].
  destruct (decision_inputs _ _) as [inputs|]; [|by destruct Hh as [_ [? ?]]].
  destruct (evaluate_table env definition inputs s1).1 as [[ev au]|[[e|]|]]; try by destruct Hh.
  destruct Hh as (res' & [= <-] & Hh & Hkey & _). unfold recorded in Hh. simpl in Hh. rewrite Hhistory in Hh.
  set (h := historic_record _ res) in *.
  assert (Hhk : hi_decision_key h = df_key definition) by exact Hkey.
  destruct Ht as [T1 T2 T3 T4 T5 T6 T7]. simpl in *.
  assert (Hfresh : df_key definition ∉ map hi_decision_key hs).
  { intros Hin'. apply T4 in Hin' as [_ Hin']. set_solver. }
  exists (hs ++ [h]). split; [|simpl; set_solver].
  constructor; simpl; rewrite ?map_app; simpl; rewrite ?Hhk.
  - by rewrite Hh, T1, app_assoc.
  - rewrite Hv, T2. set_solver.
  - apply NoDup_app. repeat split; [done| |apply NoDup_singleton]. intros k Hk Hk'.
    apply list_elem_of_singleton in Hk'. by subst.
  - intros k [Hk|Hk]%elem_of_app.
    + apply T4 in Hk as [? ?]. set_solver.
    + apply list_elem_of_singleton in Hk as ->. done.
  - rewrite Hr, T5, list_to_set_app_L. set_solver.
  - apply in_dependency_order_app; [done|]. simpl. split; [|done]. exists definition. split; [done|].
    intros q Hq. rewrite <- T5. by apply Hreq.
  - apply Forall_app. split; [done|]. by repeat constructor.
Qed.

(** A successful execution of a decision evaluates every decision it needs exactly once, each after the decisions it requires and the decision itself last; none of them had been resolved before, all of them are afterwards, and every one has its record of success in the history. *)
Theorem dependencies_once definition s r s'
  (Hlook : lookup_decision env request (df_key definition) = Ok definition)
  (Hdis : resolved s ## visiting s) (Hnew : df_key definition ∉ resolved s)
  (Hrun : run_decision env definition request s = (Ok r, s')) :
  exists hs, trace s hs s' /\ df_key definition ∈ resolved s'.
Proof. by eapply dependencies_trace. Qed.
End Proofs.

(** ** Examples *)
Section Examples.
#[local] Existing Instances no_chrono integer_reader no_regex ascii_only no_libm.

(** A decision without inputs and with one integer output. *)
Definition constant_decision (key output expression : string) (required : list string)
  : DmnDecisionDefinition :=
  mkDefinition (String.append "dmn-decision:d1:" key) key "d1" key key 1 None None None "t.dmn" First None []
    [mkOutput "o1" output (Some "integer"%string) []]
    [mkRule "r1" [] [mkOutputEntry None VNull expression]] required.

Definition risk : DmnDecisionDefinition := constant_decision "risk" "score" "2 + 1" [].
Definition offer : DmnDecisionDefinition := constant_decision "offer" "rate" "score * 2" ["risk"%string].
Definition loop_a : DmnDecisionDefinition := constant_decision "a" "x" "1" ["b"%string].
Definition loop_b : DmnDecisionDefinition := constant_decision "b" "y" "1" ["a"%string].

Definition both : DecisionService := mkService "both" "Both" [] ["offer"; "risk"]%string.
Definition only_risk : DecisionService := mkService "only" "Only" ["risk"%string] ["risk"%string].

Definition sample_env : DmnEnv :=
  mkEnv (mkStore None [mkDeployment "d1" "D" None None None ["t.dmn"%string] 0]
           [risk; offer; loop_a; loop_b] [("d1"%string, mkModel "d1" "D" [] [both; only_risk])])
    true (fun _ => feel_session) (fun n => Z.of_nat n) (fun n => decimal (Z.of_nat n)) (fun _ => None).

Definition no_variables : DmnExecutionRequest := request_new (VObject []).

Definition sample_run : result RunStop DmnExecutionResult * Run :=
  run_decision sample_env offer no_variables (run_new [] []).

Definition result_of (r : result RunStop DmnExecutionResult) : DmnExecutionResult :=
  match r with
  | Ok r => r
  | Err _ => mkResult "" "" "" "" "" 0 First None 0 [] None 0 [] [] false None None
  end.

Example sample_rows :
  rs_decision_result (result_of sample_run.1) = [[("rate"%string, num 6)]]
  /\ map hi_decision_key (history sample_run.2) = ["risk"; "offer"]%string
  /\ run_context sample_run.2 = [("rate"%string, num 6); ("score"%string, num 3)].
Proof. vm_compute. repeat split; reflexivity. Qed.

Lemma dependencies_once_witness :
  exists hs, trace sample_env no_variables (run_new [] []) hs sample_run.2
             /\ df_key offer ∈ resolved sample_run.2.
Proof.
  apply (dependencies_once sample_env no_variables eq_refl (fun _ => eq_refl) offer (run_new [] [])
           (result_of sample_run.1) sample_run.2).
  - vm_compute. reflexivity.
  - set_solver.
  - set_solver.
  - vm_compute. reflexivity.
Defined.

Lemma dependencies_terminate_witness :
  (run_decision sample_env loop_a no_variables (run_new [] [])).1 <> Err OutOfFuel.
Proof. apply dependencies_terminate. set_solver. Defined.

Example cycle_is_reported :
  (run_decision sample_env loop_a no_variables (run_new [] [])).1 = Err (Stopped (Raised (cyclic "a"))).
Proof. vm_compute. reflexivity. Qed.

Lemma execute_definition_history_witness :
  let r := execute_definition sample_env risk no_variables (run_new [] []) in
  same_collections (run_new [] []) r.2
  /\ exists res, r.1 = Ok res
       /\ history r.2 = [] ++ recorded no_variables (historic_record no_variables res)
       /\ rs_decision_key res = "risk"%string /\ rs_inputs res = []
       /\ rs_decision_result res = [[("score"%string, num 3)]]
       /\ rs_rule_executions res
          = [mkAudit 1 "r1" true [] [mkExpressionExecution [Lit "r1"; Lit ":output:"; ShowInt 1] (num 3)]
               None None].
Proof. exact (execute_definition_history sample_env risk no_variables (run_new [] []) (fun _ => eq_refl)). Defined.

(** An output decision of a service that another decision has resolved already
    is skipped: its rows are missing from the result, and a service whose only
    output decision is also a required one fails. *)
Theorem resolved_output_dropped :
  rs_decision_service_result (result_of
    (execute_by_key sample_env "both" no_variables (run_new [] [])).1)
  = Some [("offer"%string, [[("rate"%string, num 6)]])]
  /\ (execute_by_key sample_env "only" no_variables (run_new [] [])).1
     = Err (Stopped (Raised (DmnExecution [Lit "DMN decision service '"; Lit "only";
                                           Lit "' did not declare executable decisions"]))).
Proof. vm_compute. split; reflexivity. Qed.

(** The rules are matched again for the hit policy. When a condition depends
    on the clock and starts to hold in between, the decision fails on an
    output that was never computed. *)
Definition ticking (t : Z) : Evaluation :=
  {| engine_evaluate source _ :=
       Ok (if String.eqb source "fn_now() >= deadline" then VBool (1 <=? t)%Z else num 1);
     now_rfc3339 := EmptyString |}.

Definition ticking_env : DmnEnv :=
  mkEnv (env_store sample_env) true ticking (fun n => Z.of_nat n) (fun _ => EmptyString) (fun _ => None).

Definition deadline_decision : DmnDecisionDefinition :=
  mkDefinition "x" "x" "d1" "x" "x" 1 None None None "t.dmn" First None [mkInput "i" "i" None]
    [mkOutput "o1" "rate" (Some "integer"%string) []]
    [mkRule "r1" [mkInputEntry None (TElCondition "fn_now() >= deadline")]
       [mkOutputEntry None VNull "1"]] [].

Theorem clock_change_internal_error :
  (execute_definition ticking_env deadline_decision no_variables (run_new [] [])).1
  = Err (Stopped (Raised (DmnExecution
      [Lit "internal error: missing precomputed outputs for rule '"; Lit "r1"; Lit "'"]))).
Proof. vm_compute. reflexivity. Qed.
End Examples.
