(* ===== verification/DmnFeel.v ===== *)
(** * DMN: the expression engine

    [FeelExpressionEngine] of [flowable-dmn-engine/src/models.rs] (1972-2040,
    2807-3872): the FEEL interpreter first and, when it fails for any reason,
    an evaluator that splits the text at operators and owns a catalogue of
    functions.

    The splitter counts characters and slices bytes, so a slice can fall inside
    a character: [str_slice] is [None] there, a panic.  Integer operators panic
    on overflow: the release profile is built with overflow checks.

    The recursion takes fuel; [DmnFeelProof] shows the fuel is enough. *)
From Stdlib Require Import Ascii.
From S2P Require Import Prelude Chars Float64 Numerals Json Errors ElValues FeelLexer FeelEvaluator DmnTypes DmnTemporal DmnValues DmnTable DmnHitPolicy.

(** What [chrono] says of dates and times beyond [Chrono]: fields, the
    calendar, and the fields of an RFC 3339 text in its own offset. *)
Class Calendar `{Chrono} := {
  date_year : NaiveDate -> Z;
  date_month : NaiveDate -> Z;
  date_day : NaiveDate -> Z;
  time_hour : NaiveTime -> Z;
  time_minute : NaiveTime -> Z;
  time_second : NaiveTime -> Z;
  rfc3339_date : string -> option NaiveDate;
  rfc3339_time : string -> option NaiveTime;
  local_date : NaiveDateTime -> NaiveDate;
  from_ymd_opt : Z -> Z -> Z -> option NaiveDate;
  next_month : NaiveDate -> option NaiveDate;
  pred_opt : NaiveDate -> option NaiveDate;
  checked_add_days : NaiveDate -> Z -> option NaiveDate
}.

(** The instant of an evaluation, and [10f64.powi(n)]. *)
Record Session := mkSession {
  session_now : string;
  session_today : string;
  powi10 : Z -> f64
}.

(** What stops the engine: an error or a panic, or the fuel of the model. *)
Inductive EngineStop : Type :=
| EStop (s : DmnStop)
| EFuel.

Notation E := (result EngineStop).
Definition panic {A} : E A := Err (EStop Aborted).
Definition eraise {A} (e : DmnError) : E A := Err (EStop (Raised e)).
Definition efail {A} (m : string) : E A := eraise (DmnExecution [Lit m]).
Definition or_panic {A} (o : option A) : E A := ok_or (EStop Aborted) o.
Definition or_error {A} (m : string) (o : option A) : E A :=
  ok_or (EStop (Raised (DmnExecution [Lit m]))) o.

(** ** Slices of text *)

(** [&s[a..b]]. *)
Definition str_slice (s : string) (a b : nat) : option string :=
  let bytes := String.list_ascii_of_string s in
  let boundary i := Nat.eqb i (length bytes)
                    || match bytes !! i with
                       | Some c => negb ((128 <=? byte_of c)%Z && (byte_of c <? 192)%Z)
                       | None => false
                       end in
  if Nat.leb a b && boundary a && boundary b then Some (text (take (b - a) (drop a bytes))) else None.

Definition slice_from (s : string) (a : nat) : option string := str_slice s a (String.length s).

Fixpoint slices (s : string) (ranges : list (nat * nat)) : option (list string) :=
  match ranges with
  | [] => Some []
  | (a, b) :: ranges => x ← str_slice s a b; xs ← slices s ranges; Some (x :: xs)
  end.

Definition ch (a : ascii) : Z := byte_of a.

Definition depth_after (c depth : Z) : Z :=
  if (c =? ch "(")%Z then (depth + 1)%Z else if (c =? ch ")")%Z then (depth - 1)%Z else depth.

Definition is_paren (c : Z) : bool := ((c =? ch "(") || (c =? ch ")"))%Z.

Definition lower_char (c : Z) : Z := if is_ascii_upper c then (c + 32)%Z else c.

(** ** [split_logical_operators]: [or] and [and] outside parentheses

    The ranges between the operators; [skip] characters of an operator that
    was found are still to be passed over. *)
Fixpoint logical_ranges (op : list Z) (cs : list Z) (skip : nat) (previous : option Z)
  (i last : nat) (depth : Z) : list (nat * nat) * nat :=
  match cs with
  | [] => ([], last)
  | c :: rest =>
      match skip with
      | S skip => logical_ranges op rest skip (Some c) (S i) last depth
      | O =>
          let here :=
            negb (is_paren c) && (depth =? 0)%Z
            && bool_decide (map lower_char (take (length op) cs) = op)
            && match previous with
               | None => true
               | Some p => (p =? ch " ")%Z || (p =? ch ")")%Z
               end
            && match drop (length op) cs with
               | [] => true
               | n :: _ => (n =? ch " ")%Z || (n =? ch "(")%Z
               end in
          if here then
            let '(ranges, final) := logical_ranges op rest (length op - 1) (Some c) (S i)
                                      (i + length op) depth in
            ((last, i) :: ranges, final)
          else logical_ranges op rest 0 (Some c) (S i) last (depth_after c depth)
      end
  end.

Definition split_logical_operators (s : string) (op : string) : option (list string) :=
  let '(ranges, final) := logical_ranges (chars op) (chars s) 0 None 0 0 0 in
  slices s (ranges ++ [(final, String.length s)]).

(** ** [split_binary_operator]: the first occurrence with two non-blank sides;
    the outer option is the panic *)
Definition blank (s : string) : bool := bool_decide (trim s = EmptyString).

Fixpoint binary_split (s : string) (op cs : list Z) (i : nat) (depth : Z)
  : option (option (string * string)) :=
  match cs with
  | [] => Some None
  | c :: rest =>
      if negb (is_paren c) && (depth =? 0)%Z && bool_decide (take (length op) cs = op) then
        left_ ← str_slice s 0 i;
        right_ ← slice_from s (i + length op);
        if negb (blank left_) && negb (blank right_) then Some (Some (left_, right_))
        else binary_split s op rest (S i) depth
      else binary_split s op rest (S i) (depth_after c depth)
  end.

Definition split_binary_operator (s op : string) : option (option (string * string)) :=
  binary_split s (chars op) (chars s) 0 0.

(** ** The operands and operators of an additive or multiplicative chain *)
Fixpoint chain_ranges (is_op : Z -> bool) (cs : list Z) (i last : nat) (depth : Z) (next_op : Z)
  : list (Z * (nat * nat)) * (Z * nat) :=
  match cs with
  | [] => ([], (next_op, last))
  | c :: rest =>
      if negb (is_paren c) && is_op c && (depth =? 0)%Z && negb (Nat.eqb i 0) then
        let '(parts, final) := chain_ranges is_op rest (S i) (S i) depth c in
        ((next_op, (last, i)) :: parts, final)
      else chain_ranges is_op rest (S i) last (depth_after c depth) next_op
  end.

Definition split_chain (is_op : Z -> bool) (first_op : Z) (s : string) : option (list (Z * string)) :=
  let '(parts, (final_op, final)) := chain_ranges is_op (chars s) 0 0 0 first_op in
  let all := parts ++ [(final_op, (final, String.length s))] in
  texts ← slices s (map snd all);
  Some (combine (map fst all) texts).

Definition is_additive (c : Z) : bool := ((c =? ch "+") || (c =? ch "-"))%Z.
Definition is_multiplicative (c : Z) : bool := ((c =? ch "*") || (c =? ch "/") || (c =? ch "%"))%Z.

(** ** Arguments of a call *)
Fixpoint args_chars (cs current : list Z) (depth : Z) (quote : option Z) : list string :=
  match cs with
  | [] => if blank (of_chars current) then [] else [trim (of_chars current)]
  | c :: rest =>
      match quote with
      | Some q => args_chars rest (current ++ [c]) depth (if (c =? q)%Z then None else Some q)
      | None =>
          if ((c =? 34) || (c =? 39))%Z then args_chars rest (current ++ [c]) depth (Some c)
          else if is_paren c then args_chars rest (current ++ [c]) (depth_after c depth) None
          else if (c =? ch ",")%Z && (depth =? 0)%Z then
            trim (of_chars current) :: args_chars rest [] depth None
          else args_chars rest (current ++ [c]) depth None
      end
  end.

Definition split_function_args (s : string) : list string := args_chars (chars s) [] 0 None.

(** [s.trim_end_matches(')')]. *)
Definition trim_end_parens (s : string) : string :=
  of_chars (rev (drop_while (Z.eqb (ch ")")) (rev (chars s)))).

(** [s.strip_prefix(p)] and [s.strip_suffix(')')], on characters. *)
Fixpoint strip_chars (p cs : list Z) : option (list Z) :=
  match p, cs with
  | [], _ => Some cs
  | a :: p, c :: cs => if (a =? c)%Z then strip_chars p cs else None
  | _ :: _, [] => None
  end.

Definition strip_before (p s : string) : option string := of_chars <$> strip_chars (chars p) (chars s).

Definition strip_close (s : string) : option string :=
  match rev (chars s) with
  | c :: r => if (c =? ch ")")%Z then Some (of_chars (rev r)) else None
  | [] => None
  end.

(** [s.find('(')]: the text before and after the first parenthesis. *)
Fixpoint split_paren (cs : list Z) : option (list Z * list Z) :=
  match cs with
  | [] => None
  | c :: cs => if (c =? ch "(")%Z then Some ([], cs)
               else '(b, a) ← split_paren cs; Some (c :: b, a)
  end.

(** ** Operators *)
Definition i64_result (n : Z) : E Value :=
  if (i64_min <=? n)%Z && (n <=? i64_max)%Z then Ok (value_of_i64 n)
  else panic.

Definition unknown_operator (op : Z) : E Value :=
  eraise (DmnExecution [Lit "unknown operator '"; Lit (of_chars [op]); Lit "'"]).

Definition integer_arithmetic (l r : Z) (op : Z) : E Value :=
  if (op =? ch "+")%Z then i64_result (l + r)
  else if (op =? ch "-")%Z then i64_result (l - r)
  else if (op =? ch "*")%Z then i64_result (l * r)
  else if (op =? ch "/")%Z then
    if (r =? 0)%Z then efail "division by zero"
    else Ok (value_of_f64 (f64_div (f64_of_Z l) (f64_of_Z r)))
  else if (op =? ch "%")%Z then
    if (r =? 0)%Z then efail "modulo by zero"
    else if (l =? i64_min)%Z && (r =? -1)%Z then panic
    else Ok (value_of_i64 (Z.rem l r))
  else unknown_operator op.

Definition float_arithmetic (l r : f64) (op : Z) : E Value :=
  if (op =? ch "+")%Z then Ok (value_of_f64 (f64_add l r))
  else if (op =? ch "-")%Z then Ok (value_of_f64 (f64_sub l r))
  else if (op =? ch "*")%Z then Ok (value_of_f64 (f64_mul l r))
  else if (op =? ch "/")%Z then
    if f64_eqb r f64_zero then efail "division by zero" else Ok (value_of_f64 (f64_div l r))
  else if (op =? ch "%")%Z then
    if f64_eqb r f64_zero then efail "modulo by zero" else Ok (value_of_f64 (f64_rem l r))
  else unknown_operator op.

Definition apply_arithmetic (left_ right_ : Value) (op : Z) : E Value :=
  match as_i64 left_, as_i64 right_ with
  | Some l, Some r => integer_arithmetic l r op
  | _, _ => float_arithmetic (unwrap_or f64_zero (as_f64 left_)) (unwrap_or f64_zero (as_f64 right_)) op
  end.

Definition feel_values_equal (left_ right_ : Value) : bool :=
  match as_f64 left_, as_f64 right_ with
  | Some l, Some r => f64_close l r
  | _, _ => value_eqb left_ right_
  end.

Definition feel_values_compare (left_ right_ : Value) : option comparison :=
  match as_f64 left_, as_f64 right_ with
  | Some l, Some r => f64_partial_cmp l r
  | _, _ => match as_str left_, as_str right_ with
            | Some l, Some r => Some (String.compare l r)
            | _, _ => None
            end
  end.

Definition feel_compare_values (left_ right_ : Value) (op : string) : bool :=
  let o := feel_values_compare left_ right_ in
  if String.eqb op "=" then feel_values_equal left_ right_
  else if String.eqb op "!=" then negb (feel_values_equal left_ right_)
  else if String.eqb op ">" then ordered CGreaterThan o
  else if String.eqb op ">=" then ordered CGreaterThanOrEqual o
  else if String.eqb op "<" then ordered CLessThan o
  else if String.eqb op "<=" then ordered CLessThanOrEqual o
  else false.

(** ** The catalogue of functions *)
Section Functions.
Context `{!Chrono} `{!Calendar} `{Regex} `{Unicode} (session : Session).

Notation Args := (list Value).

Definition arg_f64 (args : Args) (i : nat) : option f64 := args !! i ≫= as_f64.
Definition arg_i64 (args : Args) (i : nat) : option Z := args !! i ≫= as_i64.
Definition arg_str (args : Args) (i : nat) : string := unwrap_or EmptyString (args !! i ≫= as_str).
Definition arg_list (args : Args) (i : nat) : list Value := unwrap_or [] (args !! i ≫= as_array).

(** A function of one number. *)
Definition numeric_fn (name : string) (f : f64 -> f64) (args : Args) : E Value :=
  n ← or_error (String.append name " requires a number") (arg_f64 args 0);
  Ok (value_of_f64 (f n)).

Definition wrap_i32 (n : Z) : Z := ((n + 2 ^ 31) mod 2 ^ 32 - 2 ^ 31)%Z.

(** [round] and [decimal]. *)
Definition rounding_fn (name : string) (args : Args) : E Value :=
  n ← or_error (String.append name " requires a number") (arg_f64 args 0);
  let factor := powi10 session (wrap_i32 (unwrap_or 0%Z (arg_i64 args 1))) in
  Ok (value_of_f64 (f64_div (f64_round (f64_mul n factor)) factor)).

Definition fn_modulo (args : Args) : E Value :=
  a ← or_error "modulo requires two numbers" (arg_f64 args 0);
  b ← or_error "modulo requires two numbers" (arg_f64 args 1);
  Ok (value_of_f64 (f64_rem a b)).

Definition parity_fn (name : string) (even : bool) (args : Args) : E Value :=
  n ← or_error (String.append name " requires an integer") (arg_i64 args 0);
  Ok (VBool (Bool.eqb even (Z.rem n 2 =? 0)%Z)).

Definition invalid_regex (pattern : string) : E Value :=
  eraise (DmnExecution [Lit "invalid regex: "; Lit (regex_error pattern)]).

Definition fn_matches (args : Args) : E Value :=
  match regex_is_match (arg_str args 1) (arg_str args 0) with
  | Some b => Ok (VBool b)
  | None => invalid_regex (arg_str args 1)
  end.

Definition fn_replace (args : Args) : E Value :=
  let flags := match args !! 3%nat ≫= as_str with
               | Some f => (has_char "i" f, has_char "s" f, has_char "m" f, false)
               | None => (false, false, false, false)
               end in
  match regex_replace_all flags (arg_str args 1) (arg_str args 0) (arg_str args 2) with
  | Some s => Ok (VString s)
  | None => invalid_regex (arg_str args 1)
  end.

Definition fn_substring (args : Args) : E Value :=
  Ok (VString (of_chars (substring_chars (chars (arg_str args 0)) (unwrap_or 1%Z (arg_i64 args 1))
                           (arg_i64 args 2)))).

Definition fn_append (args : Args) : E Value :=
  Ok (VArray (arg_list args 0 ++ match args !! 1%nat with Some item => [item] | None => [] end)).

(** The items of a list, or the value itself. *)
Definition items (v : Value) : list Value := match v with VArray l => l | _ => [v] end.

Definition fn_count (args : Args) : E Value :=
  Ok (value_of_usize (match args with [VArray l] => length l | _ => length args end)).

Definition push_distinct (l : list Value) (v : Value) : list Value :=
  if value_contains l v then l else l ++ [v].

Definition distinct (l : list Value) : list Value := fold_left push_distinct l [].

Fixpoint indices (l : list Value) (item : Value) (i : nat) : list Value :=
  match l with
  | [] => []
  | v :: l => (if value_eqb v item then [value_of_usize (S i)] else []) ++ indices l item (S i)
  end.

Definition second_or_null (args : Args) : Value := unwrap_or VNull (args !! 1%nat).

(** [list[start_idx..end_idx]] panics outside the list; the sum of the start and a
    length read as [usize] can overflow. *)
Definition fn_sublist (args : Args) : E Value :=
  let list_ := arg_list args 0 in
  let len := Z.of_nat (length list_) in
  let start := unwrap_or 1%Z (arg_i64 args 1) in
  let start_idx := (if (0 <? start) then start - 1 else Z.max (len + start) 0)%Z in
  end_idx ← match arg_i64 args 2 with
            | Some n => let e := (start_idx + n mod 2 ^ 64)%Z in
                        if (2 ^ 64 <=? e)%Z then panic else Ok (Z.min e len)
            | None => Ok len
            end;
  if (start_idx <=? end_idx)%Z && (end_idx <=? len)%Z
  then Ok (VArray (take (Z.to_nat (end_idx - start_idx)) (drop (Z.to_nat start_idx) list_)))
  else panic.

Definition fn_union (args : Args) : E Value :=
  Ok (VArray (distinct (flat_map (fun v => unwrap_or [] (as_array v)) args))).

(** [intersect] and [except]: [&args[1..]] panics without arguments. *)
Definition retaining_fn (keep : bool) (args : Args) : E Value :=
  match args with
  | [] => panic
  | first :: others =>
      Ok (VArray (fold_left (fun l arg =>
            match as_array arg with
            | Some a => List.filter (fun item => Bool.eqb keep (value_contains a item)) l
            | None => l
            end) others (unwrap_or [] (as_array first))))
  end.

Definition numbers (l : list Value) : list f64 := omap as_f64 l.

Definition fn_mean (args : Args) : E Value :=
  let l := arg_list args 0 in
  match l with
  | [] => efail "mean requires at least one number"
  | _ => Ok (value_of_f64 (f64_div (f64_sum (numbers l)) (f64_of_Z (Z.of_nat (length l)))))
  end.

Definition extreme_fn (name : string) (f : f64 -> f64 -> f64) (args : Args) : E Value :=
  x ← or_error (String.append name " requires at least one number")
        (reduce f (numbers (arg_list args 0)));
  Ok (value_of_f64 x).

(** *** Dates *)
Definition parse_alias_date (value : Value) : E NaiveDate :=
  match as_str value with
  | None => eraise (DmnExecution [Lit "date function expects a date string, got "; ShowJson value])
  | Some s =>
      let s := trim s in
      match or_else (parse_date s) (or_else (rfc3339_date s) (local_date <$> parse_local_seconds s)) with
      | Some d => Ok d
      | None => eraise (DmnExecution [Lit "cannot parse '"; Lit s;
                                      Lit "' as a date (expected yyyy-MM-dd)"])
      end
  end.


Definition alias_int_value (value : Value) : E Z :=
  match as_i64 value with
  | Some n => if (i32_min <=? n)%Z && (n <=? i32_max)%Z then Ok n
              else eraise (DmnExecution [Lit "date shift amount "; ShowInt n; Lit " out of range"])
  | None =>
      match as_str value ≫= fun s => parse_i32 (trim s) with
      | Some n => Ok n
      | None => eraise (DmnExecution [Lit "date shift amount must be an integer, got "; ShowJson value])
      end
  end.

Definition shift_months (date : NaiveDate) (months : Z) : E NaiveDate :=
  let overflow {A} : option A -> E A := or_error "date shift overflowed the supported range" in
  let total := (date_year date * 12 + (date_month date - 1) + months)%Z in
  let year := (total / 12)%Z in
  let month := (total mod 12 + 1)%Z in
  if (year <? i32_min)%Z || (i32_max <? year)%Z
  then efail "date shift overflowed the supported range"
  else
    first ← overflow (from_ymd_opt year month 1);
    next ← overflow (next_month first);
    last_ ← overflow (pred_opt next);
    overflow (from_ymd_opt year month (Z.min (date_day date) (date_day last_))).

Definition fn_to_date (args : Args) : E Value :=
  match args with
  | [] => efail "fn_date requires a date argument"
  | value :: _ => d ← parse_alias_date value; Ok (VString (format_date d))
  end.

(** [component(i)? * sign]: negating [i32::MIN] overflows. *)
Definition shift_component (args : Args) (i : nat) (sign : Z) : E Z :=
  value ← or_error "date shift requires (startDate, years, months, days)" (args !! i);
  n ← alias_int_value value;
  if (n * sign <=? i32_max)%Z then Ok (n * sign)%Z else panic.

Definition fn_shift_date (sign : Z) (args : Args) : E Value :=
  start ← or_error "date shift requires a start date" (args !! 0%nat);
  date ← parse_alias_date start;
  years ← shift_component args 1 sign;
  months ← shift_component args 2 sign;
  days ← shift_component args 3 sign;
  date ← shift_months date (years * 12)%Z;
  date ← shift_months date months;
  date ← or_error "date shift overflowed" (checked_add_days date days);
  Ok (VString (format_date date)).

Definition date_field (name : string) (field : NaiveDate -> Z) (args : Args) : E Value :=
  let s := arg_str args 0 in
  d ← or_error (String.append "cannot extract " (String.append name " from value"))
        (or_else (parse_date s) (rfc3339_date s));
  Ok (value_of_i64 (field d)).

Definition time_field (name : string) (field : NaiveTime -> Z) (args : Args) : E Value :=
  let s := arg_str args 0 in
  t ← or_error (String.append "cannot extract " (String.append name " from value"))
        (or_else (parse_time s) (rfc3339_time s));
  Ok (value_of_i64 (field t)).

(** *** The dispatch of [evaluate_function] *)
Definition catalogue : list (string * (Args -> E Value)) :=
  [("abs", numeric_fn "abs" f64_abs);
   ("ceiling", numeric_fn "ceiling" f64_ceil);
   ("ceil", numeric_fn "ceiling" f64_ceil);
   ("floor", numeric_fn "floor" f64_floor);
   ("round", rounding_fn "round");
   ("sqrt", numeric_fn "sqrt" f64_sqrt);
   ("modulo", fn_modulo);
   ("decimal", rounding_fn "decimal");
   ("even", parity_fn "even" true);
   ("odd", parity_fn "odd" false);
   ("contains", fun a => Ok (VBool (str_contains (arg_str a 0) (arg_str a 1))));
   ("starts with", fun a => Ok (VBool (starts_with (arg_str a 1) (arg_str a 0))));
   ("ends with", fun a => Ok (VBool (str_ends_with (arg_str a 0) (arg_str a 1))));
   ("matches", fn_matches);
   ("string length", fun a => Ok (value_of_usize (length (chars (arg_str a 0)))));
   ("upper case", fun a => Ok (VString (to_uppercase (arg_str a 0))));
   ("lower case", fun a => Ok (VString (to_lowercase (arg_str a 0))));
   ("substring", fn_substring);
   ("replace", fn_replace);
   ("trim", fun a => Ok (VString (trim (arg_str a 0))));
   ("append", fn_append);
   ("concatenate", fun a => Ok (VArray (flat_map items a)));
   ("count", fn_count);
   ("distinct values", fun a => Ok (VArray (distinct (arg_list a 0))));
   ("flatten", fun a => Ok (VArray (flat_map items (arg_list a 0))));
   ("reverse", fun a => Ok (VArray (rev (arg_list a 0))));
   ("list contains", fun a => Ok (VBool (value_contains (arg_list a 0) (second_or_null a))));
   ("index of", fun a => Ok (VArray (indices (arg_list a 0) (second_or_null a) 0)));
   ("sublist", fn_sublist);
   ("union", fn_union);
   ("intersect", retaining_fn true);
   ("except", retaining_fn false);
   ("sum", fun a => Ok (value_of_f64 (f64_sum (numbers (arg_list a 0)))));
   ("mean", fn_mean);
   ("min", extreme_fn "min" f64_min);
   ("max", extreme_fn "max" f64_max);
   ("now", fun _ => Ok (VString (session_now session)));
   ("today", fun _ => Ok (VString (session_today session)));
   ("fn_date", fn_to_date);
   ("date:toDate", fn_to_date);
   ("fn_now", fun _ => Ok (VString (session_today session)));
   ("date:now", fun _ => Ok (VString (session_today session)));
   ("fn_addDate", fn_shift_date 1);
   ("date:addDate", fn_shift_date 1);
   ("fn_subtractDate", fn_shift_date (-1));
   ("date:subtractDate", fn_shift_date (-1));
   ("year", date_field "year" date_year);
   ("month", date_field "month" date_month);
   ("day", date_field "day" date_day);
   ("hour", time_field "hour" time_hour);
   ("minute", time_field "minute" time_minute);
   ("second", time_field "second" time_second)]%string.

Definition call_function (name : string) (args : Args) : E Value :=
  match map_get name catalogue with
  | Some f => f args
  | None => eraise (UnsupportedModel "FEEL function"
                      [Lit "unsupported FEEL function '"; Lit name; Lit "'"])
  end.
End Functions.

(** ** The evaluator

    One section variable [ev] is the recursive call of [evaluate], made on the
    inside of parentheses and on the arguments of a call. *)
Section Engine.
Context `{!Chrono} `{!Calendar} `{Regex} `{Unicode} `{Libm} (session : Session).

Section Levels.
Context (ev : string -> E Value) (context : Scope).

Definition parse_string_literal (expression : string) : E Value :=
  inner ← or_panic (str_slice expression 1 (String.length expression - 1));
  Ok (VString inner).

Definition starts_quoted (s : string) : bool :=
  match chars s with c :: _ => ((c =? 34) || (c =? 39))%Z | [] => false end.

Definition is_one_of (s : string) (l : list string) : bool := existsb (String.eqb s) l.

Definition parse_primary (expression : string) : E Value :=
  let trimmed := trim expression in
  if bool_decide (trimmed = EmptyString) then Ok VNull
  else if is_one_of trimmed ["null"; "Null"; "NULL"]%string then Ok VNull
  else if is_one_of trimmed ["true"; "True"]%string then Ok (VBool true)
  else if is_one_of trimmed ["false"; "False"]%string then Ok (VBool false)
  else
    match strip_before "(" trimmed ≫= strip_close with
    | Some inner => ev inner
    | None =>
        if starts_quoted trimmed then parse_string_literal trimmed
        else
          match parse_i64 trimmed with
          | Some n => Ok (value_of_i64 n)
          | None =>
              match f64_from_str trimmed with
              | Some x => Ok (value_of_f64 x)
              | None =>
                  match split_paren (chars trimmed) with
                  | Some (before, after) =>
                      args ← collect_results ev
                               (split_function_args (trim_end_parens (of_chars after)));
                      call_function session (trim (of_chars before)) args
                  | None => Ok (unwrap_or (VString trimmed) (context !! trimmed))
                  end
              end
          end
    end.

Definition parse_unary (expression : string) : E Value :=
  match strip_before "-" expression with
  | Some inner =>
      value ← parse_primary (trim inner);
      match as_f64 value, as_i64 value with
      | Some x, _ => Ok (value_of_f64 (f64_neg x))
      | None, Some n => i64_result (- n)
      | None, None => efail "cannot negate non-numeric value"
      end
  | None => parse_primary expression
  end.

Fixpoint chain_loop (operand : string -> E Value) (result_ : Value) (parts : list (Z * string)) : E Value :=
  match parts with
  | [] => Ok result_
  | (op, part) :: parts =>
      right_ ← operand (trim part);
      result_ ← apply_arithmetic result_ right_ op;
      chain_loop operand result_ parts
  end.

Definition parse_chain (is_op : Z -> bool) (first_op : Z) (operand : string -> E Value)
  (expression : string) : E Value :=
  parts ← or_panic (split_chain is_op first_op expression);
  match parts with
  | (_, first) :: ((_ :: _) as rest) =>
      result_ ← operand (trim first);
      chain_loop operand result_ rest
  | _ => operand expression
  end.

Definition parse_multiplicative : string -> E Value :=
  parse_chain is_multiplicative (ch "*") parse_unary.

Definition parse_additive : string -> E Value :=
  parse_chain is_additive (ch "+") parse_multiplicative.

Fixpoint comparison_loop (ops : list string) (expression : string) : E Value :=
  match ops with
  | [] => parse_additive expression
  | op :: ops =>
      split ← or_panic (split_binary_operator expression op);
      match split with
      | Some (left_, right_) =>
          left_val ← parse_additive (trim left_);
          right_val ← parse_additive (trim right_);
          Ok (VBool (feel_compare_values left_val right_val op))
      | None => comparison_loop ops expression
      end
  end.

Definition parse_comparison : string -> E Value :=
  comparison_loop ["!="; ">="; "<="; "="; ">"; "<"]%string.

Definition holds (v : Value) : bool := unwrap_or false (as_bool v).

Definition parse_not_expression (expression : string) : E Value :=
  match strip_before "not(" expression ≫= strip_close with
  | Some inner => value ← parse_comparison (trim inner); Ok (VBool (negb (holds value)))
  | None => parse_comparison expression
  end.

(** The operands of [or] and [and], up to the first that decides. *)
Fixpoint logical_loop (decides : bool) (operand : string -> E Value) (parts : list string) : E Value :=
  match parts with
  | [] => Ok (VBool (negb decides))
  | part :: parts =>
      value ← operand (trim part);
      if Bool.eqb (holds value) decides then Ok (VBool decides)
      else logical_loop decides operand parts
  end.

Definition parse_logical (op : string) (decides : bool) (operand : string -> E Value)
  (expression : string) : E Value :=
  parts ← or_panic (split_logical_operators expression op);
  if Nat.ltb 1 (length parts) then logical_loop decides operand parts else operand expression.

Definition parse_and_expression : string -> E Value :=
  parse_logical "and" false parse_not_expression.

Definition parse_or_expression : string -> E Value :=
  parse_logical "or" true parse_and_expression.
End Levels.

Fixpoint evaluate_fuel (fuel : nat) (context : Scope) (expression : string) : E Value :=
  match fuel with
  | O => Err EFuel
  | S fuel =>
      let trimmed := trim expression in
      if bool_decide (trimmed = EmptyString) then Ok VNull
      else
        match feel_evaluate trimmed context with
        | Some (Ok value) => Ok value
        | Some (Err _) => parse_or_expression (evaluate_fuel fuel context) context trimmed
        | None => panic
        end
  end.

Definition feel_engine_evaluate (expression : string) (context : Scope) : E Value :=
  evaluate_fuel (S (String.length expression)) context expression.
End Engine.
