(* ===== verification/DmnFeelProof.v ===== *)
(** * DMN: the expression engine, verified

    [engine_total]: the recursion of [FeelExpressionEngine] ends on every text.
    The argument is about text: whatever the engine trims, slices or strips
    from valid UTF-8 is valid UTF-8 of no more characters ([within]), and a
    recursive call is made on at least one character less.

    [engine_at]: the engine is an instance of [Evaluation], the interface the
    decision tables are proved against.  The last section records texts on
    which the compatibility evaluator panics or departs from FEEL. *)
From Stdlib Require Import Ascii.
From S2P Require Import Prelude Chars Float64 Numerals Json Errors ElValues FeelLexer FeelEvaluator DmnTypes DmnTemporal DmnValues DmnTable DmnHitPolicy DmnFeel.

(** ** Slices of valid text

    [within n s]: [s] is UTF-8 text of at most [n] characters.  Trimming,
    slicing at character boundaries and stripping stay within. *)
Definition within (n : nat) (s : string) : Prop :=
  exists cs, Forall scalar cs /\ s = of_chars cs /\ (length cs <= n)%nat.

Definition utf8 (cs : list Z) : list Z := flat_map char_bytes cs.

Lemma bytes_of_chars cs : String.list_ascii_of_string (of_chars cs) = map ascii_of (utf8 cs).
Proof.
  induction cs as [|c cs IH]; [done|]. change (utf8 (c :: cs)) with (char_bytes c ++ utf8 cs). cbn [of_chars].
  rewrite map_app, <- IH. clear IH.
  induction (char_bytes c) as [|b l IHl]; [done|]. simpl. by rewrite IHl.
Qed.

Lemma text_of_utf8 cs : text (map ascii_of (utf8 cs)) = of_chars cs.
Proof. rewrite <- (String.string_of_list_ascii_of_string (of_chars cs)). by rewrite bytes_of_chars. Qed.

(** A byte of a character that is not its first is a continuation byte. *)
Lemma char_bytes_tail c i b :
  scalar c -> char_bytes c !! S i = Some b -> (128 <= b < 192)%Z.
Proof.
  unfold scalar, char_bytes. intros Hc Hb.
  destruct (Z.ltb_spec c 128); [|destruct (Z.ltb_spec c 2048); [|destruct (Z.ltb_spec c 65536)]];
    do 4 (destruct i as [|i]; [simpl in Hb; simplify_eq Hb; intros; subst;
                               Z.to_euclidean_division_equations; lia|]); simpl in Hb; done.
Qed.

Lemma char_bytes_range c : scalar c -> Forall (fun b => 0 <= b < 256)%Z (char_bytes c).
Proof.
  unfold scalar, char_bytes. intros Hc.
  repeat case_match; rewrite ?Z.ltb_lt, ?Z.ltb_ge in *; repeat constructor;
    Z.to_euclidean_division_equations; lia.
Qed.

Lemma char_bytes_nonempty c : (1 <= length (char_bytes c))%nat.
Proof. unfold char_bytes. repeat case_match; simpl; lia. Qed.

Lemma chars_le_bytes cs : (length cs <= String.length (of_chars cs))%nat.
Proof.
  assert (Hl : forall s, length (String.list_ascii_of_string s) = String.length s)
    by (intros s; induction s; simpl; congruence).
  rewrite <- Hl, bytes_of_chars, length_map.
  unfold utf8. induction cs as [|c cs IH]; simpl; [done|].
  rewrite length_app. pose proof (char_bytes_nonempty c). lia.
Qed.

(** A boundary splits the characters. *)
Definition is_boundary (bytes : list ascii) (i : nat) : bool :=
  Nat.eqb i (length bytes)
  || match bytes !! i with
     | Some c => negb ((128 <=? byte_of c)%Z && (byte_of c <? 192)%Z)
     | None => false
     end.

Lemma boundary_split cs i :
  Forall scalar cs -> is_boundary (map ascii_of (utf8 cs)) i = true ->
  exists l r, cs = l ++ r /\ i = length (utf8 l).
Proof.
  intros Hcs. revert i. induction Hcs as [|c cs Hc Hcs IH]; intros i Hb.
  - exists [], []. split; [done|]. unfold is_boundary in Hb. simpl in *.
    apply orb_true_iff in Hb as [Hb|Hb]; [by apply Nat.eqb_eq in Hb|].
    by destruct i.
  - destruct i as [|i]; [by exists [], (c :: cs)|].
    assert (S i < length (char_bytes c) \/ length (char_bytes c) <= S i)%nat as [Hi|Hi] by lia.
    + exfalso. destruct (lookup_lt_is_Some_2 _ _ Hi) as [b Hl].
      pose proof (char_bytes_tail _ _ _ Hc Hl). unfold is_boundary in Hb. cbn [utf8 flat_map] in Hb.
      rewrite map_app, length_app, length_map in Hb.
      apply orb_true_iff in Hb as [Hb%Nat.eqb_eq|Hb]; [lia|].
      rewrite lookup_app_l in Hb by (rewrite length_map; lia).
      change (map ascii_of (char_bytes c)) with (ascii_of <$> char_bytes c) in Hb.
      rewrite list_lookup_fmap, Hl in Hb. simpl in Hb. rewrite byte_of_ascii_of in Hb by lia.
      rewrite (proj2 (Z.leb_le _ _)), (proj2 (Z.ltb_lt _ _)) in Hb by lia. done.
    + destruct (IH (S i - length (char_bytes c))%nat) as (l & r & -> & Hlen).
      { unfold is_boundary in *. rewrite length_map. cbn [utf8 flat_map] in Hb.
        rewrite map_app, length_app, !length_map in Hb.
        rewrite lookup_app_r in Hb by (rewrite length_map; lia). rewrite !length_map in Hb.
        apply orb_true_iff in Hb as [Hb%Nat.eqb_eq|Hb]; apply orb_true_iff; [left|by right].
        apply Nat.eqb_eq. unfold utf8. lia. }
      exists (c :: l), r. split; [done|]. cbn [utf8 flat_map]. rewrite length_app. unfold utf8 in Hlen. lia.
Qed.

Lemma utf8_app l r : utf8 (l ++ r) = utf8 l ++ utf8 r.
Proof. apply flat_map_app. Qed.

Lemma within_slice n s a b t : within n s -> str_slice s a b = Some t -> within n t.
Proof.
  intros (cs & Hcs & -> & Hn) Ht. unfold str_slice in Ht. rewrite bytes_of_chars in Ht.
  fold (is_boundary (map ascii_of (utf8 cs)) a) in Ht.
  fold (is_boundary (map ascii_of (utf8 cs)) b) in Ht.
  destruct (Nat.leb_spec a b) as [Hab|]; [|done]. simpl in Ht.
  destruct (is_boundary _ a) eqn:Ha; [|done]. destruct (is_boundary _ b) eqn:Hb; [|done].
  destruct (boundary_split cs b Hcs Hb) as (l & r & -> & ->).
  destruct (boundary_split (l ++ r) a Hcs Ha) as (l' & r' & Hl & ->).
  simpl in Ht. injection Ht as <-.
  assert (exists m, l = l' ++ m) as [m ->].
  { apply app_eq_app in Hl as (k & [[-> _]|[-> ->]]); [by eexists|].
    rewrite utf8_app, length_app in Hab. destruct k as [|c k]; [exists []; by rewrite !app_nil_r|].
    cbn [utf8 flat_map] in Hab. rewrite length_app in Hab. pose proof (char_bytes_nonempty c). unfold utf8 in Hab. lia. }
  exists m. rewrite !Forall_app in Hcs. split; [by destruct Hcs as [[? ?] ?]|]. split.
  - rewrite <- text_of_utf8. f_equal. rewrite !utf8_app, !map_app, <- app_assoc, length_app.
    rewrite drop_app_length' by (by rewrite length_map).
    rewrite take_app_length' by (rewrite length_map; lia). done.
  - rewrite !length_app in Hn. lia.
Qed.

Lemma Forall_drop_while {A} (P : A -> Prop) p l : Forall P l -> Forall P (drop_while p l).
Proof. induction 1 as [|a l]; simpl; [done|]. case_match; [done|]. by constructor. Qed.

Lemma length_drop_while {A} (p : A -> bool) l : (length (drop_while p l) <= length l)%nat.
Proof. induction l; simpl; [done|]. case_match; simpl; lia. Qed.

Lemma within_of_chars n cs : Forall scalar cs -> (length cs <= n)%nat -> within n (of_chars cs).
Proof. by exists cs. Qed.

Lemma within_trim n s : within n s -> within n (trim s).
Proof.
  intros (cs & Hcs & -> & Hn). unfold trim. rewrite chars_of_chars by done.
  apply within_of_chars.
  - by apply Forall_rev, Forall_drop_while, Forall_rev, Forall_drop_while.
  - rewrite length_rev. etrans; [apply length_drop_while|]. rewrite length_rev.
    etrans; [apply length_drop_while|]. done.
Qed.

Lemma within_trim_end_parens n s : within n s -> within n (trim_end_parens s).
Proof.
  intros (cs & Hcs & -> & Hn). unfold trim_end_parens. rewrite chars_of_chars by done.
  apply within_of_chars; [by apply Forall_rev, Forall_drop_while, Forall_rev|].
  rewrite length_rev. etrans; [apply length_drop_while|]. by rewrite length_rev.
Qed.

Lemma strip_chars_app p cs cs' : strip_chars p cs = Some cs' -> cs = p ++ cs'.
Proof.
  revert cs. induction p as [|a p IH]; intros [|c cs] Hs; simpl in *; simplify_eq; [done..|].
  case_match; [|done]. f_equal; [lia|by apply IH].
Qed.

Lemma within_strip_before n p s t :
  within n s -> strip_before p s = Some t -> within (n - length (chars p)) t.
Proof.
  intros (cs & Hcs & -> & Hn) Ht. unfold strip_before in Ht. rewrite chars_of_chars in Ht by done.
  destruct (strip_chars _ _) as [cs'|] eqn:Es; [|done]. apply strip_chars_app in Es as ->.
  simplify_eq/=. apply Forall_app in Hcs as [_ ?]. rewrite length_app in Hn.
  apply within_of_chars; [done|lia].
Qed.

Lemma within_strip_close n s t : within n s -> strip_close s = Some t -> within n t.
Proof.
  intros (cs & Hcs & -> & Hn) Ht. unfold strip_close in Ht. rewrite chars_of_chars in Ht by done.
  destruct (rev cs) as [|c r] eqn:Er; [done|]. case_match; [|done]. simplify_eq.
  apply Forall_rev in Hcs. rewrite <- length_rev in Hn.
  change (list.reverse cs) with (rev cs) in *.
  rewrite Er in *. apply Forall_cons in Hcs as [_ ?].
  apply within_of_chars; [by apply Forall_rev|]. rewrite length_rev. simpl in Hn. lia.
Qed.

Lemma split_paren_app cs b a : split_paren cs = Some (b, a) -> cs = b ++ ch "(" :: a.
Proof.
  revert b. induction cs as [|c cs IH]; intros b Hs; simpl in *; [done|].
  case_match; [simplify_eq/=; f_equal; lia|].
  destruct (split_paren cs) as [[b' a']|]; simplify_eq/=. f_equal. by apply IH.
Qed.

Lemma within_slices n s ranges parts :
  within n s -> slices s ranges = Some parts -> Forall (within n) parts.
Proof.
  intros Hs. revert parts. induction ranges as [|[a b] ranges IH]; intros parts Hp; simpl in Hp.
  - by simplify_eq.
  - destruct (str_slice s a b) as [x|] eqn:Ex; [|done].
    destruct (slices s ranges) as [xs|]; [|done]. simplify_eq/=.
    constructor; [by eapply within_slice|by apply IH].
Qed.

Lemma within_logical n s op parts :
  within n s -> split_logical_operators s op = Some parts -> Forall (within n) parts.
Proof.
  intros Hs Hp. unfold split_logical_operators in Hp.
  destruct (logical_ranges _ _ _ _ _ _ _). by eapply within_slices.
Qed.

Lemma within_binary n s op l r :
  within n s -> split_binary_operator s op = Some (Some (l, r)) -> within n l /\ within n r.
Proof.
  intros Hs. unfold split_binary_operator. generalize 0%nat as i, 0%Z as depth. generalize (chars op) as o.
  intros o. induction (chars s) as [|c cs IH]; intros i depth Hp; cbn [binary_split] in Hp; [done|].
  case_match; [|by eapply IH].
  destruct (str_slice s 0 i) as [l'|] eqn:El; [|done]. simpl in Hp.
  destruct (slice_from s _) as [r'|] eqn:Er; [|done]. simpl in Hp.
  case_match; [|by eapply IH]. simplify_eq.
  split; by eapply within_slice.
Qed.

Lemma within_chain n s is_op op parts :
  within n s -> split_chain is_op op s = Some parts -> Forall (fun p => within n (snd p)) parts.
Proof.
  intros Hs Hp. unfold split_chain in Hp. destruct (chain_ranges _ _ _ _ _ _) as [ps [o f]].
  destruct (slices _ _) as [texts|] eqn:Et; [|done]. simplify_eq/=.
  apply within_slices with (n := n) in Et; [|done].
  apply Forall_forall. intros [c t] Hin%list_elem_of_In%in_combine_r%list_elem_of_In.
  rewrite Forall_forall in Et. by apply Et.
Qed.

Lemma within_args n s : within n s -> Forall (within n) (split_function_args s).
Proof.
  intros (cs & Hcs & -> & Hn). unfold split_function_args. rewrite chars_of_chars by done.
  assert (Hc : Forall scalar []) by done. assert (Hl : (length (@nil Z) + length cs <= n)%nat) by done.
  revert Hc Hl. generalize (@nil Z) as current, 0%Z as depth, (@None Z) as quote. clear Hn.
  induction Hcs as [|c cs Hc Hcs IH]; intros current depth quote Hcur Hl; simpl.
  - case_match; [done|]. constructor; [|done]. apply within_trim, within_of_chars; [done|simpl in *; lia].
  - assert (Forall scalar (current ++ [c])) by (apply Forall_app; auto).
    assert (length (current ++ [c]) + length cs <= n)%nat by (rewrite length_app; simpl in *; lia).
    repeat case_match; try by apply IH.
    constructor; [apply within_trim, within_of_chars; simpl in *; [done|lia]|].
    apply IH; [done|simpl in *; lia].
Qed.

(** ** Totality *)

(** The result is a value, an error or a panic: the fuel was enough. *)
Definition settles {A} (r : E A) : Prop := r <> Err EFuel.

Lemma settles_bind {A B} (r : E A) (f : A -> E B) :
  settles r -> (forall a, r = Ok a -> settles (f a)) -> settles (r ≫= f).
Proof. unfold settles. destruct r as [a|e]; simpl; [|congruence]. intros _ Hf. by apply Hf. Qed.

Lemma settles_or_panic {A} (o : option A) : settles (or_panic o).
Proof. by destruct o. Qed.

Lemma settles_or_error {A} m (o : option A) : settles (or_error m o).
Proof. by destruct o. Qed.

Lemma or_panic_ok {A} (o : option A) a : or_panic o = Ok a -> o = Some a.
Proof. destruct o; unfold or_panic; simpl; congruence. Qed.

Lemma settles_collect {A B} (f : A -> E B) l :
  Forall (fun a => settles (f a)) l -> settles (collect_results f l).
Proof.
  induction 1 as [|a l Ha _ IH]; simpl; [done|].
  apply settles_bind; [done|]. intros b _. by apply settles_bind.
Qed.

Ltac settle :=
  repeat first
    [ apply settles_or_panic | apply settles_or_error
    | apply settles_bind; [|intros ? _]
    | done
    | case_match ].

Section Totality.
Context `{!Chrono} `{!Calendar} `{Regex} `{Unicode} `{Libm} (session : Session).

Lemma settles_arithmetic l r op : settles (apply_arithmetic l r op).
Proof.
  unfold apply_arithmetic, integer_arithmetic, float_arithmetic, unknown_operator, i64_result, panic.
  settle.
Qed.

Lemma settles_call name args : settles (call_function session name args).
Proof.
  unfold call_function. destruct (map_get name (catalogue session)) as [f|] eqn:Hf; [|done].
  assert (Hall : Forall (fun kf => forall args, settles (snd kf args)) (catalogue session)).
  { unfold catalogue. repeat (constructor; [intros a; cbn [snd]|]).
    all: unfold numeric_fn, rounding_fn, fn_modulo, parity_fn, fn_matches, fn_replace, fn_substring,
      fn_append, fn_count, fn_sublist, fn_union, retaining_fn, fn_mean, extreme_fn, fn_to_date,
      fn_shift_date, shift_component, alias_int_value, shift_months, parse_alias_date, date_field,
      time_field, invalid_regex, panic.
    all: settle. }
  clear -Hf Hall. induction (catalogue session) as [|[k g] l IH]; simpl in *; [done|].
  apply Forall_cons in Hall as [Hg Hl]. case_bool_decide; [by simplify_eq|by apply IH].
Qed.

(** Every level settles on text of [S n] characters when the recursive call
    settles on text of [n]. *)
Section Levels.
Context (ev : string -> E Value) (context : Scope) (n : nat).
Context (Hev : forall s, within n s -> settles (ev s)).

Lemma settles_primary s : within (S n) s -> settles (parse_primary session ev context s).
Proof.
  intros Hs%within_trim. unfold parse_primary.
  do 4 (case_match; [done|]).
  destruct (strip_before "(" _ ≫= _) as [inner|] eqn:Ei.
  { apply bind_Some in Ei as (rest & Hr & Hc). apply Hev. eapply within_strip_close; [|done].
    eapply within_strip_before in Hr; [|done]. simpl in Hr. by rewrite Nat.sub_0_r in Hr. }
  case_match; [unfold parse_string_literal; settle|].
  do 2 (case_match; [done|]).
  destruct (split_paren _) as [[before after]|] eqn:Ep; [|done].
  apply settles_bind; [|intros args _; apply settles_call]. apply settles_collect.
  destruct Hs as (cs & Hcs & Ht & Hn). rewrite Ht, chars_of_chars in Ep by done.
  apply split_paren_app in Ep. subst cs. apply Forall_app in Hcs as [_ [_ Ha]%Forall_cons].
  rewrite length_app in Hn. simpl in Hn.
  eapply Forall_impl; [|exact Hev]. apply within_args, within_trim_end_parens, within_of_chars; [done|lia].
Qed.

Lemma settles_unary s : within (S n) s -> settles (parse_unary session ev context s).
Proof.
  intros Hs. unfold parse_unary. destruct (strip_before "-" s) as [inner|] eqn:Ei;
    [|by apply settles_primary].
  apply settles_bind; [|intros v _; unfold i64_result, panic; settle]. apply settles_primary, within_trim.
  eapply within_strip_before in Ei as (cs & ? & ? & ?); [|done]. exists cs. split_and!; [done..|simpl in *; lia].
Qed.

Section Chain.
Context (operand : string -> E Value) (Hop : forall s, within (S n) s -> settles (operand s)).

Lemma settles_chain_loop parts r :
  Forall (fun p => within (S n) (snd p)) parts -> settles (chain_loop operand r parts).
Proof.
  intros Hp. revert r. induction Hp as [|[op t] parts Ht Hp IH]; intros r; simpl; [done|].
  apply settles_bind; [by apply Hop, within_trim|]. intros v _.
  apply settles_bind; [apply settles_arithmetic|]. intros; apply IH.
Qed.

Lemma settles_chain is_op op s : within (S n) s -> settles (parse_chain is_op op operand s).
Proof.
  intros Hs. unfold parse_chain. apply settles_bind; [apply settles_or_panic|].
  intros parts Hp%or_panic_ok. apply (within_chain (S n)) in Hp; [|done].
  destruct Hp as [|[o t] parts Ht Hp]; [by apply Hop|]. destruct parts; [by apply Hop|].
  apply settles_bind; [by apply Hop, within_trim|]. intros v _. by apply settles_chain_loop.
Qed.

Lemma settles_logical op decides s :
  within (S n) s -> settles (parse_logical op decides operand s).
Proof.
  intros Hs. unfold parse_logical. apply settles_bind; [apply settles_or_panic|].
  intros parts Hp%or_panic_ok. apply (within_logical (S n)) in Hp; [|done].
  case_match; [|by apply Hop]. clear -Hp Hop.
  induction Hp as [|t parts Ht Hp IH]; simpl; [done|].
  apply settles_bind; [by apply Hop, within_trim|]. intros v _. by case_match.
Qed.
End Chain.

Lemma settles_additive s : within (S n) s -> settles (parse_additive session ev context s).
Proof. apply settles_chain. apply settles_chain. apply settles_unary. Qed.

Lemma settles_comparison s : within (S n) s -> settles (parse_comparison session ev context s).
Proof.
  intros Hs. unfold parse_comparison. generalize ["!="; ">="; "<="; "="; ">"; "<"]%string as ops.
  induction ops as [|op ops IH]; simpl; [by apply settles_additive|].
  apply settles_bind; [apply settles_or_panic|]. intros [[l r]|] Hp%or_panic_ok; [|done].
  apply (within_binary (S n)) in Hp as [Hl Hr]; [|done].
  apply settles_bind; [by apply settles_additive, within_trim|]. intros v _.
  apply settles_bind; [by apply settles_additive, within_trim|]. done.
Qed.

Lemma settles_not s : within (S n) s -> settles (parse_not_expression session ev context s).
Proof.
  intros Hs. unfold parse_not_expression.
  destruct (strip_before "not(" s ≫= _) as [inner|] eqn:Ei; [|by apply settles_comparison].
  apply bind_Some in Ei as (rest & Hr & Hc). apply settles_bind; [|done].
  apply settles_comparison, within_trim. eapply within_strip_close; [|done].
  eapply within_strip_before in Hr as (cs & ? & ? & ?); [|done]. exists cs. split_and!; [done..|simpl in *; lia].
Qed.

Lemma settles_or s : within (S n) s -> settles (parse_or_expression session ev context s).
Proof. apply settles_logical. apply settles_logical. apply settles_not. Qed.
End Levels.

Lemma settles_evaluate fuel context s :
  within fuel s -> settles (evaluate_fuel session (S fuel) context s).
Proof.
  revert s. induction fuel as [|fuel IH]; intros s Hs%within_trim.
  - destruct Hs as ([|] & _ & Ht & Hn); [|simpl in Hn; lia].
    unfold evaluate_fuel. by rewrite bool_decide_true by done.
  - remember (S fuel) as f eqn:Ef. cbn [evaluate_fuel]. case_bool_decide; [done|].
    repeat case_match; [done| |done]. subst f. by apply (settles_or _ _ fuel).
Qed.

(** The expression engine is total: on every text and every context it
    ends with a value, an error or a panic, and the nesting of its calls never
    exceeds the number of characters. *)
Theorem engine_total (cs : list Z) (context : Scope) :
  Forall scalar cs -> feel_engine_evaluate session (of_chars cs) context <> Err EFuel.
Proof.
  intros Hcs. apply settles_evaluate. apply within_of_chars; [done|apply chars_le_bytes].
Qed.

End Totality.

(** The engine as the interface the decision tables are proved against. *)
Definition engine_at `{!Chrono} `{!Calendar} `{Regex} `{Unicode} `{Libm} (session : Session) : Evaluation :=
  {| engine_evaluate source scope :=
       match feel_engine_evaluate session source scope with
       | Ok v => Ok v
       | Err (EStop s) => Err s
       | Err EFuel => Err Aborted
       end;
     now_rfc3339 := session_now session |}.

(** ** Examples *)
Section Examples.
#[local] Existing Instances no_chrono no_regex ascii_only no_libm.

Definition no_calendar : Calendar :=
  {| date_year _ := 2026%Z; date_month _ := 1%Z; date_day _ := 1%Z; time_hour _ := 0%Z;
     time_minute _ := 0%Z; time_second _ := 0%Z; rfc3339_date _ := None; rfc3339_time _ := None;
     local_date _ := tt; from_ymd_opt _ _ _ := None; next_month _ := None; pred_opt _ := None;
     checked_add_days _ _ := None |}.
#[local] Existing Instance no_calendar.

Definition new_year : Session :=
  mkSession "2026-01-01T00:00:00+00:00" "2026-01-01" (fun _ => f64_of_Z 1).

Definition run (s : string) : E Value := feel_engine_evaluate new_year s (<["age" := value_of_i64 40]> ∅).

Example run_examples :
  map run ["age + 2"; "upper case('a')"; "3 - string length('a')"; "not(even(age)) or age > 39"; "today()"]%string
  = [Ok (value_of_i64 42); Ok (VString "A"); Ok (value_of_i64 2); Ok (VBool true);
     Ok (VString "2026-01-01")].
Proof. vm_compute. reflexivity. Qed.

Lemma engine_total_witness :
  feel_engine_evaluate new_year (of_chars (chars "upper case(('a'))")) ∅ <> Err EFuel.
Proof. apply engine_total. apply scalars_ok. vm_compute. reflexivity. Defined.

(** *** Where the compatibility evaluator departs from FEEL *)

(** Texts on which the evaluator panics instead of reporting an error: a lone
    quote, a set operation without arguments, a sublist that starts past the
    end, a sum out of range, and an operator after a multi-byte character. *)
Theorem engine_panics :
  Forall (fun s => run s = panic)
    [of_chars [34%Z]; "intersect()"; "sublist(age, 3) = upper case('a')";
     "9223372036854775807 + string length('a')";
     of_chars (20013%Z :: chars "+upper case('a')")]%string.
Proof. repeat constructor; vm_compute; reflexivity. Qed.

(** An operator inside a string literal splits the text: the equality holds of
    the two sides and is evaluated to false. *)
Theorem operator_in_literal_splits :
  run "lower case('X OR Y')" = Ok (VString "x or y") /\ run "'x or y'" = Ok (VString "x or y")
  /\ run "'x or y' = lower case('X OR Y')" = Ok (VBool false).
Proof. vm_compute. repeat split; reflexivity. Qed.

(** Negating an integer through the compatibility evaluator yields a float. *)
Theorem negated_call_is_float :
  run "string length('a')" = Ok (value_of_i64 1)
  /\ run "-string length('a')" = Ok (value_of_f64 (f64_of_Z (-1))).
Proof. vm_compute. split; reflexivity. Qed.

(** The engine under a decision table: a function only the catalogue has. *)
Example table_uses_catalogue :
  @engine_evaluate (engine_at new_year) "upper case(name)" (<["name" := VString "ada"]> ∅)
  = Ok (VString "ADA").
Proof. vm_compute. reflexivity. Qed.
End Examples.
