(* ===== verification/JobLocks.v ===== *)
(** * Acquiring, resetting and releasing job locks

    The operations of [persistence/runtime_store.rs] by which an executor takes
    jobs: the selection of due jobs and the conditional update that writes the
    lease, the reset of expired leases, the release, and the two ways an external
    worker changes a job it has locked.

    Acquisition never looks at the expiration of a lock: a row with an owner is
    not a candidate until the reset has cleared it.

    A limit is a [nat]: [usize::saturating_mul] saturates above any number of
    rows a table can hold.  Serialising a job to JSON cannot fail. *)
From stdpp Require Import pretty.
From S2P Require Import Prelude Chars Float64 Numerals Json Errors Execution Store JobTypes.

Open Scope Z_scope.

Notation Filter := (option (list string)).

Definition has_filter (f : Filter) : bool :=
  match f with Some (_ :: _) => true | _ => false end.

Definition find_process_instance (id : string) : JM (option ProcessInstance) :=
  ensure_job_open ;; s ← get; mret (js_instances s !! id).

Definition job_matches_tenant_filter (job : RuntimeTimerJobState) (tenant_filter : Filter) : JM bool :=
  match tenant_filter with
  | None | Some [] => mret true
  | Some filter =>
      instance ← find_process_instance (jb_process_instance_id job);
      mret (existsb (String.eqb (default EmptyString (instance ≫= pi_tenant_id))) filter)
  end.

(** The loop that keeps the jobs of the tenants. *)
Fixpoint retain_tenants (tenant_filter : Filter) (jobs : list RuntimeTimerJobState)
  : JM (list RuntimeTimerJobState) :=
  match jobs with
  | [] => mret []
  | job :: jobs =>
      keep ← job_matches_tenant_filter job tenant_filter;
      rest ← retain_tenants tenant_filter jobs;
      mret (if keep : bool then job :: rest else rest)
  end.

Definition retain_tenants_if (tenant_filter : Filter) (jobs : list RuntimeTimerJobState)
  : JM (list RuntimeTimerJobState) :=
  if has_filter tenant_filter then retain_tenants tenant_filter jobs else mret jobs.

Definition category_matches (category_filter : Filter) (job : RuntimeTimerJobState) : bool :=
  match jb_category job with
  | Some category => existsb (String.eqb category) (default [] category_filter)
  | None => false
  end.

Definition retain_categories (apply : bool) (category_filter : Filter) (jobs : list RuntimeTimerJobState)
  : list RuntimeTimerJobState :=
  if apply then List.filter (category_matches category_filter) jobs else jobs.

Definition unlocked (job : RuntimeTimerJobState) : bool :=
  match jb_lock_owner job with None => true | Some _ => false end.

(** [Option<i64>::cmp], [None] first. *)
Definition due_leb (a b : option Z) : bool :=
  match a, b with
  | None, _ => true
  | Some _, None => false
  | Some x, Some y => x <=? y
  end.

(** [sort_by] due time, then id. *)
Definition job_leb (a b : RuntimeTimerJobState) : bool :=
  if due_leb (jb_due_time a) (jb_due_time b) then
    if due_leb (jb_due_time b) (jb_due_time a) then string_leb (jb_timer_job_id a) (jb_timer_job_id b)
    else true
  else false.

Definition id_leb (a b : RuntimeTimerJobState) : bool :=
  string_leb (jb_timer_job_id a) (jb_timer_job_id b).

Definition leased (owner : string) (now lock_duration_ms : Z) (job : RuntimeTimerJobState) : RuntimeTimerJobState :=
  with_lock (Some owner) (Some now) (Some (saturating_add now lock_duration_ms)) job.

(** The conditional update of one candidate. *)
Definition lock_candidate (owner : string) (now lock_duration_ms : Z) (t : RuntimeTimerJobState) : JM nat :=
  let t' := leased owner now lock_duration_ms t in
  cas_update timer_job_states (jb_timer_job_id t) t'
    [("lock_owner", Some owner); ("lock_time", Some (pretty now));
     ("lock_expiration_time", pretty <$> jb_lock_expiration_time t');
     ("due_time", pretty <$> jb_due_time t); ("job_state", jb_job_state t)]%string
    (("lock_owner"%string, jb_lock_owner t) ::
     match jb_lock_time t with Some old => [("lock_time"%string, Some (pretty old))] | None => [] end).

Fixpoint lock_candidates (owner : string) (now lock_duration_ms : Z) (candidates : list RuntimeTimerJobState)
  : JM (list RuntimeTimerJobState * nat) :=
  match candidates with
  | [] => mret ([], 0%nat)
  | t :: candidates =>
      affected ← lock_candidate owner now lock_duration_ms t;
      r ← lock_candidates owner now lock_duration_ms candidates;
      let '(acquired, conflicts) := r in
      mret (if (0 <? affected)%nat
            then (leased owner now lock_duration_ms t :: acquired, conflicts)
            else (acquired, S conflicts))
  end.

(** The bulk update under the global lock. *)
Definition lock_candidates_serialized (owner : string) (now lock_duration_ms : Z)
  (candidates : list RuntimeTimerJobState) : JM (list RuntimeTimerJobState) :=
  let locked := map (leased owner now lock_duration_ms) candidates in
  affected ← bulk_update_json_and_columns_by_ids timer_job_states
    (map (fun job => (jb_timer_job_id job, job)) locked)
    [("lock_owner", Some owner); ("lock_time", Some (pretty now));
     ("lock_expiration_time", Some (pretty (saturating_add now lock_duration_ms)))]%string;
  if (affected =? length locked)%nat then mret locked
  else throw (StorageStop (Persistence
    [Lit "serialized global acquisition selected "; Lit (pretty (length locked));
     Lit " jobs but updated "; Lit (pretty affected)])).

Section Acquisition.
Context `{SqlOrder}.

Definition due_filters (job_states : list string) (now : Z) : list (string * FilterOp) :=
  [("due_time", FLessThanOrEqual now); ("job_state", FIn job_states); ("retries", FGreaterThan 0)]%string.

Definition selected (selected_job_ids : Filter) (job : RuntimeTimerJobState) : bool :=
  match selected_job_ids with
  | Some ids => existsb (String.eqb (jb_timer_job_id job)) ids
  | None => true
  end.

(** The candidates of [acquire_due_timer_jobs_by_states], up to the writes. *)
Definition due_candidates (job_states : list string) (now : Z) (max_jobs : nat)
  (selected_job_ids tenant_filter category_filter : Filter) : JM (list RuntimeTimerJobState) :=
  let has_category_filter := has_filter category_filter in
  let buffer_multiplier := if has_filter tenant_filter || has_category_filter then 4%nat else 2%nat in
  let buffer_size := Nat.max (max_jobs * buffer_multiplier) max_jobs in
  let query_limit := match selected_job_ids with Some _ => None | None => Some buffer_size end in
  candidates ← find_with_filters timer_job_states (due_filters job_states now) "due_time" query_limit;
  let candidates := List.filter (selected selected_job_ids) candidates in
  let candidates := List.filter unlocked candidates in
  candidates ← retain_tenants_if tenant_filter candidates;
  let candidates := retain_categories has_category_filter category_filter candidates in
  mret (take max_jobs (order_by job_leb candidates)).

Definition acquire_due_timer_jobs_by_states (job_states : list string) (owner : string)
  (now lock_duration_ms : Z) (max_jobs : nat) (selected_job_ids tenant_filter category_filter : Filter)
  (write_policy : AcquisitionWritePolicy) : JM (list RuntimeTimerJobState * nat * nat) :=
  candidates ← due_candidates job_states now max_jobs selected_job_ids tenant_filter category_filter;
  match write_policy with
  | SerializedByGlobalLock =>
      locked ← lock_candidates_serialized owner now lock_duration_ms candidates;
      mret (locked, 0%nat, 0%nat)
  | Optimistic =>
      r ← lock_candidates owner now lock_duration_ms candidates;
      let '(acquired, conflicts) := r in mret (acquired, 0%nat, conflicts)
  end.

Definition acquire_due_scheduled_timer_jobs_filtered (owner : string) (now lock_duration_ms : Z)
  (max_jobs : nat) (tenant_filter category_filter : Filter) :=
  acquire_due_timer_jobs_by_states ["timer"%string] owner now lock_duration_ms max_jobs None
    tenant_filter category_filter Optimistic.

Definition acquire_selected_scheduled_timer_jobs_filtered (owner : string) (now lock_duration_ms : Z)
  (selected_job_ids : list string) (tenant_filter category_filter : Filter) :=
  acquire_due_timer_jobs_by_states ["timer"%string] owner now lock_duration_ms
    (length selected_job_ids) (Some selected_job_ids) tenant_filter category_filter Optimistic.

Definition acquire_selected_scheduled_timer_jobs_global_filtered (owner : string)
  (now lock_duration_ms : Z) (selected_job_ids : list string) (tenant_filter category_filter : Filter) :=
  acquire_due_timer_jobs_by_states ["timer"%string] owner now lock_duration_ms
    (length selected_job_ids) (Some selected_job_ids) tenant_filter category_filter
    SerializedByGlobalLock.

Definition async_states : list string := ["executable"; "async"; "async-after"]%string.

Definition acquire_due_async_timer_jobs_filtered (owner : string) (now lock_duration_ms : Z)
  (max_jobs : nat) (tenant_filter category_filter : Filter) :=
  acquire_due_timer_jobs_by_states async_states owner now lock_duration_ms max_jobs None
    tenant_filter category_filter Optimistic.

Definition acquire_due_async_timer_jobs_global_filtered (owner : string) (now lock_duration_ms : Z)
  (max_jobs : nat) (tenant_filter category_filter : Filter) :=
  acquire_due_timer_jobs_by_states async_states owner now lock_duration_ms max_jobs None
    tenant_filter category_filter SerializedByGlobalLock.

Definition acquire_due_history_jobs (owner : string) (now lock_duration_ms : Z) (max_jobs : nat) :=
  acquire_due_timer_jobs_by_states ["history"%string] owner now lock_duration_ms max_jobs None None
    None Optimistic.

(** The candidates a timer acquisition picks from, no row limit. *)
Definition find_due_scheduled_timer_job_candidates_filtered (now : Z)
  (tenant_filter category_filter : Filter) : JM (list RuntimeTimerJobState) :=
  candidates ← find_with_filters timer_job_states (due_filters ["timer"%string] now) "due_time" None;
  let candidates := List.filter unlocked candidates in
  candidates ← retain_tenants_if tenant_filter candidates;
  mret (order_by job_leb (retain_categories (has_filter category_filter) category_filter candidates)).

Definition try_acquire_due_timer_jobs_filtered (owner : string) (now lock_timeout_ms : Z)
  (tenant_filter category_filter : Filter) : JM (list RuntimeTimerJobState * nat * nat) :=
  let max_jobs := 100%nat in
  let has_category_filter := has_filter category_filter in
  let buffer_size := (if has_category_filter then max_jobs * 12 else max_jobs * 4)%nat in
  candidates ← find_with_filters timer_job_states
    (due_filters ["executable"; "timer"; "async"; "async-after"]%string now) "due_time" (Some buffer_size);
  let candidates := List.filter unlocked candidates in
  candidates ← retain_tenants_if tenant_filter candidates;
  let candidates := retain_categories has_category_filter category_filter candidates in
  r ← lock_candidates owner now lock_timeout_ms (take max_jobs (order_by job_leb candidates));
  let '(acquired, conflicts) := r in mret (acquired, 0%nat, conflicts).
End Acquisition.

(** ** Reset of expired leases *)
Definition cleared : Extras :=
  [("lock_owner", None); ("lock_time", None); ("lock_expiration_time", None)]%string.

(** The conditions that recheck the lease a job was selected with. *)
Definition lease_conditions (owner : option string) (job : RuntimeTimerJobState) : Extras :=
  [("lock_owner", owner); ("lock_time", pretty <$> jb_lock_time job);
   ("lock_expiration_time", pretty <$> jb_lock_expiration_time job);
   ("job_state", jb_job_state job)]%string.

Fixpoint reset_candidates (candidates : list RuntimeTimerJobState) : JM (nat * nat) :=
  match candidates with
  | [] => mret (0%nat, 0%nat)
  | job :: candidates =>
      affected ← cas_update timer_job_states (jb_timer_job_id job) (without_lock job) cleared
                   (lease_conditions (jb_lock_owner job) job);
      r ← reset_candidates candidates;
      mret (if (0 <? affected)%nat then (S r.1, r.2) else (r.1, S r.2))
  end.

Definition compare_and_reset_expired_job_locks (candidates : list RuntimeTimerJobState)
  : JM ResetExpiredJobsBatchOutcome :=
  r ← reset_candidates candidates;
  mret (mkResetOutcome (length candidates) r.1 r.2).

Section Reset.
Context `{SqlOrder}.

Definition class_has_categories (c : ExpiredJobClass) : bool :=
  match c with ExpiredAsync | ExpiredTimer => true | ExpiredHistory => false end.

Definition expired_filters (job_class : ExpiredJobClass) (now : Z) : list (string * FilterOp) :=
  [("lock_expiration_time", FLessThan now); ("job_state", FIn (class_job_states job_class))]%string.

Definition find_expired_job_lock_candidates (now : Z) (job_class : ExpiredJobClass) (page_size : nat)
  (tenant_filter category_filter : Filter) : JM (list RuntimeTimerJobState) :=
  let apply_tenant := has_filter tenant_filter in
  let apply_category := class_has_categories job_class && has_filter category_filter in
  let select_limit :=
    if apply_tenant || apply_category then Nat.max (page_size * 8) page_size else page_size in
  candidates ← find_with_filters timer_job_states (expired_filters job_class now) "id" (Some select_limit);
  candidates ← retain_tenants_if tenant_filter candidates;
  let candidates := retain_categories apply_category category_filter candidates in
  mret (take page_size (order_by id_leb candidates)).

Definition reset_expired_job_locks_batch (now : Z) (job_class : ExpiredJobClass) (page_size : nat)
  (tenant_filter category_filter : Filter) : JM ResetExpiredJobsBatchOutcome :=
  candidates ← find_expired_job_lock_candidates now job_class page_size tenant_filter category_filter;
  compare_and_reset_expired_job_locks candidates.

Fixpoint reset_classes (now : Z) (page_size : nat) (classes : list ExpiredJobClass) : JM nat :=
  match classes with
  | [] => mret 0%nat
  | job_class :: classes =>
      outcome ← reset_expired_job_locks_batch now job_class page_size None None;
      total ← reset_classes now page_size classes;
      mret (reset outcome + total)%nat
  end.

Definition reset_expired_timer_job_locks (now : Z) (page_size : nat) : JM nat :=
  reset_classes now page_size all_expired_classes.
End Reset.

(** ** Release *)
Definition release_timer_job_lock (timer_job_id expected_owner : string) : JM bool :=
  found ← job_find timer_job_states timer_job_id;
  match found with
  | None => mret false
  | Some job =>
      if bool_decide (jb_lock_owner job = Some expected_owner) then
        affected ← cas_update timer_job_states timer_job_id (without_lock job) cleared
                     [("lock_owner"%string, Some expected_owner)];
        mret (0 <? affected)%nat
      else mret false
  end.

(** The tenant loop of [unlock_owned_executable_jobs]: a job without an instance
    is left out, not read as the empty tenant. *)
Fixpoint retain_instance_tenants (tenants : list string) (jobs : list RuntimeTimerJobState)
  : JM (list RuntimeTimerJobState) :=
  match jobs with
  | [] => mret []
  | job :: jobs =>
      instance ← find_process_instance (jb_process_instance_id job);
      rest ← retain_instance_tenants tenants jobs;
      mret (match instance with
            | Some i => if existsb (String.eqb (default EmptyString (pi_tenant_id i))) tenants
                        then job :: rest else rest
            | None => rest
            end)
  end.

Fixpoint unlock_candidates (expected_owner : string) (candidates : list RuntimeTimerJobState) : JM nat :=
  match candidates with
  | [] => mret 0%nat
  | job :: candidates =>
      affected ← cas_update timer_job_states (jb_timer_job_id job) (without_lock job) cleared
                   (lease_conditions (Some expected_owner) job);
      n ← unlock_candidates expected_owner candidates;
      mret (if (0 <? affected)%nat then S n else n)
  end.

Definition unlock_owned_executable_jobs `{SqlOrder} (expected_owner : string) (tenant_filter : Filter)
  : JM nat :=
  candidates ← find_with_filters timer_job_states
    [("lock_owner", FEq expected_owner); ("job_state", FIn async_states)]%string "id" None;
  candidates ← (if has_filter tenant_filter
                then retain_instance_tenants (default [] tenant_filter) candidates
                else mret candidates);
  unlock_candidates expected_owner (order_by id_leb candidates).

Close Scope Z_scope.
