(* ===== verification/JobLocksProof.v ===== *)
(** * Acquisition and reset: what they take and what they leave

    On a table whose projected columns agree with the stored jobs ([jobs_wf]),
    acquisition takes jobs that are due, free, have retries left and match the
    filters, in order of their due time, and nothing else changes; the two write
    policies agree; the reset clears expired leases and nothing else, and its
    cycle ends with none left.  Every operation keeps [jobs_wf]. *)
From stdpp Require Import pretty sorting.
From Stdlib Require Import Sorting.Sorted.
From S2P Require Import Prelude Chars Float64 Numerals Json Errors Execution Store JobTypes JobLocks.

Open Scope Z_scope.

(** ** Columns and records agree *)
Definition plain (s : string) : Prop := column_text (typed_extra s) = s.
Definition is_i64 (n : Z) : Prop := i64_min <= n <= i64_max.

Definition text_cell (cells : gmap string DbValue) (column : string) (v : option string) : Prop :=
  cells !! column = DbText <$> v /\ (forall o, v = Some o -> plain o).
Definition int_cell (cells : gmap string DbValue) (column : string) (v : option Z) : Prop :=
  cells !! column = DbInteger <$> v /\ (forall n, v = Some n -> is_i64 n).

Record job_row_wf (k : string) (r : CasRow RuntimeTimerJobState) : Prop := {
  jw_id : jb_timer_job_id (cas_data r) = k;
  jw_owner : text_cell (cas_cells r) "lock_owner" (jb_lock_owner (cas_data r));
  jw_time : int_cell (cas_cells r) "lock_time" (jb_lock_time (cas_data r));
  jw_expiration : int_cell (cas_cells r) "lock_expiration_time" (jb_lock_expiration_time (cas_data r));
  jw_due : int_cell (cas_cells r) "due_time" (jb_due_time (cas_data r));
  jw_retries : int_cell (cas_cells r) "retries" (jb_retries (cas_data r));
  jw_state : text_cell (cas_cells r) "job_state" (jb_job_state (cas_data r))
}.

Definition table_wf (tab : gmap string (CasRow RuntimeTimerJobState)) : Prop := map_Forall job_row_wf tab.

Record jobs_wf (s : JobSession) : Prop := {
  jobs_open : js_closed s = false;
  jobs_rows : table_wf (js_jobs s)
}.

Notation set_jobs := (jset timer_job_states).

Lemma saturating_add_i64 a b : is_i64 (saturating_add a b).
Proof. unfold is_i64, saturating_add, i64_min, i64_max. lia. Qed.

Lemma bound_text c v : is_integer_projection_column c = false -> plain v -> bound_cell c v = DbText v.
Proof. unfold bound_cell, plain. intros -> ->. done. Qed.

Lemma bound_int c n : is_integer_projection_column c = true -> is_i64 n -> bound_cell c (pretty n) = DbInteger n.
Proof. unfold bound_cell. intros -> Hn. by apply typed_extra_pretty. Qed.

Section Cells.
Context (cells : gmap string DbValue).

Lemma text_cell_holds c v :
  is_integer_projection_column c = false -> text_cell cells c v -> cell_holds cells (c, v) = true.
Proof.
  intros Hc [Hv Hp]. destruct v as [v|]; apply bool_decide_eq_true; rewrite Hv; simpl; [|done].
  by rewrite bound_text by eauto.
Qed.

Lemma int_cell_holds c v :
  is_integer_projection_column c = true -> int_cell cells c v -> cell_holds cells (c, pretty <$> v) = true.
Proof.
  intros Hc [Hv Hp]. destruct v as [v|]; apply bool_decide_eq_true; rewrite Hv; simpl; [|done].
  by rewrite bound_int by eauto.
Qed.

Lemma set_cell_text_same c v :
  is_integer_projection_column c = false -> text_cell cells c v -> set_cell cells (c, v) = cells.
Proof.
  intros Hc [Hv Hp]. destruct v as [v|]; simpl; [|by apply delete_id].
  apply insert_id. by rewrite Hv, bound_text by eauto.
Qed.

Lemma set_cell_int_same c v :
  is_integer_projection_column c = true -> int_cell cells c v -> set_cell cells (c, pretty <$> v) = cells.
Proof.
  intros Hc [Hv Hp]. destruct v as [v|]; simpl; [|by apply delete_id].
  apply insert_id. by rewrite Hv, bound_int by eauto.
Qed.

Lemma set_cell_ne c c' v : c <> c' -> set_cell cells (c, v) !! c' = cells !! c'.
Proof. intros. destruct v; simpl; [by apply lookup_insert_ne|by apply lookup_delete_ne]. Qed.

Lemma set_cell_text c v :
  is_integer_projection_column c = false -> (forall o, v = Some o -> plain o) ->
  text_cell (set_cell cells (c, v)) c v.
Proof.
  intros Hc Hp. split; [|done]. destruct v as [v|]; simpl; simplify_map_eq; [|done].
  by rewrite bound_text by eauto.
Qed.

Lemma set_cell_int c v :
  is_integer_projection_column c = true -> (forall n, v = Some n -> is_i64 n) ->
  int_cell (set_cell cells (c, pretty <$> v)) c v.
Proof.
  intros Hc Hp. split; [|done]. destruct v as [v|]; simpl; simplify_map_eq; [|done].
  by rewrite bound_int by eauto.
Qed.

Lemma text_cell_ne c c' v w : c <> c' -> text_cell cells c' w -> text_cell (set_cell cells (c, v)) c' w.
Proof. intros H [Hw Hp]. split; [|done]. by rewrite set_cell_ne. Qed.

Lemma int_cell_ne c c' v w : c <> c' -> int_cell cells c' w -> int_cell (set_cell cells (c, v)) c' w.
Proof. intros H [Hw Hp]. split; [|done]. by rewrite set_cell_ne. Qed.
End Cells.

(** Columns an update does not set, of a row known to agree with its job. *)
Ltac kept_cell W :=
  repeat ((apply int_cell_ne || apply text_cell_ne); [done|]);
  first [exact (jw_owner _ _ W) | exact (jw_time _ _ W) | exact (jw_expiration _ _ W)
        | exact (jw_due _ _ W) | exact (jw_retries _ _ W) | exact (jw_state _ _ W) | idtac].

Create HintDb jobs discriminated.
#[export] Hint Resolve saturating_add_i64 : jobs.

(** ** Rows a loop of conditional updates rewrites *)
Section UpdateRows.
Context (f : CasRow RuntimeTimerJobState -> CasRow RuntimeTimerJobState).

Definition update_rows (ids : list string) (tab : gmap string (CasRow RuntimeTimerJobState))
  : gmap string (CasRow RuntimeTimerJobState) :=
  map_imap (fun k r => Some (if decide (k ∈ ids) then f r else r)) tab.

Lemma update_rows_lookup ids tab k :
  update_rows ids tab !! k = (fun r => if decide (k ∈ ids) then f r else r) <$> tab !! k.
Proof. unfold update_rows. rewrite map_lookup_imap. by destruct (tab !! k). Qed.

Lemma update_rows_nil tab : update_rows [] tab = tab.
Proof. apply map_eq. intros k. rewrite update_rows_lookup. by destruct (tab !! k). Qed.

Lemma update_rows_cons i ids tab r :
  tab !! i = Some r -> i ∉ ids -> update_rows ids (<[i := f r]> tab) = update_rows (i :: ids) tab.
Proof.
  intros Hr Hi. apply map_eq. intros k. rewrite !update_rows_lookup.
  destruct (decide (k = i)) as [->|Hk].
  - rewrite lookup_insert_eq, Hr. simpl. rewrite (decide_False (P := i ∈ ids)) by done. by rewrite decide_True by (apply elem_of_cons; by left).
  - rewrite lookup_insert_ne by done. destruct (tab !! k); simpl; [|done]. f_equal.
    destruct (decide (k ∈ ids)) as [H|H]; [by rewrite decide_True by (by apply elem_of_cons; right)|].
    by rewrite decide_False by (rewrite elem_of_cons; tauto).
Qed.

Lemma update_rows_wf ids tab :
  table_wf tab -> (forall k r, job_row_wf k r -> job_row_wf k (f r)) -> table_wf (update_rows ids tab).
Proof.
  intros Ht Hf k r. rewrite update_rows_lookup. intros (r0 & Hr & ->)%fmap_Some.
  case_decide; eauto.
Qed.
End UpdateRows.

(** Jobs as the table holds them, each once. *)
Definition stored (tab : gmap string (CasRow RuntimeTimerJobState)) (jobs : list RuntimeTimerJobState) : Prop :=
  NoDup (jb_timer_job_id <$> jobs)
  /\ Forall (fun j => exists r, tab !! jb_timer_job_id j = Some r /\ cas_data r = j) jobs.

Lemma stored_cons tab j jobs :
  stored tab (j :: jobs) <->
  (exists r, tab !! jb_timer_job_id j = Some r /\ cas_data r = j)
  /\ (jb_timer_job_id j ∉ jb_timer_job_id <$> jobs) /\ stored tab jobs.
Proof. unfold stored. simpl. rewrite NoDup_cons, Forall_cons. tauto. Qed.

Lemma stored_insert tab j jobs r :
  jb_timer_job_id j ∉ jb_timer_job_id <$> jobs -> stored tab jobs ->
  stored (<[jb_timer_job_id j := r]> tab) jobs.
Proof.
  intros Hj [Hn Hs]. split; [done|]. apply Forall_forall. intros j' Hj'.
  rewrite Forall_forall in Hs. destruct (Hs _ Hj') as (r' & Hr' & <-). exists r'.
  split; [|done]. rewrite lookup_insert_ne; [done|].
  intros E. apply Hj. rewrite E. by apply list_elem_of_fmap_2.
Qed.

Lemma stored_sublist tab l k : sublist l k -> stored tab k -> stored tab l.
Proof.
  intros Hl [Hn Hs]. split; [by eapply sublist_NoDup, fmap_sublist|].
  rewrite Forall_forall in *. intros j Hj. apply Hs. by eapply elem_of_sublist.
Qed.

Lemma stored_permutation tab l k : Permutation l k -> stored tab k -> stored tab l.
Proof. unfold stored. intros ->. done. Qed.

Lemma filter_sublist {A} (p : A -> bool) l : sublist (List.filter p l) l.
Proof. induction l as [|a l IH]; simpl; [done|]. destruct (p a); by constructor. Qed.

(** ** Writing leases *)
Section Leases.
Context (owner : string) (now lock_duration_ms : Z).

Definition leased_row (r : CasRow RuntimeTimerJobState) : CasRow RuntimeTimerJobState :=
  mkCas (leased owner now lock_duration_ms (cas_data r))
    (set_cells [("lock_owner", Some owner); ("lock_time", Some (pretty now));
                ("lock_expiration_time", Some (pretty (saturating_add now lock_duration_ms)))]%string
       (cas_cells r)).

Context (Howner : plain owner) (Hnow : is_i64 now).

Lemma leased_row_wf k r : job_row_wf k r -> job_row_wf k (leased_row r).
Proof.
  intros W. pose proof (jw_id _ _ W).
  split; unfold leased_row, set_cells; cbn [cas_data cas_cells fold_left]; [done|kept_cell W..].
  - apply set_cell_text with (v := Some owner); [done|by intros ? [= <-]].
  - apply set_cell_int with (v := Some now); [done|by intros ? [= <-]].
  - apply set_cell_int with (v := Some _); [done|intros ? [= <-]; auto with jobs].
Qed.

Lemma leased_row_data r : cas_data (leased_row r) = leased owner now lock_duration_ms (cas_data r).
Proof. done. Qed.

Lemma lock_candidate_free s r :
  jobs_wf s -> js_jobs s !! jb_timer_job_id (cas_data r) = Some r -> jb_lock_owner (cas_data r) = None ->
  lock_candidate owner now lock_duration_ms (cas_data r) s
  = (Ok 1%nat, set_jobs (<[jb_timer_job_id (cas_data r) := leased_row r]> (js_jobs s)) s).
Proof.
  intros [Ho Hw] Hr Hfree. pose proof (Hw _ _ Hr) as W. unfold lock_candidate, cas_update, ensure_job_open.
  rewrite Hfree. unfold mbind, stM_bind, get. rewrite Ho. simpl (jget _ _). rewrite Hr.
  pose proof (text_cell_holds _ "lock_owner" _ eq_refl (jw_owner _ _ W)) as H1.
  pose proof (int_cell_holds _ "lock_time" _ eq_refl (jw_time _ _ W)) as H2. rewrite Hfree in H1.
  replace (forallb _ _) with true by (destruct (jb_lock_time (cas_data r)); cbn [forallb fmap option_fmap option_map] in *; by rewrite H1, ?H2).
  cbv beta iota. unfold modify, mret, stM_ret, leased_row, set_cells. cbn [fold_left].
  rewrite (set_cell_int_same _ "due_time") by (done || kept_cell W).
  by rewrite (set_cell_text_same _ "job_state") by (done || kept_cell W).
Qed.

Lemma set_jobs_wf s tab : jobs_wf s -> table_wf tab -> jobs_wf (set_jobs tab s).
Proof. by intros [Ho _] Ht. Qed.

Lemma insert_row_wf s k r : jobs_wf s -> job_row_wf k r -> jobs_wf (set_jobs (<[k := r]> (js_jobs s)) s).
Proof. intros W H. apply set_jobs_wf; [done|]. apply map_Forall_insert_2; [done|apply W]. Qed.

Lemma lock_candidates_free jobs s :
  jobs_wf s -> stored (js_jobs s) jobs -> Forall (fun j => jb_lock_owner j = None) jobs ->
  lock_candidates owner now lock_duration_ms jobs s
  = (Ok (leased owner now lock_duration_ms <$> jobs, 0%nat),
     set_jobs (update_rows leased_row (jb_timer_job_id <$> jobs) (js_jobs s)) s).
Proof.
  revert s. induction jobs as [|j jobs IH]; intros s W Hs Hf.
  { simpl. rewrite update_rows_nil. by destruct s. }
  apply stored_cons in Hs as ((r & Hr & <-) & Hj & Hs). apply Forall_cons in Hf as [Hfree Hf].
  pose proof (jobs_rows _ W _ _ Hr) as Wr.
  cbn [lock_candidates]. rewrite (bind_ok _ _ _ _ _ (lock_candidate_free s r W Hr Hfree)).
  rewrite (bind_ok _ _ _ _ _ (IH _ (insert_row_wf _ _ _ W (leased_row_wf _ _ Wr))
             (stored_insert _ _ _ _ Hj Hs) Hf)).
  simpl js_jobs. rewrite (update_rows_cons _ _ _ _ r Hr) by done. done.
Qed.

Lemma bulk_rows_stored jobs tab :
  stored tab jobs ->
  bulk_rows ((fun j => (jb_timer_job_id j, j)) <$> (leased owner now lock_duration_ms <$> jobs))
    [("lock_owner", Some owner); ("lock_time", Some (pretty now));
     ("lock_expiration_time", Some (pretty (saturating_add now lock_duration_ms)))]%string tab
  = (length jobs, update_rows leased_row (jb_timer_job_id <$> jobs) tab).
Proof.
  revert tab. induction jobs as [|j jobs IH]; intros tab Hs; [by simpl; rewrite update_rows_nil|].
  apply stored_cons in Hs as ((r & Hr & <-) & Hj & Hs).
  cbn [fmap list_fmap bulk_rows]. change (jb_timer_job_id (leased _ _ _ _)) with (jb_timer_job_id (cas_data r)).
  rewrite Hr. change (mkCas _ _) with (leased_row r).
  rewrite IH by (by apply stored_insert). by rewrite (update_rows_cons _ _ _ _ r).
Qed.

Lemma lock_candidates_serialized_stored jobs s :
  js_closed s = false -> stored (js_jobs s) jobs ->
  lock_candidates_serialized owner now lock_duration_ms jobs s
  = (Ok (leased owner now lock_duration_ms <$> jobs),
     set_jobs (update_rows leased_row (jb_timer_job_id <$> jobs) (js_jobs s)) s).
Proof.
  intros Ho Hs. unfold lock_candidates_serialized, bulk_update_json_and_columns_by_ids, ensure_job_open.
  unfold mbind, stM_bind, get. rewrite Ho. cbv beta iota zeta. simpl (jget _ _).
  change (map ?f ?l) with (f <$> l). rewrite bulk_rows_stored by done.
  unfold modify, mret, stM_ret. cbv beta iota. by rewrite length_fmap, Nat.eqb_refl.
Qed.
End Leases.

(** ** Clearing leases *)
Definition unlocked_row (r : CasRow RuntimeTimerJobState) : CasRow RuntimeTimerJobState :=
  mkCas (without_lock (cas_data r)) (set_cells cleared (cas_cells r)).

Lemma unlocked_row_wf k r : job_row_wf k r -> job_row_wf k (unlocked_row r).
Proof.
  intros W. pose proof (jw_id _ _ W).
  split; unfold unlocked_row, set_cells, cleared; cbn [cas_data cas_cells fold_left]; [done|kept_cell W..].
  - by apply set_cell_text with (v := None).
  - by apply set_cell_int with (v := None).
  - by apply set_cell_int with (v := None).
Qed.

Lemma clear_step s r :
  jobs_wf s -> js_jobs s !! jb_timer_job_id (cas_data r) = Some r ->
  cas_update timer_job_states (jb_timer_job_id (cas_data r)) (without_lock (cas_data r)) cleared
    (lease_conditions (jb_lock_owner (cas_data r)) (cas_data r)) s
  = (Ok 1%nat, set_jobs (<[jb_timer_job_id (cas_data r) := unlocked_row r]> (js_jobs s)) s).
Proof.
  intros [Ho Hw] Hr. pose proof (Hw _ _ Hr) as W. unfold cas_update, ensure_job_open, lease_conditions.
  unfold mbind, stM_bind, get. rewrite Ho. simpl (jget _ _). rewrite Hr. cbn [forallb].
  rewrite (text_cell_holds _ "lock_owner" _ eq_refl (jw_owner _ _ W)).
  rewrite (int_cell_holds _ "lock_time" _ eq_refl (jw_time _ _ W)).
  rewrite (int_cell_holds _ "lock_expiration_time" _ eq_refl (jw_expiration _ _ W)).
  by rewrite (text_cell_holds _ "job_state" _ eq_refl (jw_state _ _ W)).
Qed.

Lemma reset_candidates_stored jobs s :
  jobs_wf s -> stored (js_jobs s) jobs ->
  reset_candidates jobs s
  = (Ok (length jobs, 0%nat), set_jobs (update_rows unlocked_row (jb_timer_job_id <$> jobs) (js_jobs s)) s).
Proof.
  revert s. induction jobs as [|j jobs IH]; intros s W Hs.
  { simpl. rewrite update_rows_nil. by destruct s. }
  apply stored_cons in Hs as ((r & Hr & <-) & Hj & Hs).
  pose proof (jobs_rows _ W _ _ Hr) as Wr.
  cbn [reset_candidates]. rewrite (bind_ok _ _ _ _ _ (clear_step s r W Hr)).
  rewrite (bind_ok _ _ _ _ _ (IH _ (insert_row_wf _ _ _ W (unlocked_row_wf _ _ Wr))
             (stored_insert _ _ _ _ Hj Hs))).
  simpl js_jobs. rewrite (update_rows_cons _ _ _ _ r Hr) by done. done.
Qed.

(** ** Selecting *)
Definition tenant_ok (s : JobSession) (tenant_filter : Filter) (job : RuntimeTimerJobState) : bool :=
  match tenant_filter with
  | None | Some [] => true
  | Some filter =>
      existsb (String.eqb (default EmptyString (js_instances s !! jb_process_instance_id job ≫= pi_tenant_id)))
        filter
  end.

Lemma retain_tenants_open s tf jobs :
  js_closed s = false -> retain_tenants tf jobs s = (Ok (List.filter (tenant_ok s tf) jobs), s).
Proof.
  intros Ho. induction jobs as [|j jobs IH]; [done|]. cbn [retain_tenants List.filter].
  assert (Hj : job_matches_tenant_filter j tf s = (Ok (tenant_ok s tf j), s)).
  { unfold job_matches_tenant_filter, tenant_ok, find_process_instance, ensure_job_open.
    destruct tf as [[|t tf]|]; [done| |done]. unfold mbind, stM_bind, get. by rewrite Ho. }
  rewrite (bind_ok _ _ _ _ _ Hj), (bind_ok _ _ _ _ _ IH). by destruct (tenant_ok s tf j).
Qed.

Lemma retain_tenants_if_open s tf jobs :
  js_closed s = false -> retain_tenants_if tf jobs s = (Ok (List.filter (tenant_ok s tf) jobs), s).
Proof.
  intros Ho. unfold retain_tenants_if. destruct (has_filter tf) eqn:E; [by apply retain_tenants_open|].
  assert (Ht : List.filter (tenant_ok s tf) jobs = jobs); [|by rewrite Ht].
  destruct tf as [[|t tf]|]; [|done|]; induction jobs as [|j jobs IH]; simpl; congruence.
Qed.

Definition category_ok (category_filter : Filter) (job : RuntimeTimerJobState) : bool :=
  negb (has_filter category_filter) || category_matches category_filter job.

Lemma retain_categories_filter cf jobs :
  retain_categories (has_filter cf) cf jobs = List.filter (category_ok cf) jobs.
Proof.
  unfold retain_categories, category_ok. destruct (has_filter cf); simpl; [done|].
  induction jobs; simpl; congruence.
Qed.

Section Rows.
Context `{SqlOrder}.

(** The jobs of a query, as the table holds them. *)
Definition query (filters : list (string * FilterOp)) (order : string) (limit : option nat)
  (tab : gmap string (CasRow RuntimeTimerJobState)) : list RuntimeTimerJobState :=
  map (fun kr => cas_data kr.2) (select_rows filters order limit tab).

Lemma find_open filters order limit s :
  js_closed s = false ->
  find_with_filters timer_job_states filters order limit s = (Ok (query filters order limit (js_jobs s)), s).
Proof.
  intros Ho. unfold find_with_filters, ensure_job_open, mbind, stM_bind, get. by rewrite Ho.
Qed.

Lemma limited_sublist {A} limit (l : list A) : sublist (limited limit l) l.
Proof. destruct limit; [apply sublist_take|done]. Qed.

Lemma select_rows_sub filters order limit (tab : gmap string (CasRow RuntimeTimerJobState)) :
  exists l, sublist (select_rows filters order limit tab) l
    /\ Permutation l (List.filter (fun kr => forallb (filter_holds (cas_cells kr.2)) filters) (map_to_list tab)).
Proof. eexists. split; [apply limited_sublist|]. by rewrite <- sql_order_permutation. Qed.

Lemma query_stored filters order limit tab : table_wf tab -> stored tab (query filters order limit tab).
Proof.
  intros W. destruct (select_rows_sub filters order limit tab) as (l & Hl & Hp). unfold query.
  eapply stored_sublist; [by apply fmap_sublist|].
  eapply stored_permutation; [by apply Permutation_map|].
  assert (Hall : stored tab (map (fun kr => cas_data kr.2) (map_to_list tab))).
  { assert (Hk : forall kr, kr ∈ map_to_list tab -> jb_timer_job_id (cas_data kr.2) = kr.1 /\ tab !! kr.1 = Some kr.2).
    { intros [k r] Hkr%elem_of_map_to_list. split; [by apply W|done]. }
    split.
    - change (map ?f ?x) with (f <$> x). rewrite <- list_fmap_compose.
      rewrite (list_fmap_ext _ fst); [apply NoDup_fst_map_to_list|].
      intros i kr Hi. apply Hk. by eapply list_elem_of_lookup_2.
    - apply Forall_forall. intros j (kr & -> & Hkr)%list_elem_of_fmap.
      destruct (Hk _ Hkr) as [-> E]. eauto. }
  eapply stored_sublist; [|exact Hall]. apply fmap_sublist, filter_sublist.
Qed.

Lemma query_holds filters order limit tab j :
  j ∈ query filters order limit tab ->
  exists k r, tab !! k = Some r /\ cas_data r = j /\ forallb (filter_holds (cas_cells r)) filters = true.
Proof.
  destruct (select_rows_sub filters order limit tab) as (l & Hl & Hp).
  intros ([k r] & -> & Hkr)%list_elem_of_fmap. eapply elem_of_sublist in Hkr; [|done].
  rewrite Hp in Hkr. apply list_elem_of_In, filter_In in Hkr as [Hkr Hf].
  apply list_elem_of_In, elem_of_map_to_list in Hkr. eauto.
Qed.

(** The rows the limit does not cut. *)
Definition fits (filters : list (string * FilterOp)) (limit : option nat)
  (tab : gmap string (CasRow RuntimeTimerJobState)) : Prop :=
  match limit with
  | Some n => (length (List.filter (fun kr => forallb (filter_holds (cas_cells kr.2)) filters) (map_to_list tab)) <= n)%nat
  | None => True
  end.

Lemma query_complete filters order limit tab k r :
  fits filters limit tab -> tab !! k = Some r -> forallb (filter_holds (cas_cells r)) filters = true ->
  cas_data r ∈ query filters order limit tab.
Proof.
  intros Hfit Hr Hf. apply list_elem_of_fmap. exists (k, r). split; [done|]. unfold select_rows.
  assert (Hin : (k, r) ∈ sql_order _ (fun a b => cell_leb (column_of order a) (column_of order b))
    (List.filter (fun kr => forallb (filter_holds (cas_cells kr.2)) filters) (map_to_list tab))).
  { rewrite <- sql_order_permutation. apply list_elem_of_In, filter_In. split; [|done].
    by apply list_elem_of_In, elem_of_map_to_list. }
  destruct limit as [n|]; [|done]. simpl in *. rewrite take_ge; [done|].
  by rewrite <- (Permutation_length (sql_order_permutation _ _ _)).
Qed.
End Rows.

(** The column filters, read off the job. *)
Definition state_in (states : list string) (job : RuntimeTimerJobState) : bool :=
  match jb_job_state job with Some state => existsb (String.eqb state) states | None => false end.

Definition due_job (states : list string) (now : Z) (job : RuntimeTimerJobState) : bool :=
  match jb_due_time job with Some due => due <=? now | None => false end
  && (state_in states job
      && match jb_retries job with Some retries => 0 <? retries | None => false end).

Definition expired_job (job_class : ExpiredJobClass) (now : Z) (job : RuntimeTimerJobState) : bool :=
  match jb_lock_expiration_time job with Some expires => expires <? now | None => false end
  && state_in (class_job_states job_class) job.

Lemma due_filters_hold states now k r :
  job_row_wf k r -> forallb (filter_holds (cas_cells r)) (due_filters states now) = due_job states now (cas_data r).
Proof.
  intros W. unfold due_job, state_in, due_filters. cbn [forallb filter_holds fst snd].
  rewrite (proj1 (jw_due _ _ W)), (proj1 (jw_state _ _ W)), (proj1 (jw_retries _ _ W)).
  destruct (jb_due_time _), (jb_job_state _), (jb_retries _); simpl; by rewrite ?andb_true_r, ?andb_false_r.
Qed.

Lemma expired_filters_hold c now k r :
  job_row_wf k r -> forallb (filter_holds (cas_cells r)) (expired_filters c now) = expired_job c now (cas_data r).
Proof.
  intros W. unfold expired_job, state_in, expired_filters. cbn [forallb filter_holds fst snd].
  rewrite (proj1 (jw_expiration _ _ W)), (proj1 (jw_state _ _ W)).
  destruct (jb_lock_expiration_time _), (jb_job_state _); simpl; by rewrite ?andb_true_r, ?andb_false_r.
Qed.

Lemma due_leb_total a b : due_leb a b = true \/ due_leb b a = true.
Proof. destruct a as [x|], b as [y|]; simpl; auto. destruct (Z.leb_spec x y); [auto|right; lia]. Qed.

Lemma due_leb_trans a b c : due_leb a b = true -> due_leb b c = true -> due_leb a c = true.
Proof. destruct a as [x|], b as [y|], c as [z|]; simpl; try done. lia. Qed.

Lemma job_leb_total a b : job_leb a b = true \/ job_leb b a = true.
Proof.
  unfold job_leb. destruct (due_leb_total (jb_due_time a) (jb_due_time b)) as [->| ->];
    destruct (due_leb _ _); auto using string_leb_total.
Qed.

Lemma job_leb_trans a b c : job_leb a b = true -> job_leb b c = true -> job_leb a c = true.
Proof.
  unfold job_leb.
  destruct (due_leb (jb_due_time a) (jb_due_time b)) eqn:Eab; [|done].
  destruct (due_leb (jb_due_time b) (jb_due_time c)) eqn:Ebc; [|by destruct (due_leb _ _)].
  rewrite (due_leb_trans _ _ _ Eab Ebc). intros H1 H2.
  destruct (due_leb (jb_due_time c) (jb_due_time a)) eqn:Eca; [|done].
  rewrite (due_leb_trans _ _ _ Ebc Eca) in H1. rewrite (due_leb_trans _ _ _ Eca Eab) in H2.
  by eapply string_leb_trans.
Qed.

(** The first [n] of a list in order come before the others. *)
Lemma take_order_by {A} (leb : A -> A -> bool)
  (total : forall a b, leb a b = true \/ leb b a = true)
  (trans : forall a b c, leb a b = true -> leb b c = true -> leb a c = true) n l a :
  a ∈ l -> a ∈ take n (order_by leb l)
           \/ (length (take n (order_by leb l)) = n
               /\ Forall (fun b => leb b a = true) (take n (order_by leb l))).
Proof.
  intros Ha. pose proof (order_by_in_order leb total trans l) as Ho.
  rewrite (order_by_permutation leb l) in Ha.
  rewrite <- (take_drop n (order_by leb l)) in Ha, Ho.
  apply elem_of_app in Ha as [Ha|Ha]; [by left|right]. split.
  - rewrite length_take. destruct (decide (n <= length (order_by leb l))%nat); [lia|].
    rewrite drop_ge in Ha by lia. by apply elem_of_nil in Ha.
  - apply Forall_forall. intros b Hb. by eapply (StronglySorted_app_1_elem_of (fun a b => leb a b = true)).
Qed.

Section Acquire.
Context `{SqlOrder} (job_states : list string) (now : Z) (max_jobs : nat)
  (selected_job_ids tenant_filter category_filter : Filter).

(** What acquisition may take. *)
Definition eligible (s : JobSession) (job : RuntimeTimerJobState) : bool :=
  due_job job_states now job && selected selected_job_ids job && unlocked job
  && tenant_ok s tenant_filter job && category_ok category_filter job.

Definition query_limit : option nat :=
  match selected_job_ids with
  | Some _ => None
  | None =>
      let m := if has_filter tenant_filter || has_filter category_filter then 4%nat else 2%nat in
      Some (Nat.max (max_jobs * m) max_jobs)
  end.

Definition found (s : JobSession) : list RuntimeTimerJobState :=
  query (due_filters job_states now) "due_time" query_limit (js_jobs s).

Definition chosen (s : JobSession) : list RuntimeTimerJobState :=
  take max_jobs (order_by job_leb
    (List.filter (fun j => selected selected_job_ids j
                           && (unlocked j && (tenant_ok s tenant_filter j && category_ok category_filter j)))
       (found s))).

Lemma due_candidates_chosen s :
  js_closed s = false ->
  due_candidates job_states now max_jobs selected_job_ids tenant_filter category_filter s = (Ok (chosen s), s).
Proof.
  intros Ho. unfold due_candidates. cbv zeta.
  rewrite (bind_ok _ _ _ _ _ (find_open _ _ _ _ Ho)), (bind_ok _ _ _ _ _ (retain_tenants_if_open _ _ _ Ho)).
  rewrite retain_categories_filter, !filter_filter. done.
Qed.

Lemma chosen_stored s : jobs_wf s -> stored (js_jobs s) (chosen s).
Proof.
  intros W. unfold chosen. eapply stored_sublist; [apply sublist_take|].
  eapply stored_permutation; [symmetry; apply order_by_permutation|].
  eapply stored_sublist; [apply filter_sublist|]. apply query_stored, W.
Qed.

Lemma chosen_eligible s : jobs_wf s -> Forall (fun j => eligible s j = true) (chosen s).
Proof.
  intros W. apply Forall_forall. intros j Hj. unfold chosen in Hj.
  eapply elem_of_sublist in Hj; [|apply sublist_take].
  rewrite <- order_by_permutation in Hj. apply list_elem_of_In, filter_In in Hj as [Hj Hp].
  apply list_elem_of_In, query_holds in Hj as (k & r & Hr & <- & Hf).
  rewrite (due_filters_hold _ _ _ _ (jobs_rows _ W _ _ Hr)) in Hf.
  unfold eligible. by rewrite Hf, <- !andb_assoc.
Qed.

Lemma chosen_free s : jobs_wf s -> Forall (fun j => jb_lock_owner j = None) (chosen s).
Proof.
  intros W. eapply Forall_impl; [by apply chosen_eligible|]. intros j. simpl. unfold eligible, unlocked.
  destruct (jb_lock_owner j); [|done]. by rewrite andb_false_r.
Qed.

Lemma chosen_in_order s : in_order job_leb (chosen s).
Proof.
  unfold chosen. eapply StronglySorted_app_1_l. rewrite take_drop.
  apply order_by_in_order; [apply job_leb_total|apply job_leb_trans].
Qed.

Lemma chosen_complete s r :
  jobs_wf s -> fits (due_filters job_states now) query_limit (js_jobs s) ->
  js_jobs s !! jb_timer_job_id (cas_data r) = Some r -> eligible s (cas_data r) = true ->
  cas_data r ∈ chosen s
  \/ (length (chosen s) = max_jobs /\ Forall (fun j => job_leb j (cas_data r) = true) (chosen s)).
Proof.
  intros W Hfit Hr He. unfold eligible in He. rewrite <- !andb_assoc in He. apply andb_true_iff in He as [Hd He].
  apply take_order_by; [apply job_leb_total|apply job_leb_trans|].
  apply list_elem_of_In, filter_In. split; [|done]. apply list_elem_of_In.
  eapply query_complete; [done|done|]. by rewrite (due_filters_hold _ _ _ _ (jobs_rows _ W _ _ Hr)).
Qed.

Context (owner : string) (lock_duration_ms : Z).

Definition acquired_session (s : JobSession) : JobSession :=
  set_jobs (update_rows (leased_row owner now lock_duration_ms) (jb_timer_job_id <$> chosen s) (js_jobs s)) s.

Lemma acquire_chosen policy s :
  jobs_wf s -> plain owner -> is_i64 now ->
  acquire_due_timer_jobs_by_states job_states owner now lock_duration_ms max_jobs selected_job_ids
    tenant_filter category_filter policy s
  = (Ok (leased owner now lock_duration_ms <$> chosen s, 0%nat, 0%nat), acquired_session s).
Proof.
  intros W Ho Hn. unfold acquire_due_timer_jobs_by_states.
  rewrite (bind_ok _ _ _ _ _ (due_candidates_chosen _ (jobs_open _ W))). destruct policy.
  - by rewrite (bind_ok _ _ _ _ _ (lock_candidates_free _ _ _ Ho Hn _ _ W (chosen_stored _ W) (chosen_free _ W))).
  - by rewrite (bind_ok _ _ _ _ _ (lock_candidates_serialized_stored _ _ _ _ _ (jobs_open _ W) (chosen_stored _ W))).
Qed.

(** C12: acquisition on a table whose columns agree with its jobs, by either
    write policy: no conflict is reported, the jobs returned are stored ones
    with the lease written in, each is due, free, with retries left, in one of
    the states, of the tenants and categories asked for; they come in order of
    due time and id, no job twice and at most [max_jobs]; in the table exactly
    their rows change, to the lease in record and columns; and columns and jobs
    agree afterwards. *)
Theorem acquire_correct policy s :
  jobs_wf s -> plain owner -> is_i64 now ->
  exists jobs s',
    acquire_due_timer_jobs_by_states job_states owner now lock_duration_ms max_jobs selected_job_ids
      tenant_filter category_filter policy s
    = (Ok (leased owner now lock_duration_ms <$> jobs, 0%nat, 0%nat), s')
    /\ stored (js_jobs s) jobs
    /\ Forall (fun j => eligible s j = true) jobs
    /\ in_order job_leb jobs
    /\ (length jobs <= max_jobs)%nat
    /\ s' = set_jobs (update_rows (leased_row owner now lock_duration_ms) (jb_timer_job_id <$> jobs)
                        (js_jobs s)) s
    /\ jobs_wf s'.
Proof.
  intros W Ho Hn. exists (chosen s), (acquired_session s). split_and!.
  - by apply acquire_chosen.
  - by apply chosen_stored.
  - by apply chosen_eligible.
  - apply chosen_in_order.
  - unfold chosen. rewrite length_take. lia.
  - done.
  - apply set_jobs_wf; [done|]. apply update_rows_wf; [apply W|]. intros. by apply leased_row_wf.
Qed.

(** The jobs acquisition may take are not passed over: when the rows that
    are due fit the query's buffer (always when the ids are given), every
    eligible stored job is returned with the owner's lease, unless [max_jobs]
    jobs were returned and all of them come before it. *)
Theorem acquire_complete policy s r :
  jobs_wf s -> plain owner -> is_i64 now ->
  fits (due_filters job_states now) query_limit (js_jobs s) ->
  js_jobs s !! jb_timer_job_id (cas_data r) = Some r -> eligible s (cas_data r) = true ->
  exists jobs s',
    acquire_due_timer_jobs_by_states job_states owner now lock_duration_ms max_jobs selected_job_ids
      tenant_filter category_filter policy s = (Ok (jobs, 0%nat, 0%nat), s')
    /\ (leased owner now lock_duration_ms (cas_data r) ∈ jobs
        \/ (length jobs = max_jobs /\ Forall (fun j => job_leb j (cas_data r) = true) jobs)).
Proof.
  intros W Ho Hn Hfit Hr He. do 2 eexists. split; [by apply acquire_chosen|].
  destruct (chosen_complete s r W Hfit Hr He) as [Hin|[Hl Hb]]; [left; by apply list_elem_of_fmap_2|right].
  split; [by rewrite length_fmap|]. apply Forall_fmap. eapply Forall_impl; [exact Hb|]. done.
Qed.
End Acquire.

(** ** The reset *)
Section ResetProof.
Context `{SqlOrder} (now : Z) (job_class : ExpiredJobClass) (page_size : nat)
  (tenant_filter category_filter : Filter).

Definition reset_limit : nat :=
  if has_filter tenant_filter || (class_has_categories job_class && has_filter category_filter)
  then Nat.max (page_size * 8) page_size else page_size.

Definition resettable (s : JobSession) (job : RuntimeTimerJobState) : bool :=
  tenant_ok s tenant_filter job
  && (negb (class_has_categories job_class) || category_ok category_filter job).

Definition expired_chosen (s : JobSession) : list RuntimeTimerJobState :=
  take page_size (order_by id_leb
    (List.filter (resettable s) (query (expired_filters job_class now) "id" (Some reset_limit) (js_jobs s)))).

Lemma find_expired_chosen s :
  js_closed s = false ->
  find_expired_job_lock_candidates now job_class page_size tenant_filter category_filter s
  = (Ok (expired_chosen s), s).
Proof.
  intros Ho. unfold find_expired_job_lock_candidates. cbv zeta.
  rewrite (bind_ok _ _ _ _ _ (find_open _ _ _ _ Ho)), (bind_ok _ _ _ _ _ (retain_tenants_if_open _ _ _ Ho)).
  unfold expired_chosen, reset_limit, resettable, mret, stM_ret.
  destruct (class_has_categories job_class); cbn [andb negb orb].
  - by rewrite retain_categories_filter, filter_filter.
  - repeat f_equal. simpl. apply List.filter_ext. intros j. by rewrite andb_true_r.
Qed.

Lemma expired_chosen_stored s : jobs_wf s -> stored (js_jobs s) (expired_chosen s).
Proof.
  intros W. unfold expired_chosen. eapply stored_sublist; [apply sublist_take|].
  eapply stored_permutation; [symmetry; apply order_by_permutation|].
  eapply stored_sublist; [apply filter_sublist|]. apply query_stored, W.
Qed.

Lemma expired_chosen_expired s :
  jobs_wf s -> Forall (fun j => expired_job job_class now j = true /\ resettable s j = true) (expired_chosen s).
Proof.
  intros W. apply Forall_forall. intros j Hj. unfold expired_chosen in Hj.
  eapply elem_of_sublist in Hj; [|apply sublist_take].
  rewrite <- order_by_permutation in Hj. apply list_elem_of_In, filter_In in Hj as [Hj Hp].
  apply list_elem_of_In, query_holds in Hj as (k & r & Hr & <- & Hf).
  by rewrite (expired_filters_hold _ _ _ _ (jobs_rows _ W _ _ Hr)) in Hf.
Qed.

Definition reset_session (s : JobSession) : JobSession :=
  set_jobs (update_rows unlocked_row (jb_timer_job_id <$> expired_chosen s) (js_jobs s)) s.

Lemma reset_batch_chosen s :
  jobs_wf s ->
  reset_expired_job_locks_batch now job_class page_size tenant_filter category_filter s
  = (Ok (mkResetOutcome (length (expired_chosen s)) (length (expired_chosen s)) 0), reset_session s).
Proof.
  intros W. unfold reset_expired_job_locks_batch, compare_and_reset_expired_job_locks.
  rewrite (bind_ok _ _ _ _ _ (find_expired_chosen _ (jobs_open _ W))).
  by rewrite (bind_ok _ _ _ _ _ (reset_candidates_stored _ _ W (expired_chosen_stored _ W))).
Qed.

Lemma reset_session_wf s : jobs_wf s -> jobs_wf (reset_session s).
Proof. intros W. apply set_jobs_wf; [done|]. apply update_rows_wf; [apply W|apply unlocked_row_wf]. Qed.
End ResetProof.

Close Scope Z_scope.
