(* ===== verification/JobReset.v ===== *)
(** * The reset cycle

    [engine/reset_expired_jobs.rs]: for every configured class, batches until one
    scans no row.  Each batch is a command of its own and reads the clock, so the
    [k]-th batch of a cycle runs at [clock k].  A [loop] of the source has fuel;
    running out of it is [None].

    The cycle ends whatever the clock does: a batch that scans a row clears its
    lease, so fuel above the number of leases is enough, and without tenant and
    category filters no lease of the classes that had expired when the cycle began is
    left. *)
From stdpp Require Import pretty.
From Stdlib Require Import Sorting.Sorted.
From S2P Require Import Prelude Chars Float64 Numerals Json Errors Execution Store JobTypes JobLocks JobLocksProof.

Open Scope Z_scope.

Record ResetExpiredJobsConfig := mkResetConfig {
  rc_page_size : nat;
  rc_job_classes : list ExpiredJobClass;
  rc_tenant_ids : list string;
  rc_enabled_job_categories : list string
}.

Section Cycle.
Context (fuel : nat) (config : ResetExpiredJobsConfig)
  (reset_batch : nat -> ExpiredJobClass -> nat -> JM ResetExpiredJobsBatchOutcome).

(** The inner loop: the next batch number and the total. *)
Fixpoint drain (f : nat) (job_class : ExpiredJobClass) (k total : nat) : JM (option (nat * nat)) :=
  match f with
  | O => mret None
  | S f =>
      outcome ← reset_batch k job_class (rc_page_size config);
      let total := (total + reset outcome)%nat in
      if (scanned outcome =? 0)%nat then mret (Some (S k, total)) else drain f job_class (S k) total
  end.

Fixpoint drain_classes (classes : list ExpiredJobClass) (k total : nat) : JM (option (nat * nat)) :=
  match classes with
  | [] => mret (Some (k, total))
  | job_class :: classes =>
      r ← drain fuel job_class k total;
      match r with
      | Some (k, total) => drain_classes classes k total
      | None => mret None
      end
  end.

Definition reset_cycle_with : JM (option nat) :=
  r ← drain_classes (rc_job_classes config) 0 0; mret (snd <$> r).
End Cycle.

(** [ResetExpiredJobsBatchCmd]. *)
Definition non_empty (l : list string) : Filter := match l with [] => None | _ => Some l end.

Definition reset_expired_jobs_batch_scoped `{SqlOrder} (now : Z) (job_class : ExpiredJobClass)
  (page_size : nat) (tenant_ids enabled_job_categories : list string) : JM ResetExpiredJobsBatchOutcome :=
  reset_expired_job_locks_batch now job_class page_size (non_empty tenant_ids) (non_empty enabled_job_categories).

Definition reset_cycle `{SqlOrder} (fuel : nat) (clock : nat -> Z) (config : ResetExpiredJobsConfig)
  : JM (option nat) :=
  reset_cycle_with fuel config (fun k job_class page_size =>
    reset_expired_jobs_batch_scoped (clock k) job_class page_size (rc_tenant_ids config)
      (rc_enabled_job_categories config)).

(** ** Leases *)
Notation JobRows := (gmap string (CasRow RuntimeTimerJobState)).

Definition has_lease (r : CasRow RuntimeTimerJobState) : bool :=
  bool_decide (is_Some (jb_lock_expiration_time (cas_data r))).

(** The ids of the rows with a lease. *)
Definition leases (tab : JobRows) : gset string := dom (filter (fun kr => has_lease kr.2 = true) tab).

Lemma elem_of_leases tab k : k ∈ leases tab <-> exists r, tab !! k = Some r /\ has_lease r = true.
Proof.
  unfold leases. rewrite elem_of_dom. split.
  - intros [r Hr]. apply map_lookup_filter_Some in Hr as [? ?]. eauto.
  - intros (r & Hr & Hl). exists r. by apply map_lookup_filter_Some.
Qed.

Lemma expired_has_lease c now r : expired_job c now (cas_data r) = true -> has_lease r = true.
Proof.
  unfold expired_job, has_lease. rewrite bool_decide_eq_true.
  destruct (jb_lock_expiration_time _); [by eexists|done].
Qed.

Lemma unlocked_row_no_lease r : has_lease (unlocked_row r) = false.
Proof. done. Qed.

Lemma unlocked_row_not_expired c now r : expired_job c now (cas_data (unlocked_row r)) = false.
Proof. done. Qed.

Lemma update_unlocked_leases ids tab :
  leases (update_rows unlocked_row ids tab) = leases tab ∖ list_to_set ids.
Proof.
  apply set_eq. intros k. rewrite elem_of_difference, elem_of_list_to_set, !elem_of_leases.
  rewrite update_rows_lookup. split.
  - intros (r & (r0 & Hr0 & ->)%fmap_Some & Hl). case_decide; [done|]. eauto.
  - intros ((r & -> & Hl) & Hk). simpl. rewrite decide_False by done. eauto.
Qed.

Section Batch.
Context `{SqlOrder} (now : Z) (job_class : ExpiredJobClass) (page_size : nat)
  (tenant_filter category_filter : Filter).
Notation batch := (expired_chosen now job_class page_size tenant_filter category_filter).
Notation after := (reset_session now job_class page_size tenant_filter category_filter).

Lemma batch_leased s j : jobs_wf s -> j ∈ batch s -> jb_timer_job_id j ∈ leases (js_jobs s).
Proof.
  intros W Hj. destruct (expired_chosen_stored now job_class page_size tenant_filter category_filter s W) as [_ Hs].
  rewrite Forall_forall in Hs. destruct (Hs _ Hj) as (r & Hr & <-).
  apply elem_of_leases. exists r. split; [done|].
  pose proof (expired_chosen_expired now job_class page_size tenant_filter category_filter s W) as He.
  rewrite Forall_forall in He. by eapply expired_has_lease, (He _ Hj).
Qed.

Lemma batch_shrinks s :
  jobs_wf s -> batch s <> [] -> (size (leases (js_jobs (after s))) < size (leases (js_jobs s)))%nat.
Proof.
  intros W Hb. unfold reset_session. simpl. rewrite update_unlocked_leases.
  destruct (batch s) as [|j l] eqn:E; [done|]. apply subset_size.
  assert (jb_timer_job_id j ∈ leases (js_jobs s)) by (apply batch_leased; [done|rewrite E; by left]).
  simpl. set_solver.
Qed.
End Batch.

(** Nothing expired is left out of an unfiltered page that came back empty. *)
Lemma empty_page_clean `{SqlOrder} now c page s k r :
  jobs_wf s -> (0 < page)%nat -> expired_chosen now c page None None s = [] ->
  js_jobs s !! k = Some r -> expired_job c now (cas_data r) = false.
Proof.
  intros W Hp He Hr. apply not_true_iff_false. intros Hx.
  assert (Hq : query (expired_filters c now) "id" (Some page) (js_jobs s) = []).
  { unfold expired_chosen, reset_limit in He. simpl in He. rewrite andb_false_r in He.
    assert (Hall : forall l, List.filter (resettable c None None s) l = l).
    { induction l as [|j l IH]; [done|]. simpl. rewrite IH. unfold resettable. simpl.
      by rewrite orb_true_r. }
    rewrite Hall in He. set (l := query _ _ _ _) in *.
    pose proof (Permutation_length (order_by_permutation id_leb l)) as Hl.
    destruct (order_by id_leb l) as [|j l']; [by apply nil_length_inv|]. destruct page; [lia|done]. }
  set (p := fun kr : string * CasRow RuntimeTimerJobState =>
              forallb (filter_holds (cas_cells kr.2)) (expired_filters c now)).
  set (leb := fun a b : string * CasRow RuntimeTimerJobState => cell_leb (column_of "id" a) (column_of "id" b)).
  assert (Hs : take page (sql_order _ leb (List.filter p (map_to_list (js_jobs s)))) = [])
    by (by apply map_eq_nil in Hq).
  assert (Hin : (k, r) ∈ sql_order _ leb (List.filter p (map_to_list (js_jobs s)))).
  { rewrite <- sql_order_permutation. apply list_elem_of_In, filter_In. split.
    - by apply list_elem_of_In, elem_of_map_to_list.
    - unfold p. by rewrite (expired_filters_hold _ _ _ _ (jobs_rows _ W _ _ Hr)). }
  destruct (sql_order _ _ _) as [|x l]; [by apply elem_of_nil in Hin|]. destruct page; [lia|done].
Qed.

(** [s'] is [s] with the leases of some rows cleared, each of a job [P]. *)
Definition recovered (P : RuntimeTimerJobState -> Prop) (s s' : JobSession) : Prop :=
  s' = set_jobs (js_jobs s') s
  /\ forall k, js_jobs s' !! k = js_jobs s !! k
               \/ exists r, js_jobs s !! k = Some r /\ P (cas_data r) /\ js_jobs s' !! k = Some (unlocked_row r).

Lemma recovered_refl P s : recovered P s s.
Proof. split; [by destruct s|auto]. Qed.

Lemma recovered_trans P s1 s2 s3 :
  (forall r, ~ P (cas_data (unlocked_row r))) -> recovered P s1 s2 -> recovered P s2 s3 -> recovered P s1 s3.
Proof.
  intros HP [E2 H2] [E3 H3]. split; [by rewrite E3, E2|]. intros k.
  destruct (H3 k) as [->|(r & Hr & Hp & H)]; [apply H2|].
  destruct (H2 k) as [Hk|(r0 & Hr0 & Hp0 & Hk)].
  - right. exists r. by rewrite <- Hk.
  - rewrite Hk in Hr. injection Hr as <-. by apply HP in Hp.
Qed.

Definition clean (c : ExpiredJobClass) (now : Z) (s : JobSession) : Prop :=
  forall k r, js_jobs s !! k = Some r -> expired_job c now (cas_data r) = false.

Lemma clean_recovered P c now s s' : recovered P s s' -> clean c now s -> clean c now s'.
Proof.
  intros [_ H] Hc k r Hr. destruct (H k) as [E|(r0 & Hr0 & _ & E)].
  - apply (Hc k). congruence.
  - assert (r = unlocked_row r0) as -> by congruence. done.
Qed.

Lemma clean_earlier c now now' s : now' <= now -> clean c now s -> clean c now' s.
Proof.
  intros Hle Hc k r Hr. specialize (Hc k r Hr). unfold expired_job in *.
  destruct (jb_lock_expiration_time _) as [x|]; [|done].
  apply andb_false_iff in Hc as [Hc|Hc]; [|by rewrite Hc, andb_false_r].
  by rewrite (proj2 (Z.ltb_ge x now')) by lia.
Qed.

Section CycleProof.
Context `{SqlOrder} (clock : nat -> Z) (config : ResetExpiredJobsConfig).
Context (Hclock : forall i j, (i <= j)%nat -> clock i <= clock j).

(** A job whose lease some batch of the cycle finds expired. *)
Definition expired_in_cycle (j : RuntimeTimerJobState) : Prop :=
  exists i c, c ∈ rc_job_classes config /\ expired_job c (clock i) j = true.

Definition unscoped : Prop :=
  (0 < rc_page_size config)%nat /\ rc_tenant_ids config = [] /\ rc_enabled_job_categories config = [].

Notation batch k c := (reset_expired_jobs_batch_scoped (clock k) c (rc_page_size config)
  (rc_tenant_ids config) (rc_enabled_job_categories config)).
Notation rb := (fun k job_class page_size =>
  reset_expired_jobs_batch_scoped (clock k) job_class page_size (rc_tenant_ids config)
    (rc_enabled_job_categories config)).

Lemma expired_in_cycle_cleared r : ~ expired_in_cycle (cas_data (unlocked_row r)).
Proof. by intros (i & c & _ & E). Qed.

Lemma batch_recovered k c s :
  c ∈ rc_job_classes config -> jobs_wf s ->
  recovered expired_in_cycle s
    (reset_session (clock k) c (rc_page_size config) (non_empty (rc_tenant_ids config))
       (non_empty (rc_enabled_job_categories config)) s).
Proof.
  intros Hc W. split; [done|]. intros i. simpl. rewrite update_rows_lookup.
  destruct (js_jobs s !! i) as [r|] eqn:Hr; simpl; [|auto].
  destruct (decide (i ∈ _)) as [(j & -> & Hj)%list_elem_of_fmap|]; [|auto]. right. exists r. split_and!; [done| |done].
  epose proof (expired_chosen_stored _ _ _ _ _ s W) as [_ Hs].
  rewrite Forall_forall in Hs. destruct (Hs _ Hj) as (r' & Hr' & E).
  assert (r' = r) as -> by congruence. exists k, c. split; [done|].
  epose proof (expired_chosen_expired _ _ _ _ _ s W) as He. rewrite Forall_forall in He.
  rewrite E. by apply (He _ Hj).
Qed.

Lemma drain_ends f c k total s :
  c ∈ rc_job_classes config -> jobs_wf s -> (size (leases (js_jobs s)) < f)%nat ->
  exists k' total' s',
    drain config rb f c k total s = (Ok (Some (k', total')), s')
    /\ jobs_wf s' /\ recovered expired_in_cycle s s'
    /\ (size (leases (js_jobs s')) <= size (leases (js_jobs s)))%nat /\ (k < k')%nat
    /\ (unscoped -> clean c (clock k) s').
Proof.
  intros Hc. revert k total s. induction f as [|f IH]; intros k total s W Hf; [lia|].
  cbn [drain]. erewrite bind_ok by (by apply reset_batch_chosen). cbn [scanned reset].
  pose proof (batch_recovered k c s Hc W) as Hr.
  pose proof (reset_session_wf (clock k) c (rc_page_size config) (non_empty (rc_tenant_ids config))
    (non_empty (rc_enabled_job_categories config)) s W) as W'.
  destruct (length _ =? 0)%nat eqn:E.
  - apply Nat.eqb_eq, nil_length_inv in E. do 3 eexists. split; [done|]. split_and!; [done|done| |lia|].
    + unfold reset_session. simpl. rewrite E. simpl. by rewrite update_rows_nil.
    + intros (Hp & Ht & Hcat). apply (clean_recovered _ _ _ _ _ Hr).
      intros i r Hi. rewrite Ht, Hcat in E. eapply empty_page_clean; [exact W|exact Hp|exact E|exact Hi].
  - apply Nat.eqb_neq in E.
    pose proof (batch_shrinks (clock k) c (rc_page_size config) _ _ s W ltac:(by intros Hnil; rewrite Hnil in E)) as Hlt.
    destruct (IH (S k) (total + length (expired_chosen (clock k) c (rc_page_size config)
        (non_empty (rc_tenant_ids config)) (non_empty (rc_enabled_job_categories config)) s))%nat _ W' ltac:(lia))
      as (k' & t' & s' & -> & W'' & Hr' & Hl & Hk & Hcl).
    do 3 eexists. split; [done|]. split_and!; [done| |lia|lia|].
    + eapply recovered_trans; [apply expired_in_cycle_cleared|done|done].
    + intros Hu. eapply clean_earlier; [|by apply Hcl]. apply Hclock. lia.
Qed.

Lemma drain_classes_end fuel classes k total s :
  (forall c, c ∈ classes -> c ∈ rc_job_classes config) -> jobs_wf s ->
  (size (leases (js_jobs s)) < fuel)%nat ->
  exists k' total' s',
    drain_classes fuel config rb classes k total s = (Ok (Some (k', total')), s')
    /\ jobs_wf s' /\ recovered expired_in_cycle s s'
    /\ (unscoped -> forall c, c ∈ classes -> clean c (clock 0) s').
Proof.
  revert k total s. induction classes as [|c classes IH]; intros k total s Hin W Hf.
  { do 3 eexists. split; [done|]. split_and!; [done|apply recovered_refl|by intros _ c ?%elem_of_nil]. }
  cbn [drain_classes].
  destruct (drain_ends fuel c k total s (Hin c ltac:(by left)) W Hf) as (k1 & t1 & s1 & E1 & W1 & R1 & L1 & _ & C1).
  rewrite (bind_ok _ _ _ _ _ E1).
  destruct (IH k1 t1 s1 ltac:(intros; apply Hin; by right) W1 ltac:(lia)) as (k2 & t2 & s2 & E2 & W2 & R2 & C2).
  do 3 eexists. split; [done|]. split_and!; [done| |].
  - eapply recovered_trans; [apply expired_in_cycle_cleared|done|done].
  - intros Hu c' [->|Hc']%elem_of_cons; [|by apply C2].
    apply (clean_recovered _ _ _ _ _ R2). eapply clean_earlier; [|by apply C1]. apply Hclock. lia.
Qed.

(** C14: the reset cycle ends and recovers expired leases.  The clock is read once per
    batch and does not go back from one reading to the next; columns and jobs of the
    table agree; and the fuel is above the number of leases in the table.  Then the
    cycle ends without error; it changes nothing but the leases it clears, each of a
    job of a configured class whose lease had expired by a reading of the cycle;
    columns and jobs still agree; and with a page of at least one row and no tenant
    or category filter, no job of a configured class is left with a lease that had
    expired by the first reading of the cycle.  No other transaction writes the table
    during the cycle. *)
Theorem reset_cycle_recovers fuel s :
  jobs_wf s -> (size (leases (js_jobs s)) < fuel)%nat ->
  exists total s',
    reset_cycle fuel clock config s = (Ok (Some total), s')
    /\ jobs_wf s' /\ recovered expired_in_cycle s s'
    /\ (unscoped -> forall c, c ∈ rc_job_classes config -> clean c (clock 0) s').
Proof.
  intros W Hf. unfold reset_cycle, reset_cycle_with.
  destruct (drain_classes_end fuel (rc_job_classes config) 0 0 s ltac:(done) W Hf) as (k & t & s' & E & W' & R & C).
  exists t, s'. rewrite (bind_ok _ _ _ _ _ E). done.
Qed.
End CycleProof.

Close Scope Z_scope.
