(* ===== verification/JobStore.v ===== *)
(** * Storing jobs, and external workers

    [insert_timer_job_state] and its defaults, the job type column, and the
    operations an external worker uses: fetch and lock, and the replacement of a
    job it still holds.  The identifier a new job receives from [Uuid::new_v4]
    and the clock are arguments. *)
From stdpp Require Import pretty.
From S2P Require Import Prelude Chars Float64 Numerals Json Errors Execution Store JobTypes JobLocks JobLocksProof.

Open Scope Z_scope.

Definition ASYNC_CONTINUATION_MARKER : string := "__flowable_async_continuation".
Definition ASYNC_AFTER_MARKER : string := "__flowable_async_after".

Definition infer_handler_type (job : RuntimeTimerJobState) : string :=
  if bool_decide (jb_time_duration job = Some ASYNC_CONTINUATION_MARKER) then "async-continuation"
  else if bool_decide (jb_time_duration job = Some ASYNC_AFTER_MARKER) then "async-after"
  else
    match jb_job_state job with
    | Some state =>
        if existsb (String.eqb state) ["async"; "async-after"; "history"; "suspended"; "deadletter"]%string
        then state else "timer"
    | None => "timer"
    end.

Definition find_timer_job_state (id : string) : JM (option RuntimeTimerJobState) :=
  job_find_or_note timer_job_states id.

(** The [job_type] column, [None] when the row or the cell is absent. *)
Definition find_timer_job_type (id : string) : JM (option RuntimeJobType) :=
  fun s =>
    if js_closed s then (Ok None, note_job_error ClosedTransaction s)
    else (Ok (job_type_from_persisted ∘ column_text <$>
                (js_jobs s !! id ≫= fun r => cas_cells r !! "job_type"%string)), s).

Definition find_job_execution (id : string) : JM (option Execution) :=
  fun s => if js_closed s then (Ok None, note_job_error ClosedTransaction s)
           else (Ok (js_executions s !! id), s).

(** Tenant, process definition and element name read from the execution, then
    tenant and process definition from the instance. *)
Definition denormalized (state : RuntimeTimerJobState) : JM (option string * option string * option string) :=
  let missing (t d : option string) := negb (bool_decide (is_Some t)) || negb (bool_decide (is_Some d)) in
  let tenant := jb_tenant_id state in
  let definition := jb_process_definition_id state in
  if missing tenant definition then
    execution ← find_job_execution (jb_execution_id state);
    let '(tenant, definition, element) :=
      match execution with
      | Some e =>
          (or_else tenant (ex_tenant_id e), or_else definition (ex_process_definition_id e),
           if bool_decide (ex_activity_id e = Some (jb_activity_id state)) then ex_activity_name e
           else None)
      | None => (tenant, definition, None)
      end in
    if missing tenant definition && negb (String.eqb (jb_process_instance_id state) EmptyString) then
      instance ← find_process_instance (jb_process_instance_id state);
      match instance with
      | Some i => mret (or_else tenant (pi_tenant_id i),
                        or_else definition (Some (pi_process_definition_id i)), element)
      | None => mret (tenant, definition, element)
      end
    else mret (tenant, definition, element)
  else mret (tenant, definition, None).

Definition opt_text (v : option string) : option DbValue := DbText <$> v.
Definition opt_i64 (v : option Z) : option DbValue := DbInteger <$> v.

Definition job_columns (state : RuntimeTimerJobState) (job_type : option RuntimeJobType)
  : list (string * option DbValue) :=
  [("process_instance_id", Some (DbText (jb_process_instance_id state)));
   ("execution_id", Some (DbText (jb_execution_id state)));
   ("activity_id", Some (DbText (jb_activity_id state)));
   ("lock_owner", opt_text (jb_lock_owner state)); ("lock_time", opt_i64 (jb_lock_time state));
   ("lock_expiration_time", opt_i64 (jb_lock_expiration_time state));
   ("retries", opt_i64 (jb_retries state)); ("error_message", opt_text (jb_error_message state));
   ("error_details", opt_text (jb_error_details state)); ("due_time", opt_i64 (jb_due_time state));
   ("job_state", opt_text (jb_job_state state));
   ("job_type", DbText ∘ job_type_as_str <$> job_type);
   ("create_time", opt_i64 (jb_create_time state));
   ("correlation_id", opt_text (jb_correlation_id state));
   ("handler_type", opt_text (jb_handler_type state)); ("tenant_id", opt_text (jb_tenant_id state));
   ("process_definition_id", opt_text (jb_process_definition_id state));
   ("element_name", opt_text (jb_element_name state)); ("category", opt_text (jb_category state));
   ("scope_id", opt_text (jb_scope_id state)); ("sub_scope_id", opt_text (jb_sub_scope_id state));
   ("scope_type", opt_text (jb_scope_type state));
   ("scope_definition_id", opt_text (jb_scope_definition_id state))]%string.

Definition insert_timer_job_state_with_type (now : Z) (uuid : string) (state : RuntimeTimerJobState)
  (job_type : option RuntimeJobType) : JM unit :=
  existing ← find_timer_job_state (jb_timer_job_id state);
  let state := match existing with Some e => copy_job_query_metadata e state | None => state end in
  d ← denormalized state;
  let '(tenant, definition, element) := d in
  let state := with_defaults now uuid (infer_handler_type state) tenant definition element state in
  insert_with_typed_extra timer_job_states (jb_timer_job_id state) state (job_columns state job_type).

Definition insert_timer_job_state (now : Z) (uuid : string) (state : RuntimeTimerJobState) : JM unit :=
  job_type ← find_timer_job_type (jb_timer_job_id state);
  insert_timer_job_state_with_type now uuid state job_type.

(** The error of the delete is noted on the session and dropped. *)
Definition delete_timer_job_state (id : string) : JM unit :=
  fun s => (Ok tt, (job_delete timer_job_states id s).2).

Definition delete_timer_job_states_by_execution_id (execution_id : string) : JM unit :=
  fun s => (Ok tt, (job_delete_by timer_job_states "execution_id" execution_id s).2).

Definition delete_timer_job_states_by_process_instance_id (process_instance_id : string) : JM unit :=
  fun s => (Ok tt, (job_delete_by timer_job_states "process_instance_id" process_instance_id s).2).

(** ** External workers *)
Definition is_process_definition_schedule_timer (job : RuntimeTimerJobState) : bool :=
  existsb (String.eqb (jb_activity_id job)) ["process-definition-suspend"; "process-definition-activate"]%string.

Definition external_worker_parent_allows_visibility (job : RuntimeTimerJobState) : JM bool :=
  if String.eqb (jb_process_instance_id job) EmptyString then mret true
  else
    instance ← find_process_instance (jb_process_instance_id job);
    mret (match instance with Some i => negb (pi_is_suspended i) | None => true end).

Definition is_active_external_worker_job (job : RuntimeTimerJobState) : JM bool :=
  job_type ← find_timer_job_type (jb_timer_job_id job);
  match job_type with
  | Some JobExternalWorker =>
      if bool_decide (jb_job_state job = Some "timer"%string)
      then external_worker_parent_allows_visibility job
      else mret false
  | _ => mret false
  end.

Definition is_fetchable_external_worker_candidate (job : RuntimeTimerJobState) : JM bool :=
  if negb (bool_decide (jb_job_state job = None)) && negb (bool_decide (jb_job_state job = Some "timer"%string))
  then mret false
  else if is_process_definition_schedule_timer job then mret false
  else
    visible ← external_worker_parent_allows_visibility job;
    if (visible : bool) then
      job_type ← find_timer_job_type (jb_timer_job_id job);
      mret (match job_type with Some JobExternalWorker | None => true | Some _ => false end)
    else mret false.

(** Due, with retries left, and unlocked or with a lease that has ended. *)
Definition fetchable_now (now : Z) (job : RuntimeTimerJobState) : bool :=
  match jb_due_time job with Some due => due <=? now | None => false end
  && match jb_retries job with Some retries => 0 <? retries | None => false end
  && (unlocked job
      || match jb_lock_expiration_time job with Some expires => expires <=? now | None => false end).

Fixpoint fetch_candidates (now : Z) (topic : option string) (jobs : list RuntimeTimerJobState)
  : JM (list RuntimeTimerJobState) :=
  match jobs with
  | [] => mret []
  | job :: jobs =>
      fetchable ← (if fetchable_now now job then is_fetchable_external_worker_candidate job
                   else mret false);
      rest ← fetch_candidates now topic jobs;
      mret (if (fetchable : bool)
               && match topic with
                  | None => true
                  | Some topic => bool_decide (jb_job_handler_configuration job = Some topic)
                  end
            then job :: rest else rest)
  end.

(** The candidates have retries; the expiration overflows as [i64] addition. *)
Definition fetch_and_lock_one (owner : string) (now lock_duration_ms : Z) (job : RuntimeTimerJobState)
  : JM (option RuntimeTimerJobState) :=
  expires ← add_or_overflow now lock_duration_ms;
  let job' := with_lock (Some owner) (Some now) (Some expires) job in
  let job' := with_progress (jb_job_state job') (jb_due_time job') (or_else (jb_retries job') (Some 1))
                (jb_error_message job') (jb_error_details job') job' in
  affected ← cas_update timer_job_states (jb_timer_job_id job) job'
    [("lock_owner", Some owner); ("lock_time", Some (pretty now));
     ("lock_expiration_time", Some (pretty expires)); ("retries", pretty <$> jb_retries job');
     ("error_message", jb_error_message job'); ("error_details", jb_error_details job');
     ("due_time", pretty <$> jb_due_time job'); ("job_state", jb_job_state job');
     ("job_type", Some (job_type_as_str JobExternalWorker))]%string
    match jb_lock_owner job, jb_lock_expiration_time job with
    | Some old_owner, Some old_expires =>
        [("lock_owner", Some old_owner); ("lock_expiration_time", Some (pretty old_expires))]%string
    | _, _ => [("lock_owner"%string, None)]
    end;
  mret (if (0 <? affected)%nat then Some job' else None).

Fixpoint fetch_and_lock_all (owner : string) (now lock_duration_ms : Z) (jobs : list RuntimeTimerJobState)
  : JM (list RuntimeTimerJobState) :=
  match jobs with
  | [] => mret []
  | job :: jobs =>
      locked ← fetch_and_lock_one owner now lock_duration_ms job;
      rest ← fetch_and_lock_all owner now lock_duration_ms jobs;
      mret (match locked with Some job => job :: rest | None => rest end)
  end.

Definition fetch_and_lock_external_worker_timer_jobs (owner : string) (now : Z) (max_jobs : nat)
  (lock_duration_ms : Z) (topic : option string) : JM (list RuntimeTimerJobState) :=
  jobs ← job_find_all timer_job_states;
  candidates ← fetch_candidates now topic jobs;
  fetch_and_lock_all owner now lock_duration_ms (take max_jobs (order_by job_leb candidates)).

(** [unwrap_or_default]: an error reads as no row updated. *)
Definition replace_timer_job_state_if_lock_matches (state : RuntimeTimerJobState)
  (expected_lock_owner : string) (expected_lock_expiration_time : option Z) : JM bool :=
  fun s =>
    match cas_update timer_job_states (jb_timer_job_id state) state
      [("process_instance_id", Some (jb_process_instance_id state));
       ("execution_id", Some (jb_execution_id state)); ("lock_owner", jb_lock_owner state);
       ("lock_time", pretty <$> jb_lock_time state);
       ("lock_expiration_time", pretty <$> jb_lock_expiration_time state);
       ("retries", pretty <$> jb_retries state); ("error_message", jb_error_message state);
       ("error_details", jb_error_details state); ("due_time", pretty <$> jb_due_time state);
       ("job_state", jb_job_state state)]%string
      [("lock_owner", Some expected_lock_owner);
       ("lock_expiration_time", pretty <$> expected_lock_expiration_time)]%string s with
    | (Ok affected, s) => (Ok (0 <? affected)%nat, s)
    | (Err _, s) => (Ok false, s)
    end.

Definition replace_timer_job_state_if_locked (state : RuntimeTimerJobState)
  (expected_lock_owner : string) (expected_lock_expiration_time : Z) : JM bool :=
  replace_timer_job_state_if_lock_matches state expected_lock_owner (Some expected_lock_expiration_time).

Close Scope Z_scope.

(** ** Columns and jobs agree: an invariant of every job operation

    [job_row_wf] is what the filters of the queries and the conditions of the
    conditional updates rely on: the projected columns of a row say what its job
    says.  Every operation of the store keeps it, and a worker that no longer
    holds a job cannot change it. *)

Open Scope Z_scope.

(** A job as the engine builds one: texts that SQL does not read as numbers,
    integers of their width. *)
Record job_typed (j : RuntimeTimerJobState) : Prop := {
  jt_owner : forall o, jb_lock_owner j = Some o -> plain o;
  jt_time : forall n, jb_lock_time j = Some n -> is_i64 n;
  jt_expiration : forall n, jb_lock_expiration_time j = Some n -> is_i64 n;
  jt_due : forall n, jb_due_time j = Some n -> is_i64 n;
  jt_retries : forall n, jb_retries j = Some n -> is_i64 n;
  jt_state : forall o, jb_job_state j = Some o -> plain o
}.

Lemma row_typed k r : job_row_wf k r -> job_typed (cas_data r).
Proof. intros W. split; apply W. Qed.

(** ** The row an insert writes *)
Lemma set_typed_ne cells c c' v : c <> c' -> set_typed cells (c, v) !! c' = cells !! c'.
Proof. intros. destruct v; simpl; [by apply lookup_insert_ne|by apply lookup_delete_ne]. Qed.

Lemma set_typed_eq cells c v : set_typed cells (c, v) !! c = v.
Proof. destruct v; simpl; by simplify_map_eq. Qed.

Lemma job_columns_cells j t cells :
  let cells' := fold_left set_typed (job_columns j t) cells in
  cells' !! "lock_owner"%string = opt_text (jb_lock_owner j)
  /\ cells' !! "lock_time"%string = opt_i64 (jb_lock_time j)
  /\ cells' !! "lock_expiration_time"%string = opt_i64 (jb_lock_expiration_time j)
  /\ cells' !! "retries"%string = opt_i64 (jb_retries j)
  /\ cells' !! "due_time"%string = opt_i64 (jb_due_time j)
  /\ cells' !! "job_state"%string = opt_text (jb_job_state j).
Proof.
  cbv zeta. unfold job_columns. cbn [fold_left].
  split_and!; (repeat (rewrite set_typed_ne by done)); apply set_typed_eq.
Qed.

Lemma inserted_row_wf j t cells :
  job_typed j -> job_row_wf (jb_timer_job_id j) (mkCas j (fold_left set_typed (job_columns j t) cells)).
Proof.
  intros T. destruct (job_columns_cells j t cells) as (H1 & H2 & H3 & H4 & H5 & H6).
  set (c := fold_left _ _ _) in *. clearbody c.
  split; cbn [cas_data cas_cells]; [done|..]; split; solve [assumption | apply T].
Qed.

Lemma insert_with_typed_extra_open j t s :
  js_closed s = false ->
  insert_with_typed_extra timer_job_states (jb_timer_job_id j) j (job_columns j t) s
  = (Ok tt, set_jobs (<[jb_timer_job_id j := mkCas j (fold_left set_typed (job_columns j t)
       match js_jobs s !! jb_timer_job_id j with Some r => cas_cells r | None => ∅ end)]> (js_jobs s)) s).
Proof. intros Ho. unfold insert_with_typed_extra. by rewrite Ho. Qed.

(** What the defaults leave alone. *)
Definition same_lock (a b : RuntimeTimerJobState) : Prop :=
  jb_timer_job_id a = jb_timer_job_id b /\ jb_lock_owner a = jb_lock_owner b
  /\ jb_lock_time a = jb_lock_time b /\ jb_lock_expiration_time a = jb_lock_expiration_time b
  /\ jb_due_time a = jb_due_time b /\ jb_retries a = jb_retries b /\ jb_job_state a = jb_job_state b
  /\ jb_error_message a = jb_error_message b /\ jb_time_duration a = jb_time_duration b
  /\ jb_time_cycle a = jb_time_cycle b /\ jb_execution_id a = jb_execution_id b
  /\ jb_activity_id a = jb_activity_id b /\ jb_exclusive a = jb_exclusive b.

Lemma same_lock_typed a b : same_lock a b -> job_typed b -> job_typed a.
Proof.
  intros (_ & H1 & H2 & H3 & H4 & H5 & H6 & _) [? ? ? ? ? ?].
  split; rewrite ?H1, ?H2, ?H3, ?H4, ?H5, ?H6; assumption.
Qed.

Lemma find_job_execution_open id s :
  js_closed s = false -> find_job_execution id s = (Ok (js_executions s !! id), s).
Proof. intros Ho. unfold find_job_execution. by rewrite Ho. Qed.

Lemma find_process_instance_open id s :
  js_closed s = false -> find_process_instance id s = (Ok (js_instances s !! id), s).
Proof. intros Ho. unfold find_process_instance, ensure_job_open, mbind, stM_bind, get. by rewrite Ho. Qed.

Lemma denormalized_open j s : js_closed s = false -> exists d, denormalized j s = (Ok d, s).
Proof.
  intros Ho. unfold denormalized. cbv zeta. case_match; [|by eexists].
  rewrite (bind_ok _ _ _ _ _ (find_job_execution_open _ _ Ho)).
  destruct (match _ with Some _ => _ | None => _ end) as [[tenant definition] element].
  case_match; [|by eexists]. rewrite (bind_ok _ _ _ _ _ (find_process_instance_open _ _ Ho)).
  case_match; by eexists.
Qed.

(** An insert on an open session succeeds and files the job under its id, its
    columns with it; the lock, the due time, the retries and the state are the
    caller's. *)
Lemma insert_timer_job_state_open now uuid j s :
  js_closed s = false ->
  exists j' t cells,
    same_lock j' j /\ insert_timer_job_state now uuid j s
    = (Ok tt, set_jobs (<[jb_timer_job_id j := mkCas j' (fold_left set_typed (job_columns j' t) cells)]> (js_jobs s)) s).
Proof.
  intros Ho. unfold insert_timer_job_state.
  assert (Ht : exists t, find_timer_job_type (jb_timer_job_id j) s = (Ok t, s))
    by (unfold find_timer_job_type; rewrite Ho; by eexists).
  destruct Ht as [t Ht]. rewrite (bind_ok _ _ _ _ _ Ht). unfold insert_timer_job_state_with_type.
  assert (Hf : find_timer_job_state (jb_timer_job_id j) s
               = (Ok (cas_data <$> js_jobs s !! jb_timer_job_id j), s))
    by (unfold find_timer_job_state, job_find_or_note, job_find, ensure_job_open, mbind, stM_bind, get; by rewrite Ho).
  rewrite (bind_ok _ _ _ _ _ Hf). set (j1 := match _ with Some _ => _ | None => j end).
  assert (H1 : same_lock j1 j) by (unfold j1, same_lock; by destruct (cas_data <$> _)).
  destruct (denormalized_open j1 s Ho) as [[[tenant definition] element] Hd]. rewrite (bind_ok _ _ _ _ _ Hd).
  set (j2 := with_defaults _ _ _ _ _ _ j1).
  assert (H2 : same_lock j2 j) by (destruct H1 as (? & ? & ? & ? & ? & ? & ? & ? & ? & ? & ? & ? & ?); by split_and!).
  exists j2, t. eexists. split; [done|]. rewrite insert_with_typed_extra_open by done.
  by replace (jb_timer_job_id j2) with (jb_timer_job_id j) by (symmetry; apply H2).
Qed.

Lemma insert_preserves now uuid j : job_typed j -> preserves jobs_wf (insert_timer_job_state now uuid j).
Proof.
  intros T s W. destruct (insert_timer_job_state_open now uuid j s (jobs_open _ W)) as (j' & t & cells & Hj & ->).
  cbn [snd]. apply insert_row_wf; [done|]. destruct Hj as [E Hj]. rewrite <- E.
  apply inserted_row_wf. by eapply same_lock_typed; [split|].
Qed.

Lemma delete_preserves id : preserves jobs_wf (delete_timer_job_state id).
Proof.
  intros s [Ho Hw]. unfold delete_timer_job_state, job_delete. rewrite Ho. simpl. split; [done|].
  intros k r Hr. simpl in Hr. apply lookup_delete_Some in Hr as [_ Hr]. by apply Hw.
Qed.

Lemma delete_by_preserves column value :
  preserves jobs_wf ((fun s => (Ok tt, (job_delete_by timer_job_states column value s).2)) : JM unit).
Proof.
  intros s [Ho Hw]. unfold job_delete_by. rewrite Ho. simpl. split; [done|].
  intros k r Hr. simpl in Hr. apply map_lookup_filter_Some in Hr as [Hr _]. by apply Hw.
Qed.

(** ** Conditional updates *)
(** A conditional update whose row agrees keeps the invariant, whether or not
    its conditions hold. *)
Lemma cas_update_preserves id j extras conditions s :
  jobs_wf s ->
  (forall r, js_jobs s !! id = Some r -> job_row_wf id (mkCas j (set_cells extras (cas_cells r)))) ->
  jobs_wf (cas_update timer_job_states id j extras conditions s).2.
Proof.
  intros W Hrow. unfold cas_update, ensure_job_open, mbind, stM_bind, get. rewrite (jobs_open _ W).
  simpl (jget _ _). destruct (js_jobs s !! id) as [r|] eqn:E; [|done]. case_match; [|done].
  simpl. by apply insert_row_wf, Hrow.
Qed.

Lemma release_preserves id owner : preserves jobs_wf (release_timer_job_lock id owner).
Proof.
  intros s W. unfold release_timer_job_lock.
  assert (Hf : job_find timer_job_states id s = (Ok (cas_data <$> js_jobs s !! id), s))
    by (unfold job_find, ensure_job_open, mbind, stM_bind, get; by rewrite (jobs_open _ W)).
  rewrite (bind_ok _ _ _ _ _ Hf). destruct (js_jobs s !! id) as [r|] eqn:E; simpl; [|done].
  case_bool_decide; [|done].
  pose proof (cas_update_preserves id (without_lock (cas_data r)) cleared [("lock_owner"%string, Some owner)] s W) as H'.
  unfold mbind, stM_bind. destruct (cas_update _ _ _ _ _ s) as [[n|e] s'] eqn:Ec; simpl in *;
    apply H'; intros r' Hr'; assert (r' = r) as -> by congruence; apply (unlocked_row_wf id r), (jobs_rows _ W _ _ E).
Qed.

(** What a list of assignments leaves in a column. *)
Fixpoint last_set (c : string) (extras : Extras) : option (option string) :=
  match extras with
  | [] => None
  | (c', v) :: extras =>
      match last_set c extras with
      | Some x => Some x
      | None => if String.eqb c' c then Some v else None
      end
  end.

Lemma set_cells_lookup extras cells c :
  set_cells extras cells !! c
  = match last_set c extras with Some v => bound_cell c <$> v | None => cells !! c end.
Proof.
  unfold set_cells. revert cells. induction extras as [|[c' v] extras IH]; intros cells; [done|].
  cbn [fold_left last_set]. rewrite IH. destruct (last_set c extras); [done|].
  destruct (String.eqb_spec c' c) as [->|Hne]; [|by apply set_cell_ne].
  destruct v; simpl; by simplify_map_eq.
Qed.

Lemma set_cells_text extras cells c v :
  last_set c extras = Some v -> is_integer_projection_column c = false ->
  (forall o, v = Some o -> plain o) -> text_cell (set_cells extras cells) c v.
Proof.
  intros Hl Hc Hp. split; [|done]. rewrite set_cells_lookup, Hl.
  destruct v as [v|]; simpl; [|done]. by rewrite bound_text by eauto.
Qed.

Lemma set_cells_int extras cells c v :
  last_set c extras = Some (pretty <$> v) -> is_integer_projection_column c = true ->
  (forall n, v = Some n -> is_i64 n) -> int_cell (set_cells extras cells) c v.
Proof.
  intros Hl Hc Hp. split; [|done]. rewrite set_cells_lookup, Hl.
  destruct v as [v|]; simpl; [|done]. by rewrite bound_int by eauto.
Qed.

(** The six columns of [job_row_wf] set from the job. *)
Lemma all_columns_wf j cells extras :
  job_typed j ->
  last_set "lock_owner" extras = Some (jb_lock_owner j) ->
  last_set "lock_time" extras = Some (pretty <$> jb_lock_time j) ->
  last_set "lock_expiration_time" extras = Some (pretty <$> jb_lock_expiration_time j) ->
  last_set "due_time" extras = Some (pretty <$> jb_due_time j) ->
  last_set "retries" extras = Some (pretty <$> jb_retries j) ->
  last_set "job_state" extras = Some (jb_job_state j) ->
  job_row_wf (jb_timer_job_id j) (mkCas j (set_cells extras cells)).
Proof.
  intros T H1 H2 H3 H4 H5 H6.
  split; cbn [cas_data cas_cells]; [done|..];
    (apply set_cells_text || apply set_cells_int); first [done|apply T].
Qed.

Lemma replace_preserves j owner expiration :
  job_typed j -> preserves jobs_wf (replace_timer_job_state_if_lock_matches j owner expiration).
Proof.
  intros T s W. unfold replace_timer_job_state_if_lock_matches.
  match goal with |- context [cas_update ?t ?id ?d ?x ?c s] =>
    pose proof (cas_update_preserves id d x c s W) as Hp; destruct (cas_update t id d x c s) as [[n|e] s'] end;
  apply Hp; intros r _; (apply all_columns_wf; [done|reflexivity..]).
Qed.

Lemma fetch_one_preserves owner now duration j s :
  plain owner -> is_i64 now -> job_typed j -> jobs_wf s ->
  jobs_wf (fetch_and_lock_one owner now duration j s).2.
Proof.
  intros Ho Hn T W. unfold fetch_and_lock_one, add_or_overflow.
  destruct (_ && _) eqn:Hx; [|done]. apply andb_true_iff in Hx as [Hx1%Z.leb_le Hx2%Z.leb_le].
  erewrite bind_ok by done. set (job' := with_progress _ _ _ _ _ _).
  assert (Tj : job_typed job').
  { split; simpl; try (by intros ? [= <-]); try apply T.
    destruct (jb_retries j) eqn:E; simpl; [rewrite <- E; apply T|]. by intros ? [= <-]. }
  match goal with |- context [cas_update ?t ?id ?d ?x ?c] =>
    pose proof (cas_update_preserves id d x c s W) as Hp;
    unfold mbind at 1; unfold stM_bind; destruct (cas_update t id d x c s) as [[n|e] s'] end;
  apply Hp; intros r _; change (jb_timer_job_id j) with (jb_timer_job_id job');
  (apply all_columns_wf; [done|reflexivity..]).
Qed.

Lemma find_timer_job_type_open id s :
  js_closed s = false -> exists t, find_timer_job_type id s = (Ok t, s).
Proof. intros Ho. unfold find_timer_job_type. rewrite Ho. by eexists. Qed.

Lemma is_fetchable_open j s :
  js_closed s = false -> exists b, is_fetchable_external_worker_candidate j s = (Ok b, s).
Proof.
  intros Ho. unfold is_fetchable_external_worker_candidate. case_match; [by eexists|]. case_match; [by eexists|].
  assert (Hv : exists b, external_worker_parent_allows_visibility j s = (Ok b, s)).
  { unfold external_worker_parent_allows_visibility. case_match; [by eexists|].
    rewrite (bind_ok _ _ _ _ _ (find_process_instance_open _ _ Ho)). by eexists. }
  destruct Hv as [b Hv]. rewrite (bind_ok _ _ _ _ _ Hv). destruct b; [|by eexists].
  destruct (find_timer_job_type_open (jb_timer_job_id j) s Ho) as [t Ht]. rewrite (bind_ok _ _ _ _ _ Ht). by eexists.
Qed.

Lemma fetch_candidates_open now topic jobs s :
  js_closed s = false -> exists l, fetch_candidates now topic jobs s = (Ok l, s) /\ sublist l jobs
                                   /\ Forall (fun j => fetchable_now now j = true) l.
Proof.
  intros Ho. induction jobs as [|j jobs (l & IH & Hl & Hf)]; [exists []; by split_and!|].
  cbn [fetch_candidates].
  assert (Hb : exists b, (if fetchable_now now j then is_fetchable_external_worker_candidate j else mret false) s
                         = (Ok b, s) /\ (b = true -> fetchable_now now j = true)).
  { destruct (fetchable_now now j); [|by exists false].
    destruct (is_fetchable_open j s Ho) as [b Hb]. eauto. }
  destruct Hb as (b & Hb & Hn). rewrite (bind_ok _ _ _ _ _ Hb), (bind_ok _ _ _ _ _ IH).
  eexists. split; [done|]. destruct (b && _) eqn:E; [|split; [by constructor|done]].
  apply andb_true_iff in E as [-> _]. split; [by constructor|]. constructor; auto.
Qed.

Lemma job_find_all_typed s :
  jobs_wf s -> exists l, job_find_all timer_job_states s = (Ok l, s) /\ Forall job_typed l.
Proof.
  intros W. unfold job_find_all, ensure_job_open, mbind, stM_bind, get. rewrite (jobs_open _ W).
  eexists. split; [done|]. rewrite Forall_forall. intros j Hj.
  apply list_elem_of_fmap in Hj as (r & -> & Hr). apply list_elem_of_fmap in Hr as ([k r'] & -> & Hr).
  apply elem_of_map_to_list in Hr. by eapply row_typed, (jobs_rows _ W).
Qed.

Lemma fetch_all_preserves owner now duration jobs :
  plain owner -> is_i64 now -> Forall job_typed jobs -> preserves jobs_wf (fetch_and_lock_all owner now duration jobs).
Proof.
  intros Ho Hn HT. induction HT as [|j jobs Tj _ IH]; cbn [fetch_and_lock_all]; [apply preserves_ret|].
  apply preserves_bind; [intros s W; by apply fetch_one_preserves|]. intros o.
  apply preserves_bind; [done|]. intros l. apply preserves_ret.
Qed.

Lemma fetch_preserves owner now max duration topic :
  plain owner -> is_i64 now ->
  preserves jobs_wf (fetch_and_lock_external_worker_timer_jobs owner now max duration topic).
Proof.
  intros Ho Hn s W. unfold fetch_and_lock_external_worker_timer_jobs.
  destruct (job_find_all_typed s W) as (jobs & Hj & Ht). rewrite (bind_ok _ _ _ _ _ Hj).
  destruct (fetch_candidates_open now topic jobs s (jobs_open _ W)) as (l & Hl & Hsub & _).
  rewrite (bind_ok _ _ _ _ _ Hl). apply fetch_all_preserves; [done|done| |done].
  apply Forall_take. rewrite <- order_by_permutation. rewrite Forall_forall in *. intros j Hin.
  by eapply Ht, elem_of_sublist.
Qed.

(** Conditions on columns that agree with a job compare the job's fields. *)
Lemma text_cell_eq cells c v w :
  is_integer_projection_column c = false -> text_cell cells c v -> plain w ->
  cell_holds cells (c, Some w) = bool_decide (v = Some w).
Proof.
  intros Hc [Hv _] Hw. simpl. rewrite Hv, bound_text by done. apply bool_decide_ext.
  destruct v; simpl; split; congruence.
Qed.

Lemma int_cell_eq cells c v w :
  is_integer_projection_column c = true -> int_cell cells c v -> (forall n, w = Some n -> is_i64 n) ->
  cell_holds cells (c, pretty <$> w) = bool_decide (v = w).
Proof.
  intros Hc [Hv _] Hw. destruct w as [w|]; simpl; rewrite Hv; [rewrite bound_int by eauto|];
    apply bool_decide_ext; destruct v; simpl; split; congruence.
Qed.

(** ** Releasing the jobs of an executor *)
Lemma unlock_one_preserves owner j jobs s :
  jobs_wf s -> stored (js_jobs s) (j :: jobs) ->
  let s' := (cas_update timer_job_states (jb_timer_job_id j) (without_lock j) cleared
               (lease_conditions (Some owner) j) s).2 in
  jobs_wf s' /\ stored (js_jobs s') jobs.
Proof.
  intros W Hs. apply stored_cons in Hs as ((r & Hr & <-) & Hj & Hs). cbv zeta. split.
  - apply cas_update_preserves; [done|]. intros r' Hr'. assert (r' = r) as -> by congruence.
    apply (unlocked_row_wf _ r), (jobs_rows _ W _ _ Hr).
  - unfold cas_update, ensure_job_open, mbind, stM_bind, get. rewrite (jobs_open _ W).
    simpl (jget _ _). rewrite Hr. case_match; [|done]. simpl. by apply stored_insert.
Qed.

Lemma unlock_candidates_preserves owner jobs s :
  jobs_wf s -> stored (js_jobs s) jobs -> jobs_wf (unlock_candidates owner jobs s).2.
Proof.
  revert s. induction jobs as [|j jobs IH]; intros s W Hs; [done|]. cbn [unlock_candidates].
  destruct (unlock_one_preserves owner j jobs s W Hs) as [W1 S1].
  unfold mbind at 1. unfold stM_bind at 1. destruct (cas_update _ _ _ _ _ s) as [[n|e] s1]; [|done].
  specialize (IH s1 W1 S1). unfold mbind, stM_bind.
  by destruct (unlock_candidates owner jobs s1) as [[m|e] s2].
Qed.

Lemma retain_instance_tenants_open ts jobs s :
  js_closed s = false -> exists l, retain_instance_tenants ts jobs s = (Ok l, s) /\ sublist l jobs.
Proof.
  intros Ho. induction jobs as [|j jobs (l & IH & Hl)]; [by exists []|]. cbn [retain_instance_tenants].
  rewrite (bind_ok _ _ _ _ _ (find_process_instance_open _ _ Ho)), (bind_ok _ _ _ _ _ IH).
  eexists. split; [done|]. repeat case_match; by constructor.
Qed.

Lemma unlock_owned_preserves `{SqlOrder} owner tf : preserves jobs_wf (unlock_owned_executable_jobs owner tf).
Proof.
  intros s W. unfold unlock_owned_executable_jobs. rewrite (bind_ok _ _ _ _ _ (find_open _ _ _ _ (jobs_open _ W))).
  set (q := query _ _ _ _).
  assert (Ht : exists l, (if has_filter tf then retain_instance_tenants (default [] tf) q else mret q) s = (Ok l, s)
                         /\ sublist l q).
  { case_match; [by apply retain_instance_tenants_open, W|by exists q]. }
  destruct Ht as (l & -> % (bind_ok _ _ _ _ _) & Hl). apply unlock_candidates_preserves; [done|].
  eapply stored_permutation; [symmetry; apply order_by_permutation|].
  eapply stored_sublist; [done|]. apply query_stored, W.
Qed.

(** ** The operations of the store *)
Inductive JobOp : Type :=
| OpInsert (now : Z) (uuid : string) (state : RuntimeTimerJobState)
| OpDelete (timer_job_id : string)
| OpDeleteByExecution (execution_id : string)
| OpDeleteByInstance (process_instance_id : string)
| OpAcquire (job_states : list string) (owner : string) (now lock_duration_ms : Z) (max_jobs : nat)
    (selected_job_ids tenant_filter category_filter : Filter) (write_policy : AcquisitionWritePolicy)
| OpReset (now : Z) (job_class : ExpiredJobClass) (page_size : nat) (tenant_filter category_filter : Filter)
| OpRelease (timer_job_id expected_owner : string)
| OpUnlockOwned (expected_owner : string) (tenant_filter : Filter)
| OpFetchAndLock (owner : string) (now : Z) (max_jobs : nat) (lock_duration_ms : Z) (topic : option string)
| OpReplace (state : RuntimeTimerJobState) (expected_lock_owner : string) (expected : option Z).

Definition run_job_op `{SqlOrder} (op : JobOp) : JM unit :=
  match op with
  | OpInsert now uuid state => insert_timer_job_state now uuid state
  | OpDelete id => delete_timer_job_state id
  | OpDeleteByExecution id => delete_timer_job_states_by_execution_id id
  | OpDeleteByInstance id => delete_timer_job_states_by_process_instance_id id
  | OpAcquire states owner now ms max sel tf cf policy =>
      _ ← acquire_due_timer_jobs_by_states states owner now ms max sel tf cf policy; mret tt
  | OpReset now c page tf cf => _ ← reset_expired_job_locks_batch now c page tf cf; mret tt
  | OpRelease id owner => _ ← release_timer_job_lock id owner; mret tt
  | OpUnlockOwned owner tf => _ ← unlock_owned_executable_jobs owner tf; mret tt
  | OpFetchAndLock owner now max ms topic =>
      _ ← fetch_and_lock_external_worker_timer_jobs owner now max ms topic; mret tt
  | OpReplace state owner expected =>
      _ ← replace_timer_job_state_if_lock_matches state owner expected; mret tt
  end.

(** Arguments as the engine gives them. *)
Definition job_op_ok (op : JobOp) : Prop :=
  match op with
  | OpInsert _ _ state | OpReplace state _ _ => job_typed state
  | OpAcquire _ owner now _ _ _ _ _ _ => plain owner /\ is_i64 now
  | OpFetchAndLock owner now _ _ _ => plain owner /\ is_i64 now
  | _ => True
  end.

(** Any number of operations, each in a transaction of its own; a failed one
    leaves what it wrote. *)
Inductive job_steps `{SqlOrder} : JobSession -> JobSession -> Prop :=
| job_steps_refl s : job_steps s s
| job_steps_step s op s' : job_op_ok op -> job_steps (run_job_op op s).2 s' -> job_steps s s'.

Lemma run_job_op_preserves `{SqlOrder} op : job_op_ok op -> preserves jobs_wf (run_job_op op).
Proof.
  destruct op; simpl; intros Hop; try (apply preserves_bind; [|intros; apply preserves_ret]).
  - by apply insert_preserves.
  - apply delete_preserves.
  - apply delete_by_preserves.
  - apply delete_by_preserves.
  - destruct Hop. intros s W. rewrite acquire_chosen by done. simpl. apply set_jobs_wf; [done|].
    apply update_rows_wf; [apply W|]. intros. by apply leased_row_wf.
  - intros s W. rewrite reset_batch_chosen by done. by apply reset_session_wf.
  - apply release_preserves.
  - apply unlock_owned_preserves.
  - destruct Hop. by apply fetch_preserves.
  - by apply replace_preserves.
Qed.

(** C15: the columns of a job agree with its document.  The operations are: insert a
    job, delete one, delete by execution or by process instance, acquire due jobs,
    reset a batch of expired leases, release a lease, unlock the jobs of an owner,
    fetch and lock for an external worker, and replace a job whose lease is still the
    expected one.  They run one after the other, each from its read to its write
    without another in between (interleavings of an acquisition with other writers
    are excluded), with clocks and numbers of 64 bits, and owners and states that a
    column gives back as they were written (a text that reads as an integer is its
    canonical form).  From a table in which it
    holds, after any number of these operations in any order and with any outcome,
    every row is filed under the id of its job, and its projected columns (owner, lock
    time, lock expiration, due time, retries, state) say what the job says. *)
Theorem columns_agree `{SqlOrder} s s' : jobs_wf s -> job_steps s s' -> jobs_wf s'.
Proof. intros W Hs. induction Hs as [|s op s' Hop _ IH]; [done|]. by apply IH, run_job_op_preserves. Qed.

(** C20: a worker replaces a job exactly when it still holds it.  Columns and jobs of
    the table agree, the numbers of the new job and the expected expiration fit in 64
    bits, its owner and state and the expected owner are texts that a column gives back
    as they were written, and nothing else writes between the comparison and the write.
    When the job is stored and its lease is the expected one, owner and expiration
    alike, the call answers yes, the stored job is the new one, its columns follow, and
    no other row changes; when another worker took the job, when its lease was renewed
    or cleared, or when the job is gone, the call answers no and nothing changes. *)
Theorem replace_if_lock_matches_correct state owner expiration s :
  jobs_wf s -> job_typed state -> plain owner -> (forall n, expiration = Some n -> is_i64 n) ->
  match js_jobs s !! jb_timer_job_id state with
  | Some r =>
      if decide (jb_lock_owner (cas_data r) = Some owner
                 /\ jb_lock_expiration_time (cas_data r) = expiration)
      then exists s', replace_timer_job_state_if_lock_matches state owner expiration s = (Ok true, s')
           /\ cas_data <$> js_jobs s' !! jb_timer_job_id state = Some state
           /\ (forall k, k <> jb_timer_job_id state -> js_jobs s' !! k = js_jobs s !! k)
           /\ jobs_wf s'
      else replace_timer_job_state_if_lock_matches state owner expiration s = (Ok false, s)
  | None => replace_timer_job_state_if_lock_matches state owner expiration s = (Ok false, s)
  end.
Proof.
  intros W T Ho He. unfold replace_timer_job_state_if_lock_matches, cas_update, ensure_job_open.
  unfold mbind, stM_bind, get. rewrite (jobs_open _ W). simpl (jget _ _).
  destruct (js_jobs s !! _) as [r|] eqn:Hr; [|done]. pose proof (jobs_rows _ W _ _ Hr) as Wr.
  cbn [forallb].
  rewrite (text_cell_eq _ "lock_owner" _ _ eq_refl (jw_owner _ _ Wr) Ho).
  rewrite (int_cell_eq _ "lock_expiration_time" _ _ eq_refl (jw_expiration _ _ Wr) He), andb_true_r, <- bool_decide_and.
  case_decide as Hm.
  - rewrite bool_decide_eq_true_2 by exact Hm. eexists. split; [reflexivity|].
    cbn [js_jobs jset timer_job_states]. rewrite lookup_insert_eq. split_and!; [done| |].
    + intros k Hk. by rewrite lookup_insert_ne.
    + apply insert_row_wf; [done|]. apply all_columns_wf; [done|reflexivity..].
  - by rewrite bool_decide_eq_false_2 by exact Hm.
Qed.

Close Scope Z_scope.
