(* ===== verification/Leases.v ===== *)
(** * Leases: the global locks and the timer coordinator

    The leases executors compete for.  A global lock is a row of
    [ACT_GE_PROPERTY] whose value is [owner|acquired|expiry]
    ([try_acquire_property_lock] and [release_property_lock] of
    [persistence/runtime_store.rs]); [LockManager] of [engine/lock_manager.rs] keeps
    one for an executor.  The timer coordinator's lease
    carries a fencing token ([acquire_coordinator_lease]), and an exclusive job
    locks its process instance ([lock_process_instance]).

    Each operation reads a row and then writes it under a condition on what it
    read.  A revision read back is cut to 32 bits. *)
From Stdlib Require Import Ascii.
From stdpp Require Import pretty.
From Stdlib Require Import Ascii Sorting.Sorted.
From S2P Require Import Prelude Chars Float64 Numerals Json Errors Execution Store JobTypes JobLocksProof.

Open Scope Z_scope.

(** ** The value of a global lock *)
Definition encode_property_lock_value (owner : string) (acquired_at_ms expiry_ms : Z) : string :=
  owner +:+ "|" +:+ pretty acquired_at_ms +:+ "|" +:+ pretty expiry_ms.

Inductive PersistedPropertyLockState : Type :=
| Free
| Held (owner : string) (acquired_at_ms expiry_ms : Z)
| Corrupt.

(** [str::split_once]. *)
Fixpoint split_once (a : Ascii.ascii) (s : string) : option (string * string) :=
  match s with
  | EmptyString => None
  | String b s =>
      if Ascii.eqb b a then Some (EmptyString, s)
      else match split_once a s with Some (x, y) => Some (String b x, y) | None => None end
  end.

(** [splitn(3, '|')]. *)
Definition splitn3 (s : string) : string * option string * option string :=
  match split_once "|"%char s with
  | None => (s, None, None)
  | Some (x, rest) =>
      match split_once "|"%char rest with
      | None => (x, Some rest, None)
      | Some (y, z) => (x, Some y, Some z)
      end
  end.

Definition parse_property_lock_state (value : string) : PersistedPropertyLockState :=
  let value := trim value in
  if bool_decide (value = EmptyString) then Free
  else
    let '(owner, acquired, expiry) := splitn3 value in
    if bool_decide (owner = EmptyString) then Corrupt
    else match acquired ≫= parse_i64, expiry ≫= parse_i64 with
         | Some acquired_at_ms, Some expiry_ms => Held owner acquired_at_ms expiry_ms
         | _, _ => Corrupt
         end.

Definition parse_property_lock_value (value : string) : option (string * Z * Z) :=
  match parse_property_lock_state value with
  | Held owner acquired_at_ms expiry_ms => Some (owner, acquired_at_ms, expiry_ms)
  | Free | Corrupt => None
  end.

(** ** The property table *)
Definition as_i32 (n : Z) : Z := (n + 2 ^ 31) mod 2 ^ 32 - 2 ^ 31.

Definition find_engine_property (name : string) : JM (option (string * Z)) :=
  ensure_job_open ;;
  s ← get;
  mret ((fun p => (p.1, as_i32 p.2)) <$> js_properties s !! name).

Definition create_engine_property (name value : string) : JM unit :=
  ensure_job_open ;;
  s ← get;
  match js_properties s !! name with
  | Some _ => throw (StorageStop (DuplicateEntity "" name))
  | None => modify (set_properties (<[name := (value, 1)]> (js_properties s)))
  end.

Definition update_engine_property_if_revision (name value : string) (expected_rev : Z) : JM bool :=
  ensure_job_open ;;
  s ← get;
  match js_properties s !! name with
  | Some (_, revision) =>
      if revision =? expected_rev then
        modify (set_properties (<[name := (value, revision + 1)]> (js_properties s))) ;; mret true
      else mret false
  | None => mret false
  end.

(** ** Acquiring and releasing a global lock *)
(** What follows the read: [found] is what was read. *)
Definition acquire_after_read (lock_name owner : string) (now_ms lease_ms : Z)
  (found : option (string * Z)) : JM bool :=
  let new_value := encode_property_lock_value owner now_ms (saturating_add now_ms lease_ms) in
  match found with
  | None =>
      fun s => match create_engine_property lock_name new_value s with
               | (Ok _, s) => (Ok true, s)
               | (Err (StorageStop (DuplicateEntity _ _)), s) => (Ok false, s)
               | (Err e, s) => (Err e, s)
               end
  | Some (value, revision) =>
      match parse_property_lock_state value with
      | Free => update_engine_property_if_revision lock_name new_value revision
      | Held current_owner _ current_expiry =>
          if bool_decide (current_owner = owner) then
            update_engine_property_if_revision lock_name new_value revision
          else if current_expiry <=? now_ms then
            update_engine_property_if_revision lock_name new_value revision
          else mret false
      | Corrupt => throw (StorageStop (CorruptGlobalLockValue lock_name value))
      end
  end.

Definition try_acquire_property_lock (lock_name owner : string) (now_ms lease_ms : Z) : JM bool :=
  found ← find_engine_property lock_name;
  acquire_after_read lock_name owner now_ms lease_ms found.

Definition release_after_read (lock_name owner : string) (found : option (string * Z)) : JM bool :=
  match found with
  | None => mret false
  | Some (value, revision) =>
      match parse_property_lock_value value with
      | Some (current_owner, _, _) =>
          if bool_decide (current_owner = owner)
          then update_engine_property_if_revision lock_name EmptyString revision
          else mret false
      | None => mret false
      end
  end.

Definition release_property_lock (lock_name owner : string) : JM bool :=
  found ← find_engine_property lock_name; release_after_read lock_name owner found.

(** ** [LockManager]

    The manager's flag and the session; the commands turn a storage error into a
    [FlowableError]. *)
Record LockManagerConfig := mkLockConfig {
  lm_lock_name : string; lm_acquisition_owner : string; lm_lease_ms : Z
}.

Definition command {A} (m : JM A) : JM A :=
  fun s => match m s with
           | (Err (StorageStop e), s) => (Err (FlowableStop (storage_to_flowable e)), s)
           | r => r
           end.

Definition ManagerM (A : Type) : Type := stM (bool * JobSession) JobStop A.
Definition in_session {A} (m : JM A) : ManagerM A :=
  fun fs => let '(r, s) := m fs.2 in (r, (fs.1, s)).
Definition has_acquired : ManagerM bool := fun fs => (Ok fs.1, fs).
Definition store_acquired (b : bool) : ManagerM unit := fun fs => (Ok tt, (b, fs.2)).

Section Manager.
Context (config : LockManagerConfig).

Definition try_acquire (now_ms : Z) : ManagerM bool :=
  flag ← has_acquired;
  if (flag : bool) then mret true
  else
    acquired ← in_session (command (try_acquire_property_lock (lm_lock_name config)
                 (lm_acquisition_owner config) now_ms (lm_lease_ms config)));
    if (acquired : bool) then store_acquired true ;; mret true else mret false.

Inductive GlobalLockReleaseOutcome := NotHeldLocally | Released | OwnershipLost.

Definition try_release : ManagerM GlobalLockReleaseOutcome :=
  flag ← has_acquired;
  if (flag : bool) then
    released ← in_session (command (release_property_lock (lm_lock_name config) (lm_acquisition_owner config)));
    store_acquired false ;; mret (if (released : bool) then Released else OwnershipLost)
  else mret NotHeldLocally.

(** [acquire]: an error is logged and read as not acquired. *)
Definition acquire (now_ms : Z) : ManagerM bool :=
  fun fs => match try_acquire now_ms fs with
            | (Ok b, fs) => (Ok b, fs)
            | (Err (FlowableStop _), fs) => (Ok false, fs)
            | r => r
            end.

(** The polls of [wait_for_lock_with_timeout]: the instants at which the first
    attempt and those before the deadline run. *)
Fixpoint wait_for_lock (first : Z) (polls : list Z) : ManagerM bool :=
  ok ← acquire first;
  if (ok : bool) then mret true
  else match polls with
       | [] => mret false
       | next :: polls => wait_for_lock next polls
       end.

(** [try_wait_for_permit_with_timeout]: an error ends the wait. *)
Fixpoint try_wait_for_permit (first : Z) (polls : list Z) : ManagerM bool :=
  ok ← try_acquire first;
  if (ok : bool) then mret true
  else match polls with
       | [] => mret false
       | next :: polls => try_wait_for_permit next polls
       end.

(** [GlobalAcquirePermit::ensure_lock]: the permit's lock name ends with the
    one asked for. *)
Definition ends_with (s suffix : string) : bool :=
  starts_with (String.string_of_list_ascii (rev (String.list_ascii_of_string suffix)))
    (String.string_of_list_ascii (rev (String.list_ascii_of_string s))).

Definition ensure_lock (expected_lock_name : string) : result FlowableError unit :=
  if ends_with (lm_lock_name config) expected_lock_name then Ok tt
  else Err (Internal [Lit "global acquire permit for '"; Lit (lm_lock_name config);
                      Lit "' cannot authorize '"; Lit expected_lock_name; Lit "'"]).
End Manager.

(** ** The coordinator's lease *)
Definition exec_error (m : Message) (e : StorageError) : FlowableError := ExecutionError (m ++ storage_display e).

(** A storage error other than a lost race is noted and becomes a
    [FlowableError]. *)
Definition or_report {A} (m : Message) (r : JM A) : JM A :=
  fun s => match r s with
           | (Err (StorageStop e), s) => (Err (FlowableStop (exec_error m e)), note_job_error e s)
           | r => r
           end.

(** A duplicate key is a lost race. *)
Definition insert_or_lost {A} (m : Message) (won lost : A) (r : JM unit) : JM A :=
  fun s => match r s with
           | (Ok _, s) => (Ok won, s)
           | (Err (StorageStop (DuplicateEntity _ _)), s) => (Ok lost, s)
           | (Err (StorageStop e), s) => (Err (FlowableStop (exec_error m e)), note_job_error e s)
           | (Err e, s) => (Err e, s)
           end.

Definition lease_columns (owner : string) (expiry token : Z) : Extras :=
  [("owner_node_id", Some owner); ("expiry_time", Some (pretty expiry)); ("fencing_token", Some (pretty token))]%string.

Definition find_worker_node (id : string) : JM (option TimerWorkerNode) :=
  ensure_job_open ;; s ← get; mret (js_nodes s !! id).

(** What follows the read of the lease. *)
Definition coordinate_after_read (lease_id owner_node_id : string) (now timeout_ms new_expiry : Z)
  (found : option TimerCoordinatorLease) : JM (option Z) :=
  let quoted m := [Lit m; Lit lease_id; Lit "': "] in
  match found with
  | Some current =>
      if bool_decide (ls_owner_node_id current = owner_node_id) then
        affected ← or_report (quoted "failed to renew timer coordinator lease '")
          (cas_update timer_coordinator_leases lease_id
             (mkLease lease_id owner_node_id new_expiry (ls_fencing_token current))
             (lease_columns owner_node_id new_expiry (ls_fencing_token current))
             [("owner_node_id"%string, Some owner_node_id)]);
        mret (if (affected =? 0)%nat then None else Some (ls_fencing_token current))
      else
        node ← (if bool_decide (ls_owner_node_id current = EmptyString) then mret None
                else or_report [Lit "failed to read timer worker node '"; Lit (ls_owner_node_id current); Lit "': "]
                       (find_worker_node (ls_owner_node_id current)));
        let can_takeover := ls_expiry_time current <? now in
        dead ← (match node with
                | Some node => stale ← add_or_overflow now (- timeout_ms); mret (nd_last_heartbeat node <? stale)
                | None => mret false
                end);
        if can_takeover || dead then
          new_token ← add_or_overflow (ls_fencing_token current) 1;
          affected ← or_report (quoted "failed to takeover timer coordinator lease '")
            (cas_update timer_coordinator_leases lease_id
               (mkLease lease_id owner_node_id new_expiry new_token)
               (lease_columns owner_node_id new_expiry new_token)
               [("owner_node_id", Some (ls_owner_node_id current));
                ("fencing_token", Some (pretty (ls_fencing_token current)))]%string);
          mret (if (affected =? 0)%nat then None else Some new_token)
        else mret None
  | None =>
      insert_or_lost (quoted "failed to create timer coordinator lease '") (Some 1) None
        (insert_exclusive_with_extra timer_coordinator_leases lease_id
           (mkLease lease_id owner_node_id new_expiry 1) (lease_columns owner_node_id new_expiry 1))
  end.

Definition acquire_coordinator_lease (lease_id owner_node_id : string) (now timeout_ms : Z) : JM (option Z) :=
  new_expiry ← add_or_overflow now timeout_ms;
  found ← or_report [Lit "failed to read timer coordinator lease '"; Lit lease_id; Lit "': "]
            (job_find timer_coordinator_leases lease_id);
  coordinate_after_read lease_id owner_node_id now timeout_ms new_expiry found.

(** [unwrap_or_default() > 0]: an error of the update reads as no row. *)
Definition updated_or_false (r : JM nat) : JM bool :=
  fun s => match r s with
           | (Ok affected, s) => (Ok (0 <? affected)%nat, s)
           | (Err _, s) => (Ok false, s)
           end.

Definition release_coordinator_lease (lease_id owner_node_id : string) (fencing_token now : Z) : JM bool :=
  found ← job_find_or_note timer_coordinator_leases lease_id;
  match found with
  | None => mret false
  | Some current =>
      if bool_decide (ls_owner_node_id current = owner_node_id)
         && (ls_fencing_token current =? fencing_token) then
        released_token ← add_or_overflow (ls_fencing_token current) 1;
        expiry ← add_or_overflow now (-1);
        updated_or_false
          (cas_update timer_coordinator_leases lease_id
             (mkLease lease_id EmptyString expiry released_token)
             (lease_columns EmptyString expiry released_token)
             [("owner_node_id", Some owner_node_id);
              ("fencing_token", Some (pretty fencing_token))]%string)
      else mret false
  end.

(** ** The lock of a process instance *)
Definition instance_lock_columns (owner : option string) (expiration : option Z) : Extras :=
  [("lock_owner", owner); ("lock_time", pretty <$> expiration)]%string.

(** [LOCK_TIME_] holds the expiration; what follows the read. *)
Definition lock_instance_after_read (process_instance_id lock_owner : string) (lock_expiration_ms now : Z)
  (found : option ProcessInstanceLockState) : JM bool :=
  let state := mkInstanceLock process_instance_id (Some lock_owner) (Some lock_expiration_ms) in
  let columns := instance_lock_columns (Some lock_owner) (Some lock_expiration_ms) in
  let quoted m := [Lit m; Lit process_instance_id; Lit "': "] in
  match found with
  | None =>
      insert_or_lost (quoted "failed to acquire process instance lock '") true false
        (insert_exclusive_with_extra process_instance_locks process_instance_id state columns)
  | Some current =>
      if match il_lock_time current with None => true | Some expiration => expiration <? now end then
        affected ← or_report (quoted "failed to takeover process instance lock '")
          (cas_update process_instance_locks process_instance_id state columns
             (instance_lock_columns (il_lock_owner current) (il_lock_time current)));
        mret (negb (affected =? 0)%nat)
      else mret false
  end.

Definition lock_process_instance (process_instance_id lock_owner : string) (lock_expiration_ms now : Z) : JM bool :=
  found ← or_report [Lit "failed to read process instance lock '"; Lit process_instance_id; Lit "': "]
            (job_find process_instance_locks process_instance_id);
  lock_instance_after_read process_instance_id lock_owner lock_expiration_ms now found.

Definition clear_process_instance_lock (process_instance_id : string) : JM unit :=
  fun s => (Ok tt, (job_delete process_instance_locks process_instance_id s).2).

Definition find_process_instance_lock (process_instance_id : string) : JM (option ProcessInstanceLockState) :=
  job_find_or_note process_instance_locks process_instance_id.

Close Scope Z_scope.

(** ** Leases exclude each other

    The text of a global lock reads back; executors that compete for a global
    lock, each reading and then writing in steps that interleave with the
    others', never hold it together while their leases run; the coordinator's
    fencing token only grows, and no two owners receive the same one. *)

Open Scope Z_scope.

(** ** The text of a lock *)
(** A printable ASCII character other than the separator. *)
Definition owner_char (a : ascii) : bool :=
  (byte_of a <? 128) && negb (is_whitespace (byte_of a)) && negb (Ascii.eqb a "|"%char).

Definition owner_ok (owner : string) : bool :=
  negb (bool_decide (owner = EmptyString)) && forallb owner_char (String.list_ascii_of_string owner).

Definition digit_or_minus (a : ascii) : bool := is_digit a || Ascii.eqb a "-"%char.

Lemma pretty_go_chars x s :
  forallb digit_or_minus (String.list_ascii_of_string s) = true ->
  forallb digit_or_minus (String.list_ascii_of_string (pretty_N_go x s)) = true.
Proof.
  revert s. induction (N.lt_wf_0 x) as [x _ IH]. intros s Hs.
  destruct (decide (x = 0)%N) as [->|Hx]; [by rewrite pretty_N_go_0|].
  rewrite pretty_N_go_step by lia. apply IH; [apply N.div_lt; lia|]. simpl. rewrite Hs, andb_true_r.
  assert (Hm : (x `mod` 10 < 10)%N) by (apply N.mod_lt; lia). revert Hm. generalize (x `mod` 10)%N. intros y Hy.
  assert (y = 0 \/ y = 1 \/ y = 2 \/ y = 3 \/ y = 4 \/ y = 5 \/ y = 6 \/ y = 7 \/ y = 8 \/ y = 9)%N as Hc by lia.
  by repeat (destruct Hc as [->|Hc]); subst.
Qed.

Lemma pretty_chars (n : Z) : forallb digit_or_minus (String.list_ascii_of_string (pretty n)) = true.
Proof.
  destruct n as [|p|p]; [done| |].
  - change (pretty (Z.pos p)) with (pretty (N.pos p)). unfold pretty, pretty_N. rewrite decide_False by lia.
    by apply pretty_go_chars.
  - change (pretty (Z.neg p)) with (String "-"%char (pretty (N.pos p))). unfold pretty, pretty_N.
    rewrite decide_False by lia. simpl. by apply pretty_go_chars.
Qed.

Lemma digit_or_minus_owner a : digit_or_minus a = true -> owner_char a = true.
Proof.
  unfold digit_or_minus. rewrite orb_true_iff, Ascii.eqb_eq. intros [H| ->]; [|done].
  unfold owner_char. destruct (is_digit_visible _ H) as [H1 H2]. rewrite H2, (proj2 (Z.ltb_lt _ _) H1). simpl.
  destruct (Ascii.eqb_spec a "|"%char) as [->|]; done.
Qed.

Lemma pretty_owner_chars (n : Z) : forallb owner_char (String.list_ascii_of_string (pretty n)) = true.
Proof.
  pose proof (pretty_chars n) as H. rewrite forallb_forall in *. intros a Ha. by apply digit_or_minus_owner, H.
Qed.

Lemma split_once_at s t :
  forallb owner_char (String.list_ascii_of_string s) = true ->
  split_once "|"%char (s +:+ String "|"%char t) = Some (s, t).
Proof.
  induction s as [|a s IH]; [done|]. simpl. rewrite andb_true_iff. intros [Ha Hs].
  destruct (Ascii.eqb_spec a "|"%char) as [->|]; [done|]. by rewrite IH.
Qed.

Lemma encode_trim owner a e :
  owner_ok owner = true -> trim (encode_property_lock_value owner a e) = encode_property_lock_value owner a e.
Proof.
  unfold owner_ok. rewrite andb_true_iff. intros [_ Ho]. unfold encode_property_lock_value.
  rewrite <- (String.string_of_list_ascii_of_string (owner +:+ _)). apply trim_visible.
  assert (Hv : forall s, forallb owner_char (String.list_ascii_of_string s) = true ->
                         Forall visible (String.list_ascii_of_string s)).
  { intros s Hs. apply Forall_forall. intros c Hc. rewrite forallb_forall in Hs.
    apply list_elem_of_In, Hs in Hc. unfold owner_char in Hc. rewrite !andb_true_iff, Z.ltb_lt, negb_true_iff in Hc.
    split; tauto. }
  assert (Happ : forall x y, String.list_ascii_of_string (x +:+ y)
                             = String.list_ascii_of_string x ++ String.list_ascii_of_string y).
  { induction x as [|c x IH]; intros y; [done|]. simpl. by rewrite IH. }
  rewrite !Happ. assert (Hbar : Forall visible (String.list_ascii_of_string "|")) by (by repeat constructor).
  repeat (apply Forall_app; split); first [done | apply Hv; solve [auto using pretty_owner_chars]].
Qed.

Lemma parse_encode owner a e :
  owner_ok owner = true -> is_i64 a -> is_i64 e ->
  parse_property_lock_state (encode_property_lock_value owner a e) = Held owner a e.
Proof.
  intros Ho Ha He. unfold parse_property_lock_state. rewrite encode_trim by done.
  pose proof Ho as Ho'. unfold owner_ok in Ho'. apply andb_true_iff in Ho' as [Hne Hc].
  apply negb_true_iff, bool_decide_eq_false in Hne. unfold encode_property_lock_value, splitn3.
  rewrite bool_decide_eq_false_2 by (by destruct owner).
  change ("|" +:+ pretty a +:+ "|" +:+ pretty e) with (String "|"%char (pretty a +:+ String "|"%char (pretty e))).
  rewrite split_once_at by done.
  rewrite split_once_at by apply pretty_owner_chars.
  rewrite bool_decide_eq_false_2 by done. simpl. by rewrite !parse_i64_pretty.
Qed.

(** The value of a held lock reads back as it was written, whatever the
    instants, for a non-empty owner of printable ASCII characters without the
    separator. *)
Theorem lock_value_roundtrip owner acquired_at_ms expiry_ms :
  owner_ok owner = true -> is_i64 acquired_at_ms -> is_i64 expiry_ms ->
  parse_property_lock_value (encode_property_lock_value owner acquired_at_ms expiry_ms)
  = Some (owner, acquired_at_ms, expiry_ms).
Proof. intros. unfold parse_property_lock_value. by rewrite parse_encode. Qed.

Lemma lock_value_roundtrip_witness :
  owner_ok "node-1:global-acquisition:42" = true /\ is_i64 1700000000000 /\ is_i64 (-5)
  /\ parse_property_lock_value (encode_property_lock_value "node-1:global-acquisition:42" 1700000000000 (-5))
     = Some ("node-1:global-acquisition:42"%string, 1700000000000, -5).
Proof.
  split_and!; [done|by split|by split|]. apply (lock_value_roundtrip "node-1:global-acquisition:42"); [done|by split|by split].
Defined.

(** ** Reading and writing the row of a lock *)
Section Lock.
Context (lock_name : string).

Notation row s := (js_properties s !! lock_name).

(** Revisions that are read back as they are stored. *)
Definition small_revision (s : JobSession) : Prop :=
  forall v r, row s = Some (v, r) -> 0 < r < 2 ^ 31.

Lemma as_i32_small r : 0 < r < 2 ^ 31 -> as_i32 r = r.
Proof. intros. unfold as_i32. rewrite Z.mod_small; lia. Qed.

Lemma find_property_small s found s' :
  small_revision s -> find_engine_property lock_name s = (Ok found, s') -> found = row s /\ s' = s.
Proof.
  intros Hs. unfold find_engine_property, ensure_job_open, mbind, stM_bind, get, mret, stM_ret.
  destruct (js_closed s); [done|]. intros [= <- <-]. split; [|done].
  destruct (row s) as [[v r]|] eqn:E; [|done]. simpl. by rewrite (as_i32_small _ (Hs _ _ E)).
Qed.

Lemma update_property_inv v rev s b s' :
  update_engine_property_if_revision lock_name v rev s = (Ok b, s') ->
  if b then (exists w, row s = Some (w, rev)) /\ row s' = Some (v, rev + 1) else s' = s.
Proof.
  unfold update_engine_property_if_revision, ensure_job_open, mbind, stM_bind, get, mret, stM_ret, modify.
  destruct (js_closed s); [done|]. destruct (row s) as [[w r]|] eqn:E; [|by intros [= <- <-]].
  destruct (Z.eqb_spec r rev) as [->|]; intros [= <- <-]; [|done]. simpl. rewrite lookup_insert_eq. eauto.
Qed.

Lemma update_property_err v rev s e s' :
  update_engine_property_if_revision lock_name v rev s = (Err e, s') -> s' = s.
Proof.
  unfold update_engine_property_if_revision, ensure_job_open, mbind, stM_bind, get, mret, stM_ret, modify.
  destruct (js_closed s); [by intros [= _ <-]|]. destruct (row s) as [[w r]|]; [|done]. by destruct (r =? rev).
Qed.

(** A lock that was won: the row was absent, or it was the one that was read
    and the lease in it was free, one's own, or over. *)
Lemma acquire_won owner now lease found s s' :
  acquire_after_read lock_name owner now lease found s = (Ok true, s') ->
  let value := encode_property_lock_value owner now (saturating_add now lease) in
  match found with
  | None => row s = None /\ row s' = Some (value, 1)
  | Some (v, r) =>
      (exists w, row s = Some (w, r)) /\ row s' = Some (value, r + 1)
      /\ match parse_property_lock_state v with
         | Free => True
         | Held o _ expiry => o = owner \/ expiry <= now
         | Corrupt => False
         end
  end.
Proof.
  cbv zeta. unfold acquire_after_read. destruct found as [[v r]|].
  - destruct (parse_property_lock_state v) as [|o a x|]; [|case_bool_decide; [|destruct (Z.leb_spec x now)]|done];
      intros Hu; try (by injection Hu); apply update_property_inv in Hu as [? ?]; auto.
  - unfold create_engine_property, ensure_job_open, mbind, stM_bind, get, modify, throw.
    destruct (js_closed s); [done|]. destruct (row s) eqn:E; [done|]. intros [= <-]. simpl.
    by rewrite lookup_insert_eq.
Qed.

(** Otherwise nothing was written. *)
Lemma acquire_lost owner now lease found s r s' :
  acquire_after_read lock_name owner now lease found s = (r, s') -> r <> Ok true -> s' = s.
Proof.
  unfold acquire_after_read. destruct found as [[v rev]|].
  - assert (Hu : forall x, update_engine_property_if_revision lock_name x rev s = (r, s') -> r <> Ok true -> s' = s).
    { intros x Hx Hr. destruct r as [[]|e]; [done| |by eapply update_property_err]. by apply update_property_inv in Hx. }
    destruct (parse_property_lock_state v) as [|o a x|];
      [apply Hu|case_bool_decide; [apply Hu|destruct (x <=? now); [apply Hu|]]|]; by intros [= _ <-].
  - unfold create_engine_property, ensure_job_open, mbind, stM_bind, get, modify, throw.
    destruct (js_closed s); [by intros [= _ <-]|]. destruct (row s); intros [= <- <-]; done.
Qed.

(** A release clears the row only if it is the one that was read and names the
    owner. *)
Lemma release_outcome owner found s r s' :
  release_after_read lock_name owner found s = (r, s') ->
  s' = s \/ exists v rev a x w, found = Some (v, rev) /\ parse_property_lock_state v = Held owner a x
                                /\ row s = Some (w, rev) /\ row s' = Some (EmptyString, rev + 1).
Proof.
  unfold release_after_read, parse_property_lock_value. destruct found as [[v rev]|]; [|intros [= _ <-]; auto].
  destruct (parse_property_lock_state v) as [|o a x|] eqn:Ep; [intros [= _ <-]; auto| |intros [= _ <-]; auto].
  case_bool_decide as Ho; [subst o|intros [= _ <-]; auto]. intros H.
  destruct r as [[]|e]; [|apply update_property_inv in H as ->; auto|apply update_property_err in H as ->; auto].
  apply update_property_inv in H as [[w Hw] Hr]. right. by exists v, rev, a, x, w.
Qed.

(** ** Executors that compete

    Every executor has an owner of its own.  An acquisition reads the clock and
    then the row, and writes later; in between other steps may run. *)
Context (lease_ms : Z) (owner_of : nat -> string).

Inductive Phase : Type :=
| Idle
| AcquireRead (now_ms : Z) (found : option (string * Z))
| ReleaseRead (found : option (string * Z)).

Record World := mkWorld {
  w_session : JobSession;
  w_now : Z;
  w_phase : nat -> Phase;
  w_held : nat -> option Z  (** the expiry of the lease an executor was granted *)
}.

Definition upd {A} (n : nat) (a : A) (f : nat -> A) : nat -> A := fun m => if decide (m = n) then a else f m.

Inductive lock_step : World -> World -> Prop :=
| step_tick s t t' ph h : t <= t' -> lock_step (mkWorld s t ph h) (mkWorld s t' ph h)
| step_other s s' t ph h :
    row s' = row s -> lock_step (mkWorld s t ph h) (mkWorld s' t ph h)
| step_begin_acquire s t ph h n now_ms found s' :
    ph n = Idle -> now_ms <= t -> is_i64 now_ms -> find_engine_property lock_name s = (Ok found, s') ->
    lock_step (mkWorld s t ph h) (mkWorld s' t (upd n (AcquireRead now_ms found) ph) h)
| step_acquired s t ph h n now_ms found s' :
    ph n = AcquireRead now_ms found ->
    acquire_after_read lock_name (owner_of n) now_ms lease_ms found s = (Ok true, s') ->
    lock_step (mkWorld s t ph h)
      (mkWorld s' t (upd n Idle ph) (upd n (Some (saturating_add now_ms lease_ms)) h))
| step_not_acquired s t ph h n now_ms found r s' :
    ph n = AcquireRead now_ms found ->
    acquire_after_read lock_name (owner_of n) now_ms lease_ms found s = (r, s') -> r <> Ok true ->
    lock_step (mkWorld s t ph h) (mkWorld s' t (upd n Idle ph) h)
| step_begin_release s t ph h n found s' :
    ph n = Idle -> find_engine_property lock_name s = (Ok found, s') ->
    lock_step (mkWorld s t ph h) (mkWorld s' t (upd n (ReleaseRead found) ph) h)
| step_released s t ph h n found r s' :
    ph n = ReleaseRead found -> release_after_read lock_name (owner_of n) found s = (r, s') ->
    lock_step (mkWorld s t ph h) (mkWorld s' t (upd n Idle ph) (upd n None h))
| step_crash s t ph h n : lock_step (mkWorld s t ph h) (mkWorld s t (upd n Idle ph) (upd n None h)).

(** Worlds reached with revisions that fit 32 bits. *)
Inductive lock_reachable : World -> Prop :=
| reach_start s t : small_revision s -> lock_reachable (mkWorld s t (fun _ => Idle) (fun _ => None))
| reach_step w w' : lock_reachable w -> lock_step w w' -> small_revision (w_session w') -> lock_reachable w'.

(** What an executor read is older than the row, or is the row. *)
Definition snapshot (s : JobSession) (found : option (string * Z)) : Prop :=
  match found with
  | None => True
  | Some (v, r) => exists w r', row s = Some (w, r') /\ r <= r' /\ (r = r' -> v = w)
  end.

Definition grant (s : JobSession) (n : nat) (expiry : Z) : Prop :=
  exists a r, row s = Some (encode_property_lock_value (owner_of n) a expiry, r) /\ is_i64 a /\ is_i64 expiry.

(** The row grows by revisions: a write replaces the row it was read from. *)
Definition grows (s s' : JobSession) : Prop :=
  row s' = row s
  \/ match row s with
     | None => True
     | Some (_, r) => exists v, row s' = Some (v, r + 1)
     end.

Definition phase_ok (s : JobSession) (now : Z) (p : Phase) : Prop :=
  match p with
  | Idle => True
  | AcquireRead t found => snapshot s found /\ t <= now /\ is_i64 t
  | ReleaseRead found => snapshot s found
  end.

Record lock_inv (w : World) : Prop := {
  inv_snapshot n : phase_ok (w_session w) (w_now w) (w_phase w n);
  inv_held n expiry : w_held w n = Some expiry -> expiry <= w_now w \/ grant (w_session w) n expiry
}.

Lemma snapshot_grows s s' found : grows s s' -> snapshot s found -> snapshot s' found.
Proof.
  unfold grows, snapshot. intros Hg. destruct found as [[v r]|]; [|done]. intros (w & r' & Hrow & Hle & Hv).
  destruct Hg as [Hg|Hg]; [rewrite Hg; eauto|]. rewrite Hrow in Hg. destruct Hg as [v' Hg].
  exists v', (r' + 1). split_and!; [done|lia|lia].
Qed.

Lemma phase_ok_grows s s' t t' p : grows s s' -> t <= t' -> phase_ok s t p -> phase_ok s' t' p.
Proof.
  intros Hg Ht. destruct p as [|u found|found]; simpl; [done| |eauto using snapshot_grows].
  intros (? & ? & ?). split_and!; [eauto using snapshot_grows|lia|done].
Qed.

Lemma phases_step s s' t t' ph n p :
  grows s s' -> t <= t' -> (forall m, phase_ok s t (ph m)) -> phase_ok s' t' p ->
  forall m, phase_ok s' t' (upd n p ph m).
Proof. intros Hg Ht Hph Hp m. unfold upd. case_decide; [done|]. by eapply phase_ok_grows. Qed.

Lemma phases_idle s s' t ph n :
  grows s s' -> (forall m, phase_ok s t (ph m)) -> forall m, phase_ok s' t (upd n Idle ph m).
Proof. intros Hg Hph. eapply phases_step; [exact Hg|reflexivity|exact Hph|done]. Qed.

Lemma grows_refl s : grows s s.
Proof. by left. Qed.

Lemma read_snapshot s : snapshot s (row s).
Proof. unfold snapshot. destruct (row s) as [[v r]|] eqn:E; [|done]. exists v, r. by split_and!. Qed.

Context (owner_inj : forall n m, owner_of n = owner_of m -> n = m)
  (owners_ok : forall n, owner_ok (owner_of n) = true).

(** A lease that still runs is the one in the row; it belongs to whoever the row
    names. *)
Lemma grant_parse s n expiry v r :
  grant s n expiry -> row s = Some (v, r) -> exists a, parse_property_lock_state v = Held (owner_of n) a expiry.
Proof.
  intros (a & r' & Hrow & Ha & He) Hv. rewrite Hrow in Hv. injection Hv as <- <-. exists a. by apply parse_encode.
Qed.

(** Winning the lock: nobody else's lease still runs. *)
Lemma won_excludes w n t found s' m expiry :
  lock_inv w -> small_revision (w_session w) -> w_phase w n = AcquireRead t found ->
  acquire_after_read lock_name (owner_of n) t lease_ms found (w_session w) = (Ok true, s') ->
  m <> n -> w_held w m = Some expiry -> expiry <= w_now w.
Proof.
  intros [Hsn Hh] Hsm Hp Ha Hne Hm. specialize (Hsn n). rewrite Hp in Hsn. destruct Hsn as (Hsn & Ht & _).
  destruct (Hh m expiry Hm) as [|Hg]; [done|]. apply acquire_won in Ha. cbv zeta in Ha.
  destruct found as [[v r]|].
  - destruct Ha as ([w' Hw'] & _ & Hparse). destruct Hsn as (w2 & r2 & Hrow & _ & Hv).
    rewrite Hw' in Hrow. injection Hrow as <- <-. specialize (Hv eq_refl) as ->.
    destruct (grant_parse _ _ _ _ _ Hg Hw') as [a Ep]. rewrite Ep in Hparse.
    destruct Hparse as [E|]; [|lia]. by apply owner_inj in E.
  - destruct Ha as [Hnone _]. destruct Hg as (a & r & Hrow & _). congruence.
Qed.

Lemma lock_inv_step w w' :
  lock_inv w -> small_revision (w_session w) -> lock_step w w' -> lock_inv w'.
Proof.
  intros I Hsm Hst. pose proof (inv_snapshot _ I) as Iph. pose proof (inv_held _ I) as Ih.
  destruct Hst as [s t t' ph h Ht|s s' t ph h Hrow|s t ph h n u found s' Hn Hu Hi Hf|s t ph h n u found s' Hn Ha
                  |s t ph h n u found r s' Hn Ha Hr|s t ph h n found s' Hn Hf|s t ph h n found r s' Hn Hr|s t ph h n];
    simpl in *.
  - split; simpl; [intros n; eapply phase_ok_grows; [by left|exact Ht|apply Iph]|].
    intros n e He. destruct (Ih n e He); [left; lia|by right].
  - split; simpl; [intros n; eapply phase_ok_grows; [by left|reflexivity|apply Iph]|].
    intros n e He. unfold grant. rewrite Hrow. by apply Ih.
  - apply find_property_small in Hf as [-> ->]; [|done]. split; simpl; [|done].
    eapply phases_step; [by left|reflexivity|apply Iph|]. split_and!; [apply read_snapshot|done|done].
  - pose proof (fun m e => won_excludes _ n u found s' m e I Hsm Hn Ha) as Hx. simpl in Hx.
    pose proof (Iph n) as Hsn. rewrite Hn in Hsn. destruct Hsn as (Hsn & Hu & Hi).
    pose proof (acquire_won _ _ _ _ _ _ Ha) as Hw. cbv zeta in Hw.
    assert (Hg : grows s s').
    { right. destruct found as [[v r]|]; [|by destruct Hw as [-> _]]. destruct Hw as ([w ->] & -> & _). eauto. }
    assert (Hgr : grant s' n (saturating_add u lease_ms)).
    { destruct found as [[v r]|]; destruct Hw as [_ Hw]; [destruct Hw as [Hw _]|]; do 2 eexists;
        (split_and!; [exact Hw|done|apply saturating_add_i64]). }
    split; simpl; [by eapply phases_idle|].
    intros m e. unfold upd. case_decide as Hm; [intros [= <-]; subst; by right|]. intros He. left. by eapply Hx.
  - apply acquire_lost in Ha as ->; [|done]. split; simpl; [|done]. eauto using phases_idle, grows_refl.
  - apply find_property_small in Hf as [-> ->]; [|done]. split; simpl; [|done].
    eapply phases_step; [by left|reflexivity|apply Iph|]. apply read_snapshot.
  - pose proof (Iph n) as Hsn. rewrite Hn in Hsn. simpl in Hsn.
    apply release_outcome in Hr as [->|(v & rev & a & x & w & -> & Hp & Hw & Hw')].
    + split; simpl; [eauto using phases_idle, grows_refl|]. intros m e. unfold upd. case_decide; [done|]. apply Ih.
    + assert (Hg : grows s s') by (right; rewrite Hw; eauto). split; simpl; [by eapply phases_idle|].
      intros m e. unfold upd. case_decide as Hm; [done|]. intros He. left. destruct (Ih m e He) as [|Hgr]; [done|].
      destruct Hsn as (w2 & r2 & Hrow & _ & Hv). rewrite Hw in Hrow. injection Hrow as <- <-.
      specialize (Hv eq_refl) as ->. destruct (grant_parse _ _ _ _ _ Hgr Hw) as [b Ep].
      rewrite Ep in Hp. injection Hp as Hp _ _. by apply owner_inj in Hp.
  - split; simpl; [eauto using phases_idle, grows_refl|]. intros m e. unfold upd. case_decide; [done|]. apply Ih.
Qed.

Lemma lock_reachable_inv w : lock_reachable w -> lock_inv w /\ small_revision (w_session w).
Proof.
  induction 1 as [s t Hs|w w' _ [I Hs] Hst Hs']; [by split; [split|]|]. split; [by eapply lock_inv_step|done].
Qed.

(** C13: the global lock excludes.  Executors, each with an owner text of its own
    (not empty, ASCII, without blanks and without a bar), acquire and release the lock; the read of the row and the
    write after it are separate steps, so that steps of others may come in between,
    and an executor may crash at any time.  The time of the world does not go back,
    and no executor's clock is ahead of it when it acquires (it may be behind);
    readings of clocks fit in 64 bits; the revisions of the row stay below 2^31; and
    other transactions of the database never touch the row of the lock.  In every
    world reached this way, two executors whose leases both still run, by the time of
    the world, are the same one. *)
Theorem global_lock_exclusive w n m expiry expiry' :
  lock_reachable w -> w_held w n = Some expiry -> w_held w m = Some expiry' ->
  w_now w < expiry -> w_now w < expiry' -> n = m.
Proof.
  intros Hw Hn Hm Ht Ht'. apply lock_reachable_inv in Hw as [I _].
  destruct (inv_held _ I _ _ Hn) as [|Gn]; [lia|]. destruct (inv_held _ I _ _ Hm) as [|Gm]; [lia|].
  pose proof Gn as (a & r & Hrow & _).
  destruct (grant_parse _ _ _ _ _ Gn Hrow) as [b Eb]. destruct (grant_parse _ _ _ _ _ Gm Hrow) as [c Ec].
  rewrite Eb in Ec. injection Ec as E _ _. by apply owner_inj.
Qed.
End Lock.

(** ** The coordinator's fencing token *)
Section Coordinator.
Context (lease_id : string).

Definition lease_of (s : JobSession) : option TimerCoordinatorLease := cas_data <$> js_leases s !! lease_id.

Lemma cas_lease_inv data extras conditions s n s' :
  cas_update timer_coordinator_leases lease_id data extras conditions s = (Ok n, s') ->
  (n = 0%nat /\ s' = s) \/ (n = 1%nat /\ lease_of s' = Some data).
Proof.
  unfold cas_update, ensure_job_open, mbind, stM_bind, get, mret, stM_ret, modify, lease_of.
  destruct (js_closed s); [done|]. simpl (jget _ _). destruct (js_leases s !! lease_id) as [r|]; [|intros [= <- <-]; auto].
  case_match; intros [= <- <-]; [|auto]. simpl. rewrite lookup_insert_eq. auto.
Qed.

Lemma cas_lease_err data extras conditions s e s' :
  cas_update timer_coordinator_leases lease_id data extras conditions s = (Err e, s') -> s' = s.
Proof.
  unfold cas_update, ensure_job_open, mbind, stM_bind, get, mret, stM_ret, modify.
  destruct (js_closed s); [by intros [= _ <-]|]. simpl (jget _ _). destruct (js_leases s !! lease_id); [|done].
  by case_match.
Qed.

(** A report of an error only notes it. *)
Lemma or_report_lease {A} m (c : JM A) s r s' :
  or_report m c s = (r, s') -> exists r0 s0, c s = (r0, s0) /\ lease_of s' = lease_of s0
                                             /\ match r with
                                                | Ok a => r0 = Ok a /\ s0 = s'
                                                | Err _ => exists e, r0 = Err e
                                                end.
Proof.
  unfold or_report. destruct (c s) as [[a|e] s0]; [intros [= <- <-]; eauto 10|].
  destruct e; intros [= <- <-]; do 2 eexists; (split_and!; [done|done|eauto]).
Qed.

Lemma insert_lost_lease data extras m s r s' :
  insert_or_lost m (Some 1) None
    (insert_exclusive_with_extra timer_coordinator_leases lease_id data extras) s = (r, s') ->
  (r = Ok (Some 1) /\ lease_of s = None /\ lease_of s' = Some data)
  \/ ((forall t, r <> Ok (Some t)) /\ lease_of s' = lease_of s).
Proof.
  unfold insert_or_lost, insert_exclusive_with_extra, ensure_job_open, mbind, stM_bind, get, throw, modify, lease_of.
  destruct (js_closed s); [intros [= <- <-]; auto|]. simpl (jget _ _).
  destruct (js_leases s !! lease_id) eqn:E; intros [= <- <-].
  - right. split; [done|by rewrite E].
  - left. split_and!; [done..|]. simpl. by rewrite lookup_insert_eq.
Qed.

(** The token an acquisition returns, from the lease it found: a first lease has
    token 1, a renewal keeps the token, a takeover adds one. *)
Definition next_token (owner : string) (found : option TimerCoordinatorLease) (token : Z) : Prop :=
  match found with
  | None => token = 1
  | Some c => if decide (ls_owner_node_id c = owner) then token = ls_fencing_token c
              else token = ls_fencing_token c + 1
  end.

Lemma bind_cases {S E A B} (m : stM S E A) (f : A -> stM S E B) s r s' :
  (m ≫= f) s = (r, s') ->
  (exists a s1, m s = (Ok a, s1) /\ f a s1 = (r, s')) \/ (exists e, m s = (Err e, s') /\ r = Err e).
Proof. unfold mbind, stM_bind. destruct (m s) as [[a|e] s1]; [eauto|intros [= <- <-]; eauto]. Qed.

Lemma add_or_overflow_state a b s r s' : add_or_overflow a b s = (r, s') -> s' = s /\ (forall n, r = Ok n -> n = a + b).
Proof. unfold add_or_overflow. case_match; intros [= <- <-]; split; by try intros n [= <-]. Qed.

(** The write of a renewal or a takeover. *)
Lemma lease_write_outcome m data extras conditions token s r s' :
  ((affected ← or_report m (cas_update timer_coordinator_leases lease_id data extras conditions);
    mret (if (affected =? 0)%nat then None else Some token)) : JM (option Z)) s = (r, s') ->
  (r = Ok (Some token) /\ lease_of s' = Some data) \/ ((forall t, r <> Ok (Some t)) /\ lease_of s' = lease_of s).
Proof.
  intros H. apply bind_cases in H as [(n & s1 & H & Hr)|(e & H & ->)];
    apply or_report_lease in H as (r0 & s0 & Hc & Hl & Hok).
  - destruct Hok as [-> ->]. apply cas_lease_inv in Hc as [[-> ->]|[-> Hd]]; injection Hr as <- <-; auto.
  - destruct Hok as [e0 ->]. right. split; [done|]. by rewrite Hl, (cas_lease_err _ _ _ _ _ _ Hc).
Qed.

(** Every outcome of an acquisition: the lease is the caller's with the token
    returned, or it is what it was. *)
Lemma acquire_lease_outcome owner now timeout s r s' :
  acquire_coordinator_lease lease_id owner now timeout s = (r, s') ->
  match r with
  | Ok (Some token) => next_token owner (lease_of s) token
      /\ exists expiry, lease_of s' = Some (mkLease lease_id owner expiry token)
  | _ => lease_of s' = lease_of s
  end.
Proof.
  assert (Hlost : (forall t, r <> Ok (Some t)) -> lease_of s' = lease_of s ->
    match r with Ok (Some token) => next_token owner (lease_of s) token
      /\ exists expiry, lease_of s' = Some (mkLease lease_id owner expiry token) | _ => lease_of s' = lease_of s end).
  { intros Hr Hl. destruct r as [[t|]|]; [by destruct (Hr t)|done|done]. }
  unfold acquire_coordinator_lease. intros H.
  apply bind_cases in H as [(expiry & s1 & [-> _]%add_or_overflow_state & H)|(e & [-> _]%add_or_overflow_state & ->)]; [|done].
  apply bind_cases in H as [(found & s1 & Hf & H)|(e & Hf & ->)];
    apply or_report_lease in Hf as (r0 & s0 & Hf & Hl & Hok);
    unfold job_find, ensure_job_open, mbind at 1 2, stM_bind, get, mret, stM_ret in Hf.
  2: { simpl. rewrite Hl. by destruct (js_closed s); injection Hf as <- <-. }
  destruct Hok as [-> ->]. destruct (js_closed s) eqn:Ho; [done|]. injection Hf as <- <-. fold (lease_of s) in H.
  unfold coordinate_after_read in H. cbv zeta in H. unfold next_token in *.
  destruct (lease_of s) as [c|] eqn:Ec.
  - case_bool_decide as Howner.
    + apply lease_write_outcome in H as [[-> Hd]|[Hr Hd]]; [|apply Hlost; [done|congruence]].
      rewrite decide_True by done. eauto.
    + assert (Hnode : forall r1 s1, (if bool_decide (ls_owner_node_id c = EmptyString) then mret None
          else or_report [Lit "failed to read timer worker node '"; Lit (ls_owner_node_id c); Lit "': "]
                 (find_worker_node (ls_owner_node_id c))) s = (r1, s1) -> lease_of s1 = lease_of s).
      { intros r1 s1. case_bool_decide; [by intros [= _ <-]|].
        intros (r0 & s0 & Hf & Hl' & _)%or_report_lease. rewrite Hl'.
        unfold find_worker_node, ensure_job_open, mbind, stM_bind, get in Hf. rewrite Ho in Hf. by injection Hf as _ <-. }
      apply bind_cases in H as [(node & s1 & Hn & H)|(e & Hn & ->)]; [|by rewrite (Hnode _ _ Hn)].
      apply Hnode in Hn. rewrite Ec in Hn.
      assert (Hdead : forall r2 s2, match node with
          | Some node => stale ← add_or_overflow now (- timeout); mret (nd_last_heartbeat node <? stale)
          | None => mret false end s1 = (r2, s2) -> s2 = s1).
      { intros r2 s2. destruct node; [|by intros [= _ <-]].
        intros [(x & s3 & [-> _]%add_or_overflow_state & Hd)|(e & [-> _]%add_or_overflow_state & _)]%bind_cases; [|done].
        by injection Hd. }
      apply bind_cases in H as [(dead & s2 & ->%Hdead & H)|(e & ->%Hdead & ->)]; [|done].
      destruct ((ls_expiry_time c <? now) || dead); [|injection H as <- <-; done].
      apply bind_cases in H as [(tok & s2 & [-> Htok]%add_or_overflow_state & H)|(e & [-> _]%add_or_overflow_state & ->)];
        [|done].
      apply lease_write_outcome in H as [[-> Hd']|[Hr Hd']]; [|apply Hlost; [done|congruence]].
      rewrite decide_False by done. split; [by apply Htok|eauto].
  - apply insert_lost_lease in H as [(-> & _ & Hd)|[Hr Hd]]; [eauto|apply Hlost; [done|congruence]].
Qed.

Lemma release_lease_outcome owner token now s r s' :
  release_coordinator_lease lease_id owner token now s = (r, s') ->
  lease_of s' = lease_of s
  \/ exists c expiry, lease_of s = Some c /\ ls_owner_node_id c = owner /\ ls_fencing_token c = token
                      /\ lease_of s' = Some (mkLease lease_id EmptyString expiry (token + 1)).
Proof.
  unfold release_coordinator_lease. intros H.
  apply bind_cases in H as [(found & s1 & Hf & H)|(e & Hf & ->)];
    unfold job_find_or_note, job_find, ensure_job_open, mbind, stM_bind, get, mret, stM_ret in Hf;
    destruct (js_closed s) eqn:Ho; try done; injection Hf as <- <-; [by injection H as <- <-; left|].
  fold (lease_of s) in H. destruct (lease_of s) as [c|] eqn:Ec; [|injection H as <- <-; auto].
  destruct (bool_decide _ && _) eqn:Em; [|injection H as <- <-; auto]. apply andb_true_iff in Em as [Hown%bool_decide_eq_true Ht%Z.eqb_eq].
  apply bind_cases in H as [(rt & s1 & [-> Hrt]%add_or_overflow_state & H)|(e & [-> _]%add_or_overflow_state & ->)]; [|auto].
  specialize (Hrt rt eq_refl) as ->.
  apply bind_cases in H as [(expiry & s1 & [-> _]%add_or_overflow_state & H)|(e & [-> _]%add_or_overflow_state & ->)]; [|auto].
  unfold updated_or_false in H. destruct (cas_update _ _ _ _ _ s) as [[n|e] s1] eqn:Hc; injection H as <- <-.
  - apply cas_lease_inv in Hc as [[_ ->]|[_ Hd]]; [auto|]. right. exists c, expiry. by rewrite <- Ht.
  - apply cas_lease_err in Hc as ->. auto.
Qed.

(** Runs of the coordinators' commands, with the grants they made, the last
    first. *)
Inductive coordinators : JobSession -> list (string * Z) -> Prop :=
| coord_start s : lease_of s = None -> coordinators s []
| coord_acquire s g owner now timeout r s' :
    coordinators s g -> acquire_coordinator_lease lease_id owner now timeout s = (r, s') ->
    coordinators s' match r with Ok (Some token) => (owner, token) :: g | _ => g end
| coord_release s g owner token now r s' :
    coordinators s g -> release_coordinator_lease lease_id owner token now s = (r, s') -> coordinators s' g
| coord_other s g s' : coordinators s g -> lease_of s' = lease_of s -> coordinators s' g.

(** Grants up to the current token, those with the current token to the current
    owner. *)
Definition grants_below (s : JobSession) (g : list (string * Z)) : Prop :=
  match lease_of s with
  | None => g = []
  | Some c => Forall (fun og => og.2 <= ls_fencing_token c
                                /\ (og.2 = ls_fencing_token c -> og.1 = ls_owner_node_id c)) g
  end.

Definition grants_ordered (g : list (string * Z)) : Prop :=
  StronglySorted (fun a b => b.2 <= a.2 /\ (b.2 = a.2 -> b.1 = a.1)) g.

Lemma coordinators_inv s g : coordinators s g -> grants_below s g /\ grants_ordered g.
Proof.
  induction 1 as [s Hs|s g owner now timeout r s' _ [IH1 IH2] Ha|s g owner token now r s' _ [IH1 IH2] Hr
                 |s g s' _ [IH1 IH2] Hl]; unfold grants_below in *.
  - rewrite Hs. split; [done|constructor].
  - apply acquire_lease_outcome in Ha. destruct r as [[tok|]|]; [|by rewrite Ha..].
    destruct Ha as [Hnext [expiry Hl]]. rewrite Hl. simpl. unfold next_token in Hnext.
    assert (Hg : Forall (fun og => og.2 <= tok /\ (og.2 = tok -> og.1 = owner)) g).
    { destruct (lease_of s) as [c|]; [|by subst g]. eapply Forall_impl; [exact IH1|]. intros [o t] [H1 H2]. simpl in *.
      case_decide; subst; [auto|]. split; [lia|lia]. }
    split; [by constructor|]. constructor; [done|]. done.
  - split; [|done]. apply release_lease_outcome in Hr as [->|(c & expiry & Hc & Ho & Ht & ->)]; [done|].
    rewrite Hc in IH1. eapply Forall_impl; [exact IH1|]. intros [o t] [H1 H2]. simpl in *. subst. split; lia.
  - by rewrite Hl.
Qed.

(** Fencing tokens identify their owner: over any run of acquisitions,
    takeovers, renewals and releases, the tokens granted never decrease and a
    token granted to one node is never granted to another. *)
Theorem fencing_tokens_unique s g :
  coordinators s g ->
  grants_ordered g
  /\ (forall owner owner' token, (owner, token) ∈ g -> (owner', token) ∈ g -> owner = owner').
Proof.
  intros [_ Hg]%coordinators_inv. split; [done|]. intros o o' t. revert Hg.
  induction 1 as [|a g _ IH Ha]; [by intros ?%elem_of_nil|]. rewrite Forall_forall in Ha.
  intros [E1|H1]%elem_of_cons [E2|H2]%elem_of_cons; [congruence| | |by apply IH].
  - subst a. symmetry. by apply (Ha _ H2).
  - subst a. by apply (Ha _ H1).
Qed.
End Coordinator.

Close Scope Z_scope.
