(* ===== verification/Chrono.v ===== *)
(** * Instants, calendar dates and ISO-8601 durations

    What [engine/time_source.rs] computes with: the instants of the [chrono]
    package, which is not part of the repository and is the interface [Chrono] here,
    and the parsed duration [IsoDuration] with its calendar addition.

    An instant ([DateTime<Utc>]) is its number of nanoseconds since the epoch, a
    [TimeDelta] a number of nanoseconds; leap seconds, which the package can
    represent inside a second, are left out.  [ChronoLaws] states what the
    package's documentation promises of the fields of an instant (the proleptic
    Gregorian calendar), of the constructors from fields and of the texts. *)
From stdpp Require Import pretty.
From Stdlib Require Import Ascii.
From S2P Require Import Prelude Chars Float64 Numerals Json Errors ElValues JobTypes Leases.

Open Scope Z_scope.

(** ** Loops with an early exit *)

(** A turn of a loop: another turn from a state, or the loop's result. *)
Inductive Turn (S R : Type) : Type :=
| Again (s : S)
| Stop (r : R).
Arguments Again {S R} _.
Arguments Stop {S R} _.

(** [for _ in 0..n] with a [return] in its body, [n] in binary. *)
Fixpoint at_most {S R} (n : positive) (turn : S -> Turn S R) (s : S) : Turn S R :=
  let and_then q (t : Turn S R) := match t with Again s => at_most q turn s | Stop r => Stop r end in
  match n with
  | xH => turn s
  | xO q => and_then q (at_most q turn s)
  | xI q => and_then q (and_then q (turn s))
  end.

(** ** Units, in nanoseconds *)
Notation MILLI := 1000000 (only parsing).
Notation SECOND := 1000000000 (only parsing).
Notation MINUTE := 60000000000 (only parsing).
Notation HOUR := 3600000000000 (only parsing).
Notation DAY := 86400000000000 (only parsing).

(** ** The interface of the package *)
Class Chrono := {
  utc_min : Z;                       (* DateTime::<Utc>::MIN_UTC *)
  utc_max : Z;                       (* DateTime::<Utc>::MAX_UTC *)
  utc_year : Z -> Z;
  utc_month : Z -> Z;                (* 1 to 12 *)
  utc_day : Z -> Z;
  utc_hour : Z -> Z;
  utc_minute : Z -> Z;
  utc_second : Z -> Z;
  utc_nanosecond : Z -> Z;
  num_days_from_sunday : Z -> Z;     (* of weekday() *)
  with_ymd_and_hms : Z -> Z -> Z -> Z -> Z -> Z -> option Z;  (* Utc.with_ymd_and_hms(..).single() *)
  with_hour : Z -> Z -> option Z;
  with_minute : Z -> Z -> option Z;
  with_second : Z -> Z -> option Z;
  with_nanosecond : Z -> Z -> option Z;
  parse_from_rfc3339 : string -> option Z;
  parse_naive_date_time : string -> string -> option Z;       (* format, text; read as UTC *)
  parse_naive_date : string -> string -> option Z;            (* format, text; its midnight *)
  to_rfc3339 : Z -> string;
  to_rfc3339_millis : Z -> string    (* to_rfc3339_opts(SecondsFormat::Millis, true) *)
}.

Definition in_range `{Chrono} (t : Z) : Prop := utc_min <= t <= utc_max.

(** The length of a month of the Gregorian calendar. *)
Definition gregorian_leap (y : Z) : bool := (y mod 4 =? 0) && (negb (y mod 100 =? 0) || (y mod 400 =? 0)).
Definition gregorian_days (y m : Z) : Z :=
  if m =? 2 then (if gregorian_leap y then 29 else 28)
  else if (m =? 4) || (m =? 6) || (m =? 9) || (m =? 11) then 30 else 31.

Definition date_valid (y m d : Z) : Prop := 1 <= m <= 12 /\ 1 <= d <= gregorian_days y m.

(** The order of dates. *)
Definition date_lt (a b : Z * Z * Z) : Prop :=
  let '(y, m, d) := a in
  let '(y', m', d') := b in
  y < y' \/ y = y' /\ (m < m' \/ m = m' /\ d < d').

Definition utc_date `{Chrono} (t : Z) : Z * Z * Z := (utc_year t, utc_month t, utc_day t).

(** The characters of an RFC 3339 text. *)
Definition rfc3339_char (a : ascii) : bool :=
  is_digit a || existsb (Ascii.eqb a) ["-"; ":"; "."; "T"; "Z"; "+"]%char.

Class ChronoLaws `{Chrono} : Prop := {
  (** The time of day is the instant's place in its day. *)
  hour_law t : in_range t -> utc_hour t = (t / HOUR) mod 24;
  minute_law t : in_range t -> utc_minute t = (t / MINUTE) mod 60;
  second_law t : in_range t -> utc_second t = (t / SECOND) mod 60;
  nanosecond_law t : in_range t -> utc_nanosecond t = t mod SECOND;
  (** The first of January 1970 was a Thursday. *)
  weekday_law t : in_range t -> num_days_from_sunday t = (t / DAY + 4) mod 7;
  (** Changing one field of the time of day keeps the others. *)
  with_hour_law t h : in_range t -> 0 <= h < 24 -> with_hour t h = Some (t + (h - utc_hour t) * HOUR);
  with_minute_law t m : in_range t -> 0 <= m < 60 -> with_minute t m = Some (t + (m - utc_minute t) * MINUTE);
  with_second_law t s : in_range t -> 0 <= s < 60 -> with_second t s = Some (t + (s - utc_second t) * SECOND);
  with_nanosecond_law t n : in_range t -> 0 <= n < SECOND ->
    with_nanosecond t n = Some (t + (n - utc_nanosecond t));
  (** The representable instants are whole days, and whole years. *)
  range_law : utc_min mod DAY = 0 /\ utc_max mod DAY = DAY - 1 /\ utc_min <= 0 <= utc_max;
  year_width_law t : in_range t -> i32_min <= utc_year t <= i32_max;
  last_date_law t : in_range t -> utc_year t <= utc_year utc_max /\ utc_month utc_max = 12;
  (** Dates are valid, the same throughout a day, and later on later days. *)
  date_law t : in_range t -> date_valid (utc_year t) (utc_month t) (utc_day t);
  same_day_law t u : in_range t -> in_range u -> t / DAY = u / DAY -> utc_date t = utc_date u;
  later_day_law t u : in_range t -> in_range u -> t / DAY < u / DAY -> date_lt (utc_date t) (utc_date u);
  (** An instant built from fields has these fields; it exists when they are a
      date and a time of day and the year is one of the representable ones. *)
  ymd_law y m d h mi s t : with_ymd_and_hms y m d h mi s = Some t ->
    in_range t /\ utc_date t = (y, m, d)
    /\ utc_hour t = h /\ utc_minute t = mi /\ utc_second t = s /\ utc_nanosecond t = 0;
  ymd_exists_law y m d h mi s :
    date_valid y m d -> 0 <= h < 24 -> 0 <= mi < 60 -> 0 <= s < 60 ->
    utc_year utc_min <= y <= utc_year utc_max -> with_ymd_and_hms y m d h mi s ≠ None;
  (** The text of an instant of a year of four digits reads back, to the millisecond. *)
  rfc3339_law t : in_range t -> 0 <= utc_year t <= 9999 ->
    parse_from_rfc3339 (to_rfc3339_millis t) = Some (t / MILLI * MILLI);
  rfc3339_text_law t : in_range t -> 0 <= utc_year t <= 9999 ->
    exists a s, to_rfc3339_millis t = String a s /\ is_digit a = true
      /\ Forall (fun b => rfc3339_char b = true) (String.list_ascii_of_string s)
}.

(** ** Durations *)
Record IsoDuration := mkIso {
  iso_years : Z; iso_months : Z; iso_weeks : Z; iso_days : Z;
  iso_hours : Z; iso_minutes : Z; iso_seconds : Z; iso_millis : Z
}.

Definition iso_zero : IsoDuration := mkIso 0 0 0 0 0 0 0 0.

(** [i32] addition; [None] is the overflow panic. *)
Definition add_i32 (a b : Z) : option Z := if (i32_min <=? a + b) && (a + b <=? i32_max) then Some (a + b) else None.

(** The number before a designator: whole part and milliseconds.  A part that
    does not fit 32 bits reads as zero. *)
Definition designated_number (current_num : string) : Z * Z :=
  match split_once "."%char current_num with
  | Some (whole, frac) =>
      let digits := String.string_of_list_ascii (take 3 (String.list_ascii_of_string frac ++ ["0"; "0"; "0"]%char)) in
      (default 0 (parse_i32 whole), default 0 (parse_i32 digits))
  | None => (default 0 (parse_i32 current_num), 0)
  end.

(** [Err] is the overflow of a sum, [Ok None] a character that is no designator. *)
Definition add_designator (c : ascii) (is_time : bool) (n millis : Z) (d : IsoDuration)
  : result JobStop (option IsoDuration) :=
  let '(mkIso y mo w da h mi se ms) := d in
  let set (o : option Z) (k : Z -> IsoDuration) :=
    match o with Some x => Ok (Some (k x)) | None => Err Overflowed end in
  if is_time then
    if Ascii.eqb c "H" then set (add_i32 h n) (fun h => mkIso y mo w da h mi se ms)
    else if Ascii.eqb c "M" then set (add_i32 mi n) (fun mi => mkIso y mo w da h mi se ms)
    else if Ascii.eqb c "S" then
      match add_i32 se n with
      | Some se => set (add_i32 ms millis) (fun ms => mkIso y mo w da h mi se ms)
      | None => Err Overflowed
      end
    else Ok None
  else
    if Ascii.eqb c "Y" then set (add_i32 y n) (fun y => mkIso y mo w da h mi se ms)
    else if Ascii.eqb c "M" then set (add_i32 mo n) (fun mo => mkIso y mo w da h mi se ms)
    else if Ascii.eqb c "W" then set (add_i32 w n) (fun w => mkIso y mo w da h mi se ms)
    else if Ascii.eqb c "D" then set (add_i32 da n) (fun da => mkIso y mo w da h mi se ms)
    else Ok None.

(** The loop over the characters after [P]; [current_num] in order. *)
Fixpoint duration_loop (s : string) (is_time saw_designator : bool) (current_num : string) (d : IsoDuration)
  : result JobStop (option IsoDuration) :=
  match s with
  | EmptyString => Ok (if saw_designator then Some d else None)
  | String c s =>
      if Ascii.eqb c "T" then duration_loop s true saw_designator EmptyString d
      else if Ascii.eqb c "." || Ascii.eqb c "," then
        duration_loop s is_time saw_designator
          (if bool_decide (current_num = EmptyString) || str_contains current_num "."
           then current_num else current_num +:+ ".") d
      else if is_digit c then duration_loop s is_time saw_designator (current_num +:+ String c EmptyString) d
      else if bool_decide (current_num = EmptyString) then Ok None
      else
        let '(n, millis) := designated_number current_num in
        match add_designator c is_time n millis d with
        | Ok (Some d) => duration_loop s is_time true EmptyString d
        | r => r
        end
  end.

Definition parse_iso8601_duration_parts (duration : string) : result JobStop (option IsoDuration) :=
  match trim duration with
  | String c rest => if Ascii.eqb c "P" then duration_loop rest false false EmptyString iso_zero else Ok None
  | EmptyString => Ok None
  end.

(** Every part is non-negative, so a sum that fits [i64] has no partial sum or
    product that does not. *)
Definition to_approx_millis (d : IsoDuration) : result JobStop Z :=
  let days := iso_years d * 365 + iso_months d * 30 + iso_weeks d * 7 + iso_days d in
  let total := days * 24 * 60 * 60 * 1000 + iso_hours d * 60 * 60 * 1000 + iso_minutes d * 60 * 1000
               + iso_seconds d * 1000 + iso_millis d in
  if total <=? i64_max then Ok total else Err Overflowed.

(** [str::split(c)]. *)
Fixpoint split_all (c : ascii) (s : string) : list string :=
  match s with
  | EmptyString => [EmptyString]
  | String b s =>
      if Ascii.eqb b c then EmptyString :: split_all c s
      else match split_all c s with
           | x :: xs => String b x :: xs
           | [] => [String b EmptyString]
           end
  end.

Definition parse_iso8601_duration (duration : string) : result JobStop (option Z) :=
  let dur_str := trim duration in
  let period :=
    if starts_with "R" dur_str then List.find (starts_with "P") (split_all "/"%char dur_str)
    else if bool_decide (dur_str = EmptyString) then None else Some dur_str in
  match period with
  | None => Ok None
  | Some p =>
      match parse_iso8601_duration_parts p with
      | Ok (Some parts) => Some <$> to_approx_millis parts
      | Ok None => Ok None
      | Err e => Err e
      end
  end.

Definition is_zero (d : IsoDuration) : bool :=
  (iso_years d =? 0) && (iso_months d =? 0) && (iso_weeks d =? 0) && (iso_days d =? 0)
  && (iso_hours d =? 0) && (iso_minutes d =? 0) && (iso_seconds d =? 0) && (iso_millis d =? 0).

(** ** Adding a duration to an instant *)
Definition days_in_month (year month : Z) : Z :=
  if existsb (Z.eqb month) [1; 3; 5; 7; 8; 10; 12] then 31
  else if existsb (Z.eqb month) [4; 6; 9; 11] then 30
  else if month =? 2 then
    if (Z.rem year 4 =? 0) && (negb (Z.rem year 100 =? 0) || (Z.rem year 400 =? 0)) then 29 else 28
  else 30.

Definition i32_sum (a b : Z) : result JobStop Z := ok_or Overflowed (add_i32 a b).

(** [while month0 >= 12]: it has no more turns than whole years in [month0]. *)
Fixpoint carry_loop (turns : nat) (year month0 : Z) : result JobStop (Z * Z) :=
  match turns with
  | O => Ok (year, month0)
  | S turns => if 12 <=? month0 then year ← i32_sum year 1; carry_loop turns year (month0 - 12) else Ok (year, month0)
  end.

(** [while month0 < 0]. *)
Fixpoint borrow_loop (turns : nat) (year month0 : Z) : result JobStop (Z * Z) :=
  match turns with
  | O => Ok (year, month0)
  | S turns => if month0 <? 0 then year ← i32_sum year (-1); borrow_loop turns year (month0 + 12) else Ok (year, month0)
  end.

Section Addition.
Context `{Chrono}.

(** [DateTime + TimeDelta]: an instant out of range is a panic. *)
Definition utc_add (t nanos : Z) : result JobStop Z :=
  if (utc_min <=? t + nanos) && (t + nanos <=? utc_max) then Ok (t + nanos) else Err Overflowed.

Definition add_to (d : IsoDuration) (dt : Z) : result JobStop Z :=
  year ← i32_sum (utc_year dt) (iso_years d);
  month0 ← i32_sum (utc_month dt - 1) (iso_months d);
  '(year, month0) ← carry_loop (Z.to_nat (month0 / 12)) year month0;
  '(year, month0) ← borrow_loop (Z.to_nat ((11 - month0) / 12)) year month0;
  let month := month0 + 1 in
  let max_day := days_in_month year month in
  let day := Z.min (utc_day dt) max_day in
  base ← utc_add (unwrap_or dt (with_ymd_and_hms year month day (utc_hour dt) (utc_minute dt) (utc_second dt)))
                 (utc_nanosecond dt);
  t ← utc_add base (iso_weeks d * 7 * DAY);
  t ← utc_add t (iso_days d * DAY);
  t ← utc_add t (iso_hours d * HOUR);
  t ← utc_add t (iso_minutes d * MINUTE);
  t ← utc_add t (iso_seconds d * SECOND);
  utc_add t (iso_millis d * MILLI).

(** [TestTimeSource]: the clock tests set and advance. *)
Definition set_time (time _clock : Z) : Z := time.
Definition advance_time (duration_millis clock : Z) : result JobStop Z := utc_add clock (duration_millis * MILLI).

(** [timestamp_millis] and [from_timestamp_millis]. *)
Definition timestamp_millis (t : Z) : Z := t / MILLI.
Definition from_timestamp_millis (millis : Z) : option Z :=
  if (utc_min <=? millis * MILLI) && (millis * MILLI <=? utc_max) then Some (millis * MILLI) else None.
End Addition.

(** ** Lemmas *)

(** What every turn keeps holds of the state a loop ends in, and what a turn
    that stops establishes holds of the loop's result. *)
Lemma at_most_ind {S R} (P : S -> Prop) (Q : R -> Prop) (turn : S -> Turn S R) n s :
  (forall s, P s -> match turn s with Again s' => P s' | Stop r => Q r end) ->
  P s -> match at_most n turn s with Again s' => P s' | Stop r => Q r end.
Proof.
  intros Hturn. revert s. induction n as [n IH|n IH|]; intros s Hs; simpl; [| |by apply Hturn].
  - specialize (Hturn s Hs). destruct (turn s) as [s1|r]; [|done].
    specialize (IH s1 Hturn) as H1. destruct (at_most n turn s1) as [s2|r]; [|done]. apply IH, H1.
  - specialize (IH s Hs) as H1. destruct (at_most n turn s) as [s2|r]; [|done]. apply IH, H1.
Qed.

(** A loop that runs out of turns has made all of them. *)
Lemma at_most_count {S R} (P : Z -> S -> Prop) (turn : S -> Turn S R) n s s' k :
  (forall k s s', P k s -> turn s = Again s' -> P (k + 1) s') ->
  P k s -> at_most n turn s = Again s' -> P (k + Z.pos n) s'.
Proof.
  intros Hturn. revert s s' k. induction n as [n IH|n IH|]; intros s s' k Hs; simpl.
  - destruct (turn s) as [s1|] eqn:E1; [|done].
    destruct (at_most n turn s1) as [s2|] eqn:E2; [|done]. intros E3.
    replace (k + Z.pos n~1) with (k + 1 + Z.pos n + Z.pos n) by lia. eauto.
  - destruct (at_most n turn s) as [s2|] eqn:E2; [|done]. intros E3.
    replace (k + Z.pos n~0) with (k + Z.pos n + Z.pos n) by lia. eauto.
  - eauto.
Qed.

(** A loop that follows a path of states stops where the path does, unless it
    runs out of turns before. *)
Lemma at_most_path {S R} (f : Z -> S) (turn : S -> Turn S R) n i k r :
  (forall j, i <= j < k -> turn (f j) = Again (f (j + 1))) -> turn (f k) = Stop r -> i <= k ->
  at_most n turn (f i) = if k <? i + Z.pos n then Stop r else Again (f (i + Z.pos n)).
Proof.
  revert i. induction n as [n IH|n IH|]; intros i Hpath Hstop Hik; cbn [at_most].
  - destruct (decide (i = k)) as [->|Hne]; [rewrite Hstop; destruct (Z.ltb_spec k (k + Z.pos n~1)); [done|lia]|].
    rewrite Hpath by lia. rewrite IH by (intros; (apply Hpath || idtac); (done || lia)).
    destruct (Z.ltb_spec k (i + 1 + Z.pos n)); [destruct (Z.ltb_spec k (i + Z.pos n~1)); [done|lia]|].
    rewrite IH by (intros; (apply Hpath || idtac); (done || lia)).
    replace (i + 1 + Z.pos n + Z.pos n) with (i + Z.pos n~1) by lia. done.
  - rewrite IH by done. destruct (Z.ltb_spec k (i + Z.pos n)); [destruct (Z.ltb_spec k (i + Z.pos n~0)); [done|lia]|].
    rewrite IH by (intros; (apply Hpath || idtac); (done || lia)).
    replace (i + Z.pos n + Z.pos n) with (i + Z.pos n~0) by lia. done.
  - destruct (Z.ltb_spec k (i + 1)).
    + by replace i with k by lia.
    + apply Hpath. lia.
Qed.

Lemma add_i32_Some a b c : add_i32 a b = Some c <-> c = a + b /\ i32_min <= a + b <= i32_max.
Proof.
  unfold add_i32. case_match; [rewrite andb_true_iff in *|rewrite andb_false_iff in *];
    (split; [intros [=]|intros [-> ?]]; subst; first [done|lia]).
Qed.

Lemma i32_sum_ok a b c : i32_sum a b = Ok c -> c = a + b.
Proof. unfold i32_sum. destruct (add_i32 a b) eqn:E; [|done]. intros [= <-]. apply add_i32_Some in E. lia. Qed.

Lemma carry_loop_ok turns y m y' m' :
  0 <= m -> turns = Z.to_nat (m / 12) -> carry_loop turns y m = Ok (y', m') -> y' = y + m / 12 /\ m' = m mod 12.
Proof.
  revert y m. induction turns as [|n IH]; intros y m Hm Hn; simpl.
  - intros [= <- <-]. Z.to_euclidean_division_equations; lia.
  - destruct (Z.leb_spec 12 m).
    + destruct (i32_sum y 1) as [z|] eqn:E; simpl; [|done]. apply i32_sum_ok in E. intros Hc.
      apply IH in Hc; [|lia|]; Z.to_euclidean_division_equations; lia.
    + intros [= <- <-]. Z.to_euclidean_division_equations; lia.
Qed.

Lemma days_in_month_gregorian y m : 1 <= m <= 12 -> days_in_month y m = gregorian_days y m.
Proof.
  intros Hm. unfold days_in_month, gregorian_days, gregorian_leap.
  assert (m = 1 \/ m = 2 \/ m = 3 \/ m = 4 \/ m = 5 \/ m = 6 \/ m = 7 \/ m = 8 \/ m = 9 \/ m = 10 \/ m = 11 \/ m = 12) as Hc by lia.
  assert (Hr : forall n, 0 < n -> (Z.rem y n =? 0) = (y mod n =? 0)).
  { intros n Hn. apply eq_true_iff_eq. rewrite !Z.eqb_eq. Z.to_euclidean_division_equations. nia. }
  destruct Hc as [->|[->|[->|[->|[->|[->|[->|[->|[->|[->|[->| ->]]]]]]]]]]]; try done.
  simpl. by rewrite !Hr by lia.
Qed.

Lemma gregorian_days_bounds y m : 28 <= gregorian_days y m <= 31.
Proof. unfold gregorian_days. repeat case_match; lia. Qed.

Lemma date_lt_irrefl a : ~ date_lt a a.
Proof. destruct a as [[y m] d]. simpl. lia. Qed.

Section Fields.
Context `{ChronoLaws}.

Lemma utc_add_ok t n u : utc_add t n = Ok u <-> u = t + n /\ in_range u.
Proof.
  unfold utc_add, in_range. case_match; [rewrite andb_true_iff in *|rewrite andb_false_iff in *];
    (split; [intros [=]|intros [-> ?]]; subst; first [done|lia]).
Qed.

(** Dates never go back. *)
Lemma date_monotone t u : in_range t -> in_range u -> t <= u -> utc_date t = utc_date u \/ date_lt (utc_date t) (utc_date u).
Proof.
  intros Ht Hu Hle. destruct (decide (t / DAY = u / DAY)) as [E|E].
  - left. by apply same_day_law.
  - right. apply later_day_law; [done..|]. assert (t / DAY <= u / DAY) by (apply Z.div_le_mono; lia). lia.
Qed.

Lemma same_date_same_day t u : in_range t -> in_range u -> utc_date t = utc_date u -> t / DAY = u / DAY.
Proof.
  intros Ht Hu E. destruct (Z.lt_trichotomy (t / DAY) (u / DAY)) as [Hl|[Hl|Hl]]; [|done|].
  - apply later_day_law in Hl; [|done..]. rewrite E in Hl. by apply date_lt_irrefl in Hl.
  - apply later_day_law in Hl; [|done..]. rewrite E in Hl. by apply date_lt_irrefl in Hl.
Qed.

(** The time of day of an instant, from its fields. *)
Lemma time_of_day t : in_range t ->
  t mod DAY = utc_hour t * HOUR + utc_minute t * MINUTE + utc_second t * SECOND + utc_nanosecond t.
Proof.
  intros Ht. rewrite hour_law, minute_law, second_law, nanosecond_law by done.
  Z.to_euclidean_division_equations; lia.
Qed.

(** The instant built from the date of one and the time of another. *)
Lemma ymd_place y m d t u : in_range t ->
  with_ymd_and_hms y m d (utc_hour t) (utc_minute t) (utc_second t) = Some u ->
  in_range u /\ utc_date u = (y, m, d) /\ u mod DAY = t mod DAY - utc_nanosecond t.
Proof.
  intros Ht (Hu & Hd & Hh & Hm & Hs & Hn)%ymd_law. split; [done|]. split; [done|].
  rewrite !time_of_day, Hh, Hm, Hs, Hn by done. lia.
Qed.

Lemma ymd_midnight y m d u : with_ymd_and_hms y m d 0 0 0 = Some u ->
  in_range u /\ utc_date u = (y, m, d) /\ u mod DAY = 0.
Proof.
  intros (Hu & Hd & Hh & Hm & Hs & Hn)%ymd_law. split; [done|]. split; [done|].
  by rewrite time_of_day, Hh, Hm, Hs, Hn.
Qed.

Lemma time_fields t : in_range t -> 0 <= utc_hour t < 24 /\ 0 <= utc_minute t < 60 /\ 0 <= utc_second t < 60.
Proof.
  intros Ht. rewrite hour_law, minute_law, second_law by done.
  repeat split; first [apply Z.mod_pos_bound|apply Z.mod_pos_bound]; lia.
Qed.

(** ** Calendar addition *)

(** The part of a duration that has a fixed length. *)
Definition time_nanos (d : IsoDuration) : Z :=
  iso_weeks d * 7 * DAY + iso_days d * DAY + iso_hours d * HOUR + iso_minutes d * MINUTE
  + iso_seconds d * SECOND + iso_millis d * MILLI.

(** Months since year 0 of the month a duration leads to. *)
Definition target_month (d : IsoDuration) (dt : Z) : Z :=
  12 * (utc_year dt + iso_years d) + (utc_month dt - 1) + iso_months d.

Definition non_negative (d : IsoDuration) : Prop :=
  0 <= iso_years d /\ 0 <= iso_months d /\ 0 <= iso_weeks d /\ 0 <= iso_days d /\ 0 <= iso_hours d
  /\ 0 <= iso_minutes d /\ 0 <= iso_seconds d /\ 0 <= iso_millis d.

Lemma add_to_inv d dt t : in_range dt -> 0 <= iso_months d -> add_to d dt = Ok t ->
  let y := target_month d dt / 12 in
  let m := target_month d dt mod 12 + 1 in
  exists base,
    utc_add (unwrap_or dt (with_ymd_and_hms y m (Z.min (utc_day dt) (gregorian_days y m))
                                           (utc_hour dt) (utc_minute dt) (utc_second dt)))
            (utc_nanosecond dt) = Ok base
    /\ t = base + time_nanos d /\ in_range t.
Proof.
  intros Hr Hm E. pose proof (date_law dt Hr) as [Hv _]. unfold add_to in E.
  destruct (i32_sum (utc_year dt) _) as [y0|] eqn:E1; [|done]. apply i32_sum_ok in E1.
  destruct (i32_sum (utc_month dt - 1) _) as [m0|] eqn:E2; [|done]. apply i32_sum_ok in E2. cbn in E.
  destruct (carry_loop _ y0 m0) as [[y1 m1]|] eqn:E3; [|done].
  apply carry_loop_ok in E3 as [Ey Em]; [|lia|done]. cbn in E.
  replace (Z.to_nat ((11 - m1) / 12)) with O in E by (Z.to_euclidean_division_equations; lia). cbn in E.
  assert (Hy : target_month d dt / 12 = y1 /\ target_month d dt mod 12 = m1).
  { unfold target_month. subst. Z.to_euclidean_division_equations; lia. }
  destruct Hy as [-> ->]. rewrite days_in_month_gregorian in E by (subst; Z.to_euclidean_division_equations; lia).
  destruct (utc_add _ (utc_nanosecond dt)) as [base|] eqn:Eb; [|done]. cbn in E.
  exists base. split; [done|].
  repeat (match type of E with context [utc_add ?a ?b] =>
            let Ea := fresh in destruct (utc_add a b) as [?|] eqn:Ea; [apply utc_add_ok in Ea as [-> ?]|done] end; cbn in E).
  unfold time_nanos. injection E as <-. split; [lia|done].
Qed.

(** Adding a duration moves to the day of the month it counts to, or the last day
    of that month where there is no such day, keeps the time of day, and then
    adds the part of fixed length. *)
Theorem add_to_calendar d dt t :
  in_range dt -> 0 <= iso_months d -> add_to d dt = Ok t ->
  utc_year utc_min <= target_month d dt / 12 <= utc_year utc_max ->
  exists base, t = base + time_nanos d /\ in_range base /\ in_range t
    /\ utc_date base = (target_month d dt / 12, target_month d dt mod 12 + 1,
        Z.min (utc_day dt) (gregorian_days (target_month d dt / 12) (target_month d dt mod 12 + 1)))
    /\ base mod DAY = dt mod DAY.
Proof.
  intros Hr Hm E Hy. apply add_to_inv in E as (base & Eb & Et & Hrt); [|done..].
  set (y := target_month d dt / 12) in *. set (m := target_month d dt mod 12 + 1) in *.
  pose proof (date_law dt Hr) as [_ Hd]. pose proof (gregorian_days_bounds y m).
  pose proof (time_fields dt Hr) as (Hh & Hmi & Hs).
  destruct (with_ymd_and_hms _ _ _ _ _ _) as [u|] eqn:Eu.
  2: { exfalso. revert Eu. apply ymd_exists_law; try done. split; [|lia].
       subst m. pose proof (Z.mod_pos_bound (target_month d dt) 12). lia. }
  apply ymd_place in Eu as (Hu & Hdu & Hmod); [|done]. simpl in Eb. apply utc_add_ok in Eb as [-> Hb].
  rewrite nanosecond_law in * by done.
  assert ((u + dt mod SECOND) / DAY = u / DAY /\ (u + dt mod SECOND) mod DAY = dt mod DAY) as [Hq Hmo].
  { clear -Hmod. Z.to_euclidean_division_equations; lia. }
  eexists. split; [exact Et|]. split; [done|]. split; [done|]. split; [|done].
  rewrite <- Hdu. by apply same_day_law.
Qed.

(** A duration without years and months is added exactly. *)
Lemma add_to_exact d dt : in_range dt -> non_negative d -> iso_years d = 0 -> iso_months d = 0 ->
  in_range (dt + time_nanos d) -> add_to d dt = Ok (dt + time_nanos d).
Proof.
  intros Hr Hn Hy0 Hm0 Ht. pose proof (year_width_law dt Hr) as H32. pose proof (date_law dt Hr) as [Hv Hd]. pose proof (time_fields dt Hr) as (Hh & Hmi & Hs).
  unfold add_to. rewrite Hy0, Hm0.
  assert (Hsum : forall a, i32_min <= a <= i32_max -> i32_sum a 0 = Ok a).
  { intros a Ha. unfold i32_sum. rewrite (proj2 (add_i32_Some a 0 a)); [done|lia]. }
  rewrite (Hsum (utc_year dt)) by done. rewrite (Hsum (utc_month dt - 1)) by (unfold i32_min, i32_max; lia). cbn.
  replace (Z.to_nat ((utc_month dt - 1) / 12)) with O by (Z.to_euclidean_division_equations; lia). cbn.
  replace (Z.to_nat ((11 - (utc_month dt - 1)) / 12)) with O by (Z.to_euclidean_division_equations; lia). cbn.
  rewrite days_in_month_gregorian by lia. replace (utc_month dt - 1 + 1) with (utc_month dt) by lia.
  rewrite Z.min_l by lia.
  assert (Hb : utc_add (unwrap_or dt (with_ymd_and_hms (utc_year dt) (utc_month dt) (utc_day dt)
            (utc_hour dt) (utc_minute dt) (utc_second dt))) (utc_nanosecond dt) = Ok dt).
  { destruct (with_ymd_and_hms _ _ _ _ _ _) as [u|] eqn:Eu.
    - apply ymd_place in Eu as (Hu & Hdu & Hmod); [|done].
      apply (same_date_same_day u dt) in Hdu; [|done..]. apply utc_add_ok. split; [|done].
      rewrite nanosecond_law in * by done. clear -Hdu Hmod. simpl. Z.to_euclidean_division_equations; lia.
    - exfalso. revert Eu. apply ymd_exists_law; try done.
      destruct range_law as (_ & _ & Hmm). unfold in_range in Hr.
      destruct (date_monotone utc_min dt); unfold in_range; try lia; unfold utc_date, date_lt in *; [simplify_eq|];
      destruct (date_monotone dt utc_max); unfold in_range; try lia; unfold utc_date, date_lt in *; simplify_eq; lia. }
  rewrite Hb. cbn. unfold time_nanos, non_negative in *.
  assert (Hadd : forall a b, in_range (a + b) -> utc_add a b = Ok (a + b)) by (intros; by apply utc_add_ok).
  unfold in_range in Hr, Ht. repeat (rewrite Hadd by (unfold in_range; lia); cbn). f_equal. lia.
Qed.
End Fields.
