(* ===== verification/Cron.v ===== *)
(** * Cron expressions

    [parse_cron_field] and [next_cron_after] of [engine/time_source.rs]: the values a
    field allows, and the search for the next instant that all fields allow,
    which jumps over months, days, hours and minutes that cannot match.

    Shown: the values of a field are exactly the ones its parts name, in
    increasing order ([cron_field_values]); whenever the fields allow an instant of the
    next two years the search returns the first one they allow
    ([cron_first_match]). *)
From stdpp Require Import list.
From Stdlib Require Import Ascii Sorted.
From S2P Require Import Prelude Chars Float64 Numerals Json Errors ElValues JobTypes Leases Chrono.

Open Scope Z_scope.

(** [str::parse::<u32>]. *)
Definition u32_max : Z := 2 ^ 32 - 1.
Definition parse_u32 (s : string) : option Z := n ← parse_u64 s; if n <=? u32_max then Some n else None.

(** [str::split_whitespace]. *)
Fixpoint words_loop (cs current : list Z) : list (list Z) :=
  let flush := match current with [] => [] | _ => [rev current] end in
  match cs with
  | [] => flush
  | c :: cs => if is_whitespace c then flush ++ words_loop cs [] else words_loop cs (c :: current)
  end.

Definition split_whitespace (s : string) : list string := of_chars <$> words_loop (chars s) [].

(** ** Fields *)

(** [while v <= end && v <= max]: the variant is the distance to the bound;
    [v += step] past [u32] is a panic. *)
Fixpoint step_loop (variant : nat) (v stop min max step : Z) : result JobStop (list Z) :=
  match variant with
  | O => Ok []
  | S variant =>
      if (v <=? stop) && (v <=? max) then
        let here := if min <=? v then [v] else [] in
        if v + step <=? u32_max then
          rest ← step_loop variant (v + step) stop min max step;
          Ok (here ++ rest)
        else Err Overflowed
      else Ok []
  end.

Definition within (min max v : Z) : bool := (min <=? v) && (v <=? max).

(** One part of a field's list; [Ok None] is the early [None]. *)
Definition part_values (part : string) (min max : Z) : result JobStop (option (list Z)) :=
  match split_once "/"%char part with
  | Some (range, step_s) =>
      match parse_u32 step_s with
      | None => Ok None
      | Some step =>
          if step =? 0 then Ok None
          else
            let bounds :=
              if bool_decide (range = "*"%string) then Some (min, max)
              else match split_once "-"%char range with
                   | Some (a, b) => x ← parse_u32 a; y ← parse_u32 b; Some (x, y)
                   | None => s ← parse_u32 range; Some (s, max)
                   end in
            match bounds with
            | None => Ok None
            | Some (start, stop) =>
                Some <$> step_loop (Z.to_nat (Z.min stop max + 1 - start)) start stop min max step
            end
      end
  | None =>
      match split_once "-"%char part with
      | Some (a, b) =>
          Ok (start ← parse_u32 a; stop ← parse_u32 b;
              Some (List.filter (within min max) (seqZ start (stop - start + 1))))
      | None => Ok (v ← parse_u32 part; Some (List.filter (within min max) [v]))
      end
  end.

Fixpoint parts_loop (parts : list string) (min max : Z) (values : list Z) : result JobStop (option (list Z)) :=
  match parts with
  | [] => Ok (Some values)
  | part :: parts =>
      let part := trim part in
      if bool_decide (part = EmptyString) then parts_loop parts min max values
      else
        match part_values part min max with
        | Ok (Some more) => parts_loop parts min max (values ++ more)
        | r => r
        end
  end.

(** [Vec::dedup]. *)
Fixpoint dedup (l : list Z) : list Z :=
  match l with
  | a :: l => match dedup l with
              | b :: l' => if a =? b then b :: l' else a :: b :: l'
              | [] => [a]
              end
  | [] => []
  end.

Definition parse_cron_field (field : string) (min max : Z) : result JobStop (option (list Z)) :=
  let field := trim field in
  if bool_decide (field = "*"%string) || bool_decide (field = "?"%string) then Ok (Some (seqZ min (max - min + 1)))
  else
    match parts_loop (split_all ","%char field) min max [] with
    | Ok (Some []) => Ok None
    | Ok (Some values) => Ok (Some (dedup (order_by Z.leb values)))
    | r => r
    end.

(** ** Expressions *)
Record CronFields := mkCron {
  cr_seconds : list Z; cr_minutes : list Z; cr_hours : list Z;
  cr_days_of_month : list Z; cr_months : list Z; cr_days_of_week : list Z;
  cr_dom_is_any : bool; cr_dow_is_any : bool
}.

Definition is_any (f : string) : bool := bool_decide (f = "*"%string) || bool_decide (f = "?"%string).

(** A value of [Result<Option<_>>] that is [Ok(Some(_))], or the function returns it. *)
Definition or_return {A B} (r : result JobStop (option A)) (k : A -> result JobStop (option B)) : result JobStop (option B) :=
  match r with
  | Ok (Some a) => k a
  | Ok None => Ok None
  | Err e => Err e
  end.

Definition parse_cron (expr : string) : result JobStop (option CronFields) :=
  let build sec_f min_f hour_f dom_f mon_f dow_f :=
    or_return (parse_cron_field sec_f 0 59) (fun seconds =>
    or_return (parse_cron_field min_f 0 59) (fun minutes =>
    or_return (parse_cron_field hour_f 0 23) (fun hours =>
    or_return (parse_cron_field dom_f 1 31) (fun days_of_month =>
    or_return (parse_cron_field mon_f 1 12) (fun months =>
    or_return (parse_cron_field dow_f 0 7) (fun days_of_week =>
    Ok (Some (mkCron seconds minutes hours days_of_month months days_of_week (is_any dom_f) (is_any dow_f)))
    )))))) in
  match split_whitespace expr with
  | [f0; f1; f2; f3; f4] => build "0"%string f0 f1 f2 f3 f4
  | [f0; f1; f2; f3; f4; f5] | [f0; f1; f2; f3; f4; f5; _] => build f0 f1 f2 f3 f4 f5
  | _ => Ok None
  end.

Definition contains (l : list Z) (v : Z) : bool := existsb (Z.eqb v) l.

(** ** The search *)
Section Search.
Context `{Chrono}.

Definition dow_ok (c : CronFields) (cursor : Z) : bool :=
  let weekday_sun0 := num_days_from_sunday cursor in
  let quartz_dow := weekday_sun0 + 1 in
  contains (cr_days_of_week c) weekday_sun0 || contains (cr_days_of_week c) quartz_dow
  || ((weekday_sun0 =? 6) && contains (cr_days_of_week c) 7).

Definition day_ok (c : CronFields) (cursor : Z) : bool :=
  if cr_dom_is_any c && cr_dow_is_any c then true
  else if cr_dom_is_any c then dow_ok c cursor
  else if cr_dow_is_any c then contains (cr_days_of_month c) (utc_day cursor)
  else contains (cr_days_of_month c) (utc_day cursor) || dow_ok c cursor.

(** An addition that panics ends the search. *)
Definition add_then (t nanos : Z) (k : Z -> Turn Z (result JobStop (option Z))) : Turn Z (result JobStop (option Z)) :=
  match utc_add t nanos with Ok u => k u | Err e => Stop (Err e) end.

(** A turn of the loop from [cursor]. *)
Definition cron_turn (c : CronFields) (cursor : Z) : Turn Z (result JobStop (option Z)) :=
  let month := utc_month cursor in
  if negb (contains (cr_months c) month) then
    let '(y, m) := if month =? 12 then (utc_year cursor + 1, 1) else (utc_year cursor, month + 1) in
    match with_ymd_and_hms y m 1 0 0 0 with Some t => Again t | None => Stop (Ok None) end
  else if negb (day_ok c cursor) then
    add_then cursor DAY (fun t =>
      Again (unwrap_or t (t ← with_hour t 0; t ← with_minute t 0; with_second t 0)))
  else if negb (contains (cr_hours c) (utc_hour cursor)) then
    add_then cursor HOUR (fun t => Again (unwrap_or t (t ← with_minute t 0; with_second t 0)))
  else if negb (contains (cr_minutes c) (utc_minute cursor)) then
    add_then cursor MINUTE (fun t => Again (unwrap_or t (with_second t 0)))
  else if negb (contains (cr_seconds c) (utc_second cursor)) then
    add_then cursor SECOND Again
  else Stop (Ok (Some cursor)).

Definition cron_turns : positive := 2 * 366 * 24 * 60 * 60.

Definition next_cron_after (expr : string) (after : Z) : result JobStop (option Z) :=
  or_return (parse_cron expr) (fun c =>
    cursor ← utc_add after SECOND;
    let cursor := unwrap_or cursor (with_nanosecond cursor 0) in
    match at_most cron_turns (cron_turn c) cursor with
    | Stop r => r
    | Again _ => Ok None
    end).
End Search.

(** ** The search finds the first instant the fields allow *)
Lemma cron_turns_days : Z.pos cron_turns * SECOND = 732 * DAY.
Proof. reflexivity. Qed.
#[local] Opaque cron_turns.

Section FirstMatch.
Context `{ChronoLaws} (c : CronFields).

(** The fields allow an instant. *)
Definition cron_allows (t : Z) : bool :=
  contains (cr_months c) (utc_month t) && day_ok c t && contains (cr_hours c) (utc_hour t)
  && contains (cr_minutes c) (utc_minute t) && contains (cr_seconds c) (utc_second t).

(** A whole second of the calendar from [first] on and before [stop]. *)
Definition second_between (first stop u : Z) : Prop := in_range u /\ u mod SECOND = 0 /\ first <= u < stop.

(** The cursor is a whole second, and no earlier one is allowed. *)
Definition searched (first cursor : Z) : Prop :=
  in_range cursor /\ cursor mod SECOND = 0 /\ first <= cursor
  /\ forall u, second_between first cursor u -> cron_allows u = false.

Lemma searched_extend first cursor cursor' : searched first cursor ->
  in_range cursor' -> cursor' mod SECOND = 0 -> cursor < cursor' ->
  (forall u, second_between cursor cursor' u -> cron_allows u = false) -> searched first cursor'.
Proof.
  intros (Hr & Hm & Hf & Hs) Hr' Hm' Hlt Hskip. split; [done|]. split; [done|]. split; [lia|].
  intros u (Hu & Hum & Hb). destruct (decide (u < cursor)); [apply Hs|apply Hskip]; split; try done; (split; [done|lia]).
Qed.

Lemma day_ok_same_day t u : in_range t -> in_range u -> t / DAY = u / DAY -> day_ok c t = day_ok c u.
Proof.
  intros Ht Hu E. pose proof (same_day_law t u Ht Hu E) as Ed. unfold utc_date in Ed.
  unfold day_ok, dow_ok. rewrite !weekday_law, E by done. injection Ed as _ _ ->. done.
Qed.

(** The first of the next month: no other month begins before it. *)
Lemma next_month_skips cursor u y m t :
  in_range cursor -> in_range u -> cursor <= u < t ->
  (y, m) = (if utc_month cursor =? 12 then (utc_year cursor + 1, 1) else (utc_year cursor, utc_month cursor + 1)) ->
  with_ymd_and_hms y m 1 0 0 0 = Some t -> utc_month u = utc_month cursor /\ cursor < t /\ t mod SECOND = 0 /\ in_range t.
Proof.
  intros Hc Hu Hle Hym (Ht & Hd & Hmid)%ymd_midnight.
  pose proof (date_law u Hu) as [Hvu Hdu]. pose proof (date_law cursor Hc) as [Hvc _].
  split; [|split; [lia|split; [|done]]].
  - assert (Hlt : u / DAY < t / DAY) by (Z.to_euclidean_division_equations; lia).
    apply later_day_law in Hlt; [|done..]. rewrite Hd in Hlt.
    pose proof (date_monotone cursor u Hc Hu ltac:(lia)) as Hmono. unfold utc_date, date_lt in *.
    destruct (Z.eqb_spec (utc_month cursor) 12); injection Hym as -> ->; destruct Hmono as [[=]|]; lia.
  - clear -Hmid. Z.to_euclidean_division_equations; lia.
Qed.

Lemma next_month_later cursor y m t :
  in_range cursor ->
  (y, m) = (if utc_month cursor =? 12 then (utc_year cursor + 1, 1) else (utc_year cursor, utc_month cursor + 1)) ->
  with_ymd_and_hms y m 1 0 0 0 = Some t -> cursor < t.
Proof.
  intros Hc Hym (Ht & Hd & _)%ymd_midnight. destruct (decide (cursor < t)); [done|exfalso].
  pose proof (date_monotone t cursor Ht Hc ltac:(lia)) as Hmono. rewrite Hd in Hmono. unfold utc_date, date_lt in *.
  destruct (Z.eqb_spec (utc_month cursor) 12); injection Hym as -> ->; destruct Hmono as [[=]|]; lia.
Qed.

Lemma range_floor t n : in_range t -> (n | DAY) -> 0 < n -> in_range (t / n * n).
Proof.
  intros Ht [k Hk] Hn. destruct range_law as (Hmin & _ & _). unfold in_range in *.
  split; [|pose proof (Z.mul_div_le t n); lia].
  assert (Hq : utc_min mod n = 0).
  { apply Z.mod_divide; [lia|]. apply Z.mod_divide in Hmin; [|lia]. apply (Z.divide_trans _ DAY); [by exists k|done]. }
  apply Z.div_exact in Hq; [|lia]. rewrite Hq, Z.mul_comm. apply Z.mul_le_mono_nonneg_r; [lia|]. apply Z.div_le_mono; lia.
Qed.

(** Clearing the lower fields rounds down. *)
Lemma clear_second t : in_range t -> t mod SECOND = 0 -> with_second t 0 = Some (t / MINUTE * MINUTE).
Proof.
  intros Ht Hm. rewrite with_second_law, second_law by (done || lia). f_equal.
  clear -Hm. Z.to_euclidean_division_equations; lia.
Qed.

Lemma clear_minute t : in_range t -> t mod SECOND = 0 ->
  (t ← with_minute t 0; with_second t 0) = Some (t / HOUR * HOUR).
Proof.
  intros Ht Hm. rewrite with_minute_law by (done || lia). cbn [mbind option_bind].
  assert (Hr : in_range (t + (0 - utc_minute t) * MINUTE)).
  { pose proof (range_floor t HOUR Ht) as Hf. rewrite minute_law by done.
    unfold in_range in *. specialize (Hf ltac:(by exists 24) ltac:(lia)).
    clear -Ht Hf. Z.to_euclidean_division_equations; lia. }
  rewrite clear_second; [|done|].
  - rewrite minute_law by done. f_equal. clear -Hm. Z.to_euclidean_division_equations; lia.
  - clear -Hm. Z.to_euclidean_division_equations; lia.
Qed.

Lemma clear_hour t : in_range t -> t mod SECOND = 0 ->
  (t ← with_hour t 0; t ← with_minute t 0; with_second t 0) = Some (t / DAY * DAY).
Proof.
  intros Ht Hm. rewrite with_hour_law by (done || lia). cbn [mbind option_bind].
  assert (Hr : in_range (t + (0 - utc_hour t) * HOUR)).
  { pose proof (range_floor t DAY Ht) as Hf. rewrite hour_law by done.
    unfold in_range in *. specialize (Hf ltac:(by exists 1) ltac:(lia)).
    clear -Ht Hf. Z.to_euclidean_division_equations; lia. }
  change (with_minute ?x 0 ≫= ?f) with (t ← with_minute x 0; with_second t 0). rewrite clear_minute; [|done|].
  - rewrite hour_law by done. f_equal. clear -Hm. Z.to_euclidean_division_equations; lia.
  - clear -Hm. Z.to_euclidean_division_equations; lia.
Qed.

(** A jump to the next multiple of a unit skips only what shares the unit with
    the cursor. *)
Lemma skip_unit first cursor U :
  searched first cursor -> (U | DAY) -> (SECOND | U) -> 0 < U -> in_range (cursor + U) ->
  (forall u, in_range u -> u / U = cursor / U -> cron_allows u = false) ->
  searched first ((cursor + U) / U * U) /\ cursor + SECOND <= (cursor + U) / U * U.
Proof.
  intros Hs HD [k HU] Hpos Hr Hskip. assert (Hs' := Hs). destruct Hs' as (Hc & Hm & _).
  assert (Hq : (cursor + U) / U = cursor / U + 1) by (rewrite <- (Z.mul_1_l U) at 1; apply Z.div_add; lia).
  pose proof (range_floor (cursor + U) U Hr HD Hpos) as Hr'.
  pose proof (Z.div_mod cursor U ltac:(lia)) as Hdm. pose proof (Z.mod_pos_bound cursor U Hpos) as Hmb.
  assert (Hlt : cursor < (cursor + U) / U * U) by (rewrite Hq; lia).
  assert (Hm' : ((cursor + U) / U * U) mod SECOND = 0).
  { apply Z.mod_divide; [lia|]. exists ((cursor + U) / U * k). by rewrite <- Z.mul_assoc, <- HU. }
  split.
  - apply (searched_extend first cursor); [done..|].
    intros u (Hu & _ & Hb). apply Hskip; [done|].
    symmetry. apply (Z.div_unique u U (cursor / U) (u - U * (cursor / U))); [left|]; rewrite Hq in Hb; lia.
  - clear -Hlt Hm Hm'. set (t := _ / U * U) in *. Z.to_euclidean_division_equations; lia.
Qed.

Lemma not_allowed_month u : contains (cr_months c) (utc_month u) = false -> cron_allows u = false.
Proof. unfold cron_allows. by intros ->. Qed.

Lemma not_allowed u :
  day_ok c u = false \/ contains (cr_hours c) (utc_hour u) = false
  \/ contains (cr_minutes c) (utc_minute u) = false \/ contains (cr_seconds c) (utc_second u) = false ->
  cron_allows u = false.
Proof. unfold cron_allows. intros Hn. rewrite !andb_false_iff. tauto. Qed.

(** What a turn that returns establishes: a match, or that none follows. *)
Definition turn_result (first : Z) (r : result JobStop (option Z)) : Prop :=
  match r with
  | Ok (Some t) => searched first t /\ cron_allows t = true
  | _ => forall u, in_range u -> u mod SECOND = 0 -> first <= u -> cron_allows u = false
  end.

(** An addition overflows only in the last unit of the representable instants. *)
Lemma last_unit cursor u U e :
  in_range cursor -> in_range u -> cursor <= u -> (U | DAY) -> 0 < U -> utc_add cursor U = Err e -> u / U = cursor / U.
Proof.
  intros Hc Hu Hle [k HD] Hpos E. destruct (decide (u / U = cursor / U)); [done|exfalso].
  assert (cursor / U <= u / U) by (apply Z.div_le_mono; lia).
  destruct range_law as (_ & Hmax & _). unfold in_range in *.
  assert (u / U <= utc_max / U) by (apply Z.div_le_mono; lia).
  assert (Hq : utc_max + 1 = (utc_max / DAY + 1) * k * U) by (rewrite <- Z.mul_assoc, <- HD; Z.to_euclidean_division_equations; lia).
  assert (Hmu : utc_max / U = (utc_max / DAY + 1) * k - 1).
  { symmetry. apply (Z.div_unique _ U _ (U - 1)); [left; lia|]. lia. }
  pose proof (Z.div_mod cursor U ltac:(lia)). pose proof (Z.mod_pos_bound cursor U Hpos).
  assert (Hin : cursor + U <= utc_max) by nia.
  assert (Ha : utc_add cursor U = Ok (cursor + U)) by (apply utc_add_ok; unfold in_range; lia). congruence.
Qed.

Lemma jump_turn first cursor U k :
  searched first cursor -> (U | DAY) -> (SECOND | U) -> 0 < U ->
  (forall u, in_range u -> u / U = cursor / U -> cron_allows u = false) ->
  (forall t, in_range t -> t mod SECOND = 0 -> k t = Again (t / U * U)) ->
  match add_then cursor U k with
  | Again t => searched first t /\ cursor + SECOND <= t
  | Stop r => turn_result first r
  end.
Proof.
  intros Hs HD HS Hpos Hskip Hk. unfold add_then. destruct (utc_add cursor U) as [t|e] eqn:E.
  - apply utc_add_ok in E as [-> Hr]. rewrite Hk; [by apply skip_unit|done|].
    destruct HS as [q ->]. rewrite Z.mod_add by lia. apply Hs.
  - intros u Hu Hm Hf. destruct Hs as (Hc & _ & _ & Hs). destruct (decide (u < cursor)).
    + apply Hs. split; [done|split; [done|lia]].
    + apply Hskip; [done|]. eapply last_unit; [done..|lia|done|done|done].
Qed.

(** Where the months end no later month is allowed. *)
Lemma no_next_month first cursor y m :
  searched first cursor -> contains (cr_months c) (utc_month cursor) = false ->
  (y, m) = (if utc_month cursor =? 12 then (utc_year cursor + 1, 1) else (utc_year cursor, utc_month cursor + 1)) ->
  with_ymd_and_hms y m 1 0 0 0 = None -> turn_result first (Ok None).
Proof.
  intros (Hc & Hm & Hf & Hs) Hmonth Hym Hnone u Hu Hum Hfu.
  destruct (decide (u < cursor)); [apply Hs; split; [done|split; [done|lia]]|]. apply not_allowed_month.
  pose proof (date_law cursor Hc) as [Hvc _]. pose proof (date_law u Hu) as [Hvu _].
  pose proof (last_date_law u Hu) as [Hly Hlm]. pose proof (last_date_law cursor Hc) as [Hlc _].
  assert (Hmin : utc_year utc_min <= utc_year cursor).
  { assert (Hr : in_range utc_min) by (unfold in_range; destruct range_law; lia).
    destruct (date_monotone utc_min cursor) as [E|E]; [done|done|unfold in_range in Hc; lia|injection E; lia|].
    unfold date_lt, utc_date in E. lia. }
  destruct (decide (utc_month cursor = 12 /\ utc_year cursor = utc_year utc_max)) as [[H12 Hy]|Hn].
  - destruct (date_monotone cursor u) as [E|E]; [done|done|lia|injection E; congruence|].
    unfold date_lt, utc_date in E. replace (utc_month u) with (utc_month cursor) by lia. done.
  - exfalso. revert Hnone. pose proof (gregorian_days_bounds y m).
    apply ymd_exists_law; try lia; destruct (Z.eqb_spec (utc_month cursor) 12); injection Hym as -> ->;
      first [split; lia|lia].
Qed.

Lemma cron_turn_searched first cursor : searched first cursor ->
  match cron_turn c cursor with
  | Again t => searched first t /\ cursor + SECOND <= t
  | Stop r => turn_result first r
  end.
Proof.
  intros Hs. assert (Hs' := Hs). destruct Hs' as (Hc & Hm & Hf & _). unfold cron_turn.
  destruct (contains (cr_months c) (utc_month cursor)) eqn:Emon; simpl.
  2: { destruct (if utc_month cursor =? 12 then _ else _) as [y m] eqn:Hym. symmetry in Hym.
       destruct (with_ymd_and_hms y m 1 0 0 0) as [t|] eqn:Et; [|by eapply no_next_month].
       assert (Hlt : cursor < t) by (by eapply next_month_later).
       destruct (next_month_skips cursor cursor y m t) as (_ & _ & Hmt & Hrt); [done|done|lia|done|done|].
       split; [|clear -Hlt Hm Hmt; Z.to_euclidean_division_equations; lia].
       apply (searched_extend first cursor); [done..|]. intros u (Hu & _ & Hb). apply not_allowed_month.
       by destruct (next_month_skips cursor u y m t) as (-> & _). }
  destruct (day_ok c cursor) eqn:Eday; simpl.
  2: { apply jump_turn; [done|by exists 1|by exists 86400|lia| |intros t Hr Hmt; by rewrite clear_hour].
       intros u Hu E. apply not_allowed. left. by rewrite (day_ok_same_day u cursor). }
  destruct (contains (cr_hours c) (utc_hour cursor)) eqn:Eh; simpl.
  2: { apply jump_turn; [done|by exists 24|by exists 3600|lia| |intros t Hr Hmt; by rewrite clear_minute].
       intros u Hu E. apply not_allowed. right; left. by rewrite hour_law, E, <- hour_law. }
  destruct (contains (cr_minutes c) (utc_minute cursor)) eqn:Em; simpl.
  2: { apply jump_turn; [done|by exists 1440|by exists 60|lia| |intros t Hr Hmt; by rewrite clear_second].
       intros u Hu E. apply not_allowed. do 2 right; left. by rewrite minute_law, E, <- minute_law. }
  destruct (contains (cr_seconds c) (utc_second cursor)) eqn:Es; simpl.
  2: { apply jump_turn; [done|by exists 86400|by exists 1|lia| |].
       - intros u Hu E. apply not_allowed. do 3 right. by rewrite second_law, E, <- second_law.
       - intros t Hr Hmt. f_equal. clear -Hmt. Z.to_euclidean_division_equations; lia. }
  split; [done|]. unfold cron_allows. by rewrite Emon, Eday, Eh, Em, Es.
Qed.

Definition first_second (after : Z) : Z := (after / SECOND + 1) * SECOND.

(** The cursor the search starts from, the first whole second after [after]. *)
Lemma search_start after cursor : in_range after -> utc_add after SECOND = Ok cursor ->
  unwrap_or cursor (with_nanosecond cursor 0) = first_second after /\ searched (first_second after) (first_second after).
Proof.
  intros Hr E. apply utc_add_ok in E as [-> Hr'].
  assert (Hf : first_second after = (after + SECOND) / SECOND * SECOND).
  { unfold first_second. Z.to_euclidean_division_equations; lia. }
  split.
  - rewrite with_nanosecond_law, nanosecond_law, Hf by (done || lia). simpl. Z.to_euclidean_division_equations; lia.
  - split; [rewrite Hf; apply range_floor; [done|by exists 86400|lia]|].
    split; [unfold first_second; by rewrite Z.mod_mul|]. split; [lia|]. intros u (_ & _ & ?). lia.
Qed.

Definition search_result (after : Z) (r : result JobStop (option Z)) : Prop :=
  match r with
  | Ok (Some t) => searched (first_second after) t /\ cron_allows t = true
  | _ => forall u, in_range u -> u mod SECOND = 0 -> after < u < after + Z.pos cron_turns * SECOND -> cron_allows u = false
  end.

Lemma search_correct expr after : in_range after -> parse_cron expr = Ok (Some c) ->
  search_result after (next_cron_after expr after).
Proof.
  intros Hr Hp. unfold next_cron_after. rewrite Hp. simpl.
  assert (Hfirst : forall u, u mod SECOND = 0 -> after < u -> first_second after <= u).
  { intros u Hm Hlt. unfold first_second. Z.to_euclidean_division_equations; lia. }
  destruct (utc_add after SECOND) as [cursor|e] eqn:E; simpl.
  2: { intros u Hu Hm Hb. pose proof (last_unit after u SECOND e Hr Hu ltac:(lia) ltac:(by exists 86400) ltac:(lia) E).
       exfalso. Z.to_euclidean_division_equations; lia. }
  destruct (search_start after cursor Hr E) as [-> Hs].
  assert (Hturn : forall s, searched (first_second after) s ->
    match cron_turn c s with Again t => searched (first_second after) t | Stop r => turn_result (first_second after) r end).
  { intros s Hss. pose proof (cron_turn_searched _ s Hss) as Ht. destruct (cron_turn c s); tauto. }
  pose proof (at_most_ind _ _ _ cron_turns _ Hturn Hs) as Hend.
  destruct (at_most cron_turns (cron_turn c) _) as [t|r] eqn:El.
  - intros u Hu Hm Hb.
    assert (Hfar : first_second after + Z.pos cron_turns * SECOND <= t).
    { eapply (at_most_count (fun k t => searched (first_second after) t /\ first_second after + k * SECOND <= t)
        _ _ _ _ 0) in El as [_ Hfar]; [lia| |split; [done|lia]].
      intros k s s' [Hk1 Hk2] Et. pose proof (cron_turn_searched _ s Hk1) as Ht. rewrite Et in Ht.
      destruct Ht. split; [done|lia]. }
    destruct Hend as (_ & _ & _ & Hend). apply Hend. split; [done|]. split; [done|]. split; [apply Hfirst; [done|lia]|].
    generalize dependent (Z.pos cron_turns). intros N Hb Hfar. unfold first_second in Hfar.
    Z.to_euclidean_division_equations; lia.
  - destruct r as [[t|]|]; simpl in *; [done|intros u Hu Hm Hb; apply Hend; auto with lia..].
Qed.
End FirstMatch.

(** C16: The next fire of a cron expression is the first instant its fields allow.
    Whenever the fields allow a whole second in the two years (732 days) after the
    given instant, the search of [next_cron_after] returns, without overflow and
    within its bound of turns, an instant that is after the given one, that
    the fields allow, and before which they allow no other: the jumps over
    months, days, hours and minutes skip no match. *)
Theorem cron_first_match `{ChronoLaws} expr c after u :
  in_range after -> parse_cron expr = Ok (Some c) ->
  in_range u -> u mod SECOND = 0 -> after < u < after + 732 * DAY -> cron_allows c u = true ->
  exists t, next_cron_after expr after = Ok (Some t)
    /\ after < t <= u /\ t mod SECOND = 0 /\ in_range t /\ cron_allows c t = true
    /\ forall v, in_range v -> v mod SECOND = 0 -> after < v < t -> cron_allows c v = false.
Proof.
  intros Hr Hp Hu Hm Hb Ha. pose proof (search_correct c expr after Hr Hp) as Hs.
  assert (Hfirst : forall v, v mod SECOND = 0 -> after < v -> first_second after <= v).
  { intros v Hv Hlt. unfold first_second. Z.to_euclidean_division_equations; lia. }
  assert (Hno : ~ (forall u, in_range u -> u mod SECOND = 0 -> after < u < after + Z.pos cron_turns * SECOND -> cron_allows c u = false)).
  { intros Hn. rewrite Hn in Ha; [done..|]. rewrite cron_turns_days. lia. }
  destruct (next_cron_after expr after) as [[t|]|]; [|done..]. destruct Hs as ((Hrt & Hmt & Hft & Hbefore) & Hat).
  assert (Hafter : after < first_second after) by (unfold first_second; Z.to_euclidean_division_equations; lia).
  exists t. split; [done|]. split.
  - split; [lia|]. destruct (decide (t <= u)); [done|exfalso].
    rewrite Hbefore in Ha; [done|]. split; [done|]. split; [done|]. specialize (Hfirst u Hm). lia.
  - split; [done|]. split; [done|]. split; [done|]. intros v Hv Hvm Hvb. apply Hbefore. split; [done|]. split; [done|].
    specialize (Hfirst v Hvm). lia.
Qed.

(** ** The values of a field *)

(** The parts a field is a list of. *)
Inductive CronPart : Type :=
| One (n : Z)                        (* N *)
| Between (a b : Z)                  (* N-M *)
| Every (step : Z)                   (* */S *)
| From (start step : Z)              (* N/S *)
| BetweenEvery (a b step : Z).       (* N-M/S *)

Definition dash (a b : Z) : string := decimal a +:+ String "-"%char (decimal b).

Definition part_text (p : CronPart) : string :=
  match p with
  | One n => decimal n
  | Between a b => dash a b
  | Every step => String "*"%char (String "/"%char (decimal step))
  | From start step => decimal start +:+ String "/"%char (decimal step)
  | BetweenEvery a b step => dash a b +:+ String "/"%char (decimal step)
  end.

(** The values a part names. *)
Definition part_names (min : Z) (p : CronPart) (v : Z) : Prop :=
  match p with
  | One n => v = n
  | Between a b => a <= v <= b
  | Every step => exists k, 0 <= k /\ v = min + k * step
  | From start step => exists k, 0 <= k /\ v = start + k * step
  | BetweenEvery a b step => v <= b /\ exists k, 0 <= k /\ v = a + k * step
  end.

(** Its numbers fit [u32], and a step does not lead out of it from within the field. *)
Definition part_fits (max : Z) (p : CronPart) : Prop :=
  let number n := 0 <= n <= u32_max in
  let step s := 1 <= s /\ s + max <= u32_max in
  match p with
  | One n => number n
  | Between a b => number a /\ number b
  | Every s => step s
  | From n s => number n /\ step s
  | BetweenEvery a b s => number a /\ number b /\ step s
  end.

Lemma step_loop_values variant v stop min max step :
  (Z.to_nat (Z.min stop max + 1 - v) <= variant)%nat -> 1 <= step -> step + max <= u32_max ->
  exists l, step_loop variant v stop min max step = Ok l
    /\ forall x, x ∈ l <-> min <= x <= max /\ x <= stop /\ exists k, 0 <= k /\ x = v + k * step.
Proof.
  intros Hn Hs Hm. revert v Hn. induction variant as [|n IH]; intros v Hn; cbn [step_loop].
  - exists []. split; [done|]. intros x. split; [set_solver|]. intros (? & ? & k & ? & ->). nia.
  - destruct (Z.leb_spec v stop), (Z.leb_spec v max); simpl.
    2-4: exists []; (split; [done|]); intros x; (split; [set_solver|]); intros (? & ? & k & ? & ->); nia.
    destruct (Z.leb_spec (v + step) u32_max); [|lia].
    destruct (IH (v + step)) as (l & -> & Hl); [lia|]. simpl. eexists. split; [done|]. intros x.
    rewrite elem_of_app, Hl. split.
    + intros [Hx|(? & ? & k & ? & ->)]; [|split; [lia|split; [lia|exists (k + 1); lia]]].
      destruct (Z.leb_spec min v); [|set_solver]. apply list_elem_of_singleton in Hx as ->.
      split; [lia|]. split; [lia|]. exists 0; lia.
    + intros (? & ? & k & ? & ->). destruct (decide (k = 0)) as [->|].
      * left. replace (v + 0 * step) with v in * by lia. destruct (Z.leb_spec min v); [set_solver|lia].
      * right. split; [lia|]. split; [lia|]. exists (k - 1). lia.
Qed.

(** *** Texts of numbers *)
Lemma decimal_text n : 0 <= n -> decimal n = text (decimal_digits n).
Proof. intros. unfold decimal. destruct (Z.ltb_spec n 0); [lia|done]. Qed.

Lemma digit_eqb (a b : ascii) : is_digit a = true -> is_digit b = false -> Ascii.eqb a b = false.
Proof. intros Ha Hb. destruct (Ascii.eqb_spec a b); [congruence|done]. Qed.

Lemma parse_u32_decimal n : 0 <= n <= u32_max -> parse_u32 (decimal n) = Some n.
Proof.
  intros Hn. rewrite decimal_text by lia. destruct (decimal_digits_spec n) as (Hv & Hd & Hne); [lia|].
  unfold parse_u32, parse_u64. destruct (decimal_digits n) as [|a l]; [done|]. cbn [text String.string_of_list_ascii].
  apply Forall_cons in Hd as [Ha _]. rewrite (digit_eqb a "+"%char) by done.
  change (String a (String.string_of_list_ascii l)) with (text (a :: l)). rewrite Hv. unfold u32_max in *.
  destruct (Z.ltb_spec n (2 ^ 64)); [|lia]. simpl. destruct (Z.leb_spec n (2 ^ 32 - 1)); [done|lia].
Qed.

(** A text without a character is not split at it; a text followed by it is
    split there. *)
Definition free_of (c : ascii) (s : string) : Prop := Forall (fun a => Ascii.eqb a c = false) (String.list_ascii_of_string s).

Lemma split_once_free c s : free_of c s -> split_once c s = None.
Proof. unfold free_of. induction s as [|a s IH]; simpl; [done|]. rewrite Forall_cons. intros [-> Hs]. by rewrite IH. Qed.

Lemma split_once_first c s t : free_of c s -> split_once c (s +:+ String c t) = Some (s, t).
Proof.
  unfold free_of. induction s as [|a s IH]; simpl; [by rewrite Ascii.eqb_refl|].
  rewrite Forall_cons. intros [-> Hs]. by rewrite IH.
Qed.

Lemma split_all_free c s : free_of c s -> split_all c s = [s].
Proof. unfold free_of. induction s as [|a s IH]; simpl; [done|]. rewrite Forall_cons. intros [-> Hs]. by rewrite IH. Qed.

Lemma split_all_first c s t : free_of c s -> split_all c (s +:+ String c t) = s :: split_all c t.
Proof.
  unfold free_of. induction s as [|a s IH]; simpl; [by rewrite Ascii.eqb_refl|].
  rewrite Forall_cons. intros [-> Hs]. by rewrite IH.
Qed.

(** [slice::join]. *)
Fixpoint join_char (c : ascii) (l : list string) : string :=
  match l with
  | [] => EmptyString
  | [s] => s
  | s :: l => s +:+ String c (join_char c l)
  end.

Lemma split_all_join c l : l ≠ [] -> Forall (free_of c) l -> split_all c (join_char c l) = l.
Proof.
  intros Hne Hl. induction Hl as [|s l Hs Hl IH]; [done|]. destruct l as [|s' l]; [by apply split_all_free|].
  change (join_char c (s :: s' :: l)) with (s +:+ String c (join_char c (s' :: l))). rewrite split_all_first by done. by rewrite IH.
Qed.

Lemma list_ascii_app s t :
  String.list_ascii_of_string (s +:+ t) = String.list_ascii_of_string s ++ String.list_ascii_of_string t.
Proof. induction s as [|a s IH]; [done|]. simpl. by rewrite IH. Qed.

Lemma free_of_app c s t : free_of c (s +:+ t) <-> free_of c s /\ free_of c t.
Proof. unfold free_of. by rewrite list_ascii_app, Forall_app. Qed.

Lemma free_of_cons c a s : free_of c (String a s) <-> Ascii.eqb a c = false /\ free_of c s.
Proof. unfold free_of. simpl. by rewrite Forall_cons. Qed.

Lemma decimal_ascii n : 0 <= n -> Forall (fun a => is_digit a = true) (String.list_ascii_of_string (decimal n)).
Proof.
  intros Hn. rewrite decimal_text by done. unfold text. rewrite String.list_ascii_of_string_of_list_ascii.
  apply decimal_digits_spec; lia.
Qed.

Lemma decimal_free c n : 0 <= n -> is_digit c = false -> free_of c (decimal n).
Proof.
  intros Hn Hc. eapply Forall_impl; [by apply decimal_ascii|]. intros a Ha. by apply digit_eqb.
Qed.

Lemma visible_trim s : Forall visible (String.list_ascii_of_string s) -> trim s = s.
Proof. intros Hs. rewrite <- (String.string_of_list_ascii_of_string s) at 1 2. by apply trim_visible. Qed.

(** *** Parts *)
Lemma part_free c p max : part_fits max p -> existsb (Ascii.eqb c) ["-"; "/"; "*"]%char = false -> is_digit c = false ->
  0 <= max -> free_of c (part_text p).
Proof.
  intros Hp Hc Hd Hmax. simpl in Hc. rewrite !orb_false_iff in Hc. destruct Hc as (H1 & H2 & H3 & _).
  rewrite Ascii.eqb_sym in H1, H2, H3.
  destruct p; simpl in *; unfold dash; repeat rewrite ?free_of_app, ?free_of_cons;
    repeat match goal with |- _ /\ _ => split end; try done; apply decimal_free; done || lia.
Qed.

Lemma visible_check (a : ascii) : (byte_of a <? 128) && negb (is_whitespace (byte_of a)) = true -> visible a.
Proof. rewrite andb_true_iff, Z.ltb_lt, negb_true_iff. done. Qed.

Lemma decimal_visible n : 0 <= n -> Forall visible (String.list_ascii_of_string (decimal n)).
Proof. intros Hn. eapply Forall_impl; [by apply decimal_ascii|]. intros a. apply is_digit_visible. Qed.

Lemma part_visible p max : part_fits max p -> 0 <= max -> Forall visible (String.list_ascii_of_string (part_text p)).
Proof.
  intros Hp Hmax. destruct p; simpl in *; unfold dash; rewrite ?list_ascii_app; simpl; rewrite ?list_ascii_app; simpl;
    repeat first [apply Forall_app; split|apply Forall_cons; split];
    first [apply decimal_visible; lia|by apply visible_check].
Qed.

Lemma part_text_nonempty p max : part_fits max p -> 0 <= max -> part_text p ≠ EmptyString.
Proof.
  assert (Hd : forall n t, 0 <= n -> decimal n +:+ t ≠ EmptyString).
  { intros n t Hn. rewrite decimal_text by done. destruct (decimal_digits_spec n) as (_ & _ & Hne); [done|].
    by destruct (decimal_digits n). }
  intros Hp Hmax. destruct p as [n|a b|st|n st|a b st]; simpl in *; unfold dash; [|apply Hd; lia|done|apply Hd; lia|].
  - specialize (Hd n EmptyString ltac:(lia)). by destruct (decimal n).
  - destruct (decimal a) eqn:E; [|done]. specialize (Hd a EmptyString ltac:(lia)). by rewrite E in Hd.
Qed.

(** A part is read to the values it names within the field. *)
Lemma part_values_named p min max : 0 <= min -> 0 <= max -> part_fits max p ->
  exists l, part_values (part_text p) min max = Ok (Some l)
    /\ forall v, v ∈ l <-> min <= v <= max /\ part_names min p v.
Proof.
  intros Hmin Hmax Hp.
  assert (Hw : forall l v, v ∈ List.filter (within min max) l <-> min <= v <= max /\ v ∈ l).
  { intros l v. rewrite list_elem_of_In, filter_In, <- list_elem_of_In. unfold within. rewrite andb_true_iff, !Z.leb_le. tauto. }
  assert (Hdf : forall c n, 0 <= n -> is_digit c = false -> free_of c (decimal n)) by (intros; by apply decimal_free).
  unfold part_values. destruct p as [n|a b|st|n st|a b st]; cbn [part_text part_names part_fits] in *; unfold dash.
  - rewrite !split_once_free, parse_u32_decimal by (done || apply Hdf; done || lia).
    cbn [mbind option_bind]. eexists. split; [done|].
    intros v. rewrite Hw, list_elem_of_singleton. tauto.
  - rewrite split_once_free, split_once_first.
    2: apply Hdf; done || lia.
    2: rewrite free_of_app, free_of_cons; split_and!; try done; apply Hdf; done || lia.
    rewrite !parse_u32_decimal by lia. cbn [mbind option_bind]. eexists. split; [done|]. intros v. rewrite Hw, elem_of_seqZ. split; intros; lia.
  - change (String "*"%char (String "/"%char (decimal st))) with ("*"%string +:+ String "/"%char (decimal st)).
    rewrite split_once_first, parse_u32_decimal by (lia || by repeat constructor).
    destruct (Z.eqb_spec st 0); [lia|]. rewrite bool_decide_true by done. cbv zeta iota.
    destruct (step_loop_values (Z.to_nat (Z.min max max + 1 - min)) min max min max st) as (l & -> & Hl); [lia..|].
    eexists. split; [done|]. intros v. rewrite Hl. naive_solver lia.
  - rewrite split_once_first by (apply Hdf; done || lia). rewrite !parse_u32_decimal by lia.
    destruct (Z.eqb_spec st 0); [lia|]. rewrite bool_decide_false.
    2: { intros E. pose proof (decimal_ascii n ltac:(lia)) as Hd. rewrite E in Hd. by apply Forall_cons in Hd as [? _]. }
    rewrite split_once_free by (apply Hdf; done || lia). rewrite ?parse_u32_decimal by lia. cbn [mbind option_bind].
    destruct (step_loop_values (Z.to_nat (Z.min max max + 1 - n)) n max min max st) as (l & -> & Hl); [lia..|].
    eexists. split; [done|]. intros v. rewrite Hl. naive_solver lia.
  - rewrite split_once_first by (rewrite free_of_app, free_of_cons; split_and!; try done; apply Hdf; done || lia).
    rewrite parse_u32_decimal by lia. destruct (Z.eqb_spec st 0); [lia|]. rewrite bool_decide_false.
    2: { intros E. destruct (decimal a) as [|x s] eqn:Ea; [done|]. pose proof (decimal_ascii a ltac:(lia)) as Hd.
         rewrite Ea in Hd. injection E as -> _. by apply Forall_cons in Hd as [? _]. }
    rewrite split_once_first by (apply Hdf; done || lia). rewrite ?parse_u32_decimal by lia. cbn [mbind option_bind].
    destruct (step_loop_values (Z.to_nat (Z.min b max + 1 - a)) a b min max st) as (l & -> & Hl); [lia..|].
    eexists. split; [done|]. intros v. rewrite Hl. naive_solver lia.
Qed.

(** *** Lists of parts *)
Lemma elem_of_dedup v l : v ∈ dedup l <-> v ∈ l.
Proof.
  induction l as [|a l IH]; [done|]. cbn [dedup]. rewrite elem_of_cons, <- IH. destruct (dedup l) as [|b l']; [set_solver|].
  destruct (Z.eqb_spec a b) as [->|]; set_solver.
Qed.

Lemma dedup_increasing l : in_order Z.leb l -> StronglySorted Z.lt (dedup l).
Proof.
  induction 1 as [|a l Hl IH Ha]; [constructor|]. cbn [dedup].
  assert (Hall : Forall (fun b => a <= b) (dedup l)).
  { apply Forall_forall. intros b Hb. rewrite elem_of_dedup in Hb. rewrite Forall_forall in Ha. by apply Z.leb_le, Ha. }
  destruct (dedup l) as [|b l'] eqn:E; [repeat constructor|].
  destruct (Z.eqb_spec a b) as [->|]; [done|]. apply Forall_cons in Hall as [Hab _]. constructor; [done|].
  apply StronglySorted_inv in IH as [_ Hb]. constructor; [lia|]. eapply Forall_impl; [done|]. simpl. lia.
Qed.

Lemma parts_loop_named parts min max values : 0 <= min -> 0 <= max -> Forall (part_fits max) parts ->
  exists l, parts_loop (part_text <$> parts) min max values = Ok (Some (values ++ l))
    /\ forall v, v ∈ l <-> min <= v <= max /\ exists p, p ∈ parts /\ part_names min p v.
Proof.
  intros Hmin Hmax Hp. revert values. induction Hp as [|p parts Hp _ IH]; intros values; cbn [fmap list_fmap parts_loop].
  - exists []. split; [by rewrite app_nil_r|]. set_solver.
  - rewrite visible_trim by (by eapply part_visible). rewrite bool_decide_false by (by eapply part_text_nonempty).
    destruct (part_values_named p min max Hmin Hmax Hp) as (l1 & -> & H1).
    destruct (IH (values ++ l1)) as (l2 & -> & H2). exists (l1 ++ l2). split; [by rewrite app_assoc|].
    intros v. rewrite elem_of_app, H1, H2. set_solver.
Qed.

Lemma field_not_any p max t : part_fits max p -> 0 <= max ->
  part_text p +:+ t ≠ "*"%string /\ part_text p +:+ t ≠ "?"%string.
Proof.
  intros Hp Hmax. pose proof (part_text_nonempty p max Hp Hmax) as Hne.
  assert (Hd : forall n s, 0 <= n -> decimal n +:+ s ≠ "*"%string /\ decimal n +:+ s ≠ "?"%string).
  { intros n s Hn. pose proof (decimal_ascii n Hn) as Hd. rewrite decimal_text in * by done.
    destruct (decimal_digits_spec n Hn) as (_ & _ & Hdn). destruct (decimal_digits n) as [|a l]; [done|].
    apply Forall_cons in Hd as [Ha _]. simpl. split; intros [= -> _]; done. }
  destruct p; simpl in *; unfold dash; rewrite ?append_assoc; first [apply Hd; lia|done].
Qed.

(** A cron field allows exactly the values its parts name.  A field that is a
    comma-separated list of numbers, ranges and steps, whose numbers fit [u32],
    is read to the increasing list of the values between the field's bounds that
    some part names; a field none of whose parts names a value of the field
    is rejected. *)
Theorem cron_field_values parts min max :
  0 <= min -> 0 <= max -> parts ≠ [] -> Forall (part_fits max) parts ->
  exists values,
    parse_cron_field (join_char ","%char (part_text <$> parts)) min max
      = Ok (match values with [] => None | _ => Some values end)
    /\ StronglySorted Z.lt values
    /\ forall v, v ∈ values <-> min <= v <= max /\ exists p, p ∈ parts /\ part_names min p v.
Proof.
  intros Hmin Hmax Hne Hp. unfold parse_cron_field.
  assert (Hv : Forall visible (String.list_ascii_of_string (join_char ","%char (part_text <$> parts)))).
  { clear Hne. induction Hp as [|p parts Hp Hps IH]; [constructor|]. pose proof (part_visible p max Hp Hmax).
    destruct parts as [|p' parts]; [done|].
    change (join_char _ _) with (part_text p +:+ String ","%char (join_char ","%char (part_text <$> p' :: parts))).
    rewrite list_ascii_app. apply Forall_app. split; [done|]. constructor; [by apply visible_check|done]. }
  rewrite visible_trim by done.
  assert (Hany : join_char ","%char (part_text <$> parts) ≠ "*"%string /\ join_char ","%char (part_text <$> parts) ≠ "?"%string).
  { destruct Hp as [|p parts Hp Hps]; [done|].
    destruct parts as [|p' parts]; [|by apply (field_not_any p max)].
    pose proof (field_not_any p max EmptyString Hp Hmax) as Hf. simpl.
    assert (E : forall s, s +:+ EmptyString = s) by (induction s as [|a s IH]; [done|exact (f_equal (String a) IH)]).
    by rewrite E in Hf. }
  destruct Hany. rewrite !bool_decide_false by done. cbn [orb].
  rewrite split_all_join; [|by destruct parts|].
  2: { apply Forall_fmap. eapply Forall_impl; [done|]. intros p Hf. by eapply part_free. }
  destruct (parts_loop_named parts min max [] Hmin Hmax Hp) as (l & -> & Hl). change ([] ++ l) with l.
  exists (dedup (order_by Z.leb l)).
  assert (Hin : forall v, v ∈ dedup (order_by Z.leb l) <-> v ∈ l).
  { intros v. by rewrite elem_of_dedup, <- order_by_permutation. }
  split.
  - destruct l as [|a l]; [done|]. destruct (dedup _) as [|b l'] eqn:E; [|done].
    specialize (Hin a). set_solver.
  - split; [|intros v; by rewrite Hin]. apply dedup_increasing, order_by_in_order.
    + intros a b. rewrite !Z.leb_le. lia.
    + intros a b d. rewrite !Z.leb_le. lia.
Qed.
