(* ===== verification/TimerCycle.v ===== *)
(** * Repeating timers

    The cycle expressions of [engine/time_source.rs]: [R[n]/period], [R[n]/start/period],
    [R[n]/period/end], [R[n]/start/end] and cron.  [prepare_repeat] writes the start into
    the text, [resolve_cycle] finds the next fire after an instant,
    [next_repeat_expression] counts the repetitions down.

    Shown: the due instant is on the grid of periods from the start and the first
    point of it after the instant asked for ([next_due_on_grid]; in closed form for
    periods of fixed length, [fixed_period_due]); a prepared cycle is anchored
    ([prepared_cycle_parses]); [Rn] fires n times ([repeat_fires_n_times]). *)
From stdpp Require Import list.
From Stdlib Require Import Ascii.
From S2P Require Import Prelude Chars Float64 Numerals Json Errors ElValues ElParserProof JobTypes Leases Chrono Cron.

Open Scope Z_scope.

(** ** Reading a cycle *)
Record ParsedCycle := mkParsed {
  pc_remaining : option Z;           (* None: infinite *)
  pc_start : option Z;               (* None: the clock *)
  pc_period : option IsoDuration;
  pc_end : option Z;
  pc_body_after_r : string
}.

Definition is_duration_token (s : string) : bool := starts_with "P" s.

Section Cycles.
Context `{Chrono}.

Definition parse_date_time (s : string) : option Z :=
  let s := trim s in
  if bool_decide (s = EmptyString) then None
  else
    or_else (parse_from_rfc3339 s)
      (or_else (parse_naive_date_time "%Y-%m-%dT%H:%M:%S%.f" s)
        (or_else (parse_naive_date_time "%Y-%m-%dT%H:%M:%S" s)
          (parse_naive_date "%Y-%m-%d" s))).

Definition parse_instant (value : string) : option Z := parse_date_time value.

(** The period between two instants, in whole milliseconds; the days between
    two representable instants fit [i32]. *)
Definition period_between (start stop : Z) : option IsoDuration :=
  let millis := Z.quot (stop - start) MILLI in
  if millis <=? 0 then None
  else Some (mkIso 0 0 0 (Z.quot millis 86400000) (Z.rem (Z.quot millis 3600000) 24) (Z.rem (Z.quot millis 60000) 60)
               (Z.rem (Z.quot millis 1000) 60) (Z.rem millis 1000)).

(** The start, period and end of the segments after [R[n]]. *)
Definition cycle_segments (first : string) (second : option string)
  : result JobStop (option (option Z * option IsoDuration * option Z)) :=
  if is_duration_token first then
    or_return (parse_iso8601_duration_parts first) (fun period =>
      match second with
      | Some e => Ok (stop ← parse_date_time e; Some (None, Some period, Some stop))
      | None => Ok (Some (None, Some period, None))
      end)
  else
    match parse_date_time first, second with
    | Some start, Some s =>
        if is_duration_token s then
          or_return (parse_iso8601_duration_parts s) (fun period => Ok (Some (Some start, Some period, None)))
        else
          Ok (stop ← parse_date_time s; period ← period_between start stop; Some (Some start, Some period, Some stop))
    | _, _ => Ok None
    end.

Definition cycle_remaining (r_token : string) : option (option Z) :=
  if bool_decide (r_token = "R"%string) then Some None
  else digits ← strip_prefix "R" r_token; n ← parse_u32 digits; Some (Some n).

Definition cycle_body (first : string) (second : option string) : string :=
  match second with Some s => first +:+ String "/"%char s | None => first end.

Definition read_cycle (r_token first : string) (second : option string) : result JobStop (option ParsedCycle) :=
  match cycle_remaining r_token with
  | None => Ok None
  | Some remaining =>
      or_return (cycle_segments first second) (fun '(start, period, stop) =>
        Ok (Some (mkParsed remaining start period stop (cycle_body first second))))
  end.

Definition parse_r_cycle (expression : string) : result JobStop (option ParsedCycle) :=
  let expression := trim expression in
  if negb (starts_with "R" expression) then Ok None
  else
    match split_all "/"%char expression with
    | [r_token; first] => read_cycle r_token first None
    | [r_token; first; second] => read_cycle r_token first (Some second)
    | _ => Ok None
    end.

(** ** Anchoring and the next fire *)
Definition prepare_repeat (cycle : string) (now : Z) : string :=
  let cycle := trim cycle in
  if negb (starts_with "R" cycle) then cycle
  else
    match split_all "/"%char cycle with
    | [r; period] =>
        if is_duration_token period
        then r +:+ String "/"%char (to_rfc3339_millis now +:+ String "/"%char period) else cycle
    | _ => cycle
    end.

Definition after_end (stop : option Z) (t : Z) : bool := match stop with Some e => e <? t | None => false end.

(** A turn of the loop that advances [current] by the period. *)
Definition due_turn (period : IsoDuration) (stop : option Z) (now current : Z) : Turn Z (result JobStop (option Z)) :=
  match add_to period current with
  | Err e => Stop (Err e)
  | Ok next =>
      if next <=? current then Stop (Ok None)
      else if now <? next then Stop (Ok (if after_end stop next then None else Some next))
      else Again next
  end.

Definition cycle_turns : positive := 100000.

Definition next_due_from_cycle (parsed : ParsedCycle) (now : Z) : result JobStop (option Z) :=
  match pc_period parsed with
  | None => Ok None
  | Some period =>
      if is_zero period then Ok None
      else
        let start := unwrap_or now (pc_start parsed) in
        match at_most cycle_turns (due_turn period (pc_end parsed) now) start with
        | Stop r => r
        | Again _ => Ok None
        end
  end.

Definition rebuild_cycle_expression (remaining : option Z) (body_after_r : string) : string :=
  match remaining with
  | None => "R/" +:+ body_after_r
  | Some n => "R" +:+ decimal n +:+ "/" +:+ body_after_r
  end.

Definition is_due_before_end (due : Z) (end_date_attr : option string) (cycle_end : option Z) : bool :=
  if after_end cycle_end due then false
  else negb (after_end (end_date_attr ≫= parse_date_time) due).

Definition is_valid_due_millis (due_millis : Z) (end_date : option string) : bool :=
  match end_date ≫= parse_date_time with
  | None => true
  | Some stop => due_millis <=? timestamp_millis stop
  end.

(** ** Schedules *)
Record CycleSchedule := mkSchedule { cs_cycle : string; cs_due_time_millis : Z }.

Inductive CycleResolution : Type :=
| Due (schedule : CycleSchedule)
| Finished
| Unresolvable.

Definition resolve_cycle (cycle : string) (now : Z) : result JobStop CycleResolution :=
  let cycle := trim cycle in
  if bool_decide (cycle = EmptyString) then Ok Unresolvable
  else if starts_with "R" cycle then
    let prepared := prepare_repeat cycle now in
    match parse_r_cycle prepared with
    | Err e => Err e
    | Ok None => Ok Unresolvable
    | Ok (Some parsed) =>
        if bool_decide (pc_remaining parsed = Some 0) then Ok Finished
        else
          let unbounded := mkParsed (pc_remaining parsed) (pc_start parsed) (pc_period parsed) None (pc_body_after_r parsed) in
          match next_due_from_cycle unbounded now with
          | Err e => Err e
          | Ok None => Ok Unresolvable
          | Ok (Some due) =>
              if negb (is_due_before_end due None (pc_end parsed)) then Ok Finished
              else Ok (Due (mkSchedule prepared (timestamp_millis due)))
          end
    end
  else
    match next_cron_after cycle now with
    | Err e => Err e
    | Ok (Some due) => Ok (Due (mkSchedule cycle (timestamp_millis due)))
    | Ok None => Ok Unresolvable
    end.

Definition schedule_cycle (cycle : string) (end_date : option string) (now : Z) : result JobStop (option CycleSchedule) :=
  match resolve_cycle cycle now with
  | Err e => Err e
  | Ok (Due schedule) =>
      Ok (due ← from_timestamp_millis (cs_due_time_millis schedule);
          if is_due_before_end due end_date None then Some schedule else None)
  | Ok _ => Ok None
  end.

Definition next_repeat_expression (cycle : string) : result JobStop (option string) :=
  let cycle := trim cycle in
  if bool_decide (cycle = EmptyString) then Ok None
  else if starts_with "R" cycle then
    or_return (parse_r_cycle cycle) (fun parsed =>
      let rebuilt remaining := Ok (Some (rebuild_cycle_expression remaining (pc_body_after_r parsed))) in
      match pc_remaining parsed with
      | None => rebuilt None
      | Some n => if (n =? 0) || (n =? 1) then Ok None else rebuilt (Some (n - 1))
      end)
  else Ok (Some cycle).

Definition reschedule_cycle_after_fire (cycle : string) (end_date : option string) (now : Z)
  : result JobStop (option CycleSchedule) :=
  or_return (next_repeat_expression cycle) (fun next_expr =>
    let scheduled stop due :=
      Ok (if is_due_before_end due end_date stop then Some (mkSchedule next_expr (timestamp_millis due)) else None) in
    if starts_with "R" next_expr then
      or_return (parse_r_cycle next_expr) (fun next_parsed =>
        or_return (next_due_from_cycle next_parsed now) (scheduled (pc_end next_parsed)))
    else or_return (next_cron_after next_expr now) (scheduled None)).

(** ** Due times of timer definitions *)
Definition calculate_due_time_with_end (time_date time_duration time_cycle end_date : option string) (now : Z)
  : result JobStop (option Z) :=
  match time_date ≫= parse_date_time with
  | Some dt => Ok (Some (timestamp_millis dt))
  | None =>
      let from_cycle :=
        match time_cycle with
        | Some cycle => or_return (schedule_cycle cycle end_date now) (fun s => Ok (Some (cs_due_time_millis s)))
        | None => Ok None
        end in
      match time_duration with
      | None => from_cycle
      | Some dur_str =>
          match parse_iso8601_duration_parts dur_str with
          | Err e => Err e
          | Ok (Some parts) => t ← add_to parts now; Ok (Some (timestamp_millis t))
          | Ok None =>
              match parse_iso8601_duration dur_str with
              | Err e => Err e
              | Ok (Some millis) =>
                  if timestamp_millis now + millis <=? i64_max then Ok (Some (timestamp_millis now + millis)) else Err Overflowed
              | Ok None => from_cycle
              end
          end
      end
  end.

Definition calculate_due_time (time_date time_duration time_cycle : option string) (now : Z) : result JobStop (option Z) :=
  calculate_due_time_with_end time_date time_duration time_cycle None now.

Definition prepare_cycle_and_due (time_cycle end_date : option string) (now : Z)
  : result JobStop (option string * option Z) :=
  match time_cycle with
  | Some cycle =>
      s ← schedule_cycle cycle end_date now;
      Ok (match s with
          | Some s => (Some (cs_cycle s), Some (cs_due_time_millis s))
          | None => (Some cycle, None)
          end)
  | None => Ok (None, None)
  end.

Definition resolve_timer_fields (time_date time_duration time_cycle end_date : option string) (now : Z)
  : result JobStop (option string * option Z) :=
  match time_cycle with
  | Some _ => prepare_cycle_and_due time_cycle end_date now
  | None => due ← calculate_due_time_with_end time_date time_duration None end_date now; Ok (None, due)
  end.
End Cycles.

(** ** The grid of periods *)
Section Grid.
Context `{ChronoLaws}.
#[local] Opaque cycle_turns.

(** The start and the instants after it, a period apart. *)
Fixpoint nth_fire (period : IsoDuration) (start : Z) (k : nat) : result JobStop Z :=
  match k with
  | O => Ok start
  | S k => t ← nth_fire period start k; add_to period t
  end.

(** The first point of the grid after the start that is after an instant. *)
Definition first_fire_after (period : IsoDuration) (start now t : Z) : Prop :=
  exists k, nth_fire period start (S k) = Ok t /\ now < t
    /\ forall j u, (0 < j <= k)%nat -> nth_fire period start j = Ok u -> u <= now.

Lemma due_turn_grid period stop start now :
  match at_most cycle_turns (due_turn period stop now) start with
  | Again _ => True
  | Stop r => forall t, r = Ok (Some t) -> first_fire_after period start now t /\ after_end stop t = false
  end.
Proof.
  pose proof (at_most_ind
    (fun current => exists k, nth_fire period start k = Ok current
       /\ forall j u, (0 < j <= k)%nat -> nth_fire period start j = Ok u -> u <= now)
    (fun r => forall t, r = Ok (Some t) -> first_fire_after period start now t /\ after_end stop t = false)
    (due_turn period stop now) cycle_turns start) as Hloop.
  destruct (at_most cycle_turns _ start) as [s|r]; [done|]. apply Hloop.
  2: { exists 0%nat. split; [done|]. intros. lia. }
  clear Hloop. intros current (k & Hk & Hbefore). unfold due_turn.
  destruct (add_to period current) as [next|e] eqn:En; [|done].
  assert (Hnext : nth_fire period start (S k) = Ok next) by (cbn [nth_fire]; rewrite Hk; done).
  destruct (next <=? current); [done|]. destruct (Z.ltb_spec now next).
  - destruct (after_end stop next) eqn:Ee; [done|]. intros t [= <-]. split; [|done]. by exists k.
  - exists (S k). split; [done|]. intros j u Hj Hu. destruct (decide (j = S k)) as [->|].
    + rewrite Hnext in Hu. by injection Hu as <-.
    + apply (Hbefore j); [lia|done].
Qed.

Lemma next_due_grid parsed now t period :
  pc_period parsed = Some period -> next_due_from_cycle parsed now = Ok (Some t) ->
  first_fire_after period (unwrap_or now (pc_start parsed)) now t /\ after_end (pc_end parsed) t = false.
Proof.
  intros Hp. unfold next_due_from_cycle. rewrite Hp. destruct (is_zero period); [done|].
  pose proof (due_turn_grid period (pc_end parsed) (unwrap_or now (pc_start parsed)) now) as Hg.
  destruct (at_most _ _ _) as [s|r]; [done|]. intros ->. by apply Hg.
Qed.

(** A period without years and months has the same length everywhere. *)
Definition fixed_length (period : IsoDuration) : Prop :=
  non_negative period /\ iso_years period = 0 /\ iso_months period = 0 /\ 0 < time_nanos period.

(** How many periods after its start a cycle fires next. *)
Definition periods_until (period : IsoDuration) (start now : Z) : Z :=
  Z.max 1 ((now - start) / time_nanos period + 1).

Lemma next_due_fixed parsed period now start :
  let due := start + periods_until period start now * time_nanos period in
  pc_period parsed = Some period -> fixed_length period -> unwrap_or now (pc_start parsed) = start ->
  in_range start -> in_range due ->
  next_due_from_cycle parsed now
  = Ok (if periods_until period start now <=? 100000 then if after_end (pc_end parsed) due then None else Some due else None).
Proof.
  intros due Hp (Hn & Hy & Hm & Hpos) Hstart Hr Hdue. unfold next_due_from_cycle. rewrite Hp, Hstart.
  assert (Hz : is_zero period = false).
  { apply not_true_is_false. unfold is_zero. rewrite !andb_true_iff, !Z.eqb_eq. unfold time_nanos in Hpos. intros Hz.
    destruct Hz as [[[[[[[? ?] Hw] Hd] Hh] Hmi] Hs] Hms]. rewrite Hw, Hd, Hh, Hmi, Hs, Hms in Hpos. lia. }
  rewrite Hz. set (len := time_nanos period) in *. set (k := periods_until period start now) in *.
  assert (Hk : 1 <= k /\ now < start + k * len /\ (1 < k -> start + (k - 1) * len <= now)).
  { subst k. unfold periods_until. fold len.
    pose proof (Z.div_mod (now - start) len ltac:(lia)). pose proof (Z.mod_pos_bound (now - start) len Hpos). nia. }
  destruct Hk as (Hk1 & Hknow & Hkbefore). clearbody k.
  assert (Hadd : forall j, 0 <= j < k -> add_to period (start + j * len) = Ok (start + (j + 1) * len)).
  { intros j Hj. replace (start + (j + 1) * len) with (start + j * len + time_nanos period) by (subst len; lia).
    unfold in_range in *. subst due. apply add_to_exact; try done; unfold in_range; fold len; nia. }
  pose proof (at_most_path (fun j => start + j * len) (due_turn period (pc_end parsed) now) cycle_turns 0 (k - 1)
    (Ok (if after_end (pc_end parsed) due then None else Some due))) as Hrun.
  cbv beta in Hrun. rewrite Z.mul_0_l, Z.add_0_r in Hrun. rewrite Hrun; clear Hrun.
  - change (Z.pos cycle_turns) with 100000. rewrite Z.add_0_l.
    destruct (Z.ltb_spec (k - 1) 100000), (Z.leb_spec k 100000); done || lia.
  - intros j Hj. unfold due_turn. rewrite Hadd by lia.
    destruct (Z.leb_spec (start + (j + 1) * len) (start + j * len)); [nia|].
    destruct (Z.ltb_spec now (start + (j + 1) * len)); [nia|done].
  - unfold due_turn. rewrite Hadd by lia. replace (k - 1 + 1) with k by lia. fold due.
    destruct (Z.leb_spec due (start + (k - 1) * len)); [subst due; nia|].
    destruct (Z.ltb_spec now due); [done|lia].
  - lia.
Qed.
End Grid.

(** ** Texts *)
Definition visible_text (s : string) : Prop := Forall visible (String.list_ascii_of_string s).

Lemma visible_text_app s t : visible_text (s +:+ t) <-> visible_text s /\ visible_text t.
Proof. unfold visible_text. by rewrite list_ascii_app, Forall_app. Qed.

Lemma visible_text_cons a s : visible_text (String a s) <-> visible a /\ visible_text s.
Proof. unfold visible_text. simpl. by rewrite Forall_cons. Qed.

Lemma visible_text_trim s : visible_text s -> trim s = s.
Proof. apply visible_trim. Qed.

(** Splitting a text and joining the pieces gives it back. *)
Lemma split_all_pieces c s :
  split_all c s ≠ [] /\ join_char c (split_all c s) = s /\ Forall (free_of c) (split_all c s).
Proof.
  induction s as [|a s (Hne & Hj & Hf)]; simpl; [split; [done|]; split; [done|]; repeat constructor|].
  destruct (split_all c s) as [|x xs]; [done|]. destruct (Ascii.eqb_spec a c) as [->|Hac].
  - split; [done|]. split; [|constructor; [constructor|done]].
    change (join_char c (EmptyString :: x :: xs)) with (String c (join_char c (x :: xs))). by rewrite Hj.
  - split; [done|]. apply Forall_cons in Hf as [Hx Hxs]. split.
    + destruct xs; simpl in *; by rewrite <- Hj.
    + constructor; [|done]. apply free_of_cons. split; [by apply Ascii.eqb_neq|done].
Qed.

Lemma starts_with_app p s t : starts_with p s = true -> starts_with p (s +:+ t) = true.
Proof.
  revert s. induction p as [|a p IH]; intros [|b s]; simpl; try done.
  rewrite !andb_true_iff. intros [? ?]. split; [done|by apply IH].
Qed.

Lemma parse_u32_range s n : parse_u32 s = Some n -> 0 <= n <= u32_max.
Proof.
  unfold parse_u32. destruct (parse_u64 s) as [m|] eqn:E; [|done]. apply parse_u64_range in E. simpl.
  destruct (Z.leb_spec m u32_max); [|done]. intros [= <-]. lia.
Qed.

Section Texts.
Context `{ChronoLaws}.

(** A cycle's text: a token and one or two segments. *)
Definition segments_free (second : option string) : Prop :=
  match second with Some s => free_of "/"%char s | None => True end.

Definition cycle_text (r first : string) (second : option string) : string := r +:+ String "/"%char (cycle_body first second).

Lemma split_cycle_text r first second :
  free_of "/"%char r -> free_of "/"%char first -> segments_free second ->
  split_all "/"%char (cycle_text r first second) = r :: first :: match second with Some s => [s] | None => [] end.
Proof.
  intros Hr Hf Hs. unfold cycle_text. rewrite split_all_first by done. f_equal. destruct second as [s|]; simpl in *.
  - rewrite split_all_first by done. by rewrite split_all_free.
  - by apply split_all_free.
Qed.

Lemma cycle_text_starts r first second : starts_with "R" r = true -> starts_with "R" (cycle_text r first second) = true.
Proof. apply starts_with_app. Qed.

Lemma parse_cycle_text r first second : visible_text (cycle_text r first second) ->
  starts_with "R" r = true -> free_of "/"%char r -> free_of "/"%char first -> segments_free second ->
  parse_r_cycle (cycle_text r first second) = read_cycle r first second.
Proof.
  intros Hv HR Hr Hf Hs. unfold parse_r_cycle. rewrite visible_text_trim by done.
  rewrite cycle_text_starts by done. cbn [negb]. rewrite split_cycle_text by done. by destruct second.
Qed.

Lemma starts_with_prefix a p s t : starts_with (String a p) (s +:+ t) = true -> s ≠ EmptyString ->
  starts_with (String a EmptyString) s = true.
Proof. destruct s as [|b s]; [done|]. simpl. rewrite !andb_true_iff. tauto. Qed.

Lemma parse_r_cycle_inv cycle p : visible_text cycle -> parse_r_cycle cycle = Ok (Some p) ->
  exists r first second, cycle = cycle_text r first second /\ starts_with "R" r = true
    /\ free_of "/"%char r /\ free_of "/"%char first /\ segments_free second
    /\ read_cycle r first second = Ok (Some p).
Proof.
  intros Hv. unfold parse_r_cycle. rewrite visible_text_trim by done.
  destruct (starts_with "R" cycle) eqn:Ers; [|done]. cbn [negb].
  pose proof (split_all_pieces "/"%char cycle) as (_ & Hj & Hf).
  assert (Hstart : forall r first second, read_cycle r first second = Ok (Some p) ->
            starts_with "R" (cycle_text r first second) = true -> starts_with "R" r = true).
  { intros r first second Hread Hs. apply starts_with_prefix in Hs; [done|]. intros ->. done. }
  destruct (split_all "/"%char cycle) as [|r [|first [|second [|? ?]]]]; try done.
  all: rewrite !Forall_cons in Hf; intros Hread.
  - exists r, first, None. assert (E : cycle = cycle_text r first None) by (symmetry; exact Hj).
    rewrite E in Ers. split; [done|]. split; [by eapply Hstart|]. cbn [segments_free]. tauto.
  - exists r, first, (Some second). assert (E : cycle = cycle_text r first (Some second)) by (symmetry; exact Hj).
    rewrite E in Ers. split; [done|]. split; [by eapply Hstart|]. cbn [segments_free]. tauto.
Qed.

(** The count of a token in front of the same segments. *)
Definition with_remaining (p : ParsedCycle) (remaining : option Z) : ParsedCycle :=
  mkParsed remaining (pc_start p) (pc_period p) (pc_end p) (pc_body_after_r p).

Lemma read_cycle_body r first second p : read_cycle r first second = Ok (Some p) ->
  cycle_remaining r = Some (pc_remaining p) /\ pc_body_after_r p = cycle_body first second
  /\ cycle_segments first second = Ok (Some (pc_start p, pc_period p, pc_end p)).
Proof.
  unfold read_cycle. destruct (cycle_remaining r) as [remaining|]; [|done].
  destruct (cycle_segments first second) as [[[[start period] stop]|]|]; simpl; try done. by intros [= <-].
Qed.

Lemma read_cycle_token r first second p r' remaining : read_cycle r first second = Ok (Some p) ->
  cycle_remaining r' = Some remaining -> read_cycle r' first second = Ok (Some (with_remaining p remaining)).
Proof.
  intros (_ & Hb & Hs)%read_cycle_body Hr'. unfold read_cycle, with_remaining. by rewrite Hr', Hs, Hb.
Qed.

Lemma cycle_remaining_decimal n : 0 <= n <= u32_max -> cycle_remaining ("R" +:+ decimal n) = Some (Some n).
Proof.
  intros Hn. unfold cycle_remaining. rewrite bool_decide_false.
  - change (strip_prefix "R" ("R" +:+ decimal n)) with (Some (decimal n)). cbn [mbind option_bind].
    by rewrite parse_u32_decimal.
  - intros E. destruct (decimal_digits_spec n) as (_ & _ & Hne); [lia|]. apply Hne.
    change ("R" +:+ decimal n) with (String "R"%char (decimal n)) in E. injection E as E. rewrite decimal_text in E by lia.
    by destruct (decimal_digits n).
Qed.

Lemma cycle_remaining_range r n : cycle_remaining r = Some (Some n) -> 0 <= n <= u32_max.
Proof.
  unfold cycle_remaining. destruct (bool_decide _); [done|]. destruct (strip_prefix "R" r) as [d|]; [|done]. cbn [mbind option_bind].
  destruct (parse_u32 d) as [m|] eqn:E; [|done]. intros [= <-]. by eapply parse_u32_range.
Qed.

Lemma next_repeat_eq cycle p : visible_text cycle -> parse_r_cycle cycle = Ok (Some p) ->
  next_repeat_expression cycle =
    match pc_remaining p with
    | None => Ok (Some (rebuild_cycle_expression None (pc_body_after_r p)))
    | Some n => if (n =? 0) || (n =? 1) then Ok None
                else Ok (Some (rebuild_cycle_expression (Some (n - 1)) (pc_body_after_r p)))
    end.
Proof.
  intros Hv Hp. unfold next_repeat_expression. rewrite visible_text_trim by done.
  destruct (parse_r_cycle_inv cycle p Hv Hp) as (r & first & second & -> & HR & _).
  rewrite cycle_text_starts by done. rewrite Hp. simpl. rewrite bool_decide_false; [done|].
  by destruct r.
Qed.

Lemma rebuild_text n first second :
  rebuild_cycle_expression (Some n) (cycle_body first second) = cycle_text ("R" +:+ decimal n) first second.
Proof. unfold rebuild_cycle_expression, cycle_text. by rewrite append_assoc. Qed.

(** After a fire a counted cycle is the same cycle with one repetition less. *)
Lemma repeat_counts_down cycle p n : visible_text cycle -> parse_r_cycle cycle = Ok (Some p) ->
  pc_remaining p = Some n -> 2 <= n ->
  exists next, next_repeat_expression cycle = Ok (Some next) /\ visible_text next
    /\ parse_r_cycle next = Ok (Some (with_remaining p (Some (n - 1)))).
Proof.
  intros Hv Hp Hn H2. rewrite (next_repeat_eq cycle p) by done. rewrite Hn.
  destruct (Z.eqb_spec n 0), (Z.eqb_spec n 1); try lia. cbn [orb]. eexists. split; [done|].
  destruct (parse_r_cycle_inv cycle p Hv Hp) as (r & first & second & -> & HR & Hr & Hf & Hs & Hread).
  destruct (read_cycle_body r first second p Hread) as (Htok & Hbody & _). rewrite Hn in Htok.
  apply cycle_remaining_range in Htok. rewrite Hbody, rebuild_text.
  unfold cycle_text in Hv. apply visible_text_app in Hv as [_ Hvb].
  assert (Hvn : visible_text (cycle_text ("R" +:+ decimal (n - 1)) first second)).
  { apply visible_text_app. split; [|done]. apply visible_text_app. split; [|apply decimal_visible; lia].
    constructor; [by apply visible_check|constructor]. }
  split; [done|]. rewrite parse_cycle_text; [|done|done| |done|done].
  - eapply read_cycle_token; [done|]. apply cycle_remaining_decimal. lia.
  - apply free_of_app. split; [by repeat constructor|apply decimal_free; [lia|done]].
Qed.

(** An uncounted cycle stays as it is. *)
Lemma repeat_forever cycle p : visible_text cycle -> parse_r_cycle cycle = Ok (Some p) -> pc_remaining p = None ->
  next_repeat_expression cycle = Ok (Some cycle).
Proof.
  intros Hv Hp Hn. rewrite (next_repeat_eq cycle p) by done. rewrite Hn.
  destruct (parse_r_cycle_inv cycle p Hv Hp) as (r & first & second & -> & HR & Hr & Hf & Hs & Hread).
  destruct (read_cycle_body r first second p Hread) as (Htok & Hbody & _). rewrite Hn in Htok.
  unfold cycle_remaining in Htok. destruct (bool_decide _) eqn:E.
  - apply bool_decide_eq_true in E as ->. unfold rebuild_cycle_expression. by rewrite Hbody.
  - destruct (strip_prefix "R" r) as [d|]; [|done]. simpl in Htok. by destruct (parse_u32 d).
Qed.

(** The expression after a number of fires; [None] once the cycle is exhausted. *)
Fixpoint after_fires (k : nat) (cycle : string) : result JobStop (option string) :=
  match k with
  | O => Ok (Some cycle)
  | S k => or_return (after_fires k cycle) next_repeat_expression
  end.

Lemma after_fires_count cycle p n k : visible_text cycle -> parse_r_cycle cycle = Ok (Some p) ->
  pc_remaining p = Some n -> Z.of_nat k < n ->
  exists next, after_fires k cycle = Ok (Some next) /\ visible_text next
    /\ parse_r_cycle next = Ok (Some (with_remaining p (Some (n - Z.of_nat k)))).
Proof.
  intros Hv Hp Hn. induction k as [|k IH]; intros Hk; cbn [after_fires].
  - exists cycle. split; [done|]. split; [done|]. rewrite Z.sub_0_r, <- Hn. rewrite Hp. by destruct p.
  - destruct IH as (next & -> & Hvn & Hpn); [lia|]. cbn [or_return].
    destruct (repeat_counts_down next _ (n - Z.of_nat k) Hvn Hpn eq_refl) as (next' & -> & Hv' & Hp'); [lia|].
    exists next'. split; [done|]. split; [done|]. rewrite Hp'.
    by replace (n - Z.of_nat (S k)) with (n - Z.of_nat k - 1) by lia.
Qed.

(** ** Anchored cycles *)
Lemma cycle_segments_end first second p :
  cycle_segments first second = Ok (Some (None, p, None)) ->
  second = None /\ is_duration_token first = true /\ exists d, p = Some d /\ parse_iso8601_duration_parts first = Ok (Some d).
Proof.
  unfold cycle_segments. destruct (is_duration_token first) eqn:Et.
  - destruct (parse_iso8601_duration_parts first) as [[d|]|]; simpl; try done.
    destruct second as [e|]; [by destruct (parse_date_time e)|]. intros [= <-]. eauto.
  - destruct (parse_date_time first); [|done]. destruct second as [s|]; [|done]. destruct (is_duration_token s).
    + by destruct (parse_iso8601_duration_parts s) as [[d|]|].
    + destruct (parse_date_time s) as [stop|]; [|done]. simpl. by destruct (period_between _ stop).
Qed.

Lemma cycle_segments_anchored first second start p stop :
  cycle_segments first second = Ok (Some (Some start, p, stop)) -> second ≠ None.
Proof.
  unfold cycle_segments. destruct (is_duration_token first).
  - destruct (parse_iso8601_duration_parts first) as [[d|]|]; simpl; try done.
    destruct second as [e|]; [by destruct (parse_date_time e)|done].
  - destruct (parse_date_time first); [|done]. by destruct second.
Qed.

Lemma anchor_text now : in_range now -> 0 <= utc_year now <= 9999 ->
  visible_text (to_rfc3339_millis now) /\ free_of "/"%char (to_rfc3339_millis now)
  /\ is_duration_token (to_rfc3339_millis now) = false
  /\ parse_date_time (to_rfc3339_millis now) = Some (now / MILLI * MILLI).
Proof.
  intros Hr Hy. pose proof (rfc3339_law now Hr Hy) as Hback.
  destruct (rfc3339_text_law now Hr Hy) as (a & s & Ht & Ha & Hs). rewrite Ht in *.
  assert (Hc : forall b, rfc3339_char b = true -> visible b /\ Ascii.eqb b "/"%char = false).
  { intros b. unfold rfc3339_char. rewrite orb_true_iff. intros [Hd|Hb].
    - split; [by apply is_digit_visible|by apply digit_eqb].
    - apply existsb_exists in Hb as (x & Hx & ->%Ascii.eqb_eq). rewrite <- list_elem_of_In in Hx.
      repeat (apply elem_of_cons in Hx as [->|Hx]; [split; [by apply visible_check|done]|]). by apply not_elem_of_nil in Hx. }
  assert (Hcs : Forall (fun b => visible b /\ Ascii.eqb b "/"%char = false) (String.list_ascii_of_string (String a s))).
  { simpl. constructor; [apply Hc; unfold rfc3339_char; by rewrite Ha|]. eapply Forall_impl; [done|done]. }
  assert (Hv : visible_text (String a s)) by (eapply Forall_impl; [exact Hcs|]; intros b [? ?]; done).
  split; [done|]. split; [eapply Forall_impl; [exact Hcs|]; intros b [? ?]; done|]. split.
  - unfold is_duration_token. cbn [starts_with]. rewrite Ascii.eqb_sym, (digit_eqb a) by done. done.
  - unfold parse_date_time. rewrite visible_text_trim by done. rewrite bool_decide_false by done. by rewrite Hback.
Qed.

(** A cycle without a start is given one, the instant at which it is scheduled, to
    the millisecond, and is otherwise read to the same cycle. *)
Lemma prepared_cycle_parses cycle p now : visible_text cycle -> parse_r_cycle cycle = Ok (Some p) ->
  pc_start p = None -> pc_end p = None -> in_range now -> 0 <= utc_year now <= 9999 ->
  visible_text (prepare_repeat cycle now)
  /\ exists body, parse_r_cycle (prepare_repeat cycle now)
    = Ok (Some (mkParsed (pc_remaining p) (Some (now / MILLI * MILLI)) (pc_period p) None body)).
Proof.
  intros Hv Hp Hs He Hr Hy.
  destruct (parse_r_cycle_inv cycle p Hv Hp) as (r & first & second & -> & HR & Hfr & Hff & Hfs & Hread).
  destruct (read_cycle_body r first second p Hread) as (Htok & Hbody & Hseg). rewrite Hs, He in Hseg.
  apply cycle_segments_end in Hseg as (-> & Hd & d & Hpd & Hparse).
  destruct (anchor_text now Hr Hy) as (Hva & Hfa & Hda & Hpa).
  assert (Hprep : prepare_repeat (cycle_text r first None) now = cycle_text r (to_rfc3339_millis now) (Some first)).
  { unfold prepare_repeat. rewrite visible_text_trim by done. rewrite cycle_text_starts by done. cbn [negb].
    rewrite split_cycle_text by done. by rewrite Hd. }
  assert (Hvp : visible_text (cycle_text r (to_rfc3339_millis now) (Some first))).
  { unfold cycle_text in *. apply visible_text_app in Hv as [Hvr Hvf]. apply visible_text_app. split; [done|].
    apply visible_text_cons in Hvf as [Hsl Hvf]. apply visible_text_cons. split; [done|]. apply visible_text_app. split; [done|].
    by apply visible_text_cons. }
  rewrite Hprep. split; [done|]. exists (cycle_body (to_rfc3339_millis now) (Some first)). rewrite parse_cycle_text by done.
  unfold read_cycle, cycle_segments. rewrite Htok, Hda, Hpa, Hd, Hparse, Hpd. done.
Qed.

Lemma prepare_anchored cycle p now : visible_text cycle -> parse_r_cycle cycle = Ok (Some p) -> pc_start p ≠ None ->
  prepare_repeat cycle now = cycle.
Proof.
  intros Hv Hp Hs. destruct (parse_r_cycle_inv cycle p Hv Hp) as (r & first & second & -> & HR & Hfr & Hff & Hfs & Hread).
  destruct (read_cycle_body r first second p Hread) as (_ & _ & Hseg).
  destruct (pc_start p) as [start|]; [|done]. apply cycle_segments_anchored in Hseg.
  unfold prepare_repeat. rewrite visible_text_trim by done. rewrite cycle_text_starts by done. cbn [negb].
  rewrite split_cycle_text by done. by destruct second.
Qed.

(** The next fire of an anchored cycle, from the decision on its parsed form. *)
Lemma resolve_anchored cycle p now : visible_text cycle -> parse_r_cycle cycle = Ok (Some p) ->
  pc_start p ≠ None -> pc_remaining p ≠ Some 0 -> pc_end p = None ->
  resolve_cycle cycle now =
    match next_due_from_cycle p now with
    | Err e => Err e
    | Ok None => Ok Unresolvable
    | Ok (Some due) => Ok (Due (mkSchedule cycle (timestamp_millis due)))
    end.
Proof.
  intros Hv Hp Hs Hn He. unfold resolve_cycle. rewrite visible_text_trim by done.
  destruct (parse_r_cycle_inv cycle p Hv Hp) as (r & first & second & Ec & HR & _).
  rewrite bool_decide_false by (subst cycle; by destruct r).
  assert (Hst : starts_with "R" cycle = true) by (subst cycle; by apply cycle_text_starts).
  rewrite Hst, (prepare_anchored cycle p now), Hp by done. rewrite bool_decide_false by done. rewrite He.
  replace (mkParsed _ _ _ None _) with p by (rewrite <- He; by destruct p).
  by destruct (next_due_from_cycle p now) as [[due|]|].
Qed.
End Texts.

(** C18: A timer repeated n times fires n times.  For a cycle of n repetitions, the
    expression persisted after each of the first n - 1 fires is read to the same
    cycle (start, period and end) with one repetition less each time, and after
    the n-th fire there is none. *)
Theorem repeat_fires_n_times `{ChronoLaws} cycle p n :
  visible_text cycle -> parse_r_cycle cycle = Ok (Some p) -> pc_remaining p = Some n -> 1 <= n ->
  (forall k, Z.of_nat k < n -> exists next, after_fires k cycle = Ok (Some next)
     /\ parse_r_cycle next = Ok (Some (with_remaining p (Some (n - Z.of_nat k)))))
  /\ after_fires (Z.to_nat n) cycle = Ok None.
Proof.
  intros Hv Hp Hn H1. split.
  - intros k Hk. destruct (after_fires_count cycle p n k Hv Hp Hn Hk) as (next & ? & _ & ?). by exists next.
  - destruct (after_fires_count cycle p n (Z.to_nat (n - 1)) Hv Hp Hn) as (next & Ha & Hvn & Hpn); [lia|].
    replace (Z.to_nat n) with (S (Z.to_nat (n - 1))) by lia. cbn [after_fires]. rewrite Ha. cbn [or_return].
    rewrite (next_repeat_eq next _ Hvn Hpn). cbn [pc_remaining with_remaining].
    by replace (n - Z.of_nat (Z.to_nat (n - 1))) with 1 by lia.
Qed.

(** A cycle with a start is due on its grid: at the first instant of start,
    start + period, start + 2 periods, and so on, after the start itself, that is
    after [now], however late the timer is fired. *)
Theorem next_due_on_grid `{ChronoLaws} cycle p period start now schedule :
  visible_text cycle -> parse_r_cycle cycle = Ok (Some p) ->
  pc_start p = Some start -> pc_period p = Some period -> pc_end p = None -> pc_remaining p ≠ Some 0 ->
  resolve_cycle cycle now = Ok (Due schedule) ->
  exists t, cs_due_time_millis schedule = timestamp_millis t /\ cs_cycle schedule = cycle
    /\ first_fire_after period start now t.
Proof.
  intros Hv Hp Hs Hper He Hn. rewrite (resolve_anchored cycle p now) by (done || by rewrite Hs).
  destruct (next_due_from_cycle p now) as [[due|]|] eqn:Ed; [|done..]. intros [= <-]. exists due.
  apply (next_due_grid p now due period) in Ed as [Hg _]; [|done]. by rewrite Hs in Hg.
Qed.

(** The number of periods is the one that leads past [now]. *)
Lemma periods_until_unique period start now k :
  0 < time_nanos period -> 1 <= k -> start + (k - 1) * time_nanos period <= now < start + k * time_nanos period ->
  periods_until period start now = k.
Proof.
  intros Hpos Hk Hnow. unfold periods_until.
  assert (Hd : (now - start) / time_nanos period = k - 1); [|lia].
  symmetry. apply (Z.div_unique _ _ _ (now - start - (k - 1) * time_nanos period)); [left|]; lia.
Qed.

(** C17: repeating timers do not drift.  A cycle expression (visible ASCII, accepted by
    the parser) has a start, a period of fixed length (no years or months, more than
    nothing), no end date and repetitions left, and its start is not after [now].  Let
    k be the number of periods that leads from the start to the first instant after
    [now]: start + (k - 1) periods <= now < start + k periods, both ends within the
    range of dates.  If k is at most 100000, the cycle is due exactly k periods after
    its start, to the millisecond, under the unchanged expression; otherwise it is
    unresolvable. *)
Theorem fixed_period_due `{ChronoLaws} cycle p period start now k :
  visible_text cycle -> parse_r_cycle cycle = Ok (Some p) ->
  pc_start p = Some start -> pc_period p = Some period -> pc_end p = None -> pc_remaining p ≠ Some 0 ->
  fixed_length period -> 1 <= k -> start + (k - 1) * time_nanos period <= now < start + k * time_nanos period ->
  in_range start -> in_range (start + k * time_nanos period) ->
  resolve_cycle cycle now
  = Ok (if k <=? 100000 then Due (mkSchedule cycle (timestamp_millis (start + k * time_nanos period))) else Unresolvable).
Proof.
  intros Hv Hp Hs Hper He Hn Hfix Hk Hnow Hr Hd. rewrite (resolve_anchored cycle p now) by (done || by rewrite Hs).
  assert (Hu : periods_until period start now = k) by (apply periods_until_unique; [apply Hfix|done|done]).
  rewrite (next_due_fixed p period now start) by (done || (by rewrite Hs) || by rewrite Hu). rewrite He, Hu.
  by destruct (k <=? 100000).
Qed.
