(* ===== verification/JobExecution.v ===== *)
(** * Executing jobs: guards, failures and retries

    The retry cycle of a failed job ([engine/job_retry.rs]), the command that records a
    failure ([cmd/record_failed_timer_work_cmd.rs]), the guard that decides whether
    a worker may still run a job ([ExecuteTimerWorkCmd]), the lock of an exclusive job's
    instance, the move out of the dead letters, the offer of acquired jobs to
    the executor's queue and its wait policy ([engine/async_job_acquisition.rs]).

    Parameters: the expression evaluator on a job's evaluation execution, and the
    application's event listeners, which run inside the command.  Work other
    than a runtime job (process start and event subprocess timers) is opaque. *)
From stdpp Require Import pretty.
From Stdlib Require Import Ascii.
From S2P Require Import JobStore Prelude Chars Float64 Numerals Json Errors ElValues Execution Store JobTypes JobLocks JobLocksProof Leases Chrono.

Open Scope Z_scope.

(** ** Retry cycles *)
Record FailedJobRetryCycle := mkCycle { fc_repetitions : Z; fc_delay_ms : Z }.

Definition parse_failed_job_retry_cycle (value : string) : result JobStop (option FailedJobRetryCycle) :=
  match split_once "/"%char (trim value) with
  | None => Ok None
  | Some (repeat, duration) =>
      match strip_prefix "R" repeat ≫= parse_i32 with
      | None => Ok None
      | Some repetitions =>
          if repetitions <=? 0 then Ok None
          else
            match parse_iso8601_duration duration with
            | Ok (Some delay_ms) => Ok (Some (mkCycle repetitions delay_ms))
            | Ok None => Ok None
            | Err e => Err e
            end
      end
  end.

(** The evaluation of an expression on a job's evaluation execution. *)
Class JobEnv := {
  job_display : Display;
  cycle_value : string -> Execution -> result Message (option Value)
}.
#[export] Existing Instance job_display.

Section Retry.
Context `{JobEnv}.

Definition resolve_cycle_text (raw_value : string) (execution : Execution) : result FlowableError string :=
  let trimmed := trim raw_value in
  if starts_with "${" trimmed && ends_with_char trimmed "}" then
    let expression := [Lit "failedJobRetryTimeCycle expression '"; Lit trimmed] in
    let for_execution := [Lit " for execution '"; Lit (ex_id execution); Lit "'"] in
    match cycle_value trimmed execution with
    | Err error => Err (ExecutionError (expression ++ [Lit "' failed"] ++ for_execution ++ Lit ": " :: error))
    | Ok None => Err (ExecutionError (expression ++ Lit "' resolved to no value" :: for_execution))
    | Ok (Some (VString value)) => Ok value
    | Ok (Some VNull) => Err (ExecutionError (expression ++ Lit "' resolved to null" :: for_execution))
    | Ok (Some value) => Ok (value_to_string value)
    end
  else Ok trimmed.

Definition resolve_failed_job_retry_cycle (raw_value : string) (execution : Execution)
  : result JobStop FailedJobRetryCycle :=
  match resolve_cycle_text raw_value execution with
  | Err e => Err (FlowableStop e)
  | Ok resolved =>
      match parse_failed_job_retry_cycle resolved with
      | Ok (Some cycle) => Ok cycle
      | Ok None => Err (FlowableStop (ExecutionError
          [Lit "failedJobRetryTimeCycle has invalid value '"; Lit resolved; Lit "' for execution '";
           Lit (ex_id execution); Lit "'"]))
      | Err e => Err e
      end
  end.
End Retry.

(** ** Recording a failure *)
Inductive TimerWork := RuntimeJob (job : RuntimeTimerJobState) | OtherWork.
Inductive FailedJobExecutionOrigin := ManualManagementService | AutomaticExecutor.

Record RecordFailedTimerWorkCmd := mkFailed {
  rf_work : TimerWork;
  rf_error : FlowableError;
  rf_error_message : string;
  rf_error_details : string;
  rf_unrecoverable : bool;
  rf_origin : FailedJobExecutionOrigin
}.

Inductive JobEvent : Type :=
| JobExecutionFailure (job : RuntimeTimerJobState) (error : FlowableError)
| JobMovedToDeadLetter (job : RuntimeTimerJobState)
| JobEntityUpdated (job : RuntimeTimerJobState)
| JobRetriesDecremented (job : RuntimeTimerJobState)
| JobRejected (job : RuntimeTimerJobState).

Class JobListeners := dispatch_in_context : JobEvent -> JM unit.

Record AsyncExecutorConfig := mkExecutorConfig {
  ax_number_of_retries : Z;
  ax_async_failed_job_wait_time_ms : Z;
  ax_async_job_lock_time_ms : Z
}.

Section Failures.
Context `{JobEnv} `{JobListeners} (config : AsyncExecutorConfig).

Definition dispatch_execution_failure (cmd : RecordFailedTimerWorkCmd) (job : RuntimeTimerJobState) : JM unit :=
  let event := dispatch_in_context (JobExecutionFailure job (rf_error cmd)) in
  match rf_origin cmd with
  | ManualManagementService => event
  | AutomaticExecutor =>
      fun s => match event s with
               | (Err (StorageStop _), s) | (Err (FlowableStop _), s) => (Ok tt, s)
               | r => r
               end
  end.

Definition is_async_continuation (job : RuntimeTimerJobState) : bool :=
  bool_decide (jb_time_duration job = Some ASYNC_CONTINUATION_MARKER).

(** The source evaluates the cycle on [evaluation_execution] of the token, which
    merges the variables of its parent scopes; that merge, which reads the
    executions of the session, is part of the parameter [cycle_value]. *)
Definition retry_cycle_of (job : RuntimeTimerJobState) : JM (option FailedJobRetryCycle) :=
  if is_async_continuation job then
    match jb_time_cycle job with
    | Some raw_cycle =>
        found ← find_job_execution (jb_execution_id job);
        match found with
        | Some execution => cycle ← lift (resolve_failed_job_retry_cycle raw_cycle execution); mret (Some cycle)
        | None => throw (FlowableStop (NotFound
            [Lit "Execution '"; Lit (jb_execution_id job); Lit "' for failed async job '";
             Lit (jb_timer_job_id job); Lit "' was not found"]))
        end
    | None => mret None
    end
  else mret None.

(** The retries left, and the job as it is written back. *)
Definition retries_after (cmd : RecordFailedTimerWorkCmd) (job : RuntimeTimerJobState)
  (cycle : option FailedJobRetryCycle) : Z :=
  let before :=
    match jb_error_message job with
    | None => match cycle with
              | Some c => fc_repetitions c
              | None => default (Z.max (ax_number_of_retries config) 0) (jb_retries job)
              end
    | Some _ => default 0 (jb_retries job)
    end in
  if rf_unrecoverable cmd then 0 else Z.max i32_min (before - 1).

Definition state_after (retries : Z) (job : RuntimeTimerJobState) : option string :=
  if retries <=? 0 then Some "deadletter"%string
  else if is_async_continuation job then Some "timer"%string
  else or_else (jb_job_state job) (Some "timer"%string).

Definition due_after (now retries : Z) (cycle : option FailedJobRetryCycle) (job : RuntimeTimerJobState)
  : JM (option Z) :=
  if (0 <? retries) && is_async_continuation job then
    let delay_ms := match cycle with
                    | Some c => Z.max (fc_delay_ms c) 0
                    | None => ax_async_failed_job_wait_time_ms config
                    end in
    due ← add_or_overflow now (Z.min delay_ms i64_max); mret (Some due)
  else mret (jb_due_time job).

Definition RecordFailedTimerWork_execute (cmd : RecordFailedTimerWorkCmd) (now : Z) (uuid : string) : JM unit :=
  match rf_work cmd with
  | OtherWork => mret tt
  | RuntimeJob timer_job =>
      found ← find_timer_job_state (jb_timer_job_id timer_job);
      let failed_job := default timer_job found in
      (match rf_origin cmd with
       | ManualManagementService => dispatch_execution_failure cmd failed_job
       | AutomaticExecutor => mret tt
       end) ;;
      cycle ← retry_cycle_of failed_job;
      let retries := retries_after cmd failed_job cycle in
      let state := state_after retries failed_job in
      due ← due_after now retries cycle failed_job;
      let persisted_job := with_progress state due (Some retries) (Some (rf_error_message cmd))
                             (Some (rf_error_details cmd)) (without_lock failed_job) in
      command (insert_timer_job_state now uuid persisted_job) ;;
      (if (retries <=? 0) && negb (bool_decide (jb_job_state failed_job = Some "deadletter"%string))
       then dispatch_in_context (JobMovedToDeadLetter persisted_job) else mret tt) ;;
      dispatch_in_context (JobEntityUpdated persisted_job) ;;
      dispatch_in_context (JobRetriesDecremented persisted_job) ;;
      match rf_origin cmd with
      | AutomaticExecutor =>
          dispatch_execution_failure cmd failed_job ;;
          if jb_exclusive failed_job && negb (String.eqb (jb_process_instance_id failed_job) EmptyString)
          then clear_process_instance_lock (jb_process_instance_id failed_job) else mret tt
      | ManualManagementService => mret tt
      end
  end.
End Failures.

(** ** Out of the dead letters *)
Definition MoveDeadLetterJobToExecutableJob_execute (job_id : string) (retries now : Z) (uuid : string) : JM unit :=
  found ← find_timer_job_state job_id;
  match found with
  | None => throw (FlowableStop (NotFound [Lit "Job '"; Lit job_id; Lit "' not found"]))
  | Some job =>
      if bool_decide (jb_job_state job = Some "deadletter"%string) then
        let state := if bool_decide (jb_time_duration job = Some ASYNC_CONTINUATION_MARKER)
                     then "async"%string else "timer"%string in
        command (insert_timer_job_state now uuid
          (with_progress (Some state) (jb_due_time job) (Some retries) None None (without_lock job)))
      else throw (FlowableStop (Generic [Lit "Job '"; Lit job_id; Lit "' is not in deadletter state"]))
  end.

(** ** May this worker run the job? *)
Record ExecuteTimerWorkCmd := mkExecute {
  ew_work : TimerWork;
  ew_owner_id : string;
  ew_fencing_token : Z;
  ew_require_acquired_lock : bool;
  ew_direct_hint : bool
}.

Definition is_async_continuation_job (job : RuntimeTimerJobState) : bool :=
  bool_decide (jb_job_state job = Some "async"%string)
  || bool_decide (jb_time_duration job = Some ASYNC_CONTINUATION_MARKER).
Definition is_async_after_job (job : RuntimeTimerJobState) : bool :=
  bool_decide (jb_job_state job = Some "async-after"%string)
  || bool_decide (jb_time_duration job = Some ASYNC_AFTER_MARKER).
Definition is_history_job (job : RuntimeTimerJobState) : bool :=
  bool_decide (jb_job_state job = Some "history"%string).

Definition timer_work_is_async_job (work : TimerWork) : bool :=
  match work with
  | RuntimeJob job => is_async_continuation_job job || is_async_after_job job || is_history_job job
  | OtherWork => false
  end.

Definition find_timer_coordinator_lease (id : string) : JM (option TimerCoordinatorLease) :=
  job_find_or_note timer_coordinator_leases id.

(** The exclusive lock of the job's instance is given up with the job. *)
Definition give_up_scope (job : RuntimeTimerJobState) : JM unit :=
  if jb_exclusive job && negb (String.eqb (jb_process_instance_id job) EmptyString)
  then clear_process_instance_lock (jb_process_instance_id job) else mret tt.

Definition coordinator_allows (cmd : ExecuteTimerWorkCmd) : JM bool :=
  if ew_direct_hint cmd || negb (ew_require_acquired_lock cmd)
     || ((ew_fencing_token cmd =? 0) && timer_work_is_async_job (ew_work cmd))
  then mret true
  else
    lease ← find_timer_coordinator_lease "timer-coordinator";
    mret (match lease with
          | Some lease => (ls_fencing_token lease =? ew_fencing_token cmd)
                          && bool_decide (ls_owner_node_id lease = ew_owner_id cmd)
          | None => false
          end).

(** The job that is handed to its handler, if any: [ExecuteTimerWorkCmd::execute]
    up to the dispatch on the kind of job, for a runtime job. *)
Definition job_to_execute (cmd : ExecuteTimerWorkCmd) (timer : RuntimeTimerJobState) (now : Z)
  : JM (option RuntimeTimerJobState) :=
  allowed ← coordinator_allows cmd;
  if (allowed : bool) then
    found ← find_timer_job_state (jb_timer_job_id timer);
    match found with
    | None =>
        (if ew_require_acquired_lock cmd then give_up_scope timer else mret tt) ;; mret None
    | Some current =>
        let same_lease :=
          bool_decide (jb_lock_owner current = Some (ew_owner_id cmd))
          && bool_decide (jb_lock_owner current = jb_lock_owner timer)
          && bool_decide (jb_lock_time current = jb_lock_time timer)
          && bool_decide (jb_lock_expiration_time current = jb_lock_expiration_time timer) in
        let lock_live := match jb_lock_expiration_time current with
                         | Some expiration => now <? expiration
                         | None => false
                         end in
        if ew_direct_hint cmd && (negb same_lease || negb lock_live) then give_up_scope current ;; mret None
        else
          let unlocked_shared_history := (ew_fencing_token cmd =? 0) && is_history_job current in
          let unlocked_manual := negb (ew_require_acquired_lock cmd) in
          if negb unlocked_shared_history && negb unlocked_manual
             && negb (bool_decide (jb_lock_owner current = Some (ew_owner_id cmd)))
          then give_up_scope current ;; mret None
          else mret (Some current)
    end
  else mret None.

(** ** The lock of an exclusive job's instance *)
Definition LockExclusiveJobScope_execute (config : AsyncExecutorConfig) (job : RuntimeTimerJobState)
  (fallback_owner : string) (now : Z) : JM bool :=
  let lock_owner := default fallback_owner (jb_lock_owner job) in
  fallback ← add_or_overflow now (Z.min (ax_async_job_lock_time_ms config) i64_max);
  lock_process_instance (jb_process_instance_id job) lock_owner
    (default fallback (jb_lock_expiration_time job)) now.

(** [lock_exclusive_job_scope]: on failure the row lock is released, and an
    error of that release is logged. *)
Definition lock_exclusive_job_scope (config : AsyncExecutorConfig) (work : TimerWork) (owner_id : string)
  (now : Z) : JM bool :=
  match work with
  | OtherWork => mret true
  | RuntimeJob job =>
      if is_history_job job || negb (jb_exclusive job) || String.eqb (jb_process_instance_id job) EmptyString
      then mret true
      else
        fun s =>
          match LockExclusiveJobScope_execute config job owner_id now s with
          | (Ok true, s) => (Ok true, s)
          | (Err Overflowed, s) => (Err Overflowed, s)
          | (_, s) =>
              match release_timer_job_lock (jb_timer_job_id job) owner_id s with
              | (Err Overflowed, s) => (Err Overflowed, s)
              | (_, s) => (Ok false, s)
              end
          end
  end.

(** ** Offering acquired jobs *)
Inductive AsyncJobSubmissionOutcome :=
| Submitted (count : nat)
| Rejected (submitted rejected : nat).

Inductive AsyncJobRejectOutcome :=
| RejectReleased
| ListenerFatal (e : FlowableError)
| ReleaseFailure (e : FlowableError).

Section Offer.
Context `{JobListeners} (timer_owner_id : string)
  (submit : nat -> RuntimeTimerJobState -> bool).  (** does the queue take the [n]-th offer? *)

Definition as_flowable (e : JobStop) : option FlowableError :=
  match e with
  | FlowableStop e => Some e
  | StorageStop e => Some (storage_to_flowable e)
  | Overflowed => None
  end.

Definition try_reject_acquired_async_job (job : RuntimeTimerJobState) : JM AsyncJobRejectOutcome :=
  fun s =>
    match dispatch_in_context (JobRejected job) s with
    | (Ok _, s) =>
        match release_timer_job_lock (jb_timer_job_id job) timer_owner_id s with
        | (Ok true, s) => (Ok RejectReleased, s)
        | (Ok false, s) => (Ok (ReleaseFailure (Internal
            [Lit "failed to unacquire rejected async job "; Lit (jb_timer_job_id job)])), s)
        | (Err e, s) => match as_flowable e with Some e => (Ok (ReleaseFailure e), s) | None => (Err Overflowed, s) end
        end
    | (Err e, s) => match as_flowable e with Some e => (Ok (ListenerFatal e), s) | None => (Err Overflowed, s) end
    end.

Record SubmissionState := mkSubmission {
  sb_submitted : nat;
  sb_rejected : nat;
  sb_release_failures : list (string * FlowableError);
  sb_fatal_listener_error : option FlowableError
}.

(** The loop of [submit_acquired_jobs_with], from the [n]-th job. *)
Fixpoint submit_loop (n : nat) (jobs : list RuntimeTimerJobState) (st : SubmissionState) : JM SubmissionState :=
  match jobs with
  | [] => mret st
  | job :: jobs =>
      match sb_fatal_listener_error st with
      | Some _ => mret st
      | None =>
          if submit n job then
            submit_loop (S n) jobs (mkSubmission (S (sb_submitted st)) (sb_rejected st) (sb_release_failures st) None)
          else
            outcome ← try_reject_acquired_async_job job;
            let rejected := S (sb_rejected st) in
            submit_loop (S n) jobs
              match outcome with
              | RejectReleased => mkSubmission (sb_submitted st) rejected (sb_release_failures st) None
              | ListenerFatal e => mkSubmission (sb_submitted st) rejected (sb_release_failures st) (Some e)
              | ReleaseFailure e =>
                  mkSubmission (sb_submitted st) rejected
                    (sb_release_failures st ++ [(jb_timer_job_id job, e)]) None
              end
      end
  end.

(** The outcome, and the failures if any. *)
Definition submit_acquired_jobs_with (jobs : list RuntimeTimerJobState)
  : JM (AsyncJobSubmissionOutcome * option (option FlowableError * list (string * FlowableError))) :=
  st ← submit_loop 0 jobs (mkSubmission 0 0 [] None);
  let outcome := if (sb_rejected st =? 0)%nat then Submitted (sb_submitted st)
                 else Rejected (sb_submitted st) (sb_rejected st) in
  mret (outcome,
        match sb_fatal_listener_error st, sb_release_failures st with
        | None, [] => None
        | fatal, failures => Some (fatal, failures)
        end).
End Offer.

(** ** The wait policy of the acquisition loop *)
Record AsyncJobAcquisitionConfig := mkAcquisition {
  ac_async_job_acquire_wait_ms : Z;
  ac_queue_full_wait_ms : Z;
  ac_max_jobs_per_acquisition : nat;
  ac_global_acquire_lock_enabled : bool;
  ac_global_acquire_lock_poll_rate_ms : Z
}.

Definition acquire_cycle_wait_ms (config : AsyncJobAcquisitionConfig) (acquired_count : nat)
  (outcome : AsyncJobSubmissionOutcome) : Z :=
  match outcome with
  | Rejected _ _ => ac_queue_full_wait_ms config
  | Submitted _ =>
      if (acquired_count <? ac_max_jobs_per_acquisition config)%nat then ac_async_job_acquire_wait_ms config
      else if ac_global_acquire_lock_enabled config then Z.max (ac_global_acquire_lock_poll_rate_ms config) 1
      else 0
  end.

Close Scope Z_scope.

(** ** Executing jobs: what the guards and the retries guarantee

    A worker that needs a lock runs a job only while it holds it, so two workers
    never run one job on the same rows; a failed job loses a retry and its lock, and
    after its last retry is a dead letter no acquisition takes; an acquired job
    that the queue refuses is unlocked again. *)

Open Scope Z_scope.

(** Listeners that neither fail nor touch the session. *)
Class QuietListeners `{JobListeners} : Prop := quiet : forall e s, dispatch_in_context e s = (Ok tt, s).

Lemma find_timer_job_state_open id s :
  js_closed s = false -> find_timer_job_state id s = (Ok (cas_data <$> js_jobs s !! id), s).
Proof.
  intros Ho. unfold find_timer_job_state, job_find_or_note, job_find, ensure_job_open, mbind, stM_bind, get.
  by rewrite Ho.
Qed.

Lemma clear_instance_lock_open id s :
  js_closed s = false ->
  clear_process_instance_lock id s = (Ok tt, jset process_instance_locks (delete id (js_instance_locks s)) s).
Proof. intros Ho. unfold clear_process_instance_lock, job_delete. by rewrite Ho. Qed.

(** ** The guard *)
(** Does the command need the row lock for this job? *)
Definition needs_lock (cmd : ExecuteTimerWorkCmd) (current : RuntimeTimerJobState) : bool :=
  ew_require_acquired_lock cmd && negb ((ew_fencing_token cmd =? 0) && is_history_job current).

Lemma bind_ok_inv {S E A B} (m : stM S E A) (f : A -> stM S E B) s b s' :
  (m ≫= f) s = (Ok b, s') -> exists a s1, m s = (Ok a, s1) /\ f a s1 = (Ok b, s').
Proof. unfold mbind, stM_bind. destruct (m s) as [[a|e] s1]; [eauto|done]. Qed.

Lemma job_find_or_note_inv {A} (t : JobTable A) id s a s' :
  job_find_or_note t id s = (Ok (Some a), s') -> s' = s /\ cas_data <$> jget t s !! id = Some a.
Proof.
  unfold job_find_or_note, job_find, ensure_job_open, mbind, stM_bind, get, mret, stM_ret.
  destruct (js_closed s); [done|]. by intros [= <- <-].
Qed.

Lemma coordinator_allows_inv cmd s s' :
  coordinator_allows cmd s = (Ok true, s') ->
  s' = s
  /\ (ew_direct_hint cmd = false -> ew_require_acquired_lock cmd = true ->
      ew_fencing_token cmd = 0 /\ timer_work_is_async_job (ew_work cmd) = true
      \/ exists lease, cas_data <$> js_leases s !! "timer-coordinator"%string = Some lease
                       /\ ls_fencing_token lease = ew_fencing_token cmd /\ ls_owner_node_id lease = ew_owner_id cmd).
Proof.
  unfold coordinator_allows. destruct (_ || _) eqn:E.
  - intros [= <-]. split; [done|]. intros Hd Hl. rewrite Hd, Hl in E. simpl in E.
    apply andb_true_iff in E as [Ht%Z.eqb_eq Ha]. auto.
  - intros (lease & s1 & Hl & H)%bind_ok_inv. destruct lease as [lease|]; [|done].
    apply job_find_or_note_inv in Hl as [-> Hl]. injection H as H <-.
    apply andb_true_iff in H as [Ht%Z.eqb_eq Ho%bool_decide_eq_true]. split; [done|]. intros _ _. right. eauto.
Qed.

(** A worker is handed a job only if it may run it: the job is the stored
    one and nothing was written; unless the command is a manual one or a shared
    history job, the row lock names the worker; a job handed over by a hint
    carries the lease of the hint, and it still runs; and a job that came
    through the timer coordinator is run under the current fencing token of the
    coordinator's lease, which is the worker's. *)
Theorem executed_job_held cmd timer now s j s' :
  job_to_execute cmd timer now s = (Ok (Some j), s') ->
  s' = s /\ cas_data <$> js_jobs s !! jb_timer_job_id timer = Some j
  /\ (needs_lock cmd j = true -> jb_lock_owner j = Some (ew_owner_id cmd))
  /\ (ew_direct_hint cmd = true ->
      jb_lock_owner j = Some (ew_owner_id cmd) /\ jb_lock_time j = jb_lock_time timer
      /\ jb_lock_expiration_time j = jb_lock_expiration_time timer
      /\ exists expiration, jb_lock_expiration_time j = Some expiration /\ now < expiration)
  /\ (ew_direct_hint cmd = false -> ew_require_acquired_lock cmd = true ->
      ew_fencing_token cmd = 0 /\ timer_work_is_async_job (ew_work cmd) = true
      \/ exists lease, cas_data <$> js_leases s !! "timer-coordinator"%string = Some lease
                       /\ ls_fencing_token lease = ew_fencing_token cmd /\ ls_owner_node_id lease = ew_owner_id cmd).
Proof.
  unfold job_to_execute. intros (allowed & s1 & Ha & H)%bind_ok_inv. destruct allowed; [|done].
  apply coordinator_allows_inv in Ha as [-> Hc]. apply bind_ok_inv in H as (found & s2 & Hf & H).
  destruct found as [cur|]; [|by apply bind_ok_inv in H as (? & ? & _ & H)].
  apply job_find_or_note_inv in Hf as [-> Hf]. cbv zeta in H.
  destruct (ew_direct_hint cmd && _) eqn:Ed; [by apply bind_ok_inv in H as (? & ? & _ & H)|].
  destruct (negb _ && negb _ && negb _) eqn:El; [by apply bind_ok_inv in H as (? & ? & _ & H)|].
  injection H as <- <-. split_and!; [done|done| | |done].
  - unfold needs_lock. rewrite !andb_true_iff, negb_true_iff. intros [Hr Hh]. rewrite Hh, Hr in El. simpl in El.
    by apply negb_false_iff, bool_decide_eq_true in El.
  - intros Hd. rewrite Hd in Ed. simpl in Ed. apply orb_false_iff in Ed as [Es%negb_false_iff Ex%negb_false_iff].
    rewrite !andb_true_iff, !bool_decide_eq_true in Es. destruct Es as [[[? ?] ?] ?].
    destruct (jb_lock_expiration_time cur) as [x|] eqn:Exp; [|done]. apply Z.ltb_lt in Ex. eauto 10.
Qed.

(** ** Failures *)
Section FailureProof.
Context `{JobEnv} `{JobListeners} `{!QuietListeners} (config : AsyncExecutorConfig).

(** The job a failure writes back, of the stored one. *)
Definition failed (cmd : RecordFailedTimerWorkCmd) (cycle : option FailedJobRetryCycle) (due : option Z)
  (job : RuntimeTimerJobState) : RuntimeTimerJobState :=
  let retries := retries_after config cmd job cycle in
  with_progress (state_after retries job) due (Some retries) (Some (rf_error_message cmd))
    (Some (rf_error_details cmd)) (without_lock job).

(** The session after a failure, up to the row of the job and the lock of its
    instance. *)
Definition failure_session (s : JobSession) (id : string) (row : CasRow RuntimeTimerJobState)
  (cleared_instance : option string) : JobSession :=
  let s := set_jobs (<[id := row]> (js_jobs s)) s in
  match cleared_instance with
  | Some pi => jset process_instance_locks (delete pi (js_instance_locks s)) s
  | None => s
  end.

Lemma dispatch_failure_quiet cmd job s : dispatch_execution_failure cmd job s = (Ok tt, s).
Proof. unfold dispatch_execution_failure. destruct (rf_origin cmd); by rewrite quiet. Qed.

Lemma command_ok {A} (m : JM A) s a s' : m s = (Ok a, s') -> command m s = (Ok a, s').
Proof. unfold command. by intros ->. Qed.

Lemma record_failed_outcome cmd timer_job cycle due now uuid s :
  rf_work cmd = RuntimeJob timer_job -> js_closed s = false ->
  let job := default timer_job (cas_data <$> js_jobs s !! jb_timer_job_id timer_job) in
  retry_cycle_of job s = (Ok cycle, s) ->
  due_after config now (retries_after config cmd job cycle) cycle job s = (Ok due, s) ->
  exists j' t cells pi,
    same_lock j' (failed cmd cycle due job)
    /\ RecordFailedTimerWork_execute config cmd now uuid s
       = (Ok tt, failure_session s (jb_timer_job_id job) (mkCas j' (fold_left set_typed (job_columns j' t) cells)) pi).
Proof.
  intros Hw Ho job Hc Hd. unfold RecordFailedTimerWork_execute. rewrite Hw.
  rewrite (bind_ok _ _ _ _ _ (find_timer_job_state_open _ _ Ho)). fold job.
  assert (Hm : (match rf_origin cmd with ManualManagementService => dispatch_execution_failure cmd job
                | AutomaticExecutor => mret tt end) s = (Ok tt, s))
    by (destruct (rf_origin cmd); [apply dispatch_failure_quiet|done]).
  rewrite (bind_ok _ _ _ _ _ Hm), (bind_ok _ _ _ _ _ Hc). cbv zeta. rewrite (bind_ok _ _ _ _ _ Hd).
  destruct (insert_timer_job_state_open now uuid (failed cmd cycle due job) s Ho) as (j' & t & cells & Hl & Hi).
  exists j', t, cells. rewrite (bind_ok _ _ _ _ _ (command_ok _ _ _ _ Hi)).
  set (s1 := set_jobs _ s). assert (Ho1 : js_closed s1 = false) by done.
  assert (Hdl : forall b : bool, (if b then dispatch_in_context (JobMovedToDeadLetter (failed cmd cycle due job)) else mret tt) s1 = (Ok tt, s1))
    by (intros []; [apply quiet|done]).
  rewrite (bind_ok _ _ _ _ _ (Hdl _)). rewrite !(bind_ok _ _ _ _ _ (quiet _ s1)).
  destruct (rf_origin cmd); [by exists None|]. rewrite (bind_ok _ _ _ _ _ (dispatch_failure_quiet _ _ _)).
  case_match; [|by exists None]. rewrite clear_instance_lock_open by done. by exists (Some (jb_process_instance_id job)).
Qed.

(** The fields of the job a failure leaves. *)
Definition failure_of (cmd : RecordFailedTimerWorkCmd) (cycle : option FailedJobRetryCycle) (due : option Z)
  (job j' : RuntimeTimerJobState) : Prop :=
  jb_timer_job_id j' = jb_timer_job_id job
  /\ jb_lock_owner j' = None /\ jb_lock_time j' = None /\ jb_lock_expiration_time j' = None
  /\ jb_due_time j' = due
  /\ jb_retries j' = Some (retries_after config cmd job cycle)
  /\ jb_job_state j' = state_after (retries_after config cmd job cycle) job
  /\ jb_error_message j' = Some (rf_error_message cmd)
  /\ jb_time_duration j' = jb_time_duration job /\ jb_time_cycle j' = jb_time_cycle job.

Lemma state_after_plain retries job :
  (forall o, jb_job_state job = Some o -> plain o) -> forall o, state_after retries job = Some o -> plain o.
Proof.
  intros Hp o. unfold state_after. case_match; [by intros [= <-]|]. case_match; [by intros [= <-]|].
  destruct (jb_job_state job); simpl; intros [= <-]; [by apply Hp|done].
Qed.

Definition is_i32 (n : Z) : Prop := i32_min <= n <= i32_max.

Lemma due_after_i64 now retries cycle job s due :
  (forall n, jb_due_time job = Some n -> is_i64 n) ->
  due_after config now retries cycle job s = (Ok due, s) -> forall n, due = Some n -> is_i64 n.
Proof.
  intros Hj. unfold due_after. destruct (_ && _); [|intros [= <-]; exact Hj].
  intros (x & s1 & Hx & H')%bind_ok_inv. injection H' as <- _. intros n [= <-]. unfold add_or_overflow in Hx.
  destruct (_ && _) eqn:E; [|done]. injection Hx as <- _. apply andb_true_iff in E as [?%Z.leb_le ?%Z.leb_le]. by split.
Qed.

(** A failure of a stored job. *)
Lemma failure_stored cmd timer_job r cycle due now uuid s :
  rf_work cmd = RuntimeJob timer_job -> jobs_wf s -> js_jobs s !! jb_timer_job_id timer_job = Some r ->
  retry_cycle_of (cas_data r) s = (Ok cycle, s) ->
  due_after config now (retries_after config cmd (cas_data r) cycle) cycle (cas_data r) s = (Ok due, s) ->
  is_i32 (retries_after config cmd (cas_data r) cycle) ->
  exists j' s',
    RecordFailedTimerWork_execute config cmd now uuid s = (Ok tt, s')
    /\ failure_of cmd cycle due (cas_data r) j'
    /\ cas_data <$> js_jobs s' !! jb_timer_job_id timer_job = Some j'
    /\ (forall k, k <> jb_timer_job_id timer_job -> js_jobs s' !! k = js_jobs s !! k)
    /\ jobs_wf s'.
Proof.
  intros Hw W Hr Hc Hd Hi. pose proof (jobs_rows _ W _ _ Hr) as Wr. pose proof (jw_id _ _ Wr) as Hid.
  pose proof (record_failed_outcome cmd timer_job cycle due now uuid s Hw (jobs_open _ W)) as Ho.
  cbv zeta in Ho. rewrite Hr in Ho. simpl default in Ho.
  destruct (Ho Hc Hd) as (j' & t & cells & pi & Hl & ->). rewrite Hid. exists j'. eexists. split; [reflexivity|].
  set (row := mkCas j' _).
  assert (Hjobs : js_jobs (failure_session s (jb_timer_job_id timer_job) row pi)
                  = <[jb_timer_job_id timer_job := row]> (js_jobs s)) by (by destruct pi).
  assert (Wrow : job_row_wf (jb_timer_job_id timer_job) row).
  { assert (E : jb_timer_job_id j' = jb_timer_job_id (cas_data r)) by apply Hl.
    rewrite <- Hid, <- E. apply inserted_row_wf. apply (same_lock_typed _ _ Hl).
    split; simpl; try done.
    - by eapply due_after_i64, Hd; apply (row_typed _ _ Wr).
    - intros n [= <-]. unfold is_i32, is_i64, i32_min, i32_max, i64_min, i64_max in *. lia.
    - apply state_after_plain, (row_typed _ _ Wr). }
  split_and!.
  - unfold failure_of. destruct Hl as (? & ? & ? & ? & ? & ? & ? & ? & ? & ? & _). by split_and!.
  - rewrite Hjobs, lookup_insert_eq. done.
  - intros k Hk. rewrite Hjobs. by rewrite lookup_insert_ne.
  - split; [destruct pi; apply (jobs_open _ W)|]. unfold table_wf. rewrite Hjobs.
    apply map_Forall_insert_2; [done|apply W].
Qed.

(** Recording a failure succeeds and writes back exactly what it should:
    the job has one retry less (its retry cycle's repetitions when it fails for
    the first time and has one), none when the error is unrecoverable; it is a
    dead letter when none is left and waits as a timer otherwise; it is
    unlocked, carries the error, and is due as its cycle says; no other job
    changes, and columns and jobs still agree. *)
Theorem failure_recorded cmd timer_job r cycle due now uuid s :
  rf_work cmd = RuntimeJob timer_job -> jobs_wf s -> js_jobs s !! jb_timer_job_id timer_job = Some r ->
  retry_cycle_of (cas_data r) s = (Ok cycle, s) ->
  due_after config now (retries_after config cmd (cas_data r) cycle) cycle (cas_data r) s = (Ok due, s) ->
  is_i32 (retries_after config cmd (cas_data r) cycle) ->
  exists j' s',
    RecordFailedTimerWork_execute config cmd now uuid s = (Ok tt, s')
    /\ failure_of cmd cycle due (cas_data r) j'
    /\ cas_data <$> js_jobs s' !! jb_timer_job_id timer_job = Some j'
    /\ (forall k, k <> jb_timer_job_id timer_job -> js_jobs s' !! k = js_jobs s !! k)
    /\ jobs_wf s'.
Proof. apply failure_stored. Qed.

(** ** Retries run out *)
(** One failure after the other, each at its own instant. *)
Fixpoint fail_all (failures : list (RecordFailedTimerWorkCmd * Z * string)) : JM unit :=
  match failures with
  | [] => mret tt
  | (cmd, now, uuid) :: failures => RecordFailedTimerWork_execute config cmd now uuid ;; fail_all failures
  end.

(** A recoverable failure of the job, at an instant the retry wait can be added
    to. *)
Definition retryable (id : string) (f : RecordFailedTimerWorkCmd * Z * string) : Prop :=
  let '(cmd, now, _) := f in
  (exists t, rf_work cmd = RuntimeJob t /\ jb_timer_job_id t = id) /\ rf_unrecoverable cmd = false
  /\ i64_min <= now /\ now + ax_async_failed_job_wait_time_ms config <= i64_max.

(** The job has [n] retries left and no cycle of its own. *)
Definition retries_left (id : string) (n : nat) (s : JobSession) : Prop :=
  exists r, js_jobs s !! id = Some r /\ jb_retries (cas_data r) = Some (Z.of_nat n)
            /\ jb_time_cycle (cas_data r) = None.

Definition dead (id : string) (s : JobSession) : Prop :=
  exists r, js_jobs s !! id = Some r /\ jb_job_state (cas_data r) = Some "deadletter"%string.

Lemma retries_after_plain cmd job n :
  rf_unrecoverable cmd = false -> jb_retries job = Some (Z.of_nat (S n)) -> retries_after config cmd job None = Z.of_nat n.
Proof.
  intros Hu Hr. unfold retries_after. rewrite Hu, Hr. unfold i32_min. destruct (jb_error_message job); simpl default; lia.
Qed.

Lemma due_after_ok now retries job s :
  0 <= ax_async_failed_job_wait_time_ms config -> i64_min <= now ->
  now + ax_async_failed_job_wait_time_ms config <= i64_max ->
  exists due, due_after config now retries None job s = (Ok due, s).
Proof.
  intros Hw Hn Hm. unfold due_after. destruct (_ && _); [|by eexists]. cbv zeta.
  assert (Hx : add_or_overflow now (Z.min (ax_async_failed_job_wait_time_ms config) i64_max) s
               = (Ok (now + Z.min (ax_async_failed_job_wait_time_ms config) i64_max), s)).
  { unfold add_or_overflow. destruct (Z.leb_spec i64_min (now + Z.min (ax_async_failed_job_wait_time_ms config) i64_max)),
      (Z.leb_spec (now + Z.min (ax_async_failed_job_wait_time_ms config) i64_max) i64_max); [done|..];
      unfold i64_min, i64_max in *; lia. }
  rewrite (bind_ok _ _ _ _ _ Hx). by eexists.
Qed.

Lemma retry_cycle_none job s : jb_time_cycle job = None -> retry_cycle_of job s = (Ok None, s).
Proof. intros E. unfold retry_cycle_of. rewrite E. by destruct (is_async_continuation job). Qed.

(** One more failure. *)
Lemma fail_once id n s cmd now uuid :
  0 <= ax_async_failed_job_wait_time_ms config ->
  jobs_wf s -> retryable id (cmd, now, uuid) -> retries_left id (S n) s -> Z.of_nat n <= i32_max ->
  exists s', RecordFailedTimerWork_execute config cmd now uuid s = (Ok tt, s') /\ jobs_wf s'
             /\ retries_left id n s' /\ (n = 0%nat -> dead id s')
             /\ (forall k, k <> id -> js_jobs s' !! k = js_jobs s !! k).
Proof.
  intros Hwait W ((t & Hw & <-) & Hu & Hn & Hm) (r & Hr & Hret & Hcyc) Hi.
  pose proof (retries_after_plain cmd _ _ Hu Hret) as Hra.
  destruct (due_after_ok now (retries_after config cmd (cas_data r) None) (cas_data r) s Hwait Hn Hm) as [due Hd].
  destruct (failure_stored cmd t r None due now uuid s Hw W Hr (retry_cycle_none _ _ Hcyc) Hd) as (j' & s' & -> & Hf & Hj & Hk & W').
  { rewrite Hra. split; [unfold i32_min; lia|done]. }
  destruct Hf as (_ & _ & _ & _ & _ & Hr' & Hs' & _ & _ & Hc'). rewrite Hra in Hr', Hs'.
  apply fmap_Some in Hj as (r' & Hr'' & ->). exists s'. split; [done|]. split; [done|]. split_and!; [|intros ->|exact Hk].
  - exists r'. split_and!; [done|done|congruence].
  - exists r'. by split.
Qed.

(** C35: retries run out.  The listeners of job events neither fail nor change the
    session (one that fails undoes the bookkeeping of the failure, and then retries do
    not run out); columns and jobs of the table agree; the wait between retries is not
    negative; and a job has [n] retries left, at most 2^31 - 1, and no retry cycle of
    its own.  Recoverable failures of this job are recorded one after the other, each
    at an instant to which the wait can be added within 64 bits, and no other command
    runs in between.  Then after any [k <= n] of them every recording succeeded, the job
    is left with [n - k] retries, no other job changed, and columns and jobs agree; after
    the [n]-th, for [n > 0], it is a dead letter, which no acquisition of other states
    finds due, whatever the clock says. *)
Theorem retries_run_out id n failures s :
  0 <= ax_async_failed_job_wait_time_ms config ->
  jobs_wf s -> retries_left id n s -> Z.of_nat n <= i32_max ->
  Forall (retryable id) failures -> (length failures <= n)%nat ->
  exists s', fail_all failures s = (Ok tt, s') /\ jobs_wf s'
             /\ retries_left id (n - length failures) s'
             /\ (forall k, k <> id -> js_jobs s' !! k = js_jobs s !! k)
             /\ (failures <> [] -> length failures = n ->
                 dead id s'
                 /\ forall states now r, js_jobs s' !! id = Some r -> ("deadletter"%string ∉ states) ->
                                         due_job states now (cas_data r) = false).
Proof.
  intros Hwait. revert n s. induction failures as [|[[cmd now] uuid] failures IH]; intros n s W Hn Hi Hall Hlen.
  { exists s. split_and!; [done|done| |done|done]. by rewrite Nat.sub_0_r. }
  apply Forall_cons in Hall as [Hc Hall]. simpl in Hlen. destruct n as [|n]; [lia|].
  destruct (fail_once id n s cmd now uuid Hwait W Hc Hn ltac:(lia)) as (s1 & E & W1 & Hn1 & Hdead & Hk1).
  destruct (IH n s1 W1 Hn1 ltac:(lia) Hall ltac:(lia)) as (s2 & E2 & W2 & Hn2 & Hk2 & Hd2).
  exists s2. cbn [fail_all]. rewrite (bind_ok _ _ _ _ _ E), E2. split_and!; [done|done|done| |].
  { intros k Hk. rewrite Hk2 by done. by apply Hk1. }
  intros _ Heq. simpl in Heq. destruct failures as [|f failures]; [|apply Hd2; [done|simpl in *; lia]].
  simpl in Heq. assert (n = 0)%nat as -> by lia. injection E2 as <-. split; [by apply Hdead|].
  intros states now' r Hr Hin. destruct (Hdead eq_refl) as (r' & Hr' & Hst). assert (r' = r) as -> by congruence.
  unfold due_job, state_in. rewrite Hst. apply andb_false_iff. right. apply andb_false_iff. left.
  apply not_true_iff_false. intros (x & Hx & <-%String.eqb_eq)%existsb_exists. by apply Hin, list_elem_of_In.
Qed.
End FailureProof.

(** ** Offers *)
Section OfferProof.
Context `{JobListeners} `{!QuietListeners} (timer_owner_id : string)
  (submit : nat -> RuntimeTimerJobState -> bool).
Context (Howner : plain timer_owner_id).

Lemma release_held s r :
  jobs_wf s -> js_jobs s !! jb_timer_job_id (cas_data r) = Some r -> jb_lock_owner (cas_data r) = Some timer_owner_id ->
  release_timer_job_lock (jb_timer_job_id (cas_data r)) timer_owner_id s
  = (Ok true, set_jobs (<[jb_timer_job_id (cas_data r) := unlocked_row r]> (js_jobs s)) s).
Proof.
  intros W Hr Hl. pose proof (jobs_rows _ W _ _ Hr) as Wr. unfold release_timer_job_lock.
  assert (Hf : job_find timer_job_states (jb_timer_job_id (cas_data r)) s = (Ok (Some (cas_data r)), s)).
  { unfold job_find, ensure_job_open, mbind, stM_bind, get. rewrite (jobs_open _ W). simpl (jget _ _). by rewrite Hr. }
  rewrite (bind_ok _ _ _ _ _ Hf), bool_decide_eq_true_2 by done.
  assert (Hc : cas_update timer_job_states (jb_timer_job_id (cas_data r)) (without_lock (cas_data r)) cleared
                 [("lock_owner"%string, Some timer_owner_id)] s
               = (Ok 1%nat, set_jobs (<[jb_timer_job_id (cas_data r) := unlocked_row r]> (js_jobs s)) s)).
  { unfold cas_update, ensure_job_open, mbind, stM_bind, get. rewrite (jobs_open _ W). simpl (jget _ _).
    rewrite Hr. cbn [forallb]. rewrite (text_cell_eq _ "lock_owner" _ _ eq_refl (jw_owner _ _ Wr) Howner).
    by rewrite Hl, bool_decide_eq_true_2. }
  by rewrite (bind_ok _ _ _ _ _ Hc).
Qed.

(** The jobs the queue refuses, from the [n]-th offer. *)
Fixpoint refused (n : nat) (jobs : list RuntimeTimerJobState) : list RuntimeTimerJobState :=
  match jobs with
  | [] => []
  | job :: jobs => if submit n job then refused (S n) jobs else job :: refused (S n) jobs
  end.

Lemma refused_sublist n jobs : sublist (refused n jobs) jobs.
Proof. revert n. induction jobs as [|j jobs IH]; intros n; simpl; [done|]. case_match; by constructor. Qed.

Lemma refused_length n jobs : (length (refused n jobs) <= length jobs)%nat.
Proof. apply sublist_length, refused_sublist. Qed.

Lemma submit_loop_quiet jobs n st s :
  jobs_wf s -> stored (js_jobs s) jobs -> Forall (fun j => jb_lock_owner j = Some timer_owner_id) jobs ->
  sb_fatal_listener_error st = None ->
  submit_loop timer_owner_id submit n jobs st s
  = (Ok (mkSubmission (sb_submitted st + (length jobs - length (refused n jobs)))
           (sb_rejected st + length (refused n jobs)) (sb_release_failures st) None),
     set_jobs (update_rows unlocked_row (jb_timer_job_id <$> refused n jobs) (js_jobs s)) s).
Proof.
  revert n st s. induction jobs as [|j jobs IH]; intros n st s W Hs Hl Hf.
  { simpl. rewrite update_rows_nil, !Nat.add_0_r. destruct st; simpl in *; subst. by destruct s. }
  apply stored_cons in Hs as ((r & Hr & <-) & Hj & Hs). apply Forall_cons in Hl as [Hlock Hl].
  pose proof (jobs_rows _ W _ _ Hr) as Wr. cbn [submit_loop refused]. rewrite Hf.
  destruct (submit n (cas_data r)).
  - rewrite IH by done. cbn [sb_submitted sb_rejected sb_release_failures length].
    pose proof (refused_length (S n) jobs). do 3 f_equal; lia.
  - assert (Hrej : try_reject_acquired_async_job timer_owner_id (cas_data r) s
             = (Ok RejectReleased, set_jobs (<[jb_timer_job_id (cas_data r) := unlocked_row r]> (js_jobs s)) s)).
    { unfold try_reject_acquired_async_job. by rewrite quiet, (release_held s r W Hr Hlock). }
    rewrite (bind_ok _ _ _ _ _ Hrej). rewrite IH; [|by apply insert_row_wf, unlocked_row_wf|by apply stored_insert|done|done].
    cbn [sb_submitted sb_rejected sb_release_failures length]. simpl js_jobs.
    assert (Hnot : jb_timer_job_id (cas_data r) ∉ jb_timer_job_id <$> refused (S n) jobs).
    { intros Hin. apply Hj. eapply elem_of_sublist; [exact Hin|]. apply fmap_sublist, refused_sublist. }
    rewrite (update_rows_cons _ _ _ _ r Hr) by done.
    pose proof (refused_length (S n) jobs). do 3 f_equal; lia.
Qed.

(** An acquired job is queued or given back: when the listeners let the
    offer go through, each of the jobs, locked by the executor, is either taken
    by the queue and keeps its lock, or refused and unlocked again; the outcome
    counts them, no failure is reported, and no other row changes. *)
Theorem offered_or_released jobs s :
  jobs_wf s -> stored (js_jobs s) jobs -> Forall (fun j => jb_lock_owner j = Some timer_owner_id) jobs ->
  let back := refused 0 jobs in
  submit_acquired_jobs_with timer_owner_id submit jobs s
  = (Ok (match back with
         | [] => Submitted (length jobs)
         | _ => Rejected (length jobs - length back) (length back)
         end, None),
     set_jobs (update_rows unlocked_row (jb_timer_job_id <$> back) (js_jobs s)) s).
Proof.
  intros W Hs Hl back. unfold submit_acquired_jobs_with.
  rewrite (bind_ok _ _ _ _ _ (submit_loop_quiet jobs 0 (mkSubmission 0 0 [] None) s W Hs Hl eq_refl)).
  cbn [sb_submitted sb_rejected sb_release_failures sb_fatal_listener_error Nat.add]. fold back.
  unfold mret, stM_ret. destruct back; simpl length; [|done]. by rewrite Nat.sub_0_r.
Qed.
End OfferProof.

Close Scope Z_scope.
