(* ===== verification/TimerSchedule.v ===== *)
(** * Business calendars and the schedule of timers

    [engine/business_calendar.rs]: the calendars that turn a timer's description
    into its due instant, and the registry they are looked up in by name.
    [bpmn/timer_util.rs]: the schedule of a timer when it is created
    ([resolve_timer_schedule]) and after it fired ([resolve_next_timer_schedule]), with
    its use for boundary timers ([cmd/trigger_boundary_event_cmd.rs]); the due date
    of a user task ([persistence/runtime_store.rs]).

    A calendar is a record of the trait's three operations, so that an
    application's own calendars are covered.  Parameters: the instants of [Chrono] and
    the expression evaluator of [JobEnv]. *)
From stdpp Require Import list.
From Stdlib Require Import Ascii.
From S2P Require Import Prelude Chars Float64 Numerals Json Errors ElValues Execution JobTypes Leases Chrono Cron TimerCycle JobExecution.

Open Scope Z_scope.

Definition stop_with {A} (m : Message) : result JobStop A := Err (FlowableStop (ExecutionError m)).

(** ** Calendars *)
Record BusinessCalendar := mkCalendar {
  resolve_due_date : string -> Z -> option Z -> result JobStop (option Z);
  resolve_end_date : string -> Z -> result JobStop Z;
  validate_due_date : string -> option Z -> option Z -> Z -> result JobStop bool
}.

Definition DUE_DATE_CALENDAR_NAME : string := "dueDate".
Definition DURATION_CALENDAR_NAME : string := "duration".
Definition CYCLE_CALENDAR_NAME : string := "cycle".

Section Calendars.
Context `{Chrono}.

Definition unresolvable (calendar description : string) : Message :=
  [Lit "Business calendar '"; Lit calendar; Lit "' could not resolve due date from '"; Lit description; Lit "'"].

Definition parse_end_date (calendar description : string) : result JobStop Z :=
  match parse_instant description with
  | Some t => Ok t
  | None => stop_with [Lit "Business calendar '"; Lit calendar; Lit "' could not resolve end date from '"; Lit description; Lit "'"]
  end.

Definition candidate_within_end (end_date : option Z) (candidate : Z) : bool := is_due_before_end candidate None end_date.

(** A due time in milliseconds as an instant, or the calendar's error. *)
Definition due_instant (calendar description : string) (due : result JobStop (option Z)) : result JobStop (option Z) :=
  match due with
  | Err e => Err e
  | Ok millis =>
      match millis ≫= from_timestamp_millis with
      | Some t => Ok (Some t)
      | None => stop_with (unresolvable calendar description)
      end
  end.

Definition DueDateBusinessCalendar : BusinessCalendar := {|
  resolve_due_date description now _ :=
    due_instant DUE_DATE_CALENDAR_NAME description (calculate_due_time_with_end (Some description) None None None now);
  resolve_end_date description _ := parse_end_date DUE_DATE_CALENDAR_NAME description;
  validate_due_date _ _ end_date candidate := Ok (candidate_within_end end_date candidate)
|}.

Definition DurationBusinessCalendar : BusinessCalendar := {|
  resolve_due_date description now _ :=
    due_instant DURATION_CALENDAR_NAME description (calculate_due_time_with_end None (Some description) None None now);
  resolve_end_date description _ := parse_end_date DURATION_CALENDAR_NAME description;
  validate_due_date _ _ end_date candidate := Ok (candidate_within_end end_date candidate)
|}.

Definition CycleBusinessCalendar : BusinessCalendar := {|
  resolve_due_date description now _ :=
    match resolve_cycle description now with
    | Err e => Err e
    | Ok (Due schedule) => Ok (from_timestamp_millis (cs_due_time_millis schedule))
    | Ok Finished => Ok None
    | Ok Unresolvable => stop_with (unresolvable CYCLE_CALENDAR_NAME description)
    end;
  resolve_end_date description _ := parse_end_date CYCLE_CALENDAR_NAME description;
  validate_due_date _ _ end_date candidate := Ok (candidate_within_end end_date candidate)
|}.

(** ** The registry *)
Definition BusinessCalendarRegistry : Type := list (string * BusinessCalendar).

Definition registry_empty : BusinessCalendarRegistry := [].
Definition registry_replace (name : string) (calendar : BusinessCalendar) (r : BusinessCalendarRegistry) : BusinessCalendarRegistry :=
  map_insert name calendar r.
Definition registry_register (name : string) (calendar : BusinessCalendar) (r : BusinessCalendarRegistry)
  : result FlowableError BusinessCalendarRegistry :=
  match map_get name r with
  | Some _ => Err (BadRequest [Lit "Business calendar '"; Lit name; Lit "' is already registered; use replace() to override it"])
  | None => Ok (map_insert name calendar r)
  end.
Definition registry_get (name : string) (r : BusinessCalendarRegistry) : option BusinessCalendar := map_get name r.
Definition registry_is_empty (r : BusinessCalendarRegistry) : bool := match r with [] => true | _ => false end.
Definition registry_names (r : BusinessCalendarRegistry) : list string := map fst r.

Fixpoint joined (names : list string) : Message :=
  match names with
  | [] => []
  | [n] => [Lit n]
  | n :: names => Lit n :: Lit ", " :: joined names
  end.

Definition registry_require (name : string) (r : BusinessCalendarRegistry) : result JobStop BusinessCalendar :=
  match registry_get name r with
  | Some c => Ok c
  | None =>
      stop_with ([Lit "Requested business calendar "; Lit name; Lit " does not exist. Allowed calendars are ["]
                 ++ joined (registry_names r) ++ [Lit "]."])
  end.

Definition registry_default : BusinessCalendarRegistry :=
  registry_replace CYCLE_CALENDAR_NAME CycleBusinessCalendar
    (registry_replace DURATION_CALENDAR_NAME DurationBusinessCalendar
      (registry_replace DUE_DATE_CALENDAR_NAME DueDateBusinessCalendar registry_empty)).
End Calendars.

(** ** Timer fields *)
Record EvaluatedTimerField := mkField { tf_text : string; tf_instant : option Z }.

Definition default_timer_retries (config : AsyncExecutorConfig) : option Z := Some (Z.max (ax_number_of_retries config) 0).

Inductive TimerFieldKind := DateField | CycleField | DurationField.

Definition default_calendar_name (kind : TimerFieldKind) : string :=
  match kind with
  | DateField => DUE_DATE_CALENDAR_NAME
  | CycleField => CYCLE_CALENDAR_NAME
  | DurationField => DURATION_CALENDAR_NAME
  end.

Record ResolvedTimerSchedule := mkResolved {
  rt_time_date : option string;
  rt_time_duration : option string;
  rt_time_cycle : option string;
  rt_end_date : option string;
  rt_due_time : option Z;
  rt_calendar_name : option string
}.

Section Schedule.
Context `{Chrono} `{JobEnv}.

Definition timer_value_to_field (value : Value) (field_name : string) : result JobStop EvaluatedTimerField :=
  match value with
  | VNull => stop_with [Lit "Timer "; Lit field_name; Lit " expression resolved to null"]
  | VString s =>
      let trimmed := trim s in
      if bool_decide (trimmed = EmptyString)
      then stop_with [Lit "Timer "; Lit field_name; Lit " expression resolved to an empty string"]
      else Ok (mkField trimmed None)
  | VNumber n =>
      match number_as_i64 n with
      | Some i =>
          if i =? i64_min then Err Overflowed
          else if 1000000000000 <=? Z.abs i then
            match from_timestamp_millis i with
            | None => stop_with [Lit "Timer "; Lit field_name; Lit " expression resolved to an invalid epoch millis"]
            | Some dt => Ok (mkField (to_rfc3339 dt) (Some dt))
            end
          else Ok (mkField (decimal i) None)
      | None => Ok (mkField (value_to_string (VNumber n)) None)
      end
  | VBool b => Ok (mkField (if b then "true" else "false")%string None)
  | VArray _ | VObject _ =>
      stop_with [Lit "Timer "; Lit field_name;
        Lit " was not configured with a valid duration/time (expected String, Date/Instant, or Number)"]
  end.

Definition evaluate_timer_field_value (raw : string) (execution : Execution) (field_name : string)
  : result JobStop EvaluatedTimerField :=
  let trimmed := trim raw in
  let expression := [Lit "Timer "; Lit field_name; Lit " expression '"; Lit trimmed] in
  if bool_decide (trimmed = EmptyString) then stop_with [Lit "Timer "; Lit field_name; Lit " was empty"]
  else if starts_with "${" trimmed && ends_with_char trimmed "}" then
    match cycle_value trimmed execution with
    | Err error => stop_with (expression ++ Lit "' failed: " :: error)
    | Ok None => stop_with (expression ++ [Lit "' could not be evaluated"])
    | Ok (Some value) => timer_value_to_field value field_name
    end
  else Ok (mkField trimmed None).

Definition evaluate_timer_field (raw : string) (execution : Execution) (field_name : string) : result JobStop string :=
  tf_text <$> evaluate_timer_field_value raw execution field_name.

(** A modelled field that is not blank. *)
Definition configured (raw : option string) : bool :=
  match raw with Some v => negb (bool_decide (trim v = EmptyString)) | None => false end.

Definition evaluate_optional_field (raw : option string) (execution : Execution) (field_name : string)
  : result JobStop (option EvaluatedTimerField) :=
  match raw with
  | Some v => if configured raw then Some <$> evaluate_timer_field_value v execution field_name else Ok None
  | None => Ok None
  end.

Definition resolve_business_calendar (kind_default_name : string) (raw_calendar_name : option string)
    (execution : Execution) (calendars : BusinessCalendarRegistry) : result JobStop (string * BusinessCalendar) :=
  name ← match raw_calendar_name with
         | Some raw => if configured raw_calendar_name then evaluate_timer_field raw execution "calendarName" else Ok kind_default_name
         | None => Ok kind_default_name
         end;
  calendar ← registry_require name calendars;
  Ok (name, calendar).

Definition max_iterations_from_cycle (cycle : string) : option Z :=
  rest ← strip_prefix "R" (trim cycle);
  count ← head (split_all "/"%char rest);
  if bool_decide (count = EmptyString) then None else parse_u32 count.

(** ** The schedule of a new timer *)
Definition needs_configuration : Message :=
  [Lit "Timer needs configuration (either timeDate, timeCycle or timeDuration is needed)"].

Definition is_cycle_kind (kind : TimerFieldKind) : bool := match kind with CycleField => true | _ => false end.

(** The end instant a field gives, resolved by the calendar when it is a text. *)
Definition end_instant (calendar : BusinessCalendar) (eval_end : option EvaluatedTimerField) (now : Z) : result JobStop (option Z) :=
  match eval_end with
  | Some field =>
      match tf_instant field with
      | Some t => Ok (Some t)
      | None => Some <$> resolve_end_date calendar (tf_text field) now
      end
  | None => Ok None
  end.

Definition resolve_timer_schedule (time_date time_duration time_cycle end_date calendar_name : option string)
    (execution : Execution) (calendars : BusinessCalendarRegistry) (now : Z) : result JobStop ResolvedTimerSchedule :=
  if negb (configured time_date || configured time_duration || configured time_cycle) then stop_with needs_configuration
  else
    eval_date ← evaluate_optional_field time_date execution "timeDate";
    eval_duration ← evaluate_optional_field time_duration execution "timeDuration";
    eval_cycle ← evaluate_optional_field time_cycle execution "timeCycle";
    eval_end ← evaluate_optional_field end_date execution "endDate";
    '(kind, description) ←
      match eval_date, eval_cycle, eval_duration with
      | Some field, _, _ => Ok (DateField, field)
      | None, Some field, _ => Ok (CycleField, field)
      | None, None, Some field => Ok (DurationField, field)
      | None, None, None => stop_with needs_configuration
      end;
    '(_, calendar) ← resolve_business_calendar (default_calendar_name kind) calendar_name execution calendars;
    let max_iterations := if is_cycle_kind kind then max_iterations_from_cycle (tf_text description) else None in
    due_time ←
      match tf_instant description with
      | Some instant => Ok (Some (timestamp_millis instant))
      | None =>
          due ← resolve_due_date calendar (tf_text description) now max_iterations;
          match due with
          | Some due =>
              stop ← end_instant calendar eval_end now;
              let stop := if is_cycle_kind kind then stop else None in
              valid ← validate_due_date calendar (tf_text description) max_iterations stop due;
              Ok (if (valid : bool) then Some (timestamp_millis due) else None)
          | None => Ok None
          end
      end;
    let time_cycle_out := (fun field => prepare_repeat (tf_text field) now) <$> eval_cycle in
    match due_time with
    | None => stop_with [Lit "Due date could not be determined for timer job "; Lit (tf_text description)]
    | Some _ =>
        Ok (mkResolved (tf_text <$> eval_date) (tf_text <$> eval_duration) time_cycle_out (tf_text <$> eval_end) due_time
              (trimmed calendar_name))
    end.

Definition resolve_timer_schedule_for_start (time_date time_duration time_cycle end_date calendar_name : option string)
    (execution : Execution) (calendars : BusinessCalendarRegistry) (now : Z) : result JobStop ResolvedTimerSchedule :=
  resolve_timer_schedule time_date time_duration time_cycle end_date calendar_name execution calendars now.

(** ** The schedule after a fire *)
Definition resolve_next_timer_schedule (cycle : string) (end_date raw_calendar_name : option string)
    (execution : Execution) (calendars : BusinessCalendarRegistry) (now : Z) : result JobStop (option CycleSchedule) :=
  or_return (next_repeat_expression cycle) (fun next_expr =>
    '(_, calendar) ← resolve_business_calendar CYCLE_CALENDAR_NAME raw_calendar_name execution calendars;
    let max_iterations := max_iterations_from_cycle next_expr in
    or_return (resolve_due_date calendar next_expr now max_iterations) (fun due =>
      stop ← match end_date with
             | Some text =>
                 match parse_instant text with
                 | Some instant => Ok (Some instant)
                 | None => Some <$> resolve_end_date calendar text now
                 end
             | None => Ok None
             end;
      valid ← validate_due_date calendar next_expr max_iterations stop due;
      Ok (if (valid : bool) then Some (mkSchedule next_expr (timestamp_millis due)) else None))).

(** The job of a fired boundary timer that does not interrupt, rescheduled; the
    lookups of the host execution and of the process instance are arguments. *)
Definition with_cycle (cycle : option string) (due : option Z) (j : RuntimeTimerJobState) : RuntimeTimerJobState :=
  let j := with_lock None None None (with_progress (jb_job_state j) due (jb_retries j) None None j) in
  mkJob (jb_timer_job_id j) (jb_process_instance_id j) (jb_execution_id j) (jb_activity_id j) (jb_job_state j)
    (jb_is_boundary j) (jb_attached_activity_id j) (jb_cancel_activity j) (jb_time_duration j) (jb_time_date j)
    cycle (jb_end_date j) (jb_calendar_name j) (jb_due_time j) (jb_lock_owner j) (jb_lock_time j)
    (jb_lock_expiration_time j) (jb_retries j) (jb_error_message j) (jb_error_details j) (jb_category j)
    (jb_create_time j) (jb_correlation_id j) (jb_handler_type j) (jb_tenant_id j) (jb_process_definition_id j)
    (jb_element_name j) (jb_job_handler_configuration j) (jb_advanced_job_handler_configuration j)
    (jb_custom_values j) (jb_scope_type j) (jb_scope_id j) (jb_sub_scope_id j) (jb_scope_definition_id j)
    (jb_exclusive j).

Definition reschedule_non_interrupting_timer_cycle (find_execution : string -> option Execution)
    (calendars : BusinessCalendarRegistry) (now : Z) (timer_state : RuntimeTimerJobState)
  : result JobStop (option RuntimeTimerJobState) :=
  match jb_time_cycle timer_state with
  | None => Ok None
  | Some current_cycle =>
      let execution := default execution_default
        (or_else (find_execution (jb_execution_id timer_state)) (find_execution (jb_process_instance_id timer_state))) in
      or_return (resolve_next_timer_schedule current_cycle (jb_end_date timer_state) (jb_calendar_name timer_state)
                   execution calendars now)
        (fun schedule => Ok (Some (with_cycle (Some (cs_cycle schedule)) (Some (cs_due_time_millis schedule)) timer_state)))
  end.

(** ** Due dates of user tasks *)
Definition parse_task_due_date (value : string) (now : Z) : result JobStop (option Z) :=
  let value := trim value in
  match parse_i64 value with
  | Some millis => Ok (from_timestamp_millis millis)
  | None =>
      or_return (if starts_with "P" value then calculate_due_time None (Some value) None now
                 else calculate_due_time (Some value) None None now)
        (fun due_millis => Ok (from_timestamp_millis due_millis))
  end.

Definition invalid_due_date_expression (expression : string) : Message :=
  [Lit "Due date expression does not resolve to a Date, Instant, LocalDate, LocalDateTime or Date string: "; Lit expression].

Definition evaluate_user_task_due_date (raw_due_date : option string) (execution : Execution) (now : Z)
  : result JobStop (option Z) :=
  match raw_due_date with
  | None | Some EmptyString => Ok None
  | Some raw =>
      value ← (if starts_with "${" (trim raw) && ends_with_char (trim raw) "}" then
                 match cycle_value (trim raw) execution with
                 | Err error => stop_with ([Lit "Due date expression '"; Lit raw; Lit "' failed: "] ++ error)
                 | Ok v => Ok (default VNull v)
                 end
               else Ok (VString raw));
      match value with
      | VNull => Ok None
      | VString s =>
          due ← parse_task_due_date s now;
          match due with
          | Some t => Ok (Some t)
          | None => stop_with [Lit "couldn't resolve duedate: "; Lit s]
          end
      | VNumber n =>
          match number_as_i64 n ≫= from_timestamp_millis with
          | Some t => Ok (Some t)
          | None => stop_with (invalid_due_date_expression raw)
          end
      | _ => stop_with (invalid_due_date_expression raw)
      end
  end.
End Schedule.

(** ** Repeating boundary timers *)
Section Boundary.
Context `{ChronoLaws} `{JobEnv}.

Lemma default_cycle_calendar : registry_get CYCLE_CALENDAR_NAME registry_default = Some CycleBusinessCalendar.
Proof. done. Qed.

(** A due instant survives its conversion to milliseconds and back, to the
    millisecond. *)
Lemma timestamp_of_due t : in_range t -> from_timestamp_millis (timestamp_millis t) = Some (timestamp_millis t * MILLI).
Proof.
  intros Ht. assert (Hr : in_range (timestamp_millis t * MILLI)) by (apply range_floor; [done|by exists 86400000|lia]).
  unfold from_timestamp_millis. unfold in_range in Hr.
  by rewrite (proj2 (Z.leb_le _ _) (proj1 Hr)), (proj2 (Z.leb_le _ _) (proj2 Hr)).
Qed.

(** The next schedule of a cycle of the built-in calendar, without an end. *)
Lemma next_schedule_default cycle execution next now :
  next_repeat_expression cycle = Ok (Some next) ->
  resolve_next_timer_schedule cycle None None execution registry_default now =
    match resolve_cycle next now with
    | Err e => Err e
    | Ok Finished => Ok None
    | Ok Unresolvable => stop_with (unresolvable CYCLE_CALENDAR_NAME next)
    | Ok (Due schedule) =>
        Ok (due ← from_timestamp_millis (cs_due_time_millis schedule); Some (mkSchedule next (timestamp_millis due)))
    end.
Proof.
  intros Hn. unfold resolve_next_timer_schedule. rewrite Hn. cbn [or_return].
  change (resolve_business_calendar CYCLE_CALENDAR_NAME None execution registry_default)
    with (Ok (E := JobStop) (CYCLE_CALENDAR_NAME, CycleBusinessCalendar)).
  cbn [mbind result_bind resolve_due_date CycleBusinessCalendar].
  destruct (resolve_cycle next now) as [[schedule| |]|]; [|done..].
  by destruct (from_timestamp_millis _).
Qed.

(** Everything of the job but its cycle, due time, lease and error. *)
Definition same_timer (j j' : RuntimeTimerJobState) : Prop :=
  jb_timer_job_id j' = jb_timer_job_id j /\ jb_process_instance_id j' = jb_process_instance_id j
  /\ jb_execution_id j' = jb_execution_id j /\ jb_activity_id j' = jb_activity_id j
  /\ jb_job_state j' = jb_job_state j /\ jb_is_boundary j' = jb_is_boundary j
  /\ jb_attached_activity_id j' = jb_attached_activity_id j /\ jb_cancel_activity j' = jb_cancel_activity j
  /\ jb_time_duration j' = jb_time_duration j /\ jb_time_date j' = jb_time_date j
  /\ jb_end_date j' = jb_end_date j /\ jb_calendar_name j' = jb_calendar_name j
  /\ jb_retries j' = jb_retries j /\ jb_category j' = jb_category j
  /\ jb_create_time j' = jb_create_time j /\ jb_correlation_id j' = jb_correlation_id j
  /\ jb_handler_type j' = jb_handler_type j /\ jb_tenant_id j' = jb_tenant_id j
  /\ jb_process_definition_id j' = jb_process_definition_id j /\ jb_element_name j' = jb_element_name j
  /\ jb_job_handler_configuration j' = jb_job_handler_configuration j /\ jb_advanced_job_handler_configuration j' = jb_advanced_job_handler_configuration j
  /\ jb_custom_values j' = jb_custom_values j /\ jb_scope_type j' = jb_scope_type j
  /\ jb_scope_id j' = jb_scope_id j /\ jb_sub_scope_id j' = jb_sub_scope_id j
  /\ jb_scope_definition_id j' = jb_scope_definition_id j /\ jb_exclusive j' = jb_exclusive j.

(** C19: a repeating boundary timer is rescheduled on its grid until it is used up.  The
    cycle of a fired boundary timer that does not interrupt is visible ASCII and has n
    repetitions left, a start that is not after [now], a period of fixed length and no
    end date; the job has neither an endDate nor a calendarName, and the registry of
    calendars is the default one.  Let k be the number of periods with
    start + (k - 1) periods <= now < start + k periods, at most 100000 and within the
    range of dates.  For n at most 1 the timer is not rescheduled.  Otherwise its job is
    given back with a cycle that reads as the old one with n - 1 repetitions, due k
    periods after the start, to the millisecond; without owner, lock time and lock
    expiration; without error message and details; and with every other field as it
    was. *)
Theorem boundary_timer_rescheduled find_execution now job cycle p period start n k :
  jb_time_cycle job = Some cycle -> jb_end_date job = None -> jb_calendar_name job = None ->
  visible_text cycle -> parse_r_cycle cycle = Ok (Some p) ->
  pc_remaining p = Some n -> pc_start p = Some start -> pc_period p = Some period -> pc_end p = None ->
  fixed_length period -> 1 <= k <= 100000 ->
  start + (k - 1) * time_nanos period <= now < start + k * time_nanos period ->
  in_range start -> in_range (start + k * time_nanos period) ->
  (n <= 1 -> reschedule_non_interrupting_timer_cycle find_execution registry_default now job = Ok None)
  /\ (2 <= n -> exists job' next_cycle,
        reschedule_non_interrupting_timer_cycle find_execution registry_default now job = Ok (Some job')
        /\ jb_time_cycle job' = Some next_cycle
        /\ parse_r_cycle next_cycle = Ok (Some (mkParsed (Some (n - 1)) (pc_start p) (pc_period p) (pc_end p) (pc_body_after_r p)))
        /\ jb_due_time job' = Some (timestamp_millis (start + k * time_nanos period))
        /\ jb_lock_owner job' = None /\ jb_lock_time job' = None /\ jb_lock_expiration_time job' = None
        /\ jb_error_message job' = None /\ jb_error_details job' = None /\ same_timer job job').
Proof.
  intros Hc He Hn Hv Hp Hrem Hs Hper Hend Hfix [Hk1 Hk] Hnow Hr Hd. unfold reschedule_non_interrupting_timer_cycle.
  assert (Hu : periods_until period start now = k) by (apply periods_until_unique; [apply Hfix|done|done]).
  rewrite Hc, He, Hn. set (due := start + k * _) in *. split.
  - intros Hle. unfold resolve_next_timer_schedule. rewrite (next_repeat_eq cycle p), Hrem by done.
    destruct (parse_r_cycle_inv cycle p Hv Hp) as (r & first & second & _ & _ & _ & _ & _ & Hread).
    apply read_cycle_body in Hread as (Htok & _ & _). rewrite Hrem in Htok. apply cycle_remaining_range in Htok.
    destruct (Z.eqb_spec n 0), (Z.eqb_spec n 1); done || lia.
  - intros Hlt. destruct (repeat_counts_down cycle p n Hv Hp Hrem) as (next & Hnext & Hvn & Hpn); [lia|].
    rewrite (next_schedule_default cycle _ next now) by done.
    assert (Hres : resolve_cycle next now = Ok (Due (mkSchedule next (timestamp_millis due)))).
    { rewrite (resolve_anchored next _ now Hvn Hpn); [|cbn; congruence|cbn; intros [= ?]; lia|done].
      rewrite (next_due_fixed _ period now start); [|done|done|cbn; by rewrite Hs|done|by rewrite Hu].
      rewrite Hu, (proj2 (Z.leb_le _ _) Hk). cbn [pc_end with_remaining]. by rewrite Hend. }
    rewrite Hres. cbn [cs_due_time_millis]. rewrite timestamp_of_due by done.
    cbn. unfold timestamp_millis at 1. rewrite Z.div_mul by done.
    eexists _, next. split; [reflexivity|]. split_and!; try done.
Qed.
End Boundary.
