(* ===== verification/TimerSamples.v ===== *)
(** * The Gregorian calendar, and timers evaluated on it

    A concrete [Chrono]: dates of the proleptic Gregorian calendar over the package's
    range of years, and the RFC 3339 texts it writes with milliseconds.  It satisfies
    [ChronoLaws] ([gregorian_laws]), so the theorems on timers are not empty; their
    witnesses are here, and the behaviours of timers that differ from
    their documentation. *)
From stdpp Require Import list.
From Stdlib Require Import Ascii Sorted.
From S2P Require Import Prelude Chars Float64 Numerals Json Errors ElValues Execution JobTypes Leases Chrono Cron TimerCycle JobExecution TimerSchedule.

Open Scope Z_scope.

(** ** Days and dates *)

(** Days are counted from the first of March of year 0, so that the leap day is
    the last of its year.  [year_start y] is the day on which the March of year y
    begins, [month_start] the place of a month, counted from March, in its year. *)
Definition year_start (y : Z) : Z := 365 * y + y / 4 - y / 100 + y / 400.
Definition month_start (mp : Z) : Z := (153 * mp + 2) / 5.

Definition year_of (n : Z) : Z :=
  let g := n * 400 / 146097 in
  if n <? year_start g then g - 1 else if year_start (g + 1) <=? n then g + 1 else g.

Definition march_date (n : Z) : Z * Z * Z :=
  let y := year_of n in
  let doy := n - year_start y in
  let mp := (5 * doy + 2) / 153 in
  (if mp <? 10 then y else y + 1, if mp <? 10 then mp + 3 else mp - 9, doy - month_start mp + 1).

Definition march_day (y m d : Z) : Z :=
  (if m <=? 2 then year_start (y - 1) + month_start (m + 9) else year_start y + month_start (m - 3)) + d - 1.

Lemma year_start_step y : 365 <= year_start (y + 1) - year_start y <= 366.
Proof. unfold year_start. Z.to_euclidean_division_equations; lia. Qed.

Lemma year_start_monotone y z : y <= z -> year_start y <= year_start z.
Proof. unfold year_start. intros. Z.to_euclidean_division_equations; lia. Qed.

Lemma year_of_spec n : year_start (year_of n) <= n < year_start (year_of n + 1).
Proof.
  unfold year_of. set (g := n * 400 / 146097).
  assert (Hg : 146097 * g <= n * 400 < 146097 * (g + 1)) by (subst g; Z.to_euclidean_division_equations; lia).
  assert (Hb : forall y, 146097 * y - 800 < 400 * year_start y < 146097 * y + 400 + 400).
  { intros y. unfold year_start. Z.to_euclidean_division_equations; lia. }
  pose proof (Hb (g - 1)). pose proof (Hb (g + 1 + 1)). clearbody g.
  destruct (Z.ltb_spec n (year_start g)).
  - replace (g - 1 + 1) with g by lia. lia.
  - destruct (Z.leb_spec (year_start (g + 1)) n); lia.
Qed.

Lemma year_of_unique n y : year_start y <= n < year_start (y + 1) -> year_of n = y.
Proof.
  intros Hy. pose proof (year_of_spec n).
  destruct (Z.lt_trichotomy (year_of n) y) as [Hl|[Hl|Hl]]; [|done|].
  - pose proof (year_start_monotone (year_of n + 1) y). lia.
  - pose proof (year_start_monotone (y + 1) (year_of n)). lia.
Qed.

(** The month of a day of the year, counted from March. *)
Lemma month_place doy mp : 0 <= mp <= 11 -> 0 <= doy <= 366 -> month_start mp <= doy < month_start (mp + 1) ->
  (5 * doy + 2) / 153 = mp.
Proof. unfold month_start. intros. Z.to_euclidean_division_equations; lia. Qed.

Lemma month_of_day doy : 0 <= doy < 366 ->
  let mp := (5 * doy + 2) / 153 in 0 <= mp <= 11 /\ month_start mp <= doy < month_start (mp + 1).
Proof. intros Hd mp. subst mp. unfold month_start. Z.to_euclidean_division_equations; lia. Qed.

Lemma leap_year_start y : year_start (y + 1) - year_start y = if gregorian_leap (y + 1) then 366 else 365.
Proof.
  unfold year_start, gregorian_leap.
  destruct (Z.eqb_spec ((y + 1) mod 4) 0), (Z.eqb_spec ((y + 1) mod 100) 0), (Z.eqb_spec ((y + 1) mod 400) 0); simpl;
    Z.to_euclidean_division_equations; lia.
Qed.

(** The lengths of the months from March on. *)
Lemma month_length y mp : 0 <= mp <= 10 ->
  month_start (mp + 1) - month_start mp = gregorian_days y (if mp <? 10 then mp + 3 else mp - 9).
Proof.
  intros Hm. assert (mp = 0 \/ mp = 1 \/ mp = 2 \/ mp = 3 \/ mp = 4 \/ mp = 5 \/ mp = 6 \/ mp = 7 \/ mp = 8 \/ mp = 9 \/ mp = 10)
    as Hc by lia.
  by repeat (destruct Hc as [->|Hc]; [done|]); subst.
Qed.

Lemma march_date_valid n : let '(y, m, d) := march_date n in date_valid y m d.
Proof.
  unfold march_date. pose proof (year_of_spec n) as Hy. pose proof (year_start_step (year_of n)) as Hs.
  pose proof (leap_year_start (year_of n)) as Hl. set (y := year_of n) in *. set (doy := n - year_start y).
  destruct (month_of_day doy) as (Hmp & Hms); [subst doy; lia|]. set (mp := (5 * doy + 2) / 153) in *.
  split; [destruct (Z.ltb_spec mp 10); lia|]. destruct (decide (mp = 11)) as [E|Hn].
  - rewrite E in *. change (month_start 11) with 337 in *. change (11 <? 10) with false. cbv iota.
    change (gregorian_days (y + 1) (11 - 9)) with (if gregorian_leap (y + 1) then 29 else 28).
    subst doy. destruct (gregorian_leap (y + 1)); lia.
  - rewrite <- (month_length _ mp) by lia. lia.
Qed.

Lemma march_date_later n n' : n < n' -> date_lt (march_date n) (march_date n').
Proof.
  intros Hlt. unfold march_date. pose proof (year_of_spec n) as Hy. pose proof (year_of_spec n') as Hy'.
  pose proof (year_start_step (year_of n)) as Hs. pose proof (year_start_step (year_of n')) as Hs'.
  assert (Hle : year_of n <= year_of n').
  { destruct (decide (year_of n <= year_of n')); [done|]. pose proof (year_start_monotone (year_of n' + 1) (year_of n)). lia. }
  set (y := year_of n) in *. set (y' := year_of n') in *. clearbody y y'.
  destruct (month_of_day (n - year_start y)) as (Hmp & Hms); [lia|].
  destruct (month_of_day (n' - year_start y')) as (Hmp' & Hms'); [lia|].
  assert (Hmono : y = y' -> (5 * (n - year_start y) + 2) / 153 <= (5 * (n' - year_start y') + 2) / 153).
  { intros <-. apply Z.div_le_mono; lia. }
  set (mp := (5 * (n - year_start y) + 2) / 153) in *. set (mp' := (5 * (n' - year_start y') + 2) / 153) in *.
  clearbody mp mp'. simpl. assert (y = y' -> mp = mp' -> n - year_start y - month_start mp < n' - year_start y' - month_start mp').
  { intros -> ->. lia. }
  destruct (Z.ltb_spec mp 10), (Z.ltb_spec mp' 10); lia.
Qed.

Lemma march_day_date n : let '(y, m, d) := march_date n in march_day y m d = n.
Proof.
  unfold march_date, march_day. pose proof (year_of_spec n) as Hy. pose proof (year_start_step (year_of n)) as Hs.
  destruct (month_of_day (n - year_start (year_of n))) as (Hmp & _); [lia|].
  set (mp := (5 * _ + 2) / 153) in *. clearbody mp. destruct (Z.ltb_spec mp 10).
  - destruct (Z.leb_spec (mp + 3) 2); [lia|]. replace (mp + 3 - 3) with mp by lia. lia.
  - destruct (Z.leb_spec (mp - 9) 2); [|lia]. replace (mp - 9 + 9) with mp by lia.
    replace (year_of n + 1 - 1) with (year_of n) by lia. lia.
Qed.

Lemma march_date_day y m d : date_valid y m d -> march_date (march_day y m d) = (y, m, d).
Proof.
  intros [Hm Hd].
  assert (Hc : exists y0 mp, march_day y m d = year_start y0 + month_start mp + d - 1 /\ 0 <= mp <= 11
    /\ month_start mp + d - 1 < month_start (mp + 1) /\ month_start mp + d - 1 < year_start (y0 + 1) - year_start y0
    /\ y = (if mp <? 10 then y0 else y0 + 1) /\ m = (if mp <? 10 then mp + 3 else mp - 9)).
  { unfold march_day. destruct (Z.leb_spec m 2).
    - exists (y - 1), (m + 9). split; [lia|]. split; [lia|]. pose proof (leap_year_start (y - 1)) as Hl.
      replace (y - 1 + 1) with y in * by lia.
      assert (m = 1 \/ m = 2) as [-> | ->] by lia; change (gregorian_days y 1) with 31 in *;
        change (gregorian_days y 2) with (if gregorian_leap y then 29 else 28) in *;
        change (month_start (1 + 9)) with 306; change (month_start (1 + 9 + 1)) with 337;
        change (month_start (2 + 9)) with 337; change (month_start (2 + 9 + 1)) with 367;
        rewrite Hl; destruct (gregorian_leap y); repeat split; lia.
    - exists y, (m - 3). split; [lia|]. split; [lia|]. pose proof (year_start_step y).
      pose proof (month_length y (m - 3)) as Hlen. replace (m - 3 + 3) with m in Hlen by lia.
      destruct (Z.ltb_spec (m - 3) 10); [|lia]. rewrite <- Hlen in Hd by lia.
      assert (month_start (m - 3 + 1) <= 306) by (unfold month_start; Z.to_euclidean_division_equations; lia).
      repeat split; lia. }
  destruct Hc as (y0 & mp & -> & Hmp & Hlen & Hyear & -> & ->).
  assert (Hpos : 0 <= month_start mp) by (unfold month_start; Z.to_euclidean_division_equations; lia).
  assert (Ey : year_of (year_start y0 + month_start mp + d - 1) = y0) by (apply year_of_unique; lia).
  unfold march_date. rewrite Ey. pose proof (year_start_step y0).
  replace (year_start y0 + month_start mp + d - 1 - year_start y0) with (month_start mp + d - 1) by lia.
  rewrite (month_place _ mp) by lia. repeat f_equal. lia.
Qed.

(** ** The calendar as an instance of the interface *)
Notation EPOCH := 719468 (only parsing).

Definition g_date (t : Z) : Z * Z * Z := march_date (t / DAY + EPOCH).
Definition g_year (t : Z) : Z := (g_date t).1.1.
Definition g_month (t : Z) : Z := (g_date t).1.2.
Definition g_day (t : Z) : Z := (g_date t).2.
Definition g_hour (t : Z) : Z := (t / HOUR) mod 24.
Definition g_minute (t : Z) : Z := (t / MINUTE) mod 60.
Definition g_second (t : Z) : Z := (t / SECOND) mod 60.
Definition g_nanosecond (t : Z) : Z := t mod SECOND.

Definition MIN_YEAR : Z := -262143.
Definition MAX_YEAR : Z := 262142.
Definition g_min : Z := (march_day MIN_YEAR 1 1 - EPOCH) * DAY.
Definition g_max : Z := (march_day MAX_YEAR 12 31 - EPOCH) * DAY + (DAY - 1).

Definition between (a b x : Z) : bool := (a <=? x) && (x <=? b).

Definition g_with_ymd_and_hms (y m d h mi s : Z) : option Z :=
  if between 1 12 m && between 1 (gregorian_days y m) d && between 0 23 h && between 0 59 mi && between 0 59 s
     && between MIN_YEAR MAX_YEAR y
  then Some ((march_day y m d - EPOCH) * DAY + h * HOUR + mi * MINUTE + s * SECOND) else None.

(** *** Texts *)
Definition two (n : Z) : list ascii := [digit_char (n / 10); digit_char (n mod 10)].
Definition three (n : Z) : list ascii := digit_char (n / 100) :: two (n mod 100).
Definition four (n : Z) : list ascii := two (n / 100) ++ two (n mod 100).

Definition g_seconds_text (t : Z) : list ascii :=
  four (g_year t) ++ "-"%char :: two (g_month t) ++ "-"%char :: two (g_day t) ++ "T"%char :: two (g_hour t)
  ++ ":"%char :: two (g_minute t) ++ ":"%char :: two (g_second t).

Definition g_to_rfc3339 (t : Z) : string := text (g_seconds_text t ++ ["+"; "0"; "0"; ":"; "0"; "0"]%char).
Definition g_to_rfc3339_millis (t : Z) : string :=
  text (g_seconds_text t ++ "."%char :: three (g_nanosecond t / MILLI) ++ ["Z"%char]).

Definition read_two (a b : ascii) : option Z := x ← digit_value a; y ← digit_value b; Some (10 * x + y).

(** It reads the texts it writes with milliseconds. *)
Definition g_parse_from_rfc3339 (s : string) : option Z :=
  match String.list_ascii_of_string s with
  | [y1; y2; y3; y4; "-"; m1; m2; "-"; d1; d2; "T"; h1; h2; ":"; i1; i2; ":"; s1; s2; "."; f1; f2; f3; "Z"]%char =>
      c ← read_two y1 y2; y ← read_two y3 y4; m ← read_two m1 m2; d ← read_two d1 d2;
      h ← read_two h1 h2; mi ← read_two i1 i2; s ← read_two s1 s2; f ← digit_value f1; g ← read_two f2 f3;
      t ← g_with_ymd_and_hms (100 * c + y) m d h mi s;
      Some (t + (100 * f + g) * MILLI)
  | _ => None
  end.

#[export] Instance gregorian : Chrono := {|
  utc_min := g_min; utc_max := g_max;
  utc_year := g_year; utc_month := g_month; utc_day := g_day;
  utc_hour := g_hour; utc_minute := g_minute; utc_second := g_second; utc_nanosecond := g_nanosecond;
  num_days_from_sunday t := (t / DAY + 4) mod 7;
  with_ymd_and_hms := g_with_ymd_and_hms;
  with_hour t h := if between 0 23 h then Some (t + (h - g_hour t) * HOUR) else None;
  with_minute t m := if between 0 59 m then Some (t + (m - g_minute t) * MINUTE) else None;
  with_second t s := if between 0 59 s then Some (t + (s - g_second t) * SECOND) else None;
  with_nanosecond t n := if between 0 999999999 n then Some (t + (n - g_nanosecond t)) else None;
  parse_from_rfc3339 := g_parse_from_rfc3339;
  parse_naive_date_time _ _ := None;
  parse_naive_date _ _ := None;
  to_rfc3339 := g_to_rfc3339;
  to_rfc3339_millis := g_to_rfc3339_millis
|}.

Lemma between_true a b x : a <= x <= b -> between a b x = true.
Proof. unfold between. rewrite andb_true_iff, !Z.leb_le. done. Qed.

Lemma between_spec a b x : between a b x = true <-> a <= x <= b.
Proof. unfold between. by rewrite andb_true_iff, !Z.leb_le. Qed.

Lemma g_ymd_some y m d h mi s t : g_with_ymd_and_hms y m d h mi s = Some t ->
  date_valid y m d /\ 0 <= h < 24 /\ 0 <= mi < 60 /\ 0 <= s < 60 /\ MIN_YEAR <= y <= MAX_YEAR
  /\ t = (march_day y m d - EPOCH) * DAY + h * HOUR + mi * MINUTE + s * SECOND.
Proof.
  unfold g_with_ymd_and_hms. destruct (_ && _) eqn:E; [|done]. intros [= <-].
  rewrite !andb_true_iff, !between_spec in E. unfold date_valid. repeat split; lia.
Qed.

Lemma g_ymd_is_some y m d h mi s : date_valid y m d -> 0 <= h < 24 -> 0 <= mi < 60 -> 0 <= s < 60 ->
  MIN_YEAR <= y <= MAX_YEAR ->
  g_with_ymd_and_hms y m d h mi s = Some ((march_day y m d - EPOCH) * DAY + h * HOUR + mi * MINUTE + s * SECOND).
Proof.
  intros [Hm Hd] Hh Hmi Hs Hy. unfold g_with_ymd_and_hms. by rewrite !between_true by lia.
Qed.

Lemma g_date_fields t : g_date t = (g_year t, g_month t, g_day t).
Proof. unfold g_year, g_month, g_day. by destruct (g_date t) as [[y m] d]. Qed.

Lemma g_valid t : date_valid (g_year t) (g_month t) (g_day t).
Proof. pose proof (march_date_valid (t / DAY + EPOCH)) as Hv. fold (g_date t) in Hv. by rewrite g_date_fields in Hv. Qed.

Lemma g_march_day t : march_day (g_year t) (g_month t) (g_day t) = t / DAY + EPOCH.
Proof. pose proof (march_day_date (t / DAY + EPOCH)) as Hv. fold (g_date t) in Hv. by rewrite g_date_fields in Hv. Qed.

Lemma day_range y m d : date_valid y m d -> MIN_YEAR <= y <= MAX_YEAR ->
  march_day MIN_YEAR 1 1 <= march_day y m d <= march_day MAX_YEAR 12 31.
Proof.
  intros Hv Hy. pose proof (gregorian_days_bounds y m). assert (Hv' := Hv). destruct Hv' as [Hm Hd].
  split.
  - destruct (decide (march_day MIN_YEAR 1 1 <= march_day y m d)); [done|exfalso].
    pose proof (march_date_later (march_day y m d) (march_day MIN_YEAR 1 1) ltac:(lia)) as Hl.
    rewrite !march_date_day in Hl by (done || by (split; vm_compute)). unfold date_lt, MIN_YEAR in *. lia.
  - destruct (decide (march_day y m d <= march_day MAX_YEAR 12 31)); [done|exfalso].
    pose proof (march_date_later (march_day MAX_YEAR 12 31) (march_day y m d) ltac:(lia)) as Hl.
    rewrite !march_date_day in Hl by (done || by (split; vm_compute)). unfold date_lt, MAX_YEAR in *.
    unfold gregorian_days in Hd. destruct (Z.eqb_spec m 2); [lia|]. destruct (_ || _); lia.
Qed.

Lemma g_day_range t : in_range t -> march_day MIN_YEAR 1 1 <= t / DAY + EPOCH <= march_day MAX_YEAR 12 31.
Proof.
  unfold in_range. cbn [utc_min utc_max gregorian]. unfold g_min, g_max.
  generalize (march_day MIN_YEAR 1 1) (march_day MAX_YEAR 12 31). intros a b Ht. Z.to_euclidean_division_equations; lia.
Qed.

Lemma year_range t : in_range t -> MIN_YEAR <= g_year t <= MAX_YEAR.
Proof.
  intros Ht%g_day_range.
  assert (Hlo : forall y m d n, date_valid y m d -> march_day y m d <= n -> y <= (march_date n).1.1).
  { intros y m d n Hv Hle. destruct (decide (march_day y m d = n)) as [<-|].
    - rewrite march_date_day by done. simpl. lia.
    - pose proof (march_date_later (march_day y m d) n ltac:(lia)) as Hl. rewrite march_date_day in Hl by done.
      destruct (march_date n) as [[y' m'] d']. simpl in *. lia. }
  assert (Hhi : forall y m d n, date_valid y m d -> n <= march_day y m d -> (march_date n).1.1 <= y).
  { intros y m d n Hv Hle. destruct (decide (march_day y m d = n)) as [<-|].
    - rewrite march_date_day by done. simpl. lia.
    - pose proof (march_date_later n (march_day y m d) ltac:(lia)) as Hl. rewrite march_date_day in Hl by done.
      destruct (march_date n) as [[y' m'] d']. simpl in *. lia. }
  unfold g_year, g_date. split; [eapply Hlo; [|apply Ht]|eapply Hhi; [|apply Ht]]; by split; vm_compute.
Qed.

Lemma g_ymd_fields t : in_range t ->
  g_with_ymd_and_hms (g_year t) (g_month t) (g_day t) (g_hour t) (g_minute t) (g_second t) = Some (t / SECOND * SECOND).
Proof.
  intros Ht. rewrite g_ymd_is_some.
  - rewrite g_march_day. unfold g_hour, g_minute, g_second. f_equal. Z.to_euclidean_division_equations; lia.
  - apply g_valid.
  - by apply Z.mod_pos_bound.
  - by apply Z.mod_pos_bound.
  - by apply Z.mod_pos_bound.
  - by apply year_range.
Qed.

Lemma ymd_instant y m d h mi s t : g_with_ymd_and_hms y m d h mi s = Some t ->
  in_range t /\ g_date t = (y, m, d) /\ g_hour t = h /\ g_minute t = mi /\ g_second t = s /\ g_nanosecond t = 0.
Proof.
  intros (Hv & Hh & Hmi & Hs & Hy & ->)%g_ymd_some. pose proof (day_range y m d Hv Hy) as Hr.
  pose proof (march_date_day y m d Hv) as Hd. unfold in_range. cbn [utc_min utc_max gregorian]. unfold g_min, g_max.
  unfold g_date, g_hour, g_minute, g_second, g_nanosecond.
  revert Hr Hd. generalize (march_day MIN_YEAR 1 1) (march_day MAX_YEAR 12 31) (march_day y m d). intros a b n Hr Hd.
  replace (((n - EPOCH) * DAY + h * HOUR + mi * MINUTE + s * SECOND) / DAY + EPOCH) with n
    by (Z.to_euclidean_division_equations; lia).
  split; [lia|]. split; [done|]. repeat split; Z.to_euclidean_division_equations; lia.
Qed.

(** *** Reading back what is written *)
Lemma read_two_digits n : 0 <= n < 100 -> read_two (digit_char (n / 10)) (digit_char (n mod 10)) = Some n.
Proof.
  intros Hn. unfold read_two. rewrite !digit_value_char by (Z.to_euclidean_division_equations; lia).
  cbn [mbind option_bind]. f_equal. Z.to_euclidean_division_equations; lia.
Qed.

Lemma g_rfc3339_back t : in_range t -> 0 <= g_year t <= 9999 ->
  g_parse_from_rfc3339 (g_to_rfc3339_millis t) = Some (t / MILLI * MILLI).
Proof.
  intros Ht Hy. pose proof (g_valid t) as [Hm Hd]. pose proof (gregorian_days_bounds (g_year t) (g_month t)).
  pose proof (g_ymd_fields t Ht) as Hf.
  assert (Hn : 0 <= g_nanosecond t < SECOND) by (by apply Z.mod_pos_bound).
  assert (Hh : 0 <= g_hour t < 24) by (by apply Z.mod_pos_bound).
  assert (Hi : 0 <= g_minute t < 60) by (by apply Z.mod_pos_bound).
  assert (Hs : 0 <= g_second t < 60) by (by apply Z.mod_pos_bound).
  assert (Hms : 0 <= g_nanosecond t / MILLI < 1000) by (Z.to_euclidean_division_equations; lia).
  unfold g_parse_from_rfc3339, g_to_rfc3339_millis, text. rewrite String.list_ascii_of_string_of_list_ascii.
  unfold g_seconds_text, four, three, two. cbn [app].
  rewrite !read_two_digits by (Z.to_euclidean_division_equations; lia). cbn [mbind option_bind].
  rewrite digit_value_char by (Z.to_euclidean_division_equations; lia). cbn [mbind option_bind].
  replace (100 * (g_year t / 100) + g_year t mod 100) with (g_year t) by (Z.to_euclidean_division_equations; lia).
  rewrite Hf. cbn [mbind option_bind]. f_equal. unfold g_nanosecond. Z.to_euclidean_division_equations; lia.
Qed.

Lemma g_rfc3339_text t : in_range t -> 0 <= g_year t <= 9999 ->
  exists a s, g_to_rfc3339_millis t = String a s /\ is_digit a = true
    /\ Forall (fun b => rfc3339_char b = true) (String.list_ascii_of_string s).
Proof.
  intros Ht Hy. pose proof (g_valid t) as [Hm Hd]. pose proof (gregorian_days_bounds (g_year t) (g_month t)).
  assert (Hn : 0 <= g_nanosecond t < SECOND) by (by apply Z.mod_pos_bound).
  assert (Hh : 0 <= g_hour t < 24) by (by apply Z.mod_pos_bound).
  assert (Hi : 0 <= g_minute t < 60) by (by apply Z.mod_pos_bound).
  assert (Hs : 0 <= g_second t < 60) by (by apply Z.mod_pos_bound).
  assert (Hms : 0 <= g_nanosecond t / MILLI < 1000) by (Z.to_euclidean_division_equations; lia).
  assert (Hc : forall d, 0 <= d < 10 -> rfc3339_char (digit_char d) = true).
  { intros d Hd'. unfold rfc3339_char. by rewrite is_digit_char. }
  unfold g_to_rfc3339_millis, g_seconds_text, four, three, two, text. cbn [app String.string_of_list_ascii].
  eexists _, _. split; [done|]. split; [apply is_digit_char; Z.to_euclidean_division_equations; lia|].
  cbn [String.list_ascii_of_string].
  repeat (apply Forall_cons; split); first [apply Hc; Z.to_euclidean_division_equations; lia|done|constructor].
Qed.

#[export] Instance gregorian_laws : ChronoLaws.
Proof.
  split; intros; cbn [utc_min utc_max utc_year utc_month utc_day utc_hour utc_minute utc_second utc_nanosecond
    num_days_from_sunday with_ymd_and_hms with_hour with_minute with_second with_nanosecond parse_from_rfc3339
    to_rfc3339_millis gregorian] in *; try done.
  - by rewrite between_true by lia.
  - by rewrite between_true by lia.
  - by rewrite between_true by lia.
  - by rewrite between_true by lia.
  - pose proof (year_range t H) as Hy. unfold MIN_YEAR, MAX_YEAR, i32_min, i32_max in *. lia.
  - pose proof (year_range t H). assert (E : g_year g_max = MAX_YEAR) by (vm_compute; reflexivity). rewrite E.
    split; [lia|vm_compute; reflexivity].
  - apply g_valid.
  - unfold utc_date. cbn [utc_year utc_month utc_day gregorian]. rewrite <- !g_date_fields. unfold g_date. by rewrite H1.
  - unfold utc_date. cbn [utc_year utc_month utc_day gregorian]. rewrite <- !g_date_fields. apply march_date_later. lia.
  - apply ymd_instant in H as (Hr & Hd & Hrest). split; [done|]. split; [|done].
    unfold utc_date. cbn [utc_year utc_month utc_day gregorian]. by rewrite <- g_date_fields.
  - assert (E : g_year g_min = MIN_YEAR /\ g_year g_max = MAX_YEAR) by (split; vm_compute; reflexivity).
    destruct E as [E1 E2]. rewrite E1, E2 in *. by rewrite g_ymd_is_some.
  - by apply g_rfc3339_back.
  - by apply g_rfc3339_text.
Qed.

(** ** Cron expressions *)
Definition instant (y m d h mi s : Z) : Z := default 0 (g_with_ymd_and_hms y m d h mi s).

Definition noon : Z := instant 2026 4 18 12 0 0.

Definition afternoon : CronFields :=
  mkCron [0] [30] [13; 15] (seqZ 1 31) (seqZ 1 12) (seqZ 0 8) true true.

Lemma afternoon_parsed : parse_cron "0 30 13,15 * * ?" = Ok (Some afternoon).
Proof. vm_compute. reflexivity. Qed.

Lemma cron_first_match_witness : exists t, next_cron_after "0 30 13,15 * * ?" noon = Ok (Some t)
  /\ noon < t <= instant 2026 4 18 15 30 0 /\ t mod SECOND = 0 /\ in_range t /\ cron_allows afternoon t = true
  /\ forall v, in_range v -> v mod SECOND = 0 -> noon < v < t -> cron_allows afternoon v = false.
Proof.
  apply (cron_first_match _ _ _ (instant 2026 4 18 15 30 0)).
  - vm_compute. split; discriminate.
  - apply afternoon_parsed.
  - vm_compute. split; discriminate.
  - vm_compute. reflexivity.
  - vm_compute. split; reflexivity.
  - vm_compute. reflexivity.
Defined.

Lemma cron_field_values_witness : exists values,
  parse_cron_field (join_char ","%char (part_text <$> [Between 9 12; Every 20; BetweenEvery 1 9 4])) 0 59
    = Ok (match values with [] => None | _ => Some values end)
  /\ StronglySorted Z.lt values
  /\ forall v, v ∈ values <-> 0 <= v <= 59 /\ exists p, p ∈ [Between 9 12; Every 20; BetweenEvery 1 9 4] /\ part_names 0 p v.
Proof.
  apply cron_field_values; [lia|lia|discriminate|]. repeat constructor; vm_compute; discriminate.
Defined.

(** A day of the week is compared with two numberings: 2 is Monday in the one that is
    documented and Tuesday in the other, and an expression for Mondays fires on
    Tuesdays too. *)
Theorem cron_monday_and_tuesday :
  next_cron_after "0 0 12 ? * 2" noon = Ok (Some (instant 2026 4 20 12 0 0))
  /\ next_cron_after "0 0 12 ? * 2" (instant 2026 4 20 12 0 0) = Ok (Some (instant 2026 4 21 12 0 0)).
Proof. vm_compute. done. Qed.

(** The bound of the search counts turns, and a jump over a month is one turn: the
    next leap day is found eight years ahead. *)
Theorem cron_search_passes_two_years :
  next_cron_after "0 0 0 29 2 ?" (instant 2096 3 1 0 0 0) = Ok (Some (instant 2104 2 29 0 0 0)).
Proof. vm_compute. done. Qed.

(** ** Cycles *)
Definition hourly : string := "R3/2026-04-18T12:00:00.000Z/PT1H".
Definition hour : IsoDuration := mkIso 0 0 0 0 1 0 0 0.
Definition hourly_cycle : ParsedCycle :=
  mkParsed (Some 3) (Some noon) (Some hour) None "2026-04-18T12:00:00.000Z/PT1H".

Lemma hourly_parsed : parse_r_cycle hourly = Ok (Some hourly_cycle).
Proof. vm_compute. reflexivity. Qed.

Lemma visible_text_check s :
  forallb (fun a => (byte_of a <? 128) && negb (is_whitespace (byte_of a))) (String.list_ascii_of_string s) = true -> visible_text s.
Proof.
  intros Hs. apply Forall_forall. intros a Ha. rewrite forallb_forall in Hs. apply visible_check, Hs. by apply list_elem_of_In.
Qed.

Lemma hourly_visible : visible_text hourly.
Proof. apply visible_text_check. vm_compute. reflexivity. Qed.

Lemma hour_fixed : fixed_length hour.
Proof. by repeat split. Qed.

Lemma repeat_fires_n_times_witness :
  (forall k, Z.of_nat k < 3 -> exists next, after_fires k hourly = Ok (Some next)
     /\ parse_r_cycle next = Ok (Some (with_remaining hourly_cycle (Some (3 - Z.of_nat k)))))
  /\ after_fires (Z.to_nat 3) hourly = Ok None.
Proof. apply repeat_fires_n_times; [apply hourly_visible|apply hourly_parsed|reflexivity|lia]. Defined.

(** Asked at half past one, an hourly cycle started at noon is due at two. *)
Lemma fixed_period_due_witness :
  resolve_cycle hourly (instant 2026 4 18 13 30 0) = Ok (Due (mkSchedule hourly (timestamp_millis (noon + 2 * time_nanos hour))))
  /\ noon + 2 * time_nanos hour = instant 2026 4 18 14 0 0.
Proof.
  split; [|vm_compute; reflexivity].
  exact (fixed_period_due hourly hourly_cycle hour noon (instant 2026 4 18 13 30 0) 2
    hourly_visible hourly_parsed eq_refl eq_refl eq_refl ltac:(discriminate) hour_fixed ltac:(lia)
    ltac:(vm_compute; split; [discriminate|reflexivity]) ltac:(vm_compute; split; discriminate)
    ltac:(vm_compute; split; discriminate)).
Defined.

Lemma next_due_on_grid_witness : exists schedule t, resolve_cycle hourly noon = Ok (Due schedule)
  /\ cs_due_time_millis schedule = timestamp_millis t /\ cs_cycle schedule = hourly /\ first_fire_after hour noon noon t.
Proof.
  eexists. edestruct (next_due_on_grid hourly hourly_cycle hour noon noon) as (t & Ht & Hc & Hf);
    [apply hourly_visible|apply hourly_parsed|reflexivity|reflexivity|reflexivity|discriminate|vm_compute; reflexivity|].
  exists t. split; [vm_compute; reflexivity|]. split; [exact Ht|]. split; [exact Hc|exact Hf].
Defined.

(** A month after the last day of January is the last day of February. *)
Definition month : IsoDuration := mkIso 0 1 0 0 0 0 0 0.

Lemma add_to_calendar_witness : exists base,
  instant 2026 2 28 12 0 0 = base + time_nanos month /\ in_range base /\ in_range (instant 2026 2 28 12 0 0)
  /\ utc_date base = (target_month month (instant 2026 1 31 12 0 0) / 12, target_month month (instant 2026 1 31 12 0 0) mod 12 + 1,
      Z.min (utc_day (instant 2026 1 31 12 0 0))
        (gregorian_days (target_month month (instant 2026 1 31 12 0 0) / 12) (target_month month (instant 2026 1 31 12 0 0) mod 12 + 1)))
  /\ base mod DAY = instant 2026 1 31 12 0 0 mod DAY.
Proof.
  apply add_to_calendar; [vm_compute; split; discriminate|vm_compute; discriminate|vm_compute; reflexivity|vm_compute; split; discriminate].
Defined.

(** The next fire of a monthly cycle is counted from the last one: a cycle started on the
    31st is due on the 28th of every month after February. *)
Theorem monthly_cycle_drifts :
  resolve_cycle "R/2026-01-31T12:00:00.000Z/P1M" (instant 2026 3 1 0 0 0)
  = Ok (Due (mkSchedule "R/2026-01-31T12:00:00.000Z/P1M" (timestamp_millis (instant 2026 3 28 12 0 0)))).
Proof. vm_compute. reflexivity. Qed.

(** A cycle with a period and an end is not given a start: fired at half past
    one instead of one, an hourly timer is due an hour after that. *)
Theorem end_bounded_cycle_drifts :
  prepare_repeat "R/PT1H/2027-01-01T00:00:00.000Z" noon = "R/PT1H/2027-01-01T00:00:00.000Z"%string
  /\ resolve_cycle "R/PT1H/2027-01-01T00:00:00.000Z" (instant 2026 4 18 13 30 0)
     = Ok (Due (mkSchedule "R/PT1H/2027-01-01T00:00:00.000Z" (timestamp_millis (instant 2026 4 18 14 30 0)))).
Proof. vm_compute. done. Qed.

(** A start in the future is itself no fire: the first one is a period later. *)
Theorem future_start_skipped :
  resolve_cycle hourly (instant 2026 4 18 9 0 0)
  = Ok (Due (mkSchedule hourly (timestamp_millis (instant 2026 4 18 13 0 0)))).
Proof. vm_compute. reflexivity. Qed.

(** ** Schedules *)
#[local] Instance timer_env : JobEnv :=
  {| job_display := {| value_to_string _ := EmptyString; f64_to_string _ := EmptyString |};
     cycle_value text _ := if bool_decide (text = "${stop}"%string) then Ok (Some (VString "2027-01-01T00:00:00.000Z")) else Ok None |}.

Definition secondly : string := "R/2026-04-18T12:00:00.000Z/PT1S".
Definition second : IsoDuration := mkIso 0 0 0 0 0 0 1 0.

Lemma secondly_parsed :
  parse_r_cycle secondly = Ok (Some (mkParsed None (Some noon) (Some second) None "2026-04-18T12:00:00.000Z/PT1S")).
Proof. vm_compute. reflexivity. Qed.

(** A cycle is followed for 100000 periods from its start, and the start is
    never moved: a timer that repeats every second fails to be rescheduled
    from its second day on, with an error that rolls the fire back. *)
Theorem long_cycle_unresolvable execution now :
  noon + 100000 * SECOND <= now -> in_range (now + SECOND) ->
  resolve_next_timer_schedule secondly None None execution registry_default now
  = stop_with (unresolvable CYCLE_CALENDAR_NAME secondly).
Proof.
  intros Hnow Hr. assert (Hv : visible_text secondly) by (apply visible_text_check; vm_compute; reflexivity).
  rewrite (next_schedule_default secondly execution secondly now).
  2: { eapply repeat_forever; [done|apply secondly_parsed|done]. }
  rewrite (resolve_anchored secondly _ now Hv secondly_parsed) by done.
  assert (Hnoon : in_range noon) by (vm_compute; split; discriminate).
  rewrite (next_due_fixed _ second now noon).
  - assert (Hk : periods_until second noon now <=? 100000 = false).
    { apply Z.leb_gt. unfold periods_until. change (time_nanos second) with SECOND. Z.to_euclidean_division_equations; lia. }
    by rewrite Hk.
  - done.
  - by repeat split.
  - done.
  - done.
  - unfold periods_until, in_range in *. change (time_nanos second) with SECOND. Z.to_euclidean_division_equations; lia.
Qed.

Lemma long_cycle_unresolvable_witness :
  resolve_next_timer_schedule secondly None None execution_default registry_default (instant 2026 4 20 12 0 0)
  = stop_with (unresolvable CYCLE_CALENDAR_NAME secondly).
Proof. apply long_cycle_unresolvable; vm_compute; [discriminate|split; discriminate]. Defined.

(** The end date of a timer with a duration does not count, yet it must be an instant:
    a duration timer with another text as its end is not scheduled. *)
Theorem end_date_required_for_durations :
  resolve_timer_schedule None (Some "PT1H"%string) None (Some "tomorrow"%string) None execution_default registry_default noon
  = stop_with [Lit "Business calendar '"; Lit "duration"; Lit "' could not resolve end date from '"; Lit "tomorrow"; Lit "'"].
Proof. vm_compute. reflexivity. Qed.


(** A boundary timer of the hourly cycle, fired at half past one. *)
Definition hourly_job : RuntimeTimerJobState := with_cycle (Some hourly) (Some (timestamp_millis (instant 2026 4 18 13 0 0))) default_job.

Lemma boundary_timer_rescheduled_witness : exists job' next_cycle,
  reschedule_non_interrupting_timer_cycle (fun _ => None) registry_default (instant 2026 4 18 13 30 0) hourly_job = Ok (Some job')
  /\ jb_time_cycle job' = Some next_cycle /\ jb_due_time job' = Some (timestamp_millis (instant 2026 4 18 14 0 0)).
Proof.
  destruct (boundary_timer_rescheduled (fun _ => None) (instant 2026 4 18 13 30 0) hourly_job hourly hourly_cycle hour noon 3 2)
    as [_ H]; [reflexivity|reflexivity|reflexivity|apply hourly_visible|apply hourly_parsed|reflexivity|reflexivity|reflexivity|
     reflexivity|apply hour_fixed|lia|vm_compute; split; [discriminate|reflexivity]|vm_compute; split; discriminate|
     vm_compute; split; discriminate|].
  destruct H as (job' & next & H1 & H2 & _ & H3 & _); [lia|]. exists job', next.
  split; [exact H1|]. split; [exact H2|]. rewrite H3. vm_compute. reflexivity.
Defined.
