(* ===== verification/JobSamples.v ===== *)
(** * Jobs and locks on examples

    A session with jobs in every state, the theorems of the job files at it, and
    runs that show what the code does where it does not do what it says. *)
From stdpp Require Import pretty.
From S2P Require Import Prelude Chars Float64 Numerals Json Errors ElValues Execution Store JobTypes JobLocks JobLocksProof JobReset JobStore Leases JobExecution.

Open Scope Z_scope.

#[local] Existing Instance insertion_order.

Definition job (id : string) (state : string) (due retries_ : Z) (owner : option string) (expires : option Z)
  : RuntimeTimerJobState :=
  with_lock owner (const 0 <$> owner) expires
    (with_progress (Some state) (Some due) (Some retries_) None None
       (mkJob id "instance-1" "execution-1" "task" None false None false None None None None
          None None None None None None None None (Some "billing") None None None None None None None None None
          None None None None true)).

Definition empty_jobs : JobSession := mkJobSession false None ∅ ∅ ∅ ∅ ∅ ∅ ∅.

Definition with_jobs (jobs : list RuntimeTimerJobState) (s : JobSession) : JobSession :=
  foldl (fun s j => (insert_timer_job_state 1 "corr" j s).2) s jobs.

Lemma with_jobs_wf jobs s : Forall job_typed jobs -> jobs_wf s -> jobs_wf (with_jobs jobs s).
Proof.
  intros HT. revert s. induction HT as [|j jobs Tj _ IH]; intros s W; [done|]. simpl. by apply IH, insert_preserves.
Qed.

Lemma empty_jobs_wf : jobs_wf empty_jobs.
Proof. split; [done|apply map_Forall_empty]. Qed.

(** Two free async jobs, one locked, one expired, one timer. *)
Definition job_a := job "a" "async" 10 3 None None.
Definition job_b := job "b" "async" 5 1 None None.
Definition job_c := job "c" "async" 1 3 (Some "worker-2") (Some 500).
Definition job_d := job "d" "async" 2 3 (Some "worker-3") (Some 50).
Definition job_e := job "e" "timer" 7 3 None None.
Definition sample_jobs : list RuntimeTimerJobState := [job_a; job_b; job_c; job_d; job_e].
Definition sample_session : JobSession := with_jobs sample_jobs empty_jobs.

Ltac typed_job :=
  split; simpl; let E := fresh in intros ? E; simplify_eq;
  first [by vm_compute | unfold is_i64, i64_min, i64_max; lia].

Lemma sample_typed : Forall job_typed sample_jobs.
Proof. repeat (apply Forall_cons; split; [typed_job|]). apply Forall_nil. exact I. Qed.

Lemma sample_wf : jobs_wf sample_session.
Proof. apply with_jobs_wf; [apply sample_typed|apply empty_jobs_wf]. Qed.

(** ** The theorems at the sample *)
Lemma acquire_correct_witness :
  jobs_wf sample_session /\ plain "worker-1" /\ is_i64 100
  /\ exists jobs s',
    acquire_due_timer_jobs_by_states ["async"%string] "worker-1" 100 60 1 None None None Optimistic sample_session
    = (Ok (leased "worker-1" 100 60 <$> jobs, 0%nat, 0%nat), s')
    /\ stored (js_jobs sample_session) jobs
    /\ Forall (fun j => eligible ["async"%string] 100 None None None sample_session j = true) jobs
    /\ in_order job_leb jobs
    /\ (length jobs <= 1)%nat
    /\ s' = set_jobs (update_rows (leased_row "worker-1" 100 60) (jb_timer_job_id <$> jobs)
                        (js_jobs sample_session)) sample_session
    /\ jobs_wf s'.
Proof.
  split_and!; [apply sample_wf|done|by split|].
  apply (acquire_correct ["async"%string] 100 1 None None None "worker-1" 60 Optimistic sample_session); [apply sample_wf|done|by split].
Defined.

(** The rows that are due and the job the sample acquires. *)
Example sample_acquires :
  match acquire_due_timer_jobs_by_states ["async"%string] "worker-1" 100 60 2 None None None Optimistic sample_session with
  | (Ok (jobs, _, conflicts), s') =>
      (map jb_timer_job_id jobs, map jb_lock_expiration_time jobs, conflicts,
       jb_lock_owner ∘ cas_data <$> js_jobs s' !! "a"%string)
  | _ => ([], [], 9%nat, None)
  end = (["b"; "a"]%string, [Some 160; Some 160], 0%nat, Some (Some "worker-1"%string)).
Proof. vm_compute. reflexivity. Qed.

Definition sample_row (id : string) : CasRow RuntimeTimerJobState :=
  default (mkCas default_job ∅) (js_jobs sample_session !! id).

Ltac computed := vm_compute; reflexivity.

Lemma acquire_complete_witness :
  jobs_wf sample_session /\ plain "worker-1" /\ is_i64 100
  /\ fits (due_filters ["async"%string] 100) (query_limit 4 None None None) (js_jobs sample_session)
  /\ js_jobs sample_session !! jb_timer_job_id (cas_data (sample_row "a")) = Some (sample_row "a")
  /\ eligible ["async"%string] 100 None None None sample_session (cas_data (sample_row "a")) = true
  /\ exists jobs s',
    acquire_due_timer_jobs_by_states ["async"%string] "worker-1" 100 60 4 None None None Optimistic sample_session
    = (Ok (jobs, 0%nat, 0%nat), s')
    /\ (leased "worker-1" 100 60 (cas_data (sample_row "a")) ∈ jobs
        \/ (length jobs = 4%nat /\ Forall (fun j => job_leb j (cas_data (sample_row "a")) = true) jobs)).
Proof.
  split_and!; [apply sample_wf|done|by split|vm_compute; lia|computed|computed|].
  apply (acquire_complete ["async"%string] 100 4 None None None "worker-1" 60 Optimistic sample_session (sample_row "a"));
    [apply sample_wf|done|by split|vm_compute; lia|computed|computed].
Defined.

Definition sample_reset : ResetExpiredJobsConfig := mkResetConfig 1 all_expired_classes [] [].

Lemma reset_cycle_recovers_witness :
  (forall i j : nat, (i <= j)%nat -> 100 + Z.of_nat i <= 100 + Z.of_nat j)
  /\ jobs_wf sample_session /\ (size (leases (js_jobs sample_session)) < 5)%nat
  /\ exists total s',
    reset_cycle 5 (fun k => 100 + Z.of_nat k) sample_reset sample_session = (Ok (Some total), s')
    /\ jobs_wf s' /\ recovered (expired_in_cycle (fun k => 100 + Z.of_nat k) sample_reset) sample_session s'
    /\ (unscoped sample_reset -> forall c, c ∈ rc_job_classes sample_reset -> clean c (100 + Z.of_nat 0) s').
Proof.
  split_and!; [lia|apply sample_wf|vm_compute; lia|].
  apply (reset_cycle_recovers (fun k => 100 + Z.of_nat k) sample_reset); [lia|apply sample_wf|vm_compute; lia].
Defined.

Example sample_resets :
  match reset_cycle 5 (fun k => 100 + Z.of_nat k) sample_reset sample_session with
  | (Ok total, s') => (total, jb_lock_owner ∘ cas_data <$> js_jobs s' !! "c"%string,
                       jb_lock_owner ∘ cas_data <$> js_jobs s' !! "d"%string)
  | _ => (None, None, None)
  end = (Some 1%nat, Some (Some "worker-2"%string), Some None).
Proof. vm_compute. reflexivity. Qed.

Definition sample_op : JobOp := OpRelease "c" "worker-2".

Lemma columns_agree_witness :
  jobs_wf sample_session /\ job_steps sample_session (run_job_op sample_op sample_session).2
  /\ jobs_wf (run_job_op sample_op sample_session).2.
Proof.
  assert (Hs : job_steps sample_session (run_job_op sample_op sample_session).2)
    by (apply (job_steps_step _ sample_op); [exact I|apply job_steps_refl]).
  split_and!; [apply sample_wf|exact Hs|]. apply (columns_agree sample_session); [apply sample_wf|exact Hs].
Defined.

(** Worker 2 completes a retry count; worker 3 no longer may. *)
Lemma replace_if_lock_matches_correct_witness :
  jobs_wf sample_session /\ job_typed job_c /\ plain "worker-2" /\ (forall n, Some 500 = Some n -> is_i64 n)
  /\ match js_jobs sample_session !! jb_timer_job_id job_c with
     | Some r =>
         if decide (jb_lock_owner (cas_data r) = Some "worker-2"%string
                    /\ jb_lock_expiration_time (cas_data r) = Some 500)
         then exists s', replace_timer_job_state_if_lock_matches job_c "worker-2" (Some 500) sample_session = (Ok true, s')
              /\ cas_data <$> js_jobs s' !! jb_timer_job_id job_c = Some job_c
              /\ (forall k, k <> jb_timer_job_id job_c -> js_jobs s' !! k = js_jobs sample_session !! k)
              /\ jobs_wf s'
         else replace_timer_job_state_if_lock_matches job_c "worker-2" (Some 500) sample_session = (Ok false, sample_session)
     | None => replace_timer_job_state_if_lock_matches job_c "worker-2" (Some 500) sample_session = (Ok false, sample_session)
     end.
Proof.
  assert (T : job_typed job_c) by typed_job.
  assert (He : forall n, Some 500 = Some n -> is_i64 n) by (intros n [= <-]; by split).
  split_and!; [apply sample_wf|exact T|done|exact He|].
  apply (replace_if_lock_matches_correct job_c "worker-2" (Some 500) sample_session); [apply sample_wf|exact T|done|exact He].
Defined.

(** ** Locks *)
Definition node (n : nat) : string := "node-" +:+ pretty n.

Lemma node_inj n m : node n = node m -> n = m.
Proof.
  unfold node. intros E. assert (E' : pretty n = pretty m) by (by injection E). by apply (inj pretty) in E'.
Qed.

Lemma pretty_nat_chars (n : nat) : forallb owner_char (String.list_ascii_of_string (pretty n)) = true.
Proof.
  assert (E : pretty n = pretty (Z.of_nat n)) by (by destruct n).
  rewrite E. apply pretty_owner_chars.
Qed.

Lemma node_ok n : owner_ok (node n) = true.
Proof. unfold owner_ok, node. simpl. apply pretty_nat_chars. Qed.

(** Node 0 has read the free lock and written its lease. *)
Definition won : JobSession := (acquire_after_read "lock" (node 0) 10 60 None empty_jobs).2.
Definition world_won : World :=
  mkWorld won 10 (upd 0%nat Idle (upd 0%nat (AcquireRead 10 None) (fun _ => Idle)))
    (upd 0%nat (Some (saturating_add 10 60)) (fun _ => None)).

Lemma small_empty : small_revision "lock" empty_jobs.
Proof. intros v r E. vm_compute in E. discriminate E. Qed.

Lemma world_won_reachable : lock_reachable "lock" 60 node world_won.
Proof.
  eapply reach_step; [eapply reach_step; [apply (reach_start _ _ _ empty_jobs 10), small_empty|..]|..].
  - by eapply (step_begin_acquire "lock" 60 node empty_jobs 10 _ _ 0 10 None).
  - apply small_empty.
  - by eapply (step_acquired "lock" 60 node empty_jobs 10 _ _ 0 10 None).
  - intros v r E. vm_compute in E. injection E as <- <-. lia.
Qed.

Lemma global_lock_exclusive_witness :
  lock_reachable "lock" 60 node world_won
  /\ w_held world_won 0 = Some 70 /\ w_now world_won < 70 /\ 0%nat = 0%nat.
Proof.
  split_and!; [apply world_won_reachable|done|done|].
  apply (global_lock_exclusive "lock" 60 node node_inj node_ok world_won 0 0 70 70);
    [apply world_won_reachable|done|done|done|done].
Defined.

(** Node a leads, node b takes over when its lease is over. *)
Definition lead_a : JobSession := (acquire_coordinator_lease "timer-coordinator" "a" 0 10 empty_jobs).2.
Definition lead_b : JobSession := (acquire_coordinator_lease "timer-coordinator" "b" 20 10 lead_a).2.

Lemma leads : coordinators "timer-coordinator" lead_b [("b"%string, 2); ("a"%string, 1)].
Proof.
  apply (coord_acquire "timer-coordinator" lead_a [("a"%string, 1)] "b" 20 10 (Ok (Some 2))); [|computed].
  apply (coord_acquire "timer-coordinator" empty_jobs [] "a" 0 10 (Ok (Some 1))); [by apply coord_start|computed].
Qed.

Lemma fencing_tokens_unique_witness :
  coordinators "timer-coordinator" lead_b [("b"%string, 2); ("a"%string, 1)]
  /\ grants_ordered [("b"%string, 2); ("a"%string, 1)]
  /\ (forall owner owner' token, (owner, token) ∈ [("b"%string, 2); ("a"%string, 1)] ->
        (owner', token) ∈ [("b"%string, 2); ("a"%string, 1)] -> owner = owner').
Proof. split; [apply leads|]. apply (fencing_tokens_unique "timer-coordinator" lead_b), leads. Defined.

(** ** Execution *)
Definition run_c (owner : string) : ExecuteTimerWorkCmd := mkExecute (RuntimeJob job_c) owner 0 true false.

Lemma executed_job_held_witness :
  job_to_execute (run_c "worker-2") job_c 100 sample_session = (Ok (Some (cas_data (sample_row "c"))), sample_session)
  /\ sample_session = sample_session
  /\ cas_data <$> js_jobs sample_session !! jb_timer_job_id job_c = Some (cas_data (sample_row "c"))
  /\ (needs_lock (run_c "worker-2") (cas_data (sample_row "c")) = true ->
      jb_lock_owner (cas_data (sample_row "c")) = Some "worker-2"%string).
Proof.
  assert (E : job_to_execute (run_c "worker-2") job_c 100 sample_session
              = (Ok (Some (cas_data (sample_row "c"))), sample_session)) by computed.
  split; [exact E|]. destruct (executed_job_held (run_c "worker-2") job_c 100 sample_session _ _ E) as (H1 & H2 & H3 & _).
  split_and!; assumption.
Defined.

Definition sample_env : JobEnv :=
  {| job_display := {| value_to_string _ := EmptyString; f64_to_string _ := EmptyString |};
     cycle_value _ _ := Ok None |}.
#[local] Existing Instance sample_env.
#[local] Instance silent : JobListeners := fun _ => mret tt.
#[local] Instance silent_quiet : QuietListeners.
Proof. by intros e s. Qed.

Definition executor : AsyncExecutorConfig := mkExecutorConfig 3 10000 300000.
Definition fail_b : RecordFailedTimerWorkCmd :=
  mkFailed (RuntimeJob job_b) (ExecutionError []) "boom" "ExecutionError" false AutomaticExecutor.

Lemma failure_recorded_witness :
  jobs_wf sample_session /\ js_jobs sample_session !! jb_timer_job_id job_b = Some (sample_row "b")
  /\ exists j' s',
    RecordFailedTimerWork_execute executor fail_b 100 "u" sample_session = (Ok tt, s')
    /\ failure_of executor fail_b None (Some 5) (cas_data (sample_row "b")) j'
    /\ cas_data <$> js_jobs s' !! jb_timer_job_id job_b = Some j'
    /\ (forall k, k <> jb_timer_job_id job_b -> js_jobs s' !! k = js_jobs sample_session !! k)
    /\ jobs_wf s'.
Proof.
  split_and!; [apply sample_wf|computed|].
  apply (failure_recorded executor fail_b job_b (sample_row "b") None (Some 5) 100 "u" sample_session);
    [reflexivity|apply sample_wf|computed..|]. vm_compute. split; intros E; discriminate E.
Defined.

Lemma retries_run_out_witness :
  jobs_wf sample_session /\ retries_left "b" 1 sample_session
  /\ Forall (retryable executor "b") [(fail_b, 100, "u"%string)]
  /\ exists s', fail_all executor [(fail_b, 100, "u"%string)] sample_session = (Ok tt, s') /\ jobs_wf s'
       /\ retries_left "b" 0 s'
       /\ (forall k, k <> "b"%string -> js_jobs s' !! k = js_jobs sample_session !! k)
       /\ ([(fail_b, 100, "u"%string)] <> [] -> length [(fail_b, 100, "u"%string)] = 1%nat ->
           dead "b" s'
           /\ forall states now r, js_jobs s' !! "b"%string = Some r -> ("deadletter"%string ∉ states) ->
                                   due_job states now (cas_data r) = false).
Proof.
  assert (H1 : retries_left "b" 1 sample_session) by (exists (sample_row "b"); split_and!; computed).
  assert (H2 : Forall (retryable executor "b") [(fail_b, 100, "u"%string)]).
  { apply Forall_cons; split; [|by apply Forall_nil]. split_and!; [by exists job_b|done|done|done]. }
  split_and!; [apply sample_wf|exact H1|exact H2|].
  apply (retries_run_out executor "b" 1 [(fail_b, 100, "u"%string)] sample_session); [done|apply sample_wf|exact H1|done|exact H2|done].
Defined.

Lemma offered_or_released_witness :
  jobs_wf sample_session /\ stored (js_jobs sample_session) [cas_data (sample_row "c")]
  /\ submit_acquired_jobs_with "worker-2" (fun _ _ => false) [cas_data (sample_row "c")] sample_session
     = (Ok (Rejected 0 1, None),
        set_jobs (update_rows unlocked_row ["c"%string] (js_jobs sample_session)) sample_session).
Proof.
  assert (Hs : stored (js_jobs sample_session) [cas_data (sample_row "c")]).
  { apply stored_cons. split_and!; [exists (sample_row "c"); split; computed|by apply not_elem_of_nil|].
    split; [by apply NoDup_nil|by apply Forall_nil]. }
  split_and!; [apply sample_wf|exact Hs|].
  apply (offered_or_released "worker-2" (fun _ _ => false) eq_refl [cas_data (sample_row "c")] sample_session);
    [apply sample_wf|exact Hs|]. apply Forall_cons; split; [computed|by apply Forall_nil].
Defined.

Close Scope Z_scope.

(** ** Jobs and locks: where the code falls short

    Runs of the modelled operations in which a lock does not protect what it
    should, or a job is passed over, changed or brought back by someone who does
    not hold it. *)

Open Scope Z_scope.

#[local] Existing Instance insertion_order.
#[local] Existing Instance sample_env.
#[local] Existing Instance silent.
#[local] Existing Instance silent_quiet.

(** The row limit of the acquisition query counts locked rows: two locked jobs
    that have been due longer hide a free one from an acquisition of one job. *)
Theorem locked_jobs_starve_free :
  let s := with_jobs [job "x" "async" 1 3 (Some "worker-2") (Some 500); job "y" "async" 2 3 (Some "worker-2") (Some 500);
                      job "z" "async" 3 3 None None] empty_jobs in
  eligible async_states 100 None None None s (cas_data (default (mkCas default_job ∅) (js_jobs s !! "z"%string))) = true
  /\ acquire_due_async_timer_jobs_filtered "worker-1" 100 60 1 None None s = (Ok ([], 0%nat, 0%nat), s).
Proof. split; computed. Qed.

(** A reset for some tenants stops at the first page of rows of other tenants:
    eight expired jobs of no tenant hide the expired job of tenant t. *)
Definition other_tenants : list RuntimeTimerJobState :=
  (fun id => job id "async" 1 3 (Some "worker-2") (Some 5)) <$> ["a1"; "a2"; "a3"; "a4"; "a5"; "a6"; "a7"; "a8"]%string.

Definition of_tenant : RuntimeTimerJobState :=
  mkJob "b1" "instance-t" "execution-1" "task" (Some "async"%string) false None false None None None None
    None (Some 1) (Some "worker-2"%string) (Some 0) (Some 5) (Some 3) None None None None None None None None None None None
    None None None None None true.

Definition tenants_session : JobSession :=
  with_jobs (other_tenants ++ [of_tenant])
    (mkJobSession false None ∅ ∅ ∅ ∅ ∅ {["instance-t"%string := mkInstance (Some "t"%string) "def" false]} ∅).

Theorem reset_stops_at_other_tenants :
  match reset_cycle 20 (fun _ => 100) (mkResetConfig 1 all_expired_classes ["t"%string] []) tenants_session with
  | (r, s') => (r, jb_lock_owner ∘ cas_data <$> js_jobs s' !! "b1"%string)
  end = (Ok (Some 0%nat), Some (Some "worker-2"%string)).
Proof. computed. Qed.

(** The conditional update of an acquisition checks only that the row is free:
    a worker that selected a job before another worker ran it out of retries
    takes it back out of the dead letters, and leaves columns and job in
    disagreement. *)
Theorem stale_acquisition_revives :
  match RecordFailedTimerWork_execute executor fail_b 100 "u" sample_session with
  | (Ok _, s1) =>
      let '(affected, s2) := lock_candidate "worker-1" 101 60 (cas_data (sample_row "b")) s1 in
      (jb_job_state ∘ cas_data <$> js_jobs s1 !! "b"%string, affected,
       jb_job_state ∘ cas_data <$> js_jobs s2 !! "b"%string, jb_retries ∘ cas_data <$> js_jobs s2 !! "b"%string,
       js_jobs s2 !! "b"%string ≫= fun r => cas_cells r !! "retries"%string)
  | _ => (None, Ok 0%nat, None, None, None)
  end
  = (Some (Some "deadletter"%string), Ok 1%nat, Some (Some "async"%string), Some (Some 1), Some (DbInteger 0)).
Proof. computed. Qed.

(** Recording a failure does not ask who holds the job: worker 2's lock on c goes
    with the failure another worker records. *)
Definition fail_c : RecordFailedTimerWorkCmd :=
  mkFailed (RuntimeJob (with_lock (Some "worker-9"%string) (Some 0) (Some 20) job_c)) (ExecutionError []) "boom" "ExecutionError"
    false AutomaticExecutor.

Theorem failure_takes_others_lock :
  match RecordFailedTimerWork_execute executor fail_c 100 "u" sample_session with
  | (r, s') => (jb_lock_owner ∘ cas_data <$> js_jobs sample_session !! "c"%string, r,
                jb_lock_owner ∘ cas_data <$> js_jobs s' !! "c"%string)
  end = (Some (Some "worker-2"%string), Ok tt, Some None).
Proof. computed. Qed.

(** ... and brings a job back that was completed and deleted meanwhile. *)
Theorem failure_brings_back_deleted :
  let gone := (delete_timer_job_state "c" sample_session).2 in
  match RecordFailedTimerWork_execute executor fail_c 100 "u" gone with
  | (r, s') => (js_jobs gone !! "c"%string, r, jb_retries ∘ cas_data <$> js_jobs s' !! "c"%string)
  end = (None, Ok tt, Some (Some 2)).
Proof. computed. Qed.

(** A worker that is turned away because another one holds the job clears the
    lock of the process instance, which is the other's. *)
Theorem turned_away_worker_unlocks_instance cmd timer now s r :
  js_closed s = false ->
  ew_direct_hint cmd = false -> ew_require_acquired_lock cmd = true ->
  ew_fencing_token cmd = 0 -> timer_work_is_async_job (ew_work cmd) = true ->
  js_jobs s !! jb_timer_job_id timer = Some r -> is_history_job (cas_data r) = false ->
  jb_lock_owner (cas_data r) <> Some (ew_owner_id cmd) ->
  jb_exclusive (cas_data r) = true -> jb_process_instance_id (cas_data r) <> EmptyString ->
  exists s', job_to_execute cmd timer now s = (Ok None, s')
             /\ js_instance_locks s' !! jb_process_instance_id (cas_data r) = None.
Proof.
  intros Ho Hd Hq Ht Ha Hr Hh Hl Hx Hp. unfold job_to_execute, coordinator_allows.
  rewrite Hd, Hq, Ht, Ha. cbn [negb orb andb Z.eqb].
  rewrite (bind_ok _ _ _ _ _ (eq_refl : (mret true : JM bool) s = (Ok true, s))).
  rewrite (bind_ok _ _ _ _ _ (find_timer_job_state_open _ _ Ho)), Hr. simpl.
  rewrite Hh, bool_decide_eq_false_2 by done. cbn [negb andb].
  unfold give_up_scope. rewrite Hx. destruct (String.eqb_spec (jb_process_instance_id (cas_data r)) EmptyString); [done|].
  cbn [negb andb]. rewrite (bind_ok _ _ _ _ _ (clear_instance_lock_open _ _ Ho)). eexists. split; [done|].
  simpl. by rewrite lookup_delete_eq.
Qed.

(** The manager believes its own flag: after its lease is over and another
    manager holds the lock, it still reports the lock as acquired. *)
Theorem flag_outlives_lease :
  let a := mkLockConfig "lock" "a" 10 in
  let b := mkLockConfig "lock" "b" 10 in
  let '(r1, (flag_a, s)) := try_acquire a 0 (false, empty_jobs) in
  let '(r2, (flag_b, s)) := try_acquire b 20 (false, s) in
  let '(r3, _) := try_acquire a 21 (flag_a, s) in
  (r1, r2, r3) = (Ok true, Ok true, Ok true) /\ fst <$> js_properties s !! "lock"%string = Some "b|20|30"%string.
Proof. vm_compute. split; reflexivity. Qed.

(** An owner whose name holds the separator writes a lock nobody can read: no
    owner, the writer included, acquires or releases it again, at any time. *)
Theorem separator_in_owner_jams_lock owner now lease :
  let s := (try_acquire_property_lock "lock" "node|1" 0 10 empty_jobs).2 in
  try_acquire_property_lock "lock" owner now lease s
  = (Err (StorageStop (CorruptGlobalLockValue "lock" "node|1|0|10")), s)
  /\ release_property_lock "lock" owner s = (Ok false, s).
Proof. split; computed. Qed.

(** A renewal is conditional on the owner alone: a renewal that read the lease
    before it changed hands writes the old fencing token back. *)
Theorem stale_renewal_lowers_token :
  let lease := "timer-coordinator"%string in
  let found := cas_data <$> js_leases lead_a !! lease in
  let s := (release_coordinator_lease lease "b" 2 25 lead_b).2 in
  let '(r1, s) := acquire_coordinator_lease lease "a" 26 10 s in
  let '(r2, s) := coordinate_after_read lease "a" 5 10 15 found s in
  (r1, r2, ls_fencing_token ∘ cas_data <$> js_leases s !! lease) = (Ok (Some 4), Ok (Some 1), Some 1).
Proof. computed. Qed.

(** A number that does not fit 32 bits reads as zero: a retry cycle of almost
    seventy years of seconds retries at once. *)
Theorem long_delay_is_none :
  parse_failed_job_retry_cycle "R3/PT2147483648S" = Ok (Some (mkCycle 3 0))
  /\ parse_failed_job_retry_cycle "R3/PT2147483647S" = Ok (Some (mkCycle 3 2147483647000)).
Proof. split; computed. Qed.

Close Scope Z_scope.
