(* ===== verification/EngineSafety.v ===== *)
(** * The token flow keeps its context sound

    A small program logic for the handlers of the token flow: [keeps ids m out]
    says that [m], given tokens whose ids may be written, leaves a sound context
    whether it succeeds or fails, and that the tokens it returns may be written.
    With it: leaving an activity, both gateways and the end-of-command scan keep
    the store well formed and the agenda on usable tokens. *)
From S2P Require Import Prelude Json Errors BpmnModel FlowElements Execution Store EventDispatcher Context FlowSelection Variables Listeners ExecutionGraph Compensation ParallelGateway InclusiveGateway TakeOutgoing.

Definition op_token (op : AgendaOperation) : Execution :=
  match op with ContinueProcess e | TakeOutgoingSequenceFlows e => e end.

(** States that contain a context, with what else must hold of them. *)
Class HasContext `{Env} (S : Type) := {
  context_of : S -> CommandContext;
  rest_wf : S -> Prop
}.
#[export] Instance context_itself `{Env} : HasContext CommandContext :=
  {| context_of c := c; rest_wf _ := True |}.

Section Logic.
Context {env : Env}.

(** The store is well formed, and what is planned may be written. *)
Definition sound (c : CommandContext) : Prop :=
  context_wf c /\ Forall (fun op => usable c (ex_id (op_token op))) (cc_agenda c).

Definition leaves {A} (c : CommandContext) (r : result Failure A) (c' : CommandContext) (out : A -> list string) : Prop :=
  sound c' /\ cc_uuids c <= cc_uuids c' /\ match r with Ok a => Forall (usable c') (out a) | Err _ => True end.

Definition keeps {S A} {ctx : HasContext S} (ids : list string) (m : stM S Failure A) (out : A -> list string) : Prop :=
  forall s, sound (context_of s) -> rest_wf s -> Forall (usable (context_of s)) ids ->
    let '(r, s') := m s in rest_wf s' /\ leaves (context_of s) r (context_of s') out.

Definition nothing {A} (_ : A) : list string := [].

Lemma usable_grows c c' i : cc_uuids c <= cc_uuids c' -> usable c i -> usable c' i.
Proof. intros Hle [Hp Hu]. split; [done|]. intros n Hn. apply Hu. lia. Qed.

Lemma usable_all_grow c c' ids : cc_uuids c <= cc_uuids c' -> Forall (usable c) ids -> Forall (usable c') ids.
Proof. intros Hle H. eapply Forall_impl; [exact H|]. intros i. by apply usable_grows. Qed.

Section Rules.
Context {S : Type} {ctx : HasContext S}.

Lemma keeps_then {A B} ids (m : stM S Failure A) (k : A -> stM S Failure B) mid out :
  keeps ids m mid -> (forall a, keeps (mid a ++ ids) (k a) out) -> keeps ids (m ≫= k) out.
Proof.
  intros Hm Hk c Hc Hw Hi. unfold mbind, stM_bind. specialize (Hm c Hc Hw Hi).
  destruct (m c) as [[a|e] c1]; [|done]. destruct Hm as (H0 & H1 & H2 & H3).
  specialize (Hk a c1 H1 H0). destruct (k a c1) as [r c2]. destruct Hk as (H4 & H5 & H6 & H7).
  { apply Forall_app. split; [done|]. by eapply usable_all_grow. }
  split; [done|]. split_and!; [done|lia|done].
Qed.

Lemma keeps_weaken {A} ids ids' (m : stM S Failure A) out out' :
  keeps ids m out -> ids ⊆ ids' -> (forall a, out' a ⊆ out a ++ ids') -> keeps ids' m out'.
Proof.
  intros Hm Hs Ho c Hc Hw Hi. specialize (Hm c Hc Hw). destruct (m c) as [r c'].
  destruct Hm as (H0 & H1 & H2 & H3). { rewrite Forall_forall in *. auto. }
  split; [done|]. split_and!; [done|done|]. destruct r as [a|]; [|done].
  apply (usable_all_grow _ (context_of c')) in Hi; [|done]. rewrite Forall_forall in *. intros i Hin.
  apply Ho, elem_of_app in Hin as [?|?]; auto.
Qed.

Lemma keeps_pure {A} ids (r : result Failure A) out :
  (forall a, r = Ok a -> out a ⊆ ids) -> keeps ids (lift r) out.
Proof.
  intros Hr c Hc Hw Hi. simpl. split; [done|]. split_and!; [done|lia|]. destruct r as [a|]; [|done].
  rewrite Forall_forall in *. intros i Hin. by apply Hi, (Hr a).
Qed.

Lemma keeps_return {A} ids (a : A) out : out a ⊆ ids -> keeps ids (mret a) out.
Proof. intros Hs. apply (keeps_pure ids (Ok a)). by intros ? [= ->]. Qed.

Lemma keeps_throw {A} ids (e : Failure) (out : A -> list string) : keeps ids (throw e) out.
Proof. by apply (keeps_pure ids (Err e)). Qed.

Lemma keeps_for_each {A} ids (l : list A) body :
  (forall a, a ∈ l -> keeps ids (body a) nothing) -> keeps ids (for_each l body) nothing.
Proof.
  induction l as [|a l IH]; intros Hb; simpl; [apply keeps_return; set_solver|].
  apply keeps_then with (mid := nothing); [apply Hb; left|]. intros ?. apply IH. intros x Hx. apply Hb. by right.
Qed.

Lemma keeps_get {A} ids (k : S -> stM S Failure A) out :
  (forall c, keeps ids (k c) out) -> keeps ids (get ≫= k) out.
Proof. intros Hk c. apply (Hk c c). Qed.
End Rules.

Lemma keeps_engine {A} ids (m : EngineM A) out :
  (forall c, sound c -> Forall (usable c) ids -> let '(r, c') := m c in leaves c r c' out) -> keeps ids m out.
Proof. intros Hm c Hc _ Hi. specialize (Hm c Hc Hi). by destruct (m c). Qed.

(** *** Primitives *)
Lemma sound_change c c' :
  context_wf c' -> cc_agenda c' = cc_agenda c -> cc_uuids c <= cc_uuids c' -> sound c -> sound c'.
Proof.
  intros Hwf Ha Hu [_ Hs]. split; [done|]. rewrite Ha. eapply Forall_impl; [exact Hs|].
  intros op. by apply usable_grows.
Qed.

Lemma keeps_write ids e :
  ex_id e ∈ ids -> keeps ids (entity_insert e) nothing.
Proof.
  intros Hin. apply keeps_engine. intros c Hc Hi. rewrite Forall_forall in Hi. rewrite entity_insert_eq by apply Hc.
  split_and!; [|done|apply Forall_nil_2]. apply (sound_change c); [|done|done|done].
  apply write_ctx_wf; [apply Hc|auto].
Qed.

Lemma keeps_update ids e : ex_id e ∈ ids -> keeps ids (entity_update e) nothing.
Proof. apply keeps_write. Qed.

Lemma keeps_delete ids i : keeps ids (entity_delete i) nothing.
Proof.
  apply keeps_engine. intros c Hc Hi. rewrite entity_delete_eq by apply Hc. split_and!; [|done|apply Forall_nil_2].
  apply (sound_change c); [|done|done|done]. apply erase_ctx_wf, Hc.
Qed.

Definition found_ids (o : option Execution) : list string := match o with Some e => [ex_id e] | None => [] end.

Lemma keeps_find ids i : keeps ids (entity_find_by_id i) found_ids.
Proof.
  apply keeps_engine. intros c Hc Hi. rewrite entity_find_eq by apply Hc. split_and!; [done|done|].
  destruct (tokens c !! i) as [e|] eqn:E; [|apply Forall_nil_2]. repeat constructor.
  - rewrite (token_key c i e); [|apply Hc|done]. by eapply token_usable; [apply Hc|].
  - rewrite (token_key c i e); [|apply Hc|done]. by eapply token_usable; [apply Hc|].
Qed.

Definition map_ids (m : gmap string Execution) : list string := ex_id <$> (map_to_list m).*2.

Lemma map_ids_elem m k e : m !! k = Some e -> ex_id e ∈ map_ids m.
Proof.
  intros Hk. apply list_elem_of_fmap. exists e. split; [done|]. apply list_elem_of_fmap. exists (k, e).
  split; [done|]. by apply elem_of_map_to_list.
Qed.

Lemma keeps_snapshot ids : keeps ids snapshot map_ids.
Proof.
  apply keeps_engine. intros c Hc Hi. rewrite snapshot_eq by apply Hc. split_and!; [done|done|].
  apply Forall_forall. intros i (e & -> & ([k e'] & -> & Hk)%list_elem_of_fmap)%list_elem_of_fmap.
  apply elem_of_map_to_list in Hk. simpl. rewrite (token_key c k e'); [|apply Hc|done].
  by eapply token_usable; [apply Hc|].
Qed.

Lemma keeps_plan ids op : ex_id (op_token op) ∈ ids -> keeps ids (plan_operation op) nothing.
Proof.
  intros Hin. apply keeps_engine. intros c Hc Hi. rewrite Forall_forall in Hi. simpl. split_and!; [|done|apply Forall_nil_2].
  split; [apply (plan_ctx_wf op), Hc|]. simpl. apply Forall_app. split; [apply Hc|].
  repeat constructor; by apply (Hi _ Hin).
Qed.

Lemma keeps_uuid `{!UuidLaws} ids : keeps ids uuid_new_v4 (fun u => [u]).
Proof.
  apply keeps_engine. intros c Hc Hi. simpl. assert (Hd : usable (draw_ctx c) (new_v4 (cc_uuids c))) by apply draw_usable.
  split_and!; [|simpl; lia|by constructor]. apply (sound_change c); [|done|simpl; lia|done]. apply (draw_ctx_wf c), Hc.
Qed.

Lemma keeps_event ids ev : keeps ids (add_post_agenda_event ev) nothing.
Proof.
  apply keeps_engine. intros c [[H1 H2 H3] Ha] Hi. simpl. split_and!; [|done|apply Forall_nil_2]. split; [by split|done].
Qed.

Lemma keeps_history ids i a : keeps ids (history_activity_end i a) nothing.
Proof.
  apply keeps_engine. intros c [[H1 H2 H3] Ha] Hi. unfold history_activity_end.
  destruct (record_activity_end i a (cc_history c)) as [r h]. simpl.
  split_and!; [|done|destruct r; [apply Forall_nil_2|done]]. split; [by split|done].
Qed.

Lemma keeps_involved ids : keeps ids take_involved nothing.
Proof.
  apply keeps_engine. intros c [[[H1 H2] H3 H4] Ha] Hi. simpl. split_and!; [|done|apply Forall_nil_2].
  split; [by split; [split| |]|done].
Qed.

Lemma keeps_on_db ids f :
  (forall s, live s -> store_wf s -> store_wf (f s) /\ live (f s) /\ view (f s) = view s) ->
  keeps ids (on_db f) nothing.
Proof.
  intros Hf. apply keeps_engine. intros c [[[H1 H2] H3 H4] Ha] Hi. destruct (Hf _ H3 H1) as (F1 & F2 & F3). simpl.
  split_and!; [|done|apply Forall_nil_2]. split; [|done]. split; [split; [done|]|done|].
  - simpl. by rewrite F3.
  - intros n Hn. unfold tokens. simpl. rewrite F3. by apply H4.
Qed.

Lemma keeps_attempt {A} ids (r : result FlowableError A) out :
  (forall a, r = Ok a -> out a ⊆ ids) -> keeps ids (attempt r) out.
Proof. intros Hr. apply keeps_pure. intros a Ha. apply Hr. destruct r; [by injection Ha as ->|done]. Qed.

Lemma keeps_terminating {A} ids (o : option A) out :
  (forall a, o = Some a -> out a ⊆ ids) -> keeps ids (terminating o) out.
Proof. intros Hr. apply keeps_pure. intros a Ha. apply Hr. destruct o; [by injection Ha as ->|done]. Qed.
End Logic.

Create HintDb keeps discriminated.

(** Ids at hand. *)
Ltac usable_ids := simpl; set_solver.

(** One step of a handler; the rest is left with the ids it may now write. *)
Ltac keep_step :=
  lazymatch goal with
  | |- keeps _ (get ≫= _) _ => apply keeps_get; intros ?
  | |- keeps _ (_ ≫= _) _ => eapply keeps_then; [solve [keep_prim]|intros ?; cbv beta]
  | |- keeps _ (mret _) _ => apply keeps_return; usable_ids
  | |- keeps _ (throw _) _ => apply keeps_throw
  | |- keeps _ (match ?x with _ => _ end) _ => destruct x eqn:?
  | |- keeps _ (if ?x then _ else _) _ => destruct x eqn:?
  | |- keeps _ _ _ => keep_prim
  end
with keep_prim :=
  first
  [ apply keeps_update; usable_ids | apply keeps_write; usable_ids | apply keeps_delete | apply keeps_find
  | apply keeps_snapshot | apply keeps_plan; usable_ids | apply keeps_uuid | apply keeps_event
  | apply keeps_history | apply keeps_involved
  | solve [eauto with keeps]
  | apply keeps_return; usable_ids | apply keeps_throw ].

Ltac keep := repeat keep_step.

Section Handlers.
Context {env : Env} {uuids : UuidLaws}.

Lemma keeps_collect_loop ids fuel all i : keeps ids (collect_loop fuel all i) nothing.
Proof.
  revert all i ids. induction fuel as [|fuel IH]; intros all i ids; [apply keeps_throw|]. simpl.
  destruct i as [i|]; [|apply keeps_return; usable_ids]. eapply keeps_then; [apply keeps_find|].
  intros [x|]; [apply IH|apply keeps_return; usable_ids].
Qed.
#[local] Hint Resolve keeps_collect_loop : keeps.

Lemma keeps_variables ids i : keeps ids (collect_execution_variables i) nothing.
Proof. unfold collect_execution_variables. keep. Qed.
#[local] Hint Resolve keeps_variables : keeps.

Lemma keeps_evaluation ids e : keeps ids (evaluation_execution e) nothing.
Proof.
  unfold evaluation_execution. eapply keeps_then with (mid := nothing).
  - destruct (ex_parent_id e); [apply keeps_variables|apply keeps_return; usable_ids].
  - intros ?. keep.
Qed.
#[local] Hint Resolve keeps_evaluation : keeps.

Lemma keeps_scope_variables ids e : keeps ids (snapshot_scope_variables e) nothing.
Proof. unfold snapshot_scope_variables. keep. Qed.
#[local] Hint Resolve keeps_scope_variables : keeps.

Lemma keeps_complete ids e a : keeps ids (complete_activity e a) nothing.
Proof. unfold complete_activity, dispatch_activity_completed. keep. Qed.
#[local] Hint Resolve keeps_complete : keeps.

Lemma keeps_subscription ids sub : keeps ids (on_db (insert_compensation_subscription sub)) nothing.
Proof.
  apply keeps_on_db. intros s [Hc He] Hs. unfold insert_compensation_subscription.
  rewrite insert_with_extra_live by done. simpl. split_and!; [by destruct Hs; split|done|done].
Qed.

Lemma keeps_boundary_state ids b pi : keeps ids (on_db (delete_boundary_event_state b pi)) nothing.
Proof.
  apply keeps_on_db. intros s [Hc He] Hs. unfold delete_boundary_event_state, session_delete, ensure_open.
  rewrite Hc. simpl. split_and!; [by destruct Hs; split|done|done].
Qed.

Lemma keeps_subscribe ids p e a : keeps ids (subscribe_compensation p e a) nothing.
Proof.
  apply keeps_for_each. intros b _. unfold subscribe_boundary.
  destruct (ev_event_definitions _) as [|[] []]; try (apply keeps_return; usable_ids).
  eapply keeps_then; [apply keeps_scope_variables|intros ?].
  eapply keeps_then; [apply keeps_uuid|intros ?]. apply keeps_subscription.
Qed.
#[local] Hint Resolve keeps_subscribe : keeps.

Lemma keeps_delete_or_preserve ids e :
  ex_id e ∈ ids -> keeps ids (delete_or_preserve_scope_execution e) nothing.
Proof. intros Hin. unfold delete_or_preserve_scope_execution. keep. Qed.

Lemma keeps_resume ids e p parent : keeps ids (resume_cancelled_transaction e p parent) nothing.
Proof.
  unfold resume_cancelled_transaction. eapply keeps_then; [apply keeps_snapshot|intros all].
  destruct (existsb _ _); [apply keeps_return; usable_ids|].
  destruct (all !! parent) as [pe|]; [|apply keeps_return; usable_ids].
  destruct (ex_parent_id pe) as [g|]; [|apply keeps_return; usable_ids].
  destruct (all !! g) as [ge|] eqn:Hg; [|apply keeps_return; usable_ids]. apply map_ids_elem in Hg.
  destruct (ex_activity_id ge) as [tx|]; [|apply keeps_return; usable_ids].
  destruct (find_cancel_boundary_id _ tx) as [b|]; [|apply keeps_return; usable_ids].
  eapply keeps_then with (mid := nothing).
  - destruct (or_else _ _); [apply keeps_boundary_state|apply keeps_return; usable_ids].
  - intros ?. keep.
Qed.
#[local] Hint Resolve keeps_resume : keeps.

Lemma keeps_end_token ids e p a : keeps ids (end_token e p a) nothing.
Proof. unfold end_token. keep. Qed.
#[local] Hint Resolve keeps_end_token : keeps.

(** *** Gateways *)
Lemma keeps_merge ids waiting e g scope : keeps ids (merge_tokens waiting e g scope) nothing.
Proof.
  unfold merge_tokens. eapply keeps_then; [apply keeps_for_each; intros w _; apply keeps_delete|intros ?]. keep.
Qed.

Lemma keeps_inclusive ids e : ex_id e ∈ ids -> keeps ids (inclusive_gateway_execute e) nothing.
Proof.
  intros Hin. unfold inclusive_gateway_execute.
  destruct (ex_activity_id e) as [a|]; [|apply keeps_return; usable_ids].
  destruct (ex_process_definition_id e); [|apply keeps_return; usable_ids].
  destruct (get_bpmn_model _) as [m|]; [|apply keeps_return; usable_ids].
  destruct (bm_main_process m) as [p|]; [|apply keeps_return; usable_ids].
  destruct (find_flow_element p a) as [el|]; [|apply keeps_return; usable_ids]. cbv zeta.
  destruct (Nat.ltb 1 _); [|unfold plan_take_outgoing_sequence_flows_operation; keep].
  eapply keeps_then; [apply keeps_update; usable_ids|intros ?].
  eapply keeps_then; [apply keeps_snapshot|intros all].
  eapply keeps_then with (mid := nothing); [apply keeps_terminating; usable_ids|intros [|]].
  - apply keeps_return; usable_ids.
  - apply keeps_merge.
Qed.

Lemma keeps_mi_parent ids fuel p i : keeps ids (mi_parent_loop fuel p i) nothing.
Proof.
  revert i ids. induction fuel as [|fuel IH]; intros i ids; [apply keeps_throw|]. simpl.
  destruct i as [i|]; [|apply keeps_return; usable_ids]. eapply keeps_then; [apply keeps_find|].
  intros [x|]; [|apply keeps_return; usable_ids]. destruct (ex_is_multi_instance_root x); [apply keeps_return; usable_ids|].
  destruct (match ex_activity_id x with Some _ => _ | None => _ end); [apply keeps_return; usable_ids|apply IH].
Qed.

Lemma keeps_fork ids p e scope flow : keeps ids (fork_flow p e scope flow) nothing.
Proof. unfold fork_flow, plan_continue_process_operation. keep. Qed.

Lemma keeps_parallel ids e : ex_id e ∈ ids -> keeps ids (parallel_gateway_execute e) nothing.
Proof.
  intros Hin. unfold parallel_gateway_execute.
  destruct (ex_activity_id e) as [a|]; [|apply keeps_return; usable_ids].
  destruct (ex_process_definition_id e); [|apply keeps_return; usable_ids].
  destruct (get_bpmn_model _) as [m|]; [|apply keeps_return; usable_ids].
  destruct (bm_main_process m) as [p|]; [|apply keeps_return; usable_ids].
  destruct (find_flow_element p a) as [el|]; [|apply keeps_return; usable_ids].
  destruct (gateway_flows el) as [[inc out]|]; [|apply keeps_return; usable_ids]. cbv zeta.
  eapply keeps_then with (mid := nothing).
  - destruct (Nat.ltb 1 _).
    + eapply keeps_then; [apply keeps_update; usable_ids|intros ?].
      eapply keeps_then; [apply keeps_snapshot|intros all].
      eapply keeps_then with (mid := nothing); [apply keeps_terminating; usable_ids|intros mi].
      eapply keeps_then with (mid := nothing).
      * destruct mi; [|apply keeps_return; usable_ids]. unfold find_multi_instance_parent_execution.
        eapply keeps_then with (mid := nothing); [apply keeps_get; intros ?; apply keeps_mi_parent|].
        intros [x|]; [apply keeps_terminating; usable_ids|apply keeps_return; usable_ids].
      * intros w. destruct (Nat.ltb _ _); [apply keeps_return; usable_ids|].
        eapply keeps_then; [apply keeps_for_each; intros x _; apply keeps_delete|intros ?].
        eapply keeps_then; [apply keeps_delete_or_preserve; usable_ids|intros ?]. apply keeps_return; usable_ids.
    + eapply keeps_then; [apply keeps_delete_or_preserve; usable_ids|intros ?]. apply keeps_return; usable_ids.
  - intros [|]; [|apply keeps_return; usable_ids]. apply keeps_for_each. intros f _. apply keeps_fork.
Qed.

(** *** The scan of parked joins *)
Lemma keeps_scan_tokens ids g all todo b hg : keeps ids (scan_tokens g all todo b hg) nothing.
Proof.
  revert ids b hg. induction todo as [|w todo IH]; intros ids b hg; simpl; [apply keeps_return; usable_ids|].
  destruct g as [[pi p] joins]. destruct (parked_at pi joins w) as [a|]; [|apply IH].
  destruct (bool_decide _); [apply IH|]. eapply keeps_then with (mid := nothing); [apply keeps_terminating; usable_ids|].
  intros [|]; [apply IH|]. eapply keeps_then; [apply keeps_merge|intros ?; apply IH].
Qed.

Lemma keeps_scan_instances ids all gated b hg : keeps ids (scan_instances all gated b hg) nothing.
Proof.
  revert ids b hg. induction gated as [|g gated IH]; intros ids b hg; simpl; [apply keeps_return; usable_ids|].
  eapply keeps_then; [apply keeps_scan_tokens|intros [b' hg']; apply IH].
Qed.

Lemma keeps_inactive_joins ids : keeps ids execute_inactive_inclusive_joins nothing.
Proof.
  unfold execute_inactive_inclusive_joins. eapply keeps_then; [apply keeps_involved|intros involved].
  destruct (bool_decide _); [apply keeps_return; usable_ids|].
  destruct (omap gate_instance _) as [|g gated]; [apply keeps_return; usable_ids|].
  eapply keeps_then; [apply keeps_snapshot|intros all]. apply keeps_scan_instances.
Qed.

End Handlers.

#[export] Hint Resolve keeps_evaluation keeps_complete keeps_subscribe keeps_end_token : keeps.

(** *** Leaving an activity *)
Section Leaving.
Context {env : Env} {uuids : UuidLaws} {adhoc : AdhocCompletion}.
Hypothesis listeners_ok : listeners_keep_identity.
Hypothesis adhoc_ok : forall ids e, ex_id e ∈ ids -> keeps ids (try_auto_complete_adhoc_after_child_leave e) nothing.

Lemma keeps_listeners ids e ls ev x :
  ex_id e ∈ ids -> keeps ids (attempt (execute_execution_listeners e ls ev x)) (fun y => [ex_id y]).
Proof.
  intros Hin. apply keeps_attempt. intros y Hy. apply (listeners_identity _ _ _ _ _ listeners_ok) in Hy as (-> & _).
  set_solver.
Qed.

Lemma keeps_fire_flow ids e f i :
  ex_id e ∈ ids -> keeps ids (fire_sequence_flow_listeners e f i) (fun y => [ex_id y]).
Proof.
  intros Hin. unfold fire_sequence_flow_listeners. destruct (fe_execution_listeners _); [apply keeps_return; usable_ids|].
  eapply keeps_then; [apply keeps_evaluation|intros ev].
  do 3 (eapply keeps_then; [apply keeps_listeners; usable_ids|intros ?]). apply keeps_return; usable_ids.
Qed.

Lemma keeps_schedule ids e f : ex_id e ∈ ids -> keeps ids (schedule_sequence_flow e f) nothing.
Proof.
  intros Hin. unfold schedule_sequence_flow. destruct (sf_target_ref f); [|apply keeps_return; usable_ids].
  eapply keeps_then; [by apply keeps_fire_flow|intros y]. keep.
Qed.

Lemma keeps_spawn ids parent e f b : keeps ids (spawn_under parent e f b) nothing.
Proof.
  unfold spawn_under. destruct (sf_target_ref f); [|apply keeps_return; usable_ids].
  eapply keeps_then; [apply keeps_uuid|intros u]. eapply keeps_then; [apply keeps_fire_flow; usable_ids|intros y]. keep.
Qed.
#[local] Hint Resolve keeps_spawn : keeps.

Lemma keeps_fire_end ids e : ex_id e ∈ ids -> keeps ids (fire_end_listeners e) (fun y => [ex_id y]).
Proof.
  intros Hin. unfold fire_end_listeners. destruct (ex_activity_id e); [|apply keeps_return; usable_ids].
  destruct (resolve_element e s) as [[p el]|]; [|apply keeps_return; usable_ids].
  eapply keeps_then; [apply keeps_evaluation|intros ev].
  eapply keeps_then; [apply keeps_listeners; usable_ids|intros y]. keep.
Qed.

Lemma keeps_split_inclusive ids e flows : ex_id e ∈ ids -> keeps ids (split_inclusive e flows) nothing.
Proof.
  intros Hin. unfold split_inclusive. eapply keeps_then; [by apply keeps_delete_or_preserve|intros ?].
  apply keeps_for_each. intros [f b] _. apply keeps_spawn.
Qed.

Lemma keeps_split_several ids e flows : ex_id e ∈ ids -> keeps ids (split_several e flows) nothing.
Proof.
  intros Hin. unfold split_several. eapply keeps_then with (mid := nothing).
  - destruct (ex_is_scope e); keep.
  - intros ?. apply keeps_for_each. intros [f b] _. apply keeps_spawn.
Qed.

Lemma keeps_after_leave ids b e : ex_id e ∈ ids -> keeps ids (after_leave b e) nothing.
Proof. intros Hin. unfold after_leave. destruct b; [by apply adhoc_ok|apply keeps_return; usable_ids]. Qed.

Lemma keeps_take_outgoing ids e : ex_id e ∈ ids -> keeps ids (take_outgoing_run e) nothing.
Proof.
  intros Hin. unfold take_outgoing_run. eapply keeps_then; [by apply keeps_fire_end|intros x].
  destruct (ex_activity_id x) as [a|]; [|apply keeps_return; usable_ids].
  eapply keeps_then; [apply keeps_complete|intros ?].
  destruct (ex_process_definition_id x); [|apply keeps_return; usable_ids].
  destruct (get_bpmn_model _) as [m|]; [|apply keeps_return; usable_ids].
  destruct (bm_main_process m) as [p|]; [|apply keeps_return; usable_ids].
  eapply keeps_then; [apply keeps_subscribe|intros ?].
  destruct (find_flow_element p a) as [el|]; [|apply keeps_return; usable_ids]. cbv zeta.
  destruct (get_outgoing_flows el) as [out|]; [|apply keeps_return; usable_ids].
  eapply keeps_then; [apply keeps_evaluation|intros ev].
  eapply keeps_then with (mid := nothing); [apply keeps_attempt; usable_ids|intros [[|[f b] [|fb fl]]|flows]].
  - destruct (is_start_event el); [apply keeps_return; usable_ids|].
    eapply keeps_then; [apply keeps_end_token|intros ?; apply keeps_after_leave; usable_ids].
  - eapply keeps_then; [apply keeps_schedule; usable_ids|intros ?; apply keeps_after_leave; usable_ids].
  - eapply keeps_then; [apply keeps_split_several; usable_ids|intros ?; apply keeps_after_leave; usable_ids].
  - eapply keeps_then; [apply keeps_split_inclusive; usable_ids|intros ?; apply keeps_after_leave; usable_ids].
Qed.

End Leaving.
