(* ===== verification/WaitStates.v ===== *)
(** * What a token waits for

    The operations of [flowable-engine/src/persistence/runtime_store.rs] on
    tasks, event wait states, boundary event states and the subscriptions of
    event sub-processes, as the token flow uses them: the tables of one
    session ([WaitTables] and [boundary_event_states] of [Store]).  A failed
    query is noted on the session and read as no row. *)
From S2P Require Import Prelude Json Errors BpmnModel Execution Store Context EngineSafety.

Definition or_noted {A} (nothing_found : A) (r : result StorageError A) (s : DbSession) : A * DbSession :=
  match r with Ok a => (a, s) | Err error => (nothing_found, note_write_error error s) end.

(** ** Tasks *)
Definition find_task_by_execution_id (execution_id : string) (s : DbSession) : option Task * DbSession :=
  let '(found, s) := or_noted [] (session_find_by tasks "execution_id" execution_id s) s in (head found, s).

Definition delete_task (id : string) (s : DbSession) : DbSession := (session_delete tasks id s).2.

(** ** Event wait states *)
Definition subscription_kind_text (k : EventSubscriptionKind) : string :=
  match k with
  | KindMessage => "message" | KindSignal => "signal" | KindConditional => "conditional" | KindError => "error"
  | KindCancel => "cancel" | KindCompensate => "compensate" | KindEscalation => "escalation"
  | KindEventRegistry => "event-registry"
  end.

Definition delete_event_subscriptions_by_execution_id (execution_id : string) (s : DbSession) : DbSession :=
  (session_delete_by event_subscriptions "execution_id" execution_id s).2.

Definition find_event_wait_state_by_execution_id (execution_id : string) (s : DbSession)
  : option RuntimeEventWaitState * DbSession :=
  or_noted None (session_find event_wait_states execution_id s) s.

Definition delete_event_wait_state_by_execution_id (execution_id : string) (s : DbSession) : DbSession :=
  (session_delete event_wait_states execution_id (delete_event_subscriptions_by_execution_id execution_id s)).2.

(** ** Boundary event states *)
Definition insert_boundary_event_state (state : RuntimeBoundaryEventState) (s : DbSession) : DbSession :=
  let key := String.append (bs_process_instance_id state) (String.append ":" (bs_boundary_event_id state)) in
  (insert_with_extra boundary_event_states key state
     [("process_instance_id", Some (bs_process_instance_id state));
      ("host_execution_id", Some (bs_host_execution_id state))] s).2.

Definition delete_boundary_event_states_by_host_execution_id (host_execution_id : string) (s : DbSession) : DbSession :=
  (session_delete_by boundary_event_states "host_execution_id" host_execution_id s).2.

Definition find_boundary_event_states_by_host_execution_id (host_execution_id : string) (s : DbSession)
  : list RuntimeBoundaryEventState * DbSession :=
  or_noted [] (session_find_by boundary_event_states "host_execution_id" host_execution_id s) s.

(** ** Subscriptions of event sub-processes *)
Definition insert_event_subprocess_event_subscription (sub : EventSubprocessEventSubscription) (s : DbSession)
  : DbSession :=
  (insert_with_extra event_subprocess_event_subscriptions (sb_subscription_id sub) sub
     [("process_instance_id", Some (sb_process_instance_id sub));
      ("event_kind", Some (subscription_kind_text (sb_event_kind sub)));
      ("event_ref", Some (sb_event_ref sub))] s).2.

Definition delete_event_subprocess_event_subscription (subscription_id : string) (s : DbSession) : DbSession :=
  (session_delete event_subprocess_event_subscriptions subscription_id s).2.

Definition delete_event_subprocess_event_subscriptions_by_scope_execution_id (scope_execution_id : string)
    (s : DbSession) : DbSession :=
  let '(all, s) := or_noted [] (session_find_all event_subprocess_event_subscriptions s) s in
  let subscriptions :=
    sb_subscription_id <$> List.filter (fun sub => is_some_eq (sb_scope_execution_id sub) scope_execution_id) all in
  fold_left (fun s id => delete_event_subprocess_event_subscription id s) subscriptions s.

(** ** In a command *)
Section InContext.
Context `{Env}.

(** A query, or a statement, on the session of the command. *)
Definition on_session_of {A} (f : DbSession -> A * DbSession) : EngineM A :=
  fun c => let '(a, s) := f (rt_session (cc_runtime c)) in
           (Ok a, set_runtime (with_session s (cc_runtime c)) c).

(** [insert_event_wait_state], with [insert_event_subscription]. *)
Definition insert_event_wait_state (wait_state : RuntimeEventWaitState) : EngineM unit :=
  match ws_event_subscription wait_state with
  | Some sub =>
      id ← uuid_new_v4;
      on_db (fun s => (insert_with_extra event_subscriptions id wait_state
               [("execution_id", Some (ws_execution_id wait_state));
                ("process_instance_id", Some (ws_process_instance_id wait_state));
                ("event_name", Some (es_event_ref sub));
                ("event_kind", Some (subscription_kind_text (es_kind sub)))] s).2)
  | None => mret tt
  end ;;
  on_db (fun s => (insert_with_extra event_wait_states (ws_execution_id wait_state) wait_state
           [("process_instance_id", Some (ws_process_instance_id wait_state))] s).2).
End InContext.

(** ** The tables of the executions are left alone *)

(** A session with other tables of waits and boundary events. *)
Definition set_host_tables (b : Table RuntimeBoundaryEventState) (w : WaitTables) (s : DbSession) : DbSession :=
  mkDbSession (db_executions s) (db_variables s) (db_compensation_subscriptions s) b w (db_act_ru_execution s)
    (db_closed s) (db_write_error s).

Definition host_only (f : DbSession -> DbSession) : Prop :=
  forall s, db_closed s = false -> exists b w, f s = set_host_tables b w s.

Lemma host_only_id : host_only id.
Proof. intros s _. exists (db_boundary_event_states s), (db_waits s). by destruct s. Qed.

Lemma host_only_compose f g : host_only f -> host_only g -> host_only (fun s => g (f s)).
Proof.
  intros Hf Hg s Ho. destruct (Hf s Ho) as (b & w & ->). destruct (Hg (set_host_tables b w s) Ho) as (b' & w' & ->).
  by exists b', w'.
Qed.

Lemma host_only_fold {A} (f : A -> DbSession -> DbSession) l :
  (forall a, host_only (f a)) -> host_only (fun s => fold_left (fun s a => f a s) l s).
Proof.
  intros Hf. induction l as [|a l IH]; [apply host_only_id|]. simpl.
  by apply (host_only_compose (f a) (fun s => fold_left (fun s a => f a s) l s)).
Qed.

(** The tables a host statement may touch. *)
Definition host_table {A} (t : TableRef A) : Prop := forall tab, host_only (tset t tab).

Lemma host_tasks : host_table tasks.
Proof. intros tab s _. by eexists _, _. Qed.
Lemma host_event_wait_states : host_table event_wait_states.
Proof. intros tab s _. by eexists _, _. Qed.
Lemma host_event_subscriptions : host_table event_subscriptions.
Proof. intros tab s _. by eexists _, _. Qed.
Lemma host_subprocess_subscriptions : host_table event_subprocess_event_subscriptions.
Proof. intros tab s _. by eexists _, _. Qed.
Lemma host_boundary_event_states : host_table boundary_event_states.
Proof. intros tab s _. by eexists _, _. Qed.

Section Statements.
Context {A : Type} (t : TableRef A) (Ht : host_table t).

Lemma host_delete i : host_only (fun s => (session_delete t i s).2).
Proof. intros s Ho. unfold session_delete, ensure_open. rewrite Ho. by apply Ht. Qed.

Lemma host_delete_by col v : host_only (fun s => (session_delete_by t col v s).2).
Proof. intros s Ho. unfold session_delete_by, ensure_open. rewrite Ho. by apply Ht. Qed.

Lemma host_insert i a extras : host_only (fun s => (insert_with_extra t i a extras s).2).
Proof. intros s Ho. unfold insert_with_extra, insert_with_extra_inner, ensure_open. rewrite Ho. by apply Ht. Qed.
End Statements.

Lemma or_noted_ok {A} (d : A) r a s : r = Ok a -> or_noted d r s = (a, s).
Proof. by intros ->. Qed.

Lemma find_by_open {A} (t : TableRef A) col v s :
  db_closed s = false ->
  session_find_by t col v s
  = Ok (row_data <$> (map_to_list (filter (fun kr => column_matches col v kr.2 = true) (tget t s))).*2).
Proof. intros Ho. unfold session_find_by, ensure_open. by rewrite Ho. Qed.

Create HintDb host discriminated.
#[export] Hint Resolve host_only_id host_delete host_delete_by host_insert host_tasks host_event_wait_states
  host_event_subscriptions host_subprocess_subscriptions host_boundary_event_states : host.

Lemma host_delete_task i : host_only (delete_task i).
Proof. unfold delete_task. eauto with host. Qed.

Lemma host_delete_wait i : host_only (delete_event_wait_state_by_execution_id i).
Proof.
  apply (host_only_compose (delete_event_subscriptions_by_execution_id i) (fun s => (session_delete event_wait_states i s).2));
    [unfold delete_event_subscriptions_by_execution_id|]; eauto with host.
Qed.

Lemma host_delete_boundary i : host_only (delete_boundary_event_states_by_host_execution_id i).
Proof. unfold delete_boundary_event_states_by_host_execution_id. eauto with host. Qed.

Lemma host_delete_subprocess i :
  host_only (delete_event_subprocess_event_subscriptions_by_scope_execution_id i).
Proof.
  intros s Ho. unfold delete_event_subprocess_event_subscriptions_by_scope_execution_id, session_find_all, ensure_open.
  rewrite Ho. simpl. generalize (sb_subscription_id <$> List.filter
    (fun sub => is_some_eq (sb_scope_execution_id sub) i)
    (row_data <$> (map_to_list (wt_event_subprocess_event_subscriptions (db_waits s))).*2)).
  intros l. revert s Ho. apply (host_only_fold delete_event_subprocess_event_subscription).
  intros a. unfold delete_event_subprocess_event_subscription. eauto with host.
Qed.
#[export] Hint Resolve host_delete_task host_delete_wait host_delete_boundary host_delete_subprocess : host.

(** ** In a command: nothing of the token flow changes *)
Section Quiet.
Context {env : Env}.

Lemma keeps_host ids f : host_only f -> keeps ids (on_db f) nothing.
Proof.
  intros Hf. apply keeps_on_db. intros s [Ho He] Hs. destruct (Hf s Ho) as (b & w & ->). split_and!; [|by split|done].
  destruct Hs as [H1 H2 H3]. by split.
Qed.

Lemma keeps_query {A} ids (f : DbSession -> A * DbSession) :
  (forall s, db_closed s = false -> (f s).2 = s) -> keeps ids (on_session_of f) nothing.
Proof.
  intros Hf. apply keeps_engine. intros c Hc Hi. unfold on_session_of.
  specialize (Hf (rt_session (cc_runtime c)) (context_closed c (proj1 Hc))).
  destruct (f (rt_session (cc_runtime c))) as [a s]. simpl in Hf. subst s.
  replace (set_runtime _ c) with c by (by destruct c as [[] ? ? ? ?]). split_and!; [done|done|apply Forall_nil_2].
Qed.

Lemma query_task i s : db_closed s = false -> (find_task_by_execution_id i s).2 = s.
Proof. intros Ho. unfold find_task_by_execution_id. by rewrite find_by_open. Qed.

Lemma query_wait i s : db_closed s = false -> (find_event_wait_state_by_execution_id i s).2 = s.
Proof. intros Ho. unfold find_event_wait_state_by_execution_id, session_find, ensure_open. by rewrite Ho. Qed.

Lemma query_boundary i s : db_closed s = false -> (find_boundary_event_states_by_host_execution_id i s).2 = s.
Proof. intros Ho. unfold find_boundary_event_states_by_host_execution_id. by rewrite find_by_open. Qed.

Lemma query_eq {A} (f : DbSession -> A * DbSession) c :
  context_wf c -> (forall s, db_closed s = false -> (f s).2 = s) ->
  on_session_of f c = (Ok (f (rt_session (cc_runtime c))).1, c).
Proof.
  intros Hc Hf. unfold on_session_of. specialize (Hf _ (context_closed c Hc)).
  destruct (f (rt_session (cc_runtime c))) as [a s]. simpl in *. subst s. by destruct c as [[] ? ? ? ?].
Qed.

(** The context with other tables of waits and boundary events. *)
Definition host_ctx (b : Table RuntimeBoundaryEventState) (w : WaitTables) (c : CommandContext) : CommandContext :=
  set_runtime (with_session (set_host_tables b w (rt_session (cc_runtime c))) (cc_runtime c)) c.

Lemma host_eq f c : context_wf c -> host_only f -> exists b w, on_db f c = (Ok tt, host_ctx b w c).
Proof.
  intros Hc Hf. destruct (Hf _ (context_closed c Hc)) as (b & w & E). exists b, w. unfold on_db, modify, host_ctx.
  by rewrite E.
Qed.

Lemma host_ctx_wf b w c : context_wf c -> context_wf (host_ctx b w c).
Proof. intros [[[H1 H2 H3] Hd] Hl Hf]. by split; [split; [split|]| |]. Qed.

Lemma keeps_insert_wait `{!UuidLaws} ids ws : keeps ids (insert_event_wait_state ws) nothing.
Proof.
  unfold insert_event_wait_state. eapply keeps_then with (mid := nothing).
  - destruct (ws_event_subscription ws) as [sub|]; [|apply keeps_return; usable_ids].
    eapply keeps_then; [apply keeps_uuid|intros u]. apply keeps_host. eauto with host.
  - intros ?. apply keeps_host. eauto with host.
Qed.
End Quiet.

(** ** What the operations do *)
Section Waits.
Context {env : Env}.

Lemma host_step f c :
  context_wf c -> host_only f ->
  exists c', on_db f c = (Ok tt, c') /\ context_wf c' /\ cc_uuids c' = cc_uuids c.
Proof.
  intros Hc Hf. destruct (host_eq f c Hc Hf) as (b & w & E). exists (host_ctx b w c).
  split_and!; [done|by apply host_ctx_wf|done].
Qed.

Lemma insert_wait_wf ws c :
  context_wf c -> context_wf (insert_event_wait_state ws c).2 /\ cc_uuids c <= cc_uuids (insert_event_wait_state ws c).2.
Proof.
  intros Hc. unfold insert_event_wait_state. set (f := fun s => (insert_with_extra event_wait_states _ _ _ s).2).
  assert (Hf : host_only f) by (unfold f; eauto with host).
  destruct (ws_event_subscription ws) as [sub|].
  - match goal with |- context [uuid_new_v4 ≫= ?k] => set (g := k) end.
    assert (Hg : exists c1, g (new_v4 (cc_uuids c)) (draw_ctx c) = (Ok tt, c1) /\ context_wf c1
                   /\ cc_uuids c1 = S (cc_uuids c)).
    { unfold g. apply (host_step _ (draw_ctx c)); [by apply draw_ctx_wf|eauto with host]. }
    destruct Hg as (c1 & E1 & W1 & U1). erewrite bind_ok by (erewrite bind_ok by reflexivity; exact E1).
    destruct (host_step f c1 W1 Hf) as (c2 & -> & W2 & U2). simpl. split; [done|lia].
  - erewrite bind_ok by reflexivity. destruct (host_step f c Hc Hf) as (c2 & -> & W2 & U2). simpl. split; [done|lia].
Qed.

(** A wait state that is stored is found by its execution, and by no other. *)
Lemma insert_wait_found ws c :
  context_wf c ->
  exists c', insert_event_wait_state ws c = (Ok tt, c')
    /\ (forall i, (find_event_wait_state_by_execution_id i (rt_session (cc_runtime c'))).1
         = if decide (i = ws_execution_id ws) then Some ws
           else (find_event_wait_state_by_execution_id i (rt_session (cc_runtime c))).1)
    /\ tokens c' = tokens c /\ cc_agenda c' = cc_agenda c /\ cc_events c' = cc_events c.
Proof.
  intros Hc. pose proof (context_closed c Hc) as Ho.
  assert (Hfind : forall d i, db_closed d = false ->
    (find_event_wait_state_by_execution_id i d).1 = row_data <$> wt_event_wait_states (db_waits d) !! i).
  { intros d i Hd. unfold find_event_wait_state_by_execution_id, session_find, ensure_open. by rewrite Hd. }
  unfold insert_event_wait_state. destruct (ws_event_subscription ws) as [sub|].
  - unfold uuid_new_v4, on_db, modify, mbind, stM_bind, insert_with_extra, insert_with_extra_inner, ensure_open. simpl.
    rewrite Ho. simpl. rewrite Ho. simpl. eexists. split; [done|]. split_and!; [|done|done|done].
    intros i. rewrite !Hfind by done. simpl. case_decide; [subst; by rewrite lookup_insert_eq|by rewrite lookup_insert_ne].
  - unfold on_db, modify, mbind, stM_bind, insert_with_extra, insert_with_extra_inner, ensure_open. simpl.
    rewrite Ho. simpl. eexists. split; [done|]. split_and!; [|done|done|done].
    intros i. rewrite !Hfind by done. simpl. case_decide; [subst; by rewrite lookup_insert_eq|by rewrite lookup_insert_ne].
Qed.
End Waits.

Lemma insert_boundary_open state s :
  db_closed s = false ->
  insert_boundary_event_state state s
  = tset boundary_event_states
      (<[String.append (bs_process_instance_id state) (String.append ":" (bs_boundary_event_id state)) :=
         mkRow state (typed_extras [("process_instance_id", Some (bs_process_instance_id state));
                                    ("host_execution_id", Some (bs_host_execution_id state))])]>
         (tget boundary_event_states s)) s.
Proof.
  intros Ho. unfold insert_boundary_event_state, insert_with_extra, insert_with_extra_inner, ensure_open. by rewrite Ho.
Qed.

(** A boundary event state is stored under its process instance and event, not
    under its host: a second token of the instance that enters the activity
    takes the state over, and none is left for the first. *)
Theorem boundary_state_taken_over pi event attached cancel sub h h' s :
  db_closed s = false -> plain_id h = true -> plain_id h' = true -> h <> h' ->
  tget boundary_event_states s = ∅ ->
  let state host := mkBoundaryState event attached pi host cancel sub None in
  let s' := insert_boundary_event_state (state h') (insert_boundary_event_state (state h) s) in
  (find_boundary_event_states_by_host_execution_id h s').1 = []
  /\ (find_boundary_event_states_by_host_execution_id h' s').1 = [state h'].
Proof.
  intros Ho [_ Hp]%plain_id_spec [_ Hp']%plain_id_spec Hne Hs state s'. subst s'.
  rewrite (insert_boundary_open (state h) s), insert_boundary_open by done.
  unfold find_boundary_event_states_by_host_execution_id. rewrite !find_by_open by done.
  simpl in Hs. simpl. rewrite Hs, insert_insert_eq, insert_empty.
  assert (Hm : forall i p (r : Row RuntimeBoundaryEventState),
    row_extras r = [("process_instance_id", p); ("host_execution_id", typed_extra h')] ->
    column_matches "host_execution_id" i r = bool_decide (h' = i)).
  { intros i p r Hr. unfold column_matches. rewrite Hr. simpl. by rewrite Hp'. }
  rewrite !map_filter_singleton. cbn [snd]. split.
  - rewrite decide_False; [done|]. erewrite Hm by reflexivity. rewrite bool_decide_eq_true. congruence.
  - rewrite decide_True; [by rewrite map_to_list_singleton|]. erewrite Hm by reflexivity. rewrite bool_decide_eq_true. congruence.
Qed.
