(* ===== verification/ContinueProcess.v ===== *)
(** * The continue-process operation

    Models [flowable-engine/src/agenda/continue_process_operation.rs], the
    behaviour factory ([bpmn/parser/factory/activity_behavior_factory.rs]),
    [bpmn/job_category.rs] and the behaviours that only move the token on.
    The operation enters an activity: it records the start, runs the start
    listeners and the behaviour, or leaves the activity to a job when it is
    asynchronous.

    The state of a command here is the context of the token flow together
    with the job tables of the same session ([CommandState]); the behaviours
    that are not modelled, and the history manager, are the class
    [Activities]. *)
From Stdlib Require Import Ascii.
From S2P Require Import Prelude Chars Float64 Numerals Json Errors ElValues BpmnModel FlowElements Execution Store JobTypes EventDispatcher Context Variables FlowSelection Listeners ExecutionGraph ParallelGateway InclusiveGateway TakeOutgoing JobLocks JobLocksProof JobStore EngineSafety.

(** ** Extension elements *)
Definition be_extension_elements (b : BaseElement) : list (string * list ExtensionElement) :=
  let '(mkBaseElement _ _ _ extension_elements _) := b in extension_elements.

Definition ee_element_text (e : ExtensionElement) : option string :=
  let '(mkExtensionElement _ _ _ _ element_text _) := e in element_text.

(** The text of the first extension element of a name, trimmed, if not empty. *)
Definition first_extension_text (name : string) (b : BaseElement) : option string :=
  elements ← snd <$> List.find (fun kv => String.eqb kv.1 name) (be_extension_elements b);
  first ← head elements;
  trimmed (ee_element_text first).

Definition resolve_event_type_extension : BaseElement -> option string := first_extension_text "eventType".
Definition first_job_category_text : BaseElement -> option string := first_extension_text "jobCategory".

Definition node_base (n : FlowNode) : BaseElement := fe_base_element (fn_flow_element n).

Definition flow_element_base_element (e : FlowElementEnum) : BaseElement :=
  match e with
  | FESequenceFlow f => fe_base_element (sf_flow_element f)
  | FETask a | FEUserTask a | FEServiceTask a | FECaseServiceTask a | FESendTask a | FEScriptTask a
  | FEManualTask a | FEReceiveTask a | FEBusinessRuleTask a | FECallActivity a => node_base (ac_flow_node a)
  | FEStartEvent e | FEEndEvent e | FEIntermediateCatchEvent e | FEIntermediateThrowEvent e =>
      node_base (ev_flow_node e)
  | FEExclusiveGateway g | FEParallelGateway g | FEInclusiveGateway g | FEEventBasedGateway g
  | FEComplexGateway g => node_base (gw_flow_node g)
  | FESubProcess s | FETransaction s | FEEventSubProcess s | FEAdhocSubProcess s _ _ _ =>
      node_base (ac_flow_node (sp_activity s))
  | FEValuedDataObject d => vd_base_element d
  | FEBoundaryEvent b => node_base (ev_flow_node (bd_event b))
  end.

(** ** The behaviour factory *)
Inductive Behavior : Type :=
| StartEventBehavior
| VariableListenerBehavior (variable_name variable_change_type : option string)
| EndEventBehavior | CancelEndEventBehavior
| ExclusiveGatewayBehavior | InclusiveGatewayBehavior | ParallelGatewayBehavior | EventBasedGatewayBehavior
| UserTaskBehavior | ReceiveTaskBehavior | BusinessRuleTaskBehavior
| IntermediateCatchEventBehavior | IntermediateThrowEventBehavior
| ServiceTaskBehavior | CaseTaskBehavior | SendTaskBehavior | ScriptTaskBehavior | ManualTaskBehavior
| TaskBehavior
| SubProcessBehavior | EventSubprocessBehavior | TransactionBehavior | AdhocSubProcessBehavior
| BoundaryEventBehavior | CallActivityBehavior
| UnsupportedBehavior (element_type : string)
| MultiInstanceBehavior (inner : Behavior) (mi : MultiInstanceLoopCharacteristics) (inner_is_subprocess : bool).

Definition is_wait_state_intermediate_catch_event (e : FlowElementEnum) : bool :=
  match e with
  | FEIntermediateCatchEvent event =>
      match ev_event_definitions event with
      | [] | [MessageEventDefinition _ _] | [SignalEventDefinition _ _] | [TimerEventDefinition _ _ _ _ _]
      | [ConditionalEventDefinition _] | [LinkEventDefinition _ _ _] => true
      | _ => false
      end
  | _ => false
  end.

Definition is_supported_intermediate_throw_event (e : FlowElementEnum) : bool :=
  match e with
  | FEIntermediateThrowEvent event =>
      match ev_event_definitions event with
      | [] | [LinkEventDefinition _ _ _] | [MessageEventDefinition _ _] | [SignalEventDefinition _ _]
      | [CompensateEventDefinition _ _] | [EscalationEventDefinition _ _] => true
      | _ => false
      end
  | _ => false
  end.

Definition is_supported_boundary_event (b : BoundaryEvent) : bool :=
  match ev_event_definitions (bd_event b) with
  | [] => match resolve_event_type_extension (node_base (ev_flow_node (bd_event b))) with
          | Some _ => true
          | None => false
          end
  | [MessageEventDefinition _ _] | [SignalEventDefinition _ _] | [TimerEventDefinition _ _ _ _ _]
  | [ConditionalEventDefinition _] | [ErrorEventDefinition _ _ _ _ _] | [CancelEventDefinition]
  | [CompensateEventDefinition _ _] | [EscalationEventDefinition _ _] => true
  | _ => false
  end.

Definition variable_listener (d : EventDefinitionEnum) : option Behavior :=
  match d with
  | VariableListenerEventDefinition name change => Some (VariableListenerBehavior name change)
  | _ => None
  end.

Definition inner_behavior (e : FlowElementEnum) : Behavior :=
  match e with
  | FEStartEvent start_event =>
      unwrap_or StartEventBehavior (find_map variable_listener (ev_event_definitions start_event))
  | FEEndEvent end_event =>
      match ev_event_definitions end_event with
      | CancelEventDefinition :: _ => CancelEndEventBehavior
      | _ => EndEventBehavior
      end
  | FEExclusiveGateway _ => ExclusiveGatewayBehavior
  | FEInclusiveGateway _ => InclusiveGatewayBehavior
  | FEParallelGateway _ => ParallelGatewayBehavior
  | FEEventBasedGateway _ => EventBasedGatewayBehavior
  | FEUserTask _ => UserTaskBehavior
  | FEReceiveTask _ => ReceiveTaskBehavior
  | FEBusinessRuleTask _ => BusinessRuleTaskBehavior
  | FEIntermediateCatchEvent _ =>
      if is_wait_state_intermediate_catch_event e then IntermediateCatchEventBehavior
      else UnsupportedBehavior (flow_element_type e)
  | FEIntermediateThrowEvent _ =>
      if is_supported_intermediate_throw_event e then IntermediateThrowEventBehavior
      else UnsupportedBehavior (flow_element_type e)
  | FEServiceTask _ => ServiceTaskBehavior
  | FECaseServiceTask _ => CaseTaskBehavior
  | FESendTask _ => SendTaskBehavior
  | FEScriptTask _ => ScriptTaskBehavior
  | FEManualTask _ => ManualTaskBehavior
  | FETask _ => TaskBehavior
  | FESubProcess _ => SubProcessBehavior
  | FEEventSubProcess _ => EventSubprocessBehavior
  | FETransaction _ => TransactionBehavior
  | FEAdhocSubProcess _ _ _ _ => AdhocSubProcessBehavior
  | FEBoundaryEvent b =>
      if is_supported_boundary_event b then BoundaryEventBehavior else UnsupportedBehavior (flow_element_type e)
  | FECallActivity _ => CallActivityBehavior
  | FESequenceFlow _ | FEComplexGateway _ | FEValuedDataObject _ => UnsupportedBehavior (flow_element_type e)
  end.

Definition mi_characteristics (e : FlowElementEnum) : option MultiInstanceLoopCharacteristics :=
  match e with
  | FETask a | FEUserTask a | FEServiceTask a | FECaseServiceTask a | FESendTask a | FEScriptTask a
  | FEManualTask a | FEReceiveTask a | FEBusinessRuleTask a | FECallActivity a => ac_loop_characteristics a
  | FESubProcess s | FETransaction s | FEAdhocSubProcess s _ _ _ => ac_loop_characteristics (sp_activity s)
  | _ => None
  end.

Definition resolve_behavior (e : FlowElementEnum) : option Behavior :=
  match mi_characteristics e with
  | Some mi =>
      Some (MultiInstanceBehavior (inner_behavior e) mi
              match e with FESubProcess _ | FETransaction _ | FEAdhocSubProcess _ _ _ _ => true | _ => false end)
  | None => Some (inner_behavior e)
  end.

(** ** The state of a command *)
Record CommandState `{Env} := mkState {
  st_context : CommandContext;
  st_jobs : JobSession;
  st_dispatching : Dispatching;
  st_pending_async_hints : list RuntimeTimerJobState;
  st_clock : nat
}.

Notation CommandM := (stM CommandState Failure).

(** What the operation asks of the history manager, of the clock and
    configuration, and of the behaviours that are not modelled here. *)
Class Activities `{Env} := {
  record_activity_start : string -> string -> string -> string -> HistoryState ->
                          result FlowableError unit * HistoryState;
  record_activity_cancelled : string -> string -> string -> HistoryState ->
                              result FlowableError unit * HistoryState;
  delete_open_historic_activity_instance : string -> string -> HistoryState -> HistoryState;
  clock : nat -> Z;
  number_of_retries : Z;
  activity_display : Display;
  other_behavior : Behavior -> Execution -> CommandM Execution
}.
#[export] Existing Instance activity_display.

Section Lifting.
Context `{Env}.

Definition set_context (c : CommandContext) (s : CommandState) : CommandState :=
  mkState _ c (st_jobs s) (st_dispatching s) (st_pending_async_hints s) (st_clock s).

(** An operation of the token flow. *)
Definition in_context {A} (m : EngineM A) : CommandM A :=
  fun s => let '(r, c) := m (st_context s) in (r, set_context c s).

(** The job tables and the tables of the token flow are one session: one
    [closed] flag, one sticky error, one executions table. *)
Definition session_of (s : CommandState) : DbSession := rt_session (cc_runtime (st_context s)).

Definition job_session (s : CommandState) : JobSession :=
  let d := session_of s in
  let j := st_jobs s in
  mkJobSession (db_closed d) (db_write_error d) (js_jobs j) (js_instance_locks j) (js_leases j) (js_nodes j)
    (js_properties j) (js_instances j) (view d).

Definition set_error (closed : bool) (error : option StorageError) (d : DbSession) : DbSession :=
  mkDbSession (db_executions d) (db_variables d) (db_compensation_subscriptions d)
    (db_boundary_event_states d) (db_waits d) (db_act_ru_execution d) closed error.

Definition set_job_session (j : JobSession) (s : CommandState) : CommandState :=
  let rt := cc_runtime (st_context s) in
  let d := set_error (js_closed j) (js_write_error j) (rt_session rt) in
  mkState _ (set_runtime (with_session d rt) (st_context s)) j (st_dispatching s) (st_pending_async_hints s)
    (st_clock s).

Definition job_failure (e : JobStop) : Failure :=
  match e with
  | StorageStop e => Raised (storage_to_flowable e)
  | FlowableStop e => Raised e
  | Overflowed => Overflow
  end.

Definition in_jobs {A} (m : JM A) : CommandM A :=
  fun s => let '(r, j) := m (job_session s) in (map_err job_failure r, set_job_session j s).

Definition on_history (f : HistoryState -> result FlowableError unit * HistoryState) : CommandM unit :=
  in_context (fun c => let '(r, h) := f (cc_history c) in
    (map_err Raised r, mkContext _ (cc_runtime c) (cc_agenda c) (cc_events c) h (cc_uuids c))).

Definition register_pending_async_hint (job : RuntimeTimerJobState) : CommandM unit :=
  modify (fun s => mkState _ (st_context s) (st_jobs s) (st_dispatching s)
                     (st_pending_async_hints s ++ [job]) (st_clock s)).

Definition time_now `{!Activities} : CommandM Z :=
  fun s => (Ok (clock (st_clock s)),
            mkState _ (st_context s) (st_jobs s) (st_dispatching s) (st_pending_async_hints s) (S (st_clock s))).
End Lifting.

(** ** Job categories *)
Section Category.
Context `{Env} `{!Activities}.

Definition category_value_to_string (value : Value) : option string :=
  match value with
  | VNull => None
  | VString s => let t := trim s in if bool_decide (t = EmptyString) then None else Some t
  | VNumber _ | VBool _ => Some (value_to_string value)
  | VArray _ | VObject _ => None
  end.

Definition resolve_job_category_text (text : string) (execution : Execution)
  : result FlowableError (option string) :=
  let trimmed := trim text in
  if bool_decide (trimmed = EmptyString) then Ok None
  else if starts_with "${" trimmed && ends_with_char trimmed "}"%char then
    value ← map_err (fun error => ExecutionError ([Lit "jobCategory expression '"; Lit trimmed; Lit "' failed: "] ++ error))
              (get_value_strict trimmed execution);
    Ok (category_value_to_string (unwrap_or VNull value))
  else Ok (Some trimmed).

Definition resolve_job_category (base_element : BaseElement) (execution : Execution)
  : result FlowableError (option string) :=
  match first_job_category_text base_element with
  | Some text => resolve_job_category_text text execution
  | None => Ok None
  end.
End Category.

(** ** Asynchronous jobs *)
Definition ASYNC_CONTINUATION_RESUME_FLAG : string := "__flowable_async_continuation_resume".
Definition ASYNC_AFTER_RESUME_FLAG : string := "__flowable_async_after_resume".

Definition flag (name : string) (execution : Execution) : bool :=
  match ex_transient_variables execution !! name with Some (VBool b) => b | _ => false end.

Definition is_resuming_async_continuation : Execution -> bool := flag ASYNC_CONTINUATION_RESUME_FLAG.
Definition is_resuming_async_after : Execution -> bool := flag ASYNC_AFTER_RESUME_FLAG.

Definition stamp_new_job_metadata (now_ms : Z) (correlation_id handler_type : string)
  (tenant_id process_definition_id element_name : option string) (j : RuntimeTimerJobState) : RuntimeTimerJobState :=
  mkJob (jb_timer_job_id j) (jb_process_instance_id j) (jb_execution_id j) (jb_activity_id j)
    (jb_job_state j) (jb_is_boundary j) (jb_attached_activity_id j) (jb_cancel_activity j)
    (jb_time_duration j) (jb_time_date j) (jb_time_cycle j) (jb_end_date j) (jb_calendar_name j)
    (jb_due_time j) (jb_lock_owner j) (jb_lock_time j) (jb_lock_expiration_time j) (jb_retries j)
    (jb_error_message j) (jb_error_details j) (jb_category j) (or_else (jb_create_time j) (Some now_ms))
    (or_else (jb_correlation_id j) (Some correlation_id)) (or_else (jb_handler_type j) (Some handler_type))
    (or_else (jb_tenant_id j) tenant_id) (or_else (jb_process_definition_id j) process_definition_id)
    (or_else (jb_element_name j) element_name)
    (jb_job_handler_configuration j) (jb_advanced_job_handler_configuration j)
    (jb_custom_values j) (jb_scope_type j) (jb_scope_id j) (jb_sub_scope_id j)
    (jb_scope_definition_id j) (jb_exclusive j).

Section Scheduling.
Context `{Env} `{!Activities}.

(** The store draws a correlation id for a job that has none; this one has.
    The job of an asynchronous step of the activity a token stands on. *)
Definition async_job (id : string) (execution : Execution) (job_state marker : string)
  (time_cycle : option string) (due_time : Z) (category : option string) (exclusive : bool) : RuntimeTimerJobState :=
  mkJob id (unwrap_or (ex_id execution) (ex_process_instance_id execution)) (ex_id execution)
    (unwrap_or EmptyString (ex_activity_id execution)) (Some job_state) false None true (Some marker) None
    time_cycle None None (Some due_time) None None None (Some (Z.max number_of_retries 0)) None None category
    None None None None None None None None None None None None None exclusive.

Definition schedule_job (execution : Execution) (flow_element : FlowElementEnum)
  (job_state marker handler_type : string) (exclusive : bool) : CommandM unit :=
  let execution := set_is_ended false (set_is_active false execution) in
  in_context (entity_update execution) ;;
  ev ← in_context (evaluation_execution execution);
  due_time ← time_now;
  id ← in_context uuid_new_v4;
  category ← lift (map_err Raised (resolve_job_category (flow_element_base_element flow_element) ev));
  let job := async_job id execution job_state marker (failed_job_retry_time_cycle_value flow_element)
               due_time category exclusive in
  correlation ← in_context uuid_new_v4;
  let job := stamp_new_job_metadata due_time correlation handler_type (ex_tenant_id execution)
               (ex_process_definition_id execution) (ex_activity_name execution) job in
  now ← time_now;
  in_jobs (insert_timer_job_state now correlation job).

Definition schedule_async_continuation_job (execution : Execution) (flow_element : FlowElementEnum) : CommandM unit :=
  schedule_job execution flow_element "async" ASYNC_CONTINUATION_MARKER "async-continuation" (is_exclusive flow_element).

Definition schedule_async_after_job (execution : Execution) (flow_element : FlowElementEnum) : CommandM unit :=
  schedule_job execution flow_element "async-after" ASYNC_AFTER_MARKER "async-after"
    (is_async_leave_exclusive flow_element).
End Scheduling.

(** ** Behaviours that only move the token on *)
Section Behaviors.
Context `{Env} `{!Activities}.

Definition take_outgoing_behavior (execution : Execution) : CommandM Execution :=
  in_context (plan_take_outgoing_sequence_flows_operation execution) ;; mret execution.

Definition event_based_gateway_execute (execution : Execution) : CommandM Execution :=
  let execution := set_is_scope true execution in
  in_context (entity_update execution) ;;
  in_context (plan_take_outgoing_sequence_flows_operation execution) ;;
  mret execution.

Definition unsupported_execute (element_type : string) (execution : Execution) : CommandM Execution :=
  throw (Raised (UnsupportedElement element_type (unwrap_or "<unknown>" (ex_activity_id execution)))).

(** The two gateways work on copies of the token. *)
Definition behavior_execute (b : Behavior) (execution : Execution) : CommandM Execution :=
  match b with
  | StartEventBehavior | ExclusiveGatewayBehavior | ManualTaskBehavior | TaskBehavior =>
      take_outgoing_behavior execution
  | EventBasedGatewayBehavior => event_based_gateway_execute execution
  | EventSubprocessBehavior => mret execution
  | ParallelGatewayBehavior => in_context (parallel_gateway_execute execution) ;; mret execution
  | InclusiveGatewayBehavior => in_context (inclusive_gateway_execute execution) ;; mret execution
  | UnsupportedBehavior element_type => unsupported_execute element_type execution
  | _ => other_behavior b execution
  end.

(** ** Entering an activity *)
Definition run_listeners (execution : Execution) (listeners : list FlowableListener) (event : string) : CommandM Execution :=
  ev ← in_context (evaluation_execution execution);
  execution ← lift (map_err Raised (execute_execution_listeners execution listeners event ev));
  in_context (entity_update execution) ;;
  mret execution.

(** The events and listeners of the start of a process. *)
Definition enter_start_event (main_process : Process) (activity_id : string) (execution : Execution)
  : CommandM Execution :=
  match ex_process_instance_id execution, ex_process_definition_id execution with
  | Some pi_id, Some pd_id => in_context (add_post_agenda_event (process_instance_started pi_id pd_id))
  | _, _ => mret tt
  end ;;
  if is_process_level_start_event main_process activity_id
  then run_listeners execution (pr_execution_listeners main_process) "start"
  else mret execution.

Definition activity_start_event (flow_element : FlowElementEnum) (execution : Execution) : EngineEvent :=
  (if has_loop_characteristics flow_element then multi_instance_activity_started else activity_started)
    (unwrap_or "<unknown>" (flow_element_id flow_element)) (flow_element_type flow_element)
    (ex_process_instance_id execution) (Some (ex_id execution)) (ex_process_definition_id execution).

Definition enter_activity (main_process : Process) (activity_id : string) (flow_element : FlowElementEnum)
  (behavior : Behavior) (execution : Execution) : CommandM unit :=
  execution ← (if is_start_event flow_element then enter_start_event main_process activity_id execution
               else mret execution);
  in_context (add_post_agenda_event (activity_start_event flow_element execution)) ;;
  on_history (record_activity_start (unwrap_or "<unknown>" (flow_element_id flow_element))
                (flow_element_type flow_element)
                (unwrap_or EmptyString (ex_process_instance_id execution)) (ex_id execution)) ;;
  before ← run_listeners execution (flow_element_execution_listeners flow_element) "start";
  after ← behavior_execute behavior before;
  (if negb (String.eqb (ex_id after) (ex_id before)) || ex_is_multi_instance_root after
      || ex_is_multi_instance_root before
   then on_history (fun h => (Ok tt, delete_open_historic_activity_instance (ex_id before) activity_id h))
   else mret tt) ;;
  if is_async_after flow_element && ex_is_active after && negb (ex_is_ended after)
     && negb (is_resuming_async_after after)
  then in_context agenda_clear ;; schedule_async_after_job after flow_element
  else mret tt.

(** [ContinueProcessOperation::run]. *)
Definition continue_process_run (planned : Execution) : CommandM unit :=
  found ← in_context (entity_find_by_id (ex_id planned));
  let_some _ := found in
  let execution := set_is_active true (set_is_ended false planned) in
  let_some activity_id := ex_activity_id execution in
  let_some process_definition_id := ex_process_definition_id execution in
  let_some bpmn_model := get_bpmn_model process_definition_id in
  let_some main_process := bm_main_process bpmn_model in
  let_some flow_element := find_flow_element main_process activity_id in
  if is_async_before flow_element && negb (is_resuming_async_continuation execution)
  then schedule_async_continuation_job execution flow_element
  else
    match resolve_behavior flow_element with
    | Some behavior => enter_activity main_process activity_id flow_element behavior execution
    | None => throw (Raised (UnsupportedElement (flow_element_type flow_element)
                              (unwrap_or "<unknown>" (flow_element_id flow_element))))
    end.
End Behaviors.

(** ** Entering activities: proofs

    The continue-process operation keeps the context sound, the job table
    included; a token whose row is gone is not brought back; and an
    asynchronous activity becomes a job that the executor's acquisition
    finds. *)

#[export] Instance state_context `{Env} : HasContext CommandState :=
  {| context_of := st_context; rest_wf s := table_wf (js_jobs (st_jobs s)) |}.

(** What is relied on of the clock, the configuration and the behaviours that
    are not modelled. *)
Class ActivityLaws `{Env} `{!Activities} : Prop := {
  clock_i64 : forall n, is_i64 (clock n);
  retries_i64 : is_i64 number_of_retries;
  behavior_keeps : forall b e, keeps [ex_id e] (other_behavior b e) (fun e' => [ex_id e'])
}.

Section Soundness.
Context {env : Env} {uuids : UuidLaws} {acts : Activities} {laws : ActivityLaws}.
Lemma keeps_in_context {A} ids (m : EngineM A) out : keeps ids m out -> keeps ids (in_context m) out.
Proof.
  intros Hm s Hc Hw Hi. specialize (Hm (st_context s) Hc I Hi). unfold in_context.
  destruct (m (st_context s)) as [r c']. split; [exact Hw|]. apply Hm.
Qed.

Lemma keeps_on_history ids f : keeps ids (on_history f) nothing.
Proof.
  apply keeps_in_context, keeps_engine. intros c [[H1 H2 H3] Ha] Hi.
  destruct (f (cc_history c)) as [r h]. split_and!; [split; [by split|done]|done|].
  destruct r; [apply Forall_nil_2|done].
Qed.

Lemma keeps_time ids : keeps ids time_now nothing.
Proof. intros s Hc Hw Hi. split; [done|]. split_and!; [done|done|apply Forall_nil_2]. Qed.

Lemma keeps_clear ids : keeps ids agenda_clear nothing.
Proof.
  apply keeps_engine. intros c [[H1 H2 H3] Ha] Hi. split_and!; [split; [by split|constructor]|done|apply Forall_nil_2].
Qed.

(** Inserting a job leaves the rest of the session alone. *)
Lemma insert_job_state now uuid j s :
  db_closed (session_of s) = false ->
  exists j' t cells, same_lock j' j /\ in_jobs (insert_timer_job_state now uuid j) s
    = (Ok tt, set_job_session (set_jobs (<[jb_timer_job_id j := mkCas j' (fold_left set_typed (job_columns j' t) cells)]>
                (js_jobs (st_jobs s))) (job_session s)) s).
Proof.
  intros Ho. destruct (insert_timer_job_state_open now uuid j (job_session s) Ho) as (j' & t & cells & Hj & E).
  exists j', t, cells. split; [done|]. unfold in_jobs. by rewrite E.
Qed.

(** The session is what it was, its flags included. *)
Lemma set_jobs_context tab s :
  st_context (set_job_session (set_jobs tab (job_session s)) s) = st_context s.
Proof. unfold set_job_session, set_runtime, with_session. simpl. by destruct s as [[[[] ? ?] ? ? ? ?] ? ? ? ?]. Qed.

Lemma set_jobs_keeps tab s :
  sound (st_context s) -> table_wf tab ->
  let s' := set_job_session (set_jobs tab (job_session s)) s in
  table_wf (js_jobs (st_jobs s')) /\ leaves (st_context s) (Ok tt) (st_context s') nothing.
Proof.
  intros Hc Ht s'. subst s'. rewrite set_jobs_context. split; [exact Ht|].
  split_and!; [done|done|apply Forall_nil_2].
Qed.

Lemma keeps_insert_job ids now uuid j :
  job_typed j -> keeps ids (in_jobs (insert_timer_job_state now uuid j)) nothing.
Proof.
  intros T s Hc Hw Hi. assert (Ho : db_closed (session_of s) = false) by apply context_closed, Hc.
  destruct (insert_job_state now uuid j s Ho) as (j' & t & cells & Hj & ->).
  set (row := mkCas j' _). assert (Hrow : job_row_wf (jb_timer_job_id j) row).
  { replace (jb_timer_job_id j) with (jb_timer_job_id j') by apply Hj. apply inserted_row_wf. by eapply same_lock_typed. }
  clearbody row. apply set_jobs_keeps; [done|]. by apply map_Forall_insert_2.
Qed.

Lemma async_job_typed u e st m tc n cat ex corr h tn pd nm :
  plain st -> is_i64 n -> job_typed (stamp_new_job_metadata n corr h tn pd nm (async_job u e st m tc n cat ex)).
Proof.
  intros Hst Hn. pose proof retries_i64 as [? ?]. split; simpl; try done.
  - by intros ? [= <-].
  - intros ? [= <-]. unfold is_i64, i64_min, i64_max in *. lia.
  - by intros ? [= <-].
Qed.

Lemma keeps_time_i64 {A} ids (k : Z -> CommandM A) out :
  (forall n, is_i64 n -> keeps ids (k n) out) -> keeps ids (time_now ≫= k) out.
Proof.
  intros Hk s Hc Hw Hi. unfold time_now, mbind, stM_bind. set (s' := mkState _ _ _ _ _ _).
  exact (Hk (clock (st_clock s)) (clock_i64 _) s' Hc Hw Hi).
Qed.

Lemma keeps_schedule_job ids e el st m h ex :
  plain st -> ex_id e ∈ ids -> keeps ids (schedule_job e el st m h ex) nothing.
Proof.
  intros Hst Hin. unfold schedule_job.
  eapply keeps_then; [apply keeps_in_context, keeps_update; usable_ids|intros ?].
  eapply keeps_then; [apply keeps_in_context, keeps_evaluation|intros ev].
  apply keeps_time_i64. intros n Hn.
  eapply keeps_then; [apply keeps_in_context, keeps_uuid|intros u].
  eapply keeps_then with (mid := nothing); [apply keeps_pure; usable_ids|intros cat].
  eapply keeps_then; [apply keeps_in_context, keeps_uuid|intros corr].
  eapply keeps_then; [apply keeps_time|intros now]. apply keeps_insert_job. by apply async_job_typed.
Qed.

Lemma keeps_behavior ids b e :
  ex_id e ∈ ids -> keeps ids (behavior_execute b e) (fun e' => [ex_id e']).
Proof.
  intros Hin.
  assert (Hother : keeps ids (other_behavior b e) (fun e' => [ex_id e']))
    by (eapply keeps_weaken; [apply behavior_keeps|set_solver|set_solver]).
  assert (Hgo : keeps ids (take_outgoing_behavior e) (fun e' => [ex_id e'])).
  { eapply keeps_then; [apply keeps_in_context, keeps_plan; usable_ids|intros ?]. apply keeps_return. usable_ids. }
  destruct b; try exact Hgo; try exact Hother; simpl.
  - eapply keeps_then; [by apply keeps_in_context, keeps_inclusive|intros ?]. apply keeps_return. usable_ids.
  - eapply keeps_then; [by apply keeps_in_context, keeps_parallel|intros ?]. apply keeps_return. usable_ids.
  - unfold event_based_gateway_execute.
    eapply keeps_then; [apply keeps_in_context, keeps_update; usable_ids|intros ?].
    eapply keeps_then; [apply keeps_in_context, keeps_plan; usable_ids|intros ?]. apply keeps_return. usable_ids.
  - apply keeps_return. usable_ids.
  - apply keeps_throw.
Qed.

Hypothesis listeners_ok : listeners_keep_identity.

Lemma keeps_run_listeners ids e ls ev :
  ex_id e ∈ ids -> keeps ids (run_listeners e ls ev) (fun e' => [ex_id e']).
Proof.
  intros Hin. unfold run_listeners.
  eapply keeps_then; [apply keeps_in_context, keeps_evaluation|intros x].
  eapply keeps_then with (mid := fun y => [ex_id y]).
  - apply keeps_pure. intros y Hy. destruct (execute_execution_listeners _ _ _ _) as [y'|] eqn:E; [|done].
    injection Hy as ->. apply (listeners_identity _ _ _ _ _ listeners_ok) in E as (-> & _). usable_ids.
  - intros y. eapply keeps_then; [apply keeps_in_context, keeps_update; usable_ids|intros ?]. apply keeps_return. usable_ids.
Qed.

Lemma keeps_start_event ids p a e :
  ex_id e ∈ ids -> keeps ids (enter_start_event p a e) (fun e' => [ex_id e']).
Proof.
  intros Hin. unfold enter_start_event. eapply keeps_then with (mid := nothing).
  - destruct (ex_process_instance_id e), (ex_process_definition_id e); try (apply keeps_return; usable_ids).
    apply keeps_in_context, keeps_event.
  - intros ?. destruct (is_process_level_start_event p a); [by apply keeps_run_listeners|apply keeps_return; usable_ids].
Qed.

Lemma keeps_enter ids p a el b e : ex_id e ∈ ids -> keeps ids (enter_activity p a el b e) nothing.
Proof.
  intros Hin. unfold enter_activity. eapply keeps_then with (mid := fun e' => [ex_id e']).
  { destruct (is_start_event el); [by apply keeps_start_event|apply keeps_return; usable_ids]. }
  intros x. eapply keeps_then; [apply keeps_in_context, keeps_event|intros ?].
  eapply keeps_then; [apply keeps_on_history|intros ?].
  eapply keeps_then; [apply keeps_run_listeners; usable_ids|intros before].
  eapply keeps_then; [apply keeps_behavior; usable_ids|intros after].
  eapply keeps_then with (mid := nothing).
  { destruct (_ || _); [apply keeps_on_history|apply keeps_return; usable_ids]. }
  intros ?. destruct (_ && _); [|apply keeps_return; usable_ids].
  eapply keeps_then; [apply keeps_in_context, keeps_clear|intros ?]. apply keeps_schedule_job; [done|usable_ids].
Qed.

Lemma keeps_continue ids e : ex_id e ∈ ids -> keeps ids (continue_process_run e) nothing.
Proof.
  intros Hin. unfold continue_process_run.
  eapply keeps_then; [apply keeps_in_context, keeps_find|intros [found|]]; [|apply keeps_return; usable_ids].
  cbv zeta. destruct (ex_activity_id _) as [a|]; [|apply keeps_return; usable_ids].
  destruct (ex_process_definition_id _) as [d|]; [|apply keeps_return; usable_ids].
  destruct (get_bpmn_model d) as [m|]; [|apply keeps_return; usable_ids].
  destruct (bm_main_process m) as [p|]; [|apply keeps_return; usable_ids].
  destruct (find_flow_element p a) as [el|]; [|apply keeps_return; usable_ids].
  destruct (_ && _); [apply keeps_schedule_job; [done|usable_ids]|].
  destruct (resolve_behavior el); [apply keeps_enter; usable_ids|apply keeps_throw].
Qed.
End Soundness.

(** ** What the operation does *)
Section Entering.
Context {env : Env} {uuids : UuidLaws} {acts : Activities} {laws : ActivityLaws}.

Lemma in_context_eq {A} (m : EngineM A) s r c : m (st_context s) = (r, c) -> in_context m s = (r, set_context c s).
Proof. intros E. unfold in_context. by rewrite E. Qed.

(** A planned continuation of a token that was deleted meanwhile does
    nothing: the token is not brought back and no listener, behaviour or job
    sees it. *)
Theorem deleted_token_not_continued e s :
  context_wf (st_context s) -> tokens (st_context s) !! ex_id e = None ->
  continue_process_run e s = (Ok tt, s).
Proof.
  intros Hwf Hn. unfold continue_process_run.
  erewrite bind_ok by (by apply in_context_eq, entity_find_eq). rewrite Hn. by destruct s.
Qed.

(** The token while its job waits. *)
Definition suspended (e : Execution) : Execution := set_is_ended false (set_is_active false e).

(** What the expression of a job category sees. *)
Definition category_view (c : CommandContext) (x : Execution) (l : list Execution) : Execution :=
  set_variables (ex_variables x ∪ (scope_variables l ∪ root_fallback (tokens c) x)) x.

Lemma schedule_job_eq e el st m h ex s l cat :
  let c := write_ctx (suspended e) (st_context s) in
  context_wf (st_context s) -> usable (st_context s) (ex_id e) ->
  scopes (tokens c) (suspended e) l ->
  resolve_job_category (flow_element_base_element el) (category_view c (suspended e) l) = Ok cat ->
  let job := stamp_new_job_metadata (clock (st_clock s)) (new_v4 (S (cc_uuids c))) h (ex_tenant_id e)
               (ex_process_definition_id e) (ex_activity_name e)
               (async_job (new_v4 (cc_uuids c)) (suspended e) st m (failed_job_retry_time_cycle_value el)
                  (clock (st_clock s)) cat ex) in
  exists s' job' t cells,
    schedule_job e el st m h ex s = (Ok tt, s')
    /\ tokens (st_context s') = <[ex_id e := suspended e]> (tokens (st_context s))
    /\ cc_agenda (st_context s') = cc_agenda (st_context s)
    /\ cc_events (st_context s') = cc_events (st_context s)
    /\ same_lock job' job
    /\ js_jobs (st_jobs s')
       = <[jb_timer_job_id job := mkCas job' (fold_left set_typed (job_columns job' t) cells)]> (js_jobs (st_jobs s)).
Proof.
  intros c Hwf Hu Hs Hcat job. unfold schedule_job. cbv zeta. fold (suspended e).
  erewrite bind_ok by (by apply in_context_eq, entity_update_eq).
  assert (Hc : context_wf c) by (by apply write_ctx_wf). fold c.
  erewrite bind_ok by (apply in_context_eq, (evaluation_execution_eq c (suspended e) l); done).
  erewrite bind_ok by reflexivity. erewrite bind_ok by reflexivity.
  fold (category_view c (suspended e) l). rewrite Hcat.
  do 3 (erewrite bind_ok by reflexivity).
  match goal with |- exists s' _ _ _, in_jobs (insert_timer_job_state ?n ?u ?j) ?t = _ /\ _ =>
    change j with job; set (sX := t); set (now := n) end.
  destruct (insert_job_state now (new_v4 (S (cc_uuids c))) job sX) as (j' & t & cells & Hj & E);
    [by apply (context_closed c)|].
  do 4 eexists. split; [exact E|]. rewrite set_jobs_context.
  split_and!; [exact (tokens_write (suspended e) (st_context s))|done|done|exact Hj|done].
Qed.

(** C7: an asynchronous activity is not entered but handed to the executor.  A stored
    token, in a well-formed context and below finitely many scopes, is to continue at
    an element of its process that is asynchronous before, and is not the resumption
    of such a job; the configured number of retries is positive, the expression of the
    job category evaluates without error on the variables of the token and its scopes,
    generated ids are distinct and the clock fits in 64 bits.  Then the run succeeds:
    the row of the token is rewritten as inactive and not ended, otherwise as it was,
    no other token changes, nothing is planned and no event is queued; one job is
    stored, under the next generated id, for this token and activity, with the
    exclusive flag of the element, the configured retries, due now and not locked; its
    columns agree with its document, and every acquisition of asynchronous jobs
    without filters, from its due time on, finds it eligible. *)
Theorem async_activity_becomes_job e a p el s l cat :
  let c := write_ctx (suspended e) (st_context s) in
  context_wf (st_context s) -> is_Some (tokens (st_context s) !! ex_id e) -> stands_on e a p el ->
  is_async_before el = true -> is_resuming_async_continuation e = false -> (0 < number_of_retries)%Z ->
  scopes (tokens c) (suspended e) l ->
  resolve_job_category (flow_element_base_element el) (category_view c (suspended e) l) = Ok cat ->
  exists s' job r,
    continue_process_run e s = (Ok tt, s')
    /\ tokens (st_context s') = <[ex_id e := set_is_active false (set_is_ended false e)]> (tokens (st_context s))
    /\ cc_agenda (st_context s') = cc_agenda (st_context s)
    /\ cc_events (st_context s') = cc_events (st_context s)
    /\ js_jobs (st_jobs s') = <[new_v4 (cc_uuids (st_context s)) := r]> (js_jobs (st_jobs s)) /\ cas_data r = job
    /\ jb_timer_job_id job = new_v4 (cc_uuids (st_context s))
    /\ jb_execution_id job = ex_id e /\ jb_activity_id job = a /\ jb_exclusive job = is_exclusive el
    /\ jb_retries job = Some number_of_retries /\ jb_due_time job = Some (clock (st_clock s))
    /\ jb_job_state job = Some "async" /\ jb_lock_owner job = None /\ jb_lock_expiration_time job = None
    /\ job_row_wf (jb_timer_job_id job) r
    /\ forall now, (clock (st_clock s) <= now)%Z ->
         eligible async_states now None None None (job_session s') job = true.
Proof.
  intros c Hwf [y Hy] (Ha & d & m & Hd & Hm & Hp & Hf) Hasync Hres Hn Hs Hcat.
  set (x := set_is_active true (set_is_ended false e)).
  assert (Hu : usable (st_context s) (ex_id x)) by (by eapply token_usable).
  destruct (schedule_job_eq x el "async" ASYNC_CONTINUATION_MARKER "async-continuation" (is_exclusive el) s l cat)
    as (s' & j' & t & cells & E & E1 & E2 & E3 & E4 & E5); [done..|].
  exists s', j', (mkCas j' (fold_left set_typed (job_columns j' t) cells)).
  pose proof E4 as (L1 & L2 & L3 & L4 & L5 & L6 & L7 & L8 & L9 & L10 & L11 & L12 & L13).
  split_and!; try done.
  - unfold continue_process_run. erewrite bind_ok by (by apply in_context_eq, entity_find_eq). rewrite Hy. cbv zeta.
    change (ex_activity_id _) with (ex_activity_id e). rewrite Ha.
    change (ex_process_definition_id _) with (ex_process_definition_id e). rewrite Hd, Hm, Hp, Hf, Hasync.
    change (is_resuming_async_continuation _) with (is_resuming_async_continuation e). rewrite Hres.
    simpl. rewrite <- E. unfold set_context. by destruct s.
  - rewrite L12. simpl. change (ex_activity_id _) with (ex_activity_id e). by rewrite Ha.
  - rewrite L6. simpl. f_equal. lia.
  - apply inserted_row_wf. eapply same_lock_typed; [exact E4|]. apply async_job_typed; [done|apply clock_i64].
  - intros now Hnow. unfold eligible, due_job, state_in, unlocked. rewrite L5, L7, L6, L2. simpl.
    rewrite (proj2 (Z.leb_le _ _) Hnow). simpl. by rewrite (proj2 (Z.ltb_lt 0 _)) by lia.
Qed.
End Entering.
