(* ===== verification/MultiInstance.v ===== *)
(** * Multi-instance activities

    Models [flowable-engine/src/bpmn/behavior/multi_instance_support.rs]: an
    activity with loop characteristics runs once per element of a collection,
    or a given number of times, one instance after the other or all at once.
    A token that enters such an activity is replaced by a root execution; the
    instances are its children; when the last one is done, or the completion
    condition holds, the root and everything below it is deleted and one token
    leaves the activity.

    The behaviour of one instance is an argument, [inner]: what
    [resolve_behavior] puts inside [MultiInstanceBehavior].  The walks up the
    parent links and the deletion of a tree have the fuel of [Variables]: one
    more than there are executions. *)
From Stdlib Require Import Ascii.
From S2P Require Import Prelude Chars Float64 Numerals Json Errors ElValues BpmnModel FlowElements Execution Store JobTypes EventDispatcher Context Variables FlowSelection JobStore EngineSafety WaitStates ContinueProcess.

(** [n as i32]: of an integer it wraps, of a float it saturates. *)
Definition wrap_i32 (n : Z) : Z := (n + 2 ^ 31) mod 2 ^ 32 - 2 ^ 31.
Definition i32_of_f64 (x : f64) : Z := Z.max i32_min (Z.min i32_max (i64_of_f64 x)).

Definition number_as_i32 (n : Number) : Z :=
  match number_as_i64 n with
  | Some i => wrap_i32 i
  | None => match number_as_u64 n with
            | Some u => wrap_i32 u
            | None => i32_of_f64 (number_as_f64 n)
            end
  end.

Definition variable_type_name (v : Value) : string :=
  match v with
  | VNull => "null"
  | VBool _ => "boolean"
  | VNumber (PosInt _ | NegInt _) => "integer"
  | VNumber (Float _) => "double"
  | VString _ => "string"
  | VArray _ | VObject _ => "json"
  end.

Section MultiInstance.
Context `{Env} `{!Activities}.

Definition host (f : DbSession -> DbSession) : CommandM unit := in_context (on_db f).
Definition ask {A} (f : DbSession -> A * DbSession) : CommandM A := in_context (on_session_of f).
Definition find_by_id (id : string) : CommandM (option Execution) := in_context (entity_find_by_id id).
Definition children_of (id : string) : CommandM (list Execution) :=
  in_context (find_child_executions_by_parent_execution_id id).

(** ** Expressions *)
Definition evaluate_mi_expression (text : string) (scope : Execution) : result FlowableError (option Value) :=
  let trimmed := trim text in
  if bool_decide (trimmed = EmptyString) then Ok None
  else
    let el_text := if starts_with "${" trimmed && ends_with_char trimmed "}"%char then trimmed
                   else String.append "${" (String.append trimmed "}") in
    map_err (fun error => ExecutionError ([Lit "Multi-instance expression '"; Lit trimmed; Lit "' failed: "] ++ error))
      (get_value_strict el_text scope).

Definition evaluated (text : string) (execution : Execution) : CommandM (option Value) :=
  scope ← in_context (evaluation_execution execution);
  in_context (attempt (evaluate_mi_expression text scope)).

Definition not_a_number (expr_text : string) : FlowableError :=
  BadRequest [Lit "Could not resolve loopCardinality expression '"; Lit expr_text;
              Lit "': not a number nor number String"].

Definition resolve_loop_cardinality (mi : MultiInstanceLoopCharacteristics) (execution : Execution) : CommandM Z :=
  match trimmed (mi_loop_cardinality mi) with
  | None => throw (Raised (BadRequest [Lit "Could not resolve loopCardinality expression: empty"]))
  | Some expr_text =>
      value ← evaluated expr_text execution;
      match value with
      | Some (VNumber n) => mret (number_as_i32 n)
      | Some (VString s) => in_context (attempt (ok_or (not_a_number expr_text) (parse_i32 (trim s))))
      | _ => throw (Raised (not_a_number expr_text))
      end
  end.

(** [find_execution_variable] of [variable_service.rs]. *)
Fixpoint find_variable_loop (fuel : nat) (name : string) (current_id : option string)
  : EngineM (option (string * Value)) :=
  match fuel with
  | 0 => throw Diverged
  | S fuel =>
      match current_id with
      | None => mret None
      | Some id =>
          found ← entity_find_by_id id;
          match found with
          | None => mret None
          | Some execution =>
              match process_variable execution name with
              | Some v => mret (Some (ex_id execution, v))
              | None => find_variable_loop fuel name (ex_parent_id execution)
              end
          end
      end
  end.

Definition find_execution_variable (execution_id name : string) : EngineM (option (string * Value)) :=
  c ← get; find_variable_loop (chain_fuel c) name (Some execution_id).

Definition uses_collection (mi : MultiInstanceLoopCharacteristics) : bool :=
  match mi_input_data_item mi, mi_collection_string mi with None, None => false | _, _ => true end.

Definition resolve_collection_items (mi : MultiInstanceLoopCharacteristics) (execution : Execution)
  : CommandM (option (list Value)) :=
  let resolve (obj : option Value) :=
    match obj with
    | Some (VArray items) => mret (Some items)
    | Some (VString name) =>
        resolved ← in_context (find_execution_variable (ex_id execution) name);
        match resolved with
        | Some (_, VArray items) => mret (Some items)
        | Some (_, other) =>
            throw (Raised (BadRequest [Lit "Variable '"; Lit name; Lit "':"; ShowJson other; Lit " is not a Collection"]))
        | None => throw (Raised (BadRequest [Lit "Variable '"; Lit name; Lit "' was not found"]))
        end
    | Some other =>
        throw (Raised (BadRequest [Lit "Couldn't resolve collection expression, variable reference or string (got ";
                                   Lit (variable_type_name other); Lit ")"]))
    | None =>
        throw (Raised (BadRequest [Lit "Couldn't resolve collection expression (";
                                   Lit (unwrap_or EmptyString (or_else (mi_input_data_item mi) (mi_collection_string mi)));
                                   Lit "), variable reference or string"]))
    end in
  match mi_input_data_item mi, mi_collection_string mi with
  | Some input, _ => obj ← evaluated (trim input) execution; resolve obj
  | None, Some cs => resolve (Some (VString (trim cs)))
  | None, None => mret None
  end.

Definition multi_instance_completion_condition_satisfied (mi : MultiInstanceLoopCharacteristics)
    (execution : Execution) : CommandM bool :=
  match mi_completion_condition mi with
  | None => mret false
  | Some condition =>
      scope ← in_context (evaluation_execution execution);
      match get_value_strict condition scope with
      | Err error =>
          throw (Raised (ExecutionError ([Lit "Multi-instance completionCondition failed (elementId: ";
                                          DebugOptStr (ex_activity_id execution); Lit "): "] ++ error)))
      | Ok (Some (VBool value)) => mret value
      | Ok (Some VNull) | Ok None =>
          throw (Raised (ExecutionError [Lit "condition expression returns null (elementId: ";
                                         DebugOptStr (ex_activity_id execution); Lit ")"]))
      | Ok (Some value) =>
          throw (Raised (ExecutionError [Lit "condition expression returns non-Boolean (elementId: ";
                                         DebugOptStr (ex_activity_id execution); Lit "): "; ShowJson value]))
      end
  end.

(** ** Executions *)
Definition clear_variables (e : Execution) : Execution :=
  set_transient_variables ∅ (set_local_variables ∅ (set_variables ∅ e)).

Definition new_child_execution (template : Execution) (parent_id : option string) : CommandM Execution :=
  id ← in_context uuid_new_v4;
  mret (mkExecution id parent_id (ex_super_execution_id template) (ex_root_process_instance_id template)
          (ex_process_instance_id template) (ex_process_definition_id template) (ex_process_definition_key template)
          (ex_process_definition_name template) (ex_process_definition_version template) (ex_activity_id template)
          (ex_activity_name template) None None (ex_is_suspended template) false true false false false
          (ex_tenant_id template) None None ∅ ∅ ∅ false).

Definition materialize_multi_instance_root (execution : Execution) : CommandM Execution :=
  if ex_is_multi_instance_root execution then mret execution
  else if is_process_instance_scope_execution execution then
    mi_root ← new_child_execution execution (Some (ex_id execution));
    let mi_root := clear_variables (set_is_ended false (set_is_scope false (set_is_active false
                     (set_is_multi_instance_root true mi_root)))) in
    let execution := set_activity_name None (set_activity_id None (set_is_active false execution)) in
    in_context (entity_update execution) ;;
    in_context (entity_insert mi_root) ;;
    mret mi_root
  else
    let old_id := ex_id execution in
    mi_root ← new_child_execution execution (ex_parent_id execution);
    let mi_root := set_activity_name (ex_activity_name execution) (set_activity_id (ex_activity_id execution) mi_root) in
    let mi_root := clear_variables (set_is_ended false (set_is_scope false (set_is_active false
                     (set_is_multi_instance_root true mi_root)))) in
    host (delete_event_wait_state_by_execution_id old_id) ;;
    host (delete_boundary_event_states_by_host_execution_id old_id) ;;
    in_jobs (delete_timer_job_states_by_execution_id old_id) ;;
    in_context (entity_delete old_id) ;;
    in_context (entity_insert mi_root) ;;
    mret mi_root.

(** The execution itself, or the nearest root above it. *)
Fixpoint root_above (fuel : nat) (current_parent : option string) : EngineM (option Execution) :=
  match fuel with
  | 0 => throw Diverged
  | S fuel =>
      match current_parent with
      | None => mret None
      | Some parent_id =>
          found ← entity_find_by_id parent_id;
          match found with
          | None => mret None
          | Some parent =>
              if ex_is_multi_instance_root parent then mret (Some parent)
              else root_above fuel (ex_parent_id parent)
          end
      end
  end.

Definition resolve_multi_instance_root (execution : Execution) : CommandM (option Execution) :=
  if ex_is_multi_instance_root execution then
    found ← find_by_id (ex_id execution);
    mret (or_else found (Some execution))
  else in_context (c ← get; root_above (chain_fuel c) (ex_parent_id execution)).

Definition boundary_host_execution_id (execution : Execution) : CommandM string :=
  match ex_parent_id execution with
  | Some parent_id =>
      found ← find_by_id parent_id;
      mret (match found with
            | Some parent => if ex_is_multi_instance_root parent then parent_id else ex_id execution
            | None => ex_id execution
            end)
  | None => mret (ex_id execution)
  end.

(** The type of an element as the events name it. *)
Definition mi_activity_type (process_definition_id activity_id : option string) : string :=
  unwrap_or "activity" (
    aid ← activity_id;
    pd ← process_definition_id;
    model ← get_bpmn_model pd;
    process ← bm_main_process model;
    flow_element_type <$> map_get aid (pr_flow_element_map process)).

(** ** History *)
Definition record_mi_child_activity_start (child : Execution) : CommandM unit :=
  let_some activity_id := ex_activity_id child in
  let_some process_def_id := ex_process_definition_id child in
  let_some process_instance_id := ex_process_instance_id child in
  let_some bpmn_model := get_bpmn_model process_def_id in
  let_some main_process := bm_main_process bpmn_model in
  let_some flow_element := find_flow_element main_process activity_id in
  on_history (record_activity_start (unwrap_or "<unknown>" (flow_element_id flow_element))
                (flow_element_type flow_element) process_instance_id (ex_id child)).

Definition record_mi_child_activity_end (child : Execution) : CommandM unit :=
  let_some activity_id := ex_activity_id child in
  in_context (history_activity_end (ex_id child) activity_id).

(** The history manager's end with a delete reason is the one without when
    there is none. *)
Definition end_activity (execution_id activity_id : string) (delete_reason : option string) : CommandM unit :=
  match delete_reason with
  | None => in_context (history_activity_end execution_id activity_id)
  | Some reason => on_history (record_activity_cancelled execution_id activity_id reason)
  end.

Definition record_activity_end_for_execution (execution_id : string) (delete_reason : option string) : CommandM unit :=
  found ← find_by_id execution_id;
  let_some execution := found in
  if ex_is_multi_instance_root execution then mret tt
  else
    let_some activity_id := ex_activity_id execution in
    if bool_decide (activity_id = EmptyString) then mret tt
    else end_activity execution_id activity_id delete_reason.

(** ** Deleting executions *)
Definition message_cancelled (activity_id event_ref : string) (process_instance_id execution_id : string)
    (process_definition_id : option string) : CommandM unit :=
  in_context (add_post_agenda_event (activity_message_cancelled activity_id event_ref (Some process_instance_id)
                (Some execution_id) process_definition_id)).

Definition dispatch_message_cancelled_for_execution (execution_id : string) : CommandM unit :=
  found ← find_by_id execution_id;
  let process_definition_id := found ≫= ex_process_definition_id in
  wait ← ask (find_event_wait_state_by_execution_id execution_id);
  match wait with
  | Some wait =>
      match ws_event_subscription wait with
      | Some sub =>
          if bool_decide (es_kind sub = KindMessage)
          then message_cancelled (unwrap_or EmptyString (ws_activity_id wait)) (es_event_ref sub)
                 (ws_process_instance_id wait) execution_id process_definition_id
          else mret tt
      | None => mret tt
      end
  | None => mret tt
  end ;;
  boundaries ← ask (find_boundary_event_states_by_host_execution_id execution_id);
  for_each boundaries (fun boundary =>
    if bool_decide (es_kind (bs_event_subscription boundary) = KindMessage)
    then message_cancelled (bs_boundary_event_id boundary) (es_event_ref (bs_event_subscription boundary))
           (bs_process_instance_id boundary) execution_id process_definition_id
    else mret tt).

Definition delete_execution_related_runtime_data (execution_id : string) : CommandM unit :=
  task ← ask (find_task_by_execution_id execution_id);
  match task with Some task => host (delete_task (tk_id task)) | None => mret tt end ;;
  host (delete_event_wait_state_by_execution_id execution_id) ;;
  host (delete_boundary_event_states_by_host_execution_id execution_id) ;;
  in_jobs (delete_timer_job_states_by_execution_id execution_id).

Definition dispatch_root_cancelled (execution_id : string) (delete_reason : option string) : CommandM unit :=
  match delete_reason with
  | None => mret tt
  | Some _ =>
      found ← find_by_id execution_id;
      let_some execution := found in
      if ex_is_multi_instance_root execution then
        let_some activity_id := ex_activity_id execution in
        in_context (add_post_agenda_event (multi_instance_activity_cancelled activity_id
          (mi_activity_type (ex_process_definition_id execution) (Some activity_id))
          (ex_process_instance_id execution) (Some (ex_id execution)) (ex_process_definition_id execution)))
      else mret tt
  end.

Definition delete_execution_and_related_data (execution_id : string) (delete_reason : option string) : CommandM unit :=
  dispatch_root_cancelled execution_id delete_reason ;;
  dispatch_message_cancelled_for_execution execution_id ;;
  record_activity_end_for_execution execution_id delete_reason ;;
  delete_execution_related_runtime_data execution_id ;;
  host (delete_event_subprocess_event_subscriptions_by_scope_execution_id execution_id) ;;
  in_context (entity_delete execution_id).

Fixpoint delete_tree (fuel : nat) (root_id : string) (delete_reason : option string) : CommandM unit :=
  match fuel with
  | 0 => throw Diverged
  | S fuel =>
      children ← children_of root_id;
      for_each (ex_id <$> children) (fun child_id => delete_tree fuel child_id delete_reason) ;;
      delete_execution_and_related_data root_id delete_reason
  end.

Definition delete_execution_tree_with_reason (root_id : string) (delete_reason : option string) : CommandM unit :=
  s ← get; delete_tree (S (size (tokens (st_context s)))) root_id delete_reason.

Definition delete_execution_tree (root_id : string) : CommandM unit :=
  delete_execution_tree_with_reason root_id None.

(** ** Leaving the activity *)
Definition MI_ROOT_BOOKKEEPING : list string := ["nrOfInstances"; "nrOfCompletedInstances"; "nrOfActiveInstances"].

Definition not_bookkeeping (m : gmap string Value) : gmap string Value :=
  filter (fun kv => kv.1 ∉ MI_ROOT_BOOKKEEPING) m.

Definition promote_mi_root_variables_to_parent (mi_root : Execution) : CommandM unit :=
  let_some parent_id := ex_parent_id mi_root in
  found ← find_by_id parent_id;
  let_some parent := found in
  live ← find_by_id (ex_id mi_root);
  let live_root := unwrap_or mi_root live in
  let parent := set_variables (not_bookkeeping (ex_variables live_root) ∪ ex_variables parent) parent in
  let parent := set_variables (not_bookkeeping (ex_local_variables live_root) ∪ ex_variables parent) parent in
  in_context (entity_update parent).

Definition cleanup_mi_root_and_leave (mi_body_execution : Execution) (completed_with_condition : bool) : CommandM unit :=
  resolved ← resolve_multi_instance_root mi_body_execution;
  match resolved with
  | None =>
      let leave := set_is_multi_instance_root false (set_is_ended false (set_is_active true mi_body_execution)) in
      in_context (entity_update leave) ;;
      in_context (plan_take_outgoing_sequence_flows_operation leave)
  | Some mi_root =>
      in_context (add_post_agenda_event (multi_instance_activity_completed completed_with_condition
        (unwrap_or EmptyString (ex_activity_id mi_root))
        (mi_activity_type (ex_process_definition_id mi_root) (ex_activity_id mi_root))
        (ex_process_instance_id mi_root) (Some (ex_id mi_root)) (ex_process_definition_id mi_root))) ;;
      promote_mi_root_variables_to_parent mi_root ;;
      delete_execution_tree (ex_id mi_root) ;;
      leave ← new_child_execution mi_root (ex_parent_id mi_root);
      let leave := set_activity_name (ex_activity_name mi_root) (set_activity_id (ex_activity_id mi_root) leave) in
      let leave := clear_variables (set_is_scope false (set_is_ended false (set_is_active true
                     (set_is_multi_instance_root false leave)))) in
      in_context (entity_insert leave) ;;
      in_context (plan_take_outgoing_sequence_flows_operation leave)
  end.

(** ** Instances *)
Definition child_has_wait_state (child : Execution) : CommandM bool :=
  task ← ask (find_task_by_execution_id (ex_id child));
  match task with
  | Some _ => mret true
  | None =>
      wait ← ask (find_event_wait_state_by_execution_id (ex_id child));
      match wait with
      | Some _ => mret true
      | None =>
          children ← children_of (ex_id child);
          mret (match children with [] => false | _ => true end)
      end
  end.

Definition create_sequential_instance_child (mi_root : Execution) (is_scope : bool) : CommandM Execution :=
  id ← in_context uuid_new_v4;
  let child := set_parent_id (Some (ex_id mi_root)) (set_id id mi_root) in
  let child := set_is_multi_instance_root false (set_is_scope is_scope (set_is_ended false (set_is_active true child))) in
  let child := clear_variables child in
  in_context (entity_insert child) ;;
  mret child.

Definition find_reusable_sequential_child (mi_root_id : string) : CommandM (option Execution) :=
  children ← children_of mi_root_id;
  mret (List.find (fun child => negb (ex_is_ended child)) children).

Definition clear_sequential_instance_locals (child : Execution) : Execution :=
  set_transient_variables ∅ (set_variables ∅
    (set_local_variables (filter (fun kv => kv.1 ∈ MI_ROOT_BOOKKEEPING) (ex_local_variables child)) child)).

Definition end_sequential_instance_child (child : Execution) : CommandM unit :=
  in_context (entity_update (set_is_ended true (set_is_active false child))).

Definition apply_instance_variables (mi : MultiInstanceLoopCharacteristics) (index : Z) (item : option Value)
    (child : Execution) : Execution :=
  let child := set_local_variable "loopCounter" (value_of_i64 index) child in
  let child := match mi_element_index_variable mi with
               | Some index_variable => set_local_variable index_variable (value_of_i64 index) child
               | None => child
               end in
  match mi_element_variable mi, item with
  | Some element_variable, Some item => set_local_variable element_variable item child
  | _, _ => child
  end.

(** [items.get(index as usize)]: a negative index is past the end. *)
Definition instance_item (collection_items : option (list Value)) (index : Z) : option Value :=
  items ← collection_items; if (index <? 0)%Z then None else items !! Z.to_nat index.

Definition set_bookkeeping (total active completed : Z) (execution : Execution) : Execution :=
  set_local_variable "nrOfCompletedInstances" (value_of_i64 completed)
    (set_local_variable "nrOfActiveInstances" (value_of_i64 active)
       (set_local_variable "nrOfInstances" (value_of_i64 total) execution)).

Section Instances.
Variable mi : MultiInstanceLoopCharacteristics.
Variable inner : Execution -> CommandM Execution.
Variable total : Z.
Variable collection_items : option (list Value).

(** *** One after the other *)

(** The [while] loop; [rounds] is [total - current_index]. *)
Fixpoint sequential_rounds (rounds : nat) (current_index : Z) (execution child : Execution) : CommandM Execution :=
  match rounds with
  | 0 =>
      record_mi_child_activity_end child ;;
      end_sequential_instance_child child ;;
      cleanup_mi_root_and_leave execution false ;;
      mret execution
  | S rounds =>
      let execution := set_bookkeeping total 1 current_index execution in
      in_context (entity_update execution) ;;
      let child := clear_sequential_instance_locals child in
      let child := apply_instance_variables mi current_index (instance_item collection_items current_index) child in
      let child := set_is_ended false (set_is_active true child) in
      in_context (entity_update child) ;;
      record_mi_child_activity_start child ;;
      child ← inner child;
      waiting ← child_has_wait_state child;
      if waiting : bool then in_context (entity_update child) ;; mret execution
      else
        record_mi_child_activity_end child ;;
        let execution := set_local_variable "nrOfActiveInstances" (value_of_i64 1)
                           (set_local_variable "nrOfCompletedInstances" (value_of_i64 (current_index + 1)) execution) in
        satisfied ← multi_instance_completion_condition_satisfied mi execution;
        if satisfied : bool then
          record_mi_child_activity_end child ;;
          end_sequential_instance_child child ;;
          cleanup_mi_root_and_leave execution true ;;
          mret execution
        else sequential_rounds rounds (current_index + 1) execution child
  end.

Definition execute_sequential_subprocess (execution : Execution) (index : Z) : CommandM Execution :=
  if (total <=? index)%Z then cleanup_mi_root_and_leave execution false ;; mret execution
  else
    let execution := set_bookkeeping total 1 index execution in
    in_context (entity_update execution) ;;
    child ← create_sequential_instance_child execution true;
    let child := apply_instance_variables mi index (instance_item collection_items index) child in
    in_context (entity_update child) ;;
    inner child ;;
    mret execution.

Definition execute_sequential (inner_is_subprocess : bool) (execution : Execution) (index : Z) : CommandM Execution :=
  if inner_is_subprocess then execute_sequential_subprocess execution index
  else
    found ← find_reusable_sequential_child (ex_id execution);
    child ← match found with
            | Some existing => mret existing
            | None => create_sequential_instance_child execution false
            end;
    sequential_rounds (Z.to_nat (total - index)) index execution child.

(** *** All at once *)
Definition parallel_child (execution : Execution) (id : string) (i : Z) : Execution :=
  let child := set_parent_id (Some (ex_id execution)) (set_id id execution) in
  let child := set_is_multi_instance_root false (set_is_scope false (set_is_active true child)) in
  apply_instance_variables mi i (instance_item collection_items i) (clear_variables child).

(** The [for] loop from [i] on; the result is the root with its counters and
    the number of completed instances. *)
Fixpoint parallel_instances (instances : nat) (i completed active : Z) (execution : Execution)
  : CommandM (Execution * Z) :=
  match instances with
  | 0 => mret (execution, completed)
  | S instances =>
      id ← in_context uuid_new_v4;
      let child := parallel_child execution id i in
      in_context (entity_insert child) ;;
      record_mi_child_activity_start child ;;
      child ← inner child;
      waiting ← child_has_wait_state child;
      if waiting : bool then
        in_context (entity_update child) ;;
        parallel_instances instances (i + 1) completed active execution
      else
        record_mi_child_activity_end child ;;
        in_context (entity_update (set_is_ended true (set_is_active false child))) ;;
        let completed := (completed + 1)%Z in
        let active := (active - 1)%Z in
        let execution := set_local_variable "nrOfActiveInstances" (value_of_i64 active)
                           (set_local_variable "nrOfCompletedInstances" (value_of_i64 completed) execution) in
        in_context (entity_update execution) ;;
        satisfied ← multi_instance_completion_condition_satisfied mi execution;
        if satisfied : bool then mret (execution, completed)
        else parallel_instances instances (i + 1) completed active execution
  end.

Definition execute_parallel (execution : Execution) : CommandM Execution :=
  let execution := set_bookkeeping total total 0 execution in
  in_context (entity_update execution) ;;
  created ← parallel_instances (Z.to_nat total) 0 0 total execution;
  let '(execution, completed_instances) := created in
  with_condition ← multi_instance_completion_condition_satisfied mi execution;
  if (completed_instances =? total)%Z || with_condition then
    cleanup_mi_root_and_leave execution with_condition ;; mret execution
  else
    let execution := set_is_active false execution in
    in_context (entity_update execution) ;;
    mret execution.
End Instances.

(** ** The behaviour *)
Definition completed_instances_of (execution : Execution) : Z :=
  match process_variable execution "nrOfCompletedInstances" ≫= as_i64 with Some n => n | None => 0 end.

Definition multi_instance_execute (inner : Execution -> CommandM Execution) (mi : MultiInstanceLoopCharacteristics)
    (inner_is_subprocess : bool) (execution : Execution) : CommandM Execution :=
  collection_items ← (if uses_collection mi then resolve_collection_items mi execution else mret None);
  loop_cardinality ← match mi_loop_cardinality mi, collection_items with
                     | Some _, _ => n ← resolve_loop_cardinality mi execution; mret (Some n)
                     | None, Some items => mret (Some (wrap_i32 (Z.of_nat (length items))))
                     | None, None => mret None
                     end;
  match loop_cardinality with
  | None => inner execution
  | Some loop_cardinality =>
      execution ← materialize_multi_instance_root execution;
      execution ← (if ex_is_active execution then
                     let execution := set_is_active false execution in
                     in_context (entity_update execution) ;; mret execution
                   else mret execution);
      if (loop_cardinality <=? 0)%Z then cleanup_mi_root_and_leave execution false ;; mret execution
      else if mi_sequential mi then
        execute_sequential mi inner loop_cardinality collection_items inner_is_subprocess execution
          (wrap_i32 (completed_instances_of execution))
      else execute_parallel mi inner loop_cardinality collection_items execution
  end.

(** ** An instance of a sub-process is left *)

(** The characteristics of an activity, as the [for] loop of
    [find_loop_characteristics_in_elements] meets them: [Some r] returns [r]. *)
Fixpoint loop_characteristics_of (activity_id : string) (e : FlowElementEnum)
  : option (option MultiInstanceLoopCharacteristics) :=
  let nested := fix nested (l : list FlowElementEnum) : option (option MultiInstanceLoopCharacteristics) :=
    match l with
    | [] => None
    | x :: l => match loop_characteristics_of activity_id x with
                | Some (Some found) => Some (Some found)
                | Some None => None
                | None => nested l
                end
    end in
  match e with
  | FEUserTask a | FEServiceTask a | FECaseServiceTask a | FECallActivity a =>
      if is_some_eq (flow_element_id e) activity_id then Some (ac_loop_characteristics a) else None
  | FESubProcess s | FETransaction s | FEAdhocSubProcess s _ _ _ =>
      if is_some_eq (flow_element_id e) activity_id then Some (ac_loop_characteristics (sp_activity s))
      else nested (sp_flow_elements s)
  | _ => None
  end.

Fixpoint find_loop_characteristics_in_elements (flow_elements : list FlowElementEnum) (activity_id : string)
  : option MultiInstanceLoopCharacteristics :=
  match flow_elements with
  | [] => None
  | e :: l => match loop_characteristics_of activity_id e with
              | Some found => found
              | None => find_loop_characteristics_in_elements l activity_id
              end
  end.

Definition resolve_mi_loop_characteristics (mi_root : Execution) : option MultiInstanceLoopCharacteristics :=
  activity_id ← ex_activity_id mi_root;
  pd_id ← ex_process_definition_id mi_root;
  model ← get_bpmn_model pd_id;
  process ← bm_main_process model;
  find_loop_characteristics_in_elements (pr_flow_elements process) activity_id.

Definition counter (name : string) (missing : Z) (execution : Execution) : Z :=
  unwrap_or missing (process_variable execution name ≫= as_i64).

(** [saturating_sub] on [i64]. *)
Definition saturating_pred (n : Z) : Z := Z.max i64_min (n - 1).

(** [+ 1] on [i64] panics on overflow. *)
Definition checked_succ (n : Z) : CommandM Z := if (n =? i64_max)%Z then throw Overflow else mret (n + 1)%Z.

Definition leave_sequential_subprocess_mi_instance (scope_execution : Execution) : CommandM bool :=
  match ex_parent_id scope_execution with
  | None => mret false
  | Some mi_root_id =>
      found ← find_by_id mi_root_id;
      match found with
      | None => mret false
      | Some mi_root =>
          if negb (ex_is_multi_instance_root mi_root) then mret false
          else
            match resolve_mi_loop_characteristics mi_root with
            | None => mret false
            | Some mi =>
                let nr_of_instances := counter "nrOfInstances" 0 mi_root in
                nr_of_completed ← checked_succ (counter "nrOfCompletedInstances" 0 mi_root);
                let mi_root := set_local_variable "nrOfCompletedInstances" (value_of_i64 nr_of_completed) mi_root in
                if mi_sequential mi then
                  let mi_root := set_local_variable "nrOfActiveInstances" (value_of_i64 1) mi_root in
                  in_context (entity_update mi_root) ;;
                  complete_condition ← multi_instance_completion_condition_satisfied mi mi_root;
                  delete_execution_tree (ex_id scope_execution) ;;
                  (if complete_condition || negb (nr_of_completed <? nr_of_instances)%Z
                   then cleanup_mi_root_and_leave mi_root complete_condition
                   else in_context (plan_continue_process_operation mi_root)) ;;
                  mret true
                else
                  let nr_of_active := saturating_pred (counter "nrOfActiveInstances" 1 mi_root) in
                  let mi_root := set_local_variable "nrOfActiveInstances" (value_of_i64 nr_of_active) mi_root in
                  in_context (entity_update mi_root) ;;
                  delete_execution_tree (ex_id scope_execution) ;;
                  complete_condition ← multi_instance_completion_condition_satisfied mi mi_root;
                  (if complete_condition || (nr_of_instances <=? nr_of_completed)%Z || (nr_of_active <=? 0)%Z
                   then cleanup_mi_root_and_leave mi_root complete_condition
                   else mret tt) ;;
                  mret true
            end
      end
  end.
End MultiInstance.

(** ** Soundness

    A multi-instance activity keeps the context sound whenever the behaviour
    inside it does. *)
#[export] Hint Extern 1 (keeps _ (in_context _) _) => apply keeps_in_context; keep_prim : keeps.

Section Sound.
Context {env : Env} {uuids : UuidLaws} {acts : Activities}.

Lemma keeps_host_table ids f : host_only f -> keeps ids (host f) nothing.
Proof. intros Hf. by apply keeps_in_context, keeps_host. Qed.

Lemma keeps_ask {A} ids (f : DbSession -> A * DbSession) :
  (forall s, db_closed s = false -> (f s).2 = s) -> keeps ids (ask f) nothing.
Proof. intros Hf. by apply keeps_in_context, keeps_query. Qed.

Lemma keeps_find_by_id ids i : keeps ids (find_by_id i) found_ids.
Proof. apply keeps_in_context, keeps_find. Qed.

Lemma keeps_children ids i : keeps ids (children_of i) (fun l => ex_id <$> l).
Proof.
  apply keeps_in_context. unfold find_child_executions_by_parent_execution_id.
  eapply keeps_then; [apply keeps_snapshot|intros all]. apply keeps_return.
  intros k (e & -> & He)%list_elem_of_fmap. apply list_elem_of_In, filter_In in He as [He%list_elem_of_In _].
  apply elem_of_app. left.
  apply list_elem_of_fmap. by exists e.
Qed.

Lemma keeps_evaluate ids e : keeps ids (in_context (evaluation_execution e)) nothing.
Proof. apply keeps_in_context, keeps_evaluation. Qed.

Lemma keeps_fail {A} ids (r : result FlowableError A) : keeps ids (in_context (attempt r)) nothing.
Proof. apply keeps_in_context, keeps_attempt. usable_ids. Qed.

Lemma keeps_delete_jobs ids i : keeps ids (in_jobs (delete_timer_job_states_by_execution_id i)) nothing.
Proof.
  intros s Hc Hw Hi. unfold in_jobs, delete_timer_job_states_by_execution_id, job_delete_by.
  assert (Ho : js_closed (job_session s) = false) by apply (context_closed _ (proj1 Hc)). rewrite Ho.
  apply (set_jobs_keeps (filter _ _) s Hc). intros k r Hr. apply map_lookup_filter_Some in Hr as [Hr _]. by apply Hw.
Qed.

Lemma keeps_history_end ids i a : keeps ids (in_context (history_activity_end i a)) nothing.
Proof. apply keeps_in_context, keeps_history. Qed.
#[local] Hint Resolve keeps_host_table keeps_ask keeps_find_by_id keeps_children keeps_evaluate keeps_fail
  keeps_delete_jobs keeps_history_end keeps_on_history : keeps.
#[local] Hint Resolve query_task query_wait query_boundary host_delete_task host_delete_wait host_delete_boundary
  host_delete_subprocess : keeps.

Lemma keeps_evaluated ids t e : keeps ids (evaluated t e) nothing.
Proof. unfold evaluated. keep. Qed.
#[local] Hint Resolve keeps_evaluated : keeps.

Lemma keeps_cardinality ids mi e : keeps ids (resolve_loop_cardinality mi e) nothing.
Proof. unfold resolve_loop_cardinality. keep. Qed.

Lemma keeps_find_variable ids fuel n i : keeps ids (find_variable_loop fuel n i) nothing.
Proof.
  revert i ids. induction fuel as [|fuel IH]; intros i ids; [apply keeps_throw|]. simpl.
  destruct i as [i|]; [|keep]. eapply keeps_then; [apply keeps_find|intros [x|]]; [|keep].
  destruct (process_variable x n); [keep|apply IH].
Qed.
#[local] Hint Resolve keeps_find_variable : keeps.

Lemma keeps_collection ids mi e : keeps ids (resolve_collection_items mi e) nothing.
Proof.
  unfold resolve_collection_items. cbv zeta.
  assert (Hres : forall ids name, keeps ids (in_context (find_execution_variable (ex_id e) name)) nothing)
    by (intros; apply keeps_in_context; unfold find_execution_variable; keep).
  destruct (mi_input_data_item mi) as [input|]; [|destruct (mi_collection_string mi) as [cs|]]; [| |keep].
  - eapply keeps_then; [apply keeps_evaluated|intros [[]|]]; keep.
  - eapply keeps_then; [apply Hres|intros [[? []]|]]; keep.
Qed.

Lemma keeps_satisfied ids mi e : keeps ids (multi_instance_completion_condition_satisfied mi e) nothing.
Proof. unfold multi_instance_completion_condition_satisfied. keep. Qed.

Lemma keeps_new_child ids t p : keeps ids (new_child_execution t p) (fun e => [ex_id e]).
Proof. unfold new_child_execution. keep. Qed.

Lemma keeps_materialize ids e :
  ex_id e ∈ ids -> keeps ids (materialize_multi_instance_root e) (fun e' => [ex_id e']).
Proof.
  intros Hin. unfold materialize_multi_instance_root. cbv zeta.
  destruct (ex_is_multi_instance_root e); [keep|]. destruct (is_process_instance_scope_execution e).
  - eapply keeps_then; [apply keeps_new_child|intros r]. keep.
  - eapply keeps_then; [apply keeps_new_child|intros r]. keep.
Qed.

Lemma keeps_root_above ids fuel p : keeps ids (root_above fuel p) found_ids.
Proof.
  revert p ids. induction fuel as [|fuel IH]; intros p ids; [apply keeps_throw|]. simpl.
  destruct p as [p|]; [|keep]. eapply keeps_then; [apply keeps_find|intros [x|]]; [|keep].
  destruct (ex_is_multi_instance_root x); [keep|apply IH].
Qed.
#[local] Hint Resolve keeps_root_above : keeps.

Lemma keeps_resolve_root ids e : ex_id e ∈ ids -> keeps ids (resolve_multi_instance_root e) found_ids.
Proof.
  intros Hin. unfold resolve_multi_instance_root. destruct (ex_is_multi_instance_root e).
  - eapply keeps_then; [apply keeps_find_by_id|intros [x|]]; keep.
  - apply keeps_in_context. keep.
Qed.

Lemma keeps_child_start ids e : keeps ids (record_mi_child_activity_start e) nothing.
Proof. unfold record_mi_child_activity_start. keep. Qed.

Lemma keeps_child_end ids e : keeps ids (record_mi_child_activity_end e) nothing.
Proof. unfold record_mi_child_activity_end. keep. Qed.

Lemma keeps_end_activity ids i a r : keeps ids (end_activity i a r) nothing.
Proof. unfold end_activity. keep. Qed.
#[local] Hint Resolve keeps_end_activity keeps_child_start keeps_child_end keeps_satisfied : keeps.

Lemma keeps_record_end ids i r : keeps ids (record_activity_end_for_execution i r) nothing.
Proof. unfold record_activity_end_for_execution. keep. Qed.

Lemma keeps_message ids a ev pi i d : keeps ids (message_cancelled a ev pi i d) nothing.
Proof. apply keeps_in_context, keeps_event. Qed.
#[local] Hint Resolve keeps_message : keeps.

Lemma keeps_cancelled ids i : keeps ids (dispatch_message_cancelled_for_execution i) nothing.
Proof.
  unfold dispatch_message_cancelled_for_execution. cbv zeta.
  eapply keeps_then; [apply keeps_find_by_id|intros found].
  eapply keeps_then; [apply keeps_ask; intros; by apply query_wait|intros wait].
  eapply keeps_then with (mid := nothing); [keep|intros ?].
  eapply keeps_then; [apply keeps_ask; intros; by apply query_boundary|intros l].
  apply keeps_for_each. intros b _. keep.
Qed.

Lemma keeps_runtime_data ids i : keeps ids (delete_execution_related_runtime_data i) nothing.
Proof.
  unfold delete_execution_related_runtime_data.
  eapply keeps_then; [apply keeps_ask; intros; by apply query_task|intros t].
  eapply keeps_then with (mid := nothing); [|intros ?]; keep.
Qed.

Lemma keeps_root_cancelled ids i r : keeps ids (dispatch_root_cancelled i r) nothing.
Proof. unfold dispatch_root_cancelled. keep. Qed.
#[local] Hint Resolve keeps_record_end keeps_cancelled keeps_runtime_data keeps_root_cancelled : keeps.

Lemma keeps_delete_execution ids i r : keeps ids (delete_execution_and_related_data i r) nothing.
Proof. unfold delete_execution_and_related_data. keep. Qed.

Lemma keeps_delete_tree ids fuel i r : keeps ids (delete_tree fuel i r) nothing.
Proof.
  revert ids i. induction fuel as [|fuel IH]; intros ids i; [apply keeps_throw|]. simpl.
  eapply keeps_then; [apply keeps_children|intros l].
  eapply keeps_then; [apply keeps_for_each; intros k _; apply IH|intros ?]. apply keeps_delete_execution.
Qed.
#[local] Hint Resolve keeps_delete_tree : keeps.

Lemma keeps_delete_all ids i : keeps ids (delete_execution_tree i) nothing.
Proof. unfold delete_execution_tree, delete_execution_tree_with_reason. keep. Qed.

Lemma keeps_promote ids e : keeps ids (promote_mi_root_variables_to_parent e) nothing.
Proof. unfold promote_mi_root_variables_to_parent. cbv zeta. keep. Qed.
#[local] Hint Resolve keeps_delete_all keeps_promote keeps_new_child : keeps.

Lemma keeps_cleanup ids e b : ex_id e ∈ ids -> keeps ids (cleanup_mi_root_and_leave e b) nothing.
Proof.
  intros Hin. unfold cleanup_mi_root_and_leave. eapply keeps_then; [by apply keeps_resolve_root|intros [r|]]; cbv zeta.
  - keep.
  - keep.
Qed.

Lemma keeps_waiting ids e : keeps ids (child_has_wait_state e) nothing.
Proof. unfold child_has_wait_state. keep. Qed.

Lemma keeps_create ids r b : keeps ids (create_sequential_instance_child r b) (fun e => [ex_id e]).
Proof. unfold create_sequential_instance_child. cbv zeta. keep. Qed.

Lemma keeps_reusable ids i : keeps ids (find_reusable_sequential_child i) found_ids.
Proof.
  unfold find_reusable_sequential_child. eapply keeps_then; [apply keeps_children|intros l]. apply keeps_return.
  destruct (List.find _ l) as [x|] eqn:E; [|usable_ids]. apply List.find_some in E as [E _].
  apply list_elem_of_In in E. simpl. intros k ->%list_elem_of_singleton. apply elem_of_app. left.
  apply list_elem_of_fmap. by exists x.
Qed.

Lemma keeps_end_child ids e : ex_id e ∈ ids -> keeps ids (end_sequential_instance_child e) nothing.
Proof. intros Hin. unfold end_sequential_instance_child. keep. Qed.
#[local] Hint Resolve keeps_waiting : keeps.
#[local] Hint Extern 1 (keeps _ (cleanup_mi_root_and_leave _ _) _) => apply keeps_cleanup; usable_ids : keeps.
#[local] Hint Extern 1 (keeps _ (end_sequential_instance_child _) _) => apply keeps_end_child; usable_ids : keeps.

Lemma apply_instance_id mi i item e : ex_id (apply_instance_variables mi i item e) = ex_id e.
Proof.
  unfold apply_instance_variables. by destruct (mi_element_index_variable mi), (mi_element_variable mi), item.
Qed.

(** What is relied on of the behaviour inside. *)
Definition behavior_sound (inner : Execution -> CommandM Execution) : Prop :=
  forall e, keeps [ex_id e] (inner e) (fun e' => [ex_id e']).

Section Inner.
Context (inner : Execution -> CommandM Execution) (inner_sound : behavior_sound inner).

Lemma keeps_inner ids e : ex_id e ∈ ids -> keeps ids (inner e) (fun e' => [ex_id e']).
Proof. intros Hin. eapply keeps_weaken; [apply inner_sound|set_solver|set_solver]. Qed.

Lemma keeps_rounds mi total items ids n i e ch :
  ex_id e ∈ ids -> ex_id ch ∈ ids ->
  keeps ids (sequential_rounds mi inner total items n i e ch) (fun e' => [ex_id e']).
Proof.
  revert ids i e ch. induction n as [|n IH]; intros ids i e ch He Hc; simpl.
  - keep.
  - eapply keeps_then; [apply keeps_in_context, keeps_update; usable_ids|intros ?].
    eapply keeps_then; [apply keeps_in_context, keeps_update; cbn [ex_id set_is_ended set_is_active];
      rewrite apply_instance_id; usable_ids|intros ?].
    eapply keeps_then; [apply keeps_child_start|intros ?].
    eapply keeps_then; [apply keeps_inner; cbn [ex_id set_is_ended set_is_active];
      rewrite apply_instance_id; usable_ids|intros ch'].
    eapply keeps_then; [apply keeps_waiting|intros [|]]; [keep|].
    eapply keeps_then; [apply keeps_child_end|intros ?].
    eapply keeps_then; [apply keeps_satisfied|intros [|]]; [keep|]. apply IH; usable_ids.
Qed.

Lemma keeps_sequential mi total items b ids e i :
  ex_id e ∈ ids -> keeps ids (execute_sequential mi inner total items b e i) (fun e' => [ex_id e']).
Proof.
  intros He. unfold execute_sequential, execute_sequential_subprocess. destruct b.
  - destruct (total <=? i)%Z; [keep|]. cbv zeta.
    eapply keeps_then; [apply keeps_in_context, keeps_update; usable_ids|intros ?].
    eapply keeps_then; [apply keeps_create|intros ch].
    eapply keeps_then; [apply keeps_in_context, keeps_update; rewrite apply_instance_id; usable_ids|intros ?].
    eapply keeps_then; [apply keeps_inner; rewrite apply_instance_id; usable_ids|intros ?]. keep.
  - eapply keeps_then; [apply keeps_reusable|intros found].
    eapply keeps_then with (mid := fun x => [ex_id x]).
    + destruct found; [keep|apply keeps_create].
    + intros ch. apply keeps_rounds; usable_ids.
Qed.

Lemma keeps_parallel_instances mi items ids n i k a e :
  ex_id e ∈ ids -> keeps ids (parallel_instances mi inner items n i k a e) (fun r => [ex_id r.1]).
Proof.
  revert ids i k a e. induction n as [|n IH]; intros ids i k a e He; simpl; [keep|].
  eapply keeps_then; [apply keeps_in_context, keeps_uuid|intros u].
  assert (Hid : ex_id (parallel_child mi items e u i) = u) by apply apply_instance_id.
  eapply keeps_then; [apply keeps_in_context, keeps_write; rewrite Hid; usable_ids|intros ?].
  eapply keeps_then; [apply keeps_child_start|intros ?].
  eapply keeps_then; [apply keeps_inner; rewrite Hid; usable_ids|intros ch].
  eapply keeps_then; [apply keeps_waiting|intros [|]].
  - eapply keeps_then; [apply keeps_in_context, keeps_update; usable_ids|intros ?]. apply IH. usable_ids.
  - eapply keeps_then; [apply keeps_child_end|intros ?].
    eapply keeps_then; [apply keeps_in_context, keeps_update; usable_ids|intros ?].
    eapply keeps_then; [apply keeps_in_context, keeps_update; usable_ids|intros ?].
    eapply keeps_then; [apply keeps_satisfied|intros [|]]; [keep|]. apply IH. usable_ids.
Qed.

Lemma keeps_multi_instance mi b : behavior_sound (multi_instance_execute inner mi b).
Proof.
  intros e. unfold multi_instance_execute.
  eapply keeps_then with (mid := nothing); [destruct (uses_collection mi); [apply keeps_collection|keep]|intros items].
  eapply keeps_then with (mid := nothing).
  { destruct (mi_loop_cardinality mi) as [t|]; [|destruct items; keep].
    eapply keeps_then; [apply keeps_cardinality|intros ?]. keep. }
  intros [n|]; [|apply keeps_inner; usable_ids].
  eapply keeps_then; [apply keeps_materialize; usable_ids|intros r].
  eapply keeps_then with (mid := fun x => [ex_id x]); [destruct (ex_is_active r); keep|intros x].
  destruct (n <=? 0)%Z; [keep|]. destruct (mi_sequential mi); [apply keeps_sequential; usable_ids|].
  unfold execute_parallel. cbv zeta.
  eapply keeps_then; [apply keeps_in_context, keeps_update; usable_ids|intros ?].
  eapply keeps_then; [apply keeps_parallel_instances; usable_ids|intros [y k]].
  eapply keeps_then; [apply keeps_satisfied|intros w]. destruct (_ || _); keep.
Qed.
End Inner.

Lemma keeps_leave_instance ids e : keeps ids (leave_sequential_subprocess_mi_instance e) nothing.
Proof.
  unfold leave_sequential_subprocess_mi_instance, checked_succ. cbv zeta.
  destruct (ex_parent_id e); [|keep]. eapply keeps_then; [apply keeps_find_by_id|intros [r|]]; [|keep].
  destruct (negb _); [keep|]. destruct (resolve_mi_loop_characteristics r) as [mi|]; [|keep].
  eapply keeps_then with (mid := nothing); [keep|intros k]. destruct (mi_sequential mi).
  - eapply keeps_then; [apply keeps_in_context, keeps_update; usable_ids|intros ?].
    eapply keeps_then; [apply keeps_satisfied|intros w].
    eapply keeps_then; [apply keeps_delete_all|intros ?].
    eapply keeps_then with (mid := nothing); [destruct (_ || _); keep|intros ?]. keep.
  - eapply keeps_then; [apply keeps_in_context, keeps_update; usable_ids|intros ?].
    eapply keeps_then; [apply keeps_delete_all|intros ?].
    eapply keeps_then; [apply keeps_satisfied|intros w].
    eapply keeps_then with (mid := nothing); [destruct (_ || _); keep|intros ?]. keep.
Qed.
End Sound.

(** ** The engine with multi-instance activities

    The behaviours of [Activities], the multi-instance ones replaced by the
    code above; what goes on inside is again any behaviour. *)
Section Engine.
Context {env : Env} {uuids : UuidLaws}.

Fixpoint engine_behavior `{!Activities} (b : Behavior) (e : Execution) : CommandM Execution :=
  match b with
  | MultiInstanceBehavior inner mi inner_is_subprocess =>
      multi_instance_execute (engine_behavior inner) mi inner_is_subprocess e
  | _ => behavior_execute b e
  end.

Definition with_multi_instance (acts : Activities) : Activities := {|
  record_activity_start := record_activity_start;
  record_activity_cancelled := record_activity_cancelled;
  delete_open_historic_activity_instance := delete_open_historic_activity_instance;
  clock := clock;
  number_of_retries := number_of_retries;
  activity_display := activity_display;
  other_behavior b e := match b with
                        | MultiInstanceBehavior _ _ _ => engine_behavior b e
                        | _ => other_behavior b e
                        end
|}.

Lemma engine_behavior_sound {acts : Activities} {laws : ActivityLaws} b : behavior_sound (engine_behavior b).
Proof.
  induction b; try (intros e; apply (keeps_behavior [ex_id e] _ e); set_solver). by apply keeps_multi_instance.
Qed.

(** The laws of [ActivityLaws] for the multi-instance behaviours are
    discharged: with any behaviours that keep the context sound, so do their
    multi-instance versions, nested ones included. *)
Theorem multi_instance_laws (acts : Activities) (laws : ActivityLaws) : @ActivityLaws env (with_multi_instance acts).
Proof.
  constructor; [apply (@clock_i64 _ acts _)|apply (@retries_i64 _ acts _)|].
  intros b e. destruct (match b with MultiInstanceBehavior _ _ _ => true | _ => false end) eqn:E.
  - destruct b; try done. by apply (engine_behavior_sound (MultiInstanceBehavior _ _ _)).
  - destruct b; try done; apply (@behavior_keeps _ acts _).
Qed.
End Engine.
