(* ===== verification/ExecutionTrees.v ===== *)
(** * Trees of executions

    The parent links make the executions of an instance a forest.  Deleting a
    tree ([delete_execution_tree_with_reason] of [MultiInstance]) removes
    exactly the executions below its root, with what they waited for.

    The steps of a command are described by what they leave alone: [cleaned]
    says which executions are gone, [quiet] that none is.  The history manager
    is assumed to accept what it is told ([HistoryRecords]). *)
From S2P Require Import Prelude Chars Float64 Numerals Json Errors ElValues BpmnModel FlowElements Execution Store JobTypes JobLocks JobLocksProof JobStore EventDispatcher Context Variables EngineSafety WaitStates ContinueProcess MultiInstance.

(** ** Trees of executions *)

(** [below m i k]: [k] is [i] or has it among the executions its parent links
    lead to. *)
Inductive below (m : gmap string Execution) (i : string) : string -> Prop :=
| below_self : below m i i
| below_child k e p : m !! k = Some e -> ex_parent_id e = Some p -> below m i p -> below m i k.

Lemma below_trans m i j k : below m i j -> below m j k -> below m i k.
Proof. intros Hi. induction 1; [done|by eapply below_child]. Qed.

Lemma below_subseteq m m' i k : m' ⊆ m -> below m' i k -> below m i k.
Proof.
  intros Hs. induction 1 as [|k e p Hk Hp _ IH]; [apply below_self|].
  eapply below_child; [|done|done]. by eapply lookup_weaken.
Qed.

(** The root, or below one of its children. *)
Lemma below_cases m i k :
  below m i k <-> k = i \/ exists c e, m !! c = Some e /\ ex_parent_id e = Some i /\ below m c k.
Proof.
  split.
  - induction 1 as [|k e p Hk Hp _ IH]; [by left|]. right. destruct IH as [->|(c & e' & Hc & Hi & Hb)].
    + exists k, e. split_and!; [done|done|apply below_self].
    + exists c, e'. split_and!; [done|done|by eapply below_child].
  - intros [->|(c & e & Hc & Hp & Hb)]; [apply below_self|]. eapply below_trans; [|exact Hb].
    eapply below_child; [done|done|apply below_self].
Qed.

(** What is above an execution is not below it when the links are not circular. *)
Lemma below_chain m i l k : chain m i l -> below m i k -> exists l', chain m k (l' ++ l).
Proof.
  intros Hc. induction 1 as [|k e p Hk Hp _ (l' & IH)]; [by exists []|].
  exists (e :: l'). simpl. by eapply chain_up.
Qed.

Lemma parent_not_below m i e p l :
  m !! i = Some e -> ex_parent_id e = Some p -> chain m i l -> ~ below m i p.
Proof.
  intros Hi Hp Hc Hb. destruct (below_chain _ _ _ _ Hc Hb) as (l' & Hc').
  inversion Hc as [| |? e' p' l'' Hi' Hp' Hc'']; subst; [congruence|congruence|].
  assert (e' = e) as -> by congruence. assert (p' = p) as -> by congruence.
  pose proof (chain_det _ _ _ _ Hc' Hc'') as E. apply (f_equal length) in E.
  rewrite length_app in E. simpl in E. lia.
Qed.

(** Only the links matter. *)
Definition same_links (m m' : gmap string Execution) : Prop :=
  forall k, ex_parent_id <$> m !! k = ex_parent_id <$> m' !! k.

Lemma same_links_sym m m' : same_links m m' -> same_links m' m.
Proof. intros H k. by rewrite H. Qed.

Lemma same_links_lookup m m' k e :
  same_links m m' -> m !! k = Some e -> exists e', m' !! k = Some e' /\ ex_parent_id e' = ex_parent_id e.
Proof.
  intros H Hk. specialize (H k). rewrite Hk in H. destruct (m' !! k) as [e'|]; [|done].
  injection H as H. by exists e'.
Qed.

Lemma same_links_insert m k e e' :
  m !! k = Some e -> ex_parent_id e' = ex_parent_id e -> same_links m (<[k := e']> m).
Proof.
  intros Hk Hp x. destruct (decide (x = k)) as [->|Hne]; [|by rewrite lookup_insert_ne].
  rewrite lookup_insert_eq, Hk. simpl. by rewrite Hp.
Qed.

Lemma below_links m m' i k : same_links m m' -> below m i k -> below m' i k.
Proof.
  intros Hl. induction 1 as [|k e p Hk Hp _ IH]; [apply below_self|].
  destruct (same_links_lookup _ _ _ _ Hl Hk) as (e' & Hk' & Hp'). eapply below_child; [done|by rewrite Hp'|done].
Qed.

Lemma below_fewer_links m m' i k :
  (forall x y, m' !! x = Some y -> exists y', m !! x = Some y' /\ ex_parent_id y' = ex_parent_id y) ->
  below m' i k -> below m i k.
Proof.
  intros Hl. induction 1 as [|k e p Hk Hp _ IH]; [apply below_self|].
  destruct (Hl k e Hk) as (e' & Hk' & Hp'). eapply below_child; [done|by rewrite Hp'|done].
Qed.

Lemma chain_links m m' i l : same_links m m' -> chain m i l -> exists l', chain m' i l'.
Proof.
  intros Hl. induction 1 as [i Hi|i e Hi Hp|i e p l Hi Hp _ (l' & IH)].
  - exists []. apply chain_missing. specialize (Hl i). rewrite Hi in Hl. by destruct (m' !! i).
  - destruct (same_links_lookup _ _ _ _ Hl Hi) as (e' & Hi' & Hp'). exists [e']. apply chain_top; [done|by rewrite Hp'].
  - destruct (same_links_lookup _ _ _ _ Hl Hi) as (e' & Hi' & Hp'). exists (e' :: l').
    eapply chain_up; [done|by rewrite Hp'|done].
Qed.

Lemma chain_parent m i l e p x :
  chain m i l -> m !! i = Some e -> ex_parent_id e = Some p -> m !! p = Some x -> x ∈ l.
Proof.
  intros Hc Hi Hp Hx. inversion Hc as [|? e' Hi' Hp'|? e' p' l' Hi' Hp' Hc']; subst; [congruence|congruence|].
  assert (p' = p) as -> by congruence. right. inversion Hc'; subst; [congruence| |];
    match goal with H : m !! p = Some ?y |- _ ∈ ?y :: _ => assert (y = x) as -> by congruence; left end.
Qed.

(** What is above a child's parent is not below the child. *)
Lemma chain_not_below m i l c e x y :
  (forall k e, m !! k = Some e -> ex_id e = k) -> chain m i l -> m !! c = Some e -> ex_parent_id e = Some i ->
  y ∈ l -> m !! x = Some y -> ~ below m c x.
Proof.
  intros Hkey Hc He Hp Hy Hx Hb.
  destruct (below_chain m c (e :: l) x) as (l1 & Hc1); [by eapply chain_up|done|].
  destruct (chain_suffix m i l Hc y x Hy Hx Hkey) as (l2 & Hc2 & Hle).
  rewrite (chain_det _ _ _ _ Hc2 Hc1), length_app in Hle. simpl in Hle. lia.
Qed.

Lemma chain_survives m m' i l :
  chain m i l ->
  (forall x y, m !! x = Some y -> y ∈ l -> exists y', m' !! x = Some y' /\ ex_parent_id y' = ex_parent_id y) ->
  (forall x, m !! x = None -> m' !! x = None) -> exists l', chain m' i l'.
Proof.
  induction 1 as [i Hi|i e Hi Hp|i e p l Hi Hp _ IH]; intros Hs Hn.
  - exists []. by apply chain_missing, Hn.
  - destruct (Hs i e Hi) as (e' & Hi' & Hp'); [by left|]. exists [e']. apply chain_top; [done|by rewrite Hp'].
  - destruct (Hs i e Hi) as (e' & Hi' & Hp'); [by left|].
    destruct IH as (l' & Hl'); [intros x y Hx Hy; apply Hs; [done|by right]|done|].
    exists (e' :: l'). eapply chain_up; [done|by rewrite Hp'|done].
Qed.

(** Depth below an execution, as the recursion of [delete_tree] needs it. *)
Fixpoint shallow (n : nat) (m : gmap string Execution) (i : string) : Prop :=
  match n with
  | 0 => False
  | S n => forall k e, m !! k = Some e -> ex_parent_id e = Some i -> shallow n m k
  end.

Lemma shallow_subseteq n m m' i : m' ⊆ m -> shallow n m i -> shallow n m' i.
Proof.
  intros Hs. revert i. induction n as [|n IH]; intros i; simpl; [done|]. intros H k e Hk Hp.
  eapply IH, H; [|exact Hp]. by eapply lookup_weaken.
Qed.

Lemma chain_shallow m n i l :
  (forall k e, m !! k = Some e -> ex_id e = k) -> chain m i l -> size m < n + length l -> shallow n m i.
Proof.
  intros Hkey. revert i l. induction n as [|n IH]; intros i l Hc Hn.
  - pose proof (chain_length _ _ _ Hkey Hc). simpl in Hn. lia.
  - simpl. intros k e Hk Hp. apply (IH k (e :: l)); [by eapply chain_up|simpl; lia].
Qed.

(** ** What a command leaves of the tables *)

Section Tables.
Context {env : Env}.

(** No wait state, subscription, boundary event or job of the execution. *)
Record unwaited (i : string) (s : CommandState) : Prop := {
  uw_wait : tget event_wait_states (session_of s) !! i = None;
  uw_subscriptions k r : tget event_subscriptions (session_of s) !! k = Some r ->
                         column_matches "execution_id" i r = false;
  uw_boundary k r : tget boundary_event_states (session_of s) !! k = Some r ->
                    column_matches "host_execution_id" i r = false;
  uw_jobs k r : js_jobs (st_jobs s) !! k = Some r -> cell_matches "execution_id" i (cas_cells r) = false
}.

(** Nor a subscription of an event sub-process in its scope, stored under its id. *)
Record unhosted (i : string) (s : CommandState) : Prop := {
  uh_unwaited : unwaited i s;
  uh_subprocess k r : tget event_subprocess_event_subscriptions (session_of s) !! k = Some r ->
                      sb_subscription_id (row_data r) = k -> sb_scope_execution_id (row_data r) <> Some i
}.

Record fewer (s s' : CommandState) : Prop := {
  fw_wait : tget event_wait_states (session_of s') ⊆ tget event_wait_states (session_of s);
  fw_subscriptions : tget event_subscriptions (session_of s') ⊆ tget event_subscriptions (session_of s);
  fw_boundary : tget boundary_event_states (session_of s') ⊆ tget boundary_event_states (session_of s);
  fw_subprocess : tget event_subprocess_event_subscriptions (session_of s')
                  ⊆ tget event_subprocess_event_subscriptions (session_of s);
  fw_jobs : js_jobs (st_jobs s') ⊆ js_jobs (st_jobs s)
}.

Lemma fewer_refl s : fewer s s.
Proof. by split. Qed.

Lemma fewer_trans s s1 s2 : fewer s s1 -> fewer s1 s2 -> fewer s s2.
Proof. intros [] []. split; by etrans. Qed.

Lemma unwaited_fewer i s s' : fewer s s' -> unwaited i s -> unwaited i s'.
Proof.
  intros [F1 F2 F3 _ F4] [U1 U2 U3 U4]. split.
  - destruct (tget event_wait_states (session_of s') !! i) eqn:E; [|done].
    apply (lookup_weaken _ _ _ _ E) in F1. congruence.
  - intros k r Hr. eapply U2, lookup_weaken; [exact Hr|done].
  - intros k r Hr. eapply U3, lookup_weaken; [exact Hr|done].
  - intros k r Hr. eapply U4, lookup_weaken; [exact Hr|done].
Qed.

Lemma unhosted_fewer i s s' : fewer s s' -> unhosted i s -> unhosted i s'.
Proof.
  intros F [U1 U2]. split; [by eapply unwaited_fewer|]. intros k r Hr.
  eapply U2, lookup_weaken; [exact Hr|apply F].
Qed.

(** The executions [gone] are deleted with what they waited for; the other
    executions, the agenda and the ids are as before. *)
Record cleaned (gone : string -> Prop) (s s' : CommandState) : Prop := {
  cl_wf : context_wf (st_context s');
  cl_kept k : tokens (st_context s') !! k = tokens (st_context s) !! k
              \/ tokens (st_context s') !! k = None /\ gone k;
  cl_gone k : gone k -> tokens (st_context s') !! k = None;
  cl_unhosted k : gone k -> unhosted k s';
  cl_agenda : cc_agenda (st_context s') = cc_agenda (st_context s);
  cl_uuids : cc_uuids (st_context s') = cc_uuids (st_context s);
  cl_fewer : fewer s s'
}.

(** Every execution is as before. *)
Definition quiet : CommandState -> CommandState -> Prop := cleaned (fun _ => False).

Lemma cleaned_subseteq g s s' : cleaned g s s' -> tokens (st_context s') ⊆ tokens (st_context s).
Proof.
  intros Hc. apply map_subseteq_spec. intros k e Hk. destruct (cl_kept _ _ _ Hc k) as [E|[E _]]; congruence.
Qed.

Lemma cleaned_iff g g' s s' : (forall k, g k <-> g' k) -> cleaned g s s' -> cleaned g' s s'.
Proof.
  intros Hg [H1 H2 H3 H4 H5 H6 H7]. split; try done.
  - intros k. destruct (H2 k) as [?|[? ?]]; [by left|right; split; [done|by apply Hg]].
  - intros k Hk. by apply H3, Hg.
  - intros k Hk. by apply H4, Hg.
Qed.

Lemma cleaned_trans g1 g2 s s1 s2 :
  cleaned g1 s s1 -> cleaned g2 s1 s2 -> cleaned (fun k => g1 k \/ g2 k) s s2.
Proof.
  intros C1 C2. split.
  - apply (cl_wf _ _ _ C2).
  - intros k. destruct (cl_kept _ _ _ C2 k) as [->|[-> ?]]; [|right; auto].
    destruct (cl_kept _ _ _ C1 k) as [->|[-> ?]]; auto.
  - intros k [Hk|Hk]; [|by apply (cl_gone _ _ _ C2)].
    destruct (cl_kept _ _ _ C2 k) as [->|[-> _]]; [|done]. by apply (cl_gone _ _ _ C1).
  - intros k [Hk|Hk]; [|by apply (cl_unhosted _ _ _ C2)].
    eapply unhosted_fewer; [apply C2|by apply (cl_unhosted _ _ _ C1)].
  - by rewrite (cl_agenda _ _ _ C2), (cl_agenda _ _ _ C1).
  - by rewrite (cl_uuids _ _ _ C2), (cl_uuids _ _ _ C1).
  - eapply fewer_trans; [apply C1|apply C2].
Qed.

Lemma quiet_then g s s1 s2 : quiet s s1 -> cleaned g s1 s2 -> cleaned g s s2.
Proof. intros C1 C2. eapply cleaned_iff; [|exact (cleaned_trans _ _ _ _ _ C1 C2)]. simpl. tauto. Qed.

Lemma quiet_refl s : context_wf (st_context s) -> quiet s s.
Proof. intros Hwf. split; try done. intros k. by left. Qed.

End Tables.

(** ** Steps that leave the executions alone *)
Class HistoryRecords `{Env} `{!Activities} : Prop := {
  history_ends : forall i a h, exists h', record_activity_end i a h = (Ok tt, h');
  history_starts : forall a t pi i h, exists h', record_activity_start a t pi i h = (Ok tt, h');
  history_cancels : forall i a r h, exists h', record_activity_cancelled i a r h = (Ok tt, h')
}.

Record fewer_rows (d d' : DbSession) : Prop := {
  fr_wait : tget event_wait_states d' ⊆ tget event_wait_states d;
  fr_subscriptions : tget event_subscriptions d' ⊆ tget event_subscriptions d;
  fr_boundary : tget boundary_event_states d' ⊆ tget boundary_event_states d;
  fr_subprocess : tget event_subprocess_event_subscriptions d' ⊆ tget event_subprocess_event_subscriptions d
}.

Section Steps.
Context {env : Env} {uuids : UuidLaws} {acts : Activities} {hist : HistoryRecords}.

Lemma quiet_runtime c s :
  context_wf (st_context s) -> cc_runtime c = cc_runtime (st_context s) ->
  cc_agenda c = cc_agenda (st_context s) -> cc_uuids c = cc_uuids (st_context s) -> quiet s (set_context c s).
Proof.
  intros [H1 H2 H3] Hr Ha Hu.
  assert (Ht : tokens c = tokens (st_context s)) by (unfold tokens; by rewrite Hr).
  assert (Hs : session_of (set_context c s) = session_of s) by (unfold session_of; simpl; by rewrite Hr).
  split; try done; [|intros k; left; by rewrite <- Ht|split; by rewrite ?Hs]. simpl.
  split; rewrite ?Hr; [done|done|]. intros n Hn. rewrite Ht. apply H3. by rewrite <- Hu.
Qed.

Lemma event_quiet ev s :
  context_wf (st_context s) -> yields (in_context (add_post_agenda_event ev)) s (fun _ => quiet s).
Proof. intros Hwf. by apply (quiet_runtime (mkContext _ _ _ _ _ _)). Qed.

Lemma history_quiet f s :
  (forall h, exists h', f h = (Ok tt, h')) -> context_wf (st_context s) -> yields (on_history f) s (fun _ => quiet s).
Proof.
  intros Hf Hwf. unfold yields, on_history, in_context. destruct (Hf (cc_history (st_context s))) as [h' ->].
  by apply (quiet_runtime (mkContext _ _ _ _ _ _)).
Qed.

Lemma history_end_quiet i a s :
  context_wf (st_context s) -> yields (in_context (history_activity_end i a)) s (fun _ => quiet s).
Proof.
  intros Hwf. unfold yields, in_context, history_activity_end.
  destruct (history_ends (HistoryRecords := hist) i a (cc_history (st_context s))) as [h' ->]. by apply (quiet_runtime (mkContext _ _ _ _ _ _)).
Qed.

Lemma skip_quiet {A} (a : A) s : context_wf (st_context s) -> yields (mret a : CommandM A) s (fun _ => quiet s).
Proof. apply quiet_refl. Qed.

Lemma find_quiet i s :
  context_wf (st_context s) ->
  yields (find_by_id i) s (fun o s' => o = tokens (st_context s) !! i /\ s' = s).
Proof.
  intros Hwf. apply (yields_eq _ _ (tokens (st_context s) !! i) s); [|done].
  unfold find_by_id. erewrite in_context_eq by (by apply entity_find_eq). by destruct s.
Qed.

Lemma ask_quiet {A} (f : DbSession -> A * DbSession) s :
  context_wf (st_context s) -> (forall d, db_closed d = false -> (f d).2 = d) ->
  yields (ask f) s (fun a s' => a = (f (session_of s)).1 /\ s' = s).
Proof.
  intros Hwf Hf. apply (yields_eq _ _ (f (session_of s)).1 s); [|done].
  unfold ask. erewrite in_context_eq by (by apply query_eq). by destruct s.
Qed.

Lemma children_quiet i s :
  context_wf (st_context s) ->
  yields (children_of i) s (fun l s' => s' = s /\ forall k,
    k ∈ ex_id <$> l <-> exists e, tokens (st_context s) !! k = Some e /\ ex_parent_id e = Some i).
Proof.
  intros Hwf. unfold children_of, find_child_executions_by_parent_execution_id.
  eapply yields_eq; [erewrite in_context_eq; [reflexivity|]; erewrite bind_ok by (by apply snapshot_eq); reflexivity|].
  split; [by destruct s|]. intros k. rewrite list_elem_of_fmap. split.
  - intros (e & -> & He). apply list_elem_of_In, filter_In in He as [He Hp]. apply is_some_eq_spec in Hp.
    apply list_elem_of_In, list_elem_of_fmap in He as ([k' e'] & -> & Hk). apply elem_of_map_to_list in Hk.
    exists e'. split; [|done]. simpl. by rewrite (token_key (st_context s) k' e').
  - intros (e & Hk & Hp). exists e. split; [symmetry; by eapply token_key|]. apply list_elem_of_In, filter_In.
    split; [|by apply is_some_eq_spec]. apply list_elem_of_In, list_elem_of_fmap. exists (k, e).
    split; [done|]. by apply elem_of_map_to_list.
Qed.

Lemma host_quiet f s :
  context_wf (st_context s) -> host_only f -> (forall d, db_closed d = false -> fewer_rows d (f d)) ->
  yields (host f) s (fun _ s' => quiet s s' /\ session_of s' = f (session_of s)).
Proof.
  intros Hwf Hf Hr. pose proof (context_closed _ Hwf) as Ho. destruct (Hr _ Ho) as [R1 R2 R3 R4].
  unfold yields, host, in_context, on_db, modify. destruct (Hf _ Ho) as (b & w & E). rewrite E in *.
  split; [|done]. split; simpl; try done; [|by left].
  exact (host_ctx_wf b w _ Hwf).
Qed.

Lemma fewer_rows_refl d : fewer_rows d d.
Proof. by split. Qed.

Lemma delete_task_fewer i d : db_closed d = false -> fewer_rows d (delete_task i d).
Proof. intros Ho. unfold delete_task, session_delete, ensure_open. rewrite Ho. by split. Qed.

Lemma delete_wait_eq i d :
  db_closed d = false ->
  delete_event_wait_state_by_execution_id i d
  = tset event_wait_states (delete i (tget event_wait_states d))
      (tset event_subscriptions (filter (fun kr => column_matches "execution_id" i kr.2 = false)
                                   (tget event_subscriptions d)) d).
Proof.
  intros Ho. unfold delete_event_wait_state_by_execution_id, delete_event_subscriptions_by_execution_id,
    session_delete, session_delete_by, ensure_open. rewrite Ho. simpl. by rewrite Ho.
Qed.

Lemma delete_wait_fewer i d : db_closed d = false -> fewer_rows d (delete_event_wait_state_by_execution_id i d).
Proof.
  intros Ho. rewrite delete_wait_eq by done.
  split; simpl; [apply delete_subseteq|apply map_filter_subseteq|done|done].
Qed.

Lemma delete_boundary_fewer i d :
  db_closed d = false -> fewer_rows d (delete_boundary_event_states_by_host_execution_id i d).
Proof.
  intros Ho. unfold delete_boundary_event_states_by_host_execution_id, session_delete_by, ensure_open. rewrite Ho.
  split; simpl; [done|done|apply map_filter_subseteq|done].
Qed.

Lemma delete_subscriptions_eq l d :
  db_closed d = false ->
  fold_left (fun d id => delete_event_subprocess_event_subscription id d) l d
  = tset event_subprocess_event_subscriptions
      (filter (fun kr => kr.1 ∉ l) (tget event_subprocess_event_subscriptions d)) d.
Proof.
  revert d. induction l as [|a l IH]; intros d Ho; simpl.
  - rewrite map_filter_id by (intros; by apply not_elem_of_nil). by destruct d as [? ? ? ? [] ? ? ?].
  - unfold delete_event_subprocess_event_subscription at 2, session_delete, ensure_open. rewrite Ho. simpl.
    rewrite IH by done. simpl.
    assert (Hm : filter (fun kr => kr.1 ∉ l) (delete a (wt_event_subprocess_event_subscriptions (db_waits d)))
                 = filter (fun kr => kr.1 ∉ a :: l) (wt_event_subprocess_event_subscriptions (db_waits d))).
    { apply map_eq. intros k. apply option_eq. intros r. rewrite !map_lookup_filter_Some, lookup_delete_Some. set_solver. }
    by rewrite Hm.
Qed.

Lemma delete_subprocess_eq i d :
  db_closed d = false ->
  exists l : list string, delete_event_subprocess_event_subscriptions_by_scope_execution_id i d
    = tset event_subprocess_event_subscriptions
        (filter (fun kr => kr.1 ∉ l) (tget event_subprocess_event_subscriptions d)) d
    /\ forall k r, tget event_subprocess_event_subscriptions d !! k = Some r ->
         sb_scope_execution_id (row_data r) = Some i -> sb_subscription_id (row_data r) ∈ l.
Proof.
  intros Ho. unfold delete_event_subprocess_event_subscriptions_by_scope_execution_id, session_find_all, ensure_open.
  rewrite Ho. simpl. eexists. split; [by apply delete_subscriptions_eq|]. intros k r Hk Hs.
  apply list_elem_of_fmap. exists (row_data r). split; [done|]. apply list_elem_of_In, filter_In.
  split; [|by apply is_some_eq_spec]. apply list_elem_of_In, list_elem_of_fmap. exists r. split; [done|].
  apply list_elem_of_fmap. exists (k, r). split; [done|]. by apply elem_of_map_to_list.
Qed.

Lemma delete_subprocess_fewer i d :
  db_closed d = false -> fewer_rows d (delete_event_subprocess_event_subscriptions_by_scope_execution_id i d).
Proof.
  intros Ho. destruct (delete_subprocess_eq i d Ho) as (l & -> & _). split; simpl; try done. apply map_filter_subseteq.
Qed.

(** The subscriptions in the scope are gone, where they are stored under their id. *)
Lemma delete_subprocess_gone i d k r :
  db_closed d = false ->
  tget event_subprocess_event_subscriptions (delete_event_subprocess_event_subscriptions_by_scope_execution_id i d) !! k
  = Some r -> sb_subscription_id (row_data r) = k -> sb_scope_execution_id (row_data r) <> Some i.
Proof.
  intros Ho. destruct (delete_subprocess_eq i d Ho) as (l & -> & Hl). simpl.
  intros [Hr Hn]%map_lookup_filter_Some Hk Hs. apply Hn. simpl. rewrite <- Hk. by eapply Hl.
Qed.

Lemma jobs_quiet i s :
  context_wf (st_context s) ->
  yields (in_jobs (delete_timer_job_states_by_execution_id i)) s (fun _ s' =>
    quiet s s' /\ session_of s' = session_of s
    /\ forall k r, js_jobs (st_jobs s') !! k = Some r -> cell_matches "execution_id" i (cas_cells r) = false).
Proof.
  intros Hwf. unfold yields, in_jobs, delete_timer_job_states_by_execution_id, job_delete_by.
  assert (Ho : js_closed (job_session s) = false) by apply (context_closed _ Hwf). rewrite Ho.
  cbn [fst snd map_err]. set (tab := filter _ _). set (s' := set_job_session _ s).
  assert (Hs : st_context s' = st_context s) by apply (set_jobs_context tab).
  assert (Hj : js_jobs (st_jobs s') = tab) by done. clearbody s'.
  unfold session_of. rewrite Hs, Hj. split_and!; [|done|].
  - split; rewrite ?Hs; try done; [by left|]. split; unfold session_of; rewrite ?Hs, ?Hj; try done.
    apply map_filter_subseteq.
  - intros k r Hr. by apply map_lookup_filter_Some in Hr as [_ Hr].
Qed.

(** ** Deleting executions *)
Lemma message_cancelled_quiet i s :
  context_wf (st_context s) -> yields (dispatch_message_cancelled_for_execution i) s (fun _ => quiet s).
Proof.
  intros Hwf. unfold dispatch_message_cancelled_for_execution. cbv zeta.
  eapply yields_bind; [by apply find_quiet|intros o ? [_ ->]].
  eapply yields_bind; [apply ask_quiet; [done|intros; by apply query_wait]|intros wait ? [_ ->]].
  eapply yields_bind with (R := fun _ => quiet s).
  { destruct wait as [wait|]; [|by apply skip_quiet]. destruct (ws_event_subscription wait); [|by apply skip_quiet].
    destruct (bool_decide _); [by apply event_quiet|by apply skip_quiet]. }
  intros [] s1 Hq. eapply yields_bind; [apply ask_quiet; [apply Hq|intros; by apply query_boundary]|intros l ? [_ ->]].
  clear wait. revert s1 Hq. induction l as [|b l IH]; intros s1 Hq; simpl; [done|].
  eapply yields_bind with (R := fun _ => quiet s1).
  { destruct (bool_decide _); [apply event_quiet, Hq|apply skip_quiet, Hq]. }
  intros [] s2 Hq2. apply IH. by eapply quiet_then.
Qed.

Lemma root_cancelled_quiet i r s :
  context_wf (st_context s) -> yields (dispatch_root_cancelled i r) s (fun _ => quiet s).
Proof.
  intros Hwf. unfold dispatch_root_cancelled. destruct r; [|by apply skip_quiet].
  eapply yields_bind; [by apply find_quiet|intros o ? [_ ->]]. destruct o as [e|]; [|by apply skip_quiet].
  destruct (ex_is_multi_instance_root e); [|by apply skip_quiet].
  destruct (ex_activity_id e); [by apply event_quiet|by apply skip_quiet].
Qed.

Lemma record_end_quiet i r s :
  context_wf (st_context s) -> yields (record_activity_end_for_execution i r) s (fun _ => quiet s).
Proof.
  intros Hwf. unfold record_activity_end_for_execution.
  eapply yields_bind; [by apply find_quiet|intros o ? [_ ->]]. destruct o as [e|]; [|by apply skip_quiet].
  destruct (ex_is_multi_instance_root e); [by apply skip_quiet|].
  destruct (ex_activity_id e) as [a|]; [|by apply skip_quiet]. destruct (bool_decide _); [by apply skip_quiet|].
  unfold end_activity. destruct r; [|by apply history_end_quiet]. apply history_quiet; [apply history_cancels|done].
Qed.

Lemma runtime_data_quiet i s :
  context_wf (st_context s) ->
  yields (delete_execution_related_runtime_data i) s (fun _ s' => quiet s s' /\ unwaited i s').
Proof.
  intros Hwf. unfold delete_execution_related_runtime_data.
  eapply yields_bind; [apply ask_quiet; [done|intros; by apply query_task]|intros t ? [_ ->]].
  eapply yields_bind with (R := fun _ => quiet s).
  { destruct t as [t|]; [|by apply skip_quiet].
    eapply yields_weaken; [apply host_quiet; [done|apply host_delete_task|apply delete_task_fewer]|].
    intros ? ? [? _]. done. }
  intros [] s1 Q1. pose proof (cl_wf _ _ _ Q1) as W1. pose proof (context_closed _ W1) as O1.
  eapply yields_bind; [apply host_quiet; [done|apply host_delete_wait|apply delete_wait_fewer]|intros [] s2 [Q2 E2]].
  pose proof (cl_wf _ _ _ Q2) as W2. pose proof (context_closed _ W2) as O2.
  eapply yields_bind; [apply host_quiet; [done|apply host_delete_boundary|apply delete_boundary_fewer]|intros [] s3 [Q3 E3]].
  pose proof (cl_wf _ _ _ Q3) as W3.
  eapply yields_weaken; [by apply jobs_quiet|]. intros [] s4 (Q4 & E4 & J4).
  split; [do 2 (eapply quiet_then; [done|]); by eapply quiet_then|].
  rewrite delete_wait_eq in E2 by done. unfold delete_boundary_event_states_by_host_execution_id, session_delete_by,
    ensure_open in E3. unfold session_of in E3 at 2. rewrite O2 in E3.
  split; [| | |exact J4]; rewrite E4, E3; simpl; rewrite E2; simpl.
  - apply lookup_delete_eq.
  - intros k r [_ Hr]%map_lookup_filter_Some. done.
  - intros k r [_ Hr]%map_lookup_filter_Some. done.
Qed.

Lemma delete_execution_cleans i r s :
  context_wf (st_context s) ->
  yields (delete_execution_and_related_data i r) s (fun _ => cleaned (fun k => k = i) s).
Proof.
  intros Hwf. unfold delete_execution_and_related_data.
  eapply yields_bind; [by apply root_cancelled_quiet|intros [] s1 Q1].
  eapply yields_bind; [apply message_cancelled_quiet, Q1|intros [] s2 Q2].
  eapply yields_bind; [apply record_end_quiet, Q2|intros [] s3 Q3].
  eapply yields_bind; [apply runtime_data_quiet, Q3|intros [] s4 [Q4 U4]].
  eapply yields_bind; [apply host_quiet; [apply Q4|apply host_delete_subprocess|apply delete_subprocess_fewer]|].
  intros [] s5 [Q5 E5]. pose proof (cl_wf _ _ _ Q5) as W5.
  pose proof (context_closed _ (cl_wf _ _ _ Q4)) as O4.
  eapply yields_eq; [by apply in_context_eq, entity_delete_eq|].
  do 5 (eapply quiet_then; [eassumption|]). split; try done.
  - apply (erase_ctx_wf i _ W5).
  - intros k. change (tokens (st_context (set_context ?c ?s))) with (tokens c). rewrite tokens_erase, lookup_delete.
    case_decide; [right; by subst|by left].
  - intros k ->. change (tokens (st_context (set_context ?c ?s))) with (tokens c). rewrite tokens_erase. apply lookup_delete_eq.
  - intros k ->. apply (unhosted_fewer _ s5); [by split|]. split; [apply (unwaited_fewer _ s4); [apply Q5|done]|].
    rewrite E5. intros k r'. by apply delete_subprocess_gone.
Qed.
End Steps.

Section Trees.
Context {env : Env} {uuids : UuidLaws} {acts : Activities} {hist : HistoryRecords}.

(** What was below an execution and is not any more has gone with the tree
    that was deleted. *)
Lemma below_after g s s' k x :
  cleaned g s s' -> (forall y e p, tokens (st_context s) !! y = Some e -> ex_parent_id e = Some p -> g p -> g y) ->
  below (tokens (st_context s)) k x -> below (tokens (st_context s')) k x \/ g x.
Proof.
  intros Hc Hg. induction 1 as [|x e p Hx Hp _ [IH|IH]]; [left; apply below_self| |right; by eapply Hg].
  destruct (cl_kept _ _ _ Hc x) as [E|[_ ?]]; [|by right]. left. eapply below_child; [by rewrite E|done|done].
Qed.

Definition below_any (m : gmap string Execution) (ks : list string) (x : string) : Prop :=
  exists k, k ∈ ks /\ below m k x.

Lemma below_any_up m ks y e p : m !! y = Some e -> ex_parent_id e = Some p -> below_any m ks p -> below_any m ks y.
Proof. intros Hy Hp (k & Hk & Hb). exists k. split; [done|by eapply below_child]. Qed.

Lemma delete_trees_clean n r ks :
  (forall i s, context_wf (st_context s) -> shallow n (tokens (st_context s)) i ->
     yields (delete_tree n i r) s (fun _ => cleaned (below (tokens (st_context s)) i) s)) ->
  forall s, context_wf (st_context s) -> Forall (shallow n (tokens (st_context s))) ks ->
    yields (for_each ks (fun k => delete_tree n k r)) s (fun _ => cleaned (below_any (tokens (st_context s)) ks) s).
Proof.
  intros Hone. induction ks as [|k ks IH]; intros s Hwf Hks; simpl.
  - eapply yields_weaken; [by apply (skip_quiet tt)|]. intros [] s' Hq. eapply cleaned_iff; [|exact Hq].
    intros x. split; [done|]. intros (k & Hk & _). by apply not_elem_of_nil in Hk.
  - apply Forall_cons in Hks as [Hk Hks]. eapply yields_bind; [by apply Hone|intros [] s1 C1].
    pose proof (cleaned_subseteq _ _ _ C1) as Hsub.
    eapply yields_weaken; [apply IH; [apply C1|]|].
    { eapply Forall_impl; [exact Hks|]. intros i. by apply shallow_subseteq. }
    intros [] s2 C2. eapply cleaned_iff; [|exact (cleaned_trans _ _ _ _ _ C1 C2)]. intros x. split.
    + intros [Hb|(k' & Hk' & Hb)]; [exists k; split; [left|done]|].
      exists k'. split; [by right|by eapply below_subseteq].
    + intros (k' & Hk' & Hb). apply elem_of_cons in Hk' as [->|Hk']; [by left|].
      destruct (below_after _ _ _ k' x C1) as [?|?]; [|done| |by left].
      * intros y e p Hy Hp Hbp. by eapply below_child.
      * right. by exists k'.
Qed.

Lemma delete_tree_cleans n i r s :
  context_wf (st_context s) -> shallow n (tokens (st_context s)) i ->
  yields (delete_tree n i r) s (fun _ => cleaned (below (tokens (st_context s)) i) s).
Proof.
  revert i s. induction n as [|n IH]; intros i s Hwf Hs; [done|]. simpl.
  eapply yields_bind; [by apply children_quiet|intros l ? [-> Hl]].
  eapply yields_bind; [apply (delete_trees_clean n r (ex_id <$> l) IH s Hwf)|intros [] s1 C1].
  { apply Forall_forall. intros k (e & Hk & Hp)%Hl. simpl in Hs. by eapply Hs. }
  eapply yields_weaken; [apply delete_execution_cleans, C1|]. intros [] s2 C2.
  eapply cleaned_iff; [|exact (cleaned_trans _ _ _ _ _ C1 C2)]. intros x. rewrite below_cases. split.
  - intros [(k & Hin & Hb)| ->]; [|by left]. apply Hl in Hin as (e & Hk & Hp). right. by exists k, e.
  - intros [->|(k & e & Hk & Hp & Hb)]; [by right|]. left. exists k. split; [apply Hl; by exists e|done].
Qed.

Lemma delete_all_cleans i r s l :
  context_wf (st_context s) -> chain (tokens (st_context s)) i l ->
  yields (delete_execution_tree_with_reason i r) s (fun _ => cleaned (below (tokens (st_context s)) i) s).
Proof.
  intros Hwf Hc. unfold delete_execution_tree_with_reason, yields. erewrite bind_ok by reflexivity.
  apply delete_tree_cleans; [done|]. eapply chain_shallow; [by apply context_keys|done|lia].
Qed.

End Trees.
