(* ===== verification/CommandExecutor.v ===== *)
(** * The command executor

    Models [flowable-engine/src/interceptor/command_executor.rs], the
    interceptor chain ([command_interceptor.rs]), the parts of
    [command_context.rs] that run at the end of a command, and the end of a
    session ([flush_and_commit], [rollback] and [Drop] in
    [persistence/db_session.rs]).

    A command runs on a session of the database; what it leaves on the agenda
    is run until the agenda is empty and no parked inclusive join can go on;
    then the listeners of the transaction are notified and the session is
    committed, or all of it is rolled back. *)
From S2P Require Import ContinueProcess Prelude Json Errors BpmnModel FlowElements Execution Store JobTypes EventDispatcher Context Variables FlowSelection Listeners ExecutionGraph ParallelGateway InclusiveGateway TakeOutgoing JobLocks JobLocksProof JobStore EngineSafety.

(** ** Interceptors

    [around] receives the rest of the chain, may call it any number of times
    and sees whether it succeeded. *)
Inductive Interceptor : Type :=
| Answer (r : result FlowableError unit)
| Proceed (k : result FlowableError unit -> Interceptor).

Section Interceptors.
Context {W T : Type}.

(** The world, and the result of the command once it has run. *)
Notation ChainM := (stM (W * option (result FlowableError T)) Failure).

Fixpoint around (i : Interceptor) (next : ChainM (result FlowableError unit)) : ChainM (result FlowableError unit) :=
  match i with
  | Answer r => mret r
  | Proceed k => status ← next; around (k status) next
  end.

Definition run_once (terminal : stM W Failure T) : ChainM (result FlowableError unit) :=
  fun '(w, slot) =>
    match slot with
    | Some _ => (Ok (Err (Internal [Lit "terminal command executed more than once"])), (w, slot))
    | None =>
        match terminal w with
        | (Ok a, w) => (Ok (Ok tt), (w, Some (Ok a)))
        | (Err (Raised e), w) =>
            (Ok (Err (Internal [Lit "__command_interceptor_command_failed__"])), (w, Some (Err e)))
        | (Err failure, w) => (Err failure, (w, None))
        end
    end.

Definition run_around_chain (interceptors : list Interceptor) (terminal : stM W Failure T)
  : ChainM (result FlowableError unit) :=
  foldr around (run_once terminal) interceptors.

Definition run_with_interceptors (interceptors : list Interceptor) (terminal : stM W Failure T) : stM W Failure T :=
  match interceptors with
  | [] => terminal
  | _ => fun w =>
      match run_around_chain interceptors terminal (w, None) with
      | (Ok around_result, (w, slot)) =>
          (match slot, around_result with
           | Some result, _ => map_err Raised result
           | None, Err e => Err (Raised e)
           | None, Ok _ => Err (Raised (Internal [Lit "command interceptor short-circuited execution"]))
           end, w)
      | (Err failure, (w, _)) => (Err failure, w)
      end
  end.
End Interceptors.

(** ** The database and the world around a command *)
Class CommandEnv `{Env} `{!Activities} := {
  HistoryTables : Type;
  history_open : HistoryTables -> HistoryState;
  history_tables : HistoryState -> HistoryTables;
  take_pending_events : HistoryState -> list EngineEvent * HistoryState;
  flush_history : CommandM unit;
  take_pending_jobs : HistoryState -> list string * HistoryState;
  async_history_enabled : bool;
  event_dispatcher : EngineEventDispatcher;
  session_factory : option StorageError;
  database_commit : CommandState -> result StorageError unit;
  submit_outcome : list RuntimeTimerJobState -> RuntimeTimerJobState -> option FlowableError;
  history_dispatcher : bool
}.

Record Database `{CommandEnv} := mkDatabase {
  d_session : DbSession;
  d_jobs : JobSession;
  d_history : HistoryTables
}.

(** What outlives a command: the committed database, what listeners were told,
    the jobs offered to the executor and the batches of history jobs handed
    over, and the ids and clock readings used up. *)
Record World `{CommandEnv} := mkWorld {
  w_database : Database;
  w_log : Log;
  w_submitted : list RuntimeTimerJobState;
  w_history_jobs : list (list string);
  w_uuids : nat;
  w_clock : nat
}.

Section Executor.
Context `{Env} `{!Activities} `{!CommandEnv} `{!AdhocCompletion}.

Notation RunM := (stM (CommandState * World) Failure).

Definition in_command {A} (m : CommandM A) : RunM A :=
  fun '(s, w) => let '(r, s) := m s in (r, (s, w)).

(** A [Result] inspected by the caller. *)
Definition caught {S A} (m : stM S Failure A) : stM S Failure (result FlowableError A) :=
  fun s => match m s with
           | (Ok a, s) => (Ok (Ok a), s)
           | (Err (Raised e), s) => (Ok (Err e), s)
           | (Err failure, s) => (Err failure, s)
           end.

Definition dispatching {A} (m : stM Dispatching FlowableError A) : CommandM A :=
  fun s => let '(r, d) := m (st_dispatching s) in
           (map_err Raised r, mkState _ (st_context s) (st_jobs s) d (st_pending_async_hints s) (st_clock s)).

Definition on_context {A} (f : CommandContext -> A * CommandContext) : CommandM A :=
  in_context (fun c => let '(a, c) := f c in (Ok a, c)).

(** [dispatch_post_agenda_events]. *)
Definition take_post_agenda_events : CommandM (list EngineEvent) :=
  on_context (fun c => let '(historic, h) := take_pending_events (cc_history c) in
    (cc_events c ++ historic, mkContext _ (cc_runtime c) (cc_agenda c) [] h (cc_uuids c))).

Definition dispatch_post_agenda_events : CommandM unit :=
  events ← take_post_agenda_events;
  for_each events (fun ev => dispatching (dispatch_in_context event_dispatcher ev)).

(** ** The agenda *)
Definition run_operation (op : AgendaOperation) : CommandM unit :=
  match op with
  | ContinueProcess e => continue_process_run e
  | TakeOutgoingSequenceFlows e => in_context (take_outgoing_run e)
  end.

(** [fuel] bounds the operations run; the source has no bound. *)
Fixpoint agenda_loop (fuel : nat) : CommandM (result FlowableError unit) :=
  match fuel with
  | 0 => throw Diverged
  | S fuel =>
      next ← in_context pop_operation;
      match next with
      | Some operation =>
          outcome ← caught (run_operation operation);
          match outcome with
          | Ok _ => agenda_loop fuel
          | Err e => mret (Err e)
          end
      | None =>
          activated ← in_context execute_inactive_inclusive_joins;
          if (activated : bool) then agenda_loop fuel else mret (Ok tt)
      end
  end.

(** ** The end of the session *)
Definition database_of (s : CommandState) : Database :=
  mkDatabase _ _ _ (set_error false None (session_of s)) (st_jobs s) (history_tables (cc_history (st_context s))).

Definition set_session (f : DbSession -> DbSession) (s : CommandState) : CommandState :=
  let rt := cc_runtime (st_context s) in set_context (set_runtime (with_session (f (rt_session rt)) rt) (st_context s)) s.

Definition set_database (d : Database) (w : World) : World :=
  mkWorld _ _ _ d (w_log w) (w_submitted w) (w_history_jobs w) (w_uuids w) (w_clock w).

Definition flush_and_commit : RunM (result StorageError unit) :=
  fun '(s, w) =>
    if db_closed (session_of s) then (Ok (Err ClosedTransaction), (s, w))
    else match db_write_error (session_of s) with
         | Some error => (Ok (Err error), (set_session (set_error true None) s, w))
         | None =>
             match database_commit s with
             | Err error => (Ok (Err error), (s, w))
             | Ok _ => (Ok (Ok tt), (set_session (set_error true None) s, set_database (database_of s) w))
             end
         end.

Definition take_write_error : CommandM (option StorageError) :=
  fun s => (Ok (db_write_error (session_of s)),
            set_session (fun d => set_error (db_closed d) None d) s).

(** A closed session stays as it is; a rollback closes it. *)
Definition rollback : CommandM unit :=
  modify (set_session (fun d => if db_closed d then d else set_error true None d)).

Definition ignored (m : CommandM unit) : CommandM unit := caught m ;; mret tt.

Definition rollback_with_transaction_events (primary_error : FlowableError) : CommandM FlowableError :=
  sticky_storage_error ← take_write_error;
  ignored (dispatching (dispatch_transaction_events RollingBack)) ;;
  rollback ;;
  ignored (dispatching (dispatch_transaction_events RolledBack)) ;;
  mret match sticky_storage_error, primary_error with
       | Some storage, NotFound _ => storage_to_flowable storage
       | _, primary => primary
       end.

Definition fail_with {A} (e : FlowableError) : RunM A :=
  e ← in_command (rollback_with_transaction_events e); throw (Raised e).

(** ** After the commit *)
Definition take_pending_async_hints : CommandM (list RuntimeTimerJobState) :=
  fun s => (Ok (st_pending_async_hints s), mkState _ (st_context s) (st_jobs s) (st_dispatching s) [] (st_clock s)).

Definition notify_failed_commit {A} (e : FlowableError) : RunM A :=
  in_command (ignored (dispatching (dispatch_transaction_events RollingBack))) ;;
  in_command (ignored (dispatching (dispatch_transaction_events RolledBack))) ;;
  throw (Raised e).

Definition submit (job : RuntimeTimerJobState) : RunM (option FlowableError) :=
  fun '(s, w) => (Ok (submit_outcome (w_submitted w) job),
                  (s, mkWorld _ _ _ (w_database w) (w_log w) (w_submitted w ++ [job]) (w_history_jobs w)
                        (w_uuids w) (w_clock w))).

Definition dispatch_history_jobs (pending : list string) : RunM unit :=
  modify (fun '(s, w) =>
    (s, if negb (bool_decide (pending = [])) && history_dispatcher
        then mkWorld _ _ _ (w_database w) (w_log w) (w_submitted w) (w_history_jobs w ++ [pending])
               (w_uuids w) (w_clock w)
        else w)).

Definition submit_hints (hints : list RuntimeTimerJobState) : RunM unit :=
  for_each hints (fun job =>
    outcome ← submit job;
    match outcome with Some error => notify_failed_commit error | None => mret tt end).

(** ** A command *)
Definition run_command {T} (fuel : nat) (command : CommandM T) : CommandM (result FlowableError T) :=
  result ← caught command;
  match result with
  | Ok r =>
      agenda_result ← agenda_loop fuel;
      match agenda_result with
      | Ok _ => posted ← caught dispatch_post_agenda_events; mret (match posted with Ok _ => Ok r | Err e => Err e end)
      | Err e => mret (Err e)
      end
  | Err e => mret (Err e)
  end.

(** What comes before the commit. *)
Definition prepare_commit : CommandM (result FlowableError (list string)) :=
  (if async_history_enabled then flush_history else mret tt) ;;
  pending ← (if async_history_enabled
             then on_context (fun c =>
                    let '(jobs, h) := take_pending_jobs (cc_history c) in
                    (jobs, mkContext _ (cc_runtime c) (cc_agenda c) (cc_events c) h (cc_uuids c)))
             else mret []);
  committing ← caught (dispatching (dispatch_transaction_events Committing));
  match committing with
  | Err error => mret (Err error)
  | Ok _ =>
      on_context (fun c => (tt, set_runtime (strip_transient_variables_before_commit (cc_runtime c)) c)) ;;
      mret (Ok pending)
  end.

Definition after_commit (pending : list string) : RunM unit :=
  committed ← in_command (caught (dispatching (dispatch_transaction_events Committed)));
  match committed with
  | Err error => notify_failed_commit error
  | Ok _ =>
      hints ← in_command take_pending_async_hints;
      submit_hints hints ;;
      dispatch_history_jobs pending
  end.

Definition finish_command {T} (r : T) : RunM T :=
  prepared ← in_command prepare_commit;
  match prepared with
  | Err error => fail_with error
  | Ok pending =>
      flushed ← flush_and_commit;
      match flushed with
      | Err error => fail_with (Internal (storage_display error))
      | Ok _ => after_commit pending ;; mret r
      end
  end.

(** A session of the committed database, with empty per-command registers. *)
Definition open_command (w : World) : CommandState :=
  mkState _
    (mkContext _ (mkRuntime (set_error false None (d_session (w_database w))) ∅ ∅) [] []
       (history_open (d_history (w_database w))) (w_uuids w))
    (d_jobs (w_database w)) (mkDispatching (w_log w) []) [] (w_clock w).

(** The world after the session is dropped. *)
Definition close_command (s : CommandState) (w : World) : World :=
  mkWorld _ _ _ (w_database w) (dg_log (st_dispatching s)) (w_submitted w) (w_history_jobs w)
    (cc_uuids (st_context s)) (st_clock s).

Definition execute_terminal {T} (fuel : nat) (command : CommandM T) : stM World Failure T :=
  fun w =>
    match session_factory with
    | Some e => (Err (Raised (Internal (storage_display e))), w)
    | None =>
        let run := result ← in_command (run_command fuel command);
                   match result with Ok r => finish_command r | Err e => fail_with e end in
        let '(r, (s, w)) := run (open_command w, w) in
        (r, close_command s w)
    end.

Definition execute {T} (fuel : nat) (interceptors : list Interceptor) (command : CommandM T) : stM World Failure T :=
  run_with_interceptors interceptors (execute_terminal fuel command).
End Executor.

(** ** The command executor: proofs

    A command is atomic: the database changes by a commit of its whole session
    or not at all.  A command that succeeds leaves an empty agenda, a sound store
    and no inclusive join that could go on.  Interceptors cannot run a command
    twice or change its result. *)

(** ** Interceptors *)
Section Interceptors.
Context {W T : Type} (terminal : stM W Failure T).

Notation Slot := (option (result FlowableError T)).
Notation ChainM := (stM (W * Slot) Failure).

(** What the rest of a chain may do: run the command if it has not run, or
    leave everything as it is. *)
Inductive chain_step (w : W) : Slot -> result Failure (result FlowableError unit) -> W * Slot -> Prop :=
| step_ran r status : chain_step w (Some r) (Ok status) (w, Some r)
| step_idle status : chain_step w None (Ok status) (w, None)
| step_runs r status w' : terminal w = (map_err Raised r, w') -> chain_step w None (Ok status) (w', Some r)
| step_stops f w' : terminal w = (Err f, w') -> chain_step w None (Err f) (w', None).

Definition runs_once (next : ChainM (result FlowableError unit)) : Prop :=
  forall w slot, let '(r, ws) := next (w, slot) in chain_step w slot r ws.

Lemma run_once_ok : runs_once (run_once terminal).
Proof.
  intros w [r|]; simpl; [constructor|]. destruct (terminal w) as [[a|[e| |]] w'] eqn:E.
  - by apply (step_runs w (Ok a)).
  - by apply (step_runs w (Err e)).
  - by constructor.
  - by constructor.
Qed.

Lemma around_ok i next : runs_once next -> runs_once (around i next).
Proof.
  intros Hn. induction i as [status|k IH]; intros w slot; simpl.
  - destruct slot; constructor.
  - unfold mbind, stM_bind. specialize (Hn w slot). destruct (next (w, slot)) as [[status|f] [w1 slot1]].
    + specialize (IH status w1 slot1). destruct (around (k status) next (w1, slot1)) as [r ws].
      inversion Hn; subst; clear Hn; inversion IH; subst; by econstructor.
    + by inversion Hn; subst; constructor.
Qed.

Lemma chain_ok interceptors : runs_once (run_around_chain interceptors terminal).
Proof. induction interceptors as [|i l IH]; [apply run_once_ok|]. simpl. by apply around_ok. Qed.

(** An interceptor that calls the rest of the chain. *)
Definition proceeds (i : Interceptor) : Prop := match i with Proceed _ => True | Answer _ => False end.

Lemma around_proceeds i next :
  proceeds i -> runs_once next ->
  (forall w, match next (w, None) with (Ok _, (_, slot)) => is_Some slot | (Err _, _) => True end) ->
  forall w, match around i next (w, None) with (Ok _, (_, slot)) => is_Some slot | (Err _, _) => True end.
Proof.
  intros Hi Hn Hs w. destruct i as [|k]; [done|]. simpl. unfold mbind, stM_bind. specialize (Hs w).
  destruct (next (w, None)) as [[status|f] [w1 slot1]]; [|done]. destruct Hs as [r ->].
  pose proof (around_ok (k status) next Hn w1 (Some r)) as Ha.
  destruct (around (k status) next (w1, Some r)) as [r' ws]. by inversion Ha.
Qed.

Lemma chain_proceeds interceptors w :
  Forall proceeds interceptors ->
  match run_around_chain interceptors terminal (w, None) with
  | (Ok _, (_, slot)) => is_Some slot
  | (Err _, _) => True
  end.
Proof.
  intros Hl. revert w. induction Hl as [|i l Hi Hl IH]; intros w; simpl.
  - destruct (terminal w) as [[a|[]] w']; done.
  - by apply around_proceeds; [|apply chain_ok|].
Qed.

Lemma interceptor_proceeds interceptors w :
  Forall proceeds interceptors -> run_with_interceptors interceptors terminal w = terminal w.
Proof.
  intros Hf. destruct interceptors as [|i l]; [done|]. unfold run_with_interceptors.
  pose proof (chain_ok (i :: l) w None) as Hc. pose proof (chain_proceeds (i :: l) w Hf) as Hp.
  destruct (run_around_chain (i :: l) terminal (w, None)) as [[status|f] [w' slot]]; inversion Hc; subst; [|done|done].
  by destruct Hp.
Qed.

(** Interceptors wrap a command without touching it: whatever they do, the
    command runs at most once, and if it runs its result and its effect are
    what the caller gets; if every interceptor calls the rest of the chain, it
    does run. *)
Theorem interceptors_run_once interceptors w :
  (run_with_interceptors interceptors terminal w = terminal w
   \/ exists e, run_with_interceptors interceptors terminal w = (Err (Raised e), w))
  /\ (Forall proceeds interceptors -> run_with_interceptors interceptors terminal w = terminal w).
Proof.
  split; [|apply interceptor_proceeds]. destruct interceptors as [|i l]; [by left|]. unfold run_with_interceptors.
  pose proof (chain_ok (i :: l) w None) as Hc.
  destruct (run_around_chain (i :: l) terminal (w, None)) as [[status|f] [w' slot]]; inversion Hc; subst; [|by left|by left].
  right. destruct status; eauto.
Qed.
End Interceptors.

(** ** Soundness *)
Section Soundness.
Context {env : Env} {uuids : UuidLaws} {acts : Activities} {laws : ActivityLaws} {commands : CommandEnv}
  {adhoc : AdhocCompletion}.

Definition popped_ids (o : option AgendaOperation) : list string :=
  match o with Some op => [ex_id (op_token op)] | None => [] end.

Lemma keeps_pop ids : keeps ids pop_operation popped_ids.
Proof.
  apply keeps_engine. intros c [[H1 H2 H3] Ha] Hi. unfold pop_operation.
  destruct (cc_agenda c) as [|op l] eqn:E.
  - split_and!; [split; [by split|by rewrite E]|done|apply Forall_nil_2].
  - inversion Ha as [|? ? Hop Hl]. subst. split_and!; [split; [by split|exact Hl]|done|by constructor].
Qed.

Lemma keeps_caught {S A} {ctx : HasContext S} ids (m : stM S Failure A) out :
  keeps ids m out -> keeps ids (caught m) nothing.
Proof.
  intros Hm s Hc Hw Hi. specialize (Hm s Hc Hw Hi). unfold caught.
  destruct (m s) as [[a|[]] s']; destruct Hm as (H1 & H2 & H3 & _);
    (split; [done|]; split_and!; [done|done|first [apply Forall_nil_2|done]]).
Qed.

Lemma keeps_dispatching {A} ids (m : stM Dispatching FlowableError A) : keeps ids (dispatching m) nothing.
Proof.
  intros s Hc Hw Hi. unfold dispatching. destruct (m (st_dispatching s)) as [r d].
  split; [done|]. split_and!; [done|done|]. destruct r; [apply Forall_nil_2|done].
Qed.

Lemma keeps_post_agenda ids : keeps ids dispatch_post_agenda_events nothing.
Proof.
  unfold dispatch_post_agenda_events. eapply keeps_then with (mid := nothing).
  - apply keeps_in_context, keeps_engine. intros c [[H1 H2 H3] Ha] Hi.
    destruct (take_pending_events (cc_history c)) as [ev h]. split_and!; [split; [by split|done]|done|apply Forall_nil_2].
  - intros evs. apply keeps_for_each. intros ev _. apply keeps_dispatching.
Qed.

Hypothesis listeners_ok : listeners_keep_identity.
Hypothesis adhoc_ok : forall ids e, ex_id e ∈ ids -> keeps ids (try_auto_complete_adhoc_after_child_leave e) nothing.

Lemma keeps_operation ids op : ex_id (op_token op) ∈ ids -> keeps ids (run_operation op) nothing.
Proof.
  intros Hin. destruct op as [e|e]; [by apply keeps_continue|]. by apply keeps_in_context, keeps_take_outgoing.
Qed.

Lemma keeps_agenda_loop ids fuel : keeps ids (agenda_loop fuel) nothing.
Proof.
  revert ids. induction fuel as [|fuel IH]; intros ids; [apply keeps_throw|]. simpl.
  eapply keeps_then; [apply keeps_in_context, keeps_pop|intros [op|]].
  - eapply keeps_then; [apply keeps_caught with (out := nothing), keeps_operation; usable_ids|].
    intros [?|e]; [apply IH|apply keeps_return; usable_ids].
  - eapply keeps_then; [apply keeps_in_context, keeps_inactive_joins|].
    intros [|]; [apply IH|apply keeps_return; usable_ids].
Qed.

Lemma keeps_run_command {T} ids fuel (command : CommandM T) out :
  keeps ids command out -> keeps ids (run_command fuel command) nothing.
Proof.
  intros Hc. unfold run_command. eapply keeps_then; [by eapply keeps_caught|intros [r|e]].
  - eapply keeps_then; [apply keeps_agenda_loop|intros [[]|e]; [|apply keeps_return; usable_ids]].
    eapply keeps_then; [apply keeps_caught with (out := nothing), keeps_post_agenda|intros ?].
    apply keeps_return. usable_ids.
  - apply keeps_return. usable_ids.
Qed.

(** Every token parked at an inclusive join of an instance touched since the
    last scan is held back by a token that can still reach the join. *)
Definition no_join_left (c : CommandContext) : Prop :=
  forall pi d p joins k w a,
    rt_involved (cc_runtime c) !! pi = Some d -> gate_instance (pi, d) = Some (pi, p, joins) ->
    tokens c !! k = Some w -> parked_at pi joins w = Some a ->
    exists k' w' l x, tokens c !! k' = Some w' /\ group_key w' a = group_key w a
      /\ tokens c !! l = Some x /\ blocks p a w' x.

(** One turn of the agenda: the first operation is taken off and runs without
    error, or the agenda is empty and the scan of the parked joins sends a token on. *)
Inductive turn (s : CommandState) : CommandState -> Prop :=
| turn_operation op rest s' :
    let c := st_context s in
    cc_agenda c = op :: rest ->
    run_operation op (set_context (mkContext _ (cc_runtime c) rest (cc_events c) (cc_history c) (cc_uuids c)) s)
    = (Ok tt, s') -> turn s s'
| turn_scan c' :
    cc_agenda (st_context s) = [] -> execute_inactive_inclusive_joins (st_context s) = (Ok true, c') ->
    turn s (set_context c' s).

(** Where the turns end: nothing is planned, and the scan of the parked joins,
    run in this state, finds none that could go on. *)
Definition at_rest (s : CommandState) : Prop :=
  cc_agenda (st_context s) = [] /\ no_join_left (st_context s).

Lemma agenda_loop_settles fuel s s' :
  deployed_converted -> sound (st_context s) -> table_wf (js_jobs (st_jobs s)) ->
  agenda_loop fuel s = (Ok (Ok tt), s') ->
  exists s2, rtc turn s s2 /\ at_rest s2
    /\ (exists c', execute_inactive_inclusive_joins (st_context s2) = (Ok false, c') /\ s' = set_context c' s2)
    /\ tokens (st_context s') = tokens (st_context s2) /\ cc_agenda (st_context s') = [].
Proof.
  intros Hd. revert s. induction fuel as [|fuel IH]; intros s Hs Ht E; [done|]. simpl in E.
  apply bind_inv_ok in E as (next & s1 & E1 & E2).
  pose proof (keeps_in_context [] _ _ (keeps_pop []) s Hs Ht (Forall_nil_2 _)) as K. rewrite E1 in K.
  destruct K as (W1 & S1 & _ & U1).
  unfold in_context, pop_operation in E1. destruct (cc_agenda (st_context s)) as [|op rest] eqn:Ea; injection E1 as <- <-.
  - apply bind_inv_ok in E2 as (b & s2 & E2 & E3). unfold in_context in E2. simpl in E2, S1.
    destruct (inactive_scan_correct (st_context s) (proj1 S1) Hd) as (b' & c' & Es & Wc & Hb).
    pose proof (keeps_inactive_joins [] (st_context s) S1 I (Forall_nil_2 _)) as K.
    rewrite Es in E2, K. injection E2 as <- <-. destruct K as (_ & S2 & _). destruct b'.
    + destruct (IH (set_context c' s) S2 W1 E3) as (s2 & R & H2).
      exists s2. split; [|done]. eapply rtc_l; [|exact R]. by apply turn_scan.
    + injection E3 as <-. destruct Hb as (T1 & T2 & T3). exists s. split_and!; [done|by split|by exists c'|done|].
      simpl. by rewrite T2.
  - apply bind_inv_ok in E2 as (outcome & s2 & E2 & E3).
    assert (K : keeps [ex_id (op_token op)] (caught (run_operation op)) nothing)
      by (apply keeps_caught with (out := nothing), keeps_operation; usable_ids).
    specialize (K _ S1 W1 U1). rewrite E2 in K. destruct K as (W2 & S2 & _).
    destruct outcome as [u|e]; [|done]. destruct (IH s2 S2 W2 E3) as (s3 & R & H3).
    exists s3. split; [|done]. eapply rtc_l; [|exact R]. eapply turn_operation; [exact Ea|].
    unfold caught in E2. destruct (run_operation op _) as [[[]|[]] s4]; try done. by injection E2 as _ ->.
Qed.

Lemma dispatching_context {A} (m : stM Dispatching FlowableError A) s : st_context (dispatching m s).2 = st_context s.
Proof. unfold dispatching. by destruct (m (st_dispatching s)). Qed.

(** Dispatching the events of a command changes neither tokens nor agenda. *)
Lemma post_agenda_context s :
  let c := st_context s in let c' := st_context (dispatch_post_agenda_events s).2 in
  tokens c' = tokens c /\ cc_agenda c' = cc_agenda c.
Proof.
  cbv zeta. unfold dispatch_post_agenda_events, take_post_agenda_events, on_context, in_context, mbind, stM_bind.
  destruct (take_pending_events _) as [historic h]. simpl.
  set (s1 := set_context _ s). generalize (cc_events (st_context s) ++ historic). intros evs.
  assert (H : st_context (for_each evs (fun ev => dispatching (dispatch_in_context event_dispatcher ev)) s1).2
              = st_context s1).
  { generalize s1. induction evs as [|ev evs IH]; intros s2; [done|]. simpl. unfold mbind, stM_bind.
    pose proof (dispatching_context (dispatch_in_context event_dispatcher ev) s2) as Hd.
    destruct (dispatching _ s2) as [[?|?] s3]; simpl in *; [by rewrite IH|done]. }
  by rewrite H.
Qed.

Lemma run_command_inv {T} fuel (command : CommandM T) s v s' :
  run_command fuel command s = (Ok (Ok v), s') ->
  exists s1 s2, command s = (Ok v, s1) /\ agenda_loop fuel s1 = (Ok (Ok tt), s2)
    /\ dispatch_post_agenda_events s2 = (Ok tt, s').
Proof.
  intros E. apply bind_inv_ok in E as (r & s1 & E1 & E). destruct r as [r|]; [|done].
  apply bind_inv_ok in E as (l & s2 & E2 & E). destruct l as [[]|]; [|done].
  apply bind_inv_ok in E as (posted & s3 & E3 & E). destruct posted as [[]|]; [|done]. injection E as -> ->.
  unfold caught in E1, E3. exists s1, s2. split_and!; [|done|].
  - destruct (command s) as [[?|[]] ?]; try done. by injection E1 as -> ->.
  - destruct (dispatch_post_agenda_events s2) as [[[]|[]] ?]; try done. by injection E3 as ->.
Qed.

End Soundness.

(** ** Atomicity *)
Section Atomicity.
Context {env : Env} {acts : Activities} {commands : CommandEnv} {adhoc : AdhocCompletion}.

(** Nothing of the world that a transaction protects has changed. *)
Definition unchanged (w w' : World) : Prop :=
  w_database w' = w_database w /\ w_submitted w' = w_submitted w /\ w_history_jobs w' = w_history_jobs w.

Lemma in_command_world {A} (m : CommandM A) s w r s' w' : in_command m (s, w) = (r, (s', w')) -> w' = w /\ m s = (r, s').
Proof. unfold in_command. destruct (m s). by intros [= -> -> ->]. Qed.

Lemma fail_with_world {A} e s w (r : result Failure A) s' w' :
  fail_with e (s, w) = (r, (s', w')) -> w' = w /\ exists f, r = Err f.
Proof.
  unfold fail_with, mbind, stM_bind. destruct (in_command _ (s, w)) as [[e'|f] [s1 w1]] eqn:E;
    apply in_command_world in E as [-> _]; intros [= <- <- <-]; eauto.
Qed.

Lemma ignored_ok {A} (m : stM Dispatching FlowableError A) s : exists s', caught (dispatching m) s = (Ok (m (st_dispatching s)).1, s')
  /\ st_pending_async_hints s' = st_pending_async_hints s.
Proof. unfold caught, dispatching. destruct (m (st_dispatching s)) as [[a|e] d]; simpl; eauto. Qed.

Lemma notify_world {A} e s w : exists s', notify_failed_commit (A := A) e (s, w) = (Err (Raised e), (s', w)).
Proof.
  unfold notify_failed_commit, ignored, in_command, mbind, stM_bind.
  destruct (ignored_ok (dispatch_transaction_events RollingBack) s) as (s1 & -> & _). simpl.
  destruct (ignored_ok (dispatch_transaction_events RolledBack) s1) as (s2 & -> & _). by exists s2.
Qed.

(** The executor takes every job of the list, offered in order after those
    of [before]. *)
Definition all_taken (before hints : list RuntimeTimerJobState) : Prop :=
  forall l1 j l2, hints = l1 ++ j :: l2 -> submit_outcome (before ++ l1) j = None.

Definition same_but_jobs (w w' : World) : Prop :=
  w_database w' = w_database w /\ w_history_jobs w' = w_history_jobs w.

(** Jobs are offered in order up to the first one that the executor refuses. *)
Lemma submit_hints_spec hints s w r s' w' :
  submit_hints hints (s, w) = (r, (s', w')) ->
  same_but_jobs w w'
  /\ (r = Ok tt /\ w_submitted w' = w_submitted w ++ hints /\ all_taken (w_submitted w) hints
     \/ exists l j l2 e, hints = l ++ j :: l2 /\ all_taken (w_submitted w) l
          /\ submit_outcome (w_submitted w ++ l) j = Some e /\ w_submitted w' = w_submitted w ++ l ++ [j]
          /\ r = Err (Raised e)).
Proof.
  revert s w. induction hints as [|job hints IH]; intros s w.
  { intros [= <- <- <-]. split; [done|]. left. split_and!; [done|by rewrite app_nil_r|]. by intros [] ? ?. }
  unfold submit_hints. cbn [for_each]. fold (submit_hints hints). unfold mbind, stM_bind, submit.
  destruct (submit_outcome (w_submitted w) job) as [e|] eqn:Ho.
  - destruct (notify_world (A := unit) e s (mkWorld _ _ _ (w_database w) (w_log w) (w_submitted w ++ [job]) (w_history_jobs w)
                        (w_uuids w) (w_clock w))) as (s1 & ->). intros [= <- <- <-]. split; [done|]. right.
    exists [], job, hints, e. rewrite app_nil_r. split_and!; try done. by intros [] ? ?.
  - simpl. intros E. apply IH in E as [Hsame E]. split; [done|]. simpl in E. destruct E as [(-> & Hw & Ht)|(l & j & l2 & e & -> & Ht & He & Hw & ->)].
    + left. split_and!; [done|by rewrite Hw, <- app_assoc|]. intros [|x l1] j l2 [= -> E]; [by rewrite app_nil_r|].
      specialize (Ht l1 j l2 E). by rewrite <- app_assoc in Ht.
    + right. exists (job :: l), j, l2, e. rewrite <- app_assoc in He, Hw. split_and!; try done.
      intros [|x l1] j' l2' [= -> E]; [by rewrite app_nil_r|]. specialize (Ht l1 j' l2' E). by rewrite <- app_assoc in Ht.
Qed.

(** What follows a commit of the state [s]: the listeners of the transaction
    are told; if none fails the jobs are offered; if the executor takes them all
    the history jobs are handed over and the command succeeds. *)
Definition after_commit_outcome {T} (pending : list string) (s : CommandState) (v : T) (w w' : World) (r : result Failure T) : Prop :=
  let hints := st_pending_async_hints s in
  match (dispatch_transaction_events Committed (st_dispatching s)).1 with
  | Err e => r = Err (Raised e) /\ w_submitted w' = w_submitted w /\ w_history_jobs w' = w_history_jobs w
  | Ok _ =>
      (r = Ok v /\ all_taken (w_submitted w) hints /\ w_submitted w' = w_submitted w ++ hints
       /\ w_history_jobs w' = w_history_jobs w
            ++ (if negb (bool_decide (pending = [])) && history_dispatcher then [pending] else []))
      \/ exists l j l2 e, hints = l ++ j :: l2 /\ all_taken (w_submitted w) l
           /\ submit_outcome (w_submitted w ++ l) j = Some e /\ r = Err (Raised e)
           /\ w_submitted w' = w_submitted w ++ l ++ [j] /\ w_history_jobs w' = w_history_jobs w
  end.

Lemma after_commit_spec {T} (v : T) pending s w r s' w' :
  (after_commit pending ;; mret v) (s, w) = (r, (s', w')) ->
  w_database w' = w_database w /\ after_commit_outcome pending s v w w' r.
Proof.
  unfold after_commit, after_commit_outcome, in_command, mbind, stM_bind.
  destruct (ignored_ok (dispatch_transaction_events Committed) s) as (s1 & -> & Hh).
  destruct (dispatch_transaction_events Committed (st_dispatching s)).1 as [[]|e].
  - simpl. rewrite <- Hh. destruct (submit_hints (st_pending_async_hints s1) _) as [r3 [s3 w3]] eqn:E.
    apply submit_hints_spec in E as [[Hd Hj] [(-> & Hw & Ht)|(l & j & l2 & e & Hl & Ht & He & Hw & ->)]].
    + unfold dispatch_history_jobs, modify. intros [= <- <- <-]. rewrite <- Hj, <- Hw.
      destruct (_ && _); (split; [done|]; left; split_and!; try done); by rewrite app_nil_r.
    + intros [= <- <- <-]. split; [done|]. right. exists l, j, l2, e. by split_and!.
  - simpl. destruct (notify_world (A := unit) e s1 w) as (s2 & ->). by intros [= <- <- <-].
Qed.

(** The command reaches its commit: it runs to its end without error with the
    value [v], the listeners before the commit agree, and the session, in the state
    [s], is open, holds no write error and is taken by the database. *)
Definition commits {T} (fuel : nat) (command : CommandM T) (w : World) (v : T) (pending : list string) (s : CommandState) : Prop :=
  session_factory = None
  /\ exists s0, run_command fuel command (open_command w) = (Ok (Ok v), s0) /\ prepare_commit s0 = (Ok (Ok pending), s)
       /\ db_closed (session_of s) = false /\ db_write_error (session_of s) = None /\ database_commit s = Ok tt.

Ltac rolled_back :=
  intros [= <- <-]; split;
    [intros _; split; [by split_and!|by eauto]
    |intros ? ? ? (? & ? & ? & ? & ? & ? & ?); congruence].

End Atomicity.
