(* ===== verification/CommandSamples.v ===== *)
(** * Commands on a concrete engine

    An instance of [sample4] driven by the command executor: the theorems of
    [ContinueProcess] and [CommandExecutor] applied to it, and runs in
    which the executor does not do what it should. *)
From stdpp Require Import pretty.
From S2P Require Import Prelude Chars Float64 Numerals Json Errors ElValues BpmnModel FlowElements Samples Execution Store JobTypes JobLocks JobLocksProof JobStore EventDispatcher Context FlowSelection Variables Listeners ExecutionGraph ParallelGateway InclusiveGateway TakeOutgoing EngineSafety ContinueProcess CommandExecutor.

(** ** The engine *)
#[export] Instance sample_activities : Activities := {
  record_activity_start a t pi e h := (Ok tt, h);
  record_activity_cancelled e a r h := (Ok tt, h);
  delete_open_historic_activity_instance e a h := h;
  clock n := Z.of_nat (Nat.min n 1000);
  number_of_retries := 3;
  activity_display := {| value_to_string v := "value"; f64_to_string f := "float" |};
  other_behavior b e := mret e
}.

#[export] Instance sample_adhoc : AdhocCompletion := {| try_auto_complete_adhoc_after_child_leave e := mret tt |}.

Lemma sample_adhoc_ok ids e : ex_id e ∈ ids -> keeps ids (try_auto_complete_adhoc_after_child_leave e) nothing.
Proof. intros _. apply keeps_return. set_solver. Qed.

#[export] Instance sample_activity_laws : ActivityLaws.
Proof.
  split.
  - intros n. unfold is_i64, i64_min, i64_max. simpl. lia.
  - unfold is_i64, i64_min, i64_max. simpl. lia.
  - intros b e. apply keeps_return. set_solver.
Qed.

Lemma no_listeners : listeners_keep_identity.
Proof. by intros name run. Qed.

(** A listener that is told of everything when a transaction is rolled back. *)
Definition undo_listener : EngineEventListener :=
  mkListener "undo" (fun _ _ => Ok tt) false true RolledBack.

#[export] Instance sample_commands : CommandEnv := {
  HistoryTables := list (string * string);
  history_open h := h;
  history_tables h := h;
  take_pending_events h := ([], h);
  flush_history := mret tt;
  take_pending_jobs h := ([], h);
  async_history_enabled := false;
  event_dispatcher := mkDispatcher true [undo_listener] (fun _ => []);
  session_factory := None;
  database_commit s := Ok tt;
  submit_outcome l j := None;
  history_dispatcher := true
}.

(** ** An instance *)
Definition token4 (i : string) (parent activity : option string) (scope : bool) : Execution :=
  mkExecution i parent None (Some "pi-4") (Some "pi-4") (Some "proc:4") None None None activity
    None None None false false true false scope false None None None ∅ ∅ ∅ false.

Definition at_start : Execution := token4 "pi-4" None (Some "start") true.
Definition at_plain : Execution := token4 "e-4" (Some "pi-4") (Some "plain") false.
Definition at_before : Execution := token4 "e-4" (Some "pi-4") (Some "before") false.

Definition no_jobs : JobSession := mkJobSession false None ∅ ∅ ∅ ∅ ∅ ∅ ∅.

Definition state_of (c : CommandContext) : CommandState := mkState _ c no_jobs (mkDispatching [] []) [] 0.

Definition started : CommandContext := write_ctx at_start empty_ctx.
Definition waiting_before : CommandContext := write_ctx at_before (write_ctx (set_activity_id None at_start) empty_ctx).

Lemma started_wf : context_wf started.
Proof. unfold started. repeat apply write_ctx_wf; try apply empty_ctx_wf; by apply sample_usable. Qed.

Lemma waiting_before_wf : context_wf waiting_before.
Proof. unfold waiting_before. repeat apply write_ctx_wf; try apply empty_ctx_wf; by apply sample_usable. Qed.

Lemma deleted_token_not_continued_witness :
  continue_process_run at_plain (state_of started) = (Ok tt, state_of started).
Proof. apply deleted_token_not_continued; [apply started_wf|by vm_compute]. Defined.

Lemma async_activity_becomes_job_witness :
  exists s' job r, continue_process_run at_before (state_of waiting_before) = (Ok tt, s')
    /\ js_jobs (st_jobs s') = <[jb_timer_job_id job := r]> ∅ /\ jb_activity_id job = "before"
    /\ eligible async_states 5 None None None (job_session s') job = true.
Proof.
  destruct (async_activity_becomes_job at_before "before" sample4 before_task (state_of waiting_before)
              [set_activity_id None at_start] None) as (s' & job & r & H1 & H2 & H3 & H4 & H5 & H6 & H7 & H8 & H9 & H10 & _ & _ & _ & _ & _ & _ & H11).
  - apply waiting_before_wf.
  - exists at_before. by vm_compute.
  - split; [done|]. by exists "proc:4", sample4_model.
  - done.
  - by vm_compute.
  - done.
  - apply chain_top; by vm_compute.
  - by vm_compute.
  - exists s', job, r. split_and!; [done|by rewrite H7|done|]. apply H11. simpl. lia.
Defined.

(** ** Commands *)
Definition continue_command (e : Execution) : CommandM unit := in_context (plan_continue_process_operation e).

Lemma keeps_continue_command : keeps [] (continue_command at_start) nothing.
Proof.
  apply keeps_in_context, keeps_engine. intros c [Hc Ha] _. split_and!; [|done|apply Forall_nil_2].
  split; [by apply (plan_ctx_wf (ContinueProcess at_start))|]. apply Forall_app. split; [done|].
  constructor; [|constructor]. by apply sample_usable.
Qed.


(** The database that holds the instance. *)
Definition sample_world : World :=
  mkWorld _ _ _ (mkDatabase _ _ _ (rt_session (cc_runtime started)) no_jobs []) [] [] [] 0 0.


(** ** Where the code falls short *)
Definition at_activity (a : string) (c : CommandContext) : list (string * bool) :=
  (fun e => (ex_id e, ex_is_active e))
  <$> List.filter (fun e => is_some_eq (ex_activity_id e) a) (map_to_list (tokens c)).*2.

(** A task that is left asynchronously clears the whole agenda, the operations
    of other tokens included: the token on the parallel branch stays on its
    task, active, with nothing planned for it and no job. *)
Theorem async_leave_strands_siblings :
  match run_command 20 (continue_command at_start) (state_of started) with
  | (Ok r, s') => (r, cc_agenda (st_context s'), at_activity "plain" (st_context s'),
                   (jb_activity_id ∘ cas_data) <$> (map_to_list (js_jobs (st_jobs s'))).*2)
  | (Err _, _) => (Err (Internal []), [], [], [])
  end
  = (Ok tt, [], [("uuid-1", true)], ["after"]).
Proof. vm_compute. reflexivity. Qed.

(** When the history of a command cannot be written, the command fails and is
    rolled back, but the listeners of the rollback are not told; they are when
    the command itself fails. *)
Definition broken_history : CommandEnv := {|
  HistoryTables := list (string * string);
  history_open h := h;
  history_tables h := h;
  take_pending_events h := ([], h);
  flush_history := throw (Raised (Internal [Lit "history"]));
  take_pending_jobs h := ([], h);
  async_history_enabled := true;
  event_dispatcher := mkDispatcher true [undo_listener] (fun _ => []);
  session_factory := None;
  database_commit s := Ok tt;
  submit_outcome l j := None;
  history_dispatcher := true
|}.

Definition failing_listener : EngineEventListener :=
  mkListener "check" (fun _ _ => Err (Internal [Lit "refused"])) true true Committing.

Definition refusing : CommandEnv := {|
  HistoryTables := list (string * string);
  history_open h := h;
  history_tables h := h;
  take_pending_events h := ([], h);
  flush_history := mret tt;
  take_pending_jobs h := ([], h);
  async_history_enabled := false;
  event_dispatcher := mkDispatcher true [undo_listener; failing_listener] (fun _ => []);
  session_factory := None;
  database_commit s := Ok tt;
  submit_outcome l j := None;
  history_dispatcher := true
|}.

Definition world_of (env : CommandEnv) (h : @HistoryTables _ _ env) : @World _ _ env :=
  @mkWorld _ _ env (@mkDatabase _ _ env (rt_session (cc_runtime started)) no_jobs h) [] [] [] 0 0.

Definition notified (log : Log) (name : string) : nat := length (List.filter (fun n => String.eqb n.1 name) log).

Theorem history_failure_skips_rollback_listeners :
  (let '(r, w) := @execute_terminal _ _ broken_history _ unit 20 (continue_command at_start) (world_of broken_history []) in
   (is_ok r, notified (w_log w) "undo")) = (false, 0)
  /\ (let '(r, w) := @execute_terminal _ _ refusing _ unit 20 (continue_command at_start) (world_of refusing []) in
      (is_ok r, notified (w_log w) "undo")) = (false, 6).
Proof. split; vm_compute; reflexivity. Qed.

(** An interceptor that fails after the command has succeeded is not heard. *)
Theorem interceptor_error_dropped {W T} (terminal : stM W Failure T) w e :
  run_with_interceptors [Proceed (fun _ => Answer (Err e))] terminal w = terminal w.
Proof. apply interceptor_proceeds. repeat constructor. Qed.
