(* ===== verification/MultiInstanceProof.v ===== *)
(** * Multi-instance activities: what they do

    A finished multi-instance activity is left by one token; a parallel one
    creates its instances, each with its index and element, and is left when
    the last of them is done. *)
From S2P Require Import Prelude Chars Float64 Numerals Json Errors ElValues BpmnModel FlowElements Execution Store JobTypes JobLocks JobLocksProof JobStore EventDispatcher Context Variables EngineSafety WaitStates ContinueProcess MultiInstance ExecutionTrees.

(** ** Leaving the activity *)
Section Leaving.
Context {env : Env} {uuids : UuidLaws} {acts : Activities} {hist : HistoryRecords}.

(** The token that leaves the activity. *)
Definition leave_token (i : string) (mi_root : Execution) : Execution :=
  mkExecution i (ex_parent_id mi_root) (ex_super_execution_id mi_root) (ex_root_process_instance_id mi_root)
    (ex_process_instance_id mi_root) (ex_process_definition_id mi_root) (ex_process_definition_key mi_root)
    (ex_process_definition_name mi_root) (ex_process_definition_version mi_root) (ex_activity_id mi_root)
    (ex_activity_name mi_root) None None (ex_is_suspended mi_root) false true false false false
    (ex_tenant_id mi_root) None None ∅ ∅ ∅ false.

(** The variables of the root that outlive it, the local ones first. *)
Definition promoted (mi_root parent : Execution) : Execution :=
  set_variables (not_bookkeeping (ex_local_variables mi_root)
                 ∪ (not_bookkeeping (ex_variables mi_root) ∪ ex_variables parent)) parent.

(** *** Writing one execution *)
Record wrote (e : Execution) (s s' : CommandState) : Prop := {
  wr_wf : context_wf (st_context s');
  wr_tokens : tokens (st_context s') = <[ex_id e := e]> (tokens (st_context s));
  wr_agenda : cc_agenda (st_context s') = cc_agenda (st_context s);
  wr_uuids : cc_uuids (st_context s') = cc_uuids (st_context s);
  wr_fewer : fewer s s'
}.

Lemma update_writes e s :
  context_wf (st_context s) -> usable (st_context s) (ex_id e) ->
  yields (in_context (entity_update e)) s (fun _ => wrote e s).
Proof.
  intros Hwf Hu. eapply yields_eq; [by apply in_context_eq, entity_update_eq|].
  split; [by apply (write_ctx_wf e _ Hwf)|apply (tokens_write e)|done|done|by split].
Qed.

Lemma quiet_tokens s s' : quiet s s' -> tokens (st_context s') = tokens (st_context s).
Proof. intros Hq. apply map_eq. intros k. by destruct (cl_kept _ _ _ Hq k) as [?|[_ []]]. Qed.

Lemma promote_writes row p parent s :
  context_wf (st_context s) -> tokens (st_context s) !! ex_id row = Some row -> ex_parent_id row = Some p ->
  tokens (st_context s) !! p = Some parent ->
  yields (promote_mi_root_variables_to_parent row) s (fun _ => wrote (promoted row parent) s).
Proof.
  intros Hwf Hrow Hp Hparent. unfold promote_mi_root_variables_to_parent. rewrite Hp.
  eapply yields_bind; [by apply find_quiet|intros o ? [-> ->]]. rewrite Hparent.
  eapply yields_bind; [by apply find_quiet|intros o ? [-> ->]]. rewrite Hrow. simpl.
  apply update_writes; [done|]. simpl. rewrite (token_key _ _ _ Hwf Hparent). by eapply token_usable.
Qed.

Lemma leave_created row s :
  context_wf (st_context s) ->
  let leave := leave_token (new_v4 (cc_uuids (st_context s))) row in
  yields (leave ← new_child_execution row (ex_parent_id row);
          let leave := set_activity_name (ex_activity_name row) (set_activity_id (ex_activity_id row) leave) in
          let leave := clear_variables (set_is_scope false (set_is_ended false (set_is_active true
                         (set_is_multi_instance_root false leave)))) in
          in_context (entity_insert leave) ;;
          in_context (plan_take_outgoing_sequence_flows_operation leave)) s (fun _ s' =>
    context_wf (st_context s')
    /\ cc_agenda (st_context s') = cc_agenda (st_context s) ++ [TakeOutgoingSequenceFlows leave]
    /\ tokens (st_context s') = <[ex_id leave := leave]> (tokens (st_context s))
    /\ cc_uuids (st_context s') = S (cc_uuids (st_context s)) /\ fewer s s').
Proof.
  intros Hwf leave. unfold new_child_execution.
  eapply yields_bind with (R := fun x s' => x = leave /\ s' = set_context (draw_ctx (st_context s)) s).
  { by apply (yields_eq _ _ leave (set_context (draw_ctx (st_context s)) s)). }
  intros x ? [-> ->]. cbv zeta. change (clear_variables _) with leave.
  assert (Hd : context_wf (draw_ctx (st_context s))) by (by apply draw_ctx_wf).
  eapply yields_bind; [apply (update_writes leave); [done|apply draw_usable]|]. intros [] s2 W2.
  eapply yields_eq; [reflexivity|]. split_and!.
  - apply (plan_ctx_wf (TakeOutgoingSequenceFlows leave)), W2.
  - simpl. by rewrite (wr_agenda _ _ _ W2).
  - exact (wr_tokens _ _ _ W2).
  - exact (wr_uuids _ _ _ W2).
  - destruct (wr_fewer _ _ _ W2) as [F1 F2 F3 F4 F5]. by split.
Qed.

(** A finished activity: its root and everything below is deleted, the
    variables promoted, and one token leaves. *)
Record left_once (row parent : Execution) (s s' : CommandState) : Prop := {
  lo_wf : context_wf (st_context s');
  lo_agenda : cc_agenda (st_context s')
    = cc_agenda (st_context s) ++ [TakeOutgoingSequenceFlows (leave_token (new_v4 (cc_uuids (st_context s))) row)];
  lo_leave : tokens (st_context s') !! new_v4 (cc_uuids (st_context s))
    = Some (leave_token (new_v4 (cc_uuids (st_context s))) row);
  lo_parent : tokens (st_context s') !! ex_id parent = Some (promoted row parent);
  lo_gone k : below (tokens (st_context s)) (ex_id row) k -> tokens (st_context s') !! k = None /\ unhosted k s';
  lo_kept k : k <> new_v4 (cc_uuids (st_context s)) -> k <> ex_id parent ->
    tokens (st_context s') !! k = tokens (st_context s) !! k
    \/ tokens (st_context s') !! k = None /\ below (tokens (st_context s)) (ex_id row) k
}.

Lemma cleanup_leaves e row p parent b s l :
  context_wf (st_context s) -> ex_is_multi_instance_root e = true ->
  tokens (st_context s) !! ex_id e = Some row -> ex_parent_id row = Some p ->
  tokens (st_context s) !! p = Some parent -> chain (tokens (st_context s)) (ex_id e) l ->
  yields (cleanup_mi_root_and_leave e b) s (fun _ => left_once row parent s).
Proof.
  intros Hwf Hroot Hrow Hp Hparent Hc.
  assert (Hid : ex_id row = ex_id e) by (by eapply token_key). rewrite <- Hid in *.
  assert (Hpid : ex_id parent = p) by (by eapply token_key).
  pose proof (parent_not_below _ _ _ _ _ Hrow Hp Hc) as Hnb.
  unfold cleanup_mi_root_and_leave, resolve_multi_instance_root. rewrite Hroot.
  eapply yields_bind with (R := fun o s' => o = Some row /\ s' = s).
  { rewrite <- Hid. eapply yields_bind; [by apply find_quiet|]. intros o ? [-> ->]. by rewrite Hrow. }
  intros o ? [-> ->].
  eapply yields_bind; [by apply event_quiet|intros [] s1 Q1]. pose proof (cl_wf _ _ _ Q1) as W1.
  pose proof (quiet_tokens _ _ Q1) as T1.
  eapply yields_bind; [apply (promote_writes row p parent); [done|by rewrite T1|done|by rewrite T1]|intros [] s2 R2].
  pose proof (wr_tokens _ _ _ R2) as T2. rewrite T1 in T2. cbn [ex_id promoted set_variables] in T2. rewrite Hpid in T2.
  assert (Hl : same_links (tokens (st_context s)) (tokens (st_context s2))) by (rewrite T2; by eapply same_links_insert).
  destruct (chain_links _ _ _ _ Hl Hc) as (l2 & Hc2).
  eapply yields_bind; [apply (delete_all_cleans _ None _ l2); [apply R2|done]|intros [] s3 C3].
  pose proof (cl_wf _ _ _ C3) as W3.
  assert (Hu : cc_uuids (st_context s3) = cc_uuids (st_context s)).
  { by rewrite (cl_uuids _ _ _ C3), (wr_uuids _ _ _ R2), (cl_uuids _ _ _ Q1). }
  eapply yields_weaken; [by apply leave_created|]. rewrite Hu. intros [] s4 (W4 & A4 & T4 & U4 & F4).
  assert (Hfresh : tokens (st_context s) !! new_v4 (cc_uuids (st_context s)) = None) by (by apply (cwf_fresh _ Hwf)).
  assert (Hb : forall k, below (tokens (st_context s2)) (ex_id row) k <-> below (tokens (st_context s)) (ex_id row) k).
  { intros k. split; apply below_links; [by apply same_links_sym|done]. }
  split; [done| |by rewrite T4, lookup_insert_eq| | |].
  - by rewrite A4, (cl_agenda _ _ _ C3), (wr_agenda _ _ _ R2), (cl_agenda _ _ _ Q1).
  - rewrite T4, lookup_insert_ne by (intros E; simpl in E; congruence).
    destruct (cl_kept _ _ _ C3 (ex_id parent)) as [->|[_ Hg]]; [by rewrite T2, Hpid, lookup_insert_eq|].
    apply Hb in Hg. rewrite Hpid in Hg. done.
  - intros k Hk%Hb. split; [|eapply unhosted_fewer; [exact F4|by apply C3]].
    rewrite T4, lookup_insert_ne; [by apply C3|]. simpl. intros <-. apply Hb in Hk.
    inversion Hk as [E|? x ? Hx]; [congruence|congruence].
  - intros k Hk1 Hk2. rewrite T4, lookup_insert_ne by done.
    destruct (cl_kept _ _ _ C3 k) as [->|[-> Hg%Hb]]; [|by right]. left. by rewrite T2, lookup_insert_ne by congruence.
Qed.
End Leaving.

(** ** Creating the instances of a parallel activity *)
Section Creating.
Context {env : Env} {uuids : UuidLaws} {acts : Activities} {hist : HistoryRecords}.

(** A behaviour that waits: it leaves a wait state for its execution, plans
    nothing and touches no other execution. *)
Record waits_after (child : Execution) (s : CommandState) (child' : Execution) (s' : CommandState) : Prop := {
  wa_wf : context_wf (st_context s');
  wa_id : ex_id child' = ex_id child;
  wa_parent : ex_parent_id child' = ex_parent_id child;
  wa_locals : ex_local_variables child' = ex_local_variables child;
  wa_ended : ex_is_ended child' = ex_is_ended child;
  wa_others k : k <> ex_id child -> tokens (st_context s') !! k = tokens (st_context s) !! k;
  wa_agenda : cc_agenda (st_context s') = cc_agenda (st_context s);
  wa_uuids : cc_uuids (st_context s) <= cc_uuids (st_context s');
  wa_waits : is_Some (find_event_wait_state_by_execution_id (ex_id child) (session_of s')).1
}.

Definition waiting_behavior (inner : Execution -> CommandM Execution) : Prop :=
  forall child s, context_wf (st_context s) -> tokens (st_context s) !! ex_id child = Some child ->
    yields (inner child) s (waits_after child s).

Lemma waits_found child s :
  context_wf (st_context s) -> is_Some (find_event_wait_state_by_execution_id (ex_id child) (session_of s)).1 ->
  yields (child_has_wait_state child) s (fun b s' => b = true /\ s' = s).
Proof.
  intros Hwf [w Hw]. unfold child_has_wait_state.
  eapply yields_bind; [apply ask_quiet; [done|intros; by apply query_task]|intros t ? [_ ->]].
  destruct t; [by apply (yields_eq _ _ true s)|].
  eapply yields_bind; [apply ask_quiet; [done|intros; by apply query_wait]|intros o ? [-> ->]].
  rewrite Hw. by apply (yields_eq _ _ true s).
Qed.

Lemma child_start_quiet e s :
  context_wf (st_context s) -> yields (record_mi_child_activity_start e) s (fun _ => quiet s).
Proof.
  intros Hwf. unfold record_mi_child_activity_start.
  destruct (ex_activity_id e); [|by apply (skip_quiet tt)].
  destruct (ex_process_definition_id e); [|by apply (skip_quiet tt)].
  destruct (ex_process_instance_id e); [|by apply (skip_quiet tt)].
  destruct (get_bpmn_model _) as [bm|]; [|by apply (skip_quiet tt)].
  destruct (bm_main_process bm); [|by apply (skip_quiet tt)].
  destruct (find_flow_element _ _); [|by apply (skip_quiet tt)].
  apply history_quiet; [intros h; apply history_starts|done].
Qed.

(** A variable under a name that may not be configured. *)
Definition named (name : option string) (v : Value) : gmap string Value :=
  match name with Some n => {[n := v]} | None => ∅ end.

(** The local variables of the instance of an index: its element, its index
    under the configured name, and its index as [loopCounter]; of variables of
    one name the first counts. *)
Definition instance_locals (mi : MultiInstanceLoopCharacteristics) (index : Z) (item : option Value) : gmap string Value :=
  match item with Some v => named (mi_element_variable mi) v | None => ∅ end
  ∪ (named (mi_element_index_variable mi) (value_of_i64 index) ∪ {["loopCounter" := value_of_i64 index]}).

Lemma parallel_child_spec mi items e u i :
  let ch := parallel_child mi items e u i in
  ex_id ch = u /\ ex_parent_id ch = Some (ex_id e) /\ ex_is_ended ch = ex_is_ended e
  /\ ex_local_variables ch = instance_locals mi i (instance_item items i).
Proof.
  unfold parallel_child, instance_locals, apply_instance_variables, named. cbv zeta.
  destruct (mi_element_index_variable mi), (mi_element_variable mi), (instance_item items i);
    (split_and!; [done..|]); rewrite ?(left_id_L ∅ (∪)); simpl; by rewrite ?insert_union_singleton_l, ?(right_id_L ∅ (∪)).
Qed.

(** The instance of an index: its row. *)
Record instance_row (mi : MultiInstanceLoopCharacteristics) (items : option (list Value)) (e : Execution) (i : Z)
    (m : gmap string Execution) (id : string) : Prop := {
  ir_row : exists ch, m !! id = Some ch /\ ex_parent_id ch = Some (ex_id e) /\ ex_is_ended ch = ex_is_ended e
             /\ ex_local_variables ch = instance_locals mi i (instance_item items i)
}.

(** [ids] are the instances from [i] on, and the only new executions. *)
Record created (mi : MultiInstanceLoopCharacteristics) (items : option (list Value)) (e : Execution) (i : Z)
    (ids : list string) (s s' : CommandState) : Prop := {
  cr_wf : context_wf (st_context s');
  cr_distinct : NoDup ids;
  cr_fresh id : id ∈ ids -> tokens (st_context s) !! id = None;
  cr_rows j id : ids !! j = Some id -> instance_row mi items e (i + Z.of_nat j) (tokens (st_context s')) id;
  cr_others k : k ∉ ids -> tokens (st_context s') !! k = tokens (st_context s) !! k;
  cr_agenda : cc_agenda (st_context s') = cc_agenda (st_context s);
  cr_drawn id : id ∈ ids -> exists n, cc_uuids (st_context s) <= n /\ id = new_v4 n;
  cr_uuids : cc_uuids (st_context s) <= cc_uuids (st_context s')
}.

Context (mi : MultiInstanceLoopCharacteristics) (inner : Execution -> CommandM Execution) (items : option (list Value)).
Context (inner_waits : waiting_behavior inner).

(** One more instance in front. *)
Lemma created_cons e i u ids s s1 s2 :
  tokens (st_context s) !! u = None -> u = new_v4 (cc_uuids (st_context s)) ->
  cc_uuids (st_context s) <= cc_uuids (st_context s1) ->
  cc_agenda (st_context s1) = cc_agenda (st_context s) ->
  (forall k, k <> u -> tokens (st_context s1) !! k = tokens (st_context s) !! k) ->
  instance_row mi items e i (tokens (st_context s1)) u -> created mi items e (i + 1) ids s1 s2 ->
  created mi items e i (u :: ids) s s2.
Proof.
  intros Hu Hdraw Hle Ha Ho [(ch & Hch & Hrow)] C.
  assert (Hn : u ∉ ids) by (intros Hin%(cr_fresh _ _ _ _ _ _ _ C); congruence).
  split.
  - apply C.
  - apply NoDup_cons. split; [done|apply C].
  - intros id [->|Hin]%elem_of_cons; [done|]. destruct (decide (id = u)) as [->|Hne]; [done|].
    rewrite <- Ho by done. by apply C.
  - intros [|j] id; simpl.
    + intros [= <-]. split. exists ch. rewrite (cr_others _ _ _ _ _ _ _ C) by done.
      replace (i + Z.of_nat 0)%Z with i by lia. done.
    + intros Hj. replace (i + Z.of_nat (S j))%Z with (i + 1 + Z.of_nat j)%Z by lia. by apply C.
  - intros k [Hk1 Hk2]%not_elem_of_cons. by rewrite (cr_others _ _ _ _ _ _ _ C), Ho.
  - by rewrite (cr_agenda _ _ _ _ _ _ _ C).
  - intros id [->|Hin]%elem_of_cons; [by exists (cc_uuids (st_context s))|]. destruct (cr_drawn _ _ _ _ _ _ _ C id Hin) as (m & Hm & ->).
    exists m. split; [lia|done].
  - etrans; [exact Hle|apply C].
Qed.

Lemma parallel_all_wait n i k a e s :
  context_wf (st_context s) ->
  yields (parallel_instances mi inner items n i k a e) s (fun r s' =>
    r = (e, k) /\ exists ids, length ids = n /\ created mi items e i ids s s').
Proof.
  revert i s. induction n as [|n IH]; intros i s Hwf; simpl.
  { apply (yields_eq _ _ (e, k) s); [done|]. split; [done|]. exists []. split; [done|].
    split; [done|constructor|..]; try done; intros id Hin; by apply not_elem_of_nil in Hin. }
  set (u := new_v4 (cc_uuids (st_context s))).
  destruct (parallel_child_spec mi items e u i) as (Hid & Hpar & Hend & Hloc).
  set (ch := parallel_child mi items e u i) in *.
  assert (Hu : tokens (st_context s) !! u = None) by (by apply (cwf_fresh _ Hwf)).
  assert (Hd : context_wf (draw_ctx (st_context s))) by (by apply draw_ctx_wf).
  eapply yields_bind with (R := fun x s' => x = u /\ s' = set_context (draw_ctx (st_context s)) s).
  { by apply (yields_eq _ _ u (set_context (draw_ctx (st_context s)) s)). }
  intros x ? [-> ->]. fold ch. eapply yields_bind; [apply (update_writes ch); [done|rewrite Hid; apply draw_usable]|].
  intros [] s1 W1. eapply yields_bind; [apply child_start_quiet, W1|intros [] s2 Q2].
  pose proof (quiet_tokens _ _ Q2) as T2. rewrite (wr_tokens _ _ _ W1), Hid in T2.
  change (tokens (st_context (set_context (draw_ctx (st_context s)) s))) with (tokens (st_context s)) in T2.
  eapply yields_bind; [apply inner_waits; [apply Q2|by rewrite Hid, T2, lookup_insert_eq]|]. intros ch' s3 A3.
  pose proof (wa_id _ _ _ _ A3) as Hid'. rewrite Hid in Hid'.
  eapply yields_bind; [apply waits_found; [apply A3|rewrite Hid', <- Hid; apply A3]|]. intros b ? [-> ->].
  assert (Hle : S (cc_uuids (st_context s)) <= cc_uuids (st_context s3)).
  { etrans; [|apply A3]. by rewrite (cl_uuids _ _ _ Q2), (wr_uuids _ _ _ W1). }
  eapply yields_bind; [apply (update_writes ch'); [apply A3|]|].
  { rewrite Hid'. apply (usable_grows (draw_ctx (st_context s))); [exact Hle|apply draw_usable]. }
  intros [] s4 W4. eapply yields_weaken; [apply IH, W4|]. intros r s5 (-> & ids & Hlen & C).
  split; [done|]. exists (u :: ids). split; [simpl; by rewrite Hlen|].
  eapply (created_cons _ _ _ _ s s4); [done|done| | | | |exact C].
  - rewrite (wr_uuids _ _ _ W4). lia.
  - by rewrite (wr_agenda _ _ _ W4), (wa_agenda _ _ _ _ A3), (cl_agenda _ _ _ Q2), (wr_agenda _ _ _ W1).
  - intros x Hx. rewrite (wr_tokens _ _ _ W4), lookup_insert_ne by congruence.
    rewrite (wa_others _ _ _ _ A3) by congruence. by rewrite T2, lookup_insert_ne.
  - split. exists ch'. rewrite (wr_tokens _ _ _ W4), Hid', lookup_insert_eq.
    rewrite (wa_parent _ _ _ _ A3), (wa_ended _ _ _ _ A3), (wa_locals _ _ _ _ A3). done.
Qed.
End Creating.

(** ** A parallel activity over a collection *)
Section Parallel.
Context {env : Env} {uuids : UuidLaws} {acts : Activities} {hist : HistoryRecords}.

Lemma find_variable_chain c i name l :
  context_wf c -> chain (tokens c) i l ->
  exists x, find_execution_variable i name c = (Ok x, c) /\ snd <$> x = find_map (fun e => process_variable e name) l.
Proof.
  intros Hwf Hc. unfold find_execution_variable. erewrite bind_ok by reflexivity.
  pose proof (chain_length _ _ _ (context_keys c Hwf) Hc) as Hlen.
  assert (Hf : length l < chain_fuel c - 1) by (unfold chain_fuel; lia). clear Hlen. revert Hf.
  generalize (chain_fuel c) as fuel.
  induction Hc as [i Hi|i e Hi Hp|i e p l Hi Hp _ IH]; intros fuel Hf;
    (destruct fuel as [|[|fuel]]; [simpl in Hf; lia|simpl in Hf; lia|]).
  - exists None. split; [|done]. simpl. step. by rewrite Hi.
  - remember (S fuel) as f. simpl. step. rewrite Hi. destruct (process_variable e name) as [v|]; [by exists (Some (ex_id e, v))|].
    exists None. split; [|done]. by rewrite Hp, Heqf.
  - remember (S fuel) as f. simpl. step. rewrite Hi. destruct (process_variable e name) as [v|]; [by exists (Some (ex_id e, v))|].
    rewrite Hp. apply IH. simpl in Hf. lia.
Qed.

(** The root that takes the place of a token. *)
Record materialized (e r : Execution) (s s' : CommandState) : Prop := {
  mz_wf : context_wf (st_context s');
  mz_root : ex_is_multi_instance_root r = true /\ ex_is_active r = false /\ ex_is_ended r = false
            /\ ex_activity_id r = ex_activity_id e /\ ex_local_variables r = ∅;
  mz_parent : ex_parent_id r = if is_process_instance_scope_execution e then Some (ex_id e) else ex_parent_id e;
  mz_row : tokens (st_context s') !! ex_id r = Some r;
  mz_new : tokens (st_context s) !! ex_id r = None;
  mz_token : tokens (st_context s') !! ex_id e
    = if is_process_instance_scope_execution e
      then Some (set_activity_name None (set_activity_id None (set_is_active false e))) else None;
  mz_others k : k <> ex_id r -> k <> ex_id e -> tokens (st_context s') !! k = tokens (st_context s) !! k;
  mz_agenda : cc_agenda (st_context s') = cc_agenda (st_context s);
  mz_uuids : cc_uuids (st_context s) <= cc_uuids (st_context s')
}.

Lemma new_root_yields e p s :
  yields (new_child_execution e p) s (fun r s' =>
    ex_id r = new_v4 (cc_uuids (st_context s)) /\ ex_parent_id r = p /\ ex_activity_id r = ex_activity_id e
    /\ s' = set_context (draw_ctx (st_context s)) s).
Proof. by eapply yields_eq. Qed.

(** The scope of a process instance stays, without its activity. *)
Lemma materialize_scope e s :
  context_wf (st_context s) -> is_Some (tokens (st_context s) !! ex_id e) -> ex_is_multi_instance_root e = false ->
  is_process_instance_scope_execution e = true ->
  yields (materialize_multi_instance_root e) s (fun r s' => materialized e r s s').
Proof.
  intros Hwf [row Hrow] Hr Hpi. unfold materialize_multi_instance_root. rewrite Hr, Hpi. cbv zeta.
  assert (Hu : tokens (st_context s) !! new_v4 (cc_uuids (st_context s)) = None) by (by apply (cwf_fresh _ Hwf)).
  assert (Hd : context_wf (draw_ctx (st_context s))) by (by apply draw_ctx_wf).
  assert (Hue : usable (draw_ctx (st_context s)) (ex_id e)) by (eapply usable_draw, token_usable; done).
  eapply yields_bind; [apply new_root_yields|]. intros r ? (Hid & Hpar & Hact & ->).
  eapply yields_bind; [apply (update_writes (set_activity_name None (set_activity_id None (set_is_active false e)))); done|].
  intros [] s1 W1. set (r' := clear_variables _).
  eapply yields_bind; [apply (update_writes r'); [apply W1|]|intros [] s2 W2].
  { apply (usable_grows (draw_ctx (st_context s))); [by rewrite (wr_uuids _ _ _ W1)|].
    change (ex_id r') with (ex_id r). rewrite Hid. apply draw_usable. }
  assert (Hid' : ex_id r' = new_v4 (cc_uuids (st_context s))) by done.
  assert (T : tokens (st_context s2) = <[ex_id r' := r']> (<[ex_id e := set_activity_name None (set_activity_id None (set_is_active false e))]> (tokens (st_context s)))).
  { by rewrite (wr_tokens _ _ _ W2), (wr_tokens _ _ _ W1). }
  apply (yields_eq _ _ r' s2); [done|]. split; rewrite ?T, ?Hpi; try done; [apply W2| | | | | |].
  + by rewrite lookup_insert_eq.
  + by rewrite Hid'.
  + rewrite lookup_insert_ne by congruence. by rewrite lookup_insert_eq.
  + intros k Hk1 Hk2. rewrite lookup_insert_ne by congruence. by rewrite lookup_insert_ne by congruence.
  + by rewrite (wr_agenda _ _ _ W2), (wr_agenda _ _ _ W1).
  + rewrite (wr_uuids _ _ _ W2), (wr_uuids _ _ _ W1). simpl. lia.
Qed.

(** Any other token is deleted. *)
Lemma materialize_token e s :
  context_wf (st_context s) -> is_Some (tokens (st_context s) !! ex_id e) -> ex_is_multi_instance_root e = false ->
  is_process_instance_scope_execution e = false ->
  yields (materialize_multi_instance_root e) s (fun r s' => materialized e r s s').
Proof.
  intros Hwf [row Hrow] Hr Hpi. unfold materialize_multi_instance_root. rewrite Hr, Hpi. cbv zeta.
  assert (Hu : tokens (st_context s) !! new_v4 (cc_uuids (st_context s)) = None) by (by apply (cwf_fresh _ Hwf)).
  assert (Hd : context_wf (draw_ctx (st_context s))) by (by apply draw_ctx_wf).
  eapply yields_bind; [apply new_root_yields|]. intros r ? (Hid & Hpar & Hact & ->). set (r' := clear_variables _).
  set (s0 := set_context _ s).
  eapply yields_bind; [apply (host_quiet _ s0); [done|apply host_delete_wait|apply delete_wait_fewer]|intros [] s1 [Q1 _]].
  eapply yields_bind; [apply host_quiet; [apply Q1|apply host_delete_boundary|apply delete_boundary_fewer]|intros [] s2 [Q2 _]].
  eapply yields_bind; [apply jobs_quiet, Q2|intros [] s3 (Q3 & _)].
  pose proof (quiet_then _ _ _ _ Q1 (quiet_then _ _ _ _ Q2 Q3)) as Q. clear Q1 Q2 Q3 s1 s2.
  eapply yields_bind with (R := fun _ s' => s' = set_context (erase_ctx (ex_id e) (st_context s3)) s3).
  { eapply yields_eq; [apply in_context_eq, entity_delete_eq, Q|done]. }
  intros [] ? ->.
  assert (W : context_wf (erase_ctx (ex_id e) (st_context s3))) by apply erase_ctx_wf, Q.
  assert (Hid' : ex_id r' = new_v4 (cc_uuids (st_context s))) by done.
  eapply yields_bind; [apply (update_writes r'); [done|]|intros [] s4 W4].
  { apply (usable_grows (draw_ctx (st_context s))); [simpl; by rewrite (cl_uuids _ _ _ Q)|]. rewrite Hid'. apply draw_usable. }
  assert (T : tokens (st_context s4) = <[ex_id r' := r']> (delete (ex_id e) (tokens (st_context s)))).
  { rewrite (wr_tokens _ _ _ W4). change (tokens (st_context (set_context ?c ?x))) with (tokens c).
    by rewrite tokens_erase, (quiet_tokens _ _ Q). }
  apply (yields_eq _ _ r' s4); [done|]. split; rewrite ?T, ?Hpi; try done; [apply W4| | | | | |].
  + by rewrite lookup_insert_eq.
  + by rewrite Hid'.
  + rewrite lookup_insert_ne by congruence. apply lookup_delete_eq.
  + intros k Hk1 Hk2. rewrite lookup_insert_ne by congruence. by rewrite lookup_delete_ne by congruence.
  + etrans; [exact (wr_agenda _ _ _ W4)|exact (cl_agenda _ _ _ Q)].
  + rewrite (wr_uuids _ _ _ W4). simpl. rewrite (cl_uuids _ _ _ Q). simpl. lia.
Qed.

Lemma materialize_yields e s :
  context_wf (st_context s) -> is_Some (tokens (st_context s) !! ex_id e) -> ex_is_multi_instance_root e = false ->
  yields (materialize_multi_instance_root e) s (fun r s' => materialized e r s s').
Proof.
  intros Hwf Hrow Hr. destruct (is_process_instance_scope_execution e) eqn:Hpi;
    [by apply materialize_scope|by apply materialize_token].
Qed.

Lemma no_condition mi e s :
  mi_completion_condition mi = None ->
  multi_instance_completion_condition_satisfied mi e s = (Ok false, s).
Proof. intros Hc. unfold multi_instance_completion_condition_satisfied. by rewrite Hc. Qed.

(** All instances wait: the root is inactive with its counters, and nothing is
    planned. *)
Lemma execute_parallel_waits mi inner items total e s :
  waiting_behavior inner -> mi_completion_condition mi = None -> (0 < total)%Z ->
  context_wf (st_context s) -> tokens (st_context s) !! ex_id e = Some e ->
  yields (execute_parallel mi inner total items e) s (fun root s' =>
    root = set_is_active false (set_bookkeeping total total 0 e)
    /\ tokens (st_context s') !! ex_id e = Some root
    /\ cc_agenda (st_context s') = cc_agenda (st_context s)
    /\ exists ids, length ids = Z.to_nat total /\ NoDup ids
       /\ (forall j id, ids !! j = Some id -> instance_row mi items e (Z.of_nat j) (tokens (st_context s')) id)
       /\ (forall id, id ∈ ids -> tokens (st_context s) !! id = None)
       /\ (forall id, id ∈ ids -> exists n, cc_uuids (st_context s) <= n /\ id = new_v4 n)
       /\ (forall k, k ∉ ids -> k <> ex_id e -> tokens (st_context s') !! k = tokens (st_context s) !! k)).
Proof.
  intros Hin Hcond Ht Hwf He. unfold execute_parallel. set (e1 := set_bookkeeping total total 0 e). cbv zeta.
  assert (Hu : usable (st_context s) (ex_id e)) by (by eapply token_usable).
  eapply yields_bind; [by apply (update_writes e1)|intros [] s1 W1].
  eapply yields_bind; [apply (parallel_all_wait mi inner items Hin), W1|]. intros r s2 (-> & ids & Hlen & C).
  eapply yields_bind with (R := fun b s' => b = false /\ s' = s2); [eapply yields_eq; [by apply no_condition|done]|].
  intros b ? [-> ->]. rewrite (proj2 (Z.eqb_neq 0 total)) by lia. simpl.
  assert (Hle : cc_uuids (st_context s) <= cc_uuids (st_context s2)).
  { etrans; [|apply C]. by rewrite (wr_uuids _ _ _ W1). }
  eapply yields_bind; [apply (update_writes (set_is_active false e1)); [apply C|by apply (usable_grows (st_context s))]|].
  intros [] s3 W3. pose proof (wr_tokens _ _ _ W3) as T3. pose proof (wr_tokens _ _ _ W1) as T1.
  change (ex_id (set_is_active false e1)) with (ex_id e) in T3. change (ex_id e1) with (ex_id e) in T1.
  assert (Hne : forall id, id ∈ ids -> id <> ex_id e).
  { intros id Hid ->. apply (cr_fresh _ _ _ _ _ _ _ C) in Hid. by rewrite T1, lookup_insert_eq in Hid. }
  eapply yields_eq; [reflexivity|]. split; [done|]. split; [by rewrite T3, lookup_insert_eq|].
  split; [by rewrite (wr_agenda _ _ _ W3), (cr_agenda _ _ _ _ _ _ _ C), (wr_agenda _ _ _ W1)|].
  exists ids. split_and!; [done|apply C| | | |].
  - intros j id Hj. destruct (cr_rows _ _ _ _ _ _ _ C j id Hj) as [(ch & Hch & Hrow)]. split. exists ch.
    rewrite T3, lookup_insert_ne; [done|]. intros E. eapply Hne; [by eapply list_elem_of_lookup_2|done].
  - intros id Hid. pose proof (cr_fresh _ _ _ _ _ _ _ C id Hid) as Hf. rewrite T1, lookup_insert_ne in Hf; [done|].
    intros E. by apply (Hne id).
  - intros id Hid. destruct (cr_drawn _ _ _ _ _ _ _ C id Hid) as (n & Hn & ->). exists n.
    by rewrite (wr_uuids _ _ _ W1) in Hn.
  - intros k Hk1 Hk2. rewrite T3, lookup_insert_ne by done. rewrite (cr_others _ _ _ _ _ _ _ C) by done.
    by rewrite T1, lookup_insert_ne.
Qed.

Lemma collection_resolved mi e cs l vs s :
  mi_input_data_item mi = None -> mi_collection_string mi = Some cs ->
  context_wf (st_context s) -> chain (tokens (st_context s)) (ex_id e) l ->
  find_map (fun x => process_variable x (trim cs)) l = Some (VArray vs) ->
  resolve_collection_items mi e s = (Ok (Some vs), s).
Proof.
  intros H1 H2 Hwf Hc Hv. unfold resolve_collection_items. rewrite H1, H2.
  destruct (find_variable_chain _ _ (trim cs) _ Hwf Hc) as (x & E & Hx). rewrite Hv in Hx.
  destruct x as [[o v]|]; [|done]. injection Hx as ->.
  erewrite bind_ok by (by apply in_context_eq). by destruct s.
Qed.

(** C8: a parallel multi-instance activity over a collection has one instance per
    element.  The activity is parallel, iterates over a collectionString (no
    inputDataItem, no loopCardinality) and has no completionCondition; the name of
    the collection, trimmed, resolves along the finite chain of parents of the token
    to an array of n elements, 0 < n <= 2^31 - 1; the token is stored and is no
    multi-instance root, the context is well formed, generated ids are distinct,
    history calls do not fail, and the wrapped behaviour waits: it leaves a wait
    state, plans nothing, and touches no other execution, nor the parent, the local
    variables and the ended flag of its own.  Then the entry succeeds.  An inactive
    root under a new id takes the token's place, with the local variables
    nrOfInstances = n, nrOfActiveInstances = n and nrOfCompletedInstances = 0 and no
    others, below the token if this is the scope execution of the process instance
    (which stays, inactive and without activity) and else below the token's parent
    (and the token is deleted).  There are exactly n instances under new, distinct
    ids, below the root, not ended; the j-th, from 0, has as local variables exactly
    loopCounter = j, the configured index variable = j and the configured element
    variable = the j-th element.  Nothing is planned, and no other execution is
    touched. *)
Theorem one_instance_per_item mi inner b cs vs e l s :
  let n := Z.of_nat (length vs) in
  waiting_behavior inner -> mi_input_data_item mi = None -> mi_collection_string mi = Some cs ->
  mi_loop_cardinality mi = None -> mi_completion_condition mi = None -> mi_sequential mi = false ->
  context_wf (st_context s) -> is_Some (tokens (st_context s) !! ex_id e) -> ex_is_multi_instance_root e = false ->
  chain (tokens (st_context s)) (ex_id e) l ->
  find_map (fun x => process_variable x (trim cs)) l = Some (VArray vs) ->
  (0 < n <= i32_max)%Z ->
  exists root s' ids, multi_instance_execute inner mi b e s = (Ok root, s')
    /\ cc_agenda (st_context s') = cc_agenda (st_context s)
    /\ tokens (st_context s) !! ex_id root = None /\ tokens (st_context s') !! ex_id root = Some root
    /\ ex_is_multi_instance_root root = true /\ ex_is_active root = false
    /\ ex_parent_id root = (if is_process_instance_scope_execution e then Some (ex_id e) else ex_parent_id e)
    /\ ex_local_variables root = {["nrOfInstances" := value_of_i64 n; "nrOfActiveInstances" := value_of_i64 n;
                                   "nrOfCompletedInstances" := value_of_i64 0]}
    /\ tokens (st_context s') !! ex_id e
       = (if is_process_instance_scope_execution e
          then Some (set_activity_name None (set_activity_id None (set_is_active false e))) else None)
    /\ length ids = length vs /\ NoDup ids /\ (forall id, id ∈ ids -> tokens (st_context s) !! id = None)
    /\ (forall j id v, ids !! j = Some id -> vs !! j = Some v ->
          exists ch, tokens (st_context s') !! id = Some ch /\ ex_parent_id ch = Some (ex_id root)
            /\ ex_is_ended ch = false
            /\ ex_local_variables ch
               = named (mi_element_variable mi) v
                 ∪ (named (mi_element_index_variable mi) (value_of_i64 (Z.of_nat j))
                    ∪ {["loopCounter" := value_of_i64 (Z.of_nat j)]}))
    /\ (forall k, k ∉ ids -> k <> ex_id root -> k <> ex_id e -> tokens (st_context s') !! k = tokens (st_context s) !! k).
Proof.
  intros n Hin M1 M2 M3 M4 M5 Hwf Hrow Hroot Hc Hv [Hn1 Hn2]. unfold multi_instance_execute, uses_collection. rewrite M1, M2, M3.
  assert (Hw : wrap_i32 n = n) by (unfold wrap_i32, i32_max in *; rewrite Z.mod_small; lia).
  erewrite bind_ok by (by eapply collection_resolved).
  erewrite bind_ok by reflexivity. cbv beta iota. fold n. rewrite Hw.
  destruct (yields_run _ _ _ (materialize_yields e s Hwf Hrow Hroot)) as (r & s1 & E1 & Z1). erewrite bind_ok by exact E1.
  destruct (mz_root _ _ _ _ Z1) as (R1 & R2 & R3 & R4 & R5). rewrite R2. erewrite bind_ok by reflexivity.
  rewrite (proj2 (Z.leb_gt n 0)), M5 by lia.
  destruct (yields_run _ _ _ (execute_parallel_waits mi inner (Some vs) n r s1 Hin M4 Hn1 (mz_wf _ _ _ _ Z1) (mz_row _ _ _ _ Z1)))
    as (root & s2 & E2 & -> & T2 & A2 & ids & Hlen & Hnd & Hrows & Hfresh & Hdrawn & Hoth).
  assert (Hnew : forall id, id ∈ ids -> exists m, cc_uuids (st_context s) <= m /\ id = new_v4 m).
  { intros id Hid. destruct (Hdrawn id Hid) as (m & Hm & ->). exists m. split; [|done].
    pose proof (mz_uuids _ _ _ _ Z1). lia. }
  assert (Hne : ex_id e <> ex_id r) by (intros E; destruct Hrow as [y Hy]; rewrite E, (mz_new _ _ _ _ Z1) in Hy; done).
  exists (set_is_active false (set_bookkeeping n n 0 r)), s2, ids. split; [exact E2|]. split_and!; try done.
  - by rewrite A2, (mz_agenda _ _ _ _ Z1).
  - apply (mz_new _ _ _ _ Z1).
  - apply Z1.
  - simpl. rewrite R5. apply map_eq. intros k. rewrite !lookup_insert, !lookup_singleton, !lookup_empty.
    repeat case_decide; congruence.
  - rewrite Hoth; [apply (mz_token _ _ _ _ Z1)| |done]. intros Hi. destruct (Hnew _ Hi) as (m & Hm & Em).
    destruct Hrow as [y Hy]. by destruct (token_usable _ _ _ Hwf Hy) as [_ Hu]; apply (Hu m Hm).
  - rewrite Hlen. unfold n. lia.
  - intros id Hid. destruct (Hnew id Hid) as (m & Hm & ->). by apply (cwf_fresh _ Hwf).
  - intros j id v Hj Hvj. destruct (Hrows j id Hj) as [(ch & Hch & Hp & He & Hloc)].
    exists ch. split_and!; [done|done|by rewrite He|].
    rewrite Hloc. unfold instance_locals, instance_item. simpl. rewrite (proj2 (Z.ltb_ge _ 0)) by lia.
    by rewrite Nat2Z.id, Hvj.
  - intros k Hk1 Hk2 Hk3. rewrite Hoth by done. by apply (mz_others _ _ _ _ Z1).
Qed.
End Parallel.

(** ** The instances of a parallel sub-process leave *)
Section Instances.
Context {env : Env} {uuids : UuidLaws} {acts : Activities} {hist : HistoryRecords}.

(** The counters of a root: [n] instances, [k] of them completed, [a] active. *)
Record counters (n k a : Z) (root : Execution) : Prop := {
  ct_transient : ex_transient_variables root = ∅;
  ct_instances : ex_local_variables root !! "nrOfInstances" = Some (value_of_i64 n);
  ct_completed : ex_local_variables root !! "nrOfCompletedInstances" = Some (value_of_i64 k);
  ct_active : ex_local_variables root !! "nrOfActiveInstances" = Some (value_of_i64 a)
}.

Lemma as_i64_of z : (z <= i64_max)%Z -> as_i64 (value_of_i64 z) = Some z.
Proof.
  intros Hz. unfold value_of_i64. simpl. destruct (z <? 0)%Z; simpl; [done|]. by rewrite (proj2 (Z.leb_le _ _) Hz).
Qed.

Lemma counter_local name d z root :
  ex_transient_variables root = ∅ -> ex_local_variables root !! name = Some (value_of_i64 z) -> (z <= i64_max)%Z ->
  counter name d root = z.
Proof.
  intros Ht Hl Hz. unfold counter, process_variable. rewrite Ht, lookup_empty, Hl. cbn [or_else].
  change (Some (value_of_i64 z) ≫= as_i64) with (as_i64 (value_of_i64 z)). by rewrite as_i64_of.
Qed.

(** One more instance is completed. *)
Definition counted (k a : Z) (root : Execution) : Execution :=
  set_local_variable "nrOfActiveInstances" (value_of_i64 a)
    (set_local_variable "nrOfCompletedInstances" (value_of_i64 k) root).

Lemma counted_counters n k a k' a' root : counters n k a root -> counters n k' a' (counted k' a' root).
Proof.
  intros [H1 H2 H3 H4]. split; [done| | |]; simpl.
  - rewrite !lookup_insert_ne by done. done.
  - rewrite lookup_insert_ne by done. by rewrite lookup_insert_eq.
  - by rewrite lookup_insert_eq.
Qed.

(** An instance is deleted and counted; the activity goes on. *)
Record instance_done (scope root : Execution) (s s' : CommandState) : Prop := {
  id_wf : context_wf (st_context s');
  id_root : tokens (st_context s') !! ex_id root = Some root;
  id_gone k : below (tokens (st_context s)) (ex_id scope) k -> tokens (st_context s') !! k = None /\ unhosted k s';
  id_kept k : k <> ex_id root -> tokens (st_context s') !! k = tokens (st_context s) !! k
                                 \/ tokens (st_context s') !! k = None /\ below (tokens (st_context s)) (ex_id scope) k;
  id_agenda : cc_agenda (st_context s') = cc_agenda (st_context s);
  id_uuids : cc_uuids (st_context s') = cc_uuids (st_context s)
}.

(** The root of a parallel activity with [k] of its [n] instances completed,
    the instances [scopes] still running. *)
Record running (mi : MultiInstanceLoopCharacteristics) (n k : Z) (root parent : Execution) (scopes : list Execution)
    (s : CommandState) : Prop := {
  rn_wf : context_wf (st_context s);
  rn_root : tokens (st_context s) !! ex_id root = Some root;
  rn_flag : ex_is_multi_instance_root root = true;
  rn_parent : ex_parent_id root = Some (ex_id parent) /\ tokens (st_context s) !! ex_id parent = Some parent;
  rn_chain : exists l, chain (tokens (st_context s)) (ex_id root) l;
  rn_counters : counters n k (n - k) root;
  rn_mi : resolve_mi_loop_characteristics root = Some mi;
  rn_scopes : Forall (fun scope => tokens (st_context s) !! ex_id scope = Some scope
                                   /\ ex_parent_id scope = Some (ex_id root)) scopes;
  rn_distinct : NoDup (ex_id <$> scopes)
}.

Lemma delete_instance scope root root' s l :
  context_wf (st_context s) -> tokens (st_context s) !! ex_id root = Some root ->
  tokens (st_context s) !! ex_id scope = Some scope -> ex_parent_id scope = Some (ex_id root) ->
  chain (tokens (st_context s)) (ex_id root) l -> ex_id root' = ex_id root -> ex_parent_id root' = ex_parent_id root ->
  yields (in_context (entity_update root') ;; delete_execution_tree (ex_id scope)) s (fun _ => instance_done scope root' s).
Proof.
  intros Hwf Hroot Hscope Hp Hc Hid Hpar.
  assert (Hcs : chain (tokens (st_context s)) (ex_id scope) (scope :: l)) by (by eapply chain_up).
  pose proof (parent_not_below _ _ _ _ _ Hscope Hp Hcs) as Hnb.
  eapply yields_bind; [apply (update_writes root'); [done|rewrite Hid; by eapply token_usable]|intros [] s1 W1].
  pose proof (wr_tokens _ _ _ W1) as T1. rewrite Hid in T1.
  assert (Hl : same_links (tokens (st_context s)) (tokens (st_context s1))) by (rewrite T1; by eapply same_links_insert).
  destruct (chain_links _ _ _ _ Hl Hcs) as (l1 & Hc1).
  eapply yields_weaken; [apply (delete_all_cleans _ None _ l1); [apply W1|done]|]. intros [] s2 C2.
  assert (Hb : forall k, below (tokens (st_context s1)) (ex_id scope) k <-> below (tokens (st_context s)) (ex_id scope) k).
  { intros k. split; apply below_links; [by apply same_links_sym|done]. }
  split; [apply C2| | | | |].
  - destruct (cl_kept _ _ _ C2 (ex_id root')) as [->|[_ Hg%Hb]]; [by rewrite T1, Hid, lookup_insert_eq|].
    by rewrite Hid in Hg.
  - intros k Hk%Hb. split; by apply C2.
  - intros k Hk. destruct (cl_kept _ _ _ C2 k) as [->|[-> Hg%Hb]]; [|by right]. left.
    by rewrite T1, lookup_insert_ne by congruence.
  - by rewrite (cl_agenda _ _ _ C2), (wr_agenda _ _ _ W1).
  - by rewrite (cl_uuids _ _ _ C2), (wr_uuids _ _ _ W1).
Qed.

(** What is running goes on after an instance is done. *)
Lemma running_step mi n k root parent scope scopes s s' :
  running mi n k root parent (scope :: scopes) s ->
  instance_done scope (counted (k + 1) (n - (k + 1)) root) s s' ->
  running mi n (k + 1) (counted (k + 1) (n - (k + 1)) root) parent scopes s'.
Proof.
  intros R D. destruct (rn_chain _ _ _ _ _ _ _ R) as (l & Hc). destruct (rn_parent _ _ _ _ _ _ _ R) as [Hp Hpar].
  pose proof (rn_scopes _ _ _ _ _ _ _ R) as [[Hs Hsp] Hss]%Forall_cons.
  pose proof (rn_distinct _ _ _ _ _ _ _ R) as [Hni Hnd]%NoDup_cons.
  pose proof (rn_root _ _ _ _ _ _ _ R) as Hroot. pose proof (rn_wf _ _ _ _ _ _ _ R) as Hwf.
  set (m := tokens (st_context s)) in *. set (root' := counted _ _ root) in *.
  assert (Hcs : chain m (ex_id scope) (scope :: l)) by (by eapply chain_up).
  pose proof (parent_not_below _ _ _ _ _ Hs Hsp Hcs) as Hnb.
  assert (Hkeep : forall x y, m !! x = Some y -> x <> ex_id root -> ~ below m (ex_id scope) x ->
                    tokens (st_context s') !! x = Some y).
  { intros x y Hx Hne Hb. destruct (id_kept _ _ _ _ D x Hne) as [->|[_ ?]]; done. }
  assert (Habove : forall x y, m !! x = Some y -> y ∈ l -> ~ below m (ex_id scope) x).
  { intros x y Hx Hy. eapply chain_not_below; [by apply context_keys|exact Hc|exact Hs|exact Hsp|exact Hy|done]. }
  assert (Hself : forall x e, m !! x = Some e -> ex_parent_id e = Some (ex_id root) -> x <> ex_id root).
  { intros x e Hx He ->. eapply parent_not_below; [exact Hx|exact He|exact Hc|apply below_self]. }
  split; try done.
  - apply D.
  - apply (id_root _ _ _ _ D).
  - apply (rn_flag _ _ _ _ _ _ _ R).
  - split; [done|]. apply Hkeep; [done| |].
    + intros E. eapply (parent_not_below m); [exact Hroot|exact Hp|exact Hc|]. rewrite E. apply below_self.
    + eapply Habove; [done|]. by eapply chain_parent.
  - apply (chain_survives m _ _ l Hc).
    + intros x y Hx Hy. destruct (decide (x = ex_id root)) as [->|Hne].
      * exists root'. split; [apply (id_root _ _ _ _ D)|]. by rewrite Hroot in Hx; injection Hx as <-.
      * exists y. split; [|done]. eapply Hkeep; [done|done|by eapply Habove].
    + intros x Hx. destruct (id_kept _ _ _ _ D x) as [->|[-> _]]; [|done|done].
      change (ex_id root') with (ex_id root). congruence.
  - eapply counted_counters, R.
  - apply (rn_mi _ _ _ _ _ _ _ R).
  - apply Forall_forall. intros sc Hsc. destruct (proj1 (Forall_forall _ _) Hss sc Hsc) as [Hm Hpr]. split; [|done].
    apply Hkeep; [done|by eapply Hself|]. intros Hb. inversion Hb as [E|? x q Hx Hq Hb']; subst.
    + apply Hni. rewrite E. by apply list_elem_of_fmap_2.
    + rewrite Hm in Hx. injection Hx as <-. rewrite Hpr in Hq. by injection Hq as <-.
Qed.

(** The last instance, and the ones before it. *)
Lemma instance_leaves mi n k root parent scope scopes s :
  mi_sequential mi = false -> mi_completion_condition mi = None -> (0 <= k < n)%Z -> (n <= i64_max)%Z ->
  running mi n k root parent (scope :: scopes) s ->
  yields (leave_sequential_subprocess_mi_instance scope) s (fun b s' =>
    let root' := counted (k + 1) (n - (k + 1)) root in
    b = true /\ exists s1, instance_done scope root' s s1
      /\ if (k + 1 <? n)%Z then s' = s1 else left_once root' parent s1 s').
Proof.
  intros M1 M2 Hk Hn R. destruct (rn_chain _ _ _ _ _ _ _ R) as (l & Hc). destruct (rn_parent _ _ _ _ _ _ _ R) as [Hp Hpar].
  pose proof (rn_scopes _ _ _ _ _ _ _ R) as [[Hs Hsp] _]%Forall_cons. pose proof (rn_wf _ _ _ _ _ _ _ R) as Hwf.
  pose proof (rn_root _ _ _ _ _ _ _ R) as Hroot. destruct (rn_counters _ _ _ _ _ _ _ R) as [C1 C2 C3 C4].
  unfold leave_sequential_subprocess_mi_instance. rewrite Hsp.
  eapply yields_bind; [by apply find_quiet|intros o ? [-> ->]]. rewrite Hroot, (rn_flag _ _ _ _ _ _ _ R). simpl negb. cbv iota.
  rewrite (rn_mi _ _ _ _ _ _ _ R).
  rewrite (counter_local "nrOfInstances" 0 n), (counter_local "nrOfCompletedInstances" 0 k) by (done || lia).
  unfold checked_succ. rewrite (proj2 (Z.eqb_neq k i64_max)) by lia.
  eapply yields_bind with (R := fun x s' => x = (k + 1)%Z /\ s' = s); [by apply (yields_eq _ _ (k + 1)%Z s)|].
  intros x ? [-> ->]. rewrite M1. cbv zeta.
  rewrite (counter_local "nrOfActiveInstances" 1 (n - k)); [|done| |lia].
  2:{ simpl. by rewrite lookup_insert_ne. }
  replace (saturating_pred (n - k)) with (n - (k + 1))%Z by (unfold saturating_pred, i64_min; lia).
  fold (counted (k + 1) (n - (k + 1)) root). set (root' := counted _ _ root).
  apply yields_assoc. eapply yields_bind; [apply (delete_instance scope root root' s l); done|]. intros [] s1 D.
  pose proof (running_step _ _ _ _ _ _ _ _ _ R D) as R1. fold root' in R1.
  eapply yields_bind with (R := fun b s' => b = false /\ s' = s1); [eapply yields_eq; [by apply no_condition|done]|].
  intros b ? [-> ->]. eapply yields_bind with (R := fun _ s' => if (k + 1 <? n)%Z then s' = s1 else left_once root' parent s1 s').
  - destruct (Z.ltb_spec (k + 1) n) as [Hlt|Hge].
    + rewrite (proj2 (Z.leb_gt n (k + 1))), (proj2 (Z.leb_gt (n - (k + 1)) 0)) by lia. by eapply yields_eq.
    + rewrite (proj2 (Z.leb_le n (k + 1))) by lia. simpl orb. cbv iota.
      destruct (rn_chain _ _ _ _ _ _ _ R1) as (l1 & Hc1). destruct (rn_parent _ _ _ _ _ _ _ R1) as [Hp1 Hpar1].
      apply (cleanup_leaves root' root' (ex_id parent) parent false s1 l1); try done; apply R1.
  - intros [] s2 H2. apply (yields_eq _ _ true s2); [done|]. split; [done|]. by exists s1.
Qed.

(** The instances leave one after the other, in any order. *)
Definition leave_all (scopes : list Execution) : CommandM unit :=
  for_each scopes (fun scope => leave_sequential_subprocess_mi_instance scope ;; mret tt).

(** The activity is finished: what was below its root is gone, and the token
    [u] leaves. *)
Record finished (u : string) (root root' parent : Execution) (s s' : CommandState) : Prop := {
  fi_agenda : cc_agenda (st_context s') = cc_agenda (st_context s) ++ [TakeOutgoingSequenceFlows (leave_token u root')];
  fi_new : exists n, cc_uuids (st_context s) <= n /\ u = new_v4 n;
  fi_leave : tokens (st_context s') !! u = Some (leave_token u root');
  fi_parent : tokens (st_context s') !! ex_id parent = Some (promoted root' parent);
  fi_gone k : below (tokens (st_context s)) (ex_id root) k -> tokens (st_context s') !! k = None;
  fi_kept k : k <> u -> k <> ex_id parent ->
    tokens (st_context s') !! k = tokens (st_context s) !! k
    \/ tokens (st_context s') !! k = None /\ below (tokens (st_context s)) (ex_id root) k
}.

Lemma left_once_finished root parent s s' :
  left_once root parent s s' -> finished (new_v4 (cc_uuids (st_context s))) root root parent s s'.
Proof.
  intros L. split; try apply L. by exists (cc_uuids (st_context s)).
Qed.

Section Done.
Context (scope root root1 : Execution) (s s1 : CommandState).
Context (Hwf : context_wf (st_context s)) (Hroot : tokens (st_context s) !! ex_id root = Some root).
Context (Hscope : tokens (st_context s) !! ex_id scope = Some scope) (Hsp : ex_parent_id scope = Some (ex_id root)).
Context (Hid : ex_id root1 = ex_id root) (Hpar : ex_parent_id root1 = ex_parent_id root).
Context (D : instance_done scope root1 s s1).

Lemma done_below_root k : below (tokens (st_context s)) (ex_id scope) k -> below (tokens (st_context s)) (ex_id root) k.
Proof. apply below_trans. eapply below_child; [exact Hscope|exact Hsp|apply below_self]. Qed.

Lemma done_links x y :
  tokens (st_context s1) !! x = Some y ->
  exists y', tokens (st_context s) !! x = Some y' /\ ex_parent_id y' = ex_parent_id y.
Proof.
  intros Hx. destruct (decide (x = ex_id root)) as [->|Hne].
  - exists root. split; [done|]. rewrite <- Hid, (id_root _ _ _ _ D) in Hx. by injection Hx as <-.
  - exists y. split; [|done]. rewrite <- Hx. destruct (id_kept _ _ _ _ D x) as [->|[E _]]; [by rewrite Hid|done|congruence].
Qed.

Lemma done_below k :
  below (tokens (st_context s)) (ex_id root) k ->
  below (tokens (st_context s1)) (ex_id root) k \/ below (tokens (st_context s)) (ex_id scope) k.
Proof.
  induction 1 as [|k e p Hk Hp _ [IH|IH]]; [left; apply below_self| |right; by eapply below_child].
  destruct (decide (k = ex_id root)) as [->|Hne]; [left; apply below_self|].
  destruct (id_kept _ _ _ _ D k) as [E|[_ ?]]; [by rewrite Hid| |by right].
  left. eapply below_child; [by rewrite E|done|done].
Qed.

Lemma done_finished u root' parent s' :
  tokens (st_context s1) !! ex_id parent = Some parent ->
  finished u root1 root' parent s1 s' -> finished u root root' parent s s'.
Proof.
  intros Hp F. destruct (fi_new _ _ _ _ _ _ F) as (n & Hn & Hu). rewrite (id_uuids _ _ _ _ D) in Hn.
  assert (Hfresh : tokens (st_context s) !! u = None) by (rewrite Hu; by apply (cwf_fresh _ Hwf)).
  assert (Hgone : forall k, below (tokens (st_context s1)) (ex_id root) k -> tokens (st_context s') !! k = None).
  { intros k Hk. apply (fi_gone _ _ _ _ _ _ F). by rewrite Hid. }
  assert (Hnone : forall k, below (tokens (st_context s)) (ex_id scope) k -> tokens (st_context s') !! k = None).
  { intros k Hk. pose proof (proj1 (id_gone _ _ _ _ D k Hk)) as E.
    destruct (fi_kept _ _ _ _ _ _ F k) as [->|[-> _]]; [| |done|done]; intros ->; [|congruence].
    inversion Hk as [E'|? x ? Hx]; congruence. }
  split.
  - by rewrite (fi_agenda _ _ _ _ _ _ F), (id_agenda _ _ _ _ D).
  - by exists n.
  - apply F.
  - apply F.
  - intros k [Hk|Hk]%done_below; auto.
  - intros k Hk1 Hk2. destruct (decide (k = ex_id root)) as [->|Hne]; [right; split; [apply Hgone|]; apply below_self|].
    destruct (fi_kept _ _ _ _ _ _ F k Hk1 Hk2) as [->|[-> Hb]].
    + destruct (id_kept _ _ _ _ D k) as [->|[-> Hb]]; [by rewrite Hid|by left|right; split; [done|by apply done_below_root]].
    + right. split; [done|]. rewrite Hid in Hb. eapply below_fewer_links; [apply done_links|done].
Qed.
End Done.

(** Counting changes neither the token that leaves nor what the parent gets. *)
Lemma counted_again k a k' a' root : counted k' a' (counted k a root) = counted k' a' root.
Proof.
  assert (H : ex_local_variables (counted k' a' (counted k a root)) = ex_local_variables (counted k' a' root)).
  { simpl. apply map_eq. intros i. rewrite !lookup_insert. by repeat case_decide. }
  transitivity (set_local_variables (ex_local_variables (counted k' a' (counted k a root))) root); [done|by rewrite H].
Qed.

Lemma counted_leave u k a root : leave_token u (counted k a root) = leave_token u root.
Proof. done. Qed.

(** What the parent gets under a name: the value of the root, its local variables
    first, and otherwise what it had; the counters of the root are not handed over. *)
Definition handed_over (root parent : Execution) (name : string) : option Value :=
  if decide (name = "nrOfInstances" \/ name = "nrOfCompletedInstances" \/ name = "nrOfActiveInstances")
  then ex_variables parent !! name
  else match ex_local_variables root !! name, ex_variables root !! name with
       | Some v, _ => Some v
       | None, Some v => Some v
       | None, None => ex_variables parent !! name
       end.

Lemma lookup_not_bookkeeping m name :
  not_bookkeeping m !! name
  = if decide (name = "nrOfInstances" \/ name = "nrOfCompletedInstances" \/ name = "nrOfActiveInstances")
    then None else m !! name.
Proof.
  unfold not_bookkeeping, MI_ROOT_BOOKKEEPING. destruct (m !! name) as [v|] eqn:E; case_decide as Hd.
  - apply map_lookup_filter_None. right. intros x _ Hn. apply Hn. set_solver.
  - apply map_lookup_filter_Some. split; [done|]. simpl. set_solver.
  - apply map_lookup_filter_None. by left.
  - apply map_lookup_filter_None. by left.
Qed.

Lemma promoted_lookup root parent name : ex_variables (promoted root parent) !! name = handed_over root parent name.
Proof.
  unfold promoted, handed_over. simpl. rewrite !lookup_union, !lookup_not_bookkeeping. case_decide.
  - by destruct (ex_variables parent !! name).
  - by destruct (ex_local_variables root !! name), (ex_variables root !! name), (ex_variables parent !! name).
Qed.

Lemma counted_handed k a root parent name : handed_over (counted k a root) parent name = handed_over root parent name.
Proof.
  unfold handed_over. case_decide as Hd; [done|]. simpl. rewrite !lookup_insert_ne by (intros <-; apply Hd; auto). done.
Qed.

Lemma leave_all_finished mi n scopes :
  mi_sequential mi = false -> mi_completion_condition mi = None -> (n <= i64_max)%Z -> scopes <> [] ->
  forall k root parent s, (0 <= k)%Z -> n = (k + Z.of_nat (length scopes))%Z -> running mi n k root parent scopes s ->
  yields (leave_all scopes) s (fun _ s' => exists u root',
    finished u root root' parent s s' /\ exists k' a', root' = counted k' a' root).
Proof.
  intros M1 M2 Hn. induction scopes as [|scope scopes IH]; [done|]. intros _ k root parent s Hk En R. simpl in En.
  pose proof (rn_wf _ _ _ _ _ _ _ R) as Hwf. pose proof (rn_root _ _ _ _ _ _ _ R) as Hroot.
  pose proof (rn_scopes _ _ _ _ _ _ _ R) as [[Hs Hsp] _]%Forall_cons. set (root1 := counted (k + 1) (n - (k + 1)) root).
  unfold leave_all. simpl. eapply yields_bind with (R := fun _ s1 => exists s0, instance_done scope root1 s s0
    /\ if (k + 1 <? n)%Z then s1 = s0 else left_once root1 parent s0 s1).
  { eapply yields_bind; [apply (instance_leaves mi n k root parent scope scopes s); [done|done|lia|done|done]|].
    intros b s1 [_ H]. by eapply yields_eq. }
  intros [] s1 (s0 & D & H).
  pose proof (running_step _ _ _ _ _ _ _ _ _ R D) as R1. fold root1 in R1, H, D.
  destruct (rn_parent _ _ _ _ _ _ _ R1) as [_ Hpar].
  destruct (decide (scopes = [])) as [->|Hne].
  - rewrite (proj2 (Z.ltb_ge (k + 1) n)) in H by (simpl in En; lia).
    eapply yields_eq; [reflexivity|]. exists (new_v4 (cc_uuids (st_context s0))), root1. split; [|by eexists _, _].
    by eapply (done_finished scope root root1 s s0), left_once_finished.
  - rewrite (proj2 (Z.ltb_lt (k + 1) n)) in H by (destruct scopes; [done|simpl in En; lia]). subst s1.
    eapply yields_weaken; [apply (IH Hne (k + 1)%Z root1 parent s0); [lia|lia|done]|].
    intros [] s' (u & root' & F & k' & a' & ->). exists u, (counted k' a' root1).
    split; [|exists k', a'; apply counted_again]. by eapply (done_finished scope root root1 s s0).
Qed.

(** C9: a parallel multi-instance sub-process is left exactly once, after its last
    instance.  The activity is parallel, has no completionCondition, and [scopes] are
    the scopes of all its n instances, 0 < n <= 2^63 - 1, none completed yet: the root
    is stored below a stored parent, with the counters n, 0 completed and n active and
    a finite chain of parents, the scopes are distinct rows below it, and its element
    is found in its process; the context is well formed, generated ids are distinct
    and history calls do not fail.  When the instances leave one after the other, in
    any order, every call succeeds; everything below the root is deleted, the root
    included; one token is created, under an id no row had: below the parent, on the
    activity of the root, in its instance and definition, active and not ended; it is
    planned to leave, once, and nothing else is planned.  The parent row is as before
    except for its variables: under each name other than the three counters it has
    the value of the root, the local variables first, and otherwise the value it had.
    No other execution is touched. *)
Theorem left_after_last_instance mi scopes root parent s :
  mi_sequential mi = false -> mi_completion_condition mi = None -> (Z.of_nat (length scopes) <= i64_max)%Z ->
  scopes <> [] -> running mi (Z.of_nat (length scopes)) 0 root parent scopes s ->
  exists s' t vars, leave_all scopes s = (Ok tt, s')
    /\ cc_agenda (st_context s') = cc_agenda (st_context s) ++ [TakeOutgoingSequenceFlows t]
    /\ tokens (st_context s) !! ex_id t = None /\ tokens (st_context s') !! ex_id t = Some t
    /\ ex_parent_id t = Some (ex_id parent) /\ ex_activity_id t = ex_activity_id root
    /\ ex_process_instance_id t = ex_process_instance_id root
    /\ ex_process_definition_id t = ex_process_definition_id root
    /\ ex_is_active t = true /\ ex_is_ended t = false /\ ex_is_multi_instance_root t = false
    /\ tokens (st_context s') !! ex_id parent = Some (set_variables vars parent)
    /\ (forall name, vars !! name = handed_over root parent name)
    /\ (forall k, below (tokens (st_context s)) (ex_id root) k -> tokens (st_context s') !! k = None)
    /\ (forall k, k <> ex_id t -> k <> ex_id parent -> tokens (st_context s') !! k <> tokens (st_context s) !! k ->
          below (tokens (st_context s)) (ex_id root) k).
Proof.
  intros M1 M2 Hn Hne R.
  destruct (yields_run _ _ _ (leave_all_finished mi _ scopes M1 M2 Hn Hne 0 root parent s (Z.le_refl 0) eq_refl R))
    as ([] & s' & E & u & root' & F & k' & a' & ->). destruct (rn_parent _ _ _ _ _ _ _ R) as [Hp _].
  exists s', (leave_token u root), (ex_variables (promoted (counted k' a' root) parent)).
  split_and!; try apply F; try done.
  - destruct (fi_new _ _ _ _ _ _ F) as (n & Hle & ->). apply (cwf_fresh _ (rn_wf _ _ _ _ _ _ _ R) n Hle).
  - intros name. by rewrite promoted_lookup, counted_handed.
  - intros k H1 H2 H3. destruct (fi_kept _ _ _ _ _ _ F k H1 H2) as [?|[_ ?]]; done.
Qed.
End Instances.
