(* ===== verification/MultiInstanceTasks.v ===== *)
(** * Multi-instance user tasks

    Models the end of [complete_task_internal] of
    [flowable-engine/src/engine/task_service.rs]: a completed task's execution
    leaves its activity, as one instance of a multi-instance activity when its
    parent is the root of one; the aggregation of the instances' variables; the
    cancellation of the other instances; and [insert_task] of
    [runtime_store.rs].

    What a stored task inherits from the deployed model, and the history of
    tasks, are the class [TaskServices]. *)
From Stdlib Require Import Ascii.
From stdpp Require Import pretty.
From S2P Require Import Prelude Chars Float64 Numerals Json Errors ElValues BpmnModel FlowElements Execution Store JobTypes JobLocks JobLocksProof JobStore EventDispatcher Context Variables EngineSafety WaitStates ContinueProcess MultiInstance ExecutionTrees MultiInstanceProof.

(** ** Storing tasks *)
Record UserTaskProperties := mkUserTaskProperties {
  up_assignee : option string;
  up_owner : option string;
  up_priority : option Z;
  up_due_date : option Z;
  up_category : option string;
  up_form_key : option string
}.

Class TaskServices `{Env} := {
  resolve_user_task_properties : string -> string -> string -> DbSession -> result StorageError UserTaskProperties;
  record_task_end : string -> option string -> HistoryState -> result FlowableError unit * HistoryState
}.

Definition is_expression_text (value : string) : bool :=
  let trimmed := trim value in
  (starts_with "${" trimmed && ends_with_char trimmed "}"%char)
  || (starts_with "#{" trimmed && ends_with_char trimmed "}"%char).

Definition literal_only (o : option string) : option string :=
  v ← o; if is_expression_text v then None else Some v.

Definition with_properties (props : UserTaskProperties) (t : Task) : Task :=
  mkTask (tk_id t) (tk_process_instance_id t) (tk_execution_id t) (tk_task_definition_key t) (tk_name t)
    (tk_description t) (or_else (tk_assignee t) (up_assignee props)) (or_else (tk_owner t) (up_owner props))
    (tk_delegation_state t) (tk_parent_task_id t) (or_else (tk_priority t) (up_priority props))
    (or_else (tk_due_date t) (up_due_date props)) (or_else (tk_category t) (literal_only (up_category props)))
    (or_else (tk_form_key t) (literal_only (up_form_key props))) (tk_tenant_id t) (tk_is_completed t)
    (tk_created_time t) (tk_completed_time t) (tk_claim_time t) (tk_state t) (tk_suspension_state t)
    (tk_local_variables t).

Definition mark_completed (now : Z) (t : Task) : Task :=
  mkTask (tk_id t) (tk_process_instance_id t) (tk_execution_id t) (tk_task_definition_key t) (tk_name t)
    (tk_description t) (tk_assignee t) (tk_owner t) (tk_delegation_state t) (tk_parent_task_id t) (tk_priority t)
    (tk_due_date t) (tk_category t) (tk_form_key t) (tk_tenant_id t) true (tk_created_time t) (Some now)
    (tk_claim_time t) "completed" (tk_suspension_state t) (tk_local_variables t).

Section Store.
Context `{Env} `{!TaskServices}.

Definition needs_resolve (t : Task) : bool :=
  match tk_assignee t, tk_owner t, tk_priority t, tk_due_date t, tk_category t, tk_form_key t with
  | Some _, Some _, Some _, Some _, Some _, Some _ => false
  | _, _, _, _, _, _ => true
  end.

Definition task_columns (t : Task) : list (string * option string) :=
  [("process_instance_id", Some (tk_process_instance_id t)); ("execution_id", Some (tk_execution_id t));
   ("task_definition_key", Some (tk_task_definition_key t)); ("name", Some (tk_name t));
   ("assignee", tk_assignee t); ("owner", tk_owner t); ("parent_task_id", tk_parent_task_id t);
   ("priority", (pretty : Z -> string) <$> tk_priority t); ("due_date", (pretty : Z -> string) <$> tk_due_date t)].

Definition insert_task (t : Task) : stM DbSession StorageError unit :=
  fun s =>
    let resolved := if needs_resolve t
                    then props ← resolve_user_task_properties (tk_process_instance_id t) (tk_execution_id t)
                                   (tk_task_definition_key t) s;
                         Ok (with_properties props t)
                    else Ok t in
    match resolved with
    | Err e => (Err e, s)
    | Ok t => insert_with_extra tasks (tk_id t) t (task_columns t) s
    end.

Definition task_update (t : Task) : CommandM unit :=
  in_context (fun c => let '(r, d) := insert_task t (rt_session (cc_runtime c)) in
    (map_err (fun e => Raised (storage_to_flowable e)) r, set_runtime (with_session d (cc_runtime c)) c)).
End Store.

(** ** Aggregating the variables of the instances *)
Section Aggregation.
Context `{Env} `{!Activities}.

Definition expression_string_value (expression : option string) (execution : Execution)
  : result FlowableError (option string) :=
  match trimmed expression with
  | None => Ok None
  | Some expression =>
      value ← map_err (fun error => ExecutionError ([Lit "Multi-instance variable aggregation targetExpression '";
                                                     Lit expression; Lit "' failed: "] ++ error))
                (get_value_strict expression execution);
      Ok (match value with
          | Some (VString value) => Some value
          | Some VNull | None => None
          | Some value => Some (value_to_string value)
          end)
  end.

Definition resolve_aggregation_target (aggregation : VariableAggregationDefinition) (execution : Execution)
  : result FlowableError (option string) :=
  match trimmed (ad_target aggregation) with
  | Some target => Ok (Some target)
  | None => expression_string_value (ad_target_expression aggregation) execution
  end.

Definition resolve_aggregation_variable_target (variable : VariableAggregationDefinitionVariable)
    (execution : Execution) : result FlowableError (option string) :=
  match trimmed (av_target variable) with
  | Some target => Ok (Some target)
  | None =>
      from_expression ← expression_string_value (av_target_expression variable) execution;
      Ok (or_else from_expression (trimmed (av_source variable)))
  end.

Definition resolve_aggregation_variable_value (variable : VariableAggregationDefinitionVariable)
    (execution : Execution) (task : Task) : result FlowableError Value :=
  let by_source := match trimmed (av_source variable) with
                   | None => VNull
                   | Some source => unwrap_or VNull (or_else (tk_local_variables task !! source)
                                                       (process_variable execution source))
                   end in
  match av_source_expression variable with
  | Some source_expression =>
      value ← map_err (fun error => ExecutionError ([Lit "Multi-instance variable aggregation sourceExpression '";
                                                     Lit source_expression; Lit "' failed: "] ++ error))
                (get_value_strict source_expression execution);
      Ok (unwrap_or by_source value)
  | None => Ok by_source
  end.

(** The [for] loop over the variables of a definition. *)
Fixpoint aggregated_item (definitions : list VariableAggregationDefinitionVariable) (execution : Execution) (task : Task)
    (item : list (string * Value)) : result FlowableError (list (string * Value)) :=
  match definitions with
  | [] => Ok item
  | variable :: definitions =>
      target ← resolve_aggregation_variable_target variable execution;
      match target with
      | Some target =>
          value ← resolve_aggregation_variable_value variable execution task;
          aggregated_item definitions execution task (map_insert target value item)
      | None => aggregated_item definitions execution task item
      end
  end.

Definition apply_multi_instance_variable_aggregation (child : Execution) (task : Task) (parent : Execution)
    (aggregation : VariableAggregationDefinition) : result FlowableError Execution :=
  match ad_implementation_type aggregation with
  | Some _ => Ok parent
  | None =>
      target ← resolve_aggregation_target aggregation child;
      match target with
      | None => Ok parent
      | Some target_variable =>
          item ← aggregated_item (ad_definitions aggregation) child task [];
          aggregate ← match process_variable parent target_variable with
                      | Some (VArray values) => Ok values
                      | Some value =>
                          Err (Generic [Lit "Multi-instance variable aggregation target '"; Lit target_variable;
                                        Lit "' must be an array, got "; Lit (variable_type_name value)])
                      | None => Ok []
                      end;
          let aggregate := VArray (aggregate ++ [VObject item]) in
          Ok (if ad_store_as_transient_variable aggregation
              then set_transient_variable target_variable aggregate parent
              else set_process_variable target_variable aggregate parent)
      end
  end.

Fixpoint aggregate_all (child : Execution) (task : Task) (l : list VariableAggregationDefinition) (parent : Execution)
  : result FlowableError Execution :=
  match l with
  | [] => Ok parent
  | aggregation :: l =>
      parent ← apply_multi_instance_variable_aggregation child task parent aggregation;
      aggregate_all child task l parent
  end.

Definition apply_multi_instance_variable_aggregations (mi : MultiInstanceLoopCharacteristics) (parent child : Execution)
    (task : Task) : result FlowableError Execution :=
  match mi_aggregations mi with
  | None => Ok parent
  | Some definitions =>
      parent ← aggregate_all child task (ad_aggregations definitions) parent;
      aggregate_all child task (ad_overview_aggregations definitions) parent
  end.
End Aggregation.

(** ** Leaving the activity of a completed task *)
Section Leave.
Context `{Env} `{!Activities} `{!TaskServices}.

(** The other executions of the instance with the same parent that have not ended. *)
Definition open_siblings (pi_id : string) (current : Execution) (all : gmap string Execution) : list Execution :=
  List.filter (fun e => is_some_eq (ex_process_instance_id e) pi_id && negb (String.eqb (ex_id e) (ex_id current))
                        && bool_decide (ex_parent_id e = ex_parent_id current) && negb (ex_is_ended e))
    (map_to_list all).*2.

Definition cancel_instance (execution_id : string) : CommandM unit :=
  task ← ask (find_task_by_execution_id execution_id);
  match task with
  | Some task =>
      now ← time_now;
      task_update (mark_completed now task) ;;
      host (delete_task (tk_id task)) ;;
      on_history (record_task_end (tk_id task) (Some "multi-instance completion condition"))
  | None => mret tt
  end ;;
  host (delete_event_wait_state_by_execution_id execution_id) ;;
  host (delete_boundary_event_states_by_host_execution_id execution_id) ;;
  in_jobs (delete_timer_job_states_by_execution_id execution_id) ;;
  found ← find_by_id execution_id;
  let_some execution := found in
  in_context (entity_update (set_is_ended true (set_is_active false execution))).

Definition cancel_remaining_multi_instance_children (process_instance_id : string) (completed : Execution) : CommandM unit :=
  all ← in_context snapshot;
  for_each (ex_id <$> open_siblings process_instance_id completed all) cancel_instance.

(** The lookup looks at the elements of the process, not at those of its
    sub-processes. *)
Definition task_loop_characteristics (p : Execution) : option MultiInstanceLoopCharacteristics :=
  if ex_is_multi_instance_root p then
    act_id ← ex_activity_id p;
    pd_id ← ex_process_definition_id p;
    model ← get_bpmn_model pd_id;
    process ← bm_main_process model;
    found ← find_map (fun el => match el with
                                | FEUserTask a | FEServiceTask a =>
                                    if is_some_eq (flow_element_id el) act_id then Some (ac_loop_characteristics a) else None
                                | _ => None
                                end) (pr_flow_elements process);
    found
  else None.

Definition leave_sequential_task (mi : MultiInstanceLoopCharacteristics) (p current : Execution)
    (nr_of_instances nr_of_completed : Z) : CommandM unit :=
  complete_condition ← multi_instance_completion_condition_satisfied mi p;
  if complete_condition || negb (nr_of_completed <? nr_of_instances)%Z then
    record_mi_child_activity_end current ;;
    in_context (entity_update (set_is_active false (set_is_ended true current))) ;;
    in_context (entity_update p) ;;
    cleanup_mi_root_and_leave p complete_condition
  else
    record_mi_child_activity_end current ;;
    in_context (entity_update (set_is_active true (set_is_ended false current))) ;;
    in_context (entity_update p) ;;
    in_context (plan_continue_process_operation p).

(** [- 1] on [i64] panics on overflow. *)
Definition checked_pred (n : Z) : CommandM Z := if (n =? i64_min)%Z then throw Overflow else mret (n - 1)%Z.

Definition leave_parallel_task (mi : MultiInstanceLoopCharacteristics) (p current : Execution) (pi_id : string)
    (active_siblings : nat) : CommandM unit :=
  let finish p :=
    with_condition ← multi_instance_completion_condition_satisfied mi p;
    in_context (entity_update p) ;;
    cleanup_mi_root_and_leave p with_condition in
  record_mi_child_activity_end current ;;
  let current := set_is_active false (set_is_ended true current) in
  in_context (entity_update current) ;;
  nr_of_active ← checked_pred (counter "nrOfActiveInstances" 0 p);
  let p := set_local_variable "nrOfActiveInstances" (value_of_i64 nr_of_active) p in
  satisfied ← multi_instance_completion_condition_satisfied mi p;
  if satisfied : bool then cancel_remaining_multi_instance_children pi_id current ;; finish p
  else if (0 <? active_siblings)%nat then in_context (entity_update p)
  else finish p.

(** An execution that is no instance takes the outgoing flows. *)
Definition leave_plain_task (task : Task) (current : Execution) : CommandM unit :=
  in_context (entity_update current) ;;
  latest ← find_by_id (tk_execution_id task);
  in_context (plan_take_outgoing_sequence_flows_operation (unwrap_or current latest)).

Definition leave_completed_task (task : Task) (execution : Execution) : CommandM unit :=
  found ← find_by_id (tk_execution_id task);
  let current := set_is_ended true (set_is_active true (unwrap_or execution found)) in
  match ex_process_instance_id current with
  | None => leave_plain_task task current
  | Some pi_id =>
      all ← in_context snapshot;
      let active_siblings := length (open_siblings pi_id current all) in
      match ex_parent_id current with
      | None => leave_plain_task task current
      | Some parent_id =>
          parent ← find_by_id parent_id;
          match parent with
          | None => leave_plain_task task current
          | Some p =>
              match task_loop_characteristics p with
              | None => leave_plain_task task current
              | Some mi =>
                  p ← in_context (attempt (apply_multi_instance_variable_aggregations mi p current task));
                  let nr_of_instances := counter "nrOfInstances" 0 p in
                  nr_of_completed ← checked_succ (counter "nrOfCompletedInstances" 0 p);
                  let p := set_local_variable "nrOfCompletedInstances" (value_of_i64 nr_of_completed) p in
                  if mi_sequential mi then leave_sequential_task mi p current nr_of_instances nr_of_completed
                  else leave_parallel_task mi p current pi_id active_siblings
              end
          end
      end
  end.
End Leave.

(** ** Soundness *)
Section Sound.
Context {env : Env} {uuids : UuidLaws} {acts : Activities} {services : TaskServices}.

Lemma keeps_task_update ids t : keeps ids (task_update t) nothing.
Proof.
  apply keeps_in_context, keeps_engine. intros c [Hwf Ha] Hi.
  pose proof (context_closed c Hwf) as Ho. unfold insert_task.
  set (r := if needs_resolve t then _ else _). destruct r as [t'|e].
  - destruct (host_insert tasks host_tasks (tk_id t') t' (task_columns t') _ Ho) as (b & w & E).
    destruct (insert_with_extra tasks (tk_id t') t' (task_columns t') (rt_session (cc_runtime c))) as [r' d] eqn:Ei.
    simpl in E. subst d. split_and!; [|done|destruct r'; [apply Forall_nil_2|done]].
    split; [exact (host_ctx_wf b w c Hwf)|done].
  - replace (set_runtime _ c) with c by (by destruct c as [[] ? ? ? ?]). split_and!; [done|done|done].
Qed.

#[local] Hint Resolve keeps_host_table keeps_ask keeps_find_by_id keeps_fail keeps_delete_jobs keeps_on_history
  keeps_child_end keeps_satisfied keeps_task_update keeps_time : keeps.
#[local] Hint Resolve query_task host_delete_task host_delete_wait host_delete_boundary : keeps.
#[local] Hint Extern 1 (keeps _ (cleanup_mi_root_and_leave _ _) _) => apply keeps_cleanup; usable_ids : keeps.

Lemma keeps_cancel_instance ids i : keeps ids (cancel_instance i) nothing.
Proof.
  unfold cancel_instance. eapply keeps_then; [apply keeps_ask; intros; by apply query_task|intros t].
  eapply keeps_then with (mid := nothing); [keep|intros ?].
  do 3 (eapply keeps_then; [solve [keep_prim]|intros ?]).
  eapply keeps_then; [apply keeps_find_by_id|intros [x|]]; keep.
Qed.

Lemma keeps_cancel_remaining ids pi e : keeps ids (cancel_remaining_multi_instance_children pi e) nothing.
Proof.
  unfold cancel_remaining_multi_instance_children. eapply keeps_then; [apply keeps_in_context, keeps_snapshot|intros all].
  apply keeps_for_each. intros i _. apply keeps_cancel_instance.
Qed.
#[local] Hint Resolve keeps_cancel_remaining : keeps.

Lemma keeps_leave_sequential ids mi p e n k :
  ex_id p ∈ ids -> ex_id e ∈ ids -> keeps ids (leave_sequential_task mi p e n k) nothing.
Proof. intros Hp He. unfold leave_sequential_task. keep. Qed.

Lemma keeps_leave_parallel ids mi p e pi a :
  ex_id p ∈ ids -> ex_id e ∈ ids -> keeps ids (leave_parallel_task mi p e pi a) nothing.
Proof.
  intros Hp He. unfold leave_parallel_task, checked_pred. cbv zeta.
  eapply keeps_then; [apply keeps_child_end|intros ?].
  eapply keeps_then; [apply keeps_in_context, keeps_update; usable_ids|intros ?].
  eapply keeps_then with (mid := nothing); [keep|intros x].
  eapply keeps_then; [apply keeps_satisfied|intros [|]]; keep.
Qed.

Lemma keeps_leave_plain ids t e : ex_id e ∈ ids -> keeps ids (leave_plain_task t e) nothing.
Proof.
  intros He. unfold leave_plain_task. eapply keeps_then; [apply keeps_in_context, keeps_update; usable_ids|intros ?].
  eapply keeps_then; [apply keeps_find_by_id|intros [x|]]; keep.
Qed.

Lemma aggregation_id child t p a p' :
  apply_multi_instance_variable_aggregation child t p a = Ok p' -> ex_id p' = ex_id p.
Proof.
  unfold apply_multi_instance_variable_aggregation. destruct (ad_implementation_type a); [by intros [= <-]|].
  destruct (resolve_aggregation_target a child) as [[target|]|]; simpl; [|by intros [= <-]|done].
  destruct (aggregated_item _ _ _ _); simpl; [|done].
  destruct (process_variable p target) as [[]|]; simpl; try done;
    destruct (ad_store_as_transient_variable a); by intros [= <-].
Qed.

Lemma aggregate_all_id child t l p p' : aggregate_all child t l p = Ok p' -> ex_id p' = ex_id p.
Proof.
  revert p. induction l as [|a l IH]; intros p; simpl; [by intros [= <-]|].
  destruct (apply_multi_instance_variable_aggregation child t p a) as [p1|] eqn:E; simpl; [|done].
  intros H. by rewrite (IH _ H), (aggregation_id _ _ _ _ _ E).
Qed.

Lemma aggregations_id mi p child t p' :
  apply_multi_instance_variable_aggregations mi p child t = Ok p' -> ex_id p' = ex_id p.
Proof.
  unfold apply_multi_instance_variable_aggregations. destruct (mi_aggregations mi) as [d|]; [|by intros [= <-]].
  destruct (aggregate_all child t (ad_aggregations d) p) as [p1|] eqn:E; simpl; [|done].
  intros H. by rewrite (aggregate_all_id _ _ _ _ _ H), (aggregate_all_id _ _ _ _ _ E).
Qed.

(** The completion of a task keeps the context sound. *)
Lemma keeps_leave_task ids t e : ex_id e ∈ ids -> keeps ids (leave_completed_task t e) nothing.
Proof.
  intros He. unfold leave_completed_task. eapply keeps_then; [apply keeps_find_by_id|intros found]. cbv zeta.
  set (current := set_is_ended true _).
  assert (Hc : ex_id current ∈ found_ids found ++ ids) by (destruct found; usable_ids).
  assert (Hplain : forall ids', ex_id current ∈ ids' -> keeps ids' (leave_plain_task t current) nothing)
    by (intros; by apply keeps_leave_plain).
  destruct (ex_process_instance_id current) as [pi|]; [|by apply Hplain].
  eapply keeps_then; [apply keeps_in_context, keeps_snapshot|intros all].
  destruct (ex_parent_id current) as [parent|]; [|apply Hplain; set_solver].
  eapply keeps_then; [apply keeps_find_by_id|intros [p|]]; [|apply Hplain; set_solver].
  destruct (task_loop_characteristics p) as [mi|]; [|apply Hplain; set_solver].
  eapply keeps_then with (mid := fun p' => [ex_id p']).
  { apply keeps_in_context, keeps_attempt. intros p' ->%aggregations_id. usable_ids. }
  intros p'. unfold checked_succ. eapply keeps_then with (mid := nothing); [keep|intros n].
  destruct (mi_sequential mi); [apply keeps_leave_sequential|apply keeps_leave_parallel]; set_solver.
Qed.
End Sound.

(** ** What the completion of an instance's task does *)
Section Completed.
Context {env : Env} {uuids : UuidLaws} {acts : Activities} {hist : HistoryRecords} {services : TaskServices}.

Lemma child_end_quiet e s :
  context_wf (st_context s) -> yields (record_mi_child_activity_end e) s (fun _ => quiet s).
Proof.
  intros Hwf. unfold record_mi_child_activity_end.
  destruct (ex_activity_id e); [by apply history_end_quiet|by apply (skip_quiet tt)].
Qed.

Lemma task_root_flag p mi : task_loop_characteristics p = Some mi -> ex_is_multi_instance_root p = true.
Proof. unfold task_loop_characteristics. by destruct (ex_is_multi_instance_root p). Qed.

(** The execution of a completed instance. *)
Definition instance_ended (child : Execution) : Execution := set_is_active false (set_is_ended true child).

Lemma leave_parallel_yields mi n k a root parent child pi open s l :
  mi_completion_condition mi = None -> context_wf (st_context s) -> counters n k a root ->
  (i64_min < a <= i64_max)%Z -> ex_is_multi_instance_root root = true ->
  tokens (st_context s) !! ex_id root = Some root -> tokens (st_context s) !! ex_id child = Some child ->
  ex_parent_id child = Some (ex_id root) ->
  ex_parent_id root = Some (ex_id parent) -> tokens (st_context s) !! ex_id parent = Some parent ->
  chain (tokens (st_context s)) (ex_id root) l ->
  let root' := counted (k + 1) (a - 1) root in
  let counted_tokens := <[ex_id root := root']> (<[ex_id child := instance_ended child]> (tokens (st_context s))) in
  yields (leave_parallel_task mi (set_local_variable "nrOfCompletedInstances" (value_of_i64 (k + 1)) root)
            (set_is_ended true (set_is_active true child)) pi open) s (fun _ s' => exists s1,
    tokens (st_context s1) = counted_tokens /\ cc_agenda (st_context s1) = cc_agenda (st_context s)
    /\ cc_uuids (st_context s1) = cc_uuids (st_context s)
    /\ if (0 <? open)%nat then s' = s1 else left_once root' parent s1 s').
Proof.
  intros M Hwf [C1 C2 C3 C4] Ha Hflag Hroot Hchild Hcp Hp Hpar Hc root' ct.
  assert (Hne : ex_id child <> ex_id root).
  { intros E. rewrite E, Hroot in Hchild. injection Hchild as <-.
    eapply (parent_not_below (tokens (st_context s))); [exact Hroot|exact Hcp|exact Hc|apply below_self]. }
  assert (Hpc : ex_id parent <> ex_id child).
  { intros E. eapply (chain_not_below (tokens (st_context s)) (ex_id root) l (ex_id child) child (ex_id parent) parent);
      [by apply context_keys|done|done|done|by eapply chain_parent|done|]. rewrite E. apply below_self. }
  assert (Hpr : ex_id parent <> ex_id root).
  { intros E. eapply (parent_not_below (tokens (st_context s))); [exact Hroot|exact Hp|exact Hc|]. rewrite E. apply below_self. }
  unfold leave_parallel_task. cbv zeta.
  eapply yields_bind; [by apply child_end_quiet|intros [] s1 Q1]. pose proof (quiet_tokens _ _ Q1) as T1.
  eapply yields_bind; [apply (update_writes (instance_ended child)); [apply Q1|]|intros [] s2 W2].
  { eapply token_usable; [apply Q1|]. rewrite T1. exact Hchild. }
  pose proof (wr_tokens _ _ _ W2) as T2. rewrite T1 in T2. change (ex_id (instance_ended child)) with (ex_id child) in T2.
  rewrite (counter_local "nrOfActiveInstances" 0 a); [|done|simpl; by rewrite lookup_insert_ne|lia].
  unfold checked_pred. rewrite (proj2 (Z.eqb_neq a i64_min)) by lia.
  eapply yields_bind with (R := fun x s' => x = (a - 1)%Z /\ s' = s2); [by apply (yields_eq _ _ (a - 1)%Z s2)|].
  intros x ? [-> ->]. fold (counted (k + 1) (a - 1) root). fold root'.
  eapply yields_bind with (R := fun b s' => b = false /\ s' = s2); [eapply yields_eq; [by apply no_condition|done]|].
  intros b ? [-> ->].
  assert (Hu : usable (st_context s2) (ex_id root')).
  { eapply token_usable; [apply W2|]. rewrite T2, lookup_insert_ne by done. exact Hroot. }
  assert (Hag : cc_agenda (st_context s2) = cc_agenda (st_context s)).
  { by rewrite (wr_agenda _ _ _ W2), (cl_agenda _ _ _ Q1). }
  assert (Huu : cc_uuids (st_context s2) = cc_uuids (st_context s)).
  { by rewrite (wr_uuids _ _ _ W2), (cl_uuids _ _ _ Q1). }
  destruct (0 <? open)%nat.
  - eapply yields_weaken; [apply (update_writes root'); [apply W2|done]|]. intros [] s3 W3. exists s3.
    split_and!; [by rewrite (wr_tokens _ _ _ W3), T2|by rewrite (wr_agenda _ _ _ W3)|by rewrite (wr_uuids _ _ _ W3)|done].
  - eapply yields_bind with (R := fun b s' => b = false /\ s' = s2); [eapply yields_eq; [by apply no_condition|done]|].
    intros b ? [-> ->]. eapply yields_bind; [apply (update_writes root'); [apply W2|done]|intros [] s3 W3].
    assert (T3 : tokens (st_context s3) = ct) by (by rewrite (wr_tokens _ _ _ W3), T2).
    destruct (chain_links (tokens (st_context s)) (tokens (st_context s3)) (ex_id root) l) as (l3 & Hc3); [|done|].
    { rewrite T3. intros y. unfold ct. destruct (decide (y = ex_id root)) as [->|H1]; [by rewrite lookup_insert_eq, Hroot|].
      rewrite lookup_insert_ne by done.
      destruct (decide (y = ex_id child)) as [->|H2]; [by rewrite lookup_insert_eq, Hchild|by rewrite lookup_insert_ne]. }
    eapply yields_weaken; [apply (cleanup_leaves root' root' (ex_id parent) parent false s3 l3)|].
    + apply W3.
    + done.
    + rewrite T3. unfold ct. apply lookup_insert_eq.
    + done.
    + rewrite T3. unfold ct. by rewrite !lookup_insert_ne by done.
    + done.
    + intros [] s4 L. exists s3. split_and!; [done|by rewrite (wr_agenda _ _ _ W3)|by rewrite (wr_uuids _ _ _ W3)|done].
Qed.

(** Another instance below the root that has not ended. *)
Definition open_instance (pi : string) (root child x : Execution) : Prop :=
  ex_process_instance_id x = Some pi /\ ex_parent_id x = Some (ex_id root) /\ ex_id x <> ex_id child
  /\ ex_is_ended x = false.

Lemma open_siblings_spec pi root child m x :
  ex_parent_id child = Some (ex_id root) ->
  x ∈ open_siblings pi child m <-> exists k, m !! k = Some x /\ open_instance pi root child x.
Proof.
  intros Hcp. unfold open_siblings, open_instance. rewrite list_elem_of_In, filter_In, <- list_elem_of_In, !andb_true_iff, !negb_true_iff.
  rewrite is_some_eq_spec, String.eqb_neq, bool_decide_eq_true, Hcp, list_elem_of_fmap. split.
  - intros [([k y] & -> & Hk%elem_of_map_to_list) (((? & ?) & ?) & ?)]. exists k. by split_and!.
  - intros (k & Hk & ? & ? & ? & ?). split_and!; try done. exists (k, x). split; [done|]. by apply elem_of_map_to_list.
Qed.

(** One token [t] has left the activity of [root], whose executions are gone. *)
Lemma left_from root parent child k a l s s1 s' :
  context_wf (st_context s) -> tokens (st_context s) !! ex_id root = Some root ->
  tokens (st_context s) !! ex_id child = Some child -> ex_parent_id child = Some (ex_id root) ->
  ex_parent_id root = Some (ex_id parent) -> chain (tokens (st_context s)) (ex_id root) l ->
  tokens (st_context s1) = <[ex_id root := counted k a root]> (<[ex_id child := instance_ended child]> (tokens (st_context s))) ->
  cc_agenda (st_context s1) = cc_agenda (st_context s) -> cc_uuids (st_context s1) = cc_uuids (st_context s) ->
  left_once (counted k a root) parent s1 s' ->
  exists t vars, cc_agenda (st_context s') = cc_agenda (st_context s) ++ [TakeOutgoingSequenceFlows t]
    /\ tokens (st_context s) !! ex_id t = None /\ tokens (st_context s') !! ex_id t = Some t
    /\ ex_parent_id t = Some (ex_id parent) /\ ex_activity_id t = ex_activity_id root
    /\ ex_process_instance_id t = ex_process_instance_id root /\ ex_is_active t = true /\ ex_is_ended t = false
    /\ tokens (st_context s') !! ex_id parent = Some (set_variables vars parent)
    /\ (forall name, vars !! name = handed_over root parent name)
    /\ (forall x, below (tokens (st_context s)) (ex_id root) x -> tokens (st_context s') !! x = None)
    /\ (forall x, x <> ex_id t -> x <> ex_id parent -> tokens (st_context s') !! x <> tokens (st_context s) !! x ->
          below (tokens (st_context s)) (ex_id root) x).
Proof.
  intros Hwf Hroot Hchild Hcp Hp Hc T A U L. set (m := tokens (st_context s)) in *.
  assert (Hsame : same_links m (tokens (st_context s1))).
  { rewrite T. intros y. destruct (decide (y = ex_id root)) as [->|H1]; [by rewrite lookup_insert_eq, Hroot|].
    rewrite lookup_insert_ne by done.
    destruct (decide (y = ex_id child)) as [->|H2]; [by rewrite lookup_insert_eq, Hchild|by rewrite lookup_insert_ne]. }
  assert (Hb : forall x, below (tokens (st_context s1)) (ex_id root) x <-> below m (ex_id root) x).
  { intros x. split; apply below_links; [by apply same_links_sym|done]. }
  exists (leave_token (new_v4 (cc_uuids (st_context s1))) root), (ex_variables (promoted (counted k a root) parent)).
  split_and!; try done.
  - by rewrite (lo_agenda _ _ _ _ L), A.
  - simpl. rewrite U. by apply (cwf_fresh _ Hwf).
  - apply (lo_leave _ _ _ _ L).
  - apply (lo_parent _ _ _ _ L).
  - intros name. by rewrite promoted_lookup, counted_handed.
  - intros x Hx%Hb. by apply (lo_gone _ _ _ _ L).
  - intros x H1 H2 H3. destruct (lo_kept _ _ _ _ L x H1 H2) as [E|[_ Hx%Hb]]; [|done].
    rewrite E, T in H3. destruct (decide (x = ex_id root)) as [->|Hx1]; [apply below_self|].
    rewrite lookup_insert_ne in H3 by done. destruct (decide (x = ex_id child)) as [->|Hx2].
    + eapply below_child; [exact Hchild|exact Hcp|apply below_self].
    + by rewrite lookup_insert_ne in H3.
Qed.

(** C11: completing the task of one instance of a parallel multi-instance activity;
    the part of the completion that leaves the execution of the task
    ([leave_completed_task]).  The activity is parallel, has no completionCondition
    and no variable aggregations, and is a user or service task directly in the
    process, where the lookup finds it (it does not look into sub-processes); the
    execution of the task is stored below the stored root, and the root below a
    stored parent, with a finite chain of parents; the counters of the root are
    numbers of 64 bits that can be counted on; the context is well formed, generated
    ids are distinct and history calls do not fail.  Then the call succeeds.  While
    another instance below the root has not ended, the execution is written as ended
    and inactive, the root with one more completed and one less active instance, no
    other execution changes and nothing is planned.  Otherwise everything below the
    root is deleted, the root included; one token is created, under an id no row had:
    below the parent, on the activity and in the instance of the root, active; it is
    planned to leave, once, and nothing else is planned; the variables of the root
    other than the counters are handed to the parent, the local ones first; and no
    other execution is touched. *)
Theorem instance_task_completed mi n k a task child root parent pi e s l :
  mi_sequential mi = false -> mi_completion_condition mi = None -> mi_aggregations mi = None ->
  context_wf (st_context s) -> tokens (st_context s) !! tk_execution_id task = Some child ->
  ex_process_instance_id child = Some pi -> ex_parent_id child = Some (ex_id root) ->
  tokens (st_context s) !! ex_id root = Some root -> task_loop_characteristics root = Some mi ->
  counters n k a root -> (0 <= k < i64_max)%Z -> (i64_min < a <= i64_max)%Z ->
  ex_parent_id root = Some (ex_id parent) -> tokens (st_context s) !! ex_id parent = Some parent ->
  chain (tokens (st_context s)) (ex_id root) l ->
  exists s', leave_completed_task task e s = (Ok tt, s')
    /\ ((exists x y, tokens (st_context s) !! x = Some y /\ open_instance pi root child y) ->
          tokens (st_context s')
          = <[ex_id root := set_local_variable "nrOfActiveInstances" (value_of_i64 (a - 1))
                              (set_local_variable "nrOfCompletedInstances" (value_of_i64 (k + 1)) root)]>
              (<[ex_id child := set_is_active false (set_is_ended true child)]> (tokens (st_context s)))
          /\ cc_agenda (st_context s') = cc_agenda (st_context s))
    /\ ((forall x y, tokens (st_context s) !! x = Some y -> ~ open_instance pi root child y) ->
          exists t vars, cc_agenda (st_context s') = cc_agenda (st_context s) ++ [TakeOutgoingSequenceFlows t]
            /\ tokens (st_context s) !! ex_id t = None /\ tokens (st_context s') !! ex_id t = Some t
            /\ ex_parent_id t = Some (ex_id parent) /\ ex_activity_id t = ex_activity_id root
            /\ ex_process_instance_id t = ex_process_instance_id root /\ ex_is_active t = true /\ ex_is_ended t = false
            /\ tokens (st_context s') !! ex_id parent = Some (set_variables vars parent)
            /\ (forall name, vars !! name = handed_over root parent name)
            /\ (forall x, below (tokens (st_context s)) (ex_id root) x -> tokens (st_context s') !! x = None)
            /\ (forall x, x <> ex_id t -> x <> ex_id parent ->
                  tokens (st_context s') !! x <> tokens (st_context s) !! x -> below (tokens (st_context s)) (ex_id root) x)).
Proof.
  intros M1 M2 M3 Hwf Hchild Hpi Hcp Hroot Hmi Hct Hk Ha Hp Hpar Hc.
  assert (Hid : ex_id child = tk_execution_id task) by (by eapply token_key). rewrite <- Hid in Hchild.
  pose proof (task_root_flag _ _ Hmi) as Hflag.
  pose proof (leave_parallel_yields mi n k a root parent child pi (length (open_siblings pi child (tokens (st_context s))))
    s l M2 Hwf Hct Ha Hflag Hroot Hchild Hcp Hp Hpar Hc) as Y.
  destruct (yields_run _ _ _ Y) as ([] & s' & E & s1 & T & A & U & L). destruct Hct as [C1 C2 C3 C4].
  pose proof (fun x => open_siblings_spec pi root child (tokens (st_context s)) x Hcp) as Hopen.
  exists s'. split_and!.
  - unfold leave_completed_task. rewrite <- Hid.
    destruct (yields_run _ _ _ (find_quiet (ex_id child) s Hwf)) as (o & ? & E1 & -> & ->).
    erewrite bind_ok by exact E1. rewrite Hchild. cbv zeta. cbn [unwrap_or ex_process_instance_id ex_parent_id set_is_ended set_is_active].
    rewrite Hpi, Hcp. erewrite bind_ok by (by apply in_context_eq, snapshot_eq).
    replace (set_context (st_context s) s) with s by (by destruct s).
    destruct (yields_run _ _ _ (find_quiet (ex_id root) s Hwf)) as (o & ? & E2 & -> & ->).
    erewrite bind_ok by exact E2. rewrite Hroot, Hmi. unfold apply_multi_instance_variable_aggregations. rewrite M3.
    erewrite bind_ok by reflexivity. replace (set_context (st_context s) s) with s by (by destruct s).
    rewrite (counter_local "nrOfCompletedInstances" 0 k) by (done || lia). unfold checked_succ.
    rewrite (proj2 (Z.eqb_neq k i64_max)) by lia. erewrite bind_ok by reflexivity. rewrite M1. exact E.
  - intros (x & y & Hx). assert (Hy : y ∈ open_siblings pi child (tokens (st_context s))) by (apply Hopen; eauto).
    destruct (open_siblings pi child _) as [|? ?]; [by apply not_elem_of_nil in Hy|]. simpl in L. subst s'. by split.
  - intros Hno. destruct (open_siblings pi child (tokens (st_context s))) as [|y ?] eqn:Eo.
    + exact (left_from root parent child (k + 1) (a - 1) l s s1 s' Hwf Hroot Hchild Hcp Hp Hc T A U L).
    + destruct (proj1 (Hopen y)) as (x & Hx & Hy); [rewrite ?Eo; by left|]. by destruct (Hno x y Hx).
Qed.
End Completed.
