(* ===== verification/MultiInstanceSamples.v ===== *)
(** * Multi-instance activities on concrete instances

    The theorems of [ExecutionTrees], [MultiInstanceProof] and
    [MultiInstanceTasks] applied to instances of [sample] and [sample5], and
    runs in which a multi-instance activity does not do what it should. *)
From S2P Require Import Prelude Chars Float64 Numerals Json Errors ElValues BpmnModel FlowElements Samples Execution Store JobTypes JobLocks JobLocksProof JobStore EventDispatcher Context Variables FlowSelection EngineSafety WaitStates ContinueProcess CommandExecutor CommandSamples MultiInstance ExecutionTrees MultiInstanceProof MultiInstanceTasks.

#[export] Instance sample_history : HistoryRecords.
Proof. split; intros; by eexists. Qed.

#[export] Instance sample_task_services : TaskServices := {
  resolve_user_task_properties pi e k s := Ok (mkUserTaskProperties None None None None None None);
  record_task_end t r h := (Ok tt, h)
}.

Lemma multi_instance_laws_witness : @ActivityLaws sample_env (with_multi_instance sample_activities).
Proof. apply (multi_instance_laws sample_activities sample_activity_laws). Defined.


(** ** A behaviour that waits: a receive task without a message *)
Definition receive (e : Execution) : CommandM Execution :=
  in_context (insert_event_wait_state (mkWaitState WaitReceiveTask
    (unwrap_or EmptyString (ex_process_instance_id e)) (ex_id e) None (ex_activity_id e) None None None)) ;;
  mret e.

Lemma receive_waits : waiting_behavior receive.
Proof.
  intros e s Hwf He. unfold receive. set (ws := mkWaitState _ _ _ _ _ _ _ _).
  destruct (insert_wait_found ws (st_context s) Hwf) as (c & E & Hf & Ht & Ha & _).
  pose proof (insert_wait_wf ws (st_context s) Hwf) as Hc. rewrite E in Hc. simpl in Hc.
  eapply yields_eq; [erewrite bind_ok by (by apply in_context_eq); reflexivity|].
  split; simpl; try done; [apply Hc|intros k _; by rewrite Ht|apply Hc|].
  unfold session_of. simpl. rewrite Hf, decide_True by done. by eexists.
Qed.

(** ** Voting: an instance of [sample5] *)
Definition token5 (i : string) (parent activity : option string) (root : bool) (vars locals : gmap string Value) : Execution :=
  mkExecution i parent None (Some "pi-5") (Some "pi-5") (Some "proc:5") None None None activity
    None None None false false true false false root None None None vars locals ∅ false.

Definition voters : list Value := [VString "ann"; VString "bob"].
Definition case5 : Execution := token5 "pi-5" None None false {["voters" := VArray voters]} ∅.
Definition at_vote : Execution := token5 "e-5" (Some "pi-5") (Some "vote") false ∅ ∅.
Definition at_print : Execution := token5 "e-5" (Some "pi-5") (Some "print") false ∅ ∅.

Definition voting (e : Execution) : CommandContext := write_ctx e (write_ctx case5 empty_ctx).

Lemma voting_wf e : ex_id e = "e-5" -> context_wf (voting e).
Proof.
  intros He. unfold voting. apply write_ctx_wf; [|rewrite He; by apply sample_usable].
  apply write_ctx_wf; [apply empty_ctx_wf|by apply sample_usable].
Qed.

Lemma voting_tokens e i :
  ex_id e = "e-5" ->
  tokens (voting e) !! i = if decide (i = "e-5") then Some e else if decide (i = "pi-5") then Some case5 else None.
Proof.
  intros He. unfold voting. rewrite !tokens_write, !lookup_insert, He. simpl.
  assert (tokens empty_ctx !! i = None) as -> by (unfold tokens, view; simpl; by rewrite fmap_empty).
  repeat case_decide; congruence.
Qed.

Lemma voting_chain e :
  ex_id e = "e-5" -> ex_parent_id e = Some "pi-5" -> chain (tokens (voting e)) "e-5" [e; case5].
Proof.
  intros He Hp. eapply chain_up; [by rewrite voting_tokens|exact Hp|]. by apply chain_top; [rewrite voting_tokens|].
Qed.

Lemma one_instance_per_item_witness :
  exists root s' ids, multi_instance_execute receive over_voters false at_vote (state_of (voting at_vote)) = (Ok root, s')
    /\ length ids = 2 /\ exists i ch, ids !! 1 = Some i /\ tokens (st_context s') !! i = Some ch
       /\ ex_local_variables ch !! "loopCounter" = Some (value_of_i64 1).
Proof.
  destruct (one_instance_per_item over_voters receive false "voters" voters at_vote [at_vote; case5] (state_of (voting at_vote)))
    as (root & s' & ids & E & _ & _ & _ & _ & _ & _ & _ & _ & Hlen & _ & _ & Hrows & _).
  - apply receive_waits.
  - reflexivity.
  - reflexivity.
  - reflexivity.
  - reflexivity.
  - reflexivity.
  - by apply voting_wf.
  - exists at_vote. exact (voting_tokens at_vote "e-5" eq_refl).
  - reflexivity.
  - by apply voting_chain.
  - reflexivity.
  - unfold i32_max. simpl. lia.
  - exists root, s', ids. split; [exact E|]. split; [exact Hlen|].
    destruct ids as [|i0 [|i1 ids]]; [discriminate Hlen|discriminate Hlen|].
    destruct (Hrows 1 i1 (VString "bob") eq_refl eq_refl) as (ch & H1 & _ & _ & H3).
    exists i1, ch. split; [reflexivity|]. split; [exact H1|]. rewrite H3. vm_compute. reflexivity.
Defined.

(** ** Two running instances of the sub-process of [sample] *)
Definition mi_token (i : string) (parent : option string) (root scope : bool) (locals : gmap string Value) : Execution :=
  mkExecution i parent None (Some "pi-1") (Some "pi-1") (Some "proc:1") None None None (Some "sub")
    None None None false false (negb root) false scope root None None None ∅ locals ∅ false.

Definition sub_root : Execution :=
  mi_token "m-1" (Some "pi-1") true false
    {["nrOfInstances" := value_of_i64 2; "nrOfCompletedInstances" := value_of_i64 0; "nrOfActiveInstances" := value_of_i64 2]}.
Definition sub1 : Execution := mi_token "i-1" (Some "m-1") false true ∅.
Definition sub2 : Execution := mi_token "i-2" (Some "m-1") false true ∅.

Definition two_instances : CommandContext :=
  write_ctx sub2 (write_ctx sub1 (write_ctx sub_root (write_ctx scope_token empty_ctx))).

Lemma two_instances_wf : context_wf two_instances.
Proof. unfold two_instances. repeat apply write_ctx_wf; try apply empty_ctx_wf; by apply sample_usable. Qed.

Lemma two_instances_tokens i :
  tokens two_instances !! i
  = if decide (i = "i-2") then Some sub2 else if decide (i = "i-1") then Some sub1
    else if decide (i = "m-1") then Some sub_root else if decide (i = "pi-1") then Some scope_token else None.
Proof.
  unfold two_instances. rewrite !tokens_write, !lookup_insert. simpl.
  assert (tokens empty_ctx !! i = None) as -> by (unfold tokens, view; simpl; by rewrite fmap_empty).
  repeat case_decide; congruence.
Qed.

Lemma two_instances_running : running loop_characteristics 2 0 sub_root scope_token [sub2; sub1] (state_of two_instances).
Proof.
  pose proof two_instances_tokens as T. split; simpl.
  - apply two_instances_wf.
  - by rewrite T.
  - done.
  - by rewrite T.
  - exists [sub_root; scope_token]. eapply chain_up; [by rewrite T|done|]. by apply chain_top; [rewrite T|].
  - by split.
  - by vm_compute.
  - repeat constructor; by rewrite T.
  - by apply (bool_decide_unpack _); vm_compute.
Qed.

Lemma left_after_last_instance_witness :
  exists s' t, leave_all [sub2; sub1] (state_of two_instances) = (Ok tt, s')
    /\ cc_agenda (st_context s') = [TakeOutgoingSequenceFlows t] /\ ex_parent_id t = Some "pi-1"
    /\ tokens (st_context s') !! "m-1" = None.
Proof.
  destruct (left_after_last_instance loop_characteristics [sub2; sub1] sub_root scope_token (state_of two_instances))
    as (s' & t & vars & E & A & _ & _ & Hp & _ & _ & _ & _ & _ & _ & _ & _ & Hg & _).
  - reflexivity.
  - reflexivity.
  - unfold i64_max. simpl. lia.
  - discriminate.
  - apply two_instances_running.
  - exists s', t. split; [exact E|]. split; [exact A|]. split; [exact Hp|]. apply Hg, below_self.
Defined.

(** ** Two votes *)
Definition vote_root (activity : string) : Execution :=
  token5 "m-5" (Some "pi-5") (Some activity) true ∅
    {["nrOfInstances" := value_of_i64 2; "nrOfCompletedInstances" := value_of_i64 0; "nrOfActiveInstances" := value_of_i64 2]}.
Definition ballot1 (activity : string) : Execution := token5 "b-1" (Some "m-5") (Some activity) false ∅ ∅.
Definition ballot2 (activity : string) : Execution := token5 "b-2" (Some "m-5") (Some activity) false ∅ ∅.

Definition votes (activity : string) : CommandContext :=
  write_ctx (ballot2 activity) (write_ctx (ballot1 activity) (write_ctx (vote_root activity) (write_ctx case5 empty_ctx))).

Lemma votes_wf a : context_wf (votes a).
Proof. unfold votes. repeat apply write_ctx_wf; try apply empty_ctx_wf; by apply sample_usable. Qed.

Lemma votes_tokens a i :
  tokens (votes a) !! i
  = if decide (i = "b-2") then Some (ballot2 a) else if decide (i = "b-1") then Some (ballot1 a)
    else if decide (i = "m-5") then Some (vote_root a) else if decide (i = "pi-5") then Some case5 else None.
Proof.
  unfold votes. rewrite !tokens_write, !lookup_insert. simpl.
  assert (tokens empty_ctx !! i = None) as -> by (unfold tokens, view; simpl; by rewrite fmap_empty).
  repeat case_decide; congruence.
Qed.

Definition vote_task (i execution_id : string) : Task :=
  mkTask i "pi-5" execution_id "vote" "vote" None None None None None None None None None None false None None None
    "created" 0 ∅.

Lemma instance_task_completed_witness :
  exists s', leave_completed_task (vote_task "t-1" "b-1") (ballot1 "vote") (state_of (votes "vote")) = (Ok tt, s')
    /\ cc_agenda (st_context s') = []
    /\ tokens (st_context s') !! "b-1" = Some (instance_ended (ballot1 "vote")).
Proof.
  pose proof (votes_tokens "vote") as T.
  destruct (instance_task_completed over_voters 2 0 2 (vote_task "t-1" "b-1") (ballot1 "vote") (vote_root "vote") case5 "pi-5"
              (ballot1 "vote") (state_of (votes "vote")) [vote_root "vote"; case5]) as (s' & E & H1 & _).
  - reflexivity.
  - reflexivity.
  - reflexivity.
  - apply votes_wf.
  - exact (T "b-1").
  - reflexivity.
  - reflexivity.
  - exact (T "m-5").
  - vm_compute. reflexivity.
  - split; vm_compute; reflexivity.
  - unfold i64_max. lia.
  - unfold i64_min, i64_max. lia.
  - reflexivity.
  - exact (T "pi-5").
  - eapply chain_up; [exact (T "m-5")|reflexivity|]. apply chain_top; [exact (T "pi-5")|reflexivity].
  - destruct H1 as [H1 H2].
    + exists "b-2", (ballot2 "vote"). split; [exact (T "b-2")|]. split_and!; reflexivity || discriminate.
    + exists s'. split; [exact E|]. split; [exact H2|]. rewrite H1. reflexivity.
Defined.

(** ** Where the code falls short *)
Definition planned_on (ops : list AgendaOperation) : list string :=
  omap (fun op => match op with TakeOutgoingSequenceFlows e => Some (ex_id e) | _ => None end) ops.

(** Each instance of a multi-instance manual task plans to leave the activity,
    and so does the activity: with two voters it is left three times, twice by
    executions that are deleted by then. *)
Theorem manual_task_left_per_instance :
  match engine_behavior (MultiInstanceBehavior ManualTaskBehavior over_voters false) at_print (state_of (voting at_print)) with
  | (Ok _, s') => (planned_on (cc_agenda (st_context s')),
                   (fun i => bool_decide (is_Some (tokens (st_context s') !! i))) <$> planned_on (cc_agenda (st_context s')))
  | (Err _, _) => ([], [])
  end
  = (["uuid-1"; "uuid-2"; "uuid-3"], [false; false; true]).
Proof. vm_compute. reflexivity. Qed.

(** The task service finds the loop characteristics of an activity of the
    process, but not of one inside a sub-process, though the behaviour did:
    completing the task of one instance there leaves the activity at once,
    while the other instance and the root stay. *)
Theorem nested_instance_leaves_alone :
  task_loop_characteristics (vote_root "vote") = Some over_voters
  /\ resolve_mi_loop_characteristics (vote_root "ballot") = Some over_voters
  /\ task_loop_characteristics (vote_root "ballot") = None
  /\ match leave_completed_task (vote_task "t-1" "b-1") (ballot1 "ballot") (state_of (votes "ballot")) with
     | (Ok _, s') => (planned_on (cc_agenda (st_context s')), tokens (st_context s') !! "m-5", tokens (st_context s') !! "b-2")
     | (Err _, _) => ([], None, None)
     end
     = (["b-1"], Some (vote_root "ballot"), Some (ballot2 "ballot")).
Proof. split_and!; vm_compute; reflexivity. Qed.

(** An aggregation that is stored as a transient variable is on the root only:
    it is not handed to the parent when the activity is left. *)
Theorem transient_aggregate_lost root parent name :
  ex_local_variables root !! name = None -> ex_variables root !! name = None ->
  process_variable (promoted root parent) name = process_variable parent name.
Proof.
  intros Hl Hv. rewrite !process_variable_eq. simpl. rewrite !lookup_union.
  assert (Hn : forall m : gmap string Value, m !! name = None -> not_bookkeeping m !! name = None).
  { intros m Hm. apply map_lookup_filter_None. by left. }
  by rewrite (Hn _ Hl), (Hn _ Hv), !(left_id_L None (∪)).
Qed.
