(* ===== verification/CmmnTokens.v ===== *)
(** * CMMN conditions: data, paths and tokens

    Models the first half of [flowable-cmmn-model/src/lib.rs]: the expression
    tree of an [ifPart], the check of a variable path
    ([is_supported_if_part_variable_name]) and the tokenizer
    ([tokenize_if_part_expression]).  The source walks an index over the bytes
    of a string slice; here the index is the list of bytes that are left, and
    a slice is the list of bytes consumed.  Loops run on fuel, one unit per
    byte; [CmmnParserProof] proves that enough. *)
From Stdlib Require Import Ascii.
From S2P Require Import Prelude Chars Numerals.

(** ** The expression tree *)
Inductive SentryIfPartOperator : Set :=
| Equal | NotEqual | GreaterThan | GreaterThanOrEqual | LessThan | LessThanOrEqual.

Inductive SentryIfPartLogicalOperator : Set := And | Or.

Inductive SentryIfPartLiteral : Set :=
| LBoolean (b : bool)
| LString (s : string)
| LNumber (s : string)
| LNull
| LVariable (s : string).

Record SentryIfPartCondition := mkCondition {
  variable_name : string;
  operator : SentryIfPartOperator;
  literal : SentryIfPartLiteral
}.

Inductive SentryIfPartExpression : Type :=
| Comparison (condition : SentryIfPartCondition)
| Logical (operator : SentryIfPartLogicalOperator) (operands : list SentryIfPartExpression)
| Not (operand : SentryIfPartExpression)
| Empty (variable_name : string)
| Contains (collection_variable_name : string) (value : SentryIfPartLiteral) (expected : bool)
| StartsWith (variable_name prefix : string)
| EndsWith (variable_name suffix : string)
| Matches (variable_name regex : string)
| MethodCall (object : option string) (method : string) (args : list SentryIfPartExpression)
| Arithmetic (left : SentryIfPartExpression) (operator : string) (right : SentryIfPartExpression)
| Ternary (condition true_expr false_expr : SentryIfPartExpression)
| PropertyAccess (object : SentryIfPartExpression) (property : string)
| IndexAccess (object index : SentryIfPartExpression)
| Literal (lit : SentryIfPartLiteral).

Inductive IfPartToken : Set :=
| TIdentifier (s : string)
| TLiteral (l : SentryIfPartLiteral)
| TEqual | TNotEqual | TGreaterThan | TGreaterThanOrEqual | TLessThan | TLessThanOrEqual
| TAnd | TOr | TNot | TLeftParen | TRightParen | TComma
| TPlus | TMinus | TMultiply | TDivide | TModulo
| TQuestion | TColon | TLeftBracket | TRightBracket | TDot.

#[export] Instance literal_eq_dec : EqDecision SentryIfPartLiteral.
Proof. solve_decision. Defined.
#[export] Instance token_eq_dec : EqDecision IfPartToken.
Proof. solve_decision. Defined.

(** What stops a parse: the message of an [Err], or the fuel of a loop. *)
Inductive ParseStop : Set :=
| Rejected (message : string)
| Exhausted.

(** ** Bytes *)
Notation bytes s := (String.list_ascii_of_string s).

Definition is_byte (a b : ascii) : bool := Ascii.eqb a b.
Definition double_quote : ascii := "034"%char.
Definition backslash : ascii := "092"%char.

Definition is_identifier_start_byte (a : ascii) : bool :=
  is_ascii_alphabetic (byte_of a) || is_byte a "_".
Definition is_identifier_byte (a : ascii) : bool :=
  is_ascii_alphabetic (byte_of a) || is_digit a || is_byte a "_".

(** A single or a double quote. *)
Definition is_quote (a : ascii) : bool := is_byte a "'" || is_byte a double_quote.

(** [u8::is_ascii_whitespace]: space, tab, line feed, form feed, return. *)
Definition is_ascii_whitespace (a : ascii) : bool :=
  let b := byte_of a in ((b =? 32) || (b =? 9) || (b =? 10) || (b =? 12) || (b =? 13))%Z.

(** [while index < bytes.len() && p(bytes[index]) { index += 1 }]: what the
    index passes over, and what is left. *)
Fixpoint span {A} (p : A -> bool) (l : list A) : list A * list A :=
  match l with
  | [] => ([], [])
  | a :: r => if p a then let '(k, r') := span p r in (a :: k, r') else ([], l)
  end.

(** The bytes of a quoted key up to its quote or to a backslash. *)
Definition span_key (quote : ascii) : list ascii -> list ascii * list ascii :=
  span (fun b => negb (is_byte b quote) && negb (is_byte b backslash)).

(** The key and what follows [quote] and the bracket, when the key is not
    empty and both are there. *)
Definition quoted_key (quote : ascii) (l : list ascii) : option (list ascii * list ascii) :=
  match span_key quote l with
  | ((_ :: _) as key, q :: b :: r) =>
      if is_byte q quote && is_byte b "]" then Some (key, r) else None
  | _ => None
  end.

(** ** [is_supported_if_part_variable_name] *)
Fixpoint supported_tail (fuel : nat) (l : list ascii) : bool :=
  match l with
  | [] => true
  | b :: l' =>
      match fuel with
      | 0 => false
      | S fuel =>
          if is_byte b "." then
            match l' with
            | c :: r => is_identifier_start_byte c && supported_tail fuel (snd (span is_identifier_byte r))
            | [] => false
            end
          else if is_byte b "[" then
            match l' with
            | c :: r =>
                if is_digit c then
                  match snd (span is_digit l') with
                  | d :: r => is_byte d "]" && supported_tail fuel r
                  | [] => false
                  end
                else if is_quote c then
                  match quoted_key c r with
                  | Some (_, r) => supported_tail fuel r
                  | None => false
                  end
                else false
            | [] => false
            end
          else false
      end
  end.

Definition is_supported_if_part_variable_name (value : string) : bool :=
  match bytes value with
  | [] => false
  | first :: l =>
      is_identifier_start_byte first
      && let r := snd (span is_identifier_byte l) in supported_tail (length r) r
  end.

(** ** Reading tokens *)

(** The loop of [read_if_part_variable_reference], after the first name: an
    unfinished bracket ends the reference behind what was read of it. *)
Fixpoint reference_tail (fuel : nat) (l : list ascii) : list ascii * list ascii :=
  match fuel with
  | 0 => ([], l)
  | S fuel =>
      match l with
      | b :: c :: r =>
          if is_byte b "." && is_identifier_start_byte c then
            let '(name, r) := span is_identifier_byte r in
            let '(more, r) := reference_tail fuel r in
            (b :: c :: name ++ more, r)
          else if is_byte b "[" && is_digit c then
            let '(digits, r) := span is_digit r in
            match r with
            | d :: r' =>
                if is_byte d "]" then
                  let '(more, r') := reference_tail fuel r' in
                  (b :: c :: digits ++ d :: more, r')
                else (b :: c :: digits, r)
            | [] => (b :: c :: digits, r)
            end
          else if is_byte b "[" && is_quote c then
            let '(key, r) := span_key c r in
            match key, r with
            | _ :: _, q :: d :: r' =>
                if is_byte q c && is_byte d "]" then
                  let '(more, r') := reference_tail fuel r' in
                  (b :: c :: key ++ q :: d :: more, r')
                else (b :: c :: key, r)
            | _, _ => (b :: c :: key, r)
            end
          else ([], l)
      | _ => ([], l)
      end
  end.

(** [start] is the byte at the index, [l] what follows it. *)
Definition read_if_part_variable_reference (start : ascii) (l : list ascii) : list ascii * list ascii :=
  let '(name, r) := span is_identifier_byte l in
  let '(more, r) := reference_tail (length r) r in
  (start :: name ++ more, r).

Fixpoint read_quoted_if_part_string (quote : ascii) (l : list ascii)
  : result ParseStop (list ascii * list ascii) :=
  match l with
  | [] => Err (Rejected "quoted string literal must be terminated")
  | b :: r =>
      if is_byte b backslash then Err (Rejected "quoted string literals must not contain escapes")
      else if is_byte b quote then Ok ([], r)
      else '(value, r) ← read_quoted_if_part_string quote r; Ok (b :: value, r)
  end.

Definition is_supported_number_literal (value : string) : bool :=
  let digits := span is_ascii_digit in
  let cs := match chars value with c :: r => if (c =? 45)%Z then r else c :: r | [] => [] end in
  match digits cs with
  | ([], _) => false
  | (_, c :: r) =>
      if (c =? 46)%Z then
        match digits r with
        | ([], _) => false
        | (_, r) => match r with [] => true | _ => false end
        end
      else false
  | (_, []) => true
  end.

(** [l] starts with the first byte of the number, a minus sign or a digit. *)
Definition read_if_part_number (l : list ascii) : result ParseStop (string * list ascii) :=
  let '(sign, r) := match l with
                    | b :: r => if is_byte b "-" then ([b], r) else ([], l)
                    | [] => ([], l)
                    end in
  let '(digits, r) := span is_digit r in
  match digits with
  | [] => Err (Rejected "number literal must contain digits")
  | _ =>
      '(fraction, r) ←
        match r with
        | b :: r' =>
            if is_byte b "." then
              match span is_digit r' with
              | ([], _) => Err (Rejected "number literal must contain fractional digits after `.`")
              | (ds, r'') => Ok (b :: ds, r'')
              end
            else Ok ([], r)
        | [] => Ok ([], r)
        end;
      let value := text (sign ++ digits ++ fraction) in
      if is_supported_number_literal value then Ok (value, r)
      else Err (Rejected "right side must be a boolean, quoted string, or number literal")
  end.

(** ** [tokenize_if_part_expression] *)
Definition word_token (word : string) : IfPartToken :=
  if bool_decide (word = "and") then TAnd
  else if bool_decide (word = "or") then TOr
  else if bool_decide (word = "not") then TNot
  else if bool_decide (word = "true") then TLiteral (LBoolean true)
  else if bool_decide (word = "false") then TLiteral (LBoolean false)
  else if bool_decide (word = "null") then TLiteral LNull
  else TIdentifier word.

(** A minus sign before a digit starts a number unless it follows an operand. *)
Definition after_operand (tokens : list IfPartToken) : bool :=
  match last tokens with
  | Some (TIdentifier _) | Some (TLiteral _) | Some TRightParen => true
  | _ => false
  end.

(** The tokens that are one byte whatever follows. *)
Definition single_token (b : ascii) : option IfPartToken :=
  if is_byte b "(" then Some TLeftParen
  else if is_byte b ")" then Some TRightParen
  else if is_byte b "," then Some TComma
  else if is_byte b "+" then Some TPlus
  else if is_byte b "*" then Some TMultiply
  else if is_byte b "/" then Some TDivide
  else if is_byte b "%" then Some TModulo
  else if is_byte b "?" then Some TQuestion
  else if is_byte b ":" then Some TColon
  else if is_byte b "[" then Some TLeftBracket
  else if is_byte b "]" then Some TRightBracket
  else if is_byte b "." then Some TDot
  else None.

(** The operators of one or two bytes: the second byte that makes the longer
    token, that token, and what the first byte alone is. *)
Definition double_token (b : ascii) : option (ascii * IfPartToken * result string IfPartToken) :=
  if is_byte b "!" then Some ("="%char, TNotEqual, Ok TNot)
  else if is_byte b "=" then
    Some ("="%char, TEqual, Err "supported subset requires `==` for equality")
  else if is_byte b ">" then Some ("="%char, TGreaterThanOrEqual, Ok TGreaterThan)
  else if is_byte b "<" then Some ("="%char, TLessThanOrEqual, Ok TLessThan)
  else if is_byte b "&" then
    Some ("&"%char, TAnd, Err "supported subset requires `&&` for logical and")
  else if is_byte b "|" then
    Some ("|"%char, TOr, Err "supported subset requires `||` for logical or")
  else None.

(** One turn of the loop at byte [b] with [r] behind it: the token pushed, if
    any, and what is left. *)
Definition read_token (tokens : list IfPartToken) (b : ascii) (r : list ascii)
  : result ParseStop (option IfPartToken * list ascii) :=
  if is_ascii_whitespace b then Ok (None, r)
  else match single_token b with
  | Some t => Ok (Some t, r)
  | None =>
      match double_token b with
      | Some (second, long, short) =>
          match r with
          | c :: r' =>
              if is_byte c second then Ok (Some long, r')
              else match short with Ok t => Ok (Some t, r) | Err m => Err (Rejected m) end
          | [] => match short with Ok t => Ok (Some t, r) | Err m => Err (Rejected m) end
          end
      | None =>
          if is_byte b "-" then
            if match r with d :: _ => is_digit d && negb (after_operand tokens) | [] => false end
            then '(value, r) ← read_if_part_number (b :: r); Ok (Some (TLiteral (LNumber value)), r)
            else Ok (Some TMinus, r)
          else if is_quote b then
            '(value, r) ← read_quoted_if_part_string b r;
            Ok (Some (TLiteral (LString (text value))), r)
          else if is_digit b then
            '(value, r) ← read_if_part_number (b :: r); Ok (Some (TLiteral (LNumber value)), r)
          else if is_identifier_start_byte b then
            let '(word, r) := read_if_part_variable_reference b r in
            Ok (Some (word_token (text word)), r)
          else Err (Rejected ("unsupported token `" +:+ of_chars [byte_of b] +:+ "` in ifPart expression"))
      end
  end.

Fixpoint tokenize_loop (fuel : nat) (l : list ascii) (tokens : list IfPartToken)
  : result ParseStop (list IfPartToken) :=
  match l with
  | [] => Ok tokens
  | b :: r =>
      match fuel with
      | 0 => Err Exhausted
      | S fuel =>
          '(token, r) ← read_token tokens b r;
          tokenize_loop fuel r (tokens ++ match token with Some t => [t] | None => [] end)
      end
  end.

Definition tokenize_if_part_expression (expression : string) : result ParseStop (list IfPartToken) :=
  let l := bytes expression in tokenize_loop (length l) l [].
