(* ===== verification/CmmnParser.v ===== *)
(** * CMMN conditions: the parser

    Models [IfPartParser] of [flowable-cmmn-model/src/lib.rs], a
    recursive-descent parser, with the printer it uses
    ([expression_to_string]) and the entry points
    [parse_sentry_if_part_expression] and [parse_sentry_value_expression].

    The parser's token vector and index are the list of tokens that are left;
    no method goes back.  Its [depth] counts the enclosing calls of
    [parse_expression]: the model counts the calls that are left, from
    [MAX_IF_PART_NESTING_DEPTH] down.  The other recursions ([parse_unary],
    [parse_ternary]) and the loops run on fuel, [turns]. *)
From Stdlib Require Import Ascii.
From S2P Require Import Prelude Chars CmmnTokens.

(** ** Printing *)
Fixpoint join (separator : string) (parts : list string) : string :=
  match parts with
  | [] => ""
  | [s] => s
  | s :: r => s +:+ separator +:+ join separator r
  end.

(** [rfind('.')]: the text before the last dot and the text after it. *)
Fixpoint last_dot (l : list ascii) : option (list ascii * list ascii) :=
  match l with
  | [] => None
  | b :: r =>
      match last_dot r with
      | Some (before, after) => Some (b :: before, after)
      | None => if is_byte b "." then Some ([], r) else None
      end
  end.

Definition split_method_call_identifier (identifier : string) : option string * string :=
  match last_dot (bytes identifier) with
  | Some (before, after) => (Some (text before), text after)
  | None => (None, identifier)
  end.

Definition bool_to_string (b : bool) : string := if b then "true" else "false".

Definition literal_to_string (l : SentryIfPartLiteral) : string :=
  match l with
  | LBoolean b => bool_to_string b
  | LString s => "'" +:+ s +:+ "'"
  | LNumber n => n
  | LNull => "null"
  | LVariable v => v
  end.

Definition operator_to_string (op : SentryIfPartOperator) : string :=
  match op with
  | Equal => "==" | NotEqual => "!=" | GreaterThan => ">"
  | GreaterThanOrEqual => ">=" | LessThan => "<" | LessThanOrEqual => "<="
  end.

Definition logical_to_string (op : SentryIfPartLogicalOperator) : string :=
  match op with And => "&&" | Or => "||" end.

Definition method_call_to_string (object : option string) (method : string) (arg_strs : list string)
  : string :=
  let args_joined := join ", " arg_strs in
  if (bool_decide (method = "size") || bool_decide (method = "length"))
     && match arg_strs with [] => true | _ => false end
  then match object with
       | Some obj => method +:+ "(" +:+ obj +:+ ")"
       | None => method +:+ "(" +:+ args_joined +:+ ")"
       end
  else match object with
       | Some obj => obj +:+ "." +:+ method +:+ "(" +:+ args_joined +:+ ")"
       | None => method +:+ "(" +:+ args_joined +:+ ")"
       end.

(** [for arg in args { strs.push(print(arg)?) }]. *)
Definition collect {A E B} (f : A -> result E B) : list A -> result E (list B) :=
  fix go l := match l with
              | [] => Ok []
              | a :: r => b ← f a; bs ← go r; Ok (b :: bs)
              end.

Fixpoint expression_to_string (expr : SentryIfPartExpression) : result ParseStop string :=
  match expr with
  | Literal lit => Ok (literal_to_string lit)
  | PropertyAccess object property =>
      obj_str ← expression_to_string object; Ok (obj_str +:+ "." +:+ property)
  | IndexAccess object index =>
      obj_str ← expression_to_string object;
      idx_str ← expression_to_string index;
      Ok (obj_str +:+ "[" +:+ idx_str +:+ "]")
  | MethodCall object method args =>
      arg_strs ← collect expression_to_string args; Ok (method_call_to_string object method arg_strs)
  | Arithmetic lhs operator rhs =>
      l ← expression_to_string lhs;
      r ← expression_to_string rhs;
      Ok (l +:+ " " +:+ operator +:+ " " +:+ r)
  | Comparison c =>
      Ok (variable_name c +:+ " " +:+ operator_to_string (operator c) +:+ " "
            +:+ literal_to_string (literal c))
  | Logical operator operands =>
      parts ← collect (fun op => s ← expression_to_string op; Ok ("(" +:+ s +:+ ")")) operands;
      Ok (join (" " +:+ logical_to_string operator +:+ " ") parts)
  | Not operand => op_str ← expression_to_string operand; Ok ("!(" +:+ op_str +:+ ")")
  | Empty _ | Contains _ _ _ | StartsWith _ _ | EndsWith _ _ | Matches _ _ | Ternary _ _ _ =>
      Err (Rejected "cannot serialize expression to string representation")
  end.

Definition expression_to_literal (expr : SentryIfPartExpression) : result ParseStop SentryIfPartLiteral :=
  match expr with
  | Literal lit => Ok lit
  | _ => s ← expression_to_string expr; Ok (LVariable s)
  end.

(** ** Boolean contexts *)
Definition boolean_variable_path_expression (name : string) : SentryIfPartExpression :=
  Comparison (mkCondition name Equal (LBoolean true)).

Definition ensure_boolean_context (expr : SentryIfPartExpression) : SentryIfPartExpression :=
  match expr with
  | Literal (LVariable var_name) =>
      if is_supported_if_part_variable_name var_name
      then boolean_variable_path_expression var_name else expr
  | _ => expr
  end.

Definition logical_expression (operator : SentryIfPartLogicalOperator)
  (operands : list SentryIfPartExpression) : SentryIfPartExpression :=
  match operands with
  | [e] => e
  | _ => Logical operator operands
  end.

(** ** The cursor *)
Definition P (A : Type) : Type := stM (list IfPartToken) ParseStop A.

Definition reject {A} (message : string) : P A := throw (Rejected message).

Definition peek : P (option IfPartToken) := fun ts => (Ok (head ts), ts).
Definition peek_next : P (option IfPartToken) := fun ts => (Ok (ts !! 1), ts).

Definition advance : P (option IfPartToken) := fun ts =>
  match ts with t :: r => (Ok (Some t), r) | [] => (Ok None, []) end.

Definition consume (expected : IfPartToken) : P bool := fun ts =>
  match ts with
  | t :: r => if bool_decide (t = expected) then (Ok true, r) else (Ok false, ts)
  | [] => (Ok false, [])
  end.

(** [if !self.consume(t) { return Err(message) }]. *)
Definition expect (t : IfPartToken) (message : string) : P unit :=
  found ← consume t; if found : bool then mret tt else reject message.

(** The next token is the name [f] of a function, with its parenthesis. *)
Definition next_identifier_is (f : string -> bool) : P bool :=
  t ← peek; n ← peek_next;
  mret match t, n with
       | Some (TIdentifier name), Some TLeftParen => f name
       | _, _ => false
       end.

Definition named (a : string) (name : string) : bool := bool_decide (name = a).
Definition next_identifier_is_empty_function : P bool := next_identifier_is (named "empty").
Definition next_identifier_is_contains_function : P bool := next_identifier_is (named "contains").
Definition next_identifier_is_starts_with_function : P bool := next_identifier_is (named "startsWith").
Definition next_identifier_is_ends_with_function : P bool := next_identifier_is (named "endsWith").
Definition next_identifier_is_matches_function : P bool := next_identifier_is (named "matches").
Definition next_identifier_is_sizing_function : P bool :=
  next_identifier_is (fun name => named "size" name || named "length" name).

Definition next_tokens_are_parenthesized_variable_path : P bool := fun ts =>
  (Ok match ts with
      | TLeftParen :: TIdentifier name :: TRightParen :: _ => is_supported_if_part_variable_name name
      | _ => false
      end, ts).

(** The tokens of an argument: up to a terminator, or to a closing bracket,
    outside nested brackets. *)
Fixpoint argument_tokens (terminators : list IfPartToken) (depth : nat) (ts : list IfPartToken)
  : list IfPartToken * list IfPartToken :=
  match ts with
  | [] => ([], [])
  | t :: r =>
      let more depth := let '(a, r') := argument_tokens terminators depth r in (t :: a, r') in
      if (depth =? 0)%nat && existsb (fun x => bool_decide (x = t)) terminators then ([], ts)
      else match t with
           | TLeftParen | TLeftBracket => more (S depth)
           | TRightParen | TRightBracket =>
               match depth with 0 => ([], ts) | S depth => more depth end
           | _ => more depth
           end
  end.

(** ** Functions whose arguments are tokens *)
Definition path_argument (message other : string) : P string :=
  t ← advance;
  match t with
  | Some (TIdentifier value) =>
      if is_supported_if_part_variable_name value then mret value else reject message
  | _ => reject other
  end.

Definition string_argument (message : string) : P string :=
  t ← advance;
  match t with Some (TLiteral (LString value)) => mret value | _ => reject message end.

Definition parse_empty_function : P SentryIfPartExpression :=
  advance ;;
  expect TLeftParen "empty function requires `(`" ;;
  name ← path_argument "empty function argument must be a case variable path"
                       "empty function requires a case variable path argument";
  expect TRightParen "empty function supports exactly one variable argument" ;;
  mret (Empty name).

Definition parse_starts_with_function : P SentryIfPartExpression :=
  advance ;;
  expect TLeftParen "startsWith function requires `(`" ;;
  let first := "startsWith first argument must be a case variable path" in
  name ← path_argument first first;
  expect TComma "startsWith function requires exactly two arguments" ;;
  prefix ← string_argument "startsWith second argument must be a string literal";
  expect TRightParen "startsWith function supports exactly two arguments" ;;
  mret (StartsWith name prefix).

Definition parse_ends_with_function : P SentryIfPartExpression :=
  advance ;;
  expect TLeftParen "endsWith function requires `(`" ;;
  let first := "endsWith first argument must be a case variable path" in
  name ← path_argument first first;
  expect TComma "endsWith function requires exactly two arguments" ;;
  suffix ← string_argument "endsWith second argument must be a string literal";
  expect TRightParen "endsWith function supports exactly two arguments" ;;
  mret (EndsWith name suffix).

Definition parse_matches_function : P SentryIfPartExpression :=
  advance ;;
  expect TLeftParen "matches function requires `(`" ;;
  let first := "matches first argument must be a case variable path" in
  name ← path_argument first first;
  expect TComma "matches function requires exactly two arguments" ;;
  regex ← string_argument "matches second argument must be a string literal";
  expect TRightParen "matches function supports exactly two arguments" ;;
  mret (Matches name regex).

Definition parse_parenthesized_boolean_variable_path : P SentryIfPartExpression :=
  advance ;;
  name ← path_argument "not function argument must be a case variable path"
                       "not function requires a case variable path argument";
  expect TRightParen "not function boolean path wrapper supports one argument" ;;
  mret (boolean_variable_path_expression name).

Definition comparison_operator (t : option IfPartToken) : option SentryIfPartOperator :=
  match t with
  | Some TEqual => Some Equal
  | Some TNotEqual => Some NotEqual
  | Some TGreaterThan => Some GreaterThan
  | Some TGreaterThanOrEqual => Some GreaterThanOrEqual
  | Some TLessThan => Some LessThan
  | Some TLessThanOrEqual => Some LessThanOrEqual
  | _ => None
  end.

Definition peek_comparison_operator : P (option SentryIfPartOperator) :=
  t ← peek; mret (comparison_operator t).

Definition additive_operator (t : option IfPartToken) : option string :=
  match t with Some TPlus => Some "+" | Some TMinus => Some "-" | _ => None end.

Definition multiplicative_operator (t : option IfPartToken) : option string :=
  match t with
  | Some TMultiply => Some "*" | Some TDivide => Some "/" | Some TModulo => Some "%"
  | _ => None
  end.

Definition is_equality (op : SentryIfPartOperator) : bool :=
  match op with Equal | NotEqual => true | _ => false end.

(** ** The productions, over the recursive call [expression] *)
Section Productions.
Context (turns : nat) (expression : P SentryIfPartExpression).

(** The argument is parsed by a parser of its own, at the same depth. *)
Definition parse_expression_argument_until (terminators : list IfPartToken) : P SentryIfPartExpression :=
  fun ts =>
    let '(argument, rest) := argument_tokens terminators 0 ts in
    match argument with
    | [] => reject "function argument must not be empty" ts
    | _ => match expression argument with
           | (Ok e, []) => (Ok e, rest)
           | (Ok _, _ :: _) => reject "unexpected trailing tokens in function argument" ts
           | (Err stop, _) => (Err stop, ts)
           end
    end.

(** [while self.consume(&Comma) { args.push(..) }]. *)
Fixpoint arguments_loop (n : nat) (args : list SentryIfPartExpression)
  : P (list SentryIfPartExpression) :=
  match n with
  | 0 => throw Exhausted
  | S n =>
      more ← consume TComma;
      if more : bool then
        arg ← parse_expression_argument_until [TComma; TRightParen];
        arguments_loop n (args ++ [arg])
      else mret args
  end.

(** The arguments of a call, after its parenthesis. *)
Definition parse_arguments : P (list SentryIfPartExpression) :=
  t ← peek;
  args ← (if bool_decide (t = Some TRightParen) then mret []
          else first ← parse_expression_argument_until [TComma; TRightParen];
               arguments_loop turns [first]);
  expect TRightParen "expected `)` after method arguments" ;;
  mret args.

Definition parse_contains_function_comparison : P SentryIfPartExpression :=
  advance ;;
  expect TLeftParen "contains function requires `(`" ;;
  collection ← parse_expression_argument_until [TComma; TRightParen];
  collection_variable_name ← lift (expression_to_string collection);
  expect TComma "contains function requires exactly two arguments" ;;
  argument ← parse_expression_argument_until [TRightParen];
  value ← lift (expression_to_literal argument);
  expect TRightParen "contains function supports exactly two arguments" ;;
  let boolean : P bool :=
    t ← advance;
    match t with
    | Some (TLiteral (LBoolean b)) => mret b
    | _ => reject "contains function comparison right side must be true or false"
    end in
  equal ← consume TEqual;
  expected ← (if equal : bool then boolean
              else not_equal ← consume TNotEqual;
                   if not_equal : bool then b ← boolean; mret (negb b) else mret true);
  mret (Contains collection_variable_name value expected).

Definition parse_sizing_function_operand : P string :=
  t ← advance;
  match t with
  | Some (TIdentifier function_name) =>
      expect TLeftParen (function_name +:+ " function requires `(`") ;;
      operand ← parse_expression_argument_until [TRightParen];
      name ← lift (expression_to_string operand);
      expect TRightParen (function_name +:+ " function supports exactly one variable argument") ;;
      mret name
  | _ => reject "supported sizing function requires a function name"
  end.

Definition parse_sizing_function : P SentryIfPartExpression :=
  t ← peek;
  match t with
  | Some (TIdentifier func_name) =>
      operand ← parse_sizing_function_operand;
      mret (MethodCall (Some operand) func_name [])
  | _ => reject "expected identifier for sizing function"
  end.

Definition parse_call (name : string) : P SentryIfPartExpression :=
  advance ;; advance ;;
  args ← parse_arguments;
  let '(object, method) := split_method_call_identifier name in
  mret (MethodCall object method args).

Definition parse_operand : P SentryIfPartExpression :=
  t ← advance;
  match t with
  | Some (TLiteral lit) => mret (Literal lit)
  | Some (TIdentifier name) => mret (Literal (LVariable name))
  | _ => reject "expected literal or identifier"
  end.

Definition parse_primary_base : P SentryIfPartExpression :=
  paren ← consume TLeftParen;
  if paren : bool then
    e ← expression;
    expect TRightParen "parentheses must be balanced in supported ifPart expressions" ;;
    mret e
  else
  is_empty ← next_identifier_is_empty_function;
  if is_empty : bool then parse_empty_function else
  is_contains ← next_identifier_is_contains_function;
  if is_contains : bool then parse_contains_function_comparison else
  is_starts_with ← next_identifier_is_starts_with_function;
  if is_starts_with : bool then parse_starts_with_function else
  is_ends_with ← next_identifier_is_ends_with_function;
  if is_ends_with : bool then parse_ends_with_function else
  is_matches ← next_identifier_is_matches_function;
  if is_matches : bool then parse_matches_function else
  is_sizing ← next_identifier_is_sizing_function;
  if is_sizing : bool then parse_sizing_function else
  t ← peek; n ← peek_next;
  match t, n with
  | Some (TIdentifier name), Some TLeftParen => parse_call name
  | _, _ => parse_operand
  end.

(** The loop of [parse_primary]: indexing, properties and methods. *)
Fixpoint postfix_loop (n : nat) (expr : SentryIfPartExpression) : P SentryIfPartExpression :=
  match n with
  | 0 => throw Exhausted
  | S n =>
      bracket ← consume TLeftBracket;
      if bracket : bool then
        index ← expression;
        expect TRightBracket "expected `]` after index expression" ;;
        postfix_loop n (IndexAccess expr index)
      else
        dot ← consume TDot;
        if dot : bool then
          t ← advance;
          match t with
          | Some (TIdentifier property) =>
              t ← peek;
              if bool_decide (t = Some TLeftParen) then
                object_str ← lift (expression_to_string expr);
                advance ;;
                args ← parse_arguments;
                postfix_loop n (MethodCall (Some object_str) property args)
              else postfix_loop n (PropertyAccess expr property)
          | _ => reject "expected identifier after `.`"
          end
        else mret expr
  end.

Definition parse_primary : P SentryIfPartExpression :=
  e ← parse_primary_base; postfix_loop turns e.

Definition parse_not_operand (unary : P SentryIfPartExpression) : P SentryIfPartExpression :=
  wrapped ← next_tokens_are_parenthesized_variable_path;
  if wrapped : bool then parse_parenthesized_boolean_variable_path
  else e ← unary; mret (ensure_boolean_context e).

Fixpoint parse_unary (n : nat) : P SentryIfPartExpression :=
  match n with
  | 0 => throw Exhausted
  | S n =>
      negated ← consume TNot;
      if negated : bool then operand ← parse_not_operand (parse_unary n); mret (Not operand)
      else parse_primary
  end.

(** The loops of [parse_multiplicative] and [parse_additive], which differ in
    the operators and in the operand. *)
Fixpoint arithmetic_loop (operator_of : option IfPartToken -> option string)
  (operand : P SentryIfPartExpression) (n : nat) (lhs : SentryIfPartExpression)
  : P SentryIfPartExpression :=
  match n with
  | 0 => throw Exhausted
  | S n =>
      t ← peek;
      match operator_of t with
      | Some op =>
          advance ;;
          rhs ← operand;
          arithmetic_loop operator_of operand n (Arithmetic lhs op rhs)
      | None => mret lhs
      end
  end.

Definition parse_multiplicative : P SentryIfPartExpression :=
  lhs ← parse_unary turns; arithmetic_loop multiplicative_operator (parse_unary turns) turns lhs.

Definition parse_additive : P SentryIfPartExpression :=
  lhs ← parse_multiplicative; arithmetic_loop additive_operator parse_multiplicative turns lhs.

Definition parse_comparison : P SentryIfPartExpression :=
  lhs ← parse_additive;
  op ← peek_comparison_operator;
  match op with
  | None => mret lhs
  | Some op =>
      advance ;;
      rhs ← parse_additive;
      var_name ← lift (expression_to_string lhs);
      lit ← lift (expression_to_literal rhs);
      if bool_decide (lit = LNull) && negb (is_equality op)
      then reject "null literal supports only `==` and `!=` comparisons"
      else mret (Comparison (mkCondition var_name op lit))
  end.

(** [while self.consume(sep) { operands.push(ensure_boolean_context(..)) }]. *)
Fixpoint operands_loop (separator : IfPartToken) (operand : P SentryIfPartExpression) (n : nat)
  (operands : list SentryIfPartExpression) : P (list SentryIfPartExpression) :=
  match n with
  | 0 => throw Exhausted
  | S n =>
      more ← consume separator;
      if more : bool then
        e ← operand; operands_loop separator operand n (operands ++ [ensure_boolean_context e])
      else mret operands
  end.

Definition parse_and : P SentryIfPartExpression :=
  first ← parse_comparison;
  t ← peek;
  if bool_decide (t = Some TAnd) then
    operands ← operands_loop TAnd parse_comparison turns [ensure_boolean_context first];
    mret (logical_expression And operands)
  else mret first.

Definition parse_or : P SentryIfPartExpression :=
  first ← parse_and;
  t ← peek;
  if bool_decide (t = Some TOr) then
    operands ← operands_loop TOr parse_and turns [ensure_boolean_context first];
    mret (logical_expression Or operands)
  else mret first.

Fixpoint parse_ternary (n : nat) : P SentryIfPartExpression :=
  match n with
  | 0 => throw Exhausted
  | S n =>
      condition ← parse_or;
      question ← consume TQuestion;
      if question : bool then
        true_expr ← expression;
        expect TColon "ternary expression missing `:`" ;;
        false_expr ← parse_ternary n;
        mret (Ternary (ensure_boolean_context condition) true_expr false_expr)
      else mret condition
  end.
End Productions.

Definition MAX_IF_PART_NESTING_DEPTH : nat := 64.

(** [levels] is [MAX_IF_PART_NESTING_DEPTH - depth]. *)
Fixpoint parse_expression (turns levels : nat) : P SentryIfPartExpression :=
  match levels with
  | 0 => reject "expression nesting exceeds maximum depth of 64"
  | S levels => parse_ternary turns (parse_expression turns levels) turns
  end.

(** ** The entry points *)
Definition strip_suffix_byte (b : ascii) (s : string) : option string :=
  match rev (bytes s) with
  | a :: r => if is_byte a b then Some (text (rev r)) else None
  | [] => None
  end.

(** Without the braces of [${...}], when both are there. *)
Definition unwrap_expression (expression : string) : string :=
  let expression := trim expression in
  trim match bytes expression with
       | a :: b :: r =>
           if is_byte a "$" && is_byte b "{" then unwrap_or expression (strip_suffix_byte "}" (text r))
           else expression
       | _ => expression
       end.

Definition parse_tokens (tokens : list IfPartToken) : result ParseStop SentryIfPartExpression * list IfPartToken :=
  parse_expression (S (length tokens)) MAX_IF_PART_NESTING_DEPTH tokens.

Definition parse_sentry_value_expression (expression : string) : result ParseStop SentryIfPartExpression :=
  tokens ← tokenize_if_part_expression (unwrap_expression expression);
  match parse_tokens tokens with
  | (Ok parsed, []) => Ok parsed
  | (Ok _, _ :: _) => Err (Rejected "unexpected trailing tokens in expression")
  | (Err stop, _) => Err stop
  end.

Definition parse_supported_if_part_expression (expression : string) : result ParseStop SentryIfPartExpression :=
  tokens ← tokenize_if_part_expression expression;
  match parse_tokens tokens with
  | (Ok parsed, []) => Ok (ensure_boolean_context parsed)
  | (Ok _, _ :: _) => Err (Rejected "unexpected trailing tokens in ifPart expression")
  | (Err stop, _) => Err stop
  end.

Definition parse_sentry_if_part_expression (expression : string) : result ParseStop SentryIfPartExpression :=
  let expression := unwrap_expression expression in
  match parse_supported_if_part_expression expression with
  | Err (Rejected message) =>
      Err (Rejected ("Unsupported CMMN ifPart condition '" +:+ expression +:+ "': " +:+ message))
  | r => r
  end.
