(* ===== verification/CmmnCondition.v ===== *)
(** * CMMN conditions: evaluation

    Models the evaluator of [ifPart] conditions in
    [flowable-cmmn-engine/src/runtime.rs] (from [evaluate_if_part_condition] to
    [if_part_number_compare]) with the engine's own expression tree and its
    conversion from the parsed one ([models.rs]).

    An operand of a comparison is kept in the tree as text.  It is a variable
    path, or, when the path leads nowhere, it is parsed again as an
    expression and evaluated from depth 0.  The two evaluators therefore run on
    fuel.  Parameters: the text [serde_json] prints for a value
    ([Display]), its reading of a number ([NumberReader]) and regular
    expressions ([Regex]). *)
From Stdlib Require Import Ascii.
From S2P Require Import Prelude Chars Float64 Numerals Json ElValues CmmnTokens CmmnParser.

(** ** Errors *)
Inductive CmmnError : Type :=
| Validation (message : string)
| UnsupportedModel (feature message : string)
| NotFound (message : string)
| Execution (message : string)
| Conflict (message : string)
| Storage (message : string)
| NonUniqueResult (query : string) (count : Z).

(** What stops an evaluation: an error, or the fuel. *)
Inductive EvalStop : Type :=
| Raised (e : CmmnError)
| OutOfFuel.

(** [str::parse::<serde_json::Number>]. *)
Class NumberReader := { number_from_str : string -> option Number }.

(** [regex::Regex::new]: what the pattern matches, or why it is not one. *)
Class Patterns := { regex_new : string -> result string (string -> bool) }.

(** ** The engine's tree

    The operators and literals of the engine are copies of the parser's. *)
Inductive CmmnSentryIfPartExpression : Type :=
| CComparison (condition : SentryIfPartCondition)
| CLogical (operator : SentryIfPartLogicalOperator) (operands : list CmmnSentryIfPartExpression)
| CNot (operand : CmmnSentryIfPartExpression)
| CEmpty (variable_name : string)
| CContains (collection_variable_name : string) (value : SentryIfPartLiteral) (expected : bool)
| CStartsWith (variable_name prefix : string)
| CEndsWith (variable_name suffix : string)
| CMatches (variable_name regex : string)
| CSize (collection_variable_name : string) (operator : SentryIfPartOperator)
    (literal : SentryIfPartLiteral)
| CLength (variable_name : string) (operator : SentryIfPartOperator) (literal : SentryIfPartLiteral)
| CMethodCall (object : option string) (method : string) (args : list CmmnSentryIfPartExpression)
| CArithmetic (left : CmmnSentryIfPartExpression) (operator : string)
    (right : CmmnSentryIfPartExpression)
| CTernary (condition true_expr false_expr : CmmnSentryIfPartExpression)
| CPropertyAccess (object : CmmnSentryIfPartExpression) (property : string)
| CIndexAccess (object index : CmmnSentryIfPartExpression)
| CLiteral (lit : SentryIfPartLiteral).

(** [s.strip_prefix(prefix).and_then(|s| s.strip_suffix(')'))]. *)
Definition strip_call (prefix s : string) : option string :=
  r ← strip_prefix prefix s; strip_suffix_byte ")" r.

Definition from_condition (c : SentryIfPartCondition) : CmmnSentryIfPartExpression :=
  match strip_call "size(" (variable_name c) with
  | Some stripped => CSize stripped (operator c) (literal c)
  | None =>
      match strip_call "length(" (variable_name c) with
      | Some stripped => CLength stripped (operator c) (literal c)
      | None => CComparison c
      end
  end.

(** [CmmnSentryIfPartExpression::from]. *)
Fixpoint from_expression (e : SentryIfPartExpression) : CmmnSentryIfPartExpression :=
  match e with
  | Comparison c => from_condition c
  | Logical op operands => CLogical op (map from_expression operands)
  | Not operand => CNot (from_expression operand)
  | Empty name => CEmpty name
  | Contains name value expected => CContains name value expected
  | StartsWith name prefix => CStartsWith name prefix
  | EndsWith name suffix => CEndsWith name suffix
  | Matches name regex => CMatches name regex
  | MethodCall object method args => CMethodCall object method (map from_expression args)
  | Arithmetic lhs op rhs => CArithmetic (from_expression lhs) op (from_expression rhs)
  | Ternary c t f => CTernary (from_expression c) (from_expression t) (from_expression f)
  | PropertyAccess object property => CPropertyAccess (from_expression object) property
  | IndexAccess object index => CIndexAccess (from_expression object) (from_expression index)
  | Literal lit => CLiteral lit
  end.

(** [CmmnSentryIfPartExpression::parse]. *)
Definition parse_condition (expression : string) : result ParseStop CmmnSentryIfPartExpression :=
  from_expression <$> parse_sentry_if_part_expression expression.

(** ** Paths *)

(** [items.get(index)] and [value.get(index)] for an index of [usize]. *)
Definition index_get {A} (items : list A) (index : Z) : option A :=
  if (index <? Z.of_nat (length items))%Z then items !! Z.to_nat index else None.

Definition value_index (index : Z) (v : Value) : option Value :=
  match v with VArray items => index_get items index | _ => None end.

(** The loop of [resolve_if_part_variable_path] at [current]. *)
Fixpoint resolve_tail (fuel : nat) (current : Value) (l : list ascii) : option Value :=
  match l with
  | [] => Some current
  | b :: l' =>
      match fuel with
      | 0 => None
      | S fuel =>
          if is_byte b "." then
            match l' with
            | c :: r =>
                if is_identifier_start_byte c then
                  let '(name, r) := span is_identifier_byte r in
                  next ← value_get (text (c :: name)) current;
                  resolve_tail fuel next r
                else None
            | [] => None
            end
          else if is_byte b "[" then
            match l' with
            | c :: r =>
                if is_digit c then
                  match span is_digit l' with
                  | (digits, d :: r) =>
                      if is_byte d "]" then
                        array_index ← parse_u64 (text digits);
                        next ← value_index array_index current;
                        resolve_tail fuel next r
                      else None
                  | _ => None
                  end
                else if is_quote c then
                  '(key, r) ← quoted_key c r;
                  next ← value_get (text key) current;
                  resolve_tail fuel next r
                else None
            | [] => None
            end
          else None
      end
  end.

Definition resolve_if_part_variable_path (variables : list (string * Value)) (name : string)
  : option Value :=
  match bytes name with
  | [] => None
  | first :: l =>
      if is_identifier_start_byte first then
        let '(root, r) := span is_identifier_byte l in
        current ← map_get (text (first :: root)) variables;
        resolve_tail (length r) current r
      else None
  end.

(** ** Values *)
Definition is_truthy (v : Value) : bool :=
  match v with
  | VNull => false
  | VBool b => b
  | VNumber n =>
      negb (f64_eqb (number_as_f64 n) f64_zero)
      || match as_i64 v with Some i => negb (i =? 0)%Z | None => false end
  | VString s => negb (bool_decide (s = ""))
  | VArray l => match l with [] => false | _ => true end
  | VObject m => match m with [] => false | _ => true end
  end.

Definition if_part_size (v : Value) : option Z :=
  match v with
  | VString s => Some (Z.of_nat (length (chars s)))
  | VArray l => Some (Z.of_nat (length l))
  | VObject m => Some (Z.of_nat (length m))
  | VNull | VBool _ | VNumber _ => None
  end.

Definition if_part_length (v : Value) : option Z := if_part_size v.

Definition if_part_variable_is_empty (actual : option Value) : bool :=
  match actual with
  | None | Some VNull => true
  | Some (VString s) => bool_decide (s = "")
  | Some (VArray l) => match l with [] => true | _ => false end
  | Some (VObject m) => match m with [] => true | _ => false end
  | Some (VNumber _) | Some (VBool _) => false
  end.

Definition if_part_contains (collection value : option Value) : bool :=
  match collection, value with
  | Some (VString source), Some (VString needle) => str_contains source needle
  | Some (VArray items), Some needle => value_contains items needle
  | Some (VObject object), Some (VString key) =>
      match map_get key object with Some _ => true | None => false end
  | _, _ => false
  end.

Definition compare_numbers (actual : Z) (operator : SentryIfPartOperator) (expected : Z) : bool :=
  match operator with
  | Equal => actual =? expected
  | NotEqual => negb (actual =? expected)
  | GreaterThan => expected <? actual
  | GreaterThanOrEqual => expected <=? actual
  | LessThan => actual <? expected
  | LessThanOrEqual => actual <=? expected
  end%Z.

Inductive IfPartComparableValue : Type :=
| ANull
| ABoolean (b : bool)
| AString (s : string)
| ANumber (f : f64).

(** The derived [PartialEq]. *)
Definition comparable_eqb (a b : IfPartComparableValue) : bool :=
  match a, b with
  | ANull, ANull => true
  | ABoolean x, ABoolean y => Bool.eqb x y
  | AString x, AString y => bool_decide (x = y)
  | ANumber x, ANumber y => f64_eqb x y
  | _, _ => false
  end.

Definition option_eqb (a b : option IfPartComparableValue) : bool :=
  match a, b with
  | Some a, Some b => comparable_eqb a b
  | None, None => true
  | _, _ => false
  end.

Definition json_value_to_if_part_comparable (v : option Value) : option IfPartComparableValue :=
  match v with
  | None | Some VNull => Some ANull
  | Some (VBool b) => Some (ABoolean b)
  | Some (VString s) => Some (AString s)
  | Some (VNumber n) => Some (ANumber (number_as_f64 n))
  | Some (VArray _) | Some (VObject _) => None
  end.

Definition if_part_number_compare (actual expected : option IfPartComparableValue) : option Z :=
  match actual, expected with
  | Some (ANumber a), Some (ANumber e) =>
      Some (if f64_ltb a e then (-1)%Z else if f64_ltb e a then 1%Z else 0%Z)
  | _, _ => None
  end.

Definition ordering_is (p : Z -> bool) (o : option Z) : bool :=
  match o with Some ordering => p ordering | None => false end.

Definition comparison_holds (operator : SentryIfPartOperator)
  (actual expected : option IfPartComparableValue) : bool :=
  let ordering := if_part_number_compare actual expected in
  match operator with
  | Equal => option_eqb actual expected
  | NotEqual => negb (option_eqb actual expected)
  | GreaterThan => ordering_is (fun o => 0 <? o)%Z ordering
  | GreaterThanOrEqual => ordering_is (fun o => 0 <=? o)%Z ordering
  | LessThan => ordering_is (fun o => o <? 0)%Z ordering
  | LessThanOrEqual => ordering_is (fun o => o <=? 0)%Z ordering
  end.

(** [for operand in operands { if !eval(operand)? { return Ok(false) } }]. *)
Fixpoint all_operands {A} (eval : A -> result EvalStop bool) (operands : list A) : result EvalStop bool :=
  match operands with
  | [] => Ok true
  | operand :: r => b ← eval operand; if b : bool then all_operands eval r else Ok false
  end.

Fixpoint any_operand {A} (eval : A -> result EvalStop bool) (operands : list A) : result EvalStop bool :=
  match operands with
  | [] => Ok false
  | operand :: r => b ← eval operand; if b : bool then Ok true else any_operand eval r
  end.

Definition MAX_IF_PART_EVAL_DEPTH : nat := 64.

Definition depth_exceeded {A} : result EvalStop A :=
  Err (Raised (Execution "ifPart expression evaluation exceeds maximum depth of 64")).

(** ** Resolution and evaluation *)
Section Evaluation.
Context `{Display} `{NumberReader} `{Patterns} (variables : list (string * Value)).

Definition path (name : string) : option Value := resolve_if_part_variable_path variables name.

Definition resolve_if_part_literal_number (l : SentryIfPartLiteral) : Z :=
  match l with
  | LNumber value => unwrap_or 0%Z (parse_i64 value)
  | LVariable name => unwrap_or 0%Z (v ← path name; as_i64 v)
  | _ => 0%Z
  end.

Definition resolve_if_part_literal_value (l : SentryIfPartLiteral) : option Value :=
  match l with
  | LBoolean b => Some (VBool b)
  | LString s => Some (VString s)
  | LNumber value => VNumber <$> number_from_str value
  | LNull => Some VNull
  | LVariable name => path name
  end.

Definition json_value_to_string_operand (v : Value) : string :=
  match v with
  | VNull => ""
  | VBool b => bool_to_string b
  | VString s => s
  | VNumber _ | VArray _ | VObject _ => value_to_string v
  end.

Definition is_string (v : Value) : bool := match v with VString _ => true | _ => false end.

Definition arithmetic_value (op : string) (l r : Value) : Value :=
  if bool_decide (op = "+") && (is_string l || is_string r)
  then VString (json_value_to_string_operand l +:+ json_value_to_string_operand r)
  else
    let l_num := unwrap_or f64_zero (as_f64 l) in
    let r_num := unwrap_or f64_zero (as_f64 r) in
    let divisible := negb (f64_eqb r_num f64_zero) in
    let value :=
      if bool_decide (op = "+") then f64_add l_num r_num
      else if bool_decide (op = "-") then f64_sub l_num r_num
      else if bool_decide (op = "*") then f64_mul l_num r_num
      else if bool_decide (op = "/") && divisible then f64_div l_num r_num
      else if bool_decide (op = "%") && divisible then f64_rem l_num r_num
      else f64_zero in
    VNumber (unwrap_or (PosInt 0) (number_from_f64 value)).

Definition index_value (object index : Value) : Value :=
  match index with
  | VNumber (PosInt i) => unwrap_or VNull (value_index i object)
  | VString key => unwrap_or VNull (value_get key object)
  | _ => VNull
  end.

Section Operands.
(** [resolve_if_part_value_expression]. *)
Context (value_expression : string -> result EvalStop Value).

Definition resolve_if_part_path_or_value_expression (expression : string)
  : result EvalStop (option Value) :=
  match path expression with
  | Some v => Ok (Some v)
  | None => v ← value_expression expression; Ok (Some v)
  end.

Definition resolve_if_part_literal_value_expression (l : SentryIfPartLiteral)
  : result EvalStop (option Value) :=
  match l with
  | LVariable expression => v ← value_expression expression; Ok (Some v)
  | _ => Ok None
  end.

(** [size(...)] or [length(...)] of an operand. *)
Definition sized_operand (size : Value -> option Z) (name : string)
  : result EvalStop (option IfPartComparableValue) :=
  v ← resolve_if_part_path_or_value_expression name;
  Ok ((fun n => ANumber (f64_of_Z n)) <$> (v ← v; size v)).

Definition comparable_operand (name : string) : result EvalStop (option IfPartComparableValue) :=
  match path name with
  | Some v => Ok (json_value_to_if_part_comparable (Some v))
  | None => v ← value_expression name; Ok (json_value_to_if_part_comparable (Some v))
  end.

Definition resolve_if_part_comparison_operand (operand : string)
  : result EvalStop (option IfPartComparableValue) :=
  match strip_call "size(" operand with
  | Some name => sized_operand if_part_size name
  | None =>
      match strip_call "length(" operand with
      | Some name => sized_operand if_part_length name
      | None => comparable_operand operand
      end
  end.

Definition resolve_if_part_literal (l : SentryIfPartLiteral)
  : result EvalStop (option IfPartComparableValue) :=
  match l with
  | LBoolean b => Ok (Some (ABoolean b))
  | LString s => Ok (Some (AString s))
  | LNumber value => Ok (ANumber <$> f64_from_str value)
  | LNull => Ok (Some ANull)
  | LVariable name => comparable_operand name
  end.

Definition evaluate_if_part_comparison (c : SentryIfPartCondition) : result EvalStop bool :=
  actual ← resolve_if_part_comparison_operand (variable_name c);
  expected ← resolve_if_part_literal (literal c);
  Ok (comparison_holds (operator c) actual expected).

Definition evaluate_contains (collection_name : string) (value : SentryIfPartLiteral)
  (expected : bool) : result EvalStop bool :=
  collection ← resolve_if_part_path_or_value_expression collection_name;
  value ← match resolve_if_part_literal_value value with
          | Some l => Ok (Some l)
          | None => resolve_if_part_literal_value_expression value
          end;
  Ok (Bool.eqb (if_part_contains collection value) expected).

Definition evaluate_sized (size : Value -> option Z) (name : string)
  (operator : SentryIfPartOperator) (l : SentryIfPartLiteral) : result EvalStop bool :=
  value ← resolve_if_part_path_or_value_expression name;
  let n := unwrap_or 0%Z (v ← value; size v) in
  Ok (compare_numbers n operator (resolve_if_part_literal_number l)).

(** A method: the size, or the property of that name. *)
Definition evaluate_method_call (object : option string) (method : string) : result EvalStop Value :=
  if bool_decide (method = "size") || bool_decide (method = "length") then
    n ← match object with
        | Some obj =>
            v ← resolve_if_part_path_or_value_expression obj;
            Ok (unwrap_or 0%Z (v ← v; if_part_size v))
        | None => Ok 0%Z
        end;
    Ok (VNumber (PosInt n))
  else
    let property := match object with Some obj => obj +:+ "." +:+ method | None => method end in
    Ok match path property with
       | Some v => v
       | None => unwrap_or VNull (obj ← object; v ← path obj; value_get method v)
       end.
End Operands.

(** A test of the text a path leads to. *)
Definition text_test (name : string) (test : string -> bool) : bool :=
  match path name with Some (VString s) => test s | _ => false end.

(** Parse an operand again and evaluate it. *)
Definition reparse (eval : CmmnSentryIfPartExpression -> result EvalStop Value) (expression : string)
  : result EvalStop Value :=
  match parse_sentry_value_expression expression with
  | Ok parsed => eval (from_expression parsed)
  | Err (Rejected message) => Err (Raised (Execution message))
  | Err Exhausted => Err OutOfFuel
  end.

(** The two [match]es, over the evaluators at the next depth and the operand's
    second evaluation. *)
Section Nodes.
Context (eval_bool : CmmnSentryIfPartExpression -> result EvalStop bool)
  (eval_value : CmmnSentryIfPartExpression -> result EvalStop Value)
  (value_expression : string -> result EvalStop Value).

Definition bool_node (e : CmmnSentryIfPartExpression) : result EvalStop bool :=
  match e with
  | CComparison c => evaluate_if_part_comparison value_expression c
  | CLogical And operands => all_operands eval_bool operands
  | CLogical Or operands => any_operand eval_bool operands
  | CNot operand => b ← eval_bool operand; Ok (negb b)
  | CEmpty name => Ok (if_part_variable_is_empty (path name))
  | CContains name value expected => evaluate_contains value_expression name value expected
  | CStartsWith name prefix => Ok (text_test name (fun s => starts_with prefix s))
  | CEndsWith name suffix => Ok (text_test name (fun s => str_ends_with s suffix))
  | CMatches name regex =>
      Ok (text_test name (fun s => match regex_new regex with Ok re => re s | Err _ => false end))
  | CSize name op l => evaluate_sized value_expression if_part_size name op l
  | CLength name op l => evaluate_sized value_expression if_part_length name op l
  | CMethodCall _ _ _ | CArithmetic _ _ _ | CTernary _ _ _ | CPropertyAccess _ _
  | CIndexAccess _ _ | CLiteral _ => v ← eval_value e; Ok (is_truthy v)
  end.

Definition value_node (e : CmmnSentryIfPartExpression) : result EvalStop Value :=
  match e with
  | CComparison _ | CLogical _ _ | CNot _ | CEmpty _ | CContains _ _ _ | CStartsWith _ _
  | CEndsWith _ _ | CMatches _ _ | CSize _ _ _ | CLength _ _ _ =>
      b ← eval_bool e; Ok (VBool b)
  | CLiteral lit => Ok (unwrap_or VNull (resolve_if_part_literal_value lit))
  | CMethodCall object method _ => evaluate_method_call value_expression object method
  | CArithmetic lhs op rhs =>
      l ← eval_value lhs; r ← eval_value rhs; Ok (arithmetic_value op l r)
  | CTernary condition true_expr false_expr =>
      cond ← eval_bool condition;
      if cond : bool then eval_value true_expr else eval_value false_expr
  | CPropertyAccess object property =>
      obj ← eval_value object; Ok (unwrap_or VNull (value_get property obj))
  | CIndexAccess object index =>
      obj ← eval_value object; idx ← eval_value index; Ok (index_value obj idx)
  end.
End Nodes.

Fixpoint evaluate_to_bool_depth (fuel : nat) (e : CmmnSentryIfPartExpression) (depth : nat)
  {struct fuel} : result EvalStop bool :=
  match fuel with
  | 0 => Err OutOfFuel
  | S fuel =>
      if MAX_IF_PART_EVAL_DEPTH <=? depth then depth_exceeded
      else bool_node (fun e => evaluate_to_bool_depth fuel e (S depth))
             (fun e => evaluate_to_json_value_depth fuel e (S depth))
             (reparse (fun parsed => evaluate_to_json_value_depth fuel parsed 0)) e
  end
with evaluate_to_json_value_depth (fuel : nat) (e : CmmnSentryIfPartExpression) (depth : nat)
  {struct fuel} : result EvalStop Value :=
  match fuel with
  | 0 => Err OutOfFuel
  | S fuel =>
      if MAX_IF_PART_EVAL_DEPTH <=? depth then depth_exceeded
      else value_node (fun e => evaluate_to_bool_depth fuel e (S depth))
             (fun e => evaluate_to_json_value_depth fuel e (S depth))
             (reparse (fun parsed => evaluate_to_json_value_depth fuel parsed 0)) e
  end.

Definition evaluate_to_bool (fuel : nat) (e : CmmnSentryIfPartExpression) : result EvalStop bool :=
  evaluate_to_bool_depth fuel e 0.

Definition evaluate_to_json_value (fuel : nat) (e : CmmnSentryIfPartExpression) : result EvalStop Value :=
  evaluate_to_json_value_depth fuel e 0.

(** [resolve_if_part_value_expression]. *)
Definition resolve_if_part_value_expression (fuel : nat) (expression : string) : result EvalStop Value :=
  reparse (evaluate_to_json_value fuel) expression.
End Evaluation.
