(* ===== verification/CmmnParserProof.v ===== *)
(** * CMMN conditions: the tokenizer and the parser are total

    The source reads a variable path in three places: the check
    [is_supported_if_part_variable_name], the tokenizer's
    [read_if_part_variable_reference] and the lookup
    [resolve_if_part_variable_path]; they agree.  A parser is judged by what
    it consumes: [runs n m k] says that on at most [n] tokens [m] never runs
    out of fuel and that a result [a] has consumed at least [k a] tokens. *)
From Stdlib Require Import Ascii.
From S2P Require Import Prelude Chars Numerals Json CmmnTokens CmmnParser CmmnCondition.

(** ** Spans *)
Lemma span_app {A} (p : A -> bool) l k r : span p l = (k, r) -> l = k ++ r.
Proof.
  revert k r. induction l as [|a l IH]; intros k r; simpl.
  - intros [= <- <-]. done.
  - destruct (p a).
    + destruct (span p l) as [k' r']. intros [= <- <-]. simpl. f_equal. by apply IH.
    + intros [= <- <-]. done.
Qed.

Lemma span_length {A} (p : A -> bool) l k r : span p l = (k, r) -> length r <= length l.
Proof. intros ->%span_app. rewrite length_app. lia. Qed.

Lemma span_snd_length {A} (p : A -> bool) l : length (snd (span p l)) <= length l.
Proof. destruct (span p l) as [k r] eqn:E. by apply span_length in E. Qed.

Lemma span_all {A} (p : A -> bool) l : forallb p l = true -> span p l = (l, []).
Proof.
  induction l as [|a l IH]; simpl; [done|]. intros [-> Hl]%andb_true_iff. by rewrite IH.
Qed.

Lemma quoted_key_inv q l key r :
  quoted_key q l = Some (key, r) ->
  span_key q l = (key, q :: "]"%char :: r) /\ key ≠ [] /\ l = key ++ q :: "]"%char :: r.
Proof.
  unfold quoted_key. destruct (span_key q l) as [k [|a [|b r']]] eqn:E; try (by destruct k).
  destruct k as [|x k]; [done|].
  destruct (is_byte a q && is_byte b "]") eqn:Hq; [|done].
  intros [= <- <-]. apply andb_true_iff in Hq as [->%Ascii.eqb_eq ->%Ascii.eqb_eq].
  split_and!; [done..|]. by apply span_app in E.
Qed.

(** ** Totality *)
Lemma read_quoted_length q l value r :
  read_quoted_if_part_string q l = Ok (value, r) -> length r <= length l.
Proof.
  revert value. induction l as [|b l IH]; intros value; simpl; [done|].
  destruct (is_byte b backslash); [done|]. destruct (is_byte b q).
  - intros [= <- <-]. lia.
  - destruct (read_quoted_if_part_string q l) as [[v r']|e] eqn:E; simpl; [|done].
    intros [= <- <-]. specialize (IH _ eq_refl). lia.
Qed.

Lemma reference_tail_length fuel l k r : reference_tail fuel l = (k, r) -> length r <= length l.
Proof.
  revert l k r. induction fuel as [|fuel IH]; intros l k r; [by intros [= <- <-]|].
  destruct l as [|b [|c l]]; [by intros [= <- <-]..|]. cbn [reference_tail].
  destruct (is_byte b "." && is_identifier_start_byte c).
  { destruct (span is_identifier_byte l) as [name r1] eqn:E1.
    destruct (reference_tail fuel r1) as [more r2] eqn:E2. intros [= <- <-].
    apply span_length in E1. apply IH in E2. simpl. lia. }
  destruct (is_byte b "[" && is_digit c).
  { destruct (span is_digit l) as [ds r1] eqn:E1. apply span_length in E1.
    destruct r1 as [|d r1]; [intros [= <- <-]; simpl; lia|].
    destruct (is_byte d "]"); [|intros [= <- <-]; simpl in *; lia].
    destruct (reference_tail fuel r1) as [more r2] eqn:E2. intros [= <- <-].
    apply IH in E2. simpl in *. lia. }
  destruct (is_byte b "[" && is_quote c); [|by intros [= <- <-]].
  destruct (span_key c l) as [key r1] eqn:E1. apply span_length in E1.
  destruct key as [|x key]; [intros [= <- <-]; simpl in *; lia|].
  destruct r1 as [|q [|d r1]]; [intros [= <- <-]; simpl in *; lia..|].
  destruct (is_byte q c && is_byte d "]"); [|intros [= <- <-]; simpl in *; lia].
  destruct (reference_tail fuel r1) as [more r2] eqn:E2. intros [= <- <-].
  apply IH in E2. simpl in *. lia.
Qed.

Lemma read_number_length l value r :
  read_if_part_number l = Ok (value, r) -> length r <= length l - 1.
Proof.
  unfold read_if_part_number.
  set (sl := match l with b :: r => if is_byte b "-" then ([b], r) else ([], l) | [] => ([], l) end).
  assert (Hsl : length (snd sl) <= length l).
  { subst sl. destruct l as [|b l]; simpl; [lia|]. destruct (is_byte b "-"); simpl; lia. }
  destruct sl as [sign r0]; simpl in Hsl.
  destruct (span is_digit r0) as [ds r1] eqn:E1. destruct ds as [|d ds]; [done|].
  apply span_app in E1. apply (f_equal length) in E1. rewrite length_app in E1. simpl in E1.
  assert (forall v r', (if is_supported_number_literal v then Ok (v, r') else
      Err (Rejected "right side must be a boolean, quoted string, or number literal")) = Ok (value, r)
      -> r' = r) as Hfin by (intros v r'; destruct (is_supported_number_literal v); by intros [= -> ->]).
  destruct r1 as [|b r1]; simpl; [intros <-%Hfin; simpl in *; lia|].
  destruct (is_byte b "."); simpl; [|intros <-%Hfin; simpl in *; lia].
  destruct (span is_digit r1) as [fs r2] eqn:E2. apply span_length in E2.
  destruct fs as [|f fs]; [done|]. simpl. intros <-%Hfin. simpl in *. lia.
Qed.

Lemma read_quoted_stop q l stop : read_quoted_if_part_string q l = Err stop -> stop ≠ Exhausted.
Proof.
  induction l as [|b l IH]; simpl; [by intros [= <-]|].
  destruct (is_byte b backslash); [by intros [= <-]|]. destruct (is_byte b q); [done|].
  destruct (read_quoted_if_part_string q l) as [[v r']|e]; simpl; [done|]. intros [= <-]. by apply IH.
Qed.

Lemma read_number_stop l stop : read_if_part_number l = Err stop -> stop ≠ Exhausted.
Proof.
  unfold read_if_part_number. destruct (match l with [] => _ | _ => _ end) as [sign r0].
  destruct (span is_digit r0) as [[|d ds] r1]; [by intros [= <-]|].
  assert (forall v r', (if is_supported_number_literal v then Ok (v, r') else
      Err (Rejected "right side must be a boolean, quoted string, or number literal"))
      = Err (A:=string * list ascii) stop -> stop ≠ Exhausted) as Hfin
    by (intros v r'; destruct (is_supported_number_literal v); by intros [= <-]).
  destruct r1 as [|b r1]; [apply Hfin|]. destruct (is_byte b "."); [|apply Hfin].
  destruct (span is_digit r1) as [[|f fs] r2]; [by intros [= <-]|apply Hfin].
Qed.

Lemma read_token_outcome ts b l :
  match read_token ts b l with
  | Ok (_, r) => length r <= length l
  | Err stop => stop ≠ Exhausted
  end.
Proof.
  assert (Hnum : forall l, match read_if_part_number (b :: l) with
                           | Ok (_, r) => length r <= length l
                           | Err stop => stop ≠ Exhausted end).
  { intros l'. destruct (read_if_part_number (b :: l')) as [[v r]|e] eqn:E.
    - apply read_number_length in E. simpl in E. lia.
    - by apply read_number_stop in E. }
  unfold read_token.
  destruct (is_ascii_whitespace b); [simpl; lia|]. destruct (single_token b); [simpl; lia|].
  destruct (double_token b) as [[[second long] short]|].
  { destruct l as [|c l]; [by destruct short|]. destruct (is_byte c second); [simpl; lia|].
    destruct short; [simpl; lia|done]. }
  destruct (is_byte b "-").
  { destruct (match l with [] => false | d :: _ => is_digit d && negb (after_operand ts) end).
    - specialize (Hnum l). by destruct (read_if_part_number (b :: l)) as [[v r]|e].
    - simpl; lia. }
  destruct (is_quote b).
  { destruct (read_quoted_if_part_string b l) as [[v r]|e] eqn:E; simpl.
    - by apply read_quoted_length in E.
    - by apply read_quoted_stop in E. }
  destruct (is_digit b).
  { specialize (Hnum l). by destruct (read_if_part_number (b :: l)) as [[v r]|e]. }
  destruct (is_identifier_start_byte b); [|done].
  unfold read_if_part_variable_reference.
  destruct (span is_identifier_byte l) as [name r1] eqn:E1.
  destruct (reference_tail (length r1) r1) as [more r2] eqn:E2.
  apply span_length in E1. apply reference_tail_length in E2. lia.
Qed.

Lemma tokenize_loop_total fuel l ts :
  length l <= fuel -> tokenize_loop fuel l ts ≠ Err Exhausted.
Proof.
  revert l ts. induction fuel as [|fuel IH]; intros [|b l] ts Hl; simpl in *; [done|lia|done|].
  pose proof (read_token_outcome ts b l) as Ho.
  destruct (read_token ts b l) as [[t r]|e]; simpl; [|congruence].
  apply IH. lia.
Qed.

Lemma tokenize_total s : tokenize_if_part_expression s ≠ Err Exhausted.
Proof. unfold tokenize_if_part_expression. by apply tokenize_loop_total. Qed.

(** ** The readings of a path agree *)
Lemma supported_reference fuel fuel' l :
  supported_tail fuel l = true -> length l <= fuel' -> reference_tail fuel' l = (l, []).
Proof.
  revert fuel' l. induction fuel as [|fuel IH]; intros fuel' l.
  { destruct l; [|done]. by destruct fuel'. }
  destruct l as [|b l]; [by destruct fuel'|].
  destruct fuel' as [|fuel']; [simpl; lia|]. cbn [supported_tail length].
  intros Hs Hl. destruct l as [|c l]; [by repeat break_match_hyp Hs|].
  cbn [reference_tail]. simpl in Hl.
  destruct (is_byte b ".") eqn:Hdot; cbn [andb].
  { apply andb_true_iff in Hs as [-> Hs].
    destruct (span is_identifier_byte l) as [name r] eqn:E. simpl in Hs.
    pose proof (span_length _ _ _ _ E). rewrite (IH fuel' r Hs) by lia.
    by apply span_app in E as ->. }
  destruct (is_byte b "["); [|done]. cbn [andb].
  destruct (is_digit c) eqn:Hc.
  { cbn [span] in Hs. rewrite Hc in Hs. destruct (span is_digit l) as [ds r] eqn:E. simpl in Hs.
    pose proof (span_length _ _ _ _ E). apply span_app in E as ->.
    destruct r as [|d r]; [done|]. apply andb_true_iff in Hs as [-> Hs].
    simpl in *. rewrite (IH fuel' r Hs) by lia. done. }
  destruct (is_quote c) eqn:Hq; [|done].
  destruct (quoted_key c l) as [[key r]|] eqn:E; [|done].
  apply quoted_key_inv in E as (E & Hkey & ->). rewrite E.
  rewrite length_app in Hl. simpl in Hl.
  destruct key as [|x key]; [done|]. unfold is_byte. rewrite !Ascii.eqb_refl. cbn [andb].
  rewrite (IH fuel' r Hs) by lia. done.
Qed.

Lemma resolve_supported fuel v l w :
  resolve_tail fuel v l = Some w -> supported_tail fuel l = true.
Proof.
  revert v l. induction fuel as [|fuel IH]; intros v [|b l]; [done..|].
  cbn [resolve_tail supported_tail].
  destruct (is_byte b ".").
  { destruct l as [|c l]; [done|]. destruct (is_identifier_start_byte c); [|done].
    destruct (span is_identifier_byte l) as [name r]. simpl.
    destruct (value_get _ v) as [next|]; simpl; [|done]. apply IH. }
  destruct (is_byte b "["); [|done]. destruct l as [|c l]; [done|].
  destruct (is_digit c).
  { destruct (span is_digit (c :: l)) as [ds [|d r]]; [done|]. simpl.
    destruct (is_byte d "]"); [|done]. destruct (parse_u64 _) as [i|]; simpl; [|done].
    destruct (value_index i v) as [next|]; simpl; [|done]. apply IH. }
  destruct (is_quote c); [|done].
  destruct (quoted_key c l) as [[key r]|]; simpl; [|done].
  destruct (value_get _ v) as [next|]; simpl; [|done]. apply IH.
Qed.

Lemma resolved_path_supported variables name v :
  resolve_if_part_variable_path variables name = Some v ->
  is_supported_if_part_variable_name name = true.
Proof.
  unfold resolve_if_part_variable_path, is_supported_if_part_variable_name.
  destruct (bytes name) as [|first l]; [done|]. destruct (is_identifier_start_byte first); [|done].
  destruct (span is_identifier_byte l) as [root r]. simpl.
  destruct (map_get _ variables) as [current|]; simpl; [|done]. apply resolve_supported.
Qed.

(** A byte that starts a name starts no other token. *)
Lemma start_byte_token ts b l :
  is_identifier_start_byte b = true ->
  read_token ts b l
  = let '(word, r) := read_if_part_variable_reference b l in Ok (Some (word_token (text word)), r).
Proof.
  intros Hb. unfold read_token.
  assert (is_ascii_whitespace b = false /\ single_token b = None /\ double_token b = None
          /\ is_byte b "-" = false /\ is_quote b = false /\ is_digit b = false)
    as (-> & -> & -> & -> & -> & ->).
  { revert Hb. destruct b as [[] [] [] [] [] [] [] []]; vm_compute; (discriminate || done). }
  by rewrite Hb.
Qed.

(** The tokenizer reads a supported path to its end. *)
Lemma supported_reads name first l :
  is_supported_if_part_variable_name name = true -> bytes name = first :: l ->
  is_identifier_start_byte first = true /\ read_if_part_variable_reference first l = (first :: l, []).
Proof.
  unfold is_supported_if_part_variable_name, read_if_part_variable_reference. intros Hs E.
  rewrite E in Hs. apply andb_true_iff in Hs as [Hf Hs]. split; [done|].
  destruct (span is_identifier_byte l) as [root r] eqn:Er. simpl in Hs.
  rewrite (supported_reference _ _ _ Hs) by done. by apply span_app in Er as <-.
Qed.

Lemma supported_nonempty name :
  is_supported_if_part_variable_name name = true -> exists first l, bytes name = first :: l.
Proof. unfold is_supported_if_part_variable_name. destruct (bytes name); [done|eauto]. Qed.

Lemma supported_tokens name fuel ts :
  is_supported_if_part_variable_name name = true -> length (bytes name) <= fuel ->
  tokenize_loop fuel (bytes name) ts = Ok (ts ++ [word_token name]).
Proof.
  intros Hs Hf. destruct (supported_nonempty name Hs) as (first & l & E).
  destruct (supported_reads _ _ _ Hs E) as [Hfirst Hr]. rewrite E in Hf |- *.
  destruct fuel as [|fuel]; [simpl in Hf; lia|]. cbn [tokenize_loop].
  rewrite start_byte_token, Hr by done. cbn. change (String first (text l)) with (text (first :: l)).
  rewrite <- E, String.string_of_list_ascii_of_string. by destruct fuel.
Qed.

Lemma supported_one_token name :
  is_supported_if_part_variable_name name = true ->
  tokenize_if_part_expression name = Ok [word_token name].
Proof. intros Hs. unfold tokenize_if_part_expression. by apply supported_tokens. Qed.

(** ** The parser *)
Definition runs {A} (n : nat) (m : P A) (k : A -> nat) : Prop :=
  forall ts, length ts <= n ->
  match m ts with
  | (Ok a, r) => k a + length r <= length ts
  | (Err stop, _) => stop ≠ Exhausted
  end.

Lemma runs_bind {A B} n (m : P A) (f : A -> P B) k kf :
  runs n m k -> (forall a, k a <= n -> runs (n - k a) (f a) (fun b => kf b - k a)) ->
  runs n (a ← m; f a) kf.
Proof.
  intros Hm Hf ts Hts. specialize (Hm ts Hts). unfold mbind, stM_bind.
  destruct (m ts) as [[a|stop] r]; [|done].
  specialize (Hf a ltac:(lia) r ltac:(lia)). destruct (f a r) as [[b|stop] r']; [lia|done].
Qed.

Lemma runs_weaken {A} n n' (m : P A) k k' :
  runs n m k -> n' <= n -> (forall a, k' a <= k a) -> runs n' m k'.
Proof.
  intros Hm Hn Hk ts Hts. specialize (Hm ts ltac:(lia)).
  destruct (m ts) as [[a|stop] r]; [|done]. specialize (Hk a). lia.
Qed.

Lemma runs_ret {A} n (a : A) k : k a = 0 -> runs n (mret a) k.
Proof. intros Hk ts Hts. simpl. lia. Qed.

Lemma runs_reject {A} n message k : runs (A:=A) n (reject message) k.
Proof. done. Qed.

Lemma runs_lift {A} n (r : result ParseStop A) : r ≠ Err Exhausted -> runs n (lift r) (fun _ => 0).
Proof. intros Hr ts Hts. simpl. destruct r; [lia|congruence]. Qed.

Lemma runs_peek n : runs n peek (fun _ => 0).
Proof. intros ts Hts. simpl. lia. Qed.
Lemma runs_peek_next n : runs n peek_next (fun _ => 0).
Proof. intros ts Hts. simpl. lia. Qed.

Lemma runs_advance n : runs n advance (fun t => match t with Some _ => 1 | None => 0 end).
Proof. intros [|t ts] Hts; simpl; lia. Qed.

Lemma runs_consume n t : runs n (consume t) (fun found => if found then 1 else 0).
Proof. intros [|u ts] Hts; simpl; [lia|]. case_bool_decide; simpl; lia. Qed.

Create HintDb runs discriminated.
#[export] Hint Resolve runs_reject runs_peek runs_peek_next runs_advance runs_consume runs_lift : runs.

(** One step through a parser: a bind whose first part is known, a choice, a
    result. *)
Ltac runs_intro := let a := fresh "a" in let Ha := fresh "Ha" in
  intros a Ha; cbn beta iota in Ha |- *.
Ltac runs_with L := eapply runs_bind; [apply L; lia|runs_intro].
Ltac runs_step :=
  match goal with
  | |- runs _ (mret _) _ => apply runs_ret; simpl; lia
  | |- runs _ (match ?x with _ => _ end) _ => destruct x; cbn beta iota in *
  | |- runs _ (let '(_, _) := ?x in _) _ => destruct x
  | |- runs _ (mbind _ _) _ =>
      eapply runs_bind; [solve [eauto with runs]|runs_intro]
  | |- runs _ _ _ => solve [eauto with runs]
  | |- runs _ _ _ =>
      eapply runs_weaken; [solve [eauto with runs]|reflexivity|intros ?; cbn beta iota; try lia]
  end.
Ltac runs_steps := repeat runs_step.

Lemma runs_expect n t message : runs n (expect t message) (fun _ => 1).
Proof. unfold expect. runs_steps. Qed.
#[export] Hint Resolve runs_expect : runs.

Lemma runs_next_identifier n f : runs n (next_identifier_is f) (fun _ => 0).
Proof. intros ts Hts. simpl. lia. Qed.
Lemma runs_parenthesized n : runs n next_tokens_are_parenthesized_variable_path (fun _ => 0).
Proof. intros ts Hts. simpl. lia. Qed.
#[export] Hint Resolve runs_next_identifier runs_parenthesized : runs.

Lemma runs_path_argument n m o : runs n (path_argument m o) (fun _ => 1).
Proof. unfold path_argument. runs_steps. Qed.
Lemma runs_string_argument n m : runs n (string_argument m) (fun _ => 1).
Proof. unfold string_argument. runs_steps. Qed.
#[export] Hint Resolve runs_path_argument runs_string_argument : runs.

Lemma runs_empty_function n : runs n parse_empty_function (fun _ => 1).
Proof. unfold parse_empty_function. runs_steps. Qed.
Lemma runs_starts_with n : runs n parse_starts_with_function (fun _ => 1).
Proof. unfold parse_starts_with_function. runs_steps. Qed.
Lemma runs_ends_with n : runs n parse_ends_with_function (fun _ => 1).
Proof. unfold parse_ends_with_function. runs_steps. Qed.
Lemma runs_matches n : runs n parse_matches_function (fun _ => 1).
Proof. unfold parse_matches_function. runs_steps. Qed.
Lemma runs_parenthesized_path n : runs n parse_parenthesized_boolean_variable_path (fun _ => 1).
Proof. unfold parse_parenthesized_boolean_variable_path. runs_steps. Qed.
#[export] Hint Resolve runs_empty_function runs_starts_with runs_ends_with runs_matches
  runs_parenthesized_path : runs.

Lemma runs_operand n : runs n parse_operand (fun _ => 1).
Proof. unfold parse_operand. runs_steps. Qed.
#[export] Hint Resolve runs_operand : runs.

(** ** Printing never runs out of fuel *)
Lemma collect_stop {A B} (f : A -> result ParseStop B) l :
  Forall (fun a => f a ≠ Err Exhausted) l -> collect f l ≠ Err Exhausted.
Proof.
  induction 1 as [|a l Ha _ IH]; simpl; [done|]. destruct (f a); simpl; [|congruence].
  destruct (collect f l); simpl; [done|congruence].
Qed.

Section ExpressionInduction.
Context (Q : SentryIfPartExpression -> Prop)
  (Qcomparison : forall c, Q (Comparison c))
  (Qlogical : forall op l, Forall Q l -> Q (Logical op l))
  (Qnot : forall e, Q e -> Q (Not e))
  (Qempty : forall n, Q (Empty n))
  (Qcontains : forall n v b, Q (Contains n v b))
  (Qstarts : forall n s, Q (StartsWith n s))
  (Qends : forall n s, Q (EndsWith n s))
  (Qmatches : forall n s, Q (Matches n s))
  (Qmethod : forall o m l, Forall Q l -> Q (MethodCall o m l))
  (Qarithmetic : forall l op r, Q l -> Q r -> Q (Arithmetic l op r))
  (Qternary : forall c t f, Q c -> Q t -> Q f -> Q (Ternary c t f))
  (Qproperty : forall e p, Q e -> Q (PropertyAccess e p))
  (Qindex : forall e i, Q e -> Q i -> Q (IndexAccess e i))
  (Qliteral : forall l, Q (Literal l)).

(** Induction with hypotheses for the operands and arguments. *)
Fixpoint expression_induction (e : SentryIfPartExpression) : Q e :=
  let go := fix go (l : list SentryIfPartExpression) : Forall Q l :=
    match l with
    | [] => List.Forall_nil Q
    | e :: l => @List.Forall_cons _ Q e l (expression_induction e) (go l)
    end in
  match e with
  | Comparison c => Qcomparison c
  | Logical op l => Qlogical op l (go l)
  | Not e => Qnot e (expression_induction e)
  | Empty n => Qempty n
  | Contains n v b => Qcontains n v b
  | StartsWith n s => Qstarts n s
  | EndsWith n s => Qends n s
  | Matches n s => Qmatches n s
  | MethodCall o m l => Qmethod o m l (go l)
  | Arithmetic l op r => Qarithmetic l op r (expression_induction l) (expression_induction r)
  | Ternary c t f =>
      Qternary c t f (expression_induction c) (expression_induction t) (expression_induction f)
  | PropertyAccess e p => Qproperty e p (expression_induction e)
  | IndexAccess e i => Qindex e i (expression_induction e) (expression_induction i)
  | Literal l => Qliteral l
  end.
End ExpressionInduction.

Lemma result_bind_stop {A B} (m : result ParseStop A) (f : A -> result ParseStop B) :
  m ≠ Err Exhausted -> (forall a, f a ≠ Err Exhausted) -> (a ← m; f a) ≠ Err Exhausted.
Proof. intros Hm Hf. destruct m; simpl; [apply Hf|congruence]. Qed.

Lemma expression_to_string_stop e : expression_to_string e ≠ Err Exhausted.
Proof.
  induction e using expression_induction; cbn [expression_to_string]; try done;
    repeat (apply result_bind_stop; [|intros ?]); try done; apply collect_stop.
  - eapply Forall_impl; [done|]. intros e He. by apply result_bind_stop.
  - done.
Qed.

Lemma expression_to_literal_stop e : expression_to_literal e ≠ Err Exhausted.
Proof.
  destruct e; cbn [expression_to_literal]; try done;
    by apply result_bind_stop; [apply expression_to_string_stop|intros ?].
Qed.
#[export] Hint Resolve expression_to_string_stop expression_to_literal_stop : runs.

Lemma argument_tokens_app terms depth ts a r :
  argument_tokens terms depth ts = (a, r) -> ts = a ++ r.
Proof.
  revert depth a r. induction ts as [|t ts IH]; intros depth a r; cbn [argument_tokens].
  { by intros [= <- <-]. }
  assert (Hmore : forall d, (let '(a, r') := argument_tokens terms d ts in (t :: a, r')) = (a, r) ->
            t :: ts = a ++ r).
  { intros d. destruct (argument_tokens terms d ts) as [a' r'] eqn:E. intros [= <- <-].
    simpl. f_equal. by eapply IH. }
  destruct ((depth =? 0) && _); [by intros [= <- <-]|].
  destruct t; try apply Hmore; destruct depth; try apply Hmore; by intros [= <- <-].
Qed.

(** ** The productions *)
Section Productions.
Context (turns : nat) (expression : P SentryIfPartExpression)
  (Hexpression : forall n, n < turns -> runs n expression (fun _ => 1)).

Lemma runs_argument n terms :
  n < turns -> runs n (parse_expression_argument_until expression terms) (fun _ => 1).
Proof.
  intros Hn ts Hts. unfold parse_expression_argument_until.
  destruct (argument_tokens terms 0 ts) as [a r] eqn:E.
  apply argument_tokens_app in E as ->. destruct a as [|t a]; [done|].
  rewrite length_app in Hts. simpl in Hts.
  assert (Ha : length (t :: a) <= n) by (simpl; lia).
  pose proof (Hexpression n Hn (t :: a) Ha) as He.
  destruct (expression (t :: a)) as [[e|stop] [|u r']]; try done. simpl. rewrite length_app. lia.
Qed.

Lemma runs_arguments_loop n m args :
  n < m -> n < turns -> runs n (arguments_loop expression m args) (fun _ => 0).
Proof.
  revert n args. induction m as [|m IH]; intros n args Hm Hn; [lia|]. cbn [arguments_loop].
  runs_step. runs_step; [|by apply runs_ret]. runs_with runs_argument. apply IH; lia.
Qed.

Lemma runs_arguments n : n < turns -> runs n (parse_arguments turns expression) (fun _ => 1).
Proof.
  intros Hn. unfold parse_arguments. runs_step.
  eapply runs_bind with (k := fun _ => 0); [|runs_intro; runs_steps].
  case_bool_decide; [by apply runs_ret|]. runs_with runs_argument. apply runs_arguments_loop; lia.
Qed.

Lemma runs_contains n :
  n < turns -> runs n (parse_contains_function_comparison expression) (fun _ => 1).
Proof.
  intros Hn. unfold parse_contains_function_comparison. do 2 runs_step.
  runs_with runs_argument. do 2 runs_step. runs_with runs_argument. do 2 runs_step. runs_step.
  eapply runs_bind with (k := fun _ => 0); [|runs_intro; runs_steps].
  assert (Hb : forall n, runs n (t ← advance;
    match t with
    | Some (TLiteral (LBoolean b)) => mret b
    | _ => reject "contains function comparison right side must be true or false"
    end) (fun _ => 0)) by (intros; runs_steps).
  match goal with |- runs _ (if ?b then _ else _) _ => destruct b end;
    [eapply runs_weaken; [apply Hb|done|done]|].
  runs_step. runs_step; [|by apply runs_ret]. runs_with Hb. runs_steps.
Qed.

Lemma runs_sizing n : n < turns -> runs n (parse_sizing_function expression) (fun _ => 1).
Proof.
  intros Hn. unfold parse_sizing_function, parse_sizing_function_operand.
  runs_step. destruct a as [[]|]; try apply runs_reject.
  eapply runs_bind with (k := fun _ => 1); [|runs_intro; runs_steps].
  runs_step. destruct a as [[]|]; try apply runs_reject.
  runs_step. runs_with runs_argument. runs_steps.
Qed.

Lemma runs_call n name : n < turns -> runs n (parse_call turns expression name) (fun _ => 1).
Proof.
  intros Hn. unfold parse_call. do 2 runs_step. runs_with runs_arguments.
  destruct (split_method_call_identifier name). apply runs_ret. lia.
Qed.

Lemma runs_primary_base n :
  n < turns -> runs n (parse_primary_base turns expression) (fun _ => 1).
Proof.
  intros Hn. unfold parse_primary_base. runs_step. runs_step.
  { runs_with Hexpression. runs_steps. }
  runs_step. runs_step; [runs_step|]. runs_step. runs_step; [apply runs_contains; lia|].
  runs_step. runs_step; [runs_step|]. runs_step. runs_step; [runs_step|].
  runs_step. runs_step; [runs_step|]. runs_step. runs_step; [apply runs_sizing; lia|].
  runs_step. runs_step. repeat (runs_step; try runs_step); apply runs_call; lia.
Qed.

Lemma runs_postfix n m e :
  n < m -> n < turns -> runs n (postfix_loop turns expression m e) (fun _ => 0).
Proof.
  revert n e. induction m as [|m IH]; intros n e Hm Hn; [lia|]. cbn [postfix_loop].
  runs_step. runs_step.
  { runs_with Hexpression. runs_step. apply IH; lia. }
  runs_step. runs_step; [|by apply runs_ret]. runs_step.
  runs_step; [|apply runs_reject]. runs_step; try apply runs_reject.
  runs_step. runs_step; [|apply IH; lia]. do 2 runs_step. runs_with runs_arguments. apply IH; lia.
Qed.

Lemma runs_primary n : n < turns -> runs n (parse_primary turns expression) (fun _ => 1).
Proof.
  intros Hn. unfold parse_primary. runs_with runs_primary_base. apply runs_postfix; lia.
Qed.

Lemma runs_unary n m :
  n < m -> n < turns -> runs n (parse_unary turns expression m) (fun _ => 1).
Proof.
  revert n. induction m as [|m IH]; intros n Hm Hn; [lia|]. cbn [parse_unary].
  runs_step. runs_step; [|apply runs_primary; lia].
  eapply runs_bind with (k := fun _ => 0); [|runs_intro; runs_steps].
  unfold parse_not_operand. runs_step. runs_step; [runs_step|]. runs_with IH. runs_steps.
Qed.

Lemma runs_arithmetic_loop operator_of operand n m e :
  (forall n, n < turns -> runs n operand (fun _ => 1)) ->
  n < m -> n < turns -> runs n (arithmetic_loop operator_of operand m e) (fun _ => 0).
Proof.
  intros Hop. revert n e. induction m as [|m IH]; intros n e Hm Hn; [lia|]. cbn [arithmetic_loop].
  runs_step. runs_step; [|by apply runs_ret]. runs_step. runs_with Hop.
  destruct a0; apply IH; lia.
Qed.

Lemma runs_multiplicative n :
  n < turns -> runs n (parse_multiplicative turns expression) (fun _ => 1).
Proof.
  intros Hn. unfold parse_multiplicative. runs_with runs_unary.
  apply runs_arithmetic_loop; [|lia..]. intros; by apply runs_unary.
Qed.

Lemma runs_additive n : n < turns -> runs n (parse_additive turns expression) (fun _ => 1).
Proof.
  intros Hn. unfold parse_additive. runs_with runs_multiplicative.
  apply runs_arithmetic_loop; [|lia..]. apply runs_multiplicative.
Qed.

Lemma runs_comparison n : n < turns -> runs n (parse_comparison turns expression) (fun _ => 1).
Proof.
  intros Hn. unfold parse_comparison, peek_comparison_operator. runs_with runs_additive.
  eapply runs_bind with (k := fun _ => 0); [runs_steps|runs_intro].
  runs_step; [|by apply runs_ret]. runs_step. runs_with runs_additive. runs_steps.
Qed.

Lemma runs_operands_loop separator operand n m l :
  (forall n, n < turns -> runs n operand (fun _ => 1)) ->
  n < m -> n < turns -> runs n (operands_loop separator operand m l) (fun _ => 0).
Proof.
  intros Hop. revert n l. induction m as [|m IH]; intros n l Hm Hn; [lia|]. cbn [operands_loop].
  runs_step. runs_step; [|by apply runs_ret]. runs_with Hop. apply IH; lia.
Qed.

(** The shape of [parse_and] and [parse_or]. *)
Lemma runs_logical separator op operand n :
  (forall n, n < turns -> runs n operand (fun _ => 1)) -> n < turns ->
  runs n (first ← operand; t ← peek;
          if bool_decide (t = Some separator) then
            operands ← operands_loop separator operand turns [ensure_boolean_context first];
            mret (logical_expression op operands)
          else mret first) (fun _ => 1).
Proof.
  intros Hop Hn. runs_with Hop. runs_step. runs_step; [|by apply runs_ret].
  eapply runs_bind; [apply runs_operands_loop; [done|lia..]|]. runs_intro. runs_steps.
Qed.

Lemma runs_and n : n < turns -> runs n (parse_and turns expression) (fun _ => 1).
Proof. apply runs_logical, runs_comparison. Qed.

Lemma runs_or n : n < turns -> runs n (parse_or turns expression) (fun _ => 1).
Proof. apply runs_logical, runs_and. Qed.

Lemma runs_ternary n m :
  n < m -> n < turns -> runs n (parse_ternary turns expression m) (fun _ => 1).
Proof.
  revert n. induction m as [|m IH]; intros n Hm Hn; [lia|]. cbn [parse_ternary].
  runs_with runs_or. runs_step. runs_step; [|by apply runs_ret].
  runs_with Hexpression. runs_step. runs_with IH. runs_steps.
Qed.
End Productions.

Lemma runs_expression turns levels n :
  n < turns -> runs n (parse_expression turns levels) (fun _ => 1).
Proof.
  revert n. induction levels as [|levels IH]; intros n Hn; cbn [parse_expression]; [done|].
  by apply runs_ternary.
Qed.

Lemma parse_tokens_stop ts : (parse_tokens ts).1 ≠ Err Exhausted.
Proof.
  pose proof (runs_expression (S (length ts)) MAX_IF_PART_NESTING_DEPTH (length ts)
    ltac:(lia) ts ltac:(lia)) as H.
  unfold parse_tokens. destruct (parse_expression _ _ ts) as [[e|stop] r]; simpl; congruence.
Qed.

Lemma parse_value_total s : parse_sentry_value_expression s ≠ Err Exhausted.
Proof.
  unfold parse_sentry_value_expression. apply result_bind_stop; [apply tokenize_total|].
  intros ts. pose proof (parse_tokens_stop ts). destruct (parse_tokens ts) as [[e|stop] [|]]; simpl in *; congruence.
Qed.

(** A condition is always parsed to a tree or rejected with a message: for
    every text the tokenizer and the parser stop, whatever their loops and
    recursions. *)
Theorem if_part_parse_total s :
  (exists e, parse_sentry_if_part_expression s = Ok e)
  \/ (exists message, parse_sentry_if_part_expression s = Err (Rejected message)).
Proof.
  assert (H : parse_supported_if_part_expression (unwrap_expression s) ≠ Err Exhausted).
  { unfold parse_supported_if_part_expression. apply result_bind_stop; [apply tokenize_total|].
    intros ts. pose proof (parse_tokens_stop ts).
    destruct (parse_tokens ts) as [[e|stop] [|]]; simpl in *; congruence. }
  unfold parse_sentry_if_part_expression.
  destruct (parse_supported_if_part_expression _) as [e|[m|]]; [left|right|]; eauto. done.
Qed.
