(* ===== verification/CmmnConditionProof.v ===== *)
(** * CMMN conditions: what an evaluation computes

    [meaning] is the value of a condition by recursion on its tree, with no
    fuel, no depth and no second parse.  [condition_meaning] shows that the
    evaluator computes it for trees whose operands are variable paths and whose
    height is within [MAX_IF_PART_EVAL_DEPTH].  [condition_truth] compares it
    with a statement that shares nothing with the evaluator: [holds], on the
    conditions [supported] describes, says when a condition is true of the
    variables of a case. *)
From Stdlib Require Import Ascii.
From S2P Require Import Prelude Chars Float64 Numerals Json ElValues CmmnTokens CmmnParser CmmnCondition CmmnParserProof.

(** ** A path is not trimmed *)
Definition well_encoded (s : string) : Prop := of_chars (chars s) = s.

(** The bytes a supported path can end with. *)
Definition is_path_end (a : ascii) : bool := is_identifier_byte a || is_byte a "]".

Lemma span_Forall {A} (p : A -> bool) l k r : span p l = (k, r) -> Forall (fun a => p a = true) k.
Proof.
  revert k r. induction l as [|a l IH]; intros k r; simpl; [by intros [= <- <-]|].
  destruct (p a) eqn:Ha; [|by intros [= <- <-]].
  destruct (span p l) as [k' r']. intros [= <- <-]. constructor; [done|by eapply IH].
Qed.

Lemma last_app_ne {A} (l r : list A) : r ≠ [] -> last (l ++ r) = last r.
Proof. intros Hr. destruct (exists_last Hr) as (r' & x & ->). by rewrite app_assoc, !last_snoc. Qed.

Lemma ends_in l r :
  (r = [] \/ exists a, last r = Some a /\ is_path_end a = true) ->
  (exists a, last l = Some a /\ is_path_end a = true) ->
  exists a, last (l ++ r) = Some a /\ is_path_end a = true.
Proof.
  intros [->|(a & Ha & Hp)] Hl; [by rewrite app_nil_r|].
  exists a. rewrite last_app_ne; [done|]. by intros ->.
Qed.

Lemma name_end c name :
  is_identifier_start_byte c = true -> Forall (fun a => is_identifier_byte a = true) name ->
  exists a, last (c :: name) = Some a /\ is_path_end a = true.
Proof.
  intros Hc Hn. assert (Hcn : Forall (fun a => is_identifier_byte a = true) (c :: name)).
  { constructor; [|done]. unfold is_identifier_start_byte in Hc. unfold is_identifier_byte.
    by destruct (is_ascii_alphabetic _), (is_digit c), (is_byte c "_"). }
  destruct (exists_last (l:=c :: name)) as (k & x & Hk); [done|]. rewrite Hk in Hcn |- *.
  exists x. rewrite last_snoc. apply Forall_app in Hcn as [_ Hx]. inversion Hx as [|? ? Hx']; subst.
  split; [done|]. unfold is_path_end. by rewrite Hx'.
Qed.

Lemma supported_tail_end fuel l :
  supported_tail fuel l = true -> l = [] \/ exists a, last l = Some a /\ is_path_end a = true.
Proof.
  revert l. induction fuel as [|fuel IH]; intros [|b l] Hs; [by left|done|by left|right].
  cbn [supported_tail] in Hs. destruct (is_byte b ".").
  { destruct l as [|c l]; [done|]. apply andb_true_iff in Hs as [Hc Hs].
    destruct (span is_identifier_byte l) as [name r] eqn:E. simpl in Hs.
    pose proof (span_Forall _ _ _ _ E) as Hn. apply span_app in E as ->.
    change (b :: c :: name ++ r) with ((b :: c :: name) ++ r). apply ends_in; [by apply IH|].
    by apply (name_end c name). }
  destruct (is_byte b "["); [|done]. destruct l as [|c l]; [done|].
  assert (Hb : forall k r, supported_tail fuel r = true ->
    exists a, last ((k ++ ["]"%char]) ++ r) = Some a /\ is_path_end a = true).
  { intros k r Hr. apply ends_in; [by apply IH|]. exists "]"%char. by rewrite last_snoc. }
  destruct (is_digit c).
  { destruct (span is_digit (c :: l)) as [ds r] eqn:E. apply span_app in E as ->. simpl in Hs.
    destruct r as [|d r]; [done|]. apply andb_true_iff in Hs as [->%Ascii.eqb_eq Hr].
    specialize (Hb (b :: ds) r Hr). by rewrite <- app_assoc in Hb. }
  destruct (is_quote c); [|done].
  destruct (quoted_key c l) as [[key r]|] eqn:E; [|done].
  apply quoted_key_inv in E as (_ & _ & ->).
  specialize (Hb (b :: c :: key ++ [c]) r Hs). simpl in Hb. by rewrite <- !app_assoc in Hb.
Qed.

Lemma supported_ends name :
  is_supported_if_part_variable_name name = true ->
  exists first l a, bytes name = first :: l /\ is_identifier_start_byte first = true
    /\ last (first :: l) = Some a /\ is_path_end a = true.
Proof.
  unfold is_supported_if_part_variable_name. destruct (bytes name) as [|first l]; [done|].
  intros [Hf Hs]%andb_true_iff. exists first, l.
  destruct (span is_identifier_byte l) as [k r] eqn:E. simpl in Hs.
  pose proof (span_Forall _ _ _ _ E) as Hk. apply span_app in E as ->.
  cut (exists a, last ((first :: k) ++ r) = Some a /\ is_path_end a = true).
  { intros (a & ? & ?). by exists a. }
  apply ends_in; [by eapply supported_tail_end|by apply name_end].
Qed.

(** Trimming decodes the text: what it keeps is the text when neither end is
    white space. *)
Lemma of_bytes_app l s : of_bytes l s = text (ascii_of <$> l) +:+ s.
Proof. induction l as [|b l IH]; simpl; [done|]. by rewrite IH. Qed.

Lemma ascii_bytes_app s t : bytes (s +:+ t) = bytes s ++ bytes t.
Proof. induction s as [|a s IH]; simpl; [done|]. by rewrite IH. Qed.

Lemma char_bytes_last c a :
  last (ascii_of <$> char_bytes c) = Some a -> (byte_of a < 128)%Z ->
  is_whitespace (byte_of a) = false -> is_whitespace c = false.
Proof.
  intros Hl Ha Hw. unfold char_bytes in Hl.
  assert (Hhigh : forall x, a = ascii_of (128 + x mod 64)%Z -> False).
  { intros x ->. pose proof (Z.mod_pos_bound x 64). rewrite byte_of_ascii_of in Ha; lia. }
  destruct (c <? 128)%Z eqn:Hc.
  - simpl in Hl. injection Hl as <-. destruct (0 <=? c)%Z eqn:H0.
    + rewrite byte_of_ascii_of in Hw; [done|lia].
    + unfold is_whitespace. lia.
  - destruct (c <? 2048)%Z; [|destruct (c <? 65536)%Z]; simpl in Hl; injection Hl as <-;
      by edestruct Hhigh.
Qed.

Lemma of_chars_app cs cs' : of_chars (cs ++ cs') = of_chars cs +:+ of_chars cs'.
Proof.
  induction cs as [|c cs IH]; simpl; [done|]. rewrite !of_bytes_app, IH. by rewrite append_assoc.
Qed.

Lemma char_bytes_ne c : ascii_of <$> char_bytes c ≠ [].
Proof. unfold char_bytes. by repeat case_match. Qed.

Lemma trim_ends s first l a :
  well_encoded s -> bytes s = first :: l -> visible first -> last (first :: l) = Some a -> visible a ->
  trim s = s.
Proof.
  intros Hs Hb [Hf1 Hf2] Hlast [Ha1 Ha2]. unfold trim.
  assert (Hs' : s = String first (text l)).
  { rewrite <- (String.string_of_list_ascii_of_string s), Hb. done. }
  assert (Hd : drop_while is_whitespace (chars s) = chars s).
  { rewrite Hs'. simpl. rewrite (proj2 (Z.ltb_lt _ _) Hf1). simpl. by rewrite Hf2. }
  rewrite Hd. assert (Hne : chars s ≠ []).
  { rewrite Hs'. simpl. by rewrite (proj2 (Z.ltb_lt _ _) Hf1). }
  destruct (exists_last Hne) as (cs & c & Hcs).
  assert (Hc : is_whitespace c = false).
  { apply (char_bytes_last c a); [|done..]. unfold well_encoded in Hs. rewrite Hcs in Hs.
    rewrite of_chars_app in Hs. simpl in Hs. rewrite of_bytes_app in Hs.
    apply (f_equal (fun s => bytes s)) in Hs. rewrite Hb, !ascii_bytes_app in Hs. simpl in Hs.
    rewrite app_nil_r, String.list_ascii_of_string_of_list_ascii in Hs. rewrite <- Hs in Hlast.
    by rewrite last_app_ne in Hlast by apply char_bytes_ne. }
  rewrite Hcs, rev_app_distr. simpl. rewrite Hc. simpl. rewrite rev_involutive, <- Hcs. exact Hs.
Qed.

Lemma start_byte_visible a : is_identifier_start_byte a = true -> visible a.
Proof. destruct a as [[] [] [] [] [] [] [] []]; vm_compute; (discriminate || done). Qed.
Lemma path_end_visible a : is_path_end a = true -> visible a.
Proof. destruct a as [[] [] [] [] [] [] [] []]; vm_compute; (discriminate || done). Qed.

(** ** Operands that are paths *)
Definition is_path (name : string) : Prop :=
  is_supported_if_part_variable_name name = true /\ word_token name = TIdentifier name
  /\ well_encoded name.

Lemma path_parses name :
  is_path name -> parse_sentry_value_expression name = Ok (Literal (LVariable name)).
Proof.
  intros (Hs & Hw & He).
  destruct (supported_ends name Hs) as (first & l & a & Hb & Hf & Ha & Hp).
  assert (Ht : trim name = name).
  { eapply trim_ends; eauto using start_byte_visible, path_end_visible. }
  assert (Hu : unwrap_expression name = name).
  { unfold unwrap_expression. rewrite Ht, Hb. destruct l as [|b l]; [done|].
    assert (is_byte first "$" = false) as ->; [|done].
    revert Hf. destruct first as [[] [] [] [] [] [] [] []]; vm_compute; (discriminate || done). }
  unfold parse_sentry_value_expression. rewrite Hu, supported_one_token by done.
  rewrite Hw. reflexivity.
Qed.

(** ** Meaning *)
Section Meaning.
Context `{Display} `{NumberReader} `{Patterns} (variables : list (string * Value)).

(** What a path leads to, and null when it leads nowhere. *)
Definition operand_value (name : string) : Value := unwrap_or VNull (path variables name).

Definition comparable (v : Value) : option IfPartComparableValue :=
  json_value_to_if_part_comparable (Some v).

Definition size_of (v : Value) : Z := unwrap_or 0%Z (if_part_size v).

Definition literal_meaning (l : SentryIfPartLiteral) : option IfPartComparableValue :=
  match l with
  | LBoolean b => Some (ABoolean b)
  | LString s => Some (AString s)
  | LNumber n => ANumber <$> f64_from_str n
  | LNull => Some ANull
  | LVariable name => comparable (operand_value name)
  end.

Definition contained_value (l : SentryIfPartLiteral) : option Value :=
  match l with
  | LVariable name => Some (operand_value name)
  | _ => resolve_if_part_literal_value variables l
  end.

Definition text_meaning (name : string) (test : string -> bool) : Value :=
  VBool match operand_value name with VString s => test s | _ => false end.

Definition method_meaning (object : option string) (method : string) : Value :=
  if bool_decide (method = "size") || bool_decide (method = "length") then
    VNumber (PosInt match object with Some obj => size_of (operand_value obj) | None => 0%Z end)
  else match object with
       | Some obj =>
           unwrap_or (unwrap_or VNull (value_get method (operand_value obj)))
             (path variables (obj +:+ "." +:+ method))
       | None => operand_value method
       end.

Fixpoint meaning (e : CmmnSentryIfPartExpression) : Value :=
  match e with
  | CComparison c =>
      VBool (comparison_holds (operator c) (comparable (operand_value (variable_name c)))
               (literal_meaning (literal c)))
  | CLogical And l => VBool (forallb (fun e => is_truthy (meaning e)) l)
  | CLogical Or l => VBool (existsb (fun e => is_truthy (meaning e)) l)
  | CNot e => VBool (negb (is_truthy (meaning e)))
  | CEmpty name => VBool (if_part_variable_is_empty (Some (operand_value name)))
  | CContains name v expected =>
      VBool (Bool.eqb (if_part_contains (Some (operand_value name)) (contained_value v)) expected)
  | CStartsWith name prefix => text_meaning name (fun s => starts_with prefix s)
  | CEndsWith name suffix => text_meaning name (fun s => str_ends_with s suffix)
  | CMatches name regex =>
      text_meaning name (fun s => match regex_new regex with Ok re => re s | Err _ => false end)
  | CSize name op l | CLength name op l =>
      VBool (compare_numbers (size_of (operand_value name)) op
               (resolve_if_part_literal_number variables l))
  | CMethodCall object method _ => method_meaning object method
  | CArithmetic l op r => arithmetic_value op (meaning l) (meaning r)
  | CTernary c t f => if is_truthy (meaning c) then meaning t else meaning f
  | CPropertyAccess o p => unwrap_or VNull (value_get p (meaning o))
  | CIndexAccess o i => index_value (meaning o) (meaning i)
  | CLiteral l => unwrap_or VNull (resolve_if_part_literal_value variables l)
  end.
End Meaning.

(** Conditions whose operands are paths. *)
Definition path_literal (l : SentryIfPartLiteral) : Prop :=
  match l with LVariable name => is_path name | _ => True end.

Fixpoint path_operands (e : CmmnSentryIfPartExpression) : Prop :=
  match e with
  | CComparison c => is_path (variable_name c) /\ path_literal (literal c)
  | CLogical _ l => foldr (fun e rest => path_operands e /\ rest) True l
  | CNot e => path_operands e
  | CContains name v _ => is_path name /\ path_literal v
  | CSize name _ _ | CLength name _ _ => is_path name
  | CMethodCall (Some obj) method _ => method = "size" \/ method = "length" -> is_path obj
  | CArithmetic l _ r => path_operands l /\ path_operands r
  | CTernary c t f => path_operands c /\ path_operands t /\ path_operands f
  | CPropertyAccess o _ => path_operands o
  | CIndexAccess o i => path_operands o /\ path_operands i
  | _ => True
  end.

(** The conditions [evaluate_to_bool_depth] computes itself; the others are
    computed by [evaluate_to_json_value_depth]. *)
Definition is_boolean (e : CmmnSentryIfPartExpression) : bool :=
  match e with
  | CMethodCall _ _ _ | CArithmetic _ _ _ | CTernary _ _ _ | CPropertyAccess _ _
  | CIndexAccess _ _ | CLiteral _ => false
  | _ => true
  end.

(** How deep the evaluation of a tree goes: one level for each node, and one
    more where a value is wanted of a boolean or a boolean of a value. *)
Fixpoint height (e : CmmnSentryIfPartExpression) : nat :=
  let bool_height e := if is_boolean e then height e else S (height e) in
  let value_height e := if is_boolean e then S (height e) else height e in
  match e with
  | CLogical _ l => S (foldr (fun e n => Nat.max (bool_height e) n) 0 l)
  | CNot e => S (bool_height e)
  | CArithmetic l _ r => S (Nat.max (value_height l) (value_height r))
  | CTernary c t f => S (Nat.max (bool_height c) (Nat.max (value_height t) (value_height f)))
  | CPropertyAccess o _ => S (value_height o)
  | CIndexAccess o i => S (Nat.max (value_height o) (value_height i))
  | _ => 1
  end.

Definition bool_height (e : CmmnSentryIfPartExpression) : nat :=
  if is_boolean e then height e else S (height e).
Definition value_height (e : CmmnSentryIfPartExpression) : nat :=
  if is_boolean e then S (height e) else height e.

(** ** The evaluator computes the meaning *)
Definition is_leaf (e : CmmnSentryIfPartExpression) : bool :=
  match e with
  | CLogical _ _ | CNot _ | CArithmetic _ _ _ | CTernary _ _ _ | CPropertyAccess _ _
  | CIndexAccess _ _ => false
  | _ => true
  end.

Section ConditionInduction.
Context (Q : CmmnSentryIfPartExpression -> Prop)
  (Qleaf : forall e, is_leaf e = true -> Q e)
  (Qlogical : forall op l, Forall Q l -> Q (CLogical op l))
  (Qnot : forall e, Q e -> Q (CNot e))
  (Qarithmetic : forall l op r, Q l -> Q r -> Q (CArithmetic l op r))
  (Qternary : forall c t f, Q c -> Q t -> Q f -> Q (CTernary c t f))
  (Qproperty : forall e p, Q e -> Q (CPropertyAccess e p))
  (Qindex : forall e i, Q e -> Q i -> Q (CIndexAccess e i)).

(** Induction on the nodes that evaluate other nodes; the rest are leaves. *)
Fixpoint condition_induction (e : CmmnSentryIfPartExpression) : Q e :=
  match e with
  | CLogical op l =>
      Qlogical op l ((fix go l : Forall Q l :=
        match l with
        | [] => List.Forall_nil Q
        | e :: l => @List.Forall_cons _ Q e l (condition_induction e) (go l)
        end) l)
  | CNot e => Qnot e (condition_induction e)
  | CArithmetic l op r => Qarithmetic l op r (condition_induction l) (condition_induction r)
  | CTernary c t f =>
      Qternary c t f (condition_induction c) (condition_induction t) (condition_induction f)
  | CPropertyAccess e p => Qproperty e p (condition_induction e)
  | CIndexAccess e i => Qindex e i (condition_induction e) (condition_induction i)
  | e => Qleaf e eq_refl
  end.
End ConditionInduction.

Lemma path_not_call name prefix l :
  is_path name -> bytes prefix = l ++ ["("%char] -> forallb is_identifier_byte l = true ->
  match l with a :: _ => True | [] => False end -> strip_call prefix name = None.
Proof.
  intros [Hs _] Hp Hl Hne. unfold strip_call.
  destruct (strip_prefix prefix name) as [r|] eqn:E; [|done]. exfalso.
  assert (Hn : bytes name = bytes prefix ++ bytes r).
  { clear -E. revert name E. induction prefix as [|a p IH]; intros name E; simpl in E.
    - by injection E as ->.
    - destruct name as [|b t]; [done|]. destruct (Ascii.eqb a b) eqn:Hab; [|done].
      apply Ascii.eqb_eq in Hab as ->. simpl. f_equal. by apply IH. }
  unfold is_supported_if_part_variable_name in Hs. rewrite Hn, Hp in Hs.
  destruct l as [|a l]; [done|]. simpl in Hs, Hl. apply andb_true_iff in Hs as [_ Hs].
  apply andb_true_iff in Hl as [_ Hl].
  assert (E' : span is_identifier_byte ((l ++ ["("%char]) ++ bytes r) = (l, "("%char :: bytes r)).
  { clear -Hl. induction l as [|a l IH]; simpl in *; [done|].
    apply andb_true_iff in Hl as [-> Hl]. by rewrite IH. }
  rewrite E' in Hs. done.
Qed.

Section Correctness.
Context `{Display} `{NumberReader} `{Patterns} (variables : list (string * Value)).

(** An operand that is a path has the value the path leads to: directly, or
    by the second parse when it leads nowhere. *)
Lemma reparse_path eval name :
  is_path name -> path variables name = None ->
  eval (CLiteral (LVariable name)) = Ok VNull -> reparse eval name = Ok (operand_value variables name).
Proof.
  intros Hp Hn He. unfold reparse. rewrite path_parses by done. cbn [from_expression].
  rewrite He. unfold operand_value. by rewrite Hn.
Qed.

Lemma bool_step fuel e depth :
  depth < MAX_IF_PART_EVAL_DEPTH ->
  evaluate_to_bool_depth variables (S fuel) e depth
  = bool_node variables (fun e => evaluate_to_bool_depth variables fuel e (S depth))
      (fun e => evaluate_to_json_value_depth variables fuel e (S depth))
      (reparse (fun parsed => evaluate_to_json_value_depth variables fuel parsed 0)) e.
Proof.
  intros Hd%Nat.leb_gt.
  refine (eq_trans (y := if MAX_IF_PART_EVAL_DEPTH <=? depth then depth_exceeded else _) eq_refl _).
  by rewrite Hd.
Qed.

Lemma value_step fuel e depth :
  depth < MAX_IF_PART_EVAL_DEPTH ->
  evaluate_to_json_value_depth variables (S fuel) e depth
  = value_node variables (fun e => evaluate_to_bool_depth variables fuel e (S depth))
      (fun e => evaluate_to_json_value_depth variables fuel e (S depth))
      (reparse (fun parsed => evaluate_to_json_value_depth variables fuel parsed 0)) e.
Proof.
  intros Hd%Nat.leb_gt.
  refine (eq_trans (y := if MAX_IF_PART_EVAL_DEPTH <=? depth then depth_exceeded else _) eq_refl _).
  by rewrite Hd.
Qed.

Lemma missing_literal fuel name :
  path variables name = None ->
  evaluate_to_json_value_depth variables (S fuel) (CLiteral (LVariable name)) 0 = Ok VNull.
Proof. intros Hn. simpl. by rewrite Hn. Qed.

Section Operands.
Context (value : string -> result EvalStop Value)
  (Hvalue : forall name, is_path name -> path variables name = None ->
    value name = Ok (operand_value variables name)).

Lemma path_or_value_correct name :
  is_path name ->
  resolve_if_part_path_or_value_expression variables value name
  = Ok (Some (operand_value variables name)).
Proof.
  intros Hp. unfold resolve_if_part_path_or_value_expression.
  destruct (path variables name) as [v|] eqn:E.
  - unfold operand_value. by rewrite E.
  - by rewrite Hvalue.
Qed.

Lemma comparable_operand_correct name :
  is_path name ->
  comparable_operand variables value name = Ok (comparable (operand_value variables name)).
Proof.
  intros Hp. unfold comparable_operand. destruct (path variables name) as [v|] eqn:E.
  - unfold operand_value. by rewrite E.
  - by rewrite Hvalue.
Qed.

Lemma comparison_correct c :
  is_path (variable_name c) -> path_literal (literal c) ->
  evaluate_if_part_comparison variables value c
  = Ok (is_truthy (meaning variables (CComparison c))).
Proof.
  intros Hp Hl. unfold evaluate_if_part_comparison, resolve_if_part_comparison_operand.
  rewrite (path_not_call _ "size(" (bytes "size") Hp eq_refl eq_refl I).
  rewrite (path_not_call _ "length(" (bytes "length") Hp eq_refl eq_refl I).
  rewrite comparable_operand_correct by done. cbn [meaning is_truthy]. simpl.
  destruct (literal c); simpl in *; try done. by rewrite comparable_operand_correct.
Qed.

Lemma contains_correct name v expected :
  is_path name -> path_literal v ->
  evaluate_contains variables value name v expected
  = Ok (is_truthy (meaning variables (CContains name v expected))).
Proof.
  intros Hp Hl. unfold evaluate_contains. rewrite path_or_value_correct by done. simpl.
  destruct v; simpl in *; try done.
  - by destruct (number_from_str s).
  - destruct (path variables s) as [w|] eqn:E; simpl; [unfold operand_value; by rewrite E|].
    by rewrite Hvalue.
Qed.

Lemma sized_correct size name op l :
  (forall v, size v = if_part_size v) -> is_path name ->
  evaluate_sized variables value size name op l
  = Ok (compare_numbers (size_of (operand_value variables name)) op
          (resolve_if_part_literal_number variables l)).
Proof.
  intros Hs Hp. unfold evaluate_sized. rewrite path_or_value_correct by done. simpl.
  by rewrite Hs.
Qed.

Lemma method_correct object method :
  match object with Some obj => method = "size" \/ method = "length" -> is_path obj | None => True end ->
  evaluate_method_call variables value object method = Ok (method_meaning variables object method).
Proof.
  intros Hp. unfold evaluate_method_call, method_meaning.
  destruct (bool_decide (method = "size") || bool_decide (method = "length")) eqn:Hm.
  - destruct object as [obj|]; simpl; [|done]. rewrite path_or_value_correct; [done|].
    apply Hp. apply orb_true_iff in Hm as [?%bool_decide_eq_true|?%bool_decide_eq_true]; auto.
  - destruct object as [obj|]; simpl.
    + unfold operand_value. destruct (path variables _); [done|]. by destruct (path variables obj).
    + unfold operand_value. by destruct (path variables method).
Qed.
End Operands.

Lemma text_test_correct name test :
  text_test variables name test = is_truthy (text_meaning variables name test).
Proof.
  unfold text_test, text_meaning, operand_value. by destruct (path variables name) as [[]|].
Qed.

Lemma boolean_meaning e :
  is_boolean e = true -> meaning variables e = VBool (is_truthy (meaning variables e)).
Proof. by destruct e as [| []| | | | | | | | | | | | | |]. Qed.

(** The evaluator proper to [e] computes its meaning. *)
Definition computes (e : CmmnSentryIfPartExpression) : Prop :=
  path_operands e -> forall fuel depth, height e < fuel -> depth + height e <= MAX_IF_PART_EVAL_DEPTH ->
  if is_boolean e
  then evaluate_to_bool_depth variables fuel e depth = Ok (is_truthy (meaning variables e))
  else evaluate_to_json_value_depth variables fuel e depth = Ok (meaning variables e).

Lemma computes_bool e fuel depth :
  computes e -> path_operands e -> bool_height e < fuel ->
  depth + bool_height e <= MAX_IF_PART_EVAL_DEPTH ->
  evaluate_to_bool_depth variables fuel e depth = Ok (is_truthy (meaning variables e)).
Proof.
  unfold bool_height. intros Hc Hp Hf Hd. specialize (Hc Hp).
  destruct (is_boolean e) eqn:Hb; [by apply Hc|].
  destruct fuel as [|fuel]; [lia|]. specialize (Hc fuel (S depth) ltac:(lia) ltac:(lia)).
  rewrite bool_step by lia. destruct e; try done; simpl in *; by rewrite Hc.
Qed.

Lemma computes_value e fuel depth :
  computes e -> path_operands e -> value_height e < fuel ->
  depth + value_height e <= MAX_IF_PART_EVAL_DEPTH ->
  evaluate_to_json_value_depth variables fuel e depth = Ok (meaning variables e).
Proof.
  unfold value_height. intros Hc Hp Hf Hd. specialize (Hc Hp).
  destruct (is_boolean e) eqn:Hb; [|by apply Hc].
  destruct fuel as [|fuel]; [lia|]. specialize (Hc fuel (S depth) ltac:(lia) ltac:(lia)).
  rewrite value_step by lia. rewrite (boolean_meaning e) by done.
  destruct e; try done; cbn [value_node]; by rewrite Hc.
Qed.

Lemma operand_reparse fuel name :
  is_path name -> path variables name = None ->
  reparse (fun parsed => evaluate_to_json_value_depth variables (S fuel) parsed 0) name
  = Ok (operand_value variables name).
Proof. intros Hp Hn. apply reparse_path; [done..|]. by apply missing_literal. Qed.

Lemma leaf_computes e : is_leaf e = true -> computes e.
Proof.
  intros Hh Hp fuel depth Hf Hd. assert (He : height e = 1) by (by destruct e).
  rewrite He in Hf, Hd. clear He. destruct fuel as [|[|fuel]]; [lia..|].
  destruct e as [c| | |name|name v b|name s|name s|name s|name op l|name op l|object method args
                | | | | |l]; try discriminate Hh; simpl in Hp; cbn [is_boolean];
    rewrite ?bool_step, ?value_step by lia; cbn [bool_node value_node].
  - apply comparison_correct; [|apply Hp..]. apply operand_reparse.
  - cbn [meaning is_truthy]. f_equal. unfold operand_value. by destruct (path variables name).
  - apply contains_correct; [|apply Hp..]. apply operand_reparse.
  - by rewrite text_test_correct.
  - by rewrite text_test_correct.
  - by rewrite text_test_correct.
  - by apply sized_correct; [apply operand_reparse| |].
  - by apply sized_correct; [apply operand_reparse| |].
  - apply method_correct; [apply operand_reparse|]. by destruct object.
  - done.
Qed.

Lemma all_operands_meaning eval l :
  (forall e, e ∈ l -> eval e = Ok (is_truthy (meaning variables e))) ->
  all_operands eval l = Ok (forallb (fun e => is_truthy (meaning variables e)) l).
Proof.
  induction l as [|e l IH]; intros He; simpl; [done|]. rewrite He by set_solver. simpl.
  destruct (is_truthy _); [|done]. apply IH. set_solver.
Qed.

Lemma any_operand_meaning eval l :
  (forall e, e ∈ l -> eval e = Ok (is_truthy (meaning variables e))) ->
  any_operand eval l = Ok (existsb (fun e => is_truthy (meaning variables e)) l).
Proof.
  induction l as [|e l IH]; intros He; simpl; [done|]. rewrite He by set_solver. simpl.
  destruct (is_truthy _); [done|]. apply IH. set_solver.
Qed.

Lemma operands_below l e :
  foldr (fun e rest => path_operands e /\ rest) True l -> e ∈ l ->
  path_operands e /\ bool_height e <= foldr (fun e n => Nat.max (bool_height e) n) 0 l.
Proof.
  induction l as [|x l IH]; simpl; [set_solver|].
  intros [Hx Hl] [->|He]%elem_of_cons; [split; [done|lia]|].
  destruct (IH Hl He). split; [done|lia].
Qed.

Lemma height_node e :
  height e = match e with
             | CLogical _ l => S (foldr (fun e n => Nat.max (bool_height e) n) 0 l)
             | CNot e => S (bool_height e)
             | CArithmetic l _ r => S (Nat.max (value_height l) (value_height r))
             | CTernary c t f =>
                 S (Nat.max (bool_height c) (Nat.max (value_height t) (value_height f)))
             | CPropertyAccess o _ => S (value_height o)
             | CIndexAccess o i => S (Nat.max (value_height o) (value_height i))
             | _ => 1
             end.
Proof. by destruct e. Qed.

Lemma condition_computes e : computes e.
Proof.
  induction e as [e Hl|op l Hl|e IH|l op r IHl IHr|c t f IHc IHt IHf|e p IH|e i IHe IHi]
    using condition_induction; [by apply leaf_computes|..];
    intros Hp [|fuel] depth Hf Hd; try lia; rewrite height_node in Hf, Hd;
    cbn [is_boolean path_operands] in *;
    rewrite ?bool_step, ?value_step by lia; cbn [bool_node value_node meaning].
  - assert (He : forall e, e ∈ l ->
      evaluate_to_bool_depth variables fuel e (S depth) = Ok (is_truthy (meaning variables e))).
    { intros e He. destruct (operands_below l e Hp He) as [Hpe Hle].
      apply computes_bool; [|done|lia..]. rewrite Forall_forall in Hl. by apply Hl. }
    destruct op; [by apply all_operands_meaning|by apply any_operand_meaning].
  - by rewrite computes_bool by (done || lia).
  - destruct Hp. by rewrite !computes_value by (done || lia).
  - destruct Hp as (Hc & Ht & Hf'). rewrite computes_bool by (done || lia). simpl.
    by destruct (is_truthy _); rewrite computes_value by (done || lia).
  - by rewrite computes_value by (done || lia).
  - destruct Hp. by rewrite !computes_value by (done || lia).
Qed.

(** A condition whose operands are paths and whose tree is at most 64 levels
    high evaluates, with fuel beyond its height, to its meaning. *)
Lemma condition_meaning e fuel :
  path_operands e -> bool_height e <= MAX_IF_PART_EVAL_DEPTH -> bool_height e < fuel ->
  evaluate_to_bool variables fuel e = Ok (is_truthy (meaning variables e)).
Proof. intros Hp Hh Hf. by apply computes_bool; [apply condition_computes|..]. Qed.
End Correctness.

(** ** When a condition is true

    Stated on the variables and the values alone, for conditions on variables
    that are present. *)
Section Texts.
Lemma starts_with_spec p s : starts_with p s = true <-> exists r, s = p +:+ r.
Proof.
  revert s. induction p as [|a p IH]; intros s; simpl.
  - split; [by exists s|done].
  - destruct s as [|b s]; [split; [done|by intros (? & ?)]|]. rewrite andb_true_iff, Ascii.eqb_eq, IH. split.
    + intros [-> (r & ->)]. by exists r.
    + intros (r & [= -> ->]). split; [done|by exists r].
Qed.

Lemma str_contains_spec s n : str_contains s n = true <-> exists l r, s = l +:+ n +:+ r.
Proof.
  induction s as [|a s IH]; cbn [str_contains]; rewrite orb_true_iff, starts_with_spec, ?IH.
  - split; [intros [(r & E)|?]; [by exists "", r|done]|]. intros (l & r & E). left.
    destruct l; [by exists r|done].
  - split.
    + intros [(r & E)|(l & r & ->)]; [by exists "", r|by exists (String a l), r].
    + intros ([|b l] & r & E); [left; by exists r|right]. injection E as _ ->. by exists l, r.
Qed.

Lemma string_length_app s t : String.length (s +:+ t) = (String.length s + String.length t)%nat.
Proof. induction s as [|a s IH]; simpl; [done|]. by rewrite IH. Qed.

Lemma substring_all s : String.substring 0 (String.length s) s = s.
Proof. induction s as [|a s IH]; simpl; [done|]. by rewrite IH. Qed.

Lemma substring_after r s : String.substring (String.length r) (String.length s) (r +:+ s) = s.
Proof. induction r as [|a r IH]; [apply substring_all|exact IH]. Qed.

Lemma substring_split n s : (n <= String.length s)%nat ->
  exists r, String.length r = n /\ s = r +:+ String.substring n (String.length s - n) s.
Proof.
  revert s. induction n as [|n IH]; intros s Hn.
  - exists "". split; [done|]. simpl. by rewrite Nat.sub_0_r, substring_all.
  - destruct s as [|a s]; simpl in Hn; [lia|]. destruct (IH s) as (r & Hr & E); [lia|].
    exists (String a r). split; [simpl; by rewrite Hr|]. cbn [String.length String.substring String.append Nat.sub]. by rewrite E at 1.
Qed.

Lemma str_ends_with_spec s x : str_ends_with s x = true <-> exists r, s = r +:+ x.
Proof.
  unfold str_ends_with. rewrite andb_true_iff, Nat.leb_le, bool_decide_eq_true. split.
  - intros [Hle E]. destruct (substring_split (String.length s - String.length x) s) as (r & _ & Hs); [lia|].
    exists r. replace (String.length s - (String.length s - String.length x))%nat with (String.length x) in Hs by lia.
    by rewrite E in Hs.
  - intros (r & ->). rewrite string_length_app. split; [lia|].
    replace (String.length r + String.length x - String.length x)%nat with (String.length r) by lia.
    apply substring_after.
Qed.
End Texts.

(** Two floats compare the other way round. *)
Lemma SFcompare_swap x y : SFcompare y x = CompOpp <$> SFcompare x y.
Proof.
  destruct x as [sx|sx| |sx mx ex], y as [sy|sy| |sy my ey]; try (by destruct sx); try (by destruct sy);
    try (by destruct sx, sy); try done. simpl. destruct sx, sy; simpl; try done.
  - rewrite (Z.compare_antisym ex ey). destruct (ex ?= ey)%Z; simpl; try done.
    f_equal. change (Pos.compare_cont Eq mx my) with (Pos.compare mx my).
    change (Pos.compare_cont Eq my mx) with (Pos.compare my mx).
    by rewrite (Pos.compare_antisym mx my).
  - rewrite (Z.compare_antisym ex ey). destruct (ex ?= ey)%Z; simpl; try done.
    f_equal. change (Pos.compare_cont Eq mx my) with (Pos.compare mx my).
    change (Pos.compare_cont Eq my mx) with (Pos.compare my mx). by rewrite (Pos.compare_antisym mx my).
Qed.

Section Truth.
Context `{Display} `{NumberReader} `{Patterns} (variables : list (string * Value)).

(** The name of a variable of the case: an identifier that is no key word. *)
Definition is_variable (name : string) : Prop := is_path name /\ forallb is_identifier_byte (bytes name) = true.

(** The variable has the value. *)
Definition has (name : string) (v : Value) : Prop := is_variable name /\ map_get name variables = Some v.

Definition relates (op : SentryIfPartOperator) (a b : Z) : Prop :=
  match op with
  | Equal => a = b
  | NotEqual => a <> b
  | GreaterThan => b < a
  | GreaterThanOrEqual => b <= a
  | LessThan => a < b
  | LessThanOrEqual => a <= b
  end%Z.

(** The value is that of the literal; numbers are compared as IEEE doubles. *)
Definition denotes (l : SentryIfPartLiteral) (v : Value) : Prop :=
  match l, v with
  | LString s, VString t => s = t
  | LBoolean a, VBool b => a = b
  | LNull, VNull => True
  | LNumber t, VNumber n => exists y, f64_from_str t = Some y /\ SFcompare (number_as_f64 n) y = Some Eq
  | _, _ => False
  end.

(** Both are numbers, in an order that [c] allows. *)
Definition ordered (c : comparison -> Prop) (v : Value) (l : SentryIfPartLiteral) : Prop :=
  exists n t y o, v = VNumber n /\ l = LNumber t /\ f64_from_str t = Some y
    /\ SFcompare (number_as_f64 n) y = Some o /\ c o.

Definition compares (op : SentryIfPartOperator) (v : Value) (l : SentryIfPartLiteral) : Prop :=
  match op with
  | Equal => denotes l v
  | NotEqual => ~ denotes l v
  | GreaterThan => ordered (fun o => o = Gt) v l
  | GreaterThanOrEqual => ordered (fun o => o <> Lt) v l
  | LessThan => ordered (fun o => o = Lt) v l
  | LessThanOrEqual => ordered (fun o => o <> Gt) v l
  end.

(** The number of characters, items or entries. *)
Inductive sized : Value -> Z -> Prop :=
| sized_string s : sized (VString s) (Z.of_nat (length (chars s)))
| sized_array l : sized (VArray l) (Z.of_nat (length l))
| sized_object m : sized (VObject m) (Z.of_nat (length m)).

Fixpoint holds (e : CmmnSentryIfPartExpression) : Prop :=
  match e with
  | CComparison c => exists v, has (variable_name c) v /\ compares (operator c) v (literal c)
  | CLogical And l => foldr (fun e rest => holds e /\ rest) True l
  | CLogical Or l => foldr (fun e rest => holds e \/ rest) False l
  | CNot e => ~ holds e
  | CEmpty name => exists v, has name v /\ (v = VNull \/ v = VString "" \/ v = VArray [] \/ v = VObject [])
  | CContains name l expected => exists s n, has name (VString s) /\ l = LString n
      /\ ((exists before after, s = before +:+ n +:+ after) <-> expected = true)
  | CStartsWith name prefix => exists s r, has name (VString s) /\ s = prefix +:+ r
  | CEndsWith name suffix => exists s r, has name (VString s) /\ s = r +:+ suffix
  | CSize name op l | CLength name op l =>
      exists v z t n, has name v /\ sized v z /\ l = LNumber t /\ parse_i64 t = Some n /\ relates op z n
  | _ => False
  end.

(** What a comparison may be asked of: a literal for equality; two numbers that
    compare for an order. *)
Definition suits (op : SentryIfPartOperator) (v : Value) (l : SentryIfPartLiteral) : Prop :=
  match op with
  | Equal | NotEqual =>
      match l with LVariable _ => False | LNumber t => is_Some (f64_from_str t) | _ => True end
  | _ => ordered (fun _ => True) v l
  end.

(** Conditions on variables that are present, with values of the kind asked for. *)
Fixpoint supported (e : CmmnSentryIfPartExpression) : Prop :=
  match e with
  | CComparison c => exists v, has (variable_name c) v /\ suits (operator c) v (literal c)
  | CLogical _ l => foldr (fun e rest => supported e /\ rest) True l
  | CNot e => supported e
  | CEmpty name => exists v, has name v
  | CContains name l _ => exists s n, has name (VString s) /\ l = LString n
  | CStartsWith name _ | CEndsWith name _ => exists s, has name (VString s)
  | CSize name _ l | CLength name _ l =>
      exists v z t n, has name v /\ sized v z /\ l = LNumber t /\ parse_i64 t = Some n
  | _ => False
  end.

Lemma has_path name v : has name v -> path variables name = Some v.
Proof.
  intros [[Hp Hi] Hm]. destruct (supported_ends name (proj1 Hp)) as (first & l & a & Hb & Hf & _).
  unfold path, resolve_if_part_variable_path. rewrite Hb in Hi |- *. rewrite Hf.
  simpl in Hi. apply andb_true_iff in Hi as [_ Hi].
  assert (E : span is_identifier_byte l = (l, [])).
  { clear -Hi. induction l as [|x l IH]; [done|]. simpl in *. apply andb_true_iff in Hi as [-> Hi]. by rewrite IH. }
  rewrite E, <- Hb, String.string_of_list_ascii_of_string, Hm. done.
Qed.

Lemma has_value name v : has name v -> operand_value variables name = v.
Proof. intros Hv. unfold operand_value. by rewrite (has_path _ _ Hv). Qed.

Lemma has_inj name v w : has name v -> has name w -> v = w.
Proof. intros [_ E1] [_ E2]. congruence. Qed.

Lemma f64_eqb_compare x y : f64_eqb x y = true <-> SFcompare x y = Some Eq.
Proof. unfold f64_eqb, SFeqb. destruct (SFcompare x y) as [[]|]; split; done. Qed.

Lemma equality_holds l v :
  suits Equal v l -> option_eqb (comparable v) (literal_meaning variables l) = true <-> denotes l v.
Proof.
  intros Hs. destruct l as [b|t|t| |n]; simpl in *; [| |destruct Hs as [y Hy]; rewrite Hy| |done];
    destruct v; simpl; try (split; done).
  - rewrite eqb_true_iff. naive_solver.
  - rewrite bool_decide_eq_true. naive_solver.
  - rewrite f64_eqb_compare. naive_solver.
Qed.

Lemma order_holds op n y o :
  op <> Equal -> op <> NotEqual -> SFcompare (number_as_f64 n) y = Some o ->
  comparison_holds op (comparable (VNumber n)) (Some (ANumber y)) = true
  <-> match op with
      | GreaterThan => o = Gt | GreaterThanOrEqual => o <> Lt
      | LessThan => o = Lt | LessThanOrEqual => o <> Gt | _ => False
      end.
Proof.
  intros Hn1 Hn2 Ho. pose proof (SFcompare_swap (number_as_f64 n) y) as Hs. rewrite Ho in Hs. simpl in Hs.
  unfold comparison_holds, comparable. simpl. unfold f64_ltb, SFltb. rewrite Ho, Hs. by destruct op, o.
Qed.

Lemma compares_holds op v l :
  suits op v l -> comparison_holds op (comparable v) (literal_meaning variables l) = true <-> compares op v l.
Proof.
  intros Hs. assert (Hord : forall c, ordered (fun _ => True) v l -> op <> Equal -> op <> NotEqual ->
    (forall o, match op with GreaterThan => o = Gt | GreaterThanOrEqual => o <> Lt
      | LessThan => o = Lt | LessThanOrEqual => o <> Gt | _ => False end <-> c o) ->
    comparison_holds op (comparable v) (literal_meaning variables l) = true <-> ordered c v l).
  { intros c (n & t & y & o & -> & -> & Hy & Ho & _) Hn1 Hn2 Hc. cbn [literal_meaning]. rewrite Hy.
    change (ANumber <$> Some y) with (Some (ANumber y)). rewrite (order_holds op n y o Hn1 Hn2 Ho), Hc. split.
    - intros Hco. exists n, t, y, o. by split_and!.
    - intros (n' & t' & y' & o' & [= <-] & [= <-] & Hy' & Ho' & Hco). by simplify_eq. }
  destruct op; cbn [compares]; try (by apply Hord).
  - by apply equality_holds.
  - cbn [comparison_holds]. rewrite negb_true_iff, <- not_true_iff_false. by rewrite (equality_holds l v Hs).
Qed.

Lemma compare_numbers_holds a op b : compare_numbers a op b = true <-> relates op a b.
Proof. unfold compare_numbers, relates. destruct op; rewrite ?negb_true_iff; lia. Qed.

Lemma sized_size v z : sized v z -> size_of v = z.
Proof. by intros []. Qed.

Lemma sized_holds name op l :
  (exists v z t n, has name v /\ sized v z /\ l = LNumber t /\ parse_i64 t = Some n) ->
  compare_numbers (size_of (operand_value variables name)) op (resolve_if_part_literal_number variables l) = true
  <-> exists v z t n, has name v /\ sized v z /\ l = LNumber t /\ parse_i64 t = Some n /\ relates op z n.
Proof.
  intros (v & z & t & n & Hv & Hz & -> & Hn). rewrite compare_numbers_holds, (has_value _ _ Hv), (sized_size _ _ Hz).
  cbn [resolve_if_part_literal_number]. rewrite Hn. simpl. split.
  - intros Hr. by exists v, z, t, n.
  - intros (v' & z' & t' & n' & Hv' & Hz' & [= <-] & Hn' & Hr). rewrite (has_inj _ _ _ Hv' Hv) in Hz'.
    rewrite <- (sized_size _ _ Hz), (sized_size _ _ Hz'). by simplify_eq.
Qed.

Lemma contains_holds name l expected :
  supported (CContains name l expected) ->
  is_truthy (meaning variables (CContains name l expected)) = true <-> holds (CContains name l expected).
Proof.
  intros (s & n & Hv & ->). cbn [meaning is_truthy holds]. rewrite (has_value _ _ Hv), eqb_true_iff. simpl.
  assert (Hc : str_contains s n = expected <-> ((exists l r, s = l +:+ n +:+ r) <-> expected = true)).
  { rewrite <- str_contains_spec. destruct (str_contains s n), expected; naive_solver. }
  rewrite Hc. split; [intros; by exists s, n|].
  intros (s' & n' & Hv' & [= <-] & He). pose proof (has_inj _ _ _ Hv Hv') as Heq. by injection Heq as <-.
Qed.

Lemma text_holds name test (P : string -> Prop) :
  (exists s, has name (VString s)) -> (forall s, test s = true <-> P s) ->
  is_truthy (text_meaning variables name test) = true <-> exists s, has name (VString s) /\ P s.
Proof.
  intros (s & Hv) Hp. unfold text_meaning. cbn [is_truthy]. rewrite (has_value _ _ Hv), Hp. split; [by exists s|].
  intros (s' & Hv' & Hs). pose proof (has_inj _ _ _ Hv Hv') as Heq. by injection Heq as <-.
Qed.

Lemma empty_holds name :
  supported (CEmpty name) -> is_truthy (meaning variables (CEmpty name)) = true <-> holds (CEmpty name).
Proof.
  intros (v & Hv). cbn [meaning is_truthy holds]. rewrite (has_value _ _ Hv). split.
  - intros He. exists v. split; [done|]. destruct v as [| | |s|l|m]; try done; simpl in He; [by left| | |].
    + apply bool_decide_eq_true in He as ->. auto.
    + destruct l; [auto|done].
    + destruct m; [auto|done].
  - intros (v' & Hv' & Hs). rewrite (has_inj _ _ _ Hv Hv'). by destruct Hs as [->|[->|[->| ->]]].
Qed.

Lemma leaf_holds e : is_leaf e = true -> supported e -> is_truthy (meaning variables e) = true <-> holds e.
Proof.
  destruct e as [c| | |name|name v b|name s|name s|name s|name op l|name op l|object method args
                | | | | |l]; try done; intros _ Hs.
  - destruct Hs as (v & Hv & Hs). cbn [meaning is_truthy holds]. rewrite (has_value _ _ Hv), compares_holds by done.
    split; [by exists v|]. intros (v' & Hv' & Hc). by rewrite (has_inj _ _ _ Hv Hv').
  - by apply empty_holds.
  - by apply contains_holds.
  - cbn [meaning holds]. rewrite (text_holds name _ (fun x => exists r, x = s +:+ r)); [naive_solver|done|].
    intros x. apply starts_with_spec.
  - cbn [meaning holds]. rewrite (text_holds name _ (fun x => exists r, x = r +:+ s)); [naive_solver|done|].
    intros x. apply str_ends_with_spec.
  - by apply sized_holds.
  - by apply sized_holds.
Qed.

Lemma meaning_holds e : supported e -> is_truthy (meaning variables e) = true <-> holds e.
Proof.
  induction e as [e Hl|op l Hl|e IH| | | |] using condition_induction; intros Hs; try done.
  - by apply leaf_holds.
  - destruct op; cbn [meaning is_truthy holds]; revert Hs; simpl; induction Hl as [|e l He Hl IH]; simpl; try done.
    + intros [Hn1 Hn2]. by rewrite andb_true_iff, He, IH.
    + intros [Hn1 Hn2]. by rewrite orb_true_iff, He, IH.
  - cbn [meaning is_truthy holds]. simpl in Hs. by rewrite negb_true_iff, <- (IH Hs), not_true_iff_false.
Qed.

Lemma has_is_path name v : has name v -> is_path name.
Proof. by intros [[? _] _]. Qed.

Lemma supported_operands e : supported e -> path_operands e.
Proof.
  induction e as [e Hl|op l Hl|e IH| | | |] using condition_induction; intros Hs; try done.
  - destruct e as [c| | |name|name v b|name s|name s|name s|name op l|name op l|object method args
                  | | | | |l]; try done; simpl in *.
    + destruct Hs as (v & Hv & Hs). split; [by eapply has_is_path|].
      destruct (operator c); simpl in Hs; try (by destruct (literal c));
        by destruct Hs as (? & ? & ? & ? & _ & -> & _).
    + destruct Hs as (s & n & Hv & ->). split; [by eapply has_is_path|done].
    + destruct Hs as (v & z & t & n & Hv & _). by eapply has_is_path.
    + destruct Hs as (v & z & t & n & Hv & _). by eapply has_is_path.
  - revert Hs. simpl. induction Hl as [|e l He Hl IH]; simpl; [done|]. intros [Hn1 Hn2]. split; auto.
  - by apply IH.
Qed.

(** C21: the truth of a condition.  The condition is built with and, or and not from:
    comparisons of a variable with a literal (any value for == and != with a string, a
    boolean, null or a number that parses; two numbers that compare for the orders),
    empty tests, contains on a string, starts-with and ends-with on a string, and
    comparisons of the size of a string, a list or an object with an integer.  Every
    variable named is present in the case, under an identifier that is no key word, with
    a value of the kind just said; so conditions on missing variables, on paths into
    values, and arithmetic, method calls, ternaries and patterns are not covered.  The
    tree is at most 64 levels high and the fuel beyond its height.  Then the evaluation
    succeeds, and it gives true exactly when the condition holds, where == is equality
    with the literal, the orders are those of IEEE doubles, contains, starts-with and
    ends-with are about the characters of the text, and sizes compare as integers. *)
Theorem condition_truth e fuel :
  supported e -> bool_height e <= MAX_IF_PART_EVAL_DEPTH -> bool_height e < fuel ->
  exists b, evaluate_to_bool variables fuel e = Ok b /\ (b = true <-> holds e).
Proof.
  intros Hs Hh Hf. exists (is_truthy (meaning variables e)). split; [|by apply meaning_holds].
  apply condition_meaning; [by apply supported_operands|done|done].
Qed.
End Truth.
