(* ===== verification/CmmnSentry.v ===== *)
(** * CMMN sentries

    Models the sentry of [flowable-cmmn-engine/src/models.rs] with its own
    evaluation of a single event, [CmmnSentry::evaluate_for_event], and the
    evaluator of conditions that goes with it, [evaluate]: a second reading of
    the trees [CmmnCondition] evaluates. *)
From Stdlib Require Import Ascii.
From S2P Require Import Prelude Chars Float64 Numerals Json ElValues CmmnTokens CmmnParser CmmnCondition CmmnParserProof CmmnConditionProof.

(** ** Sentries *)
Record CmmnPlanItemOnPart := mkOnPart {
  on_part_id : string;
  source_ref : string;
  standard_event : string
}.

Record CmmnCaseFileItemOnPart := mkFileOnPart {
  file_on_part_id : string;
  case_file_item_ref : string;
  file_standard_event : string
}.

Record CmmnSentry := mkSentry {
  sentry_id : string;
  plan_item_on_parts : list CmmnPlanItemOnPart;
  case_file_item_on_parts : list CmmnCaseFileItemOnPart;
  if_part : option CmmnSentryIfPartExpression;
  trigger_mode : option string
}.

Definition TRIGGER_MODE_DEFAULT : string := "default".
Definition TRIGGER_MODE_ON_EVENT : string := "onEvent".

Definition is_default_trigger_mode (s : CmmnSentry) : bool :=
  match trigger_mode s with None => true | Some mode => bool_decide (mode = TRIGGER_MODE_DEFAULT) end.

Definition is_on_event_trigger_mode (s : CmmnSentry) : bool :=
  is_some_eq (trigger_mode s) TRIGGER_MODE_ON_EVENT.

Definition has_if_part (s : CmmnSentry) : bool :=
  match if_part s with Some _ => true | None => false end.

Definition is_multi_part (s : CmmnSentry) : bool :=
  let on_part_count := length (plan_item_on_parts s) + length (case_file_item_on_parts s) in
  (1 <? on_part_count)%nat || ((on_part_count =? 1)%nat && has_if_part s).

(** ** Evaluation against one event ([models.rs]) *)

(** [CmmnResolvedLiteral::equals]: equal values, or the same number, also as
    text. *)
Definition loosely_equal (lhs other : Value) : bool :=
  value_eqb lhs other
  || match lhs, other with
     | VNumber a, VNumber b => f64_eqb (number_as_f64 a) (number_as_f64 b)
     | VString s, VNumber n =>
         match f64_from_str s with Some f => f64_eqb f (number_as_f64 n) | None => false end
     | VNumber n, VString s =>
         match f64_from_str s with Some f => f64_eqb (number_as_f64 n) f | None => false end
     | _, _ => false
     end.

Definition value_as_f64 (v : Value) : option f64 :=
  match v with
  | VNumber n => Some (number_as_f64 n)
  | VString s => f64_from_str s
  | VBool true => Some (f64_of_Z 1)
  | VBool false => Some f64_zero
  | _ => None
  end.

Definition parse_number_literal (value : string) : option Value :=
  match parse_i64 value with
  | Some i => Some (VNumber (number_from_i64 i))
  | None => f ← f64_from_str value; VNumber <$> number_from_f64 f
  end.

(** [CmmnResolvedLiteral::truthy]. *)
Definition resolved_truthy (v : Value) : bool :=
  match v with
  | VNull => false
  | VBool b => b
  | VString s => negb (bool_decide (s = ""))
  | VArray l => match l with [] => false | _ => true end
  | VObject m => match m with [] => false | _ => true end
  | VNumber n => negb (f64_eqb (number_as_f64 n) f64_zero)
  end.

Section EventEvaluation.
Context `{Display} `{Patterns} (get : string -> option Value).

Definition resolve (l : SentryIfPartLiteral) : option Value :=
  match l with
  | LBoolean b => Some (VBool b)
  | LString s => Some (VString s)
  | LNumber value => Some (unwrap_or VNull (parse_number_literal value))
  | LNull => Some VNull
  | LVariable name => get name
  end.

Definition truthy (l : SentryIfPartLiteral) : bool :=
  match resolve l with Some v => resolved_truthy v | None => false end.

Definition equals_value (l : SentryIfPartLiteral) (candidate : Value) : bool :=
  match resolve l with Some v => loosely_equal v candidate | None => false end.

(** [as_string]: the text, or the JSON text of another value. *)
Definition as_string (l : SentryIfPartLiteral) : option string :=
  text_of <$> resolve l.

Definition apply_numeric (l : SentryIfPartLiteral) (op : SentryIfPartOperator) (actual : Z)
  : result string bool :=
  match l with
  | LNumber value =>
      match parse_i64 value with
      | Some n => Ok (compare_numbers actual op n)
      | None => Err ("Size/Length literal must be a number, got '" +:+ value +:+ "'")
      end
  | _ => Err "Size/Length literal must be a numeric literal"
  end.

Definition not_comparable : string := "ordering comparisons require comparable numeric values".

Definition apply (l : SentryIfPartLiteral) (actual : option Value) (op : SentryIfPartOperator)
  : result string bool :=
  let equal := match resolve l, actual with
               | Some lhs, Some rhs => loosely_equal lhs rhs
               | Some lhs, None => loosely_equal lhs VNull
               | None, Some _ => false
               | None, None => true
               end in
  let order (test : f64 -> f64 -> bool) :=
    lhs ← ok_or not_comparable (v ← actual; value_as_f64 v);
    rhs ← ok_or not_comparable (v ← resolve l; value_as_f64 v);
    Ok (test lhs rhs) in
  match op with
  | Equal => Ok equal
  | NotEqual => Ok (negb equal)
  | GreaterThan => order (fun a b => f64_ltb b a)
  | GreaterThanOrEqual => order (fun a b => f64_leb b a)
  | LessThan => order f64_ltb
  | LessThanOrEqual => order f64_leb
  end.

(** All operands are evaluated: the loop does not stop early. *)
Fixpoint fold_operands {A} (eval : A -> result string bool) (op : SentryIfPartLogicalOperator)
  (acc : bool) (operands : list A) : result string bool :=
  match operands with
  | [] => Ok acc
  | operand :: r =>
      value ← eval operand;
      fold_operands eval op (match op with And => acc && value | Or => acc || value end) r
  end.

Definition text_at (name : string) : option string := v ← get name; as_str v.

Fixpoint evaluate (e : CmmnSentryIfPartExpression) : result string bool :=
  match e with
  | CLiteral l => Ok (truthy l)
  | CComparison c => apply (literal c) (get (variable_name c)) (operator c)
  | CLogical op operands =>
      match operands with
      | [] => Ok false
      | first :: rest => acc ← evaluate first; fold_operands evaluate op acc rest
      end
  | CNot operand => b ← evaluate operand; Ok (negb b)
  | CEmpty name => Ok (if_part_variable_is_empty (get name))
  | CContains name value expected =>
      let matched := match get name with
                     | Some (VArray items) => existsb (equals_value value) items
                     | Some (VString s) =>
                         match as_string value with Some needle => str_contains s needle | None => false end
                     | _ => false
                     end in
      Ok (Bool.eqb matched expected)
  | CStartsWith name prefix =>
      Ok match text_at name with Some s => starts_with prefix s | None => false end
  | CEndsWith name suffix =>
      Ok match text_at name with Some s => str_ends_with s suffix | None => false end
  | CMatches name regex =>
      match regex_new regex with
      | Err error => Err ("invalid regex in sentry ifPart: " +:+ error)
      | Ok re => Ok match text_at name with Some s => re s | None => false end
      end
  | CSize name op l =>
      match get name with
      | Some (VArray _ as v) | Some (VString _ as v) | Some (VObject _ as v) =>
          apply_numeric l op (unwrap_or 0%Z (if_part_size v))
      | _ => Ok false
      end
  | CLength name op l =>
      match get name with
      | Some (VArray _ as v) | Some (VString _ as v) => apply_numeric l op (unwrap_or 0%Z (if_part_size v))
      | _ => Ok false
      end
  | CMethodCall _ _ _ => Err "C1 sentry ifPart does not yet support method calls"
  | CArithmetic _ _ _ => Err "C1 sentry ifPart does not yet support arithmetic expressions"
  | CTernary _ _ _ => Err "C1 sentry ifPart does not yet support ternary expressions"
  | CPropertyAccess _ _ | CIndexAccess _ _ =>
      Err "C1 sentry ifPart does not yet support property/index access"
  end.

Record SentryLifecycleEvent := mkEvent { source_id : string; event_name : string }.

Definition evaluate_for_event (s : CmmnSentry) (event : SentryLifecycleEvent) : bool :=
  forallb (fun p => bool_decide (source_ref p = source_id event)
                    && bool_decide (standard_event p = event_name event)) (plan_item_on_parts s)
  && forallb (fun p => bool_decide (case_file_item_ref p = source_id event)
                       && bool_decide (file_standard_event p = event_name event))
       (case_file_item_on_parts s)
  && match if_part s with
     | Some e => match evaluate e with Ok b => b | Err _ => false end
     | None => true
     end.
End EventEvaluation.

(** ** CMMN: the two evaluators of conditions

    The engine evaluates a sentry's condition in two ways: [evaluate_to_bool]
    at run time ([CmmnCondition]) and [evaluate] against a single event
    ([CmmnSentry]).  They agree on tests of truth, null, emptiness and text of
    variables by name, and their Boolean combinations. *)

(** A variable's name, without properties or indices. *)
Definition is_root (name : string) : Prop :=
  word_token name = TIdentifier name /\
  match bytes name with
  | first :: l => is_identifier_start_byte first = true /\ forallb is_identifier_byte l = true
  | [] => False
  end.

Lemma root_path variables name : is_root name -> path variables name = map_get name variables.
Proof.
  intros [_ Hb]. unfold path, resolve_if_part_variable_path.
  destruct (bytes name) as [|first l] eqn:E; [done|]. destruct Hb as [-> Hl].
  rewrite span_all by done. rewrite <- E, String.string_of_list_ascii_of_string. simpl.
  by destruct (map_get name variables).
Qed.

Lemma identifier_ascii a : is_identifier_byte a = true -> (byte_of a < 128)%Z.
Proof. destruct a as [[] [] [] [] [] [] [] []]; vm_compute; (discriminate || done). Qed.

Lemma start_identifier a : is_identifier_start_byte a = true -> is_identifier_byte a = true.
Proof.
  unfold is_identifier_start_byte, is_identifier_byte. intros Ha.
  by destruct (is_ascii_alphabetic _), (is_digit a), (is_byte a "_").
Qed.

Lemma root_is_path name : is_root name -> is_path name.
Proof.
  intros [Hw Hb]. destruct (bytes name) as [|first l] eqn:E; [done|]. destruct Hb as [Hf Hl].
  split_and!; [|done|].
  - unfold is_supported_if_part_variable_name. by rewrite E, Hf, span_all.
  - assert (Ha : Forall (fun a => (byte_of a < 128)%Z) (first :: l)).
    { constructor; [by apply identifier_ascii, start_identifier|].
      apply Forall_forall. intros a Ha. apply identifier_ascii.
      rewrite forallb_forall in Hl. by apply Hl, list_elem_of_In. }
    unfold well_encoded. rewrite <- (String.string_of_list_ascii_of_string name), E.
    by rewrite chars_ascii, of_chars_ascii.
Qed.

(** The conditions both evaluators support with the same result. *)
Fixpoint shared (e : CmmnSentryIfPartExpression) : Prop :=
  match e with
  | CComparison c =>
      is_root (variable_name c) /\ is_equality (operator c) = true
      /\ match literal c with LBoolean _ | LNull => True | _ => False end
  | CLogical _ l => l ≠ [] /\ foldr (fun e rest => shared e /\ rest) True l
  | CNot e => shared e
  | CEmpty name | CStartsWith name _ | CEndsWith name _ => is_root name
  | _ => False
  end.

Lemma shared_all l :
  foldr (fun e rest => shared e /\ rest) True l -> Forall shared l.
Proof. induction l as [|e l IH]; simpl; [by constructor|]. intros [? ?]. constructor; auto. Qed.

Lemma shared_paths e : shared e -> path_operands e.
Proof.
  induction e as [e Hl|op l Hl|e IH|l op r IHl IHr|c t f IHc IHt IHf|e p IH|e i IHe IHi]
    using condition_induction; try done.
  - destruct e; try done; simpl; intros Hs; [|done..].
    destruct Hs as (Hr & _ & Hlit). split; [by apply root_is_path|].
    by destruct (literal condition).
  - simpl. intros [_ Hs]. clear op. induction Hl as [|e l He _ IH]; simpl in *; [done|].
    destruct Hs. split; [by apply He|by apply IH].
Qed.

Section Agreement.
Context `{Display} `{NumberReader} `{Patterns} (variables : list (string * Value)).

Let get (name : string) : option Value := map_get name variables.

Lemma root_value name : is_root name -> operand_value variables name = unwrap_or VNull (get name).
Proof. intros Hr. unfold operand_value. by rewrite root_path. Qed.

Lemma equality_agrees c :
  is_root (variable_name c) -> is_equality (operator c) = true ->
  match literal c with LBoolean _ | LNull => True | _ => False end ->
  apply get (literal c) (get (variable_name c)) (operator c)
  = Ok (is_truthy (meaning variables (CComparison c))).
Proof.
  intros Hr Ho Hl. cbn [meaning is_truthy]. rewrite root_value by done. unfold apply.
  assert (He : match resolve get (literal c), get (variable_name c) with
               | Some lhs, Some rhs => loosely_equal lhs rhs
               | Some lhs, None => loosely_equal lhs VNull
               | None, Some _ => false
               | None, None => true
               end = option_eqb (comparable (unwrap_or VNull (get (variable_name c))))
                       (literal_meaning variables (literal c))).
  { destruct (literal c) as [b| | | |]; try done; destruct (get (variable_name c)) as [[| | | | |]|];
      simpl; try done; by destruct b; try destruct b0. }
  rewrite He. by destruct (operator c).
Qed.

Lemma fold_and eval l acc m :
  (forall e : CmmnSentryIfPartExpression, e ∈ l -> eval e = Ok (m e)) ->
  fold_operands eval And acc l = Ok (acc && forallb m l)
  /\ fold_operands eval Or acc l = Ok (acc || existsb m l).
Proof.
  revert acc. induction l as [|e l IH]; intros acc He; simpl.
  { by rewrite andb_true_r, orb_false_r. }
  rewrite He by set_solver. simpl.
  destruct (IH (acc && m e)) as [-> _]; [set_solver|]. destruct (IH (acc || m e)) as [_ ->]; [set_solver|].
  by rewrite andb_assoc, orb_assoc.
Qed.

Lemma event_evaluation e :
  shared e -> evaluate get e = Ok (is_truthy (meaning variables e)).
Proof.
  assert (Htext : forall name test, is_root name ->
    match text_at get name with Some s => test s | None => false end
    = is_truthy (text_meaning variables name test)).
  { intros name test Hr. unfold text_at, text_meaning. rewrite root_value by done.
    by destruct (get name) as [[]|]. }
  induction e as [e Hl|op l Hl|e IH|l op r IHl IHr|c t f IHc IHt IHf|e p IH|e i IHe IHi]
    using condition_induction; try done.
  - destruct e; try done; cbn [shared evaluate]; intros Hs.
    + destruct Hs as (? & ? & ?). by apply equality_agrees.
    + cbn [meaning is_truthy]. rewrite root_value by done. by destruct (get variable_name).
    + by rewrite Htext.
    + by rewrite Htext.
  - cbn [shared evaluate]. intros [Hne Hs%shared_all].
    assert (He : forall e, e ∈ l -> evaluate get e = Ok (is_truthy (meaning variables e))).
    { intros e He. rewrite Forall_forall in Hl, Hs. by apply Hl, Hs. }
    destruct l as [|e l]; [done|]. rewrite He by set_solver. simpl.
    destruct (fold_and (evaluate get) l (is_truthy (meaning variables e))
                (fun e => is_truthy (meaning variables e))) as [Ha Ho]; [set_solver|].
    destruct op; [rewrite Ha|rewrite Ho]; by cbn [meaning is_truthy forallb existsb].
  - cbn [shared evaluate]. intros Hs. by rewrite IH.
Qed.

(** On the conditions both support, the evaluator for a single event and
    the run-time evaluator give the same truth value. *)
Theorem evaluators_agree e fuel :
  shared e -> bool_height e <= MAX_IF_PART_EVAL_DEPTH -> bool_height e < fuel ->
  exists b, evaluate (fun name => map_get name variables) e = Ok b
    /\ evaluate_to_bool variables fuel e = Ok b.
Proof.
  intros Hs Hh Hf. exists (is_truthy (meaning variables e)). split; [by apply event_evaluation|].
  apply computes_bool; [apply condition_computes|by apply shared_paths|done|done].
Qed.
End Agreement.
