(* ===== verification/CmmnTables.v ===== *)
(** * CMMN: the tables of the engine and the case model

    The rows [flowable-cmmn-engine/src/runtime.rs] reads and writes through a
    [DbSession], with the columns the modelled functions use, and the parts of
    a deployed case they walk ([models.rs]): plan items, stages, sentries,
    listeners.

    A table whose primary key the functions look up or replace by
    ([INSERT OR REPLACE], [ON CONFLICT DO UPDATE]) is a map from that key; the
    others are lists of rows.  No query of these functions has an [ORDER BY],
    so the order of a map's rows is one a database may choose.  A session
    queues its inserts and flushes them before every select; the functions
    read a table again before they delete from it, so a write is modelled as
    taking effect at once.  A statement the database refuses is outside the
    model.

    At the end, [flowable-cmmn-engine/src/lifecycle_listener.rs] and the
    functions of [runtime.rs] that fire listeners from a transition: the filter
    on the old and the new state, the three kinds of implementation, and the
    variables an expression sees.  A handler gets the context and not the
    session, so it is a function from the context to its outcome; the registry
    that the service installs for the command is a parameter, absent when none
    is installed. *)
From Stdlib Require Import Ascii.
From S2P Require Import Prelude Chars Json ElValues ElCompiler ElExpression CmmnTokens CmmnCondition CmmnSentry.

(** ** States *)
Inductive CmmnHumanTaskState : Set := Available | Enabled | Active | Disabled | Completed | Terminated.

Module StageState.
Inductive CmmnStageInstanceState : Set := Available | Enabled | Active | Completed | Terminated.

Definition stage_as_str (st : CmmnStageInstanceState) : string :=
  match st with
  | Available => "AVAILABLE"
  | Enabled => "ENABLED"
  | Active => "ACTIVE"
  | Completed => "COMPLETED"
  | Terminated => "TERMINATED"
  end.
End StageState.

Module CaseState.
Inductive CmmnCaseInstanceState : Set := Active | Completed | Terminated | Suspended.

Definition case_as_str (st : CmmnCaseInstanceState) : string :=
  match st with
  | Active => "ACTIVE"
  | Completed => "COMPLETED"
  | Terminated => "TERMINATED"
  | Suspended => "SUSPENDED"
  end.
End CaseState.

Module AssociationState.
Inductive CmmnTaskAssociationState : Set := Active | Completed | Failed.
End AssociationState.

Definition task_as_str (st : CmmnHumanTaskState) : string :=
  match st with
  | Available => "AVAILABLE"
  | Enabled => "ENABLED"
  | Active => "ACTIVE"
  | Disabled => "DISABLED"
  | Completed => "COMPLETED"
  | Terminated => "TERMINATED"
  end.

#[export] Instance human_task_state_eq_dec : EqDecision CmmnHumanTaskState.
Proof. solve_decision. Defined.
#[export] Instance stage_state_eq_dec : EqDecision StageState.CmmnStageInstanceState.
Proof. solve_decision. Defined.
#[export] Instance case_state_eq_dec : EqDecision CaseState.CmmnCaseInstanceState.
Proof. solve_decision. Defined.
#[export] Instance association_state_eq_dec : EqDecision AssociationState.CmmnTaskAssociationState.
Proof. solve_decision. Defined.

(** ** The case model *)
Record CmmnPlanItem := mkPlanItem {
  plan_item_id : string;
  definition_ref : string;
  plan_item_name : option string;
  entry_criterion_ids : list string;
  exit_criterion_ids : list string;
  manual_activation_rule : option CmmnSentryIfPartExpression;
  repetition_rule : option CmmnSentryIfPartExpression;
  required_rule : option CmmnSentryIfPartExpression;
  parent_completion_rule : option string;
  completion_neutral_rule : option CmmnSentryIfPartExpression
}.

(** What a stage and the case plan model have besides their contents;
    [discretionary] are the ids of the items of the planning tables, in
    order. *)
Record StageHeader := mkHeader {
  stage_definition_id : string;
  stage_name : string;
  auto_complete : bool;
  auto_complete_condition : option CmmnSentryIfPartExpression;
  discretionary : list string
}.

(** A stage or the case plan model, and the view of it as a container. *)
Inductive ContainerView : Type :=
| Container (header : StageHeader) (plan_items : list CmmnPlanItem) (stages : list ContainerView)
    (sentries : list CmmnSentry).

Definition header (c : ContainerView) : StageHeader := let '(Container h _ _ _) := c in h.
Definition plan_items (c : ContainerView) : list CmmnPlanItem := let '(Container _ l _ _) := c in l.
Definition stages (c : ContainerView) : list ContainerView := let '(Container _ _ l _) := c in l.
Definition sentries (c : ContainerView) : list CmmnSentry := let '(Container _ _ _ l) := c in l.

Inductive CmmnListenerImplementationType : Set := ListenerClass | ListenerExpression | DelegateExpression.

Record CmmnLifecycleListener := mkListener {
  implementation_type : CmmnListenerImplementationType;
  implementation : string;
  source_state : option string;
  target_state : option string
}.

Record CmmnCase := mkCase {
  case_plan_model : ContainerView;
  lifecycle_listeners : list CmmnLifecycleListener;
  plan_item_lifecycle_listeners : gmap string (list CmmnLifecycleListener)
}.

Record CmmnCaseDefinition := mkCaseDefinition {
  case_definition_id : string;
  model : CmmnCase
}.

(** ** Rows *)
Record PlanItemEvent := mkPlanItemEvent {
  event_id : string;
  event_case_instance_id : string;
  event_plan_item_id : string;
  event_standard_event : string;
  occurred_at : string
}.

Record HumanTask := mkHumanTask {
  task_id : string;
  task_case_instance_id : string;
  task_stage_instance_id : option string;
  task_plan_item_id : string;
  task_definition_id : string;
  task_state : CmmnHumanTaskState;
  task_completed_at : option string
}.

Record CmmnStageInstance := mkStageInstance {
  si_id : string;
  si_case_instance_id : string;
  si_case_definition_id : string;
  si_parent_stage_instance_id : option string;
  si_plan_item_id : string;
  si_stage_definition_id : string;
  si_name : string;
  si_activated_at : string;
  si_ended_at : option string;
  si_state : StageState.CmmnStageInstanceState
}.

(** The unified plan item instances; [pi_state] is text. *)
Record CmmnPlanItemInstance := mkPlanItemInstance {
  pi_id : string;
  pi_case_instance_id : string;
  pi_case_definition_id : string;
  pi_stage_instance_id : option string;
  pi_plan_item_id : string;
  pi_plan_item_definition_id : string;
  pi_plan_item_definition_type : string;
  pi_name : string;
  pi_state : string;
  pi_created_at : string;
  pi_last_enabled_at : option string;
  pi_ended_at : option string
}.

Record EventSubscription := mkSubscription {
  sub_case_instance_id : option string;
  sub_plan_item_id : option string
}.

Record TaskAssociation := mkAssociation {
  assoc_case_instance_id : string;
  assoc_stage_instance_id : option string;
  assoc_plan_item_id : string;
  assoc_state : AssociationState.CmmnTaskAssociationState
}.

Record CmmnJob := mkCmmnJob {
  job_family : string;
  job_scope_id : option string;
  job_sub_scope_id : option string
}.

Record CmmnCaseInstance := mkCaseInstance {
  instance_id : string;
  instance_case_definition_id : string;
  instance_variables : list (string * Value);
  instance_tenant_id : option string;
  instance_state : CaseState.CmmnCaseInstanceState;
  instance_ended_at : option string
}.

(** ** The session: the tables, and the events of its command, a thread-local set *)
Record CmmnSession := mkSession {
  plan_item_events : list PlanItemEvent;
  human_tasks : list HumanTask;
  human_task_history : list HumanTask;
  stage_instances : gmap string CmmnStageInstance;
  stage_history : gmap string CmmnStageInstance;
  plan_item_instances : gmap string CmmnPlanItemInstance;
  event_subscriptions : list EventSubscription;
  task_associations : list TaskAssociation;
  cmmn_jobs : list CmmnJob;
  case_instances : gmap string CmmnCaseInstance;
  case_history : gmap string CmmnCaseInstance;
  case_definitions : gmap string CmmnCaseDefinition;
  command_events : gset (string * string);
  rows_written : nat
}.

Definition empty_tables : CmmnSession := mkSession [] [] [] ∅ ∅ ∅ [] [] [] ∅ ∅ ∅ ∅ 0.

(** [Uuid::new_v4] and [Utc::now().to_rfc3339()] of the n-th row. *)
Class RowSource := {
  new_v4 : nat -> string;
  now_rfc3339 : nat -> string
}.

(** ** Updates of one table *)
Definition set_plan_item_events (x : list PlanItemEvent) (s : CmmnSession) : CmmnSession :=
  mkSession x (human_tasks s) (human_task_history s) (stage_instances s) (stage_history s)
    (plan_item_instances s) (event_subscriptions s) (task_associations s) (cmmn_jobs s)
    (case_instances s) (case_history s) (case_definitions s) (command_events s) (rows_written s).
Definition set_human_tasks (x : list HumanTask) (s : CmmnSession) : CmmnSession :=
  mkSession (plan_item_events s) x (human_task_history s) (stage_instances s) (stage_history s)
    (plan_item_instances s) (event_subscriptions s) (task_associations s) (cmmn_jobs s)
    (case_instances s) (case_history s) (case_definitions s) (command_events s) (rows_written s).
Definition set_human_task_history (x : list HumanTask) (s : CmmnSession) : CmmnSession :=
  mkSession (plan_item_events s) (human_tasks s) x (stage_instances s) (stage_history s)
    (plan_item_instances s) (event_subscriptions s) (task_associations s) (cmmn_jobs s)
    (case_instances s) (case_history s) (case_definitions s) (command_events s) (rows_written s).
Definition set_stage_instances (x : gmap string CmmnStageInstance) (s : CmmnSession) : CmmnSession :=
  mkSession (plan_item_events s) (human_tasks s) (human_task_history s) x (stage_history s)
    (plan_item_instances s) (event_subscriptions s) (task_associations s) (cmmn_jobs s)
    (case_instances s) (case_history s) (case_definitions s) (command_events s) (rows_written s).
Definition set_stage_history (x : gmap string CmmnStageInstance) (s : CmmnSession) : CmmnSession :=
  mkSession (plan_item_events s) (human_tasks s) (human_task_history s) (stage_instances s) x
    (plan_item_instances s) (event_subscriptions s) (task_associations s) (cmmn_jobs s)
    (case_instances s) (case_history s) (case_definitions s) (command_events s) (rows_written s).
Definition set_plan_item_instances (x : gmap string CmmnPlanItemInstance) (s : CmmnSession) : CmmnSession :=
  mkSession (plan_item_events s) (human_tasks s) (human_task_history s) (stage_instances s)
    (stage_history s) x (event_subscriptions s) (task_associations s) (cmmn_jobs s)
    (case_instances s) (case_history s) (case_definitions s) (command_events s) (rows_written s).
Definition set_event_subscriptions (x : list EventSubscription) (s : CmmnSession) : CmmnSession :=
  mkSession (plan_item_events s) (human_tasks s) (human_task_history s) (stage_instances s)
    (stage_history s) (plan_item_instances s) x (task_associations s) (cmmn_jobs s)
    (case_instances s) (case_history s) (case_definitions s) (command_events s) (rows_written s).
Definition set_cmmn_jobs (x : list CmmnJob) (s : CmmnSession) : CmmnSession :=
  mkSession (plan_item_events s) (human_tasks s) (human_task_history s) (stage_instances s)
    (stage_history s) (plan_item_instances s) (event_subscriptions s) (task_associations s) x
    (case_instances s) (case_history s) (case_definitions s) (command_events s) (rows_written s).
Definition set_case_instances (x : gmap string CmmnCaseInstance) (s : CmmnSession) : CmmnSession :=
  mkSession (plan_item_events s) (human_tasks s) (human_task_history s) (stage_instances s)
    (stage_history s) (plan_item_instances s) (event_subscriptions s) (task_associations s)
    (cmmn_jobs s) x (case_history s) (case_definitions s) (command_events s) (rows_written s).
Definition set_case_history (x : gmap string CmmnCaseInstance) (s : CmmnSession) : CmmnSession :=
  mkSession (plan_item_events s) (human_tasks s) (human_task_history s) (stage_instances s)
    (stage_history s) (plan_item_instances s) (event_subscriptions s) (task_associations s)
    (cmmn_jobs s) (case_instances s) x (case_definitions s) (command_events s) (rows_written s).
Definition set_command_events (x : gset (string * string)) (s : CmmnSession) : CmmnSession :=
  mkSession (plan_item_events s) (human_tasks s) (human_task_history s) (stage_instances s)
    (stage_history s) (plan_item_instances s) (event_subscriptions s) (task_associations s)
    (cmmn_jobs s) (case_instances s) (case_history s) (case_definitions s) x (rows_written s).
Definition set_rows_written (x : nat) (s : CmmnSession) : CmmnSession :=
  mkSession (plan_item_events s) (human_tasks s) (human_task_history s) (stage_instances s)
    (stage_history s) (plan_item_instances s) (event_subscriptions s) (task_associations s)
    (cmmn_jobs s) (case_instances s) (case_history s) (case_definitions s) (command_events s) x.

(** The rows of a table with a primary key. *)
Definition rows {A} (table : gmap string A) : list A := (map_to_list table).*2.

(** [INSERT .. ON CONFLICT DO UPDATE] in a table that is a list. *)
Fixpoint upsert {A} (key : A -> string) (row : A) (l : list A) : list A :=
  match l with
  | [] => [row]
  | r :: l => if bool_decide (key r = key row) then row :: l else r :: upsert key row l
  end.

Lemma elem_of_rows {A} (table : gmap string A) row :
  row ∈ rows table <-> exists k, table !! k = Some row.
Proof.
  unfold rows. rewrite list_elem_of_fmap. split.
  - intros ([k r] & -> & Hin). exists k. by apply elem_of_map_to_list.
  - intros [k Hk]. exists (k, row). split; [done|]. by apply elem_of_map_to_list.
Qed.

(** ** Lifecycle listeners *)

Inductive CmmnLifecycleScope : Set := ScopeCaseInstance | ScopePlanItem.

Record CmmnLifecycleListenerContext := mkListenerContext {
  ctx_scope : CmmnLifecycleScope;
  ctx_case_instance_id : string;
  ctx_case_definition_id : string;
  ctx_plan_item_instance_id : option string;
  ctx_plan_item_definition_id : option string;
  ctx_plan_item_definition_type : option string;
  ctx_old_state : string;
  ctx_new_state : string;
  ctx_tenant_id : option string;
  ctx_variables : list (string * Value)
}.

(** What stops a transition: an error or the fuel of a condition; an
    expression of a listener, with the error its message ends in; or the fuel
    of the model's own recursion. *)
Inductive LifecycleStop : Type :=
| Evaluation (e : EvalStop)
| ListenerExpressionFailed (expression : string) (stop : Stop)
| Exhausted.

Definition raise_cmmn {A} (e : CmmnError) : result LifecycleStop A := Err (Evaluation (Raised e)).

Record CmmnLifecycleListenerRegistry := mkListenerRegistry {
  handlers : gmap string (CmmnLifecycleListenerContext -> result CmmnError unit);
  expression_methods : ExpressionMethodRegistry
}.

(** ** Filters *)
Definition state_matches (expected : option string) (actual : string) : bool :=
  match expected with
  | None => true
  | Some expected => eq_ignore_ascii_case expected actual
  end.

Definition listener_matches (l : CmmnLifecycleListener) (old_state new_state : string) : bool :=
  state_matches (source_state l) old_state && state_matches (target_state l) new_state.

(** ** One listener *)
Definition delegate_expression_bean_name (implementation : string) : string :=
  let trimmed := trim implementation in
  let rest := match strip_prefix "${" trimmed with
              | Some rest => Some rest
              | None => strip_prefix "#{" trimmed
              end in
  match rest ≫= strip_last "}" with
  | Some name => trim name
  | None => trimmed
  end.

(** [Map::insert] of the value when there is one. *)
Definition insert_text (key : string) (value : option string) (m : list (string * Value))
  : list (string * Value) :=
  match value with Some v => map_insert key (VString v) m | None => m end.

Definition expression_scope (ctx : CmmnLifecycleListenerContext) : VariableContainer :=
  let variables :=
    insert_text "planItemDefinitionId" (ctx_plan_item_definition_id ctx)
      (insert_text "planItemInstanceId" (ctx_plan_item_instance_id ctx)
        (map_insert "newState" (VString (ctx_new_state ctx))
          (map_insert "oldState" (VString (ctx_old_state ctx))
            (map_insert "caseInstanceId" (VString (ctx_case_instance_id ctx)) (ctx_variables ctx))))) in
  mkScope (fun name => map_get name variables) (ctx_tenant_id ctx) None.

Section Listeners.
(** [ambient]: the method registry of the thread; [registry]: the current
    lifecycle listener registry. *)
Context `{Display} `{Unicode} (ambient : ExpressionMethodRegistry)
  (registry : option CmmnLifecycleListenerRegistry).

Definition invoke_registered_listener (name : string) (ctx : CmmnLifecycleListenerContext)
  : result LifecycleStop unit :=
  match registry ≫= (fun r => handlers r !! name) with
  | Some handler => map_err (fun e => Evaluation (Raised e)) (handler ctx)
  | None =>
      raise_cmmn (Execution ("no CMMN lifecycle listener `" +:+ name
        +:+ "` is registered on the engine (Java would resolve "
        +:+ "it as a class or Spring bean; register it with "
        +:+ "`CmmnEngine::register_lifecycle_listener`)"))
  end.

Definition evaluate_expression_listener (implementation : string) (ctx : CmmnLifecycleListenerContext)
  : result LifecycleStop unit :=
  let trimmed := trim implementation in
  if bool_decide (trimmed = "") then Ok tt
  else
    let methods := match registry with Some r => expression_methods r | None => ambient end in
    match get_value_strict methods (expression_scope ctx) trimmed with
    | Some (Ok _) => Ok tt
    | Some (Err stop) => Err (ListenerExpressionFailed trimmed stop)
    | None => Err Exhausted
    end.

Definition execute_lifecycle_listener (l : CmmnLifecycleListener) (ctx : CmmnLifecycleListenerContext)
  : result LifecycleStop unit :=
  match implementation_type l with
  | ListenerExpression => evaluate_expression_listener (implementation l) ctx
  | ListenerClass => invoke_registered_listener (implementation l) ctx
  | DelegateExpression =>
      invoke_registered_listener (delegate_expression_bean_name (implementation l)) ctx
  end.

(** The loop over the listeners. *)
Fixpoint execute_matching (listeners : list CmmnLifecycleListener) (ctx : CmmnLifecycleListenerContext)
  : result LifecycleStop unit :=
  match listeners with
  | [] => Ok tt
  | l :: r =>
      if negb (listener_matches l (ctx_old_state ctx) (ctx_new_state ctx)) then execute_matching r ctx
      else _ ← execute_lifecycle_listener l ctx; execute_matching r ctx
  end.

Definition fire_matching_lifecycle_listeners (listeners : list CmmnLifecycleListener)
  (ctx : CmmnLifecycleListenerContext) : result LifecycleStop unit :=
  if eq_ignore_ascii_case (ctx_old_state ctx) (ctx_new_state ctx) then Ok tt
  else match listeners with [] => Ok tt | _ => execute_matching listeners ctx end.

(** ** The sites in the runtime *)
Definition plan_item_listeners (m : CmmnCase) (definition_id : string) : list CmmnLifecycleListener :=
  default [] (plan_item_lifecycle_listeners m !! definition_id).

Definition fire_case_lifecycle_listeners_for_model (m : CmmnCase) (ci : CmmnCaseInstance)
  (old_state new_state : string) : result LifecycleStop unit :=
  fire_matching_lifecycle_listeners (lifecycle_listeners m)
    (mkListenerContext ScopeCaseInstance (instance_id ci) (instance_case_definition_id ci) None None None
       (to_ascii_lowercase old_state) (to_ascii_lowercase new_state)
       (instance_tenant_id ci) (instance_variables ci)).

Definition fire_case_lifecycle_listeners_session (s : CmmnSession) (ci : CmmnCaseInstance)
  (old_state new_state : string) : result LifecycleStop unit :=
  if eq_ignore_ascii_case old_state new_state then Ok tt
  else match case_definitions s !! instance_case_definition_id ci with
       | Some def => fire_case_lifecycle_listeners_for_model (model def) ci old_state new_state
       | None => Ok tt
       end.

Definition fire_plan_item_lifecycle_listeners_for_model (m : CmmnCase) (ci : CmmnCaseInstance)
  (plan_item_instance_id : option string) (definition_id : string) (definition_type : option string)
  (old_state new_state : string) : result LifecycleStop unit :=
  match plan_item_listeners m definition_id with
  | [] => Ok tt
  | listeners =>
      fire_matching_lifecycle_listeners listeners
        (mkListenerContext ScopePlanItem (instance_id ci) (instance_case_definition_id ci)
           plan_item_instance_id (Some definition_id) definition_type
           (to_ascii_lowercase old_state) (to_ascii_lowercase new_state)
           (instance_tenant_id ci) (instance_variables ci))
  end.

(** A missing case instance or definition fires nothing. *)
Definition fire_plan_item_lifecycle_listeners_session (s : CmmnSession) (case_instance_id : string)
  (plan_item_instance_id : option string) (definition_id : string) (definition_type : option string)
  (old_state new_state : string) : result LifecycleStop unit :=
  if eq_ignore_ascii_case old_state new_state then Ok tt
  else match case_instances s !! case_instance_id with
       | None => Ok tt
       | Some ci =>
           match case_definitions s !! instance_case_definition_id ci with
           | None => Ok tt
           | Some def =>
               fire_plan_item_lifecycle_listeners_for_model (model def) ci plan_item_instance_id
                 definition_id definition_type old_state new_state
           end
       end.
End Listeners.
