(* ===== verification/CmmnSatisfaction.v ===== *)
(** * CMMN: the satisfaction of sentries at run time

    Models the part of [flowable-cmmn-engine/src/runtime.rs] that decides
    whether a sentry is satisfied: the events of the current command, the log
    of standard events (the table [ACT_CMMN_PLAN_ITEM_EVENT]), the persisted
    satisfaction of an [ifPart] and the sweep that records it, and the sentries
    an event selects for exit and entry criteria.

    The ids and times of new rows come from a supply, [RowSource].  The lifecycle an entry criterion starts is an argument.  [fuel] is that of
    the conditions.

    At the end, the attributes that may be expressions:
    [evaluate_available_condition_expression],
    [resolve_el_or_literal_string] and [resolve_candidate_list] of the same
    file.  An attribute between [${] and a brace is an expression of the
    engine's language ([ElExpression]); the available condition is otherwise a
    condition of [CmmnCondition].  The method registry of the process is a
    parameter. *)
From Stdlib Require Import Ascii.
From S2P Require Import Prelude Chars Json ElValues ElCompiler ElExpression CmmnTokens CmmnParser CmmnCondition CmmnSentry CmmnTables.

Definition CM (A : Type) : Type := stM CmmnSession EvalStop A.

Fixpoint find_container_with_direct_plan_item (c : ContainerView) (id : string) : option ContainerView :=
  match c with
  | Container _ items stages _ =>
      if existsb (fun p => bool_decide (plan_item_id p = id)) items then Some c
      else find_map (fun stage => find_container_with_direct_plan_item stage id) stages
  end.

(** ** The events of the command *)
Definition reset_command_event_scope : CM unit :=
  modify (set_command_events ∅).

Definition record_command_event (item event : string) : CM unit :=
  modify (fun s => set_command_events ({[ (item, event) ]} ∪ command_events s) s).

Definition command_event_recorded (item event : string) : CM bool :=
  s ← get; mret (bool_decide ((item, event) ∈ command_events s)).

(** ** The log of standard events *)
Definition STANDARD_EVENT_COMPLETE : string := "complete".
Definition STANDARD_EVENT_TERMINATE : string := "terminate".
Definition SENTRY_IF_PART_SATISFIED_EVENT : string := "ifPartSatisfied".

Definition is_event (case_id item event : string) (row : PlanItemEvent) : bool :=
  bool_decide (event_case_instance_id row = case_id) && bool_decide (event_plan_item_id row = item)
  && bool_decide (event_standard_event row = event).

(** [SELECT COUNT ... > 0]. *)
Definition occurred (s : CmmnSession) (case_id item event : string) : bool :=
  existsb (is_event case_id item event) (plan_item_events s).

Definition plan_item_standard_event_occurred (case_id item event : string) : CM bool :=
  s ← get; mret (occurred s case_id item event).

Definition set_events (events : list PlanItemEvent) (n : nat) (s : CmmnSession) : CmmnSession :=
  set_rows_written n (set_plan_item_events events s).

Definition record_plan_item_standard_event_session `{RowSource} (case_id item event : string) : CM unit :=
  modify (fun s =>
    let n := rows_written s in
    set_events (plan_item_events s ++
      [mkPlanItemEvent ("cmmn-plan-item-event:" +:+ new_v4 n) case_id item event (now_rfc3339 n)])
      (S n) s).

Definition record_sentry_if_part_satisfied `{RowSource} (case_id sentry : string) : CM unit :=
  record_plan_item_standard_event_session case_id sentry SENTRY_IF_PART_SATISFIED_EVENT.

(** [DELETE FROM ACT_CMMN_PLAN_ITEM_EVENT WHERE ...]. *)
Definition delete_sentry_if_part_satisfied (case_id sentry : string) : CM unit :=
  modify (fun s => set_events
    (List.filter (fun row => negb (is_event case_id sentry SENTRY_IF_PART_SATISFIED_EVENT row))
       (plan_item_events s)) (rows_written s) s).

Definition human_task_plan_item_reached_standard_event (case_id item event : string) : CM bool :=
  let expected := if bool_decide (event = STANDARD_EVENT_COMPLETE) then Some Completed
                  else if bool_decide (event = STANDARD_EVENT_TERMINATE) then Some Terminated
                  else None in
  match expected with
  | None => mret false
  | Some state =>
      s ← get;
      let reached := existsb (fun t => bool_decide (task_case_instance_id t = case_id)
                       && (bool_decide (task_plan_item_id t = item) && bool_decide (task_state t = state))) in
      mret (reached (human_tasks s) || reached (human_task_history s))
  end.

(** ** Satisfaction *)

(** A [for] loop over a list of the model. *)
Definition for_in {S E A} (body : A -> stM S E unit) : list A -> stM S E unit :=
  fix go l := match l with [] => mret tt | a :: r => body a ;; go r end.

(** [for on_part in parts { if !holds(on_part)? { return Ok(false) } }]. *)
Fixpoint all_parts {A} (holds : A -> CM bool) (parts : list A) : CM bool :=
  match parts with
  | [] => mret true
  | part :: r => b ← holds part; if b : bool then all_parts holds r else mret false
  end.

Definition on_part_satisfied (on_event : bool) (case_id : string) (p : CmmnPlanItemOnPart) : CM bool :=
  if on_event then command_event_recorded (source_ref p) (standard_event p)
  else
    logged ← plan_item_standard_event_occurred case_id (source_ref p) (standard_event p);
    if logged : bool then mret true
    else human_task_plan_item_reached_standard_event case_id (source_ref p) (standard_event p).

Definition sentry_plan_item_on_parts_satisfied (case_id : string) (s : CmmnSentry) : CM bool :=
  all_parts (on_part_satisfied (is_on_event_trigger_mode s) case_id) (plan_item_on_parts s).

Section Conditions.
Context `{Display} `{NumberReader} `{Patterns} `{RowSource} (fuel : nat).

Definition evaluate_if_part_condition (e : CmmnSentryIfPartExpression) (ci : CmmnCaseInstance)
  : result EvalStop bool :=
  evaluate_to_bool (instance_variables ci) fuel e.

Definition rule_matches (rule : option CmmnSentryIfPartExpression) (ci : CmmnCaseInstance)
  : result EvalStop bool :=
  match rule with Some e => evaluate_if_part_condition e ci | None => Ok false end.

Definition manual_activation_rule_matches (p : CmmnPlanItem) := rule_matches (manual_activation_rule p).
Definition repetition_rule_matches (p : CmmnPlanItem) := rule_matches (repetition_rule p).
Definition required_rule_matches (p : CmmnPlanItem) := rule_matches (required_rule p).

Definition sentry_if_part_matches (s : CmmnSentry) (ci : CmmnCaseInstance) : result EvalStop bool :=
  match if_part s with Some e => evaluate_if_part_condition e ci | None => Ok true end.

Definition sentry_if_part_satisfied (s : CmmnSentry) (ci : CmmnCaseInstance) : CM bool :=
  if negb (has_if_part s) then mret true
  else if is_multi_part s && is_default_trigger_mode s then
    marked ← plan_item_standard_event_occurred (instance_id ci) (sentry_id s)
               SENTRY_IF_PART_SATISFIED_EVENT;
    if marked : bool then mret true
    else
      holds ← lift (sentry_if_part_matches s ci);
      if holds : bool then
        record_sentry_if_part_satisfied (instance_id ci) (sentry_id s) ;; mret true
      else mret false
  else lift (sentry_if_part_matches s ci).

(** The sweep at one sentry. *)
Definition record_if_satisfied (ci : CmmnCaseInstance) (s : CmmnSentry) : CM unit :=
  if negb (has_if_part s) || negb (is_multi_part s) || negb (is_default_trigger_mode s) then mret tt
  else
    marked ← plan_item_standard_event_occurred (instance_id ci) (sentry_id s)
               SENTRY_IF_PART_SATISFIED_EVENT;
    if marked : bool then mret tt
    else
      holds ← lift (sentry_if_part_matches s ci);
      if holds : bool then record_sentry_if_part_satisfied (instance_id ci) (sentry_id s) else mret tt.

Fixpoint record_satisfied_sentry_if_parts_in_container (ci : CmmnCaseInstance) (c : ContainerView) : CM unit :=
  match c with
  | Container _ _ stages sentries =>
      for_in (record_if_satisfied ci) sentries ;;
      for_in (record_satisfied_sentry_if_parts_in_container ci) stages
  end.

(** [record_satisfied_sentry_if_parts]: the sweep from the case plan model. *)
Definition record_satisfied_sentry_if_parts (ci : CmmnCaseInstance) (case_plan_model : ContainerView) : CM unit :=
  record_satisfied_sentry_if_parts_in_container ci case_plan_model.

(** ** Selection *)

(** Whether a sentry is a criterion of one of the container's plan items. *)
Definition is_criterion (criteria : CmmnPlanItem -> list string) (items : list CmmnPlanItem)
  (s : CmmnSentry) : bool :=
  existsb (fun p => existsb (fun id => bool_decide (id = sentry_id s)) (criteria p)) items.

(** Whether the event is one of its [planItemOnPart]s. *)
Definition listens_to (source event : string) (s : CmmnSentry) : bool :=
  existsb (fun p => bool_decide (source_ref p = source) && bool_decide (standard_event p = event))
    (plan_item_on_parts s).

(** The loop over the sentries in [terminate_exit_criterion_dependents] (with
    the exit criteria) and [activate_entry_criterion_dependents] (with the
    entry criteria). *)
Fixpoint matching_sentry_ids (criteria : CmmnPlanItem -> list string) (items : list CmmnPlanItem)
  (ci : CmmnCaseInstance) (source event : string) (l : list CmmnSentry) : CM (list string) :=
  match l with
  | [] => mret []
  | s :: r =>
      selected ←
        (if is_criterion criteria items s && listens_to source event s then
           parts ← sentry_plan_item_on_parts_satisfied (instance_id ci) s;
           if parts : bool then sentry_if_part_satisfied s ci else mret false
         else mret false);
      rest ← matching_sentry_ids criteria items ci source event r;
      mret (if selected : bool then sentry_id s :: rest else rest)
  end.

(** The sentries of [terminate_if_part_only_exit_criterion_dependents]. *)
Fixpoint if_part_only_sentry_ids (ci : CmmnCaseInstance) (l : list CmmnSentry) : result EvalStop (list string) :=
  match l with
  | [] => Ok []
  | s :: r =>
      if match plan_item_on_parts s with [] => has_if_part s | _ => false end then
        holds ← sentry_if_part_matches s ci;
        rest ← if_part_only_sentry_ids ci r;
        Ok (if holds : bool then sentry_id s :: rest else rest)
      else if_part_only_sentry_ids ci r
  end.

(** ** Case file events *)
Section CaseFile.
(** [activate_plan_items_by_entry_criterion]. *)
Context (activate : ContainerView -> string -> CM unit).

Definition case_file_sentry (ci : CmmnCaseInstance) (c : ContainerView) (item event : string)
  (s : CmmnSentry) : CM unit :=
  if existsb (fun p => bool_decide (case_file_item_ref p = item)
                       && bool_decide (file_standard_event p = event)) (case_file_item_on_parts s) then
    holds ← sentry_if_part_satisfied s ci;
    if holds : bool then
      activate c (sentry_id s) ;; delete_sentry_if_part_satisfied (instance_id ci) (sentry_id s)
    else mret tt
  else mret tt.

Fixpoint evaluate_case_file_item_on_parts_in_container (ci : CmmnCaseInstance) (item event : string)
  (c : ContainerView) : CM unit :=
  match c with
  | Container _ _ stages sentries =>
      for_in (case_file_sentry ci c item event) sentries ;;
      for_in (evaluate_case_file_item_on_parts_in_container ci item event) stages
  end.
End CaseFile.
End Conditions.

(** ** CMMN: what makes a sentry satisfied

    The run-time functions against a specification over the tables: which
    [ifPart] markers the sweep leaves, that a marker outlives the variables it
    was set for, and which sentries an event selects. *)

(** ** Loops *)
Lemma for_in_app {A} (body : A -> CM unit) l r s :
  for_in body (l ++ r) s = (for_in body l ;; for_in body r) s.
Proof.
  revert s. induction l as [|a l IH]; intros s; simpl; [done|].
  unfold mbind, stM_bind. destruct (body a s) as [[u|e] s']; [|done].
  rewrite IH. unfold mbind, stM_bind. done.
Qed.

Lemma for_in_ext {A} (f g : A -> CM unit) l s :
  (forall a, a ∈ l -> forall s, f a s = g a s) -> for_in f l s = for_in g l s.
Proof.
  revert s. induction l as [|a l IH]; intros s Hfg; simpl; [done|].
  unfold mbind, stM_bind. rewrite Hfg by set_solver. destruct (g a s) as [[u|e] s']; [|done].
  apply IH. set_solver.
Qed.

Lemma for_in_concat {A B} (body : B -> CM unit) (f : A -> list B) l s :
  for_in (fun a => for_in body (f a)) l s = for_in body (concat (map f l)) s.
Proof.
  revert s. induction l as [|a l IH]; intros s; simpl; [done|].
  rewrite for_in_app. unfold mbind, stM_bind.
  destruct (for_in body (f a) s) as [[u|e] s']; [|done]. apply IH.
Qed.

(** ** Containers *)
Section ContainerInduction.
Context (Q : ContainerView -> Prop)
  (Qcontainer : forall h items stages sentries, Forall Q stages -> Q (Container h items stages sentries)).

Fixpoint container_induction (c : ContainerView) : Q c :=
  match c with
  | Container h items stages sentries =>
      Qcontainer h items stages sentries ((fix go l : Forall Q l :=
        match l with
        | [] => List.Forall_nil Q
        | c :: l => @List.Forall_cons _ Q c l (container_induction c) (go l)
        end) stages)
  end.
End ContainerInduction.

(** The sentries of a container and of the stages below it. *)
Fixpoint all_sentries (c : ContainerView) : list CmmnSentry :=
  match c with Container _ _ stages sentries => sentries ++ concat (map all_sentries stages) end.

(** ** On-parts *)
Definition task_reached (s : CmmnSession) (case_id item event : string) : bool :=
  match (human_task_plan_item_reached_standard_event case_id item event s).1 with
  | Ok b => b | Err _ => false
  end.

Definition part_holds (on_event : bool) (s : CmmnSession) (case_id : string) (p : CmmnPlanItemOnPart) : bool :=
  if on_event then bool_decide ((source_ref p, standard_event p) ∈ command_events s)
  else occurred s case_id (source_ref p) (standard_event p)
       || task_reached s case_id (source_ref p) (standard_event p).

Definition parts_hold (s : CmmnSession) (case_id : string) (sn : CmmnSentry) : bool :=
  forallb (part_holds (is_on_event_trigger_mode sn) s case_id) (plan_item_on_parts sn).

Lemma task_reached_run case_id item event s :
  human_task_plan_item_reached_standard_event case_id item event s
  = (Ok (task_reached s case_id item event), s).
Proof.
  unfold task_reached, human_task_plan_item_reached_standard_event.
  by destruct (if bool_decide (event = STANDARD_EVENT_COMPLETE) then _ else _).
Qed.

Lemma on_parts_run case_id sn s :
  sentry_plan_item_on_parts_satisfied case_id sn s = (Ok (parts_hold s case_id sn), s).
Proof.
  unfold sentry_plan_item_on_parts_satisfied, parts_hold.
  induction (plan_item_on_parts sn) as [|p ps IH]; [done|]. cbn [all_parts forallb].
  assert (Hp : on_part_satisfied (is_on_event_trigger_mode sn) case_id p s
               = (Ok (part_holds (is_on_event_trigger_mode sn) s case_id p), s)).
  { unfold on_part_satisfied, part_holds. destruct (is_on_event_trigger_mode sn); [done|].
    unfold plan_item_standard_event_occurred, get, mbind, stM_bind. simpl.
    destruct (occurred s case_id _ _); [done|]. by rewrite task_reached_run. }
  unfold mbind, stM_bind. rewrite Hp. destruct (part_holds _ s case_id p); [apply IH|done].
Qed.

(** ** The log *)
Lemma is_event_spec case_id item event row :
  is_event case_id item event row = true <->
  event_case_instance_id row = case_id /\ event_plan_item_id row = item
  /\ event_standard_event row = event.
Proof. unfold is_event. rewrite !andb_true_iff, !bool_decide_eq_true. tauto. Qed.

Lemma occurred_record `{RowSource} s case_id item event s' :
  record_plan_item_standard_event_session case_id item event s = (Ok tt, s') ->
  forall c i e, occurred s' c i e
    = occurred s c i e || bool_decide ((case_id, item, event) = (c, i, e)).
Proof.
  intros [= <-] c i e. unfold occurred, set_events, set_rows_written, set_plan_item_events. cbn [plan_item_events].
  rewrite existsb_app. simpl. rewrite orb_false_r. f_equal. unfold is_event. simpl.
  repeat case_bool_decide; simplify_eq; done.
Qed.

Lemma occurred_delete s case_id sentry s' :
  delete_sentry_if_part_satisfied case_id sentry s = (Ok tt, s') ->
  forall c i e, occurred s' c i e
    = occurred s c i e && negb (bool_decide ((case_id, sentry, SENTRY_IF_PART_SATISFIED_EVENT) = (c, i, e))).
Proof.
  intros [= <-] c i e. unfold occurred, set_events, set_rows_written, set_plan_item_events. cbn [plan_item_events].
  induction (plan_item_events s) as [|row l IH]; simpl; [done|].
  destruct (is_event case_id sentry SENTRY_IF_PART_SATISFIED_EVENT row) eqn:Er; simpl; rewrite IH.
  - apply is_event_spec in Er as (<- & <- & Hm). unfold is_event. rewrite Hm.
    repeat case_bool_decide; simplify_eq/=; rewrite ?andb_true_r, ?andb_false_r; done.
  - destruct (is_event c i e row) eqn:Ec; [|done]. simpl.
    case_bool_decide as Heq; [|done]. simplify_eq. congruence.
Qed.

(** What a session keeps when only the log changes. *)
Definition same_tables (s s' : CmmnSession) : Prop :=
  s' = set_events (plan_item_events s') (rows_written s') s.

#[export] Instance same_tables_preorder : PreOrder same_tables.
Proof. split; [by intros []|]. by intros s s' s'' -> ->. Qed.

Section Conditions.
Context `{Display} `{NumberReader} `{Patterns} `{RowSource} (fuel : nat) (ci : CmmnCaseInstance).

(** The sentries whose satisfied [ifPart] is kept. *)
Definition eligible (sn : CmmnSentry) : bool :=
  has_if_part sn && is_multi_part sn && is_default_trigger_mode sn.

Definition matches (sn : CmmnSentry) : bool :=
  match sentry_if_part_matches fuel sn ci with Ok b => b | Err _ => false end.

Definition marked (s : CmmnSession) (sn : CmmnSentry) : bool :=
  occurred s (instance_id ci) (sentry_id sn) SENTRY_IF_PART_SATISFIED_EVENT.

(** The condition of a sentry is evaluated without an error. *)
Definition evaluates (sn : CmmnSentry) : Prop := exists b, sentry_if_part_matches fuel sn ci = Ok b.

(** The markers that a group of sentries adds to the log. *)
Definition marks (l : list CmmnSentry) (c i e : string) : bool :=
  bool_decide (c = instance_id ci /\ e = SENTRY_IF_PART_SATISFIED_EVENT)
  && existsb (fun sn => bool_decide (sentry_id sn = i) && eligible sn && matches sn) l.

Definition sweeps (l : list CmmnSentry) (s s' : CmmnSession) : Prop :=
  same_tables s s' /\ forall c i e, occurred s' c i e = occurred s c i e || marks l c i e.

Lemma not_swept sn :
  negb (has_if_part sn) || negb (is_multi_part sn) || negb (is_default_trigger_mode sn)
  = negb (eligible sn).
Proof. unfold eligible. by rewrite !negb_andb. Qed.

Lemma record_if_satisfied_run sn s :
  (eligible sn = true -> evaluates sn) ->
  exists s', record_if_satisfied fuel ci sn s = (Ok tt, s') /\ sweeps [sn] s s'.
Proof.
  intros He. unfold record_if_satisfied. rewrite not_swept.
  assert (Hnone : eligible sn && matches sn = false -> sweeps [sn] s s).
  { intros Hn. split; [done|]. intros c i e. unfold marks. simpl.
    by rewrite <- andb_assoc, Hn, !andb_false_r, orb_false_r. }
  destruct (eligible sn) eqn:Hel; cbn [negb]; [|eauto]. destruct (He eq_refl) as [b Hb].
  unfold plan_item_standard_event_occurred, get, mbind, stM_bind. cbn [mret stM_ret].
  destruct (occurred s (instance_id ci) (sentry_id sn) SENTRY_IF_PART_SATISFIED_EVENT) eqn:Ho.
  { exists s. split; [done|]. split; [done|]. intros c i e. unfold marks. simpl.
    case_bool_decide as Hce; simpl; [|by rewrite orb_false_r]. destruct Hce as [-> ->].
    case_bool_decide; simplify_eq; simpl; [|by rewrite orb_false_r]. by rewrite Ho. }
  unfold lift. rewrite Hb. assert (Hm : matches sn = b) by (unfold matches; by rewrite Hb).
  destruct b; [|exists s; split; [done|]; apply Hnone; by rewrite Hm, andb_false_r].
  eexists. split; [done|]. split; [done|]. intros c i e.
  unfold record_sentry_if_part_satisfied.
  erewrite occurred_record by done. f_equal. unfold marks. simpl. rewrite Hel, Hm, orb_false_r.
  repeat case_bool_decide; simplify_eq/=; naive_solver.
Qed.

Lemma marks_app l r c i e : marks (l ++ r) c i e = marks l c i e || marks r c i e.
Proof. unfold marks. rewrite existsb_app. by destruct (bool_decide _). Qed.

Lemma sweep_run l s :
  (forall sn, sn ∈ l -> eligible sn = true -> evaluates sn) ->
  exists s', for_in (record_if_satisfied fuel ci) l s = (Ok tt, s') /\ sweeps l s s'.
Proof.
  revert s. induction l as [|sn l IH]; intros s He.
  { exists s. split; [done|]. split; [done|]. intros. unfold marks. simpl.
    by rewrite andb_false_r, orb_false_r. }
  destruct (record_if_satisfied_run sn s) as (s1 & E1 & T1 & O1); [apply He; set_solver|].
  destruct (IH s1) as (s2 & E2 & T2 & O2); [set_solver|].
  exists s2. split; [|split; [by etrans|]].
  - simpl. unfold mbind, stM_bind. by rewrite E1.
  - intros c i e. rewrite O2, O1. change (sn :: l) with ([sn] ++ l). rewrite marks_app.
    by rewrite orb_assoc.
Qed.

Lemma sweep_flat c s :
  record_satisfied_sentry_if_parts_in_container fuel ci c s
  = for_in (record_if_satisfied fuel ci) (all_sentries c) s.
Proof.
  revert s. induction c as [h items stages sentries IH] using container_induction. intros s.
  cbn [record_satisfied_sentry_if_parts_in_container all_sentries]. rewrite for_in_app.
  unfold mbind, stM_bind. destruct (for_in _ sentries s) as [[u|e] s']; [|done].
  rewrite <- for_in_concat. apply for_in_ext. intros c Hc s1. rewrite Forall_forall in IH.
  by apply IH.
Qed.

(** The sweep over a case plan model leaves exactly the right markers: when
    the conditions of the sentries it looks at evaluate, it succeeds, and
    afterwards an event is in the log if it was there before, or if it is the
    marker of a sentry, at any level of stages, with several parts in the
    default trigger mode whose condition holds for the current variables; the
    other tables are untouched. *)
Theorem sweep_marks_satisfied case_plan_model s :
  (forall sn, sn ∈ all_sentries case_plan_model -> eligible sn = true -> evaluates sn) ->
  exists s', record_satisfied_sentry_if_parts fuel ci case_plan_model s = (Ok tt, s')
    /\ same_tables s s'
    /\ forall c i e, occurred s' c i e = occurred s c i e || marks (all_sentries case_plan_model) c i e.
Proof.
  intros He. unfold record_satisfied_sentry_if_parts. rewrite sweep_flat. by apply sweep_run.
Qed.

(** The sentry's condition now: its marker, where it keeps one, or its value. *)
Definition if_part_holds (s : CmmnSession) (sn : CmmnSentry) : bool :=
  negb (has_if_part sn) || (eligible sn && marked s sn) || matches sn.

Lemma if_part_run sn s :
  (has_if_part sn = true -> evaluates sn) ->
  exists s', sentry_if_part_satisfied fuel sn ci s = (Ok (if_part_holds s sn), s') /\ same_tables s s'
    /\ forall c i e, occurred s' c i e
       = occurred s c i e || (eligible sn && if_part_holds s sn
           && bool_decide ((instance_id ci, sentry_id sn, SENTRY_IF_PART_SATISFIED_EVENT) = (c, i, e))).
Proof.
  intros He. unfold sentry_if_part_satisfied, if_part_holds, marked, matches.
  destruct (has_if_part sn) eqn:Hh; cbn [negb orb].
  2:{ exists s. split; [done|]. split; [done|]. intros. unfold eligible. rewrite Hh. simpl.
      by rewrite orb_false_r. }
  destruct (He eq_refl) as [b Hb]. rewrite Hb.
  assert (Hel : eligible sn = is_multi_part sn && is_default_trigger_mode sn)
    by (unfold eligible; by rewrite Hh). rewrite Hel.
  destruct (is_multi_part sn && is_default_trigger_mode sn); cbn [andb orb].
  2:{ exists s. split; [done|]. split; [done|]. intros. by rewrite orb_false_r. }
  unfold plan_item_standard_event_occurred, get, mbind, stM_bind. cbn [mret stM_ret].
  destruct (occurred s _ _ _) eqn:Ho; cbn [orb andb].
  { exists s. split; [done|]. split; [done|]. intros c i e.
    case_bool_decide; simplify_eq; [by rewrite Ho|by rewrite orb_false_r]. }
  unfold lift. destruct b.
  - eexists. split; [done|]. split; [done|]. intros c i e. by erewrite occurred_record by done.
  - exists s. split; [done|]. split; [done|]. intros. by rewrite orb_false_r.
Qed.

(** ** Selection *)

(** Two sessions agree on what the sentries of [l] read. *)
Definition agree (l : list CmmnSentry) (s s' : CmmnSession) : Prop :=
  same_tables s s' /\
  forall c i e, e ≠ SENTRY_IF_PART_SATISFIED_EVENT \/ i ∈ (sentry_id <$> l) ->
    occurred s' c i e = occurred s c i e.

(** The on-parts of a sentry are events of plan items, not markers. *)
Definition plain_parts (sn : CmmnSentry) : Prop :=
  Forall (fun p => standard_event p ≠ SENTRY_IF_PART_SATISFIED_EVENT) (plan_item_on_parts sn).

Lemma task_reached_tables s s' c i e : same_tables s s' -> task_reached s' c i e = task_reached s c i e.
Proof.
  intros Ht. unfold task_reached, human_task_plan_item_reached_standard_event.
  destruct (if bool_decide (e = STANDARD_EVENT_COMPLETE) then _ else _); [|done].
  simpl. by rewrite Ht.
Qed.

Lemma parts_agree l s s' sn c : agree l s s' -> plain_parts sn -> parts_hold s' c sn = parts_hold s c sn.
Proof.
  intros [Ht Ho] Hp. unfold parts_hold, plain_parts in *. assert (command_events s' = command_events s) as Hc by (by rewrite Ht).
  induction Hp as [|p ps Hp _ IH]; [done|]. simpl. rewrite IH. f_equal. unfold part_holds.
  destruct (is_on_event_trigger_mode sn); [by rewrite Hc|].
  rewrite Ho by (by left). by rewrite (task_reached_tables s s').
Qed.

Lemma if_part_agree l s s' sn : agree l s s' -> sn ∈ l -> if_part_holds s' sn = if_part_holds s sn.
Proof.
  intros [_ Ho] Hl. unfold if_part_holds, marked. rewrite Ho; [done|]. right. set_solver.
Qed.

Definition selected (criteria : CmmnPlanItem -> list string) (items : list CmmnPlanItem)
  (source event : string) (s : CmmnSession) (sn : CmmnSentry) : bool :=
  is_criterion criteria items sn && listens_to source event sn
  && parts_hold s (instance_id ci) sn && if_part_holds s sn.

(** The marker a sentry leaves when its condition is found true. *)
Definition new_mark (sn : CmmnSentry) (c i e : string) : bool :=
  eligible sn && bool_decide ((instance_id ci, sentry_id sn, SENTRY_IF_PART_SATISFIED_EVENT) = (c, i, e)).

Lemma select_one criteria items source event sn s :
  (has_if_part sn = true -> evaluates sn) ->
  exists s', (if is_criterion criteria items sn && listens_to source event sn then
      parts ← sentry_plan_item_on_parts_satisfied (instance_id ci) sn;
      if parts : bool then sentry_if_part_satisfied fuel sn ci else mret false
    else mret false) s = (Ok (selected criteria items source event s sn), s')
    /\ same_tables s s'
    /\ forall c i e, occurred s' c i e = occurred s c i e || (selected criteria items source event s sn && new_mark sn c i e).
Proof.
  intros He. unfold selected. destruct (is_criterion _ _ sn && listens_to source event sn); simpl; [|exists s; split_and!; [done|done|intros; by rewrite orb_false_r]].
  unfold mbind, stM_bind. rewrite on_parts_run. destruct (parts_hold s _ sn); simpl; [|exists s; split_and!; [done|done|intros; by rewrite orb_false_r]].
  destruct (if_part_run sn s He) as (s' & E & T & O). exists s'. split; [done|]. split; [done|].
  intros c i e. rewrite O. unfold new_mark. destruct (eligible sn), (if_part_holds s sn); done.
Qed.

Lemma kept_in_order {A} (p : A -> bool) l : List.filter p l `sublist_of` l.
Proof. induction l as [|a l IH]; simpl; [done|]. destruct (p a); by constructor. Qed.

Lemma select_all criteria items source event l s s1 :
  agree l s s1 -> NoDup (sentry_id <$> l) -> Forall plain_parts l ->
  (forall sn, sn ∈ l -> has_if_part sn = true -> evaluates sn) ->
  exists s', matching_sentry_ids fuel criteria items ci source event l s1
      = (Ok (map sentry_id (List.filter (selected criteria items source event s) l)), s')
    /\ same_tables s1 s'
    /\ forall c i e, occurred s' c i e
       = occurred s1 c i e || existsb (fun sn => selected criteria items source event s sn && new_mark sn c i e) l.
Proof.
  revert s1. induction l as [|sn l IH]; intros s1 Ha Hnd Hp He.
  { exists s1. split_and!; [done|done|]. intros. by rewrite orb_false_r. }
  cbn [fmap list_fmap] in Hnd. apply NoDup_cons in Hnd as [Hsn Hnd].
  apply Forall_cons in Hp as [Hpsn Hp]. cbn [matching_sentry_ids List.filter].
  destruct (select_one criteria items source event sn s1) as (s2 & E & T & O); [apply He; set_solver|].
  assert (Hsel : selected criteria items source event s1 sn = selected criteria items source event s sn).
  { unfold selected. rewrite (parts_agree _ _ _ _ _ Ha Hpsn).
    by rewrite (if_part_agree _ _ _ _ Ha) by set_solver. }
  destruct (IH s2) as (s' & E' & T' & O'); [|done|done|set_solver|].
  - destruct Ha as [T1 O1]. split; [by etrans|]. intros c i e Hce. rewrite O, O1 by (destruct Hce; [by left|right; set_solver]).
    unfold new_mark. rewrite bool_decide_false; [by rewrite !andb_false_r, orb_false_r|].
    intros [= ? ? ?]. destruct Hce as [?|Hi]; [congruence|]. apply Hsn. congruence.
  - exists s'. unfold mbind at 1, stM_bind at 1. rewrite E. unfold mbind, stM_bind.
    rewrite E', Hsel. split_and!; [by destruct (selected _ _ _ _ s sn)|by etrans|].
    intros c i e. rewrite O', O, Hsel. cbn [existsb]. by rewrite orb_assoc.
Qed.

(** A human task of the case is where the event leaves it. *)
Definition task_in_state (s : CmmnSession) (item event : string) : Prop :=
  exists t, t ∈ human_tasks s ++ human_task_history s /\ task_case_instance_id t = instance_id ci
    /\ task_plan_item_id t = item
    /\ (event = STANDARD_EVENT_COMPLETE /\ task_state t = Completed
        \/ event = STANDARD_EVENT_TERMINATE /\ task_state t = Terminated).

(** The sentry is satisfied by the event. *)
Definition satisfied (criteria : CmmnPlanItem -> list string) (items : list CmmnPlanItem)
  (source event : string) (s : CmmnSession) (sn : CmmnSentry) : Prop :=
  (exists item, item ∈ items /\ sentry_id sn ∈ criteria item)
  /\ (exists p, p ∈ plan_item_on_parts sn /\ source_ref p = source /\ standard_event p = event)
  /\ (forall p, p ∈ plan_item_on_parts sn ->
        if decide (trigger_mode sn = Some "onEvent") then (source_ref p, standard_event p) ∈ command_events s
        else occurred s (instance_id ci) (source_ref p) (standard_event p) = true
             \/ task_in_state s (source_ref p) (standard_event p))
  /\ (if_part sn = None \/ sentry_if_part_matches fuel sn ci = Ok true \/ eligible sn = true /\ marked s sn = true).

Lemma task_reached_spec s item event : task_reached s (instance_id ci) item event = true <-> task_in_state s item event.
Proof.
  unfold task_reached, human_task_plan_item_reached_standard_event, task_in_state.
  set (R := fun st => existsb (fun t => bool_decide (task_case_instance_id t = instance_id ci)
                       && (bool_decide (task_plan_item_id t = item) && bool_decide (task_state t = st)))).
  assert (HR : forall st l, R st l = true <-> exists t, t ∈ l /\ task_case_instance_id t = instance_id ci
    /\ task_plan_item_id t = item /\ task_state t = st).
  { intros st l. unfold R. rewrite existsb_exists. setoid_rewrite list_elem_of_In.
    split; intros (t & Ht & Hb); exists t; (split; [done|]).
    - by rewrite !andb_true_iff, !bool_decide_eq_true in Hb.
    - by rewrite !andb_true_iff, !bool_decide_eq_true. }
  case_bool_decide as Hc; [|case_bool_decide as Ht]; simpl.
  - change (R Completed (human_tasks s) || R Completed (human_task_history s) = true <->
      exists t, t ∈ human_tasks s ++ human_task_history s /\ task_case_instance_id t = instance_id ci
        /\ task_plan_item_id t = item /\ (event = STANDARD_EVENT_COMPLETE /\ task_state t = Completed
             \/ event = STANDARD_EVENT_TERMINATE /\ task_state t = Terminated)).
    rewrite orb_true_iff, !HR. setoid_rewrite elem_of_app. subst event. naive_solver.
  - change (R Terminated (human_tasks s) || R Terminated (human_task_history s) = true <->
      exists t, t ∈ human_tasks s ++ human_task_history s /\ task_case_instance_id t = instance_id ci
        /\ task_plan_item_id t = item /\ (event = STANDARD_EVENT_COMPLETE /\ task_state t = Completed
             \/ event = STANDARD_EVENT_TERMINATE /\ task_state t = Terminated)).
    rewrite orb_true_iff, !HR. setoid_rewrite elem_of_app. naive_solver.
  - naive_solver.
Qed.

Lemma selected_satisfied criteria items source event s sn :
  (has_if_part sn = true -> evaluates sn) ->
  selected criteria items source event s sn = true <-> satisfied criteria items source event s sn.
Proof.
  intros He. unfold selected, satisfied, is_criterion, listens_to, parts_hold, if_part_holds.
  rewrite !andb_true_iff, !orb_true_iff, !andb_true_iff, !existsb_exists, forallb_forall.
  assert (Hm : matches sn = true <-> sentry_if_part_matches fuel sn ci = Ok true).
  { unfold matches. destruct (sentry_if_part_matches fuel sn ci); naive_solver. }
  assert (Hi : negb (has_if_part sn) = true <-> if_part sn = None) by (unfold has_if_part; destruct (if_part sn); naive_solver).
  rewrite Hm, Hi. assert (Hp : forall p, part_holds (is_on_event_trigger_mode sn) s (instance_id ci) p = true <->
    if decide (trigger_mode sn = Some "onEvent") then (source_ref p, standard_event p) ∈ command_events s
    else occurred s (instance_id ci) (source_ref p) (standard_event p) = true
         \/ task_in_state s (source_ref p) (standard_event p)).
  { intros p. unfold part_holds, is_on_event_trigger_mode.
    destruct (is_some_eq (trigger_mode sn) TRIGGER_MODE_ON_EVENT) eqn:Ee; case_decide as Hd.
    - apply bool_decide_eq_true.
    - apply is_some_eq_spec in Ee. by destruct Hd.
    - rewrite Hd in Ee. done.
    - by rewrite orb_true_iff, task_reached_spec. }
  setoid_rewrite Hp. setoid_rewrite existsb_exists. setoid_rewrite andb_true_iff. setoid_rewrite bool_decide_eq_true.
  setoid_rewrite list_elem_of_In. split.
  - intros [[[(x & Hx & y & Hy & <-) L2] L3] L4]. split_and!; [by exists x|done|done|tauto].
  - intros ((x & Hx & Hy) & L2 & L3 & L4). split_and!; [exists x; eauto|done|done|tauto].
Qed.

(** C27: an event of a plan item selects exactly the satisfied sentries.  The sentries
    looked at have distinct ids and no case file on-parts (those the selection does not
    look at), none of their on-parts names the marker event, and the conditions of those
    that have one evaluate without error, with the fuel given.  Then the selection
    succeeds, and it gives, in the order of the container, the ids of exactly the
    sentries that are a criterion of a plan item of the container, have the event among
    their on-parts, whose on-parts have all happened (in the onEvent mode during the
    command; otherwise in the event log of the case, or because a human task of the plan
    item is completed or terminated), and whose condition is absent, true now, or, for
    a sentry of several parts in the default mode, marked as true earlier.  Of the
    tables only the event log changes, and only by the markers of the selected sentries
    of several parts with a condition in the default mode. *)
Theorem selected_sentries criteria items source event l s :
  NoDup (sentry_id <$> l) -> Forall plain_parts l -> Forall (fun sn => case_file_item_on_parts sn = []) l ->
  (forall sn, sn ∈ l -> has_if_part sn = true -> evaluates sn) ->
  exists chosen s', matching_sentry_ids fuel criteria items ci source event l s = (Ok (map sentry_id chosen), s')
    /\ chosen `sublist_of` l
    /\ (forall sn, sn ∈ l -> sn ∈ chosen <-> satisfied criteria items source event s sn)
    /\ same_tables s s'
    /\ (forall c i e, occurred s' c i e = true <-> occurred s c i e = true
          \/ c = instance_id ci /\ e = SENTRY_IF_PART_SATISFIED_EVENT
             /\ exists sn, sn ∈ chosen /\ eligible sn = true /\ sentry_id sn = i).
Proof.
  intros Hnd Hp _ He. destruct (select_all criteria items source event l s s) as (s' & E & T & O); [by split|done..|].
  eexists _, s'. split_and!; [exact E|apply kept_in_order| |done|].
  - intros sn Hsn. rewrite list_elem_of_In, filter_In, <- list_elem_of_In, (selected_satisfied _ _ _ _ _ _ (He sn Hsn)). tauto.
  - intros c i e. rewrite O, orb_true_iff, existsb_exists. split.
    + intros [?|(sn & Hin & [Hs Hb]%andb_true_iff)]; [by left|]. unfold new_mark in Hb.
      apply andb_true_iff in Hb as [Hel Hk%bool_decide_eq_true]. injection Hk as <- <- <-.
      right. split_and!; [done|done|]. exists sn. split_and!; [|done|done]. by apply list_elem_of_In, filter_In.
    + intros [?|(-> & -> & sn & Hin & Hel & <-)]; [by left|right]. apply list_elem_of_In, filter_In in Hin as [Hin Hs].
      exists sn. split; [done|]. unfold new_mark. by rewrite Hs, Hel, bool_decide_true.
Qed.
End Conditions.

(** A satisfied [ifPart] stays satisfied: once a sentry with several parts
    in the default trigger mode has found its condition true, it finds it true
    in every later session that still has the log's rows, whatever the
    variables of the case have become, and without evaluating it again. *)
Theorem satisfied_if_part_sticks `{Display} `{NumberReader} `{Patterns} `{RowSource} fuel fuel' ci ci' sn s s' s'' :
  eligible sn = true ->
  sentry_if_part_satisfied fuel sn ci s = (Ok true, s') ->
  instance_id ci' = instance_id ci -> plan_item_events s' ⊆ plan_item_events s'' ->
  sentry_if_part_satisfied fuel' sn ci' s'' = (Ok true, s'').
Proof.
  intros Hel Hs Hid Hsub.
  assert (Hm : marked ci s' sn = true).
  { revert Hs. unfold eligible in Hel. apply andb_true_iff in Hel as [Hel ?].
    apply andb_true_iff in Hel as [? ?]. unfold sentry_if_part_satisfied.
    destruct (has_if_part sn), (is_multi_part sn), (is_default_trigger_mode sn); try done. cbn [negb andb].
    unfold plan_item_standard_event_occurred, get, mbind, stM_bind. cbn [mret stM_ret].
    destruct (occurred s _ _ _) eqn:Ho; [by intros [= <-]|]. unfold lift.
    destruct (sentry_if_part_matches fuel sn ci) as [[]|]; try done.
    cbn. intros [= <-]. unfold marked, occurred. cbn. rewrite existsb_app. simpl.
    rewrite !orb_true_iff. right. left. by apply is_event_spec. }
  unfold marked, occurred in Hm. apply existsb_exists in Hm as (row & Hrow & He).
  assert (Ho : occurred s'' (instance_id ci') (sentry_id sn) SENTRY_IF_PART_SATISFIED_EVENT = true).
  { apply existsb_exists. exists row. rewrite Hid. split; [|done].
    apply list_elem_of_In, Hsub, list_elem_of_In, Hrow. }
  unfold eligible in Hel. unfold sentry_if_part_satisfied.
  destruct (has_if_part sn), (is_multi_part sn), (is_default_trigger_mode sn); try done. cbn [negb andb].
  unfold plan_item_standard_event_occurred, get, mbind, stM_bind. cbn [mret stM_ret]. by rewrite Ho.
Qed.

(** ** Attributes that may be expressions *)

(** What stops an attribute: the expression's error with the attribute's
    message in front, or fuel. *)
Inductive AttributeStop : Type :=
| ExpressionFailed (what expression : string) (stop : Stop)
| AttributeFuel.

Definition is_uel_expression (expression : string) : bool :=
  let trimmed := trim expression in starts_with "${" trimmed && ends_with_char trimmed "}".

(** Case variables under their names; no [execution] root. *)
Definition case_variable_scope (ci : CmmnCaseInstance) : VariableContainer :=
  mkScope (fun name => map_get name (instance_variables ci)) (instance_tenant_id ci) None.

(** [value.split(',')]. *)
Fixpoint split_commas (l : list ascii) : list (list ascii) :=
  match l with
  | [] => [[]]
  | b :: r =>
      if is_byte b "," then [] :: split_commas r
      else match split_commas r with
           | part :: parts => (b :: part) :: parts
           | [] => [[b]]
           end
  end.

Definition trimmed_parts (value : string) : list string :=
  List.filter (fun part => negb (bool_decide (part = ""))) (map (fun l => trim (text l)) (split_commas (bytes value))).

Section Attributes.
Context `{Display} `{Unicode} `{NumberReader} `{Patterns}
  (registry : ExpressionMethodRegistry) (fuel : nat) (ci : CmmnCaseInstance).

Definition expression_value (what trimmed : string) : result AttributeStop (option Value) :=
  match get_value_strict registry (case_variable_scope ci) trimmed with
  | Some (Ok v) => Ok v
  | Some (Err stop) => Err (ExpressionFailed what trimmed stop)
  | None => Err AttributeFuel
  end.

Definition evaluate_available_condition_expression (expression : string) : result AttributeStop bool :=
  let trimmed := trim expression in
  if is_uel_expression trimmed then
    v ← expression_value "availableCondition" trimmed;
    Ok (match v with Some (VBool b) => b | _ => false end)
  else
    match parse_condition trimmed with
    | Ok parsed =>
        match evaluate_if_part_condition fuel parsed ci with
        | Ok b => Ok b
        | Err (Raised _) => Ok false
        | Err OutOfFuel => Err AttributeFuel
        end
    | Err _ => Ok false
    end.

Definition value_text (v : option Value) : option string :=
  match v with
  | Some (VString s) => Some s
  | Some (VBool b) => Some (bool_to_string b)
  | Some VNull | None => None
  | Some ((VNumber _ | VArray _ | VObject _) as other) => Some (value_to_string other)
  end.

Definition resolve_el_or_literal_string (raw : option string) : result AttributeStop (option string) :=
  match trimmed raw with
  | None => Ok None
  | Some raw =>
      if negb (is_uel_expression raw) then Ok (Some raw)
      else v ← expression_value "Expression" raw; Ok (value_text v)
  end.

Definition candidates_of (entry : string) : result AttributeStop (list string) :=
  let trimmed := trim entry in
  if bool_decide (trimmed = "") then Ok []
  else if is_uel_expression trimmed then
    v ← resolve_el_or_literal_string (Some trimmed);
    Ok (match v with Some value => trimmed_parts value | None => [] end)
  else Ok [trimmed].

Fixpoint resolve_candidate_list (entries : list string) : result AttributeStop (list string) :=
  match entries with
  | [] => Ok []
  | entry :: r => c ← candidates_of entry; rest ← resolve_candidate_list r; Ok (c ++ rest)
  end.

(** ** No blank candidates *)
Lemma expression_value_fuel what s : expression_value what s ≠ Err AttributeFuel.
Proof.
  unfold expression_value. pose proof (strict_returns registry (case_variable_scope ci) s) as Ht.
  destruct (get_value_strict registry _ s) as [[v|e]|]; congruence.
Qed.

Lemma candidates_nonempty entry cs : candidates_of entry = Ok cs -> "" ∉ cs.
Proof.
  unfold candidates_of. case_bool_decide as He; [intros [= <-]; set_solver|].
  destruct (is_uel_expression _); [|intros [= <-]; set_solver].
  destruct (resolve_el_or_literal_string _) as [[v|]|]; simpl; [|intros [= <-]; set_solver|done].
  intros [= <-] Hin. apply list_elem_of_In in Hin. unfold trimmed_parts in Hin.
  apply filter_In in Hin as [_ Hb]. by case_bool_decide.
Qed.

(** A task never has a blank candidate, and the list is always computed or
    fails with the error of an expression: entries are trimmed, blank ones and
    blank parts of an expression's value dropped. *)
Theorem candidates_never_blank entries :
  (exists cs, resolve_candidate_list entries = Ok cs /\ "" ∉ cs)
  \/ (exists raw stop, resolve_candidate_list entries = Err (ExpressionFailed "Expression" raw stop)).
Proof.
  induction entries as [|entry r IH]; simpl; [left; exists []; set_solver|].
  destruct (candidates_of entry) as [cs|stop] eqn:E; simpl.
  - pose proof (candidates_nonempty _ _ E).
    destruct IH as [(rest & -> & Hr)|(raw & stop & ->)]; simpl; [left|right]; eauto.
    exists (cs ++ rest). set_solver.
  - right. revert E. unfold candidates_of. case_bool_decide; [done|].
    destruct (is_uel_expression _); [|done]. unfold resolve_el_or_literal_string.
    destruct (trimmed _) as [raw|]; [|done]. destruct (negb _); [done|].
    pose proof (expression_value_fuel "Expression" raw) as Hf. unfold expression_value in *.
    destruct (get_value_strict registry _ raw) as [[v|e]|]; simpl; [done| |done].
    intros [= <-]. eauto.
Qed.
End Attributes.
