(* ===== verification/CmmnCompletion.v ===== *)
(** * CMMN: when a stage or a case may complete

    Models the decision in [maybe_complete_stage] and [maybe_complete_case] of
    [flowable-cmmn-engine/src/runtime.rs]: the counts of open rows, the plan
    items whose completion rule ignores them, which are subtracted, and the
    required plan items.  The decision reads the session and does not change
    it; it fails only where a condition fails.

    Counts are [i64], except the event subscriptions of a stage, which are
    [usize]: the first go below zero when more is subtracted than was
    counted, the second do not.  [fuel] is that of the conditions. *)
From S2P Require Import Prelude Chars Json ElValues CmmnTokens CmmnCondition CmmnSentry CmmnTables CmmnSatisfaction.

Definition PLAN_ITEM_DEFINITION_TYPE_EVENT_LISTENER : string := "eventlistener".
Definition PLAN_ITEM_DEFINITION_TYPE_TIMER_EVENT_LISTENER : string := "timereventlistener".

(** ** Integers *)
Definition i64_saturating_sub (a b : Z) : Z := Z.max (- 2 ^ 63) (Z.min (2 ^ 63 - 1) (a - b)).
Definition usize_saturating_sub (a b : Z) : Z := Z.max 0 (a - b).

Definition count {A} (p : A -> bool) (l : list A) : Z := Z.of_nat (length (List.filter p l)).

(** ** Rules *)
Inductive PlanItemCompletionState : Set := StateActive | StateAvailable | StateEnabled.

Definition available_or_enabled (state : PlanItemCompletionState) : bool :=
  match state with StateActive => false | _ => true end.
Definition is_active (state : PlanItemCompletionState) : bool :=
  match state with StateActive => true | _ => false end.
Definition is_available (state : PlanItemCompletionState) : bool :=
  match state with StateAvailable => true | _ => false end.

(** The [match rule] of [plan_item_ignored_for_completion]. *)
Definition rule_ignores (rule : string) (state : PlanItemCompletionState)
  (already_completed repeatable : bool) : bool :=
  if bool_decide (rule = "ignore") then true
  else if bool_decide (rule = "ignoreIfAvailableOrEnabled") then available_or_enabled state
  else if bool_decide (rule = "ignoreIfAvailable") then is_available state
  else if bool_decide (rule = "ignoreAfterFirstCompletion") then
    already_completed && (is_active state || repeatable)
  else if bool_decide (rule = "ignoreAfterFirstCompletionIfAvailableOrEnabled") then
    already_completed && repeatable && available_or_enabled state
  else false.

Definition plan_item_ignored_for_completion (parent_completion_rule : option string)
  (completion_neutral : bool) (state : PlanItemCompletionState) (already_completed repeatable : bool) : bool :=
  if match parent_completion_rule with
     | Some rule => rule_ignores rule state already_completed repeatable
     | None => false
     end then true
  else completion_neutral && is_available state.

Definition rule_needs_already_completed (rule : option string) : bool :=
  bool_decide (rule = Some "ignoreAfterFirstCompletion"%string)
  || bool_decide (rule = Some "ignoreAfterFirstCompletionIfAvailableOrEnabled"%string).

Definition bears_rule (p : CmmnPlanItem) : bool :=
  match parent_completion_rule p, completion_neutral_rule p with None, None => false | _, _ => true end.

Fixpoint collect_rule_bearing_plan_items (c : ContainerView) : list CmmnPlanItem :=
  match c with
  | Container _ items stages _ =>
      List.filter bears_rule items ++ concat (map collect_rule_bearing_plan_items stages)
  end.

Fixpoint collect_container_plan_item_ids (c : ContainerView) : list string :=
  match c with
  | Container _ items stages _ =>
      map plan_item_id items ++ concat (map collect_container_plan_item_ids stages)
  end.

Definition find_rule_plan_item (rule_items : list CmmnPlanItem) (id : string) : option CmmnPlanItem :=
  List.find (fun p => bool_decide (plan_item_id p = id)) rule_items.

(** ** Rows that count *)

(** [STATE_ = 'ACTIVE'] when only active rows count, [STATE_ <> 'COMPLETED']
    otherwise. *)
Definition open_task (active_only : bool) (t : HumanTask) : bool :=
  if active_only then bool_decide (task_state t = Active) else negb (bool_decide (task_state t = Completed)).

Definition open_stage (active_only : bool) (r : CmmnStageInstance) : bool :=
  if active_only then bool_decide (si_state r = StageState.Active)
  else negb (bool_decide (si_state r = StageState.Completed)).

(** The scope of the rows of a decision: a stage instance, or a case. *)
Inductive CompletionScope : Type :=
| OfStage (stage_instance_id : string)
| OfCase (case_instance_id : string).

(** [STAGE_INSTANCE_ID_ = ?] or [CASE_INSTANCE_ID_ = ?]. *)
Definition task_in_scope (scope : CompletionScope) (t : HumanTask) : bool :=
  match scope with
  | OfStage id => bool_decide (task_stage_instance_id t = Some id)
  | OfCase id => bool_decide (task_case_instance_id t = id)
  end.

(** [PARENT_STAGE_INSTANCE_ID_ = ?] or [CASE_INSTANCE_ID_ = ?]. *)
Definition stage_in_scope (scope : CompletionScope) (r : CmmnStageInstance) : bool :=
  match scope with
  | OfStage id => bool_decide (si_parent_stage_instance_id r = Some id)
  | OfCase id => bool_decide (si_case_instance_id r = id)
  end.

Definition open_tasks (s : CmmnSession) (scope : CompletionScope) (active_only : bool) : list HumanTask :=
  List.filter (fun t => task_in_scope scope t && open_task active_only t) (human_tasks s).

Definition open_stages (s : CmmnSession) (scope : CompletionScope) (active_only : bool)
  : list CmmnStageInstance :=
  List.filter (fun r => stage_in_scope scope r && open_stage active_only r) (rows (stage_instances s)).

Definition case_subscriptions (s : CmmnSession) (case_instance_id : string) : list EventSubscription :=
  List.filter (fun r => bool_decide (sub_case_instance_id r = Some case_instance_id)) (event_subscriptions s).

Definition active_associations (s : CmmnSession) (case_instance_id : string) : list TaskAssociation :=
  List.filter (fun r => bool_decide (assoc_case_instance_id r = case_instance_id)
                        && bool_decide (assoc_state r = AssociationState.Active)) (task_associations s).

Definition open_event_subscription_count_for_container (s : CmmnSession) (case_instance_id : string)
  (c : ContainerView) : Z :=
  let ids := collect_container_plan_item_ids c in
  match ids with
  | [] => 0
  | _ => count (fun r => match sub_plan_item_id r with
                         | Some id => existsb (fun candidate => bool_decide (candidate = id)) ids
                         | None => false
                         end) (case_subscriptions s case_instance_id)
  end.

Definition is_listener_type (definition_type : string) : bool :=
  bool_decide (definition_type = PLAN_ITEM_DEFINITION_TYPE_TIMER_EVENT_LISTENER)
  || bool_decide (definition_type = PLAN_ITEM_DEFINITION_TYPE_EVENT_LISTENER).

Definition mirror_state_blocks_non_autocomplete (state definition_type : string) : bool :=
  if bool_decide (state = "ENABLED") then true
  else if bool_decide (state = "AVAILABLE") then is_listener_type definition_type
  else false.

(** Not ended, of the case, directly in the stage, or in no stage. *)
Definition mirror_in_scope (case_instance_id : string) (stage : option string)
  (r : CmmnPlanItemInstance) : bool :=
  bool_decide (pi_case_instance_id r = case_instance_id) && bool_decide (pi_ended_at r = None)
  && bool_decide (pi_stage_instance_id r = stage).

Definition count_blocking_mirror_plan_items (s : CmmnSession) (case_instance_id : string)
  (stage : option string) : Z :=
  count (fun r => mirror_in_scope case_instance_id stage r
                  && negb (bool_decide (pi_plan_item_definition_type r = "stage"))
                  && mirror_state_blocks_non_autocomplete (pi_state r) (pi_plan_item_definition_type r))
    (rows (plan_item_instances s)).

(** The states of the mirror that a rule may ignore. *)
Definition mirror_ignorable (r : CmmnPlanItemInstance) : bool :=
  bool_decide (pi_state r = "ENABLED")
  || (bool_decide (pi_state r = "AVAILABLE")
      && (bool_decide (pi_plan_item_definition_type r = "milestone")
          || is_listener_type (pi_plan_item_definition_type r))).

Definition mirror_completion_state (r : CmmnPlanItemInstance) : PlanItemCompletionState :=
  if bool_decide (pi_state r = "ENABLED") then StateEnabled else StateAvailable.

Definition task_completion_state (t : HumanTask) : PlanItemCompletionState :=
  match task_state t with Active => StateActive | Enabled => StateEnabled | _ => StateAvailable end.

Definition stage_completion_state (r : CmmnStageInstance) : PlanItemCompletionState :=
  match si_state r with
  | StageState.Active => StateActive
  | StageState.Enabled => StateEnabled
  | _ => StateAvailable
  end.

(** [human_task_instance_exists]. *)
Definition human_task_instance_exists (s : CmmnSession) (case_instance_id item : string)
  (stage : option string) : bool :=
  existsb (fun t => bool_decide (task_plan_item_id t = item) && bool_decide (task_stage_instance_id t = stage))
    (List.filter (fun t => bool_decide (task_case_instance_id t = case_instance_id)) (human_tasks s)).

Definition pending_case_level_discretionary_item_count (s : CmmnSession) (ci : CmmnCaseInstance) : Z :=
  match case_definitions s !! instance_case_definition_id ci with
  | None => 0
  | Some def =>
      count (fun item => negb (human_task_instance_exists s (instance_id ci) item None))
        (discretionary (header (case_plan_model (model def))))
  end.

(** A [for] loop that returns [Ok(true)] at the first element that is. *)
Definition any_of {A} (test : A -> result EvalStop bool) : list A -> result EvalStop bool :=
  fix go l := match l with
              | [] => Ok false
              | a :: r => b ← test a; if b : bool then Ok true else go r
              end.

Section Decision.
Context `{Display} `{NumberReader} `{Patterns} (fuel : nat) (s : CmmnSession) (ci : CmmnCaseInstance).

(** A condition that fails counts as false. *)
Definition evaluate_auto_complete (flag : bool) (condition : option CmmnSentryIfPartExpression)
  : result EvalStop bool :=
  match condition with
  | None => Ok flag
  | Some e => match evaluate_if_part_condition fuel e ci with
              | Ok b => Ok b
              | Err OutOfFuel => Err OutOfFuel
              | Err (Raised _) => Ok false
              end
  end.

Definition plan_item_state_is_ignored (p : CmmnPlanItem) (state : PlanItemCompletionState)
  : result EvalStop bool :=
  completion_neutral ← rule_matches fuel (completion_neutral_rule p) ci;
  repeatable ← rule_matches fuel (repetition_rule p) ci;
  let already_completed :=
    if rule_needs_already_completed (parent_completion_rule p)
    then occurred s (instance_id ci) (plan_item_id p) STANDARD_EVENT_COMPLETE else false in
  Ok (plan_item_ignored_for_completion (parent_completion_rule p) completion_neutral state
        already_completed repeatable).

(** Whether a row's plan item bears a rule that ignores it. *)
Definition row_is_ignored (rule_items : list CmmnPlanItem) (item : string)
  (state : PlanItemCompletionState) : result EvalStop bool :=
  match find_rule_plan_item rule_items item with
  | Some p => plan_item_state_is_ignored p state
  | None => Ok false
  end.

(** The loops of the five [ignored_open_*] functions: how many counted rows
    are ignored, and the plan items of the rows that are. *)
Fixpoint ignored_rows {A} (item : A -> option string) (state : A -> PlanItemCompletionState)
  (counted : A -> bool) (rule_items : list CmmnPlanItem) (l : list A) (acc : Z * gset string)
  : result EvalStop (Z * gset string) :=
  match l with
  | [] => Ok acc
  | row :: r =>
      match item row with
      | None => ignored_rows item state counted rule_items r acc
      | Some id =>
          ignored ← row_is_ignored rule_items id (state row);
          ignored_rows item state counted rule_items r
            (if ignored : bool then (if counted row then acc.1 + 1 else acc.1, {[ id ]} ∪ acc.2)%Z else acc)
      end
  end.

Definition always {A} (_ : A) : bool := true.

Definition ignored_open_human_tasks (rule_items : list CmmnPlanItem) (active_only : bool)
  (scope : CompletionScope) (ids : gset string) : result EvalStop (Z * gset string) :=
  ignored_rows (fun t => Some (task_plan_item_id t)) task_completion_state always rule_items
    (open_tasks s scope active_only) (0%Z, ids).

Definition ignored_open_stage_instances (rule_items : list CmmnPlanItem) (active_only : bool)
  (scope : CompletionScope) (ids : gset string) : result EvalStop (Z * gset string) :=
  ignored_rows (fun r => Some (si_plan_item_id r)) stage_completion_state always rule_items
    (open_stages s scope active_only) (0%Z, ids).

Definition ignored_open_event_subscriptions (rule_items : list CmmnPlanItem) (ids : gset string)
  : result EvalStop (Z * gset string) :=
  ignored_rows sub_plan_item_id (fun _ => StateAvailable) always rule_items
    (case_subscriptions s (instance_id ci)) (0%Z, ids).

Definition ignored_open_task_associations (rule_items : list CmmnPlanItem) (ids : gset string)
  : result EvalStop (Z * gset string) :=
  ignored_rows (fun r => Some (assoc_plan_item_id r)) (fun _ => StateActive) always rule_items
    (active_associations s (instance_id ci)) (0%Z, ids).

Definition mirror_blocks (r : CmmnPlanItemInstance) : bool :=
  mirror_state_blocks_non_autocomplete (pi_state r) (pi_plan_item_definition_type r).

Definition ignored_open_mirror_plan_items (rule_items : list CmmnPlanItem) (stage : option string)
  (ids : gset string) : result EvalStop (Z * gset string) :=
  ignored_rows (fun r => Some (pi_plan_item_id r)) mirror_completion_state mirror_blocks rule_items
    (List.filter (fun r => mirror_in_scope (instance_id ci) stage r && mirror_ignorable r)
       (rows (plan_item_instances s))) (0%Z, ids).

(** A plan item that its rules require, not ignored, and not completed: no
    [complete] event and no completed instance. *)
Definition required_and_incomplete (ids : gset string) (p : CmmnPlanItem) : result EvalStop bool :=
  if bool_decide (plan_item_id p ∈ ids) then Ok false
  else
    required ← required_rule_matches fuel p ci;
    Ok (required && negb (occurred s (instance_id ci) (plan_item_id p) STANDARD_EVENT_COMPLETE
          || existsb (fun r => bool_decide (pi_case_instance_id r = instance_id ci)
                               && bool_decide (pi_plan_item_id r = plan_item_id p)
                               && bool_decide (pi_state r = "COMPLETED")) (rows (plan_item_instances s)))).

Fixpoint has_incomplete_required_plan_items (ids : gset string) (c : ContainerView) : result EvalStop bool :=
  match c with
  | Container _ items stages _ =>
      b ← any_of (required_and_incomplete ids) items;
      if b : bool then Ok true else any_of (has_incomplete_required_plan_items ids) stages
  end.

(** Whether [maybe_complete_stage] goes on to complete the stage instance; the
    second component is the auto-complete of the stage. *)
Definition stage_may_complete (stage : ContainerView) (id : string) : result EvalStop (bool * bool) :=
  auto ← evaluate_auto_complete (auto_complete (header stage)) (auto_complete_condition (header stage));
  let scope := OfStage id in
  let tasks := Z.of_nat (length (open_tasks s scope auto)) in
  let child_stages := Z.of_nat (length (open_stages s scope auto)) in
  let subscriptions := if auto : bool then 0%Z
    else open_event_subscription_count_for_container s (instance_id ci) stage in
  let blocking := if auto then 0%Z
    else count_blocking_mirror_plan_items s (instance_id ci) (Some id) in
  let rule_items := collect_rule_bearing_plan_items stage in
  counts ←
    match rule_items with
    | [] => Ok (tasks, child_stages, subscriptions, blocking, ∅)
    | _ =>
        task_ignored ← ignored_open_human_tasks rule_items auto scope ∅;
        stage_ignored ← ignored_open_stage_instances rule_items auto scope task_ignored.2;
        event_ignored ← (if auto then Ok (0%Z, stage_ignored.2)
                         else ignored_open_event_subscriptions rule_items stage_ignored.2);
        blocking_ignored ← (if auto then Ok (0%Z, event_ignored.2)
                            else ignored_open_mirror_plan_items rule_items (Some id) event_ignored.2);
        Ok (i64_saturating_sub tasks task_ignored.1,
            i64_saturating_sub child_stages stage_ignored.1,
            usize_saturating_sub subscriptions event_ignored.1,
            i64_saturating_sub blocking blocking_ignored.1,
            blocking_ignored.2)
    end;
  let '(tasks, child_stages, subscriptions, blocking, ids) := counts in
  incomplete ← has_incomplete_required_plan_items ids stage;
  Ok ((tasks =? 0)%Z && (child_stages =? 0)%Z && (subscriptions =? 0)%Z && (blocking =? 0)%Z
      && negb incomplete, auto).

(** The same of [maybe_complete_case]. *)
Definition case_may_complete (plan : ContainerView) : result EvalStop (bool * bool) :=
  auto ← evaluate_auto_complete (auto_complete (header plan)) (auto_complete_condition (header plan));
  let scope := OfCase (instance_id ci) in
  let tasks := Z.of_nat (length (open_tasks s scope auto)) in
  let all_stages := Z.of_nat (length (open_stages s scope auto)) in
  let subscriptions := if auto : bool then 0%Z
    else Z.of_nat (length (case_subscriptions s (instance_id ci))) in
  let associations := Z.of_nat (length (active_associations s (instance_id ci))) in
  let blocking := if auto then 0%Z else count_blocking_mirror_plan_items s (instance_id ci) None in
  let pending := if auto then 0%Z else pending_case_level_discretionary_item_count s ci in
  let rule_items := collect_rule_bearing_plan_items plan in
  counts ←
    match rule_items with
    | [] => Ok (tasks, all_stages, subscriptions, associations, blocking, ∅)
    | _ =>
        task_ignored ← ignored_open_human_tasks rule_items auto scope ∅;
        stage_ignored ← ignored_open_stage_instances rule_items auto scope task_ignored.2;
        event_ignored ← (if auto then Ok (0%Z, stage_ignored.2)
                         else ignored_open_event_subscriptions rule_items stage_ignored.2);
        association_ignored ← ignored_open_task_associations rule_items event_ignored.2;
        blocking_ignored ← (if auto then Ok (0%Z, association_ignored.2)
                            else ignored_open_mirror_plan_items rule_items None association_ignored.2);
        Ok (i64_saturating_sub tasks task_ignored.1,
            i64_saturating_sub all_stages stage_ignored.1,
            i64_saturating_sub subscriptions event_ignored.1,
            i64_saturating_sub associations association_ignored.1,
            i64_saturating_sub blocking blocking_ignored.1,
            blocking_ignored.2)
    end;
  let '(tasks, all_stages, subscriptions, associations, blocking, ids) := counts in
  incomplete ← has_incomplete_required_plan_items ids plan;
  Ok ((tasks =? 0)%Z && (all_stages =? 0)%Z && (subscriptions =? 0)%Z && (associations =? 0)%Z
      && (blocking =? 0)%Z && (pending =? 0)%Z && negb incomplete, auto).
End Decision.
