(* ===== verification/CmmnTermination.v ===== *)
(** * CMMN: completing and terminating stages and cases

    Models, from [flowable-cmmn-engine/src/runtime.rs], the writes of stage,
    task and case rows, the termination of a stage instance with what is below
    it, the repetition of an ended stage, and [maybe_complete_stage] and
    [maybe_complete_case] in full: the decision of [CmmnCompletion], the exit
    of what an auto-completing container leaves, the listeners of
    [CmmnTables], and the completion of the stages above.

    [maybe_complete_stage] calls itself on the parent instance; [turns] bounds
    those calls.  Each time and id a function takes is drawn from [RowSource].
    What a completed case starts in the case that called it is an argument. *)
From S2P Require Import Prelude Chars Json ElValues ElCompiler ElExpression CmmnTokens CmmnCondition CmmnSentry CmmnTables CmmnSatisfaction CmmnCompletion.

Definition LM (A : Type) : Type := stM CmmnSession LifecycleStop A.

Definition evaluation {A} (r : result EvalStop A) : LM A := lift (map_err Evaluation r).

(** [ok_or_else(|| CmmnError::storage(..))]. *)
Definition found_or {A} (message : string) (o : option A) : LM A :=
  match o with Some a => mret a | None => lift (raise_cmmn (Storage message)) end.

(** A [for] loop that extends a vector. *)
Definition extend_in {A B} (body : A -> LM (list B)) : list A -> LM (list B) :=
  fix go l := match l with
              | [] => mret []
              | a :: r => x ← body a; y ← go r; mret (x ++ y)
              end.

(** ** The model of the case *)
Fixpoint find_stage (c : ContainerView) (id : string) : option ContainerView :=
  match c with
  | Container h _ stages _ =>
      if bool_decide (stage_definition_id h = id) then Some c
      else find_map (fun st => find_stage st id) stages
  end.

Definition find_stage_by_definition_id (l : list ContainerView) (id : string) : option ContainerView :=
  find_map (fun st => find_stage st id) l.

Fixpoint find_stage_plan_item_by_plan_item_id (c : ContainerView) (item : string)
  : option (CmmnPlanItem * ContainerView) :=
  match c with
  | Container _ items stages _ =>
      match find_map (fun p =>
              if bool_decide (plan_item_id p = item) then
                (fun st => (p, st)) <$>
                  List.find (fun st => bool_decide (stage_definition_id (header st) = definition_ref p)) stages
              else None) items with
      | Some found => Some found
      | None => find_map (fun st => find_stage_plan_item_by_plan_item_id st item) stages
      end
  end.

Definition stage_not_found (def : CmmnCaseDefinition) (id : string) : string :=
  "CMMN stage definition '" +:+ id +:+ "' was not found in case definition '"
  +:+ case_definition_id def +:+ "'".

(** ** Rows *)
Definition in_state (st : StageState.CmmnStageInstanceState) (at_ : option string)
  (r : CmmnStageInstance) : CmmnStageInstance :=
  mkStageInstance (si_id r) (si_case_instance_id r) (si_case_definition_id r)
    (si_parent_stage_instance_id r) (si_plan_item_id r) (si_stage_definition_id r) (si_name r)
    (si_activated_at r) at_ st.

Definition ended_instance (at_ : string) (r : CmmnPlanItemInstance) : CmmnPlanItemInstance :=
  mkPlanItemInstance (pi_id r) (pi_case_instance_id r) (pi_case_definition_id r) (pi_stage_instance_id r)
    (pi_plan_item_id r) (pi_plan_item_definition_id r) (pi_plan_item_definition_type r) (pi_name r)
    "TERMINATED" (pi_created_at r) (pi_last_enabled_at r) (Some at_).

Definition terminated_task (at_ : string) (t : HumanTask) : HumanTask :=
  mkHumanTask (task_id t) (task_case_instance_id t) (task_stage_instance_id t) (task_plan_item_id t)
    (task_definition_id t) Terminated (Some at_).

Definition completed_case (at_ : string) (ci : CmmnCaseInstance) : CmmnCaseInstance :=
  mkCaseInstance (instance_id ci) (instance_case_definition_id ci) (instance_variables ci)
    (instance_tenant_id ci) CaseState.Completed (Some at_).

(** The stage as a plan item instance. *)
Definition stage_mirror (r : CmmnStageInstance) : CmmnPlanItemInstance :=
  mkPlanItemInstance (si_id r) (si_case_instance_id r) (si_case_definition_id r) None (si_plan_item_id r)
    (si_stage_definition_id r) "stage" (si_name r) (StageState.stage_as_str (si_state r)) (si_activated_at r)
    (if bool_decide (si_state r = StageState.Enabled) then Some (si_activated_at r) else None)
    (si_ended_at r).

Definition persist_plan_item_instance_session (r : CmmnPlanItemInstance) : LM unit :=
  modify (fun s => set_plan_item_instances (<[ pi_id r := r ]> (plan_item_instances s)) s).

Definition persist_historic_stage_instance_session (r : CmmnStageInstance) : LM unit :=
  modify (fun s => set_stage_history (<[ si_id r := r ]> (stage_history s)) s).

Definition persist_stage_instance_session (r : CmmnStageInstance) : LM unit :=
  modify (fun s => set_stage_instances (<[ si_id r := r ]> (stage_instances s)) s) ;;
  persist_historic_stage_instance_session r ;;
  persist_plan_item_instance_session (stage_mirror r).

Definition persist_historic_human_task_session (t : HumanTask) : LM unit :=
  modify (fun s => set_human_task_history (upsert task_id t (human_task_history s)) s).

Definition persist_case_instance_session (ci : CmmnCaseInstance) : LM unit :=
  modify (fun s => set_case_instances (<[ instance_id ci := ci ]> (case_instances s)) s).

Definition persist_historic_case_session (ci : CmmnCaseInstance) : LM unit :=
  modify (fun s => set_case_history (<[ instance_id ci := ci ]> (case_history s)) s).

Definition delete_human_task (id : string) : LM unit :=
  modify (fun s => set_human_tasks
    (List.filter (fun t => negb (bool_decide (task_id t = id))) (human_tasks s)) s).

Definition delete_stage_instance (id : string) : LM unit :=
  modify (fun s => set_stage_instances (delete id (stage_instances s)) s).

Definition delete_timer_jobs_for_plan_item (case_instance_id item : string) : LM unit :=
  modify (fun s => set_cmmn_jobs
    (List.filter (fun j => negb (bool_decide (job_family j = "timer")
       && bool_decide (job_scope_id j = Some case_instance_id)
       && bool_decide (job_sub_scope_id j = Some item))) (cmmn_jobs s)) s).

Definition delete_subscriptions (p : EventSubscription -> bool) : LM unit :=
  modify (fun s => set_event_subscriptions (List.filter (fun r => negb (p r)) (event_subscriptions s)) s).

Fixpoint delete_event_subscriptions_for_container (case_instance_id : string) (c : ContainerView) : LM unit :=
  match c with
  | Container _ items stages _ =>
      for_in (fun p =>
        delete_subscriptions (fun r => bool_decide (sub_case_instance_id r = Some case_instance_id)
                                       && bool_decide (sub_plan_item_id r = Some (plan_item_id p))) ;;
        delete_timer_jobs_for_plan_item case_instance_id (plan_item_id p)) items ;;
      for_in (delete_event_subscriptions_for_container case_instance_id) stages
  end.

Definition delete_enabled_plan_item_instance_rows (case_instance_id item : string) : LM unit :=
  s ← get;
  for_in (fun r => modify (fun s => set_plan_item_instances (delete (pi_id r) (plan_item_instances s)) s))
    (List.filter (fun r => bool_decide (pi_case_instance_id r = case_instance_id)
                           && bool_decide (pi_plan_item_id r = item)
                           && bool_decide (pi_state r = "ENABLED")
                           && bool_decide (pi_ended_at r = None)) (rows (plan_item_instances s))).

Definition stage_instance_is_active (s : CmmnSession) (id : string) : bool :=
  match stage_instances s !! id with
  | Some r => bool_decide (si_state r = StageState.Active)
  | None => false
  end.

Definition open_stage_instance_exists (s : CmmnSession) (case_instance_id item : string) : bool :=
  existsb (fun r => bool_decide (si_case_instance_id r = case_instance_id)
                    && negb (bool_decide (si_state r = StageState.Completed))
                    && negb (bool_decide (si_state r = StageState.Terminated))
                    && bool_decide (si_plan_item_id r = item)) (rows (stage_instances s)).

Section Lifecycle.
Context `{Display} `{Unicode} `{NumberReader} `{Patterns} `{RowSource}
  (ambient : ExpressionMethodRegistry) (registry : option CmmnLifecycleListenerRegistry) (fuel : nat).

(** The next row of the source. *)
Definition tick : LM nat :=
  s ← get; modify (set_rows_written (S (rows_written s))) ;; mret (rows_written s).
Definition now : LM string := n ← tick; mret (now_rfc3339 n).

Definition fire (case_instance_id instance definition_id definition_type old_state new_state : string) : LM unit :=
  s ← get;
  lift (fire_plan_item_lifecycle_listeners_session ambient registry s case_instance_id (Some instance)
          definition_id (Some definition_type) old_state new_state).

Definition terminate_plan_item_instance_rows (case_instance_id item definition_type : string) : LM unit :=
  at_ ← now;
  s ← get;
  for_in (fun r => persist_plan_item_instance_session (ended_instance at_ r))
    (List.filter (fun r => bool_decide (pi_case_instance_id r = case_instance_id)
                           && bool_decide (pi_plan_item_id r = item)
                           && bool_decide (pi_plan_item_definition_type r = definition_type))
       (rows (plan_item_instances s))).

Definition terminate_open_plan_item_instances_for_case_session (case_instance_id at_ : string) : LM unit :=
  s ← get;
  for_in (fun r => persist_plan_item_instance_session (ended_instance at_ r))
    (List.filter (fun r => bool_decide (pi_case_instance_id r = case_instance_id)
                           && bool_decide (pi_ended_at r = None)) (rows (plan_item_instances s))).

(** ** Repetition *)

(** [create_stage_instance] in the state [Available], which is persisted and
    not started. *)
Definition create_available_stage_instance (def : CmmnCaseDefinition) (ci : CmmnCaseInstance)
  (p : CmmnPlanItem) (stage : ContainerView) (parent : option string) : LM unit :=
  n ← tick;
  at_ ← now;
  persist_stage_instance_session
    (mkStageInstance ("cmmn-stage-instance:" +:+ new_v4 n) (instance_id ci) (case_definition_id def) parent
       (plan_item_id p) (stage_definition_id (header stage))
       (default (stage_name (header stage)) (plan_item_name p)) at_ None StageState.Available).

Definition repeat_stage_if_needed (def : CmmnCaseDefinition) (ended : CmmnStageInstance) : LM unit :=
  s ← get;
  ci ← found_or ("CMMN case instance '" +:+ si_case_instance_id ended
         +:+ "' disappeared during stage repetition evaluation") (case_instances s !! si_case_instance_id ended);
  match find_stage_plan_item_by_plan_item_id (case_plan_model (model def)) (si_plan_item_id ended) with
  | None => mret tt
  | Some (p, stage) =>
      repeats ← evaluation (repetition_rule_matches fuel p ci);
      if negb repeats then mret tt
      else if match si_parent_stage_instance_id ended with
              | Some parent => negb (stage_instance_is_active s parent)
              | None => false
              end then mret tt
      else if open_stage_instance_exists s (instance_id ci) (plan_item_id p) then mret tt
      else create_available_stage_instance def ci p stage (si_parent_stage_instance_id ended)
  end.

(** ** Termination *)
Definition Terminations : Type := list (string * option string).

(** One task of a terminated stage. *)
Definition terminate_child_task (t : HumanTask) : LM Terminations :=
  fire (task_case_instance_id t) (task_id t) (task_definition_id t) "humantask"
    (task_as_str (task_state t)) (task_as_str Terminated) ;;
  at_ ← now;
  persist_historic_human_task_session (terminated_task at_ t) ;;
  delete_human_task (task_id t) ;;
  mret [(task_plan_item_id t, task_stage_instance_id t)].

(** After an instance of the plan item was terminated: the next repetition. *)
Definition repeat_terminated (def : CmmnCaseDefinition) (case_instance_id : string) (p : CmmnPlanItem)
  (stage : ContainerView) (parent : option string) : LM unit :=
  s ← get;
  let parent_is_active := match parent with Some id => stage_instance_is_active s id | None => true end in
  match case_instances s !! case_instance_id with
  | None => mret tt
  | Some ci =>
      should_repeat ← evaluation (repetition_rule_matches fuel p ci);
      if should_repeat && parent_is_active
         && negb (open_stage_instance_exists s case_instance_id (plan_item_id p))
      then create_available_stage_instance def ci p stage parent
      else mret tt
  end.

(** [terminate]: [terminate_stage_instance] at the stage. *)
Definition terminate_stage_plan_item (terminate : CmmnStageInstance -> LM Terminations)
  (def : CmmnCaseDefinition) (case_instance_id : string) (p : CmmnPlanItem) (stage : ContainerView)
  : LM Terminations :=
  s ← get;
  extend_in (fun r =>
      terminated ← terminate r;
      repeat_terminated def case_instance_id p stage (si_parent_stage_instance_id r) ;;
      mret terminated)
    (List.filter (fun r => bool_decide (si_case_instance_id r = case_instance_id)
                           && negb (bool_decide (si_state r = StageState.Completed))
                           && bool_decide (si_plan_item_id r = plan_item_id p)) (rows (stage_instances s))).

Fixpoint terminate_stage_instance (def : CmmnCaseDefinition) (stage : ContainerView) (r : CmmnStageInstance)
  : LM Terminations :=
  match stage with
  | Container _ items child_stages _ =>
      from_stages ← extend_in (fun child =>
          extend_in (fun p => terminate_stage_plan_item (terminate_stage_instance def child) def
                                (si_case_instance_id r) p child)
            (List.filter (fun p => bool_decide (definition_ref p = stage_definition_id (header child))) items))
        child_stages;
      s ← get;
      from_tasks ← extend_in terminate_child_task (open_tasks s (OfStage (si_id r)) false);
      delete_event_subscriptions_for_container (si_case_instance_id r) stage ;;
      fire (si_case_instance_id r) (si_id r) (si_stage_definition_id r) "stage"
        (StageState.stage_as_str (si_state r)) (StageState.stage_as_str StageState.Terminated) ;;
      at_ ← now;
      persist_historic_stage_instance_session (in_state StageState.Terminated (Some at_) r) ;;
      delete_stage_instance (si_id r) ;;
      terminate_plan_item_instance_rows (si_case_instance_id r) (si_plan_item_id r) "stage" ;;
      mret (from_stages ++ from_tasks ++ [(si_plan_item_id r, si_parent_stage_instance_id r)])
  end.

(** ** What an auto-completing container leaves *)
Definition terminate_residual_task (t : HumanTask) : LM unit :=
  at_ ← now;
  persist_historic_human_task_session (terminated_task at_ t) ;;
  delete_human_task (task_id t).

(** One stage of the residue; [lookup]: where its definition is looked for. *)
Definition terminate_residual_stage (def : CmmnCaseDefinition)
  (lookup : string -> option ContainerView) (r : CmmnStageInstance) : LM unit :=
  s ← get;
  match stage_instances s !! si_id r with
  | None => mret tt
  | Some _ =>
      stage ← found_or (stage_not_found def (si_stage_definition_id r)) (lookup (si_stage_definition_id r));
      _ ← terminate_stage_instance def stage r; mret tt
  end.

Definition case_stage (def : CmmnCaseDefinition) (id : string) : option ContainerView :=
  find_stage_by_definition_id (stages (case_plan_model (model def))) id.

Definition terminate_residual_stage_children_for_auto_complete (def : CmmnCaseDefinition)
  (r : CmmnStageInstance) (stage : ContainerView) : LM unit :=
  s ← get;
  for_in (terminate_residual_stage def (fun id =>
            match find_stage_by_definition_id (stages stage) id with
            | Some st => Some st
            | None => case_stage def id
            end)) (open_stages s (OfStage (si_id r)) false) ;;
  s ← get;
  for_in terminate_residual_task (open_tasks s (OfStage (si_id r)) false) ;;
  delete_event_subscriptions_for_container (si_case_instance_id r) stage ;;
  for_in (delete_enabled_plan_item_instance_rows (si_case_instance_id r)) (collect_container_plan_item_ids stage).

Definition terminate_residual_case_children_for_auto_complete (def : CmmnCaseDefinition)
  (case_instance_id : string) : LM unit :=
  s ← get;
  for_in (terminate_residual_stage def (case_stage def)) (open_stages s (OfCase case_instance_id) false) ;;
  s ← get;
  for_in terminate_residual_task (open_tasks s (OfCase case_instance_id) false) ;;
  delete_subscriptions (fun r => bool_decide (sub_case_instance_id r = Some case_instance_id)).

(** ** Completion *)

(** The transition of [maybe_complete_stage], once decided. *)
Definition complete_stage (def : CmmnCaseDefinition) (stage : ContainerView) (auto : bool)
  (r : CmmnStageInstance) : LM unit :=
  (if auto then terminate_residual_stage_children_for_auto_complete def r stage else mret tt) ;;
  fire (si_case_instance_id r) (si_id r) (si_stage_definition_id r) "stage"
    (StageState.stage_as_str (si_state r)) (StageState.stage_as_str StageState.Completed) ;;
  at_ ← now;
  let ended := in_state StageState.Completed (Some at_) r in
  persist_stage_instance_session ended ;;
  repeat_stage_if_needed def ended.

Fixpoint maybe_complete_stage (turns : nat) (def : CmmnCaseDefinition) (id : string) : LM unit :=
  match turns with
  | 0 => throw Exhausted
  | S turns =>
      s ← get;
      match stage_instances s !! id with
      | None => mret tt
      | Some r =>
          if negb (bool_decide (si_state r = StageState.Active)) then mret tt
          else
            stage ← found_or (stage_not_found def (si_stage_definition_id r))
                      (case_stage def (si_stage_definition_id r));
            ci ← found_or ("CMMN case instance '" +:+ si_case_instance_id r +:+ "' was not found")
                   (case_instances s !! si_case_instance_id r);
            decision ← evaluation (stage_may_complete fuel s ci stage id);
            if decision.1 : bool then
              complete_stage def stage decision.2 r ;;
              match si_parent_stage_instance_id r with
              | Some parent => maybe_complete_stage turns def parent
              | None => mret tt
              end
            else mret tt
      end
  end.

(** [complete_parent]: [complete_parent_case_task_associations_for_child_case]. *)
Definition maybe_complete_case (complete_parent : string -> LM unit) (id : string) : LM unit :=
  s ← get;
  match case_instances s !! id with
  | None => mret tt
  | Some ci =>
      if negb (bool_decide (instance_state ci = CaseState.Active)) then mret tt
      else
        def ← found_or ("CMMN case definition '" +:+ instance_case_definition_id ci +:+ "' was not found")
                (case_definitions s !! instance_case_definition_id ci);
        decision ← evaluation (case_may_complete fuel s ci (case_plan_model (model def)));
        if decision.1 : bool then
          (if decision.2 : bool then terminate_residual_case_children_for_auto_complete def id else mret tt) ;;
          lift (fire_case_lifecycle_listeners_for_model ambient registry (model def) ci
                  (CaseState.case_as_str (instance_state ci)) (CaseState.case_as_str CaseState.Completed)) ;;
          at_ ← now;
          terminate_open_plan_item_instances_for_case_session id at_ ;;
          persist_case_instance_session (completed_case at_ ci) ;;
          persist_historic_case_session (completed_case at_ ci) ;;
          complete_parent id
        else mret tt
  end.
End Lifecycle.
