(* ===== verification/CmmnCompletionProof.v ===== *)
(** * CMMN: what the completion decision means

    The decision counts rows and subtracts the ignored ones; here it is shown
    to be the statement about each row: every open row is ignored by a rule of
    its plan item, and every required plan item is completed or ignored. *)
From S2P Require Import Prelude Chars Json ElValues CmmnTokens CmmnCondition CmmnSentry CmmnTables CmmnSatisfaction CmmnCompletion.

#[local] Opaque rows.

(** ** Counting *)
Lemma count_nonneg {A} (p : A -> bool) l : (0 <= count p l)%Z.
Proof. unfold count. lia. Qed.

Lemma count_cons {A} (p : A -> bool) a l : count p (a :: l) = ((if p a then 1 else 0) + count p l)%Z.
Proof. unfold count. simpl. destruct (p a); simpl; lia. Qed.

Lemma count_filter {A} (p q : A -> bool) l : count p (List.filter q l) = count (fun a => q a && p a) l.
Proof.
  induction l as [|a l IH]; [done|]. simpl. rewrite count_cons. destruct (q a); simpl; [|done].
  rewrite count_cons. by rewrite IH.
Qed.

Lemma count_all {A} (p : A -> bool) (l : list A) : count p l = Z.of_nat (length l) <-> forall a, a ∈ l -> p a = true.
Proof.
  induction l as [|a l IH]; [split; [set_solver|done]|]. rewrite count_cons. cbn [length].
  assert (count p l <= Z.of_nat (length l))%Z.
  { unfold count. pose proof (List.filter_length_le p l). lia. }
  split.
  - intros Hc b Hb. apply elem_of_cons in Hb as [->|Hb]; destruct (p a) eqn:E; [done|lia|apply IH; [lia|done]|lia].
  - intros Hall. rewrite Hall by set_solver. rewrite (proj2 IH) by (intros b Hb; apply Hall; set_solver). lia.
Qed.

(** When only counted rows are subtracted, the difference is zero exactly when
    every counted row is. *)
Lemma count_difference {A} (p q : A -> bool) (l : list A) :
  (forall a, a ∈ l -> q a = true -> p a = true) ->
  (count q l <= count p l)%Z /\ (count p l = count q l <-> forall a, a ∈ l -> p a = true -> q a = true).
Proof.
  induction l as [|a l IH]; intros Hqp; [split; [done|]; set_solver|].
  rewrite !count_cons. destruct IH as [Hle Heq]; [intros b Hb; apply Hqp; set_solver|].
  pose proof (Hqp a ltac:(set_solver)) as Ha. split; [destruct (p a), (q a); naive_solver lia|]. split.
  - intros Hc b Hb. apply elem_of_cons in Hb as [->|Hb]; destruct (p a), (q a); try (naive_solver lia).
    all: apply Heq; [naive_solver lia|done].
  - intros Hall. rewrite (proj2 Heq) by (intros b Hb; apply Hall; set_solver).
    specialize (Hall a ltac:(set_solver)). destruct (p a), (q a); naive_solver.
Qed.

Lemma i64_zero a b : (i64_saturating_sub a b =? 0)%Z = true <-> a = b.
Proof. unfold i64_saturating_sub. rewrite Z.eqb_eq. lia. Qed.

Lemma usize_zero a b : (b <= a)%Z -> (usize_saturating_sub a b =? 0)%Z = true <-> a = b.
Proof. unfold usize_saturating_sub. rewrite Z.eqb_eq. lia. Qed.

(** ** Loops *)
Lemma exists_cons {A} (P : A -> Prop) a l :
  (exists x, x ∈ a :: l /\ P x) <-> P a \/ exists x, x ∈ l /\ P x.
Proof.
  split.
  - intros (x & Hx & Hp). apply elem_of_cons in Hx as [->|Hx]; eauto.
  - intros [Hp|(x & Hx & Hp)]; eexists; (split; [apply elem_of_cons|]); eauto.
Qed.

Lemma any_of_spec {A} (test : A -> result EvalStop bool) l b :
  any_of test l = Ok b -> (b = true <-> exists a, a ∈ l /\ test a = Ok true).
Proof.
  revert b. induction l as [|a l IH]; intros b; simpl; [intros [= <-]; set_solver|].
  destruct (test a) as [[]|e] eqn:E; simpl; [intros [= <-]| |done].
  - split; [|done]. intros _. exists a. set_solver.
  - intros Hb. rewrite (IH b Hb). split; [set_solver|].
    intros (x & Hx & Ht). apply elem_of_cons in Hx as [->|Hx]; [congruence|eauto].
Qed.

(** The plan items of a container and of the stages below it. *)
Fixpoint all_plan_items (c : ContainerView) : list CmmnPlanItem :=
  match c with Container _ items stages _ => items ++ concat (map all_plan_items stages) end.

Lemma elem_of_concat_map {A B} (f : A -> list B) (l : list A) x :
  x ∈ concat (map f l) <-> exists a, a ∈ l /\ x ∈ f a.
Proof. induction l; simpl; [set_solver|]. rewrite elem_of_app, IHl. set_solver. Qed.

(** A walk that collects from the plan items collects from all of them. *)
Lemma elem_of_walk {A} (walk : ContainerView -> list A) (own : list CmmnPlanItem -> list A) x :
  (forall h items stages sentries,
     walk (Container h items stages sentries) = own items ++ concat (map walk stages)) ->
  (forall items, x ∈ own items <-> exists p, p ∈ items /\ x ∈ own [p]) ->
  forall c, x ∈ walk c <-> exists p, p ∈ all_plan_items c /\ x ∈ own [p].
Proof.
  intros Hw Ho c. induction c as [h items stages sentries IH] using container_induction.
  rewrite Hw, elem_of_app, Ho, elem_of_concat_map. cbn [all_plan_items]. setoid_rewrite elem_of_app.
  setoid_rewrite elem_of_concat_map. rewrite Forall_forall in IH. split.
  - intros [(p & Hp & Hx)|(c & Hc & Hx)]; [by eauto|]. apply IH in Hx as (p & Hp & Hx); eauto 7.
  - intros (p & [Hp|(c & Hc & Hp)] & Hx); [by eauto|]. right. exists c. split; [done|]. apply IH; eauto.
Qed.

Lemma rule_bearing_items c p :
  p ∈ collect_rule_bearing_plan_items c <-> p ∈ all_plan_items c /\ bears_rule p = true.
Proof.
  assert (forall items, p ∈ List.filter bears_rule items <-> p ∈ items /\ bears_rule p = true) as Hf.
  { intros items. rewrite !list_elem_of_In. apply filter_In. }
  rewrite (elem_of_walk collect_rule_bearing_plan_items (List.filter bears_rule) p); [|done|].
  - setoid_rewrite Hf. set_solver.
  - intros items. setoid_rewrite Hf. set_solver.
Qed.

Lemma container_item_ids c id :
  id ∈ collect_container_plan_item_ids c <-> exists p, p ∈ all_plan_items c /\ plan_item_id p = id.
Proof.
  rewrite (elem_of_walk collect_container_plan_item_ids (map plan_item_id) id); [|done|].
  - simpl. setoid_rewrite list_elem_of_singleton. naive_solver.
  - intros items. setoid_rewrite list_elem_of_fmap. set_solver.
Qed.

Section Decision.
Context `{Display} `{NumberReader} `{Patterns} (fuel : nat) (s : CmmnSession) (ci : CmmnCaseInstance).

Lemma required_spec ids c b :
  has_incomplete_required_plan_items fuel s ci ids c = Ok b ->
  (b = true <-> exists p, p ∈ all_plan_items c /\ required_and_incomplete fuel s ci ids p = Ok true).
Proof.
  revert b. induction c as [h items stages sentries IH] using container_induction. intros b.
  cbn [has_incomplete_required_plan_items all_plan_items]. rewrite Forall_forall in IH.
  destruct (any_of _ items) as [[]|e] eqn:E; simpl; [intros [= <-]| |done].
  - split; [|done]. intros _. apply any_of_spec in E as [E _]. set_solver.
  - intros Hb. rewrite (any_of_spec _ _ _ Hb). apply any_of_spec in E. split.
    + intros (c & Hc & Ht). destruct (proj1 (IH c Hc true Ht) eq_refl) as (p & Hp & Hr).
      exists p. rewrite elem_of_app, elem_of_concat_map. eauto.
    + intros (p & Hp & Hr). rewrite elem_of_app, elem_of_concat_map in Hp.
      destruct Hp as [Hp|(c & Hc & Hp)]; [naive_solver|].
      assert (forall l b, any_of (has_incomplete_required_plan_items fuel s ci ids) l = Ok b -> c ∈ l ->
              (exists b', has_incomplete_required_plan_items fuel s ci ids c = Ok b') \/ b = true) as Hev.
      { clear. intros l. induction l as [|a l IH]; intros b; simpl; [set_solver|].
        destruct (has_incomplete_required_plan_items fuel s ci ids a) as [[]|] eqn:E; simpl; [naive_solver| |done].
        intros Hb Hin. apply elem_of_cons in Hin as [->|Hin]; eauto. }
      destruct (Hev _ _ Hb Hc) as [[b' Hb']|Ht].
      * exists c. split; [done|]. rewrite Hb'. f_equal. apply (IH c Hc b' Hb'). eauto.
      * apply (any_of_spec _ _ _ Hb) in Ht. done.
Qed.

(** ** Rows and rules *)

(** An open row: its plan item, when it has one, and its state. *)
Definition OpenRow : Type := option string * PlanItemCompletionState.

Definition ignored (rule_items : list CmmnPlanItem) (row : OpenRow) : bool :=
  match row.1 with
  | Some id => match row_is_ignored fuel s ci rule_items id row.2 with Ok b => b | Err _ => false end
  | None => false
  end.

Lemma ignored_rows_spec {A} item state (counted : A -> bool) rule_items l n ids n' ids' :
  ignored_rows fuel s ci item state counted rule_items l (n, ids) = Ok (n', ids') ->
  n' = (n + count (fun row => counted row && ignored rule_items (item row, state row)) l)%Z
  /\ forall id, id ∈ ids' <-> id ∈ ids \/ exists row, row ∈ l /\ item row = Some id
                              /\ ignored rule_items (item row, state row) = true.
Proof.
  revert n ids. induction l as [|row l IH]; intros n ids; cbn [ignored_rows].
  { intros [= <- <-]. split; [unfold count; simpl; lia|]. set_solver. }
  rewrite count_cons. unfold ignored at 1. cbn [fst snd]. destruct (item row) as [id|] eqn:Ei.
  - destruct (row_is_ignored fuel s ci rule_items id (state row)) as [b|e] eqn:Er; cbn; [|done].
    intros Hr. assert (ignored rule_items (item row, state row) = b) as Hb.
    { unfold ignored. cbn. by rewrite Ei, Er. }
    destruct b; apply IH in Hr as [-> Hids]; (split; [destruct (counted row); simpl; lia|]);
      intros id'; rewrite Hids, exists_cons, Hb, Ei.
    + rewrite elem_of_union, elem_of_singleton. naive_solver.
    + naive_solver.
  - intros Hr. apply IH in Hr as [-> Hids]. split; [rewrite andb_false_r; simpl; lia|].
    intros id'. rewrite Hids, exists_cons, Ei. naive_solver.
Qed.

(** With every row counted, the count is the number of rows exactly when every
    row is ignored. *)
Lemma all_ignored {A} item state rule_items (l : list A) n ids ids' :
  ignored_rows fuel s ci item state always rule_items l (0%Z, ids) = Ok (n, ids') ->
  (Z.of_nat (length l) = n <-> forall row, row ∈ l -> ignored rule_items (item row, state row) = true).
Proof.
  intros [-> _]%ignored_rows_spec. rewrite Z.add_0_l. rewrite <- (count_all _ l). done.
Qed.

Lemma ignored_none {A} item state (counted : A -> bool) l acc :
  ignored_rows fuel s ci item state counted [] l acc = Ok acc.
Proof. revert acc. induction l as [|row l IH]; intros acc; simpl; [done|]. destruct (item row); apply IH. Qed.

Lemma ignored_bears c id state :
  ignored (collect_rule_bearing_plan_items c) (Some id, state) = true -> id ∈ collect_container_plan_item_ids c.
Proof.
  unfold ignored, row_is_ignored, find_rule_plan_item. cbn.
  destruct (List.find _ _) as [p|] eqn:E; [|done]. intros _. apply find_some in E as [Hin Hid].
  case_bool_decide; [|done]. apply container_item_ids. exists p. split; [|done].
  rewrite <- list_elem_of_In in Hin. by apply rule_bearing_items in Hin as [? _].
Qed.

Lemma blocks_ignorable r : mirror_blocks r = true -> mirror_ignorable r = true.
Proof.
  unfold mirror_blocks, mirror_state_blocks_non_autocomplete, mirror_ignorable.
  repeat case_bool_decide; simpl; try done; intros ->; by rewrite orb_true_r.
Qed.

(** ** The rows of a container *)
Definition task_row (t : HumanTask) : OpenRow := (Some (task_plan_item_id t), task_completion_state t).
Definition stage_row (r : CmmnStageInstance) : OpenRow := (Some (si_plan_item_id r), stage_completion_state r).
Definition subscription_row (r : EventSubscription) : OpenRow := (sub_plan_item_id r, StateAvailable).
Definition association_row (r : TaskAssociation) : OpenRow := (Some (assoc_plan_item_id r), StateActive).
Definition mirror_row (r : CmmnPlanItemInstance) : OpenRow := (Some (pi_plan_item_id r), mirror_completion_state r).

(** The instances of the mirror in a stage, or in no stage. *)
Definition mirror_rows (stage : option string) : list CmmnPlanItemInstance :=
  List.filter (mirror_in_scope (instance_id ci) stage) (rows (plan_item_instances s)).

(** The ones that keep the container open. *)
Definition blocking_mirror (stage : option string) : list CmmnPlanItemInstance :=
  List.filter (fun r => negb (bool_decide (pi_plan_item_definition_type r = "stage")) && mirror_blocks r)
    (mirror_rows stage).

(** A required plan item is done: it completed, or a row of it is ignored. *)
Definition completed (p : CmmnPlanItem) : bool :=
  occurred s (instance_id ci) (plan_item_id p) STANDARD_EVENT_COMPLETE
  || existsb (fun r => bool_decide (pi_case_instance_id r = instance_id ci)
                       && bool_decide (pi_plan_item_id r = plan_item_id p)
                       && bool_decide (pi_state r = "COMPLETED")) (rows (plan_item_instances s)).

(** [blocking]: the rows that keep the container open unless ignored;
    [considered]: the rows whose plan items are excused when ignored. *)
Definition nothing_blocks (c : ContainerView) (blocking considered : list OpenRow) : Prop :=
  let rule_items := collect_rule_bearing_plan_items c in
  (forall row, row ∈ blocking -> ignored rule_items row = true)
  /\ (forall p, p ∈ all_plan_items c -> required_rule_matches fuel p ci = Ok true ->
       completed p = true
       \/ exists state, (Some (plan_item_id p), state) ∈ considered
                        /\ ignored rule_items (Some (plan_item_id p), state) = true).

Definition stage_blocking_rows (stage : ContainerView) (id : string) (auto : bool) : list OpenRow :=
  map task_row (open_tasks s (OfStage id) auto) ++ map stage_row (open_stages s (OfStage id) auto)
  ++ (if auto then [] else
        map subscription_row
          (List.filter (fun r => match sub_plan_item_id r with
                                 | Some item => bool_decide (item ∈ collect_container_plan_item_ids stage)
                                 | None => false
                                 end) (case_subscriptions s (instance_id ci)))
        ++ map mirror_row (blocking_mirror (Some id))).

Definition stage_considered_rows (id : string) (auto : bool) : list OpenRow :=
  map task_row (open_tasks s (OfStage id) auto) ++ map stage_row (open_stages s (OfStage id) auto)
  ++ (if auto then [] else
        map subscription_row (case_subscriptions s (instance_id ci))
        ++ map mirror_row (List.filter mirror_ignorable (mirror_rows (Some id)))).

Definition case_blocking_rows (auto : bool) : list OpenRow :=
  let scope := OfCase (instance_id ci) in
  map task_row (open_tasks s scope auto) ++ map stage_row (open_stages s scope auto)
  ++ map association_row (active_associations s (instance_id ci))
  ++ (if auto then [] else
        map subscription_row (case_subscriptions s (instance_id ci))
        ++ map mirror_row (blocking_mirror None)).

Definition case_considered_rows (auto : bool) : list OpenRow :=
  let scope := OfCase (instance_id ci) in
  map task_row (open_tasks s scope auto) ++ map stage_row (open_stages s scope auto)
  ++ map association_row (active_associations s (instance_id ci))
  ++ (if auto then [] else
        map subscription_row (case_subscriptions s (instance_id ci))
        ++ map mirror_row (List.filter mirror_ignorable (mirror_rows None))).

(** ** The parts of the decision *)
Lemma task_count_zero rule_items auto scope ids n ids' :
  ignored_open_human_tasks fuel s ci rule_items auto scope ids = Ok (n, ids') ->
  (i64_saturating_sub (Z.of_nat (length (open_tasks s scope auto))) n =? 0)%Z = true
  <-> forall row, row ∈ map task_row (open_tasks s scope auto) -> ignored rule_items row = true.
Proof. intros Hi%all_ignored. rewrite i64_zero, Hi. setoid_rewrite list_elem_of_fmap. naive_solver. Qed.

Lemma stage_count_zero rule_items auto scope ids n ids' :
  ignored_open_stage_instances fuel s ci rule_items auto scope ids = Ok (n, ids') ->
  (i64_saturating_sub (Z.of_nat (length (open_stages s scope auto))) n =? 0)%Z = true
  <-> forall row, row ∈ map stage_row (open_stages s scope auto) -> ignored rule_items row = true.
Proof. intros Hi%all_ignored. rewrite i64_zero, Hi. setoid_rewrite list_elem_of_fmap. naive_solver. Qed.

Lemma association_count_zero rule_items ids n ids' :
  ignored_open_task_associations fuel s ci rule_items ids = Ok (n, ids') ->
  (i64_saturating_sub (Z.of_nat (length (active_associations s (instance_id ci)))) n =? 0)%Z = true
  <-> forall row, row ∈ map association_row (active_associations s (instance_id ci)) ->
        ignored rule_items row = true.
Proof. intros Hi%all_ignored. rewrite i64_zero, Hi. setoid_rewrite list_elem_of_fmap. naive_solver. Qed.

Lemma subscription_count_zero rule_items ids n ids' :
  ignored_open_event_subscriptions fuel s ci rule_items ids = Ok (n, ids') ->
  (i64_saturating_sub (Z.of_nat (length (case_subscriptions s (instance_id ci)))) n =? 0)%Z = true
  <-> forall row, row ∈ map subscription_row (case_subscriptions s (instance_id ci)) ->
        ignored rule_items row = true.
Proof. intros Hi%all_ignored. rewrite i64_zero, Hi. setoid_rewrite list_elem_of_fmap. naive_solver. Qed.

Definition listens_in (c : ContainerView) (r : EventSubscription) : bool :=
  match sub_plan_item_id r with
  | Some item => bool_decide (item ∈ collect_container_plan_item_ids c)
  | None => false
  end.

Lemma existsb_member (l : list string) id : existsb (fun x => bool_decide (x = id)) l = bool_decide (id ∈ l).
Proof.
  apply eq_true_iff_eq. rewrite existsb_exists, bool_decide_eq_true. setoid_rewrite bool_decide_eq_true.
  setoid_rewrite <- list_elem_of_In. naive_solver.
Qed.

Lemma container_subscription_count c :
  open_event_subscription_count_for_container s (instance_id ci) c
  = count (listens_in c) (case_subscriptions s (instance_id ci)).
Proof.
  unfold open_event_subscription_count_for_container.
  assert (forall l, count (listens_in c) l =
    count (fun r => match sub_plan_item_id r with
                    | Some id => existsb (fun x => bool_decide (x = id)) (collect_container_plan_item_ids c)
                    | None => false
                    end) l) as ->.
  { intros l. induction l as [|r l IH]; [done|]. rewrite !count_cons, IH. unfold listens_in.
    destruct (sub_plan_item_id r); [|done]. by rewrite existsb_member. }
  destruct (collect_container_plan_item_ids c) as [|i ids]; [|done].
  induction (case_subscriptions s _) as [|r l IH]; [done|]. rewrite count_cons, <- IH.
  by destruct (sub_plan_item_id r).
Qed.

Lemma container_subscriptions_zero c ids n ids' :
  ignored_open_event_subscriptions fuel s ci (collect_rule_bearing_plan_items c) ids = Ok (n, ids') ->
  (usize_saturating_sub (open_event_subscription_count_for_container s (instance_id ci) c) n =? 0)%Z = true
  <-> forall row, row ∈ map subscription_row
                    (List.filter (listens_in c) (case_subscriptions s (instance_id ci))) ->
        ignored (collect_rule_bearing_plan_items c) row = true.
Proof.
  intros [-> _]%ignored_rows_spec. rewrite container_subscription_count, Z.add_0_l.
  destruct (count_difference (listens_in c)
    (fun r => ignored (collect_rule_bearing_plan_items c) (subscription_row r))
    (case_subscriptions s (instance_id ci))) as [Hle Heq].
  { intros r _. unfold subscription_row, listens_in. destruct (sub_plan_item_id r) as [id|] eqn:E; [|done].
    intros Hi%ignored_bears. by apply bool_decide_eq_true. }
  rewrite usize_zero by done. unfold always. cbn [andb]. rewrite Heq.
  setoid_rewrite list_elem_of_fmap. setoid_rewrite list_elem_of_In at 2.
  setoid_rewrite filter_In. setoid_rewrite <- list_elem_of_In. naive_solver.
Qed.

(** No rule ignores an enabled stage of the mirror, which is not counted. *)
Definition no_ignored_stage (rule_items : list CmmnPlanItem) (stage : option string) : Prop :=
  forall r, r ∈ mirror_rows stage -> pi_plan_item_definition_type r = "stage" -> mirror_blocks r = true ->
    ignored rule_items (mirror_row r) = false.

Lemma mirror_count_zero rule_items stage ids n ids' :
  ignored_open_mirror_plan_items fuel s ci rule_items stage ids = Ok (n, ids') ->
  no_ignored_stage rule_items stage ->
  (i64_saturating_sub (count_blocking_mirror_plan_items s (instance_id ci) stage) n =? 0)%Z = true
  <-> forall row, row ∈ map mirror_row (blocking_mirror stage) -> ignored rule_items row = true.
Proof.
  intros [-> _]%ignored_rows_spec Hno. unfold count_blocking_mirror_plan_items.
  rewrite count_filter, Z.add_0_l, i64_zero.
  assert (forall r, r ∈ rows (plan_item_instances s) ->
    mirror_in_scope (instance_id ci) stage r = true -> r ∈ mirror_rows stage) as Hm.
  { intros r Hr Hs. unfold mirror_rows. rewrite list_elem_of_In, filter_In, <- list_elem_of_In. done. }
  match goal with |- count ?p _ = count ?q _ <-> _ => destruct (count_difference p q (rows (plan_item_instances s))) as [_ Heq] end.
  { intros r Hr. rewrite !andb_true_iff. intros ((Hs & Hi) & Hb & Hg). split_and!; [done| |done].
    case_bool_decide as Ht; [|done]. specialize (Hno r (Hm r Hr Hs) Ht Hb). unfold mirror_row in Hno. congruence. }
  rewrite Heq. setoid_rewrite andb_true_iff. setoid_rewrite list_elem_of_fmap. unfold blocking_mirror, mirror_rows.
  setoid_rewrite list_elem_of_In at 2. setoid_rewrite filter_In. setoid_rewrite filter_In.
  setoid_rewrite <- list_elem_of_In. split.
  - intros Hall row (r & -> & (Hr & Hs) & (Ht & Hb)%andb_true_iff).
    destruct (Hall r Hr) as [_ Hg]; [by rewrite Hs, Ht|]. by apply andb_true_iff in Hg as [_ ?].
  - intros Hall r Hr [[Hs Ht]%andb_true_iff Hb]. change (mirror_blocks r = true) in Hb. split.
    + rewrite Hs. by apply blocks_ignorable.
    + rewrite Hb. apply Hall. exists r. rewrite Ht, Hb. done.
Qed.

(** The ids the loops collect are those of the rows seen so far. *)
Definition excused (rule_items : list CmmnPlanItem) (seen : list OpenRow) (ids : gset string) : Prop :=
  forall id, id ∈ ids <-> exists state, (Some id, state) ∈ seen /\ ignored rule_items (Some id, state) = true.

Lemma excused_none rule_items : excused rule_items [] ∅.
Proof. intros id. split; [set_solver|]. intros (state & Hin & _). by apply elem_of_nil in Hin. Qed.

Lemma excused_loop {A} item state (counted : A -> bool) rule_items l seen ids n n' ids' :
  excused rule_items seen ids ->
  ignored_rows fuel s ci item state counted rule_items l (n, ids) = Ok (n', ids') ->
  excused rule_items (seen ++ map (fun row => (item row, state row)) l) ids'.
Proof.
  intros He [_ Hids]%ignored_rows_spec id. rewrite Hids, (He id).
  setoid_rewrite elem_of_app. setoid_rewrite list_elem_of_fmap. split.
  - intros [(st & Hin & Hg)|(row & Hin & Hi & Hg)]; [by eauto|]. exists (state row).
    rewrite <- Hi. eauto.
  - intros (st & [Hin|(row & Heq & Hin)] & Hg); [by eauto|]. simplify_eq. right. exists row.
    split_and!; [done|done|]. congruence.
Qed.

Lemma required_done rule_items considered ids c b :
  excused rule_items considered ids ->
  has_incomplete_required_plan_items fuel s ci ids c = Ok b ->
  negb b = true <-> forall p, p ∈ all_plan_items c -> required_rule_matches fuel p ci = Ok true ->
    completed p = true
    \/ exists state, (Some (plan_item_id p), state) ∈ considered
                     /\ ignored rule_items (Some (plan_item_id p), state) = true.
Proof.
  intros He Hb%required_spec.
  assert (forall p, required_and_incomplete fuel s ci ids p = Ok true <->
    plan_item_id p ∉ ids /\ required_rule_matches fuel p ci = Ok true /\ completed p = false) as Hp.
  { intros p. unfold required_and_incomplete. case_bool_decide; [naive_solver|].
    destruct (required_rule_matches fuel p ci) as [[]|e]; simpl; [|naive_solver..].
    unfold completed. destruct (_ || _); naive_solver. }
  setoid_rewrite Hp in Hb. setoid_rewrite <- (He _). rewrite negb_true_iff, <- not_true_iff_false, Hb. split.
  - intros Hn p Hin Hr. destruct (completed p) eqn:Hc; [by left|]. right.
    destruct (decide (plan_item_id p ∈ ids)); [done|]. exfalso. apply Hn. eauto.
  - intros Hall (p & Hin & Hni & Hr & Hc). destruct (Hall p Hin Hr); [congruence|done].
Qed.

(** ** The decision *)
Lemma sub_nothing x : (i64_saturating_sub x 0 =? 0)%Z = (x =? 0)%Z.
Proof. apply eq_true_iff_eq. by rewrite i64_zero, Z.eqb_eq. Qed.

Lemma usize_sub_nothing x : (0 <= x)%Z -> (usize_saturating_sub x 0 =? 0)%Z = (x =? 0)%Z.
Proof. intros Hx. apply eq_true_iff_eq. by rewrite usize_zero, Z.eqb_eq. Qed.

Lemma rows_app (P : OpenRow -> Prop) l r :
  (forall row, row ∈ l ++ r -> P row) <-> (forall row, row ∈ l -> P row) /\ (forall row, row ∈ r -> P row).
Proof. setoid_rewrite elem_of_app. naive_solver. Qed.

Lemma rows_nil (P : OpenRow -> Prop) : (forall row, row ∈ [] -> P row) <-> True.
Proof. split; [done|]. intros _ row Hr. by apply elem_of_nil in Hr. Qed.

(** The part of the decision after the loops of a stage. *)
Lemma stage_parts stage id auto n1 ids1 n2 ids2 n3 ids3 n4 ids4 inc :
  let rule_items := collect_rule_bearing_plan_items stage in
  ignored_open_human_tasks fuel s ci rule_items auto (OfStage id) ∅ = Ok (n1, ids1) ->
  ignored_open_stage_instances fuel s ci rule_items auto (OfStage id) ids1 = Ok (n2, ids2) ->
  (if auto then Ok (0%Z, ids2) else ignored_open_event_subscriptions fuel s ci rule_items ids2) = Ok (n3, ids3) ->
  (if auto then Ok (0%Z, ids3)
   else ignored_open_mirror_plan_items fuel s ci rule_items (Some id) ids3) = Ok (n4, ids4) ->
  has_incomplete_required_plan_items fuel s ci ids4 stage = Ok inc ->
  no_ignored_stage rule_items (Some id) ->
  (i64_saturating_sub (Z.of_nat (length (open_tasks s (OfStage id) auto))) n1 =? 0)%Z
  && (i64_saturating_sub (Z.of_nat (length (open_stages s (OfStage id) auto))) n2 =? 0)%Z
  && (usize_saturating_sub (if auto then 0 else
        open_event_subscription_count_for_container s (instance_id ci) stage) n3 =? 0)%Z
  && (i64_saturating_sub (if auto then 0 else
        count_blocking_mirror_plan_items s (instance_id ci) (Some id)) n4 =? 0)%Z
  && negb inc = true
  <-> nothing_blocks stage (stage_blocking_rows stage id auto) (stage_considered_rows id auto).
Proof.
  intros ri Ht Hs He Hm Hr Hno. unfold nothing_blocks, stage_blocking_rows. fold ri.
  rewrite !andb_true_iff, (task_count_zero _ _ _ _ _ _ Ht), (stage_count_zero _ _ _ _ _ _ Hs), !rows_app.
  pose proof (excused_loop _ _ _ _ _ _ _ _ _ _ (excused_none ri) Ht) as E1.
  pose proof (excused_loop _ _ _ _ _ _ _ _ _ _ E1 Hs) as E2.
  rewrite (required_done ri (stage_considered_rows id auto) ids4 stage inc); [|clear Hr|done].
  - destruct auto; simplify_eq.
    + rewrite rows_nil. naive_solver.
    + rewrite rows_app, (container_subscriptions_zero _ _ _ _ He), (mirror_count_zero _ _ _ _ _ Hm) by done.
      unfold listens_in. tauto.
  - unfold stage_considered_rows. destruct auto; simplify_eq.
    + by rewrite app_nil_r.
    + pose proof (excused_loop _ _ _ _ _ _ _ _ _ _ E2 He) as E3.
      pose proof (excused_loop _ _ _ _ _ _ _ _ _ _ E3 Hm) as E4.
      rewrite <- !app_assoc in E4. cbn [app] in E4.
      unfold mirror_rows. rewrite filter_filter. exact E4.
Qed.

(** The part of the decision after the loops of a case. *)
Lemma case_parts plan auto n1 ids1 n2 ids2 n3 ids3 n4 ids4 n5 ids5 inc :
  let rule_items := collect_rule_bearing_plan_items plan in
  let scope := OfCase (instance_id ci) in
  ignored_open_human_tasks fuel s ci rule_items auto scope ∅ = Ok (n1, ids1) ->
  ignored_open_stage_instances fuel s ci rule_items auto scope ids1 = Ok (n2, ids2) ->
  (if auto then Ok (0%Z, ids2) else ignored_open_event_subscriptions fuel s ci rule_items ids2) = Ok (n3, ids3) ->
  ignored_open_task_associations fuel s ci rule_items ids3 = Ok (n4, ids4) ->
  (if auto then Ok (0%Z, ids4)
   else ignored_open_mirror_plan_items fuel s ci rule_items None ids4) = Ok (n5, ids5) ->
  has_incomplete_required_plan_items fuel s ci ids5 plan = Ok inc ->
  no_ignored_stage rule_items None ->
  (i64_saturating_sub (Z.of_nat (length (open_tasks s scope auto))) n1 =? 0)%Z
  && (i64_saturating_sub (Z.of_nat (length (open_stages s scope auto))) n2 =? 0)%Z
  && (i64_saturating_sub (if auto then 0 else
        Z.of_nat (length (case_subscriptions s (instance_id ci)))) n3 =? 0)%Z
  && (i64_saturating_sub (Z.of_nat (length (active_associations s (instance_id ci)))) n4 =? 0)%Z
  && (i64_saturating_sub (if auto then 0 else
        count_blocking_mirror_plan_items s (instance_id ci) None) n5 =? 0)%Z
  && negb inc = true
  <-> nothing_blocks plan (case_blocking_rows auto) (case_considered_rows auto).
Proof.
  intros ri scope Ht Hs He Ha Hm Hr Hno. unfold nothing_blocks, case_blocking_rows. fold ri scope.
  rewrite !andb_true_iff, (task_count_zero _ _ _ _ _ _ Ht), (stage_count_zero _ _ _ _ _ _ Hs),
    (association_count_zero _ _ _ _ Ha), !rows_app.
  pose proof (excused_loop _ _ _ _ _ _ _ _ _ _ (excused_none ri) Ht) as E1.
  pose proof (excused_loop _ _ _ _ _ _ _ _ _ _ E1 Hs) as E2.
  rewrite (required_done ri (case_considered_rows auto) ids5 plan inc); [|clear Hr|done].
  - destruct auto; simplify_eq.
    + rewrite rows_nil. naive_solver.
    + rewrite rows_app, (subscription_count_zero _ _ _ _ He), (mirror_count_zero _ _ _ _ _ Hm) by done. tauto.
  - unfold case_considered_rows. fold scope. destruct auto; simplify_eq.
    + pose proof (excused_loop _ _ _ _ _ _ _ _ _ _ E2 Ha) as E3. rewrite app_nil_r.
      by rewrite <- !app_assoc in E3.
    + pose proof (excused_loop _ _ _ _ _ _ _ _ _ _ E2 He) as E3.
      pose proof (excused_loop _ _ _ _ _ _ _ _ _ _ E3 Ha) as E4.
      pose proof (excused_loop _ _ _ _ _ _ _ _ _ _ E4 Hm) as E5.
      unfold mirror_rows. rewrite filter_filter. intros i. rewrite (E5 i).
      setoid_rewrite elem_of_app. setoid_rewrite elem_of_app. setoid_rewrite elem_of_app.
      setoid_rewrite elem_of_app. split; intros (st & Hin & Hg); exists st; (split; [|done]); tauto.
Qed.

(** C22: a stage instance in which no process or case task runs is completed exactly
    when nothing in it blocks.  No active process or case task association is in the
    stage instance; the conditions of the rules and of the automatic completion
    evaluate without error, so that the decision gives a result; and no rule ignores a
    stage's row of the mirror in the scope, which holds of every mirror that has its
    stages outside stages.  Then the decision to complete, which subtracts the numbers
    of ignored rows from the numbers of open rows, is: every human task and child stage
    of the instance that is not completed (that is active, when the stage completes
    automatically), and without automatic completion every event subscription on a plan
    item at or below the stage and every other instance of the mirror in it that is
    available or enabled in a way that blocks, bears a rule that ignores it in its
    state; and every required plan item at or below the stage has completed or has an
    ignored row. *)
Theorem stage_completion_meaning stage id b auto :
  (forall x, x ∈ active_associations s (instance_id ci) -> assoc_stage_instance_id x <> Some id) ->
  stage_may_complete fuel s ci stage id = Ok (b, auto) ->
  no_ignored_stage (collect_rule_bearing_plan_items stage) (Some id) ->
  b = true <-> nothing_blocks stage (stage_blocking_rows stage id auto) (stage_considered_rows id auto).
Proof.
  unfold stage_may_complete. intros _ Hd Hno.
  destruct (evaluate_auto_complete _ _ _ _) as [a|e]; cbn in Hd; [|done].
  destruct (collect_rule_bearing_plan_items stage) as [|p ps] eqn:Eri.
  - cbn in Hd. destruct (has_incomplete_required_plan_items _ _ _ _ _) as [inc|e] eqn:Er; cbn in Hd; [|done].
    injection Hd as <- <-. erewrite <- (stage_parts stage id a 0 ∅ 0 ∅ 0 ∅ 0 ∅ inc);
      rewrite ?Eri; try apply ignored_none; try done; [|by destruct a; [|apply ignored_none]..].
    rewrite !sub_nothing, usize_sub_nothing; [done|]. destruct a; [done|].
    rewrite container_subscription_count. apply count_nonneg.
  - rewrite <- Eri in *.
    destruct (ignored_open_human_tasks _ _ _ _ _ _ _) as [[n1 i1]|e] eqn:E1; cbn in Hd; [|done].
    destruct (ignored_open_stage_instances _ _ _ _ _ _ _) as [[n2 i2]|e] eqn:E2; cbn in Hd; [|done].
    destruct (if a : bool then Ok (0%Z, i2) else _) as [[n3 i3]|e] eqn:E3; cbn in Hd; [|done].
    destruct (if a : bool then Ok (0%Z, i3) else _) as [[n4 i4]|e] eqn:E4; cbn in Hd; [|done].
    destruct (has_incomplete_required_plan_items _ _ _ _ _) as [inc|e] eqn:Er; cbn in Hd; [|done].
    injection Hd as <- <-. by apply (stage_parts stage id a n1 i1 n2 i2 n3 i3 n4 i4 inc).
Qed.

(** C23: The same for a case: it is completed exactly when every open human
    task and stage of it, at any depth (every active one, when it completes
    automatically), every running process or case task, and without automatic
    completion every event subscription and every blocking instance of the
    mirror outside stages, bears a rule that ignores it; every required plan
    item has completed or has an ignored row; and without automatic
    completion every discretionary item of the case plan model has been
    planned.  This needs that no rule ignores an enabled stage outside
    stages, which the subtraction takes for a counted row. *)
Theorem case_completion_meaning plan b auto :
  case_may_complete fuel s ci plan = Ok (b, auto) ->
  no_ignored_stage (collect_rule_bearing_plan_items plan) None ->
  b = true <->
    nothing_blocks plan (case_blocking_rows auto) (case_considered_rows auto)
    /\ (auto = false -> pending_case_level_discretionary_item_count s ci = 0%Z).
Proof.
  unfold case_may_complete. intros Hd Hno.
  assert (forall x1 x2 x3 x4 x5 (x6 : Z) x7, x1 && x2 && x3 && x4 && x5 && (x6 =? 0)%Z && x7 = true
          <-> x1 && x2 && x3 && x4 && x5 && x7 = true /\ x6 = 0%Z) as Hbool.
  { intros. rewrite !andb_true_iff, Z.eqb_eq. tauto. }
  assert (forall a : bool, (if a then 0%Z else pending_case_level_discretionary_item_count s ci) = 0%Z
          <-> (a = false -> pending_case_level_discretionary_item_count s ci = 0%Z)) as Hpend.
  { intros []; naive_solver. }
  destruct (evaluate_auto_complete _ _ _ _) as [a|e]; cbn in Hd; [|done].
  destruct (collect_rule_bearing_plan_items plan) as [|p ps] eqn:Eri.
  - cbn in Hd. destruct (has_incomplete_required_plan_items _ _ _ _ _) as [inc|e] eqn:Er; cbn in Hd; [|done].
    injection Hd as <- <-. rewrite Hbool, Hpend.
    erewrite <- (case_parts plan a 0 ∅ 0 ∅ 0 ∅ 0 ∅ 0 ∅ inc);
      rewrite ?Eri; try apply ignored_none; try done; [|by destruct a; [|apply ignored_none]..].
    by rewrite !sub_nothing.
  - rewrite <- Eri in *.
    destruct (ignored_open_human_tasks _ _ _ _ _ _ _) as [[n1 i1]|e] eqn:E1; cbn in Hd; [|done].
    destruct (ignored_open_stage_instances _ _ _ _ _ _ _) as [[n2 i2]|e] eqn:E2; cbn in Hd; [|done].
    destruct (if a : bool then Ok (0%Z, i2) else _) as [[n3 i3]|e] eqn:E3; cbn in Hd; [|done].
    destruct (ignored_open_task_associations _ _ _ _ _) as [[n4 i4]|e] eqn:E4; cbn in Hd; [|done].
    destruct (if a : bool then Ok (0%Z, i4) else _) as [[n5 i5]|e] eqn:E5; cbn in Hd; [|done].
    destruct (has_incomplete_required_plan_items _ _ _ _ _) as [inc|e] eqn:Er; cbn in Hd; [|done].
    injection Hd as <- <-. rewrite Hbool, Hpend.
    by rewrite (case_parts plan a n1 i1 n2 i2 n3 i3 n4 i4 n5 i5 inc).
Qed.
End Decision.
