(* ===== verification/CmmnStageCompletion.v ===== *)
(** * CMMN: completion of stages and cases

    What the writes of [CmmnTermination] do to the table of stage instances,
    proved once for any predicate that holds through new available instances
    and deletions ([Frame]), and used for the facts behind the theorems on
    [maybe_complete_stage]: completion terminates, propagates and is kept.

    Then the mirror of plan item instances: every instance is under its id and
    a stage's is in no stage, through every write of [CmmnTermination]; a
    completed case leaves none of its plan item instances open. *)
From S2P Require Import Prelude Chars Json ElValues ElCompiler ElExpression CmmnTokens CmmnCondition CmmnSentry CmmnTables CmmnSatisfaction CmmnCompletion CmmnCompletionProof CmmnTermination.

#[local] Opaque rows.

Create HintDb frame discriminated.

(** ** Loops *)
Lemma preserves_get_bind {S E A} (P : S -> Prop) (f : S -> stM S E A) :
  (forall s, P s -> preserves P (f s)) -> preserves P (get ≫= f).
Proof. intros Hf s Hs. by apply Hf. Qed.

Lemma preserves_for_in {S E A} (P : S -> Prop) (body : A -> stM S E unit) l :
  (forall a, a ∈ l -> preserves P (body a)) -> preserves P (for_in body l).
Proof.
  induction l as [|a l IH]; intros Hb; simpl; [apply preserves_ret|].
  apply preserves_bind; [apply Hb; set_solver|]. intros _. apply IH. intros b Hin. apply Hb. set_solver.
Qed.

Lemma preserves_extend_in {A B} (P : CmmnSession -> Prop) (body : A -> LM (list B)) l :
  (forall a, a ∈ l -> preserves P (body a)) -> preserves P (extend_in body l).
Proof.
  induction l as [|a l IH]; intros Hb; simpl; [apply preserves_ret|].
  apply preserves_bind; [apply Hb; set_solver|]. intros x. apply preserves_bind; [|intros; apply preserves_ret].
  apply IH. intros b Hin. apply Hb. set_solver.
Qed.

Lemma preserves_found_or {A} (P : CmmnSession -> Prop) message (o : option A) : preserves P (found_or message o).
Proof. destruct o; simpl; [apply preserves_ret|apply preserves_lift]. Qed.

Lemma elem_of_filter_b {A} (p : A -> bool) (l : list A) x : x ∈ List.filter p l <-> x ∈ l /\ p x = true.
Proof. rewrite !list_elem_of_In. apply filter_In. Qed.

#[export] Hint Resolve preserves_found_or : flow.

Definition fresh_stage_id `{RowSource} (n : nat) : string := "cmmn-stage-instance:" +:+ new_v4 n.

(** ** The table of stage instances *)
Section Frame.
Context `{Display} `{Unicode} `{NumberReader} `{Patterns} `{RowSource}
  (ambient : ExpressionMethodRegistry) (registry : option CmmnLifecycleListenerRegistry) (fuel : nat)
  (def : CmmnCaseDefinition).

(** [D]: the ids that may be deleted. *)
Context (P : CmmnSession -> Prop) (D : string -> Prop)
  (Pframe : forall s s', P s -> stage_instances s' = stage_instances s -> rows_written s <= rows_written s' -> P s')
  (Pcreate : forall s s' r, P s -> si_state r = StageState.Available -> si_id r = fresh_stage_id (rows_written s) ->
     stage_instances s' = <[ si_id r := r ]> (stage_instances s) -> rows_written s <= rows_written s' -> P s')
  (Pdelete : forall s id, P s -> D id -> P (set_stage_instances (delete id (stage_instances s)) s))
  (Popen : forall s r, P s -> r ∈ rows (stage_instances s) -> si_state r <> StageState.Completed -> D (si_id r)).

Lemma frame_modify f :
  (forall s, stage_instances (f s) = stage_instances s /\ rows_written s <= rows_written (f s)) ->
  preserves P (modify (E := LifecycleStop) f).
Proof. intros Hf. apply preserves_modify. intros s Hs. destruct (Hf s). eauto. Qed.

Ltac frame := apply frame_modify; intros s; by split; simpl; auto.

Lemma frame_tick : preserves P tick.
Proof. intros s Hs. eapply Pframe; [done|done|]. simpl. lia. Qed.

Lemma frame_now : preserves P now.
Proof. apply preserves_bind; [apply frame_tick|auto with flow]. Qed.

Lemma frame_fire case_id id definition kind old new :
  preserves P (fire ambient registry case_id id definition kind old new).
Proof. unfold fire. auto with flow. Qed.

Lemma frame_persist_item r : preserves P (persist_plan_item_instance_session r).
Proof. frame. Qed.

Lemma frame_persist_history r : preserves P (persist_historic_stage_instance_session r).
Proof. frame. Qed.

Lemma frame_task_history t : preserves P (persist_historic_human_task_session t).
Proof. frame. Qed.

Lemma frame_delete_task id : preserves P (delete_human_task id).
Proof. frame. Qed.

Lemma frame_subscriptions p : preserves P (delete_subscriptions p).
Proof. frame. Qed.

Lemma frame_timers case_id item : preserves P (delete_timer_jobs_for_plan_item case_id item).
Proof. frame. Qed.

Lemma frame_delete_stage id : D id -> preserves P (delete_stage_instance id).
Proof. intros Hd. apply preserves_modify. auto. Qed.

#[local] Hint Resolve frame_tick frame_now frame_fire frame_persist_item frame_persist_history frame_task_history
  frame_delete_task frame_subscriptions frame_timers : frame.

(** Sequences, branches and loops of preserved steps. *)
Ltac walk :=
  repeat first
    [ solve [auto with frame flow]
    | apply preserves_bind; [|intros]
    | apply preserves_for_in; intros
    | apply preserves_extend_in; intros
    | match goal with
      | |- preserves _ (if ?b then _ else _) => destruct b
      | |- preserves _ (match ?x with _ => _ end) => destruct x
      end ].

Lemma frame_delete_container case_id c : preserves P (delete_event_subscriptions_for_container case_id c).
Proof.
  induction c as [h items stages sentries IH] using container_induction.
  rewrite Forall_forall in IH. cbn [delete_event_subscriptions_for_container]. walk; by apply IH.
Qed.

Lemma frame_delete_enabled case_id item : preserves P (delete_enabled_plan_item_instance_rows case_id item).
Proof. unfold delete_enabled_plan_item_instance_rows. walk; frame. Qed.

Lemma frame_terminate_rows case_id item kind : preserves P (terminate_plan_item_instance_rows case_id item kind).
Proof. unfold terminate_plan_item_instance_rows. walk. Qed.

Lemma frame_create ci p stage parent : preserves P (create_available_stage_instance def ci p stage parent).
Proof.
  intros s Hs.
  eapply (Pcreate s _ (mkStageInstance (fresh_stage_id (rows_written s)) (instance_id ci)
    (case_definition_id def) parent (plan_item_id p) (stage_definition_id (header stage))
    (default (stage_name (header stage)) (plan_item_name p)) (now_rfc3339 (S (rows_written s))) None
    StageState.Available)); [done|done|done|done|]. simpl. lia.
Qed.

#[local] Hint Resolve frame_delete_container frame_delete_enabled frame_terminate_rows frame_create : frame.

Lemma frame_repeat ended : preserves P (repeat_stage_if_needed fuel def ended).
Proof. unfold repeat_stage_if_needed, evaluation. walk. Qed.

Lemma frame_child_task t : preserves P (terminate_child_task ambient registry t).
Proof. unfold terminate_child_task. walk. Qed.

Lemma frame_repeat_terminated case_id p stage parent :
  preserves P (repeat_terminated fuel def case_id p stage parent).
Proof. unfold repeat_terminated, evaluation. walk. Qed.

#[local] Hint Resolve frame_repeat frame_child_task frame_repeat_terminated : frame.

Lemma frame_terminate stage r :
  D (si_id r) -> preserves P (terminate_stage_instance ambient registry fuel def stage r).
Proof.
  revert r. induction stage as [h items stages sentries IH] using container_induction. intros r Hd.
  rewrite Forall_forall in IH. cbn [terminate_stage_instance]. apply preserves_bind.
  - apply preserves_extend_in. intros child Hc. apply preserves_extend_in. intros p _.
    unfold terminate_stage_plan_item. apply preserves_get_bind. intros s Hs.
    apply preserves_extend_in. intros r' Hr'. apply elem_of_filter_b in Hr' as [Hr' Ht].
    rewrite !andb_true_iff, negb_true_iff, bool_decide_eq_false in Ht.
    apply preserves_bind; [|intros; walk]. apply IH; [done|]. eapply Popen; [done|done|tauto].
  - intros l. walk; by apply frame_delete_stage.
Qed.

Lemma frame_residual_stage lookup r :
  D (si_id r) -> preserves P (terminate_residual_stage ambient registry fuel def lookup r).
Proof. intros Hd. unfold terminate_residual_stage. walk; by apply frame_terminate. Qed.

Lemma frame_residual_task t : preserves P (terminate_residual_task t).
Proof. unfold terminate_residual_task. walk. Qed.

#[local] Hint Resolve frame_residual_task : frame.

Lemma open_stages_open s scope r :
  r ∈ open_stages s scope false -> r ∈ rows (stage_instances s) /\ si_state r <> StageState.Completed.
Proof.
  intros [Hr Ht]%elem_of_filter_b. split; [done|]. unfold open_stage in Ht.
  apply andb_true_iff in Ht as [_ Ht]. by apply negb_true_iff, bool_decide_eq_false in Ht.
Qed.

Lemma frame_residual_children r stage :
  preserves P (terminate_residual_stage_children_for_auto_complete ambient registry fuel def r stage).
Proof.
  apply preserves_get_bind. intros s Hs. apply preserves_bind; [|intros; walk].
  apply preserves_for_in. intros r' [Hr Ho]%open_stages_open. apply frame_residual_stage. eauto.
Qed.

Lemma frame_residual_case case_id :
  preserves P (terminate_residual_case_children_for_auto_complete ambient registry fuel def case_id).
Proof.
  apply preserves_get_bind. intros s Hs. apply preserves_bind; [|intros; walk].
  apply preserves_for_in. intros r' [Hr Ho]%open_stages_open. apply frame_residual_stage. eauto.
Qed.

Lemma frame_terminate_open case_id at_ :
  preserves P (terminate_open_plan_item_instances_for_case_session case_id at_).
Proof. unfold terminate_open_plan_item_instances_for_case_session. walk. Qed.
End Frame.

(** ** Rows under their ids; active and completed rows only from before *)
Definition keyed (s : CmmnSession) : Prop :=
  forall k r, stage_instances s !! k = Some r -> si_id r = k.

Definition quiet (s0 s : CmmnSession) : Prop :=
  forall k r, stage_instances s !! k = Some r ->
    si_state r = StageState.Active \/ si_state r = StageState.Completed -> stage_instances s0 !! k = Some r.

Definition active_ids (s : CmmnSession) : gset string :=
  dom (filter (fun '(_, r) => si_state r = StageState.Active) (stage_instances s)).

Lemma elem_of_active_ids s k :
  k ∈ active_ids s <-> exists r, stage_instances s !! k = Some r /\ si_state r = StageState.Active.
Proof. unfold active_ids. rewrite elem_of_dom. unfold is_Some. setoid_rewrite map_lookup_filter_Some. done. Qed.

(** The instance [k] is completed in row [c], and its id is not handed out again. *)
Definition kept `{RowSource} (k : string) (c : CmmnStageInstance) (s : CmmnSession) : Prop :=
  keyed s /\ stage_instances s !! k = Some c /\ si_state c = StageState.Completed
  /\ forall n, rows_written s <= n -> fresh_stage_id n <> k.

Section Stages.
Context `{Display} `{Unicode} `{NumberReader} `{Patterns} `{RowSource}
  (ambient : ExpressionMethodRegistry) (registry : option CmmnLifecycleListenerRegistry) (fuel : nat)
  (def : CmmnCaseDefinition).

Definition tame (s0 s : CmmnSession) : Prop :=
  keyed s /\ quiet s0 s /\ rows_written s0 <= rows_written s.

Lemma tame_refl s : keyed s -> tame s s.
Proof. intros Hk. split_and!; [done|by intros k r|done]. Qed.

Lemma tame_frame s0 s s' :
  tame s0 s -> stage_instances s' = stage_instances s -> rows_written s <= rows_written s' -> tame s0 s'.
Proof. unfold tame, keyed, quiet. intros (Hk & Hq & Hle) -> Hle'. split_and!; try done. lia. Qed.

Lemma tame_create s0 s s' r :
  tame s0 s -> si_state r = StageState.Available -> si_id r = fresh_stage_id (rows_written s) ->
  stage_instances s' = <[ si_id r := r ]> (stage_instances s) -> rows_written s <= rows_written s' -> tame s0 s'.
Proof.
  unfold tame, keyed, quiet. intros (Hk & Hq & Hle) Hst _ -> Hle'.
  split_and!; [intros k r'; rewrite lookup_insert_Some..|lia].
  - intros [[<- <-]|[_ Hl]]; [done|auto].
  - intros [[<- <-]|[_ Hl]]; [|auto]. rewrite Hst. by intros [|].
Qed.

Lemma tame_delete s0 s id :
  tame s0 s -> True -> tame s0 (set_stage_instances (delete id (stage_instances s)) s).
Proof.
  intros (Hk & Hq & Hle) _. split_and!; [intros k r; simpl; rewrite lookup_delete_Some; intros [_ Hl]..|done].
  - by apply Hk.
  - by apply Hq.
Qed.

Lemma kept_frame k c s s' :
  kept k c s -> stage_instances s' = stage_instances s -> rows_written s <= rows_written s' -> kept k c s'.
Proof. unfold kept, keyed. intros (Hk & Hc & Hst & Hf) -> Hle. split_and!; try done. intros n Hn. apply Hf. lia. Qed.

Lemma kept_create k c s s' r :
  kept k c s -> si_state r = StageState.Available -> si_id r = fresh_stage_id (rows_written s) ->
  stage_instances s' = <[ si_id r := r ]> (stage_instances s) -> rows_written s <= rows_written s' -> kept k c s'.
Proof.
  unfold kept. intros (Hk & Hc & Hst & Hf) Hr Hid Heq Hle. split_and!; [|rewrite Heq|done|].
  - intros k' r'. rewrite Heq, lookup_insert_Some. intros [[<- <-]|[_ Hl]]; [done|]. by apply Hk.
  - rewrite lookup_insert_ne; [done|]. rewrite Hid. by apply Hf.
  - intros n Hn. apply Hf. lia.
Qed.

Lemma kept_delete k c s id :
  kept k c s -> id <> k -> kept k c (set_stage_instances (delete id (stage_instances s)) s).
Proof.
  unfold kept. intros (Hk & Hc & Hst & Hf) Hne. split_and!; simpl; try done.
  - intros k' r'. simpl. rewrite lookup_delete_Some. intros [_ Hl]. by apply Hk.
  - by rewrite lookup_delete_ne.
Qed.

Lemma kept_open k c s r :
  kept k c s -> r ∈ rows (stage_instances s) -> si_state r <> StageState.Completed -> si_id r <> k.
Proof.
  intros (Hk & Hc & Hst & _) [k' Hr]%elem_of_rows Ho. rewrite (Hk _ _ Hr). intros ->. congruence.
Qed.

(** ** One completion *)

(** The steps before the row is written. *)
Definition before_completion (stage : ContainerView) (auto : bool) (r : CmmnStageInstance) : LM string :=
  (if auto then terminate_residual_stage_children_for_auto_complete ambient registry fuel def r stage
   else mret tt) ;;
  fire ambient registry (si_case_instance_id r) (si_id r) (si_stage_definition_id r) "stage"
    (StageState.stage_as_str (si_state r)) (StageState.stage_as_str StageState.Completed) ;;
  now.

Lemma complete_stage_split stage auto r s :
  complete_stage ambient registry fuel def stage auto r s
  = (at_ ← before_completion stage auto r;
     persist_stage_instance_session (in_state StageState.Completed (Some at_) r) ;;
     repeat_stage_if_needed fuel def (in_state StageState.Completed (Some at_) r)) s.
Proof.
  unfold complete_stage, before_completion.
  set (m := if auto then terminate_residual_stage_children_for_auto_complete ambient registry fuel def r stage
            else mret tt).
  unfold mbind, stM_bind. destruct (m s) as [[u|e] s1]; [|done].
  destruct (fire _ _ _ _ _ _ _ _ s1) as [[u'|e] s2]; [|done]. by destruct (now s2) as [[a|e] s3].
Qed.

Lemma before_tame s0 stage auto r : preserves (tame s0) (before_completion stage auto r).
Proof.
  pose proof (tame_frame s0). pose proof (tame_create s0). pose proof (tame_delete s0).
  apply preserves_bind; [destruct auto; [|auto with flow]|intros; apply preserves_bind].
  - by apply (frame_residual_children ambient registry fuel def (tame s0) (fun _ => True)).
  - by apply (frame_fire _ _ (tame s0)).
  - intros. by apply (frame_now (tame s0)).
Qed.

Lemma repeat_tame s0 ended : preserves (tame s0) (repeat_stage_if_needed fuel def ended).
Proof. pose proof (tame_frame s0). pose proof (tame_create s0). apply frame_repeat; auto. Qed.

(** Between [s] and [s'], only the instance [id] was completed, and no instance
    became active. *)
Definition completes (id : string) (s s' : CmmnSession) : Prop :=
  keyed s' /\ rows_written s <= rows_written s'
  /\ (forall k r, stage_instances s' !! k = Some r -> si_state r = StageState.Active ->
        k <> id /\ stage_instances s !! k = Some r)
  /\ (forall k r, stage_instances s' !! k = Some r -> si_state r = StageState.Completed ->
        k = id \/ stage_instances s !! k = Some r).

Lemma complete_stage_effect s id r stage auto s' :
  keyed s -> stage_instances s !! id = Some r ->
  complete_stage ambient registry fuel def stage auto r s = (Ok tt, s') ->
  completes id s s'
  /\ exists at_ s2, let c := in_state StageState.Completed (Some at_) r in
       stage_instances s2 !! id = Some c /\ keyed s2 /\ rows_written s <= rows_written s2
       /\ repeat_stage_if_needed fuel def c s2 = (Ok tt, s').
Proof.
  intros Hk Hr. rewrite complete_stage_split. intros (at_ & s1 & E1 & E2)%bind_inv_ok.
  apply bind_inv_ok in E2 as ([] & s2 & Ep & Er).
  set (c := in_state StageState.Completed (Some at_) r) in *.
  assert (tame s s1) as (K1 & Q1 & L1).
  { pose proof (before_tame s stage auto r s (tame_refl s Hk)) as Ht. by rewrite E1 in Ht. }
  assert (si_id c = id) as Hid by apply (Hk _ _ Hr).
  assert (stage_instances s2 = <[ id := c ]> (stage_instances s1) /\ rows_written s2 = rows_written s1)
    as [T2 W2]. { injection Ep as <-. by rewrite <- Hid. }
  assert (keyed s2) as K2.
  { intros k r'. rewrite T2, lookup_insert_Some. intros [[<- <-]|[_ Hl]]; [done|]. by apply K1. }
  assert (tame s2 s') as (K' & Q' & L').
  { pose proof (repeat_tame s2 c s2 (tame_refl s2 K2)) as Ht. by rewrite Er in Ht. }
  split; [|exists at_, s2; split_and!; [by rewrite T2, lookup_insert_eq|done|lia|done]].
  split_and!; [done|lia| |]; intros k r' Hl Hst.
  - pose proof (Q' k r' Hl (or_introl Hst)) as H2'. rewrite T2, lookup_insert_Some in H2'.
    destruct H2' as [[<- <-]|[Hne H2']]; [done|]. split; [done|]. auto.
  - pose proof (Q' k r' Hl (or_intror Hst)) as H2'. rewrite T2, lookup_insert_Some in H2'.
    destruct H2' as [[<- <-]|[Hne H2']]; [by left|]. right. auto.
Qed.
End Stages.

(** ** CMMN: theorems on [maybe_complete_stage]

    The calls up the chain of parent stages end, complete what may complete
    and no more, and never undo a completion. *)

#[local] Opaque rows.

(** ** Steps that do not use up the turns *)
Definition never {A} (m : LM A) : Prop := forall s, (m s).1 <> Err Exhausted.

Create HintDb never discriminated.

Lemma never_ret {A} (a : A) : never (mret a).
Proof. by intros s. Qed.
Lemma never_get : never get.
Proof. by intros s. Qed.
Lemma never_modify f : never (modify f).
Proof. by intros s. Qed.
Lemma never_evaluation {A} (r : result EvalStop A) : never (evaluation r).
Proof. intros s. by destruct r. Qed.
Lemma never_found_or {A} message (o : option A) : never (found_or message o).
Proof. intros s. by destruct o. Qed.
Lemma never_lift {A} (r : result LifecycleStop A) : r <> Err Exhausted -> never (lift r).
Proof. by intros Hr s. Qed.
Lemma never_bind {A B} (m : LM A) (f : A -> LM B) : never m -> (forall a, never (f a)) -> never (m ≫= f).
Proof.
  intros Hm Hf s. unfold mbind, stM_bind. specialize (Hm s). destruct (m s) as [[a|e] s1]; [|simpl in *; congruence].
  apply Hf.
Qed.
Lemma never_for_in {A} (body : A -> LM unit) l : (forall a, a ∈ l -> never (body a)) -> never (for_in body l).
Proof.
  induction l as [|a l IH]; intros Hb; simpl; [apply never_ret|].
  apply never_bind; [apply Hb; set_solver|]. intros _. apply IH. intros b Hin. apply Hb. set_solver.
Qed.
Lemma never_extend_in {A B} (body : A -> LM (list B)) l :
  (forall a, a ∈ l -> never (body a)) -> never (extend_in body l).
Proof.
  induction l as [|a l IH]; intros Hb; simpl; [apply never_ret|].
  apply never_bind; [apply Hb; set_solver|]. intros x. apply never_bind; [|intros; apply never_ret].
  apply IH. intros b Hin. apply Hb. set_solver.
Qed.

#[local] Hint Resolve never_ret never_get never_modify never_evaluation never_found_or : never.

Ltac never_walk :=
  repeat first
    [ solve [auto with never]
    | apply never_bind; [|intros]
    | apply never_for_in; intros
    | apply never_extend_in; intros
    | match goal with
      | |- never (if ?b then _ else _) => destruct b
      | |- never (match ?x with _ => _ end) => destruct x
      end ].

Section Stages.
Context `{Display} `{Unicode} `{NumberReader} `{Patterns} `{RowSource}
  (ambient : ExpressionMethodRegistry) (registry : option CmmnLifecycleListenerRegistry) (fuel : nat)
  (def : CmmnCaseDefinition).

Lemma execute_never l ctx : execute_matching ambient registry l ctx <> Err Exhausted.
Proof.
  assert (forall x, execute_lifecycle_listener ambient registry x ctx <> Err Exhausted) as Hx.
  { intros x. unfold execute_lifecycle_listener, invoke_registered_listener, evaluate_expression_listener, raise_cmmn.
    assert (forall o : option (CmmnLifecycleListenerContext -> result CmmnError unit),
      match o with Some h => map_err (fun e => Evaluation (Raised e)) (h ctx)
      | None => Err (Evaluation (Raised (Execution ""))) end <> Err Exhausted) as Ho.
    { intros [h|]; [by destruct (h ctx)|done]. }
    destruct (implementation_type x).
    - destruct (registry ≫= _) as [h|]; [apply (Ho (Some h))|done].
    - case_bool_decide; [done|].
      pose proof (strict_returns (match registry with Some r => expression_methods r | None => ambient end)
        (expression_scope ctx) (trim (implementation x))) as Hs.
      by destruct (get_value_strict _ _ _) as [[v|e]|].
    - destruct (registry ≫= _) as [h|]; [apply (Ho (Some h))|done]. }
  induction l as [|x l IH]; [done|]. simpl. destruct (negb _); [done|].
  specialize (Hx x). destruct (execute_lifecycle_listener _ _ x ctx) as [u|e]; simpl; [done|congruence].
Qed.

Lemma never_fire case_id id definition kind old new : never (fire ambient registry case_id id definition kind old new).
Proof.
  unfold fire. apply never_bind; [auto with never|]. intros s. apply never_lift.
  unfold fire_plan_item_lifecycle_listeners_session, fire_plan_item_lifecycle_listeners_for_model,
    fire_matching_lifecycle_listeners.
  destruct (eq_ignore_ascii_case old new); [done|]. destruct (case_instances s !! case_id) as [ci|]; [|done].
  destruct (case_definitions s !! _); [|done]. destruct (plan_item_listeners _ _) as [|l ls]; [done|].
  destruct (eq_ignore_ascii_case _ _); [done|]. apply execute_never.
Qed.

Lemma never_tick : never tick. Proof. done. Qed.
Lemma never_now : never now. Proof. done. Qed.
#[local] Hint Resolve never_fire never_tick never_now : never.

Lemma never_create ci p stage parent : never (create_available_stage_instance def ci p stage parent).
Proof. done. Qed.
Lemma never_terminate_rows case_id item kind : never (terminate_plan_item_instance_rows case_id item kind).
Proof. unfold terminate_plan_item_instance_rows, persist_plan_item_instance_session. never_walk. Qed.
#[local] Hint Resolve never_create never_terminate_rows : never.

Lemma never_delete_container case_id c : never (delete_event_subscriptions_for_container case_id c).
Proof.
  induction c as [h items stages sentries IH] using container_induction. rewrite Forall_forall in IH.
  cbn [delete_event_subscriptions_for_container].
  unfold delete_subscriptions, delete_timer_jobs_for_plan_item. never_walk; by apply IH.
Qed.
#[local] Hint Resolve never_delete_container : never.

Lemma never_terminate stage r : never (terminate_stage_instance ambient registry fuel def stage r).
Proof.
  revert r. induction stage as [h items stages sentries IH] using container_induction. intros r.
  rewrite Forall_forall in IH. cbn [terminate_stage_instance].
  unfold terminate_child_task, persist_historic_human_task_session, delete_human_task,
    persist_historic_stage_instance_session, delete_stage_instance, terminate_stage_plan_item, repeat_terminated.
  never_walk; by apply IH.
Qed.
#[local] Hint Resolve never_terminate : never.

Lemma never_complete stage auto r : never (complete_stage ambient registry fuel def stage auto r).
Proof.
  unfold complete_stage, terminate_residual_stage_children_for_auto_complete, terminate_residual_stage,
    terminate_residual_task, persist_historic_human_task_session, delete_human_task,
    delete_enabled_plan_item_instance_rows, persist_stage_instance_session, repeat_stage_if_needed,
    persist_historic_stage_instance_session, persist_plan_item_instance_session.
  never_walk.
Qed.

(** ** One call *)

(** The instance is an active stage, and the decision is to complete it. *)
Definition decides (s : CmmnSession) (id : string) (r : CmmnStageInstance) (stage : ContainerView)
  (auto : bool) : Prop :=
  stage_instances s !! id = Some r /\ si_state r = StageState.Active
  /\ case_stage def (si_stage_definition_id r) = Some stage
  /\ exists ci, case_instances s !! si_case_instance_id r = Some ci
                /\ stage_may_complete fuel s ci stage id = Ok (true, auto).

(** It is not an active stage that may complete. *)
Definition settled (s : CmmnSession) (id : string) : Prop :=
  ~ exists r stage auto, decides s id r stage auto.

Lemma inactive_settled s id :
  (forall r, stage_instances s !! id = Some r -> si_state r <> StageState.Active) -> settled s id.
Proof. intros Hn (r & stage & auto & Hr & Ha & _). by apply (Hn r). Qed.

Lemma call_eq turns id s :
  maybe_complete_stage ambient registry fuel (S turns) def id s
  = match stage_instances s !! id with
    | None => (Ok tt, s)
    | Some r =>
        if negb (bool_decide (si_state r = StageState.Active)) then (Ok tt, s)
        else match case_stage def (si_stage_definition_id r) with
             | None => (raise_cmmn (Storage (stage_not_found def (si_stage_definition_id r))), s)
             | Some stage =>
                 match case_instances s !! si_case_instance_id r with
                 | None => (raise_cmmn (Storage ("CMMN case instance '" +:+ si_case_instance_id r
                                                 +:+ "' was not found")), s)
                 | Some ci =>
                     match stage_may_complete fuel s ci stage id with
                     | Err e => (Err (Evaluation e), s)
                     | Ok (true, auto) =>
                         (complete_stage ambient registry fuel def stage auto r ;;
                          match si_parent_stage_instance_id r with
                          | Some parent => maybe_complete_stage ambient registry fuel turns def parent
                          | None => mret tt
                          end) s
                     | Ok (false, auto) => (Ok tt, s)
                     end
                 end
             end
    end.
Proof.
  cbn [maybe_complete_stage]. unfold mbind at 1, stM_bind at 1, get at 1. cbv beta iota.
  destruct (stage_instances s !! id) as [r|]; [|done]. destruct (negb _); [done|].
  unfold mbind at 1, stM_bind at 1. destruct (case_stage def _) as [stage|]; [|done]. simpl.
  unfold mbind at 1, stM_bind at 1. destruct (case_instances s !! _) as [ci|]; [|done]. simpl.
  unfold mbind at 1, stM_bind at 1, evaluation, lift.
  by destruct (stage_may_complete fuel s ci stage id) as [[[] auto]|e].
Qed.

Lemma one_call turns id s :
  (exists r stage auto, decides s id r stage auto
     /\ maybe_complete_stage ambient registry fuel (S turns) def id s
        = (complete_stage ambient registry fuel def stage auto r ;;
           match si_parent_stage_instance_id r with
           | Some parent => maybe_complete_stage ambient registry fuel turns def parent
           | None => mret tt
           end) s)
  \/ (exists res, maybe_complete_stage ambient registry fuel (S turns) def id s = (res, s)
        /\ res <> Err Exhausted /\ (res = Ok tt -> settled s id)).
Proof.
  pose proof (call_eq turns id s) as E.
  destruct (stage_instances s !! id) as [r|] eqn:Er.
  2:{ right. eexists. split_and!; [exact E|done|]. intros _. apply inactive_settled. congruence. }
  case_bool_decide as Ha; simpl in E.
  2:{ right. eexists. split_and!; [exact E|done|]. intros _. apply inactive_settled. congruence. }
  destruct (case_stage def _) as [stage|] eqn:Es; [|right; eexists; split_and!; [exact E|done|done]].
  destruct (case_instances s !! _) as [ci|] eqn:Ec; [|right; eexists; split_and!; [exact E|done|done]].
  destruct (stage_may_complete fuel s ci stage id) as [[[] auto]|e] eqn:Ed.
  - left. exists r, stage, auto. split; [|exact E]. split_and!; eauto.
  - right. eexists. split_and!; [exact E|done|]. intros _ (r' & stage' & auto' & Hr & _ & Hs & ci' & Hc & Hd).
    congruence.
  - right. eexists. split_and!; [exact E|done|done].
Qed.

(** C25: The calls up the chain of parents end, whatever the table of stage
    instances holds, a cycle of parents included: with one turn more than
    there are active stages, [maybe_complete_stage] does not run out of
    turns.  Every further call has completed an active stage, and none
    becomes active. *)
Theorem stage_completion_terminates turns id s :
  keyed s -> size (active_ids s) < turns ->
  (maybe_complete_stage ambient registry fuel turns def id s).1 <> Err Exhausted.
Proof.
  revert id s. induction turns as [|turns IH]; intros id s Hk Hn; [lia|].
  destruct (one_call turns id s) as [(r & stage & auto & (Hr & Ha & _) & ->)|(res & -> & Hne & _)]; [|done].
  pose proof (never_complete stage auto r s) as Hc. unfold mbind, stM_bind.
  destruct (complete_stage _ _ _ _ stage auto r s) as [[[]|e] s1] eqn:E; [|simpl in *; congruence].
  destruct (si_parent_stage_instance_id r) as [parent|]; [|done].
  destruct (complete_stage_effect _ _ _ _ _ _ _ _ _ _ Hk Hr E) as [(K1 & _ & Hact & _) _].
  apply IH; [done|]. enough (size (active_ids s1) < size (active_ids s)) by lia.
  apply subset_size. split.
  - intros k (r' & Hl & Hst)%elem_of_active_ids. apply elem_of_active_ids. exists r'.
    by destruct (Hact k r' Hl Hst).
  - intros Hsub. assert (id ∈ active_ids s1) as (r' & Hl & Hst)%elem_of_active_ids.
    { apply Hsub, elem_of_active_ids. eauto. }
    by destruct (Hact id r' Hl Hst).
Qed.

(** What a successful call leaves of the table: only active instances were
    completed, and none became active. *)
Lemma call_effect turns id s s' :
  keyed s -> maybe_complete_stage ambient registry fuel turns def id s = (Ok tt, s') ->
  keyed s'
  /\ (forall k r, stage_instances s' !! k = Some r -> si_state r = StageState.Active ->
        stage_instances s !! k = Some r)
  /\ (forall k c, stage_instances s' !! k = Some c -> si_state c = StageState.Completed ->
        stage_instances s !! k = Some c
        \/ exists r, stage_instances s !! k = Some r /\ si_state r = StageState.Active).
Proof.
  revert id s. induction turns as [|turns IH]; intros id s Hk Hm; [done|].
  destruct (one_call turns id s) as [(r & stage & auto & (Hr & Ha & _) & E)|(res & E & _)]; rewrite E in Hm;
    [|injection Hm as _ <-; eauto].
  apply bind_inv_ok in Hm as ([] & s1 & Ec & Hm).
  destruct (complete_stage_effect _ _ _ _ _ _ _ _ _ _ Hk Hr Ec) as [(K1 & _ & Hact & Hcom) _].
  assert (forall k c, stage_instances s1 !! k = Some c -> si_state c = StageState.Completed ->
    stage_instances s !! k = Some c
    \/ exists r, stage_instances s !! k = Some r /\ si_state r = StageState.Active) as Hcom'.
  { intros k c Hl Hst. destruct (Hcom k c Hl Hst) as [->|]; eauto. }
  assert (forall k c, stage_instances s1 !! k = Some c -> si_state c = StageState.Active ->
    stage_instances s !! k = Some c) as Hact'.
  { intros k c Hl Hst. by destruct (Hact k c Hl Hst). }
  destruct (si_parent_stage_instance_id r) as [parent|]; [|injection Hm as <-; eauto].
  destruct (IH _ _ K1 Hm) as (K' & A' & C'). split_and!; [done|naive_solver|].
  intros k c Hl Hst. destruct (C' k c Hl Hst) as [|(r' & ? & ?)]; [by eauto|right; eauto].
Qed.

(** C24: Completion goes up as far as it can.  After a successful call the
    instance it was called for is settled: no longer active, or not one that
    may complete; and so is the parent of every stage the call completed, as
    the tables are then. *)
Theorem completion_propagates turns id s s' :
  keyed s -> maybe_complete_stage ambient registry fuel turns def id s = (Ok tt, s') ->
  settled s' id
  /\ forall k r c parent, stage_instances s !! k = Some r -> si_state r = StageState.Active ->
       stage_instances s' !! k = Some c -> si_state c = StageState.Completed ->
       si_parent_stage_instance_id r = Some parent -> settled s' parent.
Proof.
  revert id s. induction turns as [|turns IH]; intros id s Hk Hm; [done|].
  destruct (one_call turns id s) as [(r & stage & auto & (Hr & Ha & _) & E)|(res & E & _ & Hset)]; rewrite E in Hm.
  2:{ injection Hm as -> <-. split; [auto|]. congruence. }
  apply bind_inv_ok in Hm as ([] & s1 & Ec & Hm).
  destruct (complete_stage_effect _ _ _ _ _ _ _ _ _ _ Hk Hr Ec) as [(K1 & _ & Hact & Hcom) _].
  assert (keyed s' /\ (forall k r, stage_instances s' !! k = Some r -> si_state r = StageState.Active ->
        stage_instances s1 !! k = Some r)
    /\ (forall k c, stage_instances s' !! k = Some c -> si_state c = StageState.Completed ->
        stage_instances s1 !! k = Some c
        \/ exists r, stage_instances s1 !! k = Some r /\ si_state r = StageState.Active)) as (K' & A' & C').
  { destruct (si_parent_stage_instance_id r); [by apply (call_effect turns s0)|]. injection Hm as <-. eauto. }
  split.
  { apply inactive_settled. intros r' Hl Hst. by destruct (Hact id r' (A' _ _ Hl Hst) Hst). }
  intros k rk c parent Hk0 Hka Hc Hcc Hp.
  destruct (decide (k = id)) as [->|Hne].
  - assert (rk = r) as -> by congruence. rewrite Hp in Hm. by apply (IH _ _ K1 Hm).
  - destruct (C' k c Hc Hcc) as [Hl|(r' & Hl & Hst)].
    + destruct (Hcom k c Hl Hcc) as [|Hs]; [done|]. congruence.
    + assert (rk = r') as -> by (destruct (Hact k r' Hl Hst); congruence).
      destruct (si_parent_stage_instance_id r); [by eapply (IH _ _ K1 Hm)|]. injection Hm as <-. congruence.
Qed.

(** ** Completions are kept *)
Lemma repeat_keeps k c ended : preserves (kept k c) (repeat_stage_if_needed fuel def ended).
Proof. pose proof (kept_frame k c). pose proof (kept_create k c). apply frame_repeat; auto. Qed.

Lemma complete_keeps k c stage auto r :
  si_id r <> k -> preserves (kept k c) (complete_stage ambient registry fuel def stage auto r).
Proof.
  intros Hne. pose proof (kept_frame k c). pose proof (kept_create k c). pose proof (kept_delete k c).
  pose proof (kept_open k c). unfold complete_stage.
  apply preserves_bind; [destruct auto; [|auto with flow]|intros _].
  { by apply (frame_residual_children ambient registry fuel def (kept k c) (fun id => id <> k)). }
  apply preserves_bind; [by apply (frame_fire _ _ (kept k c))|intros _].
  apply preserves_bind; [by apply (frame_now (kept k c))|intros at_].
  apply preserves_bind; [|intros _; apply repeat_keeps].
  intros s (Hk & Hc & Hst & Hf). split_and!; simpl; [|by rewrite lookup_insert_ne|done|done].
  intros k' r'. simpl. rewrite lookup_insert_Some. intros [[<- <-]|[_ Hl]]; [done|]. by apply Hk.
Qed.

Lemma call_keeps k c turns id : preserves (kept k c) (maybe_complete_stage ambient registry fuel turns def id).
Proof.
  revert id. induction turns as [|turns IH]; intros id s Hs; [done|].
  destruct (one_call turns id s) as [(r & stage & auto & (Hr & Ha & _) & ->)|(res & -> & _)]; [|done].
  revert s Hs Hr. intros s Hs Hr. assert (si_id r <> k) as Hne.
  { destruct Hs as (Hk & Hc & Hst & _). rewrite (Hk _ _ Hr). intros ->. congruence. }
  refine (preserves_bind _ _ _ (complete_keeps k c stage auto r Hne) _ s Hs). intros _.
  destruct (si_parent_stage_instance_id r); [apply IH|apply preserves_ret].
Qed.

(** A completed stage instance stays completed: its row is the same after
    any call, one that fails on the way included.  Its id must not be one of
    those handed out later. *)
Theorem completed_stage_stays turns id s k c :
  keyed s -> stage_instances s !! k = Some c -> si_state c = StageState.Completed ->
  (forall n, rows_written s <= n -> fresh_stage_id n <> k) ->
  stage_instances (maybe_complete_stage ambient registry fuel turns def id s).2 !! k = Some c.
Proof. intros Hk Hc Hst Hf. by destruct (call_keeps k c turns id s) as (_ & ? & _). Qed.

(** When the decision is to complete the stage and the call succeeds, the
    instance ends completed, with a time and its other columns unchanged,
    whatever was repeated or completed after it; when the decision is not to,
    nothing is written. *)
Theorem stage_call_outcome turns id s s' :
  keyed s -> (forall n, rows_written s <= n -> fresh_stage_id n <> id) ->
  maybe_complete_stage ambient registry fuel turns def id s = (Ok tt, s') ->
  (forall r stage auto, decides s id r stage auto ->
     exists at_, stage_instances s' !! id = Some (in_state StageState.Completed (Some at_) r))
  /\ (settled s id -> s' = s).
Proof.
  intros Hk Hf Hm. destruct turns as [|turns]; [done|].
  destruct (one_call turns id s) as [(r & stage & auto & Hd & E)|(res & E & _ & Hset)]; rewrite E in Hm.
  - split; [|intros Hs; exfalso; apply Hs; eauto]. intros r' stage' auto' (Hr' & _).
    destruct Hd as (Hr & _). assert (r' = r) as -> by congruence.
    apply bind_inv_ok in Hm as ([] & s1 & Ec & Hm).
    destruct (complete_stage_effect _ _ _ _ _ _ _ _ _ _ Hk Hr Ec) as [_ (at_ & s2 & Hc & K2 & L2 & Er)].
    exists at_. set (c := in_state StageState.Completed (Some at_) r) in *.
    assert (kept id c s2) as Hkept. { split_and!; [done|done|done|]. intros n Hn. apply Hf. lia. }
    apply (repeat_keeps id c c) in Hkept. rewrite Er in Hkept. simpl in Hkept.
    destruct (si_parent_stage_instance_id r) as [parent|]; [|by injection Hm as <-; destruct Hkept as (_ & ? & _)].
    apply (call_keeps id c turns parent) in Hkept. rewrite Hm in Hkept. by destruct Hkept as (_ & ? & _).
  - injection Hm as -> <-. split; [|done]. intros r stage auto Hd. destruct (Hset eq_refl). eauto.
Qed.
End Stages.

#[local] Opaque rows.

(** ** The mirror *)
Definition well_placed (r : CmmnPlanItemInstance) : Prop :=
  pi_plan_item_definition_type r = "stage" -> pi_stage_instance_id r = None.

Definition mirror_ok (s : CmmnSession) : Prop :=
  forall k r, plan_item_instances s !! k = Some r -> pi_id r = k /\ well_placed r.

Lemma mirror_ok_row s r : mirror_ok s -> r ∈ rows (plan_item_instances s) -> well_placed r.
Proof. intros Hm [k Hk]%elem_of_rows. by apply (Hm k). Qed.

(** Then no stage of the mirror is in the scope of a stage. *)
Lemma mirror_ok_no_stage `{Display} `{NumberReader} `{Patterns} fuel s ci rule_items id :
  mirror_ok s -> no_ignored_stage fuel s ci rule_items (Some id).
Proof.
  intros Hm r [Hr Hs]%elem_of_filter_b Ht _. unfold mirror_in_scope in Hs.
  rewrite !andb_true_iff, !bool_decide_eq_true in Hs. destruct Hs as [_ Hs].
  by rewrite (mirror_ok_row s r Hm Hr Ht) in Hs.
Qed.

Lemma mirror_same s s' : mirror_ok s -> plan_item_instances s' = plan_item_instances s -> mirror_ok s'.
Proof. unfold mirror_ok. by intros ? ->. Qed.

Lemma mirror_modify f :
  (forall s, plan_item_instances (f s) = plan_item_instances s) ->
  preserves mirror_ok (modify (E := LifecycleStop) f).
Proof. intros Hf. apply preserves_modify. intros s Hs. by apply (mirror_same s). Qed.

Lemma mirror_persist r : well_placed r -> preserves mirror_ok (persist_plan_item_instance_session r).
Proof.
  intros Hr. apply preserves_modify. intros s Hs k r'. simpl. rewrite lookup_insert_Some.
  intros [[<- <-]|[_ Hl]]; [done|]. by apply Hs.
Qed.

Lemma mirror_delete id : preserves mirror_ok
  (modify (E := LifecycleStop) (fun s => set_plan_item_instances (delete id (plan_item_instances s)) s)).
Proof.
  apply preserves_modify. intros s Hs k r'. simpl. rewrite lookup_delete_Some. intros [_ Hl]. by apply Hs.
Qed.

Create HintDb mirror discriminated.
#[local] Hint Resolve mirror_delete : mirror.

Ltac mirror_walk :=
  repeat first
    [ solve [auto with mirror flow]
    | apply preserves_bind; [|intros]
    | apply preserves_for_in; intros
    | apply preserves_extend_in; intros
    | match goal with
      | |- preserves _ (if ?b then _ else _) => destruct b
      | |- preserves _ (match ?x with _ => _ end) => destruct x
      end ].

Section Mirror.
Context `{Display} `{Unicode} `{NumberReader} `{Patterns} `{RowSource}
  (ambient : ExpressionMethodRegistry) (registry : option CmmnLifecycleListenerRegistry) (fuel : nat)
  (def : CmmnCaseDefinition).

Lemma mirror_tick : preserves mirror_ok tick.
Proof. unfold tick. mirror_walk. by apply mirror_modify. Qed.
Lemma mirror_now : preserves mirror_ok now.
Proof. apply preserves_bind; [apply mirror_tick|auto with flow]. Qed.
Lemma mirror_fire case_id id definition kind old new :
  preserves mirror_ok (fire ambient registry case_id id definition kind old new).
Proof. unfold fire. auto with flow. Qed.
Lemma mirror_stage_history r : preserves mirror_ok (persist_historic_stage_instance_session r).
Proof. by apply mirror_modify. Qed.
Lemma mirror_persist_stage r : preserves mirror_ok (persist_stage_instance_session r).
Proof. repeat apply preserves_bind; intros; [by apply mirror_modify..|]. by apply mirror_persist. Qed.
Lemma mirror_task_history t : preserves mirror_ok (persist_historic_human_task_session t).
Proof. by apply mirror_modify. Qed.
Lemma mirror_delete_task id : preserves mirror_ok (delete_human_task id).
Proof. by apply mirror_modify. Qed.
Lemma mirror_delete_stage id : preserves mirror_ok (delete_stage_instance id).
Proof. by apply mirror_modify. Qed.
Lemma mirror_subscriptions p : preserves mirror_ok (delete_subscriptions p).
Proof. by apply mirror_modify. Qed.
Lemma mirror_timers case_id item : preserves mirror_ok (delete_timer_jobs_for_plan_item case_id item).
Proof. by apply mirror_modify. Qed.

#[local] Hint Resolve mirror_tick mirror_now mirror_fire mirror_stage_history mirror_persist_stage
  mirror_task_history mirror_delete_task mirror_delete_stage mirror_subscriptions mirror_timers : mirror.

Lemma mirror_end_rows (p : CmmnPlanItemInstance -> bool) at_ :
  preserves mirror_ok (s ← get;
    for_in (fun r => persist_plan_item_instance_session (ended_instance at_ r))
      (List.filter p (rows (plan_item_instances s)))).
Proof.
  apply preserves_get_bind. intros s Hs. apply preserves_for_in. intros r [Hr _]%elem_of_filter_b.
  apply mirror_persist. intros Ht. by apply (mirror_ok_row s r).
Qed.

Lemma mirror_terminate_rows case_id item kind :
  preserves mirror_ok (terminate_plan_item_instance_rows case_id item kind).
Proof. apply preserves_bind; [apply mirror_now|]. intros at_. apply mirror_end_rows. Qed.

Lemma mirror_delete_container case_id c : preserves mirror_ok (delete_event_subscriptions_for_container case_id c).
Proof.
  induction c as [h items stages sentries IH] using container_induction. rewrite Forall_forall in IH.
  cbn [delete_event_subscriptions_for_container]. mirror_walk; by apply IH.
Qed.

Lemma mirror_create ci p stage parent : preserves mirror_ok (create_available_stage_instance def ci p stage parent).
Proof. unfold create_available_stage_instance. mirror_walk. Qed.

#[local] Hint Resolve mirror_terminate_rows mirror_delete_container mirror_create : mirror.

Lemma mirror_repeat ended : preserves mirror_ok (repeat_stage_if_needed fuel def ended).
Proof. unfold repeat_stage_if_needed, evaluation. mirror_walk. Qed.

Lemma mirror_terminate stage r : preserves mirror_ok (terminate_stage_instance ambient registry fuel def stage r).
Proof.
  revert r. induction stage as [h items stages sentries IH] using container_induction. intros r.
  rewrite Forall_forall in IH. cbn [terminate_stage_instance].
  unfold terminate_child_task, terminate_stage_plan_item, repeat_terminated, evaluation. mirror_walk; by apply IH.
Qed.

#[local] Hint Resolve mirror_repeat mirror_terminate : mirror.

Lemma mirror_residual_stage lookup r : preserves mirror_ok (terminate_residual_stage ambient registry fuel def lookup r).
Proof. unfold terminate_residual_stage. mirror_walk. Qed.
Lemma mirror_residual_task t : preserves mirror_ok (terminate_residual_task t).
Proof. unfold terminate_residual_task. mirror_walk. Qed.
Lemma mirror_delete_enabled case_id item : preserves mirror_ok (delete_enabled_plan_item_instance_rows case_id item).
Proof. unfold delete_enabled_plan_item_instance_rows. mirror_walk. Qed.

#[local] Hint Resolve mirror_residual_stage mirror_residual_task mirror_delete_enabled : mirror.

Lemma mirror_residual_case case_id :
  preserves mirror_ok (terminate_residual_case_children_for_auto_complete ambient registry fuel def case_id).
Proof. unfold terminate_residual_case_children_for_auto_complete. mirror_walk. Qed.

(** The mirror stays well formed: through every call of
    [maybe_complete_stage], successful or not, a plan item instance is under
    its id and the one of a stage is in no stage, so that the subtraction in
    the next decision on a stage is exact. *)
Theorem mirror_stays_ok turns id s :
  mirror_ok s -> mirror_ok (maybe_complete_stage ambient registry fuel turns def id s).2.
Proof.
  revert id s. induction turns as [|turns IH]; intros id s Hs; [done|].
  destruct (one_call ambient registry fuel def turns id s) as [(r & stage & auto & _ & ->)|(res & -> & _)]; [|done].
  revert s Hs. change (preserves mirror_ok (complete_stage ambient registry fuel def stage auto r ;;
    match si_parent_stage_instance_id r with
    | Some parent => maybe_complete_stage ambient registry fuel turns def parent
    | None => mret tt
    end)).
  unfold complete_stage, terminate_residual_stage_children_for_auto_complete. mirror_walk.
  intros s'. apply IH.
Qed.
End Mirror.

(** ** Ending the open instances of a case *)
Section EndRows.
Context (at_ : string).

Definition end_row (m : gmap string CmmnPlanItemInstance) (r : CmmnPlanItemInstance) :=
  <[ pi_id r := ended_instance at_ r ]> m.

Lemma end_rows_run l s :
  for_in (fun r => persist_plan_item_instance_session (ended_instance at_ r)) l s
  = (Ok tt, set_plan_item_instances (foldl end_row (plan_item_instances s) l) s).
Proof. revert s. induction l as [|r l IH]; intros s; [by destruct s|]. simpl. unfold mbind, stM_bind. simpl. by rewrite IH. Qed.

Lemma end_rows_lookup l m k r :
  foldl end_row m l !! k = Some r ->
  (exists r0, r = ended_instance at_ r0) \/ (m !! k = Some r /\ forall r0, r0 ∈ l -> pi_id r0 <> k).
Proof.
  revert m. induction l as [|r0 l IH]; intros m; simpl; [set_solver|].
  intros [Hr|[Hl Hn]]%IH; [by left|]. unfold end_row in Hl. apply lookup_insert_Some in Hl as [[<- <-]|[Hne Hl]]; [eauto|].
  right. split; [done|]. intros r1 [->|Hin]%elem_of_cons; auto.
Qed.
End EndRows.

Section Case.
Context `{Display} `{Unicode} `{NumberReader} `{Patterns} `{RowSource}
  (ambient : ExpressionMethodRegistry) (registry : option CmmnLifecycleListenerRegistry) (fuel : nat)
  (complete_parent : string -> LM unit).

(** No plan item instance of the case is open. *)
Definition all_ended (s : CmmnSession) (case_id : string) : Prop :=
  forall k r, plan_item_instances s !! k = Some r -> pi_case_instance_id r = case_id -> pi_ended_at r <> None.

Lemma terminate_open_ends case_id at_ s :
  mirror_ok s ->
  exists s', terminate_open_plan_item_instances_for_case_session case_id at_ s = (Ok tt, s')
    /\ all_ended s' case_id /\ case_instances s' = case_instances s.
Proof.
  intros Hm. unfold terminate_open_plan_item_instances_for_case_session, get, mbind, stM_bind.
  rewrite end_rows_run. eexists. split_and!; [done| |done]. intros k r. simpl.
  intros [(r0 & ->)|[Hl Hn]]%end_rows_lookup; [done|]. intros Hc He.
  apply (Hn r); [|by apply (Hm k)]. apply elem_of_filter_b. split; [apply elem_of_rows; eauto|].
  by rewrite !andb_true_iff, !bool_decide_eq_true.
Qed.

(** The case is active, and the decision is [b]. *)
Definition case_decides (s : CmmnSession) (id : string) (ci : CmmnCaseInstance) (def : CmmnCaseDefinition) (b auto : bool) : Prop :=
  case_instances s !! id = Some ci /\ instance_state ci = CaseState.Active
  /\ case_definitions s !! instance_case_definition_id ci = Some def
  /\ case_may_complete fuel s ci (case_plan_model (model def)) = Ok (b, auto).

(** The case is completed, in the runtime table and in the history, with a time
    and its other columns as they were, and none of its plan item instances is
    open. *)
Definition case_closed (s1 : CmmnSession) (id : string) (ci : CmmnCaseInstance) : Prop :=
  exists ci', case_instances s1 !! id = Some ci' /\ case_history s1 !! id = Some ci'
    /\ instance_state ci' = CaseState.Completed /\ instance_ended_at ci' <> None
    /\ instance_id ci' = instance_id ci /\ instance_case_definition_id ci' = instance_case_definition_id ci
    /\ instance_variables ci' = instance_variables ci /\ instance_tenant_id ci' = instance_tenant_id ci
    /\ all_ended s1 id.

Notation call := (maybe_complete_case ambient registry fuel complete_parent).

(** What the call comes down to once it is decided. *)
Lemma case_call_decided id s ci def b auto :
  case_decides s id ci def b auto ->
  call id s
  = (if b then
       (if auto then terminate_residual_case_children_for_auto_complete ambient registry fuel def id else mret tt) ;;
       lift (fire_case_lifecycle_listeners_for_model ambient registry (model def) ci
               (CaseState.case_as_str (instance_state ci)) (CaseState.case_as_str CaseState.Completed)) ;;
       at_ ← now;
       terminate_open_plan_item_instances_for_case_session id at_ ;;
       persist_case_instance_session (completed_case at_ ci) ;;
       persist_historic_case_session (completed_case at_ ci) ;;
       complete_parent id
     else mret tt) s.
Proof.
  intros (H1' & H2' & H3' & H4'). unfold maybe_complete_case. unfold get at 1, mbind at 1, stM_bind at 1. cbv beta iota.
  rewrite H1', bool_decide_true by done. cbn [negb]. unfold found_or. rewrite H3'.
  unfold mbind at 1, stM_bind at 1, mret at 1, stM_ret at 1. cbv beta iota.
  unfold mbind at 1, stM_bind at 1, evaluation, lift at 1. rewrite H4'. by destruct b.
Qed.

(** From the children's end on, the completion of a case always goes through. *)
Lemma case_closes id ci s :
  mirror_ok s -> instance_id ci = id ->
  exists s1, case_closed s1 id ci
    /\ (at_ ← now;
        terminate_open_plan_item_instances_for_case_session id at_ ;;
        persist_case_instance_session (completed_case at_ ci) ;;
        persist_historic_case_session (completed_case at_ ci) ;;
        complete_parent id) s = complete_parent id s1.
Proof.
  intros Hm Hid. set (at_ := now_rfc3339 (rows_written s)). set (s3 := set_rows_written (S (rows_written s)) s).
  assert (En : now s = (Ok at_, s3)) by done.
  assert (M3 : mirror_ok s3) by (pose proof (mirror_now s Hm) as M; by rewrite En in M).
  destruct (terminate_open_ends id at_ s3 M3) as (s4 & E4 & Hend & _).
  eexists. split; cycle 1.
  { etrans; [eapply bind_ok; exact En|]. etrans; [eapply bind_ok; exact E4|].
    etrans; [eapply bind_ok; reflexivity|]. etrans; [eapply bind_ok; reflexivity|]. reflexivity. }
  exists (completed_case at_ ci). split_and!; try done; simpl; rewrite Hid; apply lookup_insert_eq.
Qed.

(** C26: the completion of a case.  The mirror of plan item instances is keyed by its
    rows and holds stages only outside stages, and the case row is keyed by its id.  A
    call for a case that is missing or not active, or whose decision
    ([case_may_complete]) is not to complete it, succeeds and writes nothing at all.
    When the case is active and the decision is to complete it, a successful call hands
    to [complete_parent], which notifies a calling process and is a parameter, a session
    in which the case is completed, in the runtime table and in the history, with an end
    time and its id, definition, variables and tenant unchanged, and none of its plan
    item instances is open; and where completion is not automatic and the listeners of
    the case do not fail, the call always gets there: its outcome is that of
    [complete_parent] on such a session. *)
Theorem case_call_outcome id s :
  mirror_ok s -> (forall ci, case_instances s !! id = Some ci -> instance_id ci = id) ->
  ((forall ci, case_instances s !! id = Some ci -> instance_state ci <> CaseState.Active) -> call id s = (Ok tt, s))
  /\ (forall ci def auto, case_decides s id ci def false auto -> call id s = (Ok tt, s))
  /\ (forall ci def auto s', case_decides s id ci def true auto -> call id s = (Ok tt, s') ->
        exists s1, case_closed s1 id ci /\ complete_parent id s1 = (Ok tt, s'))
  /\ (forall ci def, case_decides s id ci def true false ->
        fire_case_lifecycle_listeners_for_model ambient registry (model def) ci
          (CaseState.case_as_str CaseState.Active) (CaseState.case_as_str CaseState.Completed) = Ok tt ->
        exists s1, case_closed s1 id ci /\ call id s = complete_parent id s1).
Proof.
  intros Hm Hid. split_and!.
  - intros Hno. unfold maybe_complete_case. unfold get at 1, mbind at 1, stM_bind at 1. cbv beta iota.
    destruct (case_instances s !! id) as [ci|]; [|done]. by rewrite bool_decide_false by (by apply Hno).
  - intros ci def auto Hd. by rewrite (case_call_decided _ _ _ _ _ _ Hd).
  - intros ci def auto s' Hd. rewrite (case_call_decided _ _ _ _ _ _ Hd).
    intros ([] & s1 & E1 & Hr)%bind_inv_ok. apply bind_inv_ok in Hr as ([] & s2 & E2 & Hr).
    assert (M1 : mirror_ok s1).
    { destruct auto; [|by injection E1 as <-].
      pose proof (mirror_residual_case ambient registry fuel def id s Hm) as M. by rewrite E1 in M. }
    unfold lift in E2. injection E2 as _ <-. destruct (case_closes id ci s1 M1) as (s5 & Hc & E); [by apply Hid, Hd|].
    exists s5. split; [done|]. by rewrite <- E.
  - intros ci def Hd Hl. destruct (case_closes id ci s Hm) as (s1 & Hc & E); [by apply Hid, Hd|].
    exists s1. split; [done|]. rewrite (case_call_decided _ _ _ _ _ _ Hd), <- E.
    assert (El : (lift (fire_case_lifecycle_listeners_for_model ambient registry (model def) ci
        (CaseState.case_as_str (instance_state ci)) (CaseState.case_as_str CaseState.Completed)) : LM unit) s = (Ok tt, s)).
    { destruct Hd as (_ & Ha & _). unfold lift. by rewrite Ha, Hl. }
    etrans; [eapply bind_ok; reflexivity|]. exact (bind_ok _ _ _ _ _ El).
Qed.
End Case.
