(* ===== verification/CmmnSamples.v ===== *)
(** * CMMN: concrete cases, and where the code does not do what it means to

    Conditions and sentries first; then a case with a stage in a stage, on
    which the theorems on completion are applied, and sessions in which the
    decision is not what the rules say. *)
From Stdlib Require Import Ascii.
From S2P Require Import Prelude Chars Float64 Numerals Json ElValues ElCompiler ElExpression CmmnTokens CmmnParser CmmnCondition CmmnParserProof CmmnConditionProof CmmnSentry CmmnTables CmmnSatisfaction CmmnCompletion CmmnCompletionProof CmmnTermination CmmnStageCompletion.

(** ** Negations are not counted as nesting *)
Definition negation_text (n : nat) (name : string) : string :=
  text (repeat "!"%char n ++ bytes name).

Fixpoint negations (n : nat) (name : string) : CmmnSentryIfPartExpression :=
  match n with
  | 0 => CComparison (mkCondition name Equal (LBoolean true))
  | S n => CNot (negations n name)
  end.

Fixpoint negated (n : nat) (name : string) : SentryIfPartExpression :=
  match n with
  | 0 => Literal (LVariable name)
  | S n => Not (ensure_boolean_context (negated n name))
  end.

Section Negations.
Context (name : string) (Hname : is_path name).

Lemma negation_tokens n fuel ts :
  n + length (bytes name) <= fuel ->
  tokenize_loop fuel (repeat "!"%char n ++ bytes name) ts
  = Ok (ts ++ repeat TNot n ++ [TIdentifier name]).
Proof.
  destruct Hname as (Hs & Hw & _). revert fuel ts. induction n as [|n IH]; intros fuel ts Hf.
  { simpl in *. rewrite supported_tokens by done. by rewrite Hw. }
  destruct fuel as [|fuel]; [lia|]. cbn [repeat app tokenize_loop].
  assert (Hr : read_token ts "!" (repeat "!"%char n ++ bytes name)
               = Ok (Some TNot, repeat "!"%char n ++ bytes name)).
  { destruct n as [|n]; [|done]. destruct (supported_nonempty name Hs) as (first & l & E).
    destruct (supported_reads _ _ _ Hs E) as [Hfirst _]. simpl. rewrite E.
    revert Hfirst. clear. destruct first as [[] [] [] [] [] [] [] []]; vm_compute; (discriminate || done). }
  rewrite Hr. cbn [mbind result_bind]. rewrite IH by lia. by rewrite <- app_assoc.
Qed.

Lemma negation_unary turns expression n m :
  n < m -> n < turns ->
  parse_unary turns expression m (repeat TNot n ++ [TIdentifier name]) = (Ok (negated n name), []).
Proof.
  revert m. induction n as [|n IH]; intros [|m] Hm Ht; try lia.
  { destruct turns as [|turns]; [lia|]. reflexivity. }
  cbn [repeat app parse_unary]. unfold mbind at 1, stM_bind at 1. cbn [consume bool_decide decide].
  rewrite bool_decide_eq_true_2 by done.
  unfold parse_not_operand, next_tokens_are_parenthesized_variable_path.
  assert (Hn : match repeat TNot n ++ [TIdentifier name] with
               | TLeftParen :: TIdentifier name :: TRightParen :: _ =>
                   is_supported_if_part_variable_name name
               | _ => false
               end = false) by (by destruct n as [|[|[|n]]]).
  unfold mbind, stM_bind. rewrite Hn, IH by lia. done.
Qed.

Lemma negation_parse n :
  parse_tokens (repeat TNot n ++ [TIdentifier name]) = (Ok (negated n name), []).
Proof.
  unfold parse_tokens. rewrite length_app, repeat_length. simpl length.
  remember (S (n + 1)) as turns eqn:Hturns.
  change (parse_expression turns MAX_IF_PART_NESTING_DEPTH)
    with (parse_ternary turns (parse_expression turns 63) turns).
  generalize (parse_expression turns 63). intros expression.
  pose proof (negation_unary turns expression n turns ltac:(lia) ltac:(lia)) as Hu.
  destruct turns as [|k]; [done|]. clear Hturns.
  unfold parse_ternary, parse_or, parse_and, parse_comparison, parse_additive, parse_multiplicative.
  unfold mbind, stM_bind. by rewrite Hu.
Qed.

Lemma negation_bytes n : bytes (negation_text n name) = repeat "!"%char n ++ bytes name.
Proof. apply String.list_ascii_of_string_of_list_ascii. Qed.

Lemma negation_encoded n : well_encoded (negation_text n name).
Proof.
  destruct Hname as (_ & _ & He). unfold well_encoded, negation_text in *.
  induction n as [|n IH]; simpl.
  - by rewrite String.string_of_list_ascii_of_string.
  - by rewrite IH.
Qed.

Lemma negation_unwrapped n : unwrap_expression (negation_text n name) = negation_text n name.
Proof.
  pose proof Hname as (Hs & _ & _).
  destruct (supported_ends name Hs) as (first & l & a & Hb & Hf & Ha & Hp).
  assert (Hv : visible "!"%char) by done.
  assert (Hbytes : bytes (negation_text n name) = repeat "!"%char n ++ first :: l).
  { by rewrite negation_bytes, Hb. }
  assert (Hhead : exists x r, repeat "!"%char n ++ first :: l = x :: r /\ visible x /\ is_byte x "$" = false).
  { destruct n as [|n]; simpl; [|by do 2 eexists]. exists first, l. split_and!; [done| |].
    - by apply start_byte_visible.
    - revert Hf. clear. destruct first as [[] [] [] [] [] [] [] []]; vm_compute; (discriminate || done). }
  destruct Hhead as (x & r & Hx & Hxv & Hd). rewrite Hx in Hbytes.
  assert (Ht : trim (negation_text n name) = negation_text n name).
  { eapply trim_ends; [apply negation_encoded|done|done| |by apply path_end_visible].
    rewrite <- Hx, last_app_ne by done. exact Ha. }
  unfold unwrap_expression. rewrite Ht, Hbytes. destruct r as [|y r]; [done|]. by rewrite Hd.
Qed.

Lemma negated_tree n :
  from_expression (ensure_boolean_context (negated n name)) = negations n name.
Proof.
  pose proof Hname as (Hs & _ & _). induction n as [|n IH]; simpl; [|by rewrite IH].
  rewrite Hs. cbn. unfold from_condition. cbn [variable_name].
  rewrite (path_not_call _ "size(" (bytes "size") Hname eq_refl eq_refl I).
  by rewrite (path_not_call _ "length(" (bytes "length") Hname eq_refl eq_refl I).
Qed.

Lemma negation_accepted n : parse_condition (negation_text n name) = Ok (negations n name).
Proof.
  unfold parse_condition, parse_sentry_if_part_expression. rewrite negation_unwrapped.
  unfold parse_supported_if_part_expression, tokenize_if_part_expression.
  rewrite negation_bytes, negation_tokens by (rewrite length_app, repeat_length; lia).
  cbn [mbind result_bind app]. rewrite negation_parse. cbn. by rewrite negated_tree.
Qed.
End Negations.

Lemma negations_too_deep `{Display} `{NumberReader} `{Patterns} variables name n k fuel :
  k <= MAX_IF_PART_EVAL_DEPTH <= k + n -> MAX_IF_PART_EVAL_DEPTH - k < fuel ->
  evaluate_to_bool_depth variables fuel (negations n name) k = depth_exceeded.
Proof.
  revert k fuel. induction n as [|n IH]; intros k [|fuel] Hk Hf; try lia.
  - assert (k = 64) as -> by (unfold MAX_IF_PART_EVAL_DEPTH in *; lia). done.
  - destruct (decide (k = 64)) as [->|Hk']; [done|].
    rewrite bool_step by (unfold MAX_IF_PART_EVAL_DEPTH in *; lia). simpl.
    rewrite IH; [done|unfold MAX_IF_PART_EVAL_DEPTH in *; lia..].
Qed.

(** The nesting limit does not count negations.  The parser accepts any
    number of [!] before a variable, to a tree as high as there are signs; the
    evaluator refuses it from 64 on, whatever the variables.  The constant
    [MAX_IF_PART_NESTING_DEPTH] is meant to bound the parser's recursion. *)
Theorem negations_not_limited `{Display} `{NumberReader} `{Patterns} variables name n fuel :
  is_path name -> 64 <= n -> 64 < fuel ->
  parse_condition (negation_text n name) = Ok (negations n name)
  /\ evaluate_to_bool variables fuel (negations n name) = depth_exceeded.
Proof.
  intros Hp Hn Hf. split; [by apply negation_accepted|].
  apply negations_too_deep; unfold MAX_IF_PART_EVAL_DEPTH; lia.
Qed.

(** ** Conditions that mean something else *)

(** Parentheses around an operand are lost: the operand is kept as text
    without them and parsed again, so the condition is the one without
    parentheses. *)
Theorem grouping_lost :
  parse_condition "(a + b) * c == 9" = parse_condition "a + b * c == 9"
  /\ exists e, parse_condition "(a + b) * c == 9" = Ok e.
Proof. split; [reflexivity|]. eexists. reflexivity. Qed.

Section Meanings.
Context `{Display} `{NumberReader} `{Patterns} (variables : list (string * Value)).

(** Two collections are equal whatever they contain: an array or object has
    no comparable value, and two absent values are equal. *)
Theorem collections_always_equal a b l m fuel :
  is_path a -> is_path b -> path variables a = Some (VArray l) -> path variables b = Some (VArray m) ->
  evaluate_to_bool variables (S fuel) (CComparison (mkCondition a Equal (LVariable b))) = Ok true.
Proof.
  intros Ha Hb Pa Pb. unfold evaluate_to_bool. rewrite bool_step by (unfold MAX_IF_PART_EVAL_DEPTH; lia).
  cbn [bool_node]. unfold evaluate_if_part_comparison, resolve_if_part_comparison_operand. cbn [variable_name literal].
  rewrite (path_not_call _ "size(" (bytes "size") Ha eq_refl eq_refl I).
  rewrite (path_not_call _ "length(" (bytes "length") Ha eq_refl eq_refl I).
  unfold resolve_if_part_literal, comparable_operand. rewrite Pa, Pb. done.
Qed.

Lemma call_no_path f r : forallb is_identifier_byte (bytes f) = true ->
  path variables (f +:+ "(" +:+ r) = None.
Proof.
  intros Hf. unfold path, resolve_if_part_variable_path. rewrite !ascii_bytes_app.
  destruct (bytes f) as [|first l]; simpl; [done|].
  destruct (is_identifier_start_byte first); [|done]. simpl in Hf. apply andb_true_iff in Hf as [_ Hf].
  assert (E : span is_identifier_byte (l ++ "("%char :: bytes r) = (l, "("%char :: bytes r)).
  { induction l as [|x l IH]; simpl in *; [done|]. apply andb_true_iff in Hf as [-> Hf]. by rewrite IH. }
  rewrite E. by destruct (map_get _ variables).
Qed.

(** A size is compared with zero when the other side is a size: the right
    side is looked up as a path named [size(b)]. *)
Theorem size_compared_with_zero l fuel :
  path variables "a" = Some (VArray l) ->
  exists e, parse_condition "size(a) == size(b)" = Ok e
    /\ evaluate_to_bool variables (S fuel) e = Ok (Z.of_nat (length l) =? 0)%Z.
Proof.
  intros Ha. exists (CSize "a" Equal (LVariable "size(b)")). split; [reflexivity|].
  unfold evaluate_to_bool. rewrite bool_step by (unfold MAX_IF_PART_EVAL_DEPTH; lia). cbn [bool_node].
  unfold evaluate_sized, resolve_if_part_path_or_value_expression. rewrite Ha.
  unfold resolve_if_part_literal_number.
  assert (path variables "size(b)" = None) as ->; [by apply (call_no_path "size")|done].
Qed.

(** A sum of sizes is accepted and can never be evaluated: the text
    between the first [size(] and the last parenthesis is taken as the operand. *)
Theorem size_sum_fails fuel :
  exists e, parse_condition "size(a) + size(b) > 2" = Ok e
    /\ evaluate_to_bool variables (S fuel) e
       = Err (Raised (Execution "unexpected trailing tokens in expression")).
Proof.
  exists (CSize "a) + size(b" GreaterThan (LNumber "2")). split; [reflexivity|].
  unfold evaluate_to_bool. rewrite bool_step by (unfold MAX_IF_PART_EVAL_DEPTH; lia). cbn [bool_node].
  unfold evaluate_sized, resolve_if_part_path_or_value_expression.
  assert (path variables "a) + size(b" = None) as ->; [|reflexivity].
  unfold path, resolve_if_part_variable_path. simpl. by destruct (map_get "a" variables).
Qed.

(** C0: Text with a single quote in a compared sum is accepted and can never be
    evaluated: it is printed between single quotes and read again. *)
Definition quoted (s : string) : string := String double_quote (s +:+ String double_quote "").

Theorem quoted_apostrophe_fails fuel :
  exists e, parse_condition (quoted "it's" +:+ " + b == c") = Ok e
    /\ evaluate_to_bool variables (S fuel) e
       = Err (Raised (Execution "quoted string literal must be terminated")).
Proof.
  exists (CComparison (mkCondition "'it's' + b" Equal (LVariable "c"))). split; [reflexivity|].
  unfold evaluate_to_bool. rewrite bool_step by (unfold MAX_IF_PART_EVAL_DEPTH; lia). reflexivity.
Qed.
End Meanings.

(** An index that starts with a digit and goes on is rejected, and so is a
    subtraction after an index. *)
Theorem index_expressions_rejected :
  is_ok (parse_condition "items[0 + 1] == 6") = false
  /\ is_ok (parse_condition "items[i] -1 == 2") = false
  /\ is_ok (parse_condition "items[i] - 1 == 2") = true.
Proof. by vm_compute. Qed.

(** The two evaluators disagree on a number compared with its text: equal
    for a single event, different at run time. *)
Theorem evaluators_disagree `{Display} `{NumberReader} `{Patterns} fuel :
  let e := CComparison (mkCondition "a" Equal (LString "5")) in
  let variables := [("a", VNumber (PosInt 5))] in
  evaluate (fun name => map_get name variables) e = Ok true
  /\ evaluate_to_bool variables (S fuel) e = Ok false.
Proof.
  split; [reflexivity|]. unfold evaluate_to_bool.
  rewrite bool_step by (unfold MAX_IF_PART_EVAL_DEPTH; lia). reflexivity.
Qed.

(** ** Sentries with parts of both kinds *)
Definition both_parts : CmmnSentry :=
  mkSentry "s1" [mkOnPart "p1" "taskA" "complete"] [mkFileOnPart "f1" "fileB" "create"] None None.

(** A sentry on a plan item and on a case file item fires on one of them:
    the plan item's event selects it with no event of the file, and the file's
    event starts its plan items with no event of the plan item, in any session. *)
Theorem one_part_is_enough `{Display} `{NumberReader} `{Patterns} `{RowSource} fuel ci h items activate s :
  is_criterion entry_criterion_ids items both_parts = true ->
  occurred s (instance_id ci) "taskA" "complete" = true ->
  matching_sentry_ids fuel entry_criterion_ids items ci "taskA" "complete" [both_parts] s
  = (Ok ["s1"%string], s)
  /\ forall s, case_file_sentry fuel activate ci (Container h items [] [both_parts]) "fileB" "create" both_parts s
     = (activate (Container h items [] [both_parts]) "s1" ;;
        delete_sentry_if_part_satisfied (instance_id ci) "s1") s.
Proof.
  intros Hc Ho. split; [|done]. unfold matching_sentry_ids, mbind, stM_bind. rewrite Hc.
  change (listens_to "taskA" "complete" both_parts) with true. cbn [andb]. rewrite on_parts_run.
  assert (parts_hold s (instance_id ci) both_parts = true) as ->; [|done].
  unfold parts_hold. simpl. unfold part_holds. simpl. by rewrite Ho.
Qed.

(** ** CMMN: a case with concrete conditions

    Instances of the theorems on a case with variables, sentries in a plan
    model with a stage, and a session. *)

(** ** Parameters *)
Definition blank_display : Display := {| value_to_string _ := ""; f64_to_string _ := "" |}.
#[local] Existing Instance blank_display.

(** Integers only; other texts are not numbers. *)
Definition integer_reader : NumberReader :=
  {| number_from_str s := match parse_i64 s with Some n => Some (number_from_i64 n) | None => None end |}.
#[local] Existing Instance integer_reader.

(** A pattern matches the text it is part of. *)
Definition substring_patterns : Patterns := {| regex_new p := Ok (fun s => str_contains s p) |}.
#[local] Existing Instance substring_patterns.

Definition plain_rows : RowSource := {| new_v4 _ := "id"; now_rfc3339 _ := "now" |}.
#[local] Existing Instance plain_rows.

(** ** A case *)
Definition number (n : Z) : Value := VNumber (PosInt n).

Definition case_variables : list (string * Value) :=
  [("approved", VBool true); ("items", VArray [number 5; number 6]);
   ("order", VObject [("lines", VArray [number 3; number 4])]); ("others", VArray [])].

Definition sample_case : CmmnCaseInstance := mkCaseInstance "case-1" "def-1" case_variables None CaseState.Active None.

(** The same case after its variables were changed. *)
Definition changed_case : CmmnCaseInstance := mkCaseInstance "case-1" "def-1" [("approved", VBool false)] None CaseState.Active None.

Definition condition_text : string :=
  "${ approved && !(closed) && (order.lines[1] == 4 || size(items) > 7) }".

Definition condition_tree : CmmnSentryIfPartExpression :=
  CLogical And
    [CComparison (mkCondition "approved" Equal (LBoolean true));
     CNot (CComparison (mkCondition "closed" Equal (LBoolean true)));
     CLogical Or
       [CComparison (mkCondition "order.lines[1]" Equal (LNumber "4"));
        CSize "items" GreaterThan (LNumber "7")]].

Lemma condition_tree_evaluates :
  parse_condition condition_text = Ok condition_tree
  /\ evaluate_to_bool case_variables 5 condition_tree = Ok true.
Proof.
  split; [reflexivity|].
  exact (condition_meaning case_variables condition_tree 5
           ltac:(cbn; unfold is_path, well_encoded; split_and!; reflexivity || done)
           ltac:(vm_compute; lia) ltac:(vm_compute; lia)).
Qed.

Definition present_text : string := "${ approved && !(empty(others) && approved == false) && size(items) > 1 }".

Definition present_tree : CmmnSentryIfPartExpression :=
  CLogical And
    [CComparison (mkCondition "approved" Equal (LBoolean true));
     CNot (CLogical And [CEmpty "others"; CComparison (mkCondition "approved" Equal (LBoolean false))]);
     CSize "items" GreaterThan (LNumber "1")].

Lemma sample_has name v :
  map_get name case_variables = Some v -> is_supported_if_part_variable_name name = true ->
  word_token name = TIdentifier name -> of_chars (chars name) = name ->
  forallb is_identifier_byte (bytes name) = true -> has case_variables name v.
Proof. intros H1 H2 H3 H4 H5. repeat split; assumption. Qed.

Lemma condition_truth_witness :
  parse_condition present_text = Ok present_tree
  /\ exists b, evaluate_to_bool case_variables 5 present_tree = Ok b /\ (b = true <-> holds case_variables present_tree).
Proof.
  split; [vm_compute; reflexivity|].
  apply (condition_truth case_variables present_tree 5); [|vm_compute; lia|vm_compute; lia].
  assert (Ha : has case_variables "approved" (VBool true)) by (apply sample_has; vm_compute; reflexivity).
  assert (Ho : has case_variables "others" (VArray [])) by (apply sample_has; vm_compute; reflexivity).
  assert (Hi : has case_variables "items" (VArray [number 5; number 6])) by (apply sample_has; vm_compute; reflexivity).
  simpl. split_and!; try exact I.
  - exists (VBool true). exact (conj Ha I).
  - exists (VArray []). exact Ho.
  - exists (VBool true). exact (conj Ha I).
  - exists (VArray [number 5; number 6]), 2%Z, "1"%string, 1%Z.
    refine (conj Hi (conj (sized_array [number 5; number 6]) (conj eq_refl _))). vm_compute. reflexivity.
Defined.

Definition shared_tree : CmmnSentryIfPartExpression :=
  CLogical Or
    [CNot (CComparison (mkCondition "approved" Equal (LBoolean true)));
     CEmpty "closed"; CStartsWith "name" "A"].

Lemma evaluators_agree_witness :
  exists b, evaluate (fun name => map_get name case_variables) shared_tree = Ok b
    /\ evaluate_to_bool case_variables 4 shared_tree = Ok b.
Proof.
  exact (evaluators_agree case_variables shared_tree 4
           ltac:(cbn; unfold is_root; split_and!; done)
           ltac:(vm_compute; lia) ltac:(vm_compute; lia)).
Defined.

Lemma negations_not_limited_witness :
  parse_condition (negation_text 64 "a") = Ok (negations 64 "a")
  /\ evaluate_to_bool case_variables 65 (negations 64 "a") = depth_exceeded.
Proof.
  exact (negations_not_limited case_variables "a" 64 65
           ltac:(unfold is_path, well_encoded; split_and!; done) ltac:(lia) ltac:(lia)).
Defined.

(** ** Sentries *)

(** On the completion of task A, when the case is approved. *)
Definition approved_sentry : CmmnSentry :=
  mkSentry "sentry-1" [mkOnPart "on-1" "taskA" "complete"] []
    (Some (CComparison (mkCondition "approved" Equal (LBoolean true)))) None.

(** In a stage: on the completion of A in this command, when [others] is not empty. *)
Definition stage_sentry : CmmnSentry :=
  mkSentry "sentry-2" [mkOnPart "on-2" "taskA" "complete"] []
    (Some (CNot (CEmpty "others"))) (Some "onEvent").

Definition task_b : CmmnPlanItem := mkPlanItem "taskB" "humanB" None ["sentry-1"] [] None None None None None.

Definition plan_model : ContainerView :=
  Container (mkHeader "plan" "Plan" false None []) [task_b]
    [Container (mkHeader "stage" "Stage" false None []) [] [] [stage_sentry]] [approved_sentry; stage_sentry].

Definition empty_session : CmmnSession := empty_tables.

(** Task A is completed; nothing is in the log. *)
Definition completed_session : CmmnSession :=
  set_human_task_history [mkHumanTask "task-1" "case-1" None "taskA" "humanA" Completed None] empty_tables.

Definition fuel : nat := 70.

Lemma sample_evaluates sn :
  sn ∈ [approved_sentry; stage_sentry; stage_sentry] -> evaluates fuel sample_case sn.
Proof.
  intros Hs. unfold evaluates. repeat (apply elem_of_cons in Hs as [->|Hs]; [by eexists|]).
  by apply elem_of_nil in Hs.
Defined.

Lemma sweep_marks_satisfied_witness :
  exists s', record_satisfied_sentry_if_parts fuel sample_case plan_model empty_session = (Ok tt, s')
    /\ same_tables empty_session s'
    /\ forall c i e, occurred s' c i e
       = occurred empty_session c i e || marks fuel sample_case (all_sentries plan_model) c i e.
Proof.
  exact (sweep_marks_satisfied fuel sample_case plan_model empty_session
           (fun sn Hs _ => sample_evaluates sn Hs)).
Defined.

Lemma selected_sentries_witness :
  exists chosen s', matching_sentry_ids fuel entry_criterion_ids [task_b] sample_case "taskA" "complete"
      (sentries plan_model) completed_session = (Ok (map sentry_id chosen), s')
    /\ map sentry_id chosen = ["sentry-1"%string]
    /\ forall sn, sn ∈ sentries plan_model ->
         sn ∈ chosen <-> satisfied fuel sample_case entry_criterion_ids [task_b] "taskA" "complete" completed_session sn.
Proof.
  destruct (selected_sentries fuel sample_case entry_criterion_ids [task_b] "taskA" "complete"
           (sentries plan_model) completed_session
           ltac:(vm_compute; repeat constructor; set_solver)
           ltac:(repeat constructor; done) ltac:(repeat constructor)
           (fun sn Hs _ => sample_evaluates sn ltac:(revert Hs; simpl; set_solver)))
    as (chosen & s' & E & _ & Hc & _).
  exists chosen, s'. split; [exact E|]. split; [|exact Hc].
  assert (Hr : (matching_sentry_ids fuel entry_criterion_ids [task_b] sample_case "taskA" "complete"
      (sentries plan_model) completed_session).1 = Ok ["sentry-1"%string]) by (vm_compute; reflexivity).
  rewrite E in Hr. injection Hr as ->. reflexivity.
Defined.

Definition marked_session : CmmnSession :=
  (sentry_if_part_satisfied fuel approved_sentry sample_case empty_session).2.

(** The sentry stays satisfied when the case is no longer approved. *)
Lemma satisfied_if_part_sticks_witness :
  sentry_if_part_satisfied fuel approved_sentry changed_case marked_session = (Ok true, marked_session).
Proof.
  exact (satisfied_if_part_sticks fuel fuel sample_case changed_case approved_sentry empty_session
           marked_session marked_session eq_refl eq_refl eq_refl ltac:(done)).
Defined.

(** ** Findings on the sample *)
Lemma collections_always_equal_witness :
  evaluate_to_bool case_variables 1 (CComparison (mkCondition "items" Equal (LVariable "others"))) = Ok true.
Proof.
  exact (collections_always_equal case_variables "items" "others" [number 5; number 6] [] 0
           ltac:(unfold is_path, well_encoded; split_and!; done)
           ltac:(unfold is_path, well_encoded; split_and!; done) eq_refl eq_refl).
Defined.

Lemma size_compared_with_zero_witness :
  exists e, parse_condition "size(a) == size(b)" = Ok e
    /\ evaluate_to_bool [("a", VArray [number 1]); ("b", VArray [number 2])] 1 e = Ok false.
Proof.
  exact (size_compared_with_zero [("a", VArray [number 1]); ("b", VArray [number 2])] [number 1] 0 eq_refl).
Defined.

(** The sum is 9; the condition is false. *)
Lemma grouping_lost_false :
  exists e, parse_condition "(a + b) * c == 9" = Ok e
    /\ evaluate_to_bool [("a", number 1); ("b", number 2); ("c", number 3)] fuel e = Ok false.
Proof.
  exists (CComparison (mkCondition "a + b * c" Equal (LNumber "9"))). split; reflexivity.
Qed.

(** ** Stages and cases that complete *)

#[local] Existing Instance blank_display.
#[local] Existing Instance integer_reader.
#[local] Existing Instance substring_patterns.
#[local] Existing Instance plain_rows.
#[local] Existing Instance ascii_only.

(** ** Checks *)
Lemma keyed_check s :
  bool_decide (map_Forall (fun k r => si_id r = k) (stage_instances s)) = true -> keyed s.
Proof. intros Hs%bool_decide_eq_true k r Hl. by apply (Hs k r). Defined.

Lemma mirror_check s :
  bool_decide (map_Forall (fun k r => pi_id r = k
    /\ (pi_plan_item_definition_type r = "stage" -> pi_stage_instance_id r = None)) (plan_item_instances s)) = true ->
  mirror_ok s.
Proof. intros Hs%bool_decide_eq_true k r Hl. by apply (Hs k r). Defined.

Lemma no_ignored_check fuel s ci rule_items stage :
  forallb (fun r => negb (bool_decide (pi_plan_item_definition_type r = "stage") && mirror_blocks r
                          && ignored fuel s ci rule_items (mirror_row r))) (mirror_rows s ci stage) = true ->
  no_ignored_stage fuel s ci rule_items stage.
Proof.
  rewrite forallb_forall. intros Hall r Hr Ht Hb. apply list_elem_of_In, Hall in Hr.
  rewrite (bool_decide_eq_true_2 _ Ht), Hb in Hr. by apply negb_true_iff in Hr.
Defined.

(** ** A case with a stage in a stage *)
Definition plain_item (id definition : string) : CmmnPlanItem :=
  mkPlanItem id definition None [] [] None None None None None.

Definition ignored_item (id definition : string) : CmmnPlanItem :=
  mkPlanItem id definition None [] [] None None None (Some "ignore") None.

Definition is_approved : CmmnSentryIfPartExpression :=
  CComparison (mkCondition "approved" Equal (LBoolean true)).

Definition required_item (id definition : string) : CmmnPlanItem :=
  mkPlanItem id definition None [] [] None None (Some is_approved) None None.

Definition repeating_item (id definition : string) : CmmnPlanItem :=
  mkPlanItem id definition None [] [] None (Some is_approved) None None None.

Definition inner_stage : ContainerView :=
  Container (mkHeader "inner" "Inner" false None []) [required_item "taskA" "humanA"] [] [].

Definition outer_stage : ContainerView :=
  Container (mkHeader "outer" "Outer" false None [])
    [plain_item "innerItem" "inner"; ignored_item "taskC" "humanC"] [inner_stage] [].

Definition sample_plan : ContainerView :=
  Container (mkHeader "plan" "Plan" false None []) [plain_item "outerItem" "outer"] [outer_stage] [].

Definition sample_definition : CmmnCaseDefinition := mkCaseDefinition "def-1" (mkCase sample_plan [] ∅).

Definition stage_instance (id : string) (parent : option string) (item definition : string)
  (st : StageState.CmmnStageInstanceState) : CmmnStageInstance :=
  mkStageInstance id "case-1" "def-1" parent item definition definition "then" None st.

Definition with_case (def : CmmnCaseDefinition) (s : CmmnSession) : CmmnSession :=
  mkSession (plan_item_events s) (human_tasks s) (human_task_history s) (stage_instances s) (stage_history s)
    (plan_item_instances s) (event_subscriptions s) (task_associations s) (cmmn_jobs s)
    {[ "case-1" := sample_case ]} (case_history s) {[ "def-1" := def ]} (command_events s) (rows_written s).

(** The session after the stages were persisted one after the other. *)
Definition with_stages (l : list CmmnStageInstance) (s : CmmnSession) : CmmnSession :=
  (for_in persist_stage_instance_session l s).2.

(** Both stages are active, task A has completed, and task C is available and
    ignored. *)
Definition stage_session : CmmnSession :=
  set_plan_item_events [mkPlanItemEvent "e1" "case-1" "taskA" "complete" "then"]
    (set_human_tasks [mkHumanTask "t1" "case-1" (Some "si-outer") "taskC" "humanC" Available None]
      (with_stages [stage_instance "si-outer" None "outerItem" "outer" StageState.Active;
                    stage_instance "si-inner" (Some "si-outer") "innerItem" "inner" StageState.Active]
        (with_case sample_definition empty_tables))).

Definition no_methods : ExpressionMethodRegistry := registry_new.

Definition state_of (s : CmmnSession) (id : string) : option StageState.CmmnStageInstanceState :=
  si_state <$> stage_instances s !! id.

Definition completed_stages : CmmnSession :=
  (maybe_complete_stage no_methods None fuel 3 sample_definition "si-inner" stage_session).2.

(** The inner stage completes, then the outer one. *)
Example both_stages_complete :
  (maybe_complete_stage no_methods None fuel 3 sample_definition "si-inner" stage_session).1 = Ok tt
  /\ state_of completed_stages "si-inner" = Some StageState.Completed
  /\ state_of completed_stages "si-outer" = Some StageState.Completed.
Proof. vm_compute. done. Qed.

(** ** Facts of the sample *)
Lemma stage_session_keyed : keyed stage_session.
Proof. apply keyed_check. vm_compute. reflexivity. Qed.
Lemma completed_stages_keyed : keyed completed_stages.
Proof. apply keyed_check. vm_compute. reflexivity. Qed.
Lemma stage_session_mirror : mirror_ok stage_session.
Proof. apply mirror_check. vm_compute. reflexivity. Qed.
Lemma completed_stages_mirror : mirror_ok completed_stages.
Proof. apply mirror_check. vm_compute. reflexivity. Qed.
Lemma inner_may_complete : stage_may_complete fuel stage_session sample_case inner_stage "si-inner" = Ok (true, false).
Proof. vm_compute. reflexivity. Qed.
Lemma case_may_complete_then : case_may_complete fuel completed_stages sample_case sample_plan = Ok (true, false).
Proof. vm_compute. reflexivity. Qed.
Lemma call_succeeds :
  maybe_complete_stage no_methods None fuel 3 sample_definition "si-inner" stage_session = (Ok tt, completed_stages).
Proof. vm_compute. reflexivity. Qed.

Definition inner_row : CmmnStageInstance :=
  stage_instance "si-inner" (Some "si-outer") "innerItem" "inner" StageState.Active.
Definition inner_completed : CmmnStageInstance := in_state StageState.Completed (Some "now") inner_row.

Lemma inner_before : stage_instances stage_session !! "si-inner" = Some inner_row.
Proof. vm_compute. reflexivity. Qed.
Lemma inner_after : stage_instances completed_stages !! "si-inner" = Some inner_completed.
Proof. vm_compute. reflexivity. Qed.
Lemma inner_not_fresh n : fresh_stage_id n <> "si-inner".
Proof. vm_compute. discriminate. Qed.
Lemma inner_no_ignored :
  no_ignored_stage fuel stage_session sample_case (collect_rule_bearing_plan_items inner_stage) (Some "si-inner").
Proof. apply no_ignored_check. vm_compute. reflexivity. Qed.
Lemma case_no_ignored :
  no_ignored_stage fuel completed_stages sample_case (collect_rule_bearing_plan_items sample_plan) None.
Proof. apply no_ignored_check. vm_compute. reflexivity. Qed.

(** ** The theorems on the sample *)
Lemma inner_no_running x :
  x ∈ active_associations stage_session (instance_id sample_case) -> assoc_stage_instance_id x <> Some "si-inner".
Proof. vm_compute. intros Hx. by apply not_elem_of_nil in Hx. Qed.

Lemma stage_completion_meaning_witness :
  nothing_blocks fuel stage_session sample_case inner_stage
    (stage_blocking_rows stage_session sample_case inner_stage "si-inner" false)
    (stage_considered_rows stage_session sample_case "si-inner" false).
Proof.
  exact (proj1 (stage_completion_meaning fuel stage_session sample_case inner_stage "si-inner" true false
                  inner_no_running inner_may_complete inner_no_ignored) eq_refl).
Defined.

(** The available task of the outer stage is ignored by its rule. *)
Lemma case_completion_meaning_witness :
  nothing_blocks fuel completed_stages sample_case sample_plan
    (case_blocking_rows completed_stages sample_case false)
    (case_considered_rows completed_stages sample_case false)
  /\ (false = false -> pending_case_level_discretionary_item_count completed_stages sample_case = 0%Z).
Proof.
  exact (proj1 (case_completion_meaning fuel completed_stages sample_case sample_plan true false
                  case_may_complete_then case_no_ignored) eq_refl).
Defined.

Lemma stage_completion_terminates_witness :
  (maybe_complete_stage no_methods None fuel 3 sample_definition "si-inner" stage_session).1 <> Err Exhausted.
Proof.
  exact (stage_completion_terminates no_methods None fuel sample_definition 3 "si-inner" stage_session
           stage_session_keyed ltac:(vm_compute; lia)).
Defined.

Lemma completion_propagates_witness :
  settled fuel sample_definition completed_stages "si-inner"
  /\ settled fuel sample_definition completed_stages "si-outer".
Proof.
  destruct (completion_propagates no_methods None fuel sample_definition 3 "si-inner" stage_session
    completed_stages stage_session_keyed call_succeeds) as [Hs Hp].
  split; [exact Hs|].
  exact (Hp "si-inner" inner_row inner_completed "si-outer" inner_before eq_refl inner_after eq_refl eq_refl).
Defined.

Lemma completed_stage_stays_witness :
  state_of (maybe_complete_stage no_methods None fuel 3 sample_definition "si-outer" completed_stages).2 "si-inner"
  = Some StageState.Completed.
Proof.
  unfold state_of.
  rewrite (completed_stage_stays no_methods None fuel sample_definition 3 "si-outer" completed_stages "si-inner"
    inner_completed completed_stages_keyed inner_after eq_refl (fun n _ => inner_not_fresh n)).
  reflexivity.
Defined.

Lemma stage_call_outcome_witness :
  (forall r stage auto, decides fuel sample_definition stage_session "si-inner" r stage auto ->
     exists at_, stage_instances completed_stages !! "si-inner" = Some (in_state StageState.Completed (Some at_) r))
  /\ (settled fuel sample_definition stage_session "si-inner" -> completed_stages = stage_session).
Proof.
  exact (stage_call_outcome no_methods None fuel sample_definition 3 "si-inner" stage_session completed_stages
    stage_session_keyed (fun n _ => inner_not_fresh n) call_succeeds).
Defined.

Lemma mirror_stays_ok_witness : mirror_ok completed_stages.
Proof.
  exact (mirror_stays_ok no_methods None fuel sample_definition 3 "si-inner" stage_session
    stage_session_mirror).
Defined.

Lemma sample_case_keyed ci : case_instances completed_stages !! "case-1" = Some ci -> instance_id ci = "case-1".
Proof. vm_compute. by intros [= <-]. Qed.
Lemma sample_case_decides : case_decides fuel completed_stages "case-1" sample_case sample_definition true false.
Proof. split_and!; [vm_compute; reflexivity|reflexivity|vm_compute; reflexivity|apply case_may_complete_then]. Qed.

Lemma case_call_outcome_witness :
  exists s1, case_closed s1 "case-1" sample_case
    /\ maybe_complete_case no_methods None fuel (fun _ => mret tt) "case-1" completed_stages = (Ok tt, s1).
Proof.
  destruct (case_call_outcome no_methods None fuel (fun _ => mret tt) "case-1" completed_stages
    completed_stages_mirror sample_case_keyed) as (_ & _ & _ & H).
  exact (H sample_case sample_definition sample_case_decides ltac:(vm_compute; reflexivity)).
Defined.

(** ** An ignored enabled stage *)
Lemma rows_checked fuel s ci rule_items l :
  forallb (ignored fuel s ci rule_items) l = true -> forall row, row ∈ l -> ignored fuel s ci rule_items row = true.
Proof. rewrite forallb_forall. intros Hall row Hr. apply Hall. by apply list_elem_of_In. Qed.


(** A case with a stage under manual activation that its rule ignores. *)
Definition manual_plan : ContainerView :=
  Container (mkHeader "plan" "Plan" false None [])
    [ignored_item "stageItem" "manual"; plain_item "processItem" "process"]
    [Container (mkHeader "manual" "Manual" false None []) [] [] []] [].

Definition enabled_stage_session : CmmnSession :=
  with_stages [stage_instance "si-manual" None "stageItem" "manual" StageState.Enabled]
    (with_case (mkCaseDefinition "def-1" (mkCase manual_plan [] ∅)) empty_tables).

(** With a process task enabled beside it, which no rule ignores. *)
Definition enabled_process : CmmnPlanItemInstance :=
  mkPlanItemInstance "pi-process" "case-1" "def-1" None "processItem" "process" "processtask" "Process"
    "ENABLED" "then" (Some "then") None.

Definition enabled_process_session : CmmnSession :=
  (persist_plan_item_instance_session enabled_process enabled_stage_session).2.

(** The rule that ignores an enabled stage keeps the case open: nothing
    blocks the case, and it does not complete, since the stage's row of the
    mirror is subtracted and was not counted; with an enabled process task
    beside it, which blocks, the case completes. *)
Theorem ignored_stage_miscounted :
  (case_may_complete fuel enabled_stage_session sample_case manual_plan = Ok (false, false)
   /\ nothing_blocks fuel enabled_stage_session sample_case manual_plan
        (case_blocking_rows enabled_stage_session sample_case false)
        (case_considered_rows enabled_stage_session sample_case false)
   /\ pending_case_level_discretionary_item_count enabled_stage_session sample_case = 0%Z)
  /\ case_may_complete fuel enabled_process_session sample_case manual_plan = Ok (true, false)
  /\ ~ nothing_blocks fuel enabled_process_session sample_case manual_plan
         (case_blocking_rows enabled_process_session sample_case false)
         (case_considered_rows enabled_process_session sample_case false).
Proof.
  split_and!; [vm_compute; reflexivity| |vm_compute; reflexivity|vm_compute; reflexivity|].
  - split.
    + apply rows_checked. vm_compute. reflexivity.
    + intros p Hp Hreq. exfalso.
      repeat (apply elem_of_cons in Hp as [->|Hp]; [vm_compute in Hreq; discriminate|]).
      by apply elem_of_nil in Hp.
  - intros [Hall _]. specialize (Hall (mirror_row enabled_process)). vm_compute in Hall.
    discriminate Hall. right. left.
Qed.

(** ** A stage with a running process *)
Definition with_associations (l : list TaskAssociation) (s : CmmnSession) : CmmnSession :=
  mkSession (plan_item_events s) (human_tasks s) (human_task_history s) (stage_instances s) (stage_history s)
    (plan_item_instances s) (event_subscriptions s) l (cmmn_jobs s) (case_instances s) (case_history s)
    (case_definitions s) (command_events s) (rows_written s).

(** The decision on a stage does not depend on the process and case tasks that
    run in it: a stage completes while they are active. *)
Theorem stage_ignores_running_tasks fuel s ci stage id l :
  stage_may_complete fuel (with_associations l s) ci stage id = stage_may_complete fuel s ci stage id.
Proof. reflexivity. Qed.

Definition running_session : CmmnSession :=
  with_associations [mkAssociation "case-1" (Some "si-inner") "processItem" AssociationState.Active] stage_session.

(** In the sample, the inner stage completes over its running process. *)
Theorem stage_completes_over_running_process :
  let '(outcome, s) := maybe_complete_stage no_methods None fuel 3 sample_definition "si-inner" running_session in
  outcome = Ok tt /\ state_of s "si-inner" = Some StageState.Completed
  /\ task_associations s
     = [mkAssociation "case-1" (Some "si-inner") "processItem" AssociationState.Active].
Proof. vm_compute. done. Qed.

(** ** A repeating stage in a terminated stage *)
Definition parent_stage : ContainerView :=
  Container (mkHeader "parent" "Parent" false None []) [repeating_item "childItem" "child"]
    [Container (mkHeader "child" "Child" false None []) [] [] []] [].

Definition repeating_plan : ContainerView :=
  Container (mkHeader "plan" "Plan" false None []) [plain_item "parentItem" "parent"] [parent_stage] [].

Definition repeating_definition : CmmnCaseDefinition := mkCaseDefinition "def-1" (mkCase repeating_plan [] ∅).

Definition parent_row : CmmnStageInstance :=
  stage_instance "si-parent" None "parentItem" "parent" StageState.Active.

Definition repeating_session : CmmnSession :=
  with_stages [parent_row;
               stage_instance "si-child" (Some "si-parent") "childItem" "child" StageState.Active]
    (with_case repeating_definition empty_tables).

(** Terminating a stage whose child stage repeats leaves a new instance of the
    child, available, below a parent that is gone: the child is terminated
    and repeated while the parent's row is still active.  The case does not
    complete with it. *)
Theorem terminated_stage_leaves_child :
  let '(outcome, s) :=
    terminate_stage_instance no_methods None fuel repeating_definition parent_stage parent_row repeating_session in
  outcome = Ok [("childItem"%string, Some "si-parent"%string); ("parentItem"%string, None)]
  /\ (fun r => (si_state r, si_parent_stage_instance_id r, si_plan_item_id r)) <$> rows (stage_instances s)
     = [(StageState.Available, Some "si-parent"%string, "childItem"%string)]
  /\ case_may_complete fuel s sample_case repeating_plan = Ok (false, false).
Proof. vm_compute. done. Qed.
